(* ===== verification/_CoqProject ===== *)
-Q . S2P
Prelude.v
Bytes.v
Utf8.v
Numerals.v
Reader.v
BTree.v
Foreign.v
Stamp.v
PlanTypes.v
Tfm1.v
Tfm1Decode.v
Tfm1Builder.v
Tfp1.v
Regions.v
Pattern.v
Fusion.v
Contract.v
Source.v
GgufReader.v
Gguf.v
Safetensors.v
Planner.v
PlanFrame.v
Object.v
PlanMirror.v
MixedRadix.v
Formula.v
Morphism.v
MorphismPlan.v
MorphismWalk.v
MorphismMove.v
PermuteKernel.v
Adapter.v
Fill.v
Cuda.v
Store.v
StoreFacts.v
FileSource.v
RecordsSource.v
Metadata.v
RecordMaps.v
Tree.v
Mutations.v
Workspace.v
Gc.v
Seal.v
Layout.v
Ratify.v
Compose.v
Sync.v
SyncPlans.v
Http.v
WorkspaceFacts.v
Database.v
StoreGuarantees.v
Stream.v
Staging.v
GcFacts.v
Sweep.v
System.v
SealFacts.v
ComposeFacts.v
AdoptFacts.v
SyncPush.v
SyncPull.v
SyncTermination.v
SyncGuarantees.v
LayoutFacts.v
LayoutGuarantees.v
LayoutScrub.v
LayoutReap.v
Python.v
PyFill.v
Machine.v
Guarantees.v
Runs.v
Composition.v
SyncRuns.v
LayoutRuns.v
HttpRuns.v
