(* ===== verification/Prelude.v ===== *)
(** * TensorFS core: a verification library

    TensorFS stores model checkpoints as content-addressed objects.  A file is
    _planned_ (cut into regions on tensor boundaries), each region is hashed
    into an object, the objects travel in _packs_, and a directory tree of
    planned files is recorded in a _manifest_ whose digest is the snapshot's
    identity.  A _contract_ (seam descriptor) may add cut points inside fused
    tensors, so that two packagings of one model share objects.  Objects live in
    a local _store_; _workspaces_ are mutable trees over them, kept in a database,
    which are committed in generations, sealed into snapshots and collected by
    reachability.  Snapshots are _projected_ as trees of links and _synced_ with a
    hub; a container is _composed_ out of another's objects, read back as a stream
    or moved, rearranged, into host or device memory.  All of this lives in
    [src/crates/tensorfs-core/src/], with a device sink in
    [src/crates/tensorfs-cuda/] and a Python extension in
    [src/crates/tensorfs-py/]; the three crates are what this library models.

    ** Files, in dependency order

    - [Prelude]: this file.  [Result], [?] and [ok_or] as notations, [for] loops
      with early return and their invariant rules, 64-bit arithmetic (checked
      operations return [None]; unchecked ones wrap, as the release profile
      compiles them), slices with [Z] offsets, [chunks].
    - [Bytes], [Utf8], [Numerals]: bytes and little-endian integers, byte-string
      order and splitting, UTF-8 as [std::str::from_utf8] checks it (with its
      error report), decimal and hexadecimal numerals as [FromStr] and
      [from_str_radix] read them.
    - [Reader]: the checked cursor of the two binary formats ([struct Reader] of
      [tfm1.rs] and [tfp1.rs]) and the class [Codec] that pairs a decoder with
      its encoder; composite decoders are proved from their parts' instances.
    - [BTree]: [BTreeMap] as a strictly sorted association list; stable sorting.
    - [Foreign]: code the repository only calls, as classes - SHA-256, Unicode
      tables, the allocator - each with a concrete instance used by witnesses.
    - [Stamp], [Pattern], [Fusion], [Contract]: [contract.rs].  Stamps and
      handles; name patterns; fusion runs and permute views; the document's
      validation, canonical rendering, digest, seams and sets.
    - [PlanTypes], [Regions]: the vocabulary and the grid of [planner/mod.rs] -
      [Plan::validate], [append_split_region], [append_tensor_regions].
    - [Tfm1], [Tfm1Decode], [Tfm1Builder]: [tfm1.rs].  Manifest data, validation
      and encoding; the strict decoder; the builder with hardlink re-rooting.
    - [Tfp1]: [tfp1.rs], the object pack.
    - [Source]: [trait ByteSource] as a class over a state of its own (a file can
      change between two calls), a state-and-error monad for the code that reads
      one, Hoare triples for it, and the bounded-buffer loop.
    - [GgufReader], [Gguf]: [planner/gguf.rs].  The bounded reader, the metadata
      grammar and budgets; the directory, the layout and its plan.
    - [Safetensors]: [planner/safetensors.rs].
    - [Planner]: [plan_with], [plan_once] and [inventory] of [planner/mod.rs].
    - [PlanFrame]: planning changes its source only by reading it; the rules for
      what code keeps true.
    - [Object]: [object.rs], the hashing of a plan.
    - [PlanMirror]: planning and hashing depend on a source only through its reads.
    - [MixedRadix]: digits, weights and their uniqueness, the index arithmetic of
      layouts.
    - [Formula], [Morphism]: [layout_morphism.rs], how a stored tensor is
      rearranged for the code that reads it.  The shape-formula evaluator; the
      record, its check, its plan for a shape, the walk in contiguous runs and
      the mover in both directions.  [MorphismPlan], [MorphismWalk] and
      [MorphismMove] hold its proofs: the plan as a mixed-radix map, the walk
      against a reference, the bytes.  [Ratify]: its ratification probes and
      catalog.
    - [PermuteKernel], [Adapter]: [adapter.rs], the transposition kernel and the
      decision whether one contract's file can be served in another as a view.
    - [Fill]: [layout_fill.rs], the fill of memory a sink owns ([trait FillSink]
      as a class) from a tensor's chunks.  [Cuda]: [tensorfs-cuda], the sink over
      pinned memory and a device, another instance of the class.

    - [Store], [StoreFacts]: [store.rs].  The directory tree below the store's
      root as a record ([disk]): objects by digest, temporaries with their locks.
      A system call takes the next outcome of a schedule in the state - it
      proceeds, fails, perhaps after a prefix of its effect, or the process dies -
      so a theorem about every state is one about every fault and every crash.
    - [FileSource]: [source.rs], files other processes may change as byte sources;
      [RecordsSource]: [workspace_source.rs], a committed file as one; [Stream]:
      [stream.rs], the streamed read of a committed file, around the page cache.
    - [Metadata]: the schema and the functions over it of [workspace.rs] - rows,
      path resolution, record maps, the ten mutations, truncation, staging.  A
      table is a finite map, a statement a function with SQL's meaning, keys and
      cascades included.  [RecordMaps], [Tree] and [Mutations] hold the proofs:
      record maps as runs, the entries as a forest, and each mutation against an
      abstract file system of paths, identities and contents ([spec_mutation]).
    - [Workspace], [Gc], [Seal]: the operations of [WorkspaceStore].  The state
      ([world]) is the disk, the tables and which engine calls fail; a
      [transaction] that does not commit restores the tables.
    - [Database]: [workspace_db.rs] with [ObjectStore::open] and
      [WorkspaceStore::open].  The engine is a class of futures with laws for its
      transactions; the executor, the binding and the opening are between it and
      the [transaction] above.
    - [Layout]: [layout.rs], the projected trees and refs, with [project_snapshot],
      [delete_snapshot] and [scrub] of [workspace.rs]; [LayoutFacts],
      [LayoutGuarantees], [LayoutScrub], [LayoutReap]: its proofs.
    - [Compose]: [compose.rs]; [ComposeFacts], [AdoptFacts], [Composition]:
      its proofs and theorems.
    - [Sync]: the engine of [sync.rs] over [trait SyncTransport], a class; [SyncPlans],
      [SyncPush], [SyncPull], [SyncTermination], [SyncGuarantees]: its proofs and
      theorems.  [Http]: the module [http] of [sync.rs], an instance of the class.
    - [WorkspaceFacts], [Staging], [GcFacts], [Sweep]: the rules for
      statements and transactions; the walk of a tree and the snapshot it gives;
      what a mutation makes the heads reach; the mark; a collection pass.
    - [System], [SealFacts], [Machine]: the invariant [safe] and that
      every operation keeps it; admission and re-cutting keep a file's bytes; the
      relation [step_world] and the states [reachable] by it.
    - [StoreGuarantees], [Guarantees]: the theorems on the store and on the
      workspaces; [Runs], [SyncRuns], [HttpRuns], [LayoutRuns]: concrete runs that
      meet the hypotheses of the theorems.
    - [Python], [PyFill]: [tensorfs-py].  The values, exceptions and calls of the
      extension; the fills of host buffers, files and devices.

    ** What the theorems show

    - Identity.  A manifest the decoder accepts is the encoding of what it
      returns, and every well-formed snapshot's encoding is accepted
      ([Tfm1Decode.decode_canonical], [decode_to_bytes]); likewise for packs
      ([Tfp1.encode_decode], [pack_decode_encode]).  A snapshot and a pack depend
      on the set of declarations, not on their order
      ([Tfm1Builder.finish_permutation], [Tfp1.encode_permutation]); a
      safetensors plan does not depend on the unspecified order of an unstable
      sort ([Safetensors.st_plan_sort_independent]).
    - Content.  The builder keeps every declaration through re-rooting
      ([Tfm1Builder.finish_content]); the objects of a plan concatenate to the
      file ([Planner.objects_reassemble]); digests are digests of the planned
      bytes ([Object.hash_plan_correct]).
    - Sharing.  A fused tensor cut at its seams has its parts' objects
      ([Regions.fused_objects_are_split_objects]); a GGUF tensor and its
      safetensors twin, both planned and hashed, have the same objects
      ([Object.twins_share_objects]).
    - Exactness and safety of the parsers, over any source, including one that
      fails or lies: [Gguf.gguf_parse_layout], [gguf_plan_isolates],
      [Safetensors.st_plan_isolates], [Planner.plan_with_sound],
      [Tfm1Decode.decode_wf], [decode_paths_safe], [Tfp1.pack_objects_tile];
      budgets and bounds in [GgufReader.metadata_budget_bounded],
      [Gguf.align_up_correct], [Contract.seam_offsets_ok].  A list of runs whose
      allocation does not return is a value of the model
      ([Contract.huge_share_does_not_return]).
    - Totality.  Over a source whose in-range reads succeed, with memory, every
      file has a plan and its digests ([Planner.plan_with_total],
      [Object.plan_and_hash_total]); the builder's panicking [expect]s are
      unreachable ([Tfm1Builder.resolve_total]).
    - Equivalence of optimised code with a reference: the chunked UTF-8 check
      ([GgufReader.skip_utf8_string_correct]), [Plan::validate] as a tiling
      predicate ([Regions.validate_coverage]), the bit trick of [align_up], the
      layout walk that folds positions into runs ([MorphismMove.walk_correct]).
    - Rearrangement.  A checked layout writes every source element exactly once
      ([MorphismMove.walk_bijective]), its two directions are inverse
      ([apply_round_trip]), and a fill stages the same bytes however the tensor
      is cut into chunks ([Fill.fill_correct]); formulas mean their left-to-right
      value ([Formula.eval_print]).
    - Durability.  Whatever fails, a put installs its whole object or nothing and
      touches no other ([StoreGuarantees.put_bytes_safe]); a commit happens
      entirely or not at all ([Guarantees.commit_generation_atomic]) and to one
      workspace only ([commit_generation_isolated]); no state reachable by the steps
      of [step_world] has a root that reaches a missing or altered object
      ([reachable_no_dangling]).
    - Collection.  What a manifest names is the inductive [GcFacts.names_object], one
      rule per kind of body, independent of the code's own walk.  The mark is exactly
      what the roots reach ([mark_exact]), a pass
      removes only what has been unreached for two epochs ([collect_pass_correct]),
      and where nothing fails an unreached object is gone after three passes
      ([unreached_object_collected]).
    - Refinement.  Mutations implement the abstract file system
      ([apply_mutation_correct]); a snapshot is its head's file system
      ([build_snapshot_correct]); sealing re-cuts files without changing a byte
      ([seal_plan_keeps_bytes]) and roots what it stored ([seal_commit_correct]);
      reading a record run is slicing its file ([records_read_correct]).
    - Types and termination of the tables, in the states [step_world] reaches:
      [reachable_typed], [staging_terminates];
      of the store: [writer_terminates]; leases of temporaries are respected
      ([reclaim_keeps_locked]).
    - The database.  A transaction over the binding is a transaction of the
      workspaces ([Database.transaction_refined]), its executor returns
      ([block_on_returns]), and opening keeps every object and table whatever fails
      ([store_open_keeps], [workspace_open_outcome]).
    - Reading.  Digests taken of a file are those of one state of it, where a change
      of it shows in what is stat'ed ([FileSource.file_ingest_is_snapshot]; a rewrite
      within one tick of the clock does not, [racy_rewrite_unseen]); a streamed read
      is the ordinary one, and never asks the device for blocks it would refuse
      ([Stream.stream_read_correct]).
    - Composition.  Re-keyed and trimmed containers have the tensors they had
      ([Composition.compose_keeps_tensors]), adoption keeps the bytes
      ([adopt_keeps_bytes]), a derived container holds the source's contents in the
      layout its contract declares ([derive_serves_target], against the layouts'
      meaning, [PermuteKernel.relaid]), a view drops nothing
      ([Adapter.view_keeps_every_byte]); the permute kernel is a transposition and
      is undone ([PermuteKernel.permute_transpose], [transform_round_trip]).
    - Sync, against any remote.  A push sends only bytes of the declared closure and
      reports only what the remote said; it asks for completion once the remote has
      answered that no blob is missing and its last answer lists no object missing
      ([SyncGuarantees.push_is_honest]), its packs
      hold what is missing ([packs_hold_missing]), a pull admits only what it
      verified ([pull_is_verified]), completion and, where the debt does not grow,
      the push end ([push_terminates]); the HTTP adapter takes a download for what
      was granted ([Http.download_exact]) and an answer for what it says
      ([answers_understood]).
    - Projection.  A tree is there whole or not at all
      ([LayoutGuarantees.project_is_atomic]), a ref names the old or the new snapshot
      ([set_ref_is_atomic]), neither touching another writer's scratch or lease, a scrub removes only what names nothing
      ([LayoutScrub.scrub_correct]), a reap leaves live writers alone
      ([LayoutReap.reap_keeps_live_scratch]), a link leads to its object
      ([link_reaches_object]).
    - Fills and bindings.  A record is ratified only where its map and its inverse
      went through on every probe, and one that checks is wherever it has a probe
      ([Ratify.checked_record_ratifies]); a fill leaves the arranged tensor in the
      caller's memory and nothing else ([PyFill.fill_host_correct]), on a device too,
      through a slab grown where it is too small
      ([client_fill_outcome], [Cuda.cuda_writes_stay_inside]); records, snapshots and
      packs cross to Python and back ([Python.python_reads_committed],
      [packs_cross]).
    - Behaviour the code has and its documentation does not promise:
      [Contract.share_sum_wraps], [Contract.huge_share_does_not_return],
      [Contract.stamp_does_not_determine_seams],
      [PermuteKernel.partial_elements_lost], [Ratify.thirds_unreached],
      [FileSource.racy_rewrite_unseen],
      [Stamp.stamp_spelling_not_unique], [Stamp.hex_spelling_not_unique],
      [MorphismMove.plan_count_wraps], [Fill.longer_staging_refused],
      [Runs.rmdir_root_loses_root], [Adapter.view_ignores_target_dtypes],
      [Adapter.view_reshapes_scalars], [SyncRuns.blob_lane_outlasts_budget],
      [LayoutRuns.fresh_lease_reaped], [Python.admit_file_can_tear],
      [Python.grace_can_panic], [PyFill.one_failure_ends_a_client],
      [Database.stuck_transaction], [Database.lossy_roots_share_tables].

    ** Conventions and bounds

    - [usize] is 64 bits.  A Rust string is its bytes; where the type guarantees
      UTF-8 the theorem says so.  [HashSet]s used only for membership are lists.
    - A panic is [None] ([Tfm1Builder.resolve], [Tfp1.objects],
      [Morphism.for_each_run], [Fill.fill]) where it is
      reachable from the code's own control flow; [expect]s on values just
      established are inlined.
    - Fuel: [for] loops over a count use the count; the grid and the
      bounded-buffer loops use the number of parts, proved exact
      ([Regions.split_loop_grid], [Source.while_chunks_unfold]); the metadata
      recursion uses the depth limit ([GgufReader.parse_metadata_value_fuel]);
      a formula's evaluation uses its length ([Formula.eval_loop_fuel]); the
      layout walk counts its runs; the walk of a workspace uses one more than the
      number of entries ([Guarantees.staging_terminates]) and the search for a
      temporary's name one more than the temporaries and scheduled faults
      ([StoreGuarantees.writer_terminates]), that for a lease's name likewise
      ([LayoutReap.take_lease_fuel]); a loop of reads uses the bytes wanted and the
      scheduled moments or outcomes, a download the bytes of the body and one more,
      the executor the polls its future still needs
      ([Database.block_loop_returns]); a push is given its rounds
      ([SyncGuarantees.push_terminates] says how many are enough); decimal printing uses twenty digits, enough for 64 bits.
    - Fallible allocation ([try_reserve_exact]) is the class [Allocator], and so are
      the infallible allocations whose size a document declares and nothing bounds:
      [Vec::with_capacity] of the runs of a fusion ([Fusion.runs]) and the buffers of
      a ratification's probes ([Ratify.ratify]).  They return where the bytes fit
      [isize] and the allocator has them ([Foreign.with_capacity]), and else the
      process panics or aborts: [PE_Panic], [PF_Panic], [AE_Panic], [CO_Panic].
      Every other allocation holds bytes or entries that were read, and is assumed
      to succeed.
    - The device behind a direct read refuses an offset, an address or a length that
      is not whole blocks, before the end of the file; at the end it answers with no
      bytes, as the file systems of Linux do.  A read it serves in part is whole
      blocks ([Stream.ShortReads]).
    - A file's change time is what the clock said when it was changed, which may be
      what it said before ([FileSource.Rewrites]).
    - The epoch of the collector, an [i64] that counts passes, is not bounded.
    - Parameters: SHA-256 (32-byte digests), Unicode normalization and case
      mapping, the allocator, [serde_json] (a contract document and a safetensors
      header as the values it delivers), the unstable sort (any sorted
      permutation), [slice::binary_search] (any matching position), byte sources
      other than a slice, fill sinks other than host memory; the order in which a
      directory, an unordered query or a hash set lists ([Unordered]), the row id
      an insert picks ([Rowid], any that is not in use); the remote ([SyncTransport])
      or, below the adapter, the carrier and the text of JSON ([Carrier],
      [WireText]); the JSON of stubs, layout records and strings ([StubJson],
      [LayoutDocuments], [JsonText]); where a link leads ([Following],
      [LinkTargets]); how short a device's reads are ([ShortReads]); the CUDA driver
      ([CudaDriver]); mappings of empty files and of files that change ([Mmap],
      [Torn]); the database engine ([Turso], [Transactional], [Opens]).
    - The store and the workspaces.  A step of [step_world] is one operation of
      the interface run to its end - a commit's and a seal's preparation and
      transaction are separate steps, an adoption is one; pushes and pulls are steps
      too.  [create_workspace], which drops the error of its lookup, is modelled on
      an engine whose failed reads leave the transaction open.  The premises of a step
      are the types of its arguments, paths other than the empty one where the
      code would remove a workspace's root, and that no two byte strings in play
      share a digest.  [fsync] is a call that can fail; what a power loss takes
      from calls that returned is not modelled.  Generations and lengths are
      stored as the [i64] with the same bits.
    - The layout theorems are about plans whose destination has fewer than [2^64]
      elements, which the code does not check.

    ** Not modelled

    Attribute getters, [Display], [Debug] and [__repr__] texts, and the messages of
    errors, for which what they state stands; the registration of the Python
    module, the interpreter lock and the allocation of interpreter objects; the
    loading of the CUDA library; the Windows variants of conditional code; sleeping
    (the delays are modelled); what a power loss takes from calls that returned.
    [build.rs], which writes the table of catalog files, and the two benchmarks
    under [examples/] are glue.  Everything else under [src/crates/] has a
    definition here. *)

From Stdlib Require Export ZArith Lia Bool.
From stdpp Require Export prelude.
Open Scope Z_scope.

(** ** Results: Rust's [Result<T, E>] *)

Inductive result (E A : Type) : Type :=
| Ok (a : A)
| Err (e : E).
Arguments Ok {E A} a.
Arguments Err {E A} e.

Declare Scope rust_scope.
Delimit Scope rust_scope with rust.
Open Scope rust_scope.

(** The [?] operator: bind the [Ok] payload, return the [Err] unchanged. *)
Notation "'let?' x ':=' e 'in' k" :=
  (match e with Ok x => k | Err er => Err er end)
  (at level 10, x pattern, e at level 100, k at level 200) : rust_scope.

(** [expr.ok_or(error)?] on an option. *)
Notation "'let!' x ':=' o '?:' er 'in' k" :=
  (match o with Some x => k | None => Err er end)
  (at level 10, x pattern, o at level 100, er at level 100, k at level 200)
  : rust_scope.

(** [expr?] inside a function that returns an [Option]. *)
Notation "'let*' x ':=' o 'in' k" :=
  (match o with Some x => k | None => None end)
  (at level 10, x pattern, o at level 100, k at level 200) : rust_scope.

Definition map_err {E F A} (f : E -> F) (r : result E A) : result F A :=
  match r with Ok a => Ok a | Err e => Err (f e) end.

Lemma map_err_Ok {E F A} (f : E -> F) (r : result E A) a :
  map_err f r = Ok a -> r = Ok a.
Proof. destruct r; simpl; congruence. Qed.

Definition result_map {E A B} (f : A -> B) (r : result E A) : result E B :=
  match r with Ok a => Ok (f a) | Err e => Err e end.

Definition is_ok {E A} (r : result E A) : bool :=
  match r with Ok _ => true | Err _ => false end.

#[export] Instance result_eq_dec {E A} `{EqDecision E, EqDecision A} :
  EqDecision (result E A).
Proof. solve_decision. Defined.

(** A [for] loop whose body may return early with an error: the accumulator is
    the mutable state the loop threads. *)
Fixpoint for_each {E A S} (body : S -> A -> result E S) (s : S) (l : list A)
  : result E S :=
  match l with
  | [] => Ok s
  | x :: l => let? s := body s x in for_each body s l
  end.

(** [for _ in 0..count]. *)
Fixpoint for_count {E S} (body : S -> result E S) (s : S) (count : nat)
  : result E S :=
  match count with
  | O => Ok s
  | S n => let? s := body s in for_count body s n
  end.

(** ** Machine integers

    A [u64], [u32] or [usize] (64 bits) is a [Z] in range.  Checked operations
    return [None] on overflow; the unchecked operators wrap, which is what the
    release profile of the workspace compiles them to. *)

Definition U8 : Z := 2 ^ 8.
Definition U32 : Z := 2 ^ 32.
Definition U64 : Z := 2 ^ 64.

Definition in_u32 (z : Z) : Prop := 0 <= z < U32.
Definition in_u64 (z : Z) : Prop := 0 <= z < U64.

Definition checked_add (a b : Z) : option Z :=
  if a + b <? U64 then Some (a + b) else None.
Definition checked_mul (a b : Z) : option Z :=
  if a * b <? U64 then Some (a * b) else None.
Definition wadd (a b : Z) : Z := (a + b) mod U64.
Definition wsub (a b : Z) : Z := (a - b) mod U64.
Definition wmul (a b : Z) : Z := (a * b) mod U64.

(** [a.div_ceil(b)]. *)
Definition div_ceil (a b : Z) : Z := (a + b - 1) / b.

(** [a.is_multiple_of(b)]: false for a zero divisor unless [a] is zero. *)
Definition is_multiple_of (a b : Z) : bool :=
  if b =? 0 then a =? 0 else a mod b =? 0.

(** A slice's [len()]. *)
Definition zlen {A} (l : list A) : Z := Z.of_nat (length l).

(** [a[from..to]] on a slice known to contain the range. *)
Definition slice {A} (l : list A) (from to : Z) : list A :=
  take (Z.to_nat (to - from)) (drop (Z.to_nat from) l).

(** [slice.get(from..to)]: [None] when the range is not inside the slice. *)
Definition get_range {A} (l : list A) (from to : Z) : option (list A) :=
  if (from <=? to) && (to <=? zlen l) then Some (slice l from to) else None.

(** ** Automation *)

(** Inverts a hypothesis that says a chain of binds and guards returned a
    given value, one discriminee at a time. *)
Ltac inv_step H :=
  match type of H with
  | context [match ?e with _ => _ end] =>
      let E := fresh "E" in destruct e eqn:E; try discriminate H
  end.
Ltac inv_all H := repeat (inv_step H; simplify_eq/=).

Create HintDb rust.
#[export] Hint Extern 5 (_ <= _)%Z => lia : rust.
#[export] Hint Extern 5 (_ < _)%Z => lia : rust.

Create Rewrite HintDb zlen.

(** ** Lemmas on the loops *)

Section loops.
Context {E A S : Type}.

Lemma for_each_app (body : S -> A -> result E S) s l k :
  for_each body s (l ++ k) =
  match for_each body s l with Ok s => for_each body s k | Err e => Err e end.
Proof.
  revert s. induction l as [|x l IH]; intros s; simpl; [done|].
  destruct (body s x); [apply IH | done].
Qed.

(** The loop rule: an invariant relating the elements consumed so far to the
    state holds at exit when the body preserves it. *)
Lemma for_each_inv (body : S -> A -> result E S) (P : list A -> S -> Prop) l s s' :
  P [] s ->
  (forall pre x post t t', l = pre ++ x :: post -> P pre t -> body t x = Ok t' ->
     P (pre ++ [x]) t') ->
  for_each body s l = Ok s' -> P l s'.
Proof.
  intros H0 Hstep.
  assert (forall post pre t, l = pre ++ post -> P pre t ->
            for_each body t post = Ok s' -> P l s') as Haux.
  { induction post as [|x post IH]; simpl; intros pre t Hl HP Hrun.
    - rewrite app_nil_r in Hl. by simplify_eq.
    - destruct (body t x) as [t'|] eqn:Eb; [|done].
      eapply (IH (pre ++ [x]) t'); [by rewrite <-app_assoc | | done].
      by eapply Hstep. }
  intros Hrun. by eapply (Haux l [] s).
Qed.

(** The dual rule: when every iteration succeeds from the invariant, so does
    the loop, and the invariant holds at exit. *)
Lemma for_each_total (body : S -> A -> result E S) (P : list A -> S -> Prop) l s :
  P [] s ->
  (forall pre x post t, l = pre ++ x :: post -> P pre t ->
     exists t', body t x = Ok t' /\ P (pre ++ [x]) t') ->
  exists s', for_each body s l = Ok s' /\ P l s'.
Proof.
  intros H0 Hstep.
  assert (forall post pre t, l = pre ++ post -> P pre t ->
            exists s', for_each body t post = Ok s' /\ P l s') as Haux.
  { induction post as [|x post IH]; simpl; intros pre t Hl HP.
    - rewrite app_nil_r in Hl. simplify_eq. eauto.
    - destruct (Hstep pre x post t Hl HP) as (t' & -> & HP').
      eapply (IH (pre ++ [x]) t'); [by rewrite <-app_assoc | done]. }
  by eapply (Haux l [] s).
Qed.

(** A loop that fails does so at one element, after a successful prefix. *)
Lemma for_each_Err (body : S -> A -> result E S) l s e :
  for_each body s l = Err e ->
  exists pre x post t, l = pre ++ x :: post /\ for_each body s pre = Ok t /\ body t x = Err e.
Proof.
  revert s. induction l as [|x l IH]; simpl; intros s H; [done|].
  destruct (body s x) as [t|e'] eqn:Eb.
  - destruct (IH t H) as (pre & y & post & t' & -> & Hpre & Hy).
    exists (x :: pre), y, post, t'. simpl. by rewrite Eb.
  - simplify_eq. by exists [], x, l, s.
Qed.

Lemma for_count_inv (body : S -> result E S) (P : nat -> S -> Prop) n s s' :
  P O s ->
  (forall k t t', (k < n)%nat -> P k t -> body t = Ok t' -> P (Datatypes.S k) t') ->
  for_count body s n = Ok s' -> P n s'.
Proof.
  intros H0 Hstep.
  assert (forall m k t, (k + m = n)%nat -> P k t ->
            for_count body t m = Ok s' -> P n s') as Haux.
  { induction m as [|m IH]; simpl; intros k t Hk HP Hrun.
    - replace n with k by lia. by simplify_eq.
    - destruct (body t) as [t'|] eqn:Eb; [|done].
      eapply (IH (Datatypes.S k) t'); [lia | | done].
      eapply Hstep; [lia | done..]. }
  intros Hrun. by eapply (Haux n O s).
Qed.
End loops.

(** A loop that only checks succeeds when every check does. *)
Lemma for_each_check {E A} (f : A -> result E unit) l :
  for_each (fun _ x => f x) tt l = Ok tt <-> Forall (fun x => f x = Ok tt) l.
Proof.
  induction l as [|x l IH]; simpl; [by split; [constructor|]|].
  rewrite Forall_cons, <-IH. destruct (f x) as [[]|] eqn:Hfx; [tauto|]. split; [done|]. intros []; congruence.
Qed.

(** ** Lemmas on slices and lengths *)

Lemma zlen_nonneg {A} (l : list A) : 0 <= zlen l.
Proof. unfold zlen. lia. Qed.
#[export] Hint Resolve zlen_nonneg : rust.

Lemma zlen_nil {A} : zlen (@nil A) = 0.
Proof. done. Qed.
Lemma zlen_cons {A} (x : A) l : zlen (x :: l) = 1 + zlen l.
Proof. unfold zlen. simpl. lia. Qed.
Lemma zlen_app {A} (l k : list A) : zlen (l ++ k) = zlen l + zlen k.
Proof. unfold zlen. rewrite length_app. lia. Qed.
Lemma zlen_fmap {A B} (f : A -> B) (l : list A) : zlen (f <$> l) = zlen l.
Proof. unfold zlen. by rewrite length_fmap. Qed.
#[export] Hint Rewrite @zlen_nil @zlen_cons @zlen_app @zlen_fmap : zlen.

Local Ltac solve_checked e :=
  destruct (Z.ltb_spec e U64); split; intros; destruct_and?; simplify_eq; auto; lia.
Lemma checked_add_Some a b c : checked_add a b = Some c <-> c = a + b /\ a + b < U64.
Proof. unfold checked_add. solve_checked (a + b). Qed.
Lemma checked_add_None a b : checked_add a b = None <-> U64 <= a + b.
Proof. unfold checked_add. solve_checked (a + b). Qed.
Lemma checked_mul_Some a b c : checked_mul a b = Some c <-> c = a * b /\ a * b < U64.
Proof. unfold checked_mul. solve_checked (a * b). Qed.

Lemma wadd_small a b : 0 <= a + b < U64 -> wadd a b = a + b.
Proof. intros. unfold wadd. by apply Z.mod_small. Qed.
Lemma wsub_small a b : 0 <= a - b < U64 -> wsub a b = a - b.
Proof. intros. unfold wsub. by apply Z.mod_small. Qed.
Lemma wmul_small a b : 0 <= a * b < U64 -> wmul a b = a * b.
Proof. intros. unfold wmul. by apply Z.mod_small. Qed.

Lemma div_ceil_spec a b : 0 < b -> b * (div_ceil a b - 1) < a <= b * div_ceil a b.
Proof.
  intros Hb. unfold div_ceil.
  pose proof (Z.div_mod (a + b - 1) b ltac:(lia)).
  pose proof (Z.mod_pos_bound (a + b - 1) b Hb). nia.
Qed.

Lemma is_multiple_of_true a b :
  is_multiple_of a b = true -> b <> 0 -> a = b * (a / b).
Proof.
  unfold is_multiple_of. intros H Hb. destruct (b =? 0) eqn:E; [lia|].
  pose proof (Z.div_mod a b Hb). lia.
Qed.

Lemma slice_length {A} (l : list A) from to :
  0 <= from <= to -> to <= zlen l -> zlen (slice l from to) = to - from.
Proof.
  unfold zlen, slice. intros ??. rewrite length_take, length_drop. lia.
Qed.

Lemma get_range_Some {A} (l s : list A) from to :
  get_range l from to = Some s ->
  from <= to <= zlen l /\ s = slice l from to.
Proof. unfold get_range. intros H. case_match; simplify_eq. split; [lia | done]. Qed.

(** Reading the front of what is left is reading a slice. *)
Lemma slice_app_drop {A} (l : list A) from to :
  0 <= from <= to -> to <= zlen l ->
  drop (Z.to_nat from) l = slice l from to ++ drop (Z.to_nat to) l.
Proof.
  unfold slice, zlen. intros ??.
  rewrite <-(take_drop (Z.to_nat (to - from)) (drop (Z.to_nat from) l)) at 1.
  f_equal. rewrite drop_drop. f_equal. lia.
Qed.

Lemma zlen_bind {A B} (f : A -> list B) (k : Z) (l : list A) :
  (forall x, x ∈ l -> k <= zlen (f x)) -> k * zlen l <= zlen (l ≫= f).
Proof.
  induction l as [|x l IH]; intros H; [unfold zlen; simpl; lia|].
  rewrite bind_cons. autorewrite with zlen.
  specialize (IH ltac:(set_solver)). specialize (H x ltac:(set_solver)). lia.
Qed.

Lemma slice_middle {A} (a b c : list A) :
  slice (a ++ b ++ c) (zlen a) (zlen a + zlen b) = b.
Proof.
  unfold slice, zlen. rewrite Nat2Z.id, drop_app_length.
  replace (Z.to_nat _) with (length b) by lia. apply take_app_length.
Qed.

Lemma get_range_middle {A} (a b c : list A) :
  get_range (a ++ b ++ c) (zlen a) (zlen a + zlen b) = Some b.
Proof.
  unfold get_range. rewrite slice_middle, !zlen_app.
  pose proof (zlen_nonneg b). pose proof (zlen_nonneg c).
  by replace (_ && _) with true by lia.
Qed.

Lemma slice_join {A} (l : list A) a b c :
  0 <= a -> a <= b <= c -> c <= zlen l -> slice l a b ++ slice l b c = slice l a c.
Proof.
  intros Ha Hb Hc. pose proof (slice_app_drop l a b ltac:(lia) ltac:(lia)) as H1.
  unfold slice at 3. rewrite H1. pose proof (slice_length l a b ltac:(lia) ltac:(lia)) as Hl.
  unfold zlen in Hl. rewrite take_app_ge by lia. f_equal. unfold slice at 1. f_equal. lia.
Qed.

Lemma slice_nil {A} (l : list A) a : slice l a a = [].
Proof. unfold slice. by rewrite Z.sub_diag. Qed.

(** ** Sums and products *)

Definition sumZ (l : list Z) : Z := foldr Z.add 0 l.

Lemma sumZ_app l k : sumZ (l ++ k) = sumZ l + sumZ k.
Proof. induction l; simpl; lia. Qed.

Lemma sumZ_nonneg l : Forall (fun n => 0 <= n) l -> 0 <= sumZ l.
Proof. induction 1; simpl; lia. Qed.

Definition prodZ (l : list Z) : Z := foldr Z.mul 1 l.

Lemma prodZ_app l k : prodZ (l ++ k) = prodZ l * prodZ k.
Proof. unfold prodZ. induction l as [|n l IH]; simpl; [by destruct (foldr _ _ k)|]. rewrite IH. lia. Qed.

(** ** [slice::chunks]

    A list cut into pieces of a given length, the last one as long as is left. *)

Fixpoint chunk_list {A} (fuel : nat) (size : Z) (l : list A) : list (list A) :=
  match fuel with
  | O => []
  | S fuel =>
      match l with
      | [] => []
      | _ :: _ =>
          let n := Z.to_nat (Z.min size (zlen l)) in
          take n l :: chunk_list fuel size (drop n l)
      end
  end.

(** [l.chunks(size)], for a positive size; every piece takes an element, so the
    length is fuel enough. *)
Definition chunks {A} (size : Z) (l : list A) : list (list A) := chunk_list (length l) size l.

Lemma chunk_list_spec {A} fuel size (l : list A) :
  0 < size -> (length l <= fuel)%nat ->
  concat (chunk_list fuel size l) = l /\ Forall (fun c => c <> [] /\ zlen c <= size) (chunk_list fuel size l).
Proof.
  intros Hs. revert l. induction fuel as [|fuel IH]; intros l Hl.
  { destruct l; [|simpl in Hl; lia]. by split. }
  cbn [chunk_list]. destruct l as [|x l]; [by split|].
  set (n := Z.to_nat (Z.min size (zlen (x :: l)))).
  assert (1 <= n)%nat as Hn by (unfold n, zlen; simpl; lia).
  destruct (IH (drop n (x :: l))) as [Hc Hf]; [rewrite length_drop; simpl in *; lia|].
  split; [simpl; rewrite Hc; apply take_drop|]. constructor; [|done]. split.
  - intros Ht%(f_equal length). rewrite length_take in Ht. simpl in Ht. lia.
  - unfold zlen. rewrite length_take. unfold n, zlen. lia.
Qed.

(** The pieces are the list, in order, and each is of a legal size. *)
Lemma chunks_spec {A} size (l : list A) :
  0 < size -> concat (chunks size l) = l /\ Forall (fun c => c <> [] /\ zlen c <= size) (chunks size l).
Proof. intros Hs. by apply chunk_list_spec. Qed.
