(* ===== verification/Bytes.v ===== *)
(** Bytes and text: little-endian integers, the lexicographic order of byte
    strings, UTF-8, decimal and hexadecimal numerals.

    A Rust [&[u8]], [Vec<u8>], [&str] or [String] is a [list byte] here; a
    [str] is one that decodes as UTF-8.  These are the parts of the standard
    library that the formats of [src/crates/tensorfs-core/src] are written in
    terms of: [to_le_bytes]/[from_le_bytes], [Ord] on byte slices,
    [str::from_utf8], [str::parse], [u8::from_str_radix] and [{byte:02x}]. *)

From Stdlib Require Import Strings.Byte Strings.String.
From S2P Require Export Prelude.
Abbreviation byte := Corelib.Init.Byte.byte.
Export StringSyntax.

Definition byte_val (b : byte) : Z := Z.of_N (Byte.to_N b).
Definition byte_of (z : Z) : byte :=
  default Byte.x00 (Byte.of_N (Z.to_N (z mod 256))).

(** A string literal's UTF-8 bytes. *)
Definition bstr (s : string) : list byte := list_byte_of_string s.
Arguments bstr s%_string.

#[export] Instance byte_eq_dec : EqDecision byte := Byte.byte_eq_dec.

Lemma byte_val_range b : 0 <= byte_val b < 256.
Proof.
  unfold byte_val. pose proof (Byte.to_N_bounded b). lia.
Qed.
#[export] Hint Resolve byte_val_range : rust.

Lemma byte_val_inj a b : byte_val a = byte_val b -> a = b.
Proof.
  unfold byte_val. intros H%N2Z.inj.
  pose proof (Byte.of_to_N a) as Ha. pose proof (Byte.of_to_N b) as Hb.
  rewrite H in Ha. congruence.
Qed.

Lemma byte_val_of z : byte_val (byte_of z) = z mod 256.
Proof.
  unfold byte_val, byte_of.
  pose proof (Z.mod_pos_bound z 256 ltac:(lia)) as Hb.
  destruct (Byte.of_N (Z.to_N (z mod 256))) as [b|] eqn:E; simpl.
  - apply Byte.to_of_N in E. rewrite E. lia.
  - apply Byte.of_N_None_iff in E. lia.
Qed.

Lemma byte_of_val b : byte_of (byte_val b) = b.
Proof.
  apply byte_val_inj. rewrite byte_val_of. apply Z.mod_small, byte_val_range.
Qed.

#[export] Instance byte_countable : countable.Countable byte.
Proof.
  refine (countable.inj_countable' Byte.to_N (fun n => default Byte.x00 (Byte.of_N n)) _).
  intros b. by rewrite Byte.of_to_N.
Defined.

(** ** Little-endian integers *)

Fixpoint le_bytes (n : nat) (z : Z) : list byte :=
  match n with
  | O => []
  | S n => byte_of z :: le_bytes n (z / 256)
  end.

Fixpoint le_val (l : list byte) : Z :=
  match l with
  | [] => 0
  | b :: l => byte_val b + 256 * le_val l
  end.

Definition u8_bytes (z : Z) : list byte := le_bytes 1 z.
Definition u32_bytes (z : Z) : list byte := le_bytes 4 z.
Definition u64_bytes (z : Z) : list byte := le_bytes 8 z.

Arguments u8_bytes : simpl never.
Arguments u32_bytes : simpl never.
Arguments u64_bytes : simpl never.

Lemma length_le_bytes n z : length (le_bytes n z) = n.
Proof. revert z. induction n; simpl; auto. Qed.

Lemma le_val_bound l : 0 <= le_val l < 256 ^ zlen l.
Proof.
  induction l as [|b l IH]; [done|]. rewrite zlen_cons. simpl le_val.
  pose proof (byte_val_range b). pose proof (zlen_nonneg l).
  rewrite Z.pow_add_r by lia. lia.
Qed.

Lemma le_val_le_bytes n z : le_val (le_bytes n z) = z mod 256 ^ Z.of_nat n.
Proof.
  revert z. induction n as [|n IH]; intros z; [by rewrite Z.mod_1_r|].
  cbn [le_bytes le_val]. rewrite IH, byte_val_of, Nat2Z.inj_succ, Z.pow_succ_r by lia.
  rewrite (Z.rem_mul_r z 256) by lia. done.
Qed.

Lemma le_bytes_le_val l : le_bytes (length l) (le_val l) = l.
Proof.
  induction l as [|b l IH]; [done|]. cbn [length le_bytes le_val].
  pose proof (byte_val_range b).
  f_equal.
  - apply byte_val_inj. rewrite byte_val_of, (Z.mul_comm 256), Z.mod_add by lia.
    by apply Z.mod_small.
  - rewrite (Z.mul_comm 256), Z.div_add by lia.
    rewrite (Z.div_small (byte_val b)) by lia. apply IH.
Qed.

Lemma zlen_le_bytes n z : zlen (le_bytes n z) = Z.of_nat n.
Proof. unfold zlen. by rewrite length_le_bytes. Qed.
Lemma zlen_u8_bytes z : zlen (u8_bytes z) = 1.
Proof. apply zlen_le_bytes. Qed.
Lemma zlen_u32_bytes z : zlen (u32_bytes z) = 4.
Proof. apply zlen_le_bytes. Qed.
Lemma zlen_u64_bytes z : zlen (u64_bytes z) = 8.
Proof. apply zlen_le_bytes. Qed.
#[export] Hint Rewrite zlen_u8_bytes zlen_u32_bytes zlen_u64_bytes : zlen.

Lemma le_val_u8 z : 0 <= z < U8 -> le_val (u8_bytes z) = z.
Proof. intros. unfold u8_bytes. rewrite le_val_le_bytes. by apply Z.mod_small. Qed.
Lemma le_val_u32 z : in_u32 z -> le_val (u32_bytes z) = z.
Proof. intros. unfold u32_bytes. rewrite le_val_le_bytes. by apply Z.mod_small. Qed.
Lemma le_val_u64 z : in_u64 z -> le_val (u64_bytes z) = z.
Proof. intros. unfold u64_bytes. rewrite le_val_le_bytes. by apply Z.mod_small. Qed.

(** Four or eight bytes are exactly the integers of that width. *)
Lemma u8_bytes_val l : zlen l = 1 -> u8_bytes (le_val l) = l.
Proof.
  unfold u8_bytes, zlen. intros H. replace 1%nat with (length l) by lia.
  apply le_bytes_le_val.
Qed.
Lemma u32_bytes_val l : zlen l = 4 -> u32_bytes (le_val l) = l.
Proof.
  unfold u32_bytes, zlen. intros H. replace 4%nat with (length l) by lia.
  apply le_bytes_le_val.
Qed.
Lemma u64_bytes_val l : zlen l = 8 -> u64_bytes (le_val l) = l.
Proof.
  unfold u64_bytes, zlen. intros H. replace 8%nat with (length l) by lia.
  apply le_bytes_le_val.
Qed.
Lemma le_val_in_u64 l : zlen l = 8 -> in_u64 (le_val l).
Proof. intros H. pose proof (le_val_bound l) as Hb. by rewrite H in Hb. Qed.
Lemma le_val_in_u32 l : zlen l = 4 -> in_u32 (le_val l).
Proof. intros H. pose proof (le_val_bound l) as Hb. by rewrite H in Hb. Qed.
Lemma le_val_in_u8 l : zlen l = 1 -> 0 <= le_val l < U8.
Proof. intros H. pose proof (le_val_bound l) as Hb. by rewrite H in Hb. Qed.

(** ** The order of byte strings: [<[u8] as Ord>::cmp], and [str]'s *)

Fixpoint bytes_cmp (a b : list byte) : comparison :=
  match a, b with
  | [], [] => Eq
  | [], _ :: _ => Lt
  | _ :: _, [] => Gt
  | x :: a, y :: b =>
      match byte_val x ?= byte_val y with
      | Eq => bytes_cmp a b
      | c => c
      end
  end.

Definition bytes_lt (a b : list byte) : Prop := bytes_cmp a b = Lt.
Definition bytes_ltb (a b : list byte) : bool :=
  match bytes_cmp a b with Lt => true | _ => false end.
Definition bytes_leb (a b : list byte) : bool :=
  match bytes_cmp a b with Gt => false | _ => true end.

Definition bytes_eqb (a b : list byte) : bool := bool_decide (a = b).

Lemma bytes_cmp_eq a b : bytes_cmp a b = Eq <-> a = b.
Proof.
  revert b. induction a as [|x a IH]; intros [|y b]; simpl; try (split; congruence).
  destruct (Z.compare_spec (byte_val x) (byte_val y)) as [H|H|H].
  - apply byte_val_inj in H. rewrite IH. split; congruence.
  - split; [done|]. intros [=]. subst. lia.
  - split; [done|]. intros [=]. subst. lia.
Qed.

Lemma bytes_cmp_refl a : bytes_cmp a a = Eq.
Proof. by apply bytes_cmp_eq. Qed.

Lemma bytes_cmp_antisym a b : bytes_cmp b a = CompOpp (bytes_cmp a b).
Proof.
  revert b. induction a as [|x a IH]; intros [|y b]; simpl; try done.
  rewrite (Z.compare_antisym (byte_val x) (byte_val y)).
  destruct (byte_val x ?= byte_val y); simpl; auto.
Qed.

Lemma bytes_lt_trans a b c : bytes_lt a b -> bytes_lt b c -> bytes_lt a c.
Proof.
  unfold bytes_lt. revert b c.
  induction a as [|x a IH]; intros [|y b] [|z c]; simpl; try done.
  destruct (Z.compare_spec (byte_val x) (byte_val y)),
    (Z.compare_spec (byte_val y) (byte_val z)),
    (Z.compare_spec (byte_val x) (byte_val z)); try done; try lia; eauto.
Qed.

Lemma bytes_lt_irrefl a : ~ bytes_lt a a.
Proof. unfold bytes_lt. by rewrite bytes_cmp_refl. Qed.

#[export] Instance bytes_lt_strict : StrictOrder bytes_lt.
Proof.
  split; [intros a; apply bytes_lt_irrefl|].
  intros a b c. apply bytes_lt_trans.
Qed.

Lemma bytes_cmp_gt a b : bytes_cmp a b = Gt <-> bytes_lt b a.
Proof.
  unfold bytes_lt. rewrite (bytes_cmp_antisym a b).
  destruct (bytes_cmp a b); simpl; naive_solver.
Qed.

Lemma bytes_ltb_lt a b : bytes_ltb a b = true <-> bytes_lt a b.
Proof. unfold bytes_ltb, bytes_lt. destruct (bytes_cmp a b); naive_solver. Qed.

Lemma bytes_lt_total a b : bytes_lt a b \/ a = b \/ bytes_lt b a.
Proof.
  destruct (bytes_cmp a b) eqn:E.
  - right; left. by apply bytes_cmp_eq.
  - by left.
  - right; right. by apply bytes_cmp_gt.
Qed.

(** ** UTF-8: [std::str::from_utf8] and [str::chars] *)

Definition is_cont (b : byte) : bool := (128 <=? byte_val b) && (byte_val b <=? 191).
Definition in_range (b : byte) (lo hi : Z) : bool :=
  (lo <=? byte_val b) && (byte_val b <=? hi).

(** The Unicode scalar values of a byte string, [None] when it is not
    well-formed UTF-8 (overlong forms, surrogates and values above 10FFFF
    excluded, as the standard library excludes them). *)
Fixpoint utf8_chars (l : list byte) : option (list Z) :=
  match l with
  | [] => Some []
  | b0 :: l1 =>
      let v0 := byte_val b0 in
      if v0 <? 128 then cons v0 <$> utf8_chars l1
      else match l1 with
      | [] => None
      | b1 :: l2 =>
          if in_range b0 0xC2 0xDF then
            if is_cont b1 then
              cons ((v0 - 0xC0) * 64 + (byte_val b1 - 0x80)) <$> utf8_chars l2
            else None
          else match l2 with
          | [] => None
          | b2 :: l3 =>
              let second :=
                if v0 =? 0xE0 then in_range b1 0xA0 0xBF
                else if v0 =? 0xED then in_range b1 0x80 0x9F
                else is_cont b1 in
              if in_range b0 0xE0 0xEF then
                if second && is_cont b2 then
                  cons ((v0 - 0xE0) * 4096 + (byte_val b1 - 0x80) * 64
                        + (byte_val b2 - 0x80)) <$> utf8_chars l3
                else None
              else match l3 with
              | [] => None
              | b3 :: l4 =>
                  let second :=
                    if v0 =? 0xF0 then in_range b1 0x90 0xBF
                    else if v0 =? 0xF4 then in_range b1 0x80 0x8F
                    else is_cont b1 in
                  if in_range b0 0xF0 0xF4 && second && is_cont b2 && is_cont b3 then
                    cons ((v0 - 0xF0) * 262144 + (byte_val b1 - 0x80) * 4096
                          + (byte_val b2 - 0x80) * 64 + (byte_val b3 - 0x80))
                      <$> utf8_chars l4
                  else None
              end
          end
      end
  end.

Definition utf8_valid (l : list byte) : bool :=
  match utf8_chars l with Some _ => true | None => false end.

(** [str::chars] of a string known to be valid. *)
Definition chars (s : list byte) : list Z := default [] (utf8_chars s).

Definition is_utf8 (s : list byte) : Prop := utf8_valid s = true.

(** [char::is_control]: the category Cc. *)
Definition is_control (c : Z) : bool := (c <? 32) || ((127 <=? c) && (c <? 160)).

(** ** ASCII classes *)

Definition is_ascii_digit (b : byte) : bool := in_range b 48 57.
Definition is_ascii_lowercase (b : byte) : bool := in_range b 97 122.
Definition is_ascii_uppercase (b : byte) : bool := in_range b 65 90.
Definition is_ascii_alphanumeric (b : byte) : bool :=
  is_ascii_uppercase b || is_ascii_lowercase b || is_ascii_digit b.
Definition to_ascii_lowercase (b : byte) : byte :=
  if is_ascii_uppercase b then byte_of (byte_val b + 32) else b.
Definition eq_ignore_ascii_case (a b : list byte) : bool :=
  bool_decide ((to_ascii_lowercase <$> a) = (to_ascii_lowercase <$> b)).

(** ** Splitting *)

(** [bytes.split(|b| b == sep)] and [str.split(sep)]: always at least one
    part. *)
Fixpoint split_on (sep : byte) (l : list byte) : list (list byte) :=
  match l with
  | [] => [[]]
  | b :: l =>
      match split_on sep l with
      | part :: parts => if decide (b = sep) then [] :: part :: parts
                         else (b :: part) :: parts
      | [] => [[b]]
      end
  end.

(** [str.split_once(sep)]. *)
Fixpoint split_once (sep : byte) (l : list byte) : option (list byte * list byte) :=
  match l with
  | [] => None
  | b :: l =>
      if decide (b = sep) then Some ([], l)
      else let* (before, after) := split_once sep l in Some (b :: before, after)
  end.

(** [str.rsplit_once(sep)]. *)
Fixpoint rsplit_once (sep : byte) (l : list byte) : option (list byte * list byte) :=
  match l with
  | [] => None
  | b :: l =>
      match rsplit_once sep l with
      | Some (before, after) => Some (b :: before, after)
      | None => if decide (b = sep) then Some ([], l) else None
      end
  end.

(** [str.strip_prefix(prefix)]. *)
Fixpoint strip_prefix (prefix l : list byte) : option (list byte) :=
  match prefix, l with
  | [], _ => Some l
  | p :: prefix, b :: l => if decide (p = b) then strip_prefix prefix l else None
  | _ :: _, [] => None
  end.

Definition starts_with (prefix l : list byte) : bool :=
  match strip_prefix prefix l with Some _ => true | None => false end.

Definition strip_suffix (suffix l : list byte) : option (list byte) :=
  reverse <$> strip_prefix (reverse suffix) (reverse l).

Definition ends_with (suffix l : list byte) : bool :=
  match strip_suffix suffix l with Some _ => true | None => false end.

Lemma strip_prefix_Some prefix l rest :
  strip_prefix prefix l = Some rest <-> l = prefix ++ rest.
Proof.
  revert l. induction prefix as [|p prefix IH]; intros l; simpl; [naive_solver|].
  destruct l as [|b l]; [naive_solver|].
  case_decide as Hd; subst; [rewrite IH|]; naive_solver.
Qed.

Lemma strip_suffix_Some suffix l rest :
  strip_suffix suffix l = Some rest <-> l = rest ++ suffix.
Proof.
  unfold strip_suffix. rewrite fmap_Some. split.
  - intros (k & Hk%strip_prefix_Some & ->).
    rewrite <-(reverse_involutive l), Hk, reverse_app, reverse_involutive. done.
  - intros ->. exists (reverse rest). rewrite reverse_involutive. split; [|done].
    apply strip_prefix_Some. by rewrite reverse_app.
Qed.

Lemma split_once_Some sep l a b :
  split_once sep l = Some (a, b) <-> l = a ++ sep :: b /\ sep ∉ a.
Proof.
  revert a b. induction l as [|x l IH]; intros a b; simpl.
  { split; [done|]. intros [H _]. by destruct a. }
  case_decide as Hd.
  - subst. split; [intros [=]; subst; split; [done | set_solver]|].
    intros [H Hn]. destruct a as [|y a]; simplify_eq/=; [done|set_solver].
  - destruct (split_once sep l) as [[a' b']|] eqn:E.
    + split.
      * intros [=]; subst. destruct (proj1 (IH a' b) eq_refl) as [-> Hn].
        split; [done|]. rewrite not_elem_of_cons. done.
      * intros [H Hn]. destruct a as [|y a]; simplify_eq/=.
        rewrite not_elem_of_cons in Hn.
        assert (Some (a', b') = Some (a, b)) as [= -> ->]; [|done].
        apply IH. tauto.
    + split; [done|]. intros [H Hn]. destruct a as [|y a]; simplify_eq/=.
      rewrite not_elem_of_cons in Hn. assert (None = Some (a, b)); [|done]. apply IH. tauto.
Qed.

Lemma rsplit_once_None sep l : rsplit_once sep l = None <-> sep ∉ l.
Proof.
  induction l as [|x l IH]; simpl; [set_solver|].
  rewrite not_elem_of_cons.
  destruct (rsplit_once sep l) as [[a b]|].
  - split; [done|]. intros [_ ?]. by apply IH in H.
  - case_decide; subst; naive_solver.
Qed.

Lemma rsplit_once_Some sep l a b :
  rsplit_once sep l = Some (a, b) <-> l = a ++ sep :: b /\ sep ∉ b.
Proof.
  revert a b. induction l as [|x l IH]; intros a b; simpl.
  { split; [done|]. intros [H _]. by destruct a. }
  destruct (rsplit_once sep l) as [[a' b']|] eqn:E.
  - destruct (proj1 (IH a' b') eq_refl) as [-> Hn]. split.
    + by intros [=]; subst.
    + intros [H Hnb]. destruct a as [|y a]; simplify_eq/=.
      { exfalso. apply Hnb. set_solver. }
      assert (Some (a', b') = Some (a, b)) as [= -> ->]; [|done]. by apply IH.
  - apply rsplit_once_None in E. case_decide as Hd.
    + subst. split; [by intros [=]; subst|].
      intros [H Hnb]. destruct a as [|y a]; simplify_eq/=; [done|set_solver].
    + split; [done|]. intros [H Hnb]. destruct a as [|y a]; simplify_eq/=.
      exfalso. apply E. set_solver.
Qed.

(** ** Splitting and joining *)

Fixpoint join (sep : byte) (parts : list (list byte)) : list byte :=
  match parts with
  | [] => []
  | [part] => part
  | part :: parts => part ++ sep :: join sep parts
  end.

Lemma split_on_nonempty sep l : split_on sep l <> [].
Proof. destruct l; simpl; [done|]. case_match; [done|]. by case_decide. Qed.

Lemma join_split_on sep l : join sep (split_on sep l) = l.
Proof.
  induction l as [|b l IH]; [done|]. simpl.
  destruct (split_on sep l) as [|part parts] eqn:E; [by apply split_on_nonempty in E|].
  case_decide as Hb.
  - change (join sep ([] :: part :: parts)) with (sep :: join sep (part :: parts)).
    by rewrite IH, Hb.
  - destruct parts; simpl in *; by rewrite <-IH.
Qed.

Lemma split_on_parts sep l : Forall (fun part => sep ∉ part) (split_on sep l).
Proof.
  induction l as [|b l IH]; simpl; [repeat constructor; set_solver|].
  destruct (split_on sep l) as [|part parts] eqn:E; [by apply split_on_nonempty in E|].
  case_decide as Hb; [constructor; [set_solver|done]|].
  inversion IH; subst. constructor; [|done]. rewrite not_elem_of_cons. done.
Qed.

Lemma split_on_app sep part l :
  sep ∉ part -> split_on sep (part ++ sep :: l) = part :: split_on sep l.
Proof.
  induction part as [|b part IH]; simpl; intros Hn.
  - destruct (split_on sep l) eqn:E; [by apply split_on_nonempty in E|].
    by rewrite decide_True.
  - rewrite not_elem_of_cons in Hn. destruct Hn as [Hb Hn].
    rewrite (IH Hn), decide_False by done. done.
Qed.

Lemma split_on_none sep part : sep ∉ part -> split_on sep part = [part].
Proof.
  induction part as [|b part IH]; simpl; intros Hn; [done|].
  rewrite not_elem_of_cons in Hn. destruct Hn as [Hb Hn].
  by rewrite (IH Hn), decide_False.
Qed.

Lemma split_on_join sep parts :
  parts <> [] -> Forall (fun part => sep ∉ part) parts -> split_on sep (join sep parts) = parts.
Proof.
  intros Hne Hf. induction Hf as [|part parts Hp Hf IH]; [done|].
  destruct parts as [|part' parts]; [by apply split_on_none|].
  change (join sep (part :: part' :: parts)) with (part ++ sep :: join sep (part' :: parts)).
  by rewrite split_on_app, IH.
Qed.

(** [ends_with] a single byte. *)
Lemma ends_with_byte b l : ends_with [b] l = true <-> exists k, l = k ++ [b].
Proof.
  unfold ends_with. destruct (strip_suffix [b] l) as [k|] eqn:E.
  - apply strip_suffix_Some in E. naive_solver.
  - split; [done|]. intros [k Hk]. apply (strip_suffix_Some [b] l k) in Hk. congruence.
Qed.
