(* ===== verification/Utf8.v ===== *)
(** [std::str::from_utf8] with its error report, and what it says about a
    string that is still being read: the basis of the bounded-memory check of
    GGUF metadata strings. *)

From S2P Require Export Bytes.

(** [Result<&str, Utf8Error>]: [valid_up_to] and [error_len]. *)
Inductive utf8_outcome : Type :=
| U_Ok
| U_Err (valid_up_to : Z) (error_len : option Z).

(** The second byte a lead byte admits. *)
Definition second3 (v0 : Z) (b1 : byte) : bool :=
  if v0 =? 0xE0 then in_range b1 0xA0 0xBF
  else if v0 =? 0xED then in_range b1 0x80 0x9F else is_cont b1.
Definition second4 (v0 : Z) (b1 : byte) : bool :=
  if v0 =? 0xF0 then in_range b1 0x90 0xBF
  else if v0 =? 0xF4 then in_range b1 0x80 0x8F else is_cont b1.

(** [run_utf8_validation]: [error_len] is [None] exactly when the input ends
    inside a sequence that could still be completed. *)
Fixpoint utf8_run (index : Z) (l : list byte) : utf8_outcome :=
  match l with
  | [] => U_Ok
  | b0 :: l1 =>
      let v0 := byte_val b0 in
      let bad k := U_Err index (Some k) in
      let short := U_Err index None in
      if v0 <? 128 then utf8_run (index + 1) l1
      else if in_range b0 0xC2 0xDF then
        match l1 with
        | [] => short
        | b1 :: l2 => if is_cont b1 then utf8_run (index + 2) l2 else bad 1
        end
      else if in_range b0 0xE0 0xEF then
        match l1 with
        | [] => short
        | b1 :: l2 =>
            if negb (second3 v0 b1) then bad 1
            else match l2 with
            | [] => short
            | b2 :: l3 => if is_cont b2 then utf8_run (index + 3) l3 else bad 2
            end
        end
      else if in_range b0 0xF0 0xF4 then
        match l1 with
        | [] => short
        | b1 :: l2 =>
            if negb (second4 v0 b1) then bad 1
            else match l2 with
            | [] => short
            | b2 :: l3 =>
                if negb (is_cont b2) then bad 2
                else match l3 with
                | [] => short
                | b3 :: l4 => if is_cont b3 then utf8_run (index + 4) l4 else bad 3
                end
            end
        end
      else bad 1
  end.

Definition from_utf8 (l : list byte) : utf8_outcome := utf8_run 0 l.

(** *** One character at a time *)

Lemma utf8_valid_1 b0 l : (byte_val b0 <? 128) = true -> utf8_valid (b0 :: l) = utf8_valid l.
Proof. intros H. unfold utf8_valid. simpl. rewrite H. by destruct (utf8_chars l). Qed.

Lemma utf8_valid_2 b0 b1 l :
  in_range b0 0xC2 0xDF = true -> utf8_valid (b0 :: b1 :: l) = is_cont b1 && utf8_valid l.
Proof.
  intros H. unfold utf8_valid. cbn [utf8_chars].
  replace (byte_val b0 <? 128) with false by (unfold in_range in H; lia). rewrite H.
  destruct (is_cont b1); [|done]. by destruct (utf8_chars l).
Qed.

Lemma utf8_valid_3 b0 b1 b2 l :
  in_range b0 0xE0 0xEF = true ->
  utf8_valid (b0 :: b1 :: b2 :: l) = second3 (byte_val b0) b1 && is_cont b2 && utf8_valid l.
Proof.
  intros H. unfold utf8_valid. cbn [utf8_chars].
  replace (byte_val b0 <? 128) with false by (unfold in_range in H; lia).
  replace (in_range b0 0xC2 0xDF) with false by (unfold in_range in *; lia). rewrite H.
  fold (second3 (byte_val b0) b1). destruct (second3 _ _ && is_cont b2); [|done].
  by destruct (utf8_chars l).
Qed.

Lemma utf8_valid_4 b0 b1 b2 b3 l :
  in_range b0 0xF0 0xF4 = true ->
  utf8_valid (b0 :: b1 :: b2 :: b3 :: l) =
  second4 (byte_val b0) b1 && is_cont b2 && is_cont b3 && utf8_valid l.
Proof.
  intros H. unfold utf8_valid. cbn [utf8_chars].
  replace (byte_val b0 <? 128) with false by (unfold in_range in H; lia).
  replace (in_range b0 0xC2 0xDF) with false by (unfold in_range in *; lia).
  replace (in_range b0 0xE0 0xEF) with false by (unfold in_range in *; lia). rewrite H.
  fold (second4 (byte_val b0) b1).
  destruct (second4 _ _ && is_cont b2 && is_cont b3) eqn:E; simpl in *; rewrite E; [|done].
  by destruct (utf8_chars l).
Qed.

Lemma utf8_valid_lead b0 l :
  (byte_val b0 <? 128) = false -> in_range b0 0xC2 0xDF = false ->
  in_range b0 0xE0 0xEF = false -> in_range b0 0xF0 0xF4 = false -> utf8_valid (b0 :: l) = false.
Proof.
  intros H1 H2 H3 H4. unfold utf8_valid. cbn [utf8_chars]. rewrite H1, H2, H3, H4.
  by destruct l as [|? [|? [|? ?]]].
Qed.

(** A string too short for its lead byte. *)
Lemma utf8_valid_short b0 l :
  (byte_val b0 <? 128) = false ->
  zlen l < (if in_range b0 0xC2 0xDF then 1 else if in_range b0 0xE0 0xEF then 2 else 3) ->
  utf8_valid (b0 :: l) = false.
Proof.
  intros H1 Hl. unfold utf8_valid. cbn [utf8_chars]. rewrite H1.
  destruct l as [|b1 [|b2 [|b3 l]]]; [done|..]; unfold zlen in Hl; simpl in Hl;
    destruct (in_range b0 0xC2 0xDF); [lia|done|lia| |lia| ];
    destruct (in_range b0 0xE0 0xEF); try lia; done.
Qed.

(** A second byte the lead byte does not admit cannot be repaired. *)
Lemma utf8_valid_bad_second b0 b1 l :
  (in_range b0 0xE0 0xEF = true /\ second3 (byte_val b0) b1 = false) \/
  (in_range b0 0xF0 0xF4 = true /\ second4 (byte_val b0) b1 = false) ->
  utf8_valid (b0 :: b1 :: l) = false.
Proof.
  intros [[Hr Hs]|[Hr Hs]].
  - destruct l as [|b2 l]; [|by rewrite utf8_valid_3, Hs].
    apply utf8_valid_short; unfold in_range in *; [lia|].
    replace (_ && _) with false by lia. by rewrite Hr.
  - destruct l as [|b2 [|b3 l]]; [..|by rewrite utf8_valid_4, Hs];
      (apply utf8_valid_short; unfold in_range in *; [lia|]);
      replace (_ && _) with false by lia; replace (_ && _) with false by lia; done.
Qed.

Lemma utf8_valid_bad_third b0 b1 b2 l :
  in_range b0 0xF0 0xF4 = true -> is_cont b2 = false ->
  utf8_valid (b0 :: b1 :: b2 :: l) = false.
Proof.
  intros Hr Hc. destruct l as [|b3 l]; [|by rewrite utf8_valid_4, Hc, andb_false_r].
  apply utf8_valid_short; unfold in_range in *; [lia|].
  by replace (_ && _) with false by lia; replace (_ && _) with false by lia.
Qed.

(** *** What an outcome says about every continuation *)

Definition outcome_spec (index : Z) (l : list byte) (o : utf8_outcome) : Prop :=
  match o with
  | U_Ok => forall y, utf8_valid (l ++ y) = utf8_valid y
  | U_Err valid None => exists a b, l = a ++ b /\ valid = index + zlen a /\ 1 <= zlen b <= 3 /\
      utf8_valid b = false /\ forall y, utf8_valid (l ++ y) = utf8_valid (b ++ y)
  | U_Err _ (Some _) => forall y, utf8_valid (l ++ y) = false
  end.

Lemma outcome_char index c l o :
  (forall y, utf8_valid (c ++ y) = utf8_valid y) ->
  outcome_spec (index + zlen c) l o -> outcome_spec index (c ++ l) o.
Proof.
  intros Hc. destruct o as [|valid [k|]]; simpl.
  - intros H y. by rewrite <-app_assoc, Hc.
  - intros H y. by rewrite <-app_assoc, Hc.
  - intros (a & b & -> & -> & Hb & Hv & Hy). exists (c ++ a), b.
    rewrite zlen_app, <-!app_assoc. repeat split; try done; [lia..|].
    intros y. rewrite <-!app_assoc, Hc. by rewrite <-Hy, <-app_assoc.
Qed.

Lemma outcome_short index l :
  1 <= zlen l <= 3 -> utf8_valid l = false -> outcome_spec index l (U_Err index None).
Proof. intros Hl Hv. exists [], l. rewrite zlen_nil. repeat split; try done; lia. Qed.

Ltac utf8_short :=
  apply outcome_short; [unfold zlen; simpl; lia|];
  apply utf8_valid_short; [done|]; unfold zlen, in_range in *; simpl;
  repeat case_match; lia.

Lemma utf8_run_spec n index l : (length l <= n)%nat -> outcome_spec index l (utf8_run index l).
Proof.
  revert index l. induction n as [|n IH]; intros index l Hn.
  { destruct l; [done|]. simpl in Hn. lia. }
  destruct l as [|b0 l1]; [done|]. simpl in Hn. cbn [utf8_run].
  destruct (byte_val b0 <? 128) eqn:E1.
  { apply (outcome_char index [b0]); [intros y; by apply utf8_valid_1|]. apply IH. lia. }
  destruct (in_range b0 0xC2 0xDF) eqn:E2.
  { destruct l1 as [|b1 l2]; [utf8_short|]. simpl in Hn. destruct (is_cont b1) eqn:Ec.
    - apply (outcome_char index [b0; b1]); [|apply IH; lia].
      intros y. simpl. by rewrite utf8_valid_2, Ec.
    - intros y. simpl. by rewrite utf8_valid_2, Ec. }
  destruct (in_range b0 0xE0 0xEF) eqn:E3.
  { destruct l1 as [|b1 l2]; [utf8_short|]. simpl in Hn. destruct (second3 _ b1) eqn:Es; simpl.
    - destruct l2 as [|b2 l3]; [utf8_short|]. simpl in Hn. destruct (is_cont b2) eqn:Ec.
      + apply (outcome_char index [b0; b1; b2]); [|apply IH; lia].
        intros y. simpl. by rewrite utf8_valid_3, Es, Ec.
      + intros y. simpl. by rewrite utf8_valid_3, Es, Ec.
    - intros y. simpl. apply utf8_valid_bad_second. auto. }
  destruct (in_range b0 0xF0 0xF4) eqn:E4.
  { destruct l1 as [|b1 l2]; [utf8_short|]. simpl in Hn. destruct (second4 _ b1) eqn:Es; simpl.
    2:{ intros y. simpl. apply utf8_valid_bad_second. auto. }
    destruct l2 as [|b2 l3]; [utf8_short|]. simpl in Hn. destruct (is_cont b2) eqn:Ec; simpl.
    2:{ intros y. simpl. by apply utf8_valid_bad_third. }
    destruct l3 as [|b3 l4]; [utf8_short|]. simpl in Hn. destruct (is_cont b3) eqn:Ed.
    - apply (outcome_char index [b0; b1; b2; b3]); [|apply IH; lia].
      intros y. simpl. by rewrite utf8_valid_4, Es, Ec, Ed.
    - intros y. simpl. by rewrite utf8_valid_4, Es, Ec, Ed. }
  intros y. simpl. by apply utf8_valid_lead.
Qed.

Lemma from_utf8_spec l : outcome_spec 0 l (from_utf8 l).
Proof. by apply (utf8_run_spec (length l)). Qed.

(** ** Splitting *)

(** An ASCII byte neither continues a character nor starts a longer one. *)
Lemma utf8_cut_short n (l : list byte) (sep : byte) (b : list byte) :
  (length l <= n)%nat -> byte_val sep < 128 -> utf8_valid l = false -> utf8_valid (l ++ sep :: b) = false.
Proof.
  intros Hn Hsep. assert (is_cont sep = false) as Hc by (unfold is_cont; lia).
  assert (forall v, second3 v sep = false /\ second4 v sep = false) as Hs.
  { intros v. unfold second3, second4, is_cont, in_range. repeat case_match; lia. }
  revert l Hn. induction n as [|n IH]; intros l Hn Hv; destruct l as [|b0 l]; simpl in Hn; try done; [lia|].
  destruct (byte_val b0 <? 128) eqn:E1.
  { simpl. rewrite utf8_valid_1 in * by done. apply IH; [lia|done]. }
  destruct (in_range b0 0xC2 0xDF) eqn:E2.
  { destruct l as [|b1 l]; simpl; rewrite utf8_valid_2 in * by done; [by rewrite Hc|]. simpl in Hn.
    destruct (is_cont b1); [|done]. simpl in *. apply IH; [lia|done]. }
  destruct (in_range b0 0xE0 0xEF) eqn:E3.
  { destruct l as [|b1 [|b2 l]]; simpl in *.
    - apply utf8_valid_bad_second. left. split; [done|apply Hs].
    - rewrite utf8_valid_3 by done. rewrite Hc. by rewrite andb_false_r.
    - rewrite utf8_valid_3 in * by done. destruct (second3 _ _ && _); [|done]. apply IH; [lia|done]. }
  destruct (in_range b0 0xF0 0xF4) eqn:E4; [|by apply utf8_valid_lead].
  destruct l as [|b1 [|b2 [|b3 l]]]; simpl in *.
  - apply utf8_valid_bad_second. right. split; [done|apply Hs].
  - by apply utf8_valid_bad_third.
  - rewrite utf8_valid_4 by done. rewrite Hc. by rewrite andb_false_r.
  - rewrite utf8_valid_4 in * by done. destruct (second4 _ _ && _ && _); [|done]. apply IH; [lia|done].
Qed.

(** Splitting at an ASCII byte splits a string into strings. *)
Lemma utf8_split (a : list byte) (sep : byte) (b : list byte) :
  byte_val sep < 128 -> utf8_valid (a ++ sep :: b) = utf8_valid a && utf8_valid b.
Proof.
  intros Hsep. destruct (utf8_valid a) eqn:Ha; [|by apply (utf8_cut_short (length a))].
  assert (utf8_valid (sep :: b) = utf8_valid b) as <- by (apply utf8_valid_1; lia).
  pose proof (from_utf8_spec a) as Ho. destruct (from_utf8 a) as [|v [k|]]; simpl in Ho.
  - apply Ho.
  - specialize (Ho []). rewrite app_nil_r in Ho. congruence.
  - destruct Ho as (x & y & -> & _ & _ & Hy & Hall). specialize (Hall []).
    rewrite !app_nil_r in Hall. congruence.
Qed.
