(* ===== verification/Numerals.v ===== *)
(** Numerals: what the formats use of [str::parse], [from_str_radix],
    [{}] on an unsigned integer and [{byte:02x}], and the 32-byte hexadecimal
    spelling that snapshot ids, stamps and object names share. *)

From S2P Require Export Bytes.

Definition plus_sign : byte := byte_of 43.

(** [char::to_digit(radix)] on one ASCII byte. *)
Definition to_digit (radix : Z) (b : byte) : option Z :=
  let v := byte_val b in
  let* d := (if in_range b 48 57 then Some (v - 48)
             else if in_range b 97 122 then Some (v - 87)
             else if in_range b 65 90 then Some (v - 55)
             else None) in
  if d <? radix then Some d else None.

(** The accumulation loop of [from_str_radix]: every step is checked against
    the width of the integer type. *)
Fixpoint parse_digits (radix bound acc : Z) (l : list byte) : option Z :=
  match l with
  | [] => Some acc
  | b :: l =>
      let* d := to_digit radix b in
      let acc := acc * radix + d in
      if acc <? bound then parse_digits radix bound acc l else None
  end.

(** [uN::from_str_radix(text, radix)] with [bound = 2^N]: the empty string and
    a lone sign refuse, one leading plus sign is skipped, leading zeros are
    accepted. *)
Definition from_str_radix (radix bound : Z) (l : list byte) : option Z :=
  match l with
  | [] => None
  | b :: rest =>
      if decide (b = plus_sign) then
        match rest with
        | [] => None
        | _ => parse_digits radix bound 0 rest
        end
      else parse_digits radix bound 0 l
  end.

(** [text.parse::<u32>()] and [text.parse::<u64>()]. *)
Definition parse_u32 : list byte -> option Z := from_str_radix 10 U32.
Definition parse_u64 : list byte -> option Z := from_str_radix 10 U64.

(** One digit of a rendered numeral. *)
Definition digit (d : Z) : byte := byte_of (if d <? 10 then 48 + d else 87 + d).

(** The decimal rendering [{}] of an unsigned integer below [10^fuel]. *)
Fixpoint dec_digits (fuel : nat) (n : Z) : list byte :=
  match fuel with
  | O => []
  | S fuel =>
      if n <? 10 then [digit n] else dec_digits fuel (n / 10) ++ [digit (n mod 10)]
  end.

(** A [u64] has at most twenty decimal digits. *)
Definition to_dec (n : Z) : list byte := dec_digits 20 n.

(** [{byte:02x}]. *)
Definition hex_byte (b : byte) : list byte :=
  [digit (byte_val b / 16); digit (byte_val b mod 16)].
Definition to_hex (l : list byte) : list byte := l ≫= hex_byte.

(** The body of the digest-parsing loops: a two-byte chunk that must be UTF-8,
    free of upper-case letters, and parse as a base-16 [u8]. *)
Definition parse_hex_pair (pair : list byte) : option byte :=
  if utf8_valid pair then
    if existsb is_ascii_uppercase pair then None
    else byte_of <$> from_str_radix 16 U8 pair
  else None.

(** The loop over [chunks_exact(2)]. *)
Fixpoint parse_hex_pairs (l : list byte) : option (list byte) :=
  match l with
  | a :: b :: l =>
      let* x := parse_hex_pair [a; b] in
      let* xs := parse_hex_pairs l in
      Some (x :: xs)
  | _ => Some []
  end.

Definition parse_hex32 (text : list byte) : option (list byte) :=
  if zlen text =? 64 then parse_hex_pairs text else None.

(** ** Decimal round trip *)

Lemma parse_digits_app radix bound acc l k :
  parse_digits radix bound acc (l ++ k) =
  match parse_digits radix bound acc l with
  | Some acc => parse_digits radix bound acc k
  | None => None
  end.
Proof.
  revert acc. induction l as [|b l IH]; intros acc; simpl; [done|].
  destruct (to_digit radix b); [|done]. case_match; [apply IH | done].
Qed.

Lemma byte_val_digit d : 0 <= d < 16 ->
  byte_val (digit d) = if d <? 10 then 48 + d else 87 + d.
Proof.
  intros Hd. unfold digit. rewrite byte_val_of. apply Z.mod_small.
  destruct (d <? 10); lia.
Qed.

Lemma to_digit_digit radix d : 0 <= d < radix -> radix <= 16 -> to_digit radix (digit d) = Some d.
Proof.
  intros Hd Hr. unfold to_digit, in_range. rewrite byte_val_digit by lia.
  destruct (Z.ltb_spec d 10).
  - replace ((48 <=? 48 + d) && (48 + d <=? 57)) with true by lia.
    replace (48 + d - 48) with d by lia. by replace (d <? radix) with true by lia.
  - replace ((48 <=? 87 + d) && (87 + d <=? 57)) with false by lia.
    replace ((97 <=? 87 + d) && (87 + d <=? 122)) with true by lia.
    replace (87 + d - 87) with d by lia. by replace (d <? radix) with true by lia.
Qed.

Lemma digit_not_plus d : 0 <= d < 16 -> digit d <> plus_sign.
Proof.
  intros Hd Heq%(f_equal byte_val). rewrite byte_val_digit in Heq by lia.
  change (byte_val plus_sign) with 43 in Heq. destruct (d <? 10); lia.
Qed.

Lemma parse_dec_digits fuel bound n :
  0 <= n < bound -> n < 10 ^ Z.of_nat fuel -> (0 < fuel)%nat ->
  parse_digits 10 bound 0 (dec_digits fuel n) = Some n.
Proof.
  revert n. induction fuel as [|fuel IH]; intros n Hn Hf H0; [lia|]. cbn [dec_digits].
  assert (Hlast : forall m d, 0 <= m -> 0 <= d < 10 -> m * 10 + d < bound ->
    parse_digits 10 bound m [digit d] = Some (m * 10 + d)).
  { intros m d Hm Hd Hb. cbn [parse_digits]. rewrite to_digit_digit by lia.
    by replace (m * 10 + d <? bound) with true by lia. }
  destruct (Z.ltb_spec n 10) as [Hlt|Hge].
  - rewrite Hlast by lia. f_equal; lia.
  - pose proof (Z.div_mod n 10 ltac:(lia)). pose proof (Z.mod_pos_bound n 10 ltac:(lia)).
    rewrite Nat2Z.inj_succ, Z.pow_succ_r in Hf by lia.
    destruct fuel as [|fuel]; [simpl in Hf; lia|].
    rewrite parse_digits_app, IH by lia. rewrite Hlast by lia. f_equal; lia.
Qed.

Lemma dec_digits_head fuel n : 0 <= n -> (0 < fuel)%nat ->
  exists d l, dec_digits fuel n = digit d :: l /\ 0 <= d < 10.
Proof.
  revert n. induction fuel as [|fuel IH]; intros n Hn Hf; [lia|]. cbn [dec_digits].
  destruct (Z.ltb_spec n 10); [by exists n, []|].
  pose proof (Z.mod_pos_bound n 10 ltac:(lia)).
  destruct fuel as [|fuel]; [by exists (n mod 10), []|].
  destruct (IH (n / 10)) as (d & l & Hd & ?); [apply Z.div_pos; lia | lia |].
  exists d, (l ++ [digit (n mod 10)]). by rewrite Hd.
Qed.

(** A rendered integer parses back, at any width it fits. *)
Lemma from_str_radix_to_dec bound n :
  0 <= n < bound -> bound <= U64 -> from_str_radix 10 bound (to_dec n) = Some n.
Proof.
  intros Hn Hb. unfold to_dec, U64 in *.
  destruct (dec_digits_head 20 n) as (d & l & Hd & Hr); [lia..|].
  unfold from_str_radix. rewrite Hd. rewrite decide_False by (apply digit_not_plus; lia).
  rewrite <-Hd. apply parse_dec_digits; lia.
Qed.

(** Every byte of a rendered integer is a decimal digit. *)
Lemma dec_digits_digits fuel n b :
  0 <= n -> b ∈ dec_digits fuel n -> is_ascii_digit b = true.
Proof.
  assert (Hd : forall d, 0 <= d < 10 -> is_ascii_digit (digit d) = true).
  { intros d Hd. unfold is_ascii_digit, in_range. rewrite byte_val_digit by lia.
    destruct (d <? 10) eqn:?; lia. }
  revert n. induction fuel as [|fuel IH]; intros n Hn; simpl; [set_solver|].
  pose proof (Z.mod_pos_bound n 10 ltac:(lia)).
  destruct (Z.ltb_spec n 10).
  - intros ->%list_elem_of_singleton. apply Hd; lia.
  - intros [Hin| ->%list_elem_of_singleton]%elem_of_app; [|apply Hd; lia].
    apply (IH (n / 10)); [apply Z.div_pos; lia | done].
Qed.

(** ** Hexadecimal round trip *)

Lemma utf8_valid_ascii l : Forall (fun b => byte_val b < 128) l -> utf8_valid l = true.
Proof.
  unfold utf8_valid. intros H.
  enough (exists cs, utf8_chars l = Some cs) as [cs ->] by done.
  induction H as [|b l Hb _ [cs IH]]; [by exists []|]. cbn [utf8_chars].
  replace (byte_val b <? 128) with true by lia. rewrite IH. simpl. eauto.
Qed.

Lemma parse_hex_pair_hex_byte b : parse_hex_pair (hex_byte b) = Some b.
Proof. by destruct b; vm_compute. Qed.

Lemma parse_hex_pairs_to_hex l : parse_hex_pairs (to_hex l) = Some l.
Proof.
  induction l as [|b l IH]; [done|].
  change (to_hex (b :: l)) with (hex_byte b ++ to_hex l).
  unfold hex_byte at 1. cbn [app parse_hex_pairs].
  change [digit (byte_val b / 16); digit (byte_val b mod 16)] with (hex_byte b).
  by rewrite parse_hex_pair_hex_byte, IH.
Qed.

Lemma zlen_to_hex l : zlen (to_hex l) = 2 * zlen l.
Proof.
  induction l as [|b l IH]; [done|].
  change (to_hex (b :: l)) with (hex_byte b ++ to_hex l).
  rewrite zlen_app, zlen_cons, IH. change (zlen (hex_byte b)) with 2. lia.
Qed.

(** A 32-byte digest parses back from its hexadecimal spelling. *)
Lemma parse_hex32_to_hex d : zlen d = 32 -> parse_hex32 (to_hex d) = Some d.
Proof.
  intros Hd. unfold parse_hex32. rewrite zlen_to_hex, Hd. apply parse_hex_pairs_to_hex.
Qed.

Lemma parse_hex_pairs_length l d :
  parse_hex_pairs l = Some d -> length d = (length l / 2)%nat.
Proof.
  revert d.
  enough (forall n l, (length l <= n)%nat -> forall d, parse_hex_pairs l = Some d ->
            length d = (length l / 2)%nat) by eauto.
  clear l. induction n as [|n IH]; intros l Hl d.
  { destruct l; [|simpl in Hl; lia]. by intros [= <-]. }
  destruct l as [|a [|b l]]; [by intros [= <-] .. |].
  cbn [parse_hex_pairs length] in *. intros H.
  destruct (parse_hex_pair [a; b]); [|done].
  destruct (parse_hex_pairs l) as [xs|] eqn:E; [|done]. injection H as <-.
  cbn [length]. rewrite (IH l) by (lia || done).
  replace (S (S (length l))) with (length l + 1 * 2)%nat by lia.
  rewrite Nat.div_add by lia. lia.
Qed.

Lemma parse_hex32_length text d : parse_hex32 text = Some d -> zlen d = 32.
Proof.
  unfold parse_hex32. intros H. case_match eqn:E; [|done].
  apply Z.eqb_eq in E. apply parse_hex_pairs_length in H.
  unfold zlen in *. replace (length text) with 64%nat in H by lia. by rewrite H.
Qed.

Lemma parse_digits_bound radix bound acc l n :
  0 <= acc < bound -> 0 < radix -> parse_digits radix bound acc l = Some n -> 0 <= n < bound.
Proof.
  intros Ha Hr. revert acc Ha. induction l as [|b l IH]; intros acc Ha H; simpl in H.
  { by simplify_eq. }
  destruct (to_digit radix b) as [d|] eqn:Ed; [|done].
  assert (0 <= d).
  { unfold to_digit, in_range in Ed. pose proof (byte_val_range b).
    repeat (case_match; simplify_eq); lia. }
  destruct (_ <? _) eqn:?; [|done]. eapply IH; [|done]. nia.
Qed.

Lemma from_str_radix_bound radix bound l n :
  0 < bound -> 0 < radix -> from_str_radix radix bound l = Some n -> 0 <= n < bound.
Proof.
  unfold from_str_radix. intros ? ? H. repeat (case_match; try done).
  all: eapply parse_digits_bound; [| |eassumption]; lia.
Qed.

(** ** Decimal numerals without leading zeros are unique *)

Definition zero_digit : byte := byte_of 48.

Definition no_leading_zero (l : list byte) : Prop :=
  l <> [] /\ Forall (fun b => is_ascii_digit b = true) l /\
  (forall tl, l = zero_digit :: tl -> tl = []).

Lemma to_digit_10 b : is_ascii_digit b = true ->
  exists d, to_digit 10 b = Some d /\ 0 <= d < 10 /\ digit d = b.
Proof.
  unfold is_ascii_digit, to_digit. intros Hb. rewrite Hb. unfold in_range in Hb.
  exists (byte_val b - 48). replace (byte_val b - 48 <? 10) with true by lia.
  split; [done|]. split; [lia|]. apply byte_val_inj. rewrite byte_val_digit by lia.
  replace (byte_val b - 48 <? 10) with true by lia. lia.
Qed.

(** A numeral that starts with a non-zero digit is at least a power of ten. *)
Lemma parse_digits_lower bound acc l n :
  0 < acc -> parse_digits 10 bound acc l = Some n -> acc * 10 ^ zlen l <= n.
Proof.
  revert acc. induction l as [|b l IH]; intros acc Ha Hp; simpl in Hp.
  { simplify_eq. change (zlen []) with 0. lia. }
  destruct (to_digit 10 b) as [d|] eqn:Ed; [|done].
  assert (0 <= d).
  { unfold to_digit, in_range in Ed. pose proof (byte_val_range b).
    repeat (case_match; simplify_eq); lia. }
  destruct (_ <? bound); [|done]. apply IH in Hp; [|lia].
  rewrite zlen_cons, Z.pow_add_r by (pose proof (zlen_nonneg l); lia).
  pose proof (Z.pow_pos_nonneg 10 (zlen l) ltac:(lia) (zlen_nonneg l)). nia.
Qed.

Lemma dec_digits_parse fuel bound l n :
  Forall (fun b => is_ascii_digit b = true) l -> l <> [] ->
  (forall tl, l = zero_digit :: tl -> tl = []) -> (length l <= fuel)%nat ->
  parse_digits 10 bound 0 l = Some n -> dec_digits fuel n = l.
Proof.
  revert fuel n. induction l as [|b l IH] using rev_ind; intros fuel n Hd Hne Hz Hf Hp; [done|].
  rewrite Forall_app, Forall_singleton in Hd. destruct Hd as [Hd Hb].
  destruct (to_digit_10 b Hb) as (d & Ed & Hr & <-).
  rewrite parse_digits_app in Hp. rewrite length_app in Hf. simpl in Hf.
  destruct (parse_digits 10 bound 0 l) as [m|] eqn:Em; [|done].
  cbn [parse_digits] in Hp. rewrite Ed in Hp. destruct (_ <? bound); [|done].
  simplify_eq. destruct fuel as [|fuel]; [lia|]. cbn [dec_digits].
  destruct l as [|c l].
  { simpl in Em. simplify_eq. replace (0 * 10 + d <? 10) with true by lia. done. }
  assert (0 < m) as Hm.
  { inversion Hd as [|?? Hc Hd']; subst. destruct (to_digit_10 c Hc) as (e & Ee & He & <-).
    cbn [parse_digits] in Em. rewrite Ee in Em. destruct (_ <? bound); [|done].
    assert (e <> 0).
    { intros ->. specialize (Hz (l ++ [digit d]) eq_refl). by destruct l. }
    apply parse_digits_lower in Em; [|lia].
    pose proof (Z.pow_pos_nonneg 10 (zlen l) ltac:(lia) (zlen_nonneg l)). nia. }
  replace (m * 10 + d <? 10) with false by lia.
  rewrite Z.div_add_l, Z.div_small, Z.add_0_r by lia.
  rewrite (Z.add_comm (m * 10)), Z.mod_add, Z.mod_small by lia.
  rewrite (IH fuel m); [done|done|done| |simpl in *; lia|done].
  intros tl Htl. specialize (Hz (tl ++ [digit d])). rewrite Htl in Hz.
  specialize (Hz eq_refl). by destruct tl.
Qed.

(** A numeral without leading zeros is the rendering of its value. *)
Lemma to_dec_parse_u64 l n :
  no_leading_zero l -> parse_u64 l = Some n -> to_dec n = l /\ in_u64 n.
Proof.
  intros (Hne & Hd & Hz) Hp. unfold parse_u64, from_str_radix in Hp.
  destruct l as [|b l]; [done|]. inversion Hd as [|?? Hb Hd']; subst.
  destruct (to_digit_10 b Hb) as (d & Ed & Hr & Hbd).
  rewrite decide_False in Hp by (rewrite <-Hbd; apply digit_not_plus; lia).
  assert (0 <= n < U64) as Hn.
  { by eapply parse_digits_bound; [| |exact Hp]. }
  split; [|done]. apply (dec_digits_parse 20 U64); try done.
  destruct (decide (l = [])) as [->|Hl]; [simpl; lia|].
  cbn [parse_digits] in Hp. rewrite Ed in Hp. destruct (_ <? U64); [|done].
  assert (d <> 0) as Hd0.
  { intros ->. apply Hl. apply (Hz l). by rewrite <-Hbd. }
  apply parse_digits_lower in Hp; [|lia].
  destruct (Nat.le_gt_cases (length (b :: l)) 20) as [|Hlong]; [done|].
  assert (10 ^ 20 <= 10 ^ zlen l) by (apply Z.pow_le_mono_r; unfold zlen in *; simpl in *; lia).
  unfold U64 in *. nia.
Qed.

(** The rendering of an integer has no leading zero. *)
Lemma to_dec_no_leading_zero n : in_u64 n -> no_leading_zero (to_dec n).
Proof.
  intros Hn. unfold to_dec.
  assert (forall fuel n, 0 <= n -> n < 10 ^ Z.of_nat fuel -> (0 < fuel)%nat ->
    dec_digits fuel n <> [] /\
    (forall tl, dec_digits fuel n = zero_digit :: tl -> tl = [] /\ n = 0)) as Haux.
  { clear. induction fuel as [|fuel IH]; intros n Hn Hlt Hf; [lia|]. cbn [dec_digits].
    destruct (Z.ltb_spec n 10) as [Hs|Hs].
    - split; [done|]. intros tl [= Heq Htl]. split; [done|].
      apply (f_equal byte_val) in Heq. rewrite byte_val_digit in Heq by lia.
      replace (n <? 10) with true in Heq by lia. change (byte_val zero_digit) with 48 in Heq. lia.
    - split; [by destruct (dec_digits fuel (n / 10))|]. intros tl Heq. exfalso.
      rewrite Nat2Z.inj_succ, Z.pow_succ_r in Hlt by lia.
      pose proof (Z.div_mod n 10 ltac:(lia)). pose proof (Z.mod_pos_bound n 10 ltac:(lia)).
      destruct fuel as [|fuel]; [simpl in Hlt; lia|].
      destruct (IH (n / 10)) as [Hne Hz]; [lia..|].
      destruct (dec_digits (S fuel) (n / 10)) as [|c tl'] eqn:E; [done|].
      simpl in Heq. simplify_eq. destruct (Hz tl' eq_refl). lia. }
  unfold in_u64, U64 in Hn. destruct (Haux 20%nat n) as [Hne Hz]; [lia..|].
  split; [done|]. split.
  - apply Forall_forall. intros b Hb. by apply dec_digits_digits in Hb; [|lia].
  - intros tl Heq. by apply Hz.
Qed.
