(* ===== verification/Reader.v ===== *)
(** The bounded cursor both binary formats are decoded with: [struct Reader]
    of [tfm1.rs] and of [tfp1.rs], which differ only in the error [take]
    reports, and the laws of a decoder against an encoder. *)

From S2P Require Export Bytes.

Record reader : Type := Reader { rd_bytes : list byte; rd_position : Z }.

Section ops.
Context {E : Type} (truncated : E).

(** [Reader::take]. *)
Definition reader_take (count : Z) (r : reader) : result E (list byte * reader) :=
  let! stop := checked_add (rd_position r) count ?: truncated in
  let! piece := get_range (rd_bytes r) (rd_position r) stop ?: truncated in
  Ok (piece, Reader (rd_bytes r) stop).

(** [take_u8], [take_u32], [take_u64]. *)
Definition take_u8 (r : reader) : result E (Z * reader) :=
  let? (b, r) := reader_take 1 r in Ok (le_val b, r).
Definition take_u32 (r : reader) : result E (Z * reader) :=
  let? (b, r) := reader_take 4 r in Ok (le_val b, r).
Definition take_u64 (r : reader) : result E (Z * reader) :=
  let? (b, r) := reader_take 8 r in Ok (le_val b, r).
End ops.

Definition remaining (r : reader) : Z := wsub (zlen (rd_bytes r)) (rd_position r).

(** ** What a cursor still has to read *)

Definition rest (r : reader) : list byte := drop (Z.to_nat (rd_position r)) (rd_bytes r).

Definition rd_ok (r : reader) : Prop :=
  0 <= rd_position r <= zlen (rd_bytes r) /\ zlen (rd_bytes r) < U64.

(** A decoder is sound for an encoder when whatever it accepts is what the
    encoder writes for the value it returns, and complete when it accepts what
    the encoder writes for every well-formed value. *)
Class Codec {E A} (dec : reader -> result E (A * reader)) (enc : A -> list byte)
    (wf : A -> Prop) : Prop := {
  dec_sound r a r' :
    rd_ok r -> dec r = Ok (a, r') -> rd_ok r' /\ rest r = enc a ++ rest r' /\ wf a;
  dec_complete r a t :
    rd_ok r -> wf a -> rest r = enc a ++ t ->
    exists r', dec r = Ok (a, r') /\ rd_ok r' /\ rest r' = t
}.

Lemma zlen_rest r : rd_ok r -> zlen (rest r) = zlen (rd_bytes r) - rd_position r.
Proof.
  intros [Hp _]. unfold rest, zlen in *. rewrite length_drop. lia.
Qed.

Lemma remaining_rest r : rd_ok r -> remaining r = zlen (rest r).
Proof.
  intros Hr. rewrite zlen_rest by done. destruct Hr as [? ?].
  unfold remaining. apply wsub_small. lia.
Qed.

Lemma rd_ok_start bytes : zlen bytes < U64 -> rd_ok (Reader bytes 0).
Proof. intros. split; simpl; [|done]. pose proof (zlen_nonneg bytes). lia. Qed.

Lemma rest_start bytes : rest (Reader bytes 0) = bytes.
Proof. done. Qed.
#[export] Hint Resolve rd_ok_start : rust.

#[export] Instance take_codec {E} (e : E) (n : Z) :
  Codec (reader_take e n) id (fun s => zlen s = n).
Proof.
  split.
  - intros r s r' [Hp Hb] H. unfold reader_take in H. inv_all H.
    apply checked_add_Some in E0 as [-> ?].
    apply get_range_Some in E1 as [? ->].
    rewrite slice_length by lia.
    split; [split; simpl; lia|]. split; [|lia]. apply (slice_app_drop (rd_bytes r)); lia.
  - intros r s t Hr Hwf Hrest.
    pose proof (zlen_rest r Hr) as Hl. rewrite Hrest, zlen_app in Hl.
    destruct Hr as [Hp Hb]. pose proof (zlen_nonneg s). pose proof (zlen_nonneg t).
    unfold reader_take. cbn [id] in *.
    rewrite (proj2 (checked_add_Some _ _ (rd_position r + n))) by (unfold id in *; lia).
    unfold get_range.
    replace ((_ <=? _) && _) with true by (unfold id in *; lia).
    assert (slice (rd_bytes r) (rd_position r) (rd_position r + n) = s) as ->.
    { unfold slice, rest, id in *. rewrite Hrest.
      apply take_app_length'. unfold zlen in *. lia. }
    eexists. split; [done|]. split; [split; simpl; unfold id in *; lia|].
    unfold rest in *. simpl. rewrite Z2Nat.inj_add, <-drop_drop, Hrest by (unfold id in *; lia).
    apply drop_app_length'. unfold zlen, id in *. lia.
Qed.

(** Integers: the taken bytes and the integer determine each other. *)
Lemma take_int_codec {E} (e : E) (n : Z) (enc : Z -> list byte) (wf : Z -> Prop) :
  (forall l, zlen l = n -> enc (le_val l) = l /\ wf (le_val l)) ->
  (forall z, wf z -> zlen (enc z) = n /\ le_val (enc z) = z) ->
  Codec (fun r => let? (b, r) := reader_take e n r in Ok (le_val b, r)) enc wf.
Proof.
  intros Hs Hc. split.
  - intros r a r' Hr H. destruct (reader_take e n r) as [[b r1]|] eqn:Et; [|done].
    injection H as <- <-.
    apply (dec_sound (dec := reader_take e n)) in Et as (? & Hrest & Hl); [|done].
    destruct (Hs b Hl) as [-> ?]. done.
  - intros r a t Hr Hwf Hrest. destruct (Hc a Hwf) as [Hl Hv].
    destruct (dec_complete (dec := reader_take e n) r (enc a) t Hr Hl Hrest)
      as (r' & -> & ? & ?).
    rewrite Hv. eauto.
Qed.

#[export] Instance take_u8_codec {E} (e : E) :
  Codec (take_u8 e) u8_bytes (fun z => 0 <= z < U8).
Proof.
  apply take_int_codec.
  - intros l Hl. split; [by apply u8_bytes_val | by apply le_val_in_u8].
  - intros z Hz. split; [apply zlen_u8_bytes | by apply le_val_u8].
Qed.
#[export] Instance take_u32_codec {E} (e : E) : Codec (take_u32 e) u32_bytes in_u32.
Proof.
  apply take_int_codec.
  - intros l Hl. split; [by apply u32_bytes_val | by apply le_val_in_u32].
  - intros z Hz. split; [apply zlen_u32_bytes | by apply le_val_u32].
Qed.
#[export] Instance take_u64_codec {E} (e : E) : Codec (take_u64 e) u64_bytes in_u64.
Proof.
  apply take_int_codec.
  - intros l Hl. split; [by apply u64_bytes_val | by apply le_val_in_u64].
  - intros z Hz. split; [apply zlen_u64_bytes | by apply le_val_u64].
Qed.

(** ** A counted sequence

    The loops [for _ in 0..count] push what a decoder returns; the decoder may
    look at what was pushed so far. *)
Section seq.
Context {E A : Type} (dec : list A -> reader -> result E (A * reader)).
Context (enc : A -> list byte) (wf : list A -> A -> Prop).
Context `{Hc : forall acc, Codec (dec acc) enc (wf acc)}.

Definition push_step (st : reader * list A) : result E (reader * list A) :=
  let '(r, acc) := st in
  let? (a, r) := dec acc r in Ok (r, acc ++ [a]).

Fixpoint wf_from (acc l : list A) : Prop :=
  match l with
  | [] => True
  | a :: l => wf acc a /\ wf_from (acc ++ [a]) l
  end.

Lemma seq_sound n r acc r' acc' :
  rd_ok r -> for_count push_step (r, acc) n = Ok (r', acc') ->
  exists l, acc' = acc ++ l /\ length l = n /\ wf_from acc l
    /\ rest r = (l ≫= enc) ++ rest r' /\ rd_ok r'.
Proof using Hc.
  revert r acc. induction n as [|n IH]; intros r acc Hr H.
  { simpl in H. simplify_eq. exists []. by rewrite app_nil_r. }
  cbn [for_count push_step] in H. destruct (dec acc r) as [[a r1]|] eqn:Ed; [|done].
  apply dec_sound in Ed as (Hr1 & Hrest & Hwf); [|done].
  apply IH in H as (l & -> & <- & Hl & Hrest' & ?); [|done].
  exists (a :: l). rewrite bind_cons, Hrest, Hrest', <-!app_assoc. done.
Qed.

Lemma seq_complete l r acc t :
  rd_ok r -> wf_from acc l -> rest r = (l ≫= enc) ++ t ->
  exists r', for_count push_step (r, acc) (length l) = Ok (r', acc ++ l)
    /\ rd_ok r' /\ rest r' = t.
Proof using Hc.
  revert r acc. induction l as [|a l IH]; intros r acc Hr Hwf Hrest.
  { exists r. by rewrite app_nil_r. }
  destruct Hwf as [Ha Hl]. rewrite bind_cons, <-app_assoc in Hrest.
  cbn [length for_count push_step].
  destruct (dec_complete r a _ Hr Ha Hrest) as (r1 & -> & Hr1 & Hrest1).
  destruct (IH r1 (acc ++ [a]) Hr1 Hl Hrest1) as (r' & -> & ? & ?).
  exists r'. by rewrite <-app_assoc.
Qed.
End seq.

Lemma wf_from_forall {A} (wf : A -> Prop) acc l :
  wf_from (fun _ => wf) acc l <-> Forall wf l.
Proof.
  revert acc. induction l as [|a l IH]; intros acc; simpl; [done|].
  by rewrite Forall_cons, IH.
Qed.

(** The bound that the declared-count guards check. *)
Lemma MIN_count r n k :
  rd_ok r -> 0 < k -> k * n <= zlen (rest r) -> (remaining r / k <? n) = false.
Proof.
  intros Hr Hk Hn. rewrite remaining_rest by done. apply Z.ltb_ge.
  apply Z.div_le_lower_bound; lia.
Qed.

Lemma wf_from_split {A} (wf : list A -> A -> Prop) acc l :
  wf_from wf acc l <-> forall pre a post, l = pre ++ a :: post -> wf (acc ++ pre) a.
Proof.
  revert acc. induction l as [|x l IH]; intros acc; simpl.
  - split; [|done]. intros _ pre a post Hl. by destruct pre.
  - rewrite IH. split.
    + intros [Hx Hl] [|y pre] a post Heq; simplify_eq/=; [by rewrite app_nil_r|].
      specialize (Hl pre a post eq_refl). by rewrite <-app_assoc in Hl.
    + intros Hall. split; [by specialize (Hall [] x l eq_refl); rewrite app_nil_r in Hall|].
      intros pre a post ->. rewrite <-app_assoc. by apply (Hall (x :: pre) a post).
Qed.

(** Turns the boolean guards of the context into propositions. *)
Ltac ztests := repeat match goal with
  | H : (_ =? _) = true |- _ => apply Z.eqb_eq in H
  | H : (_ =? _) = false |- _ => apply Z.eqb_neq in H
  | H : (_ <? _) = true |- _ => apply Z.ltb_lt in H
  | H : (_ <? _) = false |- _ => apply Z.ltb_ge in H
  | H : (_ <=? _) = true |- _ => apply Z.leb_le in H
  | H : (_ <=? _) = false |- _ => apply Z.leb_gt in H
  | H : negb _ = true |- _ => apply negb_true_iff in H
  | H : negb _ = false |- _ => apply negb_false_iff in H
  | H : bool_decide _ = true |- _ => apply bool_decide_eq_true in H
  | H : bool_decide _ = false |- _ => apply bool_decide_eq_false in H
  | H : _ || _ = false |- _ => apply orb_false_elim in H as [? ?]
  end.

(** Peels one decoding step or guard off a hypothesis that a chain of them
    returned [Ok], using the step's soundness law. *)
Ltac dec_inv H :=
  match type of H with
  | match ?d ?r with Ok _ => _ | Err _ => _ end = Ok _ =>
      let x := fresh "x" in let r1 := fresh "r" in let E := fresh "E" in
      destruct (d r) as [[x r1]|] eqn:E; [|discriminate H];
      apply (dec_sound (dec := d)) in E as (? & ? & ?); [|assumption]
  | (if ?b then _ else _) = Ok _ => destruct b eqn:?; try discriminate H
  end.

(** Runs the next decoding step of the goal on the encoding of [x] by its
    completeness law, leaving [x]'s well-formedness first. *)
Ltac dec_run x :=
  match goal with
  | |- context [match ?d ?r with Ok _ => _ | Err _ => _ end] =>
      match goal with
      | Hok : rd_ok r, Hr : rest r = _ |- _ =>
          let r1 := fresh "r" in
          edestruct (dec_complete (dec := d) r x) as (r1 & -> & ? & ?);
            [ exact Hok | | exact Hr | clear Hr ]
      end
  end.

(** Decides the next guard of the goal when it is closed. *)
Ltac eval_if :=
  match goal with
  | |- context [if ?b then _ else _] =>
      let v := eval vm_compute in b in
      match v with
      | true => change b with true
      | false => change b with false
      end; cbv beta iota
  end.
