(* ===== verification/BTree.v ===== *)
(** Ordered collections keyed by byte strings: [BTreeMap<String, V>] as a
    strictly sorted association list, and the stable [sort_by]. *)

From Stdlib Require Export Sorting.Sorted.
From S2P Require Export Bytes.

Lemma StronglySorted_app_iff {A} (R : A -> A -> Prop) l k :
  StronglySorted R (l ++ k) <->
  (forall x y, x ∈ l -> y ∈ k -> R x y) /\ StronglySorted R l /\ StronglySorted R k.
Proof.
  induction l as [|a l IH]; simpl.
  - split; [|tauto]. intros Hs. split; [set_solver|]. split; [constructor|done].
  - split.
    + intros Hs. inversion Hs as [|?? Hs' Hf]; subst. apply IH in Hs' as (H1 & H2 & H3).
      rewrite Forall_app in Hf. destruct Hf as [Hf1 Hf2]. rewrite Forall_forall in Hf2.
      split; [|split; [by constructor|done]]. intros x y [->|Hx]%elem_of_cons; auto.
    + intros (H1 & H2 & H3). inversion H2 as [|?? Hs Hf]; subst. constructor.
      * apply IH. split; [|done]. set_solver.
      * rewrite Forall_app. split; [done|]. apply Forall_forall. set_solver.
Qed.

Lemma StronglySorted_last (l : list (list byte)) x :
  StronglySorted bytes_lt l -> (forall y, last l = Some y -> bytes_lt y x) ->
  Forall (fun y => bytes_lt y x) l.
Proof.
  induction 1 as [|a l Hs IH Hf]; intros Hlast; constructor.
  - destruct l as [|b l]; [by apply Hlast|].
    inversion Hf; subst. eapply bytes_lt_trans; [done|].
    assert (Forall (fun y => bytes_lt y x) (b :: l)) as Hb by (apply IH; apply Hlast).
    by inversion Hb.
  - apply IH. intros y Hy. apply Hlast. by destruct l.
Qed.

(** Adjacent keys in order is the whole list in order. *)
Lemma sorted_adjacent {A} (l : list (list byte * A)) :
  StronglySorted bytes_lt l.*1 <->
  forall pre a post, l = pre ++ a :: post ->
    forall previous, last pre = Some previous -> bytes_lt previous.1 a.1.
Proof.
  split.
  - intros Hs pre a post -> p Hp.
    rewrite fmap_app in Hs. apply StronglySorted_app_iff in Hs as (Hlt & _ & _).
    apply last_Some in Hp as [l' ->]. apply Hlt; rewrite ?fmap_app; set_solver.
  - induction l as [|x l IH] using rev_ind; intros Hall; [constructor|].
    assert (StronglySorted bytes_lt l.*1) as Hs.
    { apply IH. intros pre a post -> p Hp.
      by apply (Hall pre a (post ++ [x])); [rewrite <-app_assoc|]. }
    rewrite fmap_app. apply StronglySorted_app_iff. split; [|by repeat constructor].
    intros y z Hy ->%list_elem_of_singleton.
    assert (Forall (fun y => bytes_lt y x.1) l.*1) as Hf; [|by eapply Forall_forall in Hf].
    apply StronglySorted_last; [done|]. intros w. rewrite fmap_last.
    intros (p & Hp & ->)%fmap_Some. by apply (Hall l x []).
Qed.

(** ** [BTreeMap] *)

Abbreviation btree V := (list (list byte * V)) (only parsing).

Section btree.
Context {V : Type}.
Implicit Types m : btree V.

(** [BTreeMap::get]. *)
Fixpoint bt_get (k : list byte) m : option V :=
  match m with
  | [] => None
  | (k', v) :: m => if decide (k = k') then Some v else bt_get k m
  end.

(** The map after [BTreeMap::insert]; the previous value it returns is
    [bt_get k m]. *)
Fixpoint bt_insert (k : list byte) (v : V) m : btree V :=
  match m with
  | [] => [(k, v)]
  | (k', v') :: m' =>
      match bytes_cmp k k' with
      | Lt => (k, v) :: m
      | Eq => (k, v) :: m'
      | Gt => (k', v') :: bt_insert k v m'
      end
  end.

(** The map after [BTreeMap::remove]. *)
Definition bt_remove (k : list byte) m : btree V := filter (fun kv => kv.1 <> k) m.

(** The keys are strictly increasing. *)
Definition bt_sorted m : Prop := StronglySorted bytes_lt m.*1.

Lemma bt_get_Some_1 k v m : bt_get k m = Some v -> (k, v) ∈ m.
Proof.
  induction m as [|[k' v'] m IH]; simpl; [done|]. case_decide; intros; simplify_eq; set_solver.
Qed.

Lemma bt_sorted_cons_inv k v m :
  bt_sorted ((k, v) :: m) -> bt_sorted m /\ forall k' v', (k', v') ∈ m -> bytes_lt k k'.
Proof.
  unfold bt_sorted. rewrite fmap_cons. intros Hs. inversion Hs as [|?? Hs' Hf]; subst.
  split; [done|]. intros k' v' Hin. rewrite Forall_forall in Hf.
  apply Hf. apply list_elem_of_fmap. by exists (k', v').
Qed.

Lemma bt_get_Some k v m : bt_sorted m -> bt_get k m = Some v <-> (k, v) ∈ m.
Proof.
  intros Hs. split; [apply bt_get_Some_1|].
  induction m as [|[k' v'] m IH]; [set_solver|].
  apply bt_sorted_cons_inv in Hs as [Hs Hlt]. simpl.
  rewrite elem_of_cons. intros [[= -> ->]|Hin]; [by rewrite decide_True|].
  rewrite decide_False; [by apply IH|].
  intros ->. by apply (bytes_lt_irrefl k'), (Hlt _ v).
Qed.

Lemma bt_get_None k m : bt_get k m = None <-> k ∉ m.*1.
Proof.
  induction m as [|[k' v'] m IH]; simpl; [set_solver|].
  rewrite not_elem_of_cons. case_decide; naive_solver.
Qed.

(** Two maps that answer every lookup alike are the same map. *)
Lemma bt_ext m m' :
  bt_sorted m -> bt_sorted m' -> (forall k, bt_get k m = bt_get k m') -> m = m'.
Proof.
  revert m'. induction m as [|[k v] m IH]; intros m' Hs Hs' Heq.
  - destruct m' as [|[k' v'] m']; [done|]. specialize (Heq k'). simpl in Heq.
    by rewrite decide_True in Heq.
  - destruct m' as [|[k' v'] m'].
    { specialize (Heq k). simpl in Heq. by rewrite decide_True in Heq. }
    destruct (bt_sorted_cons_inv _ _ _ Hs) as [Hs1 Hlt1].
    destruct (bt_sorted_cons_inv _ _ _ Hs') as [Hs2 Hlt2].
    assert (k = k') as <-.
    { destruct (decide (k = k')) as [|Hne]; [done|].
      pose proof (Heq k) as H1. pose proof (Heq k') as H2. simpl in H1, H2.
      rewrite decide_True, decide_False in H1 by done.
      rewrite decide_False, decide_True in H2 by done.
      symmetry in H1. apply bt_get_Some_1, Hlt2 in H1. apply bt_get_Some_1, Hlt1 in H2.
      destruct (bytes_lt_irrefl k). by eapply bytes_lt_trans. }
    assert (v = v') as <-.
    { specialize (Heq k). simpl in Heq. rewrite !decide_True in Heq by done. congruence. }
    f_equal. apply IH; [done..|]. intros j. specialize (Heq j). simpl in Heq.
    case_decide as Hj; [subst j|done].
    assert (forall m, (forall k' v', (k', v') ∈ m -> bytes_lt k k') -> bt_get k m = None) as Hn.
    { intros n Hn. apply bt_get_None. intros ((? & v0) & -> & Hin)%list_elem_of_fmap.
      by apply Hn, bytes_lt_irrefl in Hin. }
    by rewrite !Hn.
Qed.

Lemma bt_insert_keys k v m j : j ∈ (bt_insert k v m).*1 <-> j = k \/ j ∈ m.*1.
Proof.
  induction m as [|[k' v'] m IH]; simpl; [set_solver|].
  destruct (bytes_cmp k k') eqn:E; simpl; rewrite ?elem_of_cons.
  - apply bytes_cmp_eq in E as ->. naive_solver.
  - naive_solver.
  - rewrite IH. naive_solver.
Qed.

Lemma bt_insert_sorted k v m : bt_sorted m -> bt_sorted (bt_insert k v m).
Proof.
  unfold bt_sorted. induction m as [|[k' v'] m IH]; simpl; intros Hs; [repeat constructor|].
  inversion Hs as [|?? Hs' Hf]; subst.
  destruct (bytes_cmp k k') eqn:E; simpl.
  - apply bytes_cmp_eq in E as ->. done.
  - constructor; [done|]. constructor; [done|].
    eapply Forall_impl; [done|]. simpl. intros x. by apply bytes_lt_trans.
  - apply bytes_cmp_gt in E. constructor; [by apply IH|].
    rewrite Forall_forall in *. intros x [->|Hx]%bt_insert_keys; [done|auto].
Qed.

Lemma bt_get_insert k v m j : bt_sorted m ->
  bt_get j (bt_insert k v m) = if decide (j = k) then Some v else bt_get j m.
Proof.
  intros Hs. induction m as [|[k' v'] m IH]; simpl; [done|].
  apply bt_sorted_cons_inv in Hs as [Hs Hlt].
  destruct (bytes_cmp k k') eqn:E; simpl.
  - apply bytes_cmp_eq in E as ->. by repeat case_decide.
  - done.
  - rewrite IH by done. apply bytes_cmp_gt in E.
    repeat case_decide; simplify_eq; try done. by apply bytes_lt_irrefl in E.
Qed.

Lemma bt_remove_sorted k m : bt_sorted m -> bt_sorted (bt_remove k m).
Proof.
  unfold bt_sorted, bt_remove. induction m as [|[k' v'] m IH]; intros Hs; [done|].
  inversion Hs as [|?? Hs' Hf]; subst. rewrite filter_cons. case_decide; [|by apply IH].
  simpl. constructor; [by apply IH|]. rewrite Forall_forall in *.
  intros x ((y & w) & -> & [_ Hy]%list_elem_of_filter)%list_elem_of_fmap.
  apply Hf, list_elem_of_fmap. by exists (y, w).
Qed.

Lemma bt_get_remove k m j :
  bt_get j (bt_remove k m) = if decide (j = k) then None else bt_get j m.
Proof.
  unfold bt_remove. induction m as [|[k' v'] m IH]; simpl; [by case_decide|].
  rewrite filter_cons. simpl. destruct (decide (k' <> k)) as [Hk|Hk]; simpl.
  - rewrite IH. repeat case_decide; simplify_eq; done.
  - rewrite IH. repeat case_decide; simplify_eq; done.
Qed.

Lemma bt_insert_fresh k v m : k ∉ m.*1 -> bt_insert k v m ≡ₚ (k, v) :: m.
Proof.
  induction m as [|[k' v'] m IH]; simpl; [done|]. rewrite not_elem_of_cons.
  intros [Hk Hm]. destruct (bytes_cmp k k') eqn:E; [|done|].
  - by apply bytes_cmp_eq in E.
  - rewrite (IH Hm). apply Permutation_swap.
Qed.

(** A map is determined by its bindings. *)
Lemma bt_sorted_perm m m' : bt_sorted m -> bt_sorted m' -> m ≡ₚ m' -> m = m'.
Proof.
  intros Hs Hs' Hp. apply bt_ext; [done..|]. intros k.
  apply option_eq. intros v. rewrite !bt_get_Some by done. by rewrite Hp.
Qed.

Lemma bt_sorted_NoDup m : bt_sorted m -> NoDup m.*1.
Proof.
  unfold bt_sorted. induction 1 as [|k l Hs IH Hf]; constructor; [|done].
  intros Hin. rewrite Forall_forall in Hf. by apply (bytes_lt_irrefl k), Hf.
Qed.

(** The key splits a map into the smaller and the greater keys. *)
Lemma bt_get_split k v m :
  bt_get k m = Some v -> exists pre post, m = pre ++ (k, v) :: post.
Proof. intros Hin%bt_get_Some_1. by apply list_elem_of_split. Qed.
End btree.
#[export] Hint Resolve bt_insert_sorted bt_remove_sorted : rust.

(** ** [slice::sort_by], a stable sort *)

Section sort.
Context {A : Type} (cmp : A -> A -> comparison).

Fixpoint insert_by (x : A) (l : list A) : list A :=
  match l with
  | [] => [x]
  | y :: l' => match cmp x y with Gt => y :: insert_by x l' | _ => x :: l end
  end.

Definition sort_by (l : list A) : list A := foldr insert_by [] l.

Lemma insert_by_perm x l : insert_by x l ≡ₚ x :: l.
Proof.
  induction l as [|y l IH]; simpl; [done|]. destruct (cmp x y); try done.
  rewrite IH. apply Permutation_swap.
Qed.

Lemma sort_by_perm l : sort_by l ≡ₚ l.
Proof.
  induction l as [|x l IH]; simpl; [done|]. by rewrite insert_by_perm, IH.
Qed.

Context (anti : forall x y, cmp x y = Gt -> cmp y x = Lt).
Context (trans : forall x y z, cmp x y <> Gt -> cmp y z <> Gt -> cmp x z <> Gt).

Let le x y := cmp x y <> Gt.

Lemma sort_by_sorted l : StronglySorted le (sort_by l).
Proof using anti trans.
  induction l as [|x l IH]; simpl; [constructor|].
  induction IH as [|y l' Hs IHs Hf]; simpl; [repeat constructor|].
  destruct (cmp x y) eqn:E.
  1, 2: constructor; [by constructor|]; constructor; [unfold le; by rewrite E|];
    eapply Forall_impl; [exact Hf|]; simpl; intros z Hz; eapply trans; [|exact Hz];
    by rewrite E.
  constructor; [done|]. rewrite Forall_forall in *.
  intros z Hz. rewrite insert_by_perm, elem_of_cons in Hz. destruct Hz as [->|Hz]; [|auto].
  unfold le. by rewrite (anti x y E).
Qed.
End sort.
