(* ===== verification/Foreign.v ===== *)
(** Code that the repository only calls: the SHA-256 crate, the Unicode tables
    (the [unicode-normalization] crate's [is_nfc] and the standard library's
    lower-case mapping) and the allocator.  Each is a class, so a definition
    that uses it takes it as an argument; the fields that are laws are the
    documented behaviour the repository relies on.  The instances at the end
    are concrete functions that show the laws can hold; they are not the
    default of anything. *)

From S2P Require Export Numerals.

(** [sha2::Sha256]: a digest is 32 bytes.  [Hasher::update] appends, so a
    digest is a function of the concatenation of what was fed. *)
Class Sha256 : Type := {
  sha256 : list byte -> list byte;
  sha256_length b : zlen (sha256 b) = 32
}.

(** [unicode_normalization::is_nfc] and [char::to_lowercase]. *)
Class Unicode : Type := {
  is_nfc : list byte -> bool;
  to_lowercase : Z -> list Z
}.

(** [Vec::try_reserve_exact(count)]: whether the memory is there. *)
Class Allocator : Type := { try_reserve : Z -> bool }.

(** The allocator can serve every request of at most [n] elements. *)
Definition memory_for `{Allocator} (n : Z) : Prop :=
  forall k, 0 <= k <= n -> try_reserve k = true.

(** [isize::MAX]: no allocation is larger. *)
Definition ISIZE_MAX : Z := 2 ^ 63 - 1.

(** [Vec::with_capacity(count)] and [vec![..; count]] of elements of [size]
    bytes: whether the call returns.  It panics on more than [isize::MAX] bytes
    and aborts when the allocator refuses. *)
Definition with_capacity `{Allocator} (size count : Z) : bool :=
  (size * count <=? ISIZE_MAX) && try_reserve count.

Lemma with_capacity_true `{Allocator} size count :
  (forall k, try_reserve k = true) -> size * count <= ISIZE_MAX -> with_capacity size count = true.
Proof. intros Hm Hle. unfold with_capacity. rewrite Hm. lia. Qed.

Definition toy_sha256 (b : list byte) : list byte := le_bytes 32 (le_val (b ++ [byte_of 1])).

Definition toy_sha : Sha256.
Proof.
  refine {| sha256 := toy_sha256 |}. intros b. apply zlen_le_bytes.
Defined.

(** ASCII text only: every ASCII string is in NFC. *)
Definition ascii_unicode : Unicode := {|
  is_nfc s := forallb (fun b => byte_val b <? 128) s;
  to_lowercase c := [if (65 <=? c) && (c <=? 90) then c + 32 else c]
|}.

Definition ample_memory : Allocator := {| try_reserve _ := true |}.
