(* ===== verification/Stamp.v ===== *)
(** The contract stamp: [Handle], [Stamp], its display form and its parser
    ([src/crates/tensorfs-core/src/contract.rs]). *)

From S2P Require Export Numerals.

Definition MAX_CONTRACT_NAME_BYTES : Z := 64.

(** [enum ContractError]. *)
Inductive contract_error : Type :=
| CE_Json (message : list byte)
| CE_Format
| CE_Name (name : list byte)
| CE_Version
| CE_Identity
| CE_DigestStamp (text : list byte)
| CE_Dtype (dtype : list byte)
| CE_NoTensors
| CE_Pattern (text : list byte)
| CE_Duplicate (text : list byte)
| CE_RoleHoles (role : list byte)
| CE_Fusion (name : list byte)
| CE_Permute (name : list byte)
| CE_Set (name : list byte)
| CE_DuplicateContract (name : list byte).

(** [struct Handle]. *)
Record handle : Type := Handle { h_name : list byte; h_version : Z }.

(** [enum Stamp]. *)
Inductive stamp : Type :=
| StampNone
| StampNamed (h : handle)
| StampDigest (digest : list byte).

#[export] Instance handle_eq_dec : EqDecision handle.
Proof. solve_decision. Defined.
#[export] Instance stamp_eq_dec : EqDecision stamp.
Proof. solve_decision. Defined.

Definition dot : byte := byte_of 46.
Definition hyphen : byte := byte_of 45.
Definition underscore : byte := byte_of 95.
Definition at_sign : byte := byte_of 64.

(** The ASCII classes of a handle.  The source asks them of each [char]; a
    non-ASCII [char] is in none of them and neither is any byte of its UTF-8
    form, so asking the bytes is the same. *)
Definition is_alnum (b : byte) : bool := is_ascii_lowercase b || is_ascii_digit b.
Definition producer_char (b : byte) : bool := is_alnum b || bool_decide (b = hyphen).
Definition format_char (b : byte) : bool :=
  is_alnum b || bool_decide (b = dot) || bool_decide (b = hyphen)
  || bool_decide (b = underscore).

(** [is_contract_name]. *)
Definition is_contract_name (name : list byte) : bool :=
  if bool_decide (name = []) || (MAX_CONTRACT_NAME_BYTES <? zlen name) then false
  else match split_once dot name with
  | None => false
  | Some (producer, format) =>
      if bool_decide (producer = [])
         || negb (match producer with b :: _ => is_alnum b | [] => false end)
         || negb (forallb producer_char producer) then false
      else match format with
      | [] => false
      | first :: characters =>
          if negb (is_alnum first) then false else forallb format_char characters
      end
  end.

(** [Handle::new]. *)
Definition Handle_new (name : list byte) (version : Z) : result contract_error handle :=
  if negb (is_contract_name name) then Err (CE_Name name)
  else if version =? 0 then Err CE_Version
  else Ok (Handle name version).

(** [Stamp::named]. *)
Definition Stamp_named (name : list byte) (version : Z) : result contract_error stamp :=
  let? h := Handle_new name version in Ok (StampNamed h).

(** [Stamp::name], [Stamp::version], [Stamp::digest]. *)
Definition Stamp_name (s : stamp) : option (list byte) :=
  match s with StampNone | StampDigest _ => None | StampNamed h => Some (h_name h) end.
Definition Stamp_version (s : stamp) : Z :=
  match s with StampNone | StampDigest _ => 0 | StampNamed h => h_version h end.
Definition Stamp_digest (s : stamp) : option (list byte) :=
  match s with StampDigest d => Some d | _ => None end.

(** [impl Display for Stamp]. *)
Definition Stamp_display (s : stamp) : list byte :=
  match s with
  | StampNone => bstr "none"
  | StampNamed h => h_name h ++ at_sign :: to_dec (h_version h)
  | StampDigest d => bstr "sha256:" ++ to_hex d
  end.

(** [Stamp::parse]. *)
Definition Stamp_parse (text : list byte) : result contract_error stamp :=
  if decide (text = bstr "none") then Ok StampNone
  else match strip_prefix (bstr "sha256:") text with
  | Some digits =>
      let! digest := parse_hex32 digits ?: CE_DigestStamp text in
      Ok (StampDigest digest)
  | None =>
      let! (name, version) := rsplit_once at_sign text ?: CE_Name text in
      let! version := parse_u32 version ?: CE_Version in
      Stamp_named name version
  end.

(** What the private fields of [Handle] and the array type of a digest
    guarantee of every stamp. *)
Definition wf_stamp (s : stamp) : Prop :=
  match s with
  | StampNone => True
  | StampNamed h => is_contract_name (h_name h) = true /\ 1 <= h_version h < U32
  | StampDigest d => zlen d = 32
  end.

#[export] Instance wf_stamp_dec s : Decision (wf_stamp s).
Proof. destruct s; simpl; apply _. Defined.

(** ** Names *)

(** Every byte of a usable name is a lower-case letter, a digit or one of
    [. - _]: in particular it is ASCII and is neither [@] nor [:]. *)
Lemma contract_name_chars name b :
  is_contract_name name = true -> b ∈ name -> format_char b = true.
Proof.
  unfold is_contract_name. intros H Hin.
  destruct (bool_decide (name = []) || _); [done|].
  destruct (split_once dot name) as [[producer format]|] eqn:E; [|done].
  apply split_once_Some in E as [-> _].
  destruct (_ || _ || negb (forallb producer_char producer)) eqn:Ep in H; [done|].
  apply orb_false_elim in Ep as [_ Ep%negb_false_iff].
  destruct format as [|first characters]; [done|].
  destruct (is_alnum first) eqn:Ef; [|done].
  simpl in H. rewrite forallb_forall in Ep, H.
  apply elem_of_app in Hin as [Hin|[->|[->|Hin]%elem_of_cons]%elem_of_cons].
  - apply list_elem_of_In, Ep in Hin. revert Hin. unfold producer_char, format_char.
    destruct (is_alnum b); [done|]. simpl. intros ->. by rewrite orb_true_r.
  - done.
  - unfold format_char. by rewrite Ef.
  - by apply H, list_elem_of_In.
Qed.

Lemma contract_name_length name : is_contract_name name = true -> 0 < zlen name <= 64.
Proof.
  unfold is_contract_name. intros H.
  destruct (bool_decide (name = []) || _) eqn:E; [done|].
  apply orb_false_elim in E as [?%bool_decide_eq_false ?].
  unfold MAX_CONTRACT_NAME_BYTES in *. destruct name; [done|]. rewrite zlen_cons in *.
  pose proof (zlen_nonneg name). lia.
Qed.

Lemma format_char_ascii b : format_char b = true -> byte_val b < 128.
Proof. destruct b; vm_compute; congruence. Qed.

Lemma contract_name_utf8 name : is_contract_name name = true -> utf8_valid name = true.
Proof.
  intros H. apply utf8_valid_ascii, Forall_forall. intros b Hb.
  by eapply format_char_ascii, contract_name_chars.
Qed.

Lemma Stamp_named_Ok name version s :
  Stamp_named name version = Ok s ->
  s = StampNamed (Handle name version) /\ is_contract_name name = true /\ version <> 0.
Proof.
  unfold Stamp_named, Handle_new. intros H.
  destruct (is_contract_name name); [|done]. simpl in H.
  destruct (Z.eqb_spec version 0); [done|]. by simplify_eq.
Qed.

Lemma Stamp_named_wf name version :
  is_contract_name name = true -> version <> 0 ->
  Stamp_named name version = Ok (StampNamed (Handle name version)).
Proof.
  intros H Hv. unfold Stamp_named, Handle_new. rewrite H. simpl.
  by replace (version =? 0) with false by lia.
Qed.

(** ** Display and parse *)

(** Whatever the parser accepts is a stamp a manifest may carry. *)
Lemma Stamp_parse_wf text s : Stamp_parse text = Ok s -> wf_stamp s.
Proof.
  unfold Stamp_parse. intros H. case_decide; [by simplify_eq|].
  destruct (strip_prefix _ text) as [digits|] eqn:Ep.
  - destruct (parse_hex32 digits) eqn:Eh; [|done]. simplify_eq.
    by apply parse_hex32_length in Eh.
  - destruct (rsplit_once at_sign text) as [[name digits]|]; [|done].
    destruct (parse_u32 digits) as [version|] eqn:Ev; [|done].
    apply Stamp_named_Ok in H as (-> & ? & ?). simpl.
    apply from_str_radix_bound in Ev; [|done..]. split; [done|lia].
Qed.

Lemma no_colon h : wf_stamp (StampNamed h) -> byte_of 58 ∉ Stamp_display (StampNamed h).
Proof.
  intros [Hn Hv]. simpl. rewrite elem_of_app, elem_of_cons. intros [H|[H|H]].
  - apply (contract_name_chars _ _ Hn) in H. by vm_compute in H.
  - by vm_compute in H.
  - by apply dec_digits_digits in H; [|lia].
Qed.

Lemma display_not_none h : Stamp_display (StampNamed h) <> bstr "none".
Proof.
  intros H. apply (bool_decide_eq_false_1 (at_sign ∈ bstr "none")); [by vm_compute|].
  rewrite <-H. simpl. set_solver.
Qed.

(** The display form of every stamp parses back to it. *)
Lemma Stamp_parse_display s : wf_stamp s -> Stamp_parse (Stamp_display s) = Ok s.
Proof.
  intros Hwf. destruct s as [|h|d]; [done| |].
  - unfold Stamp_parse. rewrite decide_False by apply display_not_none.
    destruct (strip_prefix (bstr "sha256:") _) as [rest|] eqn:Ep.
    { apply strip_prefix_Some in Ep. destruct (no_colon h Hwf). rewrite Ep.
      apply elem_of_app. left.
      apply (bool_decide_eq_true_1 (byte_of 58 ∈ bstr "sha256:")). by vm_compute. }
    destruct Hwf as [Hn Hv]. cbn [Stamp_display].
    rewrite (proj2 (rsplit_once_Some at_sign _ (h_name h) (to_dec (h_version h)))).
    + unfold parse_u32. rewrite from_str_radix_to_dec by (unfold U32, U64 in *; lia).
      rewrite Stamp_named_wf by (done || lia). by destruct h.
    + split; [done|]. intros H. apply dec_digits_digits in H; [by vm_compute in H | lia].
  - unfold Stamp_parse. rewrite decide_False by by vm_compute.
    cbn [Stamp_display]. rewrite (proj2 (strip_prefix_Some _ _ (to_hex d))) by done.
    by rewrite parse_hex32_to_hex.
Qed.

(** Every stamp that parses is one a manifest may carry, and its display
    form is a canonical spelling of it: it parses back to the same stamp. *)
Theorem stamp_round_trip text s :
  Stamp_parse text = Ok s -> wf_stamp s /\ Stamp_parse (Stamp_display s) = Ok s.
Proof. intros Hp. apply Stamp_parse_wf in Hp. auto using Stamp_parse_display. Qed.

Lemma stamp_round_trip_witness :
  Stamp_parse (bstr "acme.fused@12") = Ok (StampNamed (Handle (bstr "acme.fused") 12)) /\
  Stamp_parse (Stamp_display (StampNamed (Handle (bstr "acme.fused") 12)))
    = Ok (StampNamed (Handle (bstr "acme.fused") 12)).
Proof.
  assert (Stamp_parse (bstr "acme.fused@12") = Ok (StampNamed (Handle (bstr "acme.fused") 12)))
    as Hp by (vm_compute; reflexivity).
  split; [exact Hp|]. exact (proj2 (stamp_round_trip _ _ Hp)).
Defined.

(** The integer parser accepts a sign and leading zeros, so a stamp has more
    spellings than the canonical one. *)
Theorem stamp_spelling_not_unique :
  Stamp_parse (bstr "acme.fused@+1") = Stamp_parse (bstr "acme.fused@1") /\
  Stamp_parse (bstr "acme.fused@01") = Stamp_parse (bstr "acme.fused@1").
Proof. split; vm_compute; reflexivity. Qed.

(** So does the hexadecimal one: [+f] reads as the byte 15. *)
Theorem hex_spelling_not_unique :
  parse_hex32 (mjoin (replicate 32 (bstr "+f"))) = parse_hex32 (mjoin (replicate 32 (bstr "0f"))) /\
  parse_hex32 (mjoin (replicate 32 (bstr "+f"))) = Some (replicate 32 (byte_of 15)).
Proof. split; vm_compute; reflexivity. Qed.
