(* ===== verification/PlanTypes.v ===== *)
(** The planner vocabulary shared by the manifest, the planners and the object
    hasher: [PlannerId], [TensorFormat], [RegionKind], [Region] and the grid
    constants of [src/crates/tensorfs-core/src/planner/mod.rs]. *)

From S2P Require Export Numerals.

(** The tensor chunk grid: the bound on one tensor-planned object. *)
Definition MAX_OBJECT_SIZE : Z := 64 * 1024 * 1024.
Definition MAX_OBJECT_COUNT : Z := 1000000.

Inductive planner_id : Type := SafetensorsV1 | GgufV1 | BlobV1.

Inductive tensor_format : Type := TF_SafetensorsV1 | TF_GgufV1.

(** [PlannerId::as_str]. *)
Definition planner_as_str (p : planner_id) : list byte :=
  match p with
  | SafetensorsV1 => bstr "safetensors-v1"
  | GgufV1 => bstr "gguf-v1"
  | BlobV1 => bstr "blob-v1"
  end.

(** [PlannerId::tensor_format]. *)
Definition planner_tensor_format (p : planner_id) : option tensor_format :=
  match p with
  | SafetensorsV1 => Some TF_SafetensorsV1
  | GgufV1 => Some TF_GgufV1
  | BlobV1 => None
  end.

(** [TensorFormat::planner_id]. *)
Definition format_planner_id (f : tensor_format) : planner_id :=
  match f with TF_SafetensorsV1 => SafetensorsV1 | TF_GgufV1 => GgufV1 end.

Inductive region_kind : Type := RK_Header | RK_Tensor | RK_Blob.

Record region : Type := Region {
  r_offset : Z; r_length : Z; r_kind : region_kind
}.

(** [struct InventoryTensor] and [struct TensorInventory]. *)
Record inventory_tensor : Type := InventoryTensor {
  it_name : list byte; it_dtype : list byte; it_shape : list Z; it_offset : Z; it_length : Z
}.
Record tensor_inventory : Type := TensorInventory {
  ti_format : tensor_format; inv_tensors : list inventory_tensor
}.

#[export] Instance planner_id_eq_dec : EqDecision planner_id.
Proof. solve_decision. Defined.
#[export] Instance tensor_format_eq_dec : EqDecision tensor_format.
Proof. solve_decision. Defined.
#[export] Instance region_kind_eq_dec : EqDecision region_kind.
Proof. solve_decision. Defined.
#[export] Instance region_eq_dec : EqDecision region.
Proof. solve_decision. Defined.
