(* ===== verification/Tfm1.v ===== *)
(** TFM1, the canonical snapshot manifest
    ([src/crates/tensorfs-core/src/tfm1.rs]): the data model, the validation
    rules and the writer [emit].  The decoder is in [Tfm1Decode], the builder
    in [Tfm1Builder]. *)

From Stdlib Require Export Sorting.Sorted.
From S2P Require Export Foreign Stamp PlanTypes.

Definition MAX_PATH_BYTES : Z := 4096.
Definition MAX_SYMLINK_TARGET_BYTES : Z := 4096.
Definition MAX_FILE_RECORDS : Z := 1000000.

Definition EMPTY_BLOB_DIGEST : list byte := byte_of <$>
  [0xe3; 0xb0; 0xc4; 0x42; 0x98; 0xfc; 0x1c; 0x14; 0x9a; 0xfb; 0xf4; 0xc8; 0x99; 0x6f; 0xb9; 0x24;
   0x27; 0xae; 0x41; 0xe4; 0x64; 0x9b; 0x93; 0x4c; 0xa4; 0x95; 0x99; 0x1b; 0x78; 0x52; 0xb8; 0x55].

Definition MAGIC : list byte := bstr "TFM1".
Definition KIND_DIRECTORY : Z := 1.
Definition KIND_FILE : Z := 2.
Definition KIND_SYMLINK : Z := 3.
Definition KIND_HARDLINK : Z := 4.
Definition RECORD_DATA : Z := 1.
Definition RECORD_HOLE : Z := 2.
Definition STAMP_DIGEST_MARKER : Z := 0xFF.
Definition PLANNER_SAFETENSORS : Z := 1.
Definition PLANNER_GGUF : Z := 2.
Definition PLANNER_BLOB : Z := 4.
Definition MIN_ENTRY_BYTES : Z := 4 + 1 + 1.
Definition MIN_RECORD_BYTES : Z := 1 + 8.

Definition WINDOWS_RESERVED : list (list byte) :=
  [bstr "CON"; bstr "PRN"; bstr "AUX"; bstr "NUL"; bstr "COM1"; bstr "COM2"; bstr "COM3";
   bstr "COM4"; bstr "COM5"; bstr "COM6"; bstr "COM7"; bstr "COM8"; bstr "COM9"; bstr "LPT1";
   bstr "LPT2"; bstr "LPT3"; bstr "LPT4"; bstr "LPT5"; bstr "LPT6"; bstr "LPT7"; bstr "LPT8";
   bstr "LPT9"].

(** ** Data *)

(** [SnapshotId::of], [parse_hex] and [Display]: an id is 32 bytes. *)
Definition SnapshotId_of `{Sha256} (canonical_bytes : list byte) : list byte :=
  sha256 canonical_bytes.
Definition SnapshotId_parse_hex (text : list byte) : option (list byte) := parse_hex32 text.
Definition SnapshotId_display (id : list byte) : list byte := to_hex id.

(** [enum FileRecord]. *)
Inductive file_record : Type :=
| Data (digest : list byte) (length : Z)
| Hole (length : Z).

Definition record_length (r : file_record) : Z :=
  match r with Data _ length | Hole length => length end.

(** [enum FileBody]. *)
Inductive file_body : Type :=
| Tensor (format : tensor_format) (contract : stamp) (logical_size : Z)
    (records : list file_record)
| Blob (logical_size : Z) (digest : list byte).

Definition body_logical_size (b : file_body) : Z :=
  match b with Tensor _ _ n _ | Blob n _ => n end.

Definition body_planner_id (b : file_body) : planner_id :=
  match b with Tensor format _ _ _ => format_planner_id format | Blob _ _ => BlobV1 end.

(** [FileBody::records]: the one read-path vocabulary. *)
Definition body_records (b : file_body) : list file_record :=
  match b with
  | Tensor _ _ _ records => records
  | Blob logical_size digest =>
      if logical_size =? 0 then [] else [Data digest logical_size]
  end.

(** [enum Entry]. *)
Inductive entry : Type :=
| Directory
| File (executable : bool) (body : file_body)
| Symlink (target : list byte)
| Hardlink (ordinal : Z).

(** [enum TreeEntry]: the same facts with file content still a record run. *)
Inductive tree_entry : Type :=
| TDirectory
| TFile (executable : bool) (planner : planner_id) (contract : stamp)
    (records : list file_record)
| TSymlink (target : list byte)
| THardlink (ordinal : Z).

(** [struct Snapshot]. *)
Record snapshot : Type := Snapshot {
  s_parent : option (list byte);
  s_entries : list (list byte * entry)
}.

#[export] Instance file_record_eq_dec : EqDecision file_record.
Proof. solve_decision. Defined.
#[export] Instance file_body_eq_dec : EqDecision file_body.
Proof. solve_decision. Defined.
#[export] Instance entry_eq_dec : EqDecision entry.
Proof. solve_decision. Defined.
#[export] Instance tree_entry_eq_dec : EqDecision tree_entry.
Proof. solve_decision. Defined.
#[export] Instance snapshot_eq_dec : EqDecision snapshot.
Proof. solve_decision. Defined.

Definition is_file (e : entry) : bool := match e with File _ _ => true | _ => false end.
Definition is_directory (e : entry) : bool := match e with Directory => true | _ => false end.
Definition is_tree_file (e : tree_entry) : bool :=
  match e with TFile _ _ _ _ => true | _ => false end.
Definition is_tree_directory (e : tree_entry) : bool :=
  match e with TDirectory => true | _ => false end.

(** [ordinal_path] of a snapshot and of a head tree: the path of the file
    entry with that ordinal. *)
Definition nth_file {E} (is_file : E -> bool) (entries : list (list byte * E)) (ordinal : Z)
  : option (list byte) :=
  fst <$> filter (fun '(_, e) => is_file e = true) entries !! Z.to_nat ordinal.
Definition ordinal_path (s : snapshot) (ordinal : Z) : option (list byte) :=
  nth_file is_file (s_entries s) ordinal.
Definition tree_ordinal_path (entries : list (list byte * tree_entry)) (ordinal : Z)
  : option (list byte) :=
  nth_file is_tree_file entries ordinal.

(** ** Errors *)

(** [enum Tfm1Error]. *)
Inductive tfm1_error : Type :=
| Truncated | BadMagic | ParentFlag | CountExceedsInput | TrailingBytes | EntryOrder
| DuplicatePath | PathUtf8 | PathLength | PathNotNfc | PathAbsolute | PathEmptySegment
| PathDotSegment | PathForbiddenCharacter | PathTrailingDotSpace | PathWindowsReserved
| CaseFoldCollision | MissingParentDirectory | UnknownEntryKind | ExecutableFlag
| UnknownPlanner | ContractName | ContractVersion | UnknownRecordTag | ZeroLengthRecord
| AdjacentHoles | DataTooLarge | RecordLimit | LengthSumMismatch | EmptyBlobDigest
| BlobRecords | SymlinkTarget | HardlinkOrdinal | HardlinkTarget | ResourceExhausted.

#[export] Instance tfm1_error_eq_dec : EqDecision tfm1_error.
Proof. solve_decision. Defined.

(** [Tfm1Error::reason]. *)
Definition reason (e : tfm1_error) : list byte :=
  match e with
  | Truncated => bstr "truncated"
  | BadMagic => bstr "bad-magic"
  | ParentFlag => bstr "parent-flag"
  | CountExceedsInput => bstr "count-exceeds-input"
  | TrailingBytes => bstr "trailing-bytes"
  | EntryOrder => bstr "entry-order"
  | DuplicatePath => bstr "duplicate-path"
  | PathUtf8 => bstr "path-utf8"
  | PathLength => bstr "path-length"
  | PathNotNfc => bstr "path-not-nfc"
  | PathAbsolute => bstr "path-absolute"
  | PathEmptySegment => bstr "path-empty-segment"
  | PathDotSegment => bstr "path-dot-segment"
  | PathForbiddenCharacter => bstr "path-forbidden-character"
  | PathTrailingDotSpace => bstr "path-trailing-dot-space"
  | PathWindowsReserved => bstr "path-windows-reserved"
  | CaseFoldCollision => bstr "case-fold-collision"
  | MissingParentDirectory => bstr "missing-parent-directory"
  | UnknownEntryKind => bstr "unknown-entry-kind"
  | ExecutableFlag => bstr "executable-flag"
  | UnknownPlanner => bstr "unknown-planner"
  | ContractName => bstr "contract-name"
  | ContractVersion => bstr "contract-version"
  | UnknownRecordTag => bstr "unknown-record-tag"
  | ZeroLengthRecord => bstr "zero-length-record"
  | AdjacentHoles => bstr "adjacent-holes"
  | DataTooLarge => bstr "data-too-large"
  | RecordLimit => bstr "record-limit"
  | LengthSumMismatch => bstr "length-sum-mismatch"
  | EmptyBlobDigest => bstr "empty-blob-digest"
  | BlobRecords => bstr "blob-records"
  | SymlinkTarget => bstr "symlink-target"
  | HardlinkOrdinal => bstr "hardlink-ordinal"
  | HardlinkTarget => bstr "hardlink-target"
  | ResourceExhausted => bstr "resource-exhausted"
  end.

(** ** Validation *)

Definition slash : byte := byte_of 47.

(** Backslash, colon, star, question mark, double quote, angle brackets, bar. *)
Definition forbidden_characters : list Z := [92; 58; 42; 63; 34; 60; 62; 124].

(** The body of the loop over [path.split('/')]. *)
Definition validate_segment (segment : list byte) : result tfm1_error unit :=
  if bool_decide (segment = []) then Err PathEmptySegment
  else if bool_decide (segment = bstr ".") || bool_decide (segment = bstr "..")
  then Err PathDotSegment
  else if existsb (fun c => is_control c || bool_decide (c ∈ forbidden_characters))
            (chars segment)
  then Err PathForbiddenCharacter
  else if ends_with (bstr ".") segment || ends_with (bstr " ") segment
  then Err PathTrailingDotSpace
  else
    let stem := default [] (head (split_on dot segment)) in
    if (zlen stem <=? 4) && existsb (eq_ignore_ascii_case stem) WINDOWS_RESERVED
    then Err PathWindowsReserved
    else Ok tt.

Definition validate_path `{Unicode} (path : list byte) : result tfm1_error unit :=
  if bool_decide (path = []) || (MAX_PATH_BYTES <? zlen path) then Err PathLength
  else if negb (is_nfc path) then Err PathNotNfc
  else if starts_with (bstr "/") path then Err PathAbsolute
  else for_each (fun _ segment => validate_segment segment) tt (split_on slash path).

Definition validate_symlink_target (target : list byte) : result tfm1_error unit :=
  if bool_decide (target = []) || (MAX_SYMLINK_TARGET_BYTES <? zlen target)
     || existsb is_control (chars target)
  then Err SymlinkTarget else Ok tt.

(** One iteration of [validate_record_run]: the running sum and whether the
    previous record was a hole. *)
Definition record_run_step (st : Z * bool) (record : file_record)
  : result tfm1_error (Z * bool) :=
  let '(sum, previous_was_hole) := st in
  if record_length record =? 0 then Err ZeroLengthRecord
  else
    let? previous_was_hole :=
      match record with
      | Data _ _ => Ok false
      | Hole _ => if previous_was_hole then Err AdjacentHoles else Ok true
      end in
    let! sum := checked_add sum (record_length record) ?: LengthSumMismatch in
    Ok (sum, previous_was_hole).

Definition validate_record_run (records : list file_record) (logical_size : Z)
  : result tfm1_error unit :=
  if MAX_FILE_RECORDS <? zlen records then Err RecordLimit
  else
    let? (sum, _) := for_each record_run_step (0, false) records in
    if negb (sum =? logical_size) then Err LengthSumMismatch else Ok tt.

Definition validate_records (records : list file_record) (logical_size : Z)
  : result tfm1_error unit :=
  let? _ := validate_record_run records logical_size in
  for_each (fun _ record =>
    match record with
    | Data _ length => if MAX_OBJECT_SIZE <? length then Err DataTooLarge else Ok tt
    | Hole _ => Ok tt
    end) tt records.

(** [case_fold]: the lower-cased characters.  The source collects them into a
    [String]; two such strings are equal exactly when their characters are. *)
Definition case_fold `{Unicode} (path : list byte) : list Z := chars path ≫= to_lowercase.

(** [validate_tree], generic in the entry type. *)
Definition validate_tree `{Unicode} {E} (is_directory : E -> bool)
    (entries : list (list byte * E)) : result tfm1_error unit :=
  let? _ := for_each (fun folded '(path, _) =>
      let fold := case_fold path in
      if decide (fold ∈ folded) then Err CaseFoldCollision else Ok (fold :: folded))
    [] entries in
  let directories := (filter (fun '(_, e) => is_directory e = true) entries).*1 in
  for_each (fun _ '(path, _) =>
      match rsplit_once slash path with
      | Some (parent, _) =>
          if decide (parent ∈ directories) then Ok tt else Err MissingParentDirectory
      | None => Ok tt
      end) tt entries.

(** ** The writer *)

Definition planner_tag (body : file_body) : Z :=
  match body with
  | Tensor TF_SafetensorsV1 _ _ _ => PLANNER_SAFETENSORS
  | Tensor TF_GgufV1 _ _ _ => PLANNER_GGUF
  | Blob _ _ => PLANNER_BLOB
  end.

Definition emit_record (record : file_record) : list byte :=
  match record with
  | Data digest length => u8_bytes RECORD_DATA ++ digest ++ u64_bytes length
  | Hole length => u8_bytes RECORD_HOLE ++ u64_bytes length
  end.

Definition emit_stamp (contract : stamp) : list byte :=
  match contract with
  | StampDigest digest => u8_bytes STAMP_DIGEST_MARKER ++ digest
  | named_or_none =>
      let name := default [] (Stamp_name named_or_none) in
      u8_bytes (zlen name) ++ name ++ u32_bytes (Stamp_version named_or_none)
  end.

(** The part of [emit_body] after the planner tag. *)
Definition emit_body_fields (body : file_body) : list byte :=
  match body with
  | Tensor _ contract logical_size records =>
      u64_bytes logical_size ++ emit_stamp contract ++
      u64_bytes (zlen records) ++ (records ≫= emit_record)
  | Blob logical_size digest => u64_bytes logical_size ++ digest
  end.
Definition emit_body (body : file_body) : list byte :=
  u8_bytes (planner_tag body) ++ emit_body_fields body.

Definition emit_entry (e : entry) : list byte :=
  match e with
  | Directory => u8_bytes KIND_DIRECTORY
  | File executable body =>
      u8_bytes KIND_FILE ++ u8_bytes (if executable then 1 else 0) ++ emit_body body
  | Symlink target => u8_bytes KIND_SYMLINK ++ u32_bytes (zlen target) ++ target
  | Hardlink ordinal => u8_bytes KIND_HARDLINK ++ u64_bytes ordinal
  end.

Definition emit_path_entry (pe : list byte * entry) : list byte :=
  u32_bytes (zlen pe.1) ++ pe.1 ++ emit_entry pe.2.

Definition emit_parent (parent : option (list byte)) : list byte :=
  match parent with None => u8_bytes 0 | Some id => u8_bytes 1 ++ id end.

Definition emit (parent : option (list byte)) (entries : list (list byte * entry))
  : list byte :=
  MAGIC ++ emit_parent parent ++ u64_bytes (zlen entries) ++ (entries ≫= emit_path_entry).

(** [Snapshot::to_bytes], [Snapshot::snapshot_id] and [FileBody::body_sha256]. *)
Definition to_bytes (s : snapshot) : list byte := emit (s_parent s) (s_entries s).
Definition snapshot_id `{Sha256} (s : snapshot) : list byte := SnapshotId_of (to_bytes s).
Definition body_sha256 `{Sha256} (body : file_body) : list byte := sha256 (emit_body body).

(** ** What a canonical snapshot is

    The declarative form of the rules; that the decoder and the builder
    establish it, and that it suffices for decoding, is proved in
    [Tfm1Decode] and [Tfm1Builder]. *)

Definition sum_lengths (records : list file_record) : Z :=
  foldr (fun r acc => record_length r + acc) 0 records.

Definition is_hole (r : file_record) : bool := match r with Hole _ => true | _ => false end.

(** No two neighbours are both holes. *)
Fixpoint no_adjacent_holes (records : list file_record) : bool :=
  match records with
  | a :: ((b :: _) as l) => negb (is_hole a && is_hole b) && no_adjacent_holes l
  | _ => true
  end.

Definition wf_record (r : file_record) : Prop :=
  match r with
  | Data digest length => zlen digest = 32 /\ in_u64 length
  | Hole length => in_u64 length
  end.

Record wf_record_run (records : list file_record) (logical_size : Z) : Prop := {
  wrr_count : zlen records <= MAX_FILE_RECORDS;
  wrr_nonzero : Forall (fun r => record_length r <> 0) records;
  wrr_holes : no_adjacent_holes records = true;
  wrr_sum : sum_lengths records = logical_size;
  wrr_fits : sum_lengths records < U64
}.

Definition wf_body (b : file_body) : Prop :=
  match b with
  | Tensor _ contract logical_size records =>
      wf_stamp contract /\ wf_record_run records logical_size
      /\ Forall wf_record records
      /\ Forall (fun r => is_hole r = false -> record_length r <= MAX_OBJECT_SIZE) records
  | Blob logical_size digest =>
      in_u64 logical_size /\ zlen digest = 32
      /\ (logical_size = 0 -> digest = EMPTY_BLOB_DIGEST)
  end.

Definition wf_entry (e : entry) : Prop :=
  match e with
  | Directory => True
  | File _ body => wf_body body
  | Symlink target => is_utf8 target /\ validate_symlink_target target = Ok tt
  | Hardlink ordinal => in_u64 ordinal
  end.

Definition count_files {E} (is_file : E -> bool) (entries : list (list byte * E)) : Z :=
  zlen (filter (fun '(_, e) => is_file e = true) entries).

(** A hardlink names a file that precedes it. *)
Definition hardlinks_resolve (entries : list (list byte * entry)) : Prop :=
  forall pre path ordinal post, entries = pre ++ (path, Hardlink ordinal) :: post ->
    0 <= ordinal < count_files is_file pre.

(** The whole-tree facts: no two paths collide when lower-cased, and the
    parent of every path is itself a directory entry. *)
Definition tree_ok `{Unicode} {E} (is_directory : E -> bool)
    (entries : list (list byte * E)) : Prop :=
  NoDup (case_fold <$> entries.*1) /\
  forall path e parent name, (path, e) ∈ entries -> rsplit_once slash path = Some (parent, name) ->
    exists d, (parent, d) ∈ entries /\ is_directory d = true.

Record wf_snapshot `{Unicode} (s : snapshot) : Prop := {
  wf_parent : forall id, s_parent s = Some id -> zlen id = 32;
  wf_sorted : StronglySorted bytes_lt (s_entries s).*1;
  wf_paths : Forall (fun pe => is_utf8 pe.1 /\ validate_path pe.1 = Ok tt) (s_entries s);
  wf_entries : Forall (fun pe => wf_entry pe.2) (s_entries s);
  wf_hardlinks : hardlinks_resolve (s_entries s);
  wf_tree : tree_ok is_directory (s_entries s)
}.

(** ** The rules, declaratively *)

Lemma no_adjacent_holes_snoc l r :
  no_adjacent_holes (l ++ [r]) =
  no_adjacent_holes l && negb (default false (is_hole <$> last l) && is_hole r).
Proof.
  induction l as [|a l IH]; [done|]. destruct l as [|b l]; [by simpl; destruct a, r|].
  change ((a :: b :: l) ++ [r]) with (a :: ((b :: l) ++ [r])).
  cbn [no_adjacent_holes app] in *. rewrite IH, andb_assoc. done.
Qed.

Lemma sum_lengths_snoc l r : sum_lengths (l ++ [r]) = sum_lengths l + record_length r.
Proof. induction l; simpl in *; lia. Qed.

Lemma sum_lengths_nonneg l : Forall wf_record l -> 0 <= sum_lengths l.
Proof.
  induction 1 as [|r l Hr Hl IH]; simpl; [lia|].
  destruct r; simpl in *; unfold in_u64 in *; naive_solver lia.
Qed.

Lemma record_length_nonneg r : wf_record r -> 0 <= record_length r < U64.
Proof. destruct r; simpl; unfold in_u64; naive_solver. Qed.

(** The state of the record loop after a prefix of the records. *)
Definition run_state (pre : list file_record) (st : Z * bool) : Prop :=
  st = (sum_lengths pre, default false (is_hole <$> last pre))
  /\ Forall (fun r => record_length r <> 0) pre
  /\ no_adjacent_holes pre = true /\ sum_lengths pre < U64.

Lemma record_run_step_iff pre r st st' :
  run_state pre st -> record_run_step st r = Ok st' <-> run_state (pre ++ [r]) st'.
Proof.
  intros (-> & Hnz & Hh & Hs). unfold run_state, record_run_step.
  rewrite sum_lengths_snoc, last_snoc, no_adjacent_holes_snoc, Hh, Forall_app,
    Forall_singleton. cbn [fmap option_fmap option_map default andb].
  destruct (Z.eqb_spec (record_length r) 0) as [H0|H0].
  { split; [done|]. by intros (_ & [_ ?] & _). }
  split.
  - intros H. destruct r as [d n|n]; simpl in *.
    + destruct (checked_add _ n) eqn:E; [|done]. apply checked_add_Some in E as [-> ?].
      simplify_eq. by rewrite andb_false_r.
    + destruct (default false _) eqn:Ed; [done|]. destruct (checked_add _ n) eqn:E; [|done].
      apply checked_add_Some in E as [-> ?]. by simplify_eq.
  - intros (-> & _ & Hn & Hlt).
    rewrite (proj2 (checked_add_Some _ _ _)) by (split; [reflexivity|done]).
    destruct r as [d n|n]; simpl in *; [done|]. by destruct (default false _).
Qed.

Lemma run_state_prefix pre r post :
  Forall wf_record (pre ++ r :: post) ->
  Forall (fun r => record_length r <> 0) (pre ++ r :: post) ->
  no_adjacent_holes (pre ++ r :: post) = true ->
  sum_lengths (pre ++ r :: post) < U64 ->
  run_state (pre ++ [r]) (sum_lengths (pre ++ [r]), is_hole r).
Proof.
  replace (pre ++ r :: post) with ((pre ++ [r]) ++ post) by by rewrite <-app_assoc.
  generalize (pre ++ [r]) as l, (last_snoc r pre). intros l Hlast Hwf Hnz Hh Hlt.
  unfold run_state. rewrite Hlast. split; [done|].
  revert Hwf Hnz Hh Hlt. clear Hlast. induction post as [|x post IH] using rev_ind;
    [rewrite app_nil_r; tauto|].
  rewrite app_assoc, no_adjacent_holes_snoc, sum_lengths_snoc, !(Forall_app _ _ [x]).
  intros [Hwf Hx] [Hnz _] [Hh _]%andb_true_iff Hlt. rewrite Forall_singleton in Hx.
  apply record_length_nonneg in Hx. apply IH; (done || lia).
Qed.

(** [validate_record_run] accepts exactly the well-formed runs. *)
Lemma validate_record_run_iff records n :
  Forall wf_record records ->
  validate_record_run records n = Ok tt <-> wf_record_run records n.
Proof.
  intros Hwf. unfold validate_record_run.
  destruct (Z.ltb_spec MAX_FILE_RECORDS (zlen records)) as [Hc|Hc].
  { split; [done|]. intros [? _ _ _ _]. lia. }
  split.
  - destruct (for_each record_run_step (0, false) records) as [[sum h]|] eqn:E; [|done].
    apply (for_each_inv _ run_state) in E.
    + destruct E as ([= -> _] & ? & ? & ?).
      destruct (Z.eqb_spec (sum_lengths records) n); [|done]. by constructor.
    + by repeat split; auto.
    + intros pre r post t t' _ Ht. by apply record_run_step_iff.
  - intros [_ Hnz Hh Hsum Hlt].
    destruct (for_each_total record_run_step run_state records (0, false))
      as ([sum h] & -> & ([= -> _] & _)).
    + by repeat split; auto.
    + intros pre r post t -> Ht. eexists. split; [|by eapply run_state_prefix].
      apply (record_run_step_iff pre); [done|]. by eapply run_state_prefix.
    + by rewrite Hsum, Z.eqb_refl.
Qed.

Lemma validate_records_iff records n :
  Forall wf_record records ->
  validate_records records n = Ok tt <->
  wf_record_run records n /\
  Forall (fun r => is_hole r = false -> record_length r <= MAX_OBJECT_SIZE) records.
Proof.
  intros Hwf. rewrite <-validate_record_run_iff by done. unfold validate_records.
  destruct (validate_record_run records n) as [[]|] eqn:E; [|naive_solver].
  rewrite (for_each_check (fun record => match record with
    | Data _ length => if MAX_OBJECT_SIZE <? length then Err DataTooLarge else Ok tt
    | Hole _ => Ok tt end)).
  assert (forall r, match r with
    | Data _ length => if MAX_OBJECT_SIZE <? length then Err DataTooLarge else Ok tt
    | Hole _ => Ok tt end = Ok tt <-> (is_hole r = false -> record_length r <= MAX_OBJECT_SIZE)).
  { intros [d m|m]; simpl; [|naive_solver].
    destruct (Z.ltb_spec MAX_OBJECT_SIZE m); split; (done || intros; simplify_eq; try lia; auto). }
  rewrite !Forall_forall. naive_solver.
Qed.

(** [validate_tree] accepts exactly the trees without case collisions whose
    parents are directories. *)
Lemma validate_tree_iff `{Unicode} {E} (is_dir : E -> bool) entries :
  validate_tree is_dir entries = Ok tt <-> tree_ok is_dir entries.
Proof.
  unfold validate_tree, tree_ok.
  set (step := fun folded '(path, _) => _).
  assert (forall acc, (exists st, for_each step acc entries = Ok st) <->
    NoDup (case_fold <$> entries.*1) /\ forall x, x ∈ acc -> x ∉ case_fold <$> entries.*1)
    as Hfold.
  { induction entries as [|[path e] l IH]; intros acc; simpl.
    - split; [|by eauto]. intros _. split; [constructor|set_solver].
    - rewrite NoDup_cons. case_decide as Hd.
      + split; [by intros []|]. intros [_ Hn]. specialize (Hn _ Hd). set_solver.
      + rewrite IH. set_solver. }
  specialize (Hfold []).
  destruct (for_each step [] entries) as [st|] eqn:Es.
  - assert (NoDup (case_fold <$> entries.*1)) as Hnd by (apply Hfold; eauto).
    set (check := fun _ '(path, _) => _).
    assert (for_each check tt entries = Ok tt <-> Forall (fun pe => check tt pe = Ok tt) entries)
      as ->.
    { rewrite <-for_each_check. done. }
    rewrite Forall_forall. split.
    + intros Hall. split; [done|]. intros path e parent name Hin Hr.
      specialize (Hall _ Hin). simpl in Hall. rewrite Hr in Hall.
      case_decide as Hd; [|done].
      apply list_elem_of_fmap in Hd as ((? & d) & -> & [? ?]%list_elem_of_filter). eauto.
    + intros [_ Hall] [path e] Hin. simpl.
      destruct (rsplit_once slash path) as [[parent name]|] eqn:Hr; [|done].
      destruct (Hall _ _ _ _ Hin Hr) as (d & ? & ?). rewrite decide_True; [done|].
      apply list_elem_of_fmap. exists (parent, d). by rewrite list_elem_of_filter.
  - split; [done|]. intros [Hnd _]. destruct Hfold as [_ [st ?]]; [|done].
    split; [done|set_solver].
Qed.

(** ** Safe paths *)

(** A path segment that names the same file on every host: no traversal, no
    control or reserved character, no Windows device. *)
Record safe_segment (segment : list byte) : Prop := {
  ss_nonempty : segment <> [];
  ss_dot : segment <> bstr ".";
  ss_dotdot : segment <> bstr "..";
  ss_chars : forall c, c ∈ chars segment ->
    is_control c = false /\ (c ∉ forbidden_characters);
  ss_last : forall k b, segment = k ++ [b] -> b <> dot /\ b <> byte_of 32;
  ss_device : forall stem tail reserved, (segment = stem \/ segment = stem ++ dot :: tail) ->
    dot ∉ stem -> zlen stem <= 4 -> reserved ∈ WINDOWS_RESERVED ->
    eq_ignore_ascii_case stem reserved = false
}.

Lemma existsb_false {A} (f : A -> bool) l :
  existsb f l = false <-> forall x, x ∈ l -> f x = false.
Proof.
  induction l as [|a l IH]; simpl; [set_solver|].
  rewrite orb_false_iff, IH. set_solver.
Qed.

(** The stem of a segment is what precedes its first dot. *)
Lemma stem_spec segment stem :
  (segment = stem \/ exists tail, segment = stem ++ dot :: tail) -> dot ∉ stem ->
  default [] (head (split_on dot segment)) = stem.
Proof.
  intros [->|[tail ->]] Hn; [by rewrite split_on_none|by rewrite split_on_app].
Qed.

Lemma stem_split segment :
  exists stem, (dot ∉ stem) /\ default [] (head (split_on dot segment)) = stem
    /\ (segment = stem \/ exists tail, segment = stem ++ dot :: tail).
Proof.
  pose proof (join_split_on dot segment) as Hj. pose proof (split_on_parts dot segment) as Hp.
  destruct (split_on dot segment) as [|stem parts] eqn:E; [by apply split_on_nonempty in E|].
  inversion Hp; subst. exists stem. split; [done|]. split; [done|].
  destruct parts as [|p parts]; [by left|]. right. by exists (join dot (p :: parts)).
Qed.

Lemma validate_segment_iff segment :
  validate_segment segment = Ok tt <-> safe_segment segment.
Proof.
  unfold validate_segment. split.
  - intros Hv. repeat (case_match; [done|]). apply orb_false_elim in H0 as [H0 H0'].
    apply orb_false_elim in H2 as [H2 H2']. rewrite existsb_false in H1.
    constructor; try by eapply bool_decide_eq_false_1.
    + intros c Hc. specialize (H1 c Hc). apply orb_false_elim in H1 as [? ?].
      by rewrite <-(bool_decide_eq_false (c ∈ forbidden_characters)).
    + intros k b ->. split; intros ->.
      * rewrite (proj2 (ends_with_byte dot _)) in H2; [done|eauto].
      * rewrite (proj2 (ends_with_byte (byte_of 32) _)) in H2'; [done|eauto].
    + intros stem tail reserved Hs Hn Hl Hr.
      rewrite (stem_spec segment stem) in H3 by naive_solver.
      rewrite (proj2 (Z.leb_le _ _) Hl), andb_true_l, existsb_false in H3. by apply H3.
  - intros [H1 H2 H3 H4 H5 H6].
    rewrite !bool_decide_eq_false_2 by done. cbn [orb].
    assert (existsb (fun c => is_control c || bool_decide (c ∈ forbidden_characters))
      (chars segment) = false) as ->.
    { apply existsb_false. intros c [Hc Hf]%H4. by rewrite Hc, bool_decide_eq_false_2. }
    destruct (ends_with (bstr ".") segment) eqn:Ed.
    { apply ends_with_byte in Ed as [k ->]. by destruct (H5 k dot). }
    destruct (ends_with (bstr " ") segment) eqn:Es.
    { apply ends_with_byte in Es as [k ->]. by destruct (H5 k (byte_of 32)). }
    cbn [orb]. destruct (stem_split segment) as (stem & Hn & -> & Hs).
    destruct (Z.leb_spec (zlen stem) 4); [|done]. rewrite andb_true_l.
    assert (existsb (eq_ignore_ascii_case stem) WINDOWS_RESERVED = false) as ->; [|done].
    apply existsb_false. intros reserved Hr.
    destruct Hs as [Hs|[tail Hs]]; [apply (H6 stem []) | apply (H6 stem tail)]; auto.
Qed.

(** A valid path is a non-empty, bounded, NFC sequence of safe segments joined
    by slashes. *)
Lemma validate_path_iff `{Unicode} path :
  validate_path path = Ok tt <->
  0 < zlen path <= MAX_PATH_BYTES /\ is_nfc path = true /\
  exists segments, segments <> [] /\ path = join slash segments /\
    Forall (fun segment => (slash ∉ segment) /\ safe_segment segment) segments.
Proof.
  unfold validate_path.
  assert (bool_decide (path = []) || (MAX_PATH_BYTES <? zlen path) = false <->
    0 < zlen path <= MAX_PATH_BYTES) as Hlen.
  { destruct path as [|b path].
    - split; [done|]. change (zlen []) with 0. lia.
    - rewrite bool_decide_eq_false_2 by done. rewrite zlen_cons.
      pose proof (zlen_nonneg path). simpl. rewrite Z.ltb_ge. lia. }
  destruct (_ || _) eqn:El.
  { split; [done|]. intros [Hl%Hlen _]. done. }
  destruct (is_nfc path) eqn:En; [|naive_solver]. simpl.
  destruct (starts_with (bstr "/") path) eqn:Ea.
  { split; [done|]. intros (_ & _ & segs & Hne & -> & Hf). exfalso.
    unfold starts_with in Ea. destruct (strip_prefix _ _) as [rest|] eqn:Ep; [|done].
    apply strip_prefix_Some in Ep.
    destruct segs as [|[|b seg] segs]; [done| |]; inversion Hf as [|?? [Hs Hsafe] _]; subst.
    - by apply (ss_nonempty _ Hsafe).
    - destruct segs; simplify_eq/=; set_solver. }
  rewrite for_each_check. split.
  - intros Hf. split; [by apply Hlen|]. split; [done|]. exists (split_on slash path).
    split; [apply split_on_nonempty|]. split; [by rewrite join_split_on|].
    pose proof (split_on_parts slash path) as Hp. rewrite Forall_forall in *.
    intros seg Hs. split; [by apply Hp|]. by apply validate_segment_iff, Hf.
  - intros (_ & _ & segs & Hne & -> & Hf). rewrite split_on_join; [|done|].
    + eapply Forall_impl; [exact Hf|]. intros seg [_ ?]. by apply validate_segment_iff.
    + eapply Forall_impl; [exact Hf|]. by intros seg [? _].
Qed.
