(* ===== verification/Tfm1Decode.v ===== *)
(** The strict TFM1 decoder ([decode], [decode_tensor_body], [decode_stamp] of
    [src/crates/tensorfs-core/src/tfm1.rs]) against the writer of [Tfm1]:
    every accepted input is the one canonical encoding of the snapshot it
    decodes to, and every well-formed snapshot's encoding is accepted. *)

From S2P Require Export Tfm1 Reader BTree.

Section decode.
Context `{Unicode, Allocator}.

Definition decode_stamp (r : reader) : result tfm1_error (stamp * reader) :=
  let? (length, r) := take_u8 Truncated r in
  if length =? STAMP_DIGEST_MARKER then
    let? (digest, r) := reader_take Truncated 32 r in Ok (StampDigest digest, r)
  else if MAX_CONTRACT_NAME_BYTES <? length then Err ContractName
  else
    let? (name, r) := reader_take Truncated length r in
    if negb (utf8_valid name) then Err ContractName
    else
      let? (version, r) := take_u32 Truncated r in
      if bool_decide (name = []) then
        if negb (version =? 0) then Err ContractVersion else Ok (StampNone, r)
      else if version =? 0 then Err ContractVersion
      else
        let? s := map_err (fun _ => ContractName) (Stamp_named name version) in Ok (s, r).

(** The body of the record loop. *)
Definition decode_record (r : reader) : result tfm1_error (file_record * reader) :=
  let? (tag, r) := take_u8 Truncated r in
  if tag =? RECORD_DATA then
    let? (digest, r) := reader_take Truncated 32 r in
    let? (length, r) := take_u64 Truncated r in
    Ok (Data digest length, r)
  else if tag =? RECORD_HOLE then
    let? (length, r) := take_u64 Truncated r in Ok (Hole length, r)
  else Err UnknownRecordTag.

Definition decode_tensor_body (format : tensor_format) (r : reader)
  : result tfm1_error (file_body * reader) :=
  let? (logical_size, r) := take_u64 Truncated r in
  let? (contract, r) := decode_stamp r in
  let? (record_count, r) := take_u64 Truncated r in
  if MAX_FILE_RECORDS <? record_count then Err RecordLimit
  else if remaining r / MIN_RECORD_BYTES <? record_count then Err CountExceedsInput
  else if negb (try_reserve record_count) then Err ResourceExhausted
  else
    let? (r, records) := for_count (fun '(r, records) =>
        let? (record, r) := decode_record r in Ok (r, records ++ [record]))
      (r, []) (Z.to_nat record_count) in
    let? _ := validate_records records logical_size in
    Ok (Tensor format contract logical_size records, r).

Definition decode_blob_body (r : reader) : result tfm1_error (file_body * reader) :=
  let? (logical_size, r) := take_u64 Truncated r in
  let? (digest, r) := reader_take Truncated 32 r in
  if (logical_size =? 0) && negb (bool_decide (digest = EMPTY_BLOB_DIGEST))
  then Err EmptyBlobDigest
  else Ok (Blob logical_size digest, r).

Definition decode_body (r : reader) : result tfm1_error (file_body * reader) :=
  let? (tag, r) := take_u8 Truncated r in
  if tag =? PLANNER_SAFETENSORS then decode_tensor_body TF_SafetensorsV1 r
  else if tag =? PLANNER_GGUF then decode_tensor_body TF_GgufV1 r
  else if tag =? PLANNER_BLOB then decode_blob_body r
  else Err UnknownPlanner.

(** The [match reader.take_u8()?] of the entry loop, with the number of file
    entries so far; the new number is the third component. *)
Definition decode_entry (assigned_ordinals : Z) (r : reader)
  : result tfm1_error (entry * reader) :=
  let? (tag, r) := take_u8 Truncated r in
  if tag =? KIND_DIRECTORY then Ok (Directory, r)
  else if tag =? KIND_FILE then
    let? (flag, r) := take_u8 Truncated r in
    let? executable :=
      if flag =? 0 then Ok false else if flag =? 1 then Ok true else Err ExecutableFlag in
    let? (body, r) := decode_body r in
    Ok (File executable body, r)
  else if tag =? KIND_SYMLINK then
    let? (target_length, r) := take_u32 Truncated r in
    if MAX_SYMLINK_TARGET_BYTES <? target_length then Err SymlinkTarget
    else
      let? (target, r) := reader_take Truncated target_length r in
      if negb (utf8_valid target) then Err SymlinkTarget
      else
        let? _ := validate_symlink_target target in
        Ok (Symlink target, r)
  else if tag =? KIND_HARDLINK then
    let? (ordinal, r) := take_u64 Truncated r in
    if assigned_ordinals <=? ordinal then Err HardlinkOrdinal
    else Ok (Hardlink ordinal, r)
  else Err UnknownEntryKind.

(** The comparison with [entries.last()]. *)
Definition check_order (entries : list (list byte * entry)) (path : list byte)
  : result tfm1_error unit :=
  match last entries with
  | Some (previous, _) =>
      match bytes_cmp previous path with
      | Lt => Ok tt
      | Eq => Err DuplicatePath
      | Gt => Err EntryOrder
      end
  | None => Ok tt
  end.

(** One iteration of the entry loop up to the push. *)
Definition decode_path_entry (entries : list (list byte * entry)) (assigned_ordinals : Z)
    (r : reader) : result tfm1_error ((list byte * entry) * reader) :=
  let? (path_length, r) := take_u32 Truncated r in
  if (path_length =? 0) || (MAX_PATH_BYTES <? path_length) then Err PathLength
  else
    let? (path, r) := reader_take Truncated path_length r in
    if negb (utf8_valid path) then Err PathUtf8
    else
      let? _ := validate_path path in
      let? _ := check_order entries path in
      let? (e, r) := decode_entry assigned_ordinals r in
      Ok ((path, e), r).

Definition decode_step (st : reader * list (list byte * entry) * Z)
  : result tfm1_error (reader * list (list byte * entry) * Z) :=
  let '(r, entries, assigned_ordinals) := st in
  let? (pe, r) := decode_path_entry entries assigned_ordinals r in
  Ok (r, entries ++ [pe],
      if is_file pe.2 then wadd assigned_ordinals 1 else assigned_ordinals).

Definition decode_parent (r : reader) : result tfm1_error (option (list byte) * reader) :=
  let? (flag, r) := take_u8 Truncated r in
  if flag =? 0 then Ok (None, r)
  else if flag =? 1 then
    let? (id, r) := reader_take Truncated 32 r in Ok (Some id, r)
  else Err ParentFlag.

Definition decode (bytes : list byte) : result tfm1_error snapshot :=
  let? (magic, r) := reader_take Truncated 4 (Reader bytes 0) in
  if negb (bool_decide (magic = MAGIC)) then Err BadMagic
  else
    let? (parent, r) := decode_parent r in
    let? (entry_count, r) := take_u64 Truncated r in
    if remaining r / MIN_ENTRY_BYTES <? entry_count then Err CountExceedsInput
    else if negb (try_reserve entry_count) then Err ResourceExhausted
    else
      let? (r, entries, _) := for_count decode_step (r, [], 0) (Z.to_nat entry_count) in
      if negb (remaining r =? 0) then Err TrailingBytes
      else
        let? _ := validate_tree is_directory entries in
        Ok (Snapshot parent entries).

(** ** The pieces are codecs *)

#[local] Instance decode_stamp_codec : Codec decode_stamp emit_stamp wf_stamp.
Proof.
  split.
  - intros r a r' Hr H1. unfold decode_stamp in H1. dec_inv H1. dec_inv H1.
    { dec_inv H1. ztests. simplify_eq. split; [done|].
      cbn [emit_stamp]. unfold id in *. rewrite <-app_assoc. split; congruence. }
    dec_inv H1. dec_inv H1. dec_inv H1. dec_inv H1.
    dec_inv H1; dec_inv H1.
    + ztests. simplify_eq. split; [done|]. cbn [emit_stamp Stamp_name Stamp_version default].
      rewrite <-!app_assoc. split; [|done]. unfold id in *. congruence.
    + destruct (Stamp_named _ _) as [s|] eqn:Es; [|done].
      cbn [map_err] in H1. simplify_eq.
      apply Stamp_named_Ok in Es as (-> & Hn & Hv). split; [done|].
      cbn [emit_stamp Stamp_name Stamp_version default h_name h_version wf_stamp].
      unfold id, in_u32 in *. rewrite <-!app_assoc. split; [congruence|].
      split; [done|lia].
  - intros r a t Hr Hwf Hrest. unfold decode_stamp.
    destruct a as [|[name version]|digest]; cbn [emit_stamp Stamp_name Stamp_version
      default h_name h_version] in Hrest; rewrite <-?app_assoc in Hrest.
    + dec_run 0; [done|]. do 2 eval_if.
      dec_run ([] : list byte); [done|]. eval_if. dec_run 0; [done|]. do 2 eval_if. eauto.
    + destruct Hwf as [Hn Hv]. simpl in Hn, Hv.
      pose proof (contract_name_length _ Hn).
      dec_run (zlen name); [unfold U8; lia|]. unfold STAMP_DIGEST_MARKER.
      replace (zlen name =? 255) with false by lia.
      replace (MAX_CONTRACT_NAME_BYTES <? zlen name) with false
        by (unfold MAX_CONTRACT_NAME_BYTES; lia).
      dec_run name; [done|]. rewrite contract_name_utf8 by done. cbn [negb].
      dec_run version; [split; lia|].
      rewrite bool_decide_eq_false_2 by by intros ->.
      replace (version =? 0) with false by lia.
      rewrite Stamp_named_wf by (done || lia). simpl. eauto.
    + dec_run STAMP_DIGEST_MARKER; [done|]. rewrite Z.eqb_refl.
      dec_run digest; [done|]. eauto.
Qed.

#[local] Instance decode_record_codec : Codec decode_record emit_record wf_record.
Proof.
  split.
  - intros r a r' Hr H1. unfold decode_record in H1. dec_inv H1. dec_inv H1.
    { dec_inv H1. dec_inv H1. ztests. simplify_eq. split; [done|].
      unfold id in *. cbn [emit_record]. rewrite <-!app_assoc. split; [congruence|done]. }
    dec_inv H1. dec_inv H1. ztests. simplify_eq. split; [done|].
    cbn [emit_record]. rewrite <-!app_assoc. split; [congruence|done].
  - intros r a t Hr Hwf Hrest. unfold decode_record.
    destruct a as [digest n|n]; cbn [emit_record] in Hrest; rewrite <-?app_assoc in Hrest.
    + destruct Hwf as [Hd Hn]. dec_run RECORD_DATA; [done|]. rewrite Z.eqb_refl.
      dec_run digest; [done|]. dec_run n; [done|]. eauto.
    + dec_run RECORD_HOLE; [done|]. do 2 eval_if. dec_run n; [done|]. eauto.
Qed.

Lemma zlen_emit_record rec : wf_record rec -> MIN_RECORD_BYTES <= zlen (emit_record rec).
Proof.
  destruct rec; simpl; intros; destruct_and?; autorewrite with zlen;
    unfold MIN_RECORD_BYTES; lia.
Qed.

(** The memory a body's record list needs is there. *)
Definition body_allocated (b : file_body) : Prop :=
  match b with Tensor _ _ _ records => try_reserve (zlen records) = true | Blob _ _ => True end.

Definition body_format (b : file_body) : option tensor_format :=
  match b with Tensor format _ _ _ => Some format | Blob _ _ => None end.

#[local] Instance decode_tensor_body_codec format :
  Codec (decode_tensor_body format) emit_body_fields
    (fun b => wf_body b /\ body_allocated b /\ body_format b = Some format).
Proof.
  split.
  - intros r a r' Hr H1. unfold decode_tensor_body in H1.
    do 3 dec_inv H1. do 3 dec_inv H1.
    destruct (for_count _ _ _) as [[r4 records]|] eqn:El; [|done].
    change (for_count _ _ _) with
      (for_count (push_step (fun _ => decode_record)) (r2, []) (Z.to_nat x1)) in El.
    eapply (seq_sound (fun _ => decode_record) emit_record (fun _ => wf_record)) in El
      as (l & -> & Hlen & Hwf & ? & ?); [|done].
    apply wf_from_forall in Hwf.
    destruct (validate_records _ _) as [[]|] eqn:Ev; [|done]. simplify_eq.
    apply validate_records_iff in Ev as [? ?]; [|done]. split; [done|].
    unfold in_u64 in *. assert (x1 = zlen l) as -> by (unfold zlen; lia).
    cbn [emit_body_fields]. rewrite <-!app_assoc. split; [congruence|]. ztests. done.
  - intros r a t Hr (Hwf & Hm & Hf) Hrest. destruct a as [f contract n records|]; [|done].
    simpl in Hf. simplify_eq. destruct Hwf as (Hs & Hrun & Hrec & Hcap).
    unfold decode_tensor_body. cbn [emit_body_fields] in Hrest. rewrite <-!app_assoc in Hrest.
    pose proof (wrr_count _ _ Hrun). pose proof (sum_lengths_nonneg _ Hrec).
    pose proof (wrr_sum _ _ Hrun). pose proof (wrr_fits _ _ Hrun).
    pose proof (zlen_nonneg records).
    dec_run n; [unfold in_u64; lia|]. dec_run contract; [done|].
    dec_run (zlen records); [unfold in_u64, MAX_FILE_RECORDS, U64 in *; lia|].
    replace (MAX_FILE_RECORDS <? zlen records) with false by lia.
    rewrite MIN_count; [|done|done|].
    2: { match goal with Hx : rest _ = _ |- _ => rewrite Hx end. rewrite zlen_app.
         pose proof (zlen_nonneg t). eapply Z.le_trans; [apply (zlen_bind emit_record)|lia].
         intros x Hx. apply zlen_emit_record. by eapply Forall_forall in Hrec. }
    simpl in Hm. rewrite Hm. cbn [negb].
    match goal with Hx : rest ?r = _ ++ t, Hok : rd_ok ?r |- _ =>
      destruct (seq_complete (fun _ => decode_record) emit_record (fun _ => wf_record)
        records r [] t Hok) as (r' & Hrun' & ? & ?); [by apply wf_from_forall|done|] end.
    unfold zlen at 1. rewrite Nat2Z.id.
    change (for_count _ _ _) with
      (for_count (push_step (fun _ => decode_record)) (r2, []) (length records)).
    rewrite Hrun'. simpl. rewrite (proj2 (validate_records_iff _ _ Hrec)) by done. eauto.
Qed.

#[local] Instance decode_blob_body_codec :
  Codec decode_blob_body emit_body_fields (fun b => wf_body b /\ body_format b = None).
Proof.
  split.
  - intros r a r' Hr H1. unfold decode_blob_body in H1. do 3 dec_inv H1. simplify_eq.
    split; [done|]. unfold id in *. cbn [emit_body_fields wf_body]. rewrite <-app_assoc.
    split; [congruence|]. split; [|done]. split; [done|]. split; [done|]. intros ->.
    match goal with Hb : _ && _ = false |- _ => rename Hb into Hb0 end.
    simpl in Hb0. by ztests.
  - intros r a t Hr [Hwf Hf] Hrest. destruct a as [|n digest]; [done|].
    destruct Hwf as (Hn & Hd & Hz). unfold decode_blob_body.
    cbn [emit_body_fields] in Hrest. rewrite <-app_assoc in Hrest.
    dec_run n; [done|]. dec_run digest; [done|].
    destruct (Z.eqb_spec n 0) as [->|]; [|by eauto].
    rewrite bool_decide_eq_true_2 by auto. simpl. eauto.
Qed.

#[local] Instance decode_body_codec :
  Codec decode_body emit_body (fun b => wf_body b /\ body_allocated b).
Proof.
  split.
  - intros r a r' Hr H1. unfold decode_body in H1. dec_inv H1. unfold emit_body.
    dec_inv H1; [|dec_inv H1; [|dec_inv H1]]; ztests; subst;
      (apply dec_sound in H1 as (? & Hrest & Hwf); [|done]); (split; [done|]);
      rewrite <-app_assoc, <-Hrest; destruct a as [[]|]; naive_solver.
  - intros r a t Hr [Hwf Ha] Hrest. unfold decode_body, emit_body in *.
    rewrite <-app_assoc in Hrest.
    destruct a as [[] contract n records|n digest].
    + dec_run PLANNER_SAFETENSORS; [done|]. eval_if. by apply dec_complete.
    + dec_run PLANNER_GGUF; [done|]. do 2 eval_if. by apply dec_complete.
    + dec_run PLANNER_BLOB; [done|]. do 3 eval_if. by apply dec_complete.
Qed.

Definition entry_allocated (e : entry) : Prop :=
  match e with File _ body => body_allocated body | _ => True end.

(** What an entry must satisfy when [n] file entries precede it. *)
Definition entry_ok (n : Z) (e : entry) : Prop :=
  wf_entry e /\ entry_allocated e /\ (forall o, e = Hardlink o -> o < n).

Lemma symlink_target_length target :
  validate_symlink_target target = Ok tt -> zlen target <= MAX_SYMLINK_TARGET_BYTES.
Proof.
  unfold validate_symlink_target. intros Hv. case_match eqn:Hg; [done|].
  ztests. lia.
Qed.

#[local] Instance decode_entry_codec n : Codec (decode_entry n) emit_entry (entry_ok n).
Proof.
  split.
  - intros r a r' Hr H1. unfold decode_entry in H1. dec_inv H1.
    dec_inv H1; [ztests; simplify_eq; unfold entry_ok; naive_solver|].
    dec_inv H1; [|dec_inv H1; [|dec_inv H1]]; ztests; subst.
    + dec_inv H1.
      assert (exists b, x = (if b : bool then 1 else 0) /\
        (let? (body, r) := decode_body r1 in Ok (File b body, r)) = Ok (a, r'))
        as (b & -> & Hb); [|clear H1].
      { destruct (Z.eqb_spec x 0) as [->|]; [by exists false|].
        destruct (Z.eqb_spec x 1) as [->|]; [by exists true|done]. }
      dec_inv Hb. simplify_eq. split; [done|]. cbn [emit_entry]. rewrite <-!app_assoc.
      split; [congruence|]. unfold entry_ok. naive_solver.
    + dec_inv H1. dec_inv H1. dec_inv H1. dec_inv H1.
      destruct (validate_symlink_target _) as [[]|] eqn:Ev; [|done]. ztests. simplify_eq.
      split; [done|]. cbn [emit_entry]. unfold id in *. rewrite <-!app_assoc.
      split; [congruence|]. unfold entry_ok. naive_solver.
    + dec_inv H1. dec_inv H1. ztests. simplify_eq. split; [done|].
      cbn [emit_entry]. rewrite <-!app_assoc. split; [congruence|].
      split; [done|]. split; [done|]. by intros o [= <-].
  - intros r a t Hr (Hwf & Ha & Ho) Hrest. unfold decode_entry.
    destruct a as [|b body|target|o]; cbn [emit_entry] in Hrest;
      rewrite <-?app_assoc in Hrest.
    + dec_run KIND_DIRECTORY; [done|]. eval_if. eauto.
    + dec_run KIND_FILE; [done|]. do 2 eval_if.
      dec_run (if b : bool then 1 else 0); [by destruct b|].
      assert ((if (if b : bool then 1 else 0) =? 0 then Ok (E := tfm1_error) false
        else if (if b : bool then 1 else 0) =? 1 then Ok true else Err ExecutableFlag) = Ok b)
        as -> by by destruct b.
      dec_run body; [done|]. eauto.
    + destruct Hwf as [Hu Hv]. pose proof (symlink_target_length _ Hv).
      pose proof (zlen_nonneg target).
      dec_run KIND_SYMLINK; [done|]. do 3 eval_if.
      dec_run (zlen target); [unfold in_u32, U32, MAX_SYMLINK_TARGET_BYTES in *; lia|].
      replace (MAX_SYMLINK_TARGET_BYTES <? zlen target) with false by lia.
      dec_run target; [done|]. rewrite Hu, Hv. simpl. eauto.
    + dec_run KIND_HARDLINK; [done|]. do 4 eval_if. dec_run o; [done|].
      specialize (Ho o eq_refl). replace (n <=? o) with false by lia. eauto.
Qed.

(** What an entry must satisfy after the entries [acc]. *)
Definition path_entry_ok (acc : list (list byte * entry)) (pe : list byte * entry) : Prop :=
  is_utf8 pe.1 /\ validate_path pe.1 = Ok tt /\
  (forall previous, last acc = Some previous -> bytes_lt previous.1 pe.1) /\
  entry_ok (count_files is_file acc) pe.2.

Lemma check_order_iff acc path :
  check_order acc path = Ok tt <->
  forall previous, last acc = Some previous -> bytes_lt previous.1 path.
Proof.
  unfold check_order, bytes_lt. destruct (last acc) as [[p e]|]; [|naive_solver].
  split; [intros ? ? [= <-]; simpl; by case_match|].
  intros Hl. specialize (Hl _ eq_refl). simpl in Hl. by rewrite Hl.
Qed.

Lemma validate_path_length path :
  validate_path path = Ok tt -> 0 < zlen path <= MAX_PATH_BYTES.
Proof.
  unfold validate_path. intros Hv. case_match eqn:Hg; [done|]. ztests.
  destruct path; [done|]. rewrite zlen_cons in *. pose proof (zlen_nonneg path). lia.
Qed.

#[local] Instance decode_path_entry_codec acc :
  Codec (decode_path_entry acc (count_files is_file acc)) emit_path_entry (path_entry_ok acc).
Proof.
  split.
  - intros r a r' Hr H1. unfold decode_path_entry in H1. do 4 dec_inv H1.
    destruct (validate_path _) as [[]|] eqn:Ev; [|done].
    destruct (check_order _ _) as [[]|] eqn:Eo; [|done].
    dec_inv H1. ztests. simplify_eq. split; [done|]. unfold emit_path_entry, id in *.
    cbn [fst snd]. rewrite <-!app_assoc. split; [congruence|].
    split; [done|]. split; [done|]. split; [by apply check_order_iff|done].
  - intros r [path e] t Hr (Hu & Hv & Ho & He) Hrest. simpl in *.
    unfold decode_path_entry, emit_path_entry in *. cbn [fst snd] in *.
    rewrite <-!app_assoc in Hrest. pose proof (validate_path_length _ Hv).
    dec_run (zlen path); [unfold in_u32, U32, MAX_PATH_BYTES in *; lia|].
    replace ((zlen path =? 0) || (MAX_PATH_BYTES <? zlen path)) with false by lia.
    dec_run path; [done|]. rewrite Hu, Hv. simpl negb. cbv iota.
    rewrite (proj2 (check_order_iff _ _) Ho). dec_run e; [done|]. eauto.
Qed.

(** ** The entry loop *)

Lemma count_files_snoc {E} (f : E -> bool) acc pe :
  count_files f (acc ++ [pe]) = count_files f acc + (if f pe.2 then 1 else 0).
Proof.
  unfold count_files. rewrite filter_app, zlen_app. f_equal. destruct pe as [p e].
  rewrite filter_cons, filter_nil. case_decide as Hd; cbn in *; [by rewrite Hd|].
  by apply not_true_is_false in Hd as ->.
Qed.

Lemma count_files_le {E} (f : E -> bool) acc : 0 <= count_files f acc <= zlen acc.
Proof.
  unfold count_files, zlen.
  pose proof (length_filter (fun '(_, e) => f e = true) acc). lia.
Qed.

(** The ordinal counter is the number of file entries pushed so far, so the
    loop is the sequence of [decode_path_entry] steps. *)
Lemma decode_loop_sim n r acc :
  zlen acc + Z.of_nat n < U64 ->
  for_count decode_step (r, acc, count_files is_file acc) n =
  match for_count (push_step (fun acc => decode_path_entry acc (count_files is_file acc)))
          (r, acc) n with
  | Ok (r', acc') => Ok (r', acc', count_files is_file acc')
  | Err e => Err e
  end.
Proof.
  revert r acc. induction n as [|n IH]; intros r acc Hn; [done|].
  cbn [for_count decode_step push_step].
  destruct (decode_path_entry _ _ r) as [[pe r']|]; [|done].
  rewrite <-IH by (rewrite zlen_app, zlen_cons, zlen_nil; lia). do 2 f_equal.
  rewrite count_files_snoc. pose proof (count_files_le is_file acc).
  destruct (is_file pe.2); [|by rewrite Z.add_0_r]. apply wadd_small. lia.
Qed.

(** ** The decoder and the writer are inverse *)

Definition snapshot_allocated (s : snapshot) : Prop :=
  try_reserve (zlen (s_entries s)) = true /\
  Forall (fun pe => entry_allocated pe.2) (s_entries s).

Lemma entries_ok_iff l :
  wf_from path_entry_ok [] l <->
  StronglySorted bytes_lt l.*1
  /\ Forall (fun pe => is_utf8 pe.1 /\ validate_path pe.1 = Ok tt) l
  /\ Forall (fun pe => wf_entry pe.2) l /\ hardlinks_resolve l
  /\ Forall (fun pe => entry_allocated pe.2) l.
Proof.
  rewrite wf_from_split, sorted_adjacent, !Forall_forall. unfold path_entry_ok, entry_ok.
  assert (forall x, x ∈ l -> exists pre post, l = pre ++ x :: post) as Hsplit
    by (intros x; apply list_elem_of_split).
  split.
  - intros Hall. split_and!.
    1: naive_solver.
    1, 2, 4: intros x (pre & post & ->)%Hsplit; specialize (Hall pre x post eq_refl); tauto.
    intros pre path o post ->. specialize (Hall pre _ post eq_refl) as (_ & _ & _ & Hw & _ & Ho).
    simpl in *. unfold in_u64 in *. specialize (Ho o eq_refl). lia.
  - intros (Hs & Hp & He & Hh & Ha) pre a post ->.
    assert (a ∈ pre ++ a :: post) as Hin by set_solver.
    split_and!; [naive_solver..|]. intros o Ho. destruct a as [path e]. simpl in *. subst e.
    by eapply Hh.
Qed.

Lemma zlen_emit_path_entry pe : pe.1 <> [] -> MIN_ENTRY_BYTES <= zlen (emit_path_entry pe).
Proof.
  destruct pe as [path e]. unfold emit_path_entry. simpl. intros Hp. autorewrite with zlen.
  destruct path; [done|]. rewrite zlen_cons. pose proof (zlen_nonneg path).
  assert (1 <= zlen (emit_entry e)); [|unfold MIN_ENTRY_BYTES; lia].
  destruct e; simpl; autorewrite with zlen; auto with rust; try lia.
  all: match goal with |- context [zlen ?l] => pose proof (zlen_nonneg l) end; lia.
Qed.

#[local] Instance decode_parent_codec :
  Codec decode_parent emit_parent (fun p => forall id, p = Some id -> zlen id = 32).
Proof.
  split.
  - intros r a r' Hr H1. unfold decode_parent in H1. dec_inv H1.
    dec_inv H1; [|dec_inv H1; dec_inv H1]; ztests; simplify_eq; (split; [done|]);
      cbn [emit_parent]; unfold id in *; rewrite <-?app_assoc; split; try congruence.
  - intros r a t Hr Hwf Hrest. unfold decode_parent. destruct a as [id|];
      cbn [emit_parent] in Hrest; rewrite <-?app_assoc in Hrest.
    + dec_run 1; [done|]. do 2 eval_if. dec_run id; [by apply Hwf|]. eauto.
    + dec_run 0; [done|]. eval_if. eauto.
Qed.

Lemma decode_sound bytes s :
  zlen bytes < U64 -> decode bytes = Ok s ->
  bytes = to_bytes s /\ wf_snapshot s /\ snapshot_allocated s.
Proof.
  intros Hb H1. unfold decode in H1. pose proof (rd_ok_start bytes Hb).
  dec_inv H1. dec_inv H1. dec_inv H1. dec_inv H1. dec_inv H1. dec_inv H1.
  ztests. change (for_count decode_step _ _) with
    (for_count decode_step (r1, [], count_files is_file []) (Z.to_nat x1)) in H1.
  assert (x1 < U64) by (unfold in_u64 in *; lia).
  rewrite decode_loop_sim in H1 by (rewrite zlen_nil; unfold in_u64 in *; lia).
  destruct (for_count _ _ _) as [[r2 l]|] eqn:El; [|done].
  eapply (seq_sound _ emit_path_entry path_entry_ok) in El
    as (l' & -> & Hlen & Hwf & ? & Hok2); [|done]. rewrite app_nil_l in *.
  apply entries_ok_iff in Hwf as (? & ? & ? & ? & ?).
  dec_inv H1. destruct (validate_tree _ _) as [[]|] eqn:Et; [|done]. simplify_eq.
  apply validate_tree_iff in Et. ztests.
  assert (x1 = zlen l') as -> by (unfold zlen, in_u64 in *; lia).
  split; [|by split].
  rewrite remaining_rest in * by done.
  assert (rest r2 = []) as Hnil.
  { match goal with Hz : zlen (rest r2) = 0 |- _ => revert Hz end.
    destruct (rest r2); [done|]. rewrite zlen_cons. pose proof (zlen_nonneg l). lia. }
  unfold to_bytes, emit. cbn [s_parent s_entries]. unfold id in *.
  rewrite rest_start, Hnil, app_nil_r in *. congruence.
Qed.

Lemma decode_complete s :
  zlen (to_bytes s) < U64 -> wf_snapshot s -> snapshot_allocated s ->
  decode (to_bytes s) = Ok s.
Proof.
  intros Hb Hwf [Ha1 Ha2]. pose proof (rd_ok_start _ Hb).
  assert (rest (Reader (to_bytes s) 0) = MAGIC ++ emit_parent (s_parent s)
    ++ u64_bytes (zlen (s_entries s)) ++ (s_entries s ≫= emit_path_entry)) as Hrest by done.
  unfold decode.
  destruct s as [parent entries]. cbn [s_parent s_entries] in *.
  assert (MIN_ENTRY_BYTES * zlen entries <= zlen (entries ≫= emit_path_entry)) as Hmin.
  { apply (zlen_bind emit_path_entry). intros pe Hpe. apply zlen_emit_path_entry.
    pose proof (wf_paths _ Hwf) as Hp. rewrite Forall_forall in Hp.
    destruct (Hp _ Hpe) as [_ Hv]. apply validate_path_length in Hv.
    intros Hn. change (zlen pe.1) with (zlen (fst pe)) in Hv. rewrite Hn in Hv.
    change (zlen []) with 0 in Hv. lia. }
  assert (zlen entries < U64) as Hn.
  { unfold to_bytes, emit in Hb. autorewrite with zlen in Hb. cbn [s_entries s_parent] in Hb.
    unfold MIN_ENTRY_BYTES in *. pose proof (zlen_nonneg MAGIC).
    pose proof (zlen_nonneg (emit_parent parent)). pose proof (zlen_nonneg entries). lia. }
  pose proof (zlen_nonneg entries).
  dec_run MAGIC; [done|]. eval_if. dec_run parent; [by apply (wf_parent _ Hwf)|].
  dec_run (zlen entries); [by unfold in_u64|].
  match goal with Hx : rest _ = entries ≫= _ |- _ =>
    rewrite <-(app_nil_r (entries ≫= _)) in Hx end.
  rewrite MIN_count; [|done|done|].
  2: { match goal with Hx : rest _ = _ |- _ => rewrite Hx end. rewrite app_nil_r. lia. }
  rewrite Ha1. simpl negb. cbv iota.
  match goal with Hx : rest ?r = _ ++ [], Hok : rd_ok ?r |- _ =>
    destruct (seq_complete (fun acc => decode_path_entry acc (count_files is_file acc))
      emit_path_entry path_entry_ok entries r [] [] Hok) as (r' & Hloop & Hok' & Hend);
      [|exact Hx|] end.
  { apply entries_ok_iff. destruct Hwf; cbn [s_entries] in *. done. }
  change (for_count decode_step _ _) with
    (for_count decode_step (r1, [], count_files is_file []) (Z.to_nat (zlen entries))).
  rewrite decode_loop_sim by (rewrite zlen_nil; lia).
  unfold zlen at 1. rewrite Nat2Z.id, Hloop, app_nil_l, remaining_rest, Hend by done.
  simpl negb. cbv iota. by rewrite (proj2 (validate_tree_iff _ entries) (wf_tree _ Hwf)).
Qed.

(** Enough memory for the encoding is enough for everything the decoder
    reserves. *)
Lemma memory_allocated s :
  wf_snapshot s -> memory_for (zlen (to_bytes s)) -> snapshot_allocated s.
Proof.
  intros Hwf Hm.
  assert (forall A (f : A -> list byte) l k, 1 <= k -> (forall x, x ∈ l -> k <= zlen (f x)) ->
            zlen l <= zlen (l ≫= f)) as Hlen.
  { intros A f l k Hk Hf. pose proof (zlen_bind f k l Hf). pose proof (zlen_nonneg l). nia. }
  assert (zlen (s_entries s ≫= emit_path_entry) <= zlen (to_bytes s)) as Htot.
  { unfold to_bytes, emit. autorewrite with zlen.
    pose proof (zlen_nonneg MAGIC). pose proof (zlen_nonneg (emit_parent (s_parent s))). lia. }
  split.
  - apply Hm. split; [apply zlen_nonneg|].
    etrans; [|exact Htot]. apply (Hlen _ _ _ 4); [lia|]. intros pe _.
    unfold emit_path_entry. autorewrite with zlen.
    pose proof (zlen_nonneg pe.1). pose proof (zlen_nonneg (emit_entry pe.2)). lia.
  - pose proof (wf_entries _ Hwf) as He. rewrite Forall_forall in *. intros pe Hin.
    specialize (He pe Hin). destruct pe as [path [|x [f c n records|]| |]]; try done.
    destruct He as (_ & _ & Hrec & _). rewrite Forall_forall in Hrec.
    cbn [snd entry_allocated body_allocated]. apply Hm. split; [apply zlen_nonneg|].
    etrans; [apply (Hlen _ emit_record _ MIN_RECORD_BYTES); [done|]; intros;
      by apply zlen_emit_record, Hrec|].
    etrans; [|exact Htot]. apply list_elem_of_split in Hin as (pre & post & ->).
    rewrite bind_app, bind_cons. unfold emit_path_entry at 2. cbn [fst snd emit_entry].
    unfold emit_body. cbn [emit_body_fields]. autorewrite with zlen.
    repeat match goal with |- context [zlen ?l] =>
      lazymatch goal with H : 0 <= zlen l |- _ => fail | _ => pose proof (zlen_nonneg l) end
    end. lia.
Qed.
End decode.

(** ** The properties *)

(** C2: Canonicity.  Whatever the decoder accepts is exactly the encoding of
    the snapshot it returns, so no snapshot has two byte forms and re-encoding
    a decoded manifest reproduces its bytes (and with them its identity). *)
Theorem decode_canonical `{Unicode, Allocator, Sha256} bytes s :
  zlen bytes < U64 -> decode bytes = Ok s ->
  to_bytes s = bytes /\ snapshot_id s = sha256 bytes.
Proof.
  intros Hb Hd. apply decode_sound in Hd as [-> _]; [|done]. done.
Qed.

(** C16: Round trip.  Every well-formed snapshot's encoding is accepted and
    decodes back to the snapshot, given the memory for it. *)
Theorem decode_to_bytes `{Unicode, Allocator} s :
  wf_snapshot s -> zlen (to_bytes s) < U64 -> memory_for (zlen (to_bytes s)) ->
  decode (to_bytes s) = Ok s.
Proof. intros Hwf Hb Hm. apply decode_complete; [done..|]. by apply memory_allocated. Qed.

(** A decoded snapshot is canonical: paths strictly ascending, every path
    valid, every body within the record rules, every hardlink naming an earlier
    file, no case-fold collision and every parent a directory. *)
Theorem decode_wf `{Unicode, Allocator} bytes s :
  zlen bytes < U64 -> decode bytes = Ok s -> wf_snapshot s.
Proof. intros Hb Hd. by apply decode_sound in Hd as (_ & ? & _). Qed.

(** Nothing a manifest names can escape its root or collide on another
    host: in a decoded snapshot every path is a join of safe segments (never
    empty, dot, dot-dot, a device name, or with a reserved character), and its
    parent path is itself a directory of the snapshot. *)
Theorem decode_paths_safe `{Unicode, Allocator} bytes s path e :
  zlen bytes < U64 -> decode bytes = Ok s -> (path, e) ∈ s_entries s ->
  (exists segments, segments <> [] /\ path = join slash segments /\
     Forall (fun segment => (slash ∉ segment) /\ safe_segment segment) segments) /\
  (forall parent name, rsplit_once slash path = Some (parent, name) ->
     (parent, Directory) ∈ s_entries s).
Proof.
  intros Hb Hd Hin. apply decode_sound in Hd as (_ & Hwf & _); [|done]. split.
  - pose proof (wf_paths _ Hwf) as Hp. rewrite Forall_forall in Hp.
    destruct (Hp _ Hin) as [_ Hv]. apply validate_path_iff in Hv as (_ & _ & Hs). exact Hs.
  - intros parent name Hr. destruct (wf_tree _ Hwf) as [_ Ht].
    destruct (Ht _ _ _ _ Hin Hr) as (d & Hd' & Hdir). by destruct d.
Qed.

(** A small manifest: a directory, an empty executable, a tensor file with a
    hole, a symlink, and a hardlink to the executable. *)
Definition demo_snapshot : snapshot := Snapshot None
  [(bstr "a", Directory);
   (bstr "a/b", File true (Blob 0 EMPTY_BLOB_DIGEST));
   (bstr "a/t", File false (Tensor TF_GgufV1 (StampNamed (Handle (bstr "acme.x-1") 3)) 12
      [Data EMPTY_BLOB_DIGEST 4; Hole 8]));
   (bstr "l", Symlink (bstr "a/b"));
   (bstr "z", Hardlink 0)].

Lemma demo_decodes :
  decode (H := ascii_unicode) (H0 := ample_memory) (to_bytes demo_snapshot) = Ok demo_snapshot.
Proof. vm_compute. reflexivity. Qed.

Lemma decode_canonical_witness :
  to_bytes demo_snapshot = to_bytes demo_snapshot /\
  snapshot_id (H := toy_sha) demo_snapshot = sha256 (Sha256 := toy_sha) (to_bytes demo_snapshot).
Proof.
  apply (decode_canonical (H := ascii_unicode) (H0 := ample_memory) (H1 := toy_sha)
    (to_bytes demo_snapshot) demo_snapshot); [vm_compute; reflexivity | exact demo_decodes].
Defined.

Lemma decode_to_bytes_witness :
  decode (H := ascii_unicode) (H0 := ample_memory) (to_bytes demo_snapshot) = Ok demo_snapshot.
Proof.
  apply (decode_to_bytes (H := ascii_unicode) (H0 := ample_memory) demo_snapshot).
  - apply (decode_sound (H := ascii_unicode) (H0 := ample_memory) (to_bytes demo_snapshot));
      [vm_compute; reflexivity | exact demo_decodes].
  - vm_compute. reflexivity.
  - intros k _. reflexivity.
Defined.

Lemma decode_wf_witness : wf_snapshot (H := ascii_unicode) demo_snapshot.
Proof.
  apply (decode_wf (H := ascii_unicode) (H0 := ample_memory) (to_bytes demo_snapshot));
    [vm_compute; reflexivity | exact demo_decodes].
Defined.

Lemma decode_paths_safe_witness :
  exists segments, segments <> [] /\ bstr "a/b" = join slash segments /\
    Forall (fun segment => (slash ∉ segment) /\ safe_segment segment) segments.
Proof.
  apply (decode_paths_safe (H := ascii_unicode) (H0 := ample_memory)
    (to_bytes demo_snapshot) demo_snapshot (bstr "a/b") (File true (Blob 0 EMPTY_BLOB_DIGEST))).
  - vm_compute. reflexivity.
  - exact demo_decodes.
  - apply list_elem_of_lookup_2 with 1%nat. reflexivity.
Defined.
