(* ===== verification/Tfm1Builder.v ===== *)
(** [SnapshotBuilder] ([src/crates/tensorfs-core/src/tfm1.rs]): the sole TFM1
    writer.  Declarations arrive in any order; [resolve] sorts them, re-roots
    every hardlink group onto its first path, numbers the files and checks the
    whole tree; [finish] canonicalises the bodies.

    [Option::expect] panics are modelled: [resolve], [finish_tree] and [finish]
    return [None] where the source would panic. *)

From S2P Require Export Tfm1Decode.

(** [enum Pending]. *)
Inductive pending : Type :=
| PDirectory
| PFile (executable : bool) (planner : planner_id) (contract : stamp)
    (records : list file_record)
| PSymlink (target : list byte)
| PHardlinkTo (target_path : list byte).

#[export] Instance pending_eq_dec : EqDecision pending.
Proof. solve_decision. Defined.

(** [struct SnapshotBuilder]. *)
Record builder : Type := SnapshotBuilder {
  b_parent : option (list byte);
  b_pending : list (list byte * pending)
}.

(** [new], [directory], [file], [file_under], [symlink], [hardlink]. *)
Definition builder_new (parent : option (list byte)) : builder := SnapshotBuilder parent [].
Definition builder_push (b : builder) (path : list byte) (p : pending) : builder :=
  SnapshotBuilder (b_parent b) (b_pending b ++ [(path, p)]).
Definition builder_directory (b : builder) (path : list byte) : builder :=
  builder_push b path PDirectory.
Definition builder_file_under (b : builder) (path : list byte) (executable : bool)
    (planner : planner_id) (contract : stamp) (records : list file_record) : builder :=
  builder_push b path (PFile executable planner contract records).
Definition builder_file (b : builder) (path : list byte) (executable : bool)
    (planner : planner_id) (records : list file_record) : builder :=
  builder_file_under b path executable planner StampNone records.
Definition builder_symlink (b : builder) (path target : list byte) : builder :=
  builder_push b path (PSymlink target).
Definition builder_hardlink (b : builder) (path target_path : list byte) : builder :=
  builder_push b path (PHardlinkTo target_path).

Section builder.
Context `{Unicode}.

(** The first loop of [resolve]: validation and duplicate refusal. *)
Definition collect_step (entries : btree pending) (pp : list byte * pending)
  : result tfm1_error (btree pending) :=
  let '(path, p) := pp in
  let? _ := validate_path path in
  let? _ := match p with PSymlink target => validate_symlink_target target | _ => Ok tt end in
  match bt_get path entries with
  | Some _ => Err DuplicatePath
  | None => Ok (bt_insert path p entries)
  end.

Definition collect (declared : list (list byte * pending)) : result tfm1_error (btree pending) :=
  for_each collect_step [] declared.

(** The second loop: link paths grouped under the file they name, each group
    in path order. *)
Definition group_step (entries : btree pending) (groups : btree (list (list byte)))
    (pp : list byte * pending) : result tfm1_error (btree (list (list byte))) :=
  let '(path, p) := pp in
  match p with
  | PHardlinkTo target_path =>
      match bt_get target_path entries with
      | Some (PFile _ _ _ _) =>
          Ok (bt_insert target_path
                (default [] (bt_get target_path groups) ++ [path]) groups)
      | _ => Err HardlinkTarget
      end
  | _ => Ok groups
  end.

Definition group_links (entries : btree pending)
  : result tfm1_error (btree (list (list byte))) :=
  for_each (group_step entries) [] entries.

(** [iter().min()] of the link paths and the file path. *)
Definition min_path (a b : list byte) : list byte := if bytes_ltb b a then b else a.
Definition carrier_of (file_path : list byte) (link_paths : list (list byte)) : list byte :=
  foldl min_path file_path link_paths.

(** The third loop; [None] is the panic of [remove(..).expect(..)]. *)
Definition reroot_step (entries : btree pending) (group : list byte * list (list byte))
  : option (btree pending) :=
  let '(file_path, link_paths) := group in
  let carrier := carrier_of file_path link_paths in
  if decide (carrier <> file_path) then
    let* body := bt_get file_path entries in
    let entries := bt_remove file_path entries in
    let entries := bt_insert file_path (PHardlinkTo carrier) entries in
    let entries := foldl (fun m link => bt_insert link (PHardlinkTo carrier) m)
                     entries link_paths in
    Some (bt_insert carrier body entries)
  else Some entries.

Fixpoint reroot (entries : btree pending) (groups : btree (list (list byte)))
  : option (btree pending) :=
  match groups with
  | [] => Some entries
  | group :: groups => let* entries := reroot_step entries group in reroot entries groups
  end.

(** The size loop of the file arm. *)
Definition derive_size (records : list file_record) : result tfm1_error Z :=
  for_each (fun logical_size record =>
    if record_length record =? 0 then Err ZeroLengthRecord
    else let! n := checked_add logical_size (record_length record) ?: LengthSumMismatch in Ok n)
  0 records.

(** The last loop: the tree entries and the ordinal of every file. *)
Definition number_step (st : list (list byte * tree_entry) * btree Z)
    (pp : list byte * pending) : result tfm1_error (list (list byte * tree_entry) * btree Z) :=
  let '(resolved, ordinals) := st in
  let '(path, p) := pp in
  match p with
  | PDirectory => Ok (resolved ++ [(path, TDirectory)], ordinals)
  | PFile executable planner contract records =>
      let? logical_size := derive_size records in
      let? _ := validate_record_run records logical_size in
      Ok (resolved ++ [(path, TFile executable planner contract records)],
          bt_insert path (zlen ordinals) ordinals)
  | PSymlink target => Ok (resolved ++ [(path, TSymlink target)], ordinals)
  | PHardlinkTo target_path =>
      let! ordinal := bt_get target_path ordinals ?: HardlinkOrdinal in
      Ok (resolved ++ [(path, THardlink ordinal)], ordinals)
  end.

Definition number (entries : btree pending)
  : result tfm1_error (list (list byte * tree_entry)) :=
  let? (resolved, _) := for_each number_step ([], []) entries in Ok resolved.

(** [SnapshotBuilder::resolve]. *)
Definition resolve (declared : list (list byte * pending))
  : option (result tfm1_error (list (list byte * tree_entry))) :=
  match collect declared with
  | Err e => Some (Err e)
  | Ok entries =>
      match group_links entries with
      | Err e => Some (Err e)
      | Ok groups =>
          let* entries := reroot entries groups in
          Some (let? resolved := number entries in
                let? _ := validate_tree is_tree_directory resolved in
                Ok resolved)
      end
  end.

(** [finish_tree]: the head tree, bodies still in record form. *)
Definition finish_tree (b : builder)
  : option (result tfm1_error (list (list byte * tree_entry))) :=
  resolve (b_pending b).

(** [canonical_body]; the unchecked [sum] of the lengths wraps. *)
Definition canonical_body (planner : planner_id) (contract : stamp)
    (records : list file_record) : result tfm1_error file_body :=
  match planner_tensor_format planner with
  | Some format =>
      let logical_size := foldl (fun acc r => wadd acc (record_length r)) 0 records in
      let? _ := validate_records records logical_size in
      Ok (Tensor format contract logical_size records)
  | None =>
      match records with
      | [] => Ok (Blob 0 EMPTY_BLOB_DIGEST)
      | [Data digest length] => Ok (Blob length digest)
      | _ => Err BlobRecords
      end
  end.

Definition canonical_entry (e : tree_entry) : result tfm1_error entry :=
  match e with
  | TDirectory => Ok Directory
  | TFile executable planner contract records =>
      let? body := canonical_body planner contract records in Ok (File executable body)
  | TSymlink target => Ok (Symlink target)
  | THardlink ordinal => Ok (Hardlink ordinal)
  end.

(** The body of [finish]'s loop. *)
Definition canonical_step (entries : list (list byte * entry)) (pe : list byte * tree_entry)
  : result tfm1_error (list (list byte * entry)) :=
  let '(path, e) := pe in
  let? e := canonical_entry e in Ok (entries ++ [(path, e)]).

(** [SnapshotBuilder::finish]. *)
Definition finish (b : builder) : option (result tfm1_error snapshot) :=
  let* r := resolve (b_pending b) in
  Some (
    let? resolved := r in
    let? entries := for_each canonical_step [] resolved in
    Ok (Snapshot (b_parent b) entries)).

(** ** Collecting *)

Definition declared_ok (pp : list byte * pending) : Prop :=
  validate_path pp.1 = Ok tt /\
  match pp.2 with PSymlink target => validate_symlink_target target = Ok tt | _ => True end.

Definition collected (declared : list (list byte * pending)) (m : btree pending) : Prop :=
  Forall declared_ok declared /\ NoDup declared.*1 /\ bt_sorted m /\ m ≡ₚ declared.

Lemma collect_step_iff pre pp m :
  collected pre m ->
  (exists m', collect_step m pp = Ok m') <-> declared_ok pp /\ (pp.1 ∉ pre.*1).
Proof.
  intros (Hok & Hnd & Hs & Hp). destruct pp as [path p]. unfold collect_step, declared_ok. simpl.
  rewrite <-Hp, <-bt_get_None.
  destruct (validate_path path) as [[]|]; [|naive_solver].
  destruct p as [| |target|]; try destruct (validate_symlink_target target) as [[]|];
    destruct (bt_get path m); naive_solver.
Qed.

Lemma collect_step_collected pre pp m m' :
  collected pre m -> collect_step m pp = Ok m' -> collected (pre ++ [pp]) m'.
Proof.
  intros Hc Hstep. destruct (proj1 (collect_step_iff pre pp m Hc)) as [Hok Hn]; [eauto|].
  destruct Hc as (Hoks & Hnd & Hs & Hp).
  assert (pp.1 ∉ m.*1) as Hm by by rewrite Hp.
  assert (m' = bt_insert pp.1 pp.2 m) as ->.
  { destruct pp as [path p]. simpl in *. apply bt_get_None in Hm. unfold collect_step in Hstep.
    rewrite Hm in Hstep. by repeat case_match; simplify_eq. }
  split_and!.
  - rewrite Forall_app, Forall_singleton. done.
  - rewrite fmap_app. apply NoDup_app. split; [done|]. split; [|apply NoDup_singleton].
    intros x Hx ->%list_elem_of_singleton. done.
  - by apply bt_insert_sorted.
  - rewrite bt_insert_fresh by done. rewrite Hp, Permutation_app_comm. by destruct pp.
Qed.

Lemma collected_nil : collected [] [].
Proof. unfold collected, bt_sorted. split_and!; [constructor..|done]. Qed.

(** [collect] succeeds exactly on valid declarations without duplicates, and
    its map is the declarations in path order. *)
Lemma collect_iff declared m : collect declared = Ok m <-> collected declared m.
Proof.
  unfold collect. split.
  - apply (for_each_inv _ collected); [apply collected_nil|].
    intros pre x post t t' _. by apply collect_step_collected.
  - intros Hc.
    destruct (for_each_total collect_step collected declared []) as (m' & -> & Hc').
    + apply collected_nil.
    + intros pre x post t -> Ht.
      destruct (proj2 (collect_step_iff pre x t Ht)) as [t' Ht'].
      * destruct Hc as (Hok & Hnd & _). rewrite Forall_forall in Hok.
        split; [apply Hok; set_solver|]. rewrite fmap_app, fmap_cons in Hnd.
        apply NoDup_app in Hnd as (_ & Hnd & _). intros Hin. by apply (Hnd x.1) in Hin; set_solver.
      * exists t'. split; [done|]. by eapply collect_step_collected.
    + f_equal. destruct Hc as (_ & _ & ? & Hp), Hc' as (_ & _ & ? & Hp').
      apply bt_sorted_perm; [done..|]. by rewrite Hp.
Qed.

(** ** Grouping *)

(** The paths declared as links to [f], in path order. *)
Definition links (entries : list (list byte * pending)) (f : list byte) : list (list byte) :=
  (filter (fun pp => pp.2 = PHardlinkTo f) entries).*1.

Definition is_pending_file (p : pending) : bool :=
  match p with PFile _ _ _ _ => true | _ => false end.

Definition grouped (entries : btree pending) (pre : list (list byte * pending))
    (groups : btree (list (list byte))) : Prop :=
  bt_sorted groups /\
  (forall f, bt_get f groups =
    if decide (links pre f = []) then None else Some (links pre f)) /\
  (forall path f, (path, PHardlinkTo f) ∈ pre ->
    exists body, bt_get f entries = Some body /\ is_pending_file body = true).

Lemma links_snoc pre path p f :
  links (pre ++ [(path, p)]) f =
  links pre f ++ (if decide (p = PHardlinkTo f) then [path] else []).
Proof.
  unfold links. rewrite filter_app, fmap_app. f_equal. rewrite filter_cons, filter_nil. simpl.
  by case_decide.
Qed.

Lemma elem_of_links entries f path :
  path ∈ links entries f <-> (path, PHardlinkTo f) ∈ entries.
Proof.
  unfold links. rewrite list_elem_of_fmap. split.
  - intros ([q p] & -> & [Hp Hin]%list_elem_of_filter). simpl in *. by subst.
  - intros Hin. exists (path, PHardlinkTo f). by rewrite list_elem_of_filter.
Qed.

Lemma group_step_grouped entries pre x groups groups' :
  grouped entries pre groups -> group_step entries groups x = Ok groups' ->
  grouped entries (pre ++ [x]) groups'.
Proof.
  intros (Hs & Hg & Ht) Hstep. destruct x as [path p]. unfold group_step in Hstep.
  assert ((exists f, p = PHardlinkTo f) \/ (forall f, p <> PHardlinkTo f) /\ groups' = groups)
    as [[f ->]|[Hn ->]] by (destruct p; simplify_eq; naive_solver).
  2: { split; [done|]. split.
       - intros f. by rewrite links_snoc, (decide_False (P := p = PHardlinkTo f)), app_nil_r.
       - intros q f [?|Hin%list_elem_of_singleton]%elem_of_app; [by eapply Ht|].
         simplify_eq. by destruct (Hn f). }
  destruct (bt_get f entries) as [[]|] eqn:Ef; simplify_eq.
  split; [by apply bt_insert_sorted|]. split.
  - intros g. rewrite bt_get_insert, links_snoc by done.
    destruct (decide (g = f)) as [->|Hne].
    + rewrite (decide_True (P := PHardlinkTo f = PHardlinkTo f)) by done.
      rewrite Hg. rewrite (decide_False (P := links pre f ++ [path] = []))
        by by destruct (links pre f).
      f_equal. f_equal. by case_decide.
    + rewrite (decide_False (P := PHardlinkTo f = PHardlinkTo g)) by congruence.
      rewrite app_nil_r. apply Hg.
  - intros q g [Hin|Hin]%elem_of_app; [by eapply Ht|].
    apply list_elem_of_singleton in Hin. simplify_eq. eauto.
Qed.

Lemma group_links_grouped entries groups :
  group_links entries = Ok groups -> grouped entries entries groups.
Proof.
  unfold group_links. apply (for_each_inv _ (grouped entries)).
  - split; [constructor|]. split; [by intros f; rewrite decide_True|set_solver].
  - intros pre x post t t' _. apply group_step_grouped.
Qed.

(** ** Re-rooting *)

Lemma carrier_of_spec f ls :
  carrier_of f ls ∈ f :: ls /\ forall x, x ∈ f :: ls -> ~ bytes_lt x (carrier_of f ls).
Proof.
  unfold carrier_of. revert f. induction ls as [|l ls IH]; intros f; simpl.
  - split; [set_solver|]. intros x ->%list_elem_of_singleton. apply bytes_lt_irrefl.
  - destruct (IH (min_path f l)) as [Hin Hmin].
    assert (~ bytes_lt f (min_path f l) /\ ~ bytes_lt l (min_path f l)
      /\ (min_path f l = f \/ min_path f l = l)) as (Hf & Hl & Hc).
    { unfold min_path. destruct (bytes_ltb l f) eqn:E.
      - apply bytes_ltb_lt in E. split_and!; [|apply bytes_lt_irrefl|by right].
        intros Hlt. by apply (bytes_lt_irrefl f), (bytes_lt_trans f l f).
      - split_and!; [apply bytes_lt_irrefl| |by left]. rewrite <-bytes_ltb_lt. congruence. }
    split.
    { rewrite elem_of_cons in Hin. rewrite !elem_of_cons.
      destruct Hin as [->|?]; [destruct Hc as [->| ->]|]; auto. }
    assert (forall x, ~ bytes_lt x (min_path f l) ->
      ~ bytes_lt x (foldl min_path (min_path f l) ls)) as Hle.
    { intros x Hx Hlt. destruct (bytes_lt_total x (min_path f l)) as [?|[->|Hgt]]; [done| |].
      - by apply (Hmin (min_path f l)); [left|].
      - apply (Hmin (min_path f l)); [left|]. by apply (bytes_lt_trans _ x). }
    intros x Hx. rewrite !elem_of_cons in Hx. destruct Hx as [->|[->|Hx]]; [by apply Hle..|].
    apply Hmin. by right.
Qed.

Definition carrier (entries : btree pending) (f : list byte) : list byte :=
  carrier_of f (links entries f).

(** What re-rooting makes of the declaration [p] at [path]. *)
Definition relabel (entries : btree pending) (path : list byte) (p : pending) : pending :=
  match p with
  | PFile _ _ _ _ =>
      if decide (carrier entries path = path) then p else PHardlinkTo (carrier entries path)
  | PHardlinkTo f =>
      if decide (carrier entries f = path) then default p (bt_get f entries)
      else PHardlinkTo (carrier entries f)
  | _ => p
  end.

(** The file a declaration shares its content with. *)
Definition group_key (path : list byte) (p : pending) : option (list byte) :=
  match p with
  | PFile _ _ _ _ => Some path
  | PHardlinkTo f => Some f
  | _ => None
  end.

Section reroot.
Context (entries : btree pending) (groups : btree (list (list byte))).
Context (Hs : bt_sorted entries) (Hg : grouped entries entries groups).

(** The map once the groups [done] were processed. *)
Definition rerooted (done : list (list byte)) (m : btree pending) : Prop :=
  bt_sorted m /\ forall path, bt_get path m =
    match bt_get path entries with
    | None => None
    | Some p =>
        Some (match group_key path p with
              | Some f => if decide (f ∈ done) then relabel entries path p else p
              | None => p
              end)
    end.

Lemma elem_of_links_get f path :
  path ∈ links entries f <-> bt_get path entries = Some (PHardlinkTo f).
Proof using Hs. by rewrite elem_of_links, bt_get_Some. Qed.

Lemma bt_get_foldl_insert ls (v : pending) m path :
  bt_sorted m ->
  bt_sorted (foldl (fun m link => bt_insert link v m) m ls) /\
  bt_get path (foldl (fun m link => bt_insert link v m) m ls) =
    if decide (path ∈ ls) then Some v else bt_get path m.
Proof.
  revert m. induction ls as [|l ls IH]; intros m Hm; cbn [foldl].
  - split; [done|]. by rewrite decide_False by set_solver.
  - destruct (IH (bt_insert l v m)) as [Hs' ->]; [by apply bt_insert_sorted|].
    split; [done|]. rewrite bt_get_insert by done.
    repeat case_decide; try done; set_solver.
Qed.

(** A path of another group is untouched when [f] is processed. *)
Lemma other_group done f path p :
  group_key path p <> Some f ->
  match group_key path p with
  | Some g => if decide (g ∈ f :: done) then relabel entries path p else p
  | None => p
  end =
  match group_key path p with
  | Some g => if decide (g ∈ done) then relabel entries path p else p
  | None => p
  end.
Proof.
  intros Hk. destruct (group_key path p) as [g|]; [|done].
  assert (g <> f) by congruence. do 2 case_decide; set_solver.
Qed.

Lemma group_file f : links entries f <> [] ->
  exists body, bt_get f entries = Some body /\ is_pending_file body = true.
Proof using Hs Hg.
  destruct Hg as (_ & _ & Hgt). intros Hne. destruct (links entries f) as [|q qs] eqn:El; [done|].
  apply (Hgt q), elem_of_links. rewrite El. set_solver.
Qed.

Lemma reroot_step_ok done m f ls :
  rerooted done m -> (f, ls) ∈ groups -> f ∉ done ->
  exists m', reroot_step m (f, ls) = Some m' /\ rerooted (f :: done) m'.
Proof using Hs Hg.
  intros [Hm Hget] Hin Hnd.
  destruct Hg as (Hgs & Hgl & Hgt).
  apply bt_get_Some in Hin; [|done]. rewrite Hgl in Hin. case_decide as Hne; [done|].
  injection Hin as <-.
  destruct (group_file f Hne) as (body & Hbody & Hfile).
  assert (group_key f body = Some f) as Hkey by by destruct body.
  destruct (carrier_of_spec f (links entries f)) as [Hc _].
  fold (carrier entries f) in Hc.
  unfold reroot_step. fold (carrier entries f).
  destruct (decide (carrier entries f <> f)) as [Hcf|Hcf].
  - rewrite Hget, Hbody, Hkey, decide_False by done.
    eexists. split; [done|].
    set (c := carrier entries f) in *.
    set (m1 := bt_insert f (PHardlinkTo c) (bt_remove f m)).
    assert (bt_sorted m1) as Hm1 by (unfold m1; auto with rust).
    assert (c ∈ links entries f) as Hcl by set_solver.
    split; [apply bt_insert_sorted; by apply (bt_get_foldl_insert _ _ _ f)|]. intros path.
    destruct (bt_get_foldl_insert (links entries f) (PHardlinkTo c) m1 path Hm1) as [Hfs Hfg].
    rewrite bt_get_insert by done. rewrite Hfg. unfold m1.
    rewrite bt_get_insert by auto with rust. rewrite bt_get_remove.
    destruct (decide (path = c)) as [->|Hpc].
    { rewrite (proj1 (elem_of_links_get f c) Hcl). simpl.
      rewrite (decide_True (P := f ∈ f :: done)) by set_solver.
      fold c. rewrite (decide_True (P := c = c)) by done. by rewrite Hbody. }
    destruct (decide (path ∈ links entries f)) as [Hpl|Hpl].
    { rewrite (proj1 (elem_of_links_get f path) Hpl). simpl.
      rewrite (decide_True (P := f ∈ f :: done)) by set_solver.
      fold c. by rewrite decide_False. }
    destruct (decide (path = f)) as [->|Hpf].
    { rewrite Hbody, Hkey, decide_True by set_solver.
      destruct body; try done. simpl. fold c. by rewrite decide_False. }
    rewrite Hget. destruct (bt_get path entries) as [p|] eqn:Ep; [|done].
    rewrite other_group; [done|]. destruct p; simpl; try congruence.
    intros [= ->]. by apply Hpl, elem_of_links_get.
  - exists m. split; [done|]. split; [done|]. intros path. rewrite Hget.
    apply dec_stable in Hcf.
    destruct (bt_get path entries) as [p|] eqn:Ep; [|done]. f_equal.
    destruct (decide (group_key path p = Some f)) as [Hk|Hk]; [|by rewrite other_group].
    rewrite Hk. rewrite decide_False, decide_True by set_solver.
    destruct p; simpl in *; simplify_eq; rewrite Hcf.
    + by rewrite decide_True.
    + rewrite decide_False; [done|]. intros ->. rewrite Ep in Hbody. by simplify_eq.
Qed.

Lemma reroot_groups_ok gs done m :
  (forall g, g ∈ gs -> g ∈ groups) -> NoDup gs.*1 -> (forall f, f ∈ gs.*1 -> f ∉ done) ->
  rerooted done m ->
  exists m' done', reroot m gs = Some m' /\ rerooted done' m' /\
    forall f, f ∈ done' <-> f ∈ gs.*1 \/ f ∈ done.
Proof using Hs Hg.
  revert done m. induction gs as [|[f ls] gs IH]; intros done m Hsub Hnd Hfresh Hm.
  { exists m, done. split; [done|]. split; [done|]. set_solver. }
  simpl in Hnd. apply NoDup_cons in Hnd as [Hf Hnd]. cbn [reroot].
  destruct (reroot_step_ok done m f ls) as (m1 & -> & Hm1); [done|set_solver..|].
  destruct (IH (f :: done) m1) as (m' & done' & -> & Hm' & Hdone); [set_solver|done| |done|].
  { intros g Hgin. apply not_elem_of_cons. split; [by intros ->|set_solver]. }
  exists m', done'. split; [done|]. split; [done|]. set_solver.
Qed.

(** Re-rooting never panics and relabels every declaration in place. *)
Lemma reroot_spec :
  reroot entries groups =
  Some ((fun pp => (pp.1, relabel entries pp.1 pp.2)) <$> entries).
Proof using Hs Hg.
  destruct Hg as (Hgs & Hgl & Hgt).
  destruct (reroot_groups_ok groups [] entries) as (m & done' & -> & [Hm Hget] & Hdone).
  { done. } { by apply bt_sorted_NoDup. } { set_solver. }
  { split; [done|]. intros path. destruct (bt_get path entries) as [p|]; [|done].
    destruct (group_key path p); [|done]. by rewrite decide_False by set_solver. }
  f_equal. apply bt_ext; [done| |].
  { unfold bt_sorted. rewrite <-list_fmap_compose. done. }
  intros path. rewrite Hget.
  assert (forall l : btree pending,
    bt_get path ((fun pp => (pp.1, relabel entries pp.1 pp.2)) <$> l) =
    relabel entries path <$> bt_get path l) as ->.
  { induction l as [|[k v] l IH]; [done|]. simpl. case_decide; [by subst|done]. }
  destruct (bt_get path entries) as [p|] eqn:Ep; [|done]. simpl. f_equal.
  destruct (group_key path p) as [f|] eqn:Ek; [|by destruct p].
  case_decide as Hd; [done|].
  assert (links entries f = []) as Hnil.
  { destruct (decide (links entries f = [])) as [|Hne]; [done|]. destruct Hd. apply Hdone. left.
    apply list_elem_of_fmap. exists (f, links entries f). split; [done|].
    apply bt_get_Some; [done|]. by rewrite Hgl, decide_False. }
  destruct p; simpl in *; simplify_eq; unfold carrier; rewrite ?Hnil; simpl.
  - by rewrite decide_True.
  - exfalso. assert (path ∈ links entries f) as Hin by by apply elem_of_links_get.
    rewrite Hnil in Hin. set_solver.
Qed.
End reroot.

(** ** Numbering *)

(** The tree entry a declaration becomes after the entries [pre]. *)
Definition numbered_entry (pre : list (list byte * tree_entry)) (p : pending) (e : tree_entry)
  : Prop :=
  match p, e with
  | PDirectory, TDirectory => True
  | PFile x pl c rs, TFile x' pl' c' rs' =>
      x = x' /\ pl = pl' /\ c = c' /\ rs = rs' /\
      exists n, validate_record_run rs n = Ok tt
  | PSymlink t, TSymlink t' => t = t'
  | PHardlinkTo q, THardlink o =>
      0 <= o < count_files is_tree_file pre /\ tree_ordinal_path pre o = Some q
  | _, _ => False
  end.

Inductive numbered : list (list byte * pending) -> list (list byte * tree_entry) -> Prop :=
| numbered_nil : numbered [] []
| numbered_snoc pre res path p e :
    numbered pre res -> numbered_entry res p e ->
    numbered (pre ++ [(path, p)]) (res ++ [(path, e)]).

(** The ordinal map holds exactly the files so far. *)
Definition ordinals_ok (res : list (list byte * tree_entry)) (ordinals : btree Z) : Prop :=
  bt_sorted ordinals /\ zlen ordinals = count_files is_tree_file res /\
  (forall q o, bt_get q ordinals = Some o ->
    0 <= o < count_files is_tree_file res /\ tree_ordinal_path res o = Some q) /\
  (forall q e, (q, e) ∈ res -> is_tree_file e = true -> is_Some (bt_get q ordinals)).

Lemma nth_file_app {E} (f : E -> bool) pre post o q :
  nth_file f pre o = Some q -> nth_file f (pre ++ post) o = Some q.
Proof.
  unfold nth_file. rewrite !fmap_Some, filter_app.
  intros (x & Hx & ->). exists x. split; [|done]. by apply lookup_app_l_Some.
Qed.

Lemma nth_file_snoc {E} (f : E -> bool) pre path e :
  f e = true -> nth_file f (pre ++ [(path, e)]) (count_files f pre) = Some path.
Proof.
  intros He. unfold nth_file, count_files, zlen. rewrite Nat2Z.id, filter_app, filter_cons, filter_nil.
  rewrite decide_True by done. rewrite list_lookup_middle by done. done.
Qed.

Lemma nth_file_elem {E} (f : E -> bool) res o q :
  nth_file f res o = Some q -> q ∈ res.*1.
Proof.
  unfold nth_file. intros (x & Hx & ->)%fmap_Some.
  apply list_elem_of_lookup_2, list_elem_of_filter in Hx as [_ Hx].
  apply list_elem_of_fmap. eauto.
Qed.

Lemma numbered_keys pre res : numbered pre res -> res.*1 = pre.*1.
Proof.
  induction 1 as [|pre res path p e _ IH _]; [done|]. by rewrite !fmap_app, IH.
Qed.

Lemma ordinals_ok_weaken res ordinals path e :
  is_tree_file e = false -> ordinals_ok res ordinals -> ordinals_ok (res ++ [(path, e)]) ordinals.
Proof.
  intros He (Hs & Hl & Hget & Hall). unfold ordinals_ok. rewrite count_files_snoc. cbn [snd].
  rewrite He. split; [done|]. split; [lia|]. split.
  - intros q o Hq. destruct (Hget q o Hq) as [? Hp]. split; [lia|]. by apply nth_file_app.
  - intros q e' [Hin|Hin%list_elem_of_singleton]%elem_of_app; [by eapply Hall|].
    intros ?. simplify_eq. congruence.
Qed.

Lemma ordinals_ok_file res ordinals path e :
  is_tree_file e = true -> path ∉ res.*1 -> ordinals_ok res ordinals ->
  ordinals_ok (res ++ [(path, e)]) (bt_insert path (zlen ordinals) ordinals).
Proof.
  intros He Hn (Hs & Hl & Hget & Hall). unfold ordinals_ok. rewrite count_files_snoc. cbn [snd].
  rewrite He. split; [by apply bt_insert_sorted|]. split.
  - assert (path ∉ ordinals.*1) as Hf.
    { rewrite <-bt_get_None. destruct (bt_get path ordinals) as [o|] eqn:Eo; [|done].
      apply Hget in Eo as [_ Eo]. by apply nth_file_elem in Eo. }
    rewrite <-Hl. unfold zlen.
    rewrite (Permutation_length (bt_insert_fresh path _ ordinals Hf)). simpl. lia.
  - pose proof (count_files_le is_tree_file res).
    split; intros q e'; rewrite bt_get_insert by done; case_decide as Hq.
    + intros [= <-]. subst. rewrite Hl. split; [lia|]. by apply nth_file_snoc.
    + intros Ho. destruct (Hget q e' Ho) as [? Hp]. split; [lia|]. by apply nth_file_app.
    + eauto.
    + intros [Hin|Hin%list_elem_of_singleton]%elem_of_app; [by apply Hall|].
      intros ?. by simplify_eq.
Qed.

Lemma number_step_ok pre res ordinals path p st' :
  path ∉ pre.*1 -> numbered pre res -> ordinals_ok res ordinals ->
  number_step (res, ordinals) (path, p) = Ok st' ->
  numbered (pre ++ [(path, p)]) st'.1 /\ ordinals_ok st'.1 st'.2.
Proof.
  intros Hn Hnum Hord Hstep. pose proof (numbered_keys _ _ Hnum) as Hk.
  destruct p as [|x pl c rs|t|q]; simpl in Hstep.
  - simplify_eq. split; [by apply numbered_snoc|by apply ordinals_ok_weaken].
  - destruct (derive_size rs) as [n|]; [|done].
    destruct (validate_record_run rs n) as [[]|] eqn:Ev; [|done]. simplify_eq.
    split; [apply numbered_snoc; simpl; eauto 10|].
    apply ordinals_ok_file; [done| |done]. by rewrite Hk.
  - simplify_eq. split; [by apply numbered_snoc|by apply ordinals_ok_weaken].
  - destruct (bt_get q ordinals) as [o|] eqn:Eo; [|done]. simplify_eq.
    split; [|by apply ordinals_ok_weaken]. apply numbered_snoc; [done|].
    by apply Hord.
Qed.

Lemma ordinals_start : numbered [] [] /\ ordinals_ok [] [].
Proof.
  split; [constructor|]. split; [constructor|]. split; [done|]. split; [done|]. set_solver.
Qed.

Lemma number_numbered entries res :
  NoDup entries.*1 -> number entries = Ok res -> numbered entries res.
Proof.
  intros Hnd Hnum. unfold number in Hnum.
  destruct (for_each number_step _ _) as [[res' ords]|] eqn:E; [|done]. simplify_eq.
  apply (for_each_inv _ (fun pre st => numbered pre st.1 /\ ordinals_ok st.1 st.2)) in E.
  - by destruct E.
  - apply ordinals_start.
  - intros pre [path p] post [r o] t' -> [Hn Ho]. apply number_step_ok; [|done..].
    rewrite fmap_app in Hnd. apply NoDup_app in Hnd as (_ & Hnd & _).
    intros Hin. apply Hnd in Hin. set_solver.
Qed.

(** ** Canonical bodies *)

Lemma canonical_body_wf pl c rs n body :
  wf_stamp c -> Forall wf_record rs -> validate_record_run rs n = Ok tt ->
  canonical_body pl c rs = Ok body -> wf_body body.
Proof.
  intros Hc Hrs Hrun Hb. unfold canonical_body in Hb.
  destruct (planner_tensor_format pl) as [f|].
  - destruct (validate_records rs _) as [[]|] eqn:Ev; [|done]. simplify_eq.
    apply validate_records_iff in Ev as [? ?]; done.
  - destruct rs as [|[d m|m] [|]]; simplify_eq; [done|].
    rewrite Forall_singleton in Hrs. destruct Hrs as [Hd Hm].
    split; [done|]. split; [done|]. intros ->.
    apply validate_record_run_iff in Hrun; [|by repeat constructor].
    pose proof (wrr_nonzero _ _ Hrun) as Hz. by inversion Hz.
Qed.

Definition same_entry (pe : list byte * tree_entry) (qe : list byte * entry) : Prop :=
  pe.1 = qe.1 /\ canonical_entry pe.2 = Ok qe.2.

Lemma canonical_loop res entries :
  for_each canonical_step [] res = Ok entries -> Forall2 same_entry res entries.
Proof.
  apply (for_each_inv _ (Forall2 same_entry)); [constructor|].
  intros pre [path e] post t t' _ Ht. unfold canonical_step.
  destruct (canonical_entry e) as [e'|] eqn:E; [|done]. intros [= <-].
  apply Forall2_app; [done|]. by repeat constructor.
Qed.

Lemma canonical_entry_kind e e' :
  canonical_entry e = Ok e' ->
  is_file e' = is_tree_file e /\ is_directory e' = is_tree_directory e.
Proof.
  destruct e; simpl; try by intros [= <-].
  destruct (canonical_body _ _ _); [|done]. by intros [= <-].
Qed.

Lemma same_entry_keys res entries : Forall2 same_entry res entries -> entries.*1 = res.*1.
Proof. induction 1 as [|pe qe ? ? [Hk _] _ IH]; [done|]. by rewrite !fmap_cons, IH, Hk. Qed.

Lemma same_entry_files res entries :
  Forall2 same_entry res entries ->
  (filter (fun '(_, e) => is_file e = true) entries).*1 =
  (filter (fun '(_, e) => is_tree_file e = true) res).*1.
Proof.
  induction 1 as [|[p e] [q e'] ? ? [Hk [Hf _]%canonical_entry_kind] _ IH]; [done|].
  cbn [fst snd] in *. rewrite !filter_cons.
  repeat case_decide; cbn in *; rewrite ?fmap_cons, ?IH, ?Hk; (done || congruence).
Qed.

Lemma same_entry_nth res entries o :
  Forall2 same_entry res entries -> nth_file is_file entries o = tree_ordinal_path res o.
Proof.
  intros Hf%same_entry_files. unfold tree_ordinal_path, nth_file.
  by rewrite <-!list_lookup_fmap, Hf.
Qed.

Lemma same_entry_count res entries :
  Forall2 same_entry res entries ->
  count_files is_file entries = count_files is_tree_file res.
Proof.
  intros Hf%same_entry_files. unfold count_files.
  by rewrite <-(zlen_fmap fst), Hf, zlen_fmap.
Qed.

(** ** The builder as a whole *)

Definition relabelled (entries : btree pending) : btree pending :=
  (fun pp => (pp.1, relabel entries pp.1 pp.2)) <$> entries.

Lemma relabelled_keys entries : (relabelled entries).*1 = entries.*1.
Proof. unfold relabelled. by rewrite <-list_fmap_compose. Qed.

Lemma bt_get_relabelled entries path :
  bt_get path (relabelled entries) = relabel entries path <$> bt_get path entries.
Proof.
  assert (forall l : btree pending,
    bt_get path ((fun pp => (pp.1, relabel entries pp.1 pp.2)) <$> l) =
    relabel entries path <$> bt_get path l) as Hl; [|apply Hl].
  induction l as [|[k v] l IH]; [done|]. simpl. case_decide; [by subst|done].
Qed.

(** What a successful [resolve] went through. *)
Lemma resolve_inv declared res :
  resolve declared = Some (Ok res) ->
  exists entries groups, collected declared entries /\ grouped entries entries groups /\
    numbered (relabelled entries) res /\ tree_ok is_tree_directory res.
Proof.
  unfold resolve. intros Hr.
  destruct (collect declared) as [entries|] eqn:Ec; [|done]. apply collect_iff in Ec.
  destruct (group_links entries) as [groups|] eqn:Eg; [|done].
  apply group_links_grouped in Eg.
  rewrite (reroot_spec entries groups) in Hr by (done || apply Ec).
  fold (relabelled entries) in Hr.
  destruct (number (relabelled entries)) as [res'|] eqn:En; [|done].
  destruct (validate_tree _ _) as [[]|] eqn:Et; [|done]. injection Hr as ->.
  exists entries, groups. split; [done|]. split; [done|].
  split; [|by apply validate_tree_iff].
  apply number_numbered; [|done]. rewrite relabelled_keys. apply bt_sorted_NoDup, Ec.
Qed.

Lemma finish_inv b s :
  finish b = Some (Ok s) ->
  exists entries groups res, collected (b_pending b) entries /\ grouped entries entries groups /\
    numbered (relabelled entries) res /\ tree_ok is_tree_directory res /\
    Forall2 same_entry res (s_entries s) /\ s_parent s = b_parent b.
Proof.
  unfold finish. destruct (resolve (b_pending b)) as [[res|]|] eqn:Er; [|done..].
  apply resolve_inv in Er as (entries & groups & ? & ? & ? & ?).
  destruct (for_each canonical_step [] res) as [es|] eqn:Es; [|done]. intros [= <-].
  apply canonical_loop in Es. by exists entries, groups, res.
Qed.

Lemma resolve_no_panic declared : resolve declared <> None.
Proof.
  unfold resolve. destruct (collect declared) as [entries|] eqn:Ec; [|done].
  apply collect_iff in Ec. destruct (group_links entries) as [groups|] eqn:Eg; [|done].
  apply group_links_grouped in Eg. by rewrite (reroot_spec entries groups) by (done || apply Ec).
Qed.

(** What the Rust types guarantee of a declaration. *)
Definition wf_declared (pp : list byte * pending) : Prop :=
  is_utf8 pp.1 /\
  match pp.2 with
  | PDirectory => True
  | PFile _ _ contract records => wf_stamp contract /\ Forall wf_record records
  | PSymlink target => is_utf8 target
  | PHardlinkTo target_path => is_utf8 target_path
  end.

Record wf_builder (b : builder) : Prop := {
  wb_parent : forall id, b_parent b = Some id -> zlen id = 32;
  wb_pending : Forall wf_declared (b_pending b);
  wb_count : zlen (b_pending b) < U64
}.

Lemma relabel_wf declared entries path p :
  Forall wf_declared declared -> collected declared entries ->
  (path, p) ∈ relabelled entries ->
  wf_declared (path, p) /\ declared_ok (path, p) \/ exists q, p = PHardlinkTo q.
Proof.
  intros Hwf (Hok & _ & Hs & Hp) Hin. unfold relabelled in Hin.
  apply list_elem_of_fmap in Hin as ([path' p'] & [= -> ->] & Hin). cbn [fst snd] in *.
  rewrite Forall_forall in Hwf, Hok.
  assert (forall k v, (k, v) ∈ entries -> wf_declared (k, v) /\ declared_ok (k, v)) as Hall.
  { intros k v Hkv. rewrite Hp in Hkv. auto. }
  destruct (Hall _ _ Hin) as [[Hu Hv] [Hpv Ht]].
  destruct p' as [|x pl c rs|t|f]; simpl; [left; split; split; done| |left; split; split; done|].
  - case_decide; [left; split; split; done|]. right. eauto.
  - case_decide; [|right; by eauto].
    destruct (bt_get f entries) as [body|] eqn:Ef; [|right; by eauto]. simpl.
    apply bt_get_Some in Ef; [|done]. destruct (Hall _ _ Ef) as [[_ Hwb] [_ Hob]].
    left. split; split; done.
Qed.

Lemma finish_entry_wf declared entries pre path p e e' :
  Forall wf_declared declared -> collected declared entries ->
  (path, p) ∈ relabelled entries -> zlen pre < U64 ->
  numbered_entry pre p e -> canonical_entry e = Ok e' -> wf_entry e'.
Proof.
  intros Hwf Hc Hin Hpre Hn He.
  destruct (relabel_wf _ _ _ _ Hwf Hc Hin) as [[[Hu Hv] [Hpv Ht]]|[q ->]].
  - destruct p, e; try done; simpl in Hv, Ht, Hn, He.
    + by simplify_eq.
    + destruct (canonical_body _ _ _) as [body|] eqn:Eb; [|done]. simplify_eq/=.
      destruct Hn as (-> & -> & -> & -> & n & Hrun). destruct Hv as [Hst Hrec].
      by eapply canonical_body_wf.
    + by simplify_eq.
    + simplify_eq. destruct Hn as [Ho _]. pose proof (count_files_le is_tree_file pre).
      simpl. unfold in_u64. lia.
  - destruct e; try done. simpl in *. simplify_eq. simpl. destruct Hn as [Ho _].
    pose proof (count_files_le is_tree_file pre). unfold in_u64. lia.
Qed.

Lemma numbered_split all res pre path e post :
  numbered all res -> res = pre ++ (path, e) :: post ->
  exists p, (path, p) ∈ all /\ numbered_entry pre p e.
Proof.
  intros Hn. revert pre path e post.
  induction Hn as [|all res path' p' e' Hn IH He]; intros pre path e post Heq.
  { by destruct pre. }
  destruct post as [|y post _] using rev_ind.
  - apply app_inj_tail in Heq as [<- [= <- <-]]. exists p'. split; [set_solver|done].
  - rewrite app_comm_cons, app_assoc in Heq. apply app_inj_tail in Heq as [-> _].
    destruct (IH pre path e post eq_refl) as (p & Hin & ?). exists p. split; [set_solver|done].
Qed.

(** Every entry of a finished snapshot, with the declaration behind it. *)
Lemma finish_split declared entries res es pre path e' post :
  collected declared entries -> numbered (relabelled entries) res ->
  Forall2 same_entry res es -> es = pre ++ (path, e') :: post ->
  exists p pre' e, (path, p) ∈ relabelled entries /\ Forall2 same_entry pre' pre /\
    numbered_entry pre' p e /\ canonical_entry e = Ok e' /\
    exists post', res = pre' ++ (path, e) :: post'.
Proof.
  intros Hc Hn Hf ->.
  apply Forall2_app_inv_r in Hf as (pre' & post' & Hpre & Hpost & ->).
  inversion Hpost as [|[path' e] ? post'' ? [Hk He] Hpost']; subst. simpl in Hk, He. subst.
  destruct (numbered_split _ _ pre' path e post'' Hn eq_refl) as (p & Hin & Hne).
  exists p, pre', e. eauto 10.
Qed.

Lemma tree_ok_transfer res entries :
  Forall2 same_entry res entries -> tree_ok is_tree_directory res -> tree_ok is_directory entries.
Proof.
  intros Hf [Hnd Hpar]. split; [by rewrite (same_entry_keys _ _ Hf)|].
  intros path e parent name Hin Hr.
  destruct (list_elem_of_lookup_1 _ _ Hin) as [i Hi].
  destruct (Forall2_lookup_r _ _ _ _ _ Hf Hi) as ([path' e0] & Hi' & [Hk _]). simpl in Hk. subst.
  destruct (Hpar path e0 parent name) as (d & Hd & Hdir); [by eapply list_elem_of_lookup_2|done|].
  destruct (list_elem_of_lookup_1 _ _ Hd) as [j Hj].
  destruct (Forall2_lookup_l _ _ _ _ _ Hf Hj) as ([q d'] & Hj' & [Hq Hc]). simpl in Hq, Hc. subst.
  exists d'. split; [by eapply list_elem_of_lookup_2|].
  apply canonical_entry_kind in Hc as [_ ->]. done.
Qed.

Lemma finish_wf_lemma b s :
  wf_builder b -> finish b = Some (Ok s) -> wf_snapshot s.
Proof.
  intros [Hpar Hwf Hcnt] Hfin.
  apply finish_inv in Hfin as (entries & groups & res & Hc & Hg & Hn & Ht & Hf & Hp).
  assert ((s_entries s).*1 = entries.*1) as Hkeys.
  { by rewrite (same_entry_keys _ _ Hf), (numbered_keys _ _ Hn), relabelled_keys. }
  assert (forall pre path e' post, s_entries s = pre ++ (path, e') :: post ->
    wf_entry e' /\ forall o, e' = Hardlink o -> 0 <= o < count_files is_file pre) as Hent.
  { intros pre path e' post Heq.
    destruct (finish_split _ _ _ _ _ _ _ _ Hc Hn Hf Heq)
      as (p & pre' & e & Hin & Hpre & Hne & He & _).
    assert (zlen pre' < U64).
    { apply Forall2_length in Hpre. apply (f_equal length) in Heq.
      destruct Hc as (_ & _ & _ & Hperm). apply Permutation_length in Hperm.
      apply (f_equal length) in Hkeys. rewrite !length_fmap in Hkeys.
      rewrite length_app in Heq. simpl in Heq. unfold zlen in *. lia. }
    split; [by eapply finish_entry_wf|]. intros o ->.
    rewrite (same_entry_count _ _ Hpre). destruct e; simplify_eq/=.
    - by destruct (canonical_body _ _ _).
    - destruct p; try done. by destruct Hne. }
  constructor.
  - rewrite Hp. done.
  - rewrite Hkeys. apply Hc.
  - destruct Hc as (Hok & _ & _ & Hperm). rewrite Forall_forall in Hwf, Hok.
    apply Forall_forall. intros [path e'] Hin. cbn [fst].
    assert (path ∈ entries.*1) as Hk.
    { rewrite <-Hkeys. apply list_elem_of_fmap. by exists (path, e'). }
    rewrite Hperm in Hk. apply list_elem_of_fmap in Hk as ([q p] & -> & Hq).
    split; [by apply (Hwf _ Hq)|by apply (Hok _ Hq)].
  - rewrite Forall_forall. intros [path e'] (pre & post & Heq)%list_elem_of_split.
    by eapply Hent.
  - intros pre path o post Heq. by eapply Hent.
  - by eapply tree_ok_transfer.
Qed.

(** ** What a path holds *)

(** The entry a path reads as: a hardlink is followed to its carrier. *)
Definition entry_at (s : snapshot) (path : list byte) : option entry :=
  bt_get path (s_entries s).
Definition content_at (s : snapshot) (path : list byte) : option entry :=
  match entry_at s path with
  | Some (Hardlink ordinal) =>
      let* carrier := ordinal_path s ordinal in entry_at s carrier
  | e => e
  end.

Lemma finish_entry_at b s entries res path p :
  collected (b_pending b) entries -> numbered (relabelled entries) res ->
  Forall2 same_entry res (s_entries s) -> bt_get path (relabelled entries) = Some p ->
  exists e', entry_at s path = Some e' /\
    match p with
    | PDirectory => e' = Directory
    | PFile x pl c rs => exists body, canonical_body pl c rs = Ok body /\ e' = File x body
    | PSymlink t => e' = Symlink t
    | PHardlinkTo q => exists o, e' = Hardlink o /\ ordinal_path s o = Some q
    end.
Proof.
  intros Hc Hn Hf Hp.
  assert ((s_entries s).*1 = entries.*1) as Hkeys.
  { by rewrite (same_entry_keys _ _ Hf), (numbered_keys _ _ Hn), relabelled_keys. }
  assert (bt_sorted (relabelled entries)) as Hrs.
  { unfold bt_sorted. rewrite relabelled_keys. apply Hc. }
  assert (bt_sorted (s_entries s)) as Hss by (unfold bt_sorted; rewrite Hkeys; apply Hc).
  destruct (bt_get path (s_entries s)) as [e'|] eqn:Ee.
  2: { apply bt_get_None in Ee. rewrite Hkeys, <-relabelled_keys in Ee.
       apply bt_get_None in Ee. congruence. }
  exists e'. split; [done|].
  destruct (bt_get_split _ _ _ Ee) as (pre & post & Heq).
  destruct (finish_split _ _ _ _ _ _ _ _ Hc Hn Hf Heq)
    as (p' & pre' & e & Hin & Hpre & Hne & He & post' & Hres).
  apply bt_get_Some in Hin; [|done]. assert (p' = p) as -> by congruence.
  destruct p, e; try done; simpl in *.
  - by simplify_eq.
  - destruct (canonical_body _ _ _) as [body|] eqn:Eb; [|done]. simplify_eq.
    destruct Hne as (-> & -> & -> & -> & _). eauto.
  - by simplify_eq.
  - simplify_eq. exists ordinal. split; [done|]. unfold ordinal_path.
    rewrite (same_entry_nth _ _ _ Hf). apply nth_file_app, Hne.
Qed.

Lemma carrier_relabel entries f body :
  bt_sorted entries -> bt_get f entries = Some body -> is_pending_file body = true ->
  bt_get (carrier entries f) (relabelled entries) = Some body.
Proof.
  intros Hs Hb Hfile. rewrite bt_get_relabelled.
  destruct (carrier_of_spec f (links entries f)) as [Hc _]. fold (carrier entries f) in Hc.
  apply elem_of_cons in Hc as [Hc|Hc].
  - rewrite Hc, Hb. simpl. destruct body; try done. simpl. by rewrite decide_True.
  - apply elem_of_links_get in Hc; [|done]. rewrite Hc. simpl.
    rewrite decide_True by done. by rewrite Hb.
Qed.

(** The file at [f] and every link to it read as the file's declaration. *)
Lemma finish_file_content b s entries res f x pl c rs path :
  collected (b_pending b) entries -> numbered (relabelled entries) res ->
  Forall2 same_entry res (s_entries s) -> bt_get f entries = Some (PFile x pl c rs) ->
  (path = f \/ bt_get path entries = Some (PHardlinkTo f)) ->
  exists body, canonical_body pl c rs = Ok body /\ content_at s path = Some (File x body).
Proof.
  intros Hc Hn Hf Hfile Hpath. assert (bt_sorted entries) as Hs by apply Hc.
  pose proof (carrier_relabel entries f _ Hs Hfile eq_refl) as Hcar.
  destruct (finish_entry_at _ _ _ _ _ _ Hc Hn Hf Hcar) as (e' & He' & body & Hbody & ->).
  exists body. split; [done|]. unfold content_at.
  destruct (decide (path = carrier entries f)) as [->|Hne]; [by rewrite He'|].
  assert (bt_get path (relabelled entries) = Some (PHardlinkTo (carrier entries f))) as Hlink.
  { rewrite bt_get_relabelled. destruct Hpath as [->|Hp].
    - rewrite Hfile. simpl. by rewrite decide_False by congruence.
    - rewrite Hp. simpl. by rewrite decide_False by congruence. }
  destruct (finish_entry_at _ _ _ _ _ _ Hc Hn Hf Hlink) as (e & -> & o & -> & Ho).
  by rewrite Ho.
Qed.

(** What the snapshot must hold at a declared path. *)
Definition declared_content (s : snapshot) (path : list byte) (p : pending) : Prop :=
  match p with
  | PDirectory => content_at s path = Some Directory
  | PSymlink target => content_at s path = Some (Symlink target)
  | PFile executable planner contract records =>
      exists body, canonical_body planner contract records = Ok body /\
        content_at s path = Some (File executable body)
  | PHardlinkTo target_path =>
      exists executable body, content_at s path = Some (File executable body) /\
        content_at s target_path = Some (File executable body)
  end.

(** A finished snapshot holds the declarations. *)
Lemma finish_declared b s :
  finish b = Some (Ok s) ->
  (s_entries s).*1 ≡ₚ (b_pending b).*1 /\
  forall path p, (path, p) ∈ b_pending b -> declared_content s path p.
Proof.
  intros Hfin.
  apply finish_inv in Hfin as (entries & groups & res & Hc & Hg & Hn & Ht & Hf & Hp).
  split.
  { rewrite (same_entry_keys _ _ Hf), (numbered_keys _ _ Hn), relabelled_keys.
    destruct Hc as (_ & _ & _ & Hperm). by rewrite Hperm. }
  intros path p Hin.
  assert (bt_get path entries = Some p) as Hget.
  { destruct Hc as (_ & _ & Hs & Hperm). apply bt_get_Some; [done|]. by rewrite Hperm. }
  assert (relabel entries path p = p -> exists e', entry_at s path = Some e' /\
    match p with
    | PDirectory => e' = Directory
    | PFile x pl c rs => exists body, canonical_body pl c rs = Ok body /\ e' = File x body
    | PSymlink t => e' = Symlink t
    | PHardlinkTo q => exists o, e' = Hardlink o /\ ordinal_path s o = Some q
    end) as Hkeep.
  { intros Hrel. eapply finish_entry_at; [done..|]. rewrite bt_get_relabelled, Hget. simpl.
    by rewrite Hrel. }
  destruct p as [|x pl c rs|t|q]; simpl.
  - destruct (Hkeep eq_refl) as (e' & He & ->). unfold content_at. by rewrite He.
  - eapply finish_file_content; eauto.
  - destruct (Hkeep eq_refl) as (e' & He & ->). unfold content_at. by rewrite He.
  - destruct Hg as (_ & _ & Htgt).
    destruct (Htgt path q) as (body & Hbody & Hfile); [by apply bt_get_Some_1|].
    destruct body as [|x pl c rs| |]; try done.
    destruct (finish_file_content b s entries res q x pl c rs path)
      as (b1 & Hb1 & ->); [by auto..|].
    destruct (finish_file_content b s entries res q x pl c rs q)
      as (b2 & Hb2 & ->); [by auto..|].
    exists x, b1. split; congruence.
Qed.

(** C17: The builder keeps every declaration.  A finished snapshot holds exactly
    the declared paths; a directory, symlink or file reads back as declared (the
    file with its canonical body), and a hardlink reads as the file it names,
    whichever path of the group became the carrier. *)
Theorem finish_content b s :
  finish b = Some (Ok s) ->
  (s_entries s).*1 ≡ₚ (b_pending b).*1 /\
  forall path p, (path, p) ∈ b_pending b -> declared_content s path p.
Proof. apply finish_declared. Qed.

(** The snapshot is a function of the declared set: any reordering of the
    declarations finishes with the same snapshot, hence the same identity. *)
Theorem finish_permutation parent declared declared' s :
  declared ≡ₚ declared' ->
  finish (SnapshotBuilder parent declared) = Some (Ok s) ->
  finish (SnapshotBuilder parent declared') = Some (Ok s).
Proof.
  intros Hperm Hfin. unfold finish, resolve in *. cbn [b_pending b_parent] in *.
  destruct (collect declared) as [entries|] eqn:Ec; [|done].
  apply collect_iff in Ec as (Hok & Hnd & Hs & Hp).
  assert (collect declared' = Ok entries) as ->; [|done].
  apply collect_iff. split; [by rewrite <-Hperm|]. split; [by rewrite <-Hperm|].
  split; [done|]. by rewrite Hp.
Qed.

(** ** Which failures cannot happen *)

Lemma numbered_lookup all res path p :
  numbered all res -> (path, p) ∈ all -> exists e, (path, e) ∈ res /\
    is_tree_file e = is_pending_file p.
Proof.
  intros Hn. induction Hn as [|all res path' p' e' Hn IH He]; [set_solver|].
  intros [Hin|Hin%list_elem_of_singleton]%elem_of_app.
  - destruct (IH Hin) as (e & ? & ?). exists e. split; [set_solver|done].
  - simplify_eq. exists e'. split; [set_solver|]. by destruct p', e'.
Qed.

(** The carrier a re-rooted link names is a file and sorts before the link. *)
Lemma relabelled_link entries groups pre path q post :
  bt_sorted entries -> grouped entries entries groups ->
  relabelled entries = pre ++ (path, PHardlinkTo q) :: post ->
  exists p, (q, p) ∈ pre /\ is_pending_file p = true.
Proof.
  intros Hs Hg Heq.
  assert (bt_sorted (relabelled entries)) as Hrs by (unfold bt_sorted; by rewrite relabelled_keys).
  assert (bt_get path (relabelled entries) = Some (PHardlinkTo q)) as Hget.
  { apply bt_get_Some; [done|]. rewrite Heq. set_solver. }
  rewrite bt_get_relabelled in Hget. apply fmap_Some in Hget as (p0 & Hp0 & Hrel).
  assert (exists f body, bt_get f entries = Some body /\ is_pending_file body = true /\
    q = carrier entries f /\ path <> q /\ path ∈ f :: links entries f)
    as (f & body & Hbody & Hfile & -> & Hne & Hmem).
  { destruct p0 as [|x pl c rs|t|f]; simpl in Hrel; try done.
    - case_decide; [done|]. exists path, (PFile x pl c rs).
      split_and!; [done|done|congruence|congruence|set_solver].
    - destruct Hg as (_ & _ & Htgt).
      destruct (Htgt path f) as (body & Hbody & Hfile); [by apply bt_get_Some_1|].
      rewrite Hbody in Hrel. exists f, body. case_decide; [by destruct body|].
      split_and!; [done|done|congruence|congruence|].
      right. by apply elem_of_links_get. }
  exists body. split; [|done].
  pose proof (carrier_relabel entries f body Hs Hbody Hfile) as Hc.
  apply bt_get_Some in Hc; [|done]. rewrite Heq in Hc.
  apply elem_of_app in Hc as [Hc|Hc]; [done|]. exfalso.
  destruct (carrier_of_spec f (links entries f)) as [_ Hmin].
  apply (Hmin path Hmem). fold (carrier entries f).
  apply elem_of_cons in Hc as [Hc|Hc]; [congruence|].
  unfold bt_sorted in Hrs. rewrite Heq, fmap_app, fmap_cons in Hrs.
  apply StronglySorted_app_iff in Hrs as (_ & _ & Hrs). inversion Hrs as [|?? _ Hall]; subst.
  rewrite Forall_forall in Hall. apply Hall, list_elem_of_fmap. by exists (carrier entries f, body).
Qed.

Lemma number_not_ordinal entries groups :
  bt_sorted entries -> grouped entries entries groups ->
  number (relabelled entries) <> Err HardlinkOrdinal.
Proof.
  intros Hs Hg. unfold number.
  destruct (for_each number_step ([], []) (relabelled entries)) as [[res o]|e] eqn:E; [done|].
  intros [= ->]. apply for_each_Err in E as (pre & [path p] & post & [res ords] & Heq & Hpre & Hstep).
  assert (NoDup (relabelled entries).*1) as Hnd
    by (rewrite relabelled_keys; by apply bt_sorted_NoDup).
  apply (for_each_inv _ (fun pre st => numbered pre st.1 /\ ordinals_ok st.1 st.2)) in Hpre
    as [Hn (_ & _ & _ & Hall)].
  - destruct p as [|x pl c rs|t|q]; simpl in Hstep; try done.
    + assert (derive_size rs <> Err HardlinkOrdinal /\
        forall n, validate_record_run rs n <> Err HardlinkOrdinal) as [Hd Hv].
      { split.
        - intros Herr. unfold derive_size in Herr.
          apply for_each_Err in Herr as (? & r & ? & n & _ & _ & Hr). simpl in Hr.
          case_match; [done|]. by destruct (checked_add _ _).
        - intros n Herr. unfold validate_record_run in Herr. case_match; [done|].
          destruct (for_each _ _ rs) as [[? ?]|] eqn:Ef; [by case_match|]. simplify_eq.
          apply for_each_Err in Ef as (? & r & ? & [m b] & _ & _ & Hr).
          unfold record_run_step in Hr. case_match; [done|].
          destruct r, b; simpl in Hr; by repeat case_match. }
      destruct (derive_size rs) as [n|] eqn:En; [|congruence].
      destruct (validate_record_run rs n) as [[]|] eqn:Ev; [done|]. simplify_eq. by apply (Hv n).
    + destruct (relabelled_link entries groups pre path q post Hs Hg Heq) as (p & Hin & Hp).
      destruct (numbered_lookup _ _ _ _ Hn Hin) as (e & He & Hf).
      destruct (Hall q e He) as [o' Ho']; [congruence|]. cbn [snd] in Ho'. by rewrite Ho' in Hstep.
  - apply ordinals_start.
  - intros pre' [path' p'] post' [r o] t' -> [Hn Ho]. apply number_step_ok; [|done..].
    rewrite Heq, <-app_assoc, fmap_app in Hnd. apply NoDup_app in Hnd as (_ & Hnd & _).
    intros Hin. apply Hnd in Hin. set_solver.
Qed.

Lemma validate_symlink_not_ordinal t : validate_symlink_target t <> Err HardlinkOrdinal.
Proof. unfold validate_symlink_target. by case_match. Qed.

Lemma validate_path_not_ordinal path : validate_path path <> Err HardlinkOrdinal.
Proof.
  unfold validate_path. repeat (case_match; [done|]). intros Herr.
  apply for_each_Err in Herr as (? & seg & ? & [] & _ & _ & Hs).
  unfold validate_segment in Hs. by repeat case_match.
Qed.

Lemma collect_not_ordinal declared : collect declared <> Err HardlinkOrdinal.
Proof.
  unfold collect. intros Herr.
  apply for_each_Err in Herr as (? & [path p] & ? & m & _ & _ & Hs). unfold collect_step in Hs.
  pose proof (validate_path_not_ordinal path).
  destruct (validate_path path) as [[]|]; [|congruence].
  destruct p as [| |t|]; [by case_match..| |by case_match].
  pose proof (validate_symlink_not_ordinal t).
  destruct (validate_symlink_target t) as [[]|]; [by case_match|congruence].
Qed.

Lemma group_not_ordinal entries : group_links entries <> Err HardlinkOrdinal.
Proof.
  unfold group_links. intros Herr.
  apply for_each_Err in Herr as (? & [path p] & ? & m & _ & _ & Hs). unfold group_step in Hs.
  by repeat case_match.
Qed.

Lemma tree_not_ordinal {E} (f : E -> bool) res : validate_tree f res <> Err HardlinkOrdinal.
Proof.
  unfold validate_tree. intros Herr. destruct (for_each _ [] res) as [folded|] eqn:Ef.
  - apply for_each_Err in Herr as (? & [path p] & ? & [] & _ & _ & Hs). by repeat case_match.
  - simplify_eq. apply for_each_Err in Ef as (? & [path p] & ? & m & _ & _ & Hs).
    by repeat case_match.
Qed.

(** Resolving never panics (the re-rooting loop always finds the group's
    file) and never fails for want of an ordinal: a hardlink is refused only
    when its target is not a declared regular file. *)
Theorem resolve_total declared :
  resolve declared <> None /\ resolve declared <> Some (Err HardlinkOrdinal).
Proof.
  split; [apply resolve_no_panic|]. unfold resolve.
  pose proof (collect_not_ordinal declared).
  destruct (collect declared) as [entries|] eqn:Ec; [|congruence]. apply collect_iff in Ec.
  pose proof (group_not_ordinal entries).
  destruct (group_links entries) as [groups|] eqn:Eg; [|congruence].
  apply group_links_grouped in Eg.
  rewrite (reroot_spec entries groups) by (done || apply Ec). fold (relabelled entries).
  pose proof (number_not_ordinal entries groups ltac:(apply Ec) Eg).
  destruct (number (relabelled entries)) as [res|]; [|congruence].
  pose proof (tree_not_ordinal is_tree_directory res).
  destruct (validate_tree _ res) as [[]|]; congruence.
Qed.

(** The builder writes only canonical manifests: what it finishes is
    well-formed, and its encoding decodes back to the same snapshot. *)
Theorem finish_decodes `{Allocator} b s :
  wf_builder b -> finish b = Some (Ok s) ->
  zlen (to_bytes s) < U64 -> memory_for (zlen (to_bytes s)) ->
  wf_snapshot s /\ decode (to_bytes s) = Ok s.
Proof.
  intros Hb Hf Hl Hm. pose proof (finish_wf_lemma b s Hb Hf) as Hwf. split; [done|].
  apply decode_complete; [done..|]. by apply memory_allocated.
Qed.
End builder.

(** The file is declared at [m], linked from [a] and [z]: the carrier becomes
    [a], and the declarations come in no particular order. *)
Definition demo_builder : builder :=
  let b := builder_new None in
  let b := builder_hardlink b (bstr "z") (bstr "m") in
  let b := builder_file b (bstr "m") true BlobV1 [Data EMPTY_BLOB_DIGEST 7] in
  let b := builder_hardlink b (bstr "a") (bstr "m") in
  let b := builder_directory b (bstr "d") in
  builder_symlink b (bstr "d/s") (bstr "../m").

Definition demo_built : snapshot := Snapshot None
  [(bstr "a", File true (Blob 7 EMPTY_BLOB_DIGEST)); (bstr "d", Directory);
   (bstr "d/s", Symlink (bstr "../m")); (bstr "m", Hardlink 0); (bstr "z", Hardlink 0)].

Lemma demo_finishes : finish (H := ascii_unicode) demo_builder = Some (Ok demo_built).
Proof. vm_compute. reflexivity. Qed.

Lemma finish_content_witness :
  exists executable body, content_at demo_built (bstr "z") = Some (File executable body) /\
    content_at demo_built (bstr "m") = Some (File executable body).
Proof.
  destruct (finish_content (H := ascii_unicode) demo_builder demo_built demo_finishes) as [_ Hc].
  apply (Hc (bstr "z") (PHardlinkTo (bstr "m"))).
  apply list_elem_of_lookup_2 with 0%nat. reflexivity.
Defined.

Lemma finish_permutation_witness :
  finish (H := ascii_unicode) (SnapshotBuilder None (reverse (b_pending demo_builder)))
  = Some (Ok demo_built).
Proof.
  apply (finish_permutation (H := ascii_unicode) None (b_pending demo_builder)).
  - symmetry. apply reverse_Permutation.
  - exact demo_finishes.
Defined.

Lemma finish_decodes_witness :
  wf_snapshot (H := ascii_unicode) demo_built /\
  decode (H := ascii_unicode) (H0 := ample_memory) (to_bytes demo_built) = Ok demo_built.
Proof.
  apply (finish_decodes (H := ascii_unicode) (H0 := ample_memory) demo_builder).
  - constructor.
    + intros id Hid. discriminate Hid.
    + repeat constructor; vm_compute; try reflexivity; try discriminate.
    + vm_compute. reflexivity.
  - exact demo_finishes.
  - vm_compute. reflexivity.
  - intros k _. reflexivity.
Defined.
