(* ===== verification/Tfp1.v ===== *)
(** TFP1, the upload-staging envelope ([src/crates/tensorfs-core/src/tfp1.rs]):
    a sorted [(digest, offset, length)] index followed by the whole objects. *)

From S2P Require Export Foreign Reader BTree PlanTypes.

Definition MAX_PACK_PAYLOAD : Z := MAX_OBJECT_SIZE.
Definition MAX_PACK_OBJECTS : Z := 1000000.
Definition PACK_MAGIC : list byte := bstr "TFP1".
Definition ROW_BYTES : Z := 32 + 8 + 8.

(** [enum Tfp1Error]. *)
Inductive tfp1_error : Type :=
| P_Truncated | P_BadMagic | P_ZeroObjects | P_ObjectLimit | P_CountExceedsInput
| P_IndexOrder | P_DuplicateDigest | P_ZeroLengthObject | P_ObjectTooLarge
| P_PayloadTooLarge | P_OffsetMismatch | P_TrailingBytes | P_DigestMismatch.

(** [struct IndexRow], [struct PackObject], [struct Pack]. *)
Record index_row : Type := IndexRow { row_digest : list byte; row_offset : Z; row_length : Z }.
Record pack_object : Type := PackObject { po_digest : list byte; po_bytes : list byte }.
Record pack : Type := Pack { pk_rows : list index_row; pk_payload : list byte }.

#[export] Instance index_row_eq_dec : EqDecision index_row.
Proof. solve_decision. Defined.
#[export] Instance pack_object_eq_dec : EqDecision pack_object.
Proof. solve_decision. Defined.
#[export] Instance pack_eq_dec : EqDecision pack.
Proof. solve_decision. Defined.

Section tfp1.
Context `{Allocator}.

(** The comparison with [rows.last()]. *)
Definition check_row_order (rows : list index_row) (digest : list byte)
  : result tfp1_error unit :=
  match last rows with
  | Some previous =>
      match bytes_cmp (row_digest previous) digest with
      | Lt => Ok tt
      | Eq => Err P_DuplicateDigest
      | Gt => Err P_IndexOrder
      end
  | None => Ok tt
  end.

(** One iteration of the index loop up to the push: the row and the running
    payload total. *)
Definition parse_row (rows : list index_row) (total : Z) (r : reader)
  : result tfp1_error (index_row * reader) :=
  let? (digest, r) := reader_take P_Truncated 32 r in
  let? (offset, r) := take_u64 P_Truncated r in
  let? (length, r) := take_u64 P_Truncated r in
  if length =? 0 then Err P_ZeroLengthObject
  else if MAX_OBJECT_SIZE <? length then Err P_ObjectTooLarge
  else if negb (offset =? total) then Err P_OffsetMismatch
  else
    let? _ := check_row_order rows digest in
    let! total := checked_add total length ?: P_PayloadTooLarge in
    if MAX_PACK_PAYLOAD <? total then Err P_PayloadTooLarge
    else Ok (IndexRow digest offset length, r).

Definition parse_step (st : reader * list index_row * Z)
  : result tfp1_error (reader * list index_row * Z) :=
  let '(r, rows, total) := st in
  let? (row, r) := parse_row rows total r in
  Ok (r, rows ++ [row], total + row_length row).

(** [Pack::parse]. *)
Definition parse (bytes : list byte) : result tfp1_error pack :=
  let? (magic, r) := reader_take P_Truncated 4 (Reader bytes 0) in
  if negb (bool_decide (magic = PACK_MAGIC)) then Err P_BadMagic
  else
    let? (count, r) := take_u64 P_Truncated r in
    if count =? 0 then Err P_ZeroObjects
    else if MAX_PACK_OBJECTS <? count then Err P_ObjectLimit
    else if remaining r / ROW_BYTES <? count then Err P_CountExceedsInput
    else if negb (try_reserve count) then Err P_CountExceedsInput
    else
      let? (r, rows, total) := for_count parse_step (r, [], 0) (Z.to_nat count) in
      if remaining r <? total then Err P_Truncated
      else if total <? remaining r then Err P_TrailingBytes
      else Ok (Pack rows (drop (Z.to_nat (rd_position r)) (rd_bytes r))).

(** [Pack::objects]; [None] is the slice-index panic. *)
Definition row_object (payload : list byte) (row : index_row) : option pack_object :=
  let* bytes := get_range payload (row_offset row) (wadd (row_offset row) (row_length row)) in
  Some (PackObject (row_digest row) bytes).
Definition objects (p : pack) : option (list pack_object) :=
  mapM (row_object (pk_payload p)) (pk_rows p).

Context `{Sha256}.

(** [Pack::verify_objects]. *)
Definition verify_objects (p : pack) : option (result tfp1_error unit) :=
  let* os := objects p in
  Some (for_each (fun _ o =>
    if bool_decide (sha256 (po_bytes o) = po_digest o) then Ok tt else Err P_DigestMismatch)
    tt os).

(** [decode]. *)
Definition pack_decode (bytes : list byte) : option (result tfp1_error pack) :=
  match parse bytes with
  | Err e => Some (Err e)
  | Ok p => let* v := verify_objects p in Some (let? _ := v in Ok p)
  end.

(** ** The writer *)

(** The checking loop of [encode]; the state is the running total. *)
Definition encode_check (total : Z) (o : list byte * list byte) : result tfp1_error Z :=
  let '(digest, bytes) := o in
  if bool_decide (bytes = []) then Err P_ZeroLengthObject
  else if MAX_OBJECT_SIZE <? zlen bytes then Err P_ObjectTooLarge
  else
    let! total := checked_add total (zlen bytes) ?: P_PayloadTooLarge in
    if MAX_PACK_PAYLOAD <? total then Err P_PayloadTooLarge
    else if negb (bool_decide (sha256 bytes = digest)) then Err P_DigestMismatch
    else Ok total.

(** [sorted.windows(2)] has no pair with equal digests. *)
Fixpoint windows_distinct (l : list (list byte * list byte)) : bool :=
  match l with
  | a :: ((b :: _) as l) => negb (bool_decide (a.1 = b.1)) && windows_distinct l
  | _ => true
  end.

(** The index-writing loop: the offset accumulates. *)
Fixpoint emit_rows (offset : Z) (l : list (list byte * list byte)) : list byte :=
  match l with
  | [] => []
  | (digest, object) :: l =>
      digest ++ u64_bytes offset ++ u64_bytes (zlen object)
      ++ emit_rows (wadd offset (zlen object)) l
  end.

Definition digest_cmp (a b : list byte * list byte) : comparison := bytes_cmp a.1 b.1.

(** [encode]. *)
Definition encode (objects : list (list byte * list byte)) : result tfp1_error (list byte) :=
  if bool_decide (objects = []) then Err P_ZeroObjects
  else if MAX_PACK_OBJECTS <? zlen objects then Err P_ObjectLimit
  else
    let? _ := for_each encode_check 0 objects in
    let sorted := sort_by digest_cmp objects in
    if negb (windows_distinct sorted) then Err P_DuplicateDigest
    else Ok (PACK_MAGIC ++ u64_bytes (zlen sorted) ++ emit_rows 0 sorted
             ++ (sorted ≫= snd)).

(** ** What a pack is *)

Definition emit_row (row : index_row) : list byte :=
  row_digest row ++ u64_bytes (row_offset row) ++ u64_bytes (row_length row).

Definition sum_rows (rows : list index_row) : Z :=
  foldr (fun row acc => row_length row + acc) 0 rows.

(** What a row must satisfy after the rows [acc]: offsets tile, digests ascend,
    the payload stays within the bound. *)
Definition row_ok (acc : list index_row) (row : index_row) : Prop :=
  zlen (row_digest row) = 32 /\ 0 < row_length row <= MAX_OBJECT_SIZE /\
  0 <= sum_rows acc /\ row_offset row = sum_rows acc /\
  (forall previous, last acc = Some previous -> bytes_lt (row_digest previous) (row_digest row)) /\
  sum_rows acc + row_length row <= MAX_PACK_PAYLOAD.

Record wf_pack (p : pack) : Prop := {
  wp_count : 0 < zlen (pk_rows p) <= MAX_PACK_OBJECTS;
  wp_rows : wf_from row_ok [] (pk_rows p);
  wp_payload : zlen (pk_payload p) = sum_rows (pk_rows p)
}.

Definition pack_bytes (p : pack) : list byte :=
  PACK_MAGIC ++ u64_bytes (zlen (pk_rows p)) ++ (pk_rows p ≫= emit_row) ++ pk_payload p.

(** ** Parsing and the canonical bytes *)

Lemma sum_rows_snoc l row : sum_rows (l ++ [row]) = sum_rows l + row_length row.
Proof. induction l; simpl in *; lia. Qed.

Lemma check_row_order_iff acc digest :
  check_row_order acc digest = Ok tt <->
  forall previous, last acc = Some previous -> bytes_lt (row_digest previous) digest.
Proof.
  unfold check_row_order, bytes_lt. destruct (last acc) as [row|]; [|naive_solver].
  split; [intros ? ? [= <-]; simpl; by case_match|].
  intros Hl. specialize (Hl _ eq_refl). by rewrite Hl.
Qed.

#[local] Instance parse_row_codec acc :
  Codec (parse_row acc (sum_rows acc)) emit_row (row_ok acc).
Proof.
  split.
  - intros r row r' Hr Hd. unfold parse_row in Hd. do 6 dec_inv Hd.
    destruct (check_row_order acc x) as [[]|] eqn:Eo; [|done].
    destruct (checked_add _ _) as [total|] eqn:Ea; [|done]. dec_inv Hd. ztests. simplify_eq.
    apply checked_add_Some in Ea as [-> Ha]. split; [done|].
    unfold emit_row, row_ok, id, in_u64 in *. cbn [row_digest row_offset row_length].
    rewrite <-!app_assoc. split; [congruence|].
    split; [done|]. split; [lia|]. split; [lia|]. split; [done|].
    split; [by apply check_row_order_iff|done].
  - intros r [digest offset n] t Hr (Hd & Hn & Hz & Ho & Hlast & Hmax) Hrest.
    unfold emit_row in Hrest. simpl in *. rewrite <-!app_assoc in Hrest. unfold parse_row.
    assert (MAX_PACK_PAYLOAD < U64) by done.
    dec_run digest; [done|]. dec_run offset; [unfold in_u64; lia|].
    dec_run n; [unfold in_u64; lia|].
    replace (n =? 0) with false by lia. replace (MAX_OBJECT_SIZE <? n) with false by lia.
    replace (offset =? sum_rows acc) with true by lia. cbn [negb].
    rewrite (proj2 (check_row_order_iff _ _) Hlast).
    rewrite (proj2 (checked_add_Some _ _ (sum_rows acc + n))) by lia.
    replace (MAX_PACK_PAYLOAD <? sum_rows acc + n) with false by lia. eauto.
Qed.

Lemma parse_loop_sim n r acc :
  for_count parse_step (r, acc, sum_rows acc) n =
  match for_count (push_step (fun acc => parse_row acc (sum_rows acc))) (r, acc) n with
  | Ok (r', acc') => Ok (r', acc', sum_rows acc')
  | Err e => Err e
  end.
Proof.
  revert r acc. induction n as [|n IH]; intros r acc; [done|].
  cbn [for_count parse_step push_step].
  destruct (parse_row acc _ r) as [[row r']|]; [|done]. rewrite <-sum_rows_snoc. apply IH.
Qed.

Lemma zlen_emit_row row : zlen (row_digest row) = 32 -> zlen (emit_row row) = ROW_BYTES.
Proof. intros Hd. unfold emit_row. autorewrite with zlen. rewrite Hd. done. Qed.

Lemma parse_sound bytes p :
  zlen bytes < U64 -> parse bytes = Ok p -> bytes = pack_bytes p /\ wf_pack p.
Proof.
  intros Hb Hd. unfold parse in Hd. pose proof (rd_ok_start bytes Hb).
  do 7 dec_inv Hd. ztests.
  change (for_count parse_step _ _) with
    (for_count parse_step (r0, [], sum_rows []) (Z.to_nat x0)) in Hd.
  rewrite parse_loop_sim in Hd. destruct (for_count _ _ _) as [[r1 rows]|] eqn:El; [|done].
  eapply (seq_sound _ emit_row row_ok) in El as (l & -> & Hlen & Hwf & Hrest & Hok); [|done].
  rewrite app_nil_l in *. do 2 dec_inv Hd. ztests. simplify_eq.
  rewrite !remaining_rest in * by done.
  assert (x0 = zlen l) as -> by (unfold zlen, in_u64 in *; lia).
  fold (rest r1). split.
  - unfold pack_bytes. cbn [pk_rows pk_payload]. unfold id in *.
    rewrite rest_start in *. congruence.
  - constructor; cbn [pk_rows pk_payload]; [|done|lia].
    pose proof (zlen_nonneg l). lia.
Qed.

(** The index needs no more memory than the envelope. *)
Lemma parse_complete p :
  zlen (pack_bytes p) < U64 -> wf_pack p -> try_reserve (zlen (pk_rows p)) = true ->
  parse (pack_bytes p) = Ok p.
Proof.
  intros Hb [Hc Hrows Hpay] Hm. pose proof (rd_ok_start _ Hb).
  assert (rest (Reader (pack_bytes p) 0) = PACK_MAGIC ++ u64_bytes (zlen (pk_rows p))
    ++ (pk_rows p ≫= emit_row) ++ pk_payload p) as Hrest by done.
  unfold parse. dec_run PACK_MAGIC; [done|]. eval_if.
  dec_run (zlen (pk_rows p)); [unfold in_u64, MAX_PACK_OBJECTS, U64 in *; lia|].
  replace (zlen (pk_rows p) =? 0) with false by lia.
  replace (MAX_PACK_OBJECTS <? zlen (pk_rows p)) with false by lia.
  rewrite MIN_count; [|done|done|].
  2: { match goal with Hx : rest _ = _ |- _ => rewrite Hx end. rewrite zlen_app.
       pose proof (zlen_nonneg (pk_payload p)).
       eapply Z.le_trans; [apply (zlen_bind emit_row)|lia]. intros row Hin.
       apply list_elem_of_split in Hin as (pre & post & Heq).
       rewrite wf_from_split in Hrows. destruct (Hrows _ _ _ Heq) as [Hd _].
       by rewrite zlen_emit_row. }
  rewrite Hm. cbn [negb].
  match goal with Hx : rest ?r = _, Hok : rd_ok ?r |- _ =>
    destruct (seq_complete (fun acc => parse_row acc (sum_rows acc)) emit_row row_ok
      (pk_rows p) r [] (pk_payload p) Hok) as (r' & Hloop & Hok' & Hend); [done|exact Hx|] end.
  change (for_count parse_step _ _) with
    (for_count parse_step (r0, [], sum_rows []) (Z.to_nat (zlen (pk_rows p)))).
  rewrite parse_loop_sim. unfold zlen at 1. rewrite Nat2Z.id, Hloop, app_nil_l.
  rewrite remaining_rest, Hend, Hpay by done. rewrite Z.ltb_irrefl.
  fold (rest r'). rewrite Hend. by destruct p.
Qed.

(** ** The objects of a pack tile its payload *)

(** Row by row, the payload splits at the rows' lengths. *)
Lemma objects_tile acc rows before payload :
  wf_from row_ok acc rows -> zlen before = sum_rows acc -> zlen payload = sum_rows rows ->
  exists os, mapM (row_object (before ++ payload)) rows = Some os /\
    po_digest <$> os = row_digest <$> rows /\ os ≫= po_bytes = payload /\
    Forall2 (fun row o => zlen (po_bytes o) = row_length row) rows os.
Proof.
  revert acc before payload. induction rows as [|row rows IH]; intros acc before payload Hwf Hb Hp.
  { exists []. split; [done|]. split; [done|]. split; [|constructor].
    destruct payload; [done|]. simpl in Hp. rewrite zlen_cons in Hp.
    pose proof (zlen_nonneg payload). lia. }
  destruct Hwf as [(_ & Hn & Hz & Ho & _ & Hmax) Hwf]. simpl in Hp.
  assert (0 <= sum_rows rows) as Hpos.
  { clear -Hwf. revert Hwf. generalize (acc ++ [row]). induction rows as [|x rows IH]; [done|].
    intros a [(_ & Hx & _) Hw]. specialize (IH _ Hw). simpl. lia. }
  set (b := take (Z.to_nat (row_length row)) payload).
  set (tl := drop (Z.to_nat (row_length row)) payload).
  assert (payload = b ++ tl) as Hsplit by (symmetry; apply take_drop).
  assert (zlen b = row_length row) as Hlb.
  { unfold b, zlen in *. rewrite length_take. lia. }
  destruct (IH (acc ++ [row]) (before ++ b) tl) as (os & Hm & Hd & Hc & Hl).
  - done.
  - rewrite zlen_app, sum_rows_snoc. lia.
  - rewrite Hsplit, zlen_app in Hp. lia.
  - exists (PackObject (row_digest row) b :: os).
    rewrite <-app_assoc, <-Hsplit in Hm.
    split; [|split; [by rewrite !fmap_cons, Hd|split]].
    + assert (row_object (before ++ payload) row = Some (PackObject (row_digest row) b)) as Hr.
      { assert (MAX_PACK_PAYLOAD < U64) by done. unfold row_object.
        rewrite wadd_small by lia. rewrite Ho, <-Hb, <-Hlb, Hsplit. by rewrite get_range_middle. }
      simpl. by rewrite Hr, Hm.
    + rewrite bind_cons, Hc. by rewrite Hsplit.
    + by constructor.
Qed.

Lemma objects_spec p :
  wf_pack p -> exists os, objects p = Some os /\ po_digest <$> os = row_digest <$> pk_rows p /\
    os ≫= po_bytes = pk_payload p /\
    Forall2 (fun row o => zlen (po_bytes o) = row_length row) (pk_rows p) os.
Proof.
  intros [_ Hrows Hpay]. unfold objects.
  by apply (objects_tile [] (pk_rows p) [] (pk_payload p)).
Qed.

(** ** Encoding *)

Definition total_bytes (l : list (list byte * list byte)) : Z :=
  foldr (fun o acc => zlen o.2 + acc) 0 l.

Definition object_ok (o : list byte * list byte) : Prop :=
  o.2 <> [] /\ zlen o.2 <= MAX_OBJECT_SIZE /\ sha256 o.2 = o.1.

Lemma total_bytes_app l k : total_bytes (l ++ k) = total_bytes l + total_bytes k.
Proof. induction l; simpl in *; lia. Qed.
Lemma total_bytes_nonneg l : 0 <= total_bytes l.
Proof. induction l as [|o l IH]; simpl; [lia|]. pose proof (zlen_nonneg o.2). lia. Qed.
Lemma total_bytes_perm l k : l ≡ₚ k -> total_bytes l = total_bytes k.
Proof. induction 1; simpl; lia. Qed.

Lemma encode_check_iff t o t' :
  0 <= t -> encode_check t o = Ok t' <->
  object_ok o /\ t' = t + zlen o.2 /\ t' <= MAX_PACK_PAYLOAD.
Proof.
  intros Ht. destruct o as [digest bytes]. unfold encode_check, object_ok. cbn [fst snd].
  destruct (bool_decide (bytes = [])) eqn:E0; ztests.
  { split; [done|]. naive_solver. }
  destruct (MAX_OBJECT_SIZE <? zlen bytes) eqn:E1; ztests.
  { split; [done|]. intros [(_ & ? & _) _]. lia. }
  destruct (checked_add t (zlen bytes)) as [u|] eqn:E2.
  2: { apply checked_add_None in E2. split; [done|]. intros (_ & -> & ?).
       assert (MAX_PACK_PAYLOAD < U64) by done. lia. }
  apply checked_add_Some in E2 as [-> ?].
  destruct (MAX_PACK_PAYLOAD <? t + zlen bytes) eqn:E3; ztests.
  { split; [done|]. intros (_ & -> & ?). lia. }
  destruct (bool_decide (sha256 bytes = digest)) eqn:E4; ztests; cbn [negb].
  - split; [intros [= <-]; auto|]. by intros (_ & -> & _).
  - split; [done|]. by intros [(_ & _ & ?) _].
Qed.

Lemma encode_checks_iff l t :
  for_each encode_check 0 l = Ok t <->
  Forall object_ok l /\ t = total_bytes l /\ total_bytes l <= MAX_PACK_PAYLOAD.
Proof.
  assert (forall l t0, 0 <= t0 <= MAX_PACK_PAYLOAD -> for_each encode_check t0 l = Ok t <->
    Forall object_ok l /\ t = t0 + total_bytes l /\ t0 + total_bytes l <= MAX_PACK_PAYLOAD) as Haux.
  { clear l. induction l as [|o l IH]; intros t0 Ht0; simpl.
    - split; [intros [= <-]; split; [constructor|lia]|]. intros (_ & -> & _). f_equal. lia.
    - pose proof (total_bytes_nonneg l). pose proof (zlen_nonneg o.2).
      destruct (encode_check t0 o) as [t1|] eqn:E.
      + apply encode_check_iff in E as (Ho & -> & Hm); [|lia].
        rewrite IH, Forall_cons by lia. split; intros (? & -> & ?); split_and!; naive_solver lia.
      + split; [done|]. intros ([Ho Hl]%Forall_cons & _ & Hm).
        rewrite (proj2 (encode_check_iff t0 o (t0 + zlen o.2) ltac:(lia))) in E; [done|].
        split; [done|]. lia. }
  apply (Haux l 0). done.
Qed.

(** *** The sorted order *)

Lemma digest_sort_sorted l :
  StronglySorted (fun a b => digest_cmp a b <> Gt) (sort_by digest_cmp l).
Proof.
  apply sort_by_sorted; unfold digest_cmp.
  - intros x y Hxy. apply bytes_cmp_gt in Hxy. done.
  - intros x y z Hxy Hyz Hxz. apply bytes_cmp_gt in Hxz.
    destruct (bytes_lt_total x.1 y.1) as [H1|[H1|H1]]; [| |by apply bytes_cmp_gt in H1].
    + apply Hyz, bytes_cmp_gt. by apply (bytes_lt_trans _ x.1).
    + apply Hyz, bytes_cmp_gt. by rewrite <-H1.
Qed.

Lemma windows_distinct_sorted l :
  StronglySorted (fun a b => digest_cmp a b <> Gt) l ->
  windows_distinct l = true <-> bt_sorted l.
Proof.
  unfold bt_sorted. induction 1 as [|a l Hs IH Hf]; [by repeat constructor|].
  destruct l as [|b l].
  { split; [|done]. intros _. repeat constructor. }
  cbn [windows_distinct]. rewrite andb_true_iff, IH, !fmap_cons.
  assert (a.1 <> b.1 <-> bytes_lt a.1 b.1) as Hab.
  { apply Forall_inv in Hf. unfold digest_cmp in Hf.
    destruct (bytes_lt_total a.1 b.1) as [Hlt|[Heq|Hgt]].
    - split; [done|]. intros _ Heq. rewrite Heq in Hlt. by apply bytes_lt_irrefl in Hlt.
    - rewrite Heq. split; [done|]. by intros ?%bytes_lt_irrefl.
    - apply bytes_cmp_gt in Hgt. done. }
  rewrite negb_true_iff, bool_decide_eq_false, Hab. split.
  - intros [Hlt Hsl]. constructor; [done|]. constructor; [done|].
    inversion Hsl as [|?? _ Hb]; subst. eapply Forall_impl; [exact Hb|]. simpl.
    intros x. by apply bytes_lt_trans.
  - intros Hsl. inversion Hsl as [|?? Hsl' Hb]; subst. split; [|done]. by inversion Hb.
Qed.

Lemma bt_sorted_le l : bt_sorted l -> StronglySorted (fun a b => digest_cmp a b <> Gt) l.
Proof.
  unfold bt_sorted. induction l as [|a l IH]; intros Hs; [constructor|].
  rewrite fmap_cons in Hs. inversion Hs as [|?? Hs' Hf]; subst. constructor; [by apply IH|].
  rewrite Forall_forall in Hf. apply Forall_forall. intros b Hb Hgt. unfold digest_cmp in Hgt.
  apply bytes_cmp_gt in Hgt.
  apply (bytes_lt_irrefl a.1). eapply bytes_lt_trans; [|exact Hgt].
  apply Hf, list_elem_of_fmap. eauto.
Qed.

(** The writer's order is the one sorted order, whatever the input order. *)
Lemma sort_by_unique l k : bt_sorted k -> l ≡ₚ k -> sort_by digest_cmp l = k.
Proof.
  intros Hk Hp. apply bt_sorted_perm; [|done|by rewrite sort_by_perm].
  apply windows_distinct_sorted; [apply digest_sort_sorted|].
  assert (NoDup (sort_by digest_cmp l).*1) as Hnd.
  { rewrite sort_by_perm, Hp. by apply bt_sorted_NoDup. }
  revert Hnd. generalize (sort_by digest_cmp l) as m. clear.
  induction m as [|a [|b m] IH]; [done..|]. rewrite !fmap_cons, !NoDup_cons.
  intros (Ha & Hb & Hnd).
  change (negb (bool_decide (a.1 = b.1)) && windows_distinct (b :: m) = true).
  rewrite IH by (by constructor). rewrite bool_decide_eq_false_2; [done|]. set_solver.
Qed.

(** *** The pack of a sorted object list *)

Fixpoint mk_rows (offset : Z) (l : list (list byte * list byte)) : list index_row :=
  match l with
  | [] => []
  | (digest, object) :: l =>
      IndexRow digest offset (zlen object) :: mk_rows (offset + zlen object) l
  end.

Definition pack_of (l : list (list byte * list byte)) : pack :=
  Pack (mk_rows 0 l) (l ≫= snd).

Lemma mk_rows_length off l : zlen (mk_rows off l) = zlen l.
Proof.
  revert off. induction l as [|[d o] l IH]; intros off; [done|]. simpl.
  by rewrite !zlen_cons, IH.
Qed.

Lemma sum_mk_rows off l : sum_rows (mk_rows off l) = total_bytes l.
Proof. revert off. induction l as [|[d o] l IH]; intros off; simpl; [done|]. by rewrite IH. Qed.

Lemma zlen_payload (l : list (list byte * list byte)) : zlen (l ≫= snd) = total_bytes l.
Proof. induction l as [|o l IH]; [done|]. rewrite bind_cons, zlen_app, IH. done. Qed.

Lemma emit_rows_spec off l :
  0 <= off -> off + total_bytes l <= MAX_PACK_PAYLOAD ->
  emit_rows off l = mk_rows off l ≫= emit_row.
Proof.
  revert off. induction l as [|[d o] l IH]; intros off H0' Hm; [done|]. simpl in Hm.
  pose proof (total_bytes_nonneg l). pose proof (zlen_nonneg o).
  assert (MAX_PACK_PAYLOAD < U64) by done.
  cbn [emit_rows mk_rows]. rewrite bind_cons. unfold emit_row at 1.
  cbn [row_digest row_offset row_length].
  rewrite wadd_small, IH, <-!app_assoc by lia. done.
Qed.

Lemma mk_rows_last acc l x :
  last (mk_rows acc (l ++ [x])) = Some (IndexRow x.1 (acc + total_bytes l) (zlen x.2)).
Proof.
  revert acc. induction l as [|[d o] l IH]; intros acc; simpl.
  - destruct x. simpl. by rewrite Z.add_0_r.
  - rewrite last_cons, IH. do 2 f_equal. lia.
Qed.

Lemma mk_rows_ok l acc :
  bt_sorted (acc ++ l) -> Forall object_ok (acc ++ l) -> total_bytes (acc ++ l) <= MAX_PACK_PAYLOAD ->
  wf_from row_ok (mk_rows 0 acc) (mk_rows (total_bytes acc) l).
Proof.
  revert acc. induction l as [|[d o] l IH]; intros acc Hs Hf Hm; [done|].
  replace (acc ++ (d, o) :: l) with ((acc ++ [(d, o)]) ++ l) in * by by rewrite <-app_assoc.
  assert (mk_rows 0 (acc ++ [(d, o)]) =
    mk_rows 0 acc ++ [IndexRow d (total_bytes acc) (zlen o)]) as Hsnoc.
  { assert (forall off, mk_rows off (acc ++ [(d, o)]) =
      mk_rows off acc ++ [IndexRow d (off + total_bytes acc) (zlen o)]) as Hg; [|apply (Hg 0)].
    clear. induction acc as [|[d' o'] acc IH]; intros off; simpl; [by rewrite Z.add_0_r|].
    rewrite IH. do 3 f_equal. f_equal. lia. }
  specialize (IH (acc ++ [(d, o)]) Hs Hf Hm). rewrite Hsnoc, total_bytes_app in IH.
  simpl in IH. rewrite Z.add_0_r in IH. cbn [mk_rows]. split; [|done].
  pose proof (total_bytes_nonneg acc). pose proof (total_bytes_nonneg l).
  rewrite !total_bytes_app in Hm. simpl in Hm.
  assert (object_ok (d, o)) as (Hne & Hcap & Hsha).
  { rewrite Forall_forall in Hf. apply Hf. set_solver. }
  simpl in Hne, Hcap, Hsha.
  unfold row_ok. cbn [row_digest row_offset row_length]. rewrite sum_mk_rows.
  split_and!; [by rewrite <-Hsha; apply sha256_length| |done|lia|done| |lia].
  { destruct o; [done|]. rewrite zlen_cons. pose proof (zlen_nonneg o). lia. }
  intros previous Hlast. destruct acc as [|x acc _] using rev_ind; [done|].
  rewrite mk_rows_last in Hlast. simplify_eq. simpl.
  rewrite <-app_assoc in Hs. simpl in Hs. unfold bt_sorted in Hs.
  rewrite <-app_assoc, fmap_app in Hs.
  apply StronglySorted_app_iff in Hs as (_ & _ & Hs). simpl in Hs.
  inversion Hs as [|?? _ Hb]; subst. by inversion Hb.
Qed.

Definition to_object (o : list byte * list byte) : pack_object := PackObject o.1 o.2.
Definition of_object (o : pack_object) : list byte * list byte := (po_digest o, po_bytes o).

Lemma objects_mk_rows before l :
  zlen before + total_bytes l <= MAX_PACK_PAYLOAD ->
  mapM (row_object (before ++ (l ≫= snd))) (mk_rows (zlen before) l) = Some (to_object <$> l).
Proof.
  revert before. induction l as [|[d o] l IH]; intros before Hm; [done|]. simpl in Hm.
  pose proof (total_bytes_nonneg l). pose proof (zlen_nonneg o). pose proof (zlen_nonneg before).
  assert (MAX_PACK_PAYLOAD < U64) by done.
  rewrite bind_cons. cbn [mk_rows snd].
  specialize (IH (before ++ o)). rewrite zlen_app, <-app_assoc in IH.
  assert (row_object (before ++ o ++ (l ≫= snd)) (IndexRow d (zlen before) (zlen o)) =
    Some (PackObject d o)) as Hr.
  { unfold row_object. cbn [row_offset row_length row_digest].
    rewrite wadd_small by lia. by rewrite get_range_middle. }
  simpl. rewrite Hr. simpl. by rewrite IH by lia.
Qed.

Lemma rows_of_objects acc rows os :
  wf_from row_ok acc rows -> po_digest <$> os = row_digest <$> rows ->
  Forall2 (fun row o => zlen (po_bytes o) = row_length row) rows os ->
  rows = mk_rows (sum_rows acc) (of_object <$> os).
Proof.
  intros Hwf Hd Hl. revert acc Hwf Hd. induction Hl as [|row o rows os Hlen Hl IH];
    intros acc Hwf Hd; [done|].
  destruct Hwf as [(_ & _ & _ & Ho & _) Hwf]. rewrite !fmap_cons in Hd.
  injection Hd as Hd1 Hd2. rewrite fmap_cons. cbn [mk_rows of_object]. rewrite Hlen, Hd1, <-Ho.
  rewrite Ho, <-sum_rows_snoc, <-IH by done. rewrite <-Ho. by destruct row.
Qed.

(** The digests of an index ascend. *)
Lemma rows_sorted rows :
  wf_from row_ok [] rows -> StronglySorted bytes_lt (row_digest <$> rows).
Proof.
  intros Hwf. set (pair := fun row => (row_digest row, row)).
  change row_digest with (fst ∘ pair). rewrite list_fmap_compose.
  apply sorted_adjacent. intros pre a post Heq previous Hlast.
  apply fmap_app_inv in Heq as (pre' & tl & -> & Htl & Heq).
  destruct tl as [|row post']; [done|]. rewrite fmap_cons in Htl. injection Htl as -> _.
  rewrite fmap_last in Hlast. apply fmap_Some in Hlast as (prev & Hprev & ->).
  rewrite wf_from_split in Hwf. by eapply (Hwf pre' row post' Heq).
Qed.

(** [encode] succeeds exactly on valid, distinct objects within the bounds,
    and writes the pack of their sorted list. *)
Lemma encode_iff objs bytes :
  encode objs = Ok bytes <->
  exists sorted, sorted ≡ₚ objs /\ bt_sorted sorted /\ objs <> [] /\
    zlen objs <= MAX_PACK_OBJECTS /\ Forall object_ok objs /\
    total_bytes objs <= MAX_PACK_PAYLOAD /\ bytes = pack_bytes (pack_of sorted).
Proof.
  assert (forall sorted, sorted ≡ₚ objs -> total_bytes objs <= MAX_PACK_PAYLOAD ->
    PACK_MAGIC ++ u64_bytes (zlen sorted) ++ emit_rows 0 sorted ++ (sorted ≫= snd) =
    pack_bytes (pack_of sorted)) as Hbytes.
  { intros sorted Hp Hm. unfold pack_bytes, pack_of. cbn [pk_rows pk_payload].
    rewrite mk_rows_length, emit_rows_spec; [done|lia|]. by rewrite (total_bytes_perm _ _ Hp). }
  unfold encode. split.
  - intros He. destruct (bool_decide (objs = [])) eqn:E0; [done|]. ztests.
    destruct (MAX_PACK_OBJECTS <? zlen objs) eqn:E1; [done|]. ztests.
    destruct (for_each encode_check 0 objs) as [t|] eqn:E2; [|done].
    apply encode_checks_iff in E2 as (Hf & _ & Hm).
    destruct (windows_distinct _) eqn:E3; [|done]. cbn [negb] in He. injection He as <-.
    apply windows_distinct_sorted in E3; [|apply digest_sort_sorted].
    exists (sort_by digest_cmp objs). pose proof (sort_by_perm digest_cmp objs) as Hp.
    repeat (split; [done|]). by apply Hbytes.
  - intros (sorted & Hp & Hs & Hne & Hc & Hf & Hm & ->).
    rewrite bool_decide_eq_false_2 by done.
    replace (MAX_PACK_OBJECTS <? zlen objs) with false by lia.
    rewrite (proj2 (encode_checks_iff objs (total_bytes objs))) by done.
    rewrite (sort_by_unique objs sorted) by done.
    rewrite (proj2 (windows_distinct_sorted sorted (bt_sorted_le _ Hs)) Hs). cbn [negb].
    by rewrite Hbytes.
Qed.

Lemma pack_of_wf sorted :
  bt_sorted sorted -> sorted <> [] -> zlen sorted <= MAX_PACK_OBJECTS ->
  Forall object_ok sorted -> total_bytes sorted <= MAX_PACK_PAYLOAD ->
  wf_pack (pack_of sorted) /\ zlen (pack_bytes (pack_of sorted)) < U64 /\
  objects (pack_of sorted) = Some (to_object <$> sorted).
Proof.
  intros Hs Hne Hc Hf Hm.
  assert (0 < zlen sorted) by (destruct sorted; [done|]; rewrite zlen_cons;
    pose proof (zlen_nonneg sorted); lia).
  pose proof (mk_rows_ok sorted [] Hs Hf Hm) as Hrows. simpl in Hrows.
  split; [|split].
  - constructor; unfold pack_of; cbn [pk_rows pk_payload]; [by rewrite mk_rows_length|done|].
    by rewrite sum_mk_rows, zlen_payload.
  - unfold pack_bytes, pack_of. cbn [pk_rows pk_payload]. autorewrite with zlen.
    rewrite zlen_payload.
    assert (zlen (mk_rows 0 sorted ≫= emit_row) = ROW_BYTES * zlen (mk_rows 0 sorted)) as ->.
    { revert Hrows. generalize (@nil index_row). generalize (mk_rows 0 sorted).
      induction l as [|row l IH]; intros acc Hw; [done|]. destruct Hw as [[Hd _] Hw].
      rewrite bind_cons, zlen_app, zlen_cons, zlen_emit_row, (IH _ Hw) by done. lia. }
    rewrite mk_rows_length. change (zlen PACK_MAGIC) with 4.
    unfold ROW_BYTES, U64, MAX_PACK_OBJECTS, MAX_PACK_PAYLOAD, MAX_OBJECT_SIZE in *. lia.
  - unfold objects, pack_of. cbn [pk_rows pk_payload]. by apply (objects_mk_rows []).
Qed.

Lemma verify_iff os :
  for_each (fun _ o =>
    if bool_decide (sha256 (po_bytes o) = po_digest o) then Ok tt else Err P_DigestMismatch)
    tt os = Ok tt <-> Forall (fun o => sha256 (po_bytes o) = po_digest o) os.
Proof.
  rewrite (for_each_check (fun o => if bool_decide (sha256 (po_bytes o) = po_digest o)
    then Ok tt else Err P_DigestMismatch)).
  rewrite !Forall_forall. split; intros Hall o Ho; specialize (Hall o Ho); simpl in *.
  - by case_bool_decide.
  - by rewrite bool_decide_eq_true_2.
Qed.

(** ** The properties *)

(** Uploading loses nothing: whatever [encode] writes is accepted by
    [decode], and the pack holds exactly the given objects, in digest order. *)
Theorem encode_decode objs bytes :
  encode objs = Ok bytes -> memory_for MAX_PACK_OBJECTS ->
  exists p os, pack_decode bytes = Some (Ok p) /\ objects p = Some os /\
    of_object <$> os ≡ₚ objs /\ StronglySorted bytes_lt (po_digest <$> os).
Proof.
  intros (sorted & Hp & Hs & Hne & Hc & Hf & Hm & ->)%encode_iff Hmem.
  assert (zlen sorted = zlen objs) as Hlen by (unfold zlen; by rewrite Hp).
  destruct (pack_of_wf sorted) as (Hwf & Hb & Ho); [done| | |by rewrite Hp|
    by rewrite (total_bytes_perm _ _ Hp)|].
  { intros ->. by apply Permutation_nil in Hp. } { lia. }
  exists (pack_of sorted), (to_object <$> sorted). split; [|split; [done|]].
  - unfold pack_decode. rewrite parse_complete; [|done|done|].
    2: { apply Hmem. unfold pack_of. cbn [pk_rows]. rewrite mk_rows_length.
         pose proof (zlen_nonneg sorted). lia. }
    unfold verify_objects. rewrite Ho. rewrite (proj2 (verify_iff _)); [done|].
    rewrite <-Hp in Hf. rewrite Forall_fmap. eapply Forall_impl; [exact Hf|].
    by intros o (_ & _ & ?).
  - rewrite <-!list_fmap_compose. split; [|done].
    replace ((of_object ∘ to_object) <$> sorted) with sorted; [done|].
    rewrite <-(list_fmap_id sorted) at 1. apply list_fmap_ext. by intros ? [].
Qed.

(** Canonicity of packs: re-encoding the objects of an accepted pack
    reproduces the envelope byte for byte. *)
Theorem pack_decode_encode bytes p :
  zlen bytes < U64 -> pack_decode bytes = Some (Ok p) ->
  exists os, objects p = Some os /\ encode (of_object <$> os) = Ok bytes.
Proof.
  intros Hb Hd. unfold pack_decode in Hd. destruct (parse bytes) as [p'|] eqn:Ep; [|done].
  apply parse_sound in Ep as [-> Hwf]; [|done].
  destruct (objects_spec p' Hwf) as (os & Ho & Hdig & Hpay & Hlen).
  unfold verify_objects in Hd. rewrite Ho in Hd.
  destruct (for_each _ tt os) as [[]|] eqn:Ev; [|done]. simplify_eq/=.
  apply verify_iff in Ev. exists os. split; [done|].
  pose proof (wp_rows _ Hwf) as Hrows. pose proof (wp_count _ Hwf) as Hcnt.
  pose proof (rows_of_objects [] _ os Hrows Hdig Hlen) as Hmk. simpl in Hmk.
  assert (zlen os = zlen (pk_rows p)) as Hz
    by (unfold zlen; by rewrite (Forall2_length _ _ _ Hlen)).
  assert (total_bytes (of_object <$> os) = sum_rows (pk_rows p)) as Htot.
  { by rewrite Hmk, sum_mk_rows. }
  apply encode_iff. exists (of_object <$> os). split; [done|].
  assert (forall pre row post, pk_rows p = pre ++ row :: post ->
    row_ok pre row) as Hrow by (intros; by eapply (wf_from_split row_ok [] (pk_rows p))).
  split_and!.
  - unfold bt_sorted. rewrite <-list_fmap_compose.
    change (fst ∘ of_object) with po_digest. rewrite Hdig.
    by apply (rows_sorted _ Hrows).
  - intros ?%fmap_nil_inv. subst. unfold zlen in *. simpl in *. lia.
  - rewrite zlen_fmap, Hz. lia.
  - rewrite Forall_fmap, Forall_forall. intros o Hin.
    rewrite Forall_forall in Ev. specialize (Ev o Hin).
    destruct (list_elem_of_lookup_1 _ _ Hin) as [k Hk].
    destruct (Forall2_lookup_r _ _ _ _ _ Hlen Hk) as (row & Hrk & Hrl).
    apply list_elem_of_lookup_2, list_elem_of_split in Hrk as (pre & post & Hrk).
    destruct (Hrow _ _ _ Hrk) as (_ & Hn & _). unfold object_ok. simpl.
    split; [|split; [lia|done]]. intros He. rewrite He in Hrl. unfold zlen in Hrl. simpl in Hrl. lia.
  - rewrite Htot. destruct (pk_rows p) as [|row rows _] eqn:Er using rev_ind.
    { done. }
    destruct (Hrow rows row []) as (_ & _ & _ & _ & _ & Hm); [done|].
    by rewrite sum_rows_snoc.
  - unfold pack_of. rewrite <-Hmk.
    replace ((of_object <$> os) ≫= snd) with (pk_payload p); [by destruct p|].
    rewrite <-Hpay. clear. induction os as [|o os IH]; [done|].
    rewrite fmap_cons, !bind_cons, IH. done.
Qed.

(** Parsing is memory-safe: [decode] never indexes outside the payload, and
    the objects of an accepted pack tile the payload exactly, each with the
    length its row declares and within the object bound. *)
Theorem pack_objects_tile bytes p :
  zlen bytes < U64 -> parse bytes = Ok p ->
  exists os, objects p = Some os /\ os ≫= po_bytes = pk_payload p /\
    Forall2 (fun row o => po_digest o = row_digest row /\ zlen (po_bytes o) = row_length row
      /\ 0 < zlen (po_bytes o) <= MAX_OBJECT_SIZE) (pk_rows p) os /\
    zlen (pk_payload p) <= MAX_PACK_PAYLOAD.
Proof.
  intros Hb Hp. apply parse_sound in Hp as [-> Hwf]; [|done].
  destruct (objects_spec p Hwf) as (os & Ho & Hdig & Hpay & Hlen).
  assert (forall pre row post, pk_rows p = pre ++ row :: post -> row_ok pre row) as Hrow.
  { intros. by eapply (wf_from_split row_ok [] (pk_rows p)); [apply Hwf|]. }
  exists os. split; [done|]. split; [done|]. split.
  - apply Forall2_same_length_lookup. split; [by eapply Forall2_length|].
    intros k row o Hk Hk'. apply (Forall2_lookup_lr _ _ _ _ _ _ Hlen Hk) in Hk' as Hl.
    apply (f_equal (.!! k)) in Hdig. rewrite !list_lookup_fmap, Hk, Hk' in Hdig.
    apply list_elem_of_lookup_2, list_elem_of_split in Hk as (pre & post & Hk).
    destruct (Hrow _ _ _ Hk) as (_ & Hn & _). simplify_eq/=. split_and!; (done || lia).
  - rewrite (wp_payload _ Hwf). destruct (pk_rows p) as [|row rows _] eqn:Er using rev_ind; [done|].
    destruct (Hrow rows row []) as (_ & _ & _ & _ & _ & Hm); [done|]. by rewrite sum_rows_snoc.
Qed.

(** A pack is a function of the object set: any order of the input gives
    the same envelope, or fails. *)
Theorem encode_permutation objs objs' bytes :
  objs ≡ₚ objs' -> encode objs = Ok bytes -> encode objs' = Ok bytes.
Proof.
  intros Hp (sorted & Hps & Hs & Hne & Hc & Hf & Hm & ->)%encode_iff. apply encode_iff.
  exists sorted. split; [by rewrite Hps|]. split; [done|].
  split; [intros ->; by apply Permutation_nil_r in Hp|].
  split; [unfold zlen in *; by rewrite <-Hp|]. split; [by rewrite <-Hp|].
  split; [by rewrite <-(total_bytes_perm _ _ Hp)|done].
Qed.
End tfp1.

(** Two objects under the toy digest, out of order. *)
Definition demo_objects : list (list byte * list byte) :=
  (fun b => (toy_sha256 b, b)) <$> [bstr "zz"; bstr "a"].

Definition demo_pack_bytes : list byte :=
  match encode (H0 := toy_sha) demo_objects with Ok b => b | Err _ => [] end.
Definition demo_pack : pack :=
  match parse (H := ample_memory) demo_pack_bytes with Ok p => p | Err _ => Pack [] [] end.

Lemma encode_decode_witness :
  exists p os, pack_decode (H := ample_memory) (H0 := toy_sha) demo_pack_bytes = Some (Ok p) /\
    objects p = Some os /\ of_object <$> os ≡ₚ demo_objects /\
    StronglySorted bytes_lt (po_digest <$> os).
Proof.
  apply (encode_decode (H := ample_memory) (H0 := toy_sha)).
  - vm_compute. reflexivity.
  - intros k _. reflexivity.
Defined.

Lemma pack_decode_encode_witness :
  exists os, objects demo_pack = Some os /\
    encode (H0 := toy_sha) (of_object <$> os) = Ok demo_pack_bytes.
Proof.
  apply (pack_decode_encode (H := ample_memory) (H0 := toy_sha)); vm_compute; reflexivity.
Defined.

Lemma pack_objects_tile_witness :
  exists os, objects demo_pack = Some os /\ os ≫= po_bytes = pk_payload demo_pack /\
    Forall2 (fun row o => po_digest o = row_digest row /\ zlen (po_bytes o) = row_length row
      /\ 0 < zlen (po_bytes o) <= MAX_OBJECT_SIZE) (pk_rows demo_pack) os /\
    zlen (pk_payload demo_pack) <= MAX_PACK_PAYLOAD.
Proof.
  apply (pack_objects_tile (H := ample_memory) demo_pack_bytes); vm_compute; reflexivity.
Defined.

Lemma encode_permutation_witness :
  encode (H0 := toy_sha) (reverse demo_objects) = Ok demo_pack_bytes.
Proof.
  apply (encode_permutation (H0 := toy_sha) demo_objects).
  - symmetry. apply reverse_Permutation.
  - vm_compute. reflexivity.
Defined.
