(* ===== verification/Regions.v ===== *)
(** Plans and regions ([src/crates/tensorfs-core/src/planner/mod.rs]): the
    coverage check [Plan::validate], the 64 MiB grid [append_split_region], the
    seam cut [append_tensor_regions] and [blob_plan]. *)

From S2P Require Export Foreign Stamp PlanTypes.

(** [io::Error], reduced to its kind. *)
Inductive io_error : Type := InvalidInput | UnexpectedEof | OtherIo (code : Z).

(** [enum PlanError]; [PE_Panic] stands for an allocation that does not return. *)
Inductive plan_error : Type :=
| PE_Read (e : io_error)
| PE_SourceChanged (e : io_error)
| PE_InvalidCoverage
| PE_ObjectLimit
| PE_ResourceExhausted
| PE_SourceLengthMismatch (expected actual : Z)
| PE_Panic.

(** [struct Plan]. *)
Record plan : Type := Plan {
  p_planner : planner_id;
  p_contract : stamp;
  p_file_size : Z;
  p_regions : list region
}.

(** The loop of [Plan::validate]; the state is [expected_offset]. *)
Definition coverage_step (blob : bool) (expected_offset : Z) (r : region)
  : result plan_error Z :=
  if negb (r_offset r =? expected_offset) || (r_length r =? 0)
     || (negb blob && (MAX_OBJECT_SIZE <? r_length r))
  then Err PE_InvalidCoverage
  else let! next := checked_add expected_offset (r_length r) ?: PE_InvalidCoverage in Ok next.

(** [Plan::validate]. *)
Definition validate (p : plan) : result plan_error unit :=
  if MAX_OBJECT_COUNT <? zlen (p_regions p) then Err PE_ObjectLimit
  else
    let blob := bool_decide (p_planner p = BlobV1) in
    if blob && (1 <? zlen (p_regions p)) then Err PE_InvalidCoverage
    else if p_file_size p =? 0 then
      if bool_decide (p_regions p = []) then Ok tt else Err PE_InvalidCoverage
    else
      let? expected_offset := for_each (coverage_step blob) 0 (p_regions p) in
      if negb (expected_offset =? p_file_size p) then Err PE_InvalidCoverage else Ok tt.

(** [blob_plan]. *)
Definition blob_plan (file_size : Z) : plan :=
  Plan BlobV1 StampNone file_size
    (if file_size =? 0 then [] else [Region 0 file_size RK_Blob]).

Section append.
Context `{Allocator}.

(** The [while remaining > 0] loop of [append_split_region]; the fuel is the
    number of parts, which the loop cannot exceed. *)
Fixpoint split_loop (fuel : nat) (cursor remaining : Z) (kind : region_kind) : list region :=
  match fuel with
  | O => []
  | S fuel =>
      if 0 <? remaining then
        let part := Z.min remaining MAX_OBJECT_SIZE in
        Region cursor part kind
          :: split_loop fuel (wadd cursor part) (wsub remaining part) kind
      else []
  end.

(** [append_split_region]. *)
Definition append_split_region (regions : list region) (offset length : Z)
    (kind : region_kind) : result plan_error (list region) :=
  let object_count := if length =? 0 then 0 else div_ceil length MAX_OBJECT_SIZE in
  let! new_count := (let* count := checked_add (zlen regions) object_count in
                     if count <=? MAX_OBJECT_COUNT then Some count else None)
                    ?: PE_ObjectLimit in
  if negb (try_reserve (wsub new_count (zlen regions))) then Err PE_ResourceExhausted
  else Ok (regions ++ split_loop (Z.to_nat object_count) offset length kind).

(** The loop over the seams in [append_tensor_regions]; the state is the
    region list and the cursor. *)
Definition seam_step (offset length : Z) (kind : region_kind) (st : list region * Z)
    (seam : Z) : result plan_error (list region * Z) :=
  let '(regions, cursor) := st in
  if (seam <=? cursor) || (length <=? seam) then Err PE_InvalidCoverage
  else
    let? regions := append_split_region regions (wadd offset cursor) (wsub seam cursor) kind in
    Ok (regions, seam).

(** [append_tensor_regions]. *)
Definition append_tensor_regions (regions : list region) (offset length : Z)
    (seams : list Z) (kind : region_kind) : result plan_error (list region) :=
  let? (regions, cursor) := for_each (seam_step offset length kind) (regions, 0) seams in
  append_split_region regions (wadd offset cursor) (wsub length cursor) kind.

(** ** What the grid is *)

(** The part lengths of a tensor of [length] bytes on the grid. *)
Definition grid (length : Z) : list Z :=
  (fun k => Z.min (length - MAX_OBJECT_SIZE * Z.of_nat k) MAX_OBJECT_SIZE)
    <$> seq 0 (Z.to_nat (div_ceil length MAX_OBJECT_SIZE)).

(** Regions laid out back to back from [offset]. *)
Fixpoint lay (offset : Z) (kind : region_kind) (lengths : list Z) : list region :=
  match lengths with
  | [] => []
  | n :: lengths => Region offset n kind :: lay (offset + n) kind lengths
  end.

(** The regions cover exactly [start, stop), in order and without a gap, each
    of them non-empty and at most [cap]. *)
Fixpoint tiles (cap start stop : Z) (regions : list region) : Prop :=
  match regions with
  | [] => start = stop
  | r :: regions =>
      r_offset r = start /\ 0 < r_length r <= cap /\ tiles cap (start + r_length r) stop regions
  end.

Lemma tiles_app cap a b c l k : tiles cap a b l -> tiles cap b c k -> tiles cap a c (l ++ k).
Proof.
  revert a. induction l as [|r l IH]; simpl; intros a; [by intros ->|].
  intros (? & ? & Hl) Hk. eauto.
Qed.

Lemma tiles_le cap a b l : tiles cap a b l -> a <= b.
Proof.
  revert a. induction l as [|r l IH]; simpl; intros a; [lia|].
  intros (_ & ? & Hl). apply IH in Hl. lia.
Qed.

Lemma lay_app offset kind l k :
  lay offset kind (l ++ k) = lay offset kind l ++ lay (offset + sumZ l) kind k.
Proof.
  revert offset. induction l as [|n l IH]; intros offset; simpl; [by rewrite Z.add_0_r|].
  rewrite IH. do 3 f_equal. lia.
Qed.

Lemma lay_tiles cap offset kind l :
  Forall (fun n => 0 < n <= cap) l -> tiles cap offset (offset + sumZ l) (lay offset kind l).
Proof.
  intros Hf. revert offset. induction Hf as [|n l Hn Hf IH]; intros offset; simpl; [lia|].
  split; [done|]. split; [done|]. rewrite Z.add_assoc. apply IH.
Qed.

Lemma zlen_lay offset kind l : zlen (lay offset kind l) = zlen l.
Proof.
  revert offset. induction l as [|n l IH]; intros offset; [done|]. simpl.
  by rewrite !zlen_cons, IH.
Qed.

(** The grid, one part at a time. *)
Lemma grid_step length :
  0 < length -> grid length =
  Z.min length MAX_OBJECT_SIZE :: grid (length - Z.min length MAX_OBJECT_SIZE).
Proof.
  intros Hl. unfold grid. pose proof (div_ceil_spec length MAX_OBJECT_SIZE ltac:(done)) as Hd.
  assert (0 < MAX_OBJECT_SIZE) as HM by done.
  destruct (Z.le_gt_cases length MAX_OBJECT_SIZE) as [Hs|Hs].
  - rewrite Z.min_l by done. rewrite Z.sub_diag.
    assert (div_ceil length MAX_OBJECT_SIZE = 1) as -> by nia. simpl. f_equal. lia.
  - rewrite Z.min_r by lia.
    pose proof (div_ceil_spec (length - MAX_OBJECT_SIZE) MAX_OBJECT_SIZE HM) as Hd'.
    assert (div_ceil length MAX_OBJECT_SIZE =
      1 + div_ceil (length - MAX_OBJECT_SIZE) MAX_OBJECT_SIZE) as -> by nia.
    rewrite Z2Nat.inj_add by nia. change (Z.to_nat 1 + ?n)%nat with (S n).
    cbn [seq]. rewrite fmap_cons, <-fmap_S_seq, <-list_fmap_compose. f_equal; [lia|].
    apply list_fmap_ext. intros i k _. simpl. f_equal. lia.
Qed.

Lemma grid_nil : grid 0 = [].
Proof. done. Qed.

Lemma zlen_grid length : 0 <= length -> zlen (grid length) =
  if length =? 0 then 0 else div_ceil length MAX_OBJECT_SIZE.
Proof.
  intros Hl. unfold grid. rewrite zlen_fmap. unfold zlen. rewrite length_seq.
  pose proof (div_ceil_spec length MAX_OBJECT_SIZE ltac:(done)).
  destruct (Z.eqb_spec length 0) as [->|]; [done|].
  rewrite Z2Nat.id; [done|]. unfold MAX_OBJECT_SIZE in *. nia.
Qed.

(** The grid of a tensor is a partition of its length into parts of at most
    64 MiB, of which only the last is short. *)
Lemma grid_spec length :
  0 <= length -> sumZ (grid length) = length /\
  Forall (fun n => 0 < n <= MAX_OBJECT_SIZE) (grid length).
Proof.
  assert (0 < MAX_OBJECT_SIZE) as HM by done.
  intros Hl. revert Hl.
  induction (Z.lt_wf 0 length) as [n _ IH]. intros Hn.
  destruct (Z.eq_dec n 0) as [->|Hne]; [by split; [|constructor]|].
  rewrite grid_step by lia.
  destruct (IH (n - Z.min n MAX_OBJECT_SIZE)) as [Hs Hf]; [lia..|]. simpl.
  split; [lia|]. constructor; [lia|done].
Qed.

(** The loop is the grid. *)
Lemma split_loop_grid fuel cursor remaining kind :
  0 <= cursor -> 0 <= remaining -> cursor + remaining < U64 ->
  zlen (grid remaining) <= Z.of_nat fuel ->
  split_loop fuel cursor remaining kind = lay cursor kind (grid remaining).
Proof.
  assert (0 < MAX_OBJECT_SIZE) as HM by done.
  revert cursor remaining. induction fuel as [|fuel IH]; intros cursor n Hc Hn Hlt Hf.
  - destruct (grid n) eqn:E; [done|]. rewrite zlen_cons in Hf. pose proof (zlen_nonneg l). lia.
  - cbn [split_loop]. destruct (Z.ltb_spec 0 n) as [Hpos|Hz].
    + rewrite grid_step in * by done. cbn [lay]. rewrite zlen_cons in Hf.
      rewrite wadd_small, wsub_small, IH by lia. done.
    + replace n with 0 by lia. done.
Qed.

Lemma append_split_region_Ok regions offset length kind regions' :
  0 <= offset -> 0 <= length -> offset + length < U64 ->
  append_split_region regions offset length kind = Ok regions' ->
  regions' = regions ++ lay offset kind (grid length) /\ zlen regions' <= MAX_OBJECT_COUNT.
Proof.
  intros Ho Hl Hlt Happ. unfold append_split_region in Happ.
  rewrite <-zlen_grid in Happ by done. pose proof (zlen_nonneg (grid length)).
  destruct (checked_add _ _) as [c|] eqn:Ec; [|done]. apply checked_add_Some in Ec as [-> _].
  destruct (Z.leb_spec (zlen regions + zlen (grid length)) MAX_OBJECT_COUNT); [|done].
  destruct (try_reserve _); [|done]. injection Happ as <-.
  rewrite split_loop_grid by lia. split; [done|]. rewrite zlen_app, zlen_lay. lia.
Qed.

Lemma append_split_region_total regions offset length kind :
  0 <= offset -> 0 <= length -> offset + length < U64 ->
  zlen regions + zlen (grid length) <= MAX_OBJECT_COUNT -> memory_for MAX_OBJECT_COUNT ->
  append_split_region regions offset length kind =
  Ok (regions ++ lay offset kind (grid length)).
Proof.
  intros Ho Hl Hlt Hc Hm. unfold append_split_region. rewrite <-zlen_grid by done.
  pose proof (zlen_nonneg (grid length)). pose proof (zlen_nonneg regions).
  assert (MAX_OBJECT_COUNT < U64) by done.
  rewrite (proj2 (checked_add_Some _ _ (zlen regions + zlen (grid length)))) by lia.
  replace (_ <=? MAX_OBJECT_COUNT) with true by lia.
  rewrite Hm by (rewrite wsub_small by lia; lia). simpl.
  by rewrite split_loop_grid by lia.
Qed.

(** ** Seams *)

(** Strictly increasing cut points inside the tensor. *)
Fixpoint seams_ok (cursor length : Z) (seams : list Z) : Prop :=
  match seams with
  | [] => cursor <= length
  | s :: seams => cursor < s < length /\ seams_ok s length seams
  end.

(** The lengths between the cut points. *)
Fixpoint cuts (cursor length : Z) (seams : list Z) : list Z :=
  match seams with
  | [] => [length - cursor]
  | s :: seams => (s - cursor) :: cuts s length seams
  end.

Lemma cuts_spec cursor length seams :
  seams_ok cursor length seams ->
  sumZ (cuts cursor length seams) = length - cursor /\
  Forall (fun n => 0 <= n) (cuts cursor length seams).
Proof.
  revert cursor. induction seams as [|s seams IH]; intros cursor; simpl.
  - intros. split; [lia|]. constructor; [lia|constructor].
  - intros [Hs Hrest]. destruct (IH s Hrest) as [Hsum Hf]. split; [lia|].
    constructor; [lia|done].
Qed.

Lemma cuts_grid_spec cursor length seams :
  seams_ok cursor length seams ->
  sumZ (cuts cursor length seams ≫= grid) = length - cursor /\
  Forall (fun n => 0 < n <= MAX_OBJECT_SIZE) (cuts cursor length seams ≫= grid).
Proof.
  intros Hs. destruct (cuts_spec _ _ _ Hs) as [<- Hf]. clear Hs.
  induction Hf as [|n l Hn Hf [IHs IHf]]; [by split; [|constructor]|].
  rewrite bind_cons, sumZ_app, Forall_app. destruct (grid_spec n Hn) as [-> ?].
  simpl. split; [lia|done].
Qed.

(** The cut is the concatenation of the parts' own grids. *)
Lemma append_tensor_regions_Ok regions offset length seams kind regions' :
  0 <= offset -> 0 <= length -> offset + length < U64 ->
  append_tensor_regions regions offset length seams kind = Ok regions' ->
  seams_ok 0 length seams /\
  regions' = regions ++ lay offset kind (cuts 0 length seams ≫= grid) /\
  (zlen regions' <= MAX_OBJECT_COUNT).
Proof.
  intros Ho Hl Hlt. unfold append_tensor_regions.
  assert (forall seams regions cursor, 0 <= cursor <= length ->
    (let? (regions, cursor) := for_each (seam_step offset length kind) (regions, cursor) seams in
     append_split_region regions (wadd offset cursor) (wsub length cursor) kind) = Ok regions' ->
    seams_ok cursor length seams /\
    regions' = regions ++ lay (offset + cursor) kind (cuts cursor length seams ≫= grid) /\
    zlen regions' <= MAX_OBJECT_COUNT) as Haux.
  { clear seams regions. induction seams as [|s seams IH]; intros regions cursor Hc; simpl.
    - rewrite wadd_small, wsub_small by lia. intros Happ.
      apply append_split_region_Ok in Happ as [-> ?]; [|lia..]. split; [lia|].
      by rewrite app_nil_r.
    - destruct (Z.leb_spec s cursor); [done|]. destruct (Z.leb_spec length s); [done|].
      simpl. rewrite wadd_small, wsub_small by lia.
      destruct (append_split_region _ _ _ _) as [regions1|] eqn:E1; [|done]. intros Hrest.
      apply append_split_region_Ok in E1 as [-> _]; [|lia..].
      apply IH in Hrest as (Hs & -> & ?); [|lia]. split; [split; [lia|done]|]. split; [|done].
      rewrite ?bind_cons, lay_app, app_assoc. do 2 f_equal.
      destruct (grid_spec (s - cursor)) as [-> _]; lia. }
  intros Happ. apply Haux in Happ as (? & ? & ?); [|lia]. by rewrite Z.add_0_r in *.
Qed.

Lemma append_tensor_regions_total regions offset length seams kind :
  0 <= offset -> 0 <= length -> offset + length < U64 -> seams_ok 0 length seams ->
  zlen regions + zlen (cuts 0 length seams ≫= grid) <= MAX_OBJECT_COUNT ->
  memory_for MAX_OBJECT_COUNT ->
  append_tensor_regions regions offset length seams kind =
  Ok (regions ++ lay offset kind (cuts 0 length seams ≫= grid)).
Proof.
  intros Ho Hl Hlt Hs Hc Hm. unfold append_tensor_regions.
  assert (forall seams regions cursor, 0 <= cursor <= length -> seams_ok cursor length seams ->
    zlen regions + zlen (cuts cursor length seams ≫= grid) <= MAX_OBJECT_COUNT ->
    (let? (regions, cursor) := for_each (seam_step offset length kind) (regions, cursor) seams in
     append_split_region regions (wadd offset cursor) (wsub length cursor) kind) =
    Ok (regions ++ lay (offset + cursor) kind (cuts cursor length seams ≫= grid))) as Haux.
  { clear seams regions Hs Hc. induction seams as [|s seams IH]; intros regions cursor Hcur Hs Hc.
    - simpl in *. rewrite app_nil_r in *. rewrite wadd_small, wsub_small by lia.
      by rewrite append_split_region_total by (done || lia).
    - destruct Hs as [Hs Hrest]. cbn [cuts] in *. rewrite bind_cons, zlen_app in Hc.
      pose proof (zlen_nonneg (cuts s length seams ≫= grid)).
      cbn [for_each seam_step].
      replace ((s <=? cursor) || (length <=? s)) with false by lia.
      rewrite wadd_small, wsub_small by lia.
      rewrite append_split_region_total by (done || lia).
      rewrite IH; [|lia|done|rewrite zlen_app, zlen_lay; lia].
      rewrite bind_cons, lay_app, app_assoc. do 3 f_equal.
      destruct (grid_spec (s - cursor)) as [-> _]; lia. }
  rewrite Haux by (done || lia). by rewrite Z.add_0_r.
Qed.

(** ** Coverage *)

Definition plan_cap (p : plan) : Z :=
  if bool_decide (p_planner p = BlobV1) then U64 - 1 else MAX_OBJECT_SIZE.

(** What a valid plan is: a bounded number of non-empty regions that tile the
    file, at most 64 MiB each, or one region of any size for a blob. *)
Record wf_plan (p : plan) : Prop := {
  wfp_count : zlen (p_regions p) <= MAX_OBJECT_COUNT;
  wfp_blob : p_planner p = BlobV1 -> zlen (p_regions p) <= 1;
  wfp_tiles : tiles (plan_cap p) 0 (p_file_size p) (p_regions p)
}.

Lemma coverage_loop_iff blob start regions stop :
  0 <= start < U64 -> Forall (fun r => 0 <= r_length r < U64) regions ->
  for_each (coverage_step blob) start regions = Ok stop <->
  tiles (if blob then U64 - 1 else MAX_OBJECT_SIZE) start stop regions /\ stop < U64.
Proof.
  assert (MAX_OBJECT_SIZE < U64) by done.
  revert start. induction regions as [|r regions IH]; intros start Hst Hf; simpl.
  { split; [intros [= <-]; lia|]. by intros [-> _]. }
  apply Forall_cons in Hf as [Hr Hf]. unfold coverage_step at 1.
  destruct (negb (r_offset r =? start) || _ || _) eqn:Eg.
  { split; [done|]. intros [(Ho & Hl & _) _]. exfalso. destruct blob; simpl in *; lia. }
  destruct (checked_add start (r_length r)) as [next|] eqn:Ea.
  - apply checked_add_Some in Ea as [-> Ha]. rewrite IH by (done || lia).
    split; [|naive_solver]. intros [Ht ?]. split; [|done].
    split; [lia|]. split; [|done]. destruct blob; simpl in *; lia.
  - apply checked_add_None in Ea. split; [done|]. intros [(_ & _ & Ht) ?].
    apply tiles_le in Ht. lia.
Qed.

Lemma validate_iff p :
  0 <= p_file_size p < U64 -> Forall (fun r => 0 <= r_length r < U64) (p_regions p) ->
  validate p = Ok tt <-> wf_plan p.
Proof.
  intros Hsz Hf. unfold validate.
  destruct (Z.ltb_spec MAX_OBJECT_COUNT (zlen (p_regions p))) as [Hc|Hc].
  { split; [done|]. intros [? _ _]. lia. }
  destruct (bool_decide (p_planner p = BlobV1) && (1 <? zlen (p_regions p))) eqn:Eb.
  { apply andb_true_iff in Eb as [Eb%bool_decide_eq_true E1%Z.ltb_lt].
    split; [done|]. intros [_ Hb _]. specialize (Hb Eb). lia. }
  assert (p_planner p = BlobV1 -> zlen (p_regions p) <= 1) as Hblob.
  { intros Hb. rewrite bool_decide_eq_true_2 in Eb by done. simpl in Eb.
    by apply Z.ltb_ge in Eb. }
  assert (validate_tail : tiles (plan_cap p) 0 (p_file_size p) (p_regions p) <-> wf_plan p).
  { split; [by constructor|]. by intros []. }
  rewrite <-validate_tail.
  destruct (Z.eqb_spec (p_file_size p) 0) as [Hz|Hz].
  - rewrite Hz. destruct (p_regions p) as [|r l]; simpl; [done|]. split; [done|].
    intros (_ & Hr & Ht). apply tiles_le in Ht. lia.
  - assert (tiles (plan_cap p) 0 (p_file_size p) (p_regions p) <->
      for_each (coverage_step (bool_decide (p_planner p = BlobV1))) 0 (p_regions p)
      = Ok (p_file_size p)) as ->.
    { rewrite coverage_loop_iff by done. unfold plan_cap. split; [|naive_solver].
      split; [done|lia]. }
    destruct (for_each _ 0 (p_regions p)) as [stop|]; [|done].
    destruct (Z.eqb_spec stop (p_file_size p)); simpl; naive_solver.
Qed.

(** The seams cut a tensor into consecutive tilings. *)
Lemma cuts_tiles offset kind cursor length seams :
  seams_ok cursor length seams ->
  tiles MAX_OBJECT_SIZE (offset + cursor) (offset + length)
    (lay (offset + cursor) kind (cuts cursor length seams ≫= grid)).
Proof.
  intros Hss. destruct (cuts_grid_spec _ _ _ Hss) as [Hsum Hf].
  replace (offset + length) with (offset + cursor + sumZ (cuts cursor length seams ≫= grid)) by lia.
  by apply lay_tiles.
Qed.

(** Every seam is a boundary of the cut. *)
Lemma cuts_boundaries offset kind cursor length seams :
  seams_ok cursor length seams -> Forall (fun seam =>
    exists before after, lay (offset + cursor) kind (cuts cursor length seams ≫= grid)
      = before ++ after /\
      tiles MAX_OBJECT_SIZE (offset + cursor) (offset + seam) before /\
      tiles MAX_OBJECT_SIZE (offset + seam) (offset + length) after) seams.
Proof.
  revert cursor. induction seams as [|s ss IH]; intros cursor Hss; [constructor|].
  destruct Hss as [Hr Hss]. cbn [cuts]. rewrite bind_cons, lay_app.
  destruct (grid_spec (s - cursor)) as [Hg Hgf]; [lia|]. rewrite Hg.
  replace (offset + cursor + (s - cursor)) with (offset + s) by lia.
  assert (tiles MAX_OBJECT_SIZE (offset + cursor) (offset + s)
    (lay (offset + cursor) kind (grid (s - cursor)))) as Hfirst.
  { replace (offset + s) with (offset + cursor + sumZ (grid (s - cursor))) by lia.
    by apply lay_tiles. }
  constructor; [by eexists _, _; split; [|split; [|by apply cuts_tiles]]|].
  eapply Forall_impl; [by apply (IH s)|]. simpl.
  intros seam (before & after & -> & Hb & Ha).
  eexists (_ ++ before), after. rewrite <-app_assoc. split; [done|]. split; [|done].
  by eapply tiles_app.
Qed.

(** Regions of one kind that tile a range. *)
Definition covers (kind : region_kind) (start stop : Z) (regions : list region) : Prop :=
  tiles MAX_OBJECT_SIZE start stop regions /\ Forall (fun r => r_kind r = kind) regions.

Lemma lay_kind offset kind l : Forall (fun r => r_kind r = kind) (lay offset kind l).
Proof. revert offset. induction l; intros offset; simpl; constructor; auto. Qed.

Lemma append_split_covers regions offset length kind regions' :
  0 <= offset -> 0 <= length -> offset + length < U64 ->
  append_split_region regions offset length kind = Ok regions' ->
  exists new, regions' = regions ++ new /\ covers kind offset (offset + length) new /\
    zlen regions' <= MAX_OBJECT_COUNT.
Proof.
  intros Ho Hl Hlt Happ. apply append_split_region_Ok in Happ as [-> Hc]; [|done..].
  eexists. split; [done|]. split; [|done]. split; [|apply lay_kind].
  destruct (grid_spec length Hl) as [Hs Hf]. rewrite <-Hs at 1. by apply lay_tiles.
Qed.

Lemma append_tensor_covers regions offset length seams kind regions' :
  0 <= offset -> 0 <= length -> offset + length < U64 ->
  append_tensor_regions regions offset length seams kind = Ok regions' ->
  regions' = regions ++ lay offset kind (cuts 0 length seams ≫= grid) /\
  seams_ok 0 length seams /\ zlen regions' <= MAX_OBJECT_COUNT /\
  covers kind offset (offset + length) (lay offset kind (cuts 0 length seams ≫= grid)).
Proof.
  intros Ho Hl Hlt Happ. apply append_tensor_regions_Ok in Happ as (Hs & -> & Hc); [|done..].
  split; [done|]. split; [done|]. split; [done|]. split; [|apply lay_kind].
  pose proof (cuts_tiles offset kind 0 length seams Hs) as Ht. by rewrite Z.add_0_r in Ht.
Qed.

(** With memory, the grid refuses only a plan of too many objects. *)
Lemma append_split_region_Err regions offset length kind e :
  append_split_region regions offset length kind = Err e ->
  e = PE_ObjectLimit \/ e = PE_ResourceExhausted /\ exists k, try_reserve k = false.
Proof.
  unfold append_split_region. intros He. repeat case_match; simplify_eq; auto;
    right; (split; [done|]); eexists; by apply negb_true_iff.
Qed.

(** A cut fails for the object bound, or for seams that are not inside. *)
Lemma append_tensor_regions_Err regions offset length seams kind e :
  (forall k, try_reserve k = true) ->
  append_tensor_regions regions offset length seams kind = Err e ->
  e = PE_ObjectLimit \/ e = PE_InvalidCoverage /\ ~ seams_ok 0 length seams.
Proof.
  intros Hm. unfold append_tensor_regions. generalize 0 as cursor. revert regions.
  assert (forall regions offset length e,
    append_split_region regions offset length kind = Err e -> e = PE_ObjectLimit) as Hsplit.
  { intros rs o n e' [->|[_ [k Hk]]]%append_split_region_Err; [done|congruence]. }
  induction seams as [|s seams IH]; intros regions cursor; simpl; [by eauto|].
  destruct (_ || _) eqn:Eg; [intros [= <-]; right; split; [done|]; lia|].
  destruct (append_split_region _ _ _ _) as [rs|e1] eqn:E1; [|intros [= <-]; eauto].
  intros [->|[-> Hs]]%IH; [by left|]. right. split; [done|]. tauto.
Qed.

(** The bytes [start, start + length) are a run of tensor regions of their own:
    the tensor's grid, part by part between the seams. *)
Definition isolated (regions : list region) (stop start length : Z) (seams : list Z) : Prop :=
  exists before after,
    regions = before ++ lay start RK_Tensor (cuts 0 length seams ≫= grid) ++ after /\
    seams_ok 0 length seams /\ tiles MAX_OBJECT_SIZE 0 start before /\
    tiles MAX_OBJECT_SIZE (start + length) stop after.

Lemma isolated_app regions new stop stop' start length seams :
  isolated regions stop start length seams -> tiles MAX_OBJECT_SIZE stop stop' new ->
  isolated (regions ++ new) stop' start length seams.
Proof.
  intros (before & after & -> & Hs & Hb & Ha) Hn.
  exists before, (after ++ new). rewrite <-!app_assoc. split_and!; try done.
  by eapply tiles_app.
Qed.

Lemma tiles_lengths cap start stop regions :
  cap < U64 -> tiles cap start stop regions -> Forall (fun r => 0 <= r_length r < U64) regions.
Proof.
  intros Hc. revert start. induction regions as [|r regions IH]; intros start; [constructor|].
  intros (_ & Hr & Ht). constructor; [lia|by eapply IH].
Qed.

(** A plan of the right shape passes the check. *)
Lemma validate_wf p : 0 <= p_file_size p < U64 -> wf_plan p -> validate p = Ok tt.
Proof.
  intros Hsz Hwf. apply validate_iff; [done| |done]. eapply (tiles_lengths (plan_cap p)); [|apply Hwf].
  unfold plan_cap. by case_bool_decide.
Qed.

Lemma blob_plan_wf n : 0 <= n < U64 -> wf_plan (blob_plan n).
Proof.
  intros Hn. unfold blob_plan. constructor; simpl; destruct (Z.eqb_spec n 0) as [->|];
    unfold plan_cap, MAX_OBJECT_COUNT; simpl; unfold zlen; simpl; try lia.
Qed.

(** ** The properties *)

(** [Plan::validate] accepts exactly the plans whose regions tile the file:
    first byte to last, in order, no gap and no overlap, each region non-empty
    and at most 64 MiB (one region of any size for a blob), within the object
    bound. *)
Theorem validate_coverage p :
  0 <= p_file_size p < U64 -> Forall (fun r => 0 <= r_length r < U64) (p_regions p) ->
  validate p = Ok tt <-> wf_plan p.
Proof. apply validate_iff. Qed.

(** Cutting one tensor is exact: when [append_tensor_regions] succeeds it
    only appends, the seams were strictly increasing inside the tensor, the new
    regions tile the tensor's extent with parts of at most 64 MiB, and every
    seam is a region boundary. *)
Theorem tensor_regions_tile regions offset length seams kind regions' :
  0 <= offset -> 0 <= length -> offset + length < U64 ->
  append_tensor_regions regions offset length seams kind = Ok regions' ->
  exists new, regions' = regions ++ new /\ seams_ok 0 length seams /\
    tiles MAX_OBJECT_SIZE offset (offset + length) new /\
    Forall (fun seam => exists before after, new = before ++ after /\
      tiles MAX_OBJECT_SIZE offset (offset + seam) before /\
      tiles MAX_OBJECT_SIZE (offset + seam) (offset + length) after) seams.
Proof.
  intros Ho Hl Hlt Happ.
  apply append_tensor_regions_Ok in Happ as (Hs & -> & _); [|done..].
  exists (lay offset kind (cuts 0 length seams ≫= grid)). split; [done|]. split; [done|].
  pose proof (cuts_tiles offset kind 0 length seams Hs) as Ht.
  pose proof (cuts_boundaries offset kind 0 length seams Hs) as Hb.
  by rewrite Z.add_0_r in Ht, Hb.
Qed.

(** *** Objects *)

(** The bytes a region covers. *)
Definition region_bytes (file : list byte) (r : region) : list byte :=
  slice file (r_offset r) (r_offset r + r_length r).

(** The objects of one tensor standing alone: its bytes cut on the grid. *)
Fixpoint chop (lengths : list Z) (bytes : list byte) : list (list byte) :=
  match lengths with
  | [] => []
  | n :: lengths => take (Z.to_nat n) bytes :: chop lengths (drop (Z.to_nat n) bytes)
  end.
Definition tensor_objects (bytes : list byte) : list (list byte) :=
  chop (grid (zlen bytes)) bytes.

(** The cut points between consecutive runs of the given lengths. *)
Fixpoint run_seams (cursor : Z) (lengths : list Z) : list Z :=
  match lengths with
  | [] => []
  | n :: tl =>
      match tl with
      | [] => []
      | _ => (cursor + n) :: run_seams (cursor + n) tl
      end
  end.

Lemma lay_chop before kind lengths bytes after :
  Forall (fun n => 0 <= n) lengths -> sumZ lengths = zlen bytes ->
  region_bytes (before ++ bytes ++ after) <$> lay (zlen before) kind lengths = chop lengths bytes.
Proof.
  intros Hf. revert before bytes. induction Hf as [|n l Hn Hf IH]; intros before bytes Hsum; [done|].
  pose proof (sumZ_nonneg l Hf) as Hpos.
  change (sumZ (n :: l)) with (n + sumZ l) in Hsum. cbn [lay chop]. rewrite fmap_cons.
  set (b := take (Z.to_nat n) bytes). set (tl := drop (Z.to_nat n) bytes).
  assert (bytes = b ++ tl) as Hsplit by (symmetry; apply take_drop).
  assert (zlen b = n) as Hb.
  { unfold b, zlen in *. rewrite length_take. lia. }
  rewrite Hsplit, <-app_assoc. f_equal.
  - unfold region_bytes. cbn [r_offset r_length]. rewrite <-Hb. apply slice_middle.
  - rewrite <-Hb, <-zlen_app.
    replace (before ++ b ++ tl ++ after) with ((before ++ b) ++ tl ++ after)
      by by rewrite <-app_assoc.
    apply IH. rewrite Hsplit, zlen_app in Hsum. lia.
Qed.

Lemma mjoin_chop lengths bytes :
  Forall (fun n => 0 <= n) lengths -> sumZ lengths = zlen bytes -> mjoin (chop lengths bytes) = bytes.
Proof.
  intros Hf. revert bytes. induction Hf as [|n l Hn Hf IH]; intros bytes Hsum.
  { destruct bytes; [done|]. simpl in Hsum. rewrite zlen_cons in Hsum.
    pose proof (zlen_nonneg bytes). lia. }
  change (take (Z.to_nat n) bytes ++ mjoin (chop l (drop (Z.to_nat n) bytes)) = bytes).
  pose proof (sumZ_nonneg l Hf) as Hpos. change (n + sumZ l = zlen bytes) in Hsum.
  rewrite IH; [apply take_drop|]. unfold zlen in *. rewrite length_drop. lia.
Qed.

Lemma chop_app l k x y :
  Forall (fun n => 0 <= n) l -> sumZ l = zlen x ->
  chop (l ++ k) (x ++ y) = chop l x ++ chop k y.
Proof.
  intros Hf. revert x. induction Hf as [|n l Hn Hf IH]; intros x Hsum; simpl in *.
  { destruct x; [done|]. rewrite zlen_cons in Hsum. pose proof (zlen_nonneg x). lia. }
  pose proof (sumZ_nonneg l Hf) as Hpos.
  assert (Z.to_nat n <= length x)%nat by (unfold zlen, sumZ in *; lia).
  rewrite take_app_le, drop_app_le by done. f_equal. apply IH.
  unfold zlen, sumZ in *. rewrite length_drop. lia.
Qed.

Lemma sumZ_pos l : Forall (fun n => 0 < n) l -> 0 <= sumZ l.
Proof. induction 1; simpl; lia. Qed.

(** The seams between runs cut the whole back into the runs. *)
Lemma run_seams_ok cursor lengths :
  lengths <> [] -> Forall (fun n => 0 < n) lengths ->
  seams_ok cursor (cursor + sumZ lengths) (run_seams cursor lengths) /\
  cuts cursor (cursor + sumZ lengths) (run_seams cursor lengths) = lengths.
Proof.
  intros Hne Hf. revert cursor. induction Hf as [|n l Hn Hf IH]; intros cursor; [done|].
  destruct l as [|m l].
  - simpl. split; [lia|]. f_equal. lia.
  - change (run_seams cursor (n :: m :: l))
      with ((cursor + n) :: run_seams (cursor + n) (m :: l)).
    change (sumZ (n :: m :: l)) with (n + sumZ (m :: l)).
    destruct (IH ltac:(done) (cursor + n)) as [Hs Hc]. rewrite Z.add_assoc.
    pose proof (sumZ_pos l ltac:(by inversion Hf)). inversion Hf; subst.
    cbn [seams_ok cuts]. rewrite Hc. split; [split; [simpl; lia|done]|]. f_equal. lia.
Qed.

Lemma chop_parts parts :
  chop ((zlen <$> parts) ≫= grid) (mjoin parts) = parts ≫= tensor_objects.
Proof.
  induction parts as [|part parts IH]; [done|].
  rewrite fmap_cons, !bind_cons. change (mjoin (part :: parts)) with (part ++ mjoin parts).
  destruct (grid_spec (zlen part) (zlen_nonneg part)) as [Hs Hf].
  rewrite chop_app, IH; [done| |done]. eapply Forall_impl; [exact Hf|]. simpl. lia.
Qed.

(** Deduplication across packagings.  When a fused tensor is the
    concatenation of parts and is cut at the boundaries between them, its
    objects are exactly the objects the parts have as tensors of their own, in
    order and wherever the fused tensor lies in its file. *)
Theorem fused_objects_are_split_objects before parts after kind new :
  parts <> [] -> Forall (fun part => part <> []) parts ->
  zlen (before ++ mjoin parts ++ after) < U64 ->
  append_tensor_regions [] (zlen before) (zlen (mjoin parts))
    (run_seams 0 (zlen <$> parts)) kind = Ok new ->
  region_bytes (before ++ mjoin parts ++ after) <$> new = parts ≫= tensor_objects.
Proof.
  intros Hne Hparts Hlt Happ. rewrite !zlen_app in Hlt.
  pose proof (zlen_nonneg before). pose proof (zlen_nonneg after).
  pose proof (zlen_nonneg (mjoin parts)).
  apply append_tensor_regions_Ok in Happ as (Hs & -> & _); [|lia..].
  assert (sumZ (zlen <$> parts) = zlen (mjoin parts)) as Hsum.
  { clear. induction parts as [|part parts IH]; [done|].
    change (mjoin (part :: parts)) with (part ++ mjoin parts). rewrite zlen_app, <-IH. done. }
  destruct (run_seams_ok 0 (zlen <$> parts)) as [_ Hcuts].
  { by destruct parts. }
  { rewrite Forall_fmap. eapply Forall_impl; [exact Hparts|]. simpl. intros part Hp.
    destruct part; [done|]. rewrite zlen_cons. pose proof (zlen_nonneg part). lia. }
  rewrite Z.add_0_l, Hsum in Hcuts.
  destruct (cuts_grid_spec _ _ _ Hs) as [Hgs Hgf]. rewrite Hcuts in *.
  rewrite app_nil_l, lay_chop; [apply chop_parts| |lia].
  eapply Forall_impl; [exact Hgf|]. simpl. lia.
Qed.
End append.

Lemma validate_coverage_witness :
  validate (blob_plan (5 * MAX_OBJECT_SIZE)) = Ok tt <-> wf_plan (blob_plan (5 * MAX_OBJECT_SIZE)).
Proof.
  apply (validate_coverage (blob_plan (5 * MAX_OBJECT_SIZE))).
  - split; [vm_compute; discriminate | vm_compute; reflexivity].
  - constructor; [|constructor]. split; [vm_compute; discriminate | vm_compute; reflexivity].
Defined.

(** A tensor of 150 MiB at offset 7 with a seam at 100 MiB. *)
Lemma tensor_regions_tile_witness :
  exists new,
    [Region 7 67108864 RK_Tensor; Region 67108871 37748736 RK_Tensor;
     Region 104857607 52428800 RK_Tensor] = [] ++ new /\
    seams_ok 0 157286400 [104857600] /\
    tiles MAX_OBJECT_SIZE 7 (7 + 157286400) new /\
    Forall (fun seam => exists before after, new = before ++ after /\
      tiles MAX_OBJECT_SIZE 7 (7 + seam) before /\
      tiles MAX_OBJECT_SIZE (7 + seam) (7 + 157286400) after) [104857600].
Proof.
  apply (tensor_regions_tile (H := ample_memory) [] 7 157286400 [104857600] RK_Tensor).
  - lia.
  - lia.
  - vm_compute. reflexivity.
  - vm_compute. reflexivity.
Defined.

Lemma fused_objects_are_split_objects_witness :
  region_bytes (bstr "hh" ++ mjoin [bstr "qq"; bstr "kkk"] ++ bstr "t") <$>
    [Region 2 2 RK_Tensor; Region 4 3 RK_Tensor] =
  [bstr "qq"; bstr "kkk"] ≫= tensor_objects.
Proof.
  apply (fused_objects_are_split_objects (H := ample_memory) (bstr "hh")
    [bstr "qq"; bstr "kkk"] (bstr "t") RK_Tensor).
  - discriminate.
  - repeat constructor; discriminate.
  - vm_compute. reflexivity.
  - vm_compute. reflexivity.
Defined.
