(* ===== verification/Pattern.v ===== *)
(** Tensor-name patterns with integer holes: [Pattern::parse], [captures],
    [matches] and [instantiate]
    ([src/crates/tensorfs-core/src/contract.rs]). *)

From S2P Require Export Stamp.

(** [enum Piece] and [struct Pattern]. *)
Inductive piece : Type :=
| Literal (text : list byte)
| Integer.
Record pattern : Type := MkPattern { pt_pieces : list piece; pt_text : list byte }.

#[export] Instance piece_eq_dec : EqDecision piece.
Proof. solve_decision. Defined.
#[export] Instance pattern_eq_dec : EqDecision pattern.
Proof. solve_decision. Defined.

Definition hole : list byte := bstr "{i}".
Definition open_brace : byte := byte_of 123.
Definition close_brace : byte := byte_of 125.

(** [rest.find("{i}")]: the text before the first hole and the text after it. *)
Fixpoint find_hole (l : list byte) : option (list byte * list byte) :=
  match strip_prefix hole l with
  | Some rest => Some ([], rest)
  | None =>
      match l with
      | [] => None
      | b :: l => let* (before, after) := find_hole l in Some (b :: before, after)
      end
  end.

Definition starts_with_digit (l : list byte) : bool :=
  match l with b :: _ => is_ascii_digit b | [] => false end.

(** The [while !rest.is_empty()] loop of [Pattern::parse]: [None] is running
    out of fuel, [Some None] the malformed return. *)
Fixpoint parse_loop (fuel : nat) (rest : list byte) (pieces : list piece)
  : option (option (list piece)) :=
  match fuel with
  | O => None
  | S fuel =>
      if bool_decide (rest = []) then Some (Some pieces)
      else match find_hole rest with
      | None => Some (Some (pieces ++ [Literal rest]))
      | Some (before, after) =>
          if bool_decide (before = []) && bool_decide (last pieces = Some Integer)
          then Some None
          else
            let pieces := if bool_decide (before = []) then pieces
                          else pieces ++ [Literal before] in
            if starts_with_digit after then Some None
            else parse_loop fuel after (pieces ++ [Integer])
      end
  end.

(** A surviving brace is a hole the parser did not understand. *)
Definition has_brace (p : piece) : bool :=
  match p with
  | Literal text => bool_decide (open_brace ∈ text) || bool_decide (close_brace ∈ text)
  | Integer => false
  end.

(** [Pattern::parse]; every iteration consumes a hole, so the length of the
    text is fuel enough ([parse_loop_total]). *)
Definition Pattern_parse (text : list byte) : result contract_error pattern :=
  if bool_decide (text = []) || (512 <? zlen text) then Err (CE_Pattern text)
  else match parse_loop (S (length text)) text [] with
  | Some (Some pieces) =>
      if existsb has_brace pieces then Err (CE_Pattern text) else Ok (MkPattern pieces text)
  | _ => Err (CE_Pattern text)
  end.

(** [Pattern::holes]. *)
Definition holes (p : pattern) : Z := zlen (filter (fun x => x = Integer) (pt_pieces p)).

(** [rest.split_at(rest.find(non-digit).unwrap_or(rest.len()))]. *)
Fixpoint span_digits (l : list byte) : list byte * list byte :=
  match l with
  | [] => ([], [])
  | b :: tl =>
      if is_ascii_digit b then let '(ds, rest) := span_digits tl in (b :: ds, rest)
      else ([], l)
  end.

Definition capture_step (rest : list byte) (captured : list Z) (p : piece)
  : option (list byte * list Z) :=
  match p with
  | Literal text => let* rest := strip_prefix text rest in Some (rest, captured)
  | Integer =>
      let '(number, tail) := span_digits rest in
      if bool_decide (number = [])
         || ((1 <? zlen number) && bool_decide (head number = Some zero_digit)) then None
      else let* n := parse_u64 number in Some (tail, captured ++ [n])
  end.

Fixpoint capture_loop (rest : list byte) (captured : list Z) (pieces : list piece)
  : option (list byte * list Z) :=
  match pieces with
  | [] => Some (rest, captured)
  | p :: pieces =>
      let* (rest, captured) := capture_step rest captured p in capture_loop rest captured pieces
  end.

(** [Pattern::captures] and [Pattern::matches]. *)
Definition captures (p : pattern) (name : list byte) : option (list Z) :=
  let* (rest, captured) := capture_loop name [] (pt_pieces p) in
  if bool_decide (rest = []) then Some captured else None.
Definition matches (p : pattern) (name : list byte) : bool :=
  match captures p name with Some _ => true | None => false end.

(** The loop of [Pattern::instantiate]. *)
Fixpoint fill (pieces : list piece) (values : list Z) : option (list byte) :=
  match pieces with
  | [] => Some []
  | Literal text :: pieces => let* tl := fill pieces values in Some (text ++ tl)
  | Integer :: pieces =>
      match values with
      | [] => None
      | n :: values => let* tl := fill pieces values in Some (to_dec n ++ tl)
      end
  end.

(** [Pattern::instantiate]. *)
Definition instantiate (p : pattern) (values : list Z) : option (list byte) :=
  if negb (zlen values =? holes p) then None else fill (pt_pieces p) values.

(** ** Parsing *)

Lemma find_hole_Some l before after :
  find_hole l = Some (before, after) -> l = before ++ hole ++ after.
Proof.
  revert before. induction l as [|b l IH]; intros before; cbn [find_hole].
  { by intros Hf. }
  destruct (strip_prefix hole (b :: l)) as [rest|] eqn:E.
  - intros [= <- <-]. by apply strip_prefix_Some in E.
  - destruct (find_hole l) as [[a r]|]; [|done]. intros [= <- <-].
    by rewrite (IH a eq_refl).
Qed.

Definition piece_text (p : piece) : list byte :=
  match p with Literal text => text | Integer => hole end.

(** What [parse] guarantees of the pieces: literals are not empty, and what
    follows a hole is a literal that does not start with a digit. *)
Fixpoint wf_pieces (pieces : list piece) : Prop :=
  match pieces with
  | [] => True
  | Literal text :: tl => text <> [] /\ wf_pieces tl
  | Integer :: tl =>
      wf_pieces tl /\
      match tl with
      | [] => True
      | Literal text :: _ => starts_with_digit text = false
      | Integer :: _ => False
      end
  end.

(** [wf_pieces] of a prefix, given what comes next. *)
Definition joins (pieces : list piece) (next : piece) : Prop :=
  last pieces = Some Integer ->
  match next with Literal text => starts_with_digit text = false | Integer => False end.

Lemma wf_pieces_snoc pieces p :
  wf_pieces pieces -> joins pieces p -> (forall text, p = Literal text -> text <> []) ->
  wf_pieces (pieces ++ [p]).
Proof.
  induction pieces as [|q pieces IH]; intros Hwf Hj Hp.
  { destruct p; simpl; [|done]. split; [by apply Hp|done]. }
  assert (pieces <> [] -> joins pieces p) as Hj'.
  { intros Hne Hlast. apply Hj. rewrite last_cons, Hlast. done. }
  destruct q as [text|]; destruct Hwf as [H1 H2]; simpl.
  - split; [done|]. apply IH; [done| |done].
    destruct pieces; [by intros ?|by apply Hj'].
  - destruct pieces as [|q pieces].
    + simpl. specialize (Hj eq_refl). destruct p as [text|]; [|done].
      split; [split; [by apply Hp|done]|done].
    + split; [apply IH; [done|by apply Hj'|done]|]. by destruct q.
Qed.

Lemma parse_loop_spec fuel rest pieces :
  (length rest < fuel)%nat -> wf_pieces pieces ->
  (last pieces = Some Integer -> starts_with_digit rest = false) ->
  exists r, parse_loop fuel rest pieces = Some r /\
    forall pieces', r = Some pieces' ->
      wf_pieces pieces' /\ pieces' ≫= piece_text = (pieces ≫= piece_text) ++ rest.
Proof.
  revert rest pieces. induction fuel as [|fuel IH]; intros rest pieces Hf Hwf Hlast; [lia|].
  cbn [parse_loop]. case_bool_decide as Hr.
  { eexists. split; [done|]. intros ? [= <-]. subst. by rewrite app_nil_r. }
  destruct (find_hole rest) as [[before after]|] eqn:Eh.
  2: { eexists. split; [done|]. intros ? [= <-]. split.
       - apply wf_pieces_snoc; [done|by intros ?; apply Hlast|by intros ? [= <-]].
       - by rewrite bind_app, bind_singleton. }
  apply find_hole_Some in Eh as ->.
  destruct (bool_decide (before = []) && bool_decide (last pieces = Some Integer)) eqn:Eg.
  { eexists. by split. }
  set (pieces1 := if bool_decide (before = []) then pieces else pieces ++ [Literal before]).
  destruct (starts_with_digit after) eqn:Ea; [eexists; by split|].
  assert (wf_pieces pieces1 /\ last pieces1 <> Some Integer /\
    pieces1 ≫= piece_text = (pieces ≫= piece_text) ++ before) as (Hwf1 & Hl1 & Ht1).
  { unfold pieces1. case_bool_decide as Hb.
    - subst. split; [done|]. split; [|by rewrite app_nil_r].
      simpl in Eg. by apply bool_decide_eq_false in Eg.
    - split; [|by rewrite last_snoc, bind_app, bind_singleton].
      apply wf_pieces_snoc; [done| |by intros ? [= <-]].
      intros Hl. specialize (Hlast Hl). by destruct before. }
  destruct (IH after (pieces1 ++ [Integer])) as (r & -> & Hspec).
  - rewrite !length_app in Hf. simpl in Hf. lia.
  - apply wf_pieces_snoc; [done|by intros ?|done].
  - by intros _.
  - exists r. split; [done|]. intros pieces' ->. destruct (Hspec _ eq_refl) as [? ->].
    split; [done|]. by rewrite bind_app, bind_singleton, Ht1, <-!app_assoc.
Qed.

(** Parsing never runs out of fuel and keeps the text. *)
Lemma Pattern_parse_Ok text p :
  Pattern_parse text = Ok p ->
  pt_text p = text /\ wf_pieces (pt_pieces p) /\ pt_pieces p ≫= piece_text = text.
Proof.
  unfold Pattern_parse. intros Hp. case_match; [done|].
  destruct (parse_loop_spec (S (length text)) text []) as (r & Hr & Hspec); [lia|done..|].
  rewrite Hr in Hp. destruct r as [pieces|]; [|done]. case_match; [done|]. simplify_eq.
  by destruct (Hspec _ eq_refl).
Qed.

(** ** Capturing and instantiating *)

Lemma span_digits_spec l ds rest :
  span_digits l = (ds, rest) ->
  l = ds ++ rest /\ Forall (fun b => is_ascii_digit b = true) ds /\ starts_with_digit rest = false.
Proof.
  revert ds. induction l as [|b l IH]; intros ds; simpl; [by intros [= <- <-]|].
  destruct (is_ascii_digit b) eqn:Eb; [|by intros [= <- <-]].
  destruct (span_digits l) as [ds' rest']. intros [= <- <-].
  destruct (IH ds' eq_refl) as (-> & ? & ?). split; [done|]. split; [by constructor|done].
Qed.

Lemma span_digits_app ds rest :
  Forall (fun b => is_ascii_digit b = true) ds -> starts_with_digit rest = false ->
  span_digits (ds ++ rest) = (ds, rest).
Proof.
  intros Hd Hr. induction Hd as [|b ds Hb Hd IH]; simpl.
  - destruct rest as [|b rest]; [done|]. simpl in *. by rewrite Hr.
  - by rewrite Hb, IH.
Qed.

Lemma number_guard number :
  Forall (fun b => is_ascii_digit b = true) number ->
  bool_decide (number = [])
    || ((1 <? zlen number) && bool_decide (head number = Some zero_digit)) = false <->
  no_leading_zero number.
Proof.
  intros Hd. unfold no_leading_zero. destruct number as [|b number].
  { split; [done|]. by intros (? & _). }
  rewrite bool_decide_eq_false_2 by done. rewrite zlen_cons. pose proof (zlen_nonneg number). simpl.
  rewrite andb_false_iff, Z.ltb_ge, bool_decide_eq_false. split.
  - intros Hg. split; [done|]. split; [done|]. intros tl [= -> ->].
    destruct Hg as [Hg|Hg]; [|done]. destruct tl; [done|]. rewrite zlen_cons in Hg.
    pose proof (zlen_nonneg tl). lia.
  - intros (_ & _ & Hz). destruct (decide (b = zero_digit)) as [->|]; [|right; congruence].
    left. rewrite (Hz number eq_refl). done.
Qed.

Lemma capture_loop_sound pieces rest captured rest' captured' :
  capture_loop rest captured pieces = Some (rest', captured') ->
  exists values filled, captured' = captured ++ values /\ fill pieces values = Some filled /\
    rest = filled ++ rest' /\ Forall in_u64 values /\
    zlen values = zlen (filter (fun x => x = Integer) pieces).
Proof.
  revert rest captured. induction pieces as [|p pieces IH]; intros rest captured;
    cbn [capture_loop capture_step fill].
  { intros [= <- <-]. exists [], []. rewrite app_nil_r, filter_nil. done. }
  rewrite filter_cons. destruct p as [text|];
    [rewrite decide_False by done|rewrite decide_True by done]; cbn [capture_step fill].
  - destruct (strip_prefix text rest) as [rest1|] eqn:E; cbv beta iota; [|done].
    apply strip_prefix_Some in E as ->. intros Hc.
    apply IH in Hc as (values & filled & -> & Hfill & -> & Hf & Hl).
    exists values, (text ++ filled). by rewrite Hfill, <-app_assoc.
  - destruct (span_digits rest) as [number tail] eqn:Es.
    apply span_digits_spec in Es as (-> & Hd & Ht).
    destruct (_ || _) eqn:Eg; cbv beta iota; [done|]. apply number_guard in Eg; [|done].
    destruct (parse_u64 number) as [n|] eqn:En; cbv beta iota; [|done].
    destruct (to_dec_parse_u64 _ _ Eg En) as [Hdec Hn]. intros Hc.
    apply IH in Hc as (values & filled & -> & Hfill & -> & Hf & Hl).
    exists (n :: values), (to_dec n ++ filled). rewrite Hfill, Hdec, <-!app_assoc.
    split; [done|]. split; [done|]. split; [done|]. split; [by constructor|].
    by rewrite !zlen_cons, Hl.
Qed.

Lemma capture_loop_complete pieces values filled captured rest :
  wf_pieces pieces -> fill pieces values = Some filled -> Forall in_u64 values ->
  zlen values = zlen (filter (fun x => x = Integer) pieces) ->
  (last pieces = Some Integer -> starts_with_digit rest = false) ->
  capture_loop (filled ++ rest) captured pieces = Some (rest, captured ++ values).
Proof.
  revert values filled captured. induction pieces as [|p pieces IH];
    intros values filled captured Hwf Hfill Hu Hl Hlast;
    cbn [capture_loop capture_step fill wf_pieces] in *.
  { simplify_eq. destruct values; [by rewrite app_nil_r|].
    rewrite zlen_cons in Hl. pose proof (zlen_nonneg values).
    rewrite filter_nil in Hl. change (zlen []) with 0 in Hl. lia. }
  rewrite filter_cons in Hl. destruct p as [text|];
    [rewrite decide_False in Hl by done|rewrite decide_True in Hl by done];
    cbn [capture_step fill] in *.
  - destruct (fill pieces values) as [tl|] eqn:Ef; [|done]. simplify_eq.
    rewrite <-app_assoc. rewrite (proj2 (strip_prefix_Some text _ (tl ++ rest))) by done.
    apply IH; [by destruct Hwf|done..|]. intros Hlp. apply Hlast.
    rewrite last_cons, Hlp. done.
  - destruct values as [|n values]; [done|].
    destruct (fill pieces values) as [tl|] eqn:Ef; [|done]. simplify_eq.
    apply Forall_cons in Hu as [Hn Hu]. destruct Hwf as [Hwf Hnext].
    destruct (to_dec_no_leading_zero n Hn) as (Hne & Hd & Hz).
    assert (starts_with_digit (tl ++ rest) = false) as Htl.
    { destruct pieces as [|[text|] pieces]; [|simpl in Ef|done].
      - simpl in Ef. simplify_eq. by apply Hlast.
      - destruct (fill pieces values); [|done]. simplify_eq. destruct Hwf as [Htext _].
        by destruct text. }
    rewrite <-app_assoc, (span_digits_app (to_dec n)) by done.
    rewrite (proj2 (number_guard _ Hd)) by done.
    unfold parse_u64. rewrite from_str_radix_to_dec by (unfold in_u64 in Hn; lia || done).
    rewrite (IH values tl); [by rewrite <-app_assoc|done..| |].
    + unfold zlen. by rewrite Hl.
    + intros Hlp. apply Hlast. by rewrite last_cons, Hlp.
Qed.

(** Hole values are unambiguous, both ways.  Instantiating a parsed pattern
    gives a name whose captures are those values, and a name is an instance of
    a pattern exactly when it captures: instantiating the captures gives the
    name back. *)
Theorem pattern_round_trip text p :
  Pattern_parse text = Ok p ->
  (forall values name, Forall in_u64 values -> instantiate p values = Some name ->
     captures p name = Some values) /\
  (forall name values, captures p name = Some values -> instantiate p values = Some name).
Proof.
  intros (_ & Hwf & _)%Pattern_parse_Ok. unfold captures, instantiate, holes. split.
  - intros values name Hu Hi. destruct (Z.eqb_spec (zlen values)
      (zlen (filter (fun x => x = Integer) (pt_pieces p)))) as [Hl|]; [|done]. simpl in Hi.
    pose proof (capture_loop_complete _ _ _ [] [] Hwf Hi Hu Hl) as Hc.
    rewrite app_nil_r in Hc. by rewrite Hc.
  - intros name values Hc.
    destruct (capture_loop name [] (pt_pieces p)) as [[rest captured]|] eqn:E; [|done].
    case_bool_decide; [|done]. simplify_eq.
    apply capture_loop_sound in E as (vs & filled & -> & Hfill & -> & _ & Hl).
    rewrite app_nil_l in *. rewrite Hl, Z.eqb_refl, app_nil_r. done.
Qed.

Definition demo_pattern : pattern :=
  MkPattern [Literal (bstr "model.layers."); Integer; Literal (bstr ".attn."); Integer;
    Literal (bstr ".weight")] (bstr "model.layers.{i}.attn.{i}.weight").

Lemma pattern_round_trip_witness :
  captures demo_pattern (bstr "model.layers.12.attn.0.weight") = Some [12; 0] /\
  instantiate demo_pattern [12; 0] = Some (bstr "model.layers.12.attn.0.weight").
Proof.
  destruct (pattern_round_trip (bstr "model.layers.{i}.attn.{i}.weight") demo_pattern) as [H1 H2].
  - vm_compute. reflexivity.
  - split.
    + apply H1; [repeat constructor; vm_compute; congruence | vm_compute; reflexivity].
    + apply H2. vm_compute. reflexivity.
Defined.
