(* ===== verification/Fusion.v ===== *)
(** Fusions and permutes ([src/crates/tensorfs-core/src/contract.rs]): where a
    fused tensor's runs fall, and the view a permute reshapes to. *)

From S2P Require Export Pattern Regions.

Definition MIN_SEAM_PART_BYTES : Z := 1024 * 1024.

(** [struct FusionPart], [struct FusionRun], [struct Fusion]. *)
Record fusion_part : Type := FusionPart { fp_role : list byte; fp_share : Z }.
Record fusion_run : Type := FusionRun { fr_role : list byte; fr_length : Z }.
Record fusion : Type := Fusion { fu_groups : Z; fu_parts : list fusion_part }.

#[export] Instance fusion_part_eq_dec : EqDecision fusion_part.
Proof. solve_decision. Defined.
#[export] Instance fusion_run_eq_dec : EqDecision fusion_run.
Proof. solve_decision. Defined.
#[export] Instance fusion_eq_dec : EqDecision fusion.
Proof. solve_decision. Defined.

(** [Fusion::units]: the unchecked [sum] wraps, the product is checked. *)
Definition units (f : fusion) : option Z :=
  let per_group := foldl (fun acc part => wadd acc (fp_share part)) 0 (fu_parts f) in
  checked_mul per_group (fu_groups f).

Definition hash_sign : byte := byte_of 35.

(** The role a run carries in the split packaging. *)
Definition run_role (groups group : Z) (part : fusion_part) : list byte :=
  (if bool_decide (fp_role part = []) then [] else hash_sign :: fp_role part)
  ++ (if 1 <? groups then at_sign :: to_dec group else []).

(** [size_of::<FusionRun>()]: a [String] and a [u64]. *)
Definition FUSION_RUN_SIZE : Z := 32.

(** The checks of [Fusion::runs], and what they compute: the units the rows
    divide into and the bytes of one of them. *)
Definition run_units (f : fusion) (shape : list Z) (byte_length : Z) : option (Z * Z) :=
  let* rows := head shape in
  let* units := units f in
  if (rows =? 0) || (units =? 0) || negb (is_multiple_of rows units) then None
  else if negb (is_multiple_of byte_length rows) then None
  else
    let* unit_bytes := checked_mul (byte_length / rows) (rows / units) in
    Some (units, unit_bytes).

(** The two loops of [Fusion::runs]. *)
Definition run_list (f : fusion) (unit_bytes : Z) : option (list fusion_run) :=
  mapM (fun '(group, part) =>
      let* length := checked_mul unit_bytes (fp_share part) in
      Some (FusionRun (run_role (fu_groups f) group part) length))
    (seqZ 0 (fu_groups f) ≫= fun group => (fun part => (group, part)) <$> fu_parts f).

(** [Fusion::runs]: the inner option is the method's; the outer [None] is a
    [Vec::with_capacity(units)] that does not return. *)
Definition runs `{Allocator} (f : fusion) (shape : list Z) (byte_length : Z)
  : option (option (list fusion_run)) :=
  match run_units f shape byte_length with
  | None => Some None
  | Some (units, unit_bytes) =>
      if with_capacity FUSION_RUN_SIZE units then Some (run_list f unit_bytes) else None
  end.

(** [enum Dim]. *)
Inductive dim : Type :=
| DLiteral (n : Z)
| DAxis (axis divisor : Z)
| DAuto.

#[export] Instance dim_eq_dec : EqDecision dim.
Proof. solve_decision. Defined.

(** [Dim::parse]. *)
Definition Dim_parse (text : list byte) : option dim :=
  if bool_decide (text = bstr "auto") then Some DAuto
  else match parse_u64 text with
  | Some literal => if 0 <? literal then Some (DLiteral literal) else None
  | None =>
      let* (head, divisor) :=
        match split_once (byte_of 47) text with
        | None => Some (text, 1)
        | Some (head, tail) =>
            let* value := parse_u64 tail in
            if 0 <? value then Some (head, value) else None
        end in
      let* head := strip_prefix (bstr "shape[") head in
      let* head := strip_suffix (bstr "]") head in
      let* axis := parse_u64 head in
      Some (DAxis axis divisor)
  end.

(** [struct Permute]. *)
Record permute : Type := Permute { pm_view : list dim; pm_axes : list Z }.

#[export] Instance permute_eq_dec : EqDecision permute.
Proof. solve_decision. Defined.

(** [shape.iter().try_fold(1, checked_mul)]. *)
Fixpoint checked_product (acc : Z) (l : list Z) : option Z :=
  match l with
  | [] => Some acc
  | n :: l => let* acc := checked_mul acc n in checked_product acc l
  end.

(** The loop of [Permute::resolve]: the resolved dimensions, the position of
    [auto], and the product of the known dimensions. *)
Fixpoint resolve_loop (shape : list Z) (view : list dim) (resolved : list Z)
    (auto : option Z) (known : Z) : option (list Z * option Z * Z) :=
  match view with
  | [] => Some (resolved, auto, known)
  | d :: view =>
      let* (value, auto) :=
        match d with
        | DLiteral literal => Some (literal, auto)
        | DAxis axis divisor =>
            let* axis := shape !! Z.to_nat axis in
            if (divisor =? 0) || negb (is_multiple_of axis divisor) then None
            else Some (axis / divisor, auto)
        | DAuto =>
            match auto with Some _ => None | None => Some (1, Some (zlen resolved)) end
        end in
      if value =? 0 then None
      else
        let* known := checked_mul known value in
        resolve_loop shape view (resolved ++ [value]) auto known
  end.

(** [Permute::resolve]. *)
Definition permute_resolve (p : permute) (shape : list Z) : option (list Z) :=
  let* elements := checked_product 1 shape in
  let* (resolved, auto, known) := resolve_loop shape (pm_view p) [] None 1 in
  match auto with
  | None => if known =? elements then Some resolved else None
  | Some index =>
      if (known =? 0) || negb (is_multiple_of elements known) then None
      else Some (<[Z.to_nat index := elements / known]> resolved)
  end.

(** ** The runs of a fusion *)

Definition share_sum (f : fusion) : Z := sumZ (fp_share <$> fu_parts f).

(** What [RawContract::validate] guarantees of a fusion, and that the shares of
    one group do not overflow, which it does not check. *)
Record fusion_ok (f : fusion) : Prop := {
  fo_groups : 1 <= fu_groups f < U64;
  fo_parts : fu_parts f <> [];
  fo_shares : Forall (fun part => 1 <= fp_share part < U64) (fu_parts f)
}.
Definition shares_fit (f : fusion) : Prop := share_sum f < U64.

Lemma foldl_wadd parts acc :
  0 <= acc -> Forall (fun part => 1 <= fp_share part < U64) parts ->
  acc + sumZ (fp_share <$> parts) < U64 ->
  foldl (fun acc part => wadd acc (fp_share part)) acc parts = acc + sumZ (fp_share <$> parts).
Proof.
  revert acc. induction parts as [|part parts IH]; intros acc Ha Hf Hlt; [simpl; lia|].
  apply Forall_cons in Hf as [Hp Hf]. rewrite fmap_cons in *.
  change (sumZ (fp_share part :: (fp_share <$> parts)))
    with (fp_share part + sumZ (fp_share <$> parts)) in *.
  assert (0 <= sumZ (fp_share <$> parts)).
  { apply sumZ_pos. rewrite Forall_fmap. eapply Forall_impl; [exact Hf|]. simpl. lia. }
  cbn [foldl]. rewrite wadd_small by lia. rewrite IH by (done || lia). lia.
Qed.

Lemma mapM_runs_lengths (unit_bytes : Z) (role : Z * fusion_part -> list byte) l rs :
  mapM (fun gp => let* length := checked_mul unit_bytes (fp_share gp.2) in
                  Some (FusionRun (role gp) length)) l = Some rs ->
  fr_length <$> rs = (fun gp => unit_bytes * fp_share gp.2) <$> l.
Proof.
  revert rs. induction l as [|gp l IH]; intros rs; simpl; [by intros [= <-]|].
  destruct (checked_mul _ _) as [n|] eqn:En; simpl; [|done].
  apply checked_mul_Some in En as [-> _].
  destruct (mapM _ l) as [rs'|]; simpl; [|done]. intros [= <-]. by rewrite !fmap_cons, (IH rs' eq_refl).
Qed.

Lemma sumZ_groups (groups : list Z) (parts : list fusion_part) (k : Z) :
  sumZ ((fun gp : Z * fusion_part => k * fp_share gp.2) <$>
    (groups ≫= fun group => (fun part => (group, part)) <$> parts)) =
  zlen groups * (k * sumZ (fp_share <$> parts)).
Proof.
  induction groups as [|g groups IH]; [done|].
  rewrite bind_cons, fmap_app, sumZ_app, IH, zlen_cons, <-list_fmap_compose.
  assert (sumZ ((fun gp : Z * fusion_part => k * fp_share gp.2) ∘ (fun part => (g, part)) <$> parts)
    = k * sumZ (fp_share <$> parts)) as ->; [|lia].
  clear. induction parts as [|part parts IH]; [simpl; lia|]. rewrite !fmap_cons. simpl in *.
  unfold sumZ in *. simpl. lia.
Qed.

(** A fusion whose list of runs is a possible allocation. *)
Definition runs_fit (f : fusion) : Prop :=
  forall u, units f = Some u -> FUSION_RUN_SIZE * u <= ISIZE_MAX.

Lemma runs_return `{Allocator} f shape n :
  (forall k, try_reserve k = true) -> runs_fit f -> exists o, runs f shape n = Some o.
Proof.
  intros Hm Hf. unfold runs. destruct (run_units f shape n) as [[u ub]|] eqn:E; [|by eexists].
  rewrite with_capacity_true; [by eexists|done|]. apply Hf.
  unfold run_units in E. destruct (head shape); [|done]. simpl in E.
  destruct (units f) as [u'|]; [|done]. simpl in E. by repeat case_match; simplify_option_eq.
Qed.

(** The runs of an applicable fusion partition the tensor. *)
Lemma runs_partition `{Allocator} f shape n rs :
  fusion_ok f -> shares_fit f -> 0 <= n < U64 -> Forall in_u64 shape ->
  runs f shape n = Some (Some rs) ->
  sumZ (fr_length <$> rs) = n /\ rs <> [] /\ Forall (fun r => 0 <= fr_length r) rs.
Proof.
  intros [Hg Hp Hsh] Hfit Hn Hshape Hr. unfold runs in Hr.
  destruct (run_units f shape n) as [[u ub]|] eqn:Hru; [|done].
  destruct (with_capacity _ _); [|done]. injection Hr as Hr.
  unfold run_units in Hru. destruct shape as [|rows shape]; [done|]. apply Forall_cons in Hshape as [Hrows _].
  simpl in Hru. unfold units in Hru.
  rewrite (foldl_wadd (fu_parts f) 0) in Hru by (done || (unfold shares_fit, share_sum in *; lia)).
  change (0 + sumZ (fp_share <$> fu_parts f)) with (share_sum f) in Hru.
  assert (0 < share_sum f) as Hpos.
  { unfold share_sum. destruct (fu_parts f) as [|part parts]; [done|].
    apply Forall_cons in Hsh as [H1 H2]. rewrite fmap_cons.
    assert (0 <= sumZ (fp_share <$> parts)); [|unfold sumZ in *; simpl; lia].
    apply sumZ_pos. rewrite Forall_fmap. eapply Forall_impl; [exact H2|]. simpl. lia. }
  destruct (checked_mul (share_sum f) (fu_groups f)) as [u'|] eqn:Eu; [|done].
  apply checked_mul_Some in Eu as [-> Hu]. simpl in Hru.
  destruct (_ || _ || _) eqn:Eg in Hru; [done|].
  destruct (is_multiple_of n rows) eqn:En; [|done]. simpl in Hru.
  destruct (checked_mul _ _) as [ub'|] eqn:Eub; [|done]. simpl in Hru. injection Hru as <- <-.
  apply checked_mul_Some in Eub as [-> _].
  unfold in_u64 in Hrows. rewrite !orb_false_iff, negb_false_iff in Eg.
  destruct Eg as [[Er%Z.eqb_neq Eu%Z.eqb_neq] Em].
  apply is_multiple_of_true in Em; [|done]. apply is_multiple_of_true in En; [|done].
  set (k := n / rows * (rows / (share_sum f * fu_groups f))) in *.
  assert (mapM (fun gp => let* length := checked_mul k (fp_share gp.2) in
      Some (FusionRun (run_role (fu_groups f) gp.1 gp.2) length))
    (seqZ 0 (fu_groups f) ≫= fun group => (fun part => (group, part)) <$> fu_parts f) = Some rs)
    as Hr'.
  { rewrite <-Hr. apply mapM_ext. by intros [g part]. }
  apply (mapM_runs_lengths k (fun gp => run_role (fu_groups f) gp.1 gp.2)) in Hr' as Hl.
  assert (0 <= k) as Hk.
  { unfold k. apply Z.mul_nonneg_nonneg; apply Z.div_pos; nia. }
  assert (zlen (seqZ 0 (fu_groups f)) = fu_groups f) as Hseq
    by (unfold zlen; rewrite length_seqZ; lia).
  split; [|split].
  - rewrite Hl, sumZ_groups, Hseq. fold (share_sum f). unfold k. nia.
  - intros ->. simpl in Hl. symmetry in Hl. apply fmap_nil_inv in Hl.
    destruct (fu_parts f) as [|part parts]; [done|].
    rewrite (seqZ_cons 0) in Hl by lia. done.
  - assert (Forall (fun x => 0 <= x) (fr_length <$> rs)) as Hf; [|by rewrite Forall_fmap in Hf].
    rewrite Hl, Forall_fmap, Forall_forall.
    intros [g part] (g' & Hin & _)%list_elem_of_bind. simpl.
    apply list_elem_of_fmap in Hin as (part' & [= -> ->] & Hin).
    rewrite Forall_forall in Hsh. specialize (Hsh _ Hin). nia.
Qed.

(** ** The view of a permute *)

Lemma checked_product_Some acc l n : checked_product acc l = Some n -> n = acc * prodZ l.
Proof.
  revert acc. induction l as [|x l IH]; intros acc; simpl; [intros [= <-]; lia|].
  destruct (checked_mul acc x) as [m|] eqn:E; [|done]. apply checked_mul_Some in E as [-> _].
  intros ->%IH. unfold prodZ. simpl. lia.
Qed.

(** The state of [resolve_loop] after some dimensions. *)
Definition resolving (resolved : list Z) (auto : option Z) (known : Z) : Prop :=
  known = prodZ resolved /\ Forall (fun n => 0 < n) resolved /\
  forall i, auto = Some i -> 0 <= i /\ resolved !! Z.to_nat i = Some 1.

Lemma resolve_loop_spec shape view resolved auto known resolved' auto' known' :
  Forall in_u64 shape ->
  Forall (fun d => match d with DLiteral n => 0 <= n | DAxis _ d => 0 <= d | DAuto => True end) view ->
  resolving resolved auto known ->
  resolve_loop shape view resolved auto known = Some (resolved', auto', known') ->
  resolving resolved' auto' known' /\ length resolved' = (length resolved + length view)%nat.
Proof.
  intros Hshape Hv. revert resolved auto known.
  induction Hv as [|d view Hd Hv IH]; intros resolved auto known Hst Hrun; cbn [resolve_loop] in Hrun.
  { simplify_eq. simpl. split; [done|lia]. }
  match type of Hrun with (match ?e with _ => _ end) = _ =>
    destruct e as [[value auto1]|] eqn:Ev; [|done] end.
  destruct (Z.eqb_spec value 0) as [|Hnz]; [done|].
  destruct (checked_mul known value) as [known1|] eqn:Ek; [|done].
  apply checked_mul_Some in Ek as [-> _].
  destruct Hst as (-> & Hpos & Hauto).
  apply IH in Hrun as [? Hlen].
  { split; [done|]. rewrite Hlen, length_app. simpl. lia. }
  assert (0 <= value /\ (auto1 = auto \/
    auto1 = Some (zlen resolved) /\ value = 1)) as [Hval Hcase].
  { destruct d as [n|axis divisor|].
    - simplify_eq. auto.
    - destruct (shape !! Z.to_nat axis) as [a|] eqn:Ea; [|done].
      destruct (_ || _) eqn:Eg in Ev; [done|]. simplify_eq. split; [|auto].
      rewrite Forall_forall in Hshape. apply list_elem_of_lookup_2, Hshape in Ea.
      unfold in_u64 in Ea. apply orb_false_elim in Eg as [Eg%Z.eqb_neq _].
      apply Z.div_pos; lia.
    - destruct auto; simplify_eq. auto with lia. }
  split_and!.
  - rewrite prodZ_app. unfold prodZ at 3. simpl. lia.
  - rewrite Forall_app, Forall_singleton. split; [done|lia].
  - intros i Hi. destruct Hcase as [->|[-> ->]].
    + destruct (Hauto i Hi) as [? Hl]. split; [done|]. by apply lookup_app_l_Some.
    + simplify_eq. split; [apply zlen_nonneg|]. unfold zlen. rewrite Nat2Z.id.
      by apply list_lookup_middle.
Qed.

Lemma prodZ_insert l i n :
  l !! i = Some 1 -> prodZ (<[i := n]> l) = n * prodZ l.
Proof.
  intros Hi. rewrite (insert_take_drop _ _ _ ltac:(by eapply lookup_lt_Some)).
  rewrite <-(take_drop_middle l i 1 Hi) at 3. rewrite !prodZ_app. unfold prodZ. simpl. lia.
Qed.

(** A permute's view is a true reshape: when [resolve] returns dimensions,
    there is one per view entry and their product is the tensor's element
    count, so reshaping loses and invents no element. *)
Theorem permute_view_reshapes p shape dims :
  Forall in_u64 shape ->
  Forall (fun d => match d with DLiteral n => 0 <= n | DAxis _ d => 0 <= d | DAuto => True end)
    (pm_view p) ->
  permute_resolve p shape = Some dims ->
  prodZ dims = prodZ shape /\ length dims = length (pm_view p).
Proof.
  intros Hshape Hv Hr. unfold permute_resolve in Hr.
  destruct (checked_product 1 shape) as [elements|] eqn:Ee; [|done].
  apply checked_product_Some in Ee. rewrite Z.mul_1_l in Ee. subst elements.
  destruct (resolve_loop _ _ _ _ _) as [[[resolved auto] known]|] eqn:El; [|done].
  apply resolve_loop_spec in El as [(-> & Hpos & Hauto) Hlen]; [|done..|].
  2: { split; [done|]. split; [constructor|done]. }
  destruct auto as [i|].
  - destruct (_ || _) eqn:Eg in Hr; [done|].
    apply orb_false_elim in Eg as [Eg%Z.eqb_neq Em%negb_false_iff].
    apply is_multiple_of_true in Em; [|done]. simplify_eq.
    destruct (Hauto i eq_refl) as [_ Hi].
    rewrite prodZ_insert by done. rewrite length_insert. split; [lia|done].
  - destruct (Z.eqb_spec (prodZ resolved) (prodZ shape)); [|done]. by simplify_eq.
Qed.

(** The rope permute of a 128 x 96 tensor over 4 heads. *)
Definition demo_permute : permute :=
  Permute [DLiteral 4; DLiteral 2; DAuto; DAxis 1 1] [0; 2; 1; 3].

Lemma permute_view_reshapes_witness :
  prodZ [4; 2; 16; 96] = prodZ [128; 96] /\ length [4; 2; 16; 96] = length (pm_view demo_permute).
Proof.
  apply (permute_view_reshapes demo_permute [128; 96]).
  - repeat constructor; vm_compute; congruence.
  - repeat constructor; vm_compute; congruence.
  - vm_compute. reflexivity.
Defined.
