(* ===== verification/Contract.v ===== *)
(** Seam descriptors: the contract document, its validation, its canonical
    rendering and stamp, and the seams it cuts a tensor at
    ([src/crates/tensorfs-core/src/contract.rs]). *)

From S2P Require Export Fusion BTree.

Definition CONTRACT_FORMAT : list byte := bstr "tensorfs-contract-v1".

(** ** Documents as [serde] delivers them *)

(** [serde_json::Value], as far as [validate] looks: a number with its
    [as_u64], a string, or anything else. *)
Inductive json_value : Type :=
| JNumber (as_u64 : option Z)
| JString (text : list byte)
| JOther.

Record raw_fusion_part : Type := RawFusionPart { rfp_role : list byte; rfp_share : Z }.
Record raw_fusion : Type := RawFusion {
  rf_axis : Z; rf_groups : Z; rf_parts : list raw_fusion_part
}.
Record raw_permute : Type := RawPermute { rp_view : list json_value; rp_axes : list Z }.
Record raw_tensor : Type := RawTensor {
  rt_role : list byte; rt_pattern : list byte; rt_dtypes : list (list byte);
  rt_rank : option Z; rt_required : bool;
  rt_fusion : option raw_fusion; rt_permute : option raw_permute
}.
Record raw_contract : Type := RawContract {
  rc_format : list byte; rc_name : option (list byte); rc_version : option Z;
  rc_description : list byte; rc_dtype : option (list byte);
  rc_tensors : list raw_tensor; rc_sets : btree (list (list byte))
}.

(** ** The validated contract *)

Record tensor_pattern : Type := TensorPattern {
  tp_role : pattern; tp_pattern : pattern; tp_dtypes : list (list byte);
  tp_rank : option Z; tp_required : bool;
  tp_fusion : option fusion; tp_permute : option permute
}.
Record contract : Type := Contract {
  c_handle : option handle; c_description : list byte; c_dtype : option (list byte);
  c_tensors : list tensor_pattern; c_sets : btree (list pattern)
}.

#[export] Instance tensor_pattern_eq_dec : EqDecision tensor_pattern.
Proof. solve_decision. Defined.
#[export] Instance contract_eq_dec : EqDecision contract.
Proof. solve_decision. Defined.

(** The part loop of the fusion arm: the roles seen and the parts kept. *)
Definition fusion_part_step (malformed : contract_error)
    (st : list (list byte) * list fusion_part) (part : raw_fusion_part)
  : result contract_error (list (list byte) * list fusion_part) :=
  let '(part_roles, parts) := st in
  if (rfp_share part =? 0) || bool_decide (rfp_role part ∈ part_roles) then Err malformed
  else
    let part_roles := rfp_role part :: part_roles in
    if bool_decide (rfp_role part = []) && (1 <? zlen part_roles) then Err malformed
    else Ok (part_roles, parts ++ [FusionPart (rfp_role part) (rfp_share part)]).

Definition validate_fusion (pattern : list byte) (raw : option raw_fusion)
  : result contract_error (option fusion) :=
  match raw with
  | None => Ok None
  | Some raw =>
      let malformed := CE_Fusion pattern in
      if negb (rf_axis raw =? 0) || (rf_groups raw =? 0) || bool_decide (rf_parts raw = [])
         || ((rf_groups raw =? 1) && (zlen (rf_parts raw) <? 2))
      then Err malformed
      else
        let? (_, parts) := for_each (fusion_part_step malformed) ([], []) (rf_parts raw) in
        if existsb (fun part => bool_decide (fp_role part = [])) parts && (1 <? zlen parts)
        then Err malformed
        else Ok (Some (Fusion (rf_groups raw) parts))
  end.

(** The [seen] loop of the permute arm. *)
Definition axis_step (malformed : contract_error) (seen : list bool) (axis : Z)
  : result contract_error (list bool) :=
  if (zlen seen <=? axis) || default false (seen !! Z.to_nat axis) then Err malformed
  else Ok (<[Z.to_nat axis := true]> seen).

Definition parse_dim (v : json_value) : option dim :=
  match v with
  | JNumber number => let* value := number in
      if 0 <? value then Some (DLiteral value) else None
  | JString text => Dim_parse text
  | JOther => None
  end.

Definition is_identity (axes : list Z) : bool := bool_decide (axes = seqZ 0 (zlen axes)).

Definition validate_permute (pattern : list byte) (fusion : option fusion)
    (raw : option raw_permute) : result contract_error (option permute) :=
  match raw with
  | None => Ok None
  | Some raw =>
      let malformed := CE_Permute pattern in
      match fusion with
      | Some _ => Err malformed
      | None =>
          if (zlen (rp_view raw) <? 2) || negb (zlen (rp_axes raw) =? zlen (rp_view raw))
          then Err malformed
          else
            let? _ := for_each (axis_step malformed)
                        (replicate (length (rp_axes raw)) false) (rp_axes raw) in
            if is_identity (rp_axes raw) then Err malformed
            else
              let! view := mapM parse_dim (rp_view raw) ?: malformed in
              Ok (Some (Permute view (rp_axes raw)))
      end
  end.

(** The body of the tensor loop: the pattern and role texts seen so far and
    the tensors kept. *)
Definition tensor_step (st : list (list byte) * list (list byte) * list tensor_pattern)
    (raw : raw_tensor)
  : result contract_error (list (list byte) * list (list byte) * list tensor_pattern) :=
  let '(patterns, roles, tensors) := st in
  let? pattern := Pattern_parse (rt_pattern raw) in
  let? role := Pattern_parse (rt_role raw) in
  if negb (holes role =? holes pattern) then Err (CE_RoleHoles (rt_role raw))
  else if decide (rt_pattern raw ∈ patterns) then Err (CE_Duplicate (rt_pattern raw))
  else if decide (rt_role raw ∈ roles) then Err (CE_Duplicate (rt_role raw))
  else
    let? fusion := validate_fusion (rt_pattern raw) (rt_fusion raw) in
    let? permute := validate_permute (rt_pattern raw) fusion (rt_permute raw) in
    Ok (rt_pattern raw :: patterns, rt_role raw :: roles,
        tensors ++ [TensorPattern role pattern (rt_dtypes raw) (rt_rank raw) (rt_required raw)
                      fusion permute]).

Definition compile_members (members : list (list byte)) : result contract_error (list pattern) :=
  for_each (fun compiled member =>
    let? p := Pattern_parse member in Ok (compiled ++ [p])) [] members.

Definition set_step (sets : btree (list pattern)) (s : list byte * list (list byte))
  : result contract_error (btree (list pattern)) :=
  let '(name, members) := s in
  if bool_decide (members = []) then Err (CE_Set name)
  else let? compiled := compile_members members in Ok (bt_insert name compiled sets).

Definition usable_dtype (dtype : list byte) : bool :=
  negb (bool_decide (dtype = [])) && (zlen dtype <=? 32)
  && forallb (fun b => is_alnum b || bool_decide (b = underscore)) dtype.

(** [RawContract::validate]. *)
Definition raw_validate (raw : raw_contract) : result contract_error contract :=
  if negb (bool_decide (rc_format raw = CONTRACT_FORMAT)) then Err CE_Format
  else
    let? h := match rc_name raw, rc_version raw with
              | None, None => Ok None
              | Some name, Some version =>
                  let? h := Handle_new name version in Ok (Some h)
              | _, _ => Err CE_Identity
              end in
    let? _ := match rc_dtype raw with
              | Some dtype => if usable_dtype dtype then Ok tt else Err (CE_Dtype dtype)
              | None => Ok tt
              end in
    if bool_decide (rc_tensors raw = []) then Err CE_NoTensors
    else
      let? (_, _, tensors) := for_each tensor_step ([], [], []) (rc_tensors raw) in
      let? sets := for_each set_step [] (rc_sets raw) in
      Ok (Contract h (rc_description raw) (rc_dtype raw) tensors sets).

(** [Contract::parse]: the JSON parser is a parameter. *)
Definition Contract_parse (from_str : list byte -> result (list byte) raw_contract)
    (document : list byte) : result contract_error contract :=
  let? raw := map_err CE_Json (from_str document) in raw_validate raw.

(** ** Rendering and identity *)

Definition newline : list byte := [byte_of 10].
Definition comma : list byte := bstr ",".

(** [{:?}] of a [Vec<usize>]. *)
Definition debug_axes (axes : list Z) : list byte :=
  bstr "[" ++ (match axes with
               | [] => []
               | a :: axes => to_dec a ++ (axes ≫= fun a => bstr ", " ++ to_dec a)
               end) ++ bstr "]".

Definition render_bool (b : bool) : list byte := if b then bstr "true" else bstr "false".

(** [dtypes.join(",")]. *)
Definition join_comma (l : list (list byte)) : list byte := join (byte_of 44) l.

Definition render_dim (d : dim) : list byte :=
  match d with
  | DLiteral n => to_dec n
  | DAuto => bstr "auto"
  | DAxis axis divisor => bstr "shape[" ++ to_dec axis ++ bstr "]/" ++ to_dec divisor
  end ++ comma.

Definition render_tensor (t : tensor_pattern) : list byte :=
  bstr "tensor role=" ++ pt_text (tp_role t) ++ bstr " pattern=" ++ pt_text (tp_pattern t)
  ++ bstr " rank=" ++ match tp_rank t with None => bstr "any" | Some rank => to_dec rank end
  ++ bstr " required=" ++ render_bool (tp_required t)
  ++ bstr " dtypes=" ++ join_comma (tp_dtypes t)
  ++ match tp_permute t with
     | Some p => bstr " permute=" ++ (pm_view p ≫= render_dim) ++ bstr ":" ++ debug_axes (pm_axes p)
     | None => []
     end
  ++ match tp_fusion t with
     | Some f => bstr " fusion=groups:" ++ to_dec (fu_groups f) ++ comma
         ++ (fu_parts f ≫= fun part => fp_role part ++ bstr ":" ++ to_dec (fp_share part) ++ comma)
     | None => []
     end
  ++ newline.

(** [Contract::canonical]. *)
Definition canonical (c : contract) : list byte :=
  CONTRACT_FORMAT ++ newline
  ++ match c_handle c with
     | Some h => bstr "name=" ++ h_name h ++ newline ++ bstr "version=" ++ to_dec (h_version h)
                 ++ newline
     | None => []
     end
  ++ match c_dtype c with Some dtype => bstr "dtype=" ++ dtype ++ newline | None => [] end
  ++ (c_tensors c ≫= render_tensor)
  ++ (c_sets c ≫= fun s => bstr "set " ++ s.1 ++ bstr "="
        ++ (s.2 ≫= fun p => pt_text p ++ comma) ++ newline).

(** [Contract::digest] and [Contract::stamp]. *)
Definition contract_digest `{Sha256} (c : contract) : list byte := sha256 (canonical c).
Definition contract_stamp `{Sha256} (c : contract) : stamp :=
  match c_handle c with Some h => StampNamed h | None => StampDigest (contract_digest c) end.

(** [TensorPattern::accepts]. *)
Definition accepts (t : tensor_pattern) (dtype : list byte) (shape : list Z) : bool :=
  if negb (bool_decide (tp_dtypes t = [])) && negb (bool_decide (dtype ∈ tp_dtypes t)) then false
  else match tp_rank t with Some rank => rank =? zlen shape | None => true end.

(** [Contract::entry_for]: the first declaration whose pattern matches. *)
Definition entry_for (c : contract) (name : list byte) : option tensor_pattern :=
  snd <$> list_find (fun t => matches (tp_pattern t) name = true) (c_tensors c).

(** [Contract::runs_of]; the outer [None] is that of [runs]. *)
Definition runs_of `{Allocator} (c : contract) (name : list byte) (shape : list Z) (byte_length : Z)
  : option (option (list fusion_run)) :=
  match (let* entry := entry_for c name in tp_fusion entry) with
  | None => Some None
  | Some f =>
      let* declared := runs f shape byte_length in
      Some (let* rs := declared in
            if existsb (fun r => fr_length r <? MIN_SEAM_PART_BYTES) rs then None else Some rs)
  end.

(** The accumulation over all runs but the last. *)
Fixpoint seam_loop (cursor : Z) (rs : list fusion_run) : list Z :=
  match rs with
  | [] => []
  | r :: rs => wadd cursor (fr_length r) :: seam_loop (wadd cursor (fr_length r)) rs
  end.

(** [Contract::seam_offsets]; [runs[..runs.len() - 1]] of a non-empty list.
    [None] is the allocation of the runs that does not return. *)
Definition seam_offsets `{Allocator} (c : contract) (name : list byte) (shape : list Z)
    (byte_length : Z) : option (list Z) :=
  let* declared := runs_of c name shape byte_length in
  Some match declared with
       | None => []
       | Some rs => seam_loop 0 (take (length rs - 1) rs)
       end.

(** [Contract::set_members] over the tensor names of an inventory. *)
Definition set_members (c : contract) (set : list byte) (names : list (list byte))
  : list (list byte) :=
  match bt_get set (c_sets c) with
  | None => []
  | Some patterns => filter (fun name => existsb (fun p => matches p name) patterns = true) names
  end.
Definition set_names (c : contract) : list (list byte) := (c_sets c).*1.

(** ** What validation guarantees *)

(** The integer ranges the Rust types of a raw document guarantee. *)
Definition wf_raw_tensor (raw : raw_tensor) : Prop :=
  (forall f, rt_fusion raw = Some f -> in_u64 (rf_groups f) /\
     Forall (fun part => in_u64 (rfp_share part)) (rf_parts f)) /\
  (forall p, rt_permute raw = Some p -> Forall (fun axis => 0 <= axis) (rp_axes p)).
Record wf_raw (raw : raw_contract) : Prop := {
  wr_version : forall v, rc_version raw = Some v -> in_u32 v;
  wr_tensors : Forall wf_raw_tensor (rc_tensors raw)
}.

(** A fusion with distinct part roles; an unnamed part stands alone. *)
Definition fusion_wf (f : fusion) : Prop :=
  fusion_ok f /\ NoDup (fp_role <$> fu_parts f) /\
  ([] ∈ (fp_role <$> fu_parts f) -> zlen (fu_parts f) = 1) /\
  (fu_groups f = 1 -> 2 <= zlen (fu_parts f)).

(** A permute whose axes are a genuine permutation. *)
Definition permute_wf (p : permute) : Prop :=
  2 <= zlen (pm_view p) /\ pm_axes p ≡ₚ seqZ 0 (zlen (pm_view p)) /\
  pm_axes p <> seqZ 0 (zlen (pm_view p)).

Record tensor_ok (t : tensor_pattern) : Prop := {
  to_role : wf_pieces (pt_pieces (tp_role t));
  to_pattern : wf_pieces (pt_pieces (tp_pattern t));
  to_holes : holes (tp_role t) = holes (tp_pattern t);
  to_fusion : forall f, tp_fusion t = Some f -> fusion_wf f;
  to_permute : forall p, tp_permute t = Some p -> permute_wf p /\ tp_fusion t = None
}.

Record contract_ok (c : contract) : Prop := {
  co_handle : forall h, c_handle c = Some h -> wf_stamp (StampNamed h);
  co_nonempty : c_tensors c <> [];
  co_patterns : NoDup ((fun t => pt_text (tp_pattern t)) <$> c_tensors c);
  co_roles : NoDup ((fun t => pt_text (tp_role t)) <$> c_tensors c);
  co_tensors : Forall tensor_ok (c_tensors c)
}.

Definition fusion_parts_state (raws : list raw_fusion_part)
    (st : list (list byte) * list fusion_part) : Prop :=
  st.2 = (fun part => FusionPart (rfp_role part) (rfp_share part)) <$> raws /\
  (forall role, role ∈ st.1 <-> role ∈ fp_role <$> st.2) /\
  NoDup (fp_role <$> st.2) /\ Forall (fun part => fp_share part <> 0) st.2.

Lemma fusion_part_step_ok malformed raws part st st' :
  fusion_parts_state raws st -> fusion_part_step malformed st part = Ok st' ->
  fusion_parts_state (raws ++ [part]) st'.
Proof.
  destruct st as [roles parts]. intros (Hp & Hr & Hnd & Hz) Hstep. simpl in *.
  unfold fusion_part_step in Hstep.
  destruct (_ || _) eqn:Eg in Hstep; [done|].
  apply orb_false_elim in Eg as [Eg%Z.eqb_neq Er%bool_decide_eq_false].
  destruct (_ && _) in Hstep; [done|]. injection Hstep as <-. unfold fusion_parts_state. simpl.
  rewrite !fmap_app, Hp. split; [done|]. rewrite <-Hp. split; [|split].
  - intros role. rewrite elem_of_cons, elem_of_app, Hr. simpl. set_solver.
  - apply NoDup_app. split; [done|]. split; [|apply NoDup_singleton].
    intros x Hx. simpl. rewrite <-Hr in Hx. set_solver.
  - rewrite Forall_app, Forall_singleton. done.
Qed.

Lemma validate_fusion_ok pattern raw f :
  (forall r, raw = Some r -> in_u64 (rf_groups r) /\
     Forall (fun part => in_u64 (rfp_share part)) (rf_parts r)) ->
  validate_fusion pattern raw = Ok (Some f) -> fusion_wf f.
Proof.
  intros Hraw Hv. destruct raw as [raw|]; [|done]. destruct (Hraw raw eq_refl) as [Hg Hs].
  unfold validate_fusion in Hv. destruct (_ || _ || _ || _) eqn:Eg in Hv; [done|].
  rewrite !orb_false_iff in Eg. destruct Eg as [[[_ Eg%Z.eqb_neq] Ep%bool_decide_eq_false] E2].
  destruct (for_each _ _ _) as [[roles parts]|] eqn:El; [|done].
  apply (for_each_inv _ fusion_parts_state) in El.
  2: { split; [done|]. split; [done|]. split; constructor. }
  2: { intros pre x post t t' _. apply fusion_part_step_ok. }
  destruct El as (Hp & Hr & Hnd & Hz). simpl in *.
  destruct (existsb _ parts && _) eqn:Ee in Hv; [done|]. injection Hv as <-.
  assert (zlen parts = zlen (rf_parts raw)) as Hlen by by rewrite Hp, zlen_fmap.
  split; [|split; [done|split]]; simpl.
  - constructor; simpl; unfold in_u64 in *; [lia| |].
    + intros ->. symmetry in Hp. by apply fmap_nil_inv in Hp.
    + rewrite Forall_forall in Hz. rewrite Forall_forall in Hs. apply Forall_forall. intros part Hin.
      specialize (Hz part Hin).
      rewrite Hp in Hin. apply list_elem_of_fmap in Hin as (r & -> & Hin).
      specialize (Hs r Hin). simpl in *. lia.
  - intros (part & Hpart & Hin)%list_elem_of_fmap.
    assert (existsb (fun part => bool_decide (fp_role part = [])) parts = true) as Hex.
    { apply existsb_exists. exists part. split; [by apply list_elem_of_In|].
      by apply bool_decide_eq_true. }
    rewrite Hex in Ee. simpl in Ee. apply Z.ltb_ge in Ee.
    destruct parts; [set_solver|]. rewrite zlen_cons in *. pose proof (zlen_nonneg parts). lia.
  - intros Hg1. rewrite Hg1, Z.eqb_refl in E2. simpl in E2. apply Z.ltb_ge in E2. lia.
Qed.

Lemma seen_loop malformed n axes seen :
  Forall (fun axis => 0 <= axis) axes ->
  for_each (axis_step malformed) (replicate n false) axes = Ok seen ->
  NoDup axes /\ Forall (fun axis => 0 <= axis < Z.of_nat n) axes.
Proof.
  intros Hpos Hl.
  apply (for_each_inv _ (fun pre seen => length seen = n /\ NoDup pre /\
    Forall (fun axis => 0 <= axis < Z.of_nat n) pre /\
    forall axis, axis ∈ pre -> seen !! Z.to_nat axis = Some true)) in Hl; [naive_solver| |].
  - split; [apply length_replicate|]. split; [constructor|]. split; [constructor|set_solver].
  - intros pre x post t t' Heq (Hlen & Hnd & Hr & Hseen) Hstep. unfold axis_step in Hstep.
    assert (0 <= x) as Hx by (rewrite Forall_forall in Hpos; apply Hpos; rewrite Heq; set_solver).
    destruct (_ || _) eqn:Eg in Hstep; [done|]. injection Hstep as <-.
    apply orb_false_elim in Eg as [Eg%Z.leb_gt Es].
    assert (Z.to_nat x < length t)%nat as Hlt by (unfold zlen in Eg; lia).
    split; [by rewrite length_insert|]. split; [|split].
    + apply NoDup_app. split; [done|]. split; [|apply NoDup_singleton].
      intros y Hy ->%list_elem_of_singleton. by rewrite (Hseen x Hy) in Es.
    + rewrite Forall_app, Forall_singleton. split; [done|]. unfold zlen in Eg. lia.
    + intros y [Hy|Hy%list_elem_of_singleton]%elem_of_app.
      * destruct (decide (Z.to_nat y = Z.to_nat x)) as [->|Hne];
          [by rewrite list_lookup_insert_eq|]. rewrite list_lookup_insert_ne by done. auto.
      * subst. by rewrite list_lookup_insert_eq.
Qed.

Lemma validate_permute_ok pattern f raw p :
  (forall r, raw = Some r -> Forall (fun axis => 0 <= axis) (rp_axes r)) ->
  validate_permute pattern f raw = Ok (Some p) -> permute_wf p /\ f = None.
Proof.
  intros Hraw Hv. destruct raw as [raw|]; [|done]. specialize (Hraw raw eq_refl).
  unfold validate_permute in Hv. destruct f; [done|].
  destruct (_ || _) eqn:Eg in Hv; [done|].
  apply orb_false_elim in Eg as [E2%Z.ltb_ge El%negb_false_iff%Z.eqb_eq].
  destruct (for_each _ _ _) as [seen|] eqn:Es; [|done].
  destruct (is_identity (rp_axes raw)) eqn:Ei; [done|]. apply bool_decide_eq_false in Ei.
  destruct (mapM parse_dim (rp_view raw)) as [view|] eqn:Em; [|done]. injection Hv as <-.
  apply length_mapM in Em as Hlen. apply seen_loop in Es as [Hnd Hr]; [|done].
  assert (zlen view = zlen (rp_axes raw)) as Hz by (unfold zlen in *; lia).
  split; [|done]. unfold permute_wf. simpl. rewrite Hz. split; [lia|]. split; [|done].
  apply submseteq_length_Permutation.
  - apply NoDup_submseteq; [done|]. intros x Hx. rewrite Forall_forall in Hr.
    apply elem_of_seqZ. specialize (Hr x Hx). unfold zlen. lia.
  - unfold zlen. rewrite length_seqZ. lia.
Qed.

Definition tensors_state (st : list (list byte) * list (list byte) * list tensor_pattern) : Prop :=
  let '(patterns, roles, tensors) := st in
  (forall x, x ∈ patterns <-> x ∈ (fun t => pt_text (tp_pattern t)) <$> tensors) /\
  (forall x, x ∈ roles <-> x ∈ (fun t => pt_text (tp_role t)) <$> tensors) /\
  NoDup ((fun t => pt_text (tp_pattern t)) <$> tensors) /\
  NoDup ((fun t => pt_text (tp_role t)) <$> tensors) /\ Forall tensor_ok tensors.

Lemma tensor_step_ok raw st st' :
  wf_raw_tensor raw -> tensors_state st -> tensor_step st raw = Ok st' -> tensors_state st'.
Proof.
  destruct st as [[patterns roles] tensors]. intros [Hwf Hwp] (Hp & Hr & Hnp & Hnr & Hok) Hstep.
  unfold tensor_step in Hstep.
  destruct (Pattern_parse (rt_pattern raw)) as [p|] eqn:Ep; [|done].
  destruct (Pattern_parse (rt_role raw)) as [r|] eqn:Er; [|done].
  destruct (Z.eqb_spec (holes r) (holes p)) as [Hh|]; [|done]. simpl in Hstep.
  case_decide as Hip; [done|]. case_decide as Hir; [done|].
  destruct (validate_fusion _ _) as [f|] eqn:Ef; [|done].
  destruct (validate_permute _ _ _) as [pm|] eqn:Em; [|done]. injection Hstep as <-.
  apply Pattern_parse_Ok in Ep as (Htp & Hwp' & _). apply Pattern_parse_Ok in Er as (Htr & Hwr & _).
  unfold tensors_state. rewrite !fmap_app. simpl. rewrite Htp, Htr.
  split; [|split; [|split; [|split]]].
  - intros x. rewrite elem_of_cons, elem_of_app, Hp. set_solver.
  - intros x. rewrite elem_of_cons, elem_of_app, Hr. set_solver.
  - apply NoDup_app. split; [done|]. split; [|apply NoDup_singleton].
    intros x Hx ->%list_elem_of_singleton. by apply Hip, Hp.
  - apply NoDup_app. split; [done|]. split; [|apply NoDup_singleton].
    intros x Hx ->%list_elem_of_singleton. by apply Hir, Hr.
  - rewrite Forall_app, Forall_singleton. split; [done|]. constructor; simpl; try done.
    + intros f' ->. by eapply validate_fusion_ok.
    + intros p' ->. by eapply validate_permute_ok.
Qed.

Lemma tensor_step_length raw st st' :
  tensor_step st raw = Ok st' -> length st'.2 = S (length st.2).
Proof.
  destruct st as [[patterns roles] tensors]. unfold tensor_step. intros Hstep.
  destruct (Pattern_parse (rt_pattern raw)) as [p|]; [|done].
  destruct (Pattern_parse (rt_role raw)) as [r|]; [|done].
  destruct (negb _); [done|]. case_decide; [done|]. case_decide; [done|].
  destruct (validate_fusion _ _) as [f|]; [|done].
  destruct (validate_permute _ _ _) as [pm|]; [|done]. injection Hstep as <-.
  simpl. rewrite length_app. simpl. lia.
Qed.

Lemma raw_validate_sound raw c : wf_raw raw -> raw_validate raw = Ok c -> contract_ok c.
Proof.
  intros [Hver Hten] Hv. unfold raw_validate in Hv.
  destruct (bool_decide (rc_format raw = CONTRACT_FORMAT)); [|done]. simpl in Hv.
  match type of Hv with (match ?e with _ => _ end) = _ => destruct e as [h|] eqn:Eh; [|done] end.
  match type of Hv with (match ?e with _ => _ end) = _ => destruct e as [[]|]; [|done] end.
  case_bool_decide as Hne; [done|].
  destruct (for_each tensor_step _ _) as [[[ps rs] tensors]|] eqn:Et; [|done].
  destruct (for_each set_step _ _) as [sets|]; [|done]. injection Hv as <-.
  assert (length tensors = length (rc_tensors raw) /\ tensors_state (ps, rs, tensors)) as [Hlen Hst].
  { apply (for_each_inv _ (fun pre st => length st.2 = length pre /\ tensors_state st)) in Et.
    - done.
    - split; [done|]. repeat split; try constructor; set_solver.
    - intros pre x post t t' Heq [Hl Hst] Hstep. split.
      + apply tensor_step_length in Hstep. rewrite length_app. simpl. lia.
      + eapply tensor_step_ok; [|done..]. rewrite Forall_forall in Hten. apply Hten.
        rewrite Heq. set_solver. }
  destruct Hst as (_ & _ & Hnp & Hnr & Hok). constructor; simpl; [|..|done].
  - intros h' ->. destruct (rc_name raw) as [name|], (rc_version raw) as [version|]; try done.
    unfold Handle_new in Eh. destruct (is_contract_name name) eqn:En; [|done]. simpl in Eh.
    destruct (Z.eqb_spec version 0); [done|]. simplify_eq. simpl.
    specialize (Hver version eq_refl). unfold in_u32 in Hver. split; [done|lia].
  - intros ->. by destruct (rc_tensors raw).
  - done.
  - done.
Qed.

(** A contract's stamp is always one a manifest may carry. *)
Lemma contract_stamp_wf `{Sha256} c : contract_ok c -> wf_stamp (contract_stamp c).
Proof.
  intros Hc. unfold contract_stamp. destruct (c_handle c) as [h|] eqn:Eh.
  - by apply (co_handle _ Hc).
  - apply sha256_length.
Qed.

(** What a validated contract promises: a usable handle or none, at least
    one tensor, no pattern or role declared twice, roles and patterns with the
    same holes, fusions of positive shares with distinct roles on at least two
    runs, and permutes whose axes are a non-identity permutation and never
    inside a fused tensor; and its stamp is one a manifest can carry. *)
Theorem raw_validate_ok `{Sha256} raw c :
  wf_raw raw -> raw_validate raw = Ok c -> contract_ok c /\ wf_stamp (contract_stamp c).
Proof. intros Hw Hv. pose proof (raw_validate_sound _ _ Hw Hv). auto using contract_stamp_wf. Qed.

(** ** Seams *)

(** No declared fusion's shares overflow. *)
Definition contract_fits (c : contract) : Prop :=
  Forall (fun t => forall f, tp_fusion t = Some f -> shares_fit f) (c_tensors c).

Lemma seam_loop_run_seams cursor rs :
  0 <= cursor -> Forall (fun r => 0 <= fr_length r) rs ->
  cursor + sumZ (fr_length <$> rs) < U64 ->
  seam_loop cursor (take (length rs - 1) rs) = run_seams cursor (fr_length <$> rs).
Proof.
  intros Hc Hf. revert cursor Hc. induction Hf as [|r rs Hr Hf IH]; intros cursor Hc Hlt; [done|].
  destruct rs as [|r' rs]; [done|].
  replace (length (r :: r' :: rs) - 1)%nat with (S (length (r' :: rs) - 1)) by (simpl; lia).
  rewrite !fmap_cons in *. cbn [take seam_loop].
  change (sumZ (fr_length r :: fr_length r' :: (fr_length <$> rs)))
    with (fr_length r + sumZ (fr_length r' :: (fr_length <$> rs))) in Hlt.
  assert (0 <= sumZ (fr_length r' :: (fr_length <$> rs))) as Hp.
  { clear -Hf. rewrite <-fmap_cons. induction Hf as [|x l Hx Hf IH]; [done|].
    rewrite fmap_cons. unfold sumZ in *. simpl. lia. }
  rewrite wadd_small by lia. cbn [run_seams]. f_equal.
  rewrite <-fmap_cons in *. apply IH; lia.
Qed.

Lemma entry_for_elem c name t : entry_for c name = Some t -> t ∈ c_tensors c.
Proof.
  unfold entry_for. intros ([i t'] & Hf & ->)%fmap_Some.
  apply list_find_Some in Hf as (Hi & _). by eapply list_elem_of_lookup_2.
Qed.

(** Every list of runs the contract declares is a possible allocation. *)
Definition contract_allocates (c : contract) : Prop :=
  Forall (fun t => forall f, tp_fusion t = Some f -> runs_fit f) (c_tensors c).

(** A declared list of runs: the declaration, its fusion, and no short part. *)
Lemma runs_of_Some `{Allocator} c name shape n rs :
  runs_of c name shape n = Some (Some rs) ->
  exists t f, t ∈ c_tensors c /\ tp_fusion t = Some f /\ runs f shape n = Some (Some rs) /\
    existsb (fun r => fr_length r <? MIN_SEAM_PART_BYTES) rs = false.
Proof.
  unfold runs_of. destruct (entry_for c name) as [t|] eqn:Et; [|done]. simpl.
  apply entry_for_elem in Et. destruct (tp_fusion t) as [f|] eqn:Ef; [|done]. simpl.
  destruct (runs f shape n) as [[rs'|]|] eqn:Erun; [|done..]. simpl.
  destruct (existsb _ rs') eqn:Ex; [done|]. intros [= <-]. by exists t, f.
Qed.

Lemma runs_of_returns `{Allocator} c name shape n :
  (forall k, try_reserve k = true) -> contract_allocates c ->
  exists o, runs_of c name shape n = Some o.
Proof.
  intros Hm Hc. unfold runs_of. destruct (entry_for c name) as [t|] eqn:Et; [|by eexists]. simpl.
  apply entry_for_elem in Et. destruct (tp_fusion t) as [f|] eqn:Ef; [|by eexists]. simpl.
  unfold contract_allocates in Hc. rewrite Forall_forall in Hc.
  destruct (runs_return f shape n Hm (Hc t Et f Ef)) as [o ->]. by eexists.
Qed.

Lemma seam_offsets_returns `{Allocator} c name shape n :
  (forall k, try_reserve k = true) -> contract_allocates c ->
  exists seams, seam_offsets c name shape n = Some seams.
Proof.
  intros Hm Hc. unfold seam_offsets.
  destruct (runs_of_returns c name shape n Hm Hc) as [o ->]. by eexists.
Qed.

Lemma seam_offsets_inside `{Allocator} c name shape n seams :
  contract_ok c -> contract_fits c -> 0 <= n < U64 -> Forall in_u64 shape ->
  seam_offsets c name shape n = Some seams ->
  seams_ok 0 n seams /\
  forall rs, runs_of c name shape n = Some (Some rs) ->
    cuts 0 n seams = fr_length <$> rs /\ sumZ (fr_length <$> rs) = n.
Proof.
  intros Hc Hfit Hn Hshape. unfold seam_offsets.
  destruct (runs_of c name shape n) as [[rs|]|] eqn:Er; [|intros [= <-]; by split; [simpl; lia|]|done].
  simpl. intros [= <-]. apply runs_of_Some in Er as (t & f & Et & Ef & Erun & Ex).
  pose proof (co_tensors _ Hc) as Hts. rewrite Forall_forall in Hts.
  pose proof (to_fusion _ (Hts _ Et) f Ef) as (Hfok & _).
  unfold contract_fits in Hfit. rewrite Forall_forall in Hfit.
  destruct (runs_partition f shape n rs) as (Hsum & Hne & Hpos); [done|by eapply Hfit|done..|].
  assert (Forall (fun m => 0 < m) (fr_length <$> rs)) as Hbig.
  { rewrite Forall_fmap, Forall_forall. intros r Hin. simpl.
    destruct (Z.ltb_spec (fr_length r) MIN_SEAM_PART_BYTES) as [Hlt|Hge].
    - assert (existsb (fun r => fr_length r <? MIN_SEAM_PART_BYTES) rs = true); [|congruence].
      apply existsb_exists. exists r. split; [by apply list_elem_of_In|lia].
    - unfold MIN_SEAM_PART_BYTES in Hge. lia. }
  rewrite seam_loop_run_seams by (done || lia).
  destruct (run_seams_ok 0 (fr_length <$> rs)) as [Hs Hcut]; [|done|].
  { by destruct rs. }
  rewrite Z.add_0_l, Hsum in Hs, Hcut. split; [done|]. by intros rs0 [= <-].
Qed.

(** A contract a planner can be given: none, or a validated one whose shares
    do not overflow and whose lists of runs are possible allocations. *)
Definition usable (c : option contract) : Prop :=
  match c with
  | None => True
  | Some c => contract_ok c /\ contract_fits c /\ contract_allocates c
  end.

(** C40: The seams a validated contract whose shares do not overflow declares
    for a tensor are increasing and strictly inside it, and the runs they cut
    the tensor into are the declared ones, whose lengths sum to the tensor's;
    with memory, and a list of runs no larger than an allocation may be, the
    call returns. *)
Theorem seam_offsets_ok `{Allocator} c name shape n :
  contract_ok c -> contract_fits c -> 0 <= n < U64 -> Forall in_u64 shape ->
  (forall seams, seam_offsets c name shape n = Some seams ->
    seams_ok 0 n seams /\
    forall rs, runs_of c name shape n = Some (Some rs) ->
      cuts 0 n seams = fr_length <$> rs /\ sumZ (fr_length <$> rs) = n) /\
  ((forall k, try_reserve k = true) -> contract_allocates c ->
    exists seams, seam_offsets c name shape n = Some seams).
Proof.
  intros Hc Hf Hn Hs. split; [intros seams; by apply seam_offsets_inside|].
  apply seam_offsets_returns.
Qed.

(** ** Concrete contracts *)

(** One tensor pattern [t] of rank and dtype left open, with a fusion. *)
Definition fused_document (groups : Z) (parts : list raw_fusion_part) : raw_contract :=
  RawContract CONTRACT_FORMAT None None [] None
    [RawTensor (bstr "t") (bstr "t") [] None true (Some (RawFusion 0 groups parts)) None] [].

Definition fused_contract (groups : Z) (parts : list raw_fusion_part) : contract :=
  Contract None [] None
    [TensorPattern (MkPattern [Literal (bstr "t")] (bstr "t"))
       (MkPattern [Literal (bstr "t")] (bstr "t")) [] None true
       (Some (Fusion groups ((fun part => FusionPart (rfp_role part) (rfp_share part)) <$> parts)))
       None] [].

Definition qkv_parts : list raw_fusion_part :=
  [RawFusionPart (bstr "q") 2; RawFusionPart (bstr "k") 1; RawFusionPart (bstr "v") 1].

Lemma qkv_wf : wf_raw (fused_document 2 qkv_parts).
Proof.
  split; [done|]. apply Forall_singleton. split; [|done].
  intros f [= <-]. split; [unfold in_u64, U64; simpl; lia|].
  repeat constructor; simpl; unfold U64; lia.
Qed.

Lemma raw_validate_ok_witness :
  raw_validate (fused_document 2 qkv_parts) = Ok (fused_contract 2 qkv_parts) /\
  contract_ok (fused_contract 2 qkv_parts).
Proof.
  split; [vm_compute; reflexivity|].
  eapply (@raw_validate_ok toy_sha (fused_document 2 qkv_parts)); [apply qkv_wf|].
  vm_compute. reflexivity.
Defined.

Lemma seam_offsets_ok_witness :
  seam_offsets (H := ample_memory) (fused_contract 2 qkv_parts) (bstr "t") [8] (8 * 1048576)
    = Some [2097152; 3145728; 4194304; 6291456; 7340032] /\
  seams_ok 0 (8 * 1048576) [2097152; 3145728; 4194304; 6291456; 7340032].
Proof.
  split; [vm_compute; reflexivity|].
  refine (proj1 (proj1 (@seam_offsets_ok ample_memory (fused_contract 2 qkv_parts) (bstr "t") [8]
    (8 * 1048576) _ _ _ _) _ _)); [..|vm_compute; reflexivity].
  - apply (raw_validate_sound (fused_document 2 qkv_parts)); [apply qkv_wf|]. vm_compute. reflexivity.
  - apply Forall_singleton. intros f [= <-]. vm_compute. reflexivity.
  - unfold U64. lia.
  - apply Forall_singleton. unfold in_u64, U64. lia.
Defined.

(** ** What the code does not promise *)

(** The sum of the shares of one group is unchecked. Two shares of
    [2^63 + 1] wrap to two units, the declaration applies to a two-row tensor
    of two bytes, and its only seam lies far beyond the tensor. *)
Definition wrapping_parts : list raw_fusion_part :=
  [RawFusionPart (bstr "a") (2 ^ 63 + 1); RawFusionPart (bstr "b") (2 ^ 63 + 1)].

Theorem share_sum_wraps :
  raw_validate (fused_document 1 wrapping_parts) = Ok (fused_contract 1 wrapping_parts) /\
  seam_offsets (H := ample_memory) (fused_contract 1 wrapping_parts) (bstr "t") [2] 2
    = Some [2 ^ 63 + 1].
Proof. split; vm_compute; reflexivity. Qed.

(** The capacity of the list of runs is the number of units, not of runs: one
    part of [2^58] units in two groups is two runs, and yet asking for its list never returns,
    whatever memory there is. *)
Definition huge_part : list raw_fusion_part := [RawFusionPart (bstr "a") (2 ^ 58)].

Theorem huge_share_does_not_return `{Allocator} :
  raw_validate (fused_document 2 huge_part) = Ok (fused_contract 2 huge_part) /\
  seam_offsets (fused_contract 2 huge_part) (bstr "t") [2 ^ 59; 0] 0 = None.
Proof. split; vm_compute; reflexivity. Qed.

(** Part roles are not checked, and the rendering does not delimit them: a
    single part named [q:2,k] renders as the two parts [q] and [k]. *)
Definition joined_parts : list raw_fusion_part := [RawFusionPart (bstr "q:2,k") 1].
Definition split_parts : list raw_fusion_part :=
  [RawFusionPart (bstr "q") 2; RawFusionPart (bstr "k") 1].

#[local] Existing Instance ample_memory.

Theorem stamp_does_not_determine_seams `{Sha256} :
  raw_validate (fused_document 2 joined_parts) = Ok (fused_contract 2 joined_parts) /\
  raw_validate (fused_document 2 split_parts) = Ok (fused_contract 2 split_parts) /\
  contract_stamp (fused_contract 2 joined_parts) = contract_stamp (fused_contract 2 split_parts) /\
  seam_offsets (fused_contract 2 joined_parts) (bstr "t") [6] (12 * 1048576) <>
  seam_offsets (fused_contract 2 split_parts) (bstr "t") [6] (12 * 1048576).
Proof.
  split; [vm_compute; reflexivity|]. split; [vm_compute; reflexivity|]. split; [|by vm_compute].
  unfold contract_stamp, contract_digest. simpl. do 2 f_equal.
Qed.
