(* ===== verification/Source.v ===== *)
(** Byte sources ([trait ByteSource] of
    [src/crates/tensorfs-core/src/planner/mod.rs]) and the stateful, fallible
    code that reads them: a state-and-error monad, its triples, and the
    bounded-buffer loop the planners and the hasher share. *)

From S2P Require Export Regions.

(** ** Stateful, fallible code *)

(** A function of [&mut] state that returns a [Result].  The state survives an
    error, as it does in the code. *)
Definition M (S E A : Type) : Type := S -> result E A * S.

Definition ret {S E A} (a : A) : M S E A := fun s => (Ok a, s).
Definition fail {S E A} (e : E) : M S E A := fun s => (Err e, s).
Definition bind {S E A B} (m : M S E A) (k : A -> M S E B) : M S E B :=
  fun s => match m s with (Ok a, s) => k a s | (Err e, s) => (Err e, s) end.
Definition gets {S E A} (f : S -> A) : M S E A := fun s => (Ok (f s), s).
Definition modify {S E} (f : S -> S) : M S E unit := fun s => (Ok tt, f s).
Definition lift {S E A} (r : result E A) : M S E A := fun s => (r, s).
Definition map_err_m {S E F A} (f : E -> F) (m : M S E A) : M S F A :=
  fun s => let (r, s) := m s in (map_err f r, s).
Definition check {S E} (b : bool) (e : E) : M S E unit := if b then ret tt else fail e.

Notation "'let<-' x ':=' m 'in' k" := (bind m (fun x => k))
  (at level 10, x binder, m at level 100, k at level 200) : rust_scope.
Notation "m ;;; k" := (bind m (fun _ => k)) (at level 99, right associativity) : rust_scope.

Lemma bind_Ok {S E A B} (m : M S E A) (k : A -> M S E B) s a s' :
  m s = (Ok a, s') -> bind m k s = k a s'.
Proof. intros H. unfold bind. by rewrite H. Qed.
Lemma bind_Err {S E A B} (m : M S E A) (k : A -> M S E B) s e s' :
  m s = (Err e, s') -> bind m k s = (Err e, s').
Proof. intros H. unfold bind. by rewrite H. Qed.

Lemma bind_inv {S E A B} (m : M S E A) (k : A -> M S E B) s b s' :
  bind m k s = (Ok b, s') -> exists a s1, m s = (Ok a, s1) /\ k a s1 = (Ok b, s').
Proof. unfold bind. destruct (m s) as [[a|e] s1]; [eauto|done]. Qed.

(** [for _ in 0..count] with early return. *)
Fixpoint repeat_m {S E A} (count : nat) (body : A -> M S E A) (a : A) : M S E A :=
  match count with
  | O => ret a
  | S count => let<- a := body a in repeat_m count body a
  end.

(** [for x in l] with early return. *)
Fixpoint for_m {S E X A} (body : A -> X -> M S E A) (a : A) (l : list X) : M S E A :=
  match l with
  | [] => ret a
  | x :: l => let<- a := body a x in for_m body a l
  end.

(** [while remaining > 0 { let chunk = remaining.min(size); .. }]: the body
    takes the chunk's length.  The fuel is the number of chunks. *)
Fixpoint chunk_loop {S E A} (fuel : nat) (size : Z) (body : A -> Z -> M S E A)
    (remaining : Z) (a : A) : M S E A :=
  match fuel with
  | O => ret a
  | S fuel =>
      if 0 <? remaining then
        let chunk := Z.min remaining size in
        let<- a := body a chunk in
        chunk_loop fuel size body (wsub remaining chunk) a
      else ret a
  end.
Definition while_chunks {S E A} (size : Z) (body : A -> Z -> M S E A) (remaining : Z) (a : A)
  : M S E A :=
  chunk_loop (Z.to_nat (div_ceil remaining size)) size body remaining a.

(** ** Triples *)

(** From a state in [P] the code returns in a state related by [Q] or fails in
    one related by [R]. *)
Definition triple {S E A} (P : S -> Prop) (m : M S E A) (Q : A -> S -> Prop)
    (R : E -> S -> Prop) : Prop :=
  forall s, P s -> match m s with (Ok a, s') => Q a s' | (Err e, s') => R e s' end.

Section triples.
Context {S E : Type}.
Implicit Types P : S -> Prop.

Lemma t_ret {A} P (a : A) (Q : A -> S -> Prop) (R : E -> S -> Prop) :
  (forall s, P s -> Q a s) -> triple P (ret a) Q R.
Proof. intros H s Hs. by apply H. Qed.

Lemma t_fail {A} P (e : E) (Q : A -> S -> Prop) (R : E -> S -> Prop) :
  (forall s, P s -> R e s) -> triple P (fail e) Q R.
Proof. intros H s Hs. by apply H. Qed.

Lemma t_bind {A B} P (m : M S E A) (k : A -> M S E B) (Q' : A -> S -> Prop) (Q : B -> S -> Prop)
    (R : E -> S -> Prop) :
  triple P m Q' R -> (forall a, triple (Q' a) (k a) Q R) -> triple P (bind m k) Q R.
Proof.
  intros Hm Hk s Hs. unfold bind. specialize (Hm s Hs). 
  destruct (m s) as [[a|e] s']; [by apply Hk | done].
Qed.

Lemma t_gets {A} P (f : S -> A) (Q : A -> S -> Prop) (R : E -> S -> Prop) :
  (forall s, P s -> Q (f s) s) -> triple P (gets f) Q R.
Proof. intros H s Hs. by apply H. Qed.

Lemma t_modify P (f : S -> S) (Q : unit -> S -> Prop) (R : E -> S -> Prop) :
  (forall s, P s -> Q tt (f s)) -> triple P (modify f) Q R.
Proof. intros H s Hs. by apply H. Qed.

Lemma t_lift {A} P (r : result E A) (Q : A -> S -> Prop) (R : E -> S -> Prop) :
  (forall s, P s -> match r with Ok a => Q a s | Err e => R e s end) ->
  triple P (lift r) Q R.
Proof. intros H s Hs. by apply H. Qed.

Lemma t_check P (b : bool) (e : E) (Q : unit -> S -> Prop) (R : E -> S -> Prop) :
  (forall s, P s -> if b then Q tt s else R e s) -> triple P (check b e) Q R.
Proof. intros H s Hs. specialize (H s Hs). by destruct b. Qed.

Lemma t_conseq {A} P P' (m : M S E A) (Q Q' : A -> S -> Prop) (R R' : E -> S -> Prop) :
  triple P' m Q' R' -> (forall s, P s -> P' s) -> (forall a s, Q' a s -> Q a s) ->
  (forall e s, R' e s -> R e s) -> triple P m Q R.
Proof.
  intros Hm HP HQ HR s Hs. specialize (Hm s (HP s Hs)). destruct (m s) as [[a|e] s']; auto.
Qed.

(** The loop invariant rules. *)
Lemma t_repeat {A} count (body : A -> M S E A) a (I : nat -> A -> S -> Prop) R :
  (forall k a, (k < count)%nat -> triple (I k a) (body a) (I (Datatypes.S k)) R) ->
  triple (I O a) (repeat_m count body a) (I count) R.
Proof.
  assert (forall n k a, (k + n = count)%nat ->
    (forall k a, (k < count)%nat -> triple (I k a) (body a) (I (Datatypes.S k)) R) ->
    triple (I k a) (repeat_m n body a) (I count) R) as Haux.
  { induction n as [|n IH]; intros k a' Hk Hb; simpl.
    - apply t_ret. by replace count with k by lia.
    - eapply t_bind; [apply Hb; lia|]. intros a1. apply IH; [lia|done]. }
  intros Hb. by apply Haux.
Qed.

Lemma t_for {X A} (body : A -> X -> M S E A) a l (I : list X -> A -> S -> Prop) R :
  (forall pre x post a, l = pre ++ x :: post ->
    triple (I pre a) (body a x) (I (pre ++ [x])) R) ->
  triple (I [] a) (for_m body a l) (I l) R.
Proof.
  assert (forall post pre a, l = pre ++ post ->
    (forall pre x post a, l = pre ++ x :: post ->
      triple (I pre a) (body a x) (I (pre ++ [x])) R) ->
    triple (I pre a) (for_m body a post) (I l) R) as Haux.
  { induction post as [|x post IH]; intros pre a' Hl Hb; simpl.
    - apply t_ret. rewrite app_nil_r in Hl. by subst.
    - eapply t_bind; [by eapply Hb|]. intros a1. apply IH; [|done]. by rewrite <-app_assoc. }
  intros Hb. by apply (Haux l []).
Qed.

(** The bounded-buffer loop never runs out of fuel: it is the [while] loop. *)
Lemma div_ceil_pos n size : 0 < n -> 0 < size -> 0 < div_ceil n size.
Proof. intros. pose proof (div_ceil_spec n size). nia. Qed.

Lemma div_ceil_sub n size : size < n -> 0 < size ->
  div_ceil n size = 1 + div_ceil (n - size) size.
Proof.
  intros. unfold div_ceil. replace (n + size - 1) with (n - size + size - 1 + 1 * size) by lia.
  rewrite Z.div_add by lia. lia.
Qed.

Lemma while_chunks_unfold {A} size (body : A -> Z -> M S E A) remaining a :
  0 < size -> 0 <= remaining < U64 ->
  while_chunks size body remaining a =
  if 0 <? remaining then
    let<- a := body a (Z.min remaining size) in
    while_chunks size body (remaining - Z.min remaining size) a
  else ret a.
Proof.
  intros Hs Hr. unfold while_chunks. destruct (Z.ltb_spec 0 remaining) as [Hpos|].
  2:{ assert (remaining = 0) as -> by lia.
      unfold div_ceil. by rewrite Z.div_small by lia. }
  pose proof (div_ceil_pos remaining size Hpos Hs).
  destruct (Z.to_nat (div_ceil remaining size)) as [|fuel] eqn:Ef; [lia|].
  cbn [chunk_loop]. replace (0 <? remaining) with true by lia. rewrite wsub_small by lia.
  destruct (Z.le_gt_cases remaining size) as [Hle|Hgt].
  - rewrite Z.min_l, Z.sub_diag by done.
    assert (div_ceil remaining size = 1) as E1.
    { pose proof (div_ceil_spec remaining size Hs). nia. }
    rewrite E1 in Ef. assert (fuel = O) as -> by lia.
    unfold div_ceil. by rewrite Z.div_small by lia.
  - rewrite Z.min_r by lia. rewrite div_ceil_sub in Ef by lia.
    pose proof (div_ceil_pos (remaining - size) size). 
    by replace fuel with (Z.to_nat (div_ceil (remaining - size) size)) by lia.
Qed.

Lemma t_chunks {A} size (body : A -> Z -> M S E A) n a (I : Z -> A -> S -> Prop) R :
  0 < size -> 0 <= n < U64 ->
  (forall done a chunk, 0 <= done -> 0 < chunk <= size -> done + chunk <= n ->
    (chunk < size -> done + chunk = n) ->
    triple (I done a) (body a chunk) (I (done + chunk)) R) ->
  triple (I 0 a) (while_chunks size body n a) (I n) R.
Proof.
  intros Hs Hn Hbody.
  assert (forall rest, 0 <= rest <= n -> forall a,
    triple (I (n - rest) a) (while_chunks size body rest a) (I n) R) as Haux.
  2:{ specialize (Haux n ltac:(lia) a). by rewrite Z.sub_diag in Haux. }
  intros rest. induction (Z.lt_wf 0 rest) as [rest _ IH]. intros Hr a'.
  rewrite while_chunks_unfold by lia. destruct (Z.ltb_spec 0 rest).
  - eapply t_bind; [apply Hbody; lia|]. intros a1.
    replace (n - rest + Z.min rest size) with (n - (rest - Z.min rest size)) by lia.
    apply IH; lia.
  - apply t_ret. by replace (n - rest) with n by lia.
Qed.
End triples.

(** A pure fact in a precondition is a hypothesis. *)
Lemma t_pure {E A X} (P : X -> Prop) (F : Prop) (m : M X E A) Q R :
  (F -> triple P m Q R) -> triple (fun s => F /\ P s) m Q R.
Proof. intros Hm s [HF Hs]. by apply Hm. Qed.

Lemma t_pure_r {E A X} (P : X -> Prop) (F : Prop) (m : M X E A) Q R :
  (F -> triple P m Q R) -> triple (fun s => P s /\ F) m Q R.
Proof. intros Hm s [Hs HF]. by apply Hm. Qed.

(** ** The trait *)

(** [trait ByteSource]: an implementation has its own state, since a file can
    change between two calls.  What the trait's signature promises of every
    implementation: the length does not move, and a successful read fills the
    whole destination. *)
Class ByteSource (S : Type) : Type := {
  src_len : S -> Z;
  read_exact_at : Z -> Z -> M S io_error (list byte);
  check_unchanged : M S io_error unit;
  src_len_read offset n s : src_len (read_exact_at offset n s).2 = src_len s;
  src_len_check s : src_len (check_unchanged s).2 = src_len s;
  read_fills offset n s bytes s' :
    0 <= offset -> 0 <= n -> read_exact_at offset n s = (Ok bytes, s') -> zlen bytes = n
}.

(** A source whose reads are slices of one content. *)
Class Snapshot (S : Type) `{ByteSource S} : Type := {
  content : S -> list byte;
  content_len s : src_len s = zlen (content s);
  content_read offset n s : content (read_exact_at offset n s).2 = content s;
  content_check s : content (check_unchanged s).2 = content s;
  read_content offset n s bytes s' :
    0 <= offset -> 0 <= n -> read_exact_at offset n s = (Ok bytes, s') ->
    get_range (content s) offset (offset + n) = Some bytes
}.

(** In-range reads succeed, the source does not change and memory is there. *)
Definition reliable (S : Type) `{ByteSource S, Allocator} : Prop :=
  (forall offset n s, in_u64 (src_len s) -> 0 <= offset -> 0 <= n -> offset + n <= src_len s ->
     exists bytes, (read_exact_at offset n s).1 = Ok bytes) /\
  (forall s, (check_unchanged s).1 = Ok tt) /\ (forall k, try_reserve k = true).

(** [impl ByteSource for [u8]]. *)
Definition slice_read (offset n : Z) : M (list byte) io_error (list byte) := fun s =>
  match checked_add offset n with
  | None => (Err InvalidInput, s)
  | Some stop =>
      match get_range s offset stop with
      | None => (Err UnexpectedEof, s)
      | Some bytes => (Ok bytes, s)
      end
  end.

#[export] Instance slice_source : ByteSource (list byte).
Proof.
  refine {| src_len := zlen; read_exact_at := slice_read; check_unchanged := ret tt |}.
  - intros offset n s. unfold slice_read. by repeat case_match.
  - done.
  - intros offset n s bytes s' Ho Hn Hr. unfold slice_read in Hr.
    destruct (checked_add _ _) as [stop|] eqn:Ec; [|done].
    apply checked_add_Some in Ec as [-> _].
    destruct (get_range _ _ _) eqn:Eg; [|done]. simplify_eq.
    apply get_range_Some in Eg as [Hle ->]. unfold slice, zlen in *.
    rewrite length_take, length_drop. lia.
Defined.

#[export] Instance slice_snapshot : Snapshot (list byte).
Proof.
  refine {| content := id |}.
  - done.
  - intros offset n s. simpl. unfold slice_read. by repeat case_match.
  - done.
  - intros offset n s bytes s' _ _ Hr. simpl in Hr. unfold slice_read in Hr.
    destruct (checked_add _ _) as [stop|] eqn:Ec; [|done].
    apply checked_add_Some in Ec as [-> _].
    destruct (get_range _ _ _) eqn:Eg; [|done]. by simplify_eq.
Defined.

Lemma slice_reliable `{Allocator} : (forall k, try_reserve k = true) -> reliable (list byte).
Proof.
  intros Hm. split; [|done]. intros offset n s Hs Ho Hn Hle. simpl in *. unfold slice_read.
  destruct (checked_add offset n) as [stop|] eqn:Ec.
  - apply checked_add_Some in Ec as [-> _]. unfold get_range.
    replace ((offset <=? offset + n) && (offset + n <=? zlen s)) with true by lia. by eexists.
  - apply checked_add_None in Ec. unfold in_u64 in Hs. lia.
Qed.
