(* ===== verification/GgufReader.v ===== *)
(** The bounded reader of the GGUF planner
    ([src/crates/tensorfs-core/src/planner/gguf.rs]): [Reader], its checked
    reads and skips, [MetadataBudget] and the metadata value grammar. *)

From S2P Require Export Source Utf8.

Definition MAX_METADATA_VALUE_BYTES : Z := 64 * 1024 * 1024.
Definition MAX_ARRAY_ELEMENTS : Z := 16000000.
Definition MAX_ARRAY_DEPTH : Z := 16.

Definition GGUF_TYPE_UINT8 : Z := 0.
Definition GGUF_TYPE_INT8 : Z := 1.
Definition GGUF_TYPE_UINT16 : Z := 2.
Definition GGUF_TYPE_INT16 : Z := 3.
Definition GGUF_TYPE_UINT32 : Z := 4.
Definition GGUF_TYPE_INT32 : Z := 5.
Definition GGUF_TYPE_FLOAT32 : Z := 6.
Definition GGUF_TYPE_BOOL : Z := 7.
Definition GGUF_TYPE_STRING : Z := 8.
Definition GGUF_TYPE_ARRAY : Z := 9.
Definition GGUF_TYPE_UINT64 : Z := 10.
Definition GGUF_TYPE_INT64 : Z := 11.
Definition GGUF_TYPE_FLOAT64 : Z := 12.

(** [enum ParseFailure]; [PF_Panic] stands for an allocation that does not return. *)
Inductive parse_failure : Type :=
| PF_Invalid
| PF_Read (e : io_error)
| PF_ResourceExhausted
| PF_Panic.

(** [struct MetadataBudget]. *)
Record metadata_budget : Type := Budget { array_elements : Z; value_bytes : Z }.

Definition charge (b : metadata_budget) (count : Z) : result parse_failure metadata_budget :=
  let! total := checked_add (array_elements b) count ?: PF_Invalid in
  if MAX_ARRAY_ELEMENTS <? total then Err PF_Invalid else Ok (Budget total (value_bytes b)).

Definition charge_bytes (b : metadata_budget) (count : Z) : result parse_failure metadata_budget :=
  let! total := checked_add (value_bytes b) count ?: PF_Invalid in
  if MAX_METADATA_VALUE_BYTES <? total then Err PF_Invalid
  else Ok (Budget (array_elements b) total).

(** [struct Reader]. *)
Record greader (S : Type) : Type := GReader {
  g_source : S; g_position : Z; g_length : Z; g_limit : option Z
}.
Arguments GReader {S}.
Arguments g_source {S}.
Arguments g_position {S}.
Arguments g_length {S}.
Arguments g_limit {S}.

Section reader.
Context {S : Type} `{ByteSource S, Allocator}.

#[local] Abbreviation P A := (M (greader S) parse_failure A).

Definition greader_new (source : S) : greader S := GReader source 0 (src_len source) None.

Definition g_remaining (r : greader S) : Z := wsub (g_length r) (g_position r).

Definition ensure (length : Z) : P unit := fun r =>
  match checked_add (g_position r) length with
  | None => (Err PF_Invalid, r)
  | Some stop =>
      if (g_length r <? stop)
         || match g_limit r with Some limit => limit <? stop | None => false end
      then (Err PF_Invalid, r) else (Ok tt, r)
  end.

(** [self.source.read_exact_at(self.position, destination)?]. *)
Definition read_source (n : Z) : P (list byte) := fun r =>
  let (res, source) := read_exact_at (g_position r) n (g_source r) in
  (map_err PF_Read res, GReader source (g_position r) (g_length r) (g_limit r)).

(** [self.position += n]. *)
Definition advance (n : Z) : P unit :=
  modify (fun r => GReader (g_source r) (wadd (g_position r) n) (g_length r) (g_limit r)).

Definition read (n : Z) : P (list byte) :=
  ensure n ;;; let<- bytes := read_source n in advance n ;;; ret bytes.
Definition read_u8 : P Z := let<- bytes := read 1 in ret (le_val bytes).
Definition read_u32 : P Z := let<- bytes := read 4 in ret (le_val bytes).
Definition read_u64 : P Z := let<- bytes := read 8 in ret (le_val bytes).

Definition skip (length : Z) : P unit := ensure length ;;; advance length.

Definition limit_next (length : Z) : P unit := fun r =>
  match checked_add (g_position r) length with
  | None => (Err PF_Invalid, r)
  | Some limit => (Ok tt, GReader (g_source r) (g_position r) (g_length r) (Some limit))
  end.

Definition clear_limit : P unit :=
  modify (fun r => GReader (g_source r) (g_position r) (g_length r) None).

Definition read_bounded_bytes (max_length : Z) : P (list byte) :=
  let<- length := read_u64 in
  check (length <=? max_length) PF_Invalid ;;;
  ensure length ;;;
  check (try_reserve length) PF_ResourceExhausted ;;;
  let<- bytes := read_source length in
  advance length ;;; ret bytes.

(** One turn of the loop of [skip_utf8_string]: [pending] is what the buffer
    holds of a sequence cut by the previous chunk. *)
Definition utf8_chunk (pending : list byte) (chunk : Z) : P (list byte) :=
  let<- bytes := read_source chunk in
  advance chunk ;;;
  let used := pending ++ bytes in
  match from_utf8 used with
  | U_Ok => ret []
  | U_Err valid None =>
      let incomplete := zlen used - valid in
      if 3 <? incomplete then fail PF_Invalid else ret (drop (Z.to_nat valid) used)
  | U_Err _ (Some _) => fail PF_Invalid
  end.

Definition skip_utf8_string (b : metadata_budget) : P metadata_budget :=
  let<- length := read_u64 in
  let<- b := lift (charge_bytes b length) in
  ensure length ;;;
  let<- pending := while_chunks 8192 utf8_chunk length [] in
  check (bool_decide (pending = [])) PF_Invalid ;;; ret b.

Definition bool_chunk (_ : unit) (chunk : Z) : P unit :=
  let<- bytes := read_source chunk in
  check (forallb (fun value => byte_val value <=? 1) bytes) PF_Invalid ;;; advance chunk.

Definition check_bool_bytes (count : Z) : P unit :=
  ensure count ;;; while_chunks 8192 bool_chunk count tt.

(** The encoded size of a fixed-size value type. *)
Definition fixed_size (t : Z) : option Z :=
  if (t =? GGUF_TYPE_UINT8) || (t =? GGUF_TYPE_INT8) then Some 1
  else if (t =? GGUF_TYPE_UINT16) || (t =? GGUF_TYPE_INT16) then Some 2
  else if (t =? GGUF_TYPE_UINT32) || (t =? GGUF_TYPE_INT32) || (t =? GGUF_TYPE_FLOAT32) then Some 4
  else if (t =? GGUF_TYPE_UINT64) || (t =? GGUF_TYPE_INT64) || (t =? GGUF_TYPE_FLOAT64) then Some 8
  else None.

(** [parse_metadata_array]; [element] is [parse_metadata_value] one level
    down. *)
Definition parse_metadata_array (element : Z -> Z -> metadata_budget -> P metadata_budget)
    (depth : Z) (b : metadata_budget) : P metadata_budget :=
  check (depth <? MAX_ARRAY_DEPTH) PF_Invalid ;;;
  let<- element_type := read_u32 in
  check (element_type <=? GGUF_TYPE_FLOAT64) PF_Invalid ;;;
  let<- count := read_u64 in
  let<- b := lift (charge b count) in
  match fixed_size element_type with
  | Some size =>
      let<- bytes := lift (let! n := checked_mul count size ?: PF_Invalid in Ok n) in
      let<- b := lift (charge_bytes b bytes) in
      skip bytes ;;; ret b
  | None =>
      if element_type =? GGUF_TYPE_BOOL then
        let<- b := lift (charge_bytes b count) in
        check_bool_bytes count ;;; ret b
      else repeat_m (Z.to_nat count) (element element_type (depth + 1)) b
  end.

(** [parse_metadata_value].  The depth guard stops the recursion, so [fuel]
    beyond [MAX_ARRAY_DEPTH - depth] changes nothing. *)
Fixpoint parse_metadata_value (fuel : nat) (value_type depth : Z) (b : metadata_budget)
  : P metadata_budget :=
  match fixed_size value_type with
  | Some size => let<- b := lift (charge_bytes b size) in skip size ;;; ret b
  | None =>
      if value_type =? GGUF_TYPE_BOOL then
        let<- b := lift (charge_bytes b 1) in
        let<- value := read_u8 in
        check (value <=? 1) PF_Invalid ;;; ret b
      else if value_type =? GGUF_TYPE_STRING then skip_utf8_string b
      else if value_type =? GGUF_TYPE_ARRAY then
        parse_metadata_array
          match fuel with
          | O => fun _ _ _ => fail PF_Invalid
          | Datatypes.S fuel => parse_metadata_value fuel
          end depth b
      else fail PF_Invalid
  end.

Definition ARRAY_FUEL : nat := Z.to_nat MAX_ARRAY_DEPTH.

(** ** The reader stays inside the file *)

(** The state between two calls: the cached length is the source's and the
    position is between [p] and the end. *)
Definition g_at (n p : Z) (r : greader S) : Prop :=
  in_u64 n /\ g_length r = n /\ src_len (g_source r) = n /\ 0 <= p <= g_position r /\
  g_position r <= n.

(** A failure leaves the source's length alone, and over a reliable source it
    is always a verdict on the file. *)
Definition bad (n : Z) (e : parse_failure) (r : greader S) : Prop :=
  src_len (g_source r) = n /\ (reliable S -> e = PF_Invalid).

(** Room for [k] more bytes. *)
Definition g_room (n p k : Z) (r : greader S) : Prop := g_at n p r /\ g_position r + k <= n.

Lemma bad_invalid n p r : g_at n p r -> bad n PF_Invalid r.
Proof. intros Hr. by split; [apply Hr|]. Qed.

Lemma g_at_weaken n p q r : g_at n q r -> 0 <= p <= q -> g_at n p r.
Proof. unfold g_at. intuition lia. Qed.

Lemma t_ensure n p k : triple (g_at n p) (ensure k) (fun _ => g_room n p k) (bad n).
Proof.
  intros r Hr. unfold ensure. destruct (checked_add _ _) as [stop|] eqn:Ec.
  - apply checked_add_Some in Ec as [-> _]. destruct (_ || _) eqn:Eg.
    + by eapply bad_invalid.
    + split; [done|]. apply orb_false_elim in Eg as [Eg _]. destruct Hr as (_ & Hl & _). simpl. lia.
  - by eapply bad_invalid.
Qed.

Lemma t_read_source n p k :
  0 <= k ->
  triple (g_room n p k) (read_source k) (fun bytes r => g_room n p k r /\ zlen bytes = k) (bad n).
Proof.
  intros Hk r [Hr Hroom]. unfold read_source. destruct Hr as (Hn & Hl & Hs & Hp & Hle).
  pose proof (src_len_read (g_position r) k (g_source r)) as Hlen.
  destruct (read_exact_at _ _ _) as [[bytes|e] source] eqn:Er; simpl in *.
  - unfold g_room, g_at. simpl. rewrite Hlen.
    apply read_fills in Er; [|lia..]. rewrite Hs. split_and!; (done || lia).
  - split; [simpl; congruence|]. intros (Hrel & _).
    destruct (Hrel (g_position r) k (g_source r)) as [bytes Hb]; [by rewrite Hs|lia..|].
    by rewrite Er in Hb.
Qed.

Lemma t_advance n p k :
  0 <= k -> triple (g_room n p k) (advance k) (fun _ => g_at n (p + k)) (bad n).
Proof.
  intros Hk. apply t_modify. intros r [(Hn & Hl & Hs & Hp & Hle) Hroom].
  unfold g_at, in_u64 in *. simpl. rewrite wadd_small by lia. lia.
Qed.

Lemma t_read n p k :
  0 <= k -> triple (g_at n p) (read k) (fun bytes r => zlen bytes = k /\ g_at n (p + k) r) (bad n).
Proof.
  intros Hk. eapply t_bind; [apply t_ensure|]. intros [].
  eapply t_bind; [by apply t_read_source|]. intros bytes.
  intros r [Hr Hb]. revert r Hr. change (triple (g_room n p k) (advance k ;;; ret bytes)
    (fun bytes r => zlen bytes = k /\ g_at n (p + k) r) (bad n)).
  eapply t_bind; [by apply t_advance|]. intros []. by apply t_ret.
Qed.

Lemma t_read_u8 n p : triple (g_at n p) read_u8 (fun v r => 0 <= v < U8 /\ g_at n (p + 1) r) (bad n).
Proof.
  eapply t_bind; [by apply t_read|]. intros bytes. apply t_pure. intros Hb. apply t_ret.
  intros r Hr. split; [by apply le_val_in_u8|done].
Qed.
Lemma t_read_u32 n p : triple (g_at n p) read_u32 (fun v r => in_u32 v /\ g_at n (p + 4) r) (bad n).
Proof.
  eapply t_bind; [by apply t_read|]. intros bytes. apply t_pure. intros Hb. apply t_ret.
  intros r Hr. split; [by apply le_val_in_u32|done].
Qed.
Lemma t_read_u64 n p : triple (g_at n p) read_u64 (fun v r => in_u64 v /\ g_at n (p + 8) r) (bad n).
Proof.
  eapply t_bind; [by apply t_read|]. intros bytes. apply t_pure. intros Hb. apply t_ret.
  intros r Hr. split; [by apply le_val_in_u64|done].
Qed.

Lemma t_skip n p k : 0 <= k -> triple (g_at n p) (skip k) (fun _ => g_at n (p + k)) (bad n).
Proof. intros Hk. eapply t_bind; [apply t_ensure|]. intros []. by apply t_advance. Qed.

(** A check that refuses the file. *)
Lemma t_verdict n p b :
  triple (g_at n p) (check b PF_Invalid) (fun _ r => b = true /\ g_at n p r) (bad n).
Proof. apply t_check. intros r Hr. destruct b; [done|]. by eapply bad_invalid. Qed.

(** Code that only computes. *)
Lemma t_pure_step {A} n p (res : result parse_failure A) :
  (forall e, res = Err e -> e = PF_Invalid) ->
  triple (g_at n p) (lift res) (fun a r => res = Ok a /\ g_at n p r) (bad n).
Proof.
  intros He. apply t_lift. intros r Hr. destruct res as [a|e]; [done|].
  rewrite (He e) by done. by eapply bad_invalid.
Qed.

(** Memory that is not there is an error over an unreliable world only. *)
Lemma t_reserve (P : greader S -> Prop) n k :
  (forall r, P r -> src_len (g_source r) = n) ->
  triple P (check (try_reserve k) PF_ResourceExhausted) (fun _ => P) (bad n).
Proof.
  intros HP. apply t_check. intros r Hr. destruct (try_reserve k) eqn:Et; [done|].
  split; [by apply HP|]. intros (_ & _ & Hm). by rewrite Hm in Et.
Qed.

Lemma t_read_bounded_bytes n p max :
  triple (g_at n p) (read_bounded_bytes max)
    (fun bytes r => 0 <= zlen bytes <= max /\ g_at n (p + 8 + zlen bytes) r) (bad n).
Proof.
  eapply t_bind; [apply t_read_u64|]. intros k. apply t_pure. intros Hk.
  eapply t_bind; [apply t_verdict|]. intros []. apply t_pure. intros Hmax.
  eapply t_bind; [apply t_ensure|]. intros [].
  eapply t_bind; [apply t_reserve; intros r Hr; apply Hr|]. intros [].
  unfold in_u64 in Hk. eapply t_bind; [apply t_read_source; lia|]. intros bytes.
  apply t_pure_r. intros Hb. eapply t_bind; [apply t_advance; lia|]. intros [].
  apply t_ret. intros r Hr. rewrite Hb. split; [lia|done].
Qed.

(** One chunk read inside a range already checked. *)
Lemma t_chunk n p k todo :
  0 <= k <= todo ->
  triple (g_room n p todo) (read_source k)
    (fun bytes r => zlen bytes = k /\ g_room n p todo r) (bad n).
Proof.
  intros Hk r [Hr Hroom].
  assert (g_room n p k r) as Hr' by (split; [done|lia]).
  pose proof (t_read_source n p k ltac:(lia) r Hr') as Ht. revert Ht. unfold read_source.
  destruct (read_exact_at _ _ _) as [[bytes|e] source]; simpl; [|done].
  intros [[Hat _] Hb]. split; [done|]. split; [done|]. simpl. done.
Qed.

Lemma t_chunk_advance n p k todo :
  0 <= k <= todo ->
  triple (g_room n p todo) (advance k) (fun _ => g_room n p (todo - k)) (bad n).
Proof.
  intros Hk. apply t_modify. intros r [(Hn & Hl & Hs & Hp & Hle) Hroom].
  unfold g_room, g_at, in_u64 in *. simpl. rewrite wadd_small by lia. lia.
Qed.

Lemma g_room_at n p k r : 0 <= k -> g_room n p k r -> g_at n p r.
Proof. intros _ [? _]. done. Qed.

(** What is pending between chunks is an unfinished sequence. *)
Lemma t_utf8_chunk n p todo pending k :
  zlen pending <= 3 -> 0 < k <= todo ->
  triple (g_room n p todo) (utf8_chunk pending k)
    (fun pending r => zlen pending <= 3 /\ g_room n p (todo - k) r) (bad n).
Proof.
  intros Hp Hk. eapply t_bind; [apply t_chunk; lia|]. intros bytes. apply t_pure. intros Hb.
  eapply t_bind; [apply t_chunk_advance; lia|]. intros []. cbv zeta.
  assert (forall r, g_room n p (todo - k) r -> bad n PF_Invalid r) as Hbad.
  { intros r [Hr _]. by eapply bad_invalid. }
  pose proof (from_utf8_spec (pending ++ bytes)) as Hspec.
  destruct (from_utf8 _) as [|valid [e|]].
  - by apply t_ret.
  - by apply t_fail.
  - destruct Hspec as (a & b & Heq & -> & Hlen & _). rewrite Z.add_0_l, Heq, zlen_app.
    replace (3 <? _) with false by lia. apply t_ret. intros r Hr. split; [|done].
    unfold zlen at 2. rewrite Nat2Z.id, drop_app_length. lia.
Qed.

(** The chunk loop, for any body that consumes exactly its chunk. *)
Lemma t_chunk_loop {A} n p k (body : A -> Z -> P A) (J : A -> Prop) a :
  0 <= k < U64 -> J a ->
  (forall a c todo, J a -> 0 < c <= todo ->
    triple (g_room n p todo) (body a c) (fun a r => J a /\ g_room n p (todo - c) r) (bad n)) ->
  triple (g_room n p k) (while_chunks 8192 body k a) (fun a r => J a /\ g_at n p r) (bad n).
Proof.
  intros Hk Ha Hbody.
  pose proof (t_chunks 8192 body k a (fun d a r => J a /\ g_room n p (k - d) r) (bad n)) as Ht.
  eapply t_conseq; [apply Ht| | |done]; [done|done| | |].
  - intros d a' c Hd Hc Hle _. apply t_pure. intros HJ.
    replace (k - (d + c)) with (k - d - c) by lia. apply Hbody; [done|lia].
  - intros r Hr. by rewrite Z.sub_0_r.
  - intros a' r [HJ Hr]. split; [done|apply Hr].
Qed.

Lemma charge_bytes_Err b k e : charge_bytes b k = Err e -> e = PF_Invalid.
Proof. unfold charge_bytes. intros He. by repeat case_match; simplify_eq. Qed.
Lemma charge_Err b k e : charge b k = Err e -> e = PF_Invalid.
Proof. unfold charge. intros He. by repeat case_match; simplify_eq. Qed.
Hint Resolve charge_bytes_Err charge_Err : rust.

Lemma t_skip_utf8_string n p b :
  0 <= p -> triple (g_at n p) (skip_utf8_string b) (fun _ => g_at n p) (bad n).
Proof.
  intros Hp. eapply t_bind; [apply t_read_u64|]. intros k. apply t_pure. intros Hk.
  eapply t_bind; [apply t_pure_step; eauto with rust|]. intros b'. apply t_pure. intros Hb.
  eapply t_bind; [apply t_ensure|]. intros [].
  eapply t_bind; [apply (t_chunk_loop _ _ _ _ (fun pending => zlen pending <= 3));
    [done|done|intros; by apply t_utf8_chunk]|].
  intros pending. apply t_pure. intros _. eapply t_bind; [apply t_verdict|]. intros [].
  apply t_pure. intros _. apply t_ret. intros r Hr. eapply g_at_weaken; [done|lia].
Qed.

Lemma t_check_bool_bytes n p k :
  0 <= k < U64 -> triple (g_at n p) (check_bool_bytes k) (fun _ => g_at n p) (bad n).
Proof.
  intros Hk. eapply t_bind; [apply t_ensure|]. intros [].
  eapply t_conseq; [apply (t_chunk_loop n p k bool_chunk (fun _ => True)); [done..|]|done| |done].
  - intros [] c todo _ Hc. eapply t_bind; [apply t_chunk; lia|]. intros bytes. apply t_pure.
    intros _. eapply t_bind.
    { apply (t_check _ _ _ (fun _ => g_room n p todo)). intros r Hr.
      destruct (forallb _ _); [done|]. eapply bad_invalid. apply Hr. }
    intros []. eapply t_conseq; [apply t_chunk_advance|done| |done]; [lia|done].
  - intros [] r [_ Hr]. done.
Qed.

Lemma t_at_step {A} n p (m : P A) (F : A -> Prop) q :
  0 <= p <= q -> triple (g_at n p) m (fun a r => F a /\ g_at n q r) (bad n) ->
  triple (g_at n p) m (fun a r => F a /\ g_at n p r) (bad n).
Proof.
  intros Hq Hm. eapply t_conseq; [exact Hm|done| |done].
  intros a r [Ha Hr]. split; [done|]. by eapply g_at_weaken.
Qed.

Lemma fixed_size_pos t k : fixed_size t = Some k -> 0 < k <= 8.
Proof. unfold fixed_size. intros Hf. repeat case_match; simplify_eq; lia. Qed.

Lemma t_skip_charged n p b k :
  0 <= p -> 0 <= k ->
  triple (g_at n p) (let<- b := lift (charge_bytes b k) in skip k ;;; ret b)
    (fun _ => g_at n p) (bad n).
Proof.
  intros Hp Hk. eapply t_bind; [apply t_pure_step; eauto with rust|]. intros b'. apply t_pure.
  intros _. eapply t_bind; [by apply t_skip|]. intros []. apply t_ret.
  intros r Hr. eapply g_at_weaken; [done|lia].
Qed.

Lemma t_parse_metadata_array n p element depth b :
  0 <= p -> (forall t d b, triple (g_at n p) (element t d b) (fun _ => g_at n p) (bad n)) ->
  triple (g_at n p) (parse_metadata_array element depth b) (fun _ => g_at n p) (bad n).
Proof.
  intros Hp He. eapply t_bind; [apply t_verdict|]. intros []. apply t_pure. intros _.
  eapply t_bind; [eapply t_at_step; [|apply t_read_u32]; lia|]. intros t. apply t_pure. intros _.
  eapply t_bind; [apply t_verdict|]. intros []. apply t_pure. intros _.
  eapply t_bind; [eapply t_at_step; [|apply t_read_u64]; lia|]. intros count. apply t_pure.
  intros Hc. unfold in_u64 in Hc.
  eapply t_bind; [apply t_pure_step; eauto with rust|]. intros b'. apply t_pure. intros _.
  destruct (fixed_size t) as [size|] eqn:Es.
  - apply fixed_size_pos in Es. eapply t_bind.
    { apply t_pure_step. intros e. destruct (checked_mul count size); congruence. }
    intros bytes. apply t_pure. destruct (checked_mul count size) eqn:Em; [|done]. intros [= <-].
    apply checked_mul_Some in Em as [-> _]. apply t_skip_charged; nia.
  - destruct (t =? GGUF_TYPE_BOOL).
    + eapply t_bind; [apply t_pure_step; eauto with rust|]. intros b''. apply t_pure. intros _.
      eapply t_bind; [by apply t_check_bool_bytes|]. intros []. by apply t_ret.
    + apply (t_repeat _ _ _ (fun _ _ => g_at n p)). intros k a _. apply He.
Qed.

Lemma t_parse_metadata_value n p fuel t depth b :
  0 <= p ->
  triple (g_at n p) (parse_metadata_value fuel t depth b) (fun _ => g_at n p) (bad n).
Proof.
  intros Hp. revert t depth b. induction fuel as [|fuel IH]; intros t depth b;
    cbn [parse_metadata_value]; destruct (fixed_size t) as [size|] eqn:Es;
    try (apply fixed_size_pos in Es; apply t_skip_charged; lia);
    (destruct (t =? GGUF_TYPE_BOOL);
     [eapply t_bind; [apply t_pure_step; eauto with rust|]; intros b'; apply t_pure; intros _;
      eapply t_bind; [eapply t_at_step; [|apply t_read_u8]; lia|]; intros v; apply t_pure;
      intros _; eapply t_bind; [apply t_verdict|]; intros []; apply t_pure; intros _; by apply t_ret
     |]);
    (destruct (t =? GGUF_TYPE_STRING); [by apply t_skip_utf8_string|]);
    (destruct (t =? GGUF_TYPE_ARRAY);
     [apply t_parse_metadata_array; [done|]
     |apply t_fail; intros r Hr; by eapply bad_invalid]).
  - intros. apply t_fail. intros r Hr. by eapply bad_invalid.
  - done.
Qed.

(** ** The depth guard is the recursion bound *)

Lemma bind_ext {X E A B} (m m' : M X E A) (k k' : A -> M X E B) s :
  m s = m' s -> (forall a s, k a s = k' a s) -> bind m k s = bind m' k' s.
Proof. intros Hm Hk. unfold bind. rewrite Hm. destruct (m' s) as [[a|e] s']; auto. Qed.

Lemma repeat_m_ext {X E A} n (f g : A -> M X E A) :
  (forall a s, f a s = g a s) -> forall a s, repeat_m n f a s = repeat_m n g a s.
Proof.
  intros Hfg. induction n as [|n IH]; intros a s; [done|]. simpl. by apply bind_ext.
Qed.

Lemma parse_metadata_array_ext f g depth b r :
  (forall t b r, depth < MAX_ARRAY_DEPTH -> f t (depth + 1) b r = g t (depth + 1) b r) ->
  parse_metadata_array f depth b r = parse_metadata_array g depth b r.
Proof.
  intros Hfg. unfold parse_metadata_array, check.
  destruct (Z.ltb_spec depth MAX_ARRAY_DEPTH) as [Hd|]; [|done].
  repeat (apply bind_ext; [done|]; intros ? ?).
  destruct (fixed_size _); [done|]. destruct (_ =? _); [done|].
  apply repeat_m_ext. intros. by apply Hfg.
Qed.

(** The metadata grammar terminates on its depth guard alone: any fuel of at
    least the remaining depth gives the same result on every input, so the
    recursion never ends for want of fuel. *)
Theorem parse_metadata_value_fuel fuel fuel' t depth b r :
  0 <= depth -> MAX_ARRAY_DEPTH - depth <= Z.of_nat fuel ->
  MAX_ARRAY_DEPTH - depth <= Z.of_nat fuel' ->
  parse_metadata_value fuel t depth b r = parse_metadata_value fuel' t depth b r.
Proof.
  revert fuel' t depth b r. induction fuel as [|fuel IH]; intros [|fuel'] t depth b r Hd Hf Hf';
    cbn [parse_metadata_value]; destruct (fixed_size t); try done;
    repeat (destruct (t =? _); try done); apply parse_metadata_array_ext; intros; try lia.
  apply IH; lia.
Qed.

(** ** The budgets bound what metadata can ask for *)

Definition budget_ok (b : metadata_budget) : Prop :=
  0 <= array_elements b <= MAX_ARRAY_ELEMENTS /\ 0 <= value_bytes b <= MAX_METADATA_VALUE_BYTES.

(** Charges that were made are never refunded. *)
Definition charged (b b' : metadata_budget) : Prop :=
  budget_ok b' /\ array_elements b <= array_elements b' /\ value_bytes b <= value_bytes b'.

#[local] Abbreviation within m b :=
  (triple (fun _ => True) m (fun b' _ => charged b b') (fun _ _ => True)).

Lemma charged_refl b : budget_ok b -> charged b b.
Proof. by split. Qed.
Lemma charged_trans a b c : charged a b -> charged b c -> charged a c.
Proof. unfold charged. intuition lia. Qed.

Lemma w_any {A} (m : P A) : triple (fun _ => True) m (fun _ _ => True) (fun _ _ => True).
Proof. intros r _. by destruct (m r) as [[?|?] ?]. Qed.

Lemma w_u64 : triple (fun _ => True) (read_u64 : P Z) (fun v _ => 0 <= v) (fun _ _ => True).
Proof.
  eapply t_bind; [apply w_any|]. intros bytes. apply t_ret. intros r _. apply le_val_bound.
Qed.

Lemma w_charge b k (Q : metadata_budget -> greader S -> Prop) m :
  budget_ok b -> 0 <= k ->
  (forall b', charged b b' -> triple (fun _ => True) (m b') Q (fun _ _ => True)) ->
  triple (fun _ => True) (let<- b := lift (charge b k) in m b) Q (fun _ _ => True).
Proof.
  intros Hb Hk Hm. eapply t_bind; [by apply (t_lift _ _ (fun b' _ => charge b k = Ok b'));
    intros r _; destruct (charge b k)|].
  intros b' r He. apply Hm; [|done]. clear Hm. unfold charge in He.
  destruct (checked_add _ _) as [total|] eqn:Ec; [|done]. apply checked_add_Some in Ec as [-> _].
  destruct (Z.ltb_spec MAX_ARRAY_ELEMENTS (array_elements b + k)); [done|]. injection He as <-.
  unfold charged, budget_ok in *. simpl. lia.
Qed.

Lemma w_charge_bytes b k (Q : metadata_budget -> greader S -> Prop) m :
  budget_ok b -> 0 <= k ->
  (forall b', charged b b' -> triple (fun _ => True) (m b') Q (fun _ _ => True)) ->
  triple (fun _ => True) (let<- b := lift (charge_bytes b k) in m b) Q (fun _ _ => True).
Proof.
  intros Hb Hk Hm. eapply t_bind; [by apply (t_lift _ _ (fun b' _ => charge_bytes b k = Ok b'));
    intros r _; destruct (charge_bytes b k)|].
  intros b' r He. apply Hm; [|done]. clear Hm. unfold charge_bytes in He.
  destruct (checked_add _ _) as [total|] eqn:Ec; [|done]. apply checked_add_Some in Ec as [-> _].
  destruct (Z.ltb_spec MAX_METADATA_VALUE_BYTES (value_bytes b + k)); [done|]. injection He as <-.
  unfold charged, budget_ok in *. simpl. lia.
Qed.

(** What follows the last charge does not touch the budget. *)
Lemma w_then {A} (m : P A) (b b' : metadata_budget) :
  charged b b' -> within (m ;;; ret b') b.
Proof. intros Hc. eapply t_bind; [apply w_any|]. intros a. by apply t_ret. Qed.

Lemma w_skip_utf8_string b : budget_ok b -> within (skip_utf8_string b) b.
Proof.
  intros Hb. eapply t_bind; [apply w_u64|]. intros k r Hk.
  refine (w_charge_bytes b k _ _ Hb Hk _ r I). intros b' Hb'.
  eapply t_bind; [apply w_any|]. intros []. eapply t_bind; [apply w_any|]. intros pending.
  by apply w_then.
Qed.

Lemma w_array element depth b :
  budget_ok b -> (forall t d b, budget_ok b -> within (element t d b) b) ->
  within (parse_metadata_array element depth b) b.
Proof.
  intros Hb He. eapply t_bind; [apply w_any|]. intros []. eapply t_bind; [apply w_any|]. intros t.
  eapply t_bind; [apply w_any|]. intros []. eapply t_bind; [apply w_u64|]. intros count r Hc.
  refine (w_charge b count _ _ Hb Hc _ r I). intros b1 Hb1.
  assert (forall (m : P unit) b2, charged b1 b2 -> within (m ;;; ret b2) b) as Hend.
  { intros m b2 H2. apply w_then. by eapply charged_trans. }
  destruct (fixed_size t) as [size|] eqn:Es.
  - apply fixed_size_pos in Es. destruct (checked_mul count size) as [bytes|] eqn:Em; [|by intros ? ?].
    apply checked_mul_Some in Em as [-> _]. eapply t_bind.
    { by apply (t_lift _ _ (fun v _ => v = count * size)). }
    intros v r' ->. refine (w_charge_bytes b1 (count * size) _ _ _ _ _ r' I); [apply Hb1|nia|].
    intros b2 H2. by apply Hend.
  - destruct (t =? GGUF_TYPE_BOOL).
    + apply w_charge_bytes; [apply Hb1|done|]. intros b2 H2. by apply Hend.
    + eapply t_conseq; [apply (t_repeat _ _ _ (fun _ b' _ => charged b b') (fun _ _ => True))| |done|done].
      * intros i b' _. intros r' Hb'. pose proof (He t (depth + 1) b' (proj1 Hb') r' I) as Hs.
        destruct (element t (depth + 1) b' r') as [[b2|e] r2]; [|done]. by eapply charged_trans.
      * done.
Qed.

Lemma w_value fuel t depth b : budget_ok b -> within (parse_metadata_value fuel t depth b) b.
Proof.
  revert t depth b. induction fuel as [|fuel IH]; intros t depth b Hb;
    cbn [parse_metadata_value]; destruct (fixed_size t) as [size|] eqn:Es;
    try (apply fixed_size_pos in Es; apply w_charge_bytes; [done|lia|]; intros; by apply w_then);
    (destruct (t =? GGUF_TYPE_BOOL);
     [apply w_charge_bytes; [done|lia|]; intros b' Hb'; eapply t_bind; [apply w_any|]; intros v;
      by apply w_then|]);
    (destruct (t =? GGUF_TYPE_STRING); [by apply w_skip_utf8_string|]);
    (destruct (t =? GGUF_TYPE_ARRAY); [|by intros ? ?]); apply w_array; try done.
Qed.

(** Untrusted metadata cannot buy unbounded work: whatever a value declares,
    a parse that succeeds leaves the running totals - never decreasing - within
    16,000,000 array elements and 64 MiB of value bytes. *)
Theorem metadata_budget_bounded fuel t depth b r b' r' :
  budget_ok b -> parse_metadata_value fuel t depth b r = (Ok b', r') -> charged b b'.
Proof. intros Hb Hp. pose proof (w_value fuel t depth b Hb r I) as Hw. by rewrite Hp in Hw. Qed.

(** ** Strings are checked in bounded memory *)

Section snapshot.
Context `{!Snapshot S}.

(** The bytes a reader may still take. *)
Definition allowed (r : greader S) (k : Z) : bool :=
  (g_position r + k <=? g_length r)
  && match g_limit r with Some limit => g_position r + k <=? limit | None => true end.

(** The reference: the length-prefixed string at the position. *)
Definition string_at (r : greader S) : option (list byte) :=
  let bytes := content (g_source r) in
  let start := g_position r in
  if allowed r 8 then
    let length := le_val (slice bytes start (start + 8)) in
    if allowed r (8 + length) then Some (slice bytes (start + 8) (start + 8 + length)) else None
  else None.

(** The reader at [q] of a fixed content. *)
Definition exact (c : list byte) (lim : option Z) (q : Z) (r : greader S) : Prop :=
  content (g_source r) = c /\ g_length r = zlen c /\ zlen c < U64 /\ g_limit r = lim /\
  g_position r = q /\ 0 <= q <= zlen c.

Lemma exact_at c lim q r : exact c lim q r -> g_at (zlen c) q r.
Proof.
  intros (Hc & Hl & Hu & _ & <- & Hq). unfold g_at, in_u64.
  pose proof (zlen_nonneg c). rewrite content_len, Hc. intuition lia.
Qed.

(** Reads inside the file return its bytes. *)
Lemma exact_read_source c lim q k :
  0 <= k -> q + k <= zlen c ->
  triple (exact c lim q) (read_source k)
    (fun bytes r => bytes = slice c q (q + k) /\ exact c lim q r) (fun _ _ => ~ reliable S).
Proof.
  intros Hk Hle r Hr. unfold read_source.
  destruct Hr as (Hc & Hl & Hu & Hlim & Hq & Hrange).
  pose proof (content_read (g_position r) k (g_source r)) as Hcr.
  destruct (read_exact_at _ _ _) as [[bytes|e] source] eqn:Er; simpl in *.
  - apply read_content, get_range_Some in Er as [_ ->]; [|lia..]. rewrite Hc, Hq. split; [done|].
    unfold exact. simpl. rewrite Hcr. intuition lia.
  - intros (Hrel & _).
    destruct (Hrel (g_position r) k (g_source r)) as [bytes Hb];
      rewrite ?content_len, ?Hc; unfold in_u64; [lia..|]. by rewrite Er in Hb.
Qed.

Lemma exact_advance c lim q k (R : parse_failure -> greader S -> Prop) :
  0 <= k -> q + k <= zlen c ->
  triple (exact c lim q) (advance k) (fun _ => exact c lim (q + k)) R.
Proof.
  intros Hk Hle. apply t_modify. intros r (Hc & Hl & Hu & Hlim & Hq & Hrange).
  unfold exact. simpl. rewrite wadd_small by lia. intuition lia.
Qed.

Lemma ensure_allowed r k :
  0 <= k -> g_length r < U64 ->
  ensure k r = (if allowed r k then Ok tt else Err PF_Invalid, r).
Proof.
  intros Hk Hl. unfold ensure, allowed. destruct (checked_add _ _) as [stop|] eqn:Ec.
  - apply checked_add_Some in Ec as [-> _].
    destruct (g_limit r) as [lim|]; destruct (_ || _) eqn:E1; destruct (_ && _) eqn:E2;
      done || lia.
  - apply checked_add_None in Ec. by replace (g_position r + k <=? g_length r) with false by lia.
Qed.

(** The chunk loop's invariant: what was read, followed by anything, is valid
    exactly when what is pending, followed by the same, is. *)
Definition streamed (text pending : list byte) : Prop :=
  (forall y, utf8_valid (text ++ y) = utf8_valid (pending ++ y)) /\
  (pending = [] \/ utf8_valid pending = false).

Lemma exact_utf8_chunk c lim q d k pending whole :
  0 <= q -> 0 <= d -> 0 < k -> q + d + k <= zlen c ->
  (exists y, whole = slice c q (q + d + k) ++ y) ->
  streamed (slice c q (q + d)) pending ->
  triple (exact c lim (q + d)) (utf8_chunk pending k)
    (fun pending r => streamed (slice c q (q + d + k)) pending /\ exact c lim (q + d + k) r)
    (fun _ _ => reliable S -> utf8_valid whole = false).
Proof.
  intros Hq Hd Hk Hle [y ->] [Hs _].
  eapply t_bind.
  { eapply t_conseq; [apply (exact_read_source c lim (q + d) k); lia|done|done|done]. }
  intros bytes. apply t_pure. intros ->. eapply t_bind; [apply exact_advance; lia|]. intros [].
  cbv zeta. rewrite <-(slice_join c q (q + d) (q + d + k)) by lia.
  set (a := slice c q (q + d)) in *. set (x := slice c (q + d) (q + d + k)).
  pose proof (from_utf8_spec (pending ++ x)) as Hspec.
  assert (forall y, utf8_valid ((a ++ x) ++ y) = utf8_valid ((pending ++ x) ++ y)) as Hax.
  { intros z. by rewrite <-!app_assoc, Hs. }
  destruct (from_utf8 _) as [|valid [e|]].
  - apply t_ret. intros r Hr. split; [|done]. split; [|by left]. intros z.
    by rewrite Hax, Hspec.
  - apply t_fail. intros r Hr _. by rewrite Hax.
  - destruct Hspec as (u & v & Heq & -> & Hlen & Hv & Hy).
    rewrite Z.add_0_l, Heq, zlen_app in *. replace (3 <? _) with false by lia. apply t_ret.
    intros r Hr. split; [|done]. unfold zlen. rewrite Nat2Z.id, drop_app_length.
    split; [|by right]. intros z. by rewrite Hax, Hy.
Qed.

Lemma exact_utf8_loop c lim q k :
  0 <= q -> 0 <= k < U64 -> q + k <= zlen c ->
  triple (exact c lim q) (while_chunks 8192 utf8_chunk k [])
    (fun pending r => streamed (slice c q (q + k)) pending /\ exact c lim (q + k) r)
    (fun _ _ => reliable S -> utf8_valid (slice c q (q + k)) = false).
Proof.
  intros Hq Hk Hle.
  eapply t_conseq; [apply (t_chunks 8192 utf8_chunk k [] (fun d pending r =>
    streamed (slice c q (q + d)) pending /\ exact c lim (q + d) r)
    (fun _ _ => reliable S -> utf8_valid (slice c q (q + k)) = false))| |done|done].
  - done.
  - done.
  - intros d a n Hd Hn Hle' _. apply t_pure. intros Ha. rewrite !Z.add_assoc.
    apply exact_utf8_chunk; [lia..| |done]. exists (slice c (q + d + n) (q + k)).
    by rewrite slice_join by lia.
  - intros r Hr. rewrite Z.add_0_r, slice_nil. split; [|done]. by split; [|left].
Qed.

Lemma exact_read c lim q k r :
  0 <= k -> exact c lim q r -> reliable S ->
  if allowed r k
  then exists r', read k r = (Ok (slice c q (q + k)), r') /\ exact c lim (q + k) r'
  else (read k r).1 = Err PF_Invalid.
Proof.
  intros Hk Hr Hrel. pose proof Hr as (Hc & Hl & Hu & Hlim & Hp & Hq).
  pose proof (ensure_allowed r k Hk ltac:(lia)) as He. unfold read.
  destruct (allowed r k) eqn:Ea; [|by erewrite bind_Err].
  apply andb_true_iff in Ea as [Ea _]. rewrite (bind_Ok _ _ _ _ _ He).
  pose proof (exact_read_source c lim q k Hk ltac:(lia) r Hr) as Hread.
  destruct (read_source k r) as [[bytes|e] r1] eqn:E1; [|by destruct (Hread Hrel)].
  destruct Hread as [-> Hr1]. rewrite (bind_Ok _ _ _ _ _ E1).
  pose proof (exact_advance c lim q k (fun _ _ => True) Hk ltac:(lia) r1 Hr1) as Hadv.
  simpl in Hadv. unfold bind, ret. simpl. eauto.
Qed.

Lemma exact_string_body c lim q k b r :
  exact c lim q r -> reliable S -> 0 <= k < U64 ->
  is_ok ((let<- b := lift (charge_bytes b k) in
          ensure k ;;;
          let<- pending := while_chunks 8192 utf8_chunk k [] in
          check (bool_decide (pending = [])) PF_Invalid ;;; ret b) r).1 =
  allowed r k && utf8_valid (slice c q (q + k)) && is_ok (charge_bytes b k).
Proof.
  intros Hr Hrel Hk. pose proof Hr as (_ & Hl & Hu & _ & Hp & Hq).
  destruct (charge_bytes b k) as [b'|e]; [|by rewrite andb_false_r].
  unfold lift. rewrite (bind_Ok _ _ r b' r), andb_true_r by done.
  pose proof (ensure_allowed r k ltac:(lia) ltac:(lia)) as He.
  destruct (allowed r k) eqn:Ea; [|by erewrite bind_Err].
  apply andb_true_iff in Ea as [Ea _]. rewrite (bind_Ok _ _ _ _ _ He). simpl.
  pose proof (exact_utf8_loop c lim q k ltac:(lia) Hk ltac:(lia) r Hr) as Hloop.
  destruct (while_chunks _ _ _ _ r) as [[pending|e] r2] eqn:E2.
  2:{ rewrite (bind_Err _ _ _ _ _ E2). symmetry. by apply Hloop. }
  rewrite (bind_Ok _ _ _ _ _ E2). destruct Hloop as [[Hs Hpend] _].
  specialize (Hs []). rewrite !app_nil_r in Hs. rewrite Hs.
  case_bool_decide as Hnil; [by subst|]. destruct Hpend as [?|Hf]; [done|]. by rewrite Hf.
Qed.

(** The bounded-memory scan of a metadata string is the whole-string check:
    over a reliable source it succeeds exactly when the string at the position
    lies inside the file and the metadata window, its length is within the
    budget, and its bytes, as one piece, are valid UTF-8. *)
Theorem skip_utf8_string_correct b c lim q r :
  exact c lim q r -> reliable S ->
  is_ok (skip_utf8_string b r).1 =
  match string_at r with
  | Some text => utf8_valid text && is_ok (charge_bytes b (zlen text))
  | None => false
  end.
Proof.
  intros Hr Hrel. pose proof Hr as (Hc & Hl & Hu & Hlim & Hp & Hq).
  pose proof (exact_read c lim q 8 r ltac:(done) Hr Hrel) as Hread.
  unfold string_at, skip_utf8_string, read_u64. rewrite Hc, Hp.
  destruct (allowed r 8) eqn:E8.
  2:{ destruct (read 8 r) as [[?|?] ?] eqn:E; [done|].
      by rewrite (bind_Err _ _ _ _ _ (bind_Err _ _ _ _ _ E)). }
  apply andb_true_iff in E8 as [E8 _]. destruct Hread as (r1 & E1 & Hr1).
  rewrite (bind_Ok _ _ r (le_val (slice c q (q + 8))) r1) by by rewrite (bind_Ok _ _ _ _ _ E1).
  pose proof (le_val_in_u64 (slice c q (q + 8))) as Hb. rewrite slice_length in Hb by lia.
  specialize (Hb ltac:(lia)). unfold in_u64 in Hb. set (k := le_val _) in *.
  assert (allowed r (8 + k) = allowed r1 k) as Ha.
  { destruct Hr1 as (_ & Hl1 & _ & Hlim1 & Hp1 & _). unfold allowed.
    rewrite Hp, Hl, Hlim, Hl1, Hlim1, Hp1, Z.add_assoc. done. }
  rewrite Ha. pose proof Hr1 as (_ & Hl1 & _).
  rewrite (exact_string_body c lim (q + 8) k b r1) by done.
  destruct (allowed r1 k) eqn:Ek; [|done]. apply andb_true_iff in Ek as [Ek _].
  destruct Hr1 as (_ & _ & _ & _ & Hp1 & _). rewrite slice_length by lia.
  by replace (q + 8 + k - (q + 8)) with k by lia.
Qed.
End snapshot.
End reader.

(** A reader of the bytes [2 0 .. 0 C3 A9]: the string "e acute". *)
Definition sample_string : list byte := u64_bytes 2 ++ [byte_of 195; byte_of 169].

Lemma parse_metadata_value_fuel_witness :
  @parse_metadata_value (list byte) slice_source 16 GGUF_TYPE_STRING 0 (Budget 0 0)
    (greader_new sample_string) =
  @parse_metadata_value (list byte) slice_source 40 GGUF_TYPE_STRING 0 (Budget 0 0)
    (greader_new sample_string).
Proof.
  apply (@parse_metadata_value_fuel (list byte) slice_source 16 40 GGUF_TYPE_STRING 0 (Budget 0 0)
    (greader_new sample_string)).
  - lia.
  - unfold MAX_ARRAY_DEPTH. lia.
  - unfold MAX_ARRAY_DEPTH. lia.
Defined.

Lemma metadata_budget_bounded_witness :
  exists r', @parse_metadata_value (list byte) slice_source 16 GGUF_TYPE_STRING 0 (Budget 0 0)
    (greader_new sample_string) = (Ok (Budget 0 2), r') /\ charged (Budget 0 0) (Budget 0 2).
Proof.
  eexists. split; [vm_compute; reflexivity|].
  eapply (@metadata_budget_bounded (list byte) slice_source 16 GGUF_TYPE_STRING 0 (Budget 0 0)
    (greader_new sample_string) (Budget 0 2)).
  - unfold budget_ok. vm_compute. repeat split; discriminate.
  - vm_compute. reflexivity.
Defined.

Lemma skip_utf8_string_correct_witness :
  is_ok (skip_utf8_string (Budget 0 0) (greader_new sample_string)).1 = true /\
  string_at (greader_new sample_string) = Some [byte_of 195; byte_of 169].
Proof.
  assert (string_at (greader_new sample_string) = Some [byte_of 195; byte_of 169]) as Hs
    by (vm_compute; reflexivity).
  split; [|exact Hs].
  rewrite (@skip_utf8_string_correct (list byte) slice_source ample_memory slice_snapshot
    (Budget 0 0) sample_string None 0 (greader_new sample_string)).
  - rewrite Hs. vm_compute. reflexivity.
  - unfold exact. simpl. split; [reflexivity|]. split; [reflexivity|].
    split; [vm_compute; reflexivity|]. split; [reflexivity|]. split; [reflexivity|].
    vm_compute. split; discriminate.
  - apply (@slice_reliable ample_memory). reflexivity.
Defined.
