(* ===== verification/Gguf.v ===== *)
(** The GGUF planner ([src/crates/tensorfs-core/src/planner/gguf.rs]): the
    structural parse, the layout it proves, and the plan of a layout. *)

From S2P Require Export GgufReader Contract.

Definition MAGIC : list byte := bstr "GGUF".
Definition DEFAULT_ALIGNMENT : Z := 32.
Definition MAX_METADATA_COUNT : Z := 1000000.
Definition MAX_TENSOR_COUNT : Z := 1000000.
Definition MAX_SYMBOL_BYTES : Z := 64 * 1024 * 1024.
Definition MAX_METADATA_INSPECTION_BYTES : Z := 64 * 1024 * 1024.
Definition MAX_METADATA_KEY_LEN : Z := 65535.
Definition MAX_TENSOR_NAME_LEN : Z := 63.
Definition GENERAL_ALIGNMENT : list byte := bstr "general.alignment".
Definition I64_MAX : Z := 2 ^ 63 - 1.

(** [struct TensorInfo]; [dimensions] has four elements. *)
Record tensor_info : Type := TensorInfo {
  ti_name : list byte; ti_dimensions : list Z; ti_dimension_count : Z;
  ti_ggml_type : Z; ti_offset : Z; ti_length : Z
}.

(** [struct Layout]. *)
Record gguf_layout : Type := GgufLayout {
  gl_alignment : Z; gl_directory_start : Z; gl_directory_end : Z; gl_data_start : Z;
  gl_tensors : list tensor_info
}.

Definition validate_counts (metadata_count tensor_count remaining : Z)
  : result parse_failure unit :=
  if (MAX_METADATA_COUNT <? metadata_count) || (MAX_TENSOR_COUNT <? tensor_count)
  then Err PF_Invalid
  else
    let! minimum := (let* bytes := checked_mul metadata_count 13 in
                     let* more := checked_mul tensor_count 24 in checked_add bytes more)
                    ?: PF_Invalid in
    if remaining <? minimum then Err PF_Invalid else Ok tt.

(** [segment.windows(2).all(|pair| pair != b"__")]. *)
Fixpoint no_double_underscore (segment : list byte) : bool :=
  match segment with
  | a :: ((b :: _) as tl) =>
      negb (bool_decide (a = underscore) && bool_decide (b = underscore))
      && no_double_underscore tl
  | _ => true
  end.

Definition is_lower_snake_case (segment : list byte) : bool :=
  match head segment with Some b => is_ascii_lowercase b | None => false end
  && match last segment with Some b => is_ascii_alphanumeric b | None => false end
  && no_double_underscore segment
  && forallb (fun b => is_ascii_lowercase b || is_ascii_digit b || bool_decide (b = underscore))
       segment.

Definition validate_key (key : list byte) : result parse_failure unit :=
  if bool_decide (key = [])
     || existsb (fun segment => negb (is_lower_snake_case segment)) (split_on (byte_of 46) key)
  then Err PF_Invalid else Ok tt.

Definition validate_name (name : list byte) : result parse_failure unit :=
  if bool_decide (byte_of 0 ∈ name) || negb (utf8_valid name) then Err PF_Invalid else Ok tt.

Definition charge_symbol_bytes (total length : Z) : result parse_failure Z :=
  let! total := checked_add total length ?: PF_Invalid in
  if MAX_SYMBOL_BYTES <? total then Err PF_Invalid else Ok total.

Definition tensor_length (dimensions : list Z) (block_elements block_bytes : Z)
  : result parse_failure Z :=
  let d k := default 1 (dimensions !! k) in
  if negb (is_multiple_of (d 0%nat) block_elements) then Err PF_Invalid
  else
    let! element_count := checked_product 1 dimensions ?: PF_Invalid in
    if I64_MAX <=? element_count then Err PF_Invalid
    else
      let! n := (let* row := checked_mul (d 0%nat / block_elements) block_bytes in
                 let* plane := checked_mul row (d 1%nat) in
                 let* cube := checked_mul plane (d 2%nat) in
                 checked_mul cube (d 3%nat)) ?: PF_Invalid in
      Ok n.

(** [align_up]: [(value + (alignment - 1)) & !(alignment - 1)]. *)
Definition align_up (value alignment : Z) : option Z :=
  let* sum := checked_add value (alignment - 1) in
  Some (Z.land sum (Z.lxor (U64 - 1) (alignment - 1))).

(** [u64::is_power_of_two]: one bit set. *)
Definition is_power_of_two (n : Z) : bool := (0 <? n) && (Z.land n (n - 1) =? 0).

Definition logical_shape (t : tensor_info) : list Z :=
  rev (take (Z.to_nat (ti_dimension_count t)) (ti_dimensions t)).

(** [ggml_layout]: elements and bytes of one encoded block. *)
Definition ggml_layout (ggml_type : Z) : result parse_failure (Z * Z) :=
  match ggml_type with
  | 0 => Ok (1, 4)
  | 1 => Ok (1, 2)
  | 2 => Ok (32, 18)
  | 3 => Ok (32, 20)
  | 6 => Ok (32, 22)
  | 7 => Ok (32, 24)
  | 8 => Ok (32, 34)
  | 9 => Ok (32, 40)
  | 10 => Ok (256, 84)
  | 11 => Ok (256, 110)
  | 12 => Ok (256, 144)
  | 13 => Ok (256, 176)
  | 14 => Ok (256, 210)
  | 15 => Ok (256, 292)
  | 16 => Ok (256, 66)
  | 17 => Ok (256, 74)
  | 18 => Ok (256, 98)
  | 19 => Ok (256, 50)
  | 20 => Ok (32, 18)
  | 21 => Ok (256, 110)
  | 22 => Ok (256, 82)
  | 23 => Ok (256, 136)
  | 24 => Ok (1, 1)
  | 25 => Ok (1, 2)
  | 26 => Ok (1, 4)
  | 27 => Ok (1, 8)
  | 28 => Ok (1, 8)
  | 29 => Ok (256, 56)
  | 30 => Ok (1, 2)
  | 34 => Ok (256, 54)
  | 35 => Ok (256, 66)
  | 39 => Ok (32, 17)
  | 40 => Ok (64, 36)
  | 41 => Ok (128, 18)
  | 42 => Ok (64, 18)
  | _ => Err PF_Invalid
  end.

(** [ggml_type_name]. *)
Definition ggml_type_name (ggml_type : Z) : option (list byte) :=
  match ggml_type with
  | 0 => Some (bstr "F32")
  | 1 => Some (bstr "F16")
  | 2 => Some (bstr "Q4_0")
  | 3 => Some (bstr "Q4_1")
  | 6 => Some (bstr "Q5_0")
  | 7 => Some (bstr "Q5_1")
  | 8 => Some (bstr "Q8_0")
  | 9 => Some (bstr "Q8_1")
  | 10 => Some (bstr "Q2_K")
  | 11 => Some (bstr "Q3_K")
  | 12 => Some (bstr "Q4_K")
  | 13 => Some (bstr "Q5_K")
  | 14 => Some (bstr "Q6_K")
  | 15 => Some (bstr "Q8_K")
  | 16 => Some (bstr "IQ2_XXS")
  | 17 => Some (bstr "IQ2_XS")
  | 18 => Some (bstr "IQ3_XXS")
  | 19 => Some (bstr "IQ1_S")
  | 20 => Some (bstr "IQ4_NL")
  | 21 => Some (bstr "IQ3_S")
  | 22 => Some (bstr "IQ2_S")
  | 23 => Some (bstr "IQ4_XS")
  | 24 => Some (bstr "I8")
  | 25 => Some (bstr "I16")
  | 26 => Some (bstr "I32")
  | 27 => Some (bstr "I64")
  | 28 => Some (bstr "F64")
  | 29 => Some (bstr "IQ1_M")
  | 30 => Some (bstr "BF16")
  | 34 => Some (bstr "TQ1_0")
  | 35 => Some (bstr "TQ2_0")
  | 39 => Some (bstr "MXFP4")
  | 40 => Some (bstr "NVFP4")
  | 41 => Some (bstr "Q1_0")
  | 42 => Some (bstr "Q2_0")
  | _ => None
  end.

(** [inventory]. *)
Definition gguf_inventory (l : gguf_layout) : tensor_inventory :=
  TensorInventory TF_GgufV1
    ((fun t => InventoryTensor (ti_name t)
        (default (bstr "UNKNOWN") (ggml_type_name (ti_ggml_type t))) (logical_shape t)
        (wadd (gl_data_start l) (ti_offset t)) (ti_length t)) <$> gl_tensors l).

(** ** Alignment *)

Lemma is_power_of_two_true n : is_power_of_two n = true -> exists k, 0 <= k /\ n = 2 ^ k.
Proof.
  unfold is_power_of_two. intros [Hn%Z.ltb_lt Hl%Z.eqb_eq]%andb_true_iff.
  exists (Z.log2 n). pose proof (Z.log2_nonneg n). split; [done|].
  pose proof (Z.log2_spec n Hn) as [Hlo Hhi].
  destruct (Z.eq_dec n (2 ^ Z.log2 n)) as [|Hne]; [done|].
  assert (Z.log2 (n - 1) = Z.log2 n) as Hlog by (apply Z.log2_unique; lia).
  assert (Z.testbit (Z.land n (n - 1)) (Z.log2 n) = true) as Hb.
  { rewrite Z.land_spec, Z.bit_log2 by done. rewrite <-Hlog at 1. by rewrite Z.bit_log2 by lia. }
  by rewrite Hl, Z.bits_0 in Hb.
Qed.

(** Clearing the low bits of a [u64] rounds down. *)
Lemma mask_low s k :
  0 <= s < U64 -> 0 <= k <= 64 ->
  Z.land s (Z.lxor (U64 - 1) (2 ^ k - 1)) = 2 ^ k * (s / 2 ^ k).
Proof.
  intros Hs Hk.
  change (U64 - 1) with (Z.ones 64). replace (2 ^ k - 1) with (Z.ones k) by (rewrite Z.ones_equiv; lia).
  rewrite Z.mul_comm, <-Z.shiftr_div_pow2, <-Z.shiftl_mul_pow2, <-Z.ldiff_ones_r by lia.
  apply Z.bits_inj'. intros i Hi. rewrite Z.land_spec, Z.lxor_spec, Z.ldiff_spec.
  destruct (Z.lt_ge_cases i 64).
  - by rewrite (Z.ones_spec_low 64) by lia.
  - rewrite (Z.bits_above_log2 s i); [done|lia|].
    destruct (Z.eq_dec s 0) as [->|]; [simpl; lia|]. apply Z.log2_lt_pow2; [lia|].
    apply Z.lt_le_trans with (2 ^ 64); [apply Hs|]. apply Z.pow_le_mono_r; lia.
Qed.

Lemma align_up_Some value k padded :
  0 <= value -> 0 <= k < 64 -> align_up value (2 ^ k) = Some padded ->
  padded = 2 ^ k * div_ceil value (2 ^ k) /\ value <= padded < value + 2 ^ k /\ padded < U64.
Proof.
  intros Hv Hk. unfold align_up. pose proof (Z.pow_pos_nonneg 2 k ltac:(lia) ltac:(lia)) as Hp.
  destruct (checked_add _ _) as [sum|] eqn:Ec; [|done]. intros [= <-].
  apply checked_add_Some in Ec as [-> Hlt]. rewrite mask_low by lia.
  replace (value + (2 ^ k - 1)) with (value + 2 ^ k - 1) in * by lia. fold (div_ceil value (2 ^ k)).
  pose proof (div_ceil_spec value (2 ^ k) Hp). split; [done|]. 
  pose proof (Z.mul_div_le (value + 2 ^ k - 1) (2 ^ k) Hp) as Hle. fold (div_ceil value (2 ^ k)) in Hle.
  nia.
Qed.

(** [align_up] is rounding up: for a power-of-two alignment it returns the
    least multiple of the alignment that is at least the value, and [None]
    exactly when [value + alignment - 1] does not fit in 64 bits. *)
Theorem align_up_correct value alignment :
  0 <= value -> 0 < alignment < U64 -> is_power_of_two alignment = true ->
  match align_up value alignment with
  | Some padded => value <= padded < U64 /\ (alignment | padded) /\
      forall m, (alignment | m) -> value <= m -> padded <= m
  | None => U64 <= value + alignment - 1
  end.
Proof.
  intros Hv Ha Hp. apply is_power_of_two_true in Hp as (k & Hk & ->).
  assert (k < 64) by (apply (Z.pow_lt_mono_r_iff 2); [lia..|]; apply Ha).
  destruct (align_up value (2 ^ k)) as [padded|] eqn:Ea.
  - apply align_up_Some in Ea as (-> & Hle & Hlt); [|lia..]. split; [lia|].
    split; [by eexists; rewrite Z.mul_comm|]. intros m [q ->] Hm.
    pose proof (div_ceil_spec value (2 ^ k) ltac:(lia)).
    assert (div_ceil value (2 ^ k) - 1 < q) by (apply (Z.mul_lt_mono_pos_l (2 ^ k)); lia). nia.
  - unfold align_up in Ea. destruct (checked_add _ _) eqn:Ec; [done|].
    apply checked_add_None in Ec. lia.
Qed.

Lemma align_up_correct_witness :
  align_up 1000 32 = Some 1024 /\
  match align_up 1000 32 with
  | Some padded => 1000 <= padded < U64 /\ (32 | padded) /\
      forall m, (32 | m) -> 1000 <= m -> padded <= m
  | None => U64 <= 1000 + 32 - 1
  end.
Proof.
  split; [vm_compute; reflexivity|].
  apply (align_up_correct 1000 32); [lia|unfold U64; lia|vm_compute; reflexivity].
Defined.

Section planner.
Context {S : Type} `{ByteSource S, Allocator}.

#[local] Abbreviation P A := (M (greader S) parse_failure A).

(** What the metadata loop of [parse] mutates, the reader aside. *)
Record metadata_state : Type := MetadataState {
  ms_keys : list (list byte); ms_symbol_bytes : Z; ms_budget : metadata_budget; ms_alignment : Z
}.

(** One metadata entry. *)
Definition metadata_entry (st : metadata_state) : P metadata_state :=
  let<- key := read_bounded_bytes MAX_METADATA_KEY_LEN in
  lift (validate_key key) ;;;
  let<- symbol_bytes := lift (charge_symbol_bytes (ms_symbol_bytes st) (zlen key)) in
  check (negb (bool_decide (key ∈ ms_keys st))) PF_Invalid ;;;
  let keys := key :: ms_keys st in
  let<- value_type := read_u32 in
  if bool_decide (key = GENERAL_ALIGNMENT) then
    check (value_type =? GGUF_TYPE_UINT32) PF_Invalid ;;;
    let<- budget := lift (charge_bytes (ms_budget st) 4) in
    let<- alignment := read_u32 in
    ret (MetadataState keys symbol_bytes budget alignment)
  else
    let<- budget := parse_metadata_value ARRAY_FUEL value_type 0 (ms_budget st) in
    ret (MetadataState keys symbol_bytes budget (ms_alignment st)).

(** What the directory loop of [parse] mutates. *)
Record directory_state : Type := DirectoryState {
  ds_names : list (list byte); ds_symbol_bytes : Z; ds_expected_offset : Z;
  ds_tensors : list tensor_info
}.

(** One dimension: at most [i64::MAX]. *)
Definition read_dimension (dimensions : list Z) : P (list Z) :=
  let<- dimension := read_u64 in
  check (dimension <=? I64_MAX) PF_Invalid ;;; ret (dimensions ++ [dimension]).

(** One directory entry. *)
Definition directory_entry (alignment : Z) (st : directory_state) : P directory_state :=
  let<- name := read_bounded_bytes MAX_TENSOR_NAME_LEN in
  lift (validate_name name) ;;;
  let<- symbol_bytes := lift (charge_symbol_bytes (ds_symbol_bytes st) (zlen name)) in
  check (negb (bool_decide (name ∈ ds_names st))) PF_Invalid ;;;
  check (utf8_valid name) PF_Invalid ;;;
  let<- dimension_count := read_u32 in
  check (dimension_count <=? 4) PF_Invalid ;;;
  let<- read_dimensions := repeat_m (Z.to_nat dimension_count) read_dimension [] in
  let dimensions := read_dimensions ++ replicate (Z.to_nat (4 - dimension_count)) 1 in
  let<- ggml_type := read_u32 in
  let<- '(block_elements, block_bytes) := lift (ggml_layout ggml_type) in
  let<- length := lift (tensor_length dimensions block_elements block_bytes) in
  let<- offset := read_u64 in
  check (offset =? ds_expected_offset st) PF_Invalid ;;;
  let<- expected_offset := lift (
    let! padded := align_up length alignment ?: PF_Invalid in
    let! next := checked_add (ds_expected_offset st) padded ?: PF_Invalid in Ok next) in
  ret (DirectoryState (name :: ds_names st) symbol_bytes expected_offset
    (ds_tensors st ++ [TensorInfo name dimensions dimension_count ggml_type offset length])).

(** The header, the metadata loop and the alignment check. *)
Definition parse_metadata : P (Z * metadata_state) :=
  let<- magic := read 4 in
  check (bool_decide (magic = MAGIC)) PF_Invalid ;;;
  let<- version := read_u32 in
  check ((version =? 2) || (version =? 3)) PF_Invalid ;;;
  let<- tensor_count := read_u64 in
  let<- metadata_count := read_u64 in
  let<- remaining := gets g_remaining in
  lift (validate_counts metadata_count tensor_count remaining) ;;;
  limit_next MAX_METADATA_INSPECTION_BYTES ;;;
  let<- st := repeat_m (Z.to_nat metadata_count) metadata_entry
                (MetadataState [] 0 (Budget 0 0) DEFAULT_ALIGNMENT) in
  clear_limit ;;;
  check (negb ((ms_alignment st <? 8) || negb (is_power_of_two (ms_alignment st)))) PF_Invalid ;;;
  ret (tensor_count, st).

(** The directory loop and the final size check. *)
Definition parse_directory (tensor_count : Z) (metadata : metadata_state) : P gguf_layout :=
  let alignment := ms_alignment metadata in
  let<- directory_start := gets g_position in
  check (try_reserve tensor_count) PF_ResourceExhausted ;;;
  let<- st := repeat_m (Z.to_nat tensor_count) (directory_entry alignment)
                (DirectoryState [] (ms_symbol_bytes metadata) 0 []) in
  let<- directory_end := gets g_position in
  let<- data_start := lift (
    if bool_decide (ds_tensors st = []) then Ok directory_end
    else let! start := align_up directory_end alignment ?: PF_Invalid in Ok start) in
  let<- expected_file_size := lift (
    let! size := checked_add data_start (ds_expected_offset st) ?: PF_Invalid in Ok size) in
  let<- length := gets g_length in
  check (expected_file_size =? length) PF_Invalid ;;;
  ret (GgufLayout alignment directory_start directory_end data_start (ds_tensors st)).

(** [parse]: on a source, through a fresh reader. *)
Definition parse : M S parse_failure gguf_layout := fun source =>
  let (res, r) := (let<- '(tensor_count, metadata) := parse_metadata in
                   parse_directory tensor_count metadata) (greader_new source) in
  (res, g_source r).

(** The mapping of grid errors to parse failures in [append_domain] and
    [append_seamed_domain]. *)
Definition domain_failure (e : plan_error) : parse_failure :=
  match e with
  | PE_ResourceExhausted => PF_ResourceExhausted
  | _ => PF_Invalid
  end.
Definition append_domain (regions : list region) (offset length : Z) (kind : region_kind)
  : result parse_failure (list region) :=
  map_err domain_failure (append_split_region regions offset length kind).
Definition append_seamed_domain (regions : list region) (offset length : Z) (seams : list Z)
  : result parse_failure (list region) :=
  map_err domain_failure (append_tensor_regions regions offset length seams RK_Tensor).

(** The seams a contract declares for a tensor. *)
Definition gguf_seams (contract : option contract) (t : tensor_info) : option (list Z) :=
  match contract with
  | None => Some []
  | Some c => seam_offsets c (ti_name t) (logical_shape t) (ti_length t)
  end.

(** One tensor of [plan_layout]: its extent, then its own padding. *)
Definition plan_tensor (contract : option contract) (l : gguf_layout) (regions : list region)
    (t : tensor_info) : result parse_failure (list region) :=
  let! tensor_start := checked_add (gl_data_start l) (ti_offset t) ?: PF_Invalid in
  let! seams := gguf_seams contract t ?: PF_Panic in
  let? regions := append_seamed_domain regions tensor_start (ti_length t) seams in
  let! padded_length := align_up (ti_length t) (gl_alignment l) ?: PF_Invalid in
  append_domain regions (wadd tensor_start (ti_length t)) (wsub padded_length (ti_length t))
    RK_Header.

Definition plan_layout `{Sha256} (file_size : Z) (l : gguf_layout) (contract : option contract)
  : result parse_failure plan :=
  let? regions := append_domain [] 0 (gl_directory_start l) RK_Header in
  let? regions := append_domain regions (gl_directory_start l)
                    (wsub (gl_directory_end l) (gl_directory_start l)) RK_Header in
  let? regions := append_domain regions (gl_directory_end l)
                    (wsub (gl_data_start l) (gl_directory_end l)) RK_Header in
  let? regions := for_each (plan_tensor contract l) regions (gl_tensors l) in
  Ok (Plan GgufV1 match contract with None => StampNone | Some c => contract_stamp c end
        file_size regions).

(** The seams a plan has followed. *)
Definition declared_seams (contract : option contract) (t : tensor_info) : list Z :=
  default [] (gguf_seams contract t).

(** [lift]. *)
Definition lift_failure {A} (r : result parse_failure A) : result plan_error (option A) :=
  match r with
  | Ok value => Ok (Some value)
  | Err PF_Invalid => Ok None
  | Err (PF_Read e) => Err (PE_Read e)
  | Err PF_ResourceExhausted => Err PE_ResourceExhausted
  | Err PF_Panic => Err PE_Panic
  end.

(** [try_plan] and [read_layout]. *)
Definition gguf_try_plan `{Sha256} (contract : option contract) : M S plan_error (option plan) :=
  fun source =>
  let (res, source') := parse source in
  (lift_failure (let? l := res in plan_layout (src_len source') l contract), source').
Definition gguf_read_layout : M S plan_error (option gguf_layout) := fun source =>
  let (res, source') := parse source in (lift_failure res, source').

(** ** The layout a successful parse proves *)

Definition padded_length (alignment length : Z) : Z := alignment * div_ceil length alignment.

(** Tensors back to back from [offset], each padded to the alignment. *)
Fixpoint packed (alignment offset : Z) (tensors : list tensor_info) (total : Z) : Prop :=
  match tensors with
  | [] => offset = total
  | t :: tensors =>
      ti_offset t = offset /\
      packed alignment (offset + padded_length alignment (ti_length t)) tensors total
  end.

(** A directory entry in order: a usable name, four dimensions, a known block
    type and the length that type gives the shape. *)
Record tensor_wf (t : tensor_info) : Prop := {
  tw_name : zlen (ti_name t) <= MAX_TENSOR_NAME_LEN /\ is_utf8 (ti_name t) /\
            byte_of 0 ∉ ti_name t;
  tw_dims : length (ti_dimensions t) = 4%nat /\ 0 <= ti_dimension_count t <= 4 /\
            Forall (fun d => 0 <= d <= I64_MAX) (ti_dimensions t);
  tw_length : exists block_elements block_bytes,
      ggml_layout (ti_ggml_type t) = Ok (block_elements, block_bytes) /\
      (block_elements | default 1 (ti_dimensions t !! 0%nat)) /\
      ti_length t * block_elements = foldr Z.mul 1 (ti_dimensions t) * block_bytes;
  tw_range : 0 <= ti_length t < U64
}.

Record layout_wf (n : Z) (l : gguf_layout) : Prop := {
  lw_alignment : exists k, 3 <= k < 32 /\ gl_alignment l = 2 ^ k;
  lw_order : 24 <= gl_directory_start l <= gl_directory_end l /\
             gl_directory_end l <= gl_data_start l < gl_directory_end l + gl_alignment l;
  lw_packed : exists total, packed (gl_alignment l) 0 (gl_tensors l) total /\
              gl_data_start l + total = n;
  lw_tensors : Forall tensor_wf (gl_tensors l);
  lw_names : NoDup (ti_name <$> gl_tensors l)
}.

Lemma ggml_layout_pos t be bb : ggml_layout t = Ok (be, bb) -> 0 < be /\ 0 < bb.
Proof. unfold ggml_layout. intros Hg. repeat case_match; simplify_eq; lia. Qed.

Lemma ggml_layout_Err t e : ggml_layout t = Err e -> e = PF_Invalid.
Proof. unfold ggml_layout. intros Hg. repeat case_match; by simplify_eq. Qed.

(** Every checked product in the goal fits. *)
Ltac checked_muls :=
  repeat match goal with |- context [checked_mul ?x ?y] =>
    let E := fresh "E" in destruct (checked_mul x y) eqn:E; simpl; try done;
    apply checked_mul_Some in E as [-> E] end.

Lemma tensor_length_Ok dims be bb n :
  length dims = 4%nat -> Forall (fun d => 0 <= d <= I64_MAX) dims -> 0 < be -> 0 < bb ->
  tensor_length dims be bb = Ok n ->
  (be | default 1 (dims !! 0%nat)) /\ n * be = foldr Z.mul 1 dims * bb /\ 0 <= n < U64.
Proof.
  intros Hlen Hf Hbe Hbb. destruct dims as [|a [|b [|c [|d [|]]]]]; try done.
  rewrite !Forall_cons in Hf. destruct Hf as (Ha & Hb & Hc & Hd & _).
  unfold tensor_length. simpl.
  destruct (is_multiple_of a be) eqn:Em; [|done]. apply is_multiple_of_true in Em; [|lia].
  checked_muls. destruct (I64_MAX <=? _); [done|]. checked_muls. intros [= <-].
  pose proof (Z.div_pos a be ltac:(lia) Hbe). split; [exists (a / be); lia|].
  split; [rewrite Em at 2; ring|]. split; [|done]. repeat apply Z.mul_nonneg_nonneg; lia.
Qed.

Lemma tensor_length_Err dims be bb e : tensor_length dims be bb = Err e -> e = PF_Invalid.
Proof. unfold tensor_length. intros He. repeat case_match; by simplify_eq. Qed.
Lemma validate_key_Err key e : validate_key key = Err e -> e = PF_Invalid.
Proof. unfold validate_key. intros He. repeat case_match; by simplify_eq. Qed.
Lemma validate_name_Err name e : validate_name name = Err e -> e = PF_Invalid.
Proof. unfold validate_name. intros He. repeat case_match; by simplify_eq. Qed.
Lemma charge_symbol_bytes_Err a b e : charge_symbol_bytes a b = Err e -> e = PF_Invalid.
Proof. unfold charge_symbol_bytes. intros He. repeat case_match; by simplify_eq. Qed.
Lemma validate_counts_Err a b c e : validate_counts a b c = Err e -> e = PF_Invalid.
Proof. unfold validate_counts. intros He. repeat case_match; by simplify_eq. Qed.
Lemma or_invalid_Err {A} (o : option A) e :
  (let! a := o ?: PF_Invalid in Ok a) = Err e -> e = PF_Invalid.
Proof. destruct o; congruence. Qed.
Hint Resolve ggml_layout_Err tensor_length_Err validate_key_Err validate_name_Err
  charge_symbol_bytes_Err validate_counts_Err or_invalid_Err charge_bytes_Err : rust.

(** Steps of the parse, in triples that keep the reader at or past [p]. *)
Ltac pure_step x H :=
  eapply t_bind; [apply t_pure_step; eauto with rust|]; intros x; apply t_pure; intros H.
Ltac verdict H := eapply t_bind; [apply t_verdict|]; intros []; apply t_pure; intros H.
Ltac read_step L x H :=
  eapply t_bind; [eapply t_at_step; [|apply L]; lia|]; intros x; apply t_pure; intros H.

Lemma t_bounded_bytes n p max :
  0 <= p ->
  triple (g_at n p) (read_bounded_bytes max) (fun bytes r => zlen bytes <= max /\ g_at n p r) (bad n).
Proof.
  intros Hp. eapply t_conseq; [apply t_read_bounded_bytes|done| |done].
  intros bytes r [Hb Hr]. split; [lia|]. eapply g_at_weaken; [done|lia].
Qed.

(** The alignment a metadata loop can hold is a [u32]. *)
Lemma t_metadata_entry n p st :
  0 <= p -> in_u32 (ms_alignment st) ->
  triple (g_at n p) (metadata_entry st) (fun st r => in_u32 (ms_alignment st) /\ g_at n p r) (bad n).
Proof.
  intros Hp Hst. eapply t_bind; [by apply t_bounded_bytes|]. intros key. apply t_pure. intros _.
  pure_step u Hkey. pure_step symbols Hsym. verdict Hnew. cbv zeta.
  read_step t_read_u32 value_type Ht. destruct (bool_decide (key = GENERAL_ALIGNMENT)).
  - verdict Hty. pure_step budget Hb. read_step t_read_u32 alignment Ha. apply t_ret. auto.
  - eapply t_bind; [by apply t_parse_metadata_value|]. intros budget. apply t_ret. auto.
Qed.

Lemma t_read_dimension n p dims :
  0 <= p -> Forall (fun d => 0 <= d <= I64_MAX) dims ->
  triple (g_at n p) (read_dimension dims)
    (fun dims' r => (length dims' = Datatypes.S (length dims) /\
       Forall (fun d => 0 <= d <= I64_MAX) dims') /\ g_at n p r) (bad n).
Proof.
  intros Hp Hd. read_step t_read_u64 d Hr. verdict Hle. apply t_ret. intros r Hat.
  split; [|done]. split; [rewrite length_app; simpl; lia|]. apply Forall_app.
  split; [done|]. apply Forall_singleton. unfold in_u64 in Hr. lia.
Qed.

Lemma t_read_dimensions n p count :
  0 <= p ->
  triple (g_at n p) (repeat_m count read_dimension [])
    (fun dims r => (length dims = count /\ Forall (fun d => 0 <= d <= I64_MAX) dims) /\ g_at n p r)
    (bad n).
Proof.
  intros Hp. eapply t_conseq; [apply (t_repeat count read_dimension [] (fun k dims r =>
    (length dims = k /\ Forall (fun d => 0 <= d <= I64_MAX) dims) /\ g_at n p r))| |done|done].
  - intros k dims _. apply t_pure. intros [<- Hd]. by apply t_read_dimension.
  - intros r Hr. split; [|done]. by split; [|constructor].
Qed.

(** The directory read so far. *)
Record directory_ok (alignment : Z) (st : directory_state) : Prop := {
  do_names : forall name, name ∈ ds_names st <-> name ∈ ti_name <$> ds_tensors st;
  do_nodup : NoDup (ti_name <$> ds_tensors st);
  do_tensors : Forall tensor_wf (ds_tensors st);
  do_packed : packed alignment 0 (ds_tensors st) (ds_expected_offset st);
  do_range : 0 <= ds_expected_offset st < U64
}.

Lemma packed_snoc alignment offset ts total t :
  packed alignment offset ts total -> ti_offset t = total ->
  packed alignment offset (ts ++ [t]) (total + padded_length alignment (ti_length t)).
Proof.
  revert offset. induction ts as [|t' ts IH]; simpl; intros offset; [by intros -> ->|].
  intros [-> Hp] Ht. by split; [|apply IH].
Qed.

Lemma expected_offset_Ok expected length k next :
  0 <= expected -> 0 <= length -> 0 <= k < 64 ->
  (let! padded := align_up length (2 ^ k) ?: PF_Invalid in
   let! next := checked_add expected padded ?: PF_Invalid in Ok next) = Ok next ->
  next = expected + padded_length (2 ^ k) length /\ 0 <= next < U64.
Proof.
  intros He Hl Hk. destruct (align_up _ _) as [padded|] eqn:Ea; [|done].
  apply align_up_Some in Ea as (-> & Hle & _); [|lia..].
  destruct (checked_add _ _) eqn:Ec; [|done]. apply checked_add_Some in Ec as [-> ?].
  intros [= <-]. unfold padded_length. split; [done|lia].
Qed.

Lemma expected_offset_Err expected length alignment e :
  (let! padded := align_up length alignment ?: PF_Invalid in
   let! next := checked_add expected padded ?: PF_Invalid in Ok next) = Err e -> e = PF_Invalid.
Proof. repeat case_match; congruence. Qed.
Hint Resolve expected_offset_Err : rust.

Lemma new_tensor_wf name dims count ggml_type be bb expected length :
  zlen name <= MAX_TENSOR_NAME_LEN -> validate_name name = Ok tt -> 0 <= count <= 4 ->
  Datatypes.length dims = Z.to_nat count -> Forall (fun d => 0 <= d <= I64_MAX) dims ->
  ggml_layout ggml_type = Ok (be, bb) ->
  tensor_length (dims ++ replicate (Z.to_nat (4 - count)) 1) be bb = Ok length ->
  tensor_wf (TensorInfo name (dims ++ replicate (Z.to_nat (4 - count)) 1) count ggml_type
    expected length).
Proof.
  intros Hname Hv Hc Hlen Hd Hg Ht. destruct (ggml_layout_pos _ _ _ Hg) as [Hbe Hbb].
  set (all := dims ++ replicate _ _) in *.
  assert (Datatypes.length all = 4%nat) as Hl.
  { unfold all. rewrite length_app, length_replicate. lia. }
  assert (Forall (fun d => 0 <= d <= I64_MAX) all) as Hf.
  { apply Forall_app. split; [done|]. apply Forall_replicate. unfold I64_MAX. lia. }
  destruct (tensor_length_Ok _ _ _ _ Hl Hf Hbe Hbb Ht) as (Hdiv & Hprod & Hrange).
  unfold validate_name in Hv. destruct (_ || _) eqn:Ev in Hv; [done|].
  apply orb_false_elim in Ev as [Ez%bool_decide_eq_false Eu%negb_false_iff].
  constructor; simpl; eauto.
Qed.

Lemma directory_ok_snoc k st t next symbols :
  0 <= k < 64 -> directory_ok (2 ^ k) st -> tensor_wf t -> ti_name t ∉ ds_names st ->
  ti_offset t = ds_expected_offset st ->
  next = ds_expected_offset st + padded_length (2 ^ k) (ti_length t) -> 0 <= next < U64 ->
  directory_ok (2 ^ k) (DirectoryState (ti_name t :: ds_names st) symbols next (ds_tensors st ++ [t])).
Proof.
  intros Hk [Hn Hnd Ht Hp Hr] Hwf Hnew Hoff -> Hrange. constructor; simpl.
  - intros name. rewrite fmap_app, elem_of_cons, elem_of_app, Hn. simpl. set_solver.
  - rewrite fmap_app. apply NoDup_app. split; [done|]. split; [|apply NoDup_singleton].
    intros x Hx. simpl. rewrite <-Hn in Hx. set_solver.
  - apply Forall_app. by rewrite Forall_singleton.
  - by apply packed_snoc.
  - done.
Qed.

Lemma t_directory_entry n p k st :
  0 <= p -> 0 <= k < 64 -> directory_ok (2 ^ k) st ->
  triple (g_at n p) (directory_entry (2 ^ k) st)
    (fun st' r => (directory_ok (2 ^ k) st' /\
       length (ds_tensors st') = Datatypes.S (length (ds_tensors st))) /\ g_at n p r) (bad n).
Proof.
  intros Hp Hk Hst. eapply t_bind; [by apply t_bounded_bytes|]. intros name. apply t_pure.
  intros Hname. pure_step u Hv. destruct u. pure_step symbols Hsym. verdict Hnew. verdict Hutf.
  read_step t_read_u32 count Hcount. verdict Hle. unfold in_u32 in Hcount.
  eapply t_bind; [by apply t_read_dimensions|]. intros dims. apply t_pure. intros [Hlen Hd].
  cbv zeta. read_step t_read_u32 ggml_type Hty.
  eapply t_bind; [apply t_pure_step; eauto with rust|]. intros [be bb]. apply t_pure. intros Hg.
  pure_step extent Hlength. read_step t_read_u64 offset Hoff. verdict Heq.
  assert (tensor_wf (TensorInfo name (dims ++ replicate (Z.to_nat (4 - count)) 1) count ggml_type
    offset extent)) as Hwf by (eapply new_tensor_wf; eauto; lia).
  pure_step next Hnext. apply expected_offset_Ok in Hnext as [Hn Hr];
    [|apply Hst|apply (tw_range _ Hwf)|done].
  apply t_ret. intros r Hat. split; [|done]. split; [|simpl; rewrite length_app; simpl; lia].
  apply negb_true_iff, bool_decide_eq_false in Hnew. apply Z.eqb_eq in Heq.
  by apply (directory_ok_snoc k st
    (TensorInfo name (dims ++ replicate (Z.to_nat (4 - count)) 1) count ggml_type offset extent)).
Qed.

Lemma t_parse_metadata n :
  triple (g_at n 0) parse_metadata
    (fun res r => (in_u64 res.1 /\ exists k, 3 <= k < 32 /\ ms_alignment res.2 = 2 ^ k) /\ g_at n 24 r)
    (bad n).
Proof.
  eapply t_bind; [by apply t_read|]. intros magic. apply t_pure. intros _. verdict Hm.
  eapply t_bind; [apply t_read_u32|]. intros version. apply t_pure. intros _. verdict Hv.
  eapply t_bind; [apply t_read_u64|]. intros tensor_count. apply t_pure. intros Htc.
  eapply t_bind; [apply t_read_u64|]. intros metadata_count. apply t_pure. intros Hmc.
  change (0 + 4 + 4 + 8 + 8) with 24.
  eapply t_bind; [by apply (t_gets _ _ (fun _ => g_at n 24))|]. intros remaining.
  pure_step u Hc. eapply t_bind.
  { intros r Hr. instantiate (1 := fun _ => g_at n 24). unfold limit_next.
    destruct (checked_add _ _); [done|by eapply bad_invalid]. }
  intros [].
  eapply t_bind.
  { eapply t_conseq; [apply (t_repeat _ metadata_entry _ (fun _ st r =>
      in_u32 (ms_alignment st) /\ g_at n 24 r))| |intros st r Hr; exact Hr|done].
    - intros i st _. apply t_pure. intros Hst. by apply t_metadata_entry.
    - intros r Hr. split; [|done]. simpl. unfold in_u32, DEFAULT_ALIGNMENT, U32. lia. }
  intros st. apply t_pure. intros Hal.
  eapply t_bind; [by apply (t_modify _ _ (fun _ => g_at n 24))|]. intros [].
  verdict Hpow. apply t_ret. intros r Hr. split; [|done]. split; [done|]. simpl.
  apply negb_true_iff, orb_false_elim in Hpow as [H8 Hp%negb_false_iff].
  apply is_power_of_two_true in Hp as (k & Hk & Heq). rewrite Heq in *. exists k.
  split; [|done]. change 8 with (2 ^ 3) in H8. unfold in_u32, U32 in Hal.
  split; [apply (Z.pow_le_mono_r_iff 2); lia|apply (Z.pow_lt_mono_r_iff 2); lia].
Qed.

Lemma t_position n p :
  0 <= p ->
  triple (g_at n p) (gets g_position : P Z) (fun v r => p <= v <= n /\ g_at n v r) (bad n).
Proof. intros Hp. apply t_gets. intros r Hr. unfold g_at in *. intuition lia. Qed.

Lemma data_start_Ok (empty : bool) stop k start :
  0 <= stop -> 3 <= k < 32 ->
  (if empty then Ok stop
   else let! start := align_up stop (2 ^ k) ?: PF_Invalid in Ok start) = Ok start ->
  stop <= start < stop + 2 ^ k /\ (empty = true -> start = stop).
Proof.
  intros Hs Hk. destruct empty; [intros [= <-]; split; [|done]; split; [lia|];
    pose proof (Z.pow_pos_nonneg 2 k ltac:(lia) ltac:(lia)); lia|].
  destruct (align_up _ _) as [padded|] eqn:Ea; [|done]. intros [= <-].
  apply align_up_Some in Ea as (_ & ? & _); [|lia..]. done.
Qed.

Lemma data_start_Err (empty : bool) stop alignment e :
  (if empty then Ok stop
   else let! start := align_up stop alignment ?: PF_Invalid in Ok start) = Err e -> e = PF_Invalid.
Proof. repeat case_match; congruence. Qed.
Hint Resolve data_start_Err : rust.

Lemma t_parse_directory n tensor_count st :
  (exists k, 3 <= k < 32 /\ ms_alignment st = 2 ^ k) ->
  triple (g_at n 24) (parse_directory tensor_count st)
    (fun l r => layout_wf n l /\ src_len (g_source r) = n) (bad n).
Proof.
  intros (k & Hk & Hal). unfold parse_directory. cbv zeta. rewrite Hal.
  eapply t_bind; [by apply t_position|]. intros start. apply t_pure. intros Hstart.
  eapply t_bind; [apply t_reserve; intros r Hr; apply Hr|]. intros [].
  eapply t_bind.
  { eapply t_conseq; [apply (t_repeat _ (directory_entry (2 ^ k)) _ (fun _ st r =>
      directory_ok (2 ^ k) st /\ g_at n start r))| |intros ds r Hr; exact Hr|done].
    - intros i ds _. apply t_pure. intros Hds.
      eapply t_conseq; [apply (t_directory_entry n start k ds); [lia|lia|done]|done| |done].
      intros ds' r [[? _] ?]. done.
    - intros r Hr. split; [|done]. constructor; simpl; try constructor; try done; set_solver. }
  intros ds. apply t_pure. intros [Hn Hnd Hts Hpk Hrg].
  eapply t_bind; [apply t_position; lia|]. intros stop. apply t_pure. intros Hstop.
  pure_step data_start Hd. apply data_start_Ok in Hd as [Hd _]; [|lia..].
  pure_step fsize Hsize. destruct (checked_add data_start _) as [x|] eqn:Ec; [|done].
  apply checked_add_Some in Ec as [-> _]. injection Hsize as <-.
  eapply t_bind.
  { apply (t_gets _ _ (fun v r => v = n /\ g_at n stop r)). intros r Hr.
    split; [apply Hr|done]. }
  intros v. apply t_pure. intros ->. verdict Heq. apply t_ret. intros r Hr.
  split; [|apply Hr]. apply Z.eqb_eq in Heq. constructor; simpl; eauto; lia.
Qed.

(** A parse that succeeds proves the layout of the whole file; over a reliable
    source the only failure is a verdict. *)
Lemma t_parse n s :
  src_len s = n -> in_u64 n ->
  src_len (parse s).2 = n /\
  match (parse s).1 with
  | Ok l => layout_wf n l
  | Err e => reliable S -> e = PF_Invalid
  end.
Proof.
  intros Hs Hn. unfold parse.
  assert (triple (g_at n 0) (let<- '(tensor_count, metadata) := parse_metadata in
    parse_directory tensor_count metadata)
    (fun l r => layout_wf n l /\ src_len (g_source r) = n) (bad n)) as Ht.
  { eapply t_bind; [apply t_parse_metadata|]. intros [tensor_count st]. apply t_pure.
    intros [_ Hk]. by apply t_parse_directory. }
  assert (g_at n 0 (greader_new s)) as Hg
    by (unfold g_at, greader_new, in_u64 in *; simpl; lia).
  specialize (Ht _ Hg). destruct (bind _ _ _) as [[l|e] r]; destruct Ht; simpl; auto.
Qed.

(** ** The plan of a layout *)

Lemma append_domain_covers regions offset length kind regions' :
  0 <= offset -> 0 <= length -> offset + length < U64 ->
  append_domain regions offset length kind = Ok regions' ->
  exists new, regions' = regions ++ new /\ covers kind offset (offset + length) new /\
    zlen regions' <= MAX_OBJECT_COUNT.
Proof. intros Ho Hl Hlt Happ%map_err_Ok. by apply append_split_covers. Qed.

Lemma packed_le alignment offset ts total :
  0 < alignment -> Forall tensor_wf ts -> packed alignment offset ts total -> offset <= total.
Proof.
  intros Ha Hf. revert offset. induction Hf as [|t ts Ht Hf IH]; simpl; intros offset; [lia|].
  intros [_ Hp%IH]. pose proof (tw_range _ Ht). unfold padded_length in Hp.
  pose proof (div_ceil_spec (ti_length t) alignment Ha). nia.
Qed.

Lemma packed_offset alignment offset ts total t :
  0 < alignment -> Forall tensor_wf ts -> packed alignment offset ts total -> t ∈ ts ->
  offset <= ti_offset t /\ ti_offset t + padded_length alignment (ti_length t) <= total.
Proof.
  intros Ha Hf. revert offset. induction Hf as [|t' ts Ht Hf IH]; intros offset; simpl.
  { by intros _ ?%not_elem_of_nil. }
  intros [<- Hp] [->|Hin]%elem_of_cons.
  { pose proof (packed_le _ _ _ _ Ha Hf Hp). lia. }
  apply IH in Hp as [Hlo Hhi]; [|done]. pose proof (tw_range _ Ht). unfold padded_length in Hlo at 1.
  pose proof (div_ceil_spec (ti_length t') alignment Ha). nia.
Qed.

Lemma layout_tensor_start n l t :
  layout_wf n l -> t ∈ gl_tensors l -> 0 <= gl_data_start l + ti_offset t.
Proof.
  intros [(k & Hk & Hal) Hord (total & Hp & _) Hts _] Ht. rewrite Hal in Hp.
  pose proof (Z.pow_pos_nonneg 2 k ltac:(lia) ltac:(lia)) as Hpos.
  destruct (packed_offset _ _ _ _ _ Hpos Hts Hp Ht). lia.
Qed.

(** One tensor: its bytes are a run of tensor regions, its padding a run of
    header regions. *)
Lemma plan_tensor_Ok c l k regions t regions' :
  gl_alignment l = 2 ^ k -> 3 <= k < 32 -> tensor_wf t -> 0 <= ti_offset t ->
  0 <= gl_data_start l ->
  gl_data_start l + ti_offset t + padded_length (2 ^ k) (ti_length t) < U64 ->
  tiles MAX_OBJECT_SIZE 0 (gl_data_start l + ti_offset t) regions ->
  plan_tensor c l regions t = Ok regions' ->
  (exists new, regions' = regions ++ new /\ zlen regions' <= MAX_OBJECT_COUNT /\
    tiles MAX_OBJECT_SIZE (gl_data_start l + ti_offset t)
      (gl_data_start l + ti_offset t + padded_length (2 ^ k) (ti_length t)) new) /\
  isolated regions' (gl_data_start l + ti_offset t + padded_length (2 ^ k) (ti_length t))
    (gl_data_start l + ti_offset t) (ti_length t) (declared_seams c t).
Proof.
  intros Hal Hk Hwf Ho Hds Hlt Htiles Hpt. unfold plan_tensor in Hpt.
  pose proof (tw_range _ Hwf) as Hr. pose proof (Z.pow_pos_nonneg 2 k ltac:(lia) ltac:(lia)).
  pose proof (div_ceil_spec (ti_length t) (2 ^ k) ltac:(lia)) as Hd.
  fold (padded_length (2 ^ k) (ti_length t)) in Hd. set (n := padded_length _ _) in *.
  destruct (checked_add _ _) as [start|] eqn:Ec; [|done]. apply checked_add_Some in Ec as [-> _].
  set (start := gl_data_start l + ti_offset t) in *.
  unfold declared_seams. destruct (gguf_seams c t) as [seams|]; [|done]. simpl in *.
  destruct (append_seamed_domain _ _ _ _) as [r1|] eqn:E1; [|done].
  apply map_err_Ok, append_tensor_covers in E1 as (-> & Hs & _ & Hdata); [|lia..].
  set (data := lay start _ _) in *.
  rewrite Hal in Hpt. destruct (align_up _ _) as [padded|] eqn:Ea; [|done].
  apply align_up_Some in Ea as (Hpad & _); [|lia..]. change (padded = n) in Hpad. subst padded.
  rewrite wadd_small, wsub_small in Hpt by lia.
  apply append_domain_covers in Hpt as (pad & -> & [Hpad _] & Hcount); [|lia..].
  replace (start + ti_length t + (n - ti_length t)) with (start + n) in Hpad by lia. split.
  - exists (data ++ pad). rewrite <-app_assoc. split; [done|]. split; [by rewrite app_assoc|].
    eapply tiles_app; [apply Hdata|done].
  - exists regions, pad. rewrite <-app_assoc. done.
Qed.

Lemma plan_tensors_Ok c l k ts : gl_alignment l = 2 ^ k -> 3 <= k < 32 -> 0 <= gl_data_start l ->
  Forall tensor_wf ts -> forall offset total regions regions',
  0 <= offset -> packed (2 ^ k) offset ts total -> gl_data_start l + total < U64 ->
  tiles MAX_OBJECT_SIZE 0 (gl_data_start l + offset) regions -> zlen regions <= MAX_OBJECT_COUNT ->
  for_each (plan_tensor c l) regions ts = Ok regions' ->
  (exists new, regions' = regions ++ new /\ zlen regions' <= MAX_OBJECT_COUNT /\
    tiles MAX_OBJECT_SIZE (gl_data_start l + offset) (gl_data_start l + total) new) /\
  Forall (fun t => isolated regions' (gl_data_start l + total)
                     (gl_data_start l + ti_offset t) (ti_length t) (declared_seams c t)) ts.
Proof.
  intros Hal Hk Hds Hf. pose proof (Z.pow_pos_nonneg 2 k ltac:(lia) ltac:(lia)) as Hpos.
  induction Hf as [|t ts Hwf Hf IH]; intros offset total regions regions' Ho Hp Hlt Ht Hc Hrun.
  { injection Hrun as <-. simpl in Hp. subst. split; [|constructor].
    exists []. rewrite app_nil_r. done. }
  destruct Hp as [Hto Hp]. cbn [for_each] in Hrun.
  pose proof (packed_le _ _ _ _ Hpos Hf Hp) as Hle.
  pose proof (tw_range _ Hwf) as Hr.
  pose proof (div_ceil_spec (ti_length t) (2 ^ k) Hpos) as Hd.
  fold (padded_length (2 ^ k) (ti_length t)) in Hd.
  destruct (plan_tensor c l regions t) as [r1|] eqn:E1; [|done].
  apply (plan_tensor_Ok c l k) in E1 as [(new1 & -> & Hc1 & Hn1) Hiso];
    [|try done; rewrite ?Hto; (done || lia)..].
  rewrite Hto in *. rewrite <-Z.add_assoc in Hn1, Hiso.
  apply (IH (offset + padded_length (2 ^ k) (ti_length t)) total) in Hrun
    as [(new2 & -> & Hc2 & Hn2) Hall]; [|lia|done|done|by eapply tiles_app|done].
  split.
  - exists (new1 ++ new2). rewrite <-app_assoc. split; [done|].
    split; [by rewrite app_assoc|by eapply tiles_app].
  - constructor; [|done]. rewrite Hto. by eapply isolated_app.
Qed.

(** What a GGUF plan of a layout is: a valid plan of the whole file that
    carries the contract's stamp, with the three header domains apart from the
    data and every tensor's extent a run of tensor regions of its own. *)
Record gguf_plan_ok `{Sha256} (c : option contract) (l : gguf_layout) (p : plan) : Prop := {
  gp_planner : p_planner p = GgufV1;
  gp_stamp : p_contract p = match c with None => StampNone | Some c => contract_stamp c end;
  gp_wf : wf_plan p;
  gp_header : exists metadata directory padding data,
    p_regions p = metadata ++ directory ++ padding ++ data /\
    covers RK_Header 0 (gl_directory_start l) metadata /\
    covers RK_Header (gl_directory_start l) (gl_directory_end l) directory /\
    covers RK_Header (gl_directory_end l) (gl_data_start l) padding /\
    tiles MAX_OBJECT_SIZE (gl_data_start l) (p_file_size p) data;
  gp_tensors : Forall (fun t => isolated (p_regions p) (p_file_size p)
                 (gl_data_start l + ti_offset t) (ti_length t) (declared_seams c t)) (gl_tensors l)
}.

Lemma plan_layout_Ok `{Sha256} n l c p :
  layout_wf n l -> in_u64 n -> plan_layout n l c = Ok p -> gguf_plan_ok c l p /\ p_file_size p = n.
Proof.
  intros [(k & Hk & Hal) Hord (total & Hpk & Htot) Hts _] Hn Hpl. unfold in_u64 in Hn.
  pose proof (Z.pow_pos_nonneg 2 k ltac:(lia) ltac:(lia)) as Hpos. rewrite Hal in Hpk.
  pose proof (packed_le _ _ _ _ Hpos Hts Hpk) as Hle. unfold plan_layout in Hpl.
  destruct (append_domain [] _ _ _) as [r1|] eqn:E1; [|done].
  apply append_domain_covers in E1 as (a & -> & Ha & _); [|lia..].
  destruct (append_domain _ (gl_directory_start l) _ _) as [r2|] eqn:E2; [|done].
  rewrite wsub_small in E2 by lia. apply append_domain_covers in E2 as (b & -> & Hb & _); [|lia..].
  destruct (append_domain _ (gl_directory_end l) _ _) as [r3|] eqn:E3; [|done].
  rewrite wsub_small in E3 by lia. apply append_domain_covers in E3 as (d & -> & Hd & Hc); [|lia..].
  destruct (for_each _ _ _) as [r4|] eqn:E4; [|done]. injection Hpl as <-.
  rewrite Z.add_0_l in Ha. rewrite !Zplus_minus in Hb, Hd. simpl in E4, Hc.
  assert (tiles MAX_OBJECT_SIZE 0 (gl_data_start l + 0) ((a ++ b) ++ d)) as Ht.
  { rewrite Z.add_0_r. eapply tiles_app; [eapply tiles_app; [apply Ha|apply Hb]|apply Hd]. }
  apply (plan_tensors_Ok c l k) with (offset := 0) (total := total) in E4
    as [(data & -> & Hcount & Hdata) Hall]; [|done || lia..].
  rewrite Z.add_0_r, Htot in *. split; [|done]. constructor; try done.
  - constructor; simpl; [done|done|]. by eapply tiles_app.
  - exists a, b, d, data. simpl. rewrite <-!app_assoc. done.
Qed.

Lemma append_domain_Err regions offset length kind e :
  (forall k, try_reserve k = true) ->
  append_domain regions offset length kind = Err e -> e = PF_Invalid.
Proof.
  intros Hm. unfold append_domain. destruct (append_split_region _ _ _ _) eqn:Ea; [done|].
  apply append_split_region_Err in Ea as [->|[_ [k Hk]]]; simpl; congruence.
Qed.

Lemma gguf_seams_return c t :
  (forall k, try_reserve k = true) -> usable c -> exists seams, gguf_seams c t = Some seams.
Proof.
  intros Hm Hu. destruct c as [c|]; [|by eexists]. apply seam_offsets_returns; [done|apply Hu].
Qed.

(** With memory and a usable contract, a layout is refused only as a verdict. *)
Lemma plan_layout_Err `{Sha256} n l c e :
  (forall k, try_reserve k = true) -> usable c -> plan_layout n l c = Err e -> e = PF_Invalid.
Proof.
  intros Hm Hu. unfold plan_layout.
  repeat match goal with |- context [append_domain ?r ?o ?n ?k] =>
    let E := fresh in destruct (append_domain r o n k) eqn:E;
    [|intros [= <-]; by eapply append_domain_Err] end.
  destruct (for_each _ _ _) as [r|e'] eqn:Ef; [done|]. intros [= <-].
  apply for_each_Err in Ef as (pre & t & post & rs & _ & _ & Ht). unfold plan_tensor in Ht.
  destruct (checked_add _ _); [|congruence].
  destruct (gguf_seams_return c t Hm Hu) as [seams Hseams]. rewrite Hseams in Ht.
  unfold append_seamed_domain in Ht. simpl in Ht.
  destruct (append_tensor_regions _ _ _ _ _) as [r1|e1] eqn:E1; simpl in Ht.
  - destruct (align_up _ _); [|congruence]. by eapply append_domain_Err.
  - apply append_tensor_regions_Err in E1 as [->|[-> _]]; [..|done]; simpl in Ht; congruence.
Qed.

(** ** The properties *)

(** C31: Whatever the source does, a GGUF parse that succeeds has proved the
    structure of the whole file: a power-of-two alignment of at least 8, header
    domains in order, distinct usable tensor names, each tensor's length the one
    its block type gives its shape, and tensors packed back to back at the
    alignment from the aligned data start to the last byte of the file. *)
Theorem gguf_parse_layout s l s' :
  in_u64 (src_len s) -> parse s = (Ok l, s') -> layout_wf (src_len s) l.
Proof.
  intros Hn Hp. destruct (t_parse (src_len s) s eq_refl Hn) as [_ Hl]. by rewrite Hp in Hl.
Qed.

Lemma gguf_try_plan_sound `{Sha256} c s p s' :
  in_u64 (src_len s) -> gguf_try_plan c s = (Ok (Some p), s') ->
  p_file_size p = src_len s /\ src_len s' = src_len s /\
  exists l, layout_wf (src_len s) l /\ gguf_plan_ok c l p.
Proof.
  intros Hn Hp. unfold gguf_try_plan in Hp.
  destruct (t_parse (src_len s) s eq_refl Hn) as [Hs Hl].
  destruct (parse s) as [[l|e] s1]; simpl in *; [|by destruct e; simplify_eq].
  destruct (plan_layout _ _ _) as [p'|e] eqn:Epl; [|by destruct e; simplify_eq].
  simpl in Hp. injection Hp as <- <-. rewrite Hs in Epl.
  destruct (plan_layout_Ok _ _ _ _ Hl Hn Epl) as [Hok Hsz]. eauto.
Qed.

Lemma gguf_try_plan_len `{Sha256} c s :
  in_u64 (src_len s) -> src_len (gguf_try_plan c s).2 = src_len s.
Proof.
  intros Hn. unfold gguf_try_plan. destruct (t_parse (src_len s) s eq_refl Hn) as [Hs _].
  by destruct (parse s).
Qed.

Lemma gguf_try_plan_reliable `{Sha256} c s :
  in_u64 (src_len s) -> reliable S -> usable c ->
  src_len (gguf_try_plan c s).2 = src_len s /\ exists o, (gguf_try_plan c s).1 = Ok o.
Proof.
  intros Hn Hrel Hu. unfold gguf_try_plan.
  destruct (t_parse (src_len s) s eq_refl Hn) as [Hs Hl].
  destruct (parse s) as [[l|e] s1]; simpl in *; (split; [done|]).
  - destruct (plan_layout _ _ _) as [p'|e] eqn:Epl; [by eexists|].
    apply plan_layout_Err in Epl as ->; [by eexists|apply Hrel|done].
  - rewrite Hl by done. by eexists.
Qed.

(** A GGUF plan is exact: it passes the coverage check, the metadata, the
    directory and the padding before the data are header regions of their own,
    and each tensor's unpadded extent is a run of tensor regions that shares no
    object with the header, with padding or with another tensor. *)
Theorem gguf_plan_isolates `{Sha256} c s p s' :
  in_u64 (src_len s) -> gguf_try_plan c s = (Ok (Some p), s') ->
  validate p = Ok tt /\ p_file_size p = src_len s /\
  exists l, layout_wf (src_len s) l /\ gguf_plan_ok c l p.
Proof.
  intros Hn Hp. destruct (gguf_try_plan_sound _ _ _ _ Hn Hp) as (Hsz & _ & l & Hl & Hok).
  split; [|by eauto]. apply validate_wf; [by rewrite Hsz|]. apply Hok.
Qed.
End planner.

(** *** A file *)

(** One metadata entry and one [F32] tensor of four elements. *)
Definition sample_gguf : list byte :=
  MAGIC ++ u32_bytes 3 ++ u64_bytes 1 ++ u64_bytes 1
  ++ u64_bytes 17 ++ GENERAL_ALIGNMENT ++ u32_bytes 4 ++ u32_bytes 32
  ++ u64_bytes 1 ++ bstr "t" ++ u32_bytes 1 ++ u64_bytes 4 ++ u32_bytes 0 ++ u64_bytes 0
  ++ replicate 38 (byte_of 0).

Definition sample_layout : gguf_layout :=
  GgufLayout 32 57 90 96 [TensorInfo (bstr "t") [4; 1; 1; 1] 1 0 0 16].

Lemma gguf_parse_layout_witness :
  @parse (list byte) slice_source ample_memory sample_gguf = (Ok sample_layout, sample_gguf) /\
  layout_wf 128 sample_layout.
Proof.
  assert (@parse (list byte) slice_source ample_memory sample_gguf
    = (Ok sample_layout, sample_gguf)) as Hp by (vm_compute; reflexivity).
  split; [exact Hp|].
  apply (@gguf_parse_layout (list byte) slice_source ample_memory sample_gguf sample_layout
    sample_gguf); [|exact Hp].
  vm_compute. split; [discriminate|reflexivity].
Defined.

Definition sample_plan : plan :=
  Plan GgufV1 StampNone 128
    [Region 0 57 RK_Header; Region 57 33 RK_Header; Region 90 6 RK_Header;
     Region 96 16 RK_Tensor; Region 112 16 RK_Header].

Lemma gguf_plan_isolates_witness :
  @gguf_try_plan (list byte) slice_source ample_memory toy_sha None sample_gguf
    = (Ok (Some sample_plan), sample_gguf) /\
  validate sample_plan = Ok tt /\ p_file_size sample_plan = 128 /\
  exists l, layout_wf 128 l /\ @gguf_plan_ok ample_memory toy_sha None l sample_plan.
Proof.
  assert (@gguf_try_plan (list byte) slice_source ample_memory toy_sha None sample_gguf
    = (Ok (Some sample_plan), sample_gguf)) as Hp by (vm_compute; reflexivity).
  split; [exact Hp|].
  apply (@gguf_plan_isolates (list byte) slice_source ample_memory toy_sha None sample_gguf
    sample_plan sample_gguf); [|exact Hp].
  vm_compute. split; [discriminate|reflexivity].
Defined.
