(* ===== verification/Safetensors.v ===== *)
(** The safetensors planner
    ([src/crates/tensorfs-core/src/planner/safetensors.rs]): the header
    visitor, the layout proof, and the plan of a layout. *)

From stdpp Require Import sorting.
From S2P Require Export Source Contract.

Definition PREFIX_SIZE : Z := 8.
Definition MAX_HEADER_SIZE : Z := 100000000.

(** [struct TensorDescriptor]. *)
Record tensor_descriptor : Type := TensorDescriptor {
  td_dtype : list byte; td_shape : list Z; td_start : Z; td_end : Z
}.

(** One value of the header object, as [serde_json] delivers it to each of the
    types the visitor asks for: [Option<Metadata>] (the keys of a map of
    strings, [null] as no map) and [TensorDescriptor]. *)
Record header_value : Type := HeaderValue {
  hv_metadata : option (option (list (list byte)));
  hv_descriptor : option tensor_descriptor
}.

(** [serde_json]'s deserializer over a whole buffer: the entries of a JSON
    object in document order, [None] when the buffer is anything else. *)
Definition wf_descriptor (t : tensor_descriptor) : Prop :=
  Forall in_u64 (td_shape t) /\ in_u64 (td_start t) /\ in_u64 (td_end t).
Class HeaderJson : Type := {
  header_entries : list byte -> option (list (list byte * header_value));
  header_integers bytes entries name v t :
    header_entries bytes = Some entries -> (name, v) ∈ entries -> hv_descriptor v = Some t ->
    wf_descriptor t
}.

(** [struct TensorEntry] and [struct Layout]. *)
Record tensor_entry : Type := TensorEntry {
  te_name : list byte; te_dtype : list byte; te_shape : list Z; te_start : Z; te_end : Z
}.
Record st_layout : Type := StLayout { sl_header_end : Z; sl_tensors : list tensor_entry }.

(** The key order of [sort_unstable_by_key(|t| (t.start, t.end))]. *)
Definition entry_le (a b : tensor_entry) : Prop :=
  te_start a < te_start b \/ te_start a = te_start b /\ te_end a <= te_end b.

(** [sort_unstable_by_key]: some sorted permutation; which one is not
    specified. *)
Class EntrySort : Type := {
  sort_entries : list tensor_entry -> list tensor_entry;
  sort_entries_perm l : sort_entries l ≡ₚ l;
  sort_entries_sorted l : StronglySorted entry_le (sort_entries l)
}.

(** The key loop of [MetadataVisitor::visit_map]. *)
Definition metadata_visit (keys : list (list byte)) : bool :=
  is_ok (for_each (fun seen key =>
    if bool_decide (key ∈ seen) then Err tt else Ok (key :: seen)) [] keys).

(** The loop of [HeaderVisitor::visit_map]: names seen and tensors kept. *)
Definition header_step (st : list (list byte) * list (list byte * tensor_descriptor))
    (entry : list byte * header_value)
  : result unit (list (list byte) * list (list byte * tensor_descriptor)) :=
  let '(names, tensors) := st in
  let '(name, value) := entry in
  if bool_decide (name ∈ names) then Err tt
  else
    let names := name :: names in
    if bool_decide (name = bstr "__metadata__") then
      match hv_metadata value with
      | None => Err tt
      | Some None => Ok (names, tensors)
      | Some (Some keys) => if metadata_visit keys then Ok (names, tensors) else Err tt
      end
    else if bool_decide (name = []) then Err tt
    else if MAX_OBJECT_COUNT <=? zlen tensors then Err tt
    else let! descriptor := hv_descriptor value ?: tt in Ok (names, tensors ++ [(name, descriptor)]).

(** [Header::deserialize] and [deserializer.end()]. *)
Definition parse_header `{HeaderJson} (bytes : list byte)
  : option (list (list byte * tensor_descriptor)) :=
  let* entries := header_entries bytes in
  match for_each header_step ([], []) entries with
  | Ok (_, tensors) => Some tensors
  | Err _ => None
  end.

Definition dtype_bits (dtype : list byte) : option Z :=
  let one_of names := bool_decide (dtype ∈ names) in
  if one_of [bstr "F4"] then Some 4
  else if one_of [bstr "F6_E2M3"; bstr "F6_E3M2"] then Some 6
  else if one_of [bstr "BOOL"; bstr "U8"; bstr "I8"; bstr "F8_E5M2"; bstr "F8_E4M3";
                  bstr "F8_E8M0"; bstr "F8_E5M2FNUZ"; bstr "F8_E4M3FNUZ"] then Some 8
  else if one_of [bstr "I16"; bstr "U16"; bstr "F16"; bstr "BF16"] then Some 16
  else if one_of [bstr "I32"; bstr "U32"; bstr "F32"] then Some 32
  else if one_of [bstr "I64"; bstr "U64"; bstr "F64"; bstr "C64"] then Some 64
  else None.

Definition tensor_byte_size (t : tensor_descriptor) : option Z :=
  let* bits_per_element := dtype_bits (td_dtype t) in
  let* elements := checked_product 1 (td_shape t) in
  let* bits := checked_mul elements bits_per_element in
  if negb (bits mod 8 =? 0) then None else Some (bits / 8).

(** The descriptor loop of [read_layout]: [None] is its early [Ok(None)]. *)
Definition entry_step (t : list byte * tensor_descriptor) : option tensor_entry :=
  let '(name, t) := t in
  if td_end t <? td_start t then None
  else
    let* size := tensor_byte_size t in
    if negb (size =? wsub (td_end t) (td_start t)) then None
    else Some (TensorEntry name (td_dtype t) (td_shape t) (td_start t) (td_end t)).

(** The cursor loop of [read_layout]. *)
Fixpoint contiguous (data_size cursor : Z) (tensors : list tensor_entry) : bool :=
  match tensors with
  | [] => cursor =? data_size
  | t :: tensors =>
      if negb (te_start t =? cursor) || (data_size <? te_end t) then false
      else contiguous data_size (te_end t) tensors
  end.

Section planner.
Context {S : Type} `{ByteSource S, Allocator, HeaderJson, EntrySort}.

(** The part of [read_layout] after the header is parsed. *)
Definition layout_of (file_size header_end : Z) (header : list (list byte * tensor_descriptor))
  : option st_layout :=
  let data_size := wsub file_size header_end in
  let* tensors := mapM entry_step header in
  let tensors := sort_entries tensors in
  if contiguous data_size 0 tensors then Some (StLayout header_end tensors) else None.

(** [read_layout]. *)
Definition st_read_layout : M S plan_error (option st_layout) :=
  let<- file_size := gets src_len in
  if file_size <? PREFIX_SIZE + 2 then ret None
  else
    let<- prefix := map_err_m PE_Read (read_exact_at 0 PREFIX_SIZE) in
    let header_size := le_val prefix in
    if negb ((2 <=? header_size) && (header_size <=? MAX_HEADER_SIZE)) then ret None
    else
      let header_end := PREFIX_SIZE + header_size in
      if file_size <? header_end then ret None
      else
        check (try_reserve header_size) PE_ResourceExhausted ;;;
        let<- header_bytes := map_err_m PE_Read (read_exact_at PREFIX_SIZE header_size) in
        if negb (bool_decide (head header_bytes = Some (byte_of 123))) then ret None
        else
          match parse_header header_bytes with
          | None => ret None
          | Some header =>
              check (try_reserve (zlen header)) PE_ResourceExhausted ;;;
              ret (layout_of file_size header_end header)
          end.

(** One tensor of [try_plan]. *)
Definition st_plan_tensor (contract : option contract) (header_end : Z) (regions : list region)
    (t : tensor_entry) : result plan_error (list region) :=
  let length := wsub (te_end t) (te_start t) in
  if length =? 0 then Ok regions
  else
    let! seams := match contract with
                  | None => Some []
                  | Some c => seam_offsets c (te_name t) (te_shape t) length
                  end ?: PE_Panic in
    append_tensor_regions regions (wadd header_end (te_start t)) length seams RK_Tensor.

(** The plan of a layout; [ObjectLimit] is [try_plan]'s [Ok(None)]. *)
Definition st_plan_layout `{Sha256} (file_size : Z) (l : st_layout) (contract : option contract)
  : result plan_error (option plan) :=
  match (let? regions := append_split_region [] 0 (sl_header_end l) RK_Header in
         for_each (st_plan_tensor contract (sl_header_end l)) regions (sl_tensors l)) with
  | Ok regions =>
      Ok (Some (Plan SafetensorsV1
                  match contract with None => StampNone | Some c => contract_stamp c end
                  file_size regions))
  | Err PE_ObjectLimit => Ok None
  | Err e => Err e
  end.

(** [try_plan]. *)
Definition st_try_plan `{Sha256} (contract : option contract) : M S plan_error (option plan) :=
  let<- layout := st_read_layout in
  match layout with
  | None => ret None
  | Some l => let<- file_size := gets src_len in lift (st_plan_layout file_size l contract)
  end.

(** ** What a successful parse proves *)

(** A tensor whose extent is the size its dtype gives its shape. *)
Record entry_wf (t : tensor_entry) : Prop := {
  ew_range : 0 <= te_start t <= te_end t /\ te_end t < U64;
  ew_size : exists bits, dtype_bits (te_dtype t) = Some bits /\
    8 * (te_end t - te_start t) = foldr Z.mul 1 (te_shape t) * bits;
  ew_shape : Forall in_u64 (te_shape t)
}.

Record st_layout_wf (n : Z) (l : st_layout) : Prop := {
  sw_header : 10 <= sl_header_end l <= n;
  sw_cover : contiguous (n - sl_header_end l) 0 (sl_tensors l) = true;
  sw_tensors : Forall entry_wf (sl_tensors l);
  sw_names : NoDup (te_name <$> sl_tensors l) /\
             Forall (fun t => te_name t <> [] /\ te_name t <> bstr "__metadata__") (sl_tensors l)
}.

Lemma entry_step_Some name t e :
  wf_descriptor t -> entry_step (name, t) = Some e -> entry_wf e /\ te_name e = name.
Proof.
  intros (Hsh & Hs & He) Hstep. unfold entry_step in Hstep. unfold in_u64 in *.
  destruct (Z.ltb_spec (td_end t) (td_start t)); [done|].
  destruct (tensor_byte_size t) as [n|] eqn:En; [|done].
  rewrite wsub_small in Hstep by lia.
  destruct (Z.eqb_spec n (td_end t - td_start t)) as [->|]; [|done]. simpl in Hstep.
  injection Hstep as <-. split; [|done]. constructor; simpl; [lia| |done].
  unfold tensor_byte_size in En. destruct (dtype_bits _) as [bits|]; [|done].
  destruct (checked_product _ _) as [elements|] eqn:Ep; [|done].
  apply checked_product_Some in Ep as ->. unfold prodZ in *. rewrite Z.mul_1_l in En.
  destruct (checked_mul _ _) as [total|] eqn:Em; [|done]. apply checked_mul_Some in Em as [-> _].
  destruct (Z.eqb_spec (foldr Z.mul 1 (td_shape t) * bits mod 8) 0) as [Hz|]; [|done].
  simpl in En. injection En as En. eexists. split; [done|]. rewrite <-En.
  pose proof (Z.div_mod (foldr Z.mul 1 (td_shape t) * bits) 8). lia.
Qed.

Definition header_state (st : list (list byte) * list (list byte * tensor_descriptor)) : Prop :=
  (forall name, name ∈ st.2.*1 -> name ∈ st.1) /\ NoDup st.2.*1 /\
  Forall (fun t => t.1 <> [] /\ t.1 <> bstr "__metadata__" /\ wf_descriptor t.2) st.2.

Lemma header_step_ok st name v st' :
  (forall t, hv_descriptor v = Some t -> wf_descriptor t) ->
  header_state st -> header_step st (name, v) = Ok st' -> header_state st'.
Proof.
  destruct st as [names tensors]. intros Hv (Hin & Hnd & Hf) Hstep. unfold header_step in Hstep.
  case_bool_decide as Hnew; [done|]. simpl in Hin, Hnd, Hf.
  case_bool_decide as Hm.
  - assert (st' = (name :: names, tensors)) as ->.
    { destruct (hv_metadata v) as [[keys|]|]; [|congruence..].
      destruct (metadata_visit keys); congruence. }
    split; [|done]. simpl. set_solver.
  - case_bool_decide as He; [done|]. destruct (_ <=? _); [done|].
    destruct (hv_descriptor v) as [t|]; [|done]. injection Hstep as <-.
    unfold header_state. simpl. rewrite fmap_app. simpl. split; [set_solver|]. split.
    + apply NoDup_app. split; [done|]. split; [|apply NoDup_singleton]. set_solver.
    + apply Forall_app. rewrite Forall_singleton. simpl. auto.
Qed.

Lemma parse_header_ok bytes header :
  parse_header bytes = Some header -> exists names, header_state (names, header).
Proof.
  unfold parse_header. destruct (header_entries bytes) as [entries|] eqn:Eh; [|done].
  destruct (for_each _ _ _) as [[names tensors]|] eqn:Ef; [|done]. intros [= <-].
  exists names. apply (for_each_inv _ (fun _ st => header_state st)) in Ef; [done| |].
  - split; [set_solver|]. split; constructor.
  - intros pre [name v] post t t' -> Ht Hstep. eapply header_step_ok; [|done|done].
    intros d Hd. eapply (header_integers _ _ name v); [done| |done]. set_solver.
Qed.

Lemma mapM_entries header es :
  mapM entry_step header = Some es -> Forall (fun t => wf_descriptor t.2) header ->
  Forall entry_wf es /\ te_name <$> es = header.*1.
Proof.
  revert es. induction header as [|[name t] header IH]; intros es; simpl.
  { intros [= <-] _. by split; [constructor|]. }
  intros Hm [Ht Hf]%Forall_cons.
  apply bind_Some in Hm as (e & He & (es' & Hes & [= <-])%bind_Some).
  apply entry_step_Some in He as [Hwf Hn]; [|done]. apply IH in Hes as [Hwfs Hns]; [|done].
  split; [by constructor|]. by rewrite fmap_cons, Hn, Hns.
Qed.

Lemma layout_of_ok n header_end names header l :
  header_state (names, header) -> 10 <= header_end <= n -> n < U64 ->
  layout_of n header_end header = Some l -> st_layout_wf n l.
Proof.
  intros (_ & Hnd & Hf) Hh Hn. unfold layout_of. rewrite wsub_small by lia.
  destruct (mapM entry_step header) as [es|] eqn:Em; [|done].
  destruct (contiguous _ _ _) eqn:Ec; [|done]. intros [= <-].
  apply mapM_entries in Em as [Hwf Hnames].
  2:{ eapply Forall_impl; [exact Hf|]. simpl. tauto. }
  pose proof (sort_entries_perm es) as Hp. constructor; simpl; try done.
  - by rewrite Hp.
  - rewrite Hp, Hnames. split; [done|].
    apply (Forall_fmap te_name (fun name => name <> [] /\ name <> bstr "__metadata__")).
    rewrite Hnames, Forall_fmap. eapply Forall_impl; [exact Hf|]. simpl. tauto.
Qed.

(** A failure over a reliable source and memory does not happen. *)
Definition st_bad (n : Z) (_ : plan_error) (s : S) : Prop := src_len s = n /\ ~ reliable S.

Lemma t_source_read n offset k :
  in_u64 n -> 0 <= offset -> 0 <= k -> offset + k <= n ->
  triple (fun s => src_len s = n) (map_err_m PE_Read (read_exact_at offset k))
    (fun bytes s => zlen bytes = k /\ src_len s = n) (st_bad n).
Proof.
  intros Hn Ho Hk Hle s Hs. unfold map_err_m. pose proof (src_len_read offset k s) as Hl.
  destruct (read_exact_at offset k s) as [[bytes|e] s'] eqn:Er; simpl in *.
  - apply read_fills in Er; [|done..]. split; [done|congruence].
  - split; [congruence|]. intros [Hrel _].
    destruct (Hrel offset k s) as [b Hb]; [by rewrite Hs|done|done|lia|]. by rewrite Er in Hb.
Qed.

Lemma t_source_reserve n k :
  triple (fun s : S => src_len s = n) (check (try_reserve k) PE_ResourceExhausted)
    (fun _ s => src_len s = n) (st_bad n).
Proof.
  apply t_check. intros s Hs. destruct (try_reserve k) eqn:Et; [done|]. split; [done|].
  intros (_ & _ & Hm). by rewrite Hm in Et.
Qed.

Lemma t_read_layout n :
  in_u64 n ->
  triple (fun s => src_len s = n) st_read_layout
    (fun o s => (forall l, o = Some l -> st_layout_wf n l) /\ src_len s = n) (st_bad n).
Proof.
  intros Hn. unfold st_read_layout.
  eapply t_bind; [apply (t_gets _ _ (fun v s => v = n /\ src_len s = n)); auto|].
  intros v. apply t_pure. intros ->. unfold PREFIX_SIZE.
  destruct (Z.ltb_spec n (8 + 2)); [by apply t_ret|].
  eapply t_bind; [apply t_source_read; (done || lia)|]. intros prefix. apply t_pure. intros Hp.
  cbv zeta. set (k := le_val prefix). destruct (_ && _) eqn:Ek; [|by apply t_ret].
  simpl. destruct (Z.ltb_spec n (8 + k)); [by apply t_ret|].
  eapply t_bind; [apply t_source_reserve|]. intros [].
  eapply t_bind; [apply t_source_read; (done || lia)|]. intros bytes. apply t_pure. intros Hb.
  destruct (negb _); [by apply t_ret|].
  destruct (parse_header bytes) as [header|] eqn:Eh; [|by apply t_ret].
  apply parse_header_ok in Eh as [names Hst].
  eapply t_bind; [apply t_source_reserve|]. intros []. apply t_ret. intros s Hs. split; [|done].
  intros l Hl. unfold in_u64 in Hn. eapply layout_of_ok; eauto; lia.
Qed.

(** ** The plan of a layout *)

Lemma contiguous_cons size cursor t ts :
  contiguous size cursor (t :: ts) = true ->
  te_start t = cursor /\ te_end t <= size /\ contiguous size (te_end t) ts = true.
Proof. simpl. destruct (_ || _) eqn:E; [done|]. intros Hc. split; [lia|]. split; [lia|done]. Qed.

Lemma contiguous_le size cursor ts :
  Forall entry_wf ts -> contiguous size cursor ts = true -> cursor <= size.
Proof.
  intros Hf. revert cursor. induction Hf as [|t ts Ht Hf IH]; intros cursor Hc; [simpl in Hc; lia|].
  apply contiguous_cons in Hc as (<- & _ & Hc%IH). pose proof (ew_range _ Ht). lia.
Qed.

(** The seams a contract declares for a tensor; an empty tensor has none. *)
Definition st_seams (c : option contract) (t : tensor_entry) : list Z :=
  match c with
  | Some c => if te_end t - te_start t =? 0 then []
              else default [] (seam_offsets c (te_name t) (te_shape t) (te_end t - te_start t))
  | None => []
  end.

(** One tensor: nothing for an empty one, a run of its own otherwise. *)
Lemma st_plan_tensor_Ok c he regions t regions' :
  entry_wf t -> 0 <= he -> he + te_end t < U64 ->
  tiles MAX_OBJECT_SIZE 0 (he + te_start t) regions -> zlen regions <= MAX_OBJECT_COUNT ->
  st_plan_tensor c he regions t = Ok regions' ->
  let new := lay (he + te_start t) RK_Tensor (cuts 0 (te_end t - te_start t) (st_seams c t) ≫= grid) in
  regions' = regions ++ new /\ zlen regions' <= MAX_OBJECT_COUNT /\
  seams_ok 0 (te_end t - te_start t) (st_seams c t) /\
  covers RK_Tensor (he + te_start t) (he + te_end t) new.
Proof.
  intros Hwf Hhe Hlt Ht Hc Hp. pose proof (ew_range _ Hwf) as Hr. unfold st_plan_tensor in Hp.
  rewrite wsub_small in Hp by lia. destruct (Z.eqb_spec (te_end t - te_start t) 0) as [Hz|Hz].
  - injection Hp as <-. cbv zeta.
    assert (st_seams c t = []) as -> by (unfold st_seams; rewrite Hz; by destruct c).
    rewrite Hz. simpl. rewrite app_nil_r. split_and!; [done|done|lia|].
    split; [simpl; lia|constructor].
  - rewrite wadd_small in Hp by lia.
    destruct (match c with None => Some [] | Some c =>
      seam_offsets c (te_name t) (te_shape t) (te_end t - te_start t) end) as [seams|] eqn:Es; [|done].
    assert (st_seams c t = seams) as Hs.
    { unfold st_seams. replace (te_end t - te_start t =? 0) with false by lia.
      destruct c; [by rewrite Es|congruence]. }
    simpl in Hp. rewrite <-Hs in Hp. apply append_tensor_covers in Hp as (-> & Hsk & Hcount & Hnew); [|lia..].
    cbv zeta. split; [done|]. split; [done|]. split; [done|].
    by replace (he + te_end t) with (he + te_start t + (te_end t - te_start t)) by lia.
Qed.

Lemma st_plan_tensors_Ok c he size ts :
  0 <= he -> he + size < U64 -> Forall entry_wf ts -> forall cursor regions regions',
  contiguous size cursor ts = true -> tiles MAX_OBJECT_SIZE 0 (he + cursor) regions ->
  zlen regions <= MAX_OBJECT_COUNT ->
  for_each (st_plan_tensor c he) regions ts = Ok regions' ->
  (exists new, regions' = regions ++ new /\ zlen regions' <= MAX_OBJECT_COUNT /\
    covers RK_Tensor (he + cursor) (he + size) new) /\
  Forall (fun t => isolated regions' (he + size) (he + te_start t) (te_end t - te_start t)
    (st_seams c t)) ts.
Proof.
  intros Hhe Hlt Hf. induction Hf as [|t ts Hwf Hf IH]; intros cursor regions regions' Hc Ht Hn Hrun.
  { injection Hrun as <-. simpl in Hc. replace cursor with size by lia. split; [|constructor].
    exists []. rewrite app_nil_r. split; [done|]. split; [done|]. by split; [|constructor]. }
  apply contiguous_cons in Hc as (<- & Hend & Hc). cbn [for_each] in Hrun.
  destruct (st_plan_tensor c he regions t) as [r1|] eqn:E1; [|done].
  apply st_plan_tensor_Ok in E1 as (-> & Hc1 & Hs1 & Hn1); [|done || lia..].
  set (new1 := lay _ _ _) in *.
  apply IH with (cursor := te_end t) in Hrun as [(new2 & -> & Hc2 & Hn2) Hall];
    [|done|eapply tiles_app; [done|apply Hn1]|done].
  split.
  - exists (new1 ++ new2). rewrite <-app_assoc. split; [done|]. split; [by rewrite app_assoc|].
    split; [eapply tiles_app; [apply Hn1|apply Hn2]|]. apply Forall_app.
    split; [apply Hn1|apply Hn2].
  - constructor; [|done]. exists regions, new2. rewrite <-app_assoc.
    replace (he + te_start t + (te_end t - te_start t)) with (he + te_end t) by lia.
    split; [done|]. split; [done|]. split; [done|apply Hn2].
Qed.

(** What a safetensors plan of a layout is. *)
Record st_plan_ok `{Sha256} (c : option contract) (l : st_layout) (p : plan) : Prop := {
  sp_planner : p_planner p = SafetensorsV1;
  sp_stamp : p_contract p = match c with None => StampNone | Some c => contract_stamp c end;
  sp_wf : wf_plan p;
  sp_header : exists header data, p_regions p = header ++ data /\
    covers RK_Header 0 (sl_header_end l) header /\
    covers RK_Tensor (sl_header_end l) (p_file_size p) data;
  sp_tensors : Forall (fun t => isolated (p_regions p) (p_file_size p)
                 (sl_header_end l + te_start t) (te_end t - te_start t) (st_seams c t)) (sl_tensors l)
}.

Lemma st_plan_layout_Ok `{Sha256} n l c p :
  st_layout_wf n l -> n < U64 -> st_plan_layout n l c = Ok (Some p) ->
  st_plan_ok c l p /\ p_file_size p = n.
Proof.
  intros [Hh Hcov Hts _] Hn Hpl. unfold st_plan_layout in Hpl.
  destruct (append_split_region _ _ _ _) as [r1|e1] eqn:E1; [|by destruct e1].
  apply append_split_covers in E1 as (header & -> & Hhead & Hc); [|lia..].
  destruct (for_each _ _ _) as [r2|e2] eqn:E2; [|by destruct e2]. injection Hpl as <-.
  rewrite Z.add_0_l in Hhead. simpl in E2, Hc.
  apply (st_plan_tensors_Ok c _ (n - sl_header_end l)) with (cursor := 0) in E2
    as [(data & -> & Hcount & Hdata) Hall]; [|done || lia..|by rewrite Z.add_0_r; apply Hhead|done].
  rewrite Z.add_0_r, Zplus_minus in *. split; [|done]. constructor; try done.
  - constructor; simpl; [done|done|]. eapply tiles_app; [apply Hhead|apply Hdata].
  - exists header, data. done.
Qed.

(** With memory and a usable contract, a layout always has an answer. *)
Lemma st_plan_layout_Err `{Sha256} n l c e :
  (forall k, try_reserve k = true) -> usable c -> Forall entry_wf (sl_tensors l) ->
  st_plan_layout n l c <> Err e.
Proof.
  intros Hm Hu Hf Hpl. unfold st_plan_layout in Hpl.
  destruct (append_split_region _ _ _ _) as [r1|e1] eqn:E1.
  2:{ apply append_split_region_Err in E1 as [->|[_ [k Hk]]]; [done|congruence]. }
  destruct (for_each _ _ _) as [r2|e2] eqn:E2; [done|].
  apply for_each_Err in E2 as (pre & t & post & rs & Hts & _ & Ht).
  rewrite Hts, Forall_app, Forall_cons in Hf. destruct Hf as (_ & Hwf & _).
  unfold st_plan_tensor in Ht. pose proof (ew_range _ Hwf) as Hr.
  rewrite wsub_small in Ht by lia. destruct (_ =? 0); [done|].
  assert (exists seams, match c with None => Some [] | Some c =>
      seam_offsets c (te_name t) (te_shape t) (te_end t - te_start t) end = Some seams /\
    seams_ok 0 (te_end t - te_start t) seams) as (seams & Hseams & Hin).
  { destruct c as [c|]; [|exists []; simpl; split; [done|lia]]. destruct Hu as (Hok & Hfit & Hal).
    destruct (seam_offsets_returns c (te_name t) (te_shape t) (te_end t - te_start t)) as [seams Hs];
      [done..|]. exists seams. split; [done|]. by apply seam_offsets_inside in Hs as [? _];
      [|done|done|lia|apply Hwf]. }
  rewrite Hseams in Ht. simpl in Ht.
  by apply append_tensor_regions_Err in Ht as [->|[-> Hs]].
Qed.

Lemma st_try_plan_spec `{Sha256} c n :
  in_u64 n ->
  triple (fun s => src_len s = n) (st_try_plan c)
    (fun o s => (forall p, o = Some p -> p_file_size p = n /\
       exists l, st_layout_wf n l /\ st_plan_ok c l p) /\ src_len s = n)
    (fun _ s => src_len s = n /\ (usable c -> ~ reliable S)).
Proof.
  intros Hn. eapply t_bind.
  { eapply t_conseq; [by apply t_read_layout|done|done|]. intros e s [? ?]. done. } intros o. apply t_pure. intros Ho.
  destruct o as [l|]; [|by apply t_ret]. specialize (Ho l eq_refl).
  eapply t_bind; [apply (t_gets _ _ (fun v s => v = n /\ src_len s = n)); auto|].
  intros v. apply t_pure. intros ->. apply t_lift. intros s Hs. unfold in_u64 in Hn.
  destruct (st_plan_layout n l c) as [o|e] eqn:Epl.
  - split; [|done]. intros p ->. apply st_plan_layout_Ok in Epl as [Hok Hsz]; [|done|lia]. eauto.
  - split; [done|]. intros Hu (_ & _ & Hm). eapply st_plan_layout_Err; [exact Hm|done| |exact Epl].
    apply Ho.
Qed.

(** A safetensors plan is exact: it passes the coverage check, the header is
    covered by header regions and everything after it by tensor regions, and
    each tensor's extent is a run of regions of its own. *)
Theorem st_plan_isolates `{Sha256} c s p s' :
  in_u64 (src_len s) -> st_try_plan c s = (Ok (Some p), s') ->
  validate p = Ok tt /\ p_file_size p = src_len s /\
  exists l, st_layout_wf (src_len s) l /\ st_plan_ok c l p.
Proof.
  intros Hn Hp. pose proof (st_try_plan_spec c (src_len s) Hn s eq_refl) as Ht.
  rewrite Hp in Ht. destruct Ht as [Ht _]. destruct (Ht p eq_refl) as (Hsz & l & Hl & Hok).
  split; [|by eauto]. apply validate_wf; [by rewrite Hsz|apply Hok].
Qed.
End planner.

(** [inventory]. *)
Definition st_inventory (l : st_layout) : tensor_inventory :=
  TensorInventory TF_SafetensorsV1
    ((fun t => InventoryTensor (te_name t) (te_dtype t) (te_shape t)
        (wadd (sl_header_end l) (te_start t)) (wsub (te_end t) (te_start t))) <$> sl_tensors l).

(** ** The unspecified order of the sort does not reach the plan *)

Definition entry_key (t : tensor_entry) : Z * Z := (te_start t, te_end t).
Definition key_le (a b : Z * Z) : Prop := a.1 < b.1 \/ a.1 = b.1 /\ a.2 <= b.2.

#[export] Instance key_le_antisym : AntiSymm (=) key_le.
Proof. intros [a b] [c d]. unfold key_le. simpl. intros. f_equal; lia. Qed.

Lemma sorted_keys l : StronglySorted entry_le l -> StronglySorted key_le (entry_key <$> l).
Proof.
  induction 1 as [|t l Hs IH Hf]; simpl; constructor; [done|]. rewrite Forall_fmap.
  eapply Forall_impl; [exact Hf|]. intros t' Ht. exact Ht.
Qed.

Lemma contiguous_keys size cursor l k :
  entry_key <$> l = entry_key <$> k -> contiguous size cursor l = contiguous size cursor k.
Proof.
  revert cursor k. induction l as [|t l IH]; intros cursor [|t' k]; simpl; try done.
  intros [= Hs He Hk]. rewrite Hs, He. by destruct (_ || _); [|apply IH].
Qed.

(** In a contiguous run two non-empty tensors do not start together. *)
Lemma contiguous_sorted size cursor l :
  Forall entry_wf l -> contiguous size cursor l = true ->
  StronglySorted (fun a b => te_end a <= te_start b) l /\ Forall (fun t => cursor <= te_start t) l.
Proof.
  intros Hf. revert cursor. induction Hf as [|t l Ht Hf IH]; intros cursor Hc; [by split; constructor|].
  apply contiguous_cons in Hc as (<- & _ & [Hs Hle]%IH). pose proof (ew_range _ Ht).
  split; [by constructor|]. constructor; [done|]. eapply Forall_impl; [exact Hle|].
  simpl. lia.
Qed.

Lemma contiguous_inj size l x y :
  Forall entry_wf l -> contiguous size 0 l = true -> x ∈ l -> y ∈ l ->
  te_end x - te_start x <> 0 -> te_end y - te_start y <> 0 -> te_start x = te_start y -> x = y.
Proof.
  intros Hf Hc Hx Hy Hxn Hyn Heq. apply contiguous_sorted in Hc as [Hs _]; [|done].
  rewrite Forall_forall in Hf. pose proof (ew_range _ (Hf x Hx)). pose proof (ew_range _ (Hf y Hy)).
  clear Hf. induction Hs as [|t l Hs IH Hlt]; [by apply not_elem_of_nil in Hx|].
  rewrite Forall_forall in Hlt.
  apply elem_of_cons in Hx as [->|Hx], Hy as [->|Hy]; try done.
  - specialize (Hlt _ Hy). simpl in Hlt. lia.
  - specialize (Hlt _ Hx). simpl in Hlt. lia.
  - by apply IH.
Qed.

Definition has_bytes (t : tensor_entry) : Prop := te_end t - te_start t <> 0.
#[export] Instance has_bytes_dec t : Decision (has_bytes t).
Proof. unfold has_bytes. apply _. Defined.

Lemma filter_sorted (P : tensor_entry -> Prop) `{forall t, Decision (P t)} l :
  StronglySorted entry_le l -> StronglySorted entry_le (filter P l).
Proof.
  induction 1 as [|t l Hs IH Hf]; [constructor|]. rewrite filter_cons. destruct (decide (P t)); [|done].
  constructor; [done|]. rewrite Forall_forall in *. intros x [_ Hx]%list_elem_of_filter. auto.
Qed.

Lemma plan_skips_empty `{Allocator} c he regions l :
  Forall entry_wf l ->
  for_each (st_plan_tensor c he) regions l = for_each (st_plan_tensor c he) regions (filter has_bytes l).
Proof.
  intros Hf. revert regions. induction Hf as [|t l Ht Hf IH]; intros regions; [done|].
  pose proof (ew_range _ Ht). rewrite filter_cons. cbn [for_each].
  destruct (decide (has_bytes t)) as [Hb|Hb].
  - cbn [for_each]. destruct (st_plan_tensor _ _ _ _); [apply IH|done].
  - unfold has_bytes in Hb. unfold st_plan_tensor at 1. rewrite wsub_small by lia.
    replace (te_end t - te_start t =? 0) with true by lia. apply IH.
Qed.

Section two_sorts.
Context {S : Type} `{ByteSource S, Allocator, HeaderJson, Sha256}.

Lemma sorts_agree (E1 E2 : EntrySort) n es :
  Forall entry_wf es ->
  contiguous n 0 (@sort_entries E1 es) = contiguous n 0 (@sort_entries E2 es) /\
  (contiguous n 0 (@sort_entries E1 es) = true ->
   filter has_bytes (@sort_entries E1 es) = filter has_bytes (@sort_entries E2 es)).
Proof.
  intros Hf. pose proof (@sort_entries_sorted E1 es) as Hs1. pose proof (@sort_entries_sorted E2 es) as Hs2.
  pose proof (@sort_entries_perm E1 es) as Hp1. pose proof (@sort_entries_perm E2 es) as Hp2.
  split.
  - apply contiguous_keys. apply (StronglySorted_unique key_le); [by apply sorted_keys..|].
    by rewrite Hp1, Hp2.
  - intros Hc. apply (StronglySorted_unique_strong entry_le); [|by apply filter_sorted..|].
    + intros x y [Hx Hxin]%list_elem_of_filter [Hy Hyin]%list_elem_of_filter Hxy Hyx.
      rewrite Hp2, <-Hp1 in Hyin.
      eapply (contiguous_inj n (@sort_entries E1 es)); try done; [by rewrite Hp1|].
      unfold entry_le in *. lia.
    + by rewrite Hp1, Hp2.
Qed.

Lemma layouts_agree (E1 E2 : EntrySort) n he header c :
  (exists names, header_state (names, header)) ->
  match @layout_of E1 n he header, @layout_of E2 n he header with
  | Some l1, Some l2 => st_plan_layout n l1 c = st_plan_layout n l2 c
  | None, None => True
  | _, _ => False
  end.
Proof.
  intros (names & _ & _ & Hf). unfold layout_of.
  destruct (mapM entry_step header) as [es|] eqn:Em; [|done].
  apply mapM_entries in Em as [Hwf _].
  2:{ eapply Forall_impl; [exact Hf|]. simpl. tauto. }
  destruct (sorts_agree E1 E2 (wsub n he) es Hwf) as [Heq Hfil]. cbv zeta. rewrite Heq in Hfil |- *.
  destruct (contiguous (wsub n he) 0 (@sort_entries E2 es)); [|by simpl].
  unfold st_plan_layout. cbn [sl_header_end sl_tensors].
  destruct (append_split_region _ _ _ _) as [r|]; [|done].
  rewrite (plan_skips_empty c he r (@sort_entries E1 es)), (plan_skips_empty c he r (@sort_entries E2 es))
    by by rewrite sort_entries_perm.
  by rewrite Hfil.
Qed.

(** The plan is a function of the file.  The tensors are sorted with a sort
    that leaves equal keys in an unspecified order; whatever order it picks,
    the verdict, the plan and the errors of [try_plan] are the same. *)
Theorem st_plan_sort_independent (E1 E2 : EntrySort) c s :
  @st_try_plan S _ _ _ E1 _ c s = @st_try_plan S _ _ _ E2 _ c s.
Proof.
  unfold st_try_plan, st_read_layout, map_err_m, check, gets, lift, bind.
  destruct (_ <? _); [done|]. pose proof (src_len_read 0 PREFIX_SIZE s) as Hl1.
  destruct (read_exact_at 0 PREFIX_SIZE s) as [[prefix|e] s1]; [|done]. simpl in Hl1. simpl.
  destruct (negb _); [done|]. destruct (_ <? _); [done|]. destruct (try_reserve _); [|done]. simpl.
  pose proof (src_len_read PREFIX_SIZE (le_val prefix) s1) as Hl2.
  destruct (read_exact_at PREFIX_SIZE (le_val prefix) s1) as [[bytes|e] s2]; [|done].
  simpl in Hl2. simpl. destruct (negb _); [done|].
  destruct (parse_header bytes) as [header|] eqn:Eh; [|done].
  destruct (try_reserve _); [|done]. simpl. apply parse_header_ok in Eh.
  pose proof (layouts_agree E1 E2 (src_len s) (PREFIX_SIZE + le_val prefix) header c Eh) as Ha.
  destruct (@layout_of E1 _ _ _) as [l1|], (@layout_of E2 _ _ _) as [l2|]; try done.
  simpl. rewrite Hl2, Hl1. by rewrite Ha.
Qed.
End two_sorts.

(** ** A file *)

(** The order, as a comparison: a stable sort is one of the sorts allowed. *)
Definition entry_cmp (a b : tensor_entry) : comparison :=
  match te_start a ?= te_start b with Eq => te_end a ?= te_end b | c => c end.

Lemma entry_cmp_le a b : entry_cmp a b <> Gt <-> entry_le a b.
Proof.
  unfold entry_cmp, entry_le. destruct (Z.compare_spec (te_start a) (te_start b));
    [destruct (Z.compare_spec (te_end a) (te_end b))|..]; split; intros; try done; lia.
Qed.

Definition stable_sort : EntrySort.
Proof.
  refine {| sort_entries := sort_by entry_cmp |}.
  - intros l. apply sort_by_perm.
  - intros l. assert (StronglySorted (fun x y => entry_cmp x y <> Gt) (sort_by entry_cmp l)) as Hs.
    { apply sort_by_sorted.
      - intros x y. unfold entry_cmp.
        destruct (Z.compare_spec (te_start x) (te_start y)), (Z.compare_spec (te_start y) (te_start x)),
          (Z.compare_spec (te_end x) (te_end y)), (Z.compare_spec (te_end y) (te_end x)); try done; lia.
      - intros x y z. rewrite !entry_cmp_le. unfold entry_le. lia. }
    induction Hs as [|x l' Hs IH Hf]; constructor; [done|].
    eapply Forall_impl; [exact Hf|]. intros y. apply entry_cmp_le.
Defined.

(** A deserializer that knows one document: two [U8] tensors, one of them
    empty. *)
Definition sample_entries : list (list byte * header_value) :=
  [(bstr "b", HeaderValue None (Some (TensorDescriptor (bstr "U8") [3] 0 3)));
   (bstr "e", HeaderValue None (Some (TensorDescriptor (bstr "U8") [0] 3 3)))].

Definition sample_json : HeaderJson.
Proof.
  refine {| header_entries bytes :=
    if bool_decide (bytes = bstr "{}") then Some sample_entries else None |}.
  intros bytes entries name v t Hb Hin Hv. case_bool_decide; [|done]. injection Hb as <-.
  repeat (apply elem_of_cons in Hin as [[= -> ->]|Hin];
    [injection Hv as <-; split_and!; unfold in_u64, U64; repeat constructor; simpl; lia|]).
  by apply not_elem_of_nil in Hin.
Defined.

Definition sample_safetensors : list byte := u64_bytes 2 ++ bstr "{}" ++ bstr "xyz".

Definition sample_st_plan : plan :=
  Plan SafetensorsV1 StampNone 13 [Region 0 10 RK_Header; Region 10 3 RK_Tensor].

Lemma st_plan_isolates_witness :
  @st_try_plan (list byte) slice_source ample_memory sample_json stable_sort toy_sha None
    sample_safetensors = (Ok (Some sample_st_plan), sample_safetensors) /\
  validate sample_st_plan = Ok tt /\ p_file_size sample_st_plan = 13 /\
  exists l, st_layout_wf 13 l /\ @st_plan_ok ample_memory toy_sha None l sample_st_plan.
Proof.
  assert (@st_try_plan (list byte) slice_source ample_memory sample_json stable_sort toy_sha None
    sample_safetensors = (Ok (Some sample_st_plan), sample_safetensors)) as Hp
    by (vm_compute; reflexivity).
  split; [exact Hp|].
  apply (@st_plan_isolates (list byte) slice_source ample_memory sample_json stable_sort toy_sha
    None sample_safetensors sample_st_plan sample_safetensors); [|exact Hp].
  vm_compute. split; [discriminate|reflexivity].
Defined.

(** Sorting from the other end keeps equal keys in the opposite order. *)
Definition reversing_sort : EntrySort.
Proof.
  refine {| sort_entries l := sort_by entry_cmp (reverse l) |}.
  - intros l. rewrite sort_by_perm. apply reverse_Permutation.
  - intros l. apply (@sort_entries_sorted stable_sort).
Defined.

(** Two empty tensors at one offset: the layouts differ, the plans do not. *)
Lemma st_plan_sort_independent_witness :
  let a := TensorEntry (bstr "a") (bstr "U8") [0] 3 3 in
  let b := TensorEntry (bstr "b") (bstr "U8") [0] 3 3 in
  @sort_entries stable_sort [a; b] <> @sort_entries reversing_sort [a; b] /\
  @st_try_plan (list byte) slice_source ample_memory sample_json stable_sort toy_sha None
    sample_safetensors =
  @st_try_plan (list byte) slice_source ample_memory sample_json reversing_sort toy_sha None
    sample_safetensors.
Proof.
  intros a b. split; [vm_compute; discriminate|].
  apply (@st_plan_sort_independent (list byte) slice_source ample_memory sample_json toy_sha
    stable_sort reversing_sort None sample_safetensors).
Defined.
