(* ===== verification/Planner.v ===== *)
(** Choosing a planner ([plan_with], [plan_once] and [inventory] of
    [src/crates/tensorfs-core/src/planner/mod.rs]): GGUF, then safetensors,
    then the whole file as one blob. *)

From S2P Require Export Gguf Safetensors.

Section planner.
Context {S : Type} `{ByteSource S, Allocator, HeaderJson, EntrySort, Sha256}.

(** [plan.validate()?; Ok(plan)]. *)
Definition validated (p : plan) : M S plan_error plan := lift (validate p) ;;; ret p.

(** [plan_once]. *)
Definition plan_once (contract : option contract) : M S plan_error plan :=
  let<- length := gets src_len in
  if length <? 10 then validated (blob_plan length)
  else
    let<- gguf := if 24 <=? length then gguf_try_plan contract else ret None in
    match gguf with
    | Some p => validated p
    | None =>
        let<- safetensors := st_try_plan contract in
        match safetensors with
        | Some p => validated p
        | None => let<- length := gets src_len in validated (blob_plan length)
        end
    end.

(** [source.check_unchanged().map_err(PlanError::SourceChanged)?]. *)
Definition still : M S plan_error unit := map_err_m PE_SourceChanged check_unchanged.

(** The second check of [plan_with], before the result is looked at; a planner
    that does not return leaves nothing to check. *)
Definition checked_after (result : result plan_error plan) : M S plan_error plan :=
  match result with
  | Err PE_Panic => lift result
  | _ => still ;;; lift result
  end.

(** [plan_with]. *)
Definition plan_with (contract : option contract) : M S plan_error plan :=
  still ;;; fun s => let (result, s) := plan_once contract s in checked_after result s.

(** [inventory]. *)
Definition inventory : M S plan_error (option tensor_inventory) :=
  still ;;;
  let<- length := gets src_len in
  let<- gguf := if 24 <=? length then gguf_read_layout else ret None in
  match gguf with
  | Some l => ret (Some (gguf_inventory l))
  | None =>
      let<- safetensors := st_read_layout in
      match safetensors with
      | Some l => ret (Some (st_inventory l))
      | None => ret None
      end
  end.

(** ** Every file has one plan *)

(** What each planner promises of its own plan. *)
Definition plan_ok (c : option contract) (n : Z) (p : plan) : Prop :=
  wf_plan p /\ p_file_size p = n /\
  match p_planner p with
  | GgufV1 => exists l, layout_wf n l /\ gguf_plan_ok c l p
  | SafetensorsV1 => exists l, st_layout_wf n l /\ st_plan_ok c l p
  | BlobV1 => p = blob_plan n
  end.

(** A failure is the world's, unless the contract is unusable. *)
Definition world_failure (c : option contract) (n : Z) (_ : plan_error) (s : S) : Prop :=
  src_len s = n /\ (usable c -> ~ reliable S).

Lemma t_validated c n p (R : plan_error -> S -> Prop) :
  in_u64 n -> plan_ok c n p ->
  triple (fun s => src_len s = n) (validated p) (fun p s => plan_ok c n p /\ src_len s = n) R.
Proof.
  intros Hn (Hwf & Hsz & Hk). unfold validated.
  rewrite validate_wf by (rewrite ?Hsz; done). by intros s Hs.
Qed.

Lemma t_gguf c n :
  in_u64 n ->
  triple (fun s => src_len s = n) (gguf_try_plan c)
    (fun o s => (forall p, o = Some p -> plan_ok c n p) /\ src_len s = n) (world_failure c n).
Proof.
  intros Hn s Hs. pose proof (gguf_try_plan_len c s ltac:(by rewrite Hs)) as Hl. rewrite Hs in Hl.
  destruct (gguf_try_plan c s) as [[[p|]|e] s'] eqn:Eg; simpl in Hl; (split; [|done]) || split.
  - intros p' [= <-]. apply gguf_try_plan_sound in Eg as (Hsz & _ & l & Hl' & Hok);
      [|by rewrite Hs]. rewrite Hs in *. split; [apply Hok|]. split; [done|].
    rewrite (gp_planner _ _ _ Hok). eauto.
  - done.
  - done.
  - intros Hu Hrel. destruct (gguf_try_plan_reliable c s) as [_ [o Ho]]; [by rewrite Hs|done..|].
    by rewrite Eg in Ho.
Qed.

Lemma t_safetensors c n :
  in_u64 n ->
  triple (fun s => src_len s = n) (st_try_plan c)
    (fun o s => (forall p, o = Some p -> plan_ok c n p) /\ src_len s = n) (world_failure c n).
Proof.
  intros Hn. eapply t_conseq; [by apply st_try_plan_spec|done| |done].
  intros o s [Ho Hs]. split; [|done]. intros p Hp. destruct (Ho p Hp) as (Hsz & l & Hl & Hok).
  split; [apply Hok|]. split; [done|]. rewrite (sp_planner _ _ _ Hok). eauto.
Qed.

Lemma blob_plan_ok c n : in_u64 n -> plan_ok c n (blob_plan n).
Proof. intros Hn. split; [by apply blob_plan_wf|]. done. Qed.

Lemma t_plan_once c n :
  in_u64 n ->
  triple (fun s => src_len s = n) (plan_once c) (fun p s => plan_ok c n p /\ src_len s = n)
    (world_failure c n).
Proof.
  intros Hn. eapply t_bind; [apply (t_gets _ _ (fun v s => v = n /\ src_len s = n)); auto|].
  intros v. apply t_pure. intros ->. destruct (n <? 10).
  { apply t_validated; [done|by apply blob_plan_ok]. }
  eapply t_bind.
  { instantiate (1 := fun o s => (forall p, o = Some p -> plan_ok c n p) /\ src_len s = n).
    destruct (24 <=? n); [by apply t_gguf|by apply t_ret]. }
  intros [p|]; apply t_pure; intros Hp; [apply t_validated; auto|].
  eapply t_bind; [by apply t_safetensors|].
  intros [p|]; apply t_pure; intros Hp'; [apply t_validated; auto|].
  eapply t_bind; [apply (t_gets _ _ (fun v s => v = n /\ src_len s = n)); auto|].
  intros v. apply t_pure. intros ->. apply t_validated; [done|by apply blob_plan_ok].
Qed.

Lemma t_still c n : triple (fun s => src_len s = n) still (fun _ s => src_len s = n) (world_failure c n).
Proof.
  intros s Hs. unfold still, map_err_m. pose proof (src_len_check s) as Hl.
  destruct (check_unchanged s) as [[u|e] s'] eqn:Ec; simpl in *; [congruence|].
  split; [congruence|]. intros _ (_ & Hc & _). specialize (Hc s). by rewrite Ec in Hc.
Qed.

Lemma t_plan_with c n :
  in_u64 n ->
  triple (fun s => src_len s = n) (plan_with c) (fun p s => plan_ok c n p /\ src_len s = n)
    (world_failure c n).
Proof.
  intros Hn. eapply t_bind; [apply t_still|]. intros [] s Hs.
  pose proof (t_plan_once c n Hn s Hs) as Hp.
  destruct (plan_once c s) as [[p|e] s'].
  - destruct Hp as [Hp Hs']. revert s' Hs'.
    change (triple (fun s => src_len s = n) (still ;;; lift (Ok p))
      (fun p s => plan_ok c n p /\ src_len s = n) (world_failure c n)).
    eapply t_bind; [apply t_still|]. intros []. apply t_lift. auto.
  - destruct Hp as [Hs' Hp]. revert s' Hs'.
    change (triple (fun s => src_len s = n) (checked_after (Err e))
      (fun p s => plan_ok c n p /\ src_len s = n) (world_failure c n)).
    assert (triple (fun s => src_len s = n) (lift (Err e))
      (fun p s => plan_ok c n p /\ src_len s = n) (world_failure c n)) as Herr.
    { apply t_lift. intros s1 Hs1. by split. }
    unfold checked_after. destruct e; try done; eapply t_bind; (apply t_still || by intros []).
Qed.

(** Planning is sound over any source, one that changes or lies included:
    a plan that is returned covers the file exactly, passes [Plan::validate],
    and is the exact plan of the format it names - the tensor-aligned plan of a
    structurally proved GGUF or safetensors layout, or the one-region blob. *)
Theorem plan_with_sound c s p s' :
  in_u64 (src_len s) -> plan_with c s = (Ok p, s') ->
  validate p = Ok tt /\ plan_ok c (src_len s) p.
Proof.
  intros Hn Hp. pose proof (t_plan_with c (src_len s) Hn s eq_refl) as Ht. rewrite Hp in Ht.
  destruct Ht as [(Hwf & Hsz & Hk) _]. split; [|done]. apply validate_wf; [by rewrite Hsz|done].
Qed.

(** Every file has a plan: over a source whose in-range reads succeed and
    with memory, planning under no contract, or under a validated contract whose
    shares do not overflow, returns a plan and never an error. *)
Theorem plan_with_total c s :
  in_u64 (src_len s) -> reliable S -> usable c ->
  exists p s', plan_with c s = (Ok p, s') /\ plan_ok c (src_len s) p.
Proof.
  intros Hn Hrel Hu. pose proof (t_plan_with c (src_len s) Hn s eq_refl) as Ht.
  destruct (plan_with c s) as [[p|e] s']; [destruct Ht; eauto|]. by destruct Ht as [_ []].
Qed.

(** A source that changed is reported, whatever else happened: when the
    check after planning fails, the answer is [SourceChanged], even if planning
    itself had succeeded or had failed with another error. *)
Theorem changed_source_refused c s s1 result s2 e s3 :
  check_unchanged s = (Ok tt, s1) -> plan_once c s1 = (result, s2) -> result <> Err PE_Panic ->
  check_unchanged s2 = (Err e, s3) -> plan_with c s = (Err (PE_SourceChanged e), s3).
Proof.
  intros Hc1 Hp Hret Hc2. unfold plan_with.
  rewrite (bind_Ok still _ s tt s1) by (unfold still, map_err_m; by rewrite Hc1). rewrite Hp.
  replace (checked_after result) with (still ;;; lift result) by (by destruct result as [|[]]).
  apply (bind_Err still). unfold still, map_err_m. by rewrite Hc2.
Qed.
End planner.

(** ** Objects *)

(** The objects of a file under a plan. *)
Definition objects (file : list byte) (p : plan) : list (list byte) :=
  region_bytes file <$> p_regions p.

Lemma tiles_join cap file start stop regions :
  tiles cap start stop regions -> 0 <= start -> stop <= zlen file ->
  mjoin (region_bytes file <$> regions) = slice file start stop.
Proof.
  revert start. induction regions as [|r regions IH]; intros start.
  - intros <- _ _. by rewrite slice_nil.
  - intros (<- & Hr & Ht) H0 Hle. pose proof (tiles_le _ _ _ _ Ht).
    rewrite fmap_cons. change (mjoin (?x :: ?l)) with (x ++ mjoin l).
    rewrite (IH _ Ht) by lia. unfold region_bytes. apply slice_join; lia.
Qed.

Lemma slice_all {A} (l : list A) : slice l 0 (zlen l) = l.
Proof. unfold slice, zlen. rewrite Z.sub_0_r, Nat2Z.id. apply take_ge. simpl. lia. Qed.

(** Nothing is lost and nothing is reordered: the objects of a valid plan,
    concatenated, are the file. *)
Theorem objects_reassemble file p :
  validate p = Ok tt -> p_file_size p = zlen file -> zlen file < U64 ->
  Forall (fun r => 0 <= r_length r < U64) (p_regions p) -> mjoin (objects file p) = file.
Proof.
  intros Hv Hsz Hn Hf. pose proof (zlen_nonneg file).
  apply validate_iff in Hv as [_ _ Ht]; [|lia|done]. rewrite Hsz in Ht.
  unfold objects. rewrite (tiles_join _ _ _ _ _ Ht) by lia. apply slice_all.
Qed.

Lemma sumZ_cuts_grid length seams :
  seams_ok 0 length seams -> sumZ (cuts 0 length seams ≫= grid) = length /\
  Forall (fun n => 0 <= n) (cuts 0 length seams ≫= grid).
Proof.
  intros Hs. destruct (cuts_grid_spec _ _ _ Hs) as [Hsum Hf]. split; [lia|].
  eapply Forall_impl; [exact Hf|]. simpl. lia.
Qed.

(** The regions laid over a part of a file cut it up. *)
Lemma lay_file file start kind lengths :
  Forall (fun n => 0 <= n) lengths -> 0 <= start -> start + sumZ lengths <= zlen file ->
  region_bytes file <$> lay start kind lengths =
    chop lengths (slice file start (start + sumZ lengths)).
Proof.
  intros Hf H0 Hle. pose proof (sumZ_nonneg _ Hf). set (length := sumZ lengths) in *.
  assert (slice file 0 start ++ slice file start (start + length)
    ++ slice file (start + length) (zlen file) = file) as Hfile.
  { rewrite slice_join, slice_join by lia. apply slice_all. }
  pose proof (lay_chop (slice file 0 start) kind lengths
    (slice file start (start + length)) (slice file (start + length) (zlen file)) Hf) as Hlay.
  rewrite Hfile, !slice_length in Hlay by lia. rewrite Z.sub_0_r in Hlay. apply Hlay. lia.
Qed.

(** ** Files *)

(** The same three bytes as an [I8] tensor in a GGUF file; the safetensors file
    is [sample_safetensors]. *)
Definition twin_gguf : list byte :=
  MAGIC ++ u32_bytes 3 ++ u64_bytes 1 ++ u64_bytes 0
  ++ u64_bytes 1 ++ bstr "t" ++ u32_bytes 1 ++ u64_bytes 3 ++ u32_bytes 24 ++ u64_bytes 0
  ++ replicate 7 (byte_of 0) ++ bstr "xyz" ++ replicate 29 (byte_of 0).
Definition twin_plan : plan :=
  Plan GgufV1 StampNone 96
    [Region 0 24 RK_Header; Region 24 33 RK_Header; Region 57 7 RK_Header;
     Region 64 3 RK_Tensor; Region 67 29 RK_Header].

#[local] Existing Instances ample_memory sample_json stable_sort toy_sha.

Lemma plan_with_sound_witness :
  plan_with None twin_gguf = (Ok twin_plan, twin_gguf) /\ validate twin_plan = Ok tt.
Proof.
  assert (plan_with None twin_gguf = (Ok twin_plan, twin_gguf)) as Hp by (vm_compute; reflexivity).
  split; [exact Hp|].
  refine (proj1 (@plan_with_sound (list byte) slice_source ample_memory sample_json stable_sort
    toy_sha None twin_gguf twin_plan twin_gguf _ Hp)).
  vm_compute. split; [discriminate|reflexivity].
Defined.

Lemma plan_with_total_witness :
  exists p s', plan_with None (bstr "not a tensor container") = (Ok p, s') /\
    plan_ok None (zlen (bstr "not a tensor container")) p.
Proof.
  apply (@plan_with_total (list byte) slice_source ample_memory sample_json stable_sort toy_sha
    None (bstr "not a tensor container")).
  - vm_compute. split; [discriminate|reflexivity].
  - apply slice_reliable. reflexivity.
  - exact I.
Defined.

Lemma objects_reassemble_witness : mjoin (objects twin_gguf twin_plan) = twin_gguf.
Proof.
  apply (objects_reassemble twin_gguf twin_plan).
  - vm_compute. reflexivity.
  - vm_compute. reflexivity.
  - vm_compute. reflexivity.
  - repeat constructor; vm_compute; done.
Defined.

(** A file that is replaced under the planner: the first [n] checks pass. *)
Definition torn_source : ByteSource (list byte * nat).
Proof.
  refine {| src_len s := zlen s.1;
            read_exact_at offset n s := let (r, l) := slice_read offset n s.1 in (r, (l, s.2));
            check_unchanged s := match s.2 with
                                 | O => (Err (OtherIo 1), s)
                                 | Datatypes.S n => (Ok tt, (s.1, n))
                                 end |}.
  - intros offset n [l k]. pose proof (src_len_read offset n l) as Hl. simpl in *.
    by destruct (slice_read offset n l).
  - by intros [l [|k]].
  - intros offset n [l k] bytes s' Ho Hn. simpl.
    destruct (slice_read offset n l) as [r l'] eqn:Er. intros [= -> _].
    by apply (read_fills (S := list byte) offset n l bytes l').
Defined.

Lemma changed_source_refused_witness :
  @plan_with (list byte * nat) torn_source ample_memory sample_json stable_sort toy_sha None
    (twin_gguf, 1%nat) = (Err (PE_SourceChanged (OtherIo 1)), (twin_gguf, 0%nat)).
Proof.
  apply (@changed_source_refused (list byte * nat) torn_source ample_memory sample_json stable_sort
    toy_sha None (twin_gguf, 1%nat) (twin_gguf, 0%nat) (Ok twin_plan) (twin_gguf, 0%nat)).
  - reflexivity.
  - vm_compute. reflexivity.
  - done.
  - reflexivity.
Defined.
