(* ===== verification/PlanFrame.v ===== *)
(** Planning reads and never writes: whatever the reads of a source keep true of
    its state, a whole plan keeps true ([src/crates/tensorfs-core/src/planner/]). *)

From S2P Require Export Planner.

(** ** What code keeps true *)

Definition framed {S E A : Type} (I : S -> Prop) (m : M S E A) : Prop :=
  triple I m (fun _ => I) (fun _ => I).

Lemma framed_end {S E A : Type} (I : S -> Prop) (m : M S E A) s : framed I m -> I s -> I (m s).2.
Proof. intros Hm Hs. specialize (Hm s Hs). by destruct (m s) as [[a|e] s']. Qed.

Create HintDb framed.

Section rules.
Context {S E : Type} (I : S -> Prop).

Lemma f_bind {A B : Type} (m : M S E A) (k : A -> M S E B) :
  framed I m -> (forall a, framed I (k a)) -> framed I (bind m k).
Proof. intros Hm Hk. by eapply t_bind. Qed.
Lemma f_ret {A : Type} (a : A) : framed (E := E) I (ret a).
Proof. by apply t_ret. Qed.
Lemma f_fail {A : Type} (e : E) : framed (A := A) I (fail e).
Proof. by apply t_fail. Qed.
Lemma f_lift {A : Type} (r : result E A) : framed I (lift r).
Proof. apply t_lift. intros s Hs. by destruct r. Qed.
Lemma f_check (b : bool) (e : E) : framed I (check b e).
Proof. apply t_check. intros s Hs. by destruct b. Qed.
Lemma f_gets {A : Type} (f : S -> A) : framed (E := E) I (gets f).
Proof. by apply t_gets. Qed.
Lemma f_modify (f : S -> S) : (forall s, I s -> I (f s)) -> framed (E := E) I (modify f).
Proof. intros Hf. by apply t_modify. Qed.
Lemma f_map_err {F A : Type} (f : E -> F) (m : M S E A) : framed I m -> framed I (map_err_m f m).
Proof.
  intros Hm s Hs. specialize (Hm s Hs). unfold map_err_m. by destruct (m s) as [[a|e] s'].
Qed.
Lemma f_for {X A : Type} (body : A -> X -> M S E A) (a : A) (l : list X) :
  (forall a x, x ∈ l -> framed I (body a x)) -> framed I (for_m body a l).
Proof.
  intros Hb. apply (t_for body a l (fun _ _ => I)). intros pre x post a' ->. apply Hb. set_solver.
Qed.
Lemma f_repeat {A : Type} (count : nat) (body : A -> M S E A) (a : A) :
  (forall a, framed I (body a)) -> framed I (repeat_m count body a).
Proof. intros Hb. apply (t_repeat count body a (fun _ _ => I)). intros k a' _. apply Hb. Qed.
Lemma f_chunks {A : Type} (size : Z) (body : A -> Z -> M S E A) (n : Z) (a : A) :
  (forall a k, framed I (body a k)) -> framed I (while_chunks size body n a).
Proof.
  intros Hb. unfold while_chunks. generalize (Z.to_nat (div_ceil n size)). intros fuel. revert n a.
  induction fuel as [|fuel IH]; intros n a; cbn [chunk_loop]; [apply f_ret|].
  destruct (0 <? n); [|apply f_ret]. apply f_bind; [apply Hb|intros; apply IH].
Qed.
End rules.

#[export] Hint Resolve f_ret f_fail f_lift f_check f_gets : framed.

(** Apply the rule of the head symbol, or the lemma of the callee. *)
Ltac framing :=
  intros;
  lazymatch goal with
  | |- framed _ (bind _ _) => apply f_bind; framing
  | |- framed _ (let '(_, _) := ?x in _) => destruct x; framing
  | |- framed _ (if ?x then _ else _) => destruct x; framing
  | |- framed _ (match ?x with _ => _ end) => destruct x; framing
  | |- framed _ (repeat_m _ _ _) => apply f_repeat; framing
  | |- framed _ (while_chunks _ _ _ _) => apply f_chunks; framing
  | |- framed _ (map_err_m _ _) => apply f_map_err; framing
  | |- _ => eauto 2 with framed
  end.

(** ** The planners *)

Section planning.
Context {S : Type} `{ByteSource S, Allocator, HeaderJson, EntrySort, Sha256}.
Context (I : S -> Prop).
Context (Hread : forall offset n, framed I (read_exact_at offset n)) (Hcheck : framed I check_unchanged).

Abbreviation gi := (fun r : greader S => I (g_source r)).

Lemma f_ensure n : framed gi (ensure n).
Proof. intros r Hr. unfold ensure. destruct (checked_add _ _); [|done]. by destruct (_ || _). Qed.
Lemma f_read_source n : framed gi (read_source n).
Proof.
  intros r Hr. unfold read_source. pose proof (Hread (g_position r) n (g_source r) Hr) as Hs.
  by destruct (read_exact_at _ _ _) as [[bytes|e] s'].
Qed.
Lemma f_advance n : framed gi (advance n).
Proof. by apply f_modify. Qed.
Lemma f_limit_next n : framed gi (limit_next n).
Proof. intros r Hr. unfold limit_next. by destruct (checked_add _ _). Qed.
Lemma f_clear_limit : framed gi clear_limit.
Proof. by apply f_modify. Qed.
#[local] Hint Resolve f_ensure f_read_source f_advance f_limit_next f_clear_limit : framed.

Lemma f_read n : framed gi (read n).
Proof. unfold read. framing. Qed.
#[local] Hint Resolve f_read : framed.
Lemma f_read_u8 : framed gi read_u8.
Proof. unfold read_u8. framing. Qed.
Lemma f_read_u32 : framed gi read_u32.
Proof. unfold read_u32. framing. Qed.
Lemma f_read_u64 : framed gi read_u64.
Proof. unfold read_u64. framing. Qed.
Lemma f_skip n : framed gi (skip n).
Proof. unfold skip. framing. Qed.
#[local] Hint Resolve f_read_u8 f_read_u32 f_read_u64 f_skip : framed.
Lemma f_read_bounded n : framed gi (read_bounded_bytes n).
Proof. unfold read_bounded_bytes. framing. Qed.
Lemma f_utf8_chunk pending k : framed gi (utf8_chunk pending k).
Proof. unfold utf8_chunk. framing. Qed.
#[local] Hint Resolve f_read_bounded f_utf8_chunk : framed.
Lemma f_skip_utf8_string b : framed gi (skip_utf8_string b).
Proof. unfold skip_utf8_string. framing. Qed.
Lemma f_check_bool_bytes n : framed gi (check_bool_bytes n).
Proof. unfold check_bool_bytes, bool_chunk. framing. Qed.
#[local] Hint Resolve f_skip_utf8_string f_check_bool_bytes : framed.

Lemma f_parse_array element depth b :
  (forall t k b, framed gi (element t k b)) -> framed gi (parse_metadata_array element depth b).
Proof. intros He. unfold parse_metadata_array. framing. Qed.
Lemma f_parse_value fuel t depth b : framed gi (parse_metadata_value fuel t depth b).
Proof.
  revert t depth b. induction fuel as [|fuel IH]; intros t depth b; cbn [parse_metadata_value]; framing.
  - apply f_parse_array. intros. apply f_fail.
  - apply f_parse_array. intros. apply IH.
Qed.
#[local] Hint Resolve f_parse_value : framed.

Lemma f_metadata_entry st : framed gi (metadata_entry st).
Proof. unfold metadata_entry. framing. Qed.
Lemma f_read_dimension ds : framed gi (read_dimension ds).
Proof. unfold read_dimension. framing. Qed.
#[local] Hint Resolve f_metadata_entry f_read_dimension : framed.
Lemma f_directory_entry alignment st : framed gi (directory_entry alignment st).
Proof. unfold directory_entry. framing. Qed.
#[local] Hint Resolve f_directory_entry : framed.
Lemma f_parse_metadata : framed gi parse_metadata.
Proof. unfold parse_metadata. framing. Qed.
Lemma f_parse_directory n st : framed gi (parse_directory n st).
Proof. unfold parse_directory. framing. Qed.
#[local] Hint Resolve f_parse_metadata f_parse_directory : framed.

Lemma f_parse : framed I parse.
Proof using Hread.
  intros s Hs. unfold parse.
  assert (framed gi (let<- '(tensor_count, metadata) := parse_metadata in parse_directory tensor_count metadata)) as Hp
    by framing.
  specialize (Hp (greader_new s) Hs). by destruct (bind parse_metadata _ _) as [[l|e] r].
Qed.

Lemma f_gguf_try_plan c : framed I (gguf_try_plan c).
Proof using Hread.
  intros s Hs. unfold gguf_try_plan. pose proof (f_parse s Hs) as Hp.
  destruct (parse s) as [r s']. assert (I s') as Hs' by by destruct r.
  by destruct (lift_failure (A := plan) _).
Qed.
Lemma f_gguf_read_layout : framed I gguf_read_layout.
Proof using Hread.
  intros s Hs. unfold gguf_read_layout. pose proof (f_parse s Hs) as Hp.
  destruct (parse s) as [r s']. assert (I s') as Hs' by by destruct r.
  by destruct (lift_failure _).
Qed.
Lemma f_st_read_layout : framed I st_read_layout.
Proof using Hread. unfold st_read_layout. framing. Qed.
#[local] Hint Resolve f_gguf_try_plan f_gguf_read_layout f_st_read_layout : framed.
Lemma f_st_try_plan c : framed I (st_try_plan c).
Proof using Hread. unfold st_try_plan. framing. Qed.
#[local] Hint Resolve f_st_try_plan : framed.

Lemma f_plan_once c : framed I (plan_once c).
Proof using Hread. unfold plan_once, validated. framing. Qed.

Lemma f_plan_with c : framed I (plan_with c).
Proof using Hread Hcheck.
  unfold plan_with, still. apply f_bind; [framing|]. intros u s Hs.
  pose proof (f_plan_once c s Hs) as Hp.
  assert (framed I (checked_after (plan_once c s).1)) as Hl.
  { unfold checked_after, still. destruct (plan_once c s).1 as [|[]]; framing. }
  destruct (plan_once c s) as [[p|e] s']; by apply Hl.
Qed.

Lemma f_inventory : framed I inventory.
Proof using Hread Hcheck. unfold inventory, still. framing. Qed.
End planning.

(** ** The same for states alone

    Planning touches its source only by reading and checking it: what every
    read and every check preserves, planning preserves. *)

Definition keeps {S E A} (K : S -> Prop) (m : M S E A) : Prop := forall s, K s -> K (m s).2.

Create HintDb keeps.

Section combinators.
Context {S E : Type} (K : S -> Prop).

Lemma keeps_ret {A} (a : A) : keeps K (ret (E := E) a).
Proof. by intros s. Qed.
Lemma keeps_fail {A} (e : E) : keeps K (fail (A := A) e).
Proof. by intros s. Qed.
Lemma keeps_lift {A} (r : result E A) : keeps K (lift r).
Proof. by intros s. Qed.
Lemma keeps_gets {A} (f : S -> A) : keeps K (gets (E := E) f).
Proof. by intros s. Qed.
Lemma keeps_check b (e : E) : keeps K (check b e).
Proof. intros s. by destruct b. Qed.
Lemma keeps_map_err {F A} (f : E -> F) (m : M S E A) : keeps K m -> keeps K (map_err_m f m).
Proof. intros Hm s Hs. unfold map_err_m. specialize (Hm s Hs). by destruct (m s). Qed.
Lemma keeps_bind {A B} (m : M S E A) (k : A -> M S E B) :
  keeps K m -> (forall a, keeps K (k a)) -> keeps K (bind m k).
Proof.
  intros Hm Hk s Hs. unfold bind. specialize (Hm s Hs). destruct (m s) as [[a|e] s']; [|done].
  by apply Hk.
Qed.
Lemma keeps_modify (f : S -> S) : (forall s, K s -> K (f s)) -> keeps K (modify (E := E) f).
Proof. intros Hf s Hs. by apply Hf. Qed.
End combinators.
#[export] Hint Resolve keeps_ret keeps_fail keeps_lift keeps_gets keeps_check keeps_map_err : keeps.
#[export] Hint Extern 2 (keeps _ (bind _ _)) => apply keeps_bind; [|intros ?] : keeps.

Section loops.
Context {S E : Type} (K : S -> Prop).

Lemma keeps_repeat {A} n (body : A -> M S E A) a :
  (forall a, keeps K (body a)) -> keeps K (repeat_m n body a).
Proof. intros Hb. revert a. induction n; intros a; simpl; auto with keeps. Qed.
Lemma keeps_for {X A} (body : A -> X -> M S E A) a l :
  (forall a x, keeps K (body a x)) -> keeps K (for_m body a l).
Proof. intros Hb. revert a. induction l; intros a'; simpl; auto with keeps. Qed.
Lemma keeps_chunks {A} size (body : A -> Z -> M S E A) n a :
  (forall a k, keeps K (body a k)) -> keeps K (while_chunks size body n a).
Proof.
  intros Hb. unfold while_chunks. generalize (Z.to_nat (div_ceil n size)) as fuel. intros fuel.
  revert n a. induction fuel as [|fuel IH]; intros n a; simpl; auto with keeps.
  destruct (0 <? n); auto with keeps.
Qed.
End loops.
#[export] Hint Resolve keeps_repeat keeps_for keeps_chunks : keeps.

(** Case analysis in the middle of a block. *)
Ltac keeps :=
  repeat first
    [ progress (auto with keeps)
    | progress (intros; cbv zeta)
    | match goal with |- keeps _ (match ?x with _ => _ end) => destruct x end
    | apply keeps_bind ].

Section planning.
Context {S : Type} `{ByteSource S, Allocator} (K : S -> Prop).
Context (Kread : forall offset n, keeps K (read_exact_at offset n)) (Kcheck : keeps K check_unchanged).

(** The reader's own state is not the source. *)
Let KR (r : greader S) : Prop := K (g_source r).

Lemma keeps_ensure n : keeps KR (ensure n).
Proof. intros r Hr. unfold ensure. by repeat case_match. Qed.
Lemma keeps_read_source n : keeps KR (read_source n).
Proof.
  intros r Hr. unfold read_source. specialize (Kread (g_position r) n _ Hr).
  by destruct (read_exact_at _ _ _).
Qed.
Lemma keeps_advance n : keeps KR (advance n).
Proof. by apply keeps_modify. Qed.
Lemma keeps_limit_next n : keeps KR (limit_next n).
Proof. intros r Hr. unfold limit_next. by case_match. Qed.
Lemma keeps_clear_limit : keeps KR clear_limit.
Proof. by apply keeps_modify. Qed.
Hint Resolve keeps_ensure keeps_read_source keeps_advance keeps_limit_next keeps_clear_limit : keeps.

Lemma keeps_read n : keeps KR (read n).
Proof. unfold read. keeps. Qed.
Lemma keeps_skip n : keeps KR (skip n).
Proof. unfold skip. keeps. Qed.
Hint Resolve keeps_read keeps_skip : keeps.
Lemma keeps_read_u8 : keeps KR read_u8.
Proof. unfold read_u8. keeps. Qed.
Lemma keeps_read_u32 : keeps KR read_u32.
Proof. unfold read_u32. keeps. Qed.
Lemma keeps_read_u64 : keeps KR read_u64.
Proof. unfold read_u64. keeps. Qed.
Hint Resolve keeps_read_u8 keeps_read_u32 keeps_read_u64 : keeps.
Lemma keeps_bounded max : keeps KR (read_bounded_bytes max).
Proof. unfold read_bounded_bytes. keeps. Qed.
Lemma keeps_utf8_chunk pending k : keeps KR (utf8_chunk pending k).
Proof. unfold utf8_chunk. keeps. Qed.
Lemma keeps_bool_chunk u k : keeps KR (bool_chunk u k).
Proof. unfold bool_chunk. keeps. Qed.
Hint Resolve keeps_bounded keeps_utf8_chunk keeps_bool_chunk : keeps.
Lemma keeps_skip_utf8_string b : keeps KR (skip_utf8_string b).
Proof. unfold skip_utf8_string. keeps. Qed.
Lemma keeps_check_bool_bytes k : keeps KR (check_bool_bytes k).
Proof. unfold check_bool_bytes. keeps. Qed.
Hint Resolve keeps_skip_utf8_string keeps_check_bool_bytes : keeps.
Lemma keeps_array element depth b :
  (forall t d b, keeps KR (element t d b)) -> keeps KR (parse_metadata_array element depth b).
Proof. intros He. unfold parse_metadata_array. keeps. Qed.
Hint Resolve keeps_array : keeps.
Lemma keeps_value fuel t depth b : keeps KR (parse_metadata_value fuel t depth b).
Proof.
  revert t depth b. induction fuel as [|fuel IH]; intros t depth b; cbn [parse_metadata_value]; keeps.
Qed.
Hint Resolve keeps_value : keeps.
Lemma keeps_metadata_entry st : keeps KR (metadata_entry st).
Proof. unfold metadata_entry. keeps. Qed.
Lemma keeps_read_dimension dims : keeps KR (read_dimension dims).
Proof. unfold read_dimension. keeps. Qed.
Hint Resolve keeps_metadata_entry keeps_read_dimension : keeps.
Lemma keeps_directory_entry alignment st : keeps KR (directory_entry alignment st).
Proof. unfold directory_entry. keeps. Qed.
Hint Resolve keeps_directory_entry : keeps.
Lemma keeps_parse_metadata : keeps KR parse_metadata.
Proof. unfold parse_metadata. keeps. Qed.
Lemma keeps_parse_directory n st : keeps KR (parse_directory n st).
Proof. unfold parse_directory. keeps. Qed.
Hint Resolve keeps_parse_metadata keeps_parse_directory : keeps.

Lemma keeps_parse : keeps K parse.
Proof.
  intros s Hs. unfold parse.
  assert (keeps KR (let<- '(tensor_count, metadata) := parse_metadata in
    parse_directory tensor_count metadata)) as Hk by keeps.
  specialize (Hk (greader_new s) Hs). by destruct (bind _ _ _).
Qed.

Context `{HeaderJson, EntrySort, Sha256}.

Lemma keeps_gguf_try_plan c : keeps K (gguf_try_plan c).
Proof. intros s Hs. unfold gguf_try_plan. pose proof (keeps_parse s Hs). by destruct (parse s). Qed.
Lemma keeps_st_read_layout : keeps K st_read_layout.
Proof. unfold st_read_layout. keeps. Qed.
Hint Resolve keeps_gguf_try_plan keeps_st_read_layout : keeps.
Lemma keeps_st_try_plan c : keeps K (st_try_plan c).
Proof. unfold st_try_plan. keeps. Qed.
Lemma keeps_validated p : keeps K (validated p).
Proof. unfold validated. keeps. Qed.
Lemma keeps_still : keeps K still.
Proof. unfold still. keeps. Qed.
Hint Resolve keeps_st_try_plan keeps_validated keeps_still : keeps.
Lemma keeps_plan_once c : keeps K (plan_once c).
Proof. unfold plan_once. keeps. Qed.
Lemma keeps_plan_with c : keeps K (plan_with c).
Proof.
  unfold plan_with. apply keeps_bind; [keeps|]. intros [] s Hs.
  pose proof (keeps_plan_once c s Hs) as Hk. destruct (plan_once c s) as [res s']. simpl in Hk.
  assert (keeps K (checked_after res)) as Hl by (unfold checked_after; destruct res as [|[]]; keeps).
  by apply Hl.
Qed.
End planning.
