(* ===== verification/Object.v ===== *)
(** Hashing a plan ([src/crates/tensorfs-core/src/object.rs]): digests and
    their spellings, [PlannedObject], [HashedPlan], [hash_plan] and
    [plan_and_hash_under]. *)

From S2P Require Export PlanFrame.

Definition HASH_BUFFER_SIZE : Z := 1024 * 1024.

(** [ObjectDigest]'s [Display]. *)
Definition digest_display (digest : list byte) : list byte := bstr "sha256:" ++ to_hex digest.

(** [struct PlannedObject] and [struct HashedPlan]. *)
Record planned_object : Type := PlannedObject {
  po_digest : list byte; po_length : Z; po_kind : region_kind
}.
Record hashed_plan : Type := HashedPlan {
  hp_planner : planner_id; hp_contract : stamp; hp_file_size : Z; hp_objects : list planned_object
}.

Section hash.
Context {S : Type} `{ByteSource S, Allocator, HeaderJson, EntrySort, Sha256}.

(** One turn of the read loop: the cursor and what the hasher was fed. *)
Definition hash_chunk (st : Z * list byte) (read_length : Z) : M S plan_error (Z * list byte) :=
  let '(cursor, fed) := st in
  let<- bytes := map_err_m PE_Read (read_exact_at cursor read_length) in
  ret (wadd cursor read_length, fed ++ bytes).

(** One region. *)
Definition hash_region (objects : list planned_object) (r : region)
  : M S plan_error (list planned_object) :=
  let<- '(_, fed) := while_chunks HASH_BUFFER_SIZE hash_chunk (r_length r) (r_offset r, []) in
  ret (objects ++ [PlannedObject (sha256 fed) (r_length r) (r_kind r)]).

(** [hash_plan]. *)
Definition hash_plan (p : plan) : M S plan_error hashed_plan :=
  still ;;;
  lift (validate p) ;;;
  let<- length := gets src_len in
  check (length =? p_file_size p) (PE_SourceLengthMismatch (p_file_size p) length) ;;;
  check (try_reserve HASH_BUFFER_SIZE) PE_ResourceExhausted ;;;
  check (try_reserve (zlen (p_regions p))) PE_ResourceExhausted ;;;
  let<- objects := for_m hash_region [] (p_regions p) in
  let hashed := HashedPlan (p_planner p) (p_contract p) (p_file_size p) objects in
  still ;;; ret hashed.

(** [plan_and_hash_under]. *)
Definition plan_and_hash_under (contract : option contract) : M S plan_error hashed_plan :=
  let<- p := plan_with contract in hash_plan p.

(** ** Digests are digests of the planned bytes *)

(** What hashing must produce for a file. *)
Definition hashed_of (file : list byte) (p : plan) : hashed_plan :=
  HashedPlan (p_planner p) (p_contract p) (p_file_size p)
    ((fun r => PlannedObject (sha256 (region_bytes file r)) (r_length r) (r_kind r)) <$> p_regions p).

Section snapshot.
Context `{!Snapshot S}.

Definition holds (file : list byte) (s : S) : Prop := content s = file.
Definition unreliable (_ : plan_error) (_ : S) : Prop := ~ reliable S.

Lemma holds_len file s : holds file s -> src_len s = zlen file.
Proof. intros <-. apply content_len. Qed.

Lemma t_hash_chunk file start k d fed :
  0 <= start -> 0 <= d -> 0 < k -> start + d + k <= zlen file -> zlen file < U64 ->
  fed = slice file start (start + d) ->
  triple (holds file) (hash_chunk (start + d, fed) k)
    (fun st s => st = (start + (d + k), slice file start (start + (d + k))) /\ holds file s)
    unreliable.
Proof.
  intros Hs Hd Hk Hle Hu -> s Hf. unfold hash_chunk, map_err_m, bind.
  pose proof (content_read (start + d) k s) as Hc.
  destruct (read_exact_at (start + d) k s) as [[bytes|e] s'] eqn:Er; simpl in *.
  - apply read_content, get_range_Some in Er as [_ ->]; [|lia..]. rewrite Hf in *.
    split; [|exact Hc]. rewrite wadd_small by lia.
    rewrite slice_join, <-!Z.add_assoc by lia. done.
  - intros (Hrel & _). destruct (Hrel (start + d) k s) as [b Hb];
      rewrite ?(holds_len _ _ Hf); unfold in_u64; pose proof (zlen_nonneg file); [lia..|].
    by rewrite Er in Hb.
Qed.

Lemma t_hash_region file objects r :
  0 <= r_offset r -> 0 <= r_length r -> r_offset r + r_length r <= zlen file -> zlen file < U64 ->
  triple (holds file) (hash_region objects r)
    (fun objects' s => objects' = objects ++
       [PlannedObject (sha256 (region_bytes file r)) (r_length r) (r_kind r)] /\ holds file s)
    unreliable.
Proof.
  intros Ho Hl Hle Hu. eapply t_bind.
  - eapply t_conseq; [apply (t_chunks HASH_BUFFER_SIZE hash_chunk (r_length r) (r_offset r, [])
      (fun d st s => st = (r_offset r + d, slice file (r_offset r) (r_offset r + d)) /\ holds file s)
      unreliable)| |intros st s Hst; exact Hst|done].
    + done.
    + lia.
    + intros d st k Hd Hk Hdk _. apply t_pure. intros ->. apply t_hash_chunk; (done || lia).
    + intros s Hs. rewrite Z.add_0_r, slice_nil. done.
  - intros [cursor fed]. apply t_pure. intros [= _ ->]. apply t_ret. done.
Qed.

Lemma t_still_holds file : triple (holds file) still (fun _ => holds file) unreliable.
Proof.
  intros s Hs. unfold still, map_err_m. pose proof (content_check s) as Hl.
  destruct (check_unchanged s) as [[u|e] s'] eqn:Ec; simpl in *; [by rewrite <-Hs; unfold holds|].
  intros (_ & Hc & _). specialize (Hc s). by rewrite Ec in Hc.
Qed.

Lemma t_reserve_holds file k :
  triple (holds file) (check (try_reserve k) PE_ResourceExhausted) (fun _ => holds file) unreliable.
Proof.
  apply t_check. intros s Hs. destruct (try_reserve k) eqn:Et; [done|].
  intros (_ & _ & Hm). by rewrite Hm in Et.
Qed.

(** The regions of a valid plan lie inside the file. *)
Lemma tiles_inside cap start stop regions r :
  tiles cap start stop regions -> 0 <= start -> r ∈ regions ->
  0 <= r_offset r /\ 0 <= r_length r /\ r_offset r + r_length r <= stop.
Proof.
  revert start. induction regions as [|r' regions IH]; intros start Ht Hst Hin;
    [by apply not_elem_of_nil in Hin|].
  destruct Ht as (Ho & Hr & Ht). apply elem_of_cons in Hin as [->|Hin].
  - apply tiles_le in Ht. lia.
  - apply (IH (start + r_length r')); [done|lia|done].
Qed.

Lemma t_hash_plan file p :
  wf_plan p -> p_file_size p = zlen file -> zlen file < U64 ->
  triple (holds file) (hash_plan p) (fun h s => h = hashed_of file p /\ holds file s) unreliable.
Proof.
  intros Hwf Hsz Hu. pose proof (zlen_nonneg file) as H0'.
  eapply t_bind; [apply t_still_holds|]. intros [].
  rewrite validate_wf by (rewrite ?Hsz; (done || lia)).
  eapply t_bind; [by apply (t_lift _ _ (fun _ => holds file))|]. intros [].
  eapply t_bind.
  { apply (t_gets _ _ (fun v s => v = zlen file /\ holds file s)). intros s Hs.
    split; [by apply holds_len|done]. }
  intros v. apply t_pure. intros ->. rewrite Hsz, Z.eqb_refl.
  eapply t_bind; [by apply (t_check _ _ _ (fun _ => holds file))|]. intros [].
  eapply t_bind; [apply t_reserve_holds|]. intros [].
  eapply t_bind; [apply t_reserve_holds|]. intros [].
  eapply t_bind.
  { eapply t_conseq; [apply (t_for hash_region [] (p_regions p) (fun pre objects s =>
      objects = (fun r => PlannedObject (sha256 (region_bytes file r)) (r_length r) (r_kind r)) <$> pre
      /\ holds file s) unreliable)| |intros os s Hos; exact Hos|done].
    - intros pre r post os Hpre. apply t_pure. intros ->.
      destruct (tiles_inside _ _ _ _ r (wfp_tiles _ Hwf)) as (? & ? & ?); [lia|rewrite Hpre; set_solver|].
      rewrite fmap_app. apply t_hash_region; (done || lia).
    - done. }
  intros os. apply t_pure. intros ->. cbv zeta. eapply t_bind; [apply t_still_holds|]. intros [].
  apply t_ret. intros s Hs. split; [|done]. unfold hashed_of. by rewrite Hsz.
Qed.

(** Hashing is honest: over a snapshot, a hashed plan that is returned names
    for each planned region the digest of exactly the file's bytes in that
    region, read through a bounded buffer, in order, with the plan's planner,
    contract, size, lengths and kinds unchanged. *)
Theorem hash_plan_correct p s h s' :
  in_u64 (p_file_size p) -> Forall (fun r => 0 <= r_length r < U64) (p_regions p) ->
  zlen (content s) < U64 -> hash_plan p s = (Ok h, s') ->
  h = hashed_of (content s) p /\ validate p = Ok tt /\ p_file_size p = zlen (content s).
Proof.
  intros Hsz Hf Hu Hh.
  assert (validate p = Ok tt /\ p_file_size p = zlen (content s)) as [Hv Hlen].
  { unfold hash_plan in Hh. pose proof (t_still_holds (content s) s eq_refl) as Hs.
    destruct (still s) as [[[]|e] s1] eqn:E1; [|by rewrite (bind_Err _ _ _ _ _ E1) in Hh].
    rewrite (bind_Ok _ _ _ _ _ E1) in Hh. destruct (validate p) as [[]|e]; [|done]. split; [done|].
    unfold bind at 1 2 in Hh. simpl in Hh. unfold check at 1 in Hh.
    destruct (Z.eqb_spec (src_len s1) (p_file_size p)) as [He|]; [|done].
    rewrite <-He. by apply holds_len. }
  apply validate_iff in Hv as Hwf; [|done|done].
  pose proof (t_hash_plan (content s) p Hwf Hlen Hu s eq_refl) as Ht. rewrite Hh in Ht.
  by destruct Ht as [-> _].
Qed.

(** C1: Ingest succeeds and is exact: over a reliable snapshot (in-range reads
    succeed, the source does not change, memory is there), planning and hashing
    under no contract, or under a validated one whose shares do not overflow and
    whose lists of runs are no larger than an allocation may be, always returns,
    and what it returns is the digest list of an exact plan of that file. *)
Theorem plan_and_hash_total c s :
  zlen (content s) < U64 -> reliable S -> usable c ->
  exists p s', plan_and_hash_under c s = (Ok (hashed_of (content s) p), s') /\
    plan_ok c (zlen (content s)) p.
Proof.
  intros Hu Hrel Huse. pose proof (zlen_nonneg (content s)) as Hnn.
  assert (in_u64 (src_len s)) as Hn by (rewrite content_len; done).
  pose proof (t_plan_with c (src_len s) Hn s eq_refl) as Ht.
  assert (keeps (holds (content s)) (plan_with c)) as Hk.
  { apply keeps_plan_with.
    - intros offset n s1 Hs1. unfold holds. by rewrite content_read.
    - intros s1 Hs1. unfold holds. by rewrite content_check. }
  specialize (Hk s eq_refl). unfold plan_and_hash_under.
  destruct (plan_with c s) as [[p|e] s1] eqn:Ep; [|by destruct Ht as [_ []]].
  destruct Ht as [Hok _]. rewrite content_len in Hok. pose proof Hok as (Hwf & Hsz & _).
  rewrite (bind_Ok _ _ _ _ _ Ep). simpl in Hk.
  pose proof (t_hash_plan (content s) p Hwf Hsz Hu s1 Hk) as Hh.
  destruct (hash_plan p s1) as [[h|e] s2]; [|by destruct Hh]. destruct Hh as [-> _]. eauto.
Qed.
End snapshot.
End hash.

(** ** The same tensor in two containers *)

Section twins.
Context `{Allocator, HeaderJson, EntrySort, Sha256}.

(** The cut points a contract asks for in a tensor of an inventory; an empty
    tensor has none. *)
Definition tensor_seams (c : option contract) (t : inventory_tensor) : list Z :=
  match c with
  | Some c => if it_length t =? 0 then []
              else default [] (seam_offsets c (it_name t) (it_shape t) (it_length t))
  | None => []
  end.

(** The run of a plan that is one tensor of a file. *)
Definition tensor_isolated (c : option contract) (file : list byte) (p : plan)
    (t : inventory_tensor) : Prop :=
  0 <= it_offset t /\ 0 <= it_length t /\
  isolated (p_regions p) (zlen file) (it_offset t) (it_length t) (tensor_seams c t).

Lemma slice_keeps {E A} (f : list byte) (m : M (list byte) E A) :
  keeps (eq f) m -> forall r f', m f = (r, f') -> f' = f.
Proof. intros Hk r f' Hm. specialize (Hk f eq_refl). by rewrite Hm in Hk. Qed.
Lemma slice_keeps_read f offset n : keeps (eq f) (read_exact_at (S := list byte) offset n).
Proof. intros s ->. simpl. unfold slice_read. by repeat case_match. Qed.
Lemma slice_keeps_check f : keeps (eq f) (check_unchanged (S := list byte)).
Proof. by intros s ->. Qed.

Lemma seams_ok_empty seams : seams_ok 0 0 seams -> seams = [].
Proof. destruct seams as [|s seams]; [done|]. simpl. lia. Qed.

Lemma isolated_inside (file : list byte) regions start length seams :
  isolated regions (zlen file) start length seams -> 0 <= length /\ start + length <= zlen file.
Proof.
  intros (before & after & _ & Hs & _ & Ha). apply tiles_le in Ha.
  destruct (sumZ_cuts_grid _ _ Hs) as [Hsum Hf]. pose proof (sumZ_nonneg _ Hf). lia.
Qed.

Lemma gguf_isolated c l p f :
  zlen f < U64 -> layout_wf (zlen f) l -> gguf_plan_ok c l p -> p_file_size p = zlen f ->
  Forall (tensor_isolated c f p) (inv_tensors (gguf_inventory l)).
Proof.
  intros Hu Hl Hp Hsz. pose proof (gp_tensors _ _ _ Hp) as Hi. rewrite Hsz, Forall_forall in Hi.
  simpl. apply Forall_fmap, Forall_forall. intros t Ht. simpl. specialize (Hi t Ht).
  pose proof (layout_tensor_start _ _ _ Hl Ht). destruct (isolated_inside _ _ _ _ _ Hi) as [Hl0 Hle].
  unfold tensor_isolated. simpl. rewrite wadd_small by (pose proof (lw_order _ _ Hl); lia).
  split; [done|]. split; [done|].
  assert (tensor_seams c (InventoryTensor (ti_name t)
    (default (bstr "UNKNOWN") (ggml_type_name (ti_ggml_type t))) (logical_shape t)
    (gl_data_start l + ti_offset t) (ti_length t)) = declared_seams c t) as ->; [|done].
  unfold tensor_seams. simpl. destruct c as [c|]; [|done].
  destruct (Z.eqb_spec (ti_length t) 0) as [Hz|]; [|done].
  destruct Hi as (_ & _ & _ & Hs & _). rewrite Hz in Hs. symmetry. by apply seams_ok_empty.
Qed.

Lemma st_isolated c l p f :
  zlen f < U64 -> st_layout_wf (zlen f) l -> st_plan_ok c l p -> p_file_size p = zlen f ->
  Forall (tensor_isolated c f p) (inv_tensors (st_inventory l)).
Proof.
  intros Hu Hl Hp Hsz. pose proof (sp_tensors _ _ _ Hp) as Hi. rewrite Hsz, Forall_forall in Hi.
  simpl. apply Forall_fmap, Forall_forall. intros t Ht. simpl. specialize (Hi t Ht).
  destruct (isolated_inside _ _ _ _ _ Hi) as [Hl0 Hle]. pose proof (sw_header _ _ Hl).
  pose proof (sw_tensors _ _ Hl) as Hw. rewrite Forall_forall in Hw.
  pose proof (ew_range _ (Hw _ Ht)). unfold tensor_isolated. simpl.
  rewrite wadd_small, wsub_small by lia. split; [lia|]. split; [lia|]. exact Hi.
Qed.

(** The layout the plan was made from is the one the inventory lists. *)
Lemma plan_isolates_inventory c f p f' inv f'' :
  zlen f < U64 -> plan_with c f = (Ok p, f') -> inventory f = (Ok (Some inv), f'') ->
  planner_tensor_format (p_planner p) = Some (ti_format inv) ->
  Forall (tensor_isolated c f p) (inv_tensors inv).
Proof.
  intros Hu Hp Hinv Hfmt. pose proof (zlen_nonneg f). assert (in_u64 (src_len f)) as Hn by done.
  assert (plan_once c f = (Ok p, f)) as Hp1.
  { unfold plan_with in Hp. unfold still at 1, map_err_m in Hp. unfold bind at 1 in Hp. simpl in Hp.
    destruct (plan_once c f) as [r f1] eqn:Eo.
    assert (f1 = f) as -> by (eapply slice_keeps; [apply keeps_plan_once, slice_keeps_read|exact Eo]).
    f_equal. destruct r as [p'|[]]; simpl in Hp; unfold bind, lift in Hp; simpl in Hp; congruence. }
  unfold inventory in Hinv. unfold still, map_err_m in Hinv. unfold bind at 1 2 in Hinv. simpl in Hinv.
  unfold plan_once in Hp1. unfold bind at 1 in Hp1. simpl in Hp1.
  destruct (zlen f <? 10) eqn:E10.
  { unfold validated in Hp1. apply bind_inv in Hp1 as (u & s1 & _ & [= <- _]). done. }
  apply bind_inv in Hp1 as (g1 & s1 & Hg1 & Hp1). apply bind_inv in Hinv as (g2 & s2 & Hg2 & Hinv).
  assert (s1 = f) as ->.
  { destruct (24 <=? zlen f); [|by injection Hg1].
    eapply slice_keeps; [apply keeps_gguf_try_plan, slice_keeps_read|exact Hg1]. }
  assert (s2 = f) as ->.
  { destruct (24 <=? zlen f); [|by injection Hg2]. unfold gguf_read_layout in Hg2.
    destruct (parse f) as [res s] eqn:Ep. injection Hg2 as _ <-.
    eapply slice_keeps; [apply keeps_parse, slice_keeps_read|exact Ep]. }
  destruct g1 as [p1|].
  - destruct (24 <=? zlen f); [|done]. unfold validated in Hp1.
    apply bind_inv in Hp1 as ([] & s & _ & [= -> _]).
    destruct (t_parse (src_len f) f eq_refl Hn) as [Hs Hl].
    unfold gguf_try_plan in Hg1. unfold gguf_read_layout in Hg2.
    destruct (parse f) as [[l|e] s'] eqn:Ep; [|by destruct e; simplify_eq].
    simpl in *. injection Hg2 as <- <-. injection Hinv as <- _.
    destruct (plan_layout _ l c) as [p2|e] eqn:Epl; simpl in Hg1; [|by destruct e]. injection Hg1 as <-.
    destruct (plan_layout_Ok _ _ _ _ Hl Hn Epl) as [Hok Hsz]. by apply gguf_isolated.
  - apply bind_inv in Hp1 as (g3 & s3 & Hg3 & Hp1). destruct g3 as [p1|].
    2:{ unfold bind at 1 in Hp1. simpl in Hp1. unfold validated in Hp1.
        by apply bind_inv in Hp1 as ([] & s & _ & [= <- _]). }
    unfold validated in Hp1. apply bind_inv in Hp1 as ([] & s & _ & [= -> _]).
    unfold st_try_plan in Hg3. apply bind_inv in Hg3 as (o & s4 & Hl & Hg3).
    destruct o as [l|]; [|done].
    pose proof (t_read_layout (zlen f) Hn f eq_refl) as Hw. rewrite Hl in Hw. destruct Hw as [Hw Hs4].
    specialize (Hw l eq_refl). unfold bind, gets, lift in Hg3. injection Hg3 as Hpl _. simpl in Hpl, Hs4. rewrite Hs4 in Hpl.
    destruct (st_plan_layout_Ok _ _ _ _ Hw Hu Hpl) as [Hok Hsz].
    destruct g2 as [l2|]; [injection Hinv as <- _; by rewrite (sp_planner _ _ _ Hok) in Hfmt|].
    rewrite (bind_Ok _ _ _ _ _ Hl) in Hinv. injection Hinv as <- _. by apply st_isolated.
Qed.

(** What is recorded of one object of a tensor. *)
Definition tensor_object (bytes : list byte) : planned_object :=
  PlannedObject (sha256 bytes) (zlen bytes) RK_Tensor.

Lemma hashed_lay f start lengths :
  Forall (fun n => 0 <= n) lengths -> 0 <= start -> start + sumZ lengths <= zlen f ->
  (fun r => PlannedObject (sha256 (region_bytes f r)) (r_length r) (r_kind r)) <$> lay start RK_Tensor lengths
  = tensor_object <$> (region_bytes f <$> lay start RK_Tensor lengths).
Proof.
  intros Hf. revert start. induction Hf as [|n lengths Hn Hf IH]; intros start Hs Hle; [done|].
  pose proof (sumZ_nonneg _ Hf). change (sumZ (n :: lengths)) with (n + sumZ lengths) in Hle.
  cbn [lay]. rewrite !fmap_cons, IH by lia. f_equal. unfold tensor_object. f_equal.
  unfold region_bytes. simpl. rewrite slice_length; lia.
Qed.

(** The objects a hashed plan has for an isolated tensor. *)
Lemma isolated_hashed c f p t :
  tensor_isolated c f p t ->
  exists before after, hp_objects (hashed_of f p) =
    before ++ (tensor_object <$> chop (cuts 0 (it_length t) (tensor_seams c t) ≫= grid)
        (slice f (it_offset t) (it_offset t + it_length t))) ++ after.
Proof.
  intros (Ho & Hl & Hi). destruct (isolated_inside _ _ _ _ _ Hi) as [_ Hle].
  destruct Hi as (before & after & Hr & Hs & Hb & Ha). destruct (sumZ_cuts_grid _ _ Hs) as [Hsum Hf].
  unfold hashed_of. simpl. rewrite Hr, !fmap_app, hashed_lay by (done || lia). eexists _, _.
  do 3 f_equal. rewrite lay_file by (done || lia). by rewrite Hsum.
Qed.

Lemma hashed_file c f h s :
  zlen f < U64 -> plan_and_hash_under c f = (Ok h, s) ->
  exists p s', plan_with c f = (Ok p, s') /\ h = hashed_of f p.
Proof.
  intros Hu (p & s1 & Hp & Hh)%bind_inv. exists p, s1. split; [done|].
  assert (s1 = f) as -> by (eapply slice_keeps; [apply keeps_plan_with; [apply slice_keeps_read|
    apply slice_keeps_check]|exact Hp]). pose proof (zlen_nonneg f).
  pose proof (t_plan_with c (src_len f) ltac:(done) f eq_refl) as Ht. rewrite Hp in Ht.
  destruct Ht as [(Hwf & Hsz & _) _].
  pose proof (t_hash_plan f p Hwf Hsz Hu f eq_refl) as Hk. rewrite Hh in Hk. apply Hk.
Qed.

(** Two tensors a contract cuts alike: no contract, or the same one for the
    same name and shape. *)
Definition cut_alike (c : option contract) (t1 t2 : inventory_tensor) : Prop :=
  c = None \/ it_name t1 = it_name t2 /\ it_shape t1 = it_shape t2.

(** C30: A tensor is stored once across containers: when two files, each a GGUF
    or a safetensors container, are planned and hashed under the same contract
    or none, and both list a tensor of the same bytes (and, under a contract,
    of the same name and shape), then the two results hold the same run of
    objects for it - the same digests, lengths and kinds, in the same order,
    and they are the objects of exactly the tensor's bytes - wherever the tensor
    lies in each file and whatever alignment and padding surround it. *)
Theorem twins_share_objects c f1 f2 h1 h2 s1 s2 inv1 inv2 s3 s4 t1 t2 :
  zlen f1 < U64 -> zlen f2 < U64 ->
  plan_and_hash_under c f1 = (Ok h1, s1) -> plan_and_hash_under c f2 = (Ok h2, s2) ->
  inventory f1 = (Ok (Some inv1), s3) -> inventory f2 = (Ok (Some inv2), s4) ->
  planner_tensor_format (hp_planner h1) = Some (ti_format inv1) ->
  planner_tensor_format (hp_planner h2) = Some (ti_format inv2) ->
  t1 ∈ inv_tensors inv1 -> t2 ∈ inv_tensors inv2 -> cut_alike c t1 t2 ->
  it_length t1 = it_length t2 ->
  slice f1 (it_offset t1) (it_offset t1 + it_length t1) =
  slice f2 (it_offset t2) (it_offset t2 + it_length t2) ->
  exists parts a1 b1 a2 b2,
    hp_objects h1 = a1 ++ (tensor_object <$> parts) ++ b1 /\
    hp_objects h2 = a2 ++ (tensor_object <$> parts) ++ b2 /\
    mjoin parts = slice f1 (it_offset t1) (it_offset t1 + it_length t1).
Proof.
  intros Hu1 Hu2 Hh1 Hh2 Hi1 Hi2 Hf1 Hf2 Ht1 Ht2 Hcut Hlen Hbytes.
  apply hashed_file in Hh1 as (p1 & ? & Hp1 & ->); [|done]. apply hashed_file in Hh2 as (p2 & ? & Hp2 & ->); [|done].
  pose proof (plan_isolates_inventory _ _ _ _ _ _ Hu1 Hp1 Hi1 Hf1) as Hall1.
  pose proof (plan_isolates_inventory _ _ _ _ _ _ Hu2 Hp2 Hi2 Hf2) as Hall2.
  rewrite Forall_forall in Hall1. rewrite Forall_forall in Hall2.
  specialize (Hall1 t1 Ht1). specialize (Hall2 t2 Ht2).
  assert (tensor_seams c t2 = tensor_seams c t1) as Hs.
  { destruct Hcut as [->|[Hname Hshape]]; [done|]. unfold tensor_seams. by rewrite Hname, Hshape, Hlen. }
  pose proof Hall1 as (Ho & _ & Hiso). destruct (isolated_inside _ _ _ _ _ Hiso) as [? ?].
  destruct Hiso as (_ & _ & _ & Hsk & _). destruct (sumZ_cuts_grid _ _ Hsk) as [Hsum Hf].
  apply isolated_hashed in Hall1 as (a1 & b1 & E1). apply isolated_hashed in Hall2 as (a2 & b2 & E2).
  rewrite Hs, <-Hlen, Hlen, <-Hbytes, <-Hlen in E2.
  eexists _, a1, b1, a2, b2. split; [exact E1|]. split; [exact E2|].
  apply mjoin_chop; [done|]. rewrite Hsum, slice_length; lia.
Qed.
End twins.

(** ** A file *)

#[local] Existing Instances ample_memory sample_json stable_sort toy_sha.

Lemma hash_plan_correct_witness :
  hash_plan twin_plan twin_gguf = (Ok (hashed_of twin_gguf twin_plan), twin_gguf) /\
  validate twin_plan = Ok tt.
Proof.
  assert (hash_plan twin_plan twin_gguf = (Ok (hashed_of twin_gguf twin_plan), twin_gguf)) as Hp
    by (vm_compute; reflexivity).
  split; [exact Hp|].
  refine (proj1 (proj2 (@hash_plan_correct (list byte) slice_source ample_memory toy_sha
    slice_snapshot twin_plan twin_gguf (hashed_of twin_gguf twin_plan) twin_gguf _ _ _ Hp))).
  - vm_compute. split; [discriminate|reflexivity].
  - repeat constructor; vm_compute; done.
  - vm_compute. reflexivity.
Defined.

(** Eight [I8] rows under a contract that fuses them into two groups of three
    parts. *)
Definition fused_gguf : list byte :=
  MAGIC ++ u32_bytes 3 ++ u64_bytes 1 ++ u64_bytes 0
  ++ u64_bytes 1 ++ bstr "t" ++ u32_bytes 1 ++ u64_bytes 8 ++ u32_bytes 24 ++ u64_bytes 0
  ++ replicate 7 (byte_of 0) ++ bstr "abcdefgh" ++ replicate 24 (byte_of 0).

Lemma qkv_usable : usable (Some (fused_contract 2 qkv_parts)).
Proof.
  split; [apply (raw_validate_sound (fused_document 2 qkv_parts)); [apply qkv_wf|vm_compute; reflexivity]|].
  split; apply Forall_singleton; intros f [= <-]; [vm_compute; reflexivity|].
  intros u Hu. vm_compute in Hu. injection Hu as <-. vm_compute. discriminate.
Qed.

Lemma plan_and_hash_total_witness :
  runs_of (fused_contract 2 qkv_parts) (bstr "t") [8] 8 = Some None /\
  exists p s', plan_and_hash_under (Some (fused_contract 2 qkv_parts)) fused_gguf
      = (Ok (hashed_of fused_gguf p), s') /\
    plan_ok (Some (fused_contract 2 qkv_parts)) (zlen fused_gguf) p.
Proof.
  split; [vm_compute; reflexivity|].
  apply (@plan_and_hash_total (list byte) slice_source ample_memory sample_json stable_sort toy_sha
    slice_snapshot (Some (fused_contract 2 qkv_parts)) fused_gguf).
  - vm_compute. reflexivity.
  - apply slice_reliable. reflexivity.
  - exact qkv_usable.
Defined.

Definition twin_tensor : inventory_tensor := InventoryTensor (bstr "t") (bstr "I8") [3] 64 3.
Definition st_twin_tensor : inventory_tensor := InventoryTensor (bstr "b") (bstr "U8") [3] 10 3.

Lemma twins_share_objects_witness :
  exists parts a1 b1 a2 b2,
    hp_objects (hashed_of twin_gguf twin_plan) = a1 ++ (tensor_object <$> parts) ++ b1 /\
    hp_objects (hashed_of sample_safetensors sample_st_plan) = a2 ++ (tensor_object <$> parts) ++ b2 /\
    mjoin parts = bstr "xyz".
Proof.
  apply (twins_share_objects None twin_gguf sample_safetensors (hashed_of twin_gguf twin_plan)
    (hashed_of sample_safetensors sample_st_plan) twin_gguf sample_safetensors
    (TensorInventory TF_GgufV1 [twin_tensor])
    (TensorInventory TF_SafetensorsV1 [st_twin_tensor; InventoryTensor (bstr "e") (bstr "U8") [0] 13 0])
    twin_gguf sample_safetensors twin_tensor st_twin_tensor).
  - vm_compute. reflexivity.
  - vm_compute. reflexivity.
  - vm_compute. reflexivity.
  - vm_compute. reflexivity.
  - vm_compute. reflexivity.
  - vm_compute. reflexivity.
  - vm_compute. reflexivity.
  - vm_compute. reflexivity.
  - apply list_elem_of_here.
  - apply list_elem_of_here.
  - left. reflexivity.
  - reflexivity.
  - vm_compute. reflexivity.
Defined.
