(* ===== verification/PlanMirror.v ===== *)
(** Planning and hashing see a source only through its reads
    ([src/crates/tensorfs-core/src/planner/], [src/crates/tensorfs-core/src/object.rs]):
    over two sources whose reads agree, they agree.  One of the two may break down
    on the way, by failing or by changing under the reader; then nothing more is
    said of it. *)

From S2P Require Export PlanFrame Object.

(** ** Agreement *)

(** From related states, the first source ends up broken, or fails as the world
    does, or gives what the second gives in a related state.  What is broken stays
    broken. *)
Definition mirrors {S1 S2 E A : Type} (R : S1 -> S2 -> Prop) (Bad : S1 -> Prop) (W : E -> Prop)
    (m1 : M S1 E A) (m2 : M S2 E A) : Prop :=
  (forall s, Bad s -> Bad (m1 s).2) /\
  forall s1 s2, R s1 s2 -> Bad (m1 s1).2 \/ (exists e, (m1 s1).1 = Err e /\ W e) \/
    ((m1 s1).1 = (m2 s2).1 /\ R (m1 s1).2 (m2 s2).2).

Create HintDb mirrors.

Section rules.
Context {S1 S2 E : Type} (R : S1 -> S2 -> Prop) (Bad : S1 -> Prop) (W : E -> Prop).
Abbreviation agree := (mirrors R Bad W).

Lemma v_bind_post {A B : Type} (Q : A -> Prop) (m1 : M S1 E A) (m2 : M S2 E A) (k1 : A -> M S1 E B) (k2 : A -> M S2 E B) :
  agree m1 m2 -> (forall s1 s2 a s', R s1 s2 -> m2 s2 = (Ok a, s') -> Q a) -> (forall a s, Bad s -> Bad (k1 a s).2) ->
  (forall a, Q a -> agree (k1 a) (k2 a)) -> agree (bind m1 k1) (bind m2 k2).
Proof.
  intros [Hb Hm] HQ Hbk Hk. split.
  - intros s Hs. specialize (Hb s Hs). unfold bind. destruct (m1 s) as [[a|e] s']; [by apply Hbk|done].
  - intros s1 s2 Hr. unfold bind. destruct (Hm s1 s2 Hr) as [Hbad|[(e & He & Hw)|[Heq Hr']]].
    + left. destruct (m1 s1) as [[a|e] s']; [by apply Hbk|done].
    + right. left. exists e. destruct (m1 s1) as [[a|e'] s']; [done|]. by injection He as ->.
    + destruct (m1 s1) as [r1 s1'], (m2 s2) as [r2 s2'] eqn:E2. simpl in Heq, Hr'. subst r2.
      destruct r1 as [a|e]; [|by right; right]. apply Hk; [|done]. exact (HQ s1 s2 a s2' Hr E2).
Qed.
Lemma v_bind {A B : Type} (m1 : M S1 E A) (m2 : M S2 E A) (k1 : A -> M S1 E B) (k2 : A -> M S2 E B) :
  agree m1 m2 -> (forall a, agree (k1 a) (k2 a)) -> agree (bind m1 k1) (bind m2 k2).
Proof. intros Hm Hk. apply (v_bind_post (fun _ => True)); [done|done|by intros a; apply Hk|auto]. Qed.
Lemma v_lift {A : Type} (r : result E A) : agree (lift r) (lift r).
Proof. split; [done|]. by right; right. Qed.
Lemma v_ret {A : Type} (a : A) : agree (ret a) (ret a).
Proof. apply v_lift. Qed.
Lemma v_fail {A : Type} (e : E) : agree (fail e : M S1 E A) (fail e).
Proof. apply v_lift. Qed.
Lemma v_check (b : bool) (e : E) : agree (check b e) (check b e).
Proof. destruct b; [apply v_ret|apply v_fail]. Qed.
Lemma v_gets {A : Type} (f : S1 -> A) (g : S2 -> A) : (forall s1 s2, R s1 s2 -> f s1 = g s2) -> agree (gets f) (gets g).
Proof. intros Hf. split; [done|]. intros s1 s2 Hr. right; right. simpl. by rewrite (Hf _ _ Hr). Qed.
Lemma v_modify (f : S1 -> S1) (g : S2 -> S2) :
  (forall s, Bad s -> Bad (f s)) -> (forall s1 s2, R s1 s2 -> R (f s1) (g s2)) -> agree (modify f) (modify g).
Proof. intros Hb Hf. split; [done|]. intros s1 s2 Hr. right; right. split; [done|]. by apply Hf. Qed.
Lemma v_for {X A : Type} (b1 : A -> X -> M S1 E A) (b2 : A -> X -> M S2 E A) (a : A) (l : list X) :
  (forall a x, x ∈ l -> agree (b1 a x) (b2 a x)) -> agree (for_m b1 a l) (for_m b2 a l).
Proof.
  revert a. induction l as [|x l IH]; intros a Hb; [apply v_ret|]. cbn [for_m].
  apply v_bind; [apply Hb; left|]. intros a'. apply IH. intros a'' y Hy. apply Hb. by right.
Qed.
Lemma v_repeat {A : Type} (count : nat) (b1 : A -> M S1 E A) (b2 : A -> M S2 E A) (a : A) :
  (forall a, agree (b1 a) (b2 a)) -> agree (repeat_m count b1 a) (repeat_m count b2 a).
Proof. intros Hb. revert a. induction count as [|n IH]; intros a; [apply v_ret|]. by apply v_bind. Qed.
Lemma chunks_bad {A : Type} (fuel : nat) (size : Z) (b1 : A -> Z -> M S1 E A) (n : Z) (a : A) s :
  0 < size -> (forall a k s, 0 < k -> Bad s -> Bad (b1 a k s).2) -> Bad s -> Bad (chunk_loop fuel size b1 n a s).2.
Proof.
  intros Hs Hb. revert n a s. induction fuel as [|fuel IH]; intros n a s Hsb; cbn [chunk_loop]; [done|].
  destruct (Z.ltb_spec 0 n); [|done]. cbv zeta. unfold bind. specialize (Hb a (Z.min n size) s ltac:(lia) Hsb).
  destruct (b1 a (Z.min n size) s) as [[a'|e] s']; [by apply IH|done].
Qed.
Lemma v_chunks_keeping {A : Type} (I : A -> Prop) (size : Z) (b1 : A -> Z -> M S1 E A) (b2 : A -> Z -> M S2 E A) (n : Z) (a : A) :
  0 < size -> I a -> (forall a k s a' s', b2 a k s = (Ok a', s') -> I a') ->
  (forall a k s, 0 < k -> Bad s -> Bad (b1 a k s).2) ->
  (forall a k, I a -> 0 < k -> agree (b1 a k) (b2 a k)) -> agree (while_chunks size b1 n a) (while_chunks size b2 n a).
Proof.
  intros Hs Ha HI Hbad Hb. unfold while_chunks. generalize (Z.to_nat (div_ceil n size)). intros fuel.
  revert n a Ha. induction fuel as [|fuel IH]; intros n a Ha; cbn [chunk_loop]; [apply v_ret|].
  destruct (Z.ltb_spec 0 n); [|apply v_ret]. cbv zeta.
  eapply (v_bind_post I); [apply Hb; [done|lia]|by intros ???? _; apply HI|by intros; apply chunks_bad|]. intros a' Ha'. by apply IH.
Qed.
Lemma v_chunks {A : Type} (size : Z) (b1 : A -> Z -> M S1 E A) (b2 : A -> Z -> M S2 E A) (n : Z) (a : A) :
  0 < size -> (forall a k, 0 < k -> agree (b1 a k) (b2 a k)) -> agree (while_chunks size b1 n a) (while_chunks size b2 n a).
Proof. intros Hs Hb. apply (v_chunks_keeping (fun _ => True)); auto. intros a' k s Hk. by apply Hb. Qed.
End rules.

Lemma v_map_err {S1 S2 E F A : Type} (R : S1 -> S2 -> Prop) (Bad : S1 -> Prop) (W : E -> Prop) (W' : F -> Prop)
    (f : E -> F) (m1 : M S1 E A) (m2 : M S2 E A) :
  (forall e, W e -> W' (f e)) -> mirrors R Bad W m1 m2 -> mirrors R Bad W' (map_err_m f m1) (map_err_m f m2).
Proof.
  intros Hf [Hb Hm]. split.
  - intros s Hs. specialize (Hb s Hs). unfold map_err_m. by destruct (m1 s).
  - intros s1 s2 Hr. unfold map_err_m. specialize (Hm s1 s2 Hr). destruct (m1 s1) as [r1 s1'], (m2 s2) as [r2 s2']. simpl in *.
    destruct Hm as [?|[(e & -> & He)|[-> ?]]]; [by left|right; left; eauto|by right; right].
Qed.
#[export] Hint Resolve v_lift v_ret v_fail v_check : mirrors.

(** Apply the rule of the head symbols, or the lemma of the callee. *)
Ltac mirroring :=
  intros;
  lazymatch goal with
  | |- mirrors _ _ _ (bind _ _) (bind _ _) => apply v_bind; mirroring
  | |- mirrors _ _ _ (let '(_, _) := ?x in _) _ => destruct x; mirroring
  | |- mirrors _ _ _ (if ?x then _ else _) _ => destruct x; mirroring
  | |- mirrors _ _ _ (match ?x with _ => _ end) _ => destruct x; mirroring
  | |- mirrors _ _ _ (repeat_m _ _ _) _ => apply v_repeat; mirroring
  | |- mirrors _ _ _ (while_chunks _ _ _ _) _ => apply v_chunks; [done|mirroring]
  | |- _ => eauto 2 with mirrors lia
  end.

(** ** The planners *)

Section planning.
Context {S1 S2 : Type} `{!ByteSource S1, !ByteSource S2, Allocator, HeaderJson, EntrySort, Sha256}.
Context (R : S1 -> S2 -> Prop) (Bad : S1 -> Prop) (Faulty : Prop).
Definition rW (_ : io_error) : Prop := Faulty.
Context (Hlen : forall s1 s2, R s1 s2 -> src_len s1 = src_len s2).
Context (Hbad : forall offset n s, Bad s -> Bad (read_exact_at offset n s).2).
Context (Hread : forall offset n, 0 <= offset -> 0 <= n -> mirrors R Bad rW (read_exact_at offset n) (read_exact_at offset n)).
Context (Hcheck : mirrors R Bad rW check_unchanged check_unchanged).

Record gR (r1 : greader S1) (r2 : greader S2) : Prop := {
  gr_source : R (g_source r1) (g_source r2);
  gr_position : g_position r1 = g_position r2;
  gr_length : g_length r1 = g_length r2;
  gr_limit : g_limit r1 = g_limit r2;
  gr_nonneg : 0 <= g_position r2
}.
Definition gBad (r : greader S1) : Prop := Bad (g_source r).
Definition gW (e : parse_failure) : Prop := exists io, e = PF_Read io /\ Faulty.
Definition pW (e : plan_error) : Prop := exists io, (e = PE_Read io \/ e = PE_SourceChanged io) /\ Faulty.
Abbreviation gv := (mirrors gR gBad gW).
Abbreviation pv := (mirrors R Bad pW).

Lemma v_ensure n : gv (ensure n) (ensure n).
Proof.
  split; [intros r Hr; unfold ensure; by repeat case_match|]. intros r1 r2 Hr. right; right. unfold ensure.
  rewrite (gr_position _ _ Hr), (gr_length _ _ Hr), (gr_limit _ _ Hr). by repeat case_match.
Qed.
Lemma v_read_source n : 0 <= n -> gv (read_source n) (read_source n).
Proof.
  intros Hn. split.
  - intros r Hr. unfold read_source. pose proof (Hbad (g_position r) n (g_source r) Hr). by destruct (read_exact_at _ _ _).
  - intros r1 r2 [Hs Hp Hl Hm Hnn]. unfold read_source. rewrite Hp.
    destruct (Hread (g_position r2) n Hnn Hn) as [_ Hv]. specialize (Hv _ _ Hs).
    destruct (read_exact_at (g_position r2) n (g_source r1)) as [a1 s1], (read_exact_at (g_position r2) n (g_source r2)) as [a2 s2].
    destruct Hv as [?|[(e & He & Hw)|[Heq Hr]]]; simpl in *; [by left|right; left; exists (PF_Read e); subst a1; split; [done|by eexists]|].
    subst a2. right; right. by split.
Qed.
Lemma v_advance n : gv (advance n) (advance n).
Proof.
  apply v_modify; [done|]. intros r1 r2 [Hs Hp Hl Hm Hnn]. constructor; simpl; [done|congruence|done|done|].
  apply Z.mod_pos_bound. done.
Qed.
Lemma v_limit_next n : gv (limit_next n) (limit_next n).
Proof.
  split; [intros r Hr; unfold limit_next; by case_match|]. intros r1 r2 [Hs Hp Hl Hm Hnn]. right; right. unfold limit_next.
  rewrite Hp. case_match; by split.
Qed.
Lemma v_clear_limit : gv clear_limit clear_limit.
Proof. apply v_modify; [done|]. intros r1 r2 []. by constructor. Qed.
#[local] Hint Resolve v_ensure v_read_source v_advance v_limit_next v_clear_limit : mirrors.

Lemma v_read n : 0 <= n -> gv (read n) (read n).
Proof. unfold read. mirroring. Qed.
#[local] Hint Resolve v_read : mirrors.
Lemma v_read_u8 : gv read_u8 read_u8.
Proof. unfold read_u8. mirroring. Qed.
Lemma v_read_u32 : gv read_u32 read_u32.
Proof. unfold read_u32. mirroring. Qed.
Lemma v_read_u64 : gv read_u64 read_u64.
Proof. unfold read_u64. mirroring. Qed.
Lemma v_skip n : gv (skip n) (skip n).
Proof. unfold skip. mirroring. Qed.
#[local] Hint Resolve v_read_u8 v_read_u32 v_read_u64 v_skip : mirrors.
Lemma read_u64_nonneg (r : greader S2) v r' : read_u64 r = (Ok v, r') -> 0 <= v.
Proof. intros (bytes & r1 & _ & [= <- _])%bind_inv. apply le_val_bound. Qed.
Lemma v_read_bounded n : gv (read_bounded_bytes n) (read_bounded_bytes n).
Proof.
  unfold read_bounded_bytes. apply (v_bind_post _ _ _ (fun v => 0 <= v)); [mirroring|intros _ ??? _; apply read_u64_nonneg| |mirroring].
  intros v r Hr. assert (forall offset k, framed Bad (read_exact_at offset k)) as Hf.
  { intros offset k s Hs. specialize (Hbad offset k s Hs). by destruct (read_exact_at offset k s) as [[a|e] s']. }
  pose proof (f_ensure Bad v) as He. pose proof (f_read_source Bad Hf v) as Hrd. pose proof (f_advance Bad v) as Ha.
  assert (framed gBad (check (v <=? n) PF_Invalid;;; ensure v;;; check (try_reserve v) PF_ResourceExhausted;;;
    let<- bytes := read_source v in advance v;;; ret bytes)) as Hall by framing.
  exact (framed_end _ _ r Hall Hr).
Qed.
Lemma v_utf8_chunk pending k : 0 < k -> gv (utf8_chunk pending k) (utf8_chunk pending k).
Proof. intros Hk. unfold utf8_chunk. mirroring. Qed.
#[local] Hint Resolve v_read_bounded v_utf8_chunk : mirrors.
Lemma v_skip_utf8_string b : gv (skip_utf8_string b) (skip_utf8_string b).
Proof. unfold skip_utf8_string. mirroring. Qed.
Lemma v_check_bool_bytes n : gv (check_bool_bytes n) (check_bool_bytes n).
Proof. unfold check_bool_bytes, bool_chunk. mirroring. Qed.
#[local] Hint Resolve v_skip_utf8_string v_check_bool_bytes : mirrors.

Lemma v_parse_array e1 e2 depth b :
  (forall t k b, gv (e1 t k b) (e2 t k b)) -> gv (parse_metadata_array e1 depth b) (parse_metadata_array e2 depth b).
Proof. intros He. unfold parse_metadata_array. mirroring. Qed.
Lemma v_parse_value fuel t depth b : gv (parse_metadata_value fuel t depth b) (parse_metadata_value fuel t depth b).
Proof.
  revert t depth b. induction fuel as [|fuel IH]; intros t depth b; cbn [parse_metadata_value]; mirroring;
    apply v_parse_array; intros; [apply v_fail|apply IH].
Qed.
#[local] Hint Resolve v_parse_value : mirrors.
Lemma v_metadata_entry st : gv (metadata_entry st) (metadata_entry st).
Proof. unfold metadata_entry. mirroring. Qed.
Lemma v_read_dimension ds : gv (read_dimension ds) (read_dimension ds).
Proof. unfold read_dimension. mirroring. Qed.
#[local] Hint Resolve v_metadata_entry v_read_dimension : mirrors.
Lemma v_directory_entry alignment st : gv (directory_entry alignment st) (directory_entry alignment st).
Proof. unfold directory_entry. mirroring. Qed.
#[local] Hint Resolve v_directory_entry : mirrors.
Lemma v_remaining : gv (gets g_remaining) (gets g_remaining).
Proof. apply v_gets. intros r1 r2 [Hs Hp Hl _ _]. unfold g_remaining. by rewrite Hp, Hl. Qed.
#[local] Hint Resolve v_remaining : mirrors.
Lemma v_parse_metadata : gv parse_metadata parse_metadata.
Proof. unfold parse_metadata. mirroring. Qed.
Lemma v_position : gv (gets g_position) (gets g_position).
Proof. apply v_gets. by intros r1 r2 []. Qed.
Lemma v_length : gv (gets g_length) (gets g_length).
Proof. apply v_gets. by intros r1 r2 []. Qed.
#[local] Hint Resolve v_position v_length : mirrors.
Lemma v_parse_directory n st : gv (parse_directory n st) (parse_directory n st).
Proof. unfold parse_directory. mirroring. Qed.
#[local] Hint Resolve v_parse_metadata v_parse_directory : mirrors.

Lemma v_parse : mirrors R Bad gW parse parse.
Proof.
  assert (gv (let<- '(tensor_count, metadata) := parse_metadata in parse_directory tensor_count metadata)
    (let<- '(tensor_count, metadata) := parse_metadata in parse_directory tensor_count metadata)) as [Hb Hv] by mirroring.
  split.
  - intros s Hs. unfold parse. specialize (Hb (greader_new s) Hs). by destruct (bind parse_metadata _ _) as [r g].
  - intros s1 s2 Hr. unfold parse. assert (gR (greader_new s1) (greader_new s2)) as Hg by (constructor; simpl; auto; lia).
    specialize (Hv _ _ Hg). destruct (bind parse_metadata _ (greader_new s1)) as [r1 g1], (bind parse_metadata _ (greader_new s2)) as [r2 g2].
    destruct Hv as [?|[?|[? []]]]; auto.
Qed.

(** What a planner makes of a parse. *)
Lemma v_lift_failure {A B : Type} (m1 : M S1 parse_failure A) (m2 : M S2 parse_failure A) (k : Z -> A -> result parse_failure B) :
  mirrors R Bad gW m1 m2 ->
  pv (fun s => let (r, s') := m1 s in (lift_failure (let? a := r in k (src_len s') a), s'))
     (fun s => let (r, s') := m2 s in (lift_failure (let? a := r in k (src_len s') a), s')).
Proof.
  intros [Hb Hv]. split.
  - intros s Hs. specialize (Hb s Hs). by destruct (m1 s).
  - intros s1 s2 Hr. specialize (Hv s1 s2 Hr). destruct (m1 s1) as [r1 s1'], (m2 s2) as [r2 s2']. simpl in *.
    destruct Hv as [?|[(e & -> & io & -> & Hw)|[-> Hr']]]; [by left| |].
    + right; left. exists (PE_Read io). split; [done|]. exists io. auto.
    + right; right. by rewrite (Hlen _ _ Hr').
Qed.
Lemma v_gguf_try_plan c : pv (gguf_try_plan c) (gguf_try_plan c).
Proof. apply (v_lift_failure _ _ (fun n l => plan_layout n l c)), v_parse. Qed.
Lemma v_gguf_read_layout : pv gguf_read_layout gguf_read_layout.
Proof.
  assert (forall {S} `{ByteSource S} (s : S), gguf_read_layout s
    = (let (r, s') := parse s in (lift_failure (let? a := r in Ok a), s'))) as Heq.
  { intros S HS s. unfold gguf_read_layout. by destruct (parse s) as [[l|e] s']. }
  destruct (v_lift_failure parse parse (fun _ l => Ok l) v_parse) as [Hb Hv]. split.
  - intros s. rewrite Heq. apply Hb.
  - intros s1 s2. rewrite !Heq. apply Hv.
Qed.
Lemma v_src_len {E : Type} (W' : E -> Prop) : mirrors R Bad W' (gets src_len) (gets src_len).
Proof. apply v_gets, Hlen. Qed.
Lemma v_read_at offset n :
  0 <= offset -> 0 <= n -> pv (map_err_m PE_Read (read_exact_at offset n)) (map_err_m PE_Read (read_exact_at offset n)).
Proof. intros Ho Hn. eapply v_map_err; [|by apply Hread]. intros e He. exists e. auto. Qed.
Lemma v_still : pv still still.
Proof. eapply v_map_err; [|apply Hcheck]. intros e He. exists e. auto. Qed.
#[local] Hint Resolve v_gguf_try_plan v_gguf_read_layout v_src_len v_still : mirrors.

Lemma v_st_read_layout : pv st_read_layout st_read_layout.
Proof.
  unfold st_read_layout. apply v_bind; [mirroring|]. intros n. destruct (_ <? _); [mirroring|].
  apply v_bind; [apply v_read_at; unfold PREFIX_SIZE; lia|]. intros prefix. cbv zeta. pose proof (le_val_bound prefix) as Hp.
  destruct (negb _); [mirroring|]. destruct (_ <? _); [mirroring|]. apply v_bind; [mirroring|]. intros _.
  apply v_bind; [apply v_read_at; unfold PREFIX_SIZE; lia|]. mirroring.
Qed.
#[local] Hint Resolve v_st_read_layout : mirrors.
Lemma v_st_try_plan c : pv (st_try_plan c) (st_try_plan c).
Proof. unfold st_try_plan. mirroring. Qed.
#[local] Hint Resolve v_st_try_plan : mirrors.
Lemma v_plan_once c : pv (plan_once c) (plan_once c).
Proof. unfold plan_once, validated. mirroring. Qed.
Lemma v_inventory : pv inventory inventory.
Proof. unfold inventory. mirroring. Qed.
Lemma v_checked_after r : pv (checked_after r) (checked_after r).
Proof. unfold checked_after. destruct r as [|[]]; mirroring. Qed.
Lemma v_plan_with c : pv (plan_with c) (plan_with c).
Proof.
  unfold plan_with. apply v_bind; [mirroring|]. intros _. destruct (v_plan_once c) as [Hb Hv]. split.
  - intros s Hs. specialize (Hb s Hs). destruct (plan_once c s) as [r s'].
    destruct (v_checked_after r) as [Hb' _]. by apply Hb'.
  - intros s1 s2 Hr. specialize (Hv s1 s2 Hr). destruct (plan_once c s1) as [r1 s1'], (plan_once c s2) as [r2 s2']. simpl in Hv.
    destruct (v_checked_after r1) as [Hb' Hv'].
    destruct Hv as [Hbad'|[(e & -> & Hw)|[-> Hr']]]; [by left; apply Hb'| |by apply Hv'].
    replace (checked_after (Err e)) with (still (S := S1) ;;; lift (Err (A := plan) e))
      by (by destruct e, Hw as (? & [] & ?)). unfold bind. destruct (still s1') as [[[]|e'] s1''] eqn:Es; [by right; left; exists e|]. right; left. exists e'. split; [done|].
    unfold still, map_err_m in Es. destruct (check_unchanged s1') as [[[]|io] ?]; [done|]. injection Es as <- _.
    destruct Hw as (? & _ & ?). exists io. auto.
Qed.

(** ** Hashing *)

Lemma v_hash_chunk st k : 0 <= st.1 -> 0 < k -> pv (hash_chunk st k) (hash_chunk st k).
Proof. intros Hs Hk. destruct st as [cursor fed]. unfold hash_chunk. apply v_bind; [apply v_read_at; [done|lia]|]. mirroring. Qed.
Lemma hash_chunk_cursor st k (s : S2) st' s' : hash_chunk st k s = (Ok st', s') -> 0 <= st'.1.
Proof.
  destruct st as [cursor fed]. intros (bytes & s1 & _ & [= <- _])%bind_inv. simpl. apply Z.mod_pos_bound. done.
Qed.
Lemma hash_chunk_bad st k (s : S1) : Bad s -> Bad (hash_chunk st k s).2.
Proof.
  intros Hs. destruct st as [cursor fed]. unfold hash_chunk, bind, map_err_m. specialize (Hbad cursor k s Hs).
  by destruct (read_exact_at cursor k s) as [[bytes|e] s'].
Qed.
Lemma v_hash_region objects r : 0 <= r_offset r -> pv (hash_region objects r) (hash_region objects r).
Proof.
  intros Ho. unfold hash_region. apply v_bind; [|mirroring]. apply (v_chunks_keeping _ _ _ (fun st => 0 <= st.1)); [done|done|..].
  - apply hash_chunk_cursor.
  - intros. by apply hash_chunk_bad.
  - apply v_hash_chunk.
Qed.
Lemma v_hash_plan p : Forall (fun r => 0 <= r_offset r) (p_regions p) -> pv (hash_plan p) (hash_plan p).
Proof.
  intros Hf. unfold hash_plan. repeat (apply v_bind; [by eauto 2 with mirrors|intros ?]).
  apply v_bind; [|mirroring]. apply v_for. intros os r Hr. rewrite Forall_forall in Hf. by apply v_hash_region, Hf.
Qed.

Lemma hash_plan_bad p s : Bad s -> Bad (hash_plan p s).2.
Proof.
  assert (forall k st, framed Bad (hash_chunk st k)) as Hc.
  { intros k st s' Hs'. pose proof (hash_chunk_bad st k s' Hs'). by destruct (hash_chunk st k s') as [[a|e] s'']. }
  assert (framed Bad still) as Hst.
  { intros s' Hs'. destruct v_still as [Hv _]. specialize (Hv s' Hs'). by destruct (still s') as [[a|e] s'']. }
  intros Hs. apply framed_end; [|exact Hs]. unfold hash_plan. repeat (apply f_bind; [by eauto 2 with framed|intros ?]).
  apply f_bind; [|framing]. apply f_for. intros os r _. unfold hash_region. apply f_bind; [by apply f_chunks|framing].
Qed.

(** Ingest over two sources that agree. *)
Lemma v_plan_and_hash c :
  (forall s1 s2, R s1 s2 -> in_u64 (src_len s2)) -> pv (plan_and_hash_under c) (plan_and_hash_under c).
Proof.
  intros Hu. unfold plan_and_hash_under.
  eapply (v_bind_post _ _ _ (fun p => Forall (fun r => 0 <= r_offset r) (p_regions p))); [apply v_plan_with| | |apply v_hash_plan].
  - intros s1 s p s' Hr Hp. pose proof (t_plan_with c (src_len s) (Hu s1 s Hr) s eq_refl) as Ht. rewrite Hp in Ht.
    destruct Ht as [(Hwf & _ & _) _]. apply Forall_forall. intros r Hin.
    by destruct (tiles_inside _ _ _ _ r (wfp_tiles _ Hwf) ltac:(lia) Hin).
  - apply hash_plan_bad.
Qed.
End planning.
