(* ===== verification/MixedRadix.v ===== *)
(** Mixed-radix positions: the index arithmetic the layout walk, its strides
    and the permute kernel share.  A list of extents, outermost first, gives
    each position a weight (the product of the extents after it); an index is
    the weighted sum of its digits, and its digits are unique. *)
From S2P Require Import Prelude.

#[global] Arguments prodZ : simpl never.

Fixpoint weights (es : list Z) : list Z :=
  match es with
  | [] => []
  | _ :: es => prodZ es :: weights es
  end.

Definition dot (cs ws : list Z) : Z := sumZ (zip_with Z.mul cs ws).

Fixpoint digits (es : list Z) (x : Z) : list Z :=
  match es with
  | [] => []
  | e :: es => (x / prodZ es) mod e :: digits es x
  end.

Definition positive (es : list Z) : Prop := Forall (fun e => 0 < e) es.
Definition digits_ok (es cs : list Z) : Prop := Forall2 (fun e c => 0 <= c < e) es cs.

Lemma prodZ_pos es : positive es -> 0 < prodZ es.
Proof. unfold prodZ. induction 1 as [|e es He _ IH]; simpl; lia. Qed.

Lemma prodZ_cons e es : prodZ (e :: es) = e * prodZ es.
Proof. done. Qed.

Lemma dot_cons c cs w ws : dot (c :: cs) (w :: ws) = c * w + dot cs ws.
Proof. done. Qed.

Lemma dot_app cs ds ws vs :
  length cs = length ws -> dot (cs ++ ds) (ws ++ vs) = dot cs ws + dot ds vs.
Proof. intros Hl. unfold dot. by rewrite zip_with_app, sumZ_app. Qed.

Lemma length_weights es : length (weights es) = length es.
Proof. induction es; simpl; congruence. Qed.

Lemma length_digits es x : length (digits es x) = length es.
Proof. induction es; simpl; congruence. Qed.

Lemma digits_valid es x : positive es -> digits_ok es (digits es x).
Proof.
  intros H. induction H as [|e es He _ IH]; constructor; [|exact IH].
  by apply Z.mod_pos_bound.
Qed.

Lemma dot_bound es cs :
  positive es -> digits_ok es cs -> 0 <= dot cs (weights es) < prodZ es.
Proof.
  intros Hp Hd. revert Hp. induction Hd as [|e c es cs Hc _ IH]; intros Hp; [done|].
  apply Forall_cons in Hp as [He Hp]. specialize (IH Hp). pose proof (prodZ_pos _ Hp).
  simpl. rewrite dot_cons, prodZ_cons. nia.
Qed.

Lemma digits_app a b x :
  positive a -> positive b -> digits (a ++ b) x = digits a (x / prodZ b) ++ digits b x.
Proof.
  intros Ha Hb. pose proof (prodZ_pos _ Hb). induction Ha as [|e a He Ha IH]; simpl; [done|].
  rewrite IH. pose proof (prodZ_pos _ Ha). by rewrite prodZ_app, (Z.mul_comm (prodZ a)), Z.div_div by lia.
Qed.

Lemma digits_add es s k : positive es -> digits es (s * prodZ es + k) = digits es k.
Proof.
  intros Hp. assert (forall s, digits es (s * prodZ es + k) = digits es k) as H; [|done]. clear s.
  induction Hp as [|e es He Hp IH]; intros s; [done|].
  pose proof (prodZ_pos _ Hp). simpl. rewrite prodZ_cons.
  replace (s * (e * prodZ es) + k) with (s * e * prodZ es + k) by lia. rewrite IH.
  f_equal. rewrite Z.div_add_l by lia. rewrite Z.add_comm. apply Z_mod_plus_full.
Qed.

(** An index in range is the weighted sum of its digits. *)
Lemma dot_digits es x : positive es -> 0 <= x < prodZ es -> dot (digits es x) (weights es) = x.
Proof.
  intros Hp. revert x. induction Hp as [|e es He Hp IH]; intros x Hx.
  { change (prodZ []) with 1 in Hx. unfold dot. simpl. lia. }
  simpl. pose proof (prodZ_pos _ Hp) as Hpos. rewrite dot_cons, prodZ_cons in *.
  pose proof (Z.div_mod x (prodZ es) ltac:(lia)) as Hdm.
  pose proof (Z.mod_pos_bound x (prodZ es) Hpos).
  rewrite Z.mod_small by (split; [apply Z.div_pos; lia|apply Z.div_lt_upper_bound; lia]).
  replace (digits es x) with (digits es (x mod prodZ es)); [rewrite IH; lia|].
  rewrite Hdm at 2. rewrite (Z.mul_comm (prodZ es)). by rewrite digits_add.
Qed.

(** Digits are unique. *)
Lemma digits_dot es cs : positive es -> digits_ok es cs -> digits es (dot cs (weights es)) = cs.
Proof.
  intros Hp Hd. revert Hp. induction Hd as [|e c es cs Hc Hd IH]; intros Hp; [done|].
  apply Forall_cons in Hp as [He Hp]. pose proof (dot_bound _ _ Hp Hd). simpl.
  rewrite dot_cons, digits_add, IH by done. f_equal.
  rewrite Z.div_add_l, Z.div_small, Z.add_0_r by lia. apply Z.mod_small. lia.
Qed.

Lemma digits_ok_app a b cs ds : digits_ok a cs -> digits_ok b ds -> digits_ok (a ++ b) (cs ++ ds).
Proof. apply Forall2_app. Qed.

Lemma digits_zero es : positive es -> digits es 0 = replicate (length es) 0.
Proof. intros Hp. induction Hp as [|e es He _ IH]; simpl; [done|]. by rewrite IH, Zdiv_0_l, Zmod_0_l. Qed.

Lemma dot_zero n ws : dot (replicate n 0) ws = 0.
Proof. revert ws. induction n as [|n IH]; intros [|w ws]; [done..|]. simpl. rewrite dot_cons, IH. lia. Qed.

(** The next index: the last digit counts up, and a full one carries. *)
Lemma digits_succ es e x : positive es -> 0 < e ->
  digits (es ++ [e]) (x + 1) =
  if x mod e + 1 <? e then digits es (x / e) ++ [x mod e + 1]
  else digits es (x / e + 1) ++ [0].
Proof.
  intros Hp He. rewrite digits_app by (done || by repeat constructor).
  assert (prodZ [e] = e) as -> by (unfold prodZ; simpl; lia). simpl.
  change (prodZ []) with 1. rewrite Z.div_1_r.
  pose proof (Z.div_mod x e ltac:(lia)) as Hx. pose proof (Z.mod_pos_bound x e He).
  destruct (Z.ltb_spec (x mod e + 1) e).
  - assert ((x + 1) / e = x / e) as ->. { symmetry. apply Z.div_unique with (x mod e + 1); lia. }
    do 2 f_equal. symmetry. apply Z.mod_unique with (x / e); lia.
  - assert ((x + 1) / e = x / e + 1) as ->. { symmetry. apply Z.div_unique with 0; lia. }
    do 2 f_equal. symmetry. apply Z.mod_unique with (x / e + 1); lia.
Qed.

Lemma digits_snoc es e x : positive es -> 0 < e ->
  digits (es ++ [e]) x = digits es (x / e) ++ [x mod e].
Proof.
  intros Hp He. rewrite digits_app by (done || by repeat constructor).
  assert (prodZ [e] = e) as -> by (unfold prodZ; simpl; lia). simpl.
  change (prodZ []) with 1. by rewrite Z.div_1_r.
Qed.

Lemma positive_app a b : positive (a ++ b) <-> positive a /\ positive b.
Proof. apply Forall_app. Qed.

Lemma prodZ_le ds es :
  Forall2 (fun d e => 0 < d <= e) ds es -> prodZ ds <= prodZ es.
Proof.
  intros H. enough (0 < prodZ ds <= prodZ es) by lia.
  induction H as [|d e ds es Hd _ IH]; [done|]. rewrite !prodZ_cons. nia.
Qed.

Lemma prodZ_perm a b : a ≡ₚ b -> prodZ a = prodZ b.
Proof. unfold prodZ. induction 1; simpl; lia. Qed.

Lemma sumZ_perm a b : a ≡ₚ b -> sumZ a = sumZ b.
Proof. unfold sumZ. induction 1; simpl; lia. Qed.
