(* ===== verification/Formula.v ===== *)
(** The shape formulas of layout morphisms ([layout_morphism.rs], [eval] and
    [eval_chain]): integers, [dN], [*], [/] and [ceil(...)], evaluated left to
    right.  The file holds the evaluator as it is written, over the bytes of
    the text and with fuel for its loop and its recursion, the fact that the
    fuel [eval] gives is always enough, and the meaning of a formula as a
    syntax tree, which the evaluator computes from the printed form. *)
From S2P Require Import Prelude Bytes Numerals.

(** The error messages of the evaluator, by the [format!] that makes them. *)
Inductive formula_error : Type :=
| EmptyFormula
| UnclosedCeil
| NotAnAxis
| AxisOutOfRank
| NotAPositiveInteger
| DividesByZero
| NotExact
| StrayCharacter
| EndsOnOperator
| OutOfFuel.

#[export] Instance formula_error_eq_dec : EqDecision formula_error.
Proof. solve_decision. Defined.

Definition c_open : byte := byte_of 40.
Definition c_close : byte := byte_of 41.
Definition c_star : byte := byte_of 42.
Definition c_slash : byte := byte_of 47.
Definition c_space : byte := byte_of 32.

(** The scan for the parenthesis that closes a [ceil(]: its position in the
    text, [None] when the depth never returns to zero. *)
Fixpoint close_paren (depth at_ : nat) (inner : list byte) : option nat :=
  match inner with
  | [] => None
  | b :: inner =>
      if decide (b = c_open) then close_paren (S depth) (S at_) inner
      else if decide (b = c_close) then
        match depth with
        | S (S depth) => close_paren (S depth) (S at_) inner
        | _ => Some at_
        end
      else close_paren depth (S at_) inner
  end.

Definition is_operator (b : byte) : bool := bool_decide (b = c_star) || bool_decide (b = c_slash).

(** [rest.find(['*', '/']).unwrap_or(rest.len())], as the split it is used
    for. *)
Fixpoint split_operator (rest : list byte) : list byte * list byte :=
  match rest with
  | [] => ([], [])
  | b :: tail =>
      if is_operator b then ([], rest)
      else let (token, rest) := split_operator tail in (b :: token, rest)
  end.

(** The operand that is not a [ceil(]: an axis or a literal. *)
Definition eval_token (shape : list Z) (token : list byte) : result formula_error Z :=
  match strip_prefix (bstr "d") token with
  | Some digits =>
      let! axis := parse_u64 digits ?: NotAnAxis in
      let! dim := shape !! Z.to_nat axis ?: AxisOutOfRank in
      Ok dim
  | None =>
      let! literal := parse_u64 token ?: NotAPositiveInteger in
      if literal =? 0 then Err NotAPositiveInteger else Ok literal
  end.

(** The update of [value] by one operand; the multiplication is unchecked. *)
Definition combine (ceiling divide : bool) (value operand : Z) : result formula_error Z :=
  if divide then
    if operand =? 0 then Err DividesByZero
    else if ceiling then Ok (div_ceil value operand)
    else if negb (is_multiple_of value operand) then Err NotExact
    else Ok (value / operand)
  else Ok (wmul value operand).

(** The [loop] of [eval_chain]; a [ceil(] recurses on its body. *)
Fixpoint eval_loop (fuel : nat) (shape : list Z) (ceiling : bool) (value : Z) (divide : bool)
    (rest : list byte) : result formula_error Z :=
  match fuel with
  | O => Err OutOfFuel
  | S fuel =>
      let? (operand, rest) :=
        match strip_prefix (bstr "ceil(") rest with
        | Some inner =>
            let! end_ := close_paren 1 0 inner ?: UnclosedCeil in
            let? operand :=
              match take end_ inner with
              | [] => Err EmptyFormula
              | body => eval_loop fuel shape true 1 false body
              end in
            Ok (operand, drop (S end_) inner)
        | None =>
            let (token, rest) := split_operator rest in
            let? operand := eval_token shape token in
            Ok (operand, rest)
        end in
      let? value := combine ceiling divide value operand in
      match rest with
      | [] => Ok value
      | b :: tail =>
          if is_operator b then
            match tail with
            | [] => Err EndsOnOperator
            | _ => eval_loop fuel shape ceiling value (bool_decide (b = c_slash)) tail
            end
          else Err StrayCharacter
      end
  end.

(** [eval_chain] on a whole text. *)
Definition eval_chain (text : list byte) (shape : list Z) (ceiling : bool)
  : result formula_error Z :=
  match text with
  | [] => Err EmptyFormula
  | _ => eval_loop (length text) shape ceiling 1 false text
  end.

(** [eval]. *)
Definition eval (text : list byte) (shape : list Z) : result formula_error Z :=
  eval_chain (filter (fun b => b <> c_space) text) shape false.

Example eval_catalog :
  eval (bstr "ceil(d0/128)") [200; 7] = Ok 2 /\ eval (bstr "d1 / 4") [200; 8] = Ok 2 /\
  eval (bstr "d1/4") [200; 7] = Err NotExact /\ eval (bstr "2*ceil(ceil(d0/3)/2)*d1") [10; 3] = Ok 12.
Proof. repeat split; vm_compute; reflexivity. Qed.

(** ** The fuel is enough *)

Lemma split_operator_length rest token rest' :
  split_operator rest = (token, rest') -> length rest = (length token + length rest')%nat.
Proof.
  revert token rest'. induction rest as [|b rest IH]; simpl; intros token rest' H;
    [by injection H as <- <-|].
  destruct (is_operator b); [by injection H as <- <-|].
  destruct (split_operator rest) as [t r]. simplify_eq. simpl. by rewrite (IH t rest').
Qed.

(** The loop's result does not depend on the fuel once there is a unit for
    every byte that is left. *)
Lemma eval_loop_fuel f g shape ceiling value divide rest :
  rest <> [] -> (length rest <= f)%nat -> (length rest <= g)%nat ->
  eval_loop f shape ceiling value divide rest = eval_loop g shape ceiling value divide rest.
Proof.
  revert g ceiling value divide rest.
  induction f as [|f IH]; intros g ceiling value divide rest Hne Hf Hg; [destruct rest; simpl in *; [done|lia]|].
  destruct g as [|g]; [destruct rest; simpl in *; [done|lia]|]. cbn [eval_loop].
  assert (forall v d (o : Z) b tail, (length (b :: tail) <= length rest)%nat ->
    match tail with [] => Err EndsOnOperator | _ => eval_loop f shape ceiling v d tail end =
    match tail with [] => Err EndsOnOperator | _ => eval_loop g shape ceiling v d tail end) as Hk.
  { intros v d o b [|t tail] Hle; [done|]. simpl in Hle. apply IH; simpl; [done|lia..]. }
  destruct (strip_prefix (bstr "ceil(") rest) as [inner|] eqn:Es.
  - apply strip_prefix_Some in Es. rewrite Es in Hf, Hg, Hk. rewrite !length_app in Hf, Hg, Hk.
    simpl in Hf, Hg, Hk. destruct (close_paren 1 0 inner) as [e|]; [|done].
    assert (match take e inner with [] => Err EmptyFormula
            | body => eval_loop f shape true 1 false body end =
            match take e inner with [] => Err EmptyFormula
            | body => eval_loop g shape true 1 false body end) as ->.
    { pose proof (length_take inner e). destruct (take e inner); [done|].
      simpl in *. apply IH; simpl; [done|lia..]. }
    destruct (match take e inner with [] => _ | _ => _ end) as [o|]; [|done].
    destruct (combine _ _ _ _) as [v|]; [|done].
    destruct (drop (S e) inner) as [|b tail] eqn:Ed; [done|]. destruct (is_operator b); [|done].
    apply (Hk v _ o b tail). apply (f_equal length) in Ed. rewrite length_drop in Ed.
    simpl in *. lia.
  - destruct (split_operator rest) as [token r] eqn:Ep. apply split_operator_length in Ep.
    destruct (eval_token shape token) as [o|]; [|done].
    destruct (combine _ _ _ _) as [v|]; [|done]. destruct r as [|b tail]; [done|].
    destruct (is_operator b); [|done]. apply (Hk v _ o b tail). simpl in *. lia.
Qed.

(** A formula's value is a 64-bit word. *)
Lemma combine_u64 ceiling divide value operand v :
  in_u64 value -> in_u64 operand -> combine ceiling divide value operand = Ok v -> in_u64 v.
Proof.
  unfold combine, in_u64. intros Hv Ho.
  destruct divide; [|intros [= <-]; apply Z.mod_pos_bound; unfold U64; lia].
  destruct (Z.eqb_spec operand 0); [done|].
  destruct ceiling; [|destruct (negb _); [done|]]; intros [= <-].
  - pose proof (div_ceil_spec value operand ltac:(lia)). nia.
  - split; [apply Z.div_pos; lia|]. apply Z.div_lt_upper_bound; nia.
Qed.

Lemma eval_token_u64 shape token v :
  Forall in_u64 shape -> eval_token shape token = Ok v -> in_u64 v.
Proof.
  intros Hs. unfold eval_token. destruct (strip_prefix _ token) as [ds|].
  - destruct (parse_u64 ds) as [k|]; [|done]. destruct (shape !! Z.to_nat k) as [d|] eqn:E; [|done].
    intros [= <-]. by eapply Forall_lookup_1 in E.
  - destruct (parse_u64 token) as [k|] eqn:E; [|done]. destruct (k =? 0); [done|]. intros [= <-].
    unfold parse_u64 in E. by apply from_str_radix_bound in E.
Qed.

Lemma eval_loop_u64 f shape ceiling value divide rest v :
  Forall in_u64 shape -> in_u64 value ->
  eval_loop f shape ceiling value divide rest = Ok v -> in_u64 v.
Proof.
  intros Hs. revert ceiling value divide rest v.
  induction f as [|f IH]; intros ceiling value divide rest v Hv H; [done|]. cbn [eval_loop] in H.
  match type of H with context [match ?e with Ok _ => _ | Err _ => _ end] =>
    destruct e as [[o rest']|] eqn:Eo end; [|done].
  assert (in_u64 o) as Ho.
  { destruct (strip_prefix _ rest) as [inner|].
    - destruct (close_paren 1 0 inner) as [e|]; [|done].
      destruct (take e inner) as [|b body]; [done|].
      destruct (eval_loop f shape true 1 false _) as [w|] eqn:Ew; [|done]. simplify_eq.
      eapply IH; [|exact Ew]. unfold in_u64, U64. lia.
    - destruct (split_operator rest) as [token r].
      destruct (eval_token shape token) as [w|] eqn:Ew; [|done]. simplify_eq.
      by eapply eval_token_u64. }
  destruct (combine _ _ _ _) as [w|] eqn:Ec; [|done]. apply combine_u64 in Ec; [|done..].
  destruct rest' as [|b [|t tail]]; [by simplify_eq|by destruct (is_operator b)|].
  destruct (is_operator b); [|done]. by eapply IH; [|exact H].
Qed.

Lemma eval_u64 text shape v : Forall in_u64 shape -> eval text shape = Ok v -> in_u64 v.
Proof.
  unfold eval, eval_chain. intros Hs. destruct (filter _ text); [done|].
  apply eval_loop_u64; [done|]. unfold in_u64, U64. lia.
Qed.

(** ** What a formula means *)

Inductive chain : Type :=
| Operand (o : operand)
| Op (c : chain) (divide : bool) (o : operand)
with operand : Type :=
| Lit (n : Z)
| Axis (k : Z)
| Ceil (c : chain).

Scheme chain_mut := Induction for chain Sort Prop
  with operand_mut := Induction for operand Sort Prop.
Combined Scheme formula_ind from chain_mut, operand_mut.

Definition print_op (divide : bool) : byte := if divide then c_slash else c_star.

Fixpoint print (c : chain) : list byte :=
  match c with
  | Operand o => print_operand o
  | Op c divide o => print c ++ print_op divide :: print_operand o
  end
with print_operand (o : operand) : list byte :=
  match o with
  | Lit n => to_dec n
  | Axis k => bstr "d" ++ to_dec k
  | Ceil c => bstr "ceil(" ++ print c ++ [c_close]
  end.

(** The numerals a text can spell. *)
Fixpoint wf_chain (c : chain) : Prop :=
  match c with
  | Operand o => wf_operand o
  | Op c _ o => wf_chain c /\ wf_operand o
  end
with wf_operand (o : operand) : Prop :=
  match o with
  | Lit n => 1 <= n < U64
  | Axis k => 0 <= k < U64
  | Ceil c => wf_chain c
  end.

(** Left to right: a product of 64-bit words, an exact quotient outside
    [ceil], the rounded-up quotient inside. *)
Fixpoint denote (shape : list Z) (ceiling : bool) (c : chain) : result formula_error Z :=
  match c with
  | Operand o => denote_operand shape o
  | Op c divide o =>
      let? value := denote shape ceiling c in
      let? operand := denote_operand shape o in
      if negb divide then Ok ((value * operand) mod U64)
      else if operand =? 0 then Err DividesByZero
      else if ceiling then Ok (div_ceil value operand)
      else if value mod operand =? 0 then Ok (value / operand)
      else Err NotExact
  end
with denote_operand (shape : list Z) (o : operand) : result formula_error Z :=
  match o with
  | Lit n => Ok n
  | Axis k => let! dim := shape !! Z.to_nat k ?: AxisOutOfRank in Ok dim
  | Ceil c => denote shape true c
  end.

(** What the loop does after an operand. *)
Definition continue (shape : list Z) (ceiling : bool) (value : Z) (rest : list byte)
  : result formula_error Z :=
  match rest with
  | [] => Ok value
  | b :: tail =>
      if is_operator b then
        match tail with
        | [] => Err EndsOnOperator
        | _ => eval_loop (length tail) shape ceiling value (bool_decide (b = c_slash)) tail
        end
      else Err StrayCharacter
  end.

Definition at_operator (rest : list byte) : Prop :=
  rest = [] \/ exists b tail, rest = b :: tail /\ is_operator b = true.

Lemma print_nonempty :
  (forall c, wf_chain c -> print c <> []) /\ (forall o, wf_operand o -> print_operand o <> []).
Proof.
  apply formula_ind; simpl; try done; intros.
  - by destruct (print c).
  - intros Hn. destruct (dec_digits_head 20 n) as (d & l & Hd & _); [lia..|].
    unfold to_dec in Hn. by rewrite Hd in Hn.
Qed.

Lemma combine_denote ceiling divide value operand :
  combine ceiling divide value operand =
  if negb divide then Ok ((value * operand) mod U64)
  else if operand =? 0 then Err DividesByZero
  else if ceiling then Ok (div_ceil value operand)
  else if value mod operand =? 0 then Ok (value / operand)
  else Err NotExact.
Proof.
  unfold combine, is_multiple_of, wmul. destruct divide; simpl; [|done].
  destruct (operand =? 0); [done|]. destruct ceiling; [done|].
  by destruct (value mod operand =? 0).
Qed.

Lemma denote_u64 shape : Forall in_u64 shape ->
  (forall c, wf_chain c -> forall ceiling v, denote shape ceiling c = Ok v -> in_u64 v) /\
  (forall o, wf_operand o -> forall v, denote_operand shape o = Ok v -> in_u64 v).
Proof.
  intros Hs. apply formula_ind; simpl; try done.
  - intros o IH Hwf _ v. by apply IH.
  - intros c IHc d o IHo [Hc Ho] ceiling v.
    destruct (denote shape ceiling c) as [x|] eqn:Ex; [|done].
    destruct (denote_operand shape o) as [y|] eqn:Ey; [|done].
    rewrite <-combine_denote. apply combine_u64; [by eapply IHc|by eapply IHo].
  - intros n Hn v [= <-]. unfold in_u64. lia.
  - intros k Hk v. destruct (shape !! Z.to_nat k) as [dim|] eqn:E; [|done]. intros [= <-].
    by eapply Forall_lookup_1 in E.
  - intros c IH Hc v. by apply IH.
Qed.

(** ** Scanning printed formulas *)

Lemma close_paren_plain depth at_ l k :
  Forall (fun b => b <> c_open /\ b <> c_close) l ->
  close_paren depth at_ (l ++ k) = close_paren depth (at_ + length l) k.
Proof.
  revert at_. induction l as [|b l IH]; intros at_ Hl; simpl; [by rewrite Nat.add_0_r|].
  apply Forall_cons in Hl as [[H1 H2] Hl]. rewrite !decide_False by done.
  rewrite IH by done. f_equal. lia.
Qed.

Lemma digit_plain n : 0 <= n ->
  Forall (fun b => b <> c_open /\ b <> c_close /\ is_operator b = false) (to_dec n).
Proof.
  intros Hn. apply Forall_forall. intros b Hb%dec_digits_digits; [|done].
  unfold is_ascii_digit, in_range in Hb. unfold is_operator.
  rewrite !bool_decide_eq_false_2; [split_and!; [| |done]|..];
    match goal with |- b <> ?c => unfold c end; intros ->; vm_compute in Hb; done.
Qed.

Lemma close_paren_print :
  (forall c, wf_chain c -> forall depth at_ k,
     close_paren (S depth) at_ (print c ++ k) =
     close_paren (S depth) (at_ + length (print c)) k) /\
  (forall o, wf_operand o -> forall depth at_ k,
     close_paren (S depth) at_ (print_operand o ++ k) =
     close_paren (S depth) (at_ + length (print_operand o)) k).
Proof.
  assert (forall n, 0 <= n -> Forall (fun b => b <> c_open /\ b <> c_close) (to_dec n)) as Hd.
  { intros n Hn. eapply Forall_impl; [by apply digit_plain|]. intros b (? & ? & _). done. }
  apply formula_ind; cbn [print print_operand wf_chain wf_operand].
  - done.
  - intros c IHc d o IHo [Hc Ho] depth at_ k. rewrite <-app_assoc, IHc by done.
    cbn [app close_paren]. rewrite !decide_False by (by destruct d; vm_compute).
    rewrite IHo by done. f_equal. rewrite length_app. simpl. lia.
  - intros n Hn depth at_ k. apply close_paren_plain, Hd. lia.
  - intros n Hn depth at_ k. apply close_paren_plain. apply Forall_app. split; [|apply Hd; lia].
    repeat constructor; by vm_compute.
  - intros c IH Hc depth at_ k. rewrite <-!app_assoc.
    change (bstr "ceil(") with (bstr "ceil" ++ [c_open]). rewrite <-!app_assoc.
    rewrite close_paren_plain by (repeat constructor; by vm_compute).
    cbn [app close_paren]. rewrite decide_True by done. rewrite IH by done.
    cbn [app close_paren]. rewrite decide_False, decide_True by (by vm_compute).
    f_equal. rewrite !length_app. change (length (bstr "ceil")) with 4%nat. cbn [length].
    rewrite length_app. simpl. lia.
Qed.

Lemma split_operator_token token rest :
  Forall (fun b => is_operator b = false) token -> at_operator rest ->
  split_operator (token ++ rest) = (token, rest).
Proof.
  intros Ht Hr. induction Ht as [|b token Hb Ht IH]; simpl.
  - destruct Hr as [->|(b & tail & -> & Hb)]; [done|]. simpl. by rewrite Hb.
  - by rewrite Hb, IH.
Qed.

Lemma print_operand_head o rest :
  wf_operand o -> (forall c, o <> Ceil c) ->
  exists token, print_operand o = token /\ Forall (fun b => is_operator b = false) token /\
    strip_prefix (bstr "ceil(") (token ++ rest) = None /\
    forall shape, eval_token shape token = denote_operand shape o.
Proof.
  assert (forall n, 0 <= n -> Forall (fun b => is_operator b = false) (to_dec n)) as Hd.
  { intros n Hn. eapply Forall_impl; [by apply digit_plain|]. intros b (_ & _ & ?). done. }
  destruct o as [n|k|c]; simpl; intros Hwf Hc; [| |by destruct (Hc c)].
  - exists (to_dec n). split; [done|]. split; [apply Hd; lia|].
    destruct (dec_digits_head 20 n) as (d & l & Hhd & Hr); [lia..|].
    assert (forall b l', byte_of (if d <? 10 then 48 + d else 87 + d) :: l' = b :: l' ->
      b <> byte_of 99 /\ b <> byte_of 100) as Hb.
    { intros b l' [= <-]. replace (d <? 10) with true by lia.
      split; intros Heq%(f_equal byte_val); rewrite !byte_val_of, !Z.mod_small in Heq by lia; lia. }
    destruct (Hb _ l eq_refl) as [H1 H2].
    split.
    + unfold to_dec. rewrite Hhd. simpl. by rewrite decide_False.
    + intros shape. unfold eval_token.
      assert (strip_prefix (bstr "d") (to_dec n) = None) as ->.
      { unfold to_dec. rewrite Hhd. simpl. by rewrite decide_False. }
      unfold parse_u64. rewrite from_str_radix_to_dec by (unfold U64 in *; lia).
      by replace (n =? 0) with false by lia.
  - exists (bstr "d" ++ to_dec k). split; [done|]. split; [constructor; [done|apply Hd; lia]|].
    split; [done|]. intros shape. unfold eval_token. cbn [strip_prefix bstr app].
    change (strip_prefix (bstr "d") (bstr "d" ++ to_dec k)) with (Some (to_dec k)). simpl.
    unfold parse_u64. by rewrite from_str_radix_to_dec by (unfold U64 in *; lia).
Qed.

(** One turn of the loop on a printed operand. *)
Definition turn (shape : list Z) (ceiling : bool) (value : Z) (divide : bool) (o : operand)
    (rest : list byte) : result formula_error Z :=
  let? operand := denote_operand shape o in
  let? value := combine ceiling divide value operand in
  continue shape ceiling value rest.

Lemma continue_fuel f shape ceiling value rest :
  (length rest <= S f)%nat ->
  match rest with
  | [] => Ok value
  | b :: tail =>
      if is_operator b then
        match tail with
        | [] => Err EndsOnOperator
        | _ => eval_loop f shape ceiling value (bool_decide (b = c_slash)) tail
        end
      else Err StrayCharacter
  end = continue shape ceiling value rest.
Proof.
  intros Hf. destruct rest as [|b [|t tail]]; [done..|]. unfold continue.
  destruct (is_operator b); [|done]. apply eval_loop_fuel; simpl in *; [done|lia..].
Qed.

Lemma plain_turn o f shape ceiling value divide rest :
  wf_operand o -> (forall c, o <> Ceil c) -> at_operator rest ->
  (length (print_operand o ++ rest) <= f)%nat ->
  eval_loop f shape ceiling value divide (print_operand o ++ rest) =
  turn shape ceiling value divide o rest.
Proof.
  intros Hwf Hc Hr Hf. pose proof (proj2 print_nonempty o Hwf) as Hne.
  destruct (print_operand_head o rest Hwf Hc) as (token & Ht & Hplain & Hs & He).
  rewrite Ht in *. destruct f as [|f]; [destruct token; simpl in *; [done|lia]|].
  cbn [eval_loop]. rewrite Hs, split_operator_token, He by done. unfold turn.
  destruct (denote_operand shape o) as [v|]; [|done].
  destruct (combine ceiling divide value v) as [w|]; [|done].
  apply continue_fuel. rewrite length_app in Hf. lia.
Qed.

Lemma eval_print_gen shape : Forall in_u64 shape ->
  (forall c, wf_chain c -> forall f ceiling rest, at_operator rest ->
     (length (print c ++ rest) <= f)%nat ->
     eval_loop f shape ceiling 1 false (print c ++ rest) =
     let? value := denote shape ceiling c in continue shape ceiling value rest) /\
  (forall o, wf_operand o -> forall f ceiling value divide rest, at_operator rest ->
     (length (print_operand o ++ rest) <= f)%nat ->
     eval_loop f shape ceiling value divide (print_operand o ++ rest) =
     turn shape ceiling value divide o rest).
Proof.
  intros Hs. apply formula_ind; cbn [print wf_chain].
  - intros o IH Hwf f ceiling rest Hr Hf. rewrite IH by done. unfold turn. simpl.
    destruct (denote_operand shape o) as [v|] eqn:Ev; [|done].
    apply (proj2 (denote_u64 shape Hs) o Hwf) in Ev. unfold combine.
    by rewrite wmul_small, Z.mul_1_l by (unfold in_u64 in Ev; lia).
  - intros c IHc d o IHo [Hc Ho] f ceiling rest Hr Hf. rewrite <-app_assoc in Hf |- *.
    pose proof (proj2 print_nonempty o Ho) as Hne.
    rewrite IHc; [|done|right; exists (print_op d), (print_operand o ++ rest); by destruct d|done].
    cbn [denote]. destruct (denote shape ceiling c) as [v|]; [|done]. cbn [continue app].
    assert (is_operator (print_op d) = true) as -> by (by destruct d).
    assert (bool_decide (print_op d = c_slash) = d) as -> by (by destruct d).
    destruct (print_operand o ++ rest) as [|b tail] eqn:Ep; [by destruct (print_operand o)|].
    rewrite <-Ep, IHo by done. unfold turn.
    destruct (denote_operand shape o) as [w|]; [|done]. by rewrite combine_denote.
  - intros n Hn f ceiling value divide rest Hr Hf. by apply plain_turn.
  - intros k Hk f ceiling value divide rest Hr Hf. by apply plain_turn.
  - intros c IH Hc f ceiling value divide rest Hr Hf. destruct f as [|f]; [simpl in Hf; lia|].
    cbn [print_operand] in *. rewrite <-!app_assoc in Hf |- *. rewrite !length_app in Hf.
    cbn [eval_loop].
    change (strip_prefix (bstr "ceil(") (bstr "ceil(" ++ print c ++ [c_close] ++ rest))
      with (Some (print c ++ [c_close] ++ rest)). cbn iota.
    rewrite (proj1 close_paren_print c Hc 0%nat 0%nat). cbn [close_paren app].
    rewrite decide_False, decide_True by (by vm_compute). cbn [Nat.add].
    rewrite take_app_length. change (c_close :: rest) with ([c_close] ++ rest).
    rewrite app_assoc, (drop_app_length' (_ ++ _)) by (rewrite length_app; simpl; lia).
    pose proof (proj1 print_nonempty c Hc) as Hne.
    destruct (print c) as [|b body] eqn:Ep; [done|].
    specialize (IH Hc f true [] ltac:(by left)). rewrite app_nil_r in IH.
    rewrite IH by (simpl in *; lia). unfold turn. cbn [denote_operand continue].
    destruct (denote shape true c) as [v|]; [|done].
    destruct (combine ceiling divide value v) as [w|]; [|done].
    apply continue_fuel. simpl in *. lia.
Qed.

(** A layout's extent formulas mean what they say: on a text that spells a
    formula, with any spaces in it, [eval] returns the formula's value, computed
    left to right with exact division outside [ceil] and rounding up inside, or
    its error; the fuel of the model is always enough. *)
Theorem eval_print c text shape :
  wf_chain c -> Forall in_u64 shape -> filter (fun b => b <> c_space) text = print c ->
  eval text shape = denote shape false c.
Proof.
  intros Hc Hs Ht. pose proof (proj1 print_nonempty c Hc) as Hne. unfold eval, eval_chain.
  rewrite Ht. destruct (print c) as [|b l] eqn:Ep; [done|]. rewrite <-Ep.
  pose proof (proj1 (eval_print_gen shape Hs) c Hc (length (print c)) false []
    ltac:(by left)) as H. rewrite app_nil_r in H. rewrite H by done.
  by destruct (denote shape false c).
Qed.

(** The extent of the blocked scale layout's first sub-axis. *)
Definition blocks_of_128 : chain := Operand (Ceil (Op (Operand (Axis 0)) true (Lit 128))).

Lemma eval_print_witness :
  print blocks_of_128 = bstr "ceil(d0/128)" /\ eval (bstr "ceil(d0 / 128)") [200; 7] = Ok 2.
Proof.
  split; [reflexivity|].
  rewrite (eval_print blocks_of_128); [reflexivity| | |reflexivity].
  - unfold blocks_of_128. simpl. unfold U64. lia.
  - repeat constructor; unfold U64; lia.
Defined.
