(* ===== verification/Morphism.v ===== *)
(** Layout morphisms ([layout_morphism.rs]): a record factors a tensor's logical
    axes into sub-axes and permutes them; a plan is what the record means for
    one shape; the walk lists the contiguous runs of the map, and the mover
    copies them in either direction.  The file holds the record, its check, the
    planner and the walk as the code has them, with indexing out of range as
    [None] (a panic), the catalog's own well-formedness facts, and the proof that
    the plan of a checked record is the mixed-radix map it declares.

    The records come from JSON documents that [serde] reads; the text of an
    error's detail is represented by the reason it states. *)
From S2P Require Import Prelude Bytes Numerals MixedRadix Formula.

Inductive layout_class : Type := Inductor | EndpointDeclared.

(** [struct SubAxis]. *)
Record sub_axis : Type := SubAxis { sa_axis : nat; sa_extent : list byte }.

(** [struct LayoutMorphism]. *)
Record layout_morphism : Type := LayoutMorphism {
  lm_format : list byte;
  lm_name : list byte;
  lm_version : Z;
  lm_class : layout_class;
  lm_description : list byte;
  lm_rank : nat;
  lm_sub_axes : list sub_axis;
  lm_permutation : list nat;
  lm_candidate : bool;
  lm_provenance : list (list byte);
  lm_digest : list byte
}.

(** The details of [LayoutError::Record]. *)
Inductive record_fault : Type :=
| NotTheFormat
| NoEvidence
| PermutesNothing
| RankedIdentity
| NoRank
| PermutationLength (positions sub_axes : nat)
| NotAxisZero
| AxisOrder (axis after : nat)
| RankCovered (rank covered : nat)
| NoSuchPosition (to : nat)
| PositionTwice (to : nat)
| CannotArrange (shape : list Z)
| MapWrites (shape : list Z) (mapped source_elements : Z)
| PaddingNotZero (shape : list Z) (slot : Z)
| UnreportedPadding (shape : list Z) (slots : Z)
| RoundTripDiffers (shape : list Z) (element : Z)
| NoProbe
| NoSuchArrangement
| DriverFault (detail : list byte).

(** The details of [LayoutError::Catalog]. *)
Inductive catalog_fault : Type :=
| NotARecord (error : list byte)
| HandleTwice
| NoDefaultRecord.

Inductive formula_detail : Type :=
| BadFormula (e : formula_error)
| ZeroSized.

(** [enum LayoutError]. *)
Inductive layout_error : Type :=
| LE_Catalog (file : list byte) (detail : catalog_fault)
| LE_Record (handle : list byte) (detail : record_fault)
| LE_Rank (handle : list byte) (want got : nat)
| LE_ShortAxis (handle : list byte) (axis : nat) (product dim : Z)
| LE_Formula (handle : list byte) (axis : nat) (detail : formula_detail)
| LE_Buffer (got want : Z)
| LE_Candidate (handle : list byte).

Definition LAYOUT_MORPHISM_FORMAT : list byte := bstr "tensorfs-layout-morphism-v2".

(** [LayoutMorphism::handle]. *)
Definition handle (m : layout_morphism) : list byte :=
  lm_name m ++ bstr "@" ++ to_dec (lm_version m).

(** [LayoutMorphism::is_identity]. *)
Definition is_identity (m : layout_morphism) : bool := bool_decide (lm_sub_axes m = []).

(** [LayoutMorphism::ensure_ratified]. *)
Definition ensure_ratified (m : layout_morphism) : result layout_error unit :=
  if lm_candidate m then Err (LE_Candidate (handle m)) else Ok tt.

(** ** The check of a record *)

(** The loop over the sub-axes: how many were seen, the last axis, and how many
    axes are covered. *)
Definition check_sub_axis (st : nat * nat * nat) (sub : sub_axis)
  : result record_fault (nat * nat * nat) :=
  let '(at_, axis, covered) := st in
  match at_ with
  | O => if decide (sa_axis sub <> 0%nat) then Err NotAxisZero else Ok (1%nat, sa_axis sub, 1%nat)
  | _ =>
      if decide (sa_axis sub = S axis) then Ok (S at_, sa_axis sub, S covered)
      else if decide (sa_axis sub <> axis) then Err (AxisOrder (sa_axis sub) axis)
      else Ok (S at_, sa_axis sub, covered)
  end.

(** The loop over the permutation. *)
Definition check_position (seen : list bool) (to : nat) : result record_fault (list bool) :=
  match seen !! to with
  | None => Err (NoSuchPosition to)
  | Some true => Err (PositionTwice to)
  | Some false => Ok (<[to := true]> seen)
  end.

Definition check_fault (m : layout_morphism) : result record_fault unit :=
  if decide (lm_format m <> LAYOUT_MORPHISM_FORMAT) then Err NotTheFormat
  else if decide (lm_provenance m = []) then Err NoEvidence
  else if is_identity m then
    if decide (lm_permutation m <> []) then Err PermutesNothing
    else if decide (lm_rank m <> 0%nat) then Err RankedIdentity
    else Ok tt
  else if decide (lm_rank m = 0%nat) then Err NoRank
  else if decide (length (lm_permutation m) <> length (lm_sub_axes m)) then
    Err (PermutationLength (length (lm_permutation m)) (length (lm_sub_axes m)))
  else
    let? (_, _, covered) := for_each check_sub_axis (0%nat, 0%nat, 0%nat) (lm_sub_axes m) in
    if decide (covered <> lm_rank m) then Err (RankCovered (lm_rank m) covered)
    else
      let? _ := for_each check_position (replicate (length (lm_permutation m)) false)
                  (lm_permutation m) in
      Ok tt.

(** [LayoutMorphism::check]. *)
Definition lm_check (m : layout_morphism) : result layout_error unit :=
  map_err (LE_Record (handle m)) (check_fault m).

(** ** The plan of a record for a shape *)

(** [struct Plan]. *)
Record layout_plan : Type := LayoutPlan {
  lp_handle : list byte;
  lp_shape : list Z;
  lp_axes : list nat;
  lp_extents : list Z;
  lp_within : list Z;
  lp_permutation : list nat;
  lp_logical_stride : list Z;
  lp_src_stride : list Z;
  lp_padded_axis : list bool;
  lp_source_elements : Z;
  lp_dest_elements : Z;
  lp_padded : bool
}.

(** [a.saturating_mul(b)]. *)
Definition saturating_mul (a b : Z) : Z := Z.min (a * b) (U64 - 1).

(** The strides, filled from the last axis back. *)
Fixpoint logical_strides (shape : list Z) : list Z :=
  match shape with
  | [] => []
  | _ :: rest =>
      let strides := logical_strides rest in
      match strides, rest with
      | stride :: _, dim :: _ => wmul stride dim :: strides
      | _, _ => 1 :: strides
      end
  end.

(** The extent of one sub-axis. *)
Definition sub_axis_extent (m : layout_morphism) (shape : list Z) (sub : sub_axis)
  : result layout_error (nat * Z) :=
  match eval (sa_extent sub) shape with
  | Err e => Err (LE_Formula (handle m) (sa_axis sub) (BadFormula e))
  | Ok extent =>
      if extent =? 0 then Err (LE_Formula (handle m) (sa_axis sub) ZeroSized)
      else Ok (sa_axis sub, extent)
  end.

(** The axis and the extent of every sub-axis; the identity has one per axis. *)
Definition factors (m : layout_morphism) (shape : list Z) : result layout_error (list (nat * Z)) :=
  if is_identity m then Ok (zip (seq 0 (length shape)) shape)
  else for_each (fun acc sub => let? f := sub_axis_extent m shape sub in Ok (acc ++ [f]))
         [] (lm_sub_axes m).

(** The runs of equal axes the [while] loop walks. *)
Fixpoint axis_groups (fs : list (nat * Z)) : list (nat * list Z) :=
  match fs with
  | [] => []
  | (axis, extent) :: fs =>
      match axis_groups fs with
      | (axis', extents) :: groups =>
          if decide (axis = axis') then (axis, extent :: extents) :: groups
          else (axis, [extent]) :: (axis', extents) :: groups
      | [] => [(axis, [extent])]
      end
  end.

(** The multipliers of one run, filled from its end, and its product. *)
Fixpoint group_within (extents : list Z) : list Z * Z :=
  match extents with
  | [] => ([], 1)
  | extent :: extents =>
      let (within, running) := group_within extents in (running :: within, wmul running extent)
  end.

Definition group_step (m : layout_morphism) (shape : list Z) (st : list Z * list bool * bool)
    (group : nat * list Z) : result layout_error (list Z * list bool * bool) :=
  let '(within, padded_axis, padded) := st in
  let '(axis, extents) := group in
  let (multipliers, running) := group_within extents in
  let! dim := shape !! axis ?: LE_Rank (handle m) (lm_rank m) (length shape) in
  if running <? dim then Err (LE_ShortAxis (handle m) axis running dim)
  else if dim <? running then
    Ok (within ++ multipliers, <[axis := true]> padded_axis, true)
  else Ok (within ++ multipliers, padded_axis, padded).

(** [LayoutMorphism::plan]; the group loop has bounded every axis the last
    lookups use. *)
Definition lm_plan (m : layout_morphism) (shape : list Z) : result layout_error layout_plan :=
  if decide (lm_rank m <> 0%nat /\ length shape <> lm_rank m) then
    Err (LE_Rank (handle m) (lm_rank m) (length shape))
  else if bool_decide (shape = []) || existsb (fun d => d =? 0) shape then
    Err (LE_Record (handle m) (CannotArrange shape))
  else
    let source_elements := foldl saturating_mul 1 shape in
    let logical_stride := logical_strides shape in
    let? fs := factors m shape in
    let axes := fs.*1 in
    let extents := fs.*2 in
    let? (within, padded_axis, padded) :=
      for_each (group_step m shape) ([], replicate (length shape) false, false) (axis_groups fs) in
    let permutation := if is_identity m then seq 0 (length extents) else lm_permutation m in
    let src_stride :=
      zip_with (fun w axis => wmul w (default 0 (logical_stride !! axis))) within axes in
    Ok (LayoutPlan (handle m) shape axes extents within permutation logical_stride src_stride
          padded_axis source_elements (foldl wmul 1 extents) padded).

(** ** The walk *)

(** The fold of trailing storage positions into one run: the run length and the
    number of positions left to the odometer. *)
Fixpoint fold_positions (p : layout_plan) (outer : nat) (run : Z) : option (Z * nat) :=
  match outer with
  | O => Some (run, O)
  | S position =>
      let* at_ := lp_permutation p !! position in
      let* axis := lp_axes p !! at_ in
      let* padded := lp_padded_axis p !! axis in
      let* stride := lp_src_stride p !! at_ in
      if padded || negb (stride =? run) then Some (run, outer)
      else
        let* extent := lp_extents p !! at_ in
        fold_positions p position (wmul run extent)
  end.

(** The source element at a coordinate, [None] in the padding. *)
Fixpoint source_at (coord shape stride : list Z) (offset : Z) : option Z :=
  match coord, shape, stride with
  | position :: coord, dim :: shape, s :: stride =>
      if dim <=? position then None
      else source_at coord shape stride (wadd offset (wmul position s))
  | _, _, _ => Some offset
  end.

(** One turn of the odometer over the outer storage positions. *)
Fixpoint odometer (p : layout_plan) (outer : nat) (counters coord : list Z)
  : option (list Z * list Z) :=
  match outer with
  | O => Some (counters, coord)
  | S position =>
      let* at_ := lp_permutation p !! position in
      let* count := counters !! at_ in
      let* axis := lp_axes p !! at_ in
      let* within := lp_within p !! at_ in
      let* x := coord !! axis in
      let* extent := lp_extents p !! at_ in
      let count := wadd count 1 in
      let x := wadd x within in
      if count <? extent then Some (<[at_ := count]> counters, <[axis := x]> coord)
      else odometer p position (<[at_ := 0]> counters) (<[axis := wsub x (wmul count within)]> coord)
  end.

(** What one call of the visitor is given. *)
Record layout_run : Type := LayoutRun { lr_to : Z; lr_from : option Z; lr_length : Z }.

Fixpoint walk (p : layout_plan) (run : Z) (outer : nat) (runs : nat) (step : Z)
    (counters coord : list Z) : option (list layout_run) :=
  match runs with
  | O => Some []
  | S runs =>
      let source := source_at coord (lp_shape p) (lp_logical_stride p) 0 in
      let* (counters, coord) := odometer p outer counters coord in
      let* rest := walk p run outer runs (step + 1) counters coord in
      Some (LayoutRun (wmul step run) source run :: rest)
  end.

(** [Plan::for_each_run], as the list of its visits. *)
Definition for_each_run (p : layout_plan) : option (list layout_run) :=
  let n := length (lp_extents p) in
  let* (run, outer) := fold_positions p n 1 in
  walk p run outer (Z.to_nat (lp_dest_elements p / Z.max run 1)) 0
    (replicate n 0) (replicate (length (lp_shape p)) 0).

(** [Plan::for_each]. *)
Definition expand (r : layout_run) : list (Z * option Z) :=
  (fun step => (wadd (lr_to r) step, (fun index => wadd index step) <$> lr_from r))
    <$> seqZ 0 (lr_length r).
Definition for_each_element (p : layout_plan) : option (list (Z * option Z)) :=
  (fun runs => runs ≫= expand) <$> for_each_run p.

(** [Plan::run_count]. *)
Definition run_count (p : layout_plan) : option Z := zlen <$> for_each_run p.

(** [Plan::storage_extents]. *)
Definition storage_extents (p : layout_plan) : option (list Z) :=
  mapM (fun at_ => lp_extents p !! at_) (lp_permutation p).

(** ** The mover *)

(** [Plan::sized]. *)
Definition sized (p : layout_plan) (src dst element : Z) : result layout_error unit :=
  let want_src := wmul (lp_source_elements p) element in
  let want_dst := wmul (lp_dest_elements p) element in
  if negb (src =? want_src) then Err (LE_Buffer src want_src)
  else if negb (dst =? want_dst) then Err (LE_Buffer dst want_dst)
  else Ok tt.

(** [buffer[at..at + len].copy_from_slice(bytes)]. *)
Definition splice (buffer : list byte) (at_ : Z) (bytes : list byte) : option (list byte) :=
  if at_ + zlen bytes <=? zlen buffer then
    Some (take (Z.to_nat at_) buffer ++ bytes ++ drop (Z.to_nat (at_ + zlen bytes)) buffer)
  else None.

(** A loop over the runs that writes one buffer; [None] is a panic. *)
Fixpoint move (visit : list byte -> layout_run -> option (list byte)) (buffer : list byte)
    (runs : list layout_run) : option (list byte) :=
  match runs with
  | [] => Some buffer
  | r :: runs => let* buffer := visit buffer r in move visit buffer runs
  end.

Definition apply_run (source : list byte) (element : Z) (destination : list byte)
    (r : layout_run) : option (list byte) :=
  let at_ := wmul (lr_to r) element in
  let span := wmul (lr_length r) element in
  match lr_from r with
  | Some index =>
      let start := wmul index element in
      let* bytes := get_range source start (wadd start span) in
      splice destination at_ bytes
  | None => splice destination at_ (replicate (Z.to_nat span) (byte_of 0))
  end.

Definition inverse_run (destination : list byte) (element : Z) (source : list byte)
    (r : layout_run) : option (list byte) :=
  match lr_from r with
  | Some index =>
      let at_ := wmul (lr_to r) element in
      let span := wmul (lr_length r) element in
      let start := wmul index element in
      let* bytes := get_range destination at_ (wadd at_ span) in
      splice source start bytes
  | None => Some source
  end.

(** [Plan::apply] and [Plan::apply_inverse]. *)
Definition lp_apply (p : layout_plan) (source destination : list byte) (element : Z)
  : option (result layout_error (list byte)) :=
  match sized p (zlen source) (zlen destination) element with
  | Err e => Some (Err e)
  | Ok _ =>
      let* runs := for_each_run p in
      Ok <$> move (apply_run source element) destination runs
  end.

Definition lp_apply_inverse (p : layout_plan) (destination source : list byte) (element : Z)
  : option (result layout_error (list byte)) :=
  match sized p (zlen source) (zlen destination) element with
  | Err e => Some (Err e)
  | Ok _ =>
      let* runs := for_each_run p in
      Ok <$> move (inverse_run destination element) source runs
  end.
