(* ===== verification/MorphismPlan.v ===== *)
(** The plan of a checked layout record, as mathematics: one group of extents
    per logical axis, the strides as mixed-radix weights, a permutation of the
    sub-axes, and no machine arithmetic that wrapped. *)
From S2P Require Import Prelude Bytes MixedRadix Formula Morphism.

(** The axis of every sub-axis when axis [a + i] is factored as [gs !! i]. *)
Fixpoint group_axes (a : nat) (gs : list (list Z)) : list nat :=
  match gs with
  | [] => []
  | g :: gs => replicate (length g) a ++ group_axes (S a) gs
  end.

Definition src_strides (shape within : list Z) (axes : list nat) : list Z :=
  zip_with (fun w axis => w * default 0 (weights shape !! axis)) within axes.

Record plan_wf (p : layout_plan) (gs : list (list Z)) : Prop := {
  pw_extents : lp_extents p = mjoin gs;
  pw_axes : lp_axes p = group_axes 0 gs;
  pw_within : lp_within p = mjoin (weights <$> gs);
  pw_perm : lp_permutation p ≡ₚ seq 0 (length (mjoin gs));
  pw_fit : Forall2 (fun d g => 0 < d <= prodZ g) (lp_shape p) gs;
  pw_pos : positive (mjoin gs);
  pw_stride : lp_logical_stride p = weights (lp_shape p);
  pw_src : lp_src_stride p = src_strides (lp_shape p) (lp_within p) (lp_axes p);
  pw_padded : lp_padded_axis p = zip_with (fun d g => d <? prodZ g) (lp_shape p) gs;
  pw_source : lp_source_elements p = prodZ (lp_shape p);
  pw_dest : lp_dest_elements p = prodZ (mjoin gs);
  pw_fits : prodZ (mjoin gs) < U64
}.

(** ** Products *)

Lemma mjoin_cons {A} (g : list A) gs : mjoin (g :: gs) = g ++ mjoin gs.
Proof. done. Qed.

Lemma prodZ_mjoin gs : prodZ (mjoin gs) = prodZ (prodZ <$> gs).
Proof. induction gs as [|g gs IH]; [done|]. simpl. by rewrite prodZ_app, prodZ_cons, IH. Qed.

Lemma positive_mjoin gs : positive (mjoin gs) <-> Forall positive gs.
Proof.
  induction gs as [|g gs IH]; simpl; [split; constructor|].
  rewrite positive_app, Forall_cons. tauto.
Qed.

Lemma prodZ_sublist a b c : positive (a ++ b ++ c) -> prodZ b <= prodZ (a ++ b ++ c).
Proof.
  rewrite !positive_app, !prodZ_app. intros (Ha%prodZ_pos & Hb%prodZ_pos & Hc%prodZ_pos).
  assert (1 <= prodZ a * prodZ c) by nia. nia.
Qed.

Lemma prodZ_group gs a g :
  positive (mjoin gs) -> gs !! a = Some g -> 0 < prodZ g <= prodZ (mjoin gs).
Proof.
  intros Hp Hg. pose proof Hp as Hp'. apply positive_mjoin in Hp'.
  split; [apply prodZ_pos; by eapply Forall_lookup_1 in Hg|].
  rewrite <-(take_drop_middle gs a g Hg) in *. rewrite join_app in *. simpl in *.
  by apply prodZ_sublist.
Qed.

Lemma foldl_wmul acc es :
  0 < acc -> positive es -> acc * prodZ es < U64 -> foldl wmul acc es = acc * prodZ es.
Proof.
  revert acc. induction es as [|e es IH]; intros acc Ha Hp Hlt; simpl; [unfold prodZ; simpl; lia|].
  apply Forall_cons in Hp as [He Hp]. pose proof (prodZ_pos _ Hp). rewrite prodZ_cons in *.
  rewrite wmul_small by nia. rewrite IH by (done || nia). lia.
Qed.

Lemma foldl_saturating acc es :
  0 < acc -> positive es -> acc * prodZ es < U64 -> foldl saturating_mul acc es = acc * prodZ es.
Proof.
  revert acc. induction es as [|e es IH]; intros acc Ha Hp Hlt; simpl; [unfold prodZ; simpl; lia|].
  apply Forall_cons in Hp as [He Hp]. pose proof (prodZ_pos _ Hp). rewrite prodZ_cons in *.
  unfold saturating_mul at 2. rewrite Z.min_l by nia. rewrite IH by (done || nia). lia.
Qed.

Lemma logical_strides_weights shape :
  positive shape -> prodZ shape < U64 -> logical_strides shape = weights shape.
Proof.
  intros Hp. induction Hp as [|d shape Hd Hp IH]; intros Hlt; [done|].
  pose proof (prodZ_pos _ Hp). rewrite prodZ_cons in Hlt. simpl. rewrite IH by nia.
  destruct Hp as [|e shape He Hp]; [done|]. simpl. pose proof (prodZ_pos _ Hp).
  rewrite !prodZ_cons in *. rewrite wmul_small by nia. f_equal. lia.
Qed.

Lemma group_within_weights g :
  positive g -> prodZ g < U64 -> group_within g = (weights g, prodZ g).
Proof.
  intros Hp. induction Hp as [|e g He Hp IH]; intros Hlt; [done|].
  pose proof (prodZ_pos _ Hp). rewrite prodZ_cons in Hlt. simpl. rewrite IH by nia.
  rewrite prodZ_cons, wmul_small by nia. f_equal. lia.
Qed.

(** ** The groups of a checked record *)

Lemma axis_groups_head axis e fs : exists g gs, axis_groups ((axis, e) :: fs) = (axis, g) :: gs.
Proof. simpl. destruct (axis_groups fs) as [|[a g] gs]; [eauto|]. case_decide; eauto. Qed.

(** The groups, flattened, are the factors. *)
Lemma axis_groups_join fs :
  fs.*2 = mjoin (axis_groups fs).*2 /\
  fs.*1 = mjoin ((fun g : nat * list Z => replicate (length g.2) g.1) <$> axis_groups fs).
Proof.
  induction fs as [|[a e] fs [IH1 IH2]]; [done|].
  rewrite !fmap_cons, IH1, IH2. cbn [axis_groups fst snd].
  destruct (axis_groups fs) as [|[a' g] gs]; [done|]. case_decide as Ha; [subst|]; done.
Qed.

Lemma group_axes_seq a (groups : list (nat * list Z)) :
  groups.*1 = seq a (length groups) ->
  mjoin ((fun g : nat * list Z => replicate (length g.2) g.1) <$> groups) = group_axes a groups.*2.
Proof.
  revert a. induction groups as [|[k g] groups IH]; intros a; simpl; [done|].
  intros [= -> H]. f_equal. by apply IH.
Qed.

(** [check]'s loop makes the axes consecutive. *)
Lemma check_sub_axes_groups subs k axis covered k' axis' covered' e fs :
  for_each check_sub_axis (S k, axis, covered) subs = Ok (k', axis', covered') ->
  fs.*1 = sa_axis <$> subs ->
  exists j, (axis_groups ((axis, e) :: fs)).*1 = seq axis (S j) /\ covered' = (covered + j)%nat.
Proof.
  revert k axis covered e fs. induction subs as [|sub subs IH]; intros k axis covered e fs Hc Hf.
  - destruct fs; [|done]. simpl in *. simplify_eq. exists 0%nat. split; [done|lia].
  - destruct fs as [|[a e'] fs]; [done|]. simpl in Hf. simplify_eq.
    cbn [for_each check_sub_axis] in Hc.
    destruct (decide (sa_axis sub = S axis)) as [Hs|Hs].
    + apply (IH _ _ _ e' fs) in Hc as (j & Hj & ->); [|done]. exists (S j). split; [|lia].
      cbn [axis_groups]. destruct (axis_groups_head (sa_axis sub) e' fs) as (g & gs & Hg).
      cbn [axis_groups] in Hg, Hj. rewrite Hg in Hj |- *. rewrite decide_False by lia.
      rewrite Hs in Hj. simpl in *. congruence.
    + destruct (decide (sa_axis sub <> axis)) as [|Hd]; [done|].
      assert (sa_axis sub = axis) as He by (destruct (decide (sa_axis sub = axis)); [done|tauto]).
      apply (IH _ _ _ e' fs) in Hc as (j & Hj & ->); [|done]. exists j. split; [|done].
      cbn [axis_groups]. destruct (axis_groups_head (sa_axis sub) e' fs) as (g & gs & Hg).
      cbn [axis_groups] in Hg, Hj. rewrite Hg in Hj |- *. rewrite decide_True by done.
      rewrite He in Hj. simpl in *. congruence.
Qed.

Lemma identity_groups a shape :
  (axis_groups (zip (seq a (length shape)) shape)).*1 = seq a (length shape).
Proof.
  revert a. induction shape as [|d shape IH]; intros a; [done|]. simpl.
  specialize (IH (S a)). destruct (axis_groups (zip _ shape)) as [|[a' g] gs]; simpl in *.
  - by rewrite <-IH.
  - destruct shape as [|d' shape]; [done|]. simpl in IH. injection IH as -> IH.
    rewrite decide_False by lia. simpl. by rewrite IH.
Qed.

(** ** The loops of [plan] *)

Lemma group_loop m sh1 sh2 gs w pa pd w' pa' pd' :
  length gs = length sh2 -> length pa = length sh1 ->
  Forall (fun g => positive g /\ prodZ g < U64) gs -> Forall (fun d => 0 < d) sh2 ->
  for_each (group_step m (sh1 ++ sh2)) (w, pa ++ replicate (length sh2) false, pd)
    (zip (seq (length sh1) (length gs)) gs) = Ok (w', pa', pd') ->
  w' = w ++ mjoin (weights <$> gs) /\ pa' = pa ++ zip_with (fun d g => d <? prodZ g) sh2 gs /\
  Forall2 (fun d g => 0 < d <= prodZ g) sh2 gs.
Proof.
  revert sh1 sh2 w pa pd. induction gs as [|g gs IH]; intros sh1 sh2 w pa pd Hlen Hpa Hg Hs H.
  { destruct sh2; [|done]. simpl in *. simplify_eq. by rewrite !app_nil_r. }
  destruct sh2 as [|d sh2]; [done|]. apply Forall_cons in Hg as [[Hp Hlt] Hg].
  apply Forall_cons in Hs as [Hd Hs]. cbn [length seq zip_with] in H. cbn [for_each] in H.
  unfold group_step at 1 in H. rewrite group_within_weights in H by done.
  rewrite list_lookup_middle in H by done.
  destruct (Z.ltb_spec (prodZ g) d); [done|].
  assert (forall b pd1, for_each (group_step m (sh1 ++ d :: sh2))
    (w ++ weights g, (pa ++ [b]) ++ replicate (length sh2) false, pd1)
    (zip (seq (S (length sh1)) (length gs)) gs) = Ok (w', pa', pd') ->
    w' = w ++ weights g ++ mjoin (weights <$> gs) /\
    pa' = pa ++ b :: zip_with (fun d g => d <? prodZ g) sh2 gs /\
    Forall2 (fun d g => 0 < d <= prodZ g) (d :: sh2) (g :: gs)) as Hk.
  { intros b pd1 H1. replace (sh1 ++ d :: sh2) with ((sh1 ++ [d]) ++ sh2) in H1
      by (by rewrite <-app_assoc).
    replace (S (length sh1)) with (length (sh1 ++ [d])) in H1 by (rewrite length_app; simpl; lia).
    simpl in Hlen. apply IH in H1 as (-> & -> & Hf);
      [|by simplify_eq|rewrite !length_app; simpl; lia|done..].
    rewrite <-!app_assoc. split_and!; [done..|]. constructor; [lia|done]. }
  destruct (Z.ltb_spec d (prodZ g)); apply (Hk (d <? prodZ g)) with (pd1 := if d <? prodZ g then true else pd).
  - rewrite <-app_assoc. replace (d <? prodZ g) with true by lia.
    rewrite <-Hpa, insert_app_r_alt, Nat.sub_diag in H by lia. rewrite Hpa in H. exact H.
  - rewrite <-app_assoc. replace (d <? prodZ g) with false by lia. exact H.
Qed.

(** [check]'s second loop accepts permutations only. *)
Lemma check_positions_perm perm n seen :
  for_each check_position (replicate n false) perm = Ok seen -> length perm = n ->
  perm ≡ₚ seq 0 n.
Proof.
  intros H Hlen.
  apply (for_each_inv _ (fun pre seen => length seen = n /\ NoDup pre /\
    (forall i, i ∈ pre -> (i < n)%nat) /\ forall i, seen !! i = Some false -> i ∉ pre)) in H.
  - destruct H as (Hl & Hnd & Hin & _). apply submseteq_length_Permutation.
    + apply NoDup_submseteq; [done|]. intros i Hi. apply elem_of_seq. specialize (Hin i Hi). lia.
    + rewrite length_seq. lia.
  - rewrite length_replicate. split_and!; [done|constructor|set_solver|set_solver].
  - intros pre to post t t' _ (Hl & Hnd & Hin & Hseen). unfold check_position.
    destruct (t !! to) as [[]|] eqn:Et; [done| |done]. intros [= <-].
    rewrite length_insert. pose proof (lookup_lt_Some _ _ _ Et). split_and!; [done| | |].
    + apply NoDup_app. split_and!; [done| |by apply NoDup_singleton]. specialize (Hseen _ Et).
      set_solver.
    + intros i. rewrite elem_of_app, list_elem_of_singleton. intros [Hi| ->]; [by apply Hin|lia].
    + intros i Hi. destruct (decide (i = to)) as [->|Hne].
      { by rewrite list_lookup_insert_eq in Hi by done. }
      rewrite list_lookup_insert_ne in Hi by done. specialize (Hseen _ Hi). set_solver.
Qed.

Lemma factors_spec m shape fs :
  factors m shape = Ok fs -> positive shape -> Forall in_u64 shape ->
  fs.*1 = (if is_identity m then seq 0 (length shape) else sa_axis <$> lm_sub_axes m) /\
  positive fs.*2.
Proof.
  unfold factors. destruct (is_identity m) eqn:Ei; intros H Hp Hs.
  - simplify_eq. rewrite fst_zip, snd_zip by (rewrite length_seq; lia). done.
  - apply (for_each_inv _ (fun pre fs => fs.*1 = sa_axis <$> pre /\ positive fs.*2)) in H; [done| |].
    + split; [done|constructor].
    + intros pre sub post acc acc' _ [H1 H2]. unfold sub_axis_extent.
      destruct (eval (sa_extent sub) shape) as [e|] eqn:Ee; [|done]. apply eval_u64 in Ee; [|done].
      destruct (Z.eqb_spec e 0); [done|]. intros [= <-]. rewrite !fmap_app, H1. split; [done|].
      apply Forall_app. split; [done|]. repeat constructor. unfold in_u64 in Ee. simpl. lia.
Qed.

(** Where a sub-axis sits in its group. *)
Lemma group_lookup a0 gs i a :
  group_axes a0 gs !! i = Some a ->
  exists g j e w, (a0 <= a)%nat /\ gs !! (a - a0)%nat = Some g /\
    g !! j = Some e /\ weights g !! j = Some w /\
    mjoin gs !! i = Some e /\ mjoin (weights <$> gs) !! i = Some w.
Proof.
  revert a0 i. induction gs as [|g gs IH]; intros a0 i; simpl; [done|].
  destruct (decide (i < length g)%nat) as [Hi|Hi].
  - rewrite lookup_app_l by (by rewrite length_replicate).
    intros [-> _]%lookup_replicate. destruct (lookup_lt_is_Some_2 g i Hi) as [e He].
    destruct (lookup_lt_is_Some_2 (weights g) i ltac:(by rewrite length_weights)) as [w Hw].
    exists g, i, e, w. rewrite Nat.sub_diag.
    rewrite !lookup_app_l by (rewrite ?length_weights; lia). done.
  - rewrite lookup_app_r by (rewrite length_replicate; lia). rewrite length_replicate.
    intros (g' & j & e & w & Hle & Hg & He & Hw & H1 & H2)%IH.
    exists g', j, e, w. rewrite !lookup_app_r by (rewrite ?length_weights; lia).
    rewrite length_weights. replace (a - a0)%nat with (S (a - S a0)) by lia.
    split_and!; [lia|done..].
Qed.

Lemma weights_le es w : positive es -> w ∈ weights es -> 0 < w <= prodZ es.
Proof.
  intros Hp. induction Hp as [|e es He Hp IH]; simpl; [set_solver|].
  pose proof (prodZ_pos _ Hp). rewrite prodZ_cons. intros [->|Hw]%elem_of_cons; [nia|].
  specialize (IH Hw). nia.
Qed.

Lemma weights_lookup es i : weights es !! i = if decide (i < length es)%nat then Some (prodZ (drop (S i) es)) else None.
Proof.
  revert i. induction es as [|e es IH]; intros [|i]; simpl; try done.
  rewrite IH. destruct (decide (i < length es)%nat), (decide (S i < S (length es))%nat); (done || lia).
Qed.

Lemma length_group_axes a gs : length (group_axes a gs) = length (mjoin gs).
Proof.
  revert a. induction gs as [|g gs IH]; intros a; simpl; [done|].
  by rewrite !length_app, length_replicate, IH.
Qed.

Lemma length_mjoin_weights gs : length (mjoin (weights <$> gs)) = length (mjoin gs).
Proof.
  induction gs as [|g gs IH]; [done|].
  by rewrite fmap_cons, !mjoin_cons, !length_app, length_weights, IH.
Qed.

Lemma fit_le shape gs :
  Forall2 (fun d g => 0 < d <= prodZ g) shape gs -> prodZ shape <= prodZ (mjoin gs).
Proof. intros H. rewrite prodZ_mjoin. apply prodZ_le. by apply Forall2_fmap_r. Qed.

Lemma src_stride_small shape gs :
  Forall2 (fun d g => 0 < d <= prodZ g) shape gs -> positive (mjoin gs) ->
  prodZ (mjoin gs) < U64 ->
  zip_with (fun w axis => wmul w (default 0 (weights shape !! axis)))
    (mjoin (weights <$> gs)) (group_axes 0 gs) =
  src_strides shape (mjoin (weights <$> gs)) (group_axes 0 gs).
Proof.
  intros Hf Hp Hlt. unfold src_strides. apply list_eq. intros i. rewrite !lookup_zip_with.
  destruct (group_axes 0 gs !! i) as [a|] eqn:Ea;
    [|destruct (mjoin (weights <$> gs) !! i); done].
  destruct (group_lookup 0 gs i a Ea) as (g & j & e & w & _ & Hg & _ & Hw & _ & Hiw).
  rewrite Nat.sub_0_r in Hg. rewrite Hiw. simpl. f_equal. apply wmul_small.
  rewrite weights_lookup. case_decide as Ha; simpl; [|unfold U64; lia].
  pose proof (proj1 (positive_mjoin gs) Hp) as Hps.
  assert (0 < w <= prodZ g).
  { apply weights_le; [by eapply Forall_lookup_1 in Hg|]. by eapply list_elem_of_lookup_2. }
  assert (prodZ (drop (S a) shape) <= prodZ (mjoin (drop (S a) gs))) as Hd.
  { apply fit_le. by apply Forall2_drop. }
  assert (0 < prodZ (drop (S a) shape)).
  { apply prodZ_pos, Forall_drop. eapply Forall2_Forall_l; [exact Hf|].
    apply Forall_true. simpl. lia. }
  rewrite <-(take_drop_middle gs a g Hg) in Hlt, Hp. rewrite join_app, mjoin_cons, prodZ_app in Hlt.
  rewrite join_app, mjoin_cons, !positive_app in Hp. destruct Hp as (H1%prodZ_pos & H2%prodZ_pos & H3%prodZ_pos).
  rewrite prodZ_app in Hlt.
  assert (w * prodZ (drop (S a) shape) <= prodZ g * prodZ (mjoin (drop (S a) gs)))
    by (apply Z.mul_le_mono_nonneg; lia). nia.
Qed.

Lemma checked_groups m (shape : list Z) (fs : list (nat * Z)) :
  check_fault m = Ok tt -> ~ (lm_rank m <> 0%nat /\ length shape <> lm_rank m) ->
  fs.*1 = (if is_identity m then seq 0 (length shape) else sa_axis <$> lm_sub_axes m) ->
  (axis_groups fs).*1 = seq 0 (length shape) /\
  (if is_identity m then seq 0 (length fs.*2) else lm_permutation m) ≡ₚ seq 0 (length fs.*2).
Proof.
  intros Hc Hrank Hax. unfold check_fault in Hc.
  destruct (decide (lm_format m <> _)); [done|]. destruct (decide (lm_provenance m = [])); [done|].
  destruct (is_identity m) eqn:Ei.
  - split; [|done]. assert (exists shape', length shape' = length shape /\
      fs = zip (seq 0 (length shape')) shape') as (shape' & Hl & ->).
    { exists fs.*2. assert (length fs = length shape) as Hl.
      { by rewrite <-(length_fmap fst), Hax, length_seq. }
      rewrite length_fmap. split; [done|]. rewrite Hl, <-Hax. symmetry. apply zip_fst_snd. }
    rewrite identity_groups. by rewrite Hl.
  - destruct (decide (lm_rank m = 0%nat)) as [|Hr]; [done|].
    destruct (decide (length (lm_permutation m) <> _)) as [|Hpl]; [done|].
    destruct (for_each check_sub_axis _ _) as [[[k axis] covered]|] eqn:El; [|done].
    destruct (decide (covered <> lm_rank m)) as [|Hcov]; [done|].
    destruct (for_each check_position _ _) as [seen|] eqn:Ep; [|done].
    assert (length shape = lm_rank m) as Hsl by (destruct (decide (length shape = lm_rank m)); tauto).
    assert (length (lm_permutation m) = length fs) as Hpf.
    { rewrite <-(length_fmap fst fs), Hax, length_fmap.
      destruct (decide (length (lm_permutation m) = length (lm_sub_axes m))); tauto. }
    split; [|rewrite length_fmap; rewrite Hpf in Ep; by eapply check_positions_perm].
    destruct (lm_sub_axes m) as [|sub subs] eqn:Es.
    { unfold is_identity in Ei. rewrite Es in Ei. by rewrite bool_decide_eq_true_2 in Ei. }
    destruct fs as [|[a e] fs]; [done|]. simpl in Hax. injection Hax as -> Hax.
    cbn [for_each check_sub_axis] in El. destruct (decide (sa_axis sub <> 0%nat)) as [|H0]; [done|].
    assert (sa_axis sub = 0%nat) as Hz by (destruct (decide (sa_axis sub = 0%nat)); tauto).
    apply (check_sub_axes_groups _ _ _ _ _ _ _ e fs) in El as (j & Hj & ->); [|done].
    rewrite Hj, Hz. f_equal. destruct (decide ((1 + j)%nat = lm_rank m)); [lia|tauto].
Qed.

(** The plan of a checked record whose destination has fewer than [2^64]
    elements. *)
Lemma plan_spec m shape p :
  lm_check m = Ok tt -> Forall in_u64 shape -> lm_plan m shape = Ok p ->
  prodZ (lp_extents p) < U64 ->
  exists gs, plan_wf p gs /\ lp_shape p = shape.
Proof.
  intros Hc Hs Hplan Hlt. apply map_err_Ok in Hc. unfold lm_plan in Hplan.
  destruct (decide (lm_rank m <> 0%nat /\ length shape <> lm_rank m)) as [|Hrank]; [done|].
  destruct (bool_decide (shape = []) || existsb (fun d => d =? 0) shape) eqn:Ez; [done|].
  apply orb_false_iff in Ez as [Hne Hz].
  assert (positive shape) as Hpos.
  { apply Forall_forall. intros d Hd. rewrite Forall_forall in Hs. specialize (Hs d Hd).
    unfold in_u64 in Hs. enough (d <> 0) by lia. intros ->.
    assert (existsb (fun d => d =? 0) shape = true) as Ht; [|congruence].
    apply existsb_exists. exists 0. split; [by apply list_elem_of_In|done]. }
  destruct (factors m shape) as [fs|] eqn:Ef; [|done].
  apply factors_spec in Ef as [Hax Hfp]; [|done..].
  destruct (axis_groups_join fs) as [Hj2 Hj1].
  destruct (checked_groups m shape fs Hc Hrank Hax) as [Hkeys Hperm].
  assert (length (axis_groups fs) = length shape) as Hlen.
  { by rewrite <-(length_fmap fst), Hkeys, length_seq. }
  rewrite (group_axes_seq 0) in Hj1 by (by rewrite Hlen).
  set (gs := (axis_groups fs).*2) in *.
  assert (length gs = length shape) as Hgl by (unfold gs; by rewrite length_fmap).
  replace (axis_groups fs) with (zip (seq 0 (length gs)) gs) in Hplan
    by (rewrite Hgl, <-Hkeys; apply zip_fst_snd).
  destruct (for_each _ _ _) as [[[within pa] padded]|] eqn:El; [|done].
  injection Hplan as <-. cbn [lp_extents lp_shape] in *.
  rewrite Hj2 in Hlt, Hfp.
  pose proof (proj1 (positive_mjoin gs) Hfp) as Hgp.
  assert (Forall (fun g => positive g /\ prodZ g < U64) gs) as Hgs.
  { apply Forall_lookup. intros a g Hg. split; [by eapply Forall_lookup_1 in Hg|].
    pose proof (prodZ_group gs a g Hfp Hg). lia. }
  destruct (group_loop m [] shape gs [] [] false within pa padded Hgl eq_refl Hgs Hpos El)
    as (-> & -> & Hfit).
  pose proof (fit_le _ _ Hfit).
  exists gs. split; [|done].
  split; cbn [lp_extents lp_axes lp_within lp_permutation lp_shape lp_logical_stride lp_src_stride
    lp_padded_axis lp_source_elements lp_dest_elements]; try done.
  - by rewrite <-Hj2.
  - apply logical_strides_weights; [done|lia].
  - rewrite logical_strides_weights by (done || lia). rewrite Hj1. simpl. by apply src_stride_small.
  - rewrite foldl_saturating by (done || lia). lia.
  - rewrite Hj2, foldl_wmul by (done || lia). lia.
Qed.
