(* ===== verification/MorphismWalk.v ===== *)
(** The walk of a layout plan is the map the record declares.  The reference
    [source_of] reads one destination index digit by digit; the walk of the code
    folds trailing positions into runs and steps an odometer over the rest.  The
    two agree on every destination element, in order; every source element is
    written exactly once; and the mover's two directions invert each other. *)
From S2P Require Import Prelude Bytes MixedRadix Formula Morphism MorphismPlan.

(** ** The reference *)

(** The coordinate of logical axis [a]: what each of its sub-axes contributes. *)
Fixpoint coord_at (a : nat) (axes : list nat) (within counters : list Z) : Z :=
  match axes, within, counters with
  | axis :: axes, w :: within, c :: counters =>
      (if decide (axis = a) then c * w else 0) + coord_at a axes within counters
  | _, _, _ => 0
  end.

Definition coords (p : layout_plan) (counters : list Z) : list Z :=
  (fun a => coord_at a (lp_axes p) (lp_within p) counters) <$> seq 0 (length (lp_shape p)).

Definition pick (c : list Z) (perm : list nat) : list Z := (fun at_ => c !!! at_) <$> perm.
#[global] Arguments pick : simpl never.

(** The digits of storage order, put back in declaration order. *)
Definition scatter (n : nat) (perm : list nat) (ds : list Z) : list Z :=
  foldr (fun (x : nat * Z) c => <[x.1 := x.2]> c) (replicate n 0) (zip perm ds).

Definition storage (p : layout_plan) : list Z := pick (lp_extents p) (lp_permutation p).

Definition counters_of (p : layout_plan) (d : Z) : list Z :=
  scatter (length (lp_extents p)) (lp_permutation p) (digits (storage p) d).

Fixpoint inside (xs shape : list Z) : bool :=
  match xs, shape with
  | x :: xs, d :: shape => (x <? d) && inside xs shape
  | _, _ => true
  end.

(** The source element at destination element [d], [None] in the padding. *)
Definition source_of (p : layout_plan) (d : Z) : option Z :=
  let xs := coords p (counters_of p d) in
  if inside xs (lp_shape p) then Some (dot xs (weights (lp_shape p))) else None.

(** ** Scatter and pick *)

Lemma pick_insert_ne c perm i x : i ∉ perm -> pick (<[i := x]> c) perm = pick c perm.
Proof.
  intros Hni. apply list_fmap_ext. intros q j Hq. apply list_lookup_total_insert_ne.
  intros ->. apply Hni. by eapply list_elem_of_lookup_2.
Qed.

Lemma scatter_ok n perm ds :
  NoDup perm -> (forall i, i ∈ perm -> (i < n)%nat) -> length ds = length perm ->
  length (scatter n perm ds) = n /\ pick (scatter n perm ds) perm = ds.
Proof.
  unfold scatter. revert ds. induction perm as [|i perm IH]; intros ds Hnd Hin Hl.
  { destruct ds; [|done]. simpl. by rewrite length_replicate. }
  destruct ds as [|d ds]; [done|]. apply NoDup_cons in Hnd as [Hni Hnd]. simpl in Hl.
  destruct (IH ds Hnd ltac:(set_solver) ltac:(lia)) as [IH1 IH2]. simpl.
  rewrite length_insert. split; [done|]. unfold pick. rewrite fmap_cons. f_equal.
  - rewrite list_lookup_total_insert_eq; [done|]. rewrite IH1. apply Hin. set_solver.
  - rewrite <-IH2 at 1. by apply pick_insert_ne.
Qed.

Lemma pick_inj n perm c c' :
  perm ≡ₚ seq 0 n -> length c = n -> length c' = n -> pick c perm = pick c' perm -> c = c'.
Proof.
  intros Hp Hc Hc' H. apply list_eq_same_length with n; [done..|]. intros i x y Hi Hx Hy.
  assert (i ∈ perm) as Hin by (rewrite Hp; apply elem_of_seq; lia).
  apply list_elem_of_lookup in Hin as [q Hq].
  apply (f_equal (fun l => l !! q)) in H. unfold pick in H. rewrite !list_lookup_fmap, Hq in H.
  simpl in H. injection H as H. by rewrite (list_lookup_total_correct _ _ _ Hx),
    (list_lookup_total_correct _ _ _ Hy) in H.
Qed.

Lemma pick_app c a b : pick c (a ++ b) = pick c a ++ pick c b.
Proof. apply fmap_app. Qed.

(** A sum over storage positions is a sum over sub-axes. *)
Lemma dot_pick n perm c v :
  perm ≡ₚ seq 0 n -> length c = n -> length v = n -> dot (pick c perm) (pick v perm) = dot c v.
Proof.
  intros Hp Hc Hv. unfold dot, pick. rewrite zip_with_fmap_l, zip_with_fmap_r, zip_with_diag.
  rewrite (sumZ_perm _ ((fun i => c !!! i * v !!! i) <$> seq 0 n)) by (by rewrite Hp).
  f_equal. apply list_eq_same_length with n;
    [rewrite ?length_fmap, ?length_seq, ?length_zip_with; lia..|].
  intros i x y Hi. rewrite list_lookup_fmap, lookup_seq_lt by done. simpl.
  intros [= <-]. rewrite lookup_zip_with.
  destruct (lookup_lt_is_Some_2 c i) as [a Ha]; [lia|].
  destruct (lookup_lt_is_Some_2 v i) as [b Hb]; [lia|]. rewrite Ha, Hb. simpl. intros [= <-].
  by rewrite (list_lookup_total_correct _ _ _ Ha), (list_lookup_total_correct _ _ _ Hb).
Qed.

Lemma digits_ok_pick n perm es c :
  perm ≡ₚ seq 0 n -> length es = n -> length c = n ->
  digits_ok (pick es perm) (pick c perm) <-> digits_ok es c.
Proof.
  intros Hp He Hc. unfold digits_ok, pick. rewrite Forall2_fmap. split.
  - intros H. apply Forall2_same_length_lookup_2; [lia|]. intros i e x Hi Hx.
    assert (i ∈ perm) as Hin.
    { rewrite Hp. apply elem_of_seq. apply lookup_lt_Some in Hi. lia. }
    apply list_elem_of_lookup in Hin as [q Hq].
    pose proof (Forall2_lookup_lr _ _ _ _ _ _ H Hq Hq) as Hd. simpl in Hd.
    by rewrite (list_lookup_total_correct _ _ _ Hi), (list_lookup_total_correct _ _ _ Hx) in Hd.
  - intros H. apply Forall2_same_length_lookup_2; [done|]. intros q j i Hj Hi.
    rewrite Hj in Hi. injection Hi as <-.
    assert (j < n)%nat as Hlt.
    { apply list_elem_of_lookup_2 in Hj. rewrite Hp in Hj. apply elem_of_seq in Hj. lia. }
    destruct (lookup_lt_is_Some_2 es j) as [e Hej]; [lia|].
    destruct (lookup_lt_is_Some_2 c j) as [x Hx]; [lia|].
    rewrite (list_lookup_total_correct _ _ _ Hej), (list_lookup_total_correct _ _ _ Hx).
    exact (Forall2_lookup_lr _ _ _ _ _ _ H Hej Hx).
Qed.

(** ** Coordinates *)

Lemma coord_at_app a ax1 ax2 w1 w2 c1 c2 :
  length w1 = length ax1 -> length c1 = length ax1 ->
  coord_at a (ax1 ++ ax2) (w1 ++ w2) (c1 ++ c2) = coord_at a ax1 w1 c1 + coord_at a ax2 w2 c2.
Proof.
  revert w1 c1. induction ax1 as [|k ax1 IH]; intros [|w w1] [|c c1] H1 H2; try done.
  simpl in *. rewrite IH by lia. lia.
Qed.

Lemma coord_at_replicate a k w c :
  length w = length c ->
  coord_at a (replicate (length c) k) w c = if decide (k = a) then dot c w else 0.
Proof.
  revert w. induction c as [|x c IH]; intros [|v w] Hl; simpl in *; try done; [by case_decide|].
  rewrite IH by lia. case_decide; [by rewrite dot_cons|lia].
Qed.

Lemma coord_at_later a a0 gs w c : (a < a0)%nat -> coord_at a (group_axes a0 gs) w c = 0.
Proof.
  intros Ha. assert (Forall (fun k => k <> a) (group_axes a0 gs)) as H.
  { revert a0 Ha. induction gs as [|g gs IH]; intros a0 Ha; simpl; [constructor|].
    apply Forall_app. split; [|apply IH; lia]. apply Forall_replicate. lia. }
  revert w c. induction H as [|k axes Hk _ IH]; intros [|v w] [|x c]; try done.
  simpl. rewrite decide_False by done. by rewrite IH.
Qed.

(** By groups: each axis reads its own digits. *)
Lemma coords_groups a0 gs cs :
  Forall2 (fun g c => length c = length g) gs cs ->
  (fun a => coord_at a (group_axes a0 gs) (mjoin (weights <$> gs)) (mjoin cs)) <$> seq a0 (length gs) =
  zip_with (fun g c => dot c (weights g)) gs cs.
Proof.
  intros H. revert a0. induction H as [|g c gs cs Hl Hf IH]; intros a0; [done|].
  cbn [length seq group_axes zip_with]. rewrite !fmap_cons, !mjoin_cons. f_equal.
  - rewrite coord_at_app by (rewrite length_replicate, ?length_weights; lia).
    rewrite <-Hl, coord_at_replicate by (rewrite length_weights; lia).
    rewrite decide_True by done. rewrite coord_at_later by lia. lia.
  - rewrite <-(IH (S a0)). apply list_fmap_ext. intros i a Hi.
    apply list_elem_of_lookup_2, elem_of_seq in Hi.
    rewrite coord_at_app by (rewrite length_replicate, ?length_weights; lia).
    rewrite <-Hl, coord_at_replicate by (rewrite length_weights; lia).
    by rewrite decide_False by lia.
Qed.

Lemma coord_at_insert a axes within c i k w x y :
  axes !! i = Some k -> within !! i = Some w -> c !! i = Some x ->
  coord_at a axes within (<[i := y]> c) =
  coord_at a axes within c + (if decide (k = a) then (y - x) * w else 0).
Proof.
  revert within c i. induction axes as [|k' axes IH]; intros [|w' within] [|x' c] [|i] H1 H2 H3;
    simpl in *; try done; simplify_eq.
  - case_decide; lia.
  - erewrite IH by done. lia.
Qed.

Lemma coord_at_ext a axes within c c' :
  length c = length c' -> (forall i, axes !! i = Some a -> c !! i = c' !! i) ->
  coord_at a axes within c = coord_at a axes within c'.
Proof.
  revert within c c'. induction axes as [|k axes IH]; intros [|w within] [|x c] [|x' c'] Hl H; try done.
  simpl in *. f_equal.
  - case_decide; [subst|done]. specialize (H 0%nat eq_refl). simpl in H. congruence.
  - apply IH; [lia|]. intros i. apply (H (S i)).
Qed.

(** The offset of a coordinate is linear in the digits. *)
Lemma dot_indicator W a0 k x (f : nat -> Z) :
  (a0 <= k < a0 + length W)%nat ->
  dot ((fun a => (if decide (k = a) then x else 0) + f a) <$> seq a0 (length W)) W =
  x * default 0 (W !! (k - a0)%nat) + dot (f <$> seq a0 (length W)) W.
Proof.
  revert a0. induction W as [|w W IH]; intros a0 Hk; [simpl in *; lia|].
  cbn [length seq]. rewrite !fmap_cons, !dot_cons. destruct (decide (k = a0)) as [->|Hne].
  - rewrite Nat.sub_diag. simpl.
    rewrite (list_fmap_ext _ f (seq (S a0) (length W))); [lia|].
    intros i a Hi. apply list_elem_of_lookup_2, elem_of_seq in Hi. rewrite decide_False by lia. lia.
  - simpl in Hk. rewrite IH by lia. replace (k - a0)%nat with (S (k - S a0)) by lia. simpl. lia.
Qed.

Lemma dot_coords W axes within c :
  Forall (fun k => (k < length W)%nat) axes -> length within = length axes ->
  length c = length axes ->
  dot ((fun a => coord_at a axes within c) <$> seq 0 (length W)) W =
  dot c (zip_with (fun w axis => w * default 0 (W !! axis)) within axes).
Proof.
  intros Hf. revert within c. induction Hf as [|k axes Hk Hf IH]; intros [|w within] [|x c] H1 H2; try done.
  - simpl. clear. assert (forall a0, dot ((fun _ => 0) <$> seq a0 (length W)) W = 0) as H; [|apply H].
    induction W as [|v W IH]; intros a0; [done|]. simpl. rewrite dot_cons, IH. lia.
  - simpl in H1, H2. cbn [coord_at zip_with]. rewrite dot_indicator by lia.
    rewrite dot_cons, IH by lia. rewrite Nat.sub_0_r. lia.
Qed.

(** ** A well-formed plan *)

Section plan.
Context (p : layout_plan) (gs : list (list Z)) (Hwf : plan_wf p gs).

Abbreviation n := (length (mjoin gs)).
Abbreviation perm := (lp_permutation p).
Abbreviation es := (lp_extents p).
Abbreviation rank := (length (lp_shape p)).

Lemma length_es : length es = n.
Proof. by rewrite (pw_extents _ _ Hwf). Qed.
Lemma length_axes : length (lp_axes p) = n.
Proof. by rewrite (pw_axes _ _ Hwf), length_group_axes. Qed.
Lemma length_within : length (lp_within p) = n.
Proof. by rewrite (pw_within _ _ Hwf), length_mjoin_weights. Qed.
Lemma length_src : length (lp_src_stride p) = n.
Proof.
  rewrite (pw_src _ _ Hwf). unfold src_strides.
  rewrite length_zip_with, length_within, length_axes. lia.
Qed.
Lemma length_gs : length gs = rank.
Proof. symmetry. eapply Forall2_length, (pw_fit _ _ Hwf). Qed.
Lemma perm_NoDup : NoDup perm.
Proof. rewrite (pw_perm _ _ Hwf). apply NoDup_seq. Qed.
Lemma perm_lt i : i ∈ perm -> (i < n)%nat.
Proof. rewrite (pw_perm _ _ Hwf), elem_of_seq. lia. Qed.
Lemma length_perm : length perm = n.
Proof. by rewrite (pw_perm _ _ Hwf), length_seq. Qed.
Lemma es_positive : positive es.
Proof. rewrite (pw_extents _ _ Hwf). apply (pw_pos _ _ Hwf). Qed.
Lemma shape_positive : positive (lp_shape p).
Proof.
  eapply Forall2_Forall_l; [apply (pw_fit _ _ Hwf)|]. apply Forall_true. simpl. lia.
Qed.
Lemma pick_seq l : length l = n -> pick l perm ≡ₚ l.
Proof.
  intros Hl. unfold pick. rewrite (pw_perm _ _ Hwf), <-Hl. apply reflexive_eq.
  apply list_eq. intros i. rewrite list_lookup_fmap.
  destruct (decide (i < length l)%nat) as [Hi|Hi].
  - rewrite lookup_seq_lt by done. simpl. symmetry. by apply list_lookup_lookup_total_lt.
  - rewrite lookup_seq_ge, lookup_ge_None_2 by lia. done.
Qed.
Lemma storage_positive : positive (storage p).
Proof. unfold storage, positive. rewrite pick_seq by apply length_es. apply es_positive. Qed.
Lemma storage_prod : prodZ (storage p) = prodZ (mjoin gs).
Proof.
  unfold storage. rewrite (prodZ_perm _ _ (pick_seq es length_es)). by rewrite (pw_extents _ _ Hwf).
Qed.
Lemma shape_prod : prodZ (lp_shape p) <= prodZ (mjoin gs).
Proof. apply fit_le, (pw_fit _ _ Hwf). Qed.

Lemma lookup_at i : (i < n)%nat -> exists k e w,
  lp_axes p !! i = Some k /\ es !! i = Some e /\ lp_within p !! i = Some w /\ (k < rank)%nat /\ 0 < e.
Proof.
  intros Hi. destruct (lookup_lt_is_Some_2 (lp_axes p) i) as [k Hk]; [by rewrite length_axes|].
  pose proof Hk as Hk'. rewrite (pw_axes _ _ Hwf) in Hk.
  apply group_lookup in Hk as (g & j & e & w & _ & Hg & _ & _ & He & Hw).
  rewrite <-(pw_extents _ _ Hwf) in He. rewrite <-(pw_within _ _ Hwf) in Hw.
  exists k, e, w. split_and!; [done..| |].
  - rewrite Nat.sub_0_r in Hg. apply lookup_lt_Some in Hg. by rewrite <-length_gs.
  - by eapply (Forall_lookup_1 _ _ _ _ es_positive) in He.
Qed.

Lemma axes_lt : Forall (fun k => (k < rank)%nat) (lp_axes p).
Proof.
  apply Forall_lookup. intros i k Hk. pose proof (lookup_lt_Some _ _ _ Hk) as Hi.
  rewrite length_axes in Hi. destruct (lookup_at i Hi) as (k' & _ & _ & Hk' & _ & _ & Hlt & _). congruence.
Qed.

Lemma coords_split c : digits_ok es c ->
  exists cs, c = mjoin cs /\ Forall2 digits_ok gs cs /\
    coords p c = zip_with (fun g c => dot c (weights g)) gs cs.
Proof.
  intros Hd. rewrite (pw_extents _ _ Hwf) in Hd.
  assert (exists cs, c = mjoin cs /\ Forall2 digits_ok gs cs) as (cs & -> & Hcs).
  { clear -Hd. revert c Hd. induction gs as [|g gs' IH]; intros c Hd.
    - apply Forall2_nil_inv_l in Hd as ->. by exists [].
    - rewrite mjoin_cons in Hd. apply Forall2_app_inv_l in Hd as (c1 & c2 & H1 & H2 & ->).
      destruct (IH c2 H2) as (cs & -> & Hcs). exists (c1 :: cs). split; [done|by constructor]. }
  exists cs. split_and!; [done..|]. unfold coords.
  rewrite (pw_axes _ _ Hwf), (pw_within _ _ Hwf), <-length_gs. apply coords_groups.
  eapply Forall2_impl; [exact Hcs|]. intros g c Hgc. symmetry. by eapply Forall2_length.
Qed.

Lemma coords_bound c : digits_ok es c -> Forall2 (fun g x => 0 <= x < prodZ g) gs (coords p c).
Proof.
  intros Hd. destruct (coords_split c Hd) as (cs & _ & Hcs & ->).
  pose proof (proj1 (positive_mjoin gs) (pw_pos _ _ Hwf)) as Hp.
  clear -Hp Hcs. induction Hcs as [|g c' gs' cs Hgc Hcs IH]; simpl; [constructor|].
  apply Forall_cons in Hp as [Hg Hp]. constructor; [by apply dot_bound|by apply IH].
Qed.

Lemma coords_u64 c k x : digits_ok es c -> coords p c !! k = Some x -> 0 <= x < U64.
Proof.
  intros Hd Hx. pose proof (coords_bound c Hd) as Hb.
  destruct (Forall2_lookup_r _ _ _ _ _ Hb Hx) as (g & Hg & Hgx).
  pose proof (prodZ_group gs k g (pw_pos _ _ Hwf) Hg). pose proof (pw_fits _ _ Hwf). lia.
Qed.

(** Writing one digit moves one coordinate. *)
Lemma coords_insert c i k w x y :
  length c = n -> lp_axes p !! i = Some k -> lp_within p !! i = Some w -> c !! i = Some x ->
  coords p (<[i := y]> c) = <[k := (coords p c !!! k) + (y - x) * w]> (coords p c).
Proof.
  intros Hl Hk Hw Hx. unfold coords. pose proof (Forall_lookup_1 _ _ _ _ axes_lt Hk) as Hlt.
  apply list_eq. intros a. rewrite list_lookup_fmap.
  destruct (decide (k = a)) as [->|Hne].
  - rewrite list_lookup_insert_eq by (by rewrite length_fmap, length_seq).
    rewrite (list_lookup_total_correct _ a (coord_at a (lp_axes p) (lp_within p) c))
      by (by rewrite list_lookup_fmap, lookup_seq_lt).
    rewrite lookup_seq_lt by done. simpl. f_equal. erewrite coord_at_insert by done.
    by rewrite decide_True.
  - rewrite list_lookup_insert_ne, list_lookup_fmap by done.
    destruct (seq 0 rank !! a) as [a'|] eqn:Ea; [|done]. apply lookup_seq in Ea as [-> Ha].
    simpl. f_equal. erewrite coord_at_insert by done. rewrite decide_False by done. lia.
Qed.

Lemma extent_u64 i e : es !! i = Some e -> 0 < e < U64.
Proof.
  intros He. pose proof es_positive as Hp. pose proof (pw_fits _ _ Hwf) as Hlt.
  rewrite <-(pw_extents _ _ Hwf) in Hlt. rewrite <-(take_drop_middle es i e He) in Hp, Hlt.
  change (e :: drop (S i) es) with ([e] ++ drop (S i) es) in Hp, Hlt.
  pose proof (prodZ_sublist _ _ _ Hp). apply positive_app in Hp as [_ Hp].
  apply positive_app in Hp as [Hp _]. apply Forall_cons in Hp as [Hp _].
  change (prodZ [e]) with (e * 1) in *. lia.
Qed.

(** ** The odometer counts *)

Lemma wrap_back x w k : 0 <= x + w - k * w < U64 -> wsub (wadd x w) (wmul k w) = x + w - k * w.
Proof.
  intros H. unfold wsub, wadd, wmul. rewrite <-Zminus_mod. by apply Z.mod_small.
Qed.

Lemma digits_ok_insert c i e y :
  digits_ok es c -> es !! i = Some e -> 0 <= y < e -> digits_ok es (<[i := y]> c).
Proof.
  intros Hd He Hy. rewrite <-(list_insert_id es i e He). by apply Forall2_insert.
Qed.

Lemma pick_snoc c pre i : pick c (pre ++ [i]) = pick c pre ++ [c !!! i].
Proof. by rewrite pick_app. Qed.

Lemma pick_positive l : (forall i, i ∈ l -> (i < n)%nat) -> positive (pick es l).
Proof.
  intros Hl. apply Forall_forall. intros e He. apply list_elem_of_fmap in He as (i & -> & Hi).
  destruct (lookup_at i (Hl i Hi)) as (_ & e & _ & _ & He & _ & _ & Hp).
  by rewrite (list_lookup_total_correct _ _ _ He).
Qed.

Lemma odometer_step pre post i k e w x X c :
  perm = pre ++ i :: post -> c !! i = Some x -> lp_axes p !! i = Some k ->
  lp_within p !! i = Some w -> es !! i = Some e -> coords p c !! k = Some X ->
  0 <= x < e -> e < U64 ->
  odometer p (length (pre ++ [i])) c (coords p c) =
  if x + 1 <? e then Some (<[i := x + 1]> c, <[k := wadd X w]> (coords p c))
  else odometer p (length pre) (<[i := 0]> c)
         (<[k := wsub (wadd X w) (wmul (x + 1) w)]> (coords p c)).
Proof.
  intros Hperm Hx Hk Hw He HX Hxe Heu. rewrite length_app, Nat.add_comm.
  cbn [length Nat.add odometer]. rewrite Hperm, list_lookup_middle by done.
  rewrite Hx, Hk, Hw, HX, He. by rewrite (wadd_small x 1) by lia.
Qed.

Lemma odometer_ok pre post c v :
  perm = pre ++ post -> length c = n -> digits_ok es c -> pick c pre = digits (pick es pre) v ->
  exists c', odometer p (length pre) c (coords p c) = Some (c', coords p c') /\ length c' = n /\
    digits_ok es c' /\ pick c' pre = digits (pick es pre) (v + 1) /\ pick c' post = pick c post.
Proof.
  revert post c v. induction pre as [|i pre IH] using rev_ind; intros post c v Hperm Hl Hd Hv.
  { by exists c. }
  rewrite <-app_assoc in Hperm. cbn [app] in Hperm.
  assert (forall j, j ∈ pre ++ i :: post -> (j < n)%nat) as Hin.
  { intros j. rewrite <-Hperm. apply perm_lt. }
  pose proof perm_NoDup as Hnd. rewrite Hperm in Hnd.
  apply NoDup_app in Hnd as (_ & Hdis & Hnd). apply NoDup_cons in Hnd as [Hip _].
  assert (i ∉ pre) as Hipre by set_solver.
  destruct (lookup_at i (Hin i ltac:(set_solver))) as (k & e & w & Hk & He & Hw & Hkr & Hep).
  destruct (Forall2_lookup_l _ _ _ _ _ Hd He) as (x & Hx & Hxe).
  pose proof (extent_u64 i e He) as Heu. pose proof (pick_positive pre ltac:(set_solver)) as Hpp.
  rewrite !pick_snoc, (list_lookup_total_correct _ _ _ He), (list_lookup_total_correct _ _ _ Hx),
    digits_snoc in Hv by done.
  apply app_inj_tail in Hv as [Hv Hxv].
  destruct (lookup_lt_is_Some_2 (coords p c) k) as [X HX].
  { unfold coords. by rewrite length_fmap, length_seq. }
  rewrite (odometer_step pre post i k e w x X c) by (done || lia).
  pose proof (coords_insert c i k w x) as Hins. rewrite (list_lookup_total_correct _ _ _ HX) in Hins.
  pose proof (fun y => coords_u64 (<[i := y]> c) k (X + (y - x) * w)) as Hu.
  rewrite !pick_snoc, (list_lookup_total_correct _ _ _ He), digits_succ by done. rewrite <-Hxv.
  assert (forall y, 0 <= y < e -> 0 <= X + (y - x) * w < U64) as Hyu.
  { intros y Hy. apply (Hu y); [by eapply digits_ok_insert|]. rewrite Hins by done.
    apply list_lookup_insert_eq. by eapply lookup_lt_Some. }
  destruct (Z.ltb_spec (x + 1) e) as [Hlt|Hge].
  - exists (<[i := x + 1]> c). rewrite Hins, wadd_small by (done || specialize (Hyu (x + 1)); lia).
    replace (X + (x + 1 - x) * w) with (X + w) by lia. rewrite length_insert.
    rewrite pick_snoc, (pick_insert_ne c pre), (pick_insert_ne c post) by assumption.
    rewrite list_lookup_total_insert_eq by (by eapply lookup_lt_Some).
    rewrite Hv. split_and!; try done.
    apply (digits_ok_insert c i e); (done || lia).
  - rewrite wrap_back by (specialize (Hyu 0); nia).
    replace (X + w - (x + 1) * w) with (X + (0 - x) * w) by lia. rewrite <-Hins by done.
    destruct (IH (i :: post) (<[i := 0]> c) (v / e)) as (c' & -> & Hl' & Hd' & Hpre & Hpost);
      [done|by rewrite length_insert|by eapply digits_ok_insert|by rewrite pick_insert_ne|].
    exists c'. unfold pick in Hpost. rewrite !fmap_cons in Hpost. injection Hpost as Hi Hpost.
    rewrite list_lookup_total_insert_eq in Hi by (by eapply lookup_lt_Some).
    split_and!; try done.
    + by rewrite pick_snoc, Hpre, Hi.
    + fold (pick c' post) in Hpost. fold (pick (<[i:=0]> c) post) in Hpost.
      by rewrite Hpost, pick_insert_ne.
Qed.

(** ** The source element of a coordinate *)

Lemma source_at_spec xs shape ws off :
  length xs = length shape -> length ws = length shape -> 0 <= off < U64 ->
  source_at xs shape ws off =
  if inside xs shape then Some ((off + dot xs ws) mod U64) else None.
Proof.
  revert shape ws off. induction xs as [|x xs IH]; intros [|d shape] [|w ws] off H1 H2 Ho; try done.
  - simpl. unfold dot. simpl. by rewrite Z.add_0_r, Z.mod_small.
  - simpl in *. rewrite Z.ltb_antisym. destruct (d <=? x); simpl; [done|].
    rewrite IH; [|lia..|apply Z.mod_pos_bound; unfold U64; lia].
    destruct (inside xs shape); [|done]. f_equal. rewrite dot_cons. unfold wadd, wmul.
    rewrite Zplus_mod_idemp_r, Zplus_mod_idemp_l. f_equal. lia.
Qed.

Definition source_c (c : list Z) : option Z :=
  if inside (coords p c) (lp_shape p) then Some (dot (coords p c) (weights (lp_shape p))) else None.

Lemma length_coords c : length (coords p c) = rank.
Proof. unfold coords. by rewrite length_fmap, length_seq. Qed.

Lemma inside_digits xs shape :
  length xs = length shape -> Forall (fun x => 0 <= x) xs ->
  inside xs shape = true <-> digits_ok shape xs.
Proof.
  revert shape. induction xs as [|x xs IH]; intros [|d shape] Hl Hp; try done; simpl.
  - split; [constructor|done].
  - apply Forall_cons in Hp as [Hx Hp]. simpl in Hl. unfold digits_ok.
    rewrite andb_true_iff, Forall2_cons, Z.ltb_lt, IH by (done || lia). intuition lia.
Qed.

Lemma coords_nonneg c : digits_ok es c -> Forall (fun x => 0 <= x) (coords p c).
Proof.
  intros Hd. eapply Forall2_Forall_r; [by apply coords_bound|]. apply Forall_true. simpl. lia.
Qed.

Lemma source_c_bound c x : digits_ok es c -> source_c c = Some x -> 0 <= x < prodZ (lp_shape p).
Proof.
  unfold source_c. intros Hd. destruct (inside _ _) eqn:Ei; [|done]. intros [= <-].
  apply dot_bound; [apply shape_positive|].
  apply inside_digits; [apply length_coords|by apply coords_nonneg|done].
Qed.

Lemma source_at_c c : digits_ok es c ->
  source_at (coords p c) (lp_shape p) (lp_logical_stride p) 0 = source_c c.
Proof.
  intros Hd. rewrite (pw_stride _ _ Hwf), source_at_spec;
    [|apply length_coords|apply length_weights|unfold U64; lia].
  unfold source_c. destruct (inside _ _) eqn:Ei; [|done]. f_equal. apply Z.mod_small.
  pose proof (source_c_bound c (dot (coords p c) (weights (lp_shape p))) Hd) as Hb.
  unfold source_c in Hb. rewrite Ei in Hb. pose proof shape_prod. pose proof (pw_fits _ _ Hwf).
  specialize (Hb eq_refl). simpl. lia.
Qed.

(** ** The fold *)

Record folded (outer : nat) (run : Z) : Prop := {
  fo_outer : (outer <= n)%nat;
  fo_run : run = prodZ (pick es (drop outer perm));
  fo_src : pick (lp_src_stride p) (drop outer perm) = weights (pick es (drop outer perm));
  fo_plain : Forall (fun i => exists k, lp_axes p !! i = Some k /\
    lp_padded_axis p !! k = Some false) (drop outer perm)
}.

Lemma pick_split k l : pick l perm = pick l (take k perm) ++ pick l (drop k perm).
Proof. by rewrite <-pick_app, take_drop. Qed.

Lemma perm_split k : storage p = pick es (take k perm) ++ pick es (drop k perm).
Proof. apply pick_split. Qed.

Lemma part_positive k : positive (pick es (take k perm)) /\ positive (pick es (drop k perm)).
Proof. apply positive_app. rewrite <-perm_split. apply storage_positive. Qed.

Lemma fold_ok k run : folded k run ->
  exists run' k', fold_positions p k run = Some (run', k') /\ folded k' run'.
Proof.
  revert run. induction k as [|k IH]; intros run Hf; [by exists run, 0%nat|].
  pose proof (fo_outer _ _ Hf) as Hk. cbn [fold_positions].
  destruct (lookup_lt_is_Some_2 perm k) as [i Hi]; [rewrite length_perm; lia|].
  assert (i < n)%nat as Hin by (by eapply perm_lt, list_elem_of_lookup_2).
  destruct (lookup_at i Hin) as (a & e & w & Ha & He & Hw & Har & Hep).
  destruct (lookup_lt_is_Some_2 (lp_padded_axis p) a) as [pd Hpd].
  { rewrite (pw_padded _ _ Hwf), length_zip_with, length_gs. lia. }
  destruct (lookup_lt_is_Some_2 (lp_src_stride p) i) as [st Hst]; [by rewrite length_src|].
  rewrite Hi, Ha, Hpd, Hst, He.
  destruct (pd || negb (st =? run)) eqn:Eb; [by exists run, (S k)|].
  apply orb_false_iff in Eb as [-> Est]. apply negb_false_iff, Z.eqb_eq in Est. subst st.
  assert (drop k perm = i :: drop (S k) perm) as Hdrop by (by apply drop_S).
  destruct Hf as [_ Hrun Hsrc Hplain].
  assert (wmul run e = prodZ (pick es (drop k perm))) as Hm.
  { rewrite Hdrop. unfold pick. rewrite fmap_cons, prodZ_cons, (list_lookup_total_correct _ _ _ He).
    fold (pick es (drop (S k) perm)). rewrite <-Hrun. rewrite wmul_small; [lia|].
    destruct (part_positive k) as [H1%prodZ_pos H2]. pose proof (pw_fits _ _ Hwf) as Hlt.
    rewrite <-storage_prod, (perm_split k), prodZ_app, Hdrop in Hlt. rewrite Hdrop in H2.
    unfold pick in Hlt, H2. rewrite fmap_cons, (list_lookup_total_correct _ _ _ He) in Hlt, H2.
    rewrite prodZ_cons in Hlt. fold (pick es (drop (S k) perm)) in Hlt, H2.
    apply Forall_cons in H2 as [_ H2%prodZ_pos]. rewrite <-Hrun in Hlt, H2.
    fold (pick es (take k perm)) in Hlt. nia. }
  rewrite Hm. apply IH. split; [lia|done| |].
  - rewrite Hdrop. unfold pick in *. rewrite !fmap_cons. simpl.
    by rewrite (list_lookup_total_correct _ _ _ Hst), Hsrc, Hrun.
  - rewrite Hdrop. constructor; [by eauto|done].
Qed.

(** ** The walk, run by run *)

Lemma counters_ok d : length (counters_of p d) = n /\
  pick (counters_of p d) perm = digits (storage p) d /\ digits_ok es (counters_of p d).
Proof.
  unfold counters_of. rewrite length_es.
  destruct (scatter_ok n perm (digits (storage p) d) perm_NoDup perm_lt) as [Hl Hp].
  { rewrite length_digits. unfold storage, pick. by rewrite length_fmap. }
  split_and!; [done..|].
  apply (digits_ok_pick n perm); [apply (pw_perm _ _ Hwf)|apply length_es|done|].
  rewrite Hp. apply digits_valid, storage_positive.
Qed.

Lemma counters_eq c d : length c = n -> pick c perm = digits (storage p) d -> counters_of p d = c.
Proof.
  intros Hl Hp. destruct (counters_ok d) as (Hl' & Hp' & _).
  apply (pick_inj n perm); [apply (pw_perm _ _ Hwf)|done..|congruence].
Qed.

Lemma source_of_c c d :
  length c = n -> pick c perm = digits (storage p) d -> source_of p d = source_c c.
Proof. intros Hl Hp. unfold source_of. by rewrite (counters_eq c d). Qed.

Section runs.
Context (outer : nat) (run : Z) (Hf : folded outer run).

Abbreviation pre := (take outer perm).
Abbreviation post := (drop outer perm).

Lemma run_pos : 0 < run.
Proof. rewrite (fo_run _ _ Hf). apply prodZ_pos, part_positive. Qed.

Lemma digits_split v k : 0 <= k < run ->
  digits (storage p) (v * run + k) = digits (pick es pre) v ++ digits (pick es post) k.
Proof.
  intros Hk. destruct (part_positive outer) as [Hp1 Hp2]. rewrite (fo_run _ _ Hf) in *.
  rewrite (perm_split outer), digits_app, digits_add by done. f_equal. f_equal.
  rewrite Z.div_add_l, Z.div_small by lia. lia.
Qed.

Definition run_at (v : Z) : layout_run := LayoutRun (wmul v run) (source_of p (v * run)) run.

Lemma walk_ok r v c :
  length c = n -> digits_ok es c -> pick c pre = digits (pick es pre) v ->
  pick c post = digits (pick es post) 0 ->
  walk p run outer r v c (coords p c) = Some (run_at <$> seqZ v (Z.of_nat r)).
Proof.
  revert v c. induction r as [|r IH]; intros v c Hl Hd Hpre Hpost; [done|].
  assert (length pre = outer) as Hlen.
  { rewrite length_take, length_perm. pose proof (fo_outer _ _ Hf). lia. }
  destruct (odometer_ok pre post c v) as (c' & Hodo & Hl' & Hd' & Hpre' & Hpost');
    [by rewrite take_drop|done..|]. rewrite Hlen in Hodo.
  cbn [walk]. rewrite source_at_c by done. rewrite Hodo, (IH (v + 1) c') by congruence.
  rewrite (seqZ_cons v) by lia. replace (Z.pred (Z.of_nat (S r))) with (Z.of_nat r) by lia.
  replace (Z.succ v) with (v + 1) by lia.
  rewrite fmap_cons. unfold run_at at 2. do 3 f_equal.
  symmetry. apply source_of_c; [done|].
  pose proof run_pos. rewrite <-(Z.add_0_r (v * run)), digits_split by lia.
  by rewrite (pick_split outer), Hpre, Hpost.
Qed.
End runs.

Lemma coords_zero : coords p (replicate n 0) = replicate rank 0.
Proof.
  unfold coords. apply list_eq. intros a. rewrite list_lookup_fmap.
  destruct (decide (a < rank)%nat) as [Ha|Ha].
  - rewrite lookup_seq_lt, lookup_replicate_2 by done. simpl. f_equal. generalize n.
    generalize (lp_within p). induction (lp_axes p) as [|k axes IH]; intros [|w ws] [|m]; try done.
    simpl. rewrite IH. by case_decide.
  - rewrite lookup_seq_ge, lookup_ge_None_2 by (rewrite ?length_replicate; lia). done.
Qed.

Lemma take_lt k i : i ∈ take k perm -> (i < n)%nat.
Proof. intros Hi. apply perm_lt. rewrite <-(take_drop k perm). set_solver. Qed.
Lemma drop_lt k i : i ∈ drop k perm -> (i < n)%nat.
Proof. intros Hi. apply perm_lt. rewrite <-(take_drop k perm). set_solver. Qed.

Lemma pick_zero l : (forall i, i ∈ l -> (i < n)%nat) -> pick (replicate n 0) l = replicate (length l) 0.
Proof.
  intros Hl. unfold pick. induction l as [|i l IH]; [done|]. rewrite fmap_cons. simpl.
  rewrite IH by set_solver. f_equal. apply lookup_total_replicate_2, Hl. set_solver.
Qed.

Lemma for_each_run_ok : exists outer run, folded outer run /\
  for_each_run p = Some (run_at run <$> seqZ 0 (prodZ (pick es (take outer perm)))).
Proof.
  destruct (fold_ok n 1) as (run & outer & Hfold & Hf).
  { split; [done|..]; rewrite drop_ge by (rewrite length_perm; lia); done. }
  exists outer, run. split; [done|]. unfold for_each_run. rewrite length_es, Hfold.
  destruct (part_positive outer) as [Hp1%prodZ_pos Hp2]. pose proof (run_pos _ _ Hf) as Hr.
  assert (lp_dest_elements p / Z.max run 1 = prodZ (pick es (take outer perm))) as ->.
  { rewrite (pw_dest _ _ Hwf), <-storage_prod, (perm_split outer), prodZ_app, <-(fo_run _ _ Hf).
    rewrite Z.max_l by lia. apply Z.div_mul. lia. }
  rewrite <-coords_zero, (walk_ok outer run Hf).
  - by rewrite Z2Nat.id by lia.
  - by rewrite length_replicate.
  - apply Forall2_same_length_lookup_2; [by rewrite length_replicate, length_es|].
    intros i e x He [-> _]%lookup_replicate. pose proof (extent_u64 i e He). lia.
  - rewrite pick_zero by apply take_lt. rewrite digits_zero by apply part_positive. unfold pick. by rewrite length_fmap.
  - rewrite pick_zero by apply drop_lt. rewrite digits_zero by apply part_positive. unfold pick. by rewrite length_fmap.
Qed.

(** ** The walk, element by element *)

Lemma inside_ext xs ys shape :
  length xs = length ys ->
  (forall a x y d, xs !! a = Some x -> ys !! a = Some y -> shape !! a = Some d -> (x <? d) = (y <? d)) ->
  inside xs shape = inside ys shape.
Proof.
  revert ys shape. induction xs as [|x xs IH]; intros [|y ys] [|d shape] Hl H; try done.
  simpl in *. f_equal; [by apply (H 0%nat)|]. apply IH; [lia|]. intros a. apply (H (S a)).
Qed.

Lemma pick_lookup c c' l i :
  length c = n -> length c' = n -> pick c l = pick c' l -> i ∈ l -> (i < n)%nat -> c !! i = c' !! i.
Proof.
  intros Hc Hc' H Hi Hlt. apply list_elem_of_lookup in Hi as [q Hq].
  apply (f_equal (fun l => l !! q)) in H. unfold pick in H. rewrite !list_lookup_fmap, Hq in H.
  injection H as H. rewrite !list_lookup_lookup_total_lt by lia. by rewrite H.
Qed.

(** A run lies inside the tensor or inside the padding. *)
Lemma inside_shift outer run c c0 :
  folded outer run -> length c = n -> length c0 = n -> digits_ok es c -> digits_ok es c0 ->
  pick c (take outer perm) = pick c0 (take outer perm) ->
  inside (coords p c) (lp_shape p) = inside (coords p c0) (lp_shape p).
Proof.
  intros Hf Hl Hl0 Hd Hd0 Hpre. apply inside_ext; [by rewrite !length_coords|].
  intros a x y d Hx Hy Hs.
  destruct (Forall2_lookup_r _ _ _ _ _ (coords_bound c Hd) Hx) as (g & Hg & Hxg).
  destruct (Forall2_lookup_r _ _ _ _ _ (coords_bound c0 Hd0) Hy) as (g' & Hg' & Hyg). simplify_eq.
  pose proof (Forall2_lookup_lr _ _ _ _ _ _ (pw_fit _ _ Hwf) Hs Hg) as Hfit. simpl in Hfit.
  assert (lp_padded_axis p !! a = Some (d <? prodZ g)) as Hpad.
  { by rewrite (pw_padded _ _ Hwf), lookup_zip_with, Hs, Hg. }
  destruct (Z.ltb_spec d (prodZ g)) as [Hlt|Hge]; [|lia].
  enough (x = y) by congruence. unfold coords in Hx, Hy.
  rewrite list_lookup_fmap in Hx, Hy.
  destruct (seq 0 rank !! a) as [a'|] eqn:Ea; [|done]. apply lookup_seq in Ea as [-> _].
  simpl in Hx, Hy. injection Hx as <-. injection Hy as <-. apply coord_at_ext; [lia|].
  intros i Hi. pose proof (lookup_lt_Some _ _ _ Hi) as Hin. rewrite length_axes in Hin.
  assert (i ∈ perm) as Hip by (rewrite (pw_perm _ _ Hwf); apply elem_of_seq; lia).
  rewrite <-(take_drop outer perm) in Hip. apply elem_of_app in Hip as [Hip|Hip].
  - by eapply pick_lookup.
  - pose proof (fo_plain _ _ Hf) as Hplain. rewrite Forall_forall in Hplain.
    destruct (Hplain i Hip) as (k & Hk & Hpk). congruence.
Qed.

(** Inside a run the source advances with the destination. *)
Lemma source_shift outer run v k :
  folded outer run -> 0 <= k < run ->
  source_of p (v * run + k) = (fun x => x + k) <$> source_of p (v * run).
Proof.
  intros Hf Hk. pose proof (run_pos _ _ Hf) as Hr.
  destruct (counters_ok (v * run + k)) as (Hl & Hp & Hd).
  destruct (counters_ok (v * run)) as (Hl0 & Hp0 & Hd0).
  rewrite (source_of_c _ _ Hl Hp), (source_of_c _ _ Hl0 Hp0).
  set (c := counters_of p (v * run + k)) in *. set (c0 := counters_of p (v * run)) in *.
  rewrite (digits_split outer run Hf) in Hp by done.
  rewrite <-(Z.add_0_r (v * run)), (digits_split outer run Hf) in Hp0 by lia.
  destruct (part_positive outer) as [Hp1 Hp2].
  rewrite (pick_split outer) in Hp, Hp0.
  apply app_inj_1 in Hp as [Hpre Hpost]; [|rewrite length_digits; unfold pick; by rewrite !length_fmap].
  apply app_inj_1 in Hp0 as [Hpre0 Hpost0]; [|rewrite length_digits; unfold pick; by rewrite !length_fmap].
  unfold source_c.
  assert (inside (coords p c) (lp_shape p) = inside (coords p c0) (lp_shape p)) as ->.
  { by apply (inside_shift outer run); [..|congruence]. }
  destruct (inside _ _); [|done]. simpl. f_equal.
  assert (forall c, length c = n -> dot (coords p c) (weights (lp_shape p)) =
    dot (pick c perm) (pick (lp_src_stride p) perm)) as Hlin.
  { intros c1 Hc1. rewrite (dot_pick n) by (apply (pw_perm _ _ Hwf) || done || apply length_src).
    rewrite (pw_src _ _ Hwf). unfold coords. rewrite <-(length_weights (lp_shape p)).
    apply dot_coords; [|by rewrite length_within, length_axes|by rewrite length_axes].
    rewrite length_weights. apply axes_lt. }
  rewrite !Hlin, !(pick_split outer) by done.
  rewrite !dot_app by (unfold pick; by rewrite !length_fmap).
  rewrite Hpre, Hpre0, Hpost, Hpost0, (fo_src _ _ Hf).
  rewrite !dot_digits; [lia|done|..]; rewrite ?(fo_run _ _ Hf) in Hk; try done.
  split; [lia|]. by apply prodZ_pos.
Qed.

Lemma source_of_bound d x : source_of p d = Some x -> 0 <= x < prodZ (lp_shape p).
Proof.
  destruct (counters_ok d) as (Hl & Hp & Hd). rewrite (source_of_c _ _ Hl Hp).
  by apply source_c_bound.
Qed.

Lemma seqZ_blocks a b : 0 <= a -> 0 <= b ->
  seqZ 0 (a * b) = seqZ 0 a ≫= fun v => (fun k => v * b + k) <$> seqZ 0 b.
Proof.
  intros Ha Hb. pattern a. apply natlike_ind; [done| |done]. clear a Ha. intros a Ha IH.
  replace (Z.succ a) with (a + 1) by lia. rewrite Z.mul_add_distr_r, Z.mul_1_l.
  rewrite !seqZ_app, bind_app, IH by lia. f_equal. change (seqZ (0 + a) 1) with [0 + a].
  rewrite bind_cons. simpl. rewrite app_nil_r.
  change (fun k => a * b + k) with (Z.add (a * b)). rewrite fmap_add_seqZ. f_equal. lia.
Qed.

Lemma fmap_bind {A B C} (f : B -> C) (g : A -> list B) (l : list A) :
  f <$> (l ≫= g) = l ≫= fun x => f <$> g x.
Proof. induction l as [|x l IH]; [done|]. by rewrite !bind_cons, fmap_app, IH. Qed.

Lemma for_each_element_ok :
  for_each_element p = Some ((fun d => (d, source_of p d)) <$> seqZ 0 (lp_dest_elements p)).
Proof.
  destruct for_each_run_ok as (outer & run & Hf & Hrun). unfold for_each_element. rewrite Hrun.
  simpl. f_equal. pose proof (run_pos _ _ Hf) as Hr.
  destruct (part_positive outer) as [Hp1%prodZ_pos _].
  assert (lp_dest_elements p = prodZ (pick es (take outer perm)) * run) as Hdest.
  { by rewrite (pw_dest _ _ Hwf), <-storage_prod, (perm_split outer), prodZ_app, <-(fo_run _ _ Hf). }
  pose proof (pw_fits _ _ Hwf) as Hlt. rewrite <-(pw_dest _ _ Hwf), Hdest in Hlt.
  pose proof shape_prod as Hsp. rewrite <-(pw_dest _ _ Hwf), Hdest in Hsp.
  rewrite Hdest, seqZ_blocks, fmap_bind, list_fmap_bind by lia.
  apply Forall_bind_ext, Forall_seqZ. intros v Hv. simpl. unfold expand, run_at. simpl.
  rewrite <-list_fmap_compose. apply list_fmap_ext. intros i k Hk.
  apply list_elem_of_lookup_2, elem_of_seqZ in Hk. simpl.
  rewrite (source_shift outer run) by (done || lia). rewrite wmul_small, wadd_small by nia.
  f_equal. destruct (source_of p (v * run)) as [x|] eqn:Ex; [|done]. simpl. f_equal.
  pose proof (source_of_bound (v * run + k) (x + k)) as Hb.
  rewrite (source_shift outer run), Ex in Hb by (done || lia). specialize (Hb eq_refl).
  apply wadd_small. apply source_of_bound in Ex. lia.
Qed.

(** ** Every source element, exactly once *)

(** The digits a coordinate has in its axis' groups. *)
Definition group_digits (xs : list Z) : list Z := mjoin (zip_with digits gs xs).

Lemma group_digits_ok xs :
  length xs = length gs ->
  digits_ok es (group_digits xs) /\ length (group_digits xs) = n.
Proof.
  rewrite (pw_extents _ _ Hwf). unfold group_digits.
  pose proof (proj1 (positive_mjoin gs) (pw_pos _ _ Hwf)) as Hp. clear -Hp.
  intros Hl. assert (digits_ok (mjoin gs) (mjoin (zip_with digits gs xs))) as H.
  { revert xs Hl. induction Hp as [|g gs' Hg Hp IH]; intros [|x xs] Hl; try done; [constructor|].
    cbn [zip_with]. rewrite !mjoin_cons. apply digits_ok_app; [by apply digits_valid|].
    apply IH. simpl in Hl. lia. }
  split; [done|]. symmetry. by eapply Forall2_length.
Qed.

Lemma coords_group_digits xs : Forall2 (fun g x => 0 <= x < prodZ g) gs xs ->
  coords p (group_digits xs) = xs.
Proof.
  intros Hx. unfold coords. rewrite (pw_axes _ _ Hwf), (pw_within _ _ Hwf), <-length_gs.
  unfold group_digits. pose proof (proj1 (positive_mjoin gs) (pw_pos _ _ Hwf)) as Hp.
  rewrite coords_groups.
  - clear -Hx Hp. induction Hx as [|g x gs' xs Hgx Hx IH]; [done|].
    apply Forall_cons in Hp as [Hg Hp]. simpl. rewrite dot_digits by done. by rewrite IH.
  - clear -Hx. induction Hx as [|g x gs' xs Hgx Hx IH]; constructor; [apply length_digits|done].
Qed.

Lemma group_digits_coords c : digits_ok es c -> group_digits (coords p c) = c.
Proof.
  intros Hd. destruct (coords_split c Hd) as (cs & -> & Hcs & ->). unfold group_digits.
  pose proof (proj1 (positive_mjoin gs) (pw_pos _ _ Hwf)) as Hp. clear -Hcs Hp.
  induction Hcs as [|g c gs' cs Hgc Hcs IH]; [done|]. apply Forall_cons in Hp as [Hg Hp].
  cbn [zip_with]. rewrite !mjoin_cons, digits_dot by done. by rewrite IH.
Qed.

Lemma source_exists x : 0 <= x < prodZ (lp_shape p) ->
  exists d, 0 <= d < lp_dest_elements p /\ source_of p d = Some x.
Proof.
  intros Hx. pose proof shape_positive as Hsp. set (xs := digits (lp_shape p) x).
  assert (length xs = length gs) as Hlx by (unfold xs; rewrite length_digits; by rewrite length_gs).
  assert (Forall2 (fun g y => 0 <= y < prodZ g) gs xs) as Hb.
  { pose proof (digits_valid _ x Hsp) as Hv. fold xs in Hv. pose proof (pw_fit _ _ Hwf) as Hfit.
    apply Forall2_same_length_lookup_2; [done|]. intros a g y Hg Hy.
    destruct (Forall2_lookup_r _ _ _ _ _ Hfit Hg) as (d & Hdd & Hdg).
    pose proof (Forall2_lookup_lr _ _ _ _ _ _ Hv Hdd Hy) as Hyd. simpl in *. lia. }
  destruct (group_digits_ok xs Hlx) as [Hd Hl].
  set (c := group_digits xs) in *. set (d := dot (pick c perm) (weights (storage p))).
  assert (digits_ok (storage p) (pick c perm)) as Hds.
  { unfold storage. apply (digits_ok_pick n); [apply (pw_perm _ _ Hwf)|apply length_es|done..]. }
  exists d. split.
  - rewrite (pw_dest _ _ Hwf), <-storage_prod. apply dot_bound; [apply storage_positive|done].
  - rewrite (source_of_c c d); [|done|by unfold d; rewrite digits_dot by (apply storage_positive || done)].
    unfold source_c, c. rewrite coords_group_digits by done.
    rewrite (proj2 (inside_digits xs (lp_shape p) ltac:(by rewrite Hlx, length_gs)
      ltac:(eapply Forall2_Forall_r; [exact Hb|]; apply Forall_true; simpl; lia))).
    + f_equal. by apply dot_digits.
    + by apply digits_valid.
Qed.

Lemma source_inj d d' x :
  0 <= d < lp_dest_elements p -> 0 <= d' < lp_dest_elements p ->
  source_of p d = Some x -> source_of p d' = Some x -> d = d'.
Proof.
  rewrite (pw_dest _ _ Hwf), <-storage_prod. intros Hd Hd' Hx Hx'.
  assert (forall e, source_of p e = Some x ->
    counters_of p e = group_digits (digits (lp_shape p) x)) as Hc.
  { intros e He. destruct (counters_ok e) as (Hl & Hp & Hok).
    rewrite (source_of_c _ _ Hl Hp) in He. unfold source_c in He.
    destruct (inside _ _) eqn:Ei; [|done]. injection He as <-.
    apply inside_digits in Ei; [|apply length_coords|by apply coords_nonneg].
    rewrite digits_dot by (apply shape_positive || done). by rewrite group_digits_coords. }
  pose proof (Hc d Hx) as H1. pose proof (Hc d' Hx') as H2.
  rewrite <-(dot_digits (storage p) d), <-(dot_digits (storage p) d') by
    (apply storage_positive || done).
  destruct (counters_ok d) as (_ & <- & _). destruct (counters_ok d') as (_ & <- & _). congruence.
Qed.

Lemma sources_once :
  omap (source_of p) (seqZ 0 (lp_dest_elements p)) ≡ₚ seqZ 0 (prodZ (lp_shape p)).
Proof.
  apply NoDup_Permutation.
  - assert (forall l, NoDup l -> (forall d, d ∈ l -> 0 <= d < lp_dest_elements p) ->
      NoDup (omap (source_of p) l)) as H.
    { induction l as [|d l IH]; intros Hnd Hl; simpl; [constructor|].
      apply NoDup_cons in Hnd as [Hd Hnd]. specialize (IH Hnd ltac:(set_solver)).
      destruct (source_of p d) as [x|] eqn:Ex; [|done]. constructor; [|done].
      intros (d' & Hd' & Hx')%list_elem_of_omap. apply Hd.
      by rewrite (source_inj d d' x) by (done || apply Hl; set_solver). }
    apply H; [apply NoDup_seqZ|]. intros d Hd%elem_of_seqZ. lia.
  - apply NoDup_seqZ.
  - intros x. rewrite list_elem_of_omap, elem_of_seqZ. split.
    + intros (d & _ & Hx%source_of_bound). lia.
    + intros Hx. destruct (source_exists x ltac:(lia)) as (d & Hd & Hdx). exists d.
      rewrite elem_of_seqZ. split; [lia|done].
Qed.
End plan.
