(* ===== verification/MorphismMove.v ===== *)
(** The mover of a layout plan ([Plan::apply], [Plan::apply_inverse]): what the
    destination holds after [apply], and that [apply_inverse] returns the source. *)
From S2P Require Import Prelude Bytes MixedRadix Formula Morphism MorphismPlan MorphismWalk.

(** Element [x] of a buffer of [el]-byte elements. *)
Definition element_at (buffer : list byte) (el x : Z) : list byte :=
  slice buffer (x * el) (x * el + el).

(** What destination element [d] must hold. *)
Definition moved (p : layout_plan) (source : list byte) (el d : Z) : list byte :=
  match source_of p d with
  | Some x => element_at source el x
  | None => replicate (Z.to_nat el) (byte_of 0)
  end.

(** The arranged buffer. *)
Definition arranged (p : layout_plan) (source : list byte) (el : Z) : list byte :=
  seqZ 0 (lp_dest_elements p) ≫= moved p source el.

Lemma seqZ_one m : seqZ m 1 = [m].
Proof. rewrite seqZ_cons by lia. by rewrite seqZ_nil. Qed.

Lemma slice_elements buffer el x r :
  0 <= el -> 0 <= x -> 0 <= r -> (x + r) * el <= zlen buffer ->
  slice buffer (x * el) ((x + r) * el) = seqZ x r ≫= element_at buffer el.
Proof.
  intros Hel Hx Hr. pattern r. apply natlike_ind; [..|done]; clear r Hr.
  - intros _. by rewrite Z.add_0_r, slice_nil.
  - intros r Hr IH Hle. replace (Z.succ r) with (r + 1) in * by lia.
    rewrite seqZ_app, bind_app, <-IH by nia. rewrite seqZ_one.
    rewrite bind_cons. simpl. rewrite app_nil_r. unfold element_at.
    replace ((x + (r + 1)) * el) with ((x + r) * el + el) in * by lia.
    by rewrite slice_join by nia.
Qed.

Lemma zlen_blocks {A} (f : Z -> list A) el x r :
  0 <= r -> (forall y, x <= y < x + r -> zlen (f y) = el) -> zlen (seqZ x r ≫= f) = r * el.
Proof.
  intros Hr. pattern r. apply natlike_ind; [..|done]; clear r Hr; [done|].
  intros r Hr IH Hf. replace (Z.succ r) with (r + 1) in * by lia.
  rewrite seqZ_app, bind_app, zlen_app, IH by (lia || intros; apply Hf; lia).
  rewrite seqZ_one, bind_cons. simpl. rewrite app_nil_r.
  rewrite Hf by lia. lia.
Qed.

Lemma splice_append (a b bytes c : list byte) :
  zlen bytes = zlen b -> splice (a ++ b ++ c) (zlen a) bytes = Some (a ++ bytes ++ c).
Proof.
  intros Hl. unfold splice. autorewrite with zlen. pose proof (zlen_nonneg c).
  replace (_ <=? _) with true by lia. f_equal. unfold zlen in *. f_equal; [|f_equal].
  - by rewrite Nat2Z.id, take_app_length.
  - rewrite Hl. rewrite app_assoc. apply drop_app_length'. rewrite length_app. lia.
Qed.

Section move.
Context (p : layout_plan) (gs : list (list Z)) (Hwf : plan_wf p gs).
Context (outer : nat) (run : Z) (Hf : folded p gs outer run).
Context (el : Z) (Hel : 0 <= el) (Hfit : lp_dest_elements p * el < U64).

Abbreviation runs := (prodZ (pick (lp_extents p) (take outer (lp_permutation p)))).
Abbreviation total := (lp_dest_elements p).
Abbreviation elements := (lp_source_elements p).

Lemma total_runs : total = runs * run.
Proof.
  by rewrite (pw_dest _ _ Hwf), <-(storage_prod _ _ Hwf), (perm_split p outer), prodZ_app,
    <-(fo_run _ _ _ _ Hf).
Qed.
Lemma runs_pos : 0 < runs.
Proof. apply prodZ_pos, (part_positive _ _ Hwf). Qed.
Lemma elements_le : 0 < elements <= total.
Proof.
  rewrite (pw_source _ _ Hwf), (pw_dest _ _ Hwf). split; [|apply (shape_prod _ _ Hwf)].
  apply prodZ_pos, (shape_positive _ _ Hwf).
Qed.

(** The source of a whole run. *)
Lemma run_source v x :
  source_of p (v * run) = Some x -> 0 <= x /\ x + run <= elements.
Proof.
  intros Hx. pose proof (run_pos _ _ Hwf _ _ Hf). rewrite (pw_source _ _ Hwf).
  pose proof (source_of_bound _ _ Hwf _ _ Hx).
  pose proof (source_of_bound _ _ Hwf (v * run + (run - 1)) (x + (run - 1))) as Hb.
  rewrite (source_shift _ _ Hwf outer run), Hx in Hb by (done || lia). specialize (Hb eq_refl). lia.
Qed.

(** What a run moves: the source slice, or zeros. *)
Lemma run_bytes source v : zlen source = elements * el ->
  match source_of p (v * run) with
  | Some x => slice source (x * el) ((x + run) * el)
  | None => replicate (Z.to_nat (run * el)) (byte_of 0)
  end = seqZ (v * run) run ≫= moved p source el.
Proof.
  intros Hs. pose proof (run_pos _ _ Hwf _ _ Hf) as Hr.
  assert (forall f : Z -> list byte, (forall k, 0 <= k < run -> moved p source el (v * run + k) = f k) ->
    seqZ (v * run) run ≫= moved p source el = seqZ 0 run ≫= f) as Hshift.
  { intros f Hk. replace (v * run) with (v * run + 0) by lia.
    rewrite <-fmap_add_seqZ, list_fmap_bind. apply Forall_bind_ext, Forall_seqZ. intros k ?.
    simpl. rewrite <-Hk by lia. done. }
  destruct (source_of p (v * run)) as [x|] eqn:Ex.
  - destruct (run_source v x Ex). rewrite (Hshift (fun k => element_at source el (x + k))).
    + rewrite slice_elements by nia. replace x with (x + 0) at 1 by lia.
      by rewrite <-fmap_add_seqZ, list_fmap_bind.
    + intros k Hk. unfold moved. by rewrite (source_shift _ _ Hwf outer run), Ex by done.
  - rewrite (Hshift (fun _ => replicate (Z.to_nat el) (byte_of 0))).
    + rewrite <-(Z2Nat.id run) by lia. generalize (Z.to_nat run). intros r.
      clear -Hel. induction r as [|r IH]; [done|]. rewrite seqZ_S, bind_app, <-IH.
      rewrite bind_cons. simpl. rewrite app_nil_r, <-replicate_add. f_equal. lia.
    + intros k Hk. unfold moved. by rewrite (source_shift _ _ Hwf outer run), Ex by done.
Qed.

Lemma zlen_moved source d : zlen source = elements * el -> zlen (moved p source el d) = el.
Proof.
  intros Hs. unfold moved. destruct (source_of p d) as [x|] eqn:Ex.
  - apply (source_of_bound _ _ Hwf) in Ex. rewrite <-(pw_source _ _ Hwf) in Ex. unfold element_at.
    rewrite slice_length by nia. lia.
  - unfold zlen. rewrite length_replicate. lia.
Qed.

(** One run of [apply] writes the next stretch of the destination. *)
Lemma apply_run_ok source v a b c :
  zlen source = elements * el -> 0 <= v < runs ->
  zlen a = v * run * el -> zlen b = run * el ->
  apply_run source el (a ++ b ++ c) (run_at p run v) =
  Some (a ++ (seqZ (v * run) run ≫= moved p source el) ++ c).
Proof.
  intros Hs Hv Ha Hb. pose proof (run_pos _ _ Hwf _ _ Hf) as Hr. pose proof total_runs as Ht.
  pose proof elements_le as He. pose proof (pw_fits _ _ Hwf) as Hu. rewrite <-(pw_dest _ _ Hwf) in Hu.
  assert (0 <= v * run /\ v * run + run <= total) as [Hv1 Hv2] by nia.
  unfold apply_run, run_at. cbn [lr_to lr_from lr_length].
  rewrite (wmul_small v) by nia. rewrite (wmul_small (v * run)), (wmul_small run) by nia.
  rewrite <-Ha. rewrite <-(run_bytes source v Hs).
  destruct (source_of p (v * run)) as [x|] eqn:Ex.
  - destruct (run_source v x Ex) as [Hx1 Hx2].
    rewrite (wmul_small x), wadd_small by nia. replace (x * el + run * el) with ((x + run) * el) by lia.
    unfold get_range. replace (_ && _) with true by nia.
    apply splice_append. rewrite slice_length by nia. lia.
  - apply splice_append. unfold zlen. rewrite length_replicate. fold (zlen b). nia.
Qed.

Lemma apply_runs source r v a rest :
  zlen source = elements * el -> 0 <= v -> v + Z.of_nat r <= runs ->
  zlen a = v * run * el -> zlen rest = Z.of_nat r * run * el ->
  move (apply_run source el) (a ++ rest) (run_at p run <$> seqZ v (Z.of_nat r)) =
  Some (a ++ (seqZ (v * run) (Z.of_nat r * run) ≫= moved p source el)).
Proof.
  intros Hs. pose proof (run_pos _ _ Hwf _ _ Hf) as Hr.
  revert v a rest. induction r as [|r IH]; intros v a rest Hv Hle Ha Hrest.
  { simpl. f_equal. f_equal. unfold zlen in Hrest. destruct rest; [done|simpl in Hrest; lia]. }
  rewrite (seqZ_cons v) by lia. replace (Z.pred (Z.of_nat (S r))) with (Z.of_nat r) by lia.
  replace (Z.succ v) with (v + 1) by lia. rewrite fmap_cons. cbn [move].
  set (b := take (Z.to_nat (run * el)) rest). set (c := drop (Z.to_nat (run * el)) rest).
  assert (zlen b = run * el) as Hb.
  { unfold b, zlen in *. rewrite length_take. nia. }
  replace rest with (b ++ c) by apply take_drop.
  rewrite apply_run_ok by (done || lia). rewrite app_assoc.
  assert (zlen (seqZ (v * run) run ≫= moved p source el) = run * el) as Hz.
  { apply zlen_blocks; [lia|]. intros. by apply zlen_moved. }
  assert (zlen rest = zlen b + zlen c) as Hbc.
  { rewrite <-zlen_app. unfold b, c. by rewrite take_drop. }
  rewrite IH; [|lia|lia|rewrite zlen_app, Ha, Hz; lia|nia].
  f_equal. rewrite <-app_assoc. f_equal. rewrite <-bind_app. f_equal.
  replace (Z.of_nat (S r) * run) with (run + Z.of_nat r * run) by lia.
  rewrite seqZ_app by lia. f_equal. f_equal. lia.
Qed.

Lemma zlen_arranged source : zlen source = elements * el -> zlen (arranged p source el) = total * el.
Proof.
  intros Hs. apply zlen_blocks; [pose proof elements_le; lia|]. intros. by apply zlen_moved.
Qed.

(** ** The way back *)

(** The stretch of the arranged buffer a run reads back. *)
Lemma run_slice source v : zlen source = elements * el -> 0 <= v < runs ->
  slice (arranged p source el) (v * run * el) (v * run * el + run * el) =
  seqZ (v * run) run ≫= moved p source el.
Proof.
  intros Hs Hv. pose proof (run_pos _ _ Hwf _ _ Hf) as Hr. unfold arranged. rewrite total_runs.
  replace (runs * run) with (v * run + (run + (runs - v - 1) * run)) by lia.
  rewrite seqZ_app, (seqZ_app (0 + v * run)) by nia. rewrite !bind_app, Z.add_0_l.
  assert (forall x r, 0 <= r -> zlen (seqZ x r ≫= moved p source el) = r * el) as Hz.
  { intros x r Hr'. apply zlen_blocks; [lia|]. intros. by apply zlen_moved. }
  rewrite <-(Hz 0 (v * run)) by nia. rewrite <-(Hz (v * run) run) by lia. apply slice_middle.
Qed.

Lemma splice_lookup (buffer : list byte) at_ bytes out i :
  0 <= at_ -> splice buffer at_ bytes = Some out ->
  out !! i = if decide (at_ <= Z.of_nat i < at_ + zlen bytes) then bytes !! (i - Z.to_nat at_)%nat
             else buffer !! i.
Proof.
  intros Ha. unfold splice. destruct (Z.leb_spec (at_ + zlen bytes) (zlen buffer)) as [Hle|]; [|done].
  intros [= <-]. unfold zlen in *.
  assert (length (take (Z.to_nat at_) buffer) = Z.to_nat at_) as Hl by (rewrite length_take; lia).
  case_decide as Hi.
  - rewrite lookup_app_r, Hl, lookup_app_l by lia. done.
  - destruct (decide (Z.of_nat i < at_)) as [Hlt|Hge].
    + rewrite lookup_app_l by lia. apply lookup_take_lt. lia.
    + rewrite !lookup_app_r by lia. rewrite lookup_drop. f_equal. lia.
Qed.

Lemma inverse_run_ok source buffer v :
  zlen source = elements * el -> zlen buffer = elements * el -> 0 <= v < runs ->
  exists buffer', inverse_run (arranged p source el) el buffer (run_at p run v) = Some buffer' /\
    zlen buffer' = elements * el /\
    forall i, (buffer' !! i = buffer !! i /\
               (forall x, source_of p (v * run) = Some x ->
                  ~ x * el <= Z.of_nat i < (x + run) * el)) \/
              buffer' !! i = source !! i.
Proof.
  intros Hs Hb Hv. pose proof (run_pos _ _ Hwf _ _ Hf) as Hr. pose proof total_runs as Ht.
  pose proof elements_le as He. pose proof (pw_fits _ _ Hwf) as Hu. rewrite <-(pw_dest _ _ Hwf) in Hu.
  assert (0 <= v * run /\ v * run + run <= total) as [Hv1 Hv2] by nia.
  unfold inverse_run, run_at. cbn [lr_to lr_from lr_length].
  pose proof (run_bytes source v Hs) as Hbytes.
  destruct (source_of p (v * run)) as [x|] eqn:Ex.
  - destruct (run_source v x Ex) as [Hx1 Hx2].
    rewrite (wmul_small v) by nia. rewrite (wmul_small (v * run)), (wmul_small run), (wmul_small x) by nia.
    rewrite wadd_small by nia. unfold get_range. rewrite zlen_arranged by done.
    replace (_ && _) with true by nia. rewrite run_slice, <-Hbytes by done.
    assert (zlen (slice source (x * el) ((x + run) * el)) = run * el) as Hl.
    { rewrite slice_length by nia. lia. }
    destruct (splice buffer (x * el) _) as [out|] eqn:Es.
    2: { unfold splice in Es. rewrite Hl, Hb in Es. by replace (_ <=? _) with true in Es by nia. }
    exists out. split; [done|]. split.
    { unfold splice in Es. rewrite Hl, Hb in Es. replace (_ <=? _) with true in Es by nia.
      injection Es as <-. autorewrite with zlen. rewrite Hl.
      unfold zlen in *. rewrite length_take, length_drop. nia. }
    assert (0 <= x * el) as Hxe by nia.
    intros i. rewrite (splice_lookup _ _ _ _ i Hxe Es), Hl.
    case_decide as Hi; [right|left; split; [done|]; intros ? [= <-]; lia].
    unfold slice. rewrite lookup_take_lt by nia. rewrite lookup_drop. f_equal. lia.
  - exists buffer. split; [done|]. split; [done|]. intros i. left. split; [done|]. done.
Qed.

Definition covered (v : Z) (i : nat) : Prop :=
  exists x, source_of p (v * run) = Some x /\ x * el <= Z.of_nat i < (x + run) * el.

Lemma inverse_runs source r v buffer :
  zlen source = elements * el -> zlen buffer = elements * el -> 0 <= v ->
  v + Z.of_nat r <= runs ->
  exists out, move (inverse_run (arranged p source el) el) buffer
      (run_at p run <$> seqZ v (Z.of_nat r)) = Some out /\
    zlen out = elements * el /\
    forall i u, v <= u < v + Z.of_nat r -> covered u i -> out !! i = source !! i.
Proof.
  intros Hs Hb Hv Hle.
  enough (exists out, move (inverse_run (arranged p source el) el) buffer
      (run_at p run <$> seqZ v (Z.of_nat r)) = Some out /\ zlen out = elements * el /\
    forall i, (out !! i = buffer !! i /\ forall u, v <= u < v + Z.of_nat r -> ~ covered u i) \/
              out !! i = source !! i) as (out & Hm & Hl & H).
  { exists out. split_and!; [done..|]. intros i u Hu Hc. destruct (H i) as [[_ Hn]|]; [|done].
    by destruct (Hn u Hu). }
  revert v buffer Hb Hv Hle. induction r as [|r IH]; intros v buffer Hb Hv Hle.
  { exists buffer. split_and!; [done..|]. intros i. left. split; [done|]. lia. }
  rewrite (seqZ_cons v) by lia. replace (Z.pred (Z.of_nat (S r))) with (Z.of_nat r) by lia.
  replace (Z.succ v) with (v + 1) by lia. rewrite fmap_cons. cbn [move].
  destruct (inverse_run_ok source buffer v) as (b1 & -> & Hl1 & H1); [done..|lia|].
  destruct (IH (v + 1) b1) as (out & Hm & Hl & H); [done|lia..|].
  exists out. split_and!; [done..|]. intros i. destruct (H i) as [[H2 Hn]|]; [|by right].
  destruct (H1 i) as [[H3 Hn1]|H3]; [left|right; congruence]. split; [congruence|].
  intros u Hu (x & Hx & Hi). destruct (decide (u = v)) as [->|]; [by destruct (Hn1 x Hx)|].
  destruct (Hn u); [lia|by exists x].
Qed.

(** Every byte of the source is read back. *)
Lemma all_covered i : Z.of_nat i < elements * el -> exists u, 0 <= u < runs /\ covered u i.
Proof.
  intros Hi. assert (0 < el) by (destruct (Z.eq_dec el 0) as [->|]; lia).
  pose proof (run_pos _ _ Hwf _ _ Hf) as Hr. rewrite (pw_source _ _ Hwf) in Hi.
  set (x := Z.of_nat i / el).
  pose proof (Z.div_mod (Z.of_nat i) el ltac:(lia)) as Hdm. fold x in Hdm.
  pose proof (Z.mod_pos_bound (Z.of_nat i) el ltac:(lia)).
  destruct (source_exists _ _ Hwf x) as (d & Hd & Hx); [nia|].
  pose proof (Z.div_mod d run ltac:(lia)) as Hd'. pose proof (Z.mod_pos_bound d run Hr) as Hk.
  exists (d / run). split.
  { rewrite total_runs in Hd. split; [apply Z.div_pos; lia|apply Z.div_lt_upper_bound; lia]. }
  rewrite Hd', Z.mul_comm, (source_shift _ _ Hwf outer run) in Hx by done.
  destruct (source_of p (d / run * run)) as [y|] eqn:Ey; [|done]. simpl in Hx. injection Hx as Hx.
  exists y. split; [done|]. nia.
Qed.

Lemma inverse_all source buffer :
  zlen source = elements * el -> zlen buffer = elements * el ->
  move (inverse_run (arranged p source el) el) buffer (run_at p run <$> seqZ 0 runs) = Some source.
Proof.
  intros Hs Hb. pose proof runs_pos.
  destruct (inverse_runs source (Z.to_nat runs) 0 buffer) as (out & Hm & Hl & Hall); [done|done|lia..|].
  rewrite Z2Nat.id in Hm, Hall by lia. rewrite Hm. f_equal. unfold zlen in *.
  apply list_eq_same_length with (length source); [done|lia|]. intros i a b Hi Ha Hb'.
  destruct (all_covered i) as (u & Hu & Hc); [lia|]. rewrite (Hall i u) in Ha by (done || lia). congruence.
Qed.
End move.

(** [apply] on a well-formed plan. *)
Lemma apply_arranged p gs el source destination :
  plan_wf p gs -> 0 <= el -> lp_dest_elements p * el < U64 ->
  zlen source = lp_source_elements p * el -> zlen destination = lp_dest_elements p * el ->
  exists runs, for_each_run p = Some runs /\
    move (apply_run source el) destination runs = Some (arranged p source el).
Proof.
  intros Hwf Hel Hfit Hs Hd. destruct (for_each_run_ok _ _ Hwf) as (outer & run & Hf & Hruns).
  eexists. split; [exact Hruns|]. pose proof (runs_pos _ _ Hwf outer) as Hp.
  pose proof (total_runs _ _ Hwf outer run Hf) as Ht.
  pose proof (apply_runs _ _ Hwf outer run Hf el Hel Hfit source
    (Z.to_nat (prodZ (pick (lp_extents p) (take outer (lp_permutation p))))) 0 [] destination) as H.
  rewrite Z2Nat.id in H by lia. simpl in H.
  rewrite H; [|done|lia|lia|done|by rewrite <-Ht]. unfold arranged. by rewrite Ht.
Qed.

(** ** The properties *)

Lemma omap_visits p (l : list Z) :
  omap snd ((fun d => (d, source_of p d)) <$> l) = omap (source_of p) l.
Proof. induction l as [|d l IH]; [done|]. simpl. destruct (source_of p d); [f_equal|]; exact IH. Qed.

(** A plan of a checked record, for a shape of 64-bit dimensions, whose
    destination has fewer than [2^64] elements. *)
Record planned (m : layout_morphism) (shape : list Z) (p : layout_plan) : Prop := {
  pl_check : lm_check m = Ok tt;
  pl_shape : Forall in_u64 shape;
  pl_plan : lm_plan m shape = Ok p;
  pl_fits : prodZ (lp_extents p) < U64
}.

Lemma planned_wf m shape p : planned m shape p -> exists gs, plan_wf p gs /\ lp_shape p = shape.
Proof. intros [Hc Hs Hp Hf]. by eapply plan_spec. Qed.

(** The walk visits every destination element once, in destination order,
    and gives each the source element the record's sub-axes and permutation
    declare, or padding: folding trailing positions into runs and stepping an
    odometer over the others changes nothing, and no index is out of range. *)
Theorem walk_correct m shape p :
  planned m shape p ->
  for_each_element p = Some ((fun d => (d, source_of p d)) <$> seqZ 0 (lp_dest_elements p)).
Proof. intros (gs & Hwf & _)%planned_wf. by eapply for_each_element_ok. Qed.

(** A checked layout loses nothing: the source elements the walk visits are
    all the source elements, each exactly once. *)
Theorem walk_bijective m shape p :
  planned m shape p ->
  exists visits, for_each_element p = Some visits /\
    omap snd visits ≡ₚ seqZ 0 (lp_source_elements p).
Proof.
  intros (gs & Hwf & _)%planned_wf. eexists. split; [by eapply for_each_element_ok|].
  by rewrite (pw_source _ _ Hwf), <-(sources_once _ _ Hwf), omap_visits.
Qed.

Lemma round_trip p gs el source destination buffer :
  plan_wf p gs -> 0 <= el -> lp_dest_elements p * el < U64 ->
  zlen source = lp_source_elements p * el ->
  zlen destination = lp_dest_elements p * el ->
  zlen buffer = lp_source_elements p * el ->
  lp_apply p source destination el = Some (Ok (arranged p source el)) /\
  lp_apply_inverse p (arranged p source el) buffer el = Some (Ok source).
Proof.
  intros Hwf Hel Hfit Hs Hd Hb.
  destruct (apply_arranged p gs el source destination Hwf Hel Hfit Hs Hd) as (rs & Hrs & Hmove).
  destruct (for_each_run_ok _ _ Hwf) as (outer & run & Hf & Hruns).
  pose proof (elements_le _ _ Hwf) as He.
  assert (zlen (arranged p source el) = lp_dest_elements p * el) as Ha
    by (by eapply zlen_arranged).
  unfold lp_apply, lp_apply_inverse, sized. rewrite Hs, Hd, Hb, Ha, !wmul_small by nia.
  rewrite !Z.eqb_refl. simpl. split; [by rewrite Hrs, Hmove|].
  rewrite Hruns. by erewrite inverse_all.
Qed.

(** Arranging and reading back is the identity: on buffers of the planned
    sizes [apply] succeeds whatever the destination held, the result holds at
    every element what the layout declares and zeros in the padding, and
    [apply_inverse] into any buffer returns the source bytes. *)
Theorem apply_round_trip m shape p el source destination buffer :
  planned m shape p -> 0 <= el -> lp_dest_elements p * el < U64 ->
  zlen source = lp_source_elements p * el ->
  zlen destination = lp_dest_elements p * el ->
  zlen buffer = lp_source_elements p * el ->
  lp_apply p source destination el = Some (Ok (arranged p source el)) /\
  lp_apply_inverse p (arranged p source el) buffer el = Some (Ok source).
Proof. intros (gs & Hwf & _)%planned_wf. by apply round_trip with gs. Qed.

(** ** The catalog's blocked scale layout, on a shape it pads *)

Definition sub (axis : nat) (extent : list byte) : sub_axis := SubAxis axis extent.

Definition blockscale : layout_morphism := {|
  lm_format := LAYOUT_MORPHISM_FORMAT;
  lm_name := bstr "cublas.blockscale-128x4";
  lm_version := 1;
  lm_class := EndpointDeclared;
  lm_description := [];
  lm_rank := 2;
  lm_sub_axes := [sub 0 (bstr "ceil(d0/128)"); sub 0 (bstr "4"); sub 0 (bstr "32");
                  sub 1 (bstr "ceil(d1/4)"); sub 1 (bstr "4")];
  lm_permutation := [0; 3; 2; 1; 4]%nat;
  lm_candidate := false;
  lm_provenance := [bstr "to_blocked_scales"];
  lm_digest := []
|}.

Definition blockscale_plan : layout_plan := {|
  lp_handle := bstr "cublas.blockscale-128x4@1";
  lp_shape := [130; 6];
  lp_axes := [0; 0; 0; 1; 1]%nat;
  lp_extents := [2; 4; 32; 2; 4];
  lp_within := [128; 32; 1; 4; 1];
  lp_permutation := [0; 3; 2; 1; 4]%nat;
  lp_logical_stride := [6; 1];
  lp_src_stride := [768; 192; 6; 4; 1];
  lp_padded_axis := [true; true];
  lp_source_elements := 780;
  lp_dest_elements := 2048;
  lp_padded := true
|}.

Lemma blockscale_planned : planned blockscale [130; 6] blockscale_plan.
Proof.
  split; [reflexivity| |reflexivity|reflexivity].
  repeat constructor; unfold in_u64, U64; lia.
Qed.

Lemma walk_correct_witness :
  for_each_element blockscale_plan =
    Some ((fun d => (d, source_of blockscale_plan d)) <$> seqZ 0 2048) /\
  source_of blockscale_plan 129 = Some 49 /\ source_of blockscale_plan 2047 = None.
Proof.
  split; [exact (walk_correct blockscale [130; 6] blockscale_plan blockscale_planned)|].
  split; vm_compute; reflexivity.
Defined.

Lemma walk_bijective_witness :
  exists visits, for_each_element blockscale_plan = Some visits /\
    omap snd visits ≡ₚ seqZ 0 780.
Proof. exact (walk_bijective blockscale [130; 6] blockscale_plan blockscale_planned). Defined.

Lemma apply_round_trip_witness :
  exists arranged, lp_apply blockscale_plan (replicate 1560 (byte_of 7)) (replicate 4096 (byte_of 9)) 2 =
    Some (Ok arranged) /\
  lp_apply_inverse blockscale_plan arranged (replicate 1560 (byte_of 1)) 2 =
    Some (Ok (replicate 1560 (byte_of 7))).
Proof.
  eexists.
  apply (apply_round_trip blockscale [130; 6] blockscale_plan 2 (replicate 1560 (byte_of 7))
    (replicate 4096 (byte_of 9)) (replicate 1560 (byte_of 1)) blockscale_planned);
    [lia|reflexivity|reflexivity|reflexivity|reflexivity].
Defined.

(** ** What the code does not promise *)

Definition contiguous_layout : layout_morphism := {|
  lm_format := LAYOUT_MORPHISM_FORMAT;
  lm_name := bstr "torch.contiguous";
  lm_version := 1;
  lm_class := Inductor;
  lm_description := [];
  lm_rank := 0;
  lm_sub_axes := [];
  lm_permutation := [];
  lm_candidate := false;
  lm_provenance := [bstr "torch"];
  lm_digest := []
|}.

(** The destination's element count is an unchecked product: a shape of [2^64]
    elements is planned, with a saturated source and an empty destination. *)
Lemma plan_count_wraps :
  lm_check contiguous_layout = Ok tt /\
  exists p, lm_plan contiguous_layout [2 ^ 32; 2 ^ 32] = Ok p /\
    lp_source_elements p = U64 - 1 /\ lp_dest_elements p = 0.
Proof.
  split; [reflexivity|]. eexists. split; [vm_compute; reflexivity|]. split; vm_compute; reflexivity.
Qed.
