(* ===== verification/PermuteKernel.v ===== *)
(** The permute kernel ([permute_bytes], [invert_axes] and [Transform::apply]
    of [src/crates/tensorfs-core/src/adapter.rs]): reshape a tensor's bytes to
    a view, permute the view's axes, reshape back.  The kernel walks the output
    with an odometer and copies whole rows when the innermost axis stays put;
    the proofs show that it is the transposition it stands for, and that the
    inverse axes undo it.

    Indexing out of range is [None] (a panic); the two [debug_assert_eq!] are
    not compiled into the release profile, and are hypotheses of the theorems. *)
From S2P Require Import Fusion.
From S2P Require Import Prelude Bytes MixedRadix Formula Morphism MorphismPlan MorphismWalk MorphismMove.

(** ** The code *)

(** The row-major strides: the loop fills them from the last axis back, as the
    layout planner's does. *)
Definition view_strides (dimensions : list Z) : list Z := logical_strides dimensions.

(** [axes.iter().map(|axis| values[*axis])]. *)
Definition by_axes (values axes : list Z) : option (list Z) :=
  mapM (fun axis => values !! Z.to_nat axis) axes.

(** How many elements one copy moves. *)
Definition copy_block (axes out_dims : list Z) (rank : nat) : option Z :=
  match rank with
  | O => Some 1
  | S last =>
      let* axis := axes !! last in
      if axis =? Z.of_nat last then out_dims !! last else Some 1
  end.

(** The inner loop: the last counter that does not wrap counts up. *)
Fixpoint count_up (axis : nat) (out_dims counter : list Z) : option (list Z) :=
  match axis with
  | O => Some counter
  | S axis =>
      let* count := counter !! axis in
      let* dim := out_dims !! axis in
      let count := wadd count 1 in
      if count <? dim then Some (<[axis := count]> counter)
      else count_up axis out_dims (<[axis := 0]> counter)
  end.

(** The outer loop; [None] is a panic or running out of fuel. *)
Fixpoint permute_loop (fuel : nat) (input : list byte) (element_size : Z)
    (out_dims strides : list Z) (block : Z) (outer : nat)
    (output : list byte) (counter : list Z) (written : Z) : option (list byte) :=
  match fuel with
  | O => None
  | S fuel =>
      let source := foldl wadd 0 (zip_with wmul counter strides) in
      let from := wmul source element_size in
      let span := wmul block element_size in
      let* bytes := get_range input from (wadd from span) in
      let* output := splice output written bytes in
      let written := wadd written span in
      if written =? zlen output then Some output
      else
        let* counter := count_up outer out_dims counter in
        permute_loop fuel input element_size out_dims strides block outer output counter written
  end.

(** [permute_bytes]; a turn of the loop writes at least one byte, so the length
    of the input is fuel enough. *)
Definition permute_bytes (input : list byte) (element_size : Z) (dims axes : list Z)
  : option (list byte) :=
  let rank := length dims in
  let strides := view_strides dims in
  let* out_dims := by_axes dims axes in
  let* out_strides := by_axes strides axes in
  let* block := copy_block axes out_dims rank in
  let outer := (rank - (if (1 <? block)%Z then 1 else 0))%nat in
  let* strides := get_range out_strides 0 (Z.of_nat outer) in
  permute_loop (S (length input)) input element_size out_dims strides block outer
    (replicate (length input) (byte_of 0)) (replicate outer 0) 0.

(** The loop of [invert_axes]. *)
Fixpoint invert_loop (position : Z) (axes inverse : list Z) : option (list Z) :=
  match axes with
  | [] => Some inverse
  | axis :: axes =>
      if axis <? zlen inverse then
        invert_loop (position + 1) axes (<[Z.to_nat axis := position]> inverse)
      else None
  end.
Definition invert_axes (axes : list Z) : option (list Z) :=
  invert_loop 0 axes (replicate (length axes) 0).

(** [enum Transform]. *)
Inductive transform : Type :=
| Identity
| Forward (p : permute)
| Inverse (p : permute).

#[export] Instance transform_eq_dec : EqDecision transform.
Proof. solve_decision. Defined.

(** [Transform::is_identity]. *)
Definition transform_is_identity (t : transform) : bool :=
  match t with Identity => true | _ => false end.

(** [Transform::apply]: the outer [None] is a panic, the inner one the method's
    own. *)
Definition transform_apply (t : transform) (bytes : list byte) (element_size : Z)
    (shape : list Z) : option (option (list byte)) :=
  match t with
  | Identity => Some (Some bytes)
  | Forward p =>
      match permute_resolve p shape with
      | None => Some None
      | Some dims => Some <$> permute_bytes bytes element_size dims (pm_axes p)
      end
  | Inverse p =>
      match permute_resolve p shape with
      | None => Some None
      | Some dims =>
          let* permuted := by_axes dims (pm_axes p) in
          let* inverse := invert_axes (pm_axes p) in
          Some <$> permute_bytes bytes element_size permuted inverse
      end
  end.

(** The unit tests of the source: numpy's [transpose(1, 0, 2)], and an inner
    axis move. *)
Example permute_transpose :
  permute_bytes (byte_of <$> seqZ 0 24) 1 [2; 3; 4] [1; 0; 2] =
  Some (byte_of <$> [0; 1; 2; 3; 12; 13; 14; 15; 4; 5; 6; 7; 16; 17; 18; 19; 8; 9; 10; 11; 20; 21;
                     22; 23]).
Proof. vm_compute. reflexivity. Qed.
Example permute_inner :
  permute_bytes (byte_of <$> seqZ 0 6) 1 [2; 3] [1; 0] = Some (byte_of <$> [0; 3; 1; 4; 2; 5]).
Proof. vm_compute. reflexivity. Qed.

(** ** The loop *)

(** The axes as positions. *)
Definition nats (axes : list Z) : list nat := Z.to_nat <$> axes.

Lemma nats_perm axes n : axes ≡ₚ seqZ 0 (Z.of_nat n) -> nats axes ≡ₚ seq 0 n.
Proof.
  intros Hp. unfold nats. rewrite Hp. unfold seqZ. rewrite <-list_fmap_compose, Nat2Z.id.
  apply reflexive_eq. rewrite <-(list_fmap_id (seq 0 n)) at 2.
  apply list_fmap_ext. intros _ i _. simpl. lia.
Qed.

Lemma by_axes_pick values axes :
  nats axes ≡ₚ seq 0 (length values) -> by_axes values axes = Some (pick values (nats axes)).
Proof.
  intros Hp. unfold by_axes, pick, nats.
  assert (forall i, i ∈ Z.to_nat <$> axes -> (i < length values)%nat) as Hin.
  { intros i. unfold nats in Hp. rewrite Hp, elem_of_seq. lia. }
  clear Hp. induction axes as [|a axes IH]; [done|].
  cbn [mapM]. destruct (lookup_lt_is_Some_2 values (Z.to_nat a)) as [v Hv].
  { apply Hin. rewrite fmap_cons. set_solver. }
  rewrite Hv. cbn [mbind option_bind]. rewrite IH by (intros i Hi; apply Hin; set_solver).
  simpl. by rewrite (list_lookup_total_correct _ _ _ Hv).
Qed.

Lemma insert_middle {A} (a : list A) x y c i : length a = i -> <[i := y]> (a ++ x :: c) = a ++ y :: c.
Proof. intros <-. rewrite <-(Nat.add_0_r (length a)). by rewrite insert_app_r. Qed.

Lemma count_up_digits es r t k :
  positive es -> Forall in_u64 es ->
  count_up (length es) (es ++ r) (digits es k ++ t) = Some (digits es (k + 1) ++ t).
Proof.
  revert r t k. induction es as [|e es IH] using rev_ind; intros r t k Hp Hu; [done|].
  apply positive_app in Hp as [Hp He]. apply Forall_app in Hu as [Hu Hue].
  assert (0 < e) as He' by (by inv He). assert (in_u64 e) as Hue' by (by inv Hue).
  assert (forall x, length es = length (digits es x)) as Hl by (intros; by rewrite length_digits).
  rewrite length_app, Nat.add_1_r. cbn [count_up]. rewrite digits_snoc, digits_succ by done.
  rewrite <-!app_assoc. simpl.
  rewrite list_lookup_middle by apply Hl. rewrite list_lookup_middle by done. cbv beta iota.
  pose proof (Z.mod_pos_bound k e He'). unfold in_u64 in Hue'. rewrite wadd_small by lia.
  destruct (Z.ltb_spec (k mod e + 1) e).
  - f_equal. rewrite <-app_assoc. by apply insert_middle.
  - rewrite insert_middle by done. by rewrite IH, <-app_assoc.
Qed.

Lemma dot_nonneg cs ws :
  Forall (fun c => 0 <= c) cs -> Forall (fun w => 0 <= w) ws -> 0 <= dot cs ws.
Proof.
  intros Hc. revert ws. induction Hc as [|c cs Hc _ IH]; intros ws Hw; [done|].
  destruct Hw as [|w ws Hw Hws]; [done|]. rewrite dot_cons. specialize (IH ws Hws). nia.
Qed.

Lemma foldl_wadd_dot cs ws acc :
  0 <= acc -> Forall (fun c => 0 <= c) cs -> Forall (fun w => 0 <= w) ws ->
  acc + dot cs ws < U64 -> foldl wadd acc (zip_with wmul cs ws) = acc + dot cs ws.
Proof.
  intros Ha Hc. revert acc ws Ha. induction Hc as [|c cs Hc Hcs IH]; intros acc ws Ha Hw Hlt.
  { unfold dot. simpl. lia. }
  destruct Hw as [|w ws Hw Hws]; [unfold dot; simpl; lia|]. rewrite dot_cons in *.
  pose proof (dot_nonneg cs ws Hcs Hws).
  simpl. rewrite wmul_small, wadd_small by nia. rewrite IH by (done || nia). lia.
Qed.

Lemma digits_ok_nonneg es cs : digits_ok es cs -> Forall (fun c => 0 <= c) cs.
Proof. induction 1; constructor; [lia|done]. Qed.

Lemma weights_nonneg es : positive es -> Forall (fun w => 0 <= w) (weights es).
Proof.
  induction 1 as [|e es He Hp IH]; constructor; [|done]. pose proof (prodZ_pos _ Hp). lia.
Qed.

Lemma elem_le_prod es e : positive es -> e ∈ es -> e <= prodZ es.
Proof.
  intros Hp (a & b & ->)%list_elem_of_split. apply positive_app in Hp as [Ha Hb].
  apply Forall_cons in Hb as [He Hb]. rewrite prodZ_app, prodZ_cons.
  pose proof (prodZ_pos _ Ha). pose proof (prodZ_pos _ Hb).
  assert (1 <= prodZ a * prodZ b) by nia. nia.
Qed.

Section kernel.
Context (dims axes : list Z) (el : Z) (input : list byte).
Context (Hpos : positive dims) (Hperm : axes ≡ₚ seqZ 0 (zlen dims)) (Hel : 0 < el).
Context (Hin : zlen input = prodZ dims * el) (Hfit : prodZ dims * el < U64).

Abbreviation perm := (nats axes).
Abbreviation es := (pick dims perm).
Abbreviation ws := (pick (weights dims) perm).
Abbreviation N := (prodZ dims).

(** The source element that output element [d] must hold. *)
Definition source_index (d : Z) : Z := dot (digits es d) ws.
Definition gathered (d : Z) : list byte := element_at input el (source_index d).

Lemma perm_ok : perm ≡ₚ seq 0 (length dims).
Proof. by apply nats_perm. Qed.

Lemma pick_perm l : length l = length dims -> pick l perm ≡ₚ l.
Proof.
  intros Hl. unfold pick. rewrite perm_ok, <-Hl. apply reflexive_eq.
  apply list_eq. intros i. rewrite list_lookup_fmap.
  destruct (decide (i < length l)%nat) as [Hi|Hi].
  - rewrite lookup_seq_lt by done. simpl. symmetry. by apply list_lookup_lookup_total_lt.
  - rewrite lookup_seq_ge, lookup_ge_None_2 by lia. done.
Qed.

Lemma es_pos : positive es.
Proof. unfold positive. by rewrite pick_perm. Qed.
Lemma prod_es : prodZ es = N.
Proof. apply prodZ_perm. by apply pick_perm. Qed.
Lemma N_pos : 0 < N.
Proof. by apply prodZ_pos. Qed.
Lemma ws_nonneg : Forall (fun w => 0 <= w) ws.
Proof. rewrite pick_perm by apply length_weights. by apply weights_nonneg. Qed.

(** The coordinates of output element [d], put back in the view's order. *)
Lemma source_coords d : exists cs, digits_ok dims cs /\ pick cs perm = digits es d.
Proof.
  pose proof perm_ok as Hp.
  assert (length (digits es d) = length perm) as Hl.
  { rewrite length_digits. unfold pick. apply length_fmap. }
  destruct (scatter_ok (length dims) perm (digits es d)) as [H1 H2]; [..|done|].
  - rewrite Hp. apply NoDup_seq.
  - intros i. rewrite Hp, elem_of_seq. lia.
  - exists (scatter (length dims) perm (digits es d)). split; [|done].
    apply (digits_ok_pick (length dims) perm); [done..|]. rewrite H2. apply digits_valid, es_pos.
Qed.

Lemma source_index_bound d : 0 <= source_index d < N.
Proof.
  destruct (source_coords d) as (cs & Hcs & He). unfold source_index. rewrite <-He.
  rewrite (dot_pick (length dims)); [by apply dot_bound|apply perm_ok| |apply length_weights].
  symmetry. by eapply Forall2_length.
Qed.

Lemma zlen_gathered d : zlen (gathered d) = el.
Proof.
  pose proof (source_index_bound d). unfold gathered, element_at.
  rewrite slice_length by nia. lia.
Qed.

Section copies.
(** One copy moves the elements of the trailing positions [tl]. *)
Context (es1 ws1 tl : list Z) (Hes : es = es1 ++ tl) (Hws : ws = ws1 ++ weights tl).
Context (Hlen : length ws1 = length es1).
Abbreviation block := (prodZ tl).

Lemma split_pos : positive es1 /\ positive tl.
Proof. apply positive_app. rewrite <-Hes. apply es_pos. Qed.

Lemma block_pos : 0 < block.
Proof. apply prodZ_pos, split_pos. Qed.

Lemma copies : N = prodZ es1 * block.
Proof. by rewrite <-prod_es, Hes, prodZ_app. Qed.

Lemma source_index_run k j :
  0 <= j < block -> source_index (k * block + j) = dot (digits es1 k) ws1 + j.
Proof.
  intros Hj. destruct split_pos as [H1 H2]. unfold source_index.
  rewrite Hes, Hws, digits_app, dot_app by (done || by rewrite length_digits).
  pose proof block_pos. rewrite Z.div_add_l, (Z.div_small j), Z.add_0_r by lia.
  by rewrite digits_add, dot_digits by done.
Qed.

Lemma run_start k : 0 <= dot (digits es1 k) ws1 /\ dot (digits es1 k) ws1 + block <= N.
Proof.
  pose proof block_pos.
  pose proof (source_index_bound (k * block + 0)) as H0.
  pose proof (source_index_bound (k * block + (block - 1))) as H1.
  rewrite source_index_run in H0, H1 by lia. lia.
Qed.

Lemma run_bytes_gathered k :
  slice input (dot (digits es1 k) ws1 * el) ((dot (digits es1 k) ws1 + block) * el) =
  seqZ (k * block) block ≫= gathered.
Proof.
  pose proof block_pos. pose proof (run_start k). rewrite slice_elements by nia.
  set (a := dot (digits es1 k) ws1) in *.
  replace (seqZ a block) with ((fun j => a + j) <$> seqZ 0 block)
    by (rewrite fmap_add_seqZ; f_equal; lia).
  replace (seqZ (k * block) block) with ((fun j => k * block + j) <$> seqZ 0 block)
    by (rewrite fmap_add_seqZ; f_equal; lia).
  rewrite !list_fmap_bind. apply Forall_bind_ext, Forall_forall. intros j Hj%elem_of_seqZ.
  unfold compose, gathered. by rewrite source_index_run by lia.
Qed.

Lemma zlen_gathereds n : 0 <= n -> zlen (seqZ 0 n ≫= gathered) = n * el.
Proof. intros Hn. apply zlen_blocks; [done|]. intros y _. apply zlen_gathered. Qed.

Lemma counter_source k :
  foldl wadd 0 (zip_with wmul (digits es1 k) ws1) = dot (digits es1 k) ws1.
Proof.
  destruct split_pos as [H1 _]. rewrite foldl_wadd_dot; [lia|done|..].
  - by eapply digits_ok_nonneg, digits_valid.
  - pose proof ws_nonneg as H. rewrite Hws in H. by apply Forall_app in H as [H _].
  - pose proof (run_start k). pose proof block_pos. nia.
Qed.

Lemma permute_loop_gathers fuel k rest :
  0 <= k < prodZ es1 -> prodZ es1 - k <= Z.of_nat fuel ->
  zlen rest = (N - k * block) * el ->
  permute_loop fuel input el es ws1 block (length es1)
    ((seqZ 0 (k * block) ≫= gathered) ++ rest) (digits es1 k) (k * block * el) =
  Some (seqZ 0 N ≫= gathered).
Proof.
  pose proof block_pos as Hb. pose proof copies as HN. destruct split_pos as [H1 _].
  revert k rest. induction fuel as [|fuel IH]; intros k rest Hk Hf Hr; [lia|].
  cbn [permute_loop]. rewrite counter_source. pose proof (run_start k) as [Hs1 Hs2].
  set (a := dot (digits es1 k) ws1) in *.
  rewrite !(wmul_small a), !(wmul_small block), (wadd_small (a * el)) by nia.
  unfold get_range. replace (_ <=? _) with true by nia. replace (_ <=? _) with true by nia.
  simpl. replace (a * el + block * el) with ((a + block) * el) by lia.
  unfold a. rewrite run_bytes_gathered.
  assert (zlen (seqZ (k * block) block ≫= gathered) = block * el) as Hzb.
  { apply zlen_blocks; [lia|]. intros. apply zlen_gathered. }
  assert (block * el <= zlen rest) as Hle by nia.
  rewrite <-(take_drop (Z.to_nat (block * el)) rest).
  replace (k * block * el) with (zlen (seqZ 0 (k * block) ≫= gathered)) at 1
    by (apply zlen_gathereds; nia).
  rewrite splice_append.
  2: { rewrite Hzb. unfold zlen in *. rewrite length_take. lia. }
  cbv beta iota. rewrite wadd_small by nia.
  assert ((seqZ 0 (k * block) ≫= gathered) ++ (seqZ (k * block) block ≫= gathered) =
    seqZ 0 ((k + 1) * block) ≫= gathered) as Hjoin.
  { rewrite <-bind_app. f_equal. replace ((k + 1) * block) with (k * block + block) by lia.
    by rewrite seqZ_app by nia. }
  assert (zlen (drop (Z.to_nat (block * el)) rest) = (N - (k + 1) * block) * el) as Hr'.
  { unfold zlen in *. rewrite length_drop. nia. }
  rewrite app_assoc, Hjoin, zlen_app, zlen_gathereds, Hr' by nia.
  destruct (Z.eqb_spec (k * block * el + block * el)
    ((k + 1) * block * el + (N - (k + 1) * block) * el)) as [He|He].
  - assert ((k + 1) * block = N) as Hlast by nia. rewrite Hlast in *.
    rewrite (nil_length_inv (drop _ rest)); [by rewrite app_nil_r|]. unfold zlen in Hr'. lia.
  - assert (Hc := count_up_digits es1 tl [] k H1). rewrite <-Hes, !app_nil_r in Hc. rewrite Hc.
    2: { apply Forall_forall. intros e He'. unfold in_u64.
         assert (0 < e) as He0 by (unfold positive in H1; rewrite Forall_forall in H1; by apply H1).
         pose proof (elem_le_prod es1 e H1 He'). nia. }
    replace (k * block * el + block * el) with ((k + 1) * block * el) by lia.
    apply IH; [nia|lia|done].
Qed.
End copies.

Lemma weights_last (l : list Z) i : length l = S i -> weights l !!! i = 1.
Proof.
  intros Hl. apply list_lookup_total_correct. rewrite weights_lookup, decide_True by lia.
  by rewrite drop_ge by lia.
Qed.

Lemma length_permute_axes : length axes = length dims.
Proof. rewrite <-(length_fmap Z.to_nat axes). unfold nats in *. rewrite perm_ok. apply length_seq. Qed.

Lemma length_out_dims : length es = length dims.
Proof. unfold pick, nats. by rewrite !length_fmap, length_permute_axes. Qed.
Lemma length_out_strides : length ws = length dims.
Proof. unfold pick, nats. by rewrite !length_fmap, length_permute_axes. Qed.

(** The loop from its start, for either way of splitting the output axes. *)
Lemma permute_loop_start es1 tl outer block :
  es = es1 ++ tl -> ws = take outer ws ++ weights tl -> outer = length es1 -> block = prodZ tl ->
  (let* strides := get_range ws 0 (Z.of_nat outer) in
   permute_loop (S (length input)) input el es strides block outer
    (replicate (length input) (byte_of 0)) (replicate outer 0) 0) =
  Some (seqZ 0 N ≫= gathered).
Proof.
  intros Hes Hws -> ->. pose proof (copies es1 tl Hes) as HN. pose proof N_pos.
  pose proof (block_pos es1 tl Hes) as Hb. destruct (split_pos es1 tl Hes) as [H1 _].
  pose proof (prodZ_pos _ H1). pose proof length_out_dims as Hle. pose proof length_out_strides as Hlw.
  rewrite Hes, length_app in Hle.
  unfold get_range, slice. replace (_ <=? _) with true by lia.
  replace (_ <=? _) with true by (unfold zlen; lia). rewrite Z.sub_0_r, Nat2Z.id.
  change (drop (Z.to_nat 0) ws) with ws. cbv beta iota. rewrite <-digits_zero by done.
  apply (permute_loop_gathers es1 (take (length es1) ws) tl Hes Hws) with (k := 0).
  - rewrite length_take. lia.
  - lia.
  - unfold zlen in Hin. nia.
  - unfold zlen in *. rewrite length_replicate. lia.
Qed.

Lemma permute_bytes_gathers : permute_bytes input el dims axes = Some (seqZ 0 N ≫= gathered).
Proof.
  pose proof perm_ok as Hp. pose proof length_permute_axes as Hla. pose proof N_pos.
  pose proof length_out_dims as Hle. pose proof length_out_strides as Hlw.
  unfold permute_bytes, view_strides. rewrite logical_strides_weights by (done || nia).
  rewrite by_axes_pick by done. rewrite by_axes_pick by (by rewrite length_weights).
  destruct (copy_block axes es (length dims)) as [block|] eqn:Eb.
  2: { exfalso. destruct (length dims) as [|last]; [done|]. cbn [copy_block] in Eb.
       destruct (lookup_lt_is_Some_2 axes last) as [a Ha]; [lia|]. rewrite Ha in Eb.
       destruct (lookup_lt_is_Some_2 es last) as [e He]; [lia|]. rewrite He in Eb.
       by destruct (a =? _). }
  cbv beta iota zeta. destruct (Z.ltb_spec 1 block) as [Hlt|Hge].
  - destruct (length dims) as [|last] eqn:El; [simpl in Eb; simplify_eq; lia|]. cbn [copy_block] in Eb.
    destruct (axes !! last) as [a|] eqn:Ea; [|done].
    destruct (Z.eqb_spec a (Z.of_nat last)) as [->|_]; [|simplify_eq; lia].
    rewrite Nat.sub_1_r. simpl Nat.pred. apply (permute_loop_start (take last es) [block]).
    + rewrite <-(take_drop last es) at 1. f_equal.
      rewrite (drop_S _ _ _ Eb), drop_ge by lia. done.
    + rewrite <-(take_drop last ws) at 1. f_equal.
      assert (ws !! last = Some 1) as Hw.
      { unfold pick, nats. rewrite !list_lookup_fmap, Ea. simpl. by rewrite Nat2Z.id, weights_last. }
      rewrite (drop_S _ _ _ Hw), drop_ge by lia. done.
    + rewrite length_take. lia.
    + unfold prodZ. simpl. lia.
  - rewrite Nat.sub_0_r. apply (permute_loop_start es []).
    + by rewrite app_nil_r.
    + rewrite take_ge by lia. by rewrite app_nil_r.
    + done.
    + change (prodZ []) with 1. destruct (length dims) as [|last] eqn:El; [simpl in Eb; by simplify_eq|].
      cbn [copy_block] in Eb. destruct (axes !! last); [|done].
      destruct (_ =? _); [|by simplify_eq]. pose proof es_pos as He.
      unfold positive in He. rewrite Forall_forall in He. apply list_elem_of_lookup_2, He in Eb. lia.
Qed.

Lemma gathered_at d :
  0 <= d < N -> element_at (seqZ 0 N ≫= gathered) el d = gathered d.
Proof.
  intros Hd. unfold element_at at 1.
  replace (seqZ 0 N) with (seqZ 0 d ++ [d] ++ seqZ (d + 1) (N - d - 1)).
  2: { transitivity (seqZ 0 (d + (1 + (N - d - 1)))); [|f_equal; lia].
       by rewrite !seqZ_app, Z.add_0_l, seqZ_one by lia. }
  rewrite !bind_app, bind_singleton.
  assert (zlen (seqZ 0 d ≫= gathered) = d * el) as Hl.
  { apply zlen_blocks; [lia|]. intros. apply zlen_gathered. }
  pose proof (slice_middle (seqZ 0 d ≫= gathered) (gathered d)
    (seqZ (d + 1) (N - d - 1) ≫= gathered)) as Hm.
  by rewrite Hl, zlen_gathered in Hm.
Qed.

Lemma zlen_permuted : zlen (seqZ 0 N ≫= gathered) = N * el.
Proof. pose proof N_pos. apply zlen_blocks; [lia|]. intros. apply zlen_gathered. Qed.

(** The output is the transposition: the element at the permuted coordinates is
    the input's element at the coordinates. *)
Lemma gathered_transposes cs :
  digits_ok dims cs ->
  0 <= dot (pick cs perm) (weights es) < N /\
  element_at (seqZ 0 N ≫= gathered) el (dot (pick cs perm) (weights es)) =
  element_at input el (dot cs (weights dims)).
Proof.
  intros Hcs. assert (length cs = length dims) as Hl by (symmetry; by eapply Forall2_length).
  assert (digits_ok es (pick cs perm)) as Hok
    by (apply (digits_ok_pick (length dims)); [apply perm_ok|done..]).
  pose proof (dot_bound _ _ es_pos Hok) as Hb. rewrite prod_es in Hb. split; [done|].
  rewrite gathered_at by done. unfold gathered, source_index. rewrite digits_dot by (done || apply es_pos).
  by rewrite (dot_pick (length dims)) by (apply perm_ok || apply length_weights || done).
Qed.
End kernel.

(** ** The inverse axes *)

Lemma invert_loop_ok n axes pre inverse :
  pre ++ axes ≡ₚ seqZ 0 (Z.of_nat n) -> length inverse = n ->
  (forall i a, pre !! i = Some a -> inverse !! Z.to_nat a = Some (Z.of_nat i)) ->
  exists inverse', invert_loop (zlen pre) axes inverse = Some inverse' /\ length inverse' = n /\
    forall i a, (pre ++ axes) !! i = Some a -> inverse' !! Z.to_nat a = Some (Z.of_nat i).
Proof.
  revert pre inverse. induction axes as [|axis axes IH]; intros pre inverse Hp Hl Hinv.
  { exists inverse. rewrite app_nil_r. done. }
  assert (0 <= axis < Z.of_nat n) as Ha.
  { assert (axis ∈ seqZ 0 (Z.of_nat n)) as Hin by (rewrite <-Hp; set_solver).
    apply elem_of_seqZ in Hin. lia. }
  cbn [invert_loop]. replace (axis <? zlen inverse) with true by (unfold zlen; lia).
  destruct (IH (pre ++ [axis]) (<[Z.to_nat axis := zlen pre]> inverse)) as (inv & H1 & H2 & H3).
  - by rewrite <-app_assoc.
  - by rewrite length_insert.
  - intros i a [Hi|[Hi [Hi0 <-]%list_lookup_singleton_Some]]%lookup_app_Some.
    + rewrite list_lookup_insert_ne; [by apply Hinv|]. intros He.
      assert (NoDup (pre ++ axis :: axes)) as Hnd by (rewrite Hp; apply NoDup_seqZ).
      apply NoDup_app in Hnd as (_ & Hnd & _). apply list_elem_of_lookup_2 in Hi as Hin.
      apply (Hnd a Hin). assert (0 <= a).
      { assert (a ∈ seqZ 0 (Z.of_nat n)) as Hs by (rewrite <-Hp; set_solver).
        apply elem_of_seqZ in Hs. lia. }
      replace a with axis by lia. set_solver.
    + rewrite list_lookup_insert_eq by lia. f_equal. unfold zlen. lia.
  - exists inv. rewrite zlen_app in H1. rewrite <-app_assoc in H3. done.
Qed.

Lemma invert_axes_ok n axes :
  axes ≡ₚ seqZ 0 (Z.of_nat n) ->
  exists inverse, invert_axes axes = Some inverse /\ inverse ≡ₚ seqZ 0 (Z.of_nat n) /\
    forall l, length l = n -> pick (pick l (nats axes)) (nats inverse) = l.
Proof.
  intros Hp. assert (length axes = n) as Hn by (rewrite Hp, length_seqZ; lia).
  destruct (invert_loop_ok n axes [] (replicate n 0)) as (inv & H1 & H2 & H3);
    [done|apply length_replicate|done|]. simpl in H3.
  assert (forall j, (j < n)%nat -> exists i, axes !! i = Some (Z.of_nat j) /\
    inv !! j = Some (Z.of_nat i)) as Hinv.
  { intros j Hj. assert (Z.of_nat j ∈ axes) as Hin by (rewrite Hp; apply elem_of_seqZ; lia).
    apply list_elem_of_lookup in Hin as [i Hi]. exists i. split; [done|].
    apply H3 in Hi. by rewrite Nat2Z.id in Hi. }
  exists inv. split; [unfold invert_axes; by rewrite Hn|]. split.
  - apply submseteq_length_Permutation; [|rewrite length_seqZ; lia].
    apply NoDup_submseteq.
    + apply NoDup_alt. intros j j' x Hj Hj'.
      destruct (Hinv j) as (i & Hi & Hij); [apply lookup_lt_Some in Hj; lia|].
      destruct (Hinv j') as (i' & Hi' & Hij'); [apply lookup_lt_Some in Hj'; lia|].
      by simplify_eq.
    + intros x (j & Hj)%list_elem_of_lookup. apply elem_of_seqZ.
      destruct (Hinv j) as (i & Hi & Hij); [apply lookup_lt_Some in Hj; lia|].
      apply lookup_lt_Some in Hi. simplify_eq. lia.
  - intros l Hl. apply list_eq_same_length with n.
    + done.
    + unfold pick, nats. by rewrite !length_fmap.
    + intros j x y Hj Hx Hy. destruct (Hinv j Hj) as (i & Hi & Hij).
      unfold pick, nats in Hx. rewrite !list_lookup_fmap, Hij in Hx. simpl in Hx.
      injection Hx as <-. apply list_lookup_total_correct.
      rewrite Nat2Z.id, !list_lookup_fmap, Hi. simpl. rewrite Nat2Z.id.
      f_equal. by apply list_lookup_total_correct.
Qed.

Lemma pick_seqZ n axes : axes ≡ₚ seqZ 0 (Z.of_nat n) -> pick (seqZ 0 (Z.of_nat n)) (nats axes) = axes.
Proof.
  intros Hp. unfold pick, nats. rewrite <-list_fmap_compose. rewrite <-(list_fmap_id axes) at 2.
  apply list_fmap_ext. intros i a Hi%list_elem_of_lookup_2. rewrite Hp in Hi.
  apply elem_of_seqZ in Hi. apply list_lookup_total_correct, lookup_seqZ. simpl. lia.
Qed.

Lemma invert_twice n axes inverse twice :
  axes ≡ₚ seqZ 0 (Z.of_nat n) -> invert_axes axes = Some inverse ->
  invert_axes inverse = Some twice -> twice = axes.
Proof.
  intros Hp Hi Ht. destruct (invert_axes_ok n axes Hp) as (inv & H1 & Hip & Hpick).
  rewrite H1 in Hi. injection Hi as <-.
  destruct (invert_axes_ok n inv Hip) as (inv2 & H2 & Hip2 & Hpick2).
  rewrite H2 in Ht. injection Ht as <-.
  assert (length axes = n) as Hl by (rewrite Hp, length_seqZ; lia).
  pose proof (Hpick (seqZ 0 (Z.of_nat n)) ltac:(rewrite length_seqZ; lia)) as Hback.
  rewrite pick_seqZ in Hback by done. specialize (Hpick2 axes Hl).
  by rewrite Hback, pick_seqZ in Hpick2.
Qed.

(** ** The kernel is the transposition, and its inverse *)

(** What a permute of [dims] by [axes] makes of [input]. *)
Definition transposed (input : list byte) (el : Z) (dims axes : list Z) (output : list byte) : Prop :=
  zlen output = zlen input /\
  forall cs, digits_ok dims cs ->
    element_at output el (dot (pick cs (nats axes)) (weights (pick dims (nats axes)))) =
    element_at input el (dot cs (weights dims)).

Lemma permute_bytes_transposes dims axes el input :
  positive dims -> axes ≡ₚ seqZ 0 (zlen dims) -> 0 < el ->
  zlen input = prodZ dims * el -> prodZ dims * el < U64 ->
  exists output, permute_bytes input el dims axes = Some output /\
    transposed input el dims axes output.
Proof.
  intros Hpos Hperm Hel Hin Hfit. eexists. split; [by apply permute_bytes_gathers|]. split.
  - by rewrite zlen_permuted.
  - intros cs Hcs. by apply gathered_transposes.
Qed.

Lemma elements_eq (a b : list byte) el n :
  0 < el -> 0 <= n -> zlen a = n * el -> zlen b = n * el ->
  (forall x, 0 <= x < n -> element_at a el x = element_at b el x) -> a = b.
Proof.
  intros Hel Hn Ha Hb He.
  assert (forall l : list byte, zlen l = n * el -> l = seqZ 0 n ≫= element_at l el) as H.
  { intros l Hl. rewrite <-(slice_elements l el 0 n); [|lia..|rewrite Z.add_0_l; lia].
    unfold slice. rewrite Z.mul_0_l, Z.add_0_l, Z.sub_0_r. change (drop (Z.to_nat 0) l) with l.
    rewrite take_ge; [done|]. unfold zlen in Hl. rewrite <-Hl. lia. }
  rewrite (H a Ha), (H b Hb). apply Forall_bind_ext, Forall_forall.
  intros x Hx%elem_of_seqZ. apply He. lia.
Qed.

Lemma permute_bytes_inverts dims axes inverse el input output :
  positive dims -> axes ≡ₚ seqZ 0 (zlen dims) -> invert_axes axes = Some inverse -> 0 < el ->
  zlen input = prodZ dims * el -> prodZ dims * el < U64 ->
  permute_bytes input el dims axes = Some output ->
  permute_bytes output el (pick dims (nats axes)) inverse = Some input.
Proof.
  intros Hpos Hperm Hinv Hel Hin Hfit Hout.
  destruct (permute_bytes_transposes dims axes el input) as (out & Ho & Hl & Ht); [done..|].
  destruct (invert_axes_ok (length dims) axes Hperm) as (inv & Hi & Hip & Hpick).
  rewrite Ho in Hout. rewrite Hi in Hinv. injection Hout as <-. injection Hinv as <-. set (es := pick dims (nats axes)).
  pose proof (prod_es dims axes Hperm) as Hprod. fold es in Hprod.
  assert (length es = length dims) as Hle by (by apply length_out_dims).
  destruct (permute_bytes_transposes es inv el out) as (back & Hback & Hlb & Htb).
  - by apply es_pos.
  - unfold zlen. by rewrite Hle.
  - done.
  - by rewrite Hl, Hprod.
  - by rewrite Hprod.
  - rewrite Hback. f_equal. pose proof (prodZ_pos _ Hpos).
    apply (elements_eq _ _ el (prodZ dims)); [done|lia|by rewrite Hlb, Hl|done|].
    intros x Hx. set (cs := digits dims x).
    assert (digits_ok dims cs) as Hcs by (by apply digits_valid).
    assert (length cs = length dims) as Hlc by apply length_digits.
    specialize (Ht cs Hcs). specialize (Htb (pick cs (nats axes))).
    assert (pick es (nats inv) = dims) as He by (by apply Hpick).
    rewrite He, (Hpick cs Hlc) in Htb. unfold cs in Ht, Htb.
    rewrite dot_digits in Ht, Htb by done. rewrite Htb; [done|].
    apply (digits_ok_pick (length dims)); [by apply nats_perm|done..].
Qed.

(** ** The transforms of a checked permute *)

Definition view_ok (p : permute) : Prop :=
  Forall (fun d => match d with DLiteral n => 0 <= n | DAxis _ d => 0 <= d | DAuto => True end)
    (pm_view p).

(** A permute that resolves for [shape], and bytes of that many elements. *)
Record permutes (p : permute) (shape : list Z) (el : Z) (bytes : list byte) (dims : list Z) : Prop := {
  pm_permutation : pm_axes p ≡ₚ seqZ 0 (zlen (pm_view p));
  pm_view_ok : view_ok p;
  pm_shape : Forall in_u64 shape;
  pm_positive : positive shape;
  pm_resolved : permute_resolve p shape = Some dims;
  pm_element : 0 < el;
  pm_bytes : zlen bytes = prodZ shape * el;
  pm_fits : prodZ shape * el < U64
}.

Lemma permute_resolve_positive p shape dims :
  Forall in_u64 shape -> view_ok p -> positive shape ->
  permute_resolve p shape = Some dims -> positive dims.
Proof.
  intros Hu Hv Hp Hr. unfold permute_resolve in Hr.
  destruct (checked_product 1 shape) as [elements|] eqn:Ee; [|done].
  apply checked_product_Some in Ee. rewrite Z.mul_1_l in Ee. subst elements.
  pose proof (prodZ_pos _ Hp) as Hel.
  destruct (resolve_loop _ _ _ _ _) as [[[resolved auto] known]|] eqn:El; [|done].
  apply resolve_loop_spec in El as [(-> & Hpos & _) _]; [|done..|].
  2: { split; [done|]. split; [constructor|done]. }
  destruct auto as [i|].
  - destruct (_ || _) eqn:Eg in Hr; [done|]. apply orb_false_elim in Eg as [_ Em%negb_false_iff].
    injection Hr as <-. apply Forall_insert; [done|]. pose proof (prodZ_pos _ Hpos) as Hk.
    apply is_multiple_of_true in Em; [|lia]. nia.
  - destruct (_ =? _); by simplify_eq.
Qed.

Lemma permutes_dims p shape el bytes dims :
  permutes p shape el bytes dims ->
  positive dims /\ pm_axes p ≡ₚ seqZ 0 (zlen dims) /\ prodZ dims = prodZ shape.
Proof.
  intros [Hperm Hv Hu Hp Hr _ _ _].
  destruct (permute_view_reshapes p shape dims) as [Hprod Hlen]; [done..|].
  split; [by eapply permute_resolve_positive|]. split; [|done].
  unfold zlen. by rewrite Hlen.
Qed.

(** Both directions of a declared permute are defined wherever the view
    resolves, and each undoes the other byte for byte: neither panics, a
    forward transform followed by the inverse one returns the tensor, and so
    does an inverse one followed by a forward one.  The forward transform is the
    transposition: the element of the output at the permuted coordinates is the
    element of the input at the coordinates. *)
Theorem transform_round_trip p shape el bytes dims :
  permutes p shape el bytes dims ->
  (exists moved, transform_apply (Forward p) bytes el shape = Some (Some moved) /\
     transposed bytes el dims (pm_axes p) moved /\
     transform_apply (Inverse p) moved el shape = Some (Some bytes)) /\
  (exists stored, transform_apply (Inverse p) bytes el shape = Some (Some stored) /\
     transform_apply (Forward p) stored el shape = Some (Some bytes) /\
     transposed stored el dims (pm_axes p) bytes).
Proof.
  intros Hp. destruct (permutes_dims _ _ _ _ _ Hp) as (Hpos & Hperm & Hprod).
  destruct Hp as [_ _ _ _ Hr Hel Hb Hfit]. rewrite <-Hprod in Hb, Hfit.
  destruct (invert_axes_ok (length dims) (pm_axes p) Hperm) as (inv & Hi & Hip & Hpick).
  set (es := pick dims (nats (pm_axes p))).
  assert (positive es) as Hes by (by apply es_pos).
  assert (prodZ es = prodZ dims) as Hpe by (by apply prod_es).
  assert (zlen es = zlen dims) as Hle by (unfold zlen; f_equal; by apply length_out_dims).
  cbn [transform_apply]. rewrite Hr, Hi, by_axes_pick by (by apply nats_perm). fold es. split.
  - destruct (permute_bytes_transposes dims (pm_axes p) el bytes) as (moved & Hm & Ht); [done..|].
    exists moved. rewrite Hm. split; [done|]. split; [done|].
    assert (permute_bytes moved el es inv = Some bytes) as ->; [|done].
    by eapply permute_bytes_inverts.
  - destruct (permute_bytes_transposes es inv el bytes) as (stored & Hs & Hsl & _);
      [done|by rewrite Hle|done|by rewrite Hpe..|].
    exists stored. rewrite Hs. split; [done|].
    destruct (invert_axes_ok (length dims) inv Hip) as (inv2 & Hi2 & Hip2 & Hpick2).
    assert (permute_bytes stored el (pick es (nats inv)) inv2 = Some bytes) as Hback.
    { eapply permute_bytes_inverts; [done|by rewrite Hle|done|done|by rewrite Hpe..|done]. }
    assert (pick es (nats inv) = dims) as He by (by apply Hpick). rewrite He in Hback.
    assert (inv2 = pm_axes p) as -> by (by eapply invert_twice). rewrite Hback. split; [done|].
    destruct (permute_bytes_transposes dims (pm_axes p) el stored) as (moved & Hm & Ht); [done..|by rewrite Hsl|done|].
    rewrite Hback in Hm. by injection Hm as <-.
Qed.

(** ** Content and layout *)

(** Bytes that are whole elements of [el] bytes in a shape. *)
Definition whole_elements (el : Z) (shape : list Z) (bytes : list byte) : Prop :=
  0 < el /\ positive shape /\ zlen bytes = prodZ shape * el /\ zlen bytes < U64.

(** A content and how a layout that permutes stores it: the transposition of its
    view. *)
Definition stored_as (p : permute) (shape : list Z) (el : Z) (content stored : list byte) : Prop :=
  exists dims, permute_resolve p shape = Some dims /\ transposed content el dims (pm_axes p) stored.

(** The same content in two layouts: [bytes] in the one that permutes by [source],
    [part] in the one that permutes by [target]. *)
Definition relaid (source target : option permute) (shape : list Z) (bytes part : list byte) : Prop :=
  match source, target with
  | None, None => part = bytes
  | Some s, Some t => s = t /\ part = bytes
  | None, Some t => forall el, whole_elements el shape bytes -> stored_as t shape el bytes part
  | Some s, None => forall el, whole_elements el shape bytes -> stored_as s shape el part bytes
  end.

(** The permute of a layout: its axes a permutation, its literals not negative. *)
Definition permutation_ok (p : permute) : Prop := pm_axes p ≡ₚ seqZ 0 (zlen (pm_view p)) /\ view_ok p.

Lemma transform_stores p shape el bytes part :
  permutation_ok p -> Forall in_u64 shape -> whole_elements el shape bytes ->
  (transform_apply (Forward p) bytes el shape = Some (Some part) -> stored_as p shape el bytes part) /\
  (transform_apply (Inverse p) bytes el shape = Some (Some part) -> stored_as p shape el part bytes).
Proof.
  intros [Hperm Hview] Hu (Hel & Hpos & Hz & Hlt).
  destruct (permute_resolve p shape) as [dims|] eqn:Er; [|cbn [transform_apply]; by rewrite Er].
  destruct (transform_round_trip p shape el bytes dims) as [(moved & Hf & Ht & _) (stored & Hi & _ & Ht')]; [split; (done || lia)|].
  rewrite Hf, Hi. split; intros [= <-]; by exists dims.
Qed.
Lemma elements_product shape el (bytes : list byte) :
  whole_elements el shape bytes -> foldl wmul 1 shape = prodZ shape /\ zlen bytes / Z.max (prodZ shape) 1 = el.
Proof.
  intros (Hel & Hpos & Hz & Hlt). pose proof (prodZ_pos _ Hpos). split.
  - rewrite foldl_wmul by (done || nia). lia.
  - rewrite Z.max_l by lia. rewrite Hz, Z.mul_comm, Z.div_mul by lia. done.
Qed.

(** Whatever it is given, the kernel answers with as many bytes. *)
Lemma permute_loop_length fuel input el out_dims strides block outer output counter written result :
  0 <= written -> permute_loop fuel input el out_dims strides block outer output counter written = Some result -> zlen result = zlen output.
Proof.
  revert output counter written. induction fuel as [|fuel IH]; intros output counter written Hw; cbn [permute_loop]; [done|]. cbv zeta.
  destruct (get_range _ _ _) as [bytes|]; [|done]. destruct (splice output written bytes) as [output'|] eqn:Es; [|done].
  assert (zlen output' = zlen output) as <-.
  { unfold splice in Es. destruct (Z.leb_spec (written + zlen bytes) (zlen output)); [|done]. injection Es as <-.
    unfold zlen in *. rewrite !length_app, length_take, length_drop. lia. }
  destruct (_ =? _); [by intros [= <-]|]. destruct (count_up _ _ _); [|done].
  apply IH. unfold wadd. by apply Z.mod_pos_bound.
Qed.
Lemma transform_length tr bytes el shape part : transform_apply tr bytes el shape = Some (Some part) -> zlen part = zlen bytes.
Proof.
  assert (forall dims axes, Some <$> permute_bytes bytes el dims axes = Some (Some part) -> zlen part = zlen bytes) as Hp.
  { intros dims axes. unfold permute_bytes. destruct (by_axes dims axes); [|done]. destruct (by_axes _ axes); [|done].
    destruct (copy_block _ _ _); [|done]. destruct (get_range _ _ _); [|done]. destruct (permute_loop _ _ _ _ _ _ _ _ _ _) eqn:E; [|done].
    apply permute_loop_length in E; [|done]. intros [= <-]. rewrite E. unfold zlen. by rewrite length_replicate. }
  destruct tr as [|p|p]; cbn [transform_apply]; [by intros [= <-]|..]; (destruct (permute_resolve p shape); [|done]); [apply Hp|].
  destruct (by_axes _ _); [|done]. destruct (invert_axes _); [|done]. apply Hp.
Qed.

(** Bytes that are not whole elements are not rearranged: here the last two of eight
    bytes, three elements of two bytes to the kernel, are lost. *)
Example partial_elements_lost :
  permute_bytes (byte_of <$> seqZ 0 8) 2 [1; 3] [1; 0] = Some (byte_of <$> [0; 1; 2; 3; 4; 5; 0; 1]).
Proof. vm_compute. reflexivity. Qed.

Lemma transform_round_trip_witness :
  (exists moved, transform_apply (Forward demo_permute) (byte_of <$> seqZ 0 64) 2 [16; 2] =
       Some (Some moved) /\
     transposed (byte_of <$> seqZ 0 64) 2 [4; 2; 2; 2] (pm_axes demo_permute) moved /\
     transform_apply (Inverse demo_permute) moved 2 [16; 2] = Some (Some (byte_of <$> seqZ 0 64))) /\
  (exists stored, transform_apply (Inverse demo_permute) (byte_of <$> seqZ 0 64) 2 [16; 2] =
       Some (Some stored) /\
     transform_apply (Forward demo_permute) stored 2 [16; 2] =
       Some (Some (byte_of <$> seqZ 0 64)) /\
     transposed stored 2 [4; 2; 2; 2] (pm_axes demo_permute) (byte_of <$> seqZ 0 64)).
Proof.
  apply transform_round_trip. constructor.
  - simpl. constructor. apply perm_swap.
  - repeat constructor; vm_compute; congruence.
  - repeat constructor; vm_compute; congruence.
  - repeat constructor.
  - vm_compute. reflexivity.
  - lia.
  - vm_compute. reflexivity.
  - vm_compute. reflexivity.
Defined.
