(* ===== verification/Adapter.v ===== *)
(** Layout adapters ([role_runs], [decide] and [derived_tensor] of
    [src/crates/tensorfs-core/src/adapter.rs]): whether a file written in one
    contract can be served in another as a view of the bytes it already has.
    A contract names the byte runs of a file by role; the target contract asks
    for roles; the decision says which source runs make up each target tensor,
    or why the answer is a conversion.

    The text of a reason or an error is represented by what it states. *)
From S2P Require Export Contract.
From S2P Require Import PlanTypes PermuteKernel.

(** ** Data *)

(** [enum AdapterError]; [AE_Panic] stands for a list of runs whose allocation
    does not return. *)
Inductive underivable : Type :=
| TwoCarry (role : list byte)
| NotWholeRows (role : list byte)
| RearrangedDifferently (name : list byte)
| RearrangedTwice (name : list byte).
Inductive adapter_error : Type :=
| AE_SourceMismatch
| AE_NotDerivable (detail : underivable)
| AE_Panic.

(** [struct SourceRun]. *)
Record source_run_t : Type := SourceRun {
  sr_role : list byte;
  sr_tensor : list byte;
  sr_dtype : list byte;
  sr_permute : option permute;
  sr_offset : Z;
  sr_length : Z;
  sr_rows : Z;
  sr_row_shape : list Z
}.

(** [struct DerivedTensor] and [struct Adapter]. *)
Record derived_tensor_t : Type := DerivedTensor {
  dt_name : list byte;
  dt_dtype : list byte;
  dt_shape : list Z;
  dt_runs : list source_run_t;
  dt_transform : transform
}.
Record adapter_t : Type := Adapter { ad_tensors : list derived_tensor_t }.

(** Why the answer is a conversion. *)
Inductive conversion : Type :=
| RequiredAbsent (role : list byte)
| RoleAbsent (role : list byte)
| NoRuns
| CastNeeded (name dtype other : list byte)
| RowsDiffer (name : list byte)
| NothingDescribed
| NoPlaceFor (role : list byte).

(** [enum Decision]. *)
Inductive decision : Type :=
| RunPreserving (adapter : adapter_t)
| Rearranged (adapter : adapter_t) (rearranged : list (list byte))
| Conversion (reason : conversion).

(** [Decision::is_viewable] and [Decision::adapter]. *)
Definition is_viewable (d : decision) : bool :=
  match d with Conversion _ => false | _ => true end.
Definition decision_adapter (d : decision) : option adapter_t :=
  match d with RunPreserving a | Rearranged a _ => Some a | Conversion _ => None end.

(** [DerivedTensor::length] and [DerivedTensor::is_whole_source_tensor]. *)
Definition dt_length (t : derived_tensor_t) : Z :=
  foldl (fun acc run => wadd acc (sr_length run)) 0 (dt_runs t).
Definition is_whole_source_tensor (t : derived_tensor_t) : bool :=
  match dt_runs t with
  | [only] => sr_rows only =? default 0 (head (dt_shape t))
  | _ => false
  end.

(** ** The runs of a file, by role *)

(** [source_run]. *)
Definition source_run (tensor : inventory_tensor) (role : list byte) (offset length : Z)
  : result adapter_error source_run_t :=
  let outer := Z.max (default 1 (head (it_shape tensor))) 1 in
  let row_bytes := it_length tensor / outer in
  if (row_bytes =? 0) || negb (is_multiple_of length row_bytes) then
    Err (AE_NotDerivable (NotWholeRows role))
  else
    Ok (SourceRun role (it_name tensor) (it_dtype tensor) None offset length
          (length / row_bytes) (drop 1 (it_shape tensor))).

(** [run.permute = ..]. *)
Definition with_permute (p : option permute) (r : source_run_t) : source_run_t :=
  SourceRun (sr_role r) (sr_tensor r) (sr_dtype r) p (sr_offset r) (sr_length r) (sr_rows r)
    (sr_row_shape r).

(** The loop over the parts of one tensor: the runs so far and the offset. *)
Definition part_step (tensor : inventory_tensor) (entry : tensor_pattern) (base : list byte)
    (st : btree source_run_t * Z) (part : fusion_run)
  : result adapter_error (btree source_run_t * Z) :=
  let '(runs, offset) := st in
  let role := base ++ fr_role part in
  let? run := source_run tensor role offset (fr_length part) in
  match bt_get role runs with
  | Some _ => Err (AE_NotDerivable (TwoCarry role))
  | None =>
      Ok (bt_insert role (with_permute (tp_permute entry) run) runs, wadd offset (fr_length part))
  end.

(** The loop over the tensors of the inventory. *)
Definition role_step `{Allocator} (c : contract) (runs : btree source_run_t) (tensor : inventory_tensor)
  : result adapter_error (btree source_run_t) :=
  match entry_for c (it_name tensor) with
  | None => Ok runs
  | Some entry =>
      let! values := captures (tp_pattern entry) (it_name tensor) ?: AE_SourceMismatch in
      let! base := instantiate (tp_role entry) values ?: AE_SourceMismatch in
      let! declared := runs_of c (it_name tensor) (it_shape tensor) (it_length tensor) ?: AE_Panic in
      let parts := default [FusionRun [] (it_length tensor)] declared in
      let? (runs, _) := for_each (part_step tensor entry base) (runs, it_offset tensor) parts in
      Ok runs
  end.

(** [role_runs]. *)
Definition role_runs `{Allocator} (c : contract) (inventory : tensor_inventory)
  : result adapter_error (btree source_run_t) :=
  for_each (role_step c) [] (inv_tensors inventory).

(** ** Deriving a target tensor *)

(** [enum DerivationFailure]. *)
Inductive derivation_failure : Type :=
| NotALayoutChange (reason : conversion)
| Inexpressible (detail : underivable).

(** The checks of one run against the first. *)
Definition check_run (name dtype : list byte) (row_shape : list Z) (source_permute : option permute)
    (u : unit) (run : source_run_t) : result derivation_failure unit :=
  if negb (bool_decide (sr_dtype run = dtype)) then
    Err (NotALayoutChange (CastNeeded name dtype (sr_dtype run)))
  else if negb (bool_decide (sr_row_shape run = row_shape)) then
    Err (NotALayoutChange (RowsDiffer name))
  else if negb (bool_decide (sr_permute run = source_permute)) then
    Err (Inexpressible (RearrangedDifferently name))
  else Ok u.

(** The transform between two layouts of a role. *)
Definition transform_between (name : list byte) (source target : option permute)
  : result derivation_failure transform :=
  match source, target with
  | None, None => Ok Identity
  | Some s, Some t =>
      if bool_decide (s = t) then Ok Identity else Err (Inexpressible (RearrangedTwice name))
  | None, Some t => Ok (Forward t)
  | Some s, None => Ok (Inverse s)
  end.

(** [derived_tensor]. *)
Definition derived_tensor (name : list byte) (runs : list source_run_t)
    (target_permute : option permute) : result derivation_failure derived_tensor_t :=
  let! first := head runs ?: NotALayoutChange NoRuns in
  let dtype := sr_dtype first in
  let row_shape := sr_row_shape first in
  let source_permute := sr_permute first in
  let? _ := for_each (check_run name dtype row_shape source_permute) tt runs in
  let? t := transform_between name source_permute target_permute in
  let rows := foldl (fun acc run => wadd acc (sr_rows run)) 0 runs in
  Ok (DerivedTensor name dtype (rows :: row_shape) runs t).

(** [entry_suffixes]. *)
Definition entry_suffixes (entry : tensor_pattern) : list (list byte) :=
  match tp_fusion entry with
  | None => [[]]
  | Some f =>
      seqZ 0 (fu_groups f) ≫= fun group =>
        (fun part => run_role (fu_groups f) group part) <$> fu_parts f
  end.

(** ** The decision *)

(** [Vec<u64>]'s order, and [BTreeSet::insert] over it. *)
Fixpoint values_cmp (a b : list Z) : comparison :=
  match a, b with
  | [], [] => Eq
  | [], _ :: _ => Lt
  | _ :: _, [] => Gt
  | x :: a, y :: b => match Z.compare x y with Eq => values_cmp a b | c => c end
  end.
Fixpoint values_insert (v : list Z) (set : list (list Z)) : list (list Z) :=
  match set with
  | [] => [v]
  | w :: rest =>
      match values_cmp v w with
      | Lt => v :: set
      | Eq => set
      | Gt => w :: values_insert v rest
      end
  end.

(** The hole values a declaration covers, read back out of the roles. *)
Definition covered_values (entry : tensor_pattern) (suffixes : list (list byte))
    (roles : list (list byte)) : list (list Z) :=
  foldl (fun set role =>
    foldl (fun set suffix =>
      match strip_suffix suffix role with
      | Some base =>
          match captures (tp_role entry) base with
          | Some values => values_insert values set
          | None => set
          end
      | None => set
      end) set suffixes) [] roles.

(** How a loop of [decide] stops early: [return Ok(Conversion)] or [return Err]. *)
Inductive stop : Type :=
| Converts (reason : conversion)
| Refuses (e : adapter_error).

(** The loop that gathers the runs of one target tensor: the roles claimed so
    far and the runs. *)
Definition gather_step (available : btree source_run_t) (base : list byte)
    (st : list (list byte) * list source_run_t) (suffix : list byte)
  : result stop (list (list byte) * list source_run_t) :=
  let '(claimed, runs) := st in
  let role := base ++ suffix in
  match bt_get role available with
  | None => Err (Converts (RoleAbsent role))
  | Some run => Ok (sr_role run :: claimed, runs ++ [run])
  end.

(** One set of hole values of one declaration. *)
Definition values_step (available : btree source_run_t) (entry : tensor_pattern)
    (st : list (list byte) * list derived_tensor_t) (values : list Z)
  : result stop (list (list byte) * list derived_tensor_t) :=
  let '(claimed, tensors) := st in
  let! name := instantiate (tp_pattern entry) values ?: Refuses AE_SourceMismatch in
  let! base := instantiate (tp_role entry) values ?: Refuses AE_SourceMismatch in
  let? (claimed, runs) :=
    for_each (gather_step available base) (claimed, []) (entry_suffixes entry) in
  match derived_tensor name runs (tp_permute entry) with
  | Ok tensor => Ok (claimed, tensors ++ [tensor])
  | Err (NotALayoutChange reason) => Err (Converts reason)
  | Err (Inexpressible detail) => Err (Refuses (AE_NotDerivable detail))
  end.

(** One declaration of the target. *)
Definition target_step (available : btree source_run_t)
    (st : list (list byte) * list derived_tensor_t) (entry : tensor_pattern)
  : result stop (list (list byte) * list derived_tensor_t) :=
  let values := covered_values entry (entry_suffixes entry) available.*1 in
  if bool_decide (values = []) && tp_required entry then
    Err (Converts (RequiredAbsent (pt_text (tp_role entry))))
  else for_each (values_step available entry) st values.

(** [decide]. *)
Definition decide_layout `{Allocator} (source : contract) (inventory : tensor_inventory) (target : contract)
  : result adapter_error decision :=
  let? available := role_runs source inventory in
  match for_each (target_step available) ([], []) (c_tensors target) with
  | Err (Converts reason) => Ok (Conversion reason)
  | Err (Refuses e) => Err e
  | Ok (claimed, tensors) =>
      if bool_decide (tensors = []) then Ok (Conversion NothingDescribed)
      else
        match list_find (fun role => role ∉ claimed) available.*1 with
        | Some (_, orphan) => Ok (Conversion (NoPlaceFor orphan))
        | None =>
            let rearranged :=
              dt_name <$> filter (fun t => transform_is_identity (dt_transform t) = false) tensors in
            let adapter := Adapter tensors in
            if bool_decide (rearranged = []) then Ok (RunPreserving adapter)
            else Ok (Rearranged adapter rearranged)
        end
  end.

(** ** The runs of a file are its tensors, cut *)

Section views.
Context `{Allocator}.

(** The runs one tensor is laid out as, from [offset] on. *)
Fixpoint lay_runs (tensor : inventory_tensor) (p : option permute) (base : list byte) (offset : Z)
    (parts : list fusion_run) : list source_run_t :=
  match parts with
  | [] => []
  | part :: parts =>
      let outer := Z.max (default 1 (head (it_shape tensor))) 1 in
      SourceRun (base ++ fr_role part) (it_name tensor) (it_dtype tensor) p offset (fr_length part)
        (fr_length part / (it_length tensor / outer)) (drop 1 (it_shape tensor))
      :: lay_runs tensor p base (offset + fr_length part) parts
  end.

Definition keyed (r : source_run_t) : list byte * source_run_t := (sr_role r, r).

(** The parts of a tensor the contract describes. *)
Definition tensor_parts (c : contract) (tensor : inventory_tensor) : list fusion_run :=
  default [FusionRun [] (it_length tensor)]
    (mjoin (runs_of c (it_name tensor) (it_shape tensor) (it_length tensor))).

(** The runs of one tensor of a file. *)
Definition tensor_runs (c : contract) (tensor : inventory_tensor) : list source_run_t :=
  match entry_for c (it_name tensor) with
  | None => []
  | Some entry =>
      match captures (tp_pattern entry) (it_name tensor) ≫= instantiate (tp_role entry) with
      | None => []
      | Some base => lay_runs tensor (tp_permute entry) base (it_offset tensor) (tensor_parts c tensor)
      end
  end.

(** What an inventory of a parsed file guarantees. *)
Definition tensor_fits (t : inventory_tensor) : Prop :=
  0 <= it_offset t /\ 0 <= it_length t /\ it_offset t + it_length t < U64 /\ Forall in_u64 (it_shape t).

Lemma source_run_Ok tensor role offset length r :
  source_run tensor role offset length = Ok r ->
  let row_bytes := it_length tensor / Z.max (default 1 (head (it_shape tensor))) 1 in
  row_bytes <> 0 /\ length mod row_bytes = 0 /\
  r = SourceRun role (it_name tensor) (it_dtype tensor) None offset length
        (length / row_bytes) (drop 1 (it_shape tensor)).
Proof.
  unfold source_run. destruct (_ || _) eqn:E; [done|]. intros [= <-]. simpl.
  apply orb_false_elim in E as [E%Z.eqb_neq Em%negb_false_iff]. split; [done|]. split; [|done].
  unfold is_multiple_of in Em. destruct (Z.eqb_spec (it_length tensor / Z.max (default 1 (head (it_shape tensor))) 1) 0); [done|].
  lia.
Qed.

Lemma part_loop tensor entry base parts runs offset runs' offset' :
  bt_sorted runs -> Forall (fun part => 0 <= fr_length part) parts -> 0 <= offset ->
  offset + sumZ (fr_length <$> parts) < U64 ->
  for_each (part_step tensor entry base) (runs, offset) parts = Ok (runs', offset') ->
  bt_sorted runs' /\
  runs' ≡ₚ runs ++ (keyed <$> lay_runs tensor (tp_permute entry) base offset parts).
Proof.
  revert runs offset. induction parts as [|part parts IH]; intros runs offset Hs Hp Ho Hfit; simpl.
  { intros [= <- <-]. rewrite app_nil_r. done. }
  apply Forall_cons in Hp as [Hl Hp]. rewrite fmap_cons in Hfit.
  assert (0 <= sumZ (fr_length <$> parts)) as Hnn.
  { apply sumZ_nonneg. by rewrite Forall_fmap. }
  change (sumZ (fr_length part :: (fr_length <$> parts)))
    with (fr_length part + sumZ (fr_length <$> parts)) in Hfit.
  destruct (source_run _ _ _ _) as [r|] eqn:Er; simpl; [|done].
  apply source_run_Ok in Er as (_ & _ & ->).
  destruct (bt_get _ runs) as [|] eqn:Eg; [done|]. rewrite wadd_small by lia. intros Hrun.
  apply bt_get_None in Eg. apply IH in Hrun as [Hs' Hperm]; [|by apply bt_insert_sorted|done|lia|lia].
  split; [done|]. rewrite Hperm, bt_insert_fresh by done. simpl.
  by rewrite <-Permutation_middle.
Qed.

Lemma tensor_parts_tile c tensor :
  contract_ok c -> contract_fits c -> tensor_fits tensor ->
  sumZ (fr_length <$> tensor_parts c tensor) = it_length tensor /\
  Forall (fun part => 0 <= fr_length part) (tensor_parts c tensor).
Proof.
  intros Hc Hf (Ho & Hl & Hfit & Hs). unfold tensor_parts.
  destruct (mjoin (runs_of _ _ _ _)) as [rs|] eqn:Er; simpl.
  - assert (runs_of c (it_name tensor) (it_shape tensor) (it_length tensor) = Some (Some rs)) as Er'
      by (destruct (runs_of _ _ _ _); [by f_equal|done]).
    apply runs_of_Some in Er' as (t & f & Et & Ef & Erun & _).
    pose proof (co_tensors _ Hc) as Hts. rewrite Forall_forall in Hts.
    pose proof (to_fusion _ (Hts _ Et) f Ef) as (Hfok & _).
    unfold contract_fits in Hf. rewrite Forall_forall in Hf.
    by destruct (runs_partition f (it_shape tensor) (it_length tensor) rs) as (Hsum & _ & Hpos);
      [done|by eapply Hf|lia|done..|].
  - split; [unfold sumZ; simpl; lia|]. by repeat constructor.
Qed.

Lemma role_step_runs c runs tensor runs' :
  contract_ok c -> contract_fits c -> tensor_fits tensor -> bt_sorted runs ->
  role_step c runs tensor = Ok runs' ->
  bt_sorted runs' /\ runs' ≡ₚ runs ++ (keyed <$> tensor_runs c tensor).
Proof.
  intros Hc Hf Ht Hs. unfold role_step, tensor_runs.
  destruct (entry_for c (it_name tensor)) as [entry|] eqn:Ee.
  2: { intros [= <-]. by rewrite app_nil_r. }
  destruct (captures _ _) as [values|]; simpl; [|done].
  destruct (instantiate _ values) as [base|]; simpl; [|done].
  destruct (tensor_parts_tile c tensor) as [Hsum Hpos]; [done..|].
  unfold tensor_parts in *. destruct (runs_of _ _ _ _) as [declared|]; [|done]. simpl in *.
  destruct (for_each _ _ _) as [[runs1 offset]|] eqn:El; [|done]. intros [= <-].
  destruct Ht as (Ho & Hl & Hfit & _). eapply part_loop; [done..|lia|done].
Qed.

(** The runs of a file, by role, are the runs of its tensors; no role is carried
    twice. *)
Lemma role_runs_spec c inventory runs :
  contract_ok c -> contract_fits c -> Forall tensor_fits (inv_tensors inventory) ->
  role_runs c inventory = Ok runs ->
  bt_sorted runs /\ runs ≡ₚ keyed <$> (inv_tensors inventory ≫= tensor_runs c).
Proof.
  intros Hc Hf Ht. unfold role_runs. intros Hrun.
  apply (for_each_inv _ (fun pre runs => bt_sorted runs /\ runs ≡ₚ keyed <$> (pre ≫= tensor_runs c)))
    in Hrun; [done|split; [constructor|done]|].
  intros pre tensor post t t' Hl [Hs Hp] Hstep.
  rewrite Hl, Forall_app, Forall_cons in Ht. destruct Ht as (_ & Ht & _).
  apply role_step_runs in Hstep as [Hs' Hp']; [|done..]. split; [done|].
  by rewrite Hp', Hp, bind_app, fmap_app, bind_singleton.
Qed.

(** A byte of a tensor is in one of its runs. *)
Lemma lay_runs_cover tensor p base offset parts x :
  Forall (fun part => 0 <= fr_length part) parts ->
  offset <= x < offset + sumZ (fr_length <$> parts) ->
  exists r, r ∈ lay_runs tensor p base offset parts /\ sr_offset r <= x < sr_offset r + sr_length r.
Proof.
  intros Hp. revert offset. induction Hp as [|part parts Hl Hp IH]; intros offset Hx.
  { unfold sumZ in Hx. simpl in Hx. lia. }
  rewrite fmap_cons in Hx. change (sumZ (fr_length part :: (fr_length <$> parts)))
    with (fr_length part + sumZ (fr_length <$> parts)) in Hx. simpl.
  destruct (Z.lt_ge_cases x (offset + fr_length part)).
  - eexists. split; [apply list_elem_of_here|]. simpl. lia.
  - destruct (IH (offset + fr_length part)) as (r & Hr & Hrx); [lia|].
    exists r. split; [by apply list_elem_of_further|done].
Qed.

(** As many values as holes instantiate a pattern. *)
Lemma instantiate_total p values : zlen values = holes p -> exists name, instantiate p values = Some name.
Proof.
  intros Hl. unfold instantiate. rewrite Hl, Z.eqb_refl. simpl. unfold holes in Hl.
  revert values Hl. induction (pt_pieces p) as [|[text|] pieces IH]; intros values Hl; [by eexists|..].
  - rewrite filter_cons, decide_False in Hl by done. simpl.
    destruct (IH values Hl) as [tl ->]. by eexists.
  - rewrite filter_cons, decide_True, zlen_cons in Hl by done. simpl.
    destruct values as [|n values].
    { change (zlen []) with 0 in Hl. pose proof (zlen_nonneg (filter (fun x => x = Integer) pieces)). lia. }
    rewrite zlen_cons in Hl. destruct (IH values ltac:(lia)) as [tl ->]. by eexists.
Qed.

(** A tensor the contract describes. *)
Definition described (c : contract) (tensor : inventory_tensor) : Prop := is_Some (entry_for c (it_name tensor)).

Lemma described_base c tensor entry :
  contract_ok c -> entry_for c (it_name tensor) = Some entry ->
  exists base, captures (tp_pattern entry) (it_name tensor) ≫= instantiate (tp_role entry) = Some base.
Proof.
  intros Hc He. pose proof He as Hin. apply entry_for_elem in Hin.
  pose proof (co_tensors _ Hc) as Hts. rewrite Forall_forall in Hts. specialize (Hts _ Hin).
  unfold entry_for in He. apply fmap_Some in He as ([i t] & Hf & ->).
  apply list_find_Some in Hf as (_ & Hm & _). simpl in *. unfold matches in Hm.
  destruct (captures (tp_pattern t) (it_name tensor)) as [values|] eqn:Ec; [|done]. simpl.
  unfold captures in Ec. destruct (capture_loop _ _ _) as [[rest captured]|] eqn:El; [|done].
  apply capture_loop_sound in El as (vs & filled & -> & _ & _ & _ & Hlen). simpl in Ec.
  case_bool_decide; [|done]. injection Ec as <-.
  apply instantiate_total. by rewrite (to_holes _ Hts).
Qed.

(** Every byte of a described tensor is in a run of the file. *)
Lemma tensor_covered c tensor x :
  contract_ok c -> contract_fits c -> tensor_fits tensor -> described c tensor ->
  it_offset tensor <= x < it_offset tensor + it_length tensor ->
  exists r, r ∈ tensor_runs c tensor /\ sr_offset r <= x < sr_offset r + sr_length r.
Proof.
  intros Hc Hf Ht [entry He] Hx. unfold tensor_runs. rewrite He.
  destruct (described_base c tensor entry) as [base ->]; [done..|].
  destruct (tensor_parts_tile c tensor) as [Hsum Hpos]; [done..|].
  apply lay_runs_cover; [done|]. by rewrite Hsum.
Qed.

(** ** What the decision derives *)

(** A target tensor: its name and its runs are those of one declaration and one
    set of hole values. *)
Definition derives (available : btree source_run_t) (target : contract) (t : derived_tensor_t) : Prop :=
  exists entry values name base runs,
    entry ∈ c_tensors target /\
    instantiate (tp_pattern entry) values = Some name /\
    instantiate (tp_role entry) values = Some base /\
    mapM (fun suffix => bt_get (base ++ suffix) available) (entry_suffixes entry) = Some runs /\
    derived_tensor name runs (tp_permute entry) = Ok t.

(** Its shape, its runs and what is done to them. *)
Record derived_ok (t : derived_tensor_t) : Prop := {
  do_runs : dt_runs t <> [];
  do_dtype : Forall (fun r => sr_dtype r = dt_dtype t) (dt_runs t);
  do_shape : exists rows row_shape, dt_shape t = rows :: row_shape /\
    rows = foldl (fun acc r => wadd acc (sr_rows r)) 0 (dt_runs t) /\
    Forall (fun r => sr_row_shape r = row_shape) (dt_runs t);
  do_permute : exists p, Forall (fun r => sr_permute r = p) (dt_runs t)
}.

Lemma derived_tensor_Ok name runs p t :
  derived_tensor name runs p = Ok t -> dt_name t = name /\ dt_runs t = runs /\ derived_ok t.
Proof.
  unfold derived_tensor. destruct (head runs) as [first|] eqn:Eh; simpl; [|done].
  destruct (for_each _ _ _) as [u|] eqn:Ef; simpl; [|done].
  destruct (transform_between _ _ _) as [tr|]; simpl; [|done]. intros [= <-]. simpl.
  split; [done|]. split; [done|].
  apply (for_each_inv _ (fun pre _ => Forall (fun r => sr_dtype r = sr_dtype first /\
    sr_row_shape r = sr_row_shape first /\ sr_permute r = sr_permute first) pre)) in Ef.
  - split; simpl.
    + by intros ->.
    + eapply Forall_impl; [done|]. by intros r (? & _).
    + exists (foldl (fun acc r => wadd acc (sr_rows r)) 0 runs), (sr_row_shape first).
      split; [done|]. split; [done|]. eapply Forall_impl; [done|]. by intros r (_ & ? & _).
    + exists (sr_permute first). eapply Forall_impl; [done|]. by intros r (_ & _ & ?).
  - constructor.
  - intros pre r post t t' _ Hpre. unfold check_run.
    repeat (case_bool_decide; simpl; [|done]). intros _.
    apply Forall_app. split; [done|]. by repeat constructor.
Qed.

Lemma derived_tensor_transform name runs p t :
  derived_tensor name runs p = Ok t ->
  exists source, Forall (fun r => sr_permute r = source) runs /\ transform_between name source p = Ok (dt_transform t).
Proof.
  intros Hd. pose proof (derived_tensor_Ok _ _ _ _ Hd) as (_ & Hruns & [_ _ _ [q Hq]]). rewrite Hruns in Hq. exists q. split; [done|].
  unfold derived_tensor in Hd. destruct (head runs) as [first|] eqn:Eh; simpl in Hd; [|done].
  destruct (for_each _ _ _) as [u|]; simpl in Hd; [|done].
  assert (sr_permute first = q) as <-. { destruct runs; [done|]. injection Eh as ->. by apply Forall_cons in Hq as [? _]. }
  destruct (transform_between _ _ _) as [tr|]; simpl in Hd; [|done]. by injection Hd as <-.
Qed.

(** The roles a layout splits a tensor into, in the order of its runs. *)
Definition split_roles (entry : tensor_pattern) : list (list byte) :=
  match tp_fusion entry with
  | None => [[]]
  | Some f => fr_role <$> default [] (run_list f 0)
  end.
Lemma entry_suffixes_split entry : entry_suffixes entry = split_roles entry.
Proof.
  unfold entry_suffixes, split_roles. destruct (tp_fusion entry) as [f|]; [|done]. unfold run_list.
  set (pairs := seqZ 0 (fu_groups f) ≫= fun group => (fun part => (group, part)) <$> fu_parts f).
  assert (mapM (fun '(group, part) => let* length := checked_mul 0 (fp_share part) in
      Some (FusionRun (run_role (fu_groups f) group part) length)) pairs =
    Some ((fun gp => FusionRun (run_role (fu_groups f) gp.1 gp.2) 0) <$> pairs)) as ->.
  { induction pairs as [|[g part] pairs IH]; [done|]. cbn [mapM fmap list_fmap]. rewrite IH. done. }
  cbn [from_option]. unfold id. rewrite <-list_fmap_compose. subst pairs. induction (seqZ 0 (fu_groups f)) as [|g gs IH]; [done|].
  rewrite !bind_cons, fmap_app, <-IH. f_equal. by rewrite <-list_fmap_compose.
Qed.

Lemma gather_runs available base suffixes claimed runs claimed' runs' :
  for_each (gather_step available base) (claimed, runs) suffixes = Ok (claimed', runs') ->
  exists more, mapM (fun suffix => bt_get (base ++ suffix) available) suffixes = Some more /\
    runs' = runs ++ more /\ claimed' = reverse (sr_role <$> more) ++ claimed.
Proof.
  revert claimed runs. induction suffixes as [|suffix suffixes IH]; intros claimed runs; simpl.
  { intros [= <- <-]. exists []. by rewrite app_nil_r. }
  destruct (bt_get _ available) as [run|]; simpl; [|done]. intros Hrun.
  apply IH in Hrun as (more & -> & -> & ->). exists (run :: more). simpl.
  rewrite <-app_assoc. split; [done|]. split; [done|]. rewrite reverse_cons, <-app_assoc. done.
Qed.

(** The state of the loop over the target's declarations. *)
Definition deriving (available : btree source_run_t) (target : contract)
    (st : list (list byte) * list derived_tensor_t) : Prop :=
  Forall (derives available target) st.2 /\
  forall role, role ∈ st.1 <-> exists t r, t ∈ st.2 /\ r ∈ dt_runs t /\ sr_role r = role.

Lemma values_step_deriving available target entry st values st' :
  entry ∈ c_tensors target -> deriving available target st ->
  values_step available entry st values = Ok st' -> deriving available target st'.
Proof.
  intros Hin [Hd Hc]. destruct st as [claimed tensors]. unfold values_step. simpl in *.
  destruct (instantiate (tp_pattern entry) values) as [name|] eqn:En; simpl; [|done].
  destruct (instantiate (tp_role entry) values) as [base|] eqn:Eb; simpl; [|done].
  destruct (for_each _ _ _) as [[claimed1 runs]|] eqn:Eg; simpl; [|done].
  apply gather_runs in Eg as (more & Hm & Hr & ->). simpl in Hr. subst runs.
  destruct (derived_tensor name more (tp_permute entry)) as [t|[]] eqn:Ed; [|done..].
  intros [= <-]. pose proof Ed as Ed'. apply derived_tensor_Ok in Ed' as (_ & Hruns & _). split; simpl.
  - apply Forall_app. split; [done|]. apply Forall_singleton. by exists entry, values, name, base, more.
  - intros role. rewrite elem_of_app, elem_of_reverse, list_elem_of_fmap, Hc. split.
    + intros [(r & -> & Hr)|(t' & r & Ht & Hr & Hrole)].
      * exists t, r. rewrite Hruns. set_solver.
      * exists t', r. set_solver.
    + intros (t' & r & [Ht|Ht%list_elem_of_singleton]%elem_of_app & Hr & <-).
      * right. by exists t', r.
      * subst t'. rewrite Hruns in Hr. left. by exists r.
Qed.

Lemma targets_deriving available target st :
  for_each (target_step available) ([], []) (c_tensors target) = Ok st -> deriving available target st.
Proof.
  intros Hrun. apply (for_each_inv _ (fun _ => deriving available target)) in Hrun; [done|..].
  { split; [constructor|]. intros role. simpl. set_solver. }
  intros pre entry post t t' Hl Ht. unfold target_step. destruct (_ && _); [done|].
  intros Hs. apply (for_each_inv _ (fun _ => deriving available target)) in Hs; [done|done|].
  intros pre' values post' u u' _ Hu Hstep.
  eapply values_step_deriving; [|done..]. rewrite Hl. set_solver.
Qed.

Lemma none_rearranged tensors :
  dt_name <$> filter (fun t => transform_is_identity (dt_transform t) = false) tensors = [] <->
  Forall (fun t => dt_transform t = Identity) tensors.
Proof.
  induction tensors as [|t tensors IH]; [by split|]. rewrite filter_cons, Forall_cons.
  destruct (dt_transform t); simpl; [rewrite IH; tauto|..]; (split; [done|by intros [? _]]).
Qed.

Lemma decide_layout_view source inventory target d a :
  decide_layout source inventory target = Ok d -> decision_adapter d = Some a ->
  exists available, role_runs source inventory = Ok available /\
    Forall (derives available target) (ad_tensors a) /\
    (forall role, role ∈ available.*1 -> exists t r, t ∈ ad_tensors a /\ r ∈ dt_runs t /\ sr_role r = role) /\
    (d = RunPreserving a <-> Forall (fun t => dt_transform t = Identity) (ad_tensors a)).
Proof.
  unfold decide_layout. destruct (role_runs source inventory) as [available|]; simpl; [|done].
  destruct (for_each _ _ _) as [[claimed tensors]|[]] eqn:Ef; [|by intros [= <-]|done].
  apply targets_deriving in Ef as [Hd Hc]. simpl in *.
  case_bool_decide; [by intros [= <-]|].
  destruct (list_find _ _) as [[i orphan]|] eqn:Eo; [by intros [= <-]|].
  apply list_find_None in Eo. rewrite Forall_forall in Eo.
  assert (forall role, role ∈ available.*1 ->
    exists t r, t ∈ tensors /\ r ∈ dt_runs t /\ sr_role r = role) as Hall.
  { intros role Hr. apply Hc. specialize (Eo role Hr). by apply dec_stable. }
  case_bool_decide as Hr; intros [= <-] [= <-]; exists available; simpl.
  - split; [done|]. split; [done|]. split; [done|]. split; [|done]. intros _. by apply none_rearranged.
  - split; [done|]. split; [done|]. split; [done|]. split; [done|]. by intros Hf%none_rearranged.
Qed.

Lemma mapM_elem {A B} (f : A -> option B) l k y : mapM f l = Some k -> y ∈ k -> exists x, x ∈ l /\ f x = Some y.
Proof.
  revert k. induction l as [|x l IH]; intros k; simpl; [intros [= <-]; set_solver|].
  destruct (f x) as [z|] eqn:Ez; simpl; [|done]. destruct (mapM f l) as [k'|]; simpl; [|done].
  intros [= <-] [->|Hy]%elem_of_cons; [exists x; set_solver|].
  destruct (IH k' eq_refl Hy) as (x' & ? & ?). exists x'. set_solver.
Qed.

(** The runs of a derived tensor are runs of the file, under their own roles. *)
Lemma derives_runs available target t :
  derives available target t ->
  derived_ok t /\ Forall (fun r => exists role, bt_get role available = Some r) (dt_runs t).
Proof.
  intros (entry & values & name & base & runs & _ & _ & _ & Hm & Hd).
  apply derived_tensor_Ok in Hd as (_ & -> & Hok). split; [done|].
  apply Forall_forall. intros r Hr. destruct (mapM_elem _ _ _ _ Hm Hr) as (suffix & _ & Hg).
  by exists (base ++ suffix).
Qed.

(** A view loses no weight.  When the decision is that a file can be served
    in another layout, every target tensor is a non-empty sequence of byte runs
    of the source's own tensors, of one dtype and one row shape, named and
    ordered as a declaration of the target asks; every byte of every tensor the
    source contract describes is in a run of some target tensor; and the answer
    is "run-preserving" exactly when no tensor's bytes have to move. *)
Theorem view_keeps_every_byte source inventory target d a :
  contract_ok source -> contract_fits source -> Forall tensor_fits (inv_tensors inventory) ->
  decide_layout source inventory target = Ok d -> decision_adapter d = Some a ->
  (forall t, t ∈ ad_tensors a -> derived_ok t /\
     (exists available, role_runs source inventory = Ok available /\ derives available target t) /\
     Forall (fun r => exists tensor, tensor ∈ inv_tensors inventory /\ r ∈ tensor_runs source tensor)
       (dt_runs t)) /\
  (forall tensor x, tensor ∈ inv_tensors inventory -> described source tensor ->
     it_offset tensor <= x < it_offset tensor + it_length tensor ->
     exists t r, t ∈ ad_tensors a /\ r ∈ dt_runs t /\ sr_offset r <= x < sr_offset r + sr_length r) /\
  (d = RunPreserving a <-> Forall (fun t => dt_transform t = Identity) (ad_tensors a)).
Proof.
  intros Hc Hf Ht Hd Ha.
  destruct (decide_layout_view _ _ _ _ _ Hd Ha) as (available & Hrole & Hder & Hall & Hid).
  destruct (role_runs_spec _ _ _ Hc Hf Ht Hrole) as [Hs Hp]. rewrite Forall_forall in Hder.
  rewrite Forall_forall in Ht.
  assert (forall role r, bt_get role available = Some r -> sr_role r = role /\
    r ∈ inv_tensors inventory ≫= tensor_runs source) as Hget.
  { intros role r Hg%bt_get_Some_1. rewrite Hp in Hg.
    apply list_elem_of_fmap in Hg as (r' & [= -> ->] & Hr'). done. }
  split; [|split; [|done]].
  - intros t Hin. destruct (derives_runs _ _ _ (Hder t Hin)) as [Hok Hr]. split; [done|].
    split; [exists available; auto|]. eapply Forall_impl; [done|]. intros r [role Hg].
    apply Hget in Hg as [_ Hr']. apply list_elem_of_bind in Hr' as (tensor & ? & ?). eauto.
  - intros tensor x Hin Hdes Hx.
    destruct (tensor_covered source tensor x) as (r & Hr & Hrx); [by auto..|].
    assert ((sr_role r, r) ∈ available) as Hav.
    { rewrite Hp. apply list_elem_of_fmap. exists r. split; [done|]. apply list_elem_of_bind. eauto. }
    destruct (Hall (sr_role r)) as (t & r' & Hta & Hr' & Hrole').
    { apply list_elem_of_fmap. by exists (sr_role r, r). }
    exists t, r'. split; [done|]. split; [done|].
    destruct (derives_runs _ _ _ (Hder t Hta)) as [_ Hrs]. rewrite Forall_forall in Hrs.
    destruct (Hrs r' Hr') as [role Hg]. destruct (Hget _ _ Hg) as [Hro _].
    apply bt_get_Some in Hav; [|done]. rewrite Hrole' in Hro. subst role.
    rewrite Hav in Hg. by injection Hg as <-.
Qed.

End views.

(** ** Concrete layouts *)

#[local] Existing Instance ample_memory.

(** The layouts of the tests: a head-interleaved fused projection beside a plain
    tensor, the same weights split and renamed, and one that permutes the plain
    tensor. *)
Definition doc (tensors : list raw_tensor) : raw_contract :=
  RawContract CONTRACT_FORMAT None None [] None tensors [].
Definition plain_tensor (role pattern : list byte) (p : option raw_permute) : raw_tensor :=
  RawTensor role pattern [] (Some 2) true None p.
Definition fused_qkv : raw_tensor :=
  RawTensor (bstr "blocks.{i}.attn.qkv") (bstr "blocks.{i}.attn.qkv_proj.weight") [] (Some 2) true
    (Some (RawFusion 0 4 [RawFusionPart (bstr "q") 1; RawFusionPart (bstr "k") 1; RawFusionPart (bstr "v") 1]))
    None.
Definition split_part (part : list byte) : raw_tensor :=
  RawTensor (bstr "blocks.{i}.attn.qkv#" ++ part)
    (bstr "transformer_blocks.{i}.attn.to_" ++ part ++ bstr ".weight") [] (Some 2) true
    (Some (RawFusion 0 4 [RawFusionPart [] 1])) None.

Definition native_doc : raw_contract :=
  doc [fused_qkv; plain_tensor (bstr "blocks.{i}.mlp") (bstr "blocks.{i}.mlp.fc1.weight") None].
Definition diffusers_doc : raw_contract :=
  doc [split_part (bstr "q"); split_part (bstr "k"); split_part (bstr "v");
       plain_tensor (bstr "blocks.{i}.mlp") (bstr "transformer_blocks.{i}.ff.net.0.proj.weight") None].
Definition permuted_doc : raw_contract :=
  doc [fused_qkv;
       plain_tensor (bstr "blocks.{i}.mlp") (bstr "blocks.{i}.mlp.fc1.weight")
         (Some (RawPermute [JString (bstr "auto"); JNumber (Some 2); JNumber (Some 2); JString (bstr "shape[1]")]
                  [0; 2; 1; 3]))].

Definition no_contract : contract := Contract None [] None [] [].
Definition validated (raw : raw_contract) : contract :=
  match raw_validate raw with Ok c => c | Err _ => no_contract end.

Definition RUN : Z := 1024 * 1024.
Definition native_inventory : tensor_inventory :=
  TensorInventory TF_SafetensorsV1
    [InventoryTensor (bstr "blocks.0.attn.qkv_proj.weight") (bstr "U8") [12; RUN] 200 (12 * RUN);
     InventoryTensor (bstr "blocks.0.mlp.fc1.weight") (bstr "U8") [4; RUN] (200 + 12 * RUN) (4 * RUN)].

Definition target_shapes (d : result adapter_error decision) : list (list byte * list Z * nat) :=
  match d with
  | Ok d => match decision_adapter d with
            | Some a => (fun t => (dt_name t, dt_shape t, length (dt_runs t))) <$> ad_tensors a
            | None => []
            end
  | Err _ => []
  end.

Example native_to_diffusers :
  target_shapes (decide_layout (validated native_doc) native_inventory (validated diffusers_doc)) =
  [(bstr "transformer_blocks.0.attn.to_q.weight", [4; RUN], 4%nat);
   (bstr "transformer_blocks.0.attn.to_k.weight", [4; RUN], 4%nat);
   (bstr "transformer_blocks.0.attn.to_v.weight", [4; RUN], 4%nat);
   (bstr "transformer_blocks.0.ff.net.0.proj.weight", [4; RUN], 1%nat)].
Proof. vm_compute. reflexivity. Qed.

Example native_to_permuted : exists a,
  decide_layout (validated native_doc) native_inventory (validated permuted_doc) =
  Ok (Rearranged a [bstr "blocks.0.mlp.fc1.weight"]).
Proof. eexists. vm_compute. reflexivity. Qed.

Definition native_view : decision :=
  match decide_layout (validated native_doc) native_inventory (validated diffusers_doc) with
  | Ok d => d
  | Err _ => Conversion NoRuns
  end.

Lemma native_ok : contract_ok (validated native_doc).
Proof.
  apply (raw_validate_sound native_doc); [|vm_compute; reflexivity].
  split; [done|]. apply Forall_cons. split; [|apply Forall_singleton; done].
  split; [|done]. intros f [= <-]. split; [vm_compute; split; congruence|].
  repeat constructor; vm_compute; congruence.
Qed.

Lemma view_keeps_every_byte_witness :
  exists a, decide_layout (validated native_doc) native_inventory (validated diffusers_doc) =
    Ok (RunPreserving a) /\
  exists t r, t ∈ ad_tensors a /\ r ∈ dt_runs t /\ sr_offset r <= 300 < sr_offset r + sr_length r.
Proof.
  assert (exists a, decide_layout (validated native_doc) native_inventory (validated diffusers_doc) =
    Ok (RunPreserving a)) as [a Ha] by (eexists; vm_compute; reflexivity).
  exists a. split; [exact Ha|].
  destruct (view_keeps_every_byte (validated native_doc) native_inventory (validated diffusers_doc)
    (RunPreserving a) a) as (_ & Hcover & _).
  - apply native_ok.
  - unfold contract_fits. let ts := eval vm_compute in (c_tensors (validated native_doc)) in
      change (c_tensors (validated native_doc)) with ts.
    repeat constructor; intros f Hf; cbn in Hf;
      first [discriminate Hf | injection Hf as <-; vm_compute; reflexivity].
  - repeat constructor; vm_compute; congruence.
  - exact Ha.
  - reflexivity.
  - apply (Hcover (InventoryTensor (bstr "blocks.0.attn.qkv_proj.weight") (bstr "U8") [12; RUN] 200 (12 * RUN))).
    + left.
    + vm_compute. eauto.
    + unfold RUN. simpl. lia.
Defined.

(** ** What the decision does not look at *)

(** A target that accepts only [F16] is answered with a view of [BF16] bytes,
    with no reading of the target's [dtypes] or [rank]: the served tensor is one
    its own declaration refuses. *)
Definition one_tensor (dtypes : list (list byte)) : raw_contract :=
  doc [RawTensor (bstr "w") (bstr "w") dtypes None true None None].
Definition bf16_inventory : tensor_inventory :=
  TensorInventory TF_SafetensorsV1 [InventoryTensor (bstr "w") (bstr "BF16") [2; 3] 100 12].

Theorem view_ignores_target_dtypes : exists a t entry,
  decide_layout (validated (one_tensor [])) bf16_inventory (validated (one_tensor [bstr "F16"])) =
    Ok (RunPreserving a) /\
  t ∈ ad_tensors a /\
  entry_for (validated (one_tensor [bstr "F16"])) (dt_name t) = Some entry /\
  accepts entry (dt_dtype t) (dt_shape t) = false.
Proof.
  do 3 eexists. split; [vm_compute; reflexivity|]. split; [left|]. split; vm_compute; reflexivity.
Qed.

(** A scalar comes out with one axis: the derived shape always starts with a row
    count, so a renamed tensor of shape [[]] is served as [[1]]. *)
Definition scalar_inventory : tensor_inventory :=
  TensorInventory TF_SafetensorsV1 [InventoryTensor (bstr "w") (bstr "F32") [] 100 4].

Theorem view_reshapes_scalars :
  target_shapes (decide_layout (validated (one_tensor [])) scalar_inventory (validated (one_tensor []))) =
  [(bstr "w", [1], 1%nat)].
Proof. vm_compute. reflexivity. Qed.
