(* ===== verification/Fill.v ===== *)
(** The fill path ([layout_fill.rs]): a tensor's chunks are read, arranged and
    staged in memory a sink owns.  The sink is the trait [FillSink], a class
    here; [HostSink] is its instance over plain memory.  The file proves that a
    fill stages the arranged bytes of the concatenated chunks however they are
    cut, for every sink. *)
From Stdlib Require Import Sorting.Sorted.
From S2P Require Import Prelude Bytes MixedRadix Formula Morphism MorphismPlan MorphismWalk MorphismMove.

(** ** The sink *)

(** [trait FillSink]: [staging] lends a mutable slice of the sink, represented
    by its contents and the sink that results from writing it back; [None] is a
    panic. *)
Class FillSink (S : Type) : Type := {
  staging : Z -> Z -> S -> option (result layout_error (list byte * (list byte -> S)));
  commit : S -> result layout_error S
}.

(** [struct HostSink] and its [impl FillSink]. *)
Record host_sink : Type := HostSink { hs_buffer : list byte; hs_pending : option (Z * Z) }.

Definition host_staging (bytes device_offset : Z) (s : host_sink)
  : option (result layout_error (list byte * (list byte -> host_sink))) :=
  let at_ := device_offset in
  if zlen (hs_buffer s) <? wadd at_ bytes then
    Some (Err (LE_Buffer (zlen (hs_buffer s)) (wadd at_ bytes)))
  else
    let* view := get_range (hs_buffer s) at_ (wadd at_ bytes) in
    Some (Ok (view,
        fun written => HostSink (take (Z.to_nat at_) (hs_buffer s) ++ written ++
                                 drop (Z.to_nat (at_ + zlen written)) (hs_buffer s))
                         (Some (at_, bytes)))).

Definition host_commit (s : host_sink) : result layout_error host_sink :=
  Ok (HostSink (hs_buffer s) None).

#[export] Instance host_fill_sink : FillSink host_sink :=
  {| staging := host_staging; commit := host_commit |}.

(** [HostSink::with_capacity]. *)
Definition host_with_capacity (bytes : Z) : host_sink :=
  HostSink (replicate (Z.to_nat bytes) (byte_of 0)) None.

(** ** The chunks *)

(** [slice::binary_search] on the start offsets.  The standard library promises
    any matching position, or the position where the value would go. *)
Class BinarySearch : Type := {
  binary_search : list Z -> Z -> result nat nat;
  binary_search_spec : forall l x, StronglySorted Z.le l ->
    match binary_search l x with
    | Ok i => l !! i = Some x
    | Err i => (i <= length l)%nat /\
        (forall j y, (j < i)%nat -> l !! j = Some y -> y < x) /\
        (forall j y, (i <= j)%nat -> l !! j = Some y -> x < y)
    end
}.

(** [struct ChunkedSource]. *)
Record chunked_source : Type := ChunkedSource { cs_chunks : list (list byte); cs_starts : list Z }.

(** [ChunkedSource::new]. *)
Fixpoint chunk_starts (at_ : Z) (chunks : list (list byte)) : list Z :=
  match chunks with
  | [] => [at_]
  | chunk :: chunks => at_ :: chunk_starts (wadd at_ (zlen chunk)) chunks
  end.
Definition chunked_new (chunks : list (list byte)) : chunked_source :=
  ChunkedSource chunks (chunk_starts 0 chunks).

(** [ChunkedSource::len] and [ChunkedSource::contiguous]. *)
Definition chunked_len (s : chunked_source) : Z := default 0 (last (cs_starts s)).
Definition contiguous (s : chunked_source) : option (list byte) :=
  match cs_chunks s with [only] => Some only | _ => None end.

(** The copy loop of [read_at]: [pieces] are the chunks from [index] on with
    their starts, [need] the bytes still to copy.  Indexing past the last chunk
    panics. *)
Fixpoint read_loop (pieces : list (list byte * Z)) (cursor need touched : Z)
  : option (list byte * Z) :=
  if need <=? 0 then Some ([], touched)
  else
    match pieces with
    | [] => None
    | (chunk, start) :: pieces =>
        let within := wsub cursor start in
        let take_ := Z.min (wsub (zlen chunk) within) need in
        let* bytes := get_range chunk within (within + take_) in
        let* (rest, touched) :=
          read_loop pieces (wadd cursor take_) (need - take_) (wadd touched 1) in
        Some (bytes ++ rest, touched)
    end.

(** ** The fill *)

(** [struct FillStats] and [struct TensorFill]. *)
Record fill_stats : Type := FillStats {
  fs_source_bytes : Z;
  fs_destination_bytes : Z;
  fs_padding_bytes : Z;
  fs_runs : Z;
  fs_chunks : Z
}.
Record tensor_fill : Type := TensorFill {
  tf_layout : layout_morphism;
  tf_shape : list Z;
  tf_element_bytes : Z;
  tf_device_offset : Z
}.

(** What the walk adds to the statistics. *)
Definition count_run (element : Z) (stats : fill_stats) (r : layout_run) : fill_stats :=
  FillStats (fs_source_bytes stats) (fs_destination_bytes stats)
    (match lr_from r with
     | None => wadd (fs_padding_bytes stats) (wmul (lr_length r) element)
     | Some _ => fs_padding_bytes stats
     end)
    (wadd (fs_runs stats) 1) (fs_chunks stats).

Definition with_chunks (chunks : Z) (stats : fill_stats) : fill_stats :=
  FillStats (fs_source_bytes stats) (fs_destination_bytes stats) (fs_padding_bytes stats)
    (fs_runs stats) chunks.

Section fill.
Context `{BinarySearch}.

(** [ChunkedSource::read_at]: the bytes and the new count of touched chunks. *)
Definition read_at (s : chunked_source) (offset need touched : Z)
  : option (result layout_error (list byte * Z)) :=
  if chunked_len s <? wadd offset need then
    Some (Err (LE_Buffer (chunked_len s) (wadd offset need)))
  else
    let index := match binary_search (cs_starts s) offset with
                 | Ok at_ => at_
                 | Err at_ => (at_ - 1)%nat
                 end in
    let* read := read_loop (zip (drop index (cs_chunks s)) (drop index (cs_starts s)))
                   offset need touched in
    Some (Ok read).

(** One visit of the general case. *)
Definition fill_run (s : chunked_source) (element : Z) (st : list byte * fill_stats)
    (r : layout_run) : option (result layout_error (list byte * fill_stats)) :=
  let '(buffer, stats) := st in
  let stats := count_run element stats r in
  let at_ := wmul (lr_to r) element in
  let span := wmul (lr_length r) element in
  match lr_from r with
  | Some index =>
      match read_at s (wmul index element) span (fs_chunks stats) with
      | None => None
      | Some (Err e) => Some (Err e)
      | Some (Ok (bytes, touched)) =>
          let* buffer := splice buffer at_ bytes in
          Some (Ok (buffer, with_chunks touched stats))
      end
  | None =>
      let* buffer := splice buffer at_ (replicate (Z.to_nat span) (byte_of 0)) in
      Some (Ok (buffer, stats))
  end.

(** The walk: after a failure every visit returns at once. *)
Fixpoint fill_runs (s : chunked_source) (element : Z) (st : list byte * fill_stats)
    (runs : list layout_run) : option (result layout_error (list byte * fill_stats)) :=
  match runs with
  | [] => Some (Ok st)
  | r :: runs =>
      match fill_run s element st r with
      | None => None
      | Some (Err e) => Some (Err e)
      | Some (Ok st) => fill_runs s element st runs
      end
  end.

(** [fill]. *)
Definition fill {S} `{FillSink S} (source : chunked_source) (tensor : tensor_fill) (sink : S)
  : option (result layout_error (fill_stats * S)) :=
  let element := tf_element_bytes tensor in
  match ensure_ratified (tf_layout tensor) with
  | Err e => Some (Err e)
  | Ok _ =>
  if element =? 0 then Some (Err (LE_Buffer 0 1))
  else
  match lm_plan (tf_layout tensor) (tf_shape tensor) with
  | Err e => Some (Err e)
  | Ok plan =>
  let want_source := wmul (lp_source_elements plan) element in
  if negb (chunked_len source =? want_source) then
    Some (Err (LE_Buffer (chunked_len source) want_source))
  else
  let destination_bytes := wmul (lp_dest_elements plan) element in
  match staging destination_bytes (tf_device_offset tensor) sink with
  | None => None
  | Some (Err e) => Some (Err e)
  | Some (Ok (buffer, write_back)) =>
  let stats := FillStats want_source destination_bytes 0 0 0 in
  match contiguous source with
  | Some whole =>
      match lp_apply plan whole buffer element with
      | None => None
      | Some (Err e) => Some (Err e)
      | Some (Ok buffer) =>
          let* runs := for_each_run plan in
          let stats := with_chunks 1 (foldl (count_run element) stats runs) in
          Some (let? sink := commit (write_back buffer) in Ok (stats, sink))
      end
  | None =>
      let* runs := for_each_run plan in
      match fill_runs source element (buffer, stats) runs with
      | None => None
      | Some (Err e) => Some (Err e)
      | Some (Ok (buffer, stats)) =>
          Some (let? sink := commit (write_back buffer) in Ok (stats, sink))
      end
  end end end end.
End fill.

(** ** Reading across chunks *)

Lemma chunk_starts_drop i a chunks :
  0 <= a -> a + zlen (mjoin chunks) < U64 -> (i <= length chunks)%nat ->
  drop i (chunk_starts a chunks) = chunk_starts (a + zlen (mjoin (take i chunks))) (drop i chunks).
Proof.
  revert a chunks. induction i as [|i IH]; intros a chunks Ha Hlt Hi.
  { rewrite !drop_0. simpl. by rewrite zlen_nil, Z.add_0_r. }
  destruct chunks as [|c chunks]; [simpl in Hi; lia|]. cbn [take drop chunk_starts].
  rewrite !mjoin_cons, !zlen_app in *. pose proof (zlen_nonneg c).
  pose proof (zlen_nonneg (mjoin chunks)). simpl in Hi.
  rewrite wadd_small, IH by lia. f_equal. lia.
Qed.

Lemma chunk_starts_lookup i a chunks x :
  0 <= a -> a + zlen (mjoin chunks) < U64 -> chunk_starts a chunks !! i = Some x ->
  (i <= length chunks)%nat /\ x = a + zlen (mjoin (take i chunks)).
Proof.
  intros Ha Hlt Hx. assert (length (chunk_starts a chunks) = S (length chunks)) as Hl.
  { clear. revert a. induction chunks as [|c chunks IH]; intros a; simpl; [done|]. by rewrite IH. }
  pose proof (lookup_lt_Some _ _ _ Hx) as Hi. rewrite Hl in Hi. split; [lia|].
  rewrite <-(Nat.add_0_r i), <-lookup_drop, chunk_starts_drop in Hx by lia.
  destruct (drop i chunks); by injection Hx as <-.
Qed.

Lemma chunk_starts_sorted a chunks :
  0 <= a -> a + zlen (mjoin chunks) < U64 -> StronglySorted Z.le (chunk_starts a chunks).
Proof.
  revert a. induction chunks as [|c chunks IH]; intros a Ha Hlt; simpl; [by repeat constructor|].
  rewrite mjoin_cons, zlen_app in Hlt. pose proof (zlen_nonneg c). pose proof (zlen_nonneg (mjoin chunks)).
  rewrite wadd_small by lia. constructor; [apply IH; lia|]. apply Forall_lookup. intros i x Hx.
  apply chunk_starts_lookup in Hx as [_ ->]; [|lia..].
  pose proof (zlen_nonneg (mjoin (take i chunks))). lia.
Qed.

Lemma chunked_len_new chunks :
  zlen (mjoin chunks) < U64 -> chunked_len (chunked_new chunks) = zlen (mjoin chunks).
Proof.
  intros Hlt. unfold chunked_len, chunked_new. cbn [cs_starts]. rewrite last_lookup.
  assert (length (chunk_starts 0 chunks) = S (length chunks)) as ->.
  { clear. generalize 0. induction chunks as [|c chunks IH]; intros a; simpl; [done|]. by rewrite IH. }
  cbn [Nat.pred].
  destruct (chunk_starts 0 chunks !! length chunks) as [x|] eqn:Ex.
  - apply chunk_starts_lookup in Ex as [_ ->]; [|lia..]. by rewrite take_ge.
  - exfalso. rewrite <-(Nat.add_0_r (length chunks)), <-lookup_drop, chunk_starts_drop in Ex by lia.
    by rewrite drop_ge in Ex.
Qed.

Lemma read_loop_ok chunks a cursor need touched :
  0 <= a -> a + zlen (mjoin chunks) < U64 -> 0 <= need ->
  cursor + need <= a + zlen (mjoin chunks) -> a <= cursor ->
  (forall c cs, chunks = c :: cs -> cursor <= a + zlen c) ->
  exists touched', read_loop (zip chunks (chunk_starts a chunks)) cursor need touched =
    Some (slice (mjoin chunks) (cursor - a) (cursor - a + need), touched').
Proof.
  revert a cursor need touched. induction chunks as [|c chunks IH]; intros a cursor need touched
    Ha Hlt Hn Hle Hac Hc.
  - change (zlen (mjoin (@nil (list byte)))) with 0 in *. cbn [zip_with read_loop].
    replace need with 0 by lia.
    rewrite Z.add_0_r, slice_nil. by exists touched.
  - specialize (Hc c chunks eq_refl). rewrite mjoin_cons, zlen_app in *.
    pose proof (zlen_nonneg c). pose proof (zlen_nonneg (mjoin chunks)).
    cbn [zip_with read_loop chunk_starts].
    destruct (Z.leb_spec need 0).
    { replace need with 0 by lia. rewrite Z.add_0_r, slice_nil. by exists touched. }
    rewrite (wsub_small cursor) by lia. rewrite wsub_small by lia.
    set (k := Z.min (zlen c - (cursor - a)) need).
    unfold get_range. replace (_ && _) with true by lia.
    rewrite (wadd_small cursor), (wadd_small a) by lia.
    destruct (Z.eq_dec (zlen c - (cursor - a)) k) as [Hk|Hk].
    + (* the chunk is exhausted *)
      destruct (IH (a + zlen c) (cursor + k) (need - k) (wadd touched 1)) as [t Ht]; [lia..| |].
      { intros c' cs' ->. pose proof (zlen_nonneg c'). lia. }
      rewrite Ht. exists t. do 2 f_equal.
      replace (cursor - a + k) with (zlen c) by lia.
      replace (cursor + k - (a + zlen c)) with 0 by lia. unfold slice.
      rewrite drop_app_le by (unfold zlen in *; lia). rewrite take_app_ge by
        (rewrite length_drop; unfold zlen in *; lia).
      rewrite !length_drop. simpl. rewrite drop_0. f_equal.
      * rewrite take_ge by (rewrite length_drop; unfold zlen in *; lia). done.
      * f_equal. unfold zlen in *. lia.
    + (* the read ends in this chunk *)
      assert (k = need) as Hkn by lia. rewrite Hkn. replace (need - need) with 0 by lia.
      assert (forall q cur t, read_loop q cur 0 t = Some ([], t)) as Hz by (by intros [|[? ?] ?]).
      rewrite Hz. eexists. rewrite app_nil_r. do 2 f_equal. unfold slice.
      rewrite drop_app_le by (unfold zlen in *; lia). rewrite take_app_le; [done|].
      rewrite length_drop. unfold zlen in *. lia.
Qed.

Section reading.
Context `{BinarySearch}.

Lemma search_index chunks offset :
  zlen (mjoin chunks) < U64 -> 0 <= offset <= zlen (mjoin chunks) ->
  let index := match binary_search (chunk_starts 0 chunks) offset with
               | Ok at_ => at_ | Err at_ => (at_ - 1)%nat end in
  (index <= length chunks)%nat /\ zlen (mjoin (take index chunks)) <= offset /\
  forall c cs, drop index chunks = c :: cs -> offset <= zlen (mjoin (take index chunks)) + zlen c.
Proof.
  intros Hlt Ho. pose proof (binary_search_spec (chunk_starts 0 chunks) offset
    (chunk_starts_sorted 0 chunks ltac:(lia) ltac:(lia))) as Hs.
  assert (forall i, (i <= length chunks)%nat ->
    chunk_starts 0 chunks !! i = Some (zlen (mjoin (take i chunks)))) as Hlook.
  { intros i Hi. rewrite <-(Nat.add_0_r i) at 1. rewrite <-lookup_drop, chunk_starts_drop by lia.
    by destruct (drop i chunks). }
  destruct (binary_search _ offset) as [i|i]; simpl.
  - apply chunk_starts_lookup in Hs as [Hi ->]; [|lia..]. rewrite Z.add_0_l in *.
    split_and!; [done|lia|]. intros c cs _. pose proof (zlen_nonneg c). lia.
  - destruct Hs as (_ & Hbelow & Habove).
    assert (i <> 0%nat) as Hi0.
    { intros ->. specialize (Habove 0%nat 0 ltac:(lia)). rewrite Hlook in Habove by lia.
      simpl in Habove. specialize (Habove eq_refl). lia. }
    assert (i <= length chunks)%nat as Hil.
    { destruct (decide (i <= length chunks)%nat) as [|Hn]; [done|exfalso].
      specialize (Hbelow (length chunks) _ ltac:(lia) (Hlook (length chunks) ltac:(lia))).
      rewrite take_ge in Hbelow by lia. lia. }
    pose proof (Hbelow (i - 1)%nat _ ltac:(lia) (Hlook (i - 1)%nat ltac:(lia))) as Hb.
    pose proof (Habove i _ ltac:(lia) (Hlook _ Hil)) as Ha.
    split_and!; [lia..|]. intros c cs Hd.
    assert (take i chunks = take (i - 1) chunks ++ [c]) as Ht.
    { rewrite <-(take_drop (i - 1) chunks) at 1. rewrite Hd.
      rewrite take_app_ge, length_take by (rewrite length_take; lia).
      replace (i - (i - 1) `min` length chunks)%nat with 1%nat by lia. done. }
    rewrite Ht, join_app, zlen_app in Ha. simpl in Ha. rewrite app_nil_r in Ha. lia.
Qed.

(** [read_at] reads the concatenation of the chunks. *)
Lemma read_at_ok chunks offset need touched :
  zlen (mjoin chunks) < U64 -> 0 <= offset -> 0 <= need -> offset + need <= zlen (mjoin chunks) ->
  exists touched', read_at (chunked_new chunks) offset need touched =
    Some (Ok (slice (mjoin chunks) offset (offset + need), touched')).
Proof.
  intros Hlt Ho Hn Hle. unfold read_at. rewrite chunked_len_new, wadd_small by lia.
  replace (_ <? _) with false by lia. cbn [cs_starts cs_chunks chunked_new].
  destruct (search_index chunks offset Hlt ltac:(lia)) as (Hi & Hlo & Hhi).
  set (index := match binary_search _ offset with Ok i => i | Err i => (i - 1)%nat end) in *.
  rewrite chunk_starts_drop by lia. rewrite Z.add_0_l.
  assert (mjoin chunks = mjoin (take index chunks) ++ mjoin (drop index chunks)) as Hj
    by (by rewrite <-join_app, take_drop).
  assert (zlen (mjoin chunks) = zlen (mjoin (take index chunks)) + zlen (mjoin (drop index chunks))) as Hz
    by (by rewrite Hj at 1; rewrite zlen_app).
  pose proof (zlen_nonneg (mjoin (take index chunks))).
  destruct (read_loop_ok (drop index chunks) (zlen (mjoin (take index chunks))) offset need touched)
    as [t Ht]; [lia..|done|].
  rewrite Ht. exists t. do 3 f_equal. unfold slice.
  rewrite Hj, drop_app_ge by (unfold zlen in *; lia).
  f_equal; [lia|]. f_equal. unfold zlen in *. lia.
Qed.

(** A visit writes what [apply] writes from the concatenation. *)
Lemma fill_run_ok chunks element buffer stats r out :
  zlen (mjoin chunks) < U64 -> apply_run (mjoin chunks) element buffer r = Some out ->
  exists touched, fill_run (chunked_new chunks) element (buffer, stats) r =
    Some (Ok (out, with_chunks touched (count_run element stats r))).
Proof.
  intros Hlt. unfold apply_run, fill_run. destruct (lr_from r) as [index|] eqn:Ef.
  - set (start := wmul index element). set (span := wmul (lr_length r) element).
    destruct (get_range (mjoin chunks) start (wadd start span)) as [bytes|] eqn:Eg; [|done].
    apply get_range_Some in Eg as [Hle ->]. intros Hsp.
    assert (0 <= start < U64 /\ 0 <= span < U64) as [Hst Hspan]
      by (split; apply Z.mod_pos_bound; unfold U64; lia).
    assert (wadd start span = start + span) as Hw.
    { unfold wadd in *. destruct (Z.lt_ge_cases (start + span) U64).
      - apply Z.mod_small. lia.
      - exfalso. rewrite <-(Z.mod_unique (start + span) U64 1 (start + span - U64)) in Hle by lia. lia. }
    rewrite Hw in *.
    destruct (read_at_ok chunks start span (fs_chunks (count_run element stats r))) as [t Ht]; [lia..|].
    rewrite Ht, Hsp. eauto.
  - intros ->. exists (fs_chunks stats). by destruct stats.
Qed.

(** Everything the general walk counts, but for the chunks it touched. *)
Lemma fill_runs_ok chunks element runs buffer stats out :
  zlen (mjoin chunks) < U64 -> move (apply_run (mjoin chunks) element) buffer runs = Some out ->
  exists touched, fill_runs (chunked_new chunks) element (buffer, stats) runs =
    Some (Ok (out, with_chunks touched (foldl (count_run element) stats runs))).
Proof.
  intros Hlt. revert buffer stats. induction runs as [|r runs IH]; intros buffer stats Hm; simpl in Hm.
  - simplify_eq. exists (fs_chunks stats). by destruct stats.
  - destruct (apply_run _ _ buffer r) as [b|] eqn:Ea; [|done].
    destruct (fill_run_ok chunks element buffer stats r b Hlt Ea) as [t Ht].
    cbn [fill_runs foldl]. rewrite Ht.
    destruct (IH b (with_chunks t (count_run element stats r)) Hm) as [t' Ht']. rewrite Ht'.
    exists t'. do 3 f_equal. generalize (count_run element stats r). clear. intros st.
    assert (forall runs st, exists k, foldl (count_run element) (with_chunks t st) runs =
      with_chunks k (foldl (count_run element) st runs)) as Hk.
    { clear. induction runs as [|r runs IH]; intros st; [by exists t|]. simpl.
      apply (IH (count_run element st r)). }
    destruct (Hk runs st) as [k ->]. done.
Qed.
End reading.

(** ** The statistics *)

Definition padding_of (r : layout_run) : Z :=
  match lr_from r with None => lr_length r | Some _ => 0 end.

Lemma count_runs element runs stats :
  0 <= element -> Forall (fun r => 0 <= lr_length r) runs ->
  0 <= fs_padding_bytes stats -> 0 <= fs_runs stats ->
  fs_padding_bytes stats + sumZ (padding_of <$> runs) * element < U64 ->
  fs_runs stats + zlen runs < U64 ->
  foldl (count_run element) stats runs =
  FillStats (fs_source_bytes stats) (fs_destination_bytes stats)
    (fs_padding_bytes stats + sumZ (padding_of <$> runs) * element)
    (fs_runs stats + zlen runs) (fs_chunks stats).
Proof.
  intros He Hr. revert stats. induction Hr as [|r runs Hlen Hr IH]; intros stats Hp Hn Hlp Hln.
  { destruct stats. cbn [foldl fs_source_bytes fs_destination_bytes fs_padding_bytes fs_runs fs_chunks].
    change (zlen []) with 0. change (sumZ (padding_of <$> [])) with 0.
    by rewrite !Z.add_0_r. }
  rewrite zlen_cons in *. rewrite fmap_cons in *.
  change (sumZ (padding_of r :: (padding_of <$> runs)))
    with (padding_of r + sumZ (padding_of <$> runs)) in *.
  assert (0 <= sumZ (padding_of <$> runs)) as Hs.
  { apply sumZ_nonneg, Forall_fmap. eapply Forall_impl; [exact Hr|]. intros r' Hr'.
    unfold compose, padding_of. simpl in *. destruct (lr_from r'); lia. }
  assert (fs_padding_bytes (count_run element stats r) = fs_padding_bytes stats + padding_of r * element) as Hpad.
  { unfold count_run, padding_of in *. simpl. destruct (lr_from r); [lia|].
    rewrite wmul_small, wadd_small by nia. done. }
  assert (fs_runs (count_run element stats r) = fs_runs stats + 1) as Hruns.
  { unfold count_run. simpl. pose proof (zlen_nonneg runs). apply wadd_small. lia. }
  assert (0 <= padding_of r) by (unfold padding_of; destruct (lr_from r); lia).
  pose proof (zlen_nonneg runs).
  cbn [foldl]. rewrite IH by (rewrite ?Hpad, ?Hruns; nia). rewrite Hpad, Hruns.
  unfold count_run. simpl. f_equal; lia.
Qed.

Lemma expand_lengths runs :
  Forall (fun r => 0 <= lr_length r) runs ->
  zlen (runs ≫= expand) = sumZ (padding_of <$> runs) + zlen (omap snd (runs ≫= expand)).
Proof.
  induction 1 as [|r runs Hr _ IH]; [done|]. rewrite bind_cons, fmap_cons, omap_app, !zlen_app, IH.
  change (sumZ (padding_of r :: (padding_of <$> runs)))
    with (padding_of r + sumZ (padding_of <$> runs)).
  assert (zlen (expand r) = lr_length r) as ->.
  { unfold expand. rewrite zlen_fmap. unfold zlen. rewrite length_seqZ. lia. }
  assert (zlen (omap snd (expand r)) = lr_length r - padding_of r) as ->; [|lia].
  unfold expand, padding_of. destruct (lr_from r) as [x|]; simpl.
  - rewrite <-(Z2Nat.id (lr_length r)) at 2 by lia.
    rewrite <-(length_seqZ 0 (lr_length r)). rewrite Z.sub_0_r. fold (zlen (seqZ 0 (lr_length r))).
    generalize (seqZ 0 (lr_length r)). induction l as [|k l IHl]; [done|]. simpl.
    rewrite !zlen_cons. by rewrite <-IHl.
  - rewrite Z.sub_diag. generalize (seqZ 0 (lr_length r)). by induction l.
Qed.

(** A walk pads what the destination has more than the source. *)
Lemma walk_padding p gs runs : plan_wf p gs -> for_each_run p = Some runs ->
  Forall (fun r => 0 <= lr_length r) runs /\
  sumZ (padding_of <$> runs) = lp_dest_elements p - lp_source_elements p /\
  zlen runs <= lp_dest_elements p.
Proof.
  intros Hwf Hruns. destruct (for_each_run_ok _ _ Hwf) as (outer & run & Hf & Hr).
  pose proof (run_pos _ _ Hwf _ _ Hf) as Hpos. pose proof (runs_pos _ _ Hwf outer).
  pose proof (total_runs _ _ Hwf outer run Hf) as Ht.
  assert (Forall (fun r => 0 <= lr_length r) runs) as Hlen.
  { rewrite Hr in Hruns. injection Hruns as <-. apply Forall_fmap, Forall_true. intros v. simpl. lia. }
  split; [done|]. split.
  - pose proof (expand_lengths runs Hlen) as Hx. pose proof (for_each_element_ok _ _ Hwf) as He.
    unfold for_each_element in He. rewrite Hruns in He. simpl in He. injection He as He.
    rewrite He in Hx. rewrite zlen_fmap in Hx.
    rewrite omap_visits in Hx. unfold zlen in Hx. rewrite (sources_once _ _ Hwf), !length_seqZ in Hx.
    rewrite <-(pw_source _ _ Hwf) in Hx. pose proof (elements_le _ _ Hwf). lia.
  - rewrite Hr in Hruns. injection Hruns as <-. rewrite zlen_fmap. unfold zlen.
    rewrite length_seqZ. nia.
Qed.

(** ** The properties *)

Lemma contiguous_new chunks whole :
  contiguous (chunked_new chunks) = Some whole -> chunks = [whole].
Proof. by destruct chunks as [|c [|c' chunks]]; intros [= ->]. Qed.

Lemma fill_arranges {S} `{BinarySearch, FillSink S} m shape p el offset chunks (sink : S)
    buffer write_back :
  planned m shape p -> lm_candidate m = false -> 0 < el -> lp_dest_elements p * el < U64 ->
  zlen (mjoin chunks) = lp_source_elements p * el ->
  staging (lp_dest_elements p * el) offset sink = Some (Ok (buffer, write_back)) ->
  zlen buffer = lp_dest_elements p * el ->
  exists runs touched, run_count p = Some runs /\
    fill (chunked_new chunks) (TensorFill m shape el offset) sink =
    Some (let? sink := commit (write_back (arranged p (mjoin chunks) el)) in
          Ok (FillStats (lp_source_elements p * el) (lp_dest_elements p * el)
                ((lp_dest_elements p - lp_source_elements p) * el) runs touched, sink)).
Proof.
  intros Hpl Hcand Hel Hfit Hs Hstage Hb. destruct (planned_wf _ _ _ Hpl) as (gs & Hwf & _).
  pose proof (elements_le _ _ Hwf) as He. pose proof (pw_fits _ _ Hwf) as Hu.
  rewrite <-(pw_dest _ _ Hwf) in Hu.
  destruct (apply_arranged p gs el (mjoin chunks) buffer Hwf ltac:(lia) Hfit Hs Hb)
    as (rs & Hrs & Hmove).
  destruct (walk_padding p gs rs Hwf Hrs) as (Hlen & Hpad & Hcount).
  set (stats := FillStats (lp_source_elements p * el) (lp_dest_elements p * el) 0 0 0).
  assert (foldl (count_run el) stats rs = FillStats (lp_source_elements p * el)
    (lp_dest_elements p * el) ((lp_dest_elements p - lp_source_elements p) * el) (zlen rs) 0) as Hst.
  { rewrite count_runs; unfold stats; cbn [fs_source_bytes fs_destination_bytes fs_padding_bytes fs_runs fs_chunks];
      rewrite ?Hpad; first [done|lia|nia|by rewrite !Z.add_0_l]. }
  exists (zlen rs). unfold fill, ensure_ratified.
  cbn [tf_layout tf_shape tf_element_bytes tf_device_offset]. rewrite Hcand, (pl_plan _ _ _ Hpl).
  replace (el =? 0) with false by lia. rewrite chunked_len_new, !wmul_small by nia.
  rewrite Hs, Z.eqb_refl, Hstage. cbn [negb]. fold stats.
  destruct (contiguous (chunked_new chunks)) as [whole|] eqn:Ec.
  - apply contiguous_new in Ec as ->. simpl in Hs, Hmove |- *. rewrite app_nil_r in *.
    exists 1. unfold run_count. rewrite Hrs. split; [done|].
    unfold lp_apply, sized. rewrite Hs, Hb, !wmul_small, !Z.eqb_refl by nia. cbn [negb].
    rewrite Hrs, Hmove. simpl. by rewrite Hst.
  - destruct (fill_runs_ok chunks el rs buffer stats _ ltac:(nia) Hmove) as [t Ht].
    exists t. unfold run_count. rewrite Hrs. split; [done|]. by rewrite Ht, Hst.
Qed.

(** The fill stages what the layout declares, for every sink and however
    the tensor is cut into chunks: given staging of the planned size, it commits
    the sink with the arranged bytes of the concatenated chunks, and reports the
    bytes read and written, the padding as their difference, and the runs of the
    walk. *)
Theorem fill_correct {S} `{BinarySearch, FillSink S} m shape p el offset chunks (sink : S)
    buffer write_back :
  planned m shape p -> lm_candidate m = false -> 0 < el -> lp_dest_elements p * el < U64 ->
  zlen (mjoin chunks) = lp_source_elements p * el ->
  staging (lp_dest_elements p * el) offset sink = Some (Ok (buffer, write_back)) ->
  zlen buffer = lp_dest_elements p * el ->
  exists runs touched, run_count p = Some runs /\
    fill (chunked_new chunks) (TensorFill m shape el offset) sink =
    Some (let? sink := commit (write_back (arranged p (mjoin chunks) el)) in
          Ok (FillStats (lp_source_elements p * el) (lp_dest_elements p * el)
                ((lp_dest_elements p - lp_source_elements p) * el) runs touched, sink)).
Proof. exact (fill_arranges m shape p el offset chunks sink buffer write_back). Qed.

(** A search from the front, as a [BinarySearch]. *)
Fixpoint linear_search (i : nat) (l : list Z) (x : Z) : result nat nat :=
  match l with
  | [] => Err i
  | y :: l => if y =? x then Ok i else if x <? y then Err i else linear_search (S i) l x
  end.

Lemma linear_search_spec i l x : StronglySorted Z.le l ->
  match linear_search i l x with
  | Ok k => (i <= k)%nat /\ l !! (k - i)%nat = Some x
  | Err k => (i <= k <= i + length l)%nat /\
      (forall j y, (i + j < k)%nat -> l !! j = Some y -> y < x) /\
      (forall j y, (k <= i + j)%nat -> l !! j = Some y -> x < y)
  end.
Proof.
  intros Hs. revert i. induction Hs as [|y l Hs IH Hle]; intros i; simpl.
  { split; [lia|]. split; intros j y; [lia|done]. }
  destruct (Z.eqb_spec y x) as [->|Hne]; [by rewrite Nat.sub_diag|].
  destruct (Z.ltb_spec x y) as [Hlt|Hge].
  - split; [lia|]. split; [intros; lia|]. intros [|j] z _ Hz; simpl in Hz; [by simplify_eq|].
    rewrite Forall_lookup in Hle. specialize (Hle _ _ Hz). lia.
  - specialize (IH (Datatypes.S i)). destruct (linear_search (Datatypes.S i) l x) as [k|k].
    + destruct IH as [Hk Hx]. split; [lia|]. by replace (k - i)%nat with (Datatypes.S (k - Datatypes.S i)) by lia.
    + destruct IH as (Hk & Hb & Ha). split; [lia|]. split.
      * intros [|j] z Hj Hz; simpl in Hz; [simplify_eq; lia|]. apply (Hb j); [lia|done].
      * intros [|j] z Hj Hz; simpl in Hz; [lia|]. apply (Ha j); [lia|done].
Qed.

Definition front_search : BinarySearch.
Proof.
  refine {| binary_search := linear_search 0 |}. intros l x Hs.
  pose proof (linear_search_spec 0 l x Hs) as H. destruct (linear_search 0 l x) as [k|k].
  - destruct H as [_ H]. by rewrite Nat.sub_0_r in H.
  - destruct H as (Hk & Hb & Ha). split; [lia|]. split; [exact Hb|exact Ha].
Defined.

(** The blocked scale layout filled from two chunks at offset 3 of a host
    buffer. *)
Lemma fill_correct_witness :
  exists stats s, fill (H := front_search)
    (chunked_new [replicate 701 (byte_of 7); replicate 859 (byte_of 8)])
    (TensorFill blockscale [130; 6] 2 3) (host_with_capacity 5000) = Some (Ok (stats, s)) /\
  fs_padding_bytes stats = 2536 /\ zlen (hs_buffer s) = 5000.
Proof.
  destruct (fill_correct (H := front_search) blockscale [130; 6] blockscale_plan 2 3
    [replicate 701 (byte_of 7); replicate 859 (byte_of 8)] (host_with_capacity 5000)
    (replicate 4096 (byte_of 0))
    (fun written => HostSink (take 3 (hs_buffer (host_with_capacity 5000)) ++ written ++
       drop (Z.to_nat (3 + zlen written)) (hs_buffer (host_with_capacity 5000))) (Some (3, 4096)))
    blockscale_planned) as (runs & touched & _ & Hfill);
    [reflexivity|lia|reflexivity|reflexivity|vm_compute; reflexivity|reflexivity|].
  eexists _, _. split; [exact Hfill|]. split; [reflexivity|vm_compute; reflexivity].
Defined.

(** ** What the code does not promise *)

(** A sink may lend more staging than it was asked for; a tensor in one chunk is
    then refused, because [apply] wants the exact size. *)
Lemma longer_staging_refused {S} `{BinarySearch, FillSink S} m shape p el offset whole (sink : S)
    buffer write_back :
  planned m shape p -> lm_candidate m = false -> 0 < el -> lp_dest_elements p * el < U64 ->
  zlen whole = lp_source_elements p * el ->
  staging (lp_dest_elements p * el) offset sink = Some (Ok (buffer, write_back)) ->
  lp_dest_elements p * el < zlen buffer ->
  fill (chunked_new [whole]) (TensorFill m shape el offset) sink =
  Some (Err (LE_Buffer (zlen buffer) (lp_dest_elements p * el))).
Proof.
  intros Hpl Hcand Hel Hfit Hs Hstage Hb. destruct (planned_wf _ _ _ Hpl) as (gs & Hwf & _).
  pose proof (elements_le _ _ Hwf) as He.
  unfold fill, ensure_ratified. cbn [tf_layout tf_shape tf_element_bytes tf_device_offset].
  rewrite Hcand, (pl_plan _ _ _ Hpl). replace (el =? 0) with false by lia.
  rewrite chunked_len_new, !wmul_small by (simpl; rewrite ?app_nil_r; nia).
  simpl. rewrite app_nil_r, Hs, Z.eqb_refl, Hstage. simpl. unfold lp_apply, sized.
  rewrite Hs, !wmul_small, Z.eqb_refl by nia. simpl.
  by replace (zlen buffer =? _) with false by lia.
Qed.
