(* ===== verification/Cuda.v ===== *)
(** The device leg of the fill ([src/crates/tensorfs-cuda/src/lib.rs]): a sink whose
    staging is one slab of pinned host memory and whose commit is one copy to an
    address the caller owns.

    The CUDA driver is a parameter: its calls over a state, the device memory and
    the pinned allocations that state holds, and the documented effect of each call.
    A status that is not zero is a failure. *)
From stdpp Require Import gmap.
From S2P Require Export Source Fill.
From S2P Require Import Prelude Bytes Numerals MixedRadix Formula Morphism MorphismPlan MorphismWalk MorphismMove.

(** ** The driver *)

(** A host allocation gives a pointer and the contents of the memory there.  A copy
    that fails may have written some of its range. *)
Class CudaDriver (D : Type) : Type := {
  cu_load : D -> result (list byte) unit;
  cu_init : D -> Z * D;
  cu_device_get : Z -> D -> Z * Z * D;
  cu_primary_ctx_retain : Z -> D -> Z * Z * D;
  cu_ctx_set_current : Z -> D -> Z * D;
  cu_mem_host_alloc : Z -> D -> Z * (Z * list byte) * D;
  cu_mem_free_host : Z -> D -> Z * D;
  cu_memcpy_htod : Z -> list byte -> D -> Z * D;
  cu_memory : D -> Z -> byte;
  cu_pinned : D -> gset Z;
  host_alloc_spec n d : let '(status, (pointer, contents), d') := cu_mem_host_alloc n d in
    (forall a, cu_memory d' a = cu_memory d a) /\
    if status =? 0 then pointer <> 0 /\ (pointer ∉ cu_pinned d) /\ cu_pinned d' = {[pointer]} ∪ cu_pinned d /\ zlen contents = Z.max 0 n
    else cu_pinned d' = cu_pinned d;
  free_host_spec pointer d : let '(status, d') := cu_mem_free_host pointer d in
    (forall a, cu_memory d' a = cu_memory d a) /\
    cu_pinned d' = if status =? 0 then cu_pinned d ∖ {[pointer]} else cu_pinned d;
  memcpy_spec base bytes d : let '(status, d') := cu_memcpy_htod base bytes d in
    cu_pinned d' = cu_pinned d /\
    (forall a, ~ (base <= a < base + zlen bytes) -> cu_memory d' a = cu_memory d a) /\
    (status = 0 -> forall i b, bytes !! i = Some b -> cu_memory d' (base + Z.of_nat i) = b)
}.

(** [driver_error], [driver] and [check]. *)
Definition CUDA_SUCCESS : Z := 0.
Definition driver_error (detail : list byte) : layout_error := LE_Record (bstr "cuda") (DriverFault detail).
Definition show_status (status : Z) : list byte :=
  if status <? 0 then bstr "-" ++ to_dec (- status) else to_dec status.
Definition cuda_check (status : Z) (call : list byte) : result layout_error unit :=
  if status =? CUDA_SUCCESS then Ok tt else Err (driver_error (call ++ bstr " returned " ++ show_status status)).

(** ** The sink *)

(** [struct CudaSink]: [cs_slab] is what the memory at [cs_staging] holds. *)
Record cuda_sink : Type := CudaSink {
  cs_base : Z; cs_destination_bytes : Z; cs_staging : Z; cs_slab : list byte; cs_staging_bytes : Z;
  cs_staged : Z; cs_offset : Z; cs_bytes_to_device : Z
}.

Section cuda.
Context {D : Type} `{CudaDriver D}.

Definition driver : M D layout_error unit := fun d => (map_err driver_error (cu_load d), d).
Definition checked (call : list byte) (op : D -> Z * D) : M D layout_error unit := fun d =>
  let (status, d) := op d in (cuda_check status call, d).

(** [bind]. *)
Definition bind_device (device : Z) : M D layout_error unit :=
  driver;;;
  checked (bstr "cuInit") cu_init;;;
  fun d =>
    let '(status, ordinal, d) := cu_device_get device d in
    (lift (cuda_check status (bstr "cuDeviceGet"));;;
     fun d =>
       let '(status, context, d) := cu_primary_ctx_retain ordinal d in
       (lift (cuda_check status (bstr "cuDevicePrimaryCtxRetain"));;;
        checked (bstr "cuCtxSetCurrent") (cu_ctx_set_current context)) d) d.

Definition host_alloc (bytes : Z) : M D layout_error (Z * list byte) := fun d =>
  let '(status, memory, d) := cu_mem_host_alloc bytes d in
  ((let? _ := cuda_check status (bstr "cuMemHostAlloc") in Ok memory), d).

(** [CudaSink::new]. *)
Definition cuda_new (base destination_bytes staging_bytes : Z) : M D layout_error cuda_sink :=
  driver;;;
  let<- memory := host_alloc staging_bytes in
  ret (CudaSink base destination_bytes memory.1 memory.2 staging_bytes 0 0 0).

(** A sink and its driver. *)
Record cuda : Type := Cuda { cu_sink : cuda_sink; cu_driver : D }.
Definition on_driver {A} (m : M D layout_error A) : M cuda layout_error A := fun c =>
  let (r, d) := m (cu_driver c) in (r, Cuda (cu_sink c) d).
Definition with_sink (f : cuda_sink -> cuda_sink) (c : cuda) : cuda := Cuda (f (cu_sink c)) (cu_driver c).

(** [ensure_capacity]. *)
Definition ensure_capacity (bytes : Z) : M cuda layout_error unit := fun c =>
  let s := cu_sink c in
  if bytes <=? cs_staging_bytes s then (Ok tt, c)
  else if negb (cs_staged s =? 0) then (Err (driver_error (bstr "cannot grow staging while a transfer is pending")), c)
  else
    (let<- memory := on_driver (driver;;; host_alloc bytes) in
     on_driver (fun d => let (_, d) := cu_mem_free_host (cs_staging s) d in (Ok tt, d));;;
     modify (with_sink (fun s =>
       CudaSink (cs_base s) (cs_destination_bytes s) memory.1 memory.2 bytes (cs_staged s) (cs_offset s) (cs_bytes_to_device s)))) c.

(** [retarget]. *)
Definition retarget (base destination_bytes : Z) : M cuda layout_error unit := fun c =>
  let s := cu_sink c in
  if negb (cs_staged s =? 0) then (Err (driver_error (bstr "cannot retarget while a staged transfer is pending")), c)
  else (Ok tt, with_sink (fun s =>
    CudaSink base destination_bytes (cs_staging s) (cs_slab s) (cs_staging_bytes s) (cs_staged s) (cs_offset s) (cs_bytes_to_device s)) c).

(** [FillSink::staging]: the slice lent is the front of the slab. *)
Definition cuda_staging (bytes device_offset : Z) (c : cuda)
  : option (result layout_error (list byte * (list byte -> cuda))) :=
  let s := cu_sink c in
  Some (
    if cs_staging_bytes s <? bytes then Err (LE_Buffer (cs_staging_bytes s) bytes)
    else
      let! stop := checked_add device_offset bytes ?: LE_Buffer (cs_destination_bytes s) (U64 - 1) in
      if cs_destination_bytes s <? stop then Err (LE_Buffer (cs_destination_bytes s) stop)
      else Ok (take (Z.to_nat bytes) (cs_slab s), fun written =>
        with_sink (fun s => CudaSink (cs_base s) (cs_destination_bytes s) (cs_staging s)
          (written ++ drop (length written) (cs_slab s)) (cs_staging_bytes s) bytes device_offset (cs_bytes_to_device s)) c)).

(** [FillSink::commit]. *)
Definition cuda_commit : M cuda layout_error unit := fun c =>
  let s := cu_sink c in
  if cs_staged s =? 0 then (Ok tt, c)
  else
    (on_driver (driver;;; checked (bstr "cuMemcpyHtoD")
       (cu_memcpy_htod (wadd (cs_base s) (cs_offset s)) (take (Z.to_nat (cs_staged s)) (cs_slab s))));;;
     modify (with_sink (fun s => CudaSink (cs_base s) (cs_destination_bytes s) (cs_staging s) (cs_slab s)
       (cs_staging_bytes s) 0 (cs_offset s) (wadd (cs_bytes_to_device s) (cs_staged s))))) c.

(** A fill that fails keeps no sink; what a failed commit leaves is in
    [cuda_commit]. *)
#[export] Instance cuda_fill_sink : FillSink cuda := {|
  staging := cuda_staging;
  commit c := let (r, c) := cuda_commit c in (let? _ := r in Ok c)
|}.

(** [Drop for CudaSink]. *)
Definition cuda_drop (c : cuda) : D :=
  if cs_staging (cu_sink c) =? 0 then cu_driver c
  else match driver (cu_driver c) with
       | (Ok _, d) => (cu_mem_free_host (cs_staging (cu_sink c)) d).2
       | (Err _, d) => d
       end.
End cuda.
Arguments cuda D : clear implicits.

(** ** What the sink can reach *)

Section reach.
Context {D : Type} `{CudaDriver D}.

Definition in_target (base n a : Z) : Prop := base <= a < base + n.
Definition target_ok (base n : Z) : Prop := 0 <= base /\ in_u64 n /\ base + n <= U64.

(** The slab is live and as long as it says, and what is staged is inside it and
    inside the destination. *)
Record sink_ok (c : cuda D) : Prop := {
  so_slab : zlen (cs_slab (cu_sink c)) = cs_staging_bytes (cu_sink c);
  so_staged : 0 <= cs_staged (cu_sink c) <= cs_staging_bytes (cu_sink c);
  so_offset : 0 <= cs_offset (cu_sink c);
  so_inside : cs_staged (cu_sink c) <> 0 -> cs_offset (cu_sink c) + cs_staged (cu_sink c) <= cs_destination_bytes (cu_sink c);
  so_target : target_ok (cs_base (cu_sink c)) (cs_destination_bytes (cu_sink c));
  so_live : cs_staging (cu_sink c) ∈ cu_pinned (cu_driver c)
}.

(** What a caller can do with a sink, going on whatever was refused. *)
Inductive cuda_op : Type :=
| OStage (bytes offset : Z) (written : list byte)
| OCommit
| ORetarget (base n : Z)
| OGrow (bytes : Z).
Definition op_ok (op : cuda_op) : Prop :=
  match op with
  | OStage bytes offset written => 0 <= bytes /\ 0 <= offset /\ zlen written = bytes
  | OCommit => True
  | ORetarget base n => target_ok base n
  | OGrow bytes => 0 <= bytes
  end.
Definition cuda_step (c : cuda D) (op : cuda_op) : cuda D :=
  match op with
  | OStage bytes offset written =>
      match cuda_staging bytes offset c with Some (Ok (_, write_back)) => write_back written | _ => c end
  | OCommit => (cuda_commit c).2
  | ORetarget base n => (retarget base n c).2
  | OGrow bytes => (ensure_capacity bytes c).2
  end.

(** The targets of a run: the first, and those it was pointed at. *)
Definition op_reaches (op : cuda_op) (a : Z) : Prop :=
  match op with ORetarget base n => in_target base n a | _ => False end.
Definition reaches (c : cuda D) (a : Z) : Prop := in_target (cs_base (cu_sink c)) (cs_destination_bytes (cu_sink c)) a.

Lemma commit_step c :
  sink_ok c ->
  sink_ok (cuda_commit c).2 /\
  (forall a, ~ reaches c a -> cu_memory (cu_driver (cuda_commit c).2) a = cu_memory (cu_driver c) a) /\
  (forall a, reaches (cuda_commit c).2 a -> reaches c a).
Proof.
  intros Hok. unfold cuda_commit. destruct (Z.eqb_spec (cs_staged (cu_sink c)) 0) as [Hz|Hz]; [done|].
  destruct Hok as [Hsl Hst Ho Hin Ht Hl]. specialize (Hin Hz). destruct Ht as (Hb & Hn & Hbn). unfold in_u64 in Hn.
  unfold on_driver, driver, checked, bind. destruct (cu_load (cu_driver c)) as [[]|e]; [|by split; [split|]]. cbn [map_err].
  set (bytes := take _ _). assert (zlen bytes = cs_staged (cu_sink c)) as Hbl.
  { unfold bytes, zlen in *. rewrite length_take. lia. }
  rewrite wadd_small by lia.
  pose proof (memcpy_spec (cs_base (cu_sink c) + cs_offset (cu_sink c)) bytes (cu_driver c)) as Hm.
  destruct (cu_memcpy_htod _ bytes (cu_driver c)) as [status d]. destruct Hm as (Hp & Hm & _).
  assert (forall a, ~ reaches c a -> cu_memory d a = cu_memory (cu_driver c) a) as Hmem.
  { intros a Ha. apply Hm. unfold reaches, in_target in Ha. lia. }
  destruct (cuda_check status _) as [[]|e]; cbn [snd cu_sink cu_driver with_sink modify]; (split; [|done]).
  - split; cbn; rewrite ?Hp; try done; lia.
  - split; cbn; rewrite ?Hp; done.
Qed.
Lemma grow_step bytes c :
  sink_ok c -> 0 <= bytes ->
  sink_ok (ensure_capacity bytes c).2 /\
  (forall a, cu_memory (cu_driver (ensure_capacity bytes c).2) a = cu_memory (cu_driver c) a) /\
  (forall a, reaches (ensure_capacity bytes c).2 a -> reaches c a).
Proof.
  intros Hok Hb. unfold ensure_capacity. destruct (Z.leb_spec bytes (cs_staging_bytes (cu_sink c))); [done|].
  destruct (Z.eqb_spec (cs_staged (cu_sink c)) 0) as [Hz|Hz]; cbn [negb]; [|by split_and!; auto].
  unfold on_driver, driver, host_alloc, bind. destruct (cu_load (cu_driver c)) as [[]|e]; [|by split_and!; auto; destruct Hok; split]. cbn [map_err].
  pose proof (host_alloc_spec bytes (cu_driver c)) as Ha.
  destruct (cu_mem_host_alloc bytes (cu_driver c)) as [[status [pointer contents]] d]. destruct Ha as [Hm Ha].
  destruct Hok as [Hsl Hst Ho Hin Ht Hl]. unfold cuda_check, CUDA_SUCCESS. destruct (status =? 0); cbn [snd].
  2:{ split; [|done]. split; cbn; try done. by rewrite Ha. }
  destruct Ha as (Hp & Hfresh & Hpin & Hlen).
  pose proof (free_host_spec (cs_staging (cu_sink c)) d) as Hf. cbn [cu_driver].
  destruct (cu_mem_free_host _ d) as [status' d']. destruct Hf as [Hm' Hf]. cbn. split_and!; [|by intros; rewrite Hm', Hm|done].
  split; cbn; try done; try lia. rewrite Hf. destruct (status' =? 0); set_solver.
Qed.
(** The driver once a slab of [bytes] is there: the slab as it is where it is large
    enough, else a larger one allocated and the old one freed. *)
Definition grown (bytes : Z) (c : cuda D) : option D :=
  if bytes <=? cs_staging_bytes (cu_sink c) then Some (cu_driver c)
  else match cu_load (cu_driver c), cu_mem_host_alloc bytes (cu_driver c) with
       | Ok _, (status, _, d) => if status =? 0 then Some (cu_mem_free_host (cs_staging (cu_sink c)) d).2 else None
       | Err _, _ => None
       end.
Lemma ensure_capacity_grown bytes c :
  cs_staged (cu_sink c) = 0 ->
  let '(r, c') := ensure_capacity bytes c in
  cs_staged (cu_sink c') = 0 /\
  match grown bytes c with
  | Some d => r = Ok tt /\ cu_driver c' = d /\ bytes <= cs_staging_bytes (cu_sink c')
  | None => exists e, r = Err e
  end.
Proof.
  intros Hs. unfold ensure_capacity, grown. destruct (Z.leb_spec bytes (cs_staging_bytes (cu_sink c))); [done|]. rewrite Hs. cbn [negb Z.eqb].
  unfold on_driver, driver, host_alloc, bind. destruct (cu_load (cu_driver c)) as [[]|e]; [|by split; [|eexists]]. cbn [map_err].
  destruct (cu_mem_host_alloc bytes (cu_driver c)) as [[status [pointer contents]] d]. unfold cuda_check, CUDA_SUCCESS.
  destruct (status =? 0); [|by split; [|eexists]]. cbn [cu_driver]. destruct (cu_mem_free_host _ d) as [status' d']. by split_and!.
Qed.
Lemma cuda_step_inside c op :
  sink_ok c -> op_ok op ->
  sink_ok (cuda_step c op) /\
  (forall a, ~ reaches c a -> cu_memory (cu_driver (cuda_step c op)) a = cu_memory (cu_driver c) a) /\
  (forall a, reaches (cuda_step c op) a -> reaches c a \/ op_reaches op a).
Proof.
  intros Hok Hop. destruct op as [bytes offset written| |base n|bytes]; cbn [cuda_step op_reaches].
  - destruct Hop as (Hb & Ho & Hw). unfold cuda_staging. destruct (Z.ltb_spec (cs_staging_bytes (cu_sink c)) bytes); [by split_and!; auto|].
    destruct (checked_add offset bytes) as [stop|] eqn:Es; [|by split_and!; auto].
    destruct (Z.ltb_spec (cs_destination_bytes (cu_sink c)) stop); [by split_and!; auto|].
    apply checked_add_Some in Es as [-> _]. split_and!; [|done|by left].
    destruct Hok as [Hsl Hst Hof Hin Ht Hl]. split; cbn; try done; try lia.
    rewrite zlen_app. unfold zlen in *. rewrite length_drop. lia.
  - destruct (commit_step c Hok) as (? & ? & Hr). split_and!; [done..|]. intros a Ha. left. by apply Hr.
  - unfold retarget. destruct (Z.eqb_spec (cs_staged (cu_sink c)) 0) as [Hz|]; cbn [negb snd]; [|by split_and!; auto].
    split_and!; [|done|by right]. destruct Hok as [Hsl Hst Hof Hin Ht Hl]. by split.
  - destruct (grow_step bytes c Hok Hop) as (? & Hm & Hr). split_and!; [done|intros; apply Hm|]. intros a Ha. left. by apply Hr.
Qed.

(** C26: Whatever a caller does with a sink and whatever the driver refuses, device
    memory outside the addresses it was pointed at is never written: what is staged
    keeps to the destination it was staged for, because nothing retargets or regrows
    the slab while a transfer is pending.  The slab is never used after it is freed. *)
Theorem cuda_writes_stay_inside ops c :
  sink_ok c -> Forall op_ok ops ->
  let c' := foldl cuda_step c ops in
  sink_ok c' /\
  forall a, ~ reaches c a -> (forall op, op ∈ ops -> ~ op_reaches op a) ->
    cu_memory (cu_driver c') a = cu_memory (cu_driver c) a.
Proof.
  revert c. induction ops as [|op ops IH]; intros c Hok Hops; [done|]. apply Forall_cons in Hops as [Hop Hops].
  cbn [foldl]. destruct (cuda_step_inside c op Hok Hop) as (Hok' & Hm & Hr).
  destruct (IH (cuda_step c op) Hok' Hops) as [H1 H2]. split; [done|]. intros a Ha Hn.
  rewrite H2; [by apply Hm| |].
  - intros [Hr'|Hr']%Hr; [done|]. eapply Hn; [left|done].
  - intros op' Hin. apply Hn. by right.
Qed.
End reach.

(** ** The device leg of a fill *)

Section device_fill.
Context {D : Type} `{CudaDriver D, BinarySearch}.

(** A commit of what was staged writes nowhere else: it puts all of it on the device
    where the driver copies, and leaves the transfer pending where it does not. *)
Lemma staged_commit (c : cuda D) offset bytes :
  target_ok (cs_base (cu_sink c)) (cs_destination_bytes (cu_sink c)) -> 0 < zlen bytes -> 0 <= offset ->
  offset + zlen bytes <= cs_destination_bytes (cu_sink c) ->
  let at_ := cs_base (cu_sink c) + offset in
  let copied := cu_load (cu_driver c) = Ok tt /\ (cu_memcpy_htod at_ bytes (cu_driver c)).1 = 0 in
  let '(r, c') := cuda_commit (with_sink (fun s => CudaSink (cs_base s) (cs_destination_bytes s) (cs_staging s)
      (bytes ++ drop (length bytes) (cs_slab s)) (cs_staging_bytes s) (zlen bytes) offset (cs_bytes_to_device s)) c) in
  cs_staging_bytes (cu_sink c') = cs_staging_bytes (cu_sink c) /\
  (forall a, ~ (at_ <= a < at_ + zlen bytes) -> cu_memory (cu_driver c') a = cu_memory (cu_driver c) a) /\
  match r with
  | Ok _ => copied /\ cs_staged (cu_sink c') = 0 /\ forall i b, bytes !! i = Some b -> cu_memory (cu_driver c') (at_ + Z.of_nat i) = b
  | Err _ => ~ copied /\ cs_staged (cu_sink c') = zlen bytes
  end.
Proof.
  intros (Hb & Hd & Hbd) Hn Ho Hdest. unfold in_u64 in Hd. cbv zeta.
  unfold cuda_commit. cbn [cu_sink with_sink cs_staged]. replace (zlen bytes =? 0) with false by lia.
  unfold on_driver, driver, checked, bind. cbn [cu_driver with_sink cu_sink cs_base cs_offset cs_slab].
  destruct (cu_load (cu_driver c)) as [[]|e]; cbn [map_err]; [|by split_and!; [..|intros [? _]|]].
  rewrite wadd_small by lia. rewrite take_app_length' by (unfold zlen; lia).
  pose proof (memcpy_spec (cs_base (cu_sink c) + offset) bytes (cu_driver c)) as Hm.
  destruct (cu_memcpy_htod _ bytes (cu_driver c)) as [status d]. destruct Hm as (_ & Hout & Hwr).
  unfold cuda_check, CUDA_SUCCESS. destruct (Z.eqb_spec status 0); cbn; split_and!; auto. by intros [_ ?].
Qed.

(** A fill through the sink leaves on the device, at the offset of the tensor in
    the caller's reservation, the bytes the layout declares - those the host sink
    would hold - and nothing else there changes; the transfer is no longer pending. *)
Theorem cuda_fill_correct m shape p el offset chunks (c : cuda D) :
  planned m shape p -> lm_candidate m = false -> 0 < el -> lp_dest_elements p * el < U64 ->
  zlen (mjoin chunks) = lp_source_elements p * el ->
  sink_ok c -> cu_load (cu_driver c) = Ok tt ->
  0 <= offset -> offset + lp_dest_elements p * el <= cs_destination_bytes (cu_sink c) ->
  lp_dest_elements p * el <= cs_staging_bytes (cu_sink c) ->
  (forall base bytes, (cu_memcpy_htod base bytes (cu_driver c)).1 = 0) ->
  let at_ := cs_base (cu_sink c) + offset in
  exists stats c', fill (chunked_new chunks) (TensorFill m shape el offset) c = Some (Ok (stats, c')) /\
    cs_staged (cu_sink c') = 0 /\
    (forall i b, arranged p (mjoin chunks) el !! i = Some b -> cu_memory (cu_driver c') (at_ + Z.of_nat i) = b) /\
    (forall a, ~ (at_ <= a < at_ + lp_dest_elements p * el) -> cu_memory (cu_driver c') a = cu_memory (cu_driver c) a).
Proof.
  intros Hpl Hcand Hel Hfit Hs Hok Hload Ho Hdest Hslab Hcopy. cbv zeta.
  destruct (planned_wf _ _ _ Hpl) as (gs & Hwf & _). pose proof (elements_le _ _ Hwf) as He.
  set (n := lp_dest_elements p * el) in *. assert (0 < n) by (unfold n; nia).
  pose proof Hok as [Hsl _ _ _ (Hb & Hd & Hbd) _]. unfold in_u64 in Hd.
  assert (zlen (arranged p (mjoin chunks) el) = n) as Harr by (eapply zlen_arranged; [done|lia|done]).
  edestruct (fill_arranges m shape p el offset chunks c) as (runs & touched & _ & Hfill); [done..| | |].
  { unfold staging, cuda_fill_sink, cuda_staging. fold n.
    replace (cs_staging_bytes (cu_sink c) <? n) with false by lia.
    unfold checked_add. replace (offset + n <? U64) with true by lia.
    replace (cs_destination_bytes (cu_sink c) <? offset + n) with false by lia. reflexivity. }
  { fold n. unfold zlen in *. rewrite length_take. lia. }
  rewrite Hfill. clear Hfill. fold n. rewrite <-Harr.
  assert (0 < zlen (arranged p (mjoin chunks) el)) as Hlen by lia.
  pose proof (staged_commit c offset _ (so_target _ Hok) Hlen Ho ltac:(lia)) as Hc. cbv zeta in Hc.
  unfold commit, cuda_fill_sink. destruct (cuda_commit _) as [[[]|e] c'] in Hc |- *.
  - eexists _, c'. split; [reflexivity|]. tauto.
  - destruct Hc as (_ & _ & Hn & _). by destruct Hn.
Qed.
End device_fill.

(** ** A driver in memory *)

(** The statuses its calls answer with, success when there are no more. *)
Record toy_driver : Type := ToyDriver { td_memory : Z -> byte; td_pinned : gset Z; td_script : list Z }.
Definition td_status (d : toy_driver) : Z := match td_script d with s :: _ => s | [] => 0 end.
Definition td_next (d : toy_driver) : toy_driver := ToyDriver (td_memory d) (td_pinned d) (tail (td_script d)).
#[local] Instance toy_cuda : CudaDriver toy_driver.
Proof.
  refine {|
    cu_load _ := Ok tt; cu_init d := (0, d); cu_device_get n d := (0, n, d); cu_primary_ctx_retain n d := (0, n, d);
    cu_ctx_set_current _ d := (0, d);
    cu_mem_host_alloc n d :=
      let p := fresh ({[0]} ∪ td_pinned d) in
      (td_status d, (p, replicate (Z.to_nat n) (byte_of 205)),
       ToyDriver (td_memory d) (if td_status d =? 0 then {[p]} ∪ td_pinned d else td_pinned d) (tail (td_script d)));
    cu_mem_free_host p d :=
      (td_status d, ToyDriver (td_memory d) (if td_status d =? 0 then td_pinned d ∖ {[p]} else td_pinned d) (tail (td_script d)));
    cu_memcpy_htod base bytes d :=
      (td_status d, ToyDriver (fun a => if td_status d =? 0 then
                                 default (td_memory d a) (if base <=? a then bytes !! Z.to_nat (a - base) else None)
                               else td_memory d a) (td_pinned d) (tail (td_script d)));
    cu_memory := td_memory; cu_pinned := td_pinned
  |}.
  - intros n d. cbn. split; [done|]. destruct (td_status d =? 0); [|done].
    pose proof (is_fresh ({[0]} ∪ td_pinned d)) as Hf. apply not_elem_of_union in Hf as [Hz Hp].
    split_and!; [set_solver|done|done|]. unfold zlen. rewrite length_replicate. lia.
  - intros p d. done.
  - intros base bytes d. cbn. split_and!; [done| |].
    + intros a Ha. destruct (td_status d =? 0); [|done]. destruct (Z.leb_spec base a); [|done].
      rewrite lookup_ge_None_2; [done|]. unfold zlen in Ha. lia.
    + intros Hs i b Hb. rewrite Hs. cbn [Z.eqb]. destruct (Z.leb_spec base (base + Z.of_nat i)); [|lia].
      replace (Z.to_nat (base + Z.of_nat i - base)) with i by lia. by rewrite Hb.
Defined.

(** A sink over a reservation of 5000 bytes at 65536, with a slab of 4096. *)
Definition blank : toy_driver := ToyDriver (fun _ => byte_of 0) ∅ [].
Definition sunk : cuda toy_driver :=
  match cuda_new 65536 5000 4096 blank with (Ok s, d) => Cuda s d | (Err _, d) => Cuda (CudaSink 0 0 0 [] 0 0 0 0) d end.
Lemma sunk_ok : sink_ok sunk.
Proof.
  split; [vm_compute; reflexivity|split; vm_compute; discriminate|vm_compute; discriminate|done|by split_and!|].
  by apply (bool_decide_unpack _); vm_compute.
Qed.

Lemma cuda_fill_correct_witness :
  exists stats c', fill (H := front_search) (chunked_new [replicate 701 (byte_of 7); replicate 859 (byte_of 8)])
    (TensorFill blockscale [130; 6] 2 3) sunk = Some (Ok (stats, c')) /\ cs_staged (cu_sink c') = 0.
Proof.
  destruct (cuda_fill_correct (H0 := front_search) blockscale [130; 6] blockscale_plan 2 3
    [replicate 701 (byte_of 7); replicate 859 (byte_of 8)] sunk blockscale_planned)
    as (stats & c' & Hfill & Hstaged & _); [reflexivity|lia|reflexivity|reflexivity|exact sunk_ok|reflexivity|lia|vm_compute; discriminate|vm_compute; discriminate|reflexivity|].
  exists stats, c'. split; [exact Hfill|exact Hstaged].
Defined.

(** A commit that fails leaves the transfer pending: it cannot be retargeted, and
    address 65536 + 5000 is out of its reach. *)
Definition failing : cuda toy_driver :=
  Cuda (cu_sink sunk) (ToyDriver (fun _ => byte_of 0) {[cs_staging (cu_sink sunk)]} [700]).
Definition stuck : list cuda_op :=
  [OStage 2 4998 [byte_of 1; byte_of 2]; OCommit; ORetarget 131072 16; OStage 8 0 (replicate 8 (byte_of 3)); OCommit].
Lemma failing_ok : sink_ok failing.
Proof. destruct sunk_ok as [H1 H2 H3 H4 H5 _]. split; [done..|]. cbn. set_solver. Qed.
Lemma cuda_writes_stay_inside_witness :
  cu_memory (cu_driver (foldl cuda_step failing stuck)) 70536 = byte_of 0 /\
  cs_base (cu_sink (foldl cuda_step failing stuck)) = 65536 /\
  cu_memory (cu_driver (foldl cuda_step failing stuck)) 65543 = byte_of 3.
Proof.
  split; [|split; vm_compute; reflexivity].
  destruct (cuda_writes_stay_inside stuck failing failing_ok) as [_ Hm].
  - repeat (apply Forall_cons_2; [vm_compute; try done; split_and!; (discriminate || reflexivity)|]). apply Forall_nil_2.
  - apply Hm; [intros [_ Hlt]; vm_compute in Hlt; discriminate Hlt|].
    intros op Hin. unfold stuck in Hin. repeat (apply elem_of_cons in Hin as [->|Hin]; [cbn; unfold in_target; lia|]).
    by apply not_elem_of_nil in Hin.
Defined.
