(* ===== verification/Store.v ===== *)
(** The local object store ([src/crates/tensorfs-core/src/store.rs]): leased
    temporaries, hash-while-writing, no-clobber installation at the digest path,
    rehash verification, listing, removal and the reclaiming of abandoned
    temporaries.

    The directory tree under the store root is explicit state.  A system call
    may fail, and a failed write may have written a prefix; the process may also
    be killed at any call, after which no call of it has an effect any more.
    Which of these happens is a schedule in the state, so a theorem about every
    state is a theorem about every fault and every crash.  Power loss, that is
    what a missing [fsync] would lose, is not modelled: [fsync] is a call that
    can fail. *)

From stdpp Require Export gmap.
From S2P Require Export Source BTree.

(** ** The enumeration of an unordered collection *)

(** [read_dir], a [SELECT] without [ORDER BY], and the iteration of a
    [HashMap] or [HashSet] list every element once, in an order nothing
    documents. *)
Class Unordered : Type := {
  enumerate {A : Type} : list A -> list A;
  enumerate_perm {A : Type} (l : list A) : enumerate l ≡ₚ l
}.

Definition in_order : Unordered := {| enumerate A l := l; enumerate_perm A l := reflexivity l |}.
Definition reversed : Unordered :=
  {| enumerate A l := rev l; enumerate_perm A l := symmetry (Permutation_rev l) |}.

Lemma elem_of_enumerate `{Unordered} {A} (l : list A) x : x ∈ enumerate l <-> x ∈ l.
Proof. by rewrite enumerate_perm. Qed.

(** ** The directory tree *)

(** What is at an object's path.  A symbolic link is followed by [is_file] and
    refused by everything else; [to_file] says whether it leads to a file. *)
Inductive node : Type :=
| Regular (bytes : list byte) (read_only : bool)
| SymbolicLink (to_file : bool)
| OtherNode.

(** An entry of [tmp/]. *)
Record temp_file : Type := TempFile {
  t_bytes : list byte;
  t_inode : Z;
  t_modified : option Z;
  t_regular : bool;
  t_read_only : bool;
  t_locked_by : option Z
}.

(** What the next system call does. *)
Inductive outcome : Type :=
| Proceeds
| Fails (e : io_error) (partial : nat)
| Crashes (partial : nat).

Record disk : Type := Disk {
  objects : gmap (list byte) node;
  temps : gmap (list byte) temp_file;
  outcomes : list outcome;
  alive : bool;
  pid : Z;
  sequence : Z;
  nanos : Z;
  next_inode : Z
}.

(** [io::ErrorKind]s the store tells apart. *)
Definition NotFound : io_error := OtherIo 2.
Definition OutOfMemory : io_error := OtherIo 12.
Definition AlreadyExists : io_error := OtherIo 17.
Definition Eloop : io_error := OtherIo 40.
Definition Killed : io_error := OtherIo 9.
Definition WouldBlock : io_error := OtherIo 11.

#[export] Instance io_error_eq_dec : EqDecision io_error.
Proof. solve_decision. Defined.

Definition with_objects (f : gmap (list byte) node -> gmap (list byte) node) (d : disk) : disk :=
  Disk (f (objects d)) (temps d) (outcomes d) (alive d) (pid d) (sequence d) (nanos d) (next_inode d).
Definition with_temps (f : gmap (list byte) temp_file -> gmap (list byte) temp_file) (d : disk) : disk :=
  Disk (objects d) (f (temps d)) (outcomes d) (alive d) (pid d) (sequence d) (nanos d) (next_inode d).
Definition with_outcomes (os : list outcome) (d : disk) : disk :=
  Disk (objects d) (temps d) os (alive d) (pid d) (sequence d) (nanos d) (next_inode d).

Definition unlock_temp (t : temp_file) : temp_file :=
  TempFile (t_bytes t) (t_inode t) (t_modified t) (t_regular t) (t_read_only t) None.
Definition append_temp (bytes : list byte) (t : temp_file) : temp_file :=
  TempFile (t_bytes t ++ bytes) (t_inode t) (t_modified t) (t_regular t) (t_read_only t) (t_locked_by t).
Definition chmod_temp (t : temp_file) : temp_file :=
  TempFile (t_bytes t) (t_inode t) (t_modified t) (t_regular t) true (t_locked_by t).

(** A killed process loses its advisory locks and makes no more calls. *)
Definition kill (d : disk) : disk :=
  Disk (objects d)
    ((fun t => if decide (t_locked_by t = Some (pid d)) then unlock_temp t else t) <$> temps d)
    (outcomes d) false (pid d) (sequence d) (nanos d) (next_inode d).

(** One system call.  [partial] is the effect of one that fails midway. *)
Definition syscall {A} (act : disk -> result io_error A * disk) (partial : nat -> disk -> disk)
  : M disk io_error A := fun d =>
  if negb (alive d) then (Err Killed, d)
  else
    match outcomes d with
    | [] => act d
    | Proceeds :: os => act (with_outcomes os d)
    | Fails e k :: os => (Err e, partial k (with_outcomes os d))
    | Crashes k :: os => (Err Killed, kill (partial k (with_outcomes os d)))
    end.

(** A call that is all or nothing. *)
Definition atomic {A} (act : disk -> result io_error A * disk) : M disk io_error A :=
  syscall act (fun _ d => d).
(** A call that only queries, or whose effect ([fsync], [create_dir_all]) the
    tree does not show. *)
Definition query {A} (f : disk -> result io_error A) : M disk io_error A :=
  atomic (fun d => (f d, d)).
Definition fsync : M disk io_error unit := query (fun _ => Ok tt).
Definition create_dir_all : M disk io_error unit := query (fun _ => Ok tt).

(** [let _ = ..]: the error is dropped. *)
Definition ignore {S E F A} (m : M S E A) : M S F unit := fun s => (Ok tt, (m s).2).

(** ** Errors and results *)

(** [enum StoreError]. *)
Inductive store_error : Type :=
| SE_Io (e : io_error)
| SE_LengthMismatch (expected actual : Z)
| SE_DigestMismatch (expected actual : list byte)
| SE_Missing (digest : list byte)
| SE_NotARegularFile (digest : list byte)
| SE_CorruptObject (expected actual : list byte)
| SE_InvalidGrace.

(** [struct AdmittedObject]. *)
Record admitted_object : Type := AdmittedObject {
  ao_digest : list byte;
  ao_length : Z;
  ao_preexisting : bool
}.

Definition io {A} (m : M disk io_error A) : M disk store_error A := map_err_m SE_Io m.

(** ** Paths *)

Definition TEMP_PREFIX : list byte := bstr "obj-".
Definition TEMP_SUFFIX : list byte := bstr ".tmp".

(** [object_path], below [objects/sha256]: two fan-out directories and the
    file. *)
Definition object_path (digest : list byte) : list (list byte) :=
  let hex := to_hex digest in [slice hex 0 2; slice hex 2 4; hex].

(** [parse_digest_hex]: 64 bytes, in pairs that hold no upper case and are
    accepted by [u8::from_str_radix]. *)
Definition parse_digest_hex (name : list byte) : option (list byte) := parse_hex32 name.

(** [ingest_concurrency], of the environment variable's value, when it is set
    and parses, and of the machine's parallelism. *)
Definition DEFAULT_INGEST_BUDGET : Z := 8 * MAX_OBJECT_SIZE.
Definition ingest_concurrency (budget : option Z) (by_cores : Z) : Z :=
  let budget := default DEFAULT_INGEST_BUDGET budget in
  let by_memory := budget / MAX_OBJECT_SIZE in
  Z.max 1 (Z.min by_memory (Z.max by_cores 1)).

(** ** Writers *)

(** [struct ObjectWriter]: the temporary it holds, what the hasher was fed and
    how much was written. *)
Record object_writer : Type := ObjectWriter {
  w_path : list byte;
  w_hashed : list byte;
  w_written : Z
}.

(** [format!("obj-{pid}-{sequence}-{nanos}.tmp")]. *)
Definition temp_name (pid sequence nanos : Z) : list byte :=
  TEMP_PREFIX ++ to_dec pid ++ bstr "-" ++ to_dec sequence ++ bstr "-" ++ to_dec nanos ++ TEMP_SUFFIX.

(** [TEMP_SEQUENCE.fetch_add(1)]. *)
Definition fetch_add (d : disk) : disk :=
  Disk (objects d) (temps d) (outcomes d) (alive d) (pid d) (wadd (sequence d) 1) (nanos d) (next_inode d).

(** [OpenOptions::create_new]. *)
Definition create_new (path : list byte) : M disk io_error unit :=
  atomic (fun d =>
    match temps d !! path with
    | Some _ => (Err AlreadyExists, d)
    | None =>
        (Ok tt, Disk (objects d)
           (<[path := TempFile [] (next_inode d) (Some (nanos d)) true false None]> (temps d))
           (outcomes d) (alive d) (pid d) (sequence d) (nanos d) (next_inode d + 1))
    end).

(** [try_lock_exclusive] on the file the path names. *)
Definition try_lock (path : list byte) : M disk io_error unit :=
  atomic (fun d =>
    match temps d !! path with
    | Some t =>
        match t_locked_by t with
        | Some _ => (Err WouldBlock, d)
        | None =>
            (Ok tt, with_temps (<[path := TempFile (t_bytes t) (t_inode t) (t_modified t)
               (t_regular t) (t_read_only t) (Some (pid d))]>) d)
        end
    | None => (Err NotFound, d)
    end).

(** [fs::remove_file] in [tmp/]. *)
Definition remove_temp (path : list byte) : M disk io_error unit :=
  atomic (fun d =>
    match temps d !! path with
    | Some _ => (Ok tt, with_temps (delete path) d)
    | None => (Err NotFound, d)
    end).

(** The loop of [writer]: a name that is taken is skipped for the next one. *)
Fixpoint writer_loop (fuel : nat) : M disk store_error object_writer :=
  match fuel with
  | O => fail (SE_Io (OtherIo 0))
  | S fuel => fun d =>
      let path := temp_name (pid d) (sequence d) (nanos d) in
      match create_new path (fetch_add d) with
      | (Ok tt, d) =>
          (io (try_lock path);;; ret (ObjectWriter path [] 0)) d
      | (Err e, d) =>
          if decide (e = AlreadyExists) then writer_loop fuel d else (Err (SE_Io e), d)
      end
  end.
Definition writer : M disk store_error object_writer := fun d =>
  writer_loop (S (length (outcomes d) + size (temps d))) d.

(** [File::write_all]: a failed one may have written a prefix. *)
Definition file_write_all (path buffer : list byte) : M disk io_error unit :=
  syscall (fun d => (Ok tt, with_temps (alter (append_temp buffer) path) d))
    (fun k d => with_temps (alter (append_temp (take k buffer)) path) d).

(** [impl Write for ObjectWriter], and the provided [write_all] over it. *)
Definition writer_write (w : object_writer) (buffer : list byte) : M disk io_error object_writer :=
  file_write_all (w_path w) buffer;;;
  ret (ObjectWriter (w_path w) (w_hashed w ++ buffer) (wadd (w_written w) (zlen buffer))).
Definition writer_write_all (w : object_writer) (buffer : list byte)
  : M disk store_error object_writer :=
  if decide (buffer = []) then ret w else io (writer_write w buffer).

(** [impl Drop for ObjectWriter] when the admission did not complete: the file
    is closed, which drops its lock, and the temporary removed. *)
Definition release (path : list byte) (d : disk) : disk := with_temps (alter unlock_temp path) d.
Definition dropping {A} (path : list byte) (m : M disk store_error A) : M disk store_error A :=
  fun d =>
    match m d with
    | (Ok a, d) => (Ok a, d)
    | (Err e, d) =>
        (Err e, (remove_temp path (if alive d then release path d else d)).2)
    end.

(** ** Reading and verifying *)

Definition VERIFY_BUFFER_SIZE : Z := 1024 * 1024.

(** [open_object]: the open file reads the bytes that were there, whatever
    becomes of its path. *)
Definition open_object (digest : list byte) : M disk store_error (list byte) := fun d =>
  match query (fun d =>
      match objects d !! digest with
      | None => Err NotFound
      | Some (SymbolicLink _) => Err Eloop
      | Some n => Ok n
      end) d with
  | (Ok n, d) =>
      (let<- n := io (query (fun _ => Ok n)) in
       match n with
       | Regular bytes _ => ret bytes
       | _ => fail (SE_NotARegularFile digest)
       end) d
  | (Err e, d) =>
      if decide (e = NotFound) then (Err (SE_Missing digest), d)
      else if decide (e = Eloop) then (Err (SE_NotARegularFile digest), d)
      else (Err (SE_Io e), d)
  end.

Section store.
Context `{Sha256}.

(** One [file.read] of the loop of [verify]: the length and what was hashed. *)
Definition verify_chunk (bytes : list byte) (st : Z * list byte) (read : Z)
  : M disk store_error (Z * list byte) :=
  let '(length, hashed) := st in
  let<- buffer := io (query (fun _ => Ok (slice bytes length (length + read)))) in
  ret (wadd length read, hashed ++ buffer).

(** [verify]. *)
Definition verify (digest : list byte) : M disk store_error Z :=
  let<- bytes := open_object digest in
  let<- st := while_chunks VERIFY_BUFFER_SIZE (verify_chunk bytes) (zlen bytes) (0, []) in
  io (query (fun _ => Ok tt));;;
  let actual := sha256 st.2 in
  if decide (actual = digest) then ret st.1 else fail (SE_CorruptObject digest actual).

(** [exists]: a file, or a link to one. *)
Definition exists_object (digest : list byte) : M disk store_error bool := fun d =>
  match query (fun d => Ok (match objects d !! digest with
    | Some (Regular _ _) | Some (SymbolicLink true) => true
    | _ => false end)) d with
  | (Ok b, d) => (Ok b, d)
  | (Err _, d) => (Ok false, d)
  end.

(** ** Installation *)

(** [fs::hard_link] of the temporary to the object's path. *)
Definition hard_link (path digest : list byte) : M disk io_error unit :=
  atomic (fun d =>
    match temps d !! path with
    | None => (Err NotFound, d)
    | Some t =>
        match objects d !! digest with
        | Some _ => (Err AlreadyExists, d)
        | None => (Ok tt, with_objects (<[digest := Regular (t_bytes t) (t_read_only t)]>) d)
        end
    end).

(** [set_read_only] on the temporary. *)
Definition set_read_only (path : list byte) : M disk io_error unit :=
  atomic (fun d =>
    match temps d !! path with
    | None => (Err NotFound, d)
    | Some _ => (Ok tt, with_temps (alter chmod_temp path) d)
    end).

(** [drop(file)]. *)
Definition drop_file (path : list byte) : M disk store_error unit :=
  modify (fun d => if alive d then release path d else d).

(** [install]: no-clobber, and a resident object is accepted only after it
    rehashes to its name. *)
Definition install (w : object_writer) (digest : list byte) : M disk store_error admitted_object :=
  io create_dir_all;;;
  io (set_read_only (w_path w));;;
  fun d =>
    match hard_link (w_path w) digest d with
    | (Ok tt, d) =>
        (io fsync;;; io fsync;;; io fsync;;;
         drop_file (w_path w);;;
         ignore (remove_temp (w_path w));;;
         ret (AdmittedObject digest (w_written w) false)) d
    | (Err e, d) =>
        if decide (e = AlreadyExists) then
          (drop_file (w_path w);;;
           verify digest;;;
           ignore (remove_temp (w_path w));;;
           ret (AdmittedObject digest (w_written w) true)) d
        else (Err (SE_Io e), d)
    end.

(** [finish]. *)
Definition writer_finish (w : object_writer) : M disk store_error admitted_object :=
  dropping (w_path w)
    (io fsync;;; let digest := sha256 (w_hashed w) in install w digest).

(** [finish_expecting]. *)
Definition finish_expecting (w : object_writer) (expected : list byte) (length : Z)
  : M disk store_error admitted_object :=
  dropping (w_path w)
    (if negb (w_written w =? length) then fail (SE_LengthMismatch length (w_written w))
     else
       io fsync;;;
       let digest := sha256 (w_hashed w) in
       if decide (digest = expected) then install w digest
       else fail (SE_DigestMismatch expected digest)).

(** [put_bytes]: an error while writing drops the writer. *)
Definition put_bytes (bytes : list byte) : M disk store_error admitted_object :=
  let<- w := writer in
  let<- w := dropping (w_path w) (writer_write_all w bytes) in
  writer_finish w.

(** ** Listing and removal *)

(** The objects below a directory of the fan-out, and the directories in it. *)
Definition object_under (prefix : list (list byte)) (digest : list byte) : Prop := take (length prefix) (object_path digest) = prefix.
#[export] Instance object_under_dec prefix digest : Decision (object_under prefix digest).
Proof. unfold object_under. apply _. Defined.
Definition objects_below (prefix : list (list byte)) (d : disk) : list (list byte * node) :=
  filter (fun kn => object_under prefix kn.1) (map_to_list (objects d)).
Definition read_fan_out `{Unordered} (prefix : list (list byte)) : M disk store_error (list (list byte)) :=
  io (query (fun d => Ok (enumerate (remove_dups (omap (fun kn => object_path kn.1 !! length prefix) (objects_below prefix d)))))).

(** [let Ok(entry) = entry else continue], and [entry.path().is_dir()]. *)
Definition entry_is_dir : M disk store_error bool := fun d =>
  match (query (fun _ => Ok tt);;; query (fun _ => Ok tt)) d with (Ok _, d) => (Ok true, d) | (Err _, d) => (Ok false, d) end.

(** [each_object], the visited digests and lengths in order.  An entry that cannot
    be read is skipped, and so is one whose metadata cannot. *)
Definition visit_object (visited : list (list byte * Z)) (entry : list byte * node) : M disk store_error (list (list byte * Z)) := fun d =>
  match (query (fun _ => Ok tt);;; query (fun _ => Ok entry.2)) d with
  | (Ok (Regular bytes _), d) => (Ok (visited ++ [(entry.1, zlen bytes)]), d)
  | (_, d) => (Ok visited, d)
  end.
Definition each_object `{Unordered} : M disk store_error (list (list byte * Z)) :=
  let<- firsts := read_fan_out [] in
  for_m (fun visited first =>
    let<- dir := entry_is_dir in
    if negb dir then ret visited
    else
      let<- seconds := read_fan_out [first] in
      for_m (fun visited second =>
        let<- dir := entry_is_dir in
        if negb dir then ret visited
        else
          let<- entries := io (query (fun d => Ok (enumerate (objects_below [first; second] d)))) in
          for_m visit_object visited entries) visited seconds) [] firsts.

(** [remove_object]. *)
Definition remove_object (digest : list byte) : M disk store_error bool := fun d =>
  match query (fun d => match objects d !! digest with Some n => Ok n | None => Err NotFound end) d with
  | (Ok (Regular _ _), d) =>
      (io (atomic (fun d => (Ok tt, with_objects (delete digest) d)));;; io fsync;;; ret true) d
  | (Ok _, d) => (Ok false, d)
  | (Err e, d) => if decide (e = NotFound) then (Ok false, d) else (Err (SE_Io e), d)
  end.
End store.

(** ** Abandoned temporaries *)

(** [struct TempIdentity]. *)
Record temp_identity_t : Type := TempIdentity {
  ti_length : Z;
  ti_modified : option Z;
  ti_inode : Z
}.
#[export] Instance temp_identity_eq_dec : EqDecision temp_identity_t.
Proof. solve_decision. Defined.

Definition temp_identity (t : temp_file) : temp_identity_t :=
  TempIdentity (zlen (t_bytes t)) (t_modified t) (t_inode t).

(** [struct TempCollection]. *)
Record temp_collection : Type := TempCollection {
  tc_examined : Z;
  tc_deleted : Z;
  tc_bytes_deleted : Z
}.

Definition find_temp (path : list byte) : M disk io_error temp_file :=
  query (fun d => match temps d !! path with Some t => Ok t | None => Err NotFound end).

(** [reclaim_candidate]: every guard that fails keeps the file.  [tmp/] holds
    no symbolic links the store made; an irregular entry is not opened. *)
Definition reclaim_candidate (path : list byte) (listed : temp_identity_t)
    (report : temp_collection) : M disk store_error temp_collection := fun d =>
  match (let<- t := find_temp path in
         if t_regular t then ret tt else fail Eloop) d with
  | (Err _, d) => (Ok report, d)
  | (Ok _, d) =>
      match find_temp path d with
      | (Err _, d) => (Ok report, d)
      | (Ok held, d) =>
          if negb (bool_decide (temp_identity held = listed)) then (Ok report, d)
          else
            match try_lock path d with
            | (Err _, d) => (Ok report, d)
            | (Ok _, d) =>
                let unlocked d := if alive d then release path d else d in
                match find_temp path d with
                | (Err _, d) => (Ok report, unlocked d)
                | (Ok current, d) =>
                    if negb (bool_decide (temp_identity current = temp_identity held))
                    then (Ok report, unlocked d)
                    else
                      match remove_temp path d with
                      | (Err _, d) => (Ok report, unlocked d)
                      | (Ok _, d) =>
                          (Ok (TempCollection (tc_examined report) (wadd (tc_deleted report) 1)
                             (wadd (tc_bytes_deleted report) (zlen (t_bytes current)))), d)
                      end
                end
            end
      end
  end.

(** The candidate filter of [collect_abandoned_temps]. *)
Definition temp_candidate (name : list byte) (t : temp_file) : bool :=
  starts_with TEMP_PREFIX name && ends_with TEMP_SUFFIX name && t_regular t.
Definition old_enough (modified cutoff : option Z) : bool :=
  match modified, cutoff with Some modified, Some cutoff => modified <=? cutoff | _, _ => false end.

(** [collect_abandoned_temps]; [now.checked_sub(grace)] is [None] before the
    clock's origin. *)
Definition collect_abandoned_temps `{Unordered} (grace : Z) : M disk store_error temp_collection :=
  if grace =? 0 then fail SE_InvalidGrace
  else
    let<- cutoff := gets (fun d => if grace <=? nanos d then Some (nanos d - grace) else None) in
    let<- entries := io (query (fun d => Ok (enumerate (map_to_list (temps d))))) in
    let<- report := for_m (fun report '(name, t) =>
        if negb (temp_candidate name t) then ret report
        else
          fun d =>
            match query (fun _ => Ok tt) d with
            | (Err _, d) => (Ok report, d)
            | (Ok _, d) =>
                let report := TempCollection (wadd (tc_examined report) 1) (tc_deleted report)
                                (tc_bytes_deleted report) in
                if negb (old_enough (t_modified t) cutoff) then (Ok report, d)
                else reclaim_candidate name (temp_identity t) report d
            end) (TempCollection 0 0 0) entries in
    (if 0 <? tc_deleted report then io fsync else ret tt);;;
    ret report.

(** ** Admission from a source *)

(** The state a source and the store share: a source over a file keeps the
    two apart, a source over the store's own objects is the store. *)
Class HasDisk (S : Type) : Type := {
  disk_of : S -> disk;
  set_disk : disk -> S -> S;
  disk_of_set d s : disk_of (set_disk d s) = d
}.

Definition on_disk {S E A} `{HasDisk S} (m : M disk E A) : M S E A := fun s =>
  let (r, d) := m (disk_of s) in (r, set_disk d s).

#[export] Instance disk_has_disk : HasDisk disk.
Proof. refine {| disk_of d := d; set_disk d _ := d |}. done. Defined.
#[export] Instance pair_has_disk {S} : HasDisk (S * disk).
Proof. refine {| disk_of s := s.2; set_disk d s := (s.1, d) |}. done. Defined.

(** A source that does not share the store's state reads beside it. *)
#[export] Instance pair_source {S} `{ByteSource S} : ByteSource (S * disk).
Proof.
  refine {|
    src_len s := src_len s.1;
    read_exact_at offset n := fun s =>
      let (r, s1) := read_exact_at offset n s.1 in (r, (s1, s.2));
    check_unchanged := fun s => let (r, s1) := check_unchanged s.1 in (r, (s1, s.2)) |}.
  - intros offset n [s d]. simpl. pose proof (src_len_read offset n s).
    by destruct (read_exact_at offset n s).
  - intros [s d]. simpl. pose proof (src_len_check s). by destruct (check_unchanged s).
  - intros offset n [s d] bytes [s' d'] Ho Hn Hr. simpl in Hr.
    destruct (read_exact_at offset n s) as [r s1] eqn:E. injection Hr as -> -> ->. exact (read_fills offset n s bytes s' Ho Hn E).
Defined.

Section admission.
Context {S : Type} `{ByteSource S, !HasDisk S, Sha256, Allocator}.

(** [admit_region]. *)
Definition admit_region (r : region) : M S store_error admitted_object :=
  check (try_reserve (r_length r)) (SE_Io OutOfMemory);;;
  let<- buffer := map_err_m SE_Io (read_exact_at (r_offset r) (r_length r)) in
  on_disk (put_bytes buffer).

(** The serial path of [admit_regions]: the first error ends it. *)
Definition admit_serial (regions : list region) : M S store_error (list admitted_object) :=
  for_m (fun admitted r => let<- a := admit_region r in ret (admitted ++ [a])) [] regions.

(** The concurrent path: workers take indexes from one counter, every region is
    attempted, and the results are put back in region order.  [schedule] is the
    order in which the admissions take effect. *)
Definition admit_scheduled (schedule : list nat) (regions : list region)
  : M S store_error (list admitted_object) :=
  let<- collected := for_m (fun collected index =>
      match regions !! index with
      | None => ret collected
      | Some r => fun s => let (result, s) := admit_region r s in
                           (Ok (collected ++ [(index, result)]), s)
      end) [] schedule in
  let sorted := sort_by (fun a b => Nat.compare a.1 b.1) collected in
  lift (for_each (fun admitted '(_, result) => let? a := result in Ok (admitted ++ [a])) [] sorted).

(** [admit_regions]. *)
Definition admit_regions (concurrency : Z) (schedule : list nat) (regions : list region)
  : M S store_error (list admitted_object) :=
  if decide (regions = []) then ret []
  else
    let workers := Z.min concurrency (zlen regions) in
    if workers <=? 1 then admit_serial regions else admit_scheduled schedule regions.

(** [admit_source_range]: one object, block by block. *)
Definition admit_source_range (offset length : Z) : M S store_error admitted_object :=
  match checked_add offset length with
  | None => fail (SE_Io InvalidInput)
  | Some stop =>
      let<- w := on_disk writer in
      let<- st := (fun s =>
        match while_chunks VERIFY_BUFFER_SIZE (fun '(position, w) take =>
            let<- buffer := map_err_m SE_Io (read_exact_at position take) in
            let<- w := on_disk (writer_write_all w buffer) in
            ret (wadd position take, w)) (wsub stop offset) (offset, w) s with
        | (Ok st, s) => (Ok st, s)
        | (Err e, s) => (Err e, (on_disk (dropping (w_path w) (fail (A := unit) e)) s).2)
        end) in
      on_disk (writer_finish st.2)
  end.
End admission.
