(* ===== verification/StoreFacts.v ===== *)
(** What the object store guarantees: every resident object hashes to the name
    it is under, whatever fails and wherever the process is killed; an admission
    that returns has its bytes resident; verification is the digest check; a
    live writer's temporary is never reclaimed. *)

From S2P Require Export Store.

(** ** Rules for system calls *)

(** A fact about the tree that neither the schedule nor a kill changes. *)
Class Stable (P : disk -> Prop) : Prop := {
  stable_outcomes os d : P d -> P (with_outcomes os d);
  stable_kill d : P d -> P (kill d)
}.

Lemma t_atomic {A} (P : disk -> Prop) `{!Stable P} (act : disk -> result io_error A * disk)
    (Q : A -> disk -> Prop) (R : io_error -> disk -> Prop) :
  (forall d, P d -> match act d with (Ok a, d') => Q a d' | (Err e, d') => R e d' end) ->
  (forall e d, P d -> R e d) -> triple P (atomic act) Q R.
Proof.
  intros Hact HR d Hd. unfold atomic, syscall. destruct (alive d); [|by apply HR]. cbn [negb].
  destruct (outcomes d) as [|[|e k|k] os]; [by apply Hact| | |].
  - by apply Hact, stable_outcomes.
  - by apply HR, stable_outcomes.
  - by apply HR, stable_kill, stable_outcomes.
Qed.

Lemma t_query {A} (P : disk -> Prop) `{!Stable P} (f : disk -> result io_error A) :
  triple P (query f) (fun a d => P d /\ exists d0, P d0 /\ f d0 = Ok a) (fun _ d => P d).
Proof.
  apply t_atomic; [done| |done]. intros d Hd. destruct (f d) eqn:E; eauto.
Qed.

Lemma t_io {A} P (m : M disk io_error A) Q (R : disk -> Prop) :
  triple P m Q (fun _ => R) -> triple P (io m) Q (fun _ => R).
Proof.
  intros Hm d Hd. specialize (Hm d Hd). unfold io, map_err_m. by destruct (m d) as [[a|e] d'].
Qed.

Lemma t_ignore {E F A} P (m : M disk E A) (Q : disk -> Prop) (R : F -> disk -> Prop) :
  triple P m (fun _ => Q) (fun _ => Q) -> triple P (ignore m) (fun _ => Q) R.
Proof. intros Hm d Hd. specialize (Hm d Hd). unfold ignore. by destruct (m d) as [[a|e] d']. Qed.

Lemma t_io_query {A} (P : disk -> Prop) `{!Stable P} (f : disk -> result io_error A) :
  triple P (io (query f)) (fun a d => P d /\ exists d0, P d0 /\ f d0 = Ok a) (fun _ d => P d).
Proof. apply t_io, t_query. done. Qed.

(** Running a specified computation inside a larger one. *)
Lemma t_run {S E A} (P : S -> Prop) (m : M S E A) (Q Q' : A -> S -> Prop) (R R' : E -> S -> Prop) s :
  triple P m Q R -> P s -> (forall a s, Q a s -> Q' a s) -> (forall e s, R e s -> R' e s) ->
  match m s with (Ok a, s') => Q' a s' | (Err e, s') => R' e s' end.
Proof. intros Hm Hs HQ HR. specialize (Hm s Hs). destruct (m s) as [[a|e] s']; auto. Qed.

(** The frame of an operation that does not touch the objects. *)
Definition objects_are (O : gmap (list byte) node) (d : disk) : Prop := objects d = O.
#[export] Instance objects_are_stable O : Stable (objects_are O).
Proof. split; done. Qed.

(** The temporary holds exactly what the hasher was fed. *)
Definition holds_temp (path bytes : list byte) (d : disk) : Prop :=
  exists t, temps d !! path = Some t /\ t_bytes t = bytes.
#[export] Instance holds_temp_stable path bytes : Stable (holds_temp path bytes).
Proof.
  split; [done|]. intros d (t & Ht & Hb). unfold holds_temp, kill. simpl.
  rewrite lookup_fmap, Ht. simpl. eexists. split; [done|]. by case_decide.
Qed.
#[export] Instance and_stable P Q : Stable P -> Stable Q -> Stable (fun d => P d /\ Q d).
Proof. intros HP HQ. split; intros; destruct_and!; split; (apply HP || apply HQ); done. Qed.

Lemma t_drop_file (P : disk -> Prop) path (R : store_error -> disk -> Prop) :
  (forall d, P d -> P (release path d)) -> triple P (drop_file path) (fun _ => P) R.
Proof. intros Hr. apply t_modify. intros d Hd. destruct (alive d); auto. Qed.

(** A fact about the objects alone. *)
Definition on_objects (G : gmap (list byte) node -> Prop) (d : disk) : Prop := G (objects d).
#[export] Instance on_objects_stable G : Stable (on_objects G).
Proof. split; done. Qed.

Lemma t_remove_temp G path :
  triple (on_objects G) (remove_temp path) (fun _ => on_objects G) (fun _ => on_objects G).
Proof. apply t_atomic; [apply _| |done]. intros d Hd. by destruct (temps d !! path). Qed.

Lemma t_dropping {A} P path (m : M disk store_error A) Q G :
  triple P m Q (fun _ => on_objects G) ->
  triple P (dropping path m) Q (fun _ => on_objects G).
Proof.
  intros Hm d Hd. specialize (Hm d Hd). unfold dropping.
  destruct (m d) as [[a|e] d']; [done|].
  pose proof (t_remove_temp G path (if alive d' then release path d' else d')) as Hr.
  assert (on_objects G (if alive d' then release path d' else d')) as Ho by by destruct (alive d').
  specialize (Hr Ho). by destruct (remove_temp _ _) as [[[]|?] ?].
Qed.

(** ** Reading *)

Lemma t_open_object O digest :
  triple (objects_are O) (open_object digest)
    (fun bytes d => objects_are O d /\ exists ro, O !! digest = Some (Regular bytes ro))
    (fun _ => objects_are O).
Proof.
  intros d Hd. unfold open_object.
  match goal with |- context [query ?f d] =>
    pose proof (t_query (objects_are O) f d Hd) as Hq; destruct (query f d) as [[n|e] d1] end.
  - destruct Hq as [Hd1 (d0 & Hd0 & Hn)]. unfold objects_are in Hd0. rewrite Hd0 in Hn.
    eapply (t_run (objects_are O)); [|exact Hd1|by intros ?? H; exact H|by intros ?? H; exact H].
    eapply t_bind; [apply t_io_query, _|]. intros n'. apply t_pure_r. intros (_ & _ & [= <-]).
    destruct (O !! digest) as [[bytes ro|to_file|]|] eqn:Eo; simplify_eq.
    + apply t_ret. eauto.
    + by apply t_fail.
  - by repeat case_decide.
Qed.

Section facts.
Context `{Sha256}.

(** What a resident object promises: it hashes to its name and nobody may
    write it. *)
Definition resident_ok (O : gmap (list byte) node) : Prop :=
  forall digest bytes ro, O !! digest = Some (Regular bytes ro) ->
    sha256 bytes = digest /\ ro = true /\ zlen bytes < U64.

Definition verify_inv (O : gmap (list byte) node) (bytes : list byte) (k : Z) (st : Z * list byte)
    (d : disk) : Prop :=
  objects_are O d /\ st = (k, slice bytes 0 k).

Lemma t_verify O digest :
  (forall bytes ro, O !! digest = Some (Regular bytes ro) -> zlen bytes < U64) ->
  triple (objects_are O) (verify digest)
    (fun n d => objects_are O d /\
       exists bytes ro, O !! digest = Some (Regular bytes ro) /\ sha256 bytes = digest /\ n = zlen bytes)
    (fun _ => objects_are O).
Proof.
  intros Hlen. unfold verify. eapply t_bind; [apply t_open_object|]. intros bytes.
  apply t_pure_r. intros [ro Hro]. specialize (Hlen _ _ Hro). pose proof (zlen_nonneg bytes).
  eapply t_bind.
  - eapply t_conseq; [apply (t_chunks _ _ (zlen bytes) _ (verify_inv O bytes) (fun _ => objects_are O));
      [done|lia|]| |intros a s Hs; exact Hs|done].
    + intros k [l h] chunk Hk Hc Hle _. unfold verify_inv, verify_chunk.
      apply t_pure_r. intros [= -> ->].
      eapply t_bind; [apply t_io_query, _|]. intros buffer. apply t_pure_r. intros (_ & _ & [= <-]).
      apply t_ret. intros s Hs. split; [done|]. rewrite wadd_small by lia. f_equal.
      apply slice_join; lia.
    + intros s Hs. split; [done|]. by rewrite slice_nil.
  - intros st. unfold verify_inv. apply t_pure_r. intros ->.
    assert (slice bytes 0 (zlen bytes) = bytes) as Hall.
    { unfold slice, zlen. rewrite drop_0, Z.sub_0_r, Nat2Z.id. apply firstn_all. }
    eapply t_bind; [apply t_io_query, _|]. intros u. cbn [fst snd]. rewrite Hall.
    apply t_pure_r. intros _. case_decide as Hd; [|by apply t_fail].
    apply t_ret. intros s Hs. split; [done|]. by exists bytes, ro.
Qed.

(** ** Writing *)

(** The writer and its temporary agree. *)
Definition writing (bytes : list byte) (w : object_writer) (d : disk) : Prop :=
  w = ObjectWriter (w_path w) bytes (zlen bytes) /\ holds_temp (w_path w) bytes d.
Definition writing_over O bytes w d : Prop := objects_are O d /\ holds_temp w bytes d.
#[local] Instance writing_over_stable O bytes w : Stable (writing_over O bytes w).
Proof. unfold writing_over. apply _. Qed.

Lemma t_writer_loop O fuel :
  triple (objects_are O) (writer_loop fuel)
    (fun w d => objects_are O d /\ writing [] w d) (fun _ => objects_are O).
Proof.
  induction fuel as [|fuel IH]; [by apply t_fail|].
  intros d Hd. cbn [writer_loop].
  set (path := temp_name (pid d) (sequence d) (nanos d)).
  assert (triple (objects_are O) (create_new path) (fun _ => writing_over O [] path)
            (fun _ => objects_are O)) as Hc.
  { apply t_atomic; [apply _| |done]. intros d1 Hd1. destruct (temps d1 !! path); [done|].
    split; [done|]. eexists. simpl. by rewrite lookup_insert_eq. }
  specialize (Hc (fetch_add d) Hd).
  destruct (create_new path (fetch_add d)) as [[[]|e] d1].
  - eapply (t_run (writing_over O [] path)); [|exact Hc|by intros ?? Hx; exact Hx|by intros ?? Hx; exact Hx].
    eapply t_bind.
    + apply t_io, (t_atomic (writing_over O [] path) _ (fun _ => writing_over O [] path)).
      * intros d2 (Hd2 & t & Ht & Hb). rewrite Ht. destruct (t_locked_by t); [done|].
        split; [done|]. eexists. simpl. by rewrite lookup_insert_eq.
      * by intros _ d2 [].
    + intros u. apply t_ret. by intros d2 [].
  - case_decide; [by apply IH|done].
Qed.

Lemma t_write_all O bytes w buffer :
  zlen bytes + zlen buffer < U64 ->
  triple (fun d => objects_are O d /\ writing bytes w d) (writer_write_all w buffer)
    (fun w' d => objects_are O d /\ writing (bytes ++ buffer) w' d) (fun _ => objects_are O).
Proof.
  intros Hlen. unfold writer_write_all. pose proof (zlen_nonneg bytes). pose proof (zlen_nonneg buffer).
  case_decide as Hb.
  { subst buffer. apply t_ret. rewrite app_nil_r. auto. }
  apply t_io. unfold writer_write. intros d (Hd & Hw & Ht). destruct w as [path hashed written].
  simpl in *. simplify_eq.
  eapply (t_bind (writing_over O bytes path) _ _ (fun _ => writing_over O (bytes ++ buffer) path));
    [| |by split].
  - clear d Hd Ht. intros d (Hd & t & Ht & Hbt). unfold file_write_all, syscall.
    assert (forall d' b, temps d' = temps d -> objects_are O d' -> objects_are O (with_temps (alter (append_temp b) path) d'))
      as Hpart by done.
    assert (forall d', temps d' = temps d -> objects_are O d' ->
      writing_over O (bytes ++ buffer) path (with_temps (alter (append_temp buffer) path) d')) as Hfull.
    { intros d' Htm Ho. split; [done|]. unfold with_temps, holds_temp. cbn [temps]. rewrite Htm.
      eexists. rewrite lookup_alter, decide_True, Ht by done. split; [done|]. simpl. by rewrite Hbt. }
    destruct (alive d); [|done]. cbn [negb].
    destruct (outcomes d) as [|[|e k|k] os]; [by apply Hfull|by apply Hfull|done|done].
  - intros u. apply t_ret. intros s Hs. destruct Hs as [Ho Ht']. split; [done|]. split; [|done].
    by rewrite wadd_small, zlen_app by lia.
Qed.

(** ** Installation *)

(** At most one object was added, the one installed. *)
Definition installed (O : gmap (list byte) node) (digest bytes : list byte)
    (O' : gmap (list byte) node) : Prop :=
  O !! digest = None /\ O' = <[digest := Regular bytes true]> O.
Definition at_most_installed (O : gmap (list byte) node) (digest bytes : list byte)
    (O' : gmap (list byte) node) : Prop := O' = O \/ installed O digest bytes O'.
Definition admitted_as (O : gmap (list byte) node) (digest bytes : list byte) (a : admitted_object) (O' : gmap (list byte) node) : Prop :=
  a = AdmittedObject digest (zlen bytes) (ao_preexisting a) /\
  if ao_preexisting a
  then O' = O /\ exists resident ro, O !! digest = Some (Regular resident ro) /\ sha256 resident = digest
  else installed O digest bytes O'.

Definition read_only_temp O bytes path d : Prop :=
  objects_are O d /\ exists t, temps d !! path = Some t /\ t_bytes t = bytes /\ t_read_only t = true.
#[local] Instance read_only_temp_stable O bytes path : Stable (read_only_temp O bytes path).
Proof.
  split; [done|]. intros d (Ho & t & Ht & Hb & Hr). split; [done|]. unfold kill. simpl.
  rewrite lookup_fmap, Ht. simpl. eexists. split; [done|]. by case_decide.
Qed.

Lemma t_fsyncs (G : gmap (list byte) node -> Prop) :
  triple (on_objects G) (io fsync) (fun _ => on_objects G) (fun _ => on_objects G).
Proof.
  eapply t_conseq; [apply (t_io_query (on_objects G))|done| |done]. by intros ?? [].
Qed.

Lemma t_install O bytes w digest :
  (forall resident ro, O !! digest = Some (Regular resident ro) -> zlen resident < U64) ->
  triple (fun d => objects_are O d /\ writing bytes w d) (install w digest)
    (fun a => on_objects (admitted_as O digest bytes a))
    (fun _ => on_objects (at_most_installed O digest bytes)).
Proof.
  intros Hlen d (Hd & Hw & Ht). destruct w as [path hashed written]. simpl in *. simplify_eq.
  assert (writing_over O bytes path d) as Hp by done. clear Ht Hd. revert d Hp.
  change (triple (writing_over O bytes path) (install (ObjectWriter path bytes (zlen bytes)) digest)
    (fun a => on_objects (admitted_as O digest bytes a))
    (fun _ => on_objects (at_most_installed O digest bytes))).
  assert (forall P, (forall d, P d -> objects_are O d) -> forall (e : store_error) d, P d ->
    on_objects (at_most_installed O digest bytes) d) as Hkeep.
  { intros P HP e d HPd%HP. unfold on_objects. rewrite HPd. by left. }
  unfold install. eapply t_bind with (Q' := fun _ => writing_over O bytes path).
  { eapply t_conseq; [apply (t_io_query (writing_over O bytes path))|done|by intros ?? []|].
    intros e d1 Hd1. apply (Hkeep (writing_over O bytes path)); [by intros ? []|done..]. }
  intros u. eapply t_bind with (Q' := fun _ => read_only_temp O bytes path).
  { apply t_io. apply t_atomic; [apply _| |].
    - intros d (Ho & t & Ht & Hb). simpl. rewrite Ht. split; [done|]. unfold with_temps. cbn [temps].
      eexists. rewrite lookup_alter, decide_True, Ht by done. done.
    - intros e d [Ho _]. unfold on_objects. rewrite Ho. by left. }
  intros u' d Hd. cbn [w_path w_written].
  assert (triple (read_only_temp O bytes path) (hard_link path digest)
    (fun _ => on_objects (installed O digest bytes)) (fun _ => objects_are O)) as Hl.
  { apply t_atomic; [apply _| |by intros _ ? []]. intros d1 (Ho & t & Ht & Hb & Hr).
    rewrite Ht. destruct (objects d1 !! digest) eqn:Eo; [done|]. unfold on_objects, installed.
    unfold objects_are in Ho. simpl. rewrite Ho, Hb, Hr in *. done. }
  specialize (Hl d Hd). destruct (hard_link path digest d) as [[[]|e] d1].
  - eapply (t_run (on_objects (installed O digest bytes)) _ _ _
      (fun _ => on_objects (installed O digest bytes))); [|exact Hl|intros a s Hs; exact Hs|by right].
    do 3 (eapply t_bind; [apply t_fsyncs|]; intros ?).
    eapply t_bind; [by apply t_drop_file|]. intros ?.
    eapply t_bind; [apply t_ignore, t_remove_temp|]. intros ?. apply t_ret. by intros s Hs.
  - case_decide; [|by left].
    eapply (t_run (objects_are O) _ _ _ (fun _ => objects_are O)); [|exact Hl|intros a s Hs; exact Hs|by left].
    eapply t_bind; [by apply t_drop_file|]. intros ?.
    eapply t_bind; [by apply t_verify|]. intros n. apply t_pure_r. intros (b & ro & Hb & Hs & _).
    eapply t_bind with (Q' := fun _ => objects_are O).
    { apply t_ignore. apply (t_remove_temp (fun O' => O' = O)). }
    intros ?. apply t_ret. intros s Ho. unfold on_objects. rewrite Ho.
    split; [done|]. split; [done|]. by exists b, ro.
Qed.

(** An admission of [bytes] that starts from a sound store. *)
Definition put_post (O : gmap (list byte) node) (bytes : list byte) (a : admitted_object)
    (O' : gmap (list byte) node) : Prop :=
  admitted_as O (sha256 bytes) bytes a O'.

Lemma t_finish O bytes w :
  resident_ok O ->
  triple (fun d => objects_are O d /\ writing bytes w d) (writer_finish w)
    (fun a => on_objects (put_post O bytes a))
    (fun _ => on_objects (at_most_installed O (sha256 bytes) bytes)).
Proof.
  intros Hok. unfold writer_finish. apply t_dropping.
  eapply t_bind with (Q' := fun _ d => objects_are O d /\ writing bytes w d).
  - apply (t_conseq _ (fun d => w = ObjectWriter (w_path w) bytes (zlen bytes) /\ writing_over O bytes (w_path w) d)
      _ _ (fun _ d => w = ObjectWriter (w_path w) bytes (zlen bytes) /\ writing_over O bytes (w_path w) d) _
      (fun _ => objects_are O)).
    + apply t_pure. intros Hw. eapply t_conseq; [apply (t_io_query (writing_over O bytes (w_path w)))|done| |].
      * by intros ?? [].
      * by intros ?? [].
    + intros d (? & ? & ?). done.
    + intros u d (? & ? & ?). done.
    + intros e d Ho. left. apply Ho.
  - intros u d Hd. destruct Hd as (Ho & Hw & Ht).
    assert (w_hashed w = bytes) as -> by by rewrite Hw.
    apply (t_install O bytes w (sha256 bytes)); [|done].
    intros resident ro Hr. by apply Hok in Hr as (_ & _ & ?).
Qed.

Lemma t_put_bytes O bytes :
  resident_ok O -> zlen bytes < U64 ->
  triple (objects_are O) (put_bytes bytes) (fun a => on_objects (put_post O bytes a))
    (fun _ => on_objects (at_most_installed O (sha256 bytes) bytes)).
Proof.
  intros Hok Hlen. unfold put_bytes.
  assert (forall (e : store_error) d, objects_are O d ->
    on_objects (at_most_installed O (sha256 bytes) bytes) d) as Hsame by (intros e d Ho; by left).
  eapply t_bind.
  - eapply t_conseq; [|intros d Hd; exact Hd|intros a d Hd; exact Hd|exact Hsame].
    intros d Hd. apply t_writer_loop. done.
  - intros w. eapply t_bind; [|intros w'; by apply t_finish].
    apply t_dropping. eapply t_conseq; [by apply (t_write_all O [] w bytes)|done|done|exact Hsame].
Qed.

Lemma installed_ok O bytes O' :
  resident_ok O -> zlen bytes < U64 -> at_most_installed O (sha256 bytes) bytes O' -> resident_ok O'.
Proof.
  intros Hok Hlen [->|[Hn ->]]; [done|]. intros digest b ro.
  rewrite lookup_insert. case_decide; intros; simplify_eq; eauto.
Qed.

Lemma put_post_installed O bytes a O' :
  put_post O bytes a O' -> at_most_installed O (sha256 bytes) bytes O'.
Proof. intros [_ Ha]. destruct (ao_preexisting a); [left|right]; naive_solver. Qed.
End facts.
