(* ===== verification/FileSource.v ===== *)
(** Files as byte sources ([src/crates/tensorfs-core/src/source.rs]): opening a
    regular file, the stamp captured of it, positional reads through the open
    handle and the check that the file has not changed.

    Other processes work on the same file system.  Every system call takes the next
    moment of a schedule: what others changed before it, and whether it is answered
    in full, in part or refused.  The Windows variants are not modelled. *)
From S2P Require Export PlanMirror Store.

(** ** The file system *)

(** [in_changed] is the inode's change time, in nanoseconds. *)
Record inode : Type := Inode {
  in_regular : bool; in_bytes : list byte; in_modified : option Z; in_changed : Z
}.
Inductive dirent : Type := ToInode (ino : Z) | ToLink.

(** What others do: [Rewrites] stands for every call that touches an inode's
    content or attributes; [now] is what the clock reads then, which may be what
    it read at the change before, or less where the clock was set back. *)
Inductive change : Type :=
| Rewrites (ino : Z) (bytes : list byte) (modified : option Z) (now : Z)
| Creates (ino : Z) (i : inode)
| Renames (path : list byte) (to : option dirent).
Inductive reply : Type := InFull | InPart (count : Z) | Refused (e : io_error).
Record moment : Type := Moment { mo_changes : list change; mo_reply : reply }.
Record files : Type := Files {
  f_device : Z; f_names : gmap (list byte) dirent; f_inodes : gmap Z inode; f_moments : list moment
}.

Definition Interrupted : io_error := OtherIo 4.
Definition InvalidData : io_error := OtherIo 84.
Definition Unfinished : io_error := OtherIo (-1).

Definition with_inodes (f : gmap Z inode -> gmap Z inode) (s : files) : files :=
  Files (f_device s) (f_names s) (f (f_inodes s)) (f_moments s).
Definition rewrite_inode (bytes : list byte) (modified : option Z) (now : Z) (i : inode) : inode :=
  Inode (in_regular i) bytes modified now.
Definition apply_change (s : files) (ch : change) : files :=
  match ch with
  | Rewrites ino bytes modified now => with_inodes (alter (rewrite_inode bytes modified now) ino) s
  | Creates ino i => match f_inodes s !! ino with Some _ => s | None => with_inodes (<[ino := i]>) s end
  | Renames path to => Files (f_device s) (partial_alter (fun _ => to) path (f_names s)) (f_inodes s) (f_moments s)
  end.

(** One system call. *)
Definition os_call {A} (act : reply -> files -> result io_error A) : M files io_error A := fun s =>
  match f_moments s with
  | [] => (act InFull s, s)
  | m :: rest =>
      let s := foldl apply_change (Files (f_device s) (f_names s) (f_inodes s) rest) (mo_changes m) in
      match mo_reply m with
      | Refused e => (Err e, s)
      | r => (act r s, s)
      end
  end.

(** [fs::Metadata], what the code reads of it. *)
Record file_metadata : Type := FileMetadata {
  md_is_file : bool; md_len : Z; md_modified : option Z; md_dev : Z; md_ino : Z; md_ctime : Z; md_ctime_nsec : Z
}.
Definition NANOS : Z := 1000000000.
Definition metadata_of (device ino : Z) (i : inode) : file_metadata :=
  FileMetadata (in_regular i) (zlen (in_bytes i)) (in_modified i) device ino (in_changed i / NANOS) (in_changed i mod NANOS).

(** [fs::symlink_metadata], [OpenOptions::open] with [O_NOFOLLOW], [File::metadata]
    and [FileExt::read_at]: a read that is not at the end of the file gives at least
    one byte. *)
Definition symlink_metadata (path : list byte) : M files io_error file_metadata := os_call (fun _ s =>
  match f_names s !! path with
  | None => Err NotFound
  | Some ToLink => Ok (FileMetadata false 0 None (f_device s) 0 0 0)
  | Some (ToInode ino) => match f_inodes s !! ino with Some i => Ok (metadata_of (f_device s) ino i) | None => Err NotFound end
  end).
Definition open_file (path : list byte) : M files io_error Z := os_call (fun _ s =>
  match f_names s !! path with
  | None => Err NotFound
  | Some ToLink => Err Eloop
  | Some (ToInode ino) => match f_inodes s !! ino with Some _ => Ok ino | None => Err NotFound end
  end).
Definition handle_metadata (ino : Z) : M files io_error file_metadata := os_call (fun _ s =>
  match f_inodes s !! ino with Some i => Ok (metadata_of (f_device s) ino i) | None => Err NotFound end).
Definition read_count (r : reply) (available : Z) : Z :=
  match r with InPart k => if available <=? 0 then 0 else Z.max 1 (Z.min k available) | _ => Z.max 0 available end.
Definition handle_read_at (ino n offset : Z) : M files io_error (list byte) := os_call (fun r s =>
  match f_inodes s !! ino with
  | Some i =>
      let count := read_count r (Z.min n (zlen (in_bytes i) - offset)) in
      Ok (slice (in_bytes i) offset (offset + count))
  | None => Err NotFound
  end).

(** ** The source *)

(** [struct FileStamp] and [FileStamp::capture]. *)
Record file_stamp : Type := FileStamp {
  stamp_length : Z; stamp_modified : option Z; stamp_device : Z; stamp_inode : Z;
  changed_seconds : Z; changed_nanoseconds : Z
}.
#[export] Instance file_stamp_eq_dec : EqDecision file_stamp.
Proof. solve_decision. Defined.
Definition capture (m : file_metadata) : file_stamp :=
  FileStamp (md_len m) (md_modified m) (md_dev m) (md_ino m) (md_ctime m) (md_ctime_nsec m).

(** [struct FileByteSource], the file by its inode. *)
Record file_byte_source : Type := FileByteSource { fb_file : Z; fb_length : Z; fb_stamp : file_stamp }.

(** [from_file] and [open]. *)
Definition from_file (file : Z) : M files io_error file_byte_source :=
  let<- m := handle_metadata file in
  if negb (md_is_file m) then fail InvalidInput else ret (FileByteSource file (md_len m) (capture m)).
Definition open (path : list byte) : M files io_error file_byte_source :=
  let<- before := symlink_metadata path in
  if negb (md_is_file before) then fail InvalidInput
  else
    let<- file := open_file path in
    let<- opened := handle_metadata file in
    if negb (md_is_file opened) || negb (bool_decide (capture before = capture opened)) then fail InvalidInput
    else from_file file.

(** [read_exact_with], over any positional read. *)
Section read_exact_with.
Context {S : Type} (read_at : Z -> Z -> M S io_error (list byte)).

Fixpoint read_exact_with (fuel : nat) (n offset : Z) (filled : list byte) : M S io_error (list byte) := fun s =>
  if n =? 0 then (Ok filled, s)
  else
    match fuel with
    | O => (Err Unfinished, s)
    | Datatypes.S fuel =>
        match read_at n offset s with
        | (Ok [], s) => (Err UnexpectedEof, s)
        | (Ok bytes, s) =>
            if zlen bytes <=? n then
              match checked_add offset (zlen bytes) with
              | Some offset => read_exact_with fuel (n - zlen bytes) offset (filled ++ bytes) s
              | None => (Err InvalidInput, s)
              end
            else (Err InvalidData, s)
        | (Err e, s) => if decide (e = Interrupted) then read_exact_with fuel n offset filled s else (Err e, s)
        end
    end.
End read_exact_with.

(** A source and the file system it reads. *)
Record opened : Type := Opened { op_source : file_byte_source; op_files : files }.
Definition on_files {A} (m : file_byte_source -> M files io_error A) : M opened io_error A := fun o =>
  let (r, s) := m (op_source o) (op_files o) in (r, Opened (op_source o) s).

(** [impl ByteSource for FileByteSource]: an interrupted call takes a moment, any
    other read at least a byte. *)
Definition file_read_exact_at (offset n : Z) : M opened io_error (list byte) :=
  on_files (fun src s =>
    match checked_add offset n with
    | None => (Err InvalidInput, s)
    | Some stop =>
        if fb_length src <? stop then (Err UnexpectedEof, s)
        else read_exact_with (handle_read_at (fb_file src)) (Z.to_nat n + length (f_moments s)) n offset [] s
    end).
Definition current_stamp (src : file_byte_source) : M files io_error file_stamp :=
  let<- m := handle_metadata (fb_file src) in ret (capture m).
Definition file_check_unchanged : M opened io_error unit :=
  on_files (fun src => let<- stamp := current_stamp src in check (bool_decide (stamp = fb_stamp src)) InvalidData).

Lemma read_exact_with_fills {S : Type} read_at fuel n offset filled (s : S) bytes s' :
  0 <= n -> read_exact_with read_at fuel n offset filled s = (Ok bytes, s') -> zlen bytes = zlen filled + n.
Proof.
  revert n offset filled s. induction fuel as [|fuel IH]; intros n offset filled s Hn Hr; cbn [read_exact_with] in Hr.
  { destruct (Z.eqb_spec n 0); [|done]. injection Hr as <- _. lia. }
  destruct (Z.eqb_spec n 0); [injection Hr as <- _; lia|].
  destruct (read_at n offset s) as [[[|b l]|e] s1]; [done| |by case_decide; eauto].
  destruct (Z.leb_spec (zlen (b :: l)) n); [|done]. destruct (checked_add _ _); [|done].
  apply IH in Hr; [|lia]. rewrite Hr, zlen_app. lia.
Qed.
Lemma on_files_source {A} (m : file_byte_source -> M files io_error A) o : op_source (on_files m o).2 = op_source o.
Proof. unfold on_files. by destruct (m (op_source o) (op_files o)). Qed.
#[export] Instance file_source : ByteSource opened.
Proof.
  refine {| src_len o := fb_length (op_source o); read_exact_at := file_read_exact_at; check_unchanged := file_check_unchanged |}.
  - intros offset n o. unfold file_read_exact_at. by rewrite on_files_source.
  - intros o. unfold file_check_unchanged. by rewrite on_files_source.
  - intros offset n o bytes o' Ho Hn Hr. unfold file_read_exact_at, on_files in Hr.
    destruct (checked_add offset n); [|done]. destruct (_ <? _); [done|].
    destruct (read_exact_with _ _ _ _ _ _) as [r s] eqn:E. injection Hr as -> _.
    exact (read_exact_with_fills _ _ _ _ _ _ _ _ Hn E).
Defined.

(** ** Unbroken and broken sources *)

(** A change of inode [ino] is stamped later than [captured]. *)
Definition stamped_later (ino captured : Z) (ch : change) : Prop :=
  match ch with Rewrites ino' _ _ now => ino' = ino -> captured < now | _ => True end.
Definition visible (ino captured : Z) (m : moment) : Prop := Forall (stamped_later ino captured) (mo_changes m).
(** Nothing changes, and no call is refused. *)
Definition harmless (m : moment) : Prop := mo_changes m = [] /\ forall e, mo_reply m <> Refused e.

Lemma changes_settle ino captured i s chs :
  Forall (stamped_later ino captured) chs -> f_inodes s !! ino = Some i ->
  let s' := foldl apply_change s chs in
  f_device s' = f_device s /\ f_moments s' = f_moments s /\
  exists i', f_inodes s' !! ino = Some i' /\ (i' = i \/ captured < in_changed i').
Proof.
  intros Hf. revert s i. induction Hf as [|ch chs Ht Hf IH]; intros s i Hi; [by cbn; eauto 8|]. cbn [foldl].
  assert (f_device (apply_change s ch) = f_device s /\ f_moments (apply_change s ch) = f_moments s /\
    exists i1, f_inodes (apply_change s ch) !! ino = Some i1 /\ (i1 = i \/ captured < in_changed i1)) as (Hd & Hm & i1 & Hi1 & Hc).
  { destruct ch as [ino' bytes modified now|ino' i'|path to]; cbn [apply_change].
    - split; [done|]. split; [done|]. cbn. destruct (decide (ino' = ino)) as [->|Hne].
      + rewrite lookup_alter_eq, Hi. eexists. split; [done|]. right. simpl in *. by apply Ht.
      + rewrite lookup_alter_ne by done. eauto.
    - destruct (f_inodes s !! ino') as [x|] eqn:Ex; [by eauto 6|]. split; [done|]. split; [done|]. cbn.
      rewrite lookup_insert_ne by congruence. eauto.
    - cbn. by eauto 6. }
  destruct (IH (apply_change s ch) i1 Hi1) as (Hd' & Hm' & i2 & Hi2 & Hc'). rewrite Hd', Hm'. split; [done|]. split; [done|].
  exists i2. split; [done|]. destruct Hc' as [->|?]; [|by right]. destruct Hc as [->|?]; [by left|by right].
Qed.

Section snapshot.
Context (src : file_byte_source) (file : list byte) (P : moment -> Prop) (Changing Faulty : Prop).
Definition captured_at : Z := changed_seconds (fb_stamp src) * NANOS + changed_nanoseconds (fb_stamp src).
Context (Htick : forall m, P m -> visible (fb_file src) captured_at m) (Hchange : forall m, P m -> mo_changes m <> [] -> Changing).
Context (Hfault : forall m e, P m -> mo_reply m = Refused e -> Faulty).

(** The file is as it was captured, or has changed since. *)
Record kept (s : files) : Prop := {
  kp_moments : Forall P (f_moments s);
  kp_inode : exists i, f_inodes s !! fb_file src = Some i /\ in_bytes i = file /\
    capture (metadata_of (f_device s) (fb_file src) i) = fb_stamp src
}.
Record broken (s : files) : Prop := {
  bk_changing : Changing;
  bk_moments : Forall P (f_moments s);
  bk_inode : exists i, f_inodes s !! fb_file src = Some i /\ captured_at < in_changed i
}.

Lemma captured_change device ino i : capture (metadata_of device ino i) = fb_stamp src -> captured_at = in_changed i.
Proof.
  unfold captured_at. intros <-. cbn. pose proof (Z.div_mod (in_changed i) NANOS ltac:(done)). lia.
Qed.
Lemma moment_kept s m rest :
  kept s -> f_moments s = m :: rest ->
  let s' := foldl apply_change (Files (f_device s) (f_names s) (f_inodes s) rest) (mo_changes m) in
  f_moments s' = rest /\ (kept s' \/ broken s').
Proof.
  intros [Hf (i & Hi & Hb & Hc)] Hm. rewrite Hm in Hf. inversion_clear Hf as [|?? Hp Hr].
  destruct (changes_settle (fb_file src) captured_at i (Files (f_device s) (f_names s) (f_inodes s) rest) (mo_changes m) (Htick m Hp) Hi)
    as (Hd & Hm' & i' & Hi' & Hcase). cbv zeta in *. set (s' := foldl _ _ _) in *. split; [done|]. destruct Hcase as [->|Hlt].
  - left. constructor; [by rewrite Hm'|]. exists i. split; [done|]. split; [done|]. by rewrite Hd.
  - right. constructor; [|by rewrite Hm'|].
    + apply (Hchange m Hp). intros Hn. subst s'. rewrite Hn in Hi'. cbn in Hi'. rewrite Hi in Hi'. injection Hi' as ->.
      rewrite (captured_change _ _ _ Hc) in Hlt. lia.
    + by exists i'.
Qed.
Lemma moment_broken s m rest :
  broken s -> f_moments s = m :: rest ->
  broken (foldl apply_change (Files (f_device s) (f_names s) (f_inodes s) rest) (mo_changes m)).
Proof.
  intros [HC Hf (i & Hi & Hc)] Hm. rewrite Hm in Hf. inversion_clear Hf as [|?? Hp Hr].
  destruct (changes_settle (fb_file src) captured_at i (Files (f_device s) (f_names s) (f_inodes s) rest) (mo_changes m) (Htick m Hp) Hi)
    as (Hd & Hm' & i' & Hi' & Hcase). cbv zeta in *. constructor; [done|by rewrite Hm'|]. exists i'. split; [done|].
  by destruct Hcase as [->|?].
Qed.
Lemma os_call_broken {A} (act : reply -> files -> result io_error A) s : broken s -> broken (os_call act s).2.
Proof.
  intros Hb. unfold os_call. destruct (f_moments s) as [|m rest] eqn:Em; [done|]. cbv zeta. pose proof (moment_broken s m rest Hb Em).
  by destruct (mo_reply m).
Qed.

(** A call on a kept source: it breaks, is interrupted, is refused, or is answered
    with the file as it was captured. *)
Lemma os_call_kept {A} (act : reply -> files -> result io_error A) s :
  kept s ->
  let '(r, s') := os_call act s in
  broken s' \/
  kept s' /\ ((exists rp, (forall e, rp <> Refused e) /\ r = act rp s') \/
    (r = Err Interrupted /\ Faulty /\ (length (f_moments s') < length (f_moments s))%nat) \/ (exists e, r = Err e /\ e <> Interrupted /\ Faulty)) /\
  (length (f_moments s') <= length (f_moments s))%nat.
Proof.
  intros Hk. unfold os_call. destruct (f_moments s) as [|m rest] eqn:Em.
  { right. split; [done|]. split; [|by rewrite Em]. left. exists InFull. by split. }
  cbv zeta. destruct (moment_kept s m rest Hk Em) as [Hm Hcase]. cbv zeta in *. set (s' := foldl _ _ _) in *.
  assert (P m) as Hp by (destruct Hk as [Hf _]; rewrite Em in Hf; by inversion Hf).
  destruct (mo_reply m) as [|k|e] eqn:Er; (destruct Hcase as [Hk'|Hb]; [right; split; [done|]|by left]);
    (split; [|rewrite Hm; simpl; lia]).
  - left. by exists InFull.
  - left. by exists (InPart k).
  - right. destruct (decide (e = Interrupted)) as [->|Hne]; [left; split_and!; [done|by eapply Hfault|rewrite Hm; simpl; lia]|right].
    exists e. split; [done|]. split; [done|]. by eapply Hfault.
Qed.

(** *** The read loop *)

Abbreviation loop := (read_exact_with (handle_read_at (fb_file src))).

Lemma loop_broken fuel n offset filled s : broken s -> broken (loop fuel n offset filled s).2.
Proof.
  revert n offset filled s. induction fuel as [|fuel IH]; intros n offset filled s Hb; cbn [read_exact_with]; destruct (n =? 0); try done.
  unfold handle_read_at. match goal with |- context [os_call ?a s] => pose proof (os_call_broken a s Hb) as Hb'; destruct (os_call a s) as [r s1] end.
  simpl in Hb'. destruct r as [[|b l]|e]; [done| |by case_decide; auto].
  destruct (_ <=? n); [|done]. destruct (checked_add _ _); auto.
Qed.

Lemma read_count_bounds r available : 0 < available -> (forall e, r <> Refused e) -> 0 < read_count r available <= available.
Proof. intros Ha Hr. destruct r as [|k|e]; cbn; [lia| |by destruct (Hr e)]. replace (available <=? 0) with false by lia. lia. Qed.

Lemma loop_kept fuel n offset filled s :
  kept s -> 0 <= offset -> 0 <= n -> offset + n <= zlen file -> zlen file < U64 ->
  (Z.to_nat n + length (f_moments s) <= fuel)%nat ->
  let x := loop fuel n offset filled s in
  broken x.2 \/ kept x.2 /\ (x.1 = Ok (filled ++ slice file offset (offset + n)) \/ exists e, x.1 = Err e /\ Faulty).
Proof.
  cbv zeta. intros Hk Ho Hn Hle Hu Hfuel. revert n offset filled s Hk Ho Hn Hle Hfuel.
  induction fuel as [|fuel IH]; intros n offset filled s Hk Ho Hn Hle Hfuel; cbn [read_exact_with];
    (destruct (Z.eqb_spec n 0) as [->|Hne]; [right; split; [done|]; left; rewrite Z.add_0_r, slice_nil; by rewrite app_nil_r|]); [lia|].
  unfold handle_read_at. match goal with |- context [os_call ?a s] => pose proof (os_call_kept a s Hk) as Hc; destruct (os_call a s) as [r s1] end.
  destruct Hc as [Hb|(Hk1 & Hcase & Hlen)].
  { left. destruct r as [[|b l]|e]; [exact Hb| |case_decide; [by apply loop_broken|exact Hb]].
    destruct (_ <=? n); [|exact Hb]. destruct (checked_add _ _); [by apply loop_broken|exact Hb]. }
  destruct Hcase as [(rp & Hrp & ->)|[(-> & _ & Hlt)|(e & -> & Hint & Hf)]].
  - destruct (kp_inode _ Hk1) as (i & Hi & Hbytes & _). rewrite Hi, Hbytes. cbv zeta.
    pose proof (read_count_bounds rp (Z.min n (zlen file - offset)) ltac:(lia) Hrp) as Hcount.
    set (count := read_count _ _) in *. assert (zlen (slice file offset (offset + count)) = count) as Hz by (rewrite slice_length; lia).
    destruct (slice file offset (offset + count)) as [|b l] eqn:Es; [change (zlen []) with 0 in Hz; lia|]. rewrite <-Es in *. rewrite Hz.
    replace (count <=? n) with true by lia. unfold checked_add. replace (offset + count <? U64) with true by lia.
    specialize (IH (n - count) (offset + count) (filled ++ slice file offset (offset + count)) s1 Hk1 ltac:(lia) ltac:(lia) ltac:(lia) ltac:(lia)).
    rewrite <-app_assoc, slice_join in IH by lia. replace (offset + count + (n - count)) with (offset + n) in IH by lia. exact IH.
  - rewrite decide_True by done. apply IH; try done. lia.
  - rewrite decide_False by done. right. split; [done|]. right. by exists e.
Qed.

(** ** Reading the file is reading its bytes *)

Context (Hlength : fb_length src = zlen file) (Hu : zlen file < U64).

Definition mirror_state (o : opened) (b : list byte) : Prop := op_source o = src /\ kept (op_files o) /\ b = file.
Definition broken_state (o : opened) : Prop := op_source o = src /\ broken (op_files o).
Abbreviation fW := (rW Faulty).

Lemma on_files_broken {A} (m : file_byte_source -> M files io_error A) o :
  (forall s, broken s -> broken (m src s).2) -> broken_state o -> broken_state (on_files m o).2.
Proof.
  intros Hm [Hs Hb]. unfold on_files. rewrite Hs. specialize (Hm (op_files o) Hb). by destruct (m src (op_files o)).
Qed.
Lemma read_broken offset n o : broken_state o -> broken_state (read_exact_at offset n o).2.
Proof.
  apply on_files_broken. intros s Hb. destruct (checked_add offset n); [|done]. destruct (_ <? _); [done|]. by apply loop_broken.
Qed.
Lemma file_read_mirrors offset n :
  0 <= offset -> 0 <= n ->
  mirrors mirror_state broken_state fW (read_exact_at offset n) (read_exact_at (S := list byte) offset n).
Proof.
  intros Ho Hn. split; [apply read_broken|]. intros o b (Hs & Hk & ->). cbn [read_exact_at file_source slice_source].
  unfold file_read_exact_at, on_files, slice_read. rewrite Hs. destruct (checked_add offset n) as [stop|] eqn:Ec; [|by right; right].
  apply checked_add_Some in Ec as [-> Hlt]. rewrite Hlength. unfold get_range.
  destruct (Z.ltb_spec (zlen file) (offset + n)).
  { replace ((offset <=? offset + n) && (offset + n <=? zlen file)) with false by lia. by right; right. }
  replace ((offset <=? offset + n) && (offset + n <=? zlen file)) with true by lia.
  pose proof (loop_kept (Z.to_nat n + length (f_moments (op_files o))) n offset [] (op_files o) Hk Ho Hn ltac:(lia) Hu ltac:(lia)) as Hl.
  cbv zeta in Hl. destruct (loop _ n offset [] (op_files o)) as [r s']. simpl in Hl |- *.
  destruct Hl as [?|[Hk' [->|(e & -> & Hf)]]]; [by left|by right; right|]. right; left. by exists e.
Qed.

Lemma current_stamp_kept s :
  kept s ->
  let x := current_stamp src s in
  broken x.2 \/ kept x.2 /\ (x.1 = Ok (fb_stamp src) \/ exists e, x.1 = Err e /\ Faulty).
Proof.
  cbv zeta. intros Hk. unfold current_stamp, bind, handle_metadata.
  match goal with |- context [os_call ?a s] => pose proof (os_call_kept a s Hk) as Hc; destruct (os_call a s) as [r s1] end.
  destruct Hc as [Hb|(Hk1 & Hcase & _)]; [left; by destruct r|]. right.
  destruct Hcase as [(rp & _ & ->)|[(-> & Hf & _)|(e & -> & _ & Hf)]]; [|by split; [|right; eexists]..].
  destruct (kp_inode _ Hk1) as (i & Hi & _ & Hc). rewrite Hi. simpl. split; [done|]. left. by rewrite Hc.
Qed.
Lemma current_stamp_broken s : broken s -> broken (current_stamp src s).2.
Proof.
  intros Hb. unfold current_stamp, bind, handle_metadata.
  match goal with |- context [os_call ?a s] => pose proof (os_call_broken a s Hb) as Hb'; by destruct (os_call a s) as [[m|e] s1] end.
Qed.
Lemma file_check_mirrors : mirrors mirror_state broken_state fW check_unchanged (check_unchanged (S := list byte)).
Proof.
  split.
  - intros o. apply on_files_broken. intros s Hb. unfold bind. pose proof (current_stamp_broken s Hb) as Hs.
    destruct (current_stamp src s) as [[st|e] s1]; [|done]. unfold check. by case_bool_decide.
  - intros o b (Hs & Hk & ->). cbn [check_unchanged file_source slice_source]. unfold file_check_unchanged, on_files, bind. rewrite Hs.
    pose proof (current_stamp_kept (op_files o) Hk) as Hc. cbv zeta in Hc. destruct (current_stamp src (op_files o)) as [r s1]. simpl in Hc.
    destruct Hc as [Hb|[Hk1 [->|(e & -> & Hf)]]].
    + left. destruct r as [st|e]; [|done]. unfold check. by case_bool_decide.
    + rewrite bool_decide_eq_true_2 by done. by right; right.
    + right; left. by exists e.
Qed.

Context `{Allocator, HeaderJson, EntrySort, Sha256}.
Lemma ingest_mirrors c :
  mirrors mirror_state broken_state (pW Faulty) (plan_and_hash_under c) (plan_and_hash_under (S := list byte) c).
Proof.
  apply v_plan_and_hash.
  - intros o b (Hs & _ & ->). simpl. by rewrite Hs.
  - apply read_broken.
  - apply file_read_mirrors.
  - apply file_check_mirrors.
  - intros o b (_ & _ & ->). split; [apply zlen_nonneg|done].
Qed.
End snapshot.

(** ** Opening *)

(** The metadata of a handle are of the file as the call leaves it. *)
Lemma handle_metadata_now file s m s' :
  handle_metadata file s = (Ok m, s') -> exists i, f_inodes s' !! file = Some i /\ m = metadata_of (f_device s') file i.
Proof.
  unfold handle_metadata, os_call. intros Hc.
  destruct (f_moments s) as [|mo rest]; [injection Hc as Hc <-|cbv zeta in Hc; destruct (mo_reply mo); [| |done]; injection Hc as Hc <-];
    (destruct (f_inodes _ !! file) as [i|] eqn:Ei; [|done]); injection Hc as <-; by exists i.
Qed.

(** What a source captures is a regular file's stamp and length. *)
Lemma open_captures path s src s1 :
  open path s = (Ok src, s1) ->
  exists i, f_inodes s1 !! fb_file src = Some i /\ in_regular i = true /\
    capture (metadata_of (f_device s1) (fb_file src) i) = fb_stamp src /\ fb_length src = zlen (in_bytes i).
Proof.
  intros (before & sa & _ & Hr)%bind_inv. destruct (negb (md_is_file before)); [done|].
  apply bind_inv in Hr as (file & sb & _ & Hr). apply bind_inv in Hr as (m & sc & _ & Hr). destruct (_ || _); [done|].
  apply bind_inv in Hr as (m' & sd & Hd & Hr). pose proof (handle_metadata_now _ _ _ _ Hd) as (i & Hi & ->).
  destruct (md_is_file _) eqn:Ef; [|done]. injection Hr as <- <-. exists i. by split_and!.
Qed.

Section ingest.
Context `{Allocator, HeaderJson, EntrySort, Sha256}.

(** A check that succeeds has seen the captured stamp. *)
Lemma check_unbroken P Changing o o' :
  file_check_unchanged o = (Ok tt, o') -> op_source o' = op_source o /\ ~ broken (op_source o) P Changing (op_files o').
Proof.
  unfold file_check_unchanged, on_files. set (src := op_source o). unfold bind, current_stamp, bind.
  destruct (handle_metadata (fb_file src) (op_files o)) as [[m|e] s1] eqn:Em; [|done]. cbn [ret]. unfold check.
  case_bool_decide as Hst; [|done]. intros [= <-]. split; [done|]. intros [_ _ (i & Hi & Hlt)]. cbn [op_files] in Hi.
  destruct (handle_metadata_now _ _ _ _ Em) as (i' & Hi' & ->). rewrite Hi in Hi'. injection Hi' as <-.
  apply captured_change in Hst. lia.
Qed.
Lemma ingest_unbroken P Changing c o h o' :
  plan_and_hash_under c o = (Ok h, o') -> exists o1, op_source o' = op_source o1 /\ ~ broken (op_source o1) P Changing (op_files o').
Proof.
  intros (p & o1 & _ & Hh)%bind_inv. unfold hash_plan in Hh.
  repeat match type of Hh with bind (for_m _ _ _) _ _ = _ => fail 1 | bind _ _ _ = _ => apply bind_inv in Hh as (? & ? & _ & Hh) end.
  apply bind_inv in Hh as (os & o2 & _ & Hh). cbv zeta in Hh. apply bind_inv in Hh as ([] & o3 & Hs & [= _ <-]).
  exists o2. unfold still, map_err_m in Hs. cbn [check_unchanged file_source] in Hs.
  destruct (file_check_unchanged o2) as [[[]|e] o4] eqn:E; [|done]. injection Hs as <-. by eapply check_unbroken.
Qed.

(** C13: Ingest of a file is ingest of one snapshot of it, as far as change times
    tell.  Other processes may rename, replace and rewrite files while it is opened,
    planned and hashed, and reads may be cut short, interrupted or refused; if every
    rewrite of the opened file after the opening carries a change time later than
    the one captured (the clock was not set back, and had moved on since the file's
    last change when it was opened), then digests that are returned are those of the
    bytes the file had when it was opened, and it still has them.  Where nothing
    changes and nothing is refused, the outcome, digests or error, is that of the
    same bytes in memory. *)
Theorem file_ingest_is_snapshot c path s src s1 :
  open path s = (Ok src, s1) -> Forall (visible (fb_file src) (captured_at src)) (f_moments s1) -> fb_length src < U64 ->
  exists i, f_inodes s1 !! fb_file src = Some i /\ in_regular i = true /\
    (forall h o, plan_and_hash_under c (Opened src s1) = (Ok h, o) ->
       (plan_and_hash_under c (in_bytes i)).1 = Ok h /\
       exists i', f_inodes (op_files o) !! fb_file src = Some i' /\ in_bytes i' = in_bytes i) /\
    (Forall harmless (f_moments s1) ->
       (plan_and_hash_under c (Opened src s1)).1 = (plan_and_hash_under c (in_bytes i)).1).
Proof.
  intros Ho Hf1 Hu. destruct (open_captures path s src s1 Ho) as (i & Hi & Hreg & Hst & Hlen).
  exists i. split; [done|]. split; [done|]. rewrite Hlen in Hu.
  assert (forall P, Forall P (f_moments s1) -> mirror_state src (in_bytes i) P (Opened src s1) (in_bytes i)) as Hm.
  { intros P HP. split; [done|]. split; [|done]. constructor; [done|]. by exists i. }
  split.
  - intros h o Hh. destruct (ingest_mirrors src (in_bytes i) (visible (fb_file src) (captured_at src)) True True ltac:(done) ltac:(done) ltac:(done) Hlen Hu c) as [_ Hv].
    specialize (Hv _ _ (Hm _ Hf1)). rewrite Hh in Hv. cbn [fst snd] in Hv. destruct Hv as [[Hs Hb]|[(e & [=] & _)|[Heq (_ & Hk & _)]]].
    + exfalso. destruct (ingest_unbroken (visible (fb_file src) (captured_at src)) True c _ _ _ Hh) as (o1 & Hs1 & Hn). apply Hn. by rewrite <-Hs1, Hs.
    + split; [by rewrite <-Heq|]. destruct (kp_inode _ _ _ _ Hk) as (i' & Hi' & Hb' & _). by exists i'.
  - intros Hh. assert (forall m, harmless m -> visible (fb_file src) (captured_at src) m) as Ht
      by (intros m [Hn _]; unfold visible; rewrite Hn; constructor).
    destruct (ingest_mirrors src (in_bytes i) harmless False False Ht ltac:(by intros m [Hn _]) ltac:(by intros m e [_ Hr] He; destruct (Hr e)) Hlen Hu c) as [_ Hv].
    specialize (Hv _ _ (Hm _ Hh)). destruct Hv as [[_ []]|[(e & _ & io & _ & [])|[Heq _]]]; [done|exact Heq].
Qed.
End ingest.

(** ** A file that is read in pieces *)

#[local] Existing Instances ample_memory sample_json stable_sort toy_sha.

Definition model : list byte := bstr "abcdefgh".
Definition pieces : files :=
  Files 1 {[bstr "m" := ToInode 7]} {[7 := Inode true model None 5]}
    [Moment [] InFull; Moment [] InFull; Moment [] InFull; Moment [] InFull; Moment [] InFull; Moment [] InFull;
     Moment [] InFull; Moment [Renames (bstr "m") None] (InPart 3); Moment [] (Refused Interrupted); Moment [] (InPart 2)].
Definition reading : result io_error file_byte_source * files := open (bstr "m") pieces.
Definition reader : file_byte_source := FileByteSource 7 8 (FileStamp 8 None 1 7 0 5).

Lemma file_ingest_is_snapshot_witness :
  exists h o, plan_and_hash_under None (Opened reader reading.2) = (Ok h, o) /\ (plan_and_hash_under None model).1 = Ok h.
Proof.
  assert (open (bstr "m") pieces = (Ok reader, reading.2)) as E by (vm_compute; reflexivity).
  destruct (file_ingest_is_snapshot None (bstr "m") pieces reader reading.2 E ltac:(vm_compute; repeat constructor) ltac:(vm_compute; reflexivity))
    as (i & Hi & _ & Hok & _).
  assert (f_inodes reading.2 !! fb_file reader = Some (Inode true model None 5)) as Hm by (vm_compute; reflexivity).
  rewrite Hm in Hi. injection Hi as <-. cbn [in_bytes] in Hok.
  destruct (plan_and_hash_under None (Opened reader reading.2)) as [[h|e] o] eqn:Ep.
  - exists h, o. split; [done|]. by destruct (Hok h o eq_refl).
  - exfalso. assert (exists h, (plan_and_hash_under None (Opened reader reading.2)).1 = Ok h) as [h Hh] by (eexists; vm_compute; reflexivity).
    rewrite Ep in Hh. discriminate Hh.
Defined.

(** A rewrite to the same length that leaves both times as they were is not seen:
    the digest returned is of bytes the file had at no time. *)
Definition racing : files :=
  Files 1 {[bstr "m" := ToInode 7]} {[7 := Inode true model None 5]}
    (replicate 7 (Moment [] InFull) ++
     [Moment [] (InPart 4); Moment [Rewrites 7 (bstr "ABCDEFGH") None 5] InFull]).
Example racy_rewrite_unseen :
  exists h, (plan_and_hash_under None (Opened reader (open (bstr "m") racing).2)).1 = Ok h /\
    (plan_and_hash_under None (bstr "abcdEFGH")).1 = Ok h.
Proof. eexists. split; vm_compute; reflexivity. Qed.
