(* ===== verification/RecordsSource.v ===== *)
(** A committed file as a byte source
    ([src/crates/tensorfs-core/src/workspace_source.rs]): an ordered run of data
    records and holes over the object store reads as one file. *)

From S2P Require Export StoreFacts Tfm1.

(** ** The source *)

(** [struct RecordsSource]: the records with their start offsets. *)
Record records_source : Type := RecordsSource {
  rs_segments : list (Z * file_record);
  rs_length : Z
}.

(** [RecordsSource::new]. *)
Definition records_source_new (records : list file_record) : records_source :=
  let '(segments, position) := foldl (fun '(segments, position) record =>
      (segments ++ [(position, record)], wadd position (record_length record)))
    ([], 0) records in
  RecordsSource segments position.

(** [read_object]: open, seek, [read_exact]. *)
Definition read_object (digest : list byte) (within n : Z) : M disk io_error (list byte) :=
  let<- file := map_err_m (fun _ => OtherIo 0) (open_object digest) in
  query (fun _ => Ok tt);;;
  query (fun _ =>
    match get_range file within (within + n) with
    | Some bytes => Ok bytes
    | None => Err UnexpectedEof
    end).

(** [destination[from..to]] replaced by [bytes]. *)
Definition splice (destination : list byte) (from to : Z) (bytes : list byte) : list byte :=
  take (Z.to_nat from) destination ++ bytes ++ drop (Z.to_nat to) destination.

(** The loop of [read_exact_at] over the segments.  A segment past the range
    ends it; a slice with its bounds crossed, which only a run whose lengths
    overflow could ask for, would panic and is a failure here. *)
Fixpoint read_segments (offset stop : Z) (segments : list (Z * file_record))
    (destination : list byte) : M disk io_error (list byte) :=
  match segments with
  | [] => ret destination
  | (start, record) :: segments =>
      let segment_end := wadd start (record_length record) in
      if segment_end <=? offset then read_segments offset stop segments destination
      else if stop <=? start then ret destination
      else
        let from := Z.max offset start in
        let to := Z.min stop segment_end in
        check (from <=? to) (OtherIo 1);;;
        let<- bytes :=
          match record with
          | Hole _ => ret (replicate (Z.to_nat (to - from)) Byte.x00)
          | Data digest _ => read_object digest (from - start) (to - from)
          end in
        read_segments offset stop segments (splice destination (from - offset) (to - offset) bytes)
  end.

(** [read_exact_at]. *)
Definition records_read (rs : records_source) (offset n : Z) : M disk io_error (list byte) :=
  match checked_add offset n with
  | None => fail InvalidInput
  | Some stop =>
      if rs_length rs <? stop then fail UnexpectedEof
      else read_segments offset stop (rs_segments rs) (replicate (Z.to_nat n) Byte.x00)
  end.

(** ** The file a run denotes *)

(** The bytes of a record: the object's first [length] bytes, padded with zeros
    where the object is missing or short, which a read would refuse. *)
Definition record_bytes (O : gmap (list byte) node) (r : file_record) : list byte :=
  match r with
  | Hole n => replicate (Z.to_nat n) Byte.x00
  | Data digest n =>
      let bytes := match O !! digest with Some (Regular bytes _) => bytes | _ => [] end in
      resize (Z.to_nat n) Byte.x00 bytes
  end.
Definition run_bytes (O : gmap (list byte) node) (records : list file_record) : list byte :=
  records ≫= record_bytes O.

(** Every data record's object is there and has the record's bytes. *)
Definition record_resident (O : gmap (list byte) node) (r : file_record) : Prop :=
  match r with
  | Hole _ => True
  | Data digest n => exists bytes ro, O !! digest = Some (Regular bytes ro) /\ n <= zlen bytes
  end.
Definition run_resident (O : gmap (list byte) node) (records : list file_record) : Prop :=
  Forall (record_resident O) records.

(** A run whose lengths are [u64]s and add up in range. *)
Definition run_fits (records : list file_record) : Prop :=
  Forall (fun r => 0 <= record_length r) records /\ sum_lengths records < U64.

(** ** Reading is slicing *)

Lemma t_read_object O digest within n :
  triple (objects_are O) (read_object digest within n)
    (fun bytes d => objects_are O d /\ exists file ro, O !! digest = Some (Regular file ro) /\
       get_range file within (within + n) = Some bytes)
    (fun _ => objects_are O).
Proof.
  unfold read_object. eapply t_bind.
  - intros d Hd. unfold map_err_m. pose proof (t_open_object O digest d Hd) as Ho.
    destruct (open_object digest d) as [[file|e] d']; [exact Ho|exact Ho].
  - intros file. apply t_pure_r. intros [ro Hro].
    eapply t_bind; [apply (t_query (objects_are O))|]. intros u. apply t_pure_r. intros _.
    eapply t_conseq; [apply (t_query (objects_are O))|done| |done].
    intros bytes d [Hd (d0 & _ & Hg)]. split; [done|]. exists file, ro. split; [done|].
    by destruct (get_range _ _ _); simplify_eq.
Qed.

Lemma read_object_length digest within n d bytes d' :
  0 <= within -> 0 <= n -> read_object digest within n d = (Ok bytes, d') -> zlen bytes = n.
Proof.
  intros Hw Hn Hr. pose proof (t_read_object (objects d) digest within n d eq_refl) as Ht.
  rewrite Hr in Ht. destruct Ht as (_ & file & ro & _ & [Hle ->]%get_range_Some).
  rewrite slice_length by lia. lia.
Qed.

Lemma zlen_splice dst from to bytes :
  0 <= from <= to -> to <= zlen dst -> zlen bytes = to - from ->
  zlen (splice dst from to bytes) = zlen dst.
Proof.
  unfold splice, zlen. intros. rewrite !length_app, length_take, length_drop. lia.
Qed.

Lemma read_segments_length offset stop segments dst d bytes d' :
  Forall (fun seg => 0 <= seg.1) segments ->
  0 <= offset -> zlen dst = stop - offset -> offset <= stop ->
  read_segments offset stop segments dst d = (Ok bytes, d') -> zlen bytes = stop - offset.
Proof.
  intros Hf Ho. revert dst d. induction Hf as [|[start record] segments Hs Hf IH];
    intros dst d Hl Hle Hr; cbn [read_segments] in Hr; [by injection Hr as <- _|]. simpl in Hs.
  destruct (Z.leb_spec (wadd start (record_length record)) offset); [by eapply IH|].
  destruct (Z.leb_spec stop start); [by injection Hr as <- _|].
  destruct (Z.leb_spec (Z.max offset start) (Z.min stop (wadd start (record_length record)))) as [Hft|];
    [|by apply bind_inv in Hr as (? & ? & ? & _)].
  apply bind_inv in Hr as ([] & d1 & [= <-] & Hr). apply bind_inv in Hr as (b & d2 & Em & Hr).
  eapply IH; [|done|exact Hr]. rewrite zlen_splice; [done|lia|lia|].
  destruct record as [digest n|n].
  - apply read_object_length in Em; [rewrite Em; lia|lia|lia].
  - injection Em as <- _. unfold zlen. rewrite length_replicate. cbn [record_length] in *. lia.
Qed.

(** The segments of a run, from a position on. *)
Fixpoint segments_from (position : Z) (records : list file_record) : list (Z * file_record) :=
  match records with
  | [] => []
  | r :: records => (position, r) :: segments_from (wadd position (record_length r)) records
  end.
Definition position_after (position : Z) (records : list file_record) : Z :=
  foldl (fun p r => wadd p (record_length r)) position records.

Lemma records_source_new_eq records :
  records_source_new records = RecordsSource (segments_from 0 records) (position_after 0 records).
Proof.
  unfold records_source_new, position_after.
  assert (forall acc p, foldl (fun '(segments, position) record =>
      (segments ++ [(position, record)], wadd position (record_length record))) (acc, p) records
    = (acc ++ segments_from p records, foldl (fun p r => wadd p (record_length r)) p records)) as Hf.
  { induction records as [|r records IH]; intros acc p; simpl; [by rewrite app_nil_r|].
    by rewrite IH, <-app_assoc. }
  by rewrite Hf.
Qed.

Lemma wadd_nonneg a b : 0 <= wadd a b.
Proof. unfold wadd. pose proof (Z.mod_pos_bound (a + b) U64 ltac:(done)). lia. Qed.

Lemma segments_from_nonneg p records :
  0 <= p -> Forall (fun seg => 0 <= seg.1) (segments_from p records).
Proof.
  revert p. induction records as [|r records IH]; intros p Hp; simpl; constructor; [done|].
  apply IH, wadd_nonneg.
Qed.

(** [impl ByteSource for RecordsSource]: the object store is the state. *)
Definition records_byte_source (records : list file_record) : ByteSource disk.
Proof.
  refine {|
    src_len _ := rs_length (records_source_new records);
    read_exact_at := records_read (records_source_new records);
    check_unchanged := ret tt |}.
  - done.
  - done.
  - intros offset n d bytes d' Ho Hn. unfold records_read. rewrite records_source_new_eq. simpl.
    destruct (checked_add offset n) as [stop|] eqn:Ec; [|done].
    apply checked_add_Some in Ec as [-> _]. destruct (_ <? _); [done|]. intros Hr.
    apply read_segments_length in Hr; [lia|by apply segments_from_nonneg|done| |lia].
    unfold zlen. rewrite length_replicate. lia.
Defined.

Lemma slice_inside {A} (a b c : list A) i j :
  0 <= i <= j -> j <= zlen b -> slice (a ++ b ++ c) (zlen a + i) (zlen a + j) = slice b i j.
Proof.
  unfold slice, zlen. intros ??.
  replace (Z.to_nat (Z.of_nat (length a) + j - (Z.of_nat (length a) + i))) with (Z.to_nat (j - i)) by lia.
  replace (Z.to_nat (Z.of_nat (length a) + i)) with (length a + Z.to_nat i)%nat by lia.
  rewrite <-drop_drop, drop_app_length, drop_app_le by lia. rewrite take_app_le; [done|].
  rewrite length_drop. lia.
Qed.

Lemma zlen_record_bytes O r : 0 <= record_length r -> zlen (record_bytes O r) = record_length r.
Proof.
  destruct r as [digest n|n]; simpl; intros Hn; unfold zlen.
  - rewrite length_resize. lia.
  - rewrite length_replicate. lia.
Qed.

Lemma zlen_run_bytes O records :
  Forall (fun r => 0 <= record_length r) records -> zlen (run_bytes O records) = sum_lengths records.
Proof.
  induction 1 as [|r records Hr Hf IH]; [done|]. unfold run_bytes in *.
  rewrite bind_cons, zlen_app, zlen_record_bytes, IH by done. done.
Qed.

(** What a record's part of the file reads as. *)
Lemma t_read_record O r i j :
  0 <= i <= j -> j <= record_length r ->
  triple (objects_are O)
    (match r with
     | Hole _ => ret (replicate (Z.to_nat (j - i)) Byte.x00)
     | Data digest _ => read_object digest i (j - i)
     end)
    (fun bytes d => objects_are O d /\ bytes = slice (record_bytes O r) i j)
    (fun _ => objects_are O).
Proof.
  intros Hi Hj. destruct r as [digest n|n]; simpl in Hj.
  - eapply t_conseq; [apply t_read_object|done| |done].
    intros bytes d (Hd & file & ro & Hf & [Hle ->]%get_range_Some). split; [done|]. simpl.
    rewrite Hf. unfold slice. unfold zlen in Hle.
    replace (i + (j - i)) with j in * by lia.
    rewrite resize_spec, drop_app_le; [|rewrite length_take; lia].
    rewrite take_app_le; [|rewrite length_drop, length_take; lia].
    rewrite skipn_firstn_comm, take_take. f_equal. lia.
  - apply t_ret. intros d Hd. split; [done|]. simpl. unfold slice.
    rewrite drop_replicate, take_replicate. f_equal. lia.
Qed.

Lemma take_splice dst from to bytes :
  0 <= from <= to -> to <= zlen dst -> zlen bytes = to - from ->
  take (Z.to_nat to) (splice dst from to bytes) = take (Z.to_nat from) dst ++ bytes.
Proof.
  unfold splice, zlen. intros. rewrite app_assoc, take_app_le.
  - apply take_ge. rewrite length_app, length_take. lia.
  - rewrite length_app, length_take. lia.
Qed.

Section reads.
Context (O : gmap (list byte) node) (all : list file_record) (offset stop : Z).
Context (Hrange : 0 <= offset <= stop).

Let file := run_bytes O all.
(** How much of the range lies before a position of the file. *)
Let clamp (p : Z) : Z := Z.max offset (Z.min p stop).

(** The part of the destination before [p] holds the file's bytes. *)
Definition filled (p : Z) (dst : list byte) : Prop :=
  zlen dst = stop - offset /\ take (Z.to_nat (clamp p - offset)) dst = slice file offset (clamp p).

Lemma filled_done p dst : stop <= p -> filled p dst -> dst = slice file offset stop.
Proof.
  intros Hp [Hl Ht]. replace (clamp p) with stop in Ht by (unfold clamp; lia). rewrite <-Ht. symmetry.
  apply take_ge. unfold zlen in Hl. lia.
Qed.

Lemma t_read_segments pre records dst :
  all = pre ++ records -> Forall (fun r => 0 <= record_length r) all ->
  sum_lengths all < U64 -> stop <= sum_lengths all -> filled (sum_lengths pre) dst ->
  triple (objects_are O) (read_segments offset stop (segments_from (sum_lengths pre) records) dst)
    (fun bytes d => objects_are O d /\ bytes = slice file offset stop) (fun _ => objects_are O).
Proof.
  revert pre dst. induction records as [|r records IH]; intros pre dst Hall Hf Hlt Hstop Hd;
    cbn [segments_from read_segments].
  { rewrite app_nil_r in Hall. subst pre. apply t_ret. intros d Ho. split; [done|].
    by eapply filled_done. }
  pose proof Hf as Hf'. rewrite Hall, Forall_app, Forall_cons in Hf'. destruct Hf' as (Hpre & Hr & Hpost).
  assert (forall l, Forall (fun r => 0 <= record_length r) l -> 0 <= sum_lengths l) as Hnn.
  { induction 1; simpl; lia. }
  assert (sum_lengths all = sum_lengths pre + record_length r + sum_lengths records) as Hsum.
  { rewrite Hall. clear. induction pre; simpl in *; lia. }
  pose proof (Hnn _ Hpre). pose proof (Hnn _ Hpost).
  rewrite wadd_small by lia. rewrite <-sum_lengths_snoc.
  assert (forall dst', filled (sum_lengths (pre ++ [r])) dst' ->
    triple (objects_are O) (read_segments offset stop (segments_from (sum_lengths (pre ++ [r])) records) dst')
      (fun bytes d => objects_are O d /\ bytes = slice file offset stop) (fun _ => objects_are O)) as Hnext.
  { intros dst' Hd'. apply IH; [by rewrite <-app_assoc|done..]. }
  rewrite sum_lengths_snoc in *.
  destruct (Z.leb_spec (sum_lengths pre + record_length r) offset) as [Hskip|Hin].
  { apply Hnext. destruct Hd as [Hl Ht]. split; [done|]. unfold clamp in *.
    replace (Z.max offset (Z.min (sum_lengths pre + record_length r) stop))
      with (Z.max offset (Z.min (sum_lengths pre) stop)) by lia. done. }
  destruct (Z.leb_spec stop (sum_lengths pre)) as [Hend|Hmore].
  { apply t_ret. intros d Ho. split; [done|]. by eapply filled_done. }
  set (from := Z.max offset (sum_lengths pre)).
  set (to := Z.min stop (sum_lengths pre + record_length r)).
  eapply t_bind with (Q' := fun _ => objects_are O).
  { apply t_check. intros d Ho. replace (from <=? to) with true by lia. done. }
  intros _. eapply t_bind.
  { replace (to - from) with ((to - sum_lengths pre) - (from - sum_lengths pre)) by lia.
    apply t_read_record; lia. }
  intros bytes. apply t_pure_r. intros ->. apply Hnext. destruct Hd as [Hl Ht].
  assert (slice (record_bytes O r) (from - sum_lengths pre) (to - sum_lengths pre)
          = slice file from to) as ->.
  { assert (file = run_bytes O pre ++ record_bytes O r ++ run_bytes O records) as ->.
    { unfold file, run_bytes. rewrite Hall, bind_app, bind_cons. done. }
    rewrite <-(slice_inside (run_bytes O pre) _ (run_bytes O records)), zlen_run_bytes;
      [|done|lia|rewrite zlen_record_bytes; lia]. f_equal; lia. }
  assert (zlen file = sum_lengths all) as Hfl by by apply zlen_run_bytes.
  assert (zlen (slice file from to) = to - from) as Hsl by (apply slice_length; lia).
  split; [by rewrite zlen_splice by lia|].
  replace (clamp (sum_lengths pre + record_length r)) with to by (unfold clamp; lia).
  rewrite take_splice by lia. replace (clamp (sum_lengths pre)) with from in Ht by (unfold clamp; lia).
  rewrite Ht. apply slice_join; lia.
Qed.
End reads.

Lemma position_after_sum p records :
  0 <= p -> Forall (fun r => 0 <= record_length r) records -> p + sum_lengths records < U64 ->
  position_after p records = p + sum_lengths records.
Proof.
  intros Hp Hf. revert p Hp. unfold position_after. induction Hf as [|r records Hr Hf IH]; intros p Hp Hlt; simpl.
  - lia.
  - simpl in Hlt. assert (0 <= sum_lengths records) by (clear -Hf; induction Hf; simpl; lia).
    rewrite wadd_small by lia. rewrite IH by lia. lia.
Qed.

Lemma t_records_read O records offset n :
  run_fits records -> 0 <= offset -> 0 <= n ->
  triple (objects_are O) (records_read (records_source_new records) offset n)
    (fun bytes d => objects_are O d /\ get_range (run_bytes O records) offset (offset + n) = Some bytes)
    (fun _ => objects_are O).
Proof.
  intros [Hf Hlt] Ho Hn. unfold records_read. rewrite records_source_new_eq. cbn [rs_segments rs_length].
  destruct (checked_add offset n) as [stop|] eqn:Ec; [|by apply t_fail].
  apply checked_add_Some in Ec as [-> Hof].
  rewrite position_after_sum by (done || lia). rewrite Z.add_0_l.
  destruct (Z.ltb_spec (sum_lengths records) (offset + n)); [by apply t_fail|].
  eapply t_conseq; [apply (t_read_segments O records offset (offset + n) ltac:(lia) [] records); try done| | |].
  - split; [unfold zlen; rewrite length_replicate; lia|].
    replace (Z.max _ _) with offset by (simpl; lia). by rewrite Z.sub_diag, slice_nil.
  - done.
  - intros bytes d [Hd ->]. split; [done|]. unfold get_range. rewrite zlen_run_bytes by done.
    by replace ((offset <=? offset + n) && (offset + n <=? sum_lengths records)) with true by lia.
  - done.
Qed.

(** Reading never touches the objects, whatever the arguments. *)
Lemma t_read_segments_frame O offset stop segments dst :
  triple (objects_are O) (read_segments offset stop segments dst) (fun _ => objects_are O)
    (fun _ => objects_are O).
Proof.
  revert dst. induction segments as [|[start r] segments IH]; intros dst; cbn [read_segments];
    [by apply t_ret|].
  destruct (_ <=? _); [apply IH|]. destruct (_ <=? _); [by apply t_ret|].
  eapply t_bind with (Q' := fun _ => objects_are O); [apply t_check; intros; by case_match|]. intros u.
  eapply t_bind with (Q' := fun _ => objects_are O); [|intros bytes; apply IH].
  destruct r; [|by apply t_ret]. eapply t_conseq; [apply t_read_object|done|by intros ?? []|done].
Qed.

Lemma records_read_objects rs offset n d : objects (records_read rs offset n d).2 = objects d.
Proof.
  unfold records_read. destruct (checked_add _ _) as [stop|]; [|done]. destruct (_ <? _); [done|].
  pose proof (t_read_segments_frame (objects d) offset stop (rs_segments rs)
    (replicate (Z.to_nat n) Byte.x00) d eq_refl) as Hf.
  by destruct (read_segments _ _ _ _ _) as [[?|?] ?].
Qed.

(** A run that fits is a snapshot source: its reads are slices of one file. *)
Definition records_snapshot (records : list file_record) (Hfit : run_fits records)
  : @Source.Snapshot disk (records_byte_source records).
Proof.
  refine (@Source.Build_Snapshot disk (records_byte_source records)
    (fun d => run_bytes (objects d) records) _ _ _ _).
  - intros d. simpl. rewrite records_source_new_eq. simpl. destruct Hfit as [Hf Hlt].
    rewrite position_after_sum by (done || lia). by rewrite zlen_run_bytes.
  - intros offset n d. simpl. by rewrite records_read_objects.
  - done.
  - intros offset n d bytes d' Ho Hn Hr. simpl in Hr.
    pose proof (t_records_read (objects d) records offset n Hfit Ho Hn d eq_refl) as Ht.
    rewrite Hr in Ht. apply Ht.
Defined.
