(* ===== verification/Metadata.v ===== *)
(** The workspace metadata tables and the functions over them
    ([src/crates/tensorfs-core/src/workspace.rs]): rows, path resolution, record
    maps, tree mutations, truncation, and the staging of a tree into a builder.

    A table is a finite map from its primary key; a statement is a function on
    the tables with the meaning SQL gives it, foreign keys and [ON DELETE
    CASCADE] included.  Rows come back in an order nothing fixes ([Unordered]).
    A statement the engine itself fails makes the whole transaction fail; that
    is added where the transactions are, in [Workspace.v]. *)

From S2P Require Export RecordsSource Tfm1Builder.

(** ** Rows *)

Definition KIND_DIRECTORY : Z := 1.
Definition KIND_FILE : Z := 2.
Definition KIND_SYMLINK : Z := 3.

(** [enum LeaseKind] and [to_row]. *)
Inductive lease_kind : Type := Unlinked | PendingSync.
Definition lease_kind_to_row (k : lease_kind) : Z :=
  match k with Unlinked => 2 | PendingSync => 4 end.

(** [as i64] and [as u64]. *)
Definition as_i64 (z : Z) : Z := if z <? 2 ^ 63 then z else z - U64.
Definition as_u64 (z : Z) : Z := z mod U64.

Record workspaces_row : Type := WorkspacesRow {
  wr_name : list byte; wr_head_generation : Z; wr_root_inode : Z
}.
Record inodes_row : Type := InodesRow {
  ir_workspace_id : Z; ir_kind : Z; ir_executable : Z; ir_planner : option Z;
  ir_contract : option (list byte); ir_symlink_target : option (list byte)
}.
Record object_maps_row : Type := ObjectMapsRow {
  or_hole : Z; or_digest : option (list byte); or_length : Z
}.
Record leases_row : Type := LeasesRow {
  lr_kind : Z; lr_holder : list byte; lr_workspace_id : option Z; lr_inode : option Z
}.

(** The schema of [WorkspaceStore::open]. *)
Record db : Type := Db {
  workspaces : gmap Z workspaces_row;
  inodes : gmap Z inodes_row;
  dirents : gmap (Z * list byte) Z;
  object_maps : gmap (Z * Z) object_maps_row;
  snapshots : gmap (list byte) Z;
  leases : gmap Z leases_row;
  lease_objects : gset (Z * list byte);
  gc_epoch : Z;
  gc_quarantine : gmap (list byte) Z
}.
Definition fresh_db : db := Db ∅ ∅ ∅ ∅ ∅ ∅ ∅ 0 ∅.

Definition with_workspaces f (d : db) : db :=
  Db (f (workspaces d)) (inodes d) (dirents d) (object_maps d) (snapshots d) (leases d)
    (lease_objects d) (gc_epoch d) (gc_quarantine d).
Definition with_inodes f (d : db) : db :=
  Db (workspaces d) (f (inodes d)) (dirents d) (object_maps d) (snapshots d) (leases d)
    (lease_objects d) (gc_epoch d) (gc_quarantine d).
Definition with_dirents f (d : db) : db :=
  Db (workspaces d) (inodes d) (f (dirents d)) (object_maps d) (snapshots d) (leases d)
    (lease_objects d) (gc_epoch d) (gc_quarantine d).
Definition with_object_maps f (d : db) : db :=
  Db (workspaces d) (inodes d) (dirents d) (f (object_maps d)) (snapshots d) (leases d)
    (lease_objects d) (gc_epoch d) (gc_quarantine d).
Definition with_snapshots f (d : db) : db :=
  Db (workspaces d) (inodes d) (dirents d) (object_maps d) (f (snapshots d)) (leases d)
    (lease_objects d) (gc_epoch d) (gc_quarantine d).
Definition with_leases f (d : db) : db :=
  Db (workspaces d) (inodes d) (dirents d) (object_maps d) (snapshots d) (f (leases d))
    (lease_objects d) (gc_epoch d) (gc_quarantine d).
Definition with_lease_objects f (d : db) : db :=
  Db (workspaces d) (inodes d) (dirents d) (object_maps d) (snapshots d) (leases d)
    (f (lease_objects d)) (gc_epoch d) (gc_quarantine d).
Definition with_gc epoch f (d : db) : db :=
  Db (workspaces d) (inodes d) (dirents d) (object_maps d) (snapshots d) (leases d)
    (lease_objects d) epoch (f (gc_quarantine d)).

(** The key an [INTEGER PRIMARY KEY] insert picks: one that is not in use. *)
Class Rowid : Type := {
  new_rowid : gset Z -> Z;
  new_rowid_fresh ids : new_rowid ids ∉ ids
}.

(** SQLite's choice: one more than the largest in use, so the key of a deleted
    last row is used again. *)
Definition max_rowid (ids : gset Z) : Z := set_fold Z.max 0 ids.
Lemma max_rowid_le ids x : x ∈ ids -> x <= max_rowid ids.
Proof.
  unfold max_rowid. revert x.
  apply (set_fold_ind_L (fun m (s : gset Z) => forall x, x ∈ s -> x <= m)); [set_solver|].
  intros y s m Hy IH x [->%elem_of_singleton|Hx%IH]%elem_of_union; lia.
Qed.
Definition sqlite_rowid : Rowid.
Proof.
  refine {| new_rowid ids := max_rowid ids + 1 |}.
  intros ids Hin%max_rowid_le. lia.
Defined.

(** ** Errors and mutations *)

(** [enum WorkspaceError]; [WE_Panic] stands for an [expect] that fails. *)
Inductive workspace_error : Type :=
| WE_Db
| WE_Store (e : store_error)
| WE_Layout
| WE_Tfm1 (e : tfm1_error)
| WE_UnknownWorkspace (name : list byte)
| WE_WorkspaceExists (name : list byte)
| WE_Missing (path : list byte)
| WE_Exists (path : list byte)
| WE_NotADirectory (path : list byte)
| WE_NotAFile (path : list byte)
| WE_NotEmpty (path : list byte)
| WE_CaseFoldCollision (path : list byte)
| WE_MidRecordTruncate (path : list byte) (length : Z)
| WE_MissingObject (digest : list byte)
| WE_UnknownSnapshot (id : list byte)
| WE_SnapshotCorrupt
| WE_UnknownLease (lease : Z)
| WE_RenameIntoSelf (path : list byte)
| WE_Plan (e : plan_error)
| WE_SealContention
| WE_Panic.

(** [enum Mutation]. *)
Inductive mutation : Type :=
| Mkdir (path : list byte)
| CreateFile (path : list byte) (executable : bool) (planner : planner_id)
    (records : list file_record)
| SetRecords (path : list byte) (records : list file_record)
| Truncate (path : list byte) (length : Z)
| Rename (from to : list byte)
| Unlink (path : list byte)
| Rmdir (path : list byte)
| MSymlink (path target : list byte)
| MHardlink (path target : list byte)
| SetExecutable (path : list byte) (executable : bool).

(** [struct WorkspaceRow] and [struct ResolvedInode]. *)
Record workspace_row_t : Type := WorkspaceRow {
  w_id : Z; w_head_generation : Z; w_root_inode : Z
}.
Record resolved_inode : Type := ResolvedInode { ri_id : Z; ri_kind : Z }.

(** ** Row codecs *)

(** [digest_from_row]. *)
Definition digest_from_row (bytes : list byte) : result workspace_error (list byte) :=
  if zlen bytes =? 32 then Ok bytes else Err WE_SnapshotCorrupt.

(** [records_length]. *)
Definition records_length (records : list file_record) : result tfm1_error Z :=
  for_each (fun sum r => let! sum := checked_add sum (record_length r) ?: LengthSumMismatch in Ok sum)
    0 records.

(** [contract_to_row] and [contract_from_row]: [NULL] is the plain grid. *)
Definition contract_to_row (contract : stamp) : option (list byte) :=
  match contract with StampNone => None | named => Some (Stamp_display named) end.
Definition contract_from_row (stored : option (list byte)) : stamp :=
  match stored with
  | None => StampNone
  | Some text => match Stamp_parse text with Ok s => s | Err _ => StampNone end
  end.

(** [planner_to_row] and [planner_from_row]. *)
Definition planner_to_row (planner : planner_id) : Z :=
  match planner with SafetensorsV1 => 1 | GgufV1 => 2 | BlobV1 => 4 end.
Definition planner_from_row (tag : Z) : planner_id :=
  if tag =? 1 then SafetensorsV1 else if tag =? 2 then GgufV1 else BlobV1.

(** [split_parent]. *)
Definition split_parent (path : list byte) : option (list byte) * list byte :=
  match rsplit_once slash path with
  | Some (parent, name) => (Some parent, name)
  | None => (None, path)
  end.

(** ** Statements *)

(** [SELECT .. FROM workspaces WHERE name = ?1]; names are unique. *)
Definition workspace_row (d : db) (name : list byte) : result workspace_error workspace_row_t :=
  match list_find (fun row => wr_name row.2 = name) (map_to_list (workspaces d)) with
  | Some (_, (id, row)) =>
      Ok (WorkspaceRow id (as_u64 (wr_head_generation row)) (wr_root_inode row))
  | None => Err (WE_UnknownWorkspace name)
  end.

(** [INSERT INTO inodes ..] and [last_insert_rowid()]. *)
Definition insert_inode `{Rowid} (d : db) (row : inodes_row) : db * Z :=
  let id := new_rowid (dom (inodes d)) in
  (with_inodes (<[id := row]>) d, id).

(** [INSERT INTO dirents ..]: the primary key is new and both inodes exist. *)
Definition insert_dirent (d : db) (parent : Z) (name : list byte) (child : Z)
  : result workspace_error db :=
  if decide (dirents d !! (parent, name) = None
             /\ is_Some (inodes d !! parent) /\ is_Some (inodes d !! child))
  then Ok (with_dirents (<[(parent, name) := child]>) d)
  else Err WE_Db.

(** [UPDATE dirents SET parent_inode, name WHERE parent_inode, name]. *)
Definition update_dirent (d : db) (new_parent : Z) (new_name : list byte) (old_parent : Z)
    (old_name : list byte) : result workspace_error db :=
  match dirents d !! (old_parent, old_name) with
  | None => Ok d
  | Some child =>
      let rest := delete (old_parent, old_name) (dirents d) in
      if decide (rest !! (new_parent, new_name) = None /\ is_Some (inodes d !! new_parent))
      then Ok (with_dirents (fun _ => <[(new_parent, new_name) := child]> rest) d)
      else Err WE_Db
  end.

(** [DELETE FROM dirents WHERE parent_inode, name]. *)
Definition delete_dirent (d : db) (parent : Z) (name : list byte) : db :=
  with_dirents (delete (parent, name)) d.

(** The foreign keys without a cascade, checked when a statement ends. *)
Definition references_ok (d : db) : Prop :=
  map_Forall (fun _ child => is_Some (inodes d !! child)) (dirents d) /\
  map_Forall (fun _ row => match lr_inode row with
                           | Some inode => is_Some (inodes d !! inode) | None => True end) (leases d).
#[export] Instance references_ok_dec d : Decision (references_ok d).
Proof.
  unfold references_ok.
  assert (forall row : leases_row, Decision (match lr_inode row with
     | Some inode => is_Some (inodes d !! inode) | None => True end)).
  { intros row. destruct (lr_inode row); apply _. }
  apply _.
Defined.

(** [DELETE FROM inodes WHERE ..] cascades to record maps and to the entries of
    a deleted directory. *)
Definition delete_inodes (d : db) (dead : gset Z) : db :=
  with_object_maps (filter (fun row => row.1.1 ∉ dead))
    (with_dirents (filter (fun row => row.1.1 ∉ dead))
      (with_inodes (filter (fun row => row.1 ∉ dead)) d)).
Definition delete_inode (d : db) (inode : Z) : result workspace_error db :=
  let d := delete_inodes d {[inode]} in
  if decide (references_ok d) then Ok d else Err WE_Db.

(** [insert_records]: the inode's map is replaced. *)
Definition record_to_row (r : file_record) : object_maps_row :=
  match r with
  | Data digest length => ObjectMapsRow 0 (Some digest) (as_i64 length)
  | Hole length => ObjectMapsRow 1 None (as_i64 length)
  end.
Definition insert_records (d : db) (inode : Z) (records : list file_record) : db :=
  with_object_maps (fun rows =>
    foldl (fun rows ir => <[(inode, ir.1) := record_to_row ir.2]> rows)
      (filter (fun row => row.1.1 <> inode) rows)
      (imap (fun i r => (Z.of_nat i, r)) records)) d.

(** [read_records]: [.. WHERE inode = ?1 ORDER BY ordinal]. *)
Definition record_from_row (row : object_maps_row) : result workspace_error file_record :=
  let length := as_u64 (or_length row) in
  if or_hole row =? 1 then Ok (Hole length)
  else
    match or_digest row with
    | None => Err WE_Db
    | Some bytes => let? digest := digest_from_row bytes in Ok (Data digest length)
    end.
Definition rows_of (d : db) (inode : Z) : list (Z * object_maps_row) :=
  sort_by (fun a b => Z.compare a.1 b.1)
    ((fun row => (row.1.2, row.2)) <$>
       filter (fun row : Z * Z * object_maps_row => row.1.1 = inode) (map_to_list (object_maps d))).
Definition read_records (d : db) (inode : Z) : result workspace_error (list file_record) :=
  for_each (fun records row => let? r := record_from_row row.2 in Ok (records ++ [r]))
    [] (rows_of d inode).

(** [link_count], [lease_count], [drop_inode_if_orphaned]. *)
Definition link_count (d : db) (inode : Z) : Z :=
  Z.of_nat (size (filter (fun row => row.2 = inode) (dirents d))).
Definition lease_count (d : db) (inode : Z) : Z :=
  Z.of_nat (size (filter (fun row => lr_inode row.2 = Some inode) (leases d))).
Definition drop_inode_if_orphaned (d : db) (inode : Z) : result workspace_error db :=
  if (link_count d inode =? 0) && (lease_count d inode =? 0) then delete_inode d inode else Ok d.

(** ** Paths *)

Section paths.
Context `{Unicode}.

(** The loop of [resolve_path]: the inner join drops an entry whose inode is
    missing. *)
Fixpoint resolve_segments (d : db) (current : resolved_inode) (segments : list (list byte))
  : option resolved_inode :=
  match segments with
  | [] => Some current
  | segment :: segments =>
      if negb (ri_kind current =? KIND_DIRECTORY) then None
      else
        let* child := dirents d !! (ri_id current, segment) in
        let* row := inodes d !! child in
        resolve_segments d (ResolvedInode child (ir_kind row)) segments
  end.

Definition root_of (w : workspace_row_t) : resolved_inode :=
  ResolvedInode (w_root_inode w) KIND_DIRECTORY.

(** [resolve_path]: the empty path is the root. *)
Definition resolve_path (d : db) (w : workspace_row_t) (path : list byte)
  : result workspace_error (option resolved_inode) :=
  if decide (path = []) then Ok (Some (root_of w))
  else
    let? _ := map_err WE_Tfm1 (validate_path path) in
    Ok (resolve_segments d (root_of w) (split_on slash path)).

(** The sibling names under a directory. *)
Definition sibling_names `{Unordered} (d : db) (parent : Z) : list (list byte) :=
  enumerate ((fun row => row.1.2) <$>
    filter (fun row : Z * list byte * Z => row.1.1 = parent) (map_to_list (dirents d))).

(** [resolve_new_leaf]. *)
Definition resolve_new_leaf `{Unordered} (d : db) (w : workspace_row_t) (path : list byte)
  : result workspace_error (Z * list byte) :=
  let? _ := map_err WE_Tfm1 (validate_path path) in
  let (parent, name) := split_parent path in
  let? parent_inode :=
    match parent with
    | None => Ok (w_root_inode w)
    | Some parent_path =>
        let? resolved := resolve_path d w parent_path in
        let! resolved := resolved ?: WE_Missing parent_path in
        if negb (ri_kind resolved =? KIND_DIRECTORY) then Err (WE_NotADirectory parent_path)
        else Ok (ri_id resolved)
    end in
  match dirents d !! (parent_inode, name) with
  | Some _ => Err (WE_Exists path)
  | None =>
      let folded := case_fold name in
      if existsb (fun sibling => bool_decide (case_fold sibling = folded)) (sibling_names d parent_inode)
      then Err (WE_CaseFoldCollision path)
      else Ok (parent_inode, name)
  end.

(** The parent of a path that already resolved; its [expect] is [WE_Panic]. *)
Definition parent_of_resolved (d : db) (w : workspace_row_t) (path : list byte)
  : result workspace_error (Z * list byte) :=
  let (parent, name) := split_parent path in
  match parent with
  | None => Ok (w_root_inode w, name)
  | Some parent_path =>
      let? resolved := resolve_path d w parent_path in
      let! resolved := resolved ?: WE_Panic in
      Ok (ri_id resolved, name)
  end.

(** [resolve_path(..)?.ok_or_else(|| Missing(path))?]. *)
Definition resolve_existing (d : db) (w : workspace_row_t) (path : list byte)
  : result workspace_error resolved_inode :=
  let? resolved := resolve_path d w path in
  let! inode := resolved ?: WE_Missing path in Ok inode.
Definition resolve_file (d : db) (w : workspace_row_t) (path : list byte)
  : result workspace_error resolved_inode :=
  let? inode := resolve_existing d w path in
  if negb (ri_kind inode =? KIND_FILE) then Err (WE_NotAFile path) else Ok inode.
End paths.

(** ** Truncation *)

(** The loop of [truncate_records]: what is kept and the position reached. *)
Fixpoint truncate_loop (kept : list file_record) (position length : Z) (records : list file_record)
  : option (list file_record * Z) :=
  match records with
  | [] => Some (kept, position)
  | r :: records =>
      if length <=? position then Some (kept, position)
      else
        let* stop := checked_add position (record_length r) in
        if stop <=? length then truncate_loop (kept ++ [r]) stop length records
        else
          match r with
          | Hole _ => Some (kept ++ [Hole (wsub length position)], length)
          | Data _ _ => None
          end
  end.

(** [truncate_records]. *)
Definition truncate_records (records : list file_record) (length : Z) : option (list file_record) :=
  let* (kept, position) := truncate_loop [] 0 length records in
  if position <? length then
    match last kept with
    | Some (Hole hole_length) =>
        Some (removelast kept ++ [Hole (wadd hole_length (wsub length position))])
    | _ => Some (kept ++ [Hole (wsub length position)])
    end
  else Some kept.

(** ** Mutations *)

Section mutations.
Context `{Unicode, Unordered, Rowid}.

(** A new inode and the entry that names it. *)
Definition create_node (d : db) (w : workspace_row_t) (leaf : Z * list byte) (row : inodes_row)
  : result workspace_error (db * Z) :=
  let (d, inode) := insert_inode d row in
  let? d := insert_dirent d leaf.1 leaf.2 inode in
  Ok (d, inode).

Definition directory_row (w : workspace_row_t) : inodes_row :=
  InodesRow (w_id w) KIND_DIRECTORY 0 None None None.
Definition file_row (w : workspace_row_t) (executable : bool) (planner : planner_id) : inodes_row :=
  InodesRow (w_id w) KIND_FILE (Z.b2z executable) (Some (planner_to_row planner)) None None.
Definition symlink_row (w : workspace_row_t) (target : list byte) : inodes_row :=
  InodesRow (w_id w) KIND_SYMLINK 0 None None (Some target).

(** [UPDATE inodes SET ..]: no row matches a missing id. *)
Definition set_executable (executable : bool) (row : inodes_row) : inodes_row :=
  InodesRow (ir_workspace_id row) (ir_kind row) (Z.b2z executable) (ir_planner row)
    (ir_contract row) (ir_symlink_target row).
Definition set_provenance (planner : planner_id) (contract : stamp) (row : inodes_row) : inodes_row :=
  InodesRow (ir_workspace_id row) (ir_kind row) (ir_executable row)
    (Some (planner_to_row planner)) (contract_to_row contract) (ir_symlink_target row).

(** [SELECT COUNT] of the entries of a directory. *)
Definition child_count (d : db) (inode : Z) : Z :=
  Z.of_nat (size (filter (fun row => row.1.1 = inode) (dirents d))).

(** The end of [Unlink] and [Rmdir]. *)
Definition remove_entry (d : db) (w : workspace_row_t) (path : list byte) (inode : Z)
  : result workspace_error db :=
  let? (parent_inode, name) := parent_of_resolved d w path in
  drop_inode_if_orphaned (delete_dirent d parent_inode name) inode.

(** [apply_mutation]. *)
Definition apply_mutation (d : db) (w : workspace_row_t) (m : mutation)
  : result workspace_error db :=
  match m with
  | Mkdir path =>
      let? leaf := resolve_new_leaf d w path in
      let? (d, _) := create_node d w leaf (directory_row w) in
      Ok d
  | CreateFile path executable planner records =>
      let? leaf := resolve_new_leaf d w path in
      let? (d, inode) := create_node d w leaf (file_row w executable planner) in
      Ok (insert_records d inode records)
  | SetRecords path records =>
      let? inode := resolve_file d w path in
      Ok (insert_records d (ri_id inode) records)
  | Truncate path length =>
      let? inode := resolve_file d w path in
      let? records := read_records d (ri_id inode) in
      let! truncated := truncate_records records length ?: WE_MidRecordTruncate path length in
      let? _ := map_err WE_Tfm1 (validate_record_run truncated length) in
      Ok (insert_records d (ri_id inode) truncated)
  | Rename from to =>
      let? source := resolve_existing d w from in
      if (ri_kind source =? KIND_DIRECTORY)
         && (bool_decide (to = from) || starts_with (from ++ [slash]) to)
      then Err (WE_RenameIntoSelf from)
      else
        let? (new_parent, new_name) := resolve_new_leaf d w to in
        let? (old_parent, old_name) := parent_of_resolved d w from in
        update_dirent d new_parent new_name old_parent old_name
  | Unlink path =>
      let? inode := resolve_existing d w path in
      if ri_kind inode =? KIND_DIRECTORY then Err (WE_NotAFile path)
      else remove_entry d w path (ri_id inode)
  | Rmdir path =>
      let? inode := resolve_existing d w path in
      if negb (ri_kind inode =? KIND_DIRECTORY) then Err (WE_NotADirectory path)
      else if negb (child_count d (ri_id inode) =? 0) then Err (WE_NotEmpty path)
      else remove_entry d w path (ri_id inode)
  | MSymlink path target =>
      let? _ := map_err WE_Tfm1 (validate_symlink_target target) in
      let? leaf := resolve_new_leaf d w path in
      let? (d, _) := create_node d w leaf (symlink_row w target) in
      Ok d
  | MHardlink path target =>
      let? target_inode := resolve_file d w target in
      let? (parent, name) := resolve_new_leaf d w path in
      insert_dirent d parent name (ri_id target_inode)
  | SetExecutable path executable =>
      let? inode := resolve_file d w path in
      Ok (with_inodes (alter (set_executable executable) (ri_id inode)) d)
  end.
End mutations.

(** ** Staging the tree *)

(** What the walk collects: the paths of every file inode, the directories and
    the symbolic links. *)
Record walked : Type := Walked {
  wk_files : list (Z * list (list byte));
  wk_directories : list (list byte);
  wk_symlinks : list (list byte * list byte)
}.

(** [paths_by_inode.entry(child).or_default().push(path)] on a map kept in key
    order. *)
Fixpoint push_path (child : Z) (path : list byte) (files : list (Z * list (list byte)))
  : list (Z * list (list byte)) :=
  match files with
  | [] => [(child, [path])]
  | (inode, paths) :: rest =>
      match Z.compare child inode with
      | Lt => (child, [path]) :: files
      | Eq => (inode, paths ++ [path]) :: rest
      | Gt => (inode, paths) :: push_path child path rest
      end
  end.

Section stage.
Context `{Unicode, Unordered}.

Definition child_path (prefix name : list byte) : list byte :=
  if decide (prefix = []) then name else prefix ++ [slash] ++ name.

(** [SELECT .. FROM dirents JOIN inodes .. WHERE parent_inode = ?1]. *)
Definition children_of (d : db) (inode : Z) : list (list byte * Z * inodes_row) :=
  enumerate (omap (fun row : Z * list byte * Z =>
      let* child := inodes d !! row.2 in Some (row.1.2, row.2, child))
    (filter (fun row : Z * list byte * Z => row.1.1 = inode) (map_to_list (dirents d)))).

(** The body of the inner loop; the state is the walk and the stack, whose top
    is the head of the list. *)
Definition stage_child (prefix : list byte) (st : walked * list (Z * list byte))
    (row : list byte * Z * inodes_row) : result workspace_error (walked * list (Z * list byte)) :=
  let '(acc, stack) := st in
  let '(name, child, inode) := row in
  let path := child_path prefix name in
  if ir_kind inode =? KIND_DIRECTORY then
    Ok (Walked (wk_files acc) (wk_directories acc ++ [path]) (wk_symlinks acc), (child, path) :: stack)
  else if ir_kind inode =? KIND_FILE then
    Ok (Walked (push_path child path (wk_files acc)) (wk_directories acc) (wk_symlinks acc), stack)
  else
    let! target := ir_symlink_target inode ?: WE_Db in
    Ok (Walked (wk_files acc) (wk_directories acc) (wk_symlinks acc ++ [(path, target)]), stack).

(** The outer loop; [None] when the fuel runs out. *)
Fixpoint stage_walk (fuel : nat) (d : db) (acc : walked) (stack : list (Z * list byte))
  : option (result workspace_error walked) :=
  match stack with
  | [] => Some (Ok acc)
  | (inode, prefix) :: stack =>
      match fuel with
      | O => None
      | S fuel =>
          match for_each (stage_child prefix) (acc, stack) (children_of d inode) with
          | Err e => Some (Err e)
          | Ok (acc, stack) => stage_walk fuel d acc stack
          end
      end
  end.

(** The file loop: one carrier and a link for every other path. *)
Definition stage_file (d : db) (b : builder) (file : Z * list (list byte))
  : result workspace_error builder :=
  let '(inode, paths) := file in
  let paths := sort_by bytes_cmp paths in
  let! row := inodes d !! inode ?: WE_Db in
  let! planner := ir_planner row ?: WE_Db in
  let? records := read_records d inode in
  match paths with
  | [] => Err WE_Panic
  | carrier :: others =>
      let b := builder_file_under b carrier (ir_executable row =? 1) (planner_from_row planner)
                 (contract_from_row (ir_contract row)) records in
      Ok (foldl (fun b path => builder_hardlink b path carrier) b others)
  end.

(** [stage_builder]: a tree has fewer directories than entries. *)
Definition stage_builder (d : db) (w : workspace_row_t) (parent : option (list byte))
  : option (result workspace_error builder) :=
  match stage_walk (S (size (dirents d))) d (Walked [] [] []) [(w_root_inode w, [])] with
  | None => None
  | Some (Err e) => Some (Err e)
  | Some (Ok acc) =>
      let b := builder_new parent in
      let b := foldl builder_directory b (wk_directories acc) in
      let b := foldl (fun b pt => builder_symlink b pt.1 pt.2) b (wk_symlinks acc) in
      Some (for_each (stage_file d) b (wk_files acc))
  end.

(** [build_tree] and [build_snapshot]; [None] is a walk that does not end or a
    builder that panics. *)
Definition build_tree (d : db) (w : workspace_row_t)
  : option (result workspace_error (list (list byte * tree_entry))) :=
  match stage_builder d w None with
  | Some (Ok b) => let* r := finish_tree b in Some (map_err WE_Tfm1 r)
  | Some (Err e) => Some (Err e)
  | None => None
  end.
Definition build_snapshot (d : db) (w : workspace_row_t) (parent : option (list byte))
  : option (result workspace_error snapshot) :=
  match stage_builder d w parent with
  | Some (Ok b) => let* r := finish b in Some (map_err WE_Tfm1 r)
  | Some (Err e) => Some (Err e)
  | None => None
  end.
End stage.
