(* ===== verification/RecordMaps.v ===== *)
(** Record maps of [src/crates/tensorfs-core/src/workspace.rs]: what
    [insert_records] stores [read_records] reads back, what the row codecs keep,
    and what [truncate_records] does to the file a run denotes. *)

From stdpp Require Import sorting.
From S2P Require Export Metadata.

(** ** Codecs *)

Lemma as_u64_i64 z : in_u64 z -> as_u64 (as_i64 z) = z.
Proof.
  unfold in_u64, as_u64, as_i64, U64. intros Hz. destruct (Z.ltb_spec z (2 ^ 63)).
  - apply Z.mod_small. lia.
  - replace (z - 2 ^ 64) with (z + (-1) * 2 ^ 64) by lia. rewrite Z.mod_add by lia.
    apply Z.mod_small. lia.
Qed.

Lemma planner_row_round_trip p : planner_from_row (planner_to_row p) = p.
Proof. by destruct p. Qed.

Lemma contract_row_round_trip c : wf_stamp c -> contract_from_row (contract_to_row c) = c.
Proof.
  intros Hc. unfold contract_from_row, contract_to_row.
  destruct c; [done|by rewrite Stamp_parse_display..].
Qed.

Lemma record_row_round_trip r : wf_record r -> record_from_row (record_to_row r) = Ok r.
Proof.
  unfold record_from_row, digest_from_row. destruct r as [digest n|n]; simpl.
  - intros [Hd Hn]. by rewrite as_u64_i64, Hd.
  - intros Hn. by rewrite as_u64_i64.
Qed.

(** ** The rows of a run *)

(** The rows of [inode] are those of [records], in ordinal order. *)
Definition run_row (records : list file_record) (ordinal : Z) : option object_maps_row :=
  if 0 <=? ordinal then record_to_row <$> records !! Z.to_nat ordinal else None.
Definition run_at (d : db) (inode : Z) (records : list file_record) : Prop :=
  forall ordinal, object_maps d !! (inode, ordinal) = run_row records ordinal.

Lemma run_row_snoc records r o :
  run_row (records ++ [r]) o =
  if decide (o = Z.of_nat (length records)) then Some (record_to_row r) else run_row records o.
Proof.
  unfold run_row. destruct (Z.leb_spec 0 o).
  - case_decide as Ho.
    + subst o. by rewrite Nat2Z.id, list_lookup_middle.
    + destruct (Nat.lt_ge_cases (Z.to_nat o) (length records)).
      * by rewrite lookup_app_l.
      * rewrite lookup_app_r by lia. rewrite (lookup_ge_None_2 records) by lia.
        by rewrite lookup_ge_None_2 by (simpl; lia).
  - case_decide; [lia|done].
Qed.

Lemma insert_records_lookup d inode records j o :
  object_maps (insert_records d inode records) !! (j, o) =
  if decide (j = inode) then run_row records o else object_maps d !! (j, o).
Proof.
  unfold insert_records. cbn [object_maps with_object_maps].
  induction records as [|r records IH] using rev_ind.
  - simpl. rewrite map_lookup_filter. unfold run_row. rewrite lookup_nil.
    destruct (object_maps d !! (j, o)) as [row|]; simpl; repeat case_guard; repeat case_decide;
      simplify_eq/=; try done; by case_match.
  - rewrite imap_app, foldl_app. cbn [imap foldl fst snd]. rewrite Nat.add_0_r, lookup_insert, IH, run_row_snoc.
    repeat case_decide; simplify_eq; done.
Qed.

Lemma insert_records_run d inode records : run_at (insert_records d inode records) inode records.
Proof. intros o. by rewrite insert_records_lookup, decide_True. Qed.

Lemma insert_records_other d inode records j rs :
  j <> inode -> run_at d j rs -> run_at (insert_records d inode records) j rs.
Proof. intros Hj Hr o. by rewrite insert_records_lookup, decide_False. Qed.

Lemma run_at_lookup d inode records o row :
  run_at d inode records -> object_maps d !! (inode, o) = Some row <->
  exists n r, o = Z.of_nat n /\ records !! n = Some r /\ row = record_to_row r.
Proof.
  intros Hr. rewrite Hr. unfold run_row. split.
  - destruct (Z.leb_spec 0 o); [|done]. intros (r & Hn & ->)%fmap_Some.
    exists (Z.to_nat o), r. split; [lia|done].
  - intros (n & r & -> & Hn & ->). rewrite (proj2 (Z.leb_le 0 (Z.of_nat n)) (Nat2Z.is_nonneg n)).
    by rewrite Nat2Z.id, Hn.
Qed.

Lemma rows_of_run d inode records :
  run_at d inode records -> rows_of d inode = imap (fun n r => (Z.of_nat n, record_to_row r)) records.
Proof.
  intros Hr. unfold rows_of.
  set (rows := _ <$> _).
  assert (forall o row, (o, row) ∈ rows <-> object_maps d !! (inode, o) = Some row) as Hin.
  { intros o row. unfold rows. rewrite list_elem_of_fmap. split.
    - intros ([[i o'] row'] & [= -> ->] & [Hi Hm]%list_elem_of_filter). simpl in *. subst i.
      by apply elem_of_map_to_list.
    - intros Hm. exists ((inode, o), row). split; [done|]. apply list_elem_of_filter.
      split; [done|]. by apply elem_of_map_to_list. }
  assert (NoDup rows) as Hnd.
  { unfold rows. apply NoDup_fmap_2_strong; [|apply NoDup_filter, NoDup_map_to_list].
    intros [[i1 o1] r1] [[i2 o2] r2] [? _]%list_elem_of_filter [? _]%list_elem_of_filter [= -> ->].
    simpl in *. congruence. }
  set (l := imap _ records).
  assert (forall o row, (o, row) ∈ l <-> object_maps d !! (inode, o) = Some row) as Hl.
  { intros o row. rewrite (run_at_lookup _ _ _ _ _ Hr). unfold l. rewrite elem_of_lookup_imap.
    split.
    - intros (n & r & [= -> ->] & Hn). eauto.
    - intros (n & r & -> & Hn & ->). eauto. }
  assert (NoDup l) as Hndl.
  { apply NoDup_alt. intros i j [o row]. unfold l. rewrite !list_lookup_imap.
    intros (r1 & H1 & [= -> ->])%fmap_Some (r2 & H2 & [= Hij _])%fmap_Some. lia. }
  apply (StronglySorted_unique_strong (fun a b : Z * object_maps_row => (a.1 ?= b.1)%Z <> Gt)).
  - intros [o1 r1] [o2 r2] H1 H2 Hle1 Hle2. simpl in *.
    rewrite (sort_by_perm _ rows) in H1. apply Hin in H1. apply Hl in H2.
    assert (o1 = o2) as -> by (destruct (Z.compare_spec o1 o2), (Z.compare_spec o2 o1); (done || lia)).
    congruence.
  - apply sort_by_sorted.
    + intros x y Hg%Z.compare_gt_iff. by apply Z.compare_lt_iff.
    + intros x y z H1 H2. rewrite Z.compare_gt_iff in *. lia.
  - assert (forall i j a b, (i < j)%nat -> l !! i = Some a -> l !! j = Some b -> a.1 < b.1) as Hmono.
    { intros i j a b Hij. unfold l. rewrite !list_lookup_imap.
      intros (? & _ & ->)%fmap_Some (? & _ & ->)%fmap_Some. simpl. lia. }
    clearbody l. clear -Hmono. induction l as [|a l IH]; constructor.
    + apply IH. intros i j x y Hij H1 H2. apply (Hmono (S i) (S j)); [lia|done..].
    + apply Forall_forall. intros b [j Hj]%list_elem_of_lookup. 
      specialize (Hmono 0%nat (S j) a b ltac:(lia) eq_refl Hj). rewrite Z.compare_gt_iff. lia.
  - rewrite sort_by_perm. apply NoDup_Permutation; [done..|]. intros [o row]. by rewrite Hin, Hl.
Qed.

(** What was stored is read back. *)
Lemma read_records_run d inode records :
  run_at d inode records -> Forall wf_record records -> read_records d inode = Ok records.
Proof.
  intros Hr Hf. unfold read_records. rewrite (rows_of_run _ _ _ Hr).
  enough (forall acc k, for_each (fun records (row : Z * object_maps_row) =>
      let? r := record_from_row row.2 in Ok (records ++ [r])) acc
      (imap (fun n r => (Z.of_nat (k + n), record_to_row r)) records)
      = Ok (acc ++ records)) as Hloop by apply (Hloop [] 0%nat).
  clear Hr. induction Hf as [|r records Hwf Hf IH]; intros acc k; [by rewrite app_nil_r|].
  cbn [imap for_each snd]. rewrite record_row_round_trip by done.
  specialize (IH (acc ++ [r]) (S k)). rewrite <-app_assoc in IH. simpl in IH. rewrite <-IH.
  f_equal. apply imap_ext. intros i x _. simpl. f_equal. lia.
Qed.

(** ** Truncation *)

Lemma run_bytes_app O a b : run_bytes O (a ++ b) = run_bytes O a ++ run_bytes O b.
Proof. apply bind_app. Qed.
Lemma run_bytes_hole O n : run_bytes O [Hole n] = replicate (Z.to_nat n) Byte.x00.
Proof. unfold run_bytes. simpl. apply app_nil_r. Qed.

Lemma sum_lengths_app a b : sum_lengths (a ++ b) = sum_lengths a + sum_lengths b.
Proof. induction a; simpl; lia. Qed.
Lemma sum_lengths_pos l : Forall (fun r => 0 <= record_length r) l -> 0 <= sum_lengths l.
Proof. induction 1; simpl; lia. Qed.

(** How the loop of [truncate_records] ends: at a record boundary, or inside a
    hole it shortens. *)
Definition cut_at (all : list file_record) (n : Z) (kept : list file_record) (position : Z) : Prop :=
  (exists rest, all = kept ++ rest /\ position = sum_lengths kept /\ position <= n /\
     (rest = [] \/ position = n)) \/
  exists pre h rest, all = pre ++ Hole h :: rest /\ sum_lengths pre < n < sum_lengths pre + h /\
     kept = pre ++ [Hole (n - sum_lengths pre)] /\ position = n.

(** A cut strictly inside a data record. *)
Definition cuts_data (all : list file_record) (n : Z) : Prop :=
  exists pre digest len rest, all = pre ++ Data digest len :: rest /\
    sum_lengths pre < n < sum_lengths pre + len.

Lemma truncate_loop_spec all n pre records :
  run_fits all -> all = pre ++ records -> sum_lengths pre <= n < U64 ->
  match truncate_loop pre (sum_lengths pre) n records with
  | Some (kept, position) => cut_at all n kept position
  | None => cuts_data all n
  end.
Proof.
  intros [Hf Hu]. revert pre. induction records as [|r records IH]; intros pre Hall Hn;
    cbn [truncate_loop].
  { left. exists []. rewrite app_nil_r in *. subst. auto with lia. }
  pose proof Hf as Hf'. rewrite Hall, Forall_app, Forall_cons in Hf'. destruct Hf' as (Hpre & Hr & Hpost).
  pose proof (sum_lengths_pos _ Hpre). pose proof (sum_lengths_pos _ Hpost).
  pose proof Hu as Hu'. rewrite Hall, sum_lengths_app in Hu'. simpl in Hu'.
  destruct (Z.leb_spec n (sum_lengths pre)) as [Hle|Hlt].
  { left. exists (r :: records). split; [done|]. split; [done|]. split; [lia|right; lia]. }
  destruct (checked_add _ _) as [stop|] eqn:Ec; [|apply checked_add_None in Ec; lia].
  apply checked_add_Some in Ec as [-> _].
  destruct (Z.leb_spec (sum_lengths pre + record_length r) n) as [Hin|Hcut].
  - rewrite <-sum_lengths_snoc. apply IH; [by rewrite <-app_assoc|]. rewrite sum_lengths_snoc. lia.
  - destruct r as [digest len|h]; simpl in *.
    + exists pre, digest, len, records. auto.
    + right. exists pre, h, records. rewrite wsub_small by lia. auto.
Qed.

(** [truncate_records] of a run is the run of the file cut or zero-extended to
    [n], and it refuses exactly the cuts inside a data record. *)
Lemma truncate_records_spec O records n :
  run_fits records -> 0 <= n < U64 ->
  match truncate_records records n with
  | Some cut => run_bytes O cut = resize (Z.to_nat n) Byte.x00 (run_bytes O records) /\
                sum_lengths cut = n /\ Forall (fun r => 0 <= record_length r) cut
  | None => cuts_data records n
  end.
Proof.
  intros Hfit Hn. unfold truncate_records.
  pose proof (truncate_loop_spec records n [] records Hfit eq_refl ltac:(simpl; lia)) as Hl.
  simpl in Hl. destruct (truncate_loop [] 0 n records) as [[kept position]|]; [|done].
  destruct Hfit as [Hf Hu].
  assert (forall pre rest, records = pre ++ rest -> zlen (run_bytes O pre) = sum_lengths pre) as Hz.
  { intros pre rest ->. apply Forall_app in Hf as [Hp _]. by apply zlen_run_bytes. }
  destruct Hl as [(rest & -> & -> & Hle & Hrest)|(pre & h & rest & -> & Hcut & -> & ->)].
  - specialize (Hz _ _ eq_refl). unfold zlen in Hz. apply Forall_app in Hf as [Hk Hr].
    pose proof (sum_lengths_pos _ Hk). rewrite sum_lengths_app in Hu. pose proof (sum_lengths_pos _ Hr).
    destruct (Z.ltb_spec (sum_lengths kept) n) as [Hext|Hge].
    + destruct Hrest as [->|]; [|lia]. rewrite app_nil_r. rewrite wsub_small by lia.
      assert (run_bytes O kept ++ replicate (Z.to_nat (n - sum_lengths kept)) Byte.x00
              = resize (Z.to_nat n) Byte.x00 (run_bytes O kept)) as Hgoal.
      { rewrite resize_ge by lia. f_equal. f_equal. lia. }
      assert (run_bytes O (kept ++ [Hole (n - sum_lengths kept)]) = resize (Z.to_nat n) Byte.x00 (run_bytes O kept) /\
        sum_lengths (kept ++ [Hole (n - sum_lengths kept)]) = n /\
        Forall (fun r => 0 <= record_length r) (kept ++ [Hole (n - sum_lengths kept)])) as Happ.
      { rewrite run_bytes_app, run_bytes_hole, sum_lengths_snoc. split; [done|]. simpl.
        split; [lia|]. apply Forall_app. split; [done|]. constructor; [simpl; lia|done]. }
      destruct (last kept) as [[d l|h]|] eqn:El; [done| |done].
      apply last_Some in El as [init ->]. rewrite removelast_last.
      rewrite sum_lengths_snoc in *. simpl in *. rewrite Forall_app, Forall_singleton in Hk.
      destruct Hk as [Hi Hh]. pose proof (sum_lengths_pos _ Hi). simpl in Hh. rewrite wadd_small by lia.
      split; [|rewrite sum_lengths_snoc; simpl; split; [lia|]; apply Forall_app; split; [done|];
        constructor; [simpl; lia|done]].
      rewrite <-Hgoal, !run_bytes_app, !run_bytes_hole, <-app_assoc. f_equal.
      rewrite <-replicate_add. f_equal. lia.
    + assert (n = sum_lengths kept) as -> by lia. rewrite run_bytes_app.
      split; [|done]. rewrite resize_le by (rewrite length_app; lia).
      by rewrite take_app_length' by lia.
  - rewrite Z.ltb_irrefl. specialize (Hz _ _ eq_refl). unfold zlen in Hz.
    apply Forall_app in Hf as [Hp Hr]. inversion Hr as [|?? Hh Hr']; subst. simpl in Hh.
    pose proof (sum_lengths_pos _ Hp).
    split; [|rewrite sum_lengths_snoc; simpl; split; [lia|]; apply Forall_app; split; [done|];
      constructor; [simpl; lia|done]].
    change (Hole h :: rest) with ([Hole h] ++ rest).
    rewrite !run_bytes_app, !run_bytes_hole.
    rewrite resize_le by (rewrite !length_app, length_replicate; lia).
    rewrite take_app_ge by lia. f_equal. rewrite take_app_le by (rewrite length_replicate; lia).
    rewrite take_replicate. f_equal. lia.
Qed.

(** Truncation invents no data record. *)
Lemma truncate_records_data records n cut digest len :
  truncate_records records n = Some cut -> Data digest len ∈ cut -> Data digest len ∈ records.
Proof.
  unfold truncate_records. intros Ht.
  assert (forall pre position rs kept p, truncate_loop pre position n rs = Some (kept, p) ->
    forall d l, Data d l ∈ kept -> Data d l ∈ pre ++ rs) as Hloop.
  { intros pre position rs. revert pre position. induction rs as [|r rs IH]; intros pre position kept p;
      cbn [truncate_loop]; [intros [= -> ->]; set_solver|].
    destruct (_ <=? _); [intros [= -> ->]; set_solver|].
    destruct (checked_add _ _) as [stop|]; [|done]. destruct (_ <=? _).
    - intros Hk d l Hin. specialize (IH _ _ _ _ Hk d l Hin). rewrite <-app_assoc in IH. done.
    - destruct r; [done|]. intros [= <- <-] d l. set_solver. }
  destruct (truncate_loop [] 0 n records) as [[kept p]|] eqn:El; [|done].
  specialize (Hloop _ _ _ _ _ El). simpl in Hloop. intros Hin. apply Hloop.
  destruct (_ <? _); [|by simplify_eq]. destruct (last kept) as [[d l|h]|] eqn:Ek; simplify_eq.
  - set_solver.
  - apply last_Some in Ek as [init ->]. rewrite removelast_last in Hin. set_solver.
  - set_solver.
Qed.

Lemma length_le_sum l r : Forall (fun r => 0 <= record_length r) l -> r ∈ l -> record_length r <= sum_lengths l.
Proof.
  induction 1 as [|x l Hx Hf IH]; [set_solver|]. pose proof (sum_lengths_pos _ Hf). simpl.
  intros [->|Hin]%elem_of_cons; [lia|]. specialize (IH Hin). lia.
Qed.

Lemma wf_run_fits records n : Forall wf_record records -> wf_record_run records n -> run_fits records.
Proof.
  intros Hf Hr. split; [|apply Hr]. eapply Forall_impl; [exact Hf|]. intros r Hwf.
  apply record_length_nonneg in Hwf. lia.
Qed.

Lemma truncate_records_wf records n cut :
  Forall wf_record records -> run_fits records -> 0 <= n < U64 ->
  truncate_records records n = Some cut -> Forall wf_record cut.
Proof.
  intros Hwf Hfit Hn Ht. pose proof (truncate_records_spec ∅ records n Hfit Hn) as Hs. rewrite Ht in Hs.
  destruct Hs as (_ & Hsum & Hpos). rewrite Forall_forall in *. intros r Hin.
  pose proof (length_le_sum cut r ltac:(by apply Forall_forall) Hin). specialize (Hpos r Hin).
  destruct r as [digest len|h]; simpl in *; [|split; lia].
  apply (truncate_records_data records n cut) in Hin; [|done]. by apply Hwf in Hin.
Qed.
