(* ===== verification/Tree.v ===== *)
(** The dirent graph of [src/crates/tensorfs-core/src/workspace.rs] as a tree:
    what path resolution answers after an entry is added, removed or moved.
    Everything here is about [resolve_segments], the loop of [resolve_path]. *)

From S2P Require Export Metadata.

(** ** One step and a walk *)

Definition step (d : db) (cur : resolved_inode) (segment : list byte) : option resolved_inode :=
  if ri_kind cur =? KIND_DIRECTORY then
    let* child := dirents d !! (ri_id cur, segment) in
    let* row := inodes d !! child in
    Some (ResolvedInode child (ir_kind row))
  else None.

Lemma resolve_cons d cur s q :
  resolve_segments d cur (s :: q) =
  match step d cur s with Some next => resolve_segments d next q | None => None end.
Proof.
  simpl. unfold step. destruct (ri_kind cur =? KIND_DIRECTORY); simpl; [|done].
  destruct (dirents d !! _) as [c|]; [|done]. by destruct (inodes d !! c).
Qed.

Lemma resolve_app d cur p q :
  resolve_segments d cur (p ++ q) =
  match resolve_segments d cur p with Some i => resolve_segments d i q | None => None end.
Proof.
  revert cur. induction p as [|s p IH]; intros cur; [done|].
  change ((s :: p) ++ q) with (s :: (p ++ q)). rewrite !resolve_cons.
  destruct (step d cur s); [apply IH|done].
Qed.

Lemma resolve_snoc d cur p s :
  resolve_segments d cur (p ++ [s]) =
  match resolve_segments d cur p with Some i => step d i s | None => None end.
Proof.
  rewrite resolve_app. destruct (resolve_segments d cur p) as [i|]; [|done].
  rewrite resolve_cons. by destruct (step d i s).
Qed.

Lemma step_Some d cur s next :
  step d cur s = Some next <->
  ri_kind cur = KIND_DIRECTORY /\ dirents d !! (ri_id cur, s) = Some (ri_id next) /\
  exists row, inodes d !! ri_id next = Some row /\ ri_kind next = ir_kind row.
Proof.
  unfold step. destruct (Z.eqb_spec (ri_kind cur) KIND_DIRECTORY) as [Hk|Hk].
  - destruct (dirents d !! _) as [c|] eqn:Ed.
    + destruct (inodes d !! c) as [row|] eqn:Er.
      * split; [intros; simplify_eq/=; eauto|]. destruct next as [i k]. simpl.
        intros (_ & [= ->] & row' & Hr & ->). by simplify_eq.
      * split; [done|]. intros (_ & [= ->] & row & Hr & _). congruence.
    + split; [done|]. intros (_ & ? & _). done.
  - split; [done|]. intros (? & _). done.
Qed.

(** Two tables that agree on every step of a path resolve it alike. *)
Lemma resolve_agree d d' root q :
  (forall q1 s q2 i, q = q1 ++ s :: q2 -> resolve_segments d root q1 = Some i ->
     step d' i s = step d i s) ->
  resolve_segments d' root q = resolve_segments d root q.
Proof.
  induction q as [|s q IH] using rev_ind; intros Hq; [done|].
  rewrite !resolve_snoc, IH.
  - destruct (resolve_segments d root q) as [i|] eqn:E; [|done]. by apply (Hq q s []).
  - intros q1 s1 q2 i -> Hr. apply (Hq q1 s1 (q2 ++ [s]) i); [by rewrite <-app_assoc|done].
Qed.

Lemma resolve_prefix d root p q i :
  resolve_segments d root (p ++ q) = Some i -> is_Some (resolve_segments d root p).
Proof. rewrite resolve_app. by destruct (resolve_segments d root p). Qed.

(** ** The tree *)

Definition top (root : Z) : resolved_inode := ResolvedInode root KIND_DIRECTORY.

(** The shape of the dirent graph. *)
Record tree_shape (d : db) : Prop := {
  ts_parent p n c : dirents d !! (p, n) = Some c ->
    exists row, inodes d !! p = Some row /\ ir_kind row = KIND_DIRECTORY;
  ts_child p n c row : dirents d !! (p, n) = Some c -> inodes d !! p = Some row ->
    exists crow, inodes d !! c = Some crow /\ ir_workspace_id crow = ir_workspace_id row;
  ts_one_parent k1 k2 c row : dirents d !! k1 = Some c -> dirents d !! k2 = Some c ->
    inodes d !! c = Some row -> ir_kind row = KIND_DIRECTORY -> k1 = k2;
  ts_root w row : workspaces d !! w = Some row ->
    (exists irow, inodes d !! wr_root_inode row = Some irow /\ ir_kind irow = KIND_DIRECTORY
       /\ ir_workspace_id irow = w) /\
    forall k, dirents d !! k <> Some (wr_root_inode row);
  ts_anchored p n c : dirents d !! (p, n) = Some c ->
    exists w row path, workspaces d !! w = Some row /\
      resolve_segments d (top (wr_root_inode row)) path = Some (ResolvedInode p KIND_DIRECTORY)
}.

Section tree.
Context (d : db) (Hd : tree_shape d).

Lemma resolve_kind root path i :
  (exists row, inodes d !! root = Some row /\ ir_kind row = KIND_DIRECTORY) ->
  resolve_segments d (top root) path = Some i ->
  exists row, inodes d !! ri_id i = Some row /\ ir_kind row = ri_kind i.
Proof.
  intros Hroot. destruct path as [|s path _] using rev_ind; [intros [= <-]; naive_solver|].
  rewrite resolve_snoc. destruct (resolve_segments d (top root) path) as [j|]; [|done].
  intros (_ & _ & row & ? & ->)%step_Some. eauto.
Qed.

(** A path stays in its workspace. *)
Lemma resolve_workspace root path i w row :
  inodes d !! root = Some row -> ir_workspace_id row = w ->
  resolve_segments d (top root) path = Some i ->
  exists irow, inodes d !! ri_id i = Some irow /\ ir_workspace_id irow = w.
Proof using Hd.
  intros Hr Hw. revert i. induction path as [|s path IH] using rev_ind; intros i; [intros [= <-]; eauto|].
  rewrite resolve_snoc. destruct (resolve_segments d (top root) path) as [j|]; [|done].
  intros (_ & He & _)%step_Some. destruct (IH j eq_refl) as (jrow & Hj & Hjw).
  destruct (ts_child d Hd _ _ _ _ He Hj) as (crow & Hc & Hcw). exists crow. split; [done|congruence].
Qed.

(** A directory has one path. *)
Lemma dir_path_unique root p1 p2 i :
  (forall k, dirents d !! k <> Some root) ->
  resolve_segments d (top root) p1 = Some i -> resolve_segments d (top root) p2 = Some i ->
  ri_kind i = KIND_DIRECTORY -> p1 = p2.
Proof using Hd.
  intros Hroot. revert p2 i. induction p1 as [|s1 p1 IH] using rev_ind; intros p2 i H1 H2 Hk.
  - destruct p2 as [|s2 p2 _] using rev_ind; [done|]. injection H1 as <-.
    rewrite resolve_snoc in H2. destruct (resolve_segments d (top root) p2) as [j|]; [|done].
    apply step_Some in H2 as (_ & He & _). by apply Hroot in He.
  - rewrite resolve_snoc in H1. destruct (resolve_segments d (top root) p1) as [j1|] eqn:E1; [|done].
    apply step_Some in H1 as (Hk1 & He1 & row & Hrow & Hkr).
    destruct p2 as [|s2 p2 _] using rev_ind; [injection H2 as <-; by apply Hroot in He1|].
    rewrite resolve_snoc in H2. destruct (resolve_segments d (top root) p2) as [j2|] eqn:E2; [|done].
    apply step_Some in H2 as (Hk2 & He2 & _).
    assert ((ri_id j1, s1) = (ri_id j2, s2)) as [= Hj ->].
    { eapply (ts_one_parent d Hd); [done..|]. congruence. }
    f_equal. apply (IH p2 j1); [done| |done]. rewrite E2. destruct j1, j2; simpl in *. congruence.
Qed.
End tree.

(** ** Changing one entry *)

(** The rows that are still named keep their kind. *)
Definition same_kinds (d d' : db) : Prop :=
  forall k c, dirents d !! k = Some c -> dirents d' !! k = Some c ->
    ir_kind <$> inodes d' !! c = ir_kind <$> inodes d !! c.

Lemma step_same d d' i s :
  same_kinds d d' -> dirents d' !! (ri_id i, s) = dirents d !! (ri_id i, s) ->
  step d' i s = step d i s.
Proof.
  intros Hk He. unfold step. destruct (_ =? _); [|done].
  destruct (dirents d !! (ri_id i, s)) as [c|] eqn:E; rewrite He; [|done].
  specialize (Hk _ _ E ltac:(congruence)).
  destruct (inodes d' !! c), (inodes d !! c); simplify_eq/=; congruence.
Qed.

(** Paths that do not go through a changed key are not affected. *)
Lemma resolve_untouched d d' root q :
  same_kinds d d' ->
  (forall q1 s q2 i, q = q1 ++ s :: q2 -> resolve_segments d (top root) q1 = Some i ->
     ri_kind i = KIND_DIRECTORY ->
     dirents d' !! (ri_id i, s) = dirents d !! (ri_id i, s)) ->
  resolve_segments d' (top root) q = resolve_segments d (top root) q.
Proof.
  intros Hk Hq. apply resolve_agree. intros q1 s q2 i -> Hi.
  destruct (Z.eqb_spec (ri_kind i) KIND_DIRECTORY) as [Hd|Hd].
  - by apply step_same; [|eapply Hq].
  - unfold step. by rewrite (proj2 (Z.eqb_neq _ _) Hd).
Qed.

Section change.
Context (d d' : db) (Hd : tree_shape d) (Hk : same_kinds d d').
Context (root : Z) (Hroot : forall k, dirents d !! k <> Some root).
Context (p : Z) (n : list byte) (parent : list (list byte)).
Context (Hp : resolve_segments d (top root) parent = Some (ResolvedInode p KIND_DIRECTORY)).

(** A walk that would use the key [(p, n)] is at the end of [parent]. *)
Lemma key_path q i s : resolve_segments d (top root) q = Some i -> ri_kind i = KIND_DIRECTORY ->
  (ri_id i, s) = (p, n) -> q = parent /\ s = n.
Proof using Hd Hroot Hp.
  intros Hq Hki [= Hi ->]. split; [|done]. eapply dir_path_unique; [done..| |done].
  rewrite Hp. destruct i; simpl in *. congruence.
Qed.

Lemma key_prefix q q1 s q2 i :
  q = q1 ++ s :: q2 -> resolve_segments d (top root) q1 = Some i -> ri_kind i = KIND_DIRECTORY ->
  (ri_id i, s) = (p, n) -> (parent ++ [n]) `prefix_of` q.
Proof using Hd Hroot Hp.
  intros -> Hq1 Hki He. destruct (key_path _ _ _ Hq1 Hki He) as [-> ->].
  exists q2. by rewrite <-app_assoc.
Qed.

(** Adding an entry for a node without children adds one path. *)
Lemma resolve_added c crow q :
  dirents d !! (p, n) = None -> dirents d' = <[(p, n) := c]> (dirents d) ->
  inodes d' !! c = Some crow ->
  (ir_kind crow = KIND_DIRECTORY -> c <> p /\ forall s, dirents d !! (c, s) = None) ->
  resolve_segments d' (top root) q =
  if decide (q = parent ++ [n]) then Some (ResolvedInode c (ir_kind crow))
  else resolve_segments d (top root) q.
Proof using Hd Hk Hroot Hp.
  intros Hn He Hc Hleaf.
  assert (forall q, ~ (parent ++ [n]) `prefix_of` q ->
    resolve_segments d' (top root) q = resolve_segments d (top root) q) as Hother.
  { intros q0 Hq0. apply resolve_untouched; [done|]. intros q1 s q2 i Hq Hi Hki.
    rewrite He, lookup_insert. case_decide as Hkey; [|done].
    destruct Hq0. by eapply key_prefix. }
  assert (resolve_segments d' (top root) (parent ++ [n]) = Some (ResolvedInode c (ir_kind crow))) as Hnew.
  { rewrite resolve_snoc, Hother, Hp by (intros [k Hpk]; apply (f_equal length) in Hpk;
      rewrite !length_app in Hpk; simpl in Hpk; lia).
    unfold step. simpl. by rewrite He, lookup_insert_eq, Hc. }
  case_decide as Hq; [by subst q|].
  destruct (decide ((parent ++ [n]) `prefix_of` q)) as [[rest ->]|]; [|by apply Hother].
  destruct rest as [|s rest]; [by rewrite app_nil_r in Hq|].
  rewrite (resolve_app d' _ (parent ++ [n])), Hnew, !(resolve_app d), Hp, !resolve_cons.
  unfold step at 2. simpl. rewrite Hn. unfold step. simpl. destruct (Z.eqb_spec (ir_kind crow) KIND_DIRECTORY) as [Hdir|]; [|done].
  destruct (Hleaf Hdir) as [Hcp Hno].
  rewrite He, lookup_insert_ne by congruence. by rewrite Hno.
Qed.

(** Removing the entry of a node without children removes one path. *)
Lemma resolve_removed c crow q :
  dirents d !! (p, n) = Some c -> inodes d !! c = Some crow ->
  dirents d' = delete (p, n) (dirents d) ->
  (ir_kind crow = KIND_DIRECTORY -> forall s, dirents d !! (c, s) = None) ->
  resolve_segments d' (top root) q =
  if decide (q = parent ++ [n]) then None else resolve_segments d (top root) q.
Proof using Hd Hk Hroot Hp.
  intros Hn Hc He Hleaf.
  assert (forall q, ~ (parent ++ [n]) `prefix_of` q ->
    resolve_segments d' (top root) q = resolve_segments d (top root) q) as Hother.
  { intros q0 Hq0. apply resolve_untouched; [done|]. intros q1 s q2 i Hq Hi Hki.
    rewrite He, lookup_delete. case_decide as Hkey; [|done].
    destruct Hq0. by eapply key_prefix. }
  assert (resolve_segments d' (top root) (parent ++ [n]) = None) as Hnew.
  { rewrite resolve_snoc, Hother, Hp by (intros [k Hpk]; apply (f_equal length) in Hpk;
      rewrite !length_app in Hpk; simpl in Hpk; lia).
    unfold step. simpl. by rewrite He, lookup_delete_eq. }
  case_decide as Hq; [by subst q|].
  destruct (decide ((parent ++ [n]) `prefix_of` q)) as [[rest ->]|]; [|by apply Hother].
  destruct rest as [|s rest]; [by rewrite app_nil_r in Hq|].
  rewrite (resolve_app d' _ (parent ++ [n])), Hnew, !(resolve_app d), Hp, !resolve_cons.
  unfold step at 1. simpl.
  rewrite Hn, Hc. simpl. unfold step. simpl.
  destruct (Z.eqb_spec (ir_kind crow) KIND_DIRECTORY); [by rewrite Hleaf|done].
Qed.
End change.

(** Moving an entry moves the paths below it. *)
Section move.
Context (d d' : db) (Hd : tree_shape d) (Hk : same_kinds d d').
Context (root : Z) (Hroot : forall k, dirents d !! k <> Some root).
Context (po pn c : Z) (no nn : list byte) (old_parent new_parent : list (list byte)).
Context (Ho : resolve_segments d (top root) old_parent = Some (ResolvedInode po KIND_DIRECTORY)).
Context (Hn : resolve_segments d (top root) new_parent = Some (ResolvedInode pn KIND_DIRECTORY)).
Context (Hold : dirents d !! (po, no) = Some c) (Hnew : dirents d !! (pn, nn) = None).
Context (He : dirents d' = <[(pn, nn) := c]> (delete (po, no) (dirents d))).
Context (crow : inodes_row) (Hc : inodes d !! c = Some crow) (Hc' : ir_kind <$> inodes d' !! c = Some (ir_kind crow)).

Let from := old_parent ++ [no].
Let to := new_parent ++ [nn].
Context (Hinto : ~ from `prefix_of` new_parent).

Lemma move_from : resolve_segments d (top root) from = Some (ResolvedInode c (ir_kind crow)).
Proof using Ho Hold Hc. unfold from. rewrite resolve_snoc, Ho. unfold step. simpl. by rewrite Hold, Hc. Qed.

Lemma move_to_absent rest : resolve_segments d (top root) (to ++ rest) = None.
Proof using Hn Hnew.
  unfold to. rewrite resolve_app, resolve_snoc, Hn. unfold step. simpl. by rewrite Hnew.
Qed.

Lemma move_lookup k : dirents d' !! k =
  if decide (k = (pn, nn)) then Some c else if decide (k = (po, no)) then None else dirents d !! k.
Proof using He.
  rewrite He, lookup_insert, lookup_delete. by repeat case_decide; simplify_eq.
Qed.

(** Paths through neither end are as before. *)
Lemma moved_other q :
  ~ from `prefix_of` q -> ~ to `prefix_of` q ->
  resolve_segments d' (top root) q = resolve_segments d (top root) q.
Proof using Hd Hk Hroot Ho Hn He.
  intros Hf Ht. apply resolve_untouched; [done|]. intros q1 s q2 i Hq Hi Hki.
  rewrite move_lookup. case_decide as H1; [|case_decide as H2; [|done]].
  - destruct Ht. exact (key_prefix d Hd root Hroot pn nn new_parent Hn q q1 s q2 i Hq Hi Hki H1).
  - destruct Hf. exact (key_prefix d Hd root Hroot po no old_parent Ho q q1 s q2 i Hq Hi Hki H2).
Qed.

Lemma prefix_long {A} (l : list A) x : ~ (l ++ [x]) `prefix_of` l.
Proof. intros [k Hl]. apply (f_equal length) in Hl. rewrite !length_app in Hl. simpl in Hl. lia. Qed.

Lemma moved_to : resolve_segments d' (top root) to = Some (ResolvedInode c (ir_kind crow)).
Proof using Hd Hk Hroot Ho Hn He Hinto Hc'.
  unfold to. rewrite resolve_snoc, moved_other, Hn by (done || apply prefix_long).
  unfold step. simpl. rewrite move_lookup, decide_True by done.
  destruct (inodes d' !! c); simplify_eq/=. congruence.
Qed.

Lemma moved_below rest :
  resolve_segments d' (top root) (to ++ rest) = resolve_segments d (top root) (from ++ rest).
Proof using All.
  rewrite !resolve_app, moved_to, move_from.
  apply resolve_agree. intros q1 s q2 i -> Hi.
  destruct (Z.eqb_spec (ri_kind i) KIND_DIRECTORY) as [Hki|Hki];
    [|unfold step; by rewrite (proj2 (Z.eqb_neq _ _) Hki)].
  assert (resolve_segments d (top root) (from ++ q1) = Some i) as Hr by by rewrite resolve_app, move_from.
  apply step_same; [done|]. rewrite move_lookup. case_decide as H1; [|case_decide as H2; [|done]].
  - destruct (key_path d Hd root Hroot pn nn new_parent Hn _ _ _ Hr Hki H1) as [Hq _].
    destruct Hinto. rewrite <-Hq. by exists q1.
  - destruct (key_path d Hd root Hroot po no old_parent Ho _ _ _ Hr Hki H2) as [Hq _].
    exfalso. apply (prefix_long old_parent no). exists q1. symmetry. exact Hq.
Qed.

Lemma moved_away rest : resolve_segments d' (top root) (from ++ rest) = None.
Proof using All.
  unfold from. rewrite resolve_app, resolve_snoc, moved_other, Ho.
  - unfold step. simpl. rewrite move_lookup.
    rewrite decide_False by congruence. by rewrite decide_True by done.
  - apply prefix_long.
  - intros [k Hpk]. pose proof (move_to_absent k) as Ha. rewrite <-Hpk in Ha. congruence.
Qed.

Lemma resolve_moved q :
  resolve_segments d' (top root) q =
  if decide (to `prefix_of` q)
  then resolve_segments d (top root) (from ++ drop (length to) q)
  else if decide (from `prefix_of` q) then None
  else resolve_segments d (top root) q.
Proof using All.
  case_decide as Ht.
  - destruct Ht as [rest ->]. by rewrite drop_app_length, moved_below.
  - case_decide as Hf; [|by apply moved_other]. destruct Hf as [rest ->]. apply moved_away.
Qed.
End move.

(** ** The shape is kept *)

(** Directories of another workspace are out of reach. *)
Lemma resolve_elsewhere d d' root row w q :
  tree_shape d -> same_kinds d d' -> inodes d !! root = Some row -> ir_workspace_id row = w ->
  (forall i s irow, inodes d !! i = Some irow -> ir_workspace_id irow = w ->
     dirents d' !! (i, s) = dirents d !! (i, s)) ->
  resolve_segments d' (top root) q = resolve_segments d (top root) q.
Proof.
  intros Hd Hk Hr Hw Hsame. apply resolve_untouched; [done|]. intros q1 s q2 i _ Hi _.
  destruct (resolve_workspace d Hd root q1 i w row Hr Hw Hi) as (irow & Hirow & Hiw). eauto.
Qed.

(** What the mutated workspace's root is. *)
Definition rooted_at (d : db) (w root : Z) : Prop :=
  exists row, workspaces d !! w = Some row /\ wr_root_inode row = root.

Section shape.
Context (d d' : db) (Hd : tree_shape d) (Hw : workspaces d' = workspaces d).
Context (w root : Z) (Hroot : rooted_at d w root).

Lemma root_row : exists row, inodes d !! root = Some row /\ ir_kind row = KIND_DIRECTORY
  /\ ir_workspace_id row = w.
Proof using Hd Hroot. destruct Hroot as (row & Hr & <-). by apply (ts_root d Hd w row). Qed.
Lemma root_no_entry k : dirents d !! k <> Some root.
Proof using Hd Hroot. destruct Hroot as (row & Hr & <-). by apply (ts_root d Hd w row). Qed.

Lemma resolved_row path i k : resolve_segments d (top root) path = Some (ResolvedInode i k) ->
  exists row, inodes d !! i = Some row /\ ir_kind row = k /\ ir_workspace_id row = w.
Proof using Hd Hroot.
  intros Hr. destruct root_row as (row & H1 & H2 & H3).
  destruct (resolve_kind d root path _ ltac:(eauto) Hr) as (irow & ? & ?).
  destruct (resolve_workspace d Hd root path _ w row H1 H3 Hr) as (irow' & ? & ?).
  simpl in *. exists irow. by simplify_eq.
Qed.

(** The roots of the other workspaces resolve as before when only entries of
    this workspace's directories change. *)
Lemma others_same w2 row2 path :
  same_kinds d d' -> workspaces d !! w2 = Some row2 -> w2 <> w ->
  (forall i s irow, inodes d !! i = Some irow -> ir_workspace_id irow <> w ->
     dirents d' !! (i, s) = dirents d !! (i, s)) ->
  resolve_segments d' (top (wr_root_inode row2)) path
  = resolve_segments d (top (wr_root_inode row2)) path.
Proof using Hd.
  intros Hk H2 Hne Hs. destruct (ts_root d Hd _ _ H2) as [(irow & Hi & Hik & Hiw) _].
  eapply resolve_elsewhere; [done|done|exact Hi|exact Hiw|]. intros i s r Hr Hrw.
  eapply Hs; [done|]. congruence.
Qed.

(** Re-anchoring: entries keep a path from their root. *)
Lemma anchored_by (f : list (list byte) -> list (list byte)) :
  same_kinds d d' ->
  (forall i s irow, inodes d !! i = Some irow -> ir_workspace_id irow <> w ->
     dirents d' !! (i, s) = dirents d !! (i, s)) ->
  (forall path i n c, resolve_segments d (top root) path = Some (ResolvedInode i KIND_DIRECTORY) ->
     dirents d' !! (i, n) = Some c ->
     resolve_segments d' (top root) (f path) = Some (ResolvedInode i KIND_DIRECTORY)) ->
  (forall i n c, dirents d' !! (i, n) = Some c ->
     (exists n' c', dirents d !! (i, n') = Some c') \/
     exists path, resolve_segments d (top root) path = Some (ResolvedInode i KIND_DIRECTORY)) ->
  forall i n c, dirents d' !! (i, n) = Some c ->
    exists w2 row2 path, workspaces d' !! w2 = Some row2 /\
      resolve_segments d' (top (wr_root_inode row2)) path = Some (ResolvedInode i KIND_DIRECTORY).
Proof using Hd Hw Hroot.
  intros Hk Hs Hf Hin i n c Hi. destruct (Hin i n c Hi) as [(n' & c' & Hold)|[path Hpath]].
  - destruct (ts_anchored d Hd _ _ _ Hold) as (w2 & row2 & path & H2 & Hpath).
    destruct (decide (w2 = w)) as [->|Hne].
    + destruct Hroot as (row & Hrow & Hrr). simplify_eq. exists w, row2, (f path).
      rewrite Hw. split; [done|]. by eapply Hf.
    + exists w2, row2, path. rewrite Hw. split; [done|]. by rewrite (others_same w2 row2).
  - destruct Hroot as (row & Hrow & Hrr). exists w, row, (f path). rewrite Hw. split; [done|].
    rewrite Hrr. by eapply Hf.
Qed.
End shape.

Lemma shape_added d d' w root p n parent c crow :
  tree_shape d -> workspaces d' = workspaces d -> rooted_at d w root ->
  resolve_segments d (top root) parent = Some (ResolvedInode p KIND_DIRECTORY) ->
  dirents d !! (p, n) = None -> dirents d' = <[(p, n) := c]> (dirents d) ->
  (forall i, i <> c -> inodes d' !! i = inodes d !! i) -> inodes d' !! c = Some crow ->
  ir_workspace_id crow = w ->
  inodes d !! c = None \/ inodes d !! c = Some crow /\ ir_kind crow <> KIND_DIRECTORY ->
  tree_shape d' /\ same_kinds d d' /\
  (ir_kind crow = KIND_DIRECTORY -> c <> p /\ forall s, dirents d !! (c, s) = None).
Proof.
  intros Hd Hw Hroot Hp Hn He Hi Hc Hcw Hfresh.
  destruct (resolved_row d Hd w root Hroot _ _ _ Hp) as (prow & Hprow & Hpk & Hpw).
  assert (c <> p) as Hcp by (intros ->; destruct Hfresh as [|[? ?]]; congruence).
  assert (forall k c', dirents d !! k = Some c' -> is_Some (inodes d !! c')) as Hchild.
  { intros [p' n'] c' H1. destruct (ts_parent d Hd _ _ _ H1) as (r & Hr & _).
    destruct (ts_child d Hd _ _ _ _ H1 Hr) as (r' & Hr' & _). eauto. }
  assert (forall i row, inodes d !! i = Some row -> inodes d' !! i = Some row) as Hext.
  { intros i row Hrow. destruct (decide (i = c)) as [->|]; [|by rewrite Hi].
    destruct Hfresh as [|[? ?]]; congruence. }
  assert (forall s, ir_kind crow = KIND_DIRECTORY -> dirents d !! (c, s) = None) as Hleaf.
  { intros s Hk. destruct (dirents d !! (c, s)) as [x|] eqn:Ex; [|done].
    destruct (ts_parent d Hd _ _ _ Ex) as (r & Hr & _). destruct Hfresh as [|[? ?]]; congruence. }
  assert (same_kinds d d') as Hk.
  { intros k c' H1 _. destruct (Hchild _ _ H1) as [r Hr]. by rewrite (Hext _ _ Hr), Hr. }
  split; [|by auto].
  assert (forall k c', dirents d' !! k = Some c' -> k = (p, n) /\ c' = c \/ dirents d !! k = Some c') as Hinv.
  { intros k c'. rewrite He, lookup_insert. case_decide; naive_solver. }
  constructor.
  - intros p' n' c' [[[= -> ->] ->]|H1]%Hinv; [exists prow; auto|].
    destruct (ts_parent d Hd _ _ _ H1) as (r & Hr & Hrk). eauto.
  - intros p' n' c' row [[[= -> ->] ->]|H1]%Hinv Hrow.
    + exists crow. rewrite (Hext _ _ Hprow) in Hrow. by simplify_eq.
    + destruct (ts_parent d Hd _ _ _ H1) as (r & Hr & _).
      rewrite (Hext _ _ Hr) in Hrow. simplify_eq.
      destruct (ts_child d Hd _ _ _ _ H1 Hr) as (r' & Hr' & ?). eauto.
  - intros k1 k2 c' row H1 H2 Hrow Hkd. 
    assert (forall k, dirents d !! k = Some c -> ir_kind crow = KIND_DIRECTORY -> False) as Hno.
    { intros k Hkc Hdir. destruct (Hchild _ _ Hkc) as [r Hr]. destruct Hfresh as [|[? ?]]; congruence. }
    destruct (Hinv _ _ H1) as [[-> ->]|H1'], (Hinv _ _ H2) as [[-> ?]|H2']; simplify_eq; try done.
    + exfalso. eauto.
    + exfalso. eauto.
    + destruct (Hchild _ _ H1') as [r Hr]. rewrite (Hext _ _ Hr) in Hrow. simplify_eq.
      by eapply (ts_one_parent d Hd).
  - intros w2 row2. rewrite Hw. intros H2. destruct (ts_root d Hd _ _ H2) as [(r & Hr & Hrk & Hrw) Hnone].
    split; [eauto|]. intros k [[-> Hcc]|Hk2]%Hinv; [|by eapply Hnone].
    rewrite Hcc in Hr. destruct Hfresh as [|[? ?]]; congruence.
  - apply (anchored_by d d' Hd Hw w root Hroot id); [done| | |].
    + intros i s irow Hir Hiw. rewrite He, lookup_insert_ne; [done|]. intros [= -> ->]. congruence.
    + intros path i n' c' Hpath _. simpl.
      rewrite (resolve_added d d' Hd Hk root (root_no_entry d Hd w root Hroot) p n parent Hp c crow) by auto.
      rewrite decide_False; [done|]. intros ->. rewrite resolve_snoc, Hp in Hpath. unfold step in Hpath.
      simpl in Hpath. by rewrite Hn in Hpath.
    + intros i n' c' [[[= -> ->] ->]|H1]%Hinv; eauto.
Qed.

Lemma shape_removed d d' w root p n parent c crow :
  tree_shape d -> workspaces d' = workspaces d -> rooted_at d w root ->
  resolve_segments d (top root) parent = Some (ResolvedInode p KIND_DIRECTORY) ->
  dirents d !! (p, n) = Some c -> inodes d !! c = Some crow ->
  dirents d' = delete (p, n) (dirents d) ->
  (ir_kind crow = KIND_DIRECTORY -> forall s, dirents d !! (c, s) = None) ->
  (forall i, i <> c -> inodes d' !! i = inodes d !! i) ->
  inodes d' !! c = Some crow \/ inodes d' !! c = None /\ (forall k, dirents d' !! k <> Some c) ->
  tree_shape d' /\ same_kinds d d'.
Proof.
  intros Hd Hw Hroot Hp Hn Hc He Hleaf Hi Hdrop.
  destruct (resolved_row d Hd w root Hroot _ _ _ Hp) as (prow & Hprow & Hpk & Hpw).
  assert (forall k c', dirents d' !! k = Some c' -> k <> (p, n) /\ dirents d !! k = Some c') as Hinv.
  { intros k c'. rewrite He, lookup_delete. case_decide; naive_solver. }
  assert (forall s, dirents d !! (c, s) = None) as Hnochild.
  { intros s. destruct (dirents d !! (c, s)) as [x|] eqn:Ex; [|done].
    destruct (ts_parent d Hd _ _ _ Ex) as (r & Hr & Hrk). simplify_eq. by rewrite Hleaf in Ex. }
  assert (forall k c', dirents d' !! k = Some c' -> inodes d' !! c' = inodes d !! c') as Hkept.
  { intros k c' Hk. destruct (decide (c' = c)) as [->|]; [|by rewrite Hi].
    destruct Hdrop as [|[_ Hno]]; [congruence|by apply Hno in Hk]. }
  assert (forall i s c', dirents d' !! (i, s) = Some c' -> inodes d' !! i = inodes d !! i) as Hpar.
  { intros i s c' [_ H1]%Hinv. rewrite Hi; [done|]. intros ->. by rewrite Hnochild in H1. }
  assert (same_kinds d d') as Hk by (intros k c' _ H2; by rewrite (Hkept _ _ H2)).
  split; [|done]. constructor.
  - intros p' n' c' H1. rewrite (Hpar _ _ _ H1). apply Hinv in H1 as [_ H1].
    by eapply (ts_parent d Hd).
  - intros p' n' c' row H1 Hrow. rewrite (Hkept _ _ H1). rewrite (Hpar _ _ _ H1) in Hrow.
    apply Hinv in H1 as [_ H1]. by eapply (ts_child d Hd).
  - intros k1 k2 c' row H1 H2 Hrow Hkd. rewrite (Hkept _ _ H1) in Hrow.
    apply Hinv in H1 as [_ H1]. apply Hinv in H2 as [_ H2]. by eapply (ts_one_parent d Hd).
  - intros w2 row2. rewrite Hw. intros H2. destruct (ts_root d Hd _ _ H2) as [Hr Hnone].
    split; [|intros k [_ Hk2]%Hinv; by eapply Hnone].
    rewrite Hi; [done|]. intros Heq. apply (Hnone (p, n)). by rewrite Heq.
  - apply (anchored_by d d' Hd Hw w root Hroot id); [done| | |].
    + intros i s irow Hir Hiw. rewrite He, lookup_delete_ne; [done|]. intros [= -> ->]. congruence.
    + intros path i n' c' Hpath [_ Hent]%Hinv. simpl.
      rewrite (resolve_removed d d' Hd Hk root (root_no_entry d Hd w root Hroot) p n parent Hp c crow)
        by auto.
      rewrite decide_False; [done|]. intros ->. rewrite resolve_snoc, Hp in Hpath.
      unfold step in Hpath. simpl in Hpath. rewrite Hn, Hc in Hpath. simplify_eq.
      by rewrite Hnochild in Hent.
    + intros i n' c' [_ H1]%Hinv. eauto.
Qed.

Lemma shape_moved d d' w root po pn c no nn old_parent new_parent crow :
  tree_shape d -> workspaces d' = workspaces d -> inodes d' = inodes d -> rooted_at d w root ->
  resolve_segments d (top root) old_parent = Some (ResolvedInode po KIND_DIRECTORY) ->
  resolve_segments d (top root) new_parent = Some (ResolvedInode pn KIND_DIRECTORY) ->
  dirents d !! (po, no) = Some c -> dirents d !! (pn, nn) = None -> inodes d !! c = Some crow ->
  dirents d' = <[(pn, nn) := c]> (delete (po, no) (dirents d)) ->
  ~ (old_parent ++ [no]) `prefix_of` new_parent ->
  tree_shape d' /\ same_kinds d d'.
Proof.
  intros Hd Hw Hi Hroot Ho Hn Hold Hnew Hc He Hinto.
  assert (same_kinds d d') as Hk by (intros k c' _ _; by rewrite Hi).
  split; [|done].
  destruct (resolved_row d Hd w root Hroot _ _ _ Ho) as (orow & Horow & Hok & How).
  destruct (resolved_row d Hd w root Hroot _ _ _ Hn) as (nrow & Hnrow & Hnk & Hnw).
  assert (forall k c', dirents d' !! k = Some c' ->
    k = (pn, nn) /\ c' = c \/ k <> (po, no) /\ dirents d !! k = Some c') as Hinv.
  { intros k c'. rewrite (move_lookup d d' po pn c no nn He). repeat case_decide; naive_solver. }
  pose proof (root_no_entry d Hd w root Hroot) as Hnoroot.
  assert (ir_kind <$> inodes d' !! c = Some (ir_kind crow)) as Hc' by by rewrite Hi, Hc.
  constructor; rewrite ?Hi.
  - intros p' n' c' [[[= -> ->] ->]|[_ H1]]%Hinv; [eauto|by eapply (ts_parent d Hd)].
  - intros p' n' c' row [[[= -> ->] ->]|[_ H1]]%Hinv Hrow; [|by eapply (ts_child d Hd)].
    destruct (ts_child d Hd _ _ _ _ Hold Horow) as (r & Hr & Hrw). exists r. split; [done|]. congruence.
  - intros k1 k2 c' row H1 H2 Hrow Hkd.
    assert (forall k, dirents d !! k = Some c' -> c' = c -> k = (po, no)) as Hone.
    { intros k H3 ->. by eapply (ts_one_parent d Hd). }
    destruct (Hinv _ _ H1) as [[-> E1]|[N1 H1']], (Hinv _ _ H2) as [[-> E2]|[N2 H2']]; subst; try done.
    + by destruct N2; apply Hone.
    + by destruct N1; apply Hone.
    + by eapply (ts_one_parent d Hd).
  - intros w2 row2. rewrite Hw. intros H2. destruct (ts_root d Hd _ _ H2) as [Hr Hnone].
    split; [done|]. intros k [[-> Heq]|[_ Hk2]]%Hinv; [|by eapply Hnone].
    apply (Hnone (po, no)). by rewrite Heq.
  - set (from := old_parent ++ [no]). set (to := new_parent ++ [nn]).
    apply (anchored_by d d' Hd Hw w root Hroot (fun path =>
      if decide (from `prefix_of` path) then to ++ drop (length from) path else path)); [done| | |].
    + intros i s irow Hir Hiw. rewrite (move_lookup d d' po pn c no nn He).
      rewrite !decide_False; [done|..]; intros [= -> ->]; congruence.
    + intros path i n' c' Hpath _. case_decide as Hf.
      * destruct Hf as [rest ->]. rewrite drop_app_length.
        rewrite (moved_below d d' Hd Hk root Hnoroot po pn c no nn old_parent new_parent Ho Hn Hold Hnew He crow Hc Hc' Hinto).
        done.
      * rewrite (moved_other d d' Hd Hk root Hnoroot po pn c no nn old_parent new_parent Ho Hn He); [done|done|].
        intros [rest ->]. by rewrite (move_to_absent d root pn nn new_parent Hn Hnew) in Hpath.
    + intros i n' c' [[[= -> ->] ->]|[_ H1]]%Hinv; eauto.
Qed.

(** Rows may change as long as kinds and workspaces stay. *)
Lemma shape_rows d d' :
  tree_shape d -> workspaces d' = workspaces d -> dirents d' = dirents d ->
  (forall i, (fun r => (ir_kind r, ir_workspace_id r)) <$> inodes d' !! i
           = (fun r => (ir_kind r, ir_workspace_id r)) <$> inodes d !! i) ->
  tree_shape d' /\ same_kinds d d'.
Proof.
  intros Hd Hw He Hi.
  assert (same_kinds d d') as Hk.
  { intros k c _ _. specialize (Hi c). destruct (inodes d' !! c), (inodes d !! c); simplify_eq/=; congruence. }
  assert (forall i row, inodes d !! i = Some row -> exists row', inodes d' !! i = Some row' /\
    ir_kind row' = ir_kind row /\ ir_workspace_id row' = ir_workspace_id row) as Hto.
  { intros i row Hr. specialize (Hi i). rewrite Hr in Hi. destruct (inodes d' !! i); simplify_eq/=; eauto. }
  assert (forall i row, inodes d' !! i = Some row -> exists row', inodes d !! i = Some row' /\
    ir_kind row = ir_kind row' /\ ir_workspace_id row = ir_workspace_id row') as Hfrom.
  { intros i row Hr. specialize (Hi i). rewrite Hr in Hi. destruct (inodes d !! i); simplify_eq/=; eauto. }
  split; [|done]. constructor; rewrite ?He, ?Hw.
  - intros p n c H1. destruct (ts_parent d Hd _ _ _ H1) as (r & Hr & ?).
    destruct (Hto _ _ Hr) as (r' & ? & ? & ?). exists r'. split; [done|congruence].
  - intros p n c row H1 (row' & Hr & _ & Hrw)%Hfrom. destruct (ts_child d Hd _ _ _ _ H1 Hr) as (r & Hc & ?).
    destruct (Hto _ _ Hc) as (r' & ? & ? & ?). exists r'. split; [done|congruence].
  - intros k1 k2 c row H1 H2 (row' & Hr & Hrk & _)%Hfrom Hkd.
    eapply (ts_one_parent d Hd); [done..|congruence].
  - intros w2 row2 H2. destruct (ts_root d Hd _ _ H2) as [(r & Hr & ? & ?) Hnone]. split; [|done].
    destruct (Hto _ _ Hr) as (r' & ? & ? & ?). exists r'. split; [done|]. split; congruence.
  - intros p n c H1. destruct (ts_anchored d Hd _ _ _ H1) as (w2 & row2 & path & H2 & Hpath).
    exists w2, row2, path. split; [done|]. rewrite (resolve_untouched d d'); [done|done|].
    intros. by rewrite He.
Qed.
