(* ===== verification/Mutations.v ===== *)
(** Tree mutations of [src/crates/tensorfs-core/src/workspace.rs]: the invariant
    of the tables, that every mutation keeps it, and that [apply_mutation]
    implements a path-indexed file system. *)

From S2P Require Export RecordMaps Tree.

(** ** Paths and segments *)

(** The segments of a path as [resolve_path] reads it. *)
Definition segs (path : list byte) : list (list byte) :=
  if decide (path = []) then [] else split_on slash path.

Lemma split_on_middle sep a b : split_on sep (a ++ sep :: b) = split_on sep a ++ split_on sep b.
Proof.
  pose proof (join_split_on sep a) as Hj. pose proof (split_on_parts sep a) as Hp.
  revert Hp. rewrite <-Hj at 2. generalize (split_on_nonempty sep a). generalize (split_on sep a).
  clear. intros parts Hne Hp. induction parts as [|part parts IH]; [done|].
  inversion Hp as [|?? Hpart Hparts]; subst. destruct parts as [|q parts]; simpl.
  - by rewrite split_on_app.
  - rewrite <-app_assoc. simpl. rewrite split_on_app by done. f_equal. by apply IH.
Qed.

Section paths.
Context `{Unicode}.

Lemma valid_path_nonempty path : validate_path path = Ok tt -> path <> [].
Proof. by intros Hv ->. Qed.

Lemma valid_path_segments path segment :
  validate_path path = Ok tt -> segment ∈ split_on slash path -> (slash ∉ segment) /\ safe_segment segment.
Proof.
  intros (_ & _ & segments & Hne & -> & Hf)%validate_path_iff Hin.
  rewrite split_on_join in Hin; [|done|].
  - rewrite Forall_forall in Hf. by apply Hf.
  - eapply Forall_impl; [exact Hf|]. by intros ? [].
Qed.

Lemma split_parent_segs path parent name :
  validate_path path = Ok tt -> split_parent path = (parent, name) ->
  segs path = match parent with Some p => segs p | None => [] end ++ [name] /\
  (slash ∉ name) /\ safe_segment name.
Proof.
  intros Hv Hs. pose proof (valid_path_nonempty _ Hv) as Hne. unfold split_parent in Hs.
  destruct (rsplit_once slash path) as [[p n]|] eqn:Er; simplify_eq.
  - apply rsplit_once_Some in Er as [-> Hn].
    assert (split_on slash (p ++ slash :: name) = split_on slash p ++ [name]) as Hsp
      by by rewrite split_on_middle, (split_on_none slash name).
    unfold segs. rewrite decide_False by done. rewrite Hsp. split.
    + case_decide; [subst p|done]. exfalso. apply validate_path_iff in Hv as (_ & _ & ss & Hss & Hj & Hf).
      rewrite app_nil_l in Hj. destruct ss as [|[|b s] ss]; [done| |].
      * inversion Hf as [|?? [_ Hsafe] _]; subst. by apply (ss_nonempty _ Hsafe).
      * inversion Hf as [|?? [Hb _] _]; subst. destruct ss; simplify_eq/=; set_solver.
    + apply (valid_path_segments _ _ Hv). rewrite Hsp. set_solver.
  - apply rsplit_once_None in Er. unfold segs. rewrite decide_False by done.
    rewrite split_on_none by done. split; [done|]. apply (valid_path_segments _ _ Hv).
    rewrite split_on_none by done. set_solver.
Qed.

Lemma segs_join path : validate_path path = Ok tt -> join slash (segs path) = path.
Proof.
  intros Hv%valid_path_nonempty. unfold segs. rewrite decide_False by done. apply join_split_on.
Qed.

(** ** Inverting resolution *)

Lemma resolve_path_Ok d w path r :
  resolve_path d w path = Ok r ->
  r = resolve_segments d (top (w_root_inode w)) (segs path) /\
  (path <> [] -> validate_path path = Ok tt).
Proof.
  unfold resolve_path, segs. case_decide as Hp; [intros [= <-]; done|].
  destruct (validate_path path) as [[]|e] eqn:Ev; [|done]. simpl. intros [= <-]. done.
Qed.

Lemma resolve_existing_Ok d w path i :
  resolve_existing d w path = Ok i ->
  resolve_segments d (top (w_root_inode w)) (segs path) = Some i /\
  (path <> [] -> validate_path path = Ok tt).
Proof.
  unfold resolve_existing. destruct (resolve_path d w path) as [r|] eqn:E; [|done].
  destruct r; [|done]. intros [= <-]. by apply resolve_path_Ok in E as [<- ?].
Qed.

Lemma resolve_file_Ok d w path i :
  resolve_file d w path = Ok i ->
  resolve_segments d (top (w_root_inode w)) (segs path) = Some i /\ ri_kind i = KIND_FILE /\
  validate_path path = Ok tt.
Proof.
  unfold resolve_file. destruct (resolve_existing d w path) as [j|] eqn:E; [|done].
  destruct (Z.eqb_spec (ri_kind j) KIND_FILE) as [Hk|]; [|done]. intros [= <-].
  apply resolve_existing_Ok in E as [Hr Hv]. split; [done|]. split; [done|]. apply Hv.
  intros ->. simpl in Hr. by simplify_eq.
Qed.

(** A new leaf: its parent is a directory and no sibling folds to its name. *)
Record new_leaf (d : db) (root : Z) (path : list byte) (p : Z) (n : list byte)
    (parent : list (list byte)) : Prop := {
  nl_segs : segs path = parent ++ [n];
  nl_parent : resolve_segments d (top root) parent = Some (ResolvedInode p KIND_DIRECTORY);
  nl_absent : dirents d !! (p, n) = None;
  nl_fold m c : dirents d !! (p, m) = Some c -> case_fold m <> case_fold n;
  nl_safe : (slash ∉ n) /\ safe_segment n;
  nl_valid : validate_path path = Ok tt
}.

Lemma resolve_new_leaf_Ok `{Unordered} d w path p n :
  resolve_new_leaf d w path = Ok (p, n) -> exists parent, new_leaf d (w_root_inode w) path p n parent.
Proof.
  unfold resolve_new_leaf. destruct (validate_path path) as [[]|e] eqn:Ev; [|done]. simpl.
  destruct (split_parent path) as [parent name] eqn:Es.
  destruct (split_parent_segs _ _ _ Ev Es) as (Hs & Hsafe).
  match goal with |- match ?e with Ok _ => _ | Err _ => _ end = _ -> _ =>
    destruct e as [pi|] eqn:Ep; [|done] end.
  destruct (dirents d !! (pi, name)) as [|] eqn:Ed; [done|].
  destruct (existsb _ _) eqn:Ef; [done|]. intros [= <- <-].
  exists (match parent with Some p => segs p | None => [] end). constructor; try done.
  - destruct parent as [pp|]; [|by simplify_eq].
    destruct (resolve_path d w pp) as [r|] eqn:Er; [|done]. destruct r as [i|]; [|done].
    destruct (Z.eqb_spec (ri_kind i) KIND_DIRECTORY) as [Hk|]; [|done]. simpl in Ep. simplify_eq.
    apply resolve_path_Ok in Er as [<- _]. by destruct i; simpl in *; subst.
  - intros m c Hm Hfold. rewrite existsb_false in Ef. specialize (Ef m).
    rewrite Hfold, bool_decide_true in Ef by done. enough (false = true) by done. symmetry. apply Ef.
    unfold sibling_names. rewrite elem_of_enumerate, list_elem_of_fmap. exists ((pi, m), c).
    split; [done|]. apply list_elem_of_filter. split; [done|]. by apply elem_of_map_to_list.
Qed.

(** The parent of a path that resolves. *)
Lemma parent_of_resolved_Ok d w path i p n :
  validate_path path = Ok tt -> resolve_segments d (top (w_root_inode w)) (segs path) = Some i ->
  parent_of_resolved d w path = Ok (p, n) ->
  exists parent, segs path = parent ++ [n] /\
    resolve_segments d (top (w_root_inode w)) parent = Some (ResolvedInode p KIND_DIRECTORY) /\
    dirents d !! (p, n) = Some (ri_id i).
Proof.
  intros Hv Hr Hp. unfold parent_of_resolved in Hp. destruct (split_parent path) as [parent name] eqn:Es.
  destruct (split_parent_segs _ _ _ Hv Es) as (Hs & _).
  exists (match parent with Some p => segs p | None => [] end).
  rewrite Hs, resolve_snoc in Hr.
  destruct (resolve_segments _ _ _) as [j|] eqn:Ej in Hr; [|done].
  apply step_Some in Hr as (Hk & He & _).
  assert (p = ri_id j /\ n = name) as [-> ->].
  { destruct parent as [pp|]; simplify_eq/=; [|by simplify_eq].
    destruct (resolve_path d w pp) as [[k|]|] eqn:Er; simplify_eq.
    apply resolve_path_Ok in Er as [Hk' _]. simpl in Ej. rewrite Ej in Hk'. by simplify_eq. }
  split; [done|]. split; [|done]. rewrite Ej. by destruct j; simpl in *; subst.
Qed.

(** The [expect]s of [apply_mutation] hold. *)
Lemma parent_of_resolved_no_panic d w path i :
  validate_path path = Ok tt -> resolve_segments d (top (w_root_inode w)) (segs path) = Some i ->
  parent_of_resolved d w path <> Err WE_Panic.
Proof.
  intros Hv Hr Hp. unfold parent_of_resolved in Hp. destruct (split_parent path) as [parent name] eqn:Es.
  destruct (split_parent_segs _ _ _ Hv Es) as (Hs & _). destruct parent as [pp|]; [|done].
  rewrite Hs, resolve_snoc in Hr.
  unfold resolve_path in Hp. unfold segs in Hr. case_decide as Hpp; [done|].
  destruct (validate_path pp); simplify_eq/=. unfold root_of in Hp. 
  change (ResolvedInode (w_root_inode w) KIND_DIRECTORY) with (top (w_root_inode w)) in Hp.
  destruct (resolve_segments d (top (w_root_inode w)) (split_on slash pp)); [|done]. done.
Qed.
End paths.

(** ** The invariant of the tables *)

(** A row has the columns its kind needs. *)
Definition row_typed (row : inodes_row) : Prop :=
  (ir_executable row = 0 \/ ir_executable row = 1) /\
  (exists contract, wf_stamp contract /\ ir_contract row = contract_to_row contract) /\
  (ir_kind row = KIND_DIRECTORY \/
   ir_kind row = KIND_FILE /\ (exists planner, ir_planner row = Some (planner_to_row planner)) \/
   ir_kind row = KIND_SYMLINK /\ is_Some (ir_symlink_target row)).

(** A record run that was committed. *)
Definition wf_run (records : list file_record) : Prop :=
  Forall wf_record records /\ exists size, wf_record_run records size.

Record rows_ok `{Unicode} (d : db) : Prop := {
  ro_typed i row : inodes d !! i = Some row -> row_typed row;
  ro_name p n c : dirents d !! (p, n) = Some c -> (slash ∉ n) /\ safe_segment n;
  ro_fold p m n c c' : dirents d !! (p, m) = Some c -> dirents d !! (p, n) = Some c' ->
    case_fold m = case_fold n -> m = n;
  ro_run i : exists records, run_at d i records /\ wf_run records;
  ro_owner i o row : object_maps d !! (i, o) = Some row ->
    exists irow, inodes d !! i = Some irow /\ ir_kind irow = KIND_FILE;
  ro_lease l row i : leases d !! l = Some row -> lr_inode row = Some i -> is_Some (inodes d !! i);
  ro_unique w1 w2 r1 r2 : workspaces d !! w1 = Some r1 -> workspaces d !! w2 = Some r2 ->
    wr_name r1 = wr_name r2 -> w1 = w2
}.

Definition db_inv `{Unicode} (d : db) : Prop := tree_shape d /\ rows_ok d.

(** ** The abstract file system *)

(** What an identity is, whatever names it. *)
Inductive anode : Type :=
| ADirectory
| AFile (executable : bool) (planner : planner_id) (contract : stamp) (records : list file_record)
| ASymlink (target : list byte).

(** Names are paths as segment lists; two names of one identity are hard
    links. *)
Record afs : Type := Afs {
  names : list (list byte) -> option Z;
  nodes : Z -> option anode
}.

Definition node_at (d : db) (i : Z) : option anode :=
  let* row := inodes d !! i in
  if ir_kind row =? KIND_DIRECTORY then Some ADirectory
  else if ir_kind row =? KIND_FILE then
    let* planner := ir_planner row in
    match read_records d i with
    | Ok records => Some (AFile (ir_executable row =? 1) (planner_from_row planner)
                            (contract_from_row (ir_contract row)) records)
    | Err _ => None
    end
  else ASymlink <$> ir_symlink_target row.

(** The file system a workspace's tables represent. *)
Definition view (d : db) (root : Z) : afs :=
  Afs (fun q => ri_id <$> resolve_segments d (top root) q) (node_at d).

(** A name that can be created: free, in an existing directory. *)
Definition creatable (s : afs) (path : list byte) : Prop :=
  names s (segs path) = None /\
  exists parent n i, segs path = parent ++ [n] /\ names s parent = Some i /\ nodes s i = Some ADirectory.
Definition unnamed (s : afs) (i : Z) : Prop := forall q, names s q <> Some i.
(** Nothing named but [i] changed. *)
Definition kept_but (i : option Z) (s s' : afs) : Prop :=
  forall q j, names s' q = Some j -> i <> Some j -> nodes s' j = nodes s j.
Definition names_plus (s s' : afs) (path : list byte) (i : Z) : Prop :=
  forall q, names s' q = if decide (q = segs path) then Some i else names s q.
Definition names_same (s s' : afs) : Prop := forall q, names s' q = names s q.

(** A mutation on the abstract file system. *)
Definition spec_mutation (m : mutation) (s s' : afs) : Prop :=
  match m with
  | Mkdir path =>
      creatable s path /\ exists i, unnamed s i /\ names_plus s s' path i /\
      nodes s' i = Some ADirectory /\ kept_but (Some i) s s'
  | CreateFile path executable planner records =>
      creatable s path /\ exists i, unnamed s i /\ names_plus s s' path i /\
      nodes s' i = Some (AFile executable planner StampNone records) /\ kept_but (Some i) s s'
  | MSymlink path target =>
      creatable s path /\ exists i, unnamed s i /\ names_plus s s' path i /\
      nodes s' i = Some (ASymlink target) /\ kept_but (Some i) s s'
  | MHardlink path target =>
      creatable s path /\ exists i x p c r, names s (segs target) = Some i /\
      nodes s i = Some (AFile x p c r) /\ names_plus s s' path i /\ kept_but None s s'
  | SetRecords path records =>
      exists i x p c r, names s (segs path) = Some i /\ nodes s i = Some (AFile x p c r) /\
      names_same s s' /\ nodes s' i = Some (AFile x p c records) /\ kept_but (Some i) s s'
  | Truncate path length =>
      exists i x p c r r', names s (segs path) = Some i /\ nodes s i = Some (AFile x p c r) /\
      names_same s s' /\ nodes s' i = Some (AFile x p c r') /\ kept_but (Some i) s s' /\
      forall O, run_bytes O r' = resize (Z.to_nat length) Byte.x00 (run_bytes O r)
  | SetExecutable path executable =>
      exists i x p c r, names s (segs path) = Some i /\ nodes s i = Some (AFile x p c r) /\
      names_same s s' /\ nodes s' i = Some (AFile executable p c r) /\ kept_but (Some i) s s'
  | Unlink path =>
      exists i a, names s (segs path) = Some i /\ nodes s i = Some a /\ a <> ADirectory /\
      (forall q, names s' q = if decide (q = segs path) then None else names s q) /\
      kept_but None s s'
  | Rmdir path =>
      exists i, names s (segs path) = Some i /\ nodes s i = Some ADirectory /\
      (forall n, names s (segs path ++ [n]) = None) /\
      (forall q, names s' q = if decide (q = segs path) then None else names s q) /\
      kept_but None s s'
  | Rename from to =>
      exists i, names s (segs from) = Some i /\ creatable s to /\ kept_but None s s' /\
      if decide (from = []) then names_same s s'
      else
        (nodes s i = Some ADirectory -> ~ segs from `prefix_of` segs to) /\
        forall q, names s' q =
          if decide (segs to `prefix_of` q) then names s (segs from ++ drop (length (segs to)) q)
          else if decide (segs from `prefix_of` q) then None
          else names s q
  end.

(** ** Nodes *)

Section nodes.
Context `{Unicode}.

Lemma node_at_same d d' i :
  rows_ok d -> inodes d' !! i = inodes d !! i ->
  (forall o, object_maps d' !! (i, o) = object_maps d !! (i, o)) -> node_at d' i = node_at d i.
Proof.
  intros Hr Hi Ho. unfold node_at. rewrite Hi.
  destruct (ro_run d Hr i) as (records & Hrun & Hwf & _).
  assert (run_at d' i records) as Hrun' by (intros o; by rewrite Ho).
  by rewrite (read_records_run _ _ _ Hrun Hwf), (read_records_run _ _ _ Hrun' Hwf).
Qed.

Lemma node_at_run d i row records :
  inodes d !! i = Some row -> ir_kind row = KIND_FILE -> row_typed row ->
  run_at d i records -> wf_run records ->
  exists p, ir_planner row = Some (planner_to_row p) /\
    node_at d i = Some (AFile (ir_executable row =? 1) p (contract_from_row (ir_contract row)) records).
Proof.
  intros Hi Hk (_ & _ & [Hd|[[_ [p Hp]]|[Hs _]]]) Hrun [Hwf _]; [by rewrite Hd in Hk| |by rewrite Hs in Hk].
  exists p. split; [done|]. unfold node_at. rewrite Hi, Hk, Hp, (read_records_run _ _ _ Hrun Hwf).
  simpl. by rewrite planner_row_round_trip.
Qed.

Context (d : db) (w root : Z) (Hinv : db_inv d) (Hroot : rooted_at d w root).

Lemma view_dir q i : resolve_segments d (top root) q = Some (ResolvedInode i KIND_DIRECTORY) ->
  names (view d root) q = Some i /\ nodes (view d root) i = Some ADirectory.
Proof using Hinv Hroot.
  intros Hq. destruct Hinv as [Ht _]. simpl. rewrite Hq. split; [done|].
  destruct (resolved_row d Ht w root Hroot _ _ _ Hq) as (row & Hr & Hk & _).
  unfold node_at. by rewrite Hr, Hk.
Qed.

Lemma view_file q i : resolve_segments d (top root) q = Some i -> ri_kind i = KIND_FILE ->
  exists row p records, inodes d !! ri_id i = Some row /\ ir_kind row = KIND_FILE /\
    ir_workspace_id row = w /\ names (view d root) q = Some (ri_id i) /\
    ir_planner row = Some (planner_to_row p) /\ run_at d (ri_id i) records /\ wf_run records /\
    nodes (view d root) (ri_id i)
      = Some (AFile (ir_executable row =? 1) p (contract_from_row (ir_contract row)) records).
Proof using Hinv Hroot.
  intros Hq Hk. destruct Hinv as [Ht Hr]. destruct i as [i k]. simpl in *. subst k.
  destruct (resolved_row d Ht w root Hroot _ _ _ Hq) as (row & Hrow & Hrk & Hrw).
  destruct (ro_run d Hr i) as (records & Hrun & Hwf).
  destruct (node_at_run d i row records Hrow Hrk (ro_typed d Hr i row Hrow) Hrun Hwf) as (p & Hp & Hn).
  exists row, p, records. by rewrite Hq.
Qed.

Lemma view_names q i : names (view d root) q = Some i ->
  exists row, inodes d !! i = Some row /\ ir_workspace_id row = w /\
    resolve_segments d (top root) q = Some (ResolvedInode i (ir_kind row)).
Proof using Hinv Hroot.
  destruct Hinv as [Ht _]. simpl. intros ([j k] & Hq & ->)%fmap_Some.
  destruct (resolved_row d Ht w root Hroot _ _ _ Hq) as (row & Hrow & Hrk & Hrw).
  exists row. simpl. by rewrite Hrk.
Qed.

Lemma view_creatable path p n parent :
  new_leaf d root path p n parent -> creatable (view d root) path.
Proof using Hinv Hroot.
  intros Hl. split.
  - simpl. rewrite (nl_segs _ _ _ _ _ _ Hl), resolve_snoc, (nl_parent _ _ _ _ _ _ Hl). unfold step. simpl.
    by rewrite (nl_absent _ _ _ _ _ _ Hl).
  - exists parent, n, p. split; [apply Hl|]. apply view_dir, Hl.
Qed.
End nodes.

(** ** Creating *)

Section create.
Context `{Unicode} (d d' : db) (w : workspace_row_t).
Context (Hinv : db_inv d) (Hroot : rooted_at d (w_id w) (w_root_inode w)).
Context (path : list byte) (p : Z) (n : list byte) (parent : list (list byte)).
Context (Hl : new_leaf d (w_root_inode w) path p n parent).

(** A fresh inode under a new name. *)
Lemma create_inv i row records :
  inodes d !! i = None -> row_typed row -> ir_workspace_id row = w_id w ->
  wf_run records -> (records <> [] -> ir_kind row = KIND_FILE) ->
  workspaces d' = workspaces d -> leases d' = leases d ->
  inodes d' = <[i := row]> (inodes d) -> dirents d' = <[(p, n) := i]> (dirents d) ->
  (forall j o, object_maps d' !! (j, o) =
     if decide (j = i) then run_row records o else object_maps d !! (j, o)) ->
  db_inv d' /\ unnamed (view d (w_root_inode w)) i /\
  names_plus (view d (w_root_inode w)) (view d' (w_root_inode w)) path i /\
  kept_but (Some i) (view d (w_root_inode w)) (view d' (w_root_inode w)).
Proof using Hinv Hroot Hl.
  intros Hi Hty Hrw Hwf Hfile Hws Hle Hin Hde Hom. pose proof Hinv as [Ht Hr].
  destruct (shape_added d d' (w_id w) (w_root_inode w) p n parent i row) as (Ht' & Hk & Hleaf);
    try done; try apply Hl.
  { intros j Hj. by rewrite Hin, lookup_insert_ne. }
  { by rewrite Hin, lookup_insert_eq. }
  { by left. }
  assert (names_plus (view d (w_root_inode w)) (view d' (w_root_inode w)) path i) as Hplus.
  { intros q. simpl. rewrite (resolve_added d d' Ht Hk (w_root_inode w)
      (root_no_entry d Ht _ _ Hroot) p n parent (nl_parent _ _ _ _ _ _ Hl) i row); try done; try apply Hl.
    - rewrite (nl_segs _ _ _ _ _ _ Hl). by case_decide.
    - by rewrite Hin, lookup_insert_eq. }
  split; [|split; [|split; [done|]]].
  - split; [done|]. constructor.
    + intros j r. rewrite Hin, lookup_insert. case_decide; [intros; by simplify_eq|apply Hr].
    + intros p' n' c. rewrite Hde, lookup_insert. case_decide; simplify_eq; [|apply Hr].
      intros _. apply Hl.
    + intros p' m1 m2 c1 c2. rewrite Hde, !lookup_insert. repeat case_decide; simplify_eq; try done.
      * intros _ Hm Hf. by apply (nl_fold _ _ _ _ _ _ Hl) in Hm.
      * intros Hm _ Hf. by apply (nl_fold _ _ _ _ _ _ Hl) in Hm.
      * apply Hr.
    + intros j. destruct (decide (j = i)) as [->|Hj].
      * exists records. split; [|done]. intros o. by rewrite Hom, decide_True.
      * destruct (ro_run d Hr j) as (rs & Hrs & ?). exists rs. split; [|done].
        intros o. by rewrite Hom, decide_False.
    + intros j o r. rewrite Hom, Hin. case_decide as Hj.
      * subst j. unfold run_row. destruct records as [|x records]; [by rewrite lookup_nil; case_match|].
        intros _. rewrite lookup_insert_eq. exists row. split; [done|]. by apply Hfile.
      * rewrite lookup_insert_ne by done. apply Hr.
    + intros l r j. rewrite Hle, Hin. intros H1 H2. destruct (ro_lease d Hr _ _ _ H1 H2) as [x Hx].
      rewrite lookup_insert. by case_decide.
    + rewrite Hws. apply Hr.
  - intros q Hq. apply (view_names d (w_id w) (w_root_inode w) Hinv Hroot) in Hq as (r & Hr' & _). congruence.
  - intros q j Hq Hj. apply node_at_same; [done| |].
    + rewrite Hin, lookup_insert_ne; [done|]. congruence.
    + intros o. rewrite Hom, decide_False by congruence. done.
Qed.
End create.

(** ** Changing and removing *)

Section change.
Context `{Unicode} (d d' : db) (w : workspace_row_t).
Context (Hinv : db_inv d) (Hroot : rooted_at d (w_id w) (w_root_inode w)).
Let s := view d (w_root_inode w).
Let s' := view d' (w_root_inode w).

Lemma hardlink_inv path p n parent i row :
  new_leaf d (w_root_inode w) path p n parent ->
  inodes d !! i = Some row -> ir_kind row = KIND_FILE -> ir_workspace_id row = w_id w ->
  d' = with_dirents (<[(p, n) := i]>) d ->
  db_inv d' /\ names_plus s s' path i /\ kept_but None s s'.
Proof using Hinv Hroot.
  intros Hl Hi Hk Hw ->. set (d' := with_dirents (<[(p, n) := i]>) d). pose proof Hinv as [Ht Hr].
  destruct (shape_added d d' (w_id w) (w_root_inode w) p n parent i row) as (Ht' & Hsk & Hleaf);
    try done; try apply Hl.
  { right. split; [done|]. by rewrite Hk. }
  split; [|split].
  - split; [done|]. constructor; try apply Hr.
    + intros p' n' c. cbn. rewrite lookup_insert. case_decide; simplify_eq; [|apply Hr].
      intros _. apply Hl.
    + intros p' m1 m2 c1 c2. cbn. rewrite !lookup_insert. repeat case_decide; simplify_eq; try done.
      * intros _ Hm Hf. by apply (nl_fold _ _ _ _ _ _ Hl) in Hm.
      * intros Hm _ Hf. by apply (nl_fold _ _ _ _ _ _ Hl) in Hm.
      * apply Hr.
  - intros q. simpl. rewrite (resolve_added d d' Ht Hsk (w_root_inode w)
      (root_no_entry d Ht _ _ Hroot) p n parent (nl_parent _ _ _ _ _ _ Hl) i row); try done; try apply Hl.
    rewrite (nl_segs _ _ _ _ _ _ Hl). by case_decide.
  - intros q j Hq _. by apply node_at_same.
Qed.

(** Rewriting a file's row or record map. *)
Lemma rewrite_inv i row row' records :
  inodes d !! i = Some row -> ir_kind row = KIND_FILE -> ir_kind row' = KIND_FILE ->
  ir_workspace_id row' = ir_workspace_id row -> row_typed row' -> wf_run records ->
  workspaces d' = workspaces d -> leases d' = leases d -> dirents d' = dirents d ->
  inodes d' = <[i := row']> (inodes d) ->
  (forall j o, object_maps d' !! (j, o) =
     if decide (j = i) then run_row records o else object_maps d !! (j, o)) ->
  db_inv d' /\ names_same s s' /\ kept_but (Some i) s s'.
Proof using Hinv.
  intros Hi Hk Hk' Hww Hty Hwf Hws Hle Hde Hin Hom. pose proof Hinv as [Ht Hr].
  destruct (shape_rows d d') as [Ht' Hsk]; [done..| |].
  { intros j. rewrite Hin, lookup_insert. case_decide; [subst j|done]. rewrite Hi. simpl. congruence. }
  split; [|split].
  - split; [done|]. constructor.
    + intros j r. rewrite Hin, lookup_insert. case_decide; [intros; by simplify_eq|apply Hr].
    + rewrite Hde. apply Hr.
    + rewrite Hde. apply Hr.
    + intros j. destruct (decide (j = i)) as [->|Hj].
      * exists records. split; [|done]. intros o. by rewrite Hom, decide_True.
      * destruct (ro_run d Hr j) as (rs & Hrs & ?). exists rs. split; [|done].
        intros o. by rewrite Hom, decide_False.
    + intros j o r. rewrite Hom, Hin. case_decide as Hj.
      * subst j. rewrite lookup_insert_eq. eauto.
      * rewrite lookup_insert_ne by done. apply Hr.
    + intros l r j. rewrite Hle, Hin. intros H1 H2. destruct (ro_lease d Hr _ _ _ H1 H2) as [x Hx].
      rewrite lookup_insert. by case_decide.
    + rewrite Hws. apply Hr.
  - intros q. simpl. f_equal. apply resolve_untouched; [done|]. intros. by rewrite Hde.
  - intros q j Hq Hj. apply node_at_same; [done| |].
    + rewrite Hin, lookup_insert_ne; [done|]. congruence.
    + intros o. rewrite Hom, decide_False by congruence. done.
Qed.

(** Removing an entry, and the inode when nothing else holds it. *)
Lemma remove_inv path p n parent i row :
  segs path = parent ++ [n] ->
  resolve_segments d (top (w_root_inode w)) parent = Some (ResolvedInode p KIND_DIRECTORY) ->
  dirents d !! (p, n) = Some i -> inodes d !! i = Some row ->
  (ir_kind row = KIND_DIRECTORY -> forall m, dirents d !! (i, m) = None) ->
  drop_inode_if_orphaned (delete_dirent d p n) i = Ok d' ->
  db_inv d' /\ (forall q, names s' q = if decide (q = segs path) then None else names s q) /\
  kept_but None s s'.
Proof using Hinv Hroot.
  intros Hs Hp Hn Hi Hleaf Hdrop. pose proof Hinv as [Ht Hr].
  assert (forall m, dirents d !! (i, m) = None) as Hnochild.
  { intros m. destruct (dirents d !! (i, m)) as [c|] eqn:Ec; [|done].
    destruct (ts_parent d Ht _ _ _ Ec) as (r & Hri & Hrk). simplify_eq. by rewrite Hleaf in Ec. }
  unfold drop_inode_if_orphaned in Hdrop.
  assert (workspaces d' = workspaces d /\ leases d' = leases d /\
    dirents d' = delete (p, n) (dirents d) /\
    (forall j, j <> i -> inodes d' !! j = inodes d !! j) /\
    (forall j o, j <> i -> object_maps d' !! (j, o) = object_maps d !! (j, o)) /\
    (inodes d' !! i = Some row /\ (forall o, object_maps d' !! (i, o) = object_maps d !! (i, o)) \/
     inodes d' !! i = None /\ (forall o, object_maps d' !! (i, o) = None) /\
     (forall k, dirents d' !! k <> Some i) /\
     forall l r, leases d !! l = Some r -> lr_inode r <> Some i)) as (Hws & Hle & Hde & Hin & Hom & Hcase).
  { destruct ((link_count _ _ =? 0) && _) eqn:Ec.
    - unfold delete_inode in Hdrop. case_decide as Href; [|done]. injection Hdrop as <-.
      apply andb_true_iff in Ec as [Hlink Hlease].
      assert (filter (fun row : Z * list byte * Z => row.1.1 ∉ ({[i]} : gset Z)) (delete (p, n) (dirents d))
              = delete (p, n) (dirents d)) as Hf.
      { apply map_filter_id. intros [a b] c [_ Hc]%lookup_delete_Some. simpl.
        intros ->%elem_of_singleton. by rewrite Hnochild in Hc. }
      repeat split; try done.
      + intros j Hj. cbn. rewrite map_lookup_filter. destruct (inodes d !! j) as [x|]; simpl; [|done].
        case_guard as Hg; [done|]. simpl in Hg. set_solver.
      + intros j o Hj. cbn. rewrite map_lookup_filter. destruct (object_maps d !! (j, o)) as [x|]; simpl; [|done].
        case_guard as Hg; [done|]. simpl in Hg. set_solver.
      + right. repeat split.
        * cbn. apply map_lookup_filter_None. right. intros x _. simpl. set_solver.
        * intros o. cbn. apply map_lookup_filter_None. right. intros x _. simpl. set_solver.
        * intros k Hk. cbn in Hk. apply map_lookup_filter_Some in Hk as [Hk _].
          apply Z.eqb_eq in Hlink. unfold link_count in Hlink. cbn in Hlink.
          assert (filter (fun row : Z * list byte * Z => row.2 = i) (delete (p, n) (dirents d)) = ∅) as He
            by (apply map_size_empty_inv; lia).
          apply (map_filter_empty_not_lookup _ _ k i He); [done|]. exact Hk.
        * intros l r Hlr Hri. apply Z.eqb_eq in Hlease. unfold lease_count in Hlease. cbn in Hlease.
          assert (filter (fun row : Z * leases_row => lr_inode row.2 = Some i) (leases d) = ∅) as He
            by (apply map_size_empty_inv; lia).
          by apply (map_filter_empty_not_lookup _ _ l r He).
    - injection Hdrop as <-. repeat split; try done. left. done. }
  destruct (shape_removed d d' (w_id w) (w_root_inode w) p n parent i row) as (Ht' & Hsk); try done.
  { destruct Hcase as [[? _]|(? & _ & ? & _)]; auto. }
  split; [|split].
  - split; [done|]. constructor.
    + intros j r Hj. destruct (decide (j = i)) as [->|Hne].
      * destruct Hcase as [[Hc _]|(Hc & _)]; [|congruence]. rewrite Hc in Hj. simplify_eq. by apply (ro_typed d Hr i).
      * rewrite Hin in Hj by done. by apply (ro_typed d Hr j).
    + intros p' n' c. rewrite Hde. intros [_ Hc]%lookup_delete_Some. by apply (ro_name d Hr) in Hc.
    + intros p' m1 m2 c1 c2. rewrite Hde. intros [_ H1]%lookup_delete_Some [_ H2]%lookup_delete_Some.
      by eapply (ro_fold d Hr).
    + intros j. destruct (decide (j = i)) as [->|Hne].
      * destruct Hcase as [[_ Hc]|(_ & Hc & _)].
        -- destruct (ro_run d Hr i) as (rs & Hrs & ?). exists rs. split; [|done]. intros o. by rewrite Hc.
        -- exists []. split; [intros o; rewrite Hc; unfold run_row; by destruct (0 <=? o)|].
           split; [constructor|]. exists 0. by constructor.
      * destruct (ro_run d Hr j) as (rs & Hrs & ?). exists rs. split; [|done].
        intros o. by rewrite Hom.
    + intros j o r Hjo. destruct (decide (j = i)) as [->|Hne].
      * destruct Hcase as [[Hc1 Hc2]|(_ & Hc & _)]; [|by rewrite Hc in Hjo].
        rewrite Hc2 in Hjo. destruct (ro_owner d Hr _ _ _ Hjo) as (ir & ? & ?). rewrite Hc1. naive_solver.
      * rewrite Hom in Hjo by done. rewrite Hin by done. by eapply (ro_owner d Hr).
    + intros l r j. rewrite Hle. intros H1 H2. destruct (ro_lease d Hr _ _ _ H1 H2) as [x Hx].
      destruct (decide (j = i)) as [->|Hne]; [|by rewrite Hin].
      destruct Hcase as [[-> _]|(_ & _ & _ & Hno)]; [done|]. by apply Hno in H1.
    + rewrite Hws. apply Hr.
  - intros q. simpl. rewrite (resolve_removed d d' Ht Hsk (w_root_inode w)
      (root_no_entry d Ht _ _ Hroot) p n parent Hp i row); try done. rewrite Hs. by case_decide.
  - intros q j Hq _. 
    assert (rooted_at d' (w_id w) (w_root_inode w)) as Hroot' by (unfold rooted_at; by rewrite Hws).
    destruct (decide (j = i)) as [->|Hne]; [|apply node_at_same; auto].
    destruct Hcase as [[Hc1 Hc2]|(_ & _ & Hno & _)]; [apply node_at_same; [done|congruence|done]|].
    exfalso. unfold s', view in Hq. simpl in Hq. apply fmap_Some in Hq as ([j k] & Hq & ->).
    destruct q as [|m q _] using rev_ind.
    + injection Hq as <- _. by apply (root_no_entry d Ht _ _ Hroot) in Hn.
    + rewrite resolve_snoc in Hq. destruct (resolve_segments d' _ q) as [x|]; [|done].
      apply step_Some in Hq as (_ & Hent & _). by apply Hno in Hent.
Qed.
End change.

(** ** Renaming *)

Lemma join_app_cons sep a b : a <> [] -> b <> [] -> join sep (a ++ b) = join sep a ++ sep :: join sep b.
Proof.
  intros Ha Hb. induction a as [|x a IH]; [done|]. destruct a as [|y a].
  - destruct b; [done|]. done.
  - change (join sep ((x :: y :: a) ++ b)) with (x ++ sep :: join sep ((y :: a) ++ b)).
    rewrite IH by done. simpl. by rewrite <-app_assoc.
Qed.

Lemma strip_prefix_app a b : strip_prefix a (a ++ b) = Some b.
Proof. induction a as [|x a IH]; simpl; [done|]. by rewrite decide_True. Qed.

(** The textual check of [Rename] is the check on segments. *)
Lemma not_into_self `{Unicode} from to :
  validate_path from = Ok tt -> validate_path to = Ok tt ->
  bool_decide (to = from) || starts_with (from ++ [slash]) to = false ->
  ~ segs from `prefix_of` segs to.
Proof.
  intros Hf Ht [Hne Hs]%orb_false_iff [rest Hpre]. apply bool_decide_eq_false in Hne.
  pose proof (segs_join _ Hf) as Jf. pose proof (segs_join _ Ht) as Jt. rewrite Hpre in Jt.
  assert (segs from <> []) as Hn.
  { unfold segs. rewrite decide_False by by apply valid_path_nonempty. apply split_on_nonempty. }
  destruct rest as [|r rest]; [rewrite app_nil_r in Jt; congruence|].
  rewrite join_app_cons, Jf in Jt by done. unfold starts_with in Hs. rewrite <-Jt in Hs.
  change (slash :: join slash (r :: rest)) with ([slash] ++ join slash (r :: rest)) in Hs.
  by rewrite app_assoc, strip_prefix_app in Hs.
Qed.

Section rename.
Context `{Unicode} (d d' : db) (w : workspace_row_t).
Context (Hinv : db_inv d) (Hroot : rooted_at d (w_id w) (w_root_inode w)).
Let s := view d (w_root_inode w).
Let s' := view d' (w_root_inode w).

Lemma rename_inv from to source old_parent po no new_parent pn nn :
  validate_path from = Ok tt ->
  resolve_segments d (top (w_root_inode w)) (segs from) = Some source ->
  (ri_kind source = KIND_DIRECTORY -> ~ segs from `prefix_of` segs to) ->
  segs from = old_parent ++ [no] ->
  resolve_segments d (top (w_root_inode w)) old_parent = Some (ResolvedInode po KIND_DIRECTORY) ->
  dirents d !! (po, no) = Some (ri_id source) ->
  new_leaf d (w_root_inode w) to pn nn new_parent ->
  update_dirent d pn nn po no = Ok d' ->
  db_inv d' /\ kept_but None s s' /\
  forall q, names s' q =
    if decide (segs to `prefix_of` q) then names s (segs from ++ drop (length (segs to)) q)
    else if decide (segs from `prefix_of` q) then None
    else names s q.
Proof using Hinv Hroot.
  intros Hv Hsrc Hself Hsf Ho Hold Hl Hup. pose proof Hinv as [Ht Hr].
  destruct source as [i k]. simpl in *.
  destruct (resolved_row d Ht _ _ Hroot _ _ _ Hsrc) as (row & Hrow & Hrk & Hrw).
  unfold update_dirent in Hup. rewrite Hold in Hup. case_decide as Hfree; [|done]. injection Hup as Hd'.
  assert (~ (old_parent ++ [no]) `prefix_of` new_parent) as Hinto.
  { rewrite <-Hsf. intros [rest Hrest]. destruct (Z.eq_dec k KIND_DIRECTORY) as [->|Hk].
    - destruct Hself; [done|]. rewrite (nl_segs _ _ _ _ _ _ Hl), Hrest. exists (rest ++ [nn]).
      by rewrite <-app_assoc.
    - pose proof (nl_parent _ _ _ _ _ _ Hl) as Hnp. rewrite Hrest, resolve_app, Hsrc in Hnp.
      destruct rest as [|x rest]; [simplify_eq/=; congruence|].
      rewrite resolve_cons in Hnp. unfold step in Hnp. simpl in Hnp.
      by rewrite (proj2 (Z.eqb_neq k KIND_DIRECTORY) Hk) in Hnp. }
  assert (dirents d' = <[(pn, nn) := i]> (delete (po, no) (dirents d))) as Hde by by rewrite <-Hd'.
  assert (inodes d' = inodes d) as Hin by by rewrite <-Hd'.
  destruct (shape_moved d d' (w_id w) (w_root_inode w) po pn i no nn old_parent new_parent row)
    as [Ht' Hsk]; try done; try apply Hl.
  { by rewrite <-Hd'. }
  assert (forall p m c, dirents d' !! (p, m) = Some c ->
    (p = pn /\ m = nn) \/ dirents d !! (p, m) = Some c) as Hinv2.
  { intros p m c. rewrite Hde, lookup_insert. case_decide; [simplify_eq; auto|].
    rewrite lookup_delete_Some. naive_solver. }
  split; [|split].
  - split; [done|]. subst d'. constructor; try apply Hr.
    + intros p m c [[-> ->]|Hc]%Hinv2; [apply Hl|by apply (ro_name d Hr) in Hc].
    + intros p m1 m2 c1 c2 [[-> ->]|H1]%Hinv2 [[? ->]|H2]%Hinv2 Hf; subst; try done.
      * by apply (nl_fold _ _ _ _ _ _ Hl) in H2.
      * by apply (nl_fold _ _ _ _ _ _ Hl) in H1.
      * by eapply (ro_fold d Hr).
  - intros q j Hq _. subst d'. by apply node_at_same.
  - intros q. simpl. rewrite (nl_segs _ _ _ _ _ _ Hl), Hsf.
    rewrite (resolve_moved d d' Ht Hsk (w_root_inode w) (root_no_entry d Ht _ _ Hroot)
      po pn i no nn old_parent new_parent Ho (nl_parent _ _ _ _ _ _ Hl) Hold
      (nl_absent _ _ _ _ _ _ Hl) Hde row Hrow ltac:(by rewrite Hin, Hrow) Hinto).
    by repeat case_decide.
Qed.
End rename.

(** ** Every mutation *)

(** What a caller must pass: records that form a run, and a path to remove. *)
Definition mutation_ok (m : mutation) : Prop :=
  match m with
  | CreateFile _ _ _ records | SetRecords _ records => wf_run records
  | Truncate _ length => in_u64 length
  | Rmdir path => path <> []
  | _ => True
  end.

(** The types of a mutation's arguments, and that records form a run. *)
Definition mutation_args (m : mutation) : Prop :=
  match m with
  | CreateFile _ _ _ records | SetRecords _ records => wf_run records
  | Truncate _ length => in_u64 length
  | _ => True
  end.

(** What [Rmdir] of the empty path does, which takes the root for the directory
    to remove: the workspace had no name; a leased root stays and nothing
    changes, any other is deleted from under the workspace's row. *)
Definition root_removed (d d' : db) (root : Z) : Prop :=
  (forall name, dirents d !! (root, name) = None) /\
  ((exists lease row, leases d !! lease = Some row /\ lr_inode row = Some root) /\ d' = d \/
   (forall lease row, leases d !! lease = Some row -> lr_inode row <> Some root) /\
   workspaces d' = workspaces d /\ inodes d' = delete root (inodes d) /\ dirents d' = dirents d).

Section apply.
Context `{Unicode, Unordered, Rowid}.

Lemma create_node_Ok d w p n row d' i :
  create_node d w (p, n) row = Ok (d', i) ->
  inodes d !! i = None /\ i = new_rowid (dom (inodes d)) /\
  d' = with_dirents (<[(p, n) := i]>) (with_inodes (<[i := row]>) d).
Proof.
  unfold create_node, insert_inode, insert_dirent. case_decide; [|done]. intros [= <- <-].
  split; [|done]. apply not_elem_of_dom, new_rowid_fresh.
Qed.

Lemma fresh_rows d i o : rows_ok d -> inodes d !! i = None -> object_maps d !! (i, o) = None.
Proof.
  intros Hr Hi. destruct (object_maps d !! (i, o)) as [row|] eqn:E; [|done].
  destruct (ro_owner d Hr _ _ _ E) as (? & ? & _). congruence.
Qed.

Lemma wf_run_nil : wf_run [].
Proof. split; [constructor|]. exists 0. by constructor. Qed.

(** The cases that create a node without a record map. *)
Lemma apply_create d d' w path row i p n parent :
  db_inv d -> rooted_at d (w_id w) (w_root_inode w) ->
  new_leaf d (w_root_inode w) path p n parent ->
  row_typed row -> ir_workspace_id row = w_id w ->
  create_node d w (p, n) row = Ok (d', i) ->
  db_inv d' /\ unnamed (view d (w_root_inode w)) i /\
  names_plus (view d (w_root_inode w)) (view d' (w_root_inode w)) path i /\
  kept_but (Some i) (view d (w_root_inode w)) (view d' (w_root_inode w)) /\ inodes d' !! i = Some row.
Proof.
  intros Hinv Hroot Hl Hty Hw (Hi & _ & ->)%create_node_Ok. pose proof Hinv as [_ Hr].
  set (d' := with_dirents _ _).
  assert (inodes d' !! i = Some row) as Hrow by (cbn; by rewrite lookup_insert_eq).
  destruct (create_inv d d' w Hinv Hroot path p n parent Hl i row [] Hi Hty Hw wf_run_nil
    ltac:(done) (eq_refl _) (eq_refl _) (eq_refl _) (eq_refl _)) as (? & ? & ? & ?); [|done].
  intros j o. cbn. case_decide; [subst j|done]. rewrite (fresh_rows d i o Hr Hi).
  unfold run_row. by destruct (0 <=? o).
Qed.

Context (d : db) (w : workspace_row_t) (Hinv : db_inv d)
  (Hroot : rooted_at d (w_id w) (w_root_inode w)).

(** The invariant and the abstract step together. *)
Definition refines (m : mutation) (d' : db) : Prop :=
  db_inv d' /\ spec_mutation m (view d (w_root_inode w)) (view d' (w_root_inode w)).

Lemma new_leaf_view path leaf :
  resolve_new_leaf d w path = Ok leaf ->
  exists parent, new_leaf d (w_root_inode w) path leaf.1 leaf.2 parent /\
    creatable (view d (w_root_inode w)) path.
Proof using Hinv Hroot.
  destruct leaf as [p n]. intros (parent & Hl)%resolve_new_leaf_Ok. exists parent. split; [done|].
  by eapply view_creatable.
Qed.

Lemma none_contract : exists contract, wf_stamp contract /\ None = contract_to_row contract.
Proof. by exists StampNone. Qed.

Lemma apply_mkdir path d' : apply_mutation d w (Mkdir path) = Ok d' -> refines (Mkdir path) d'.
Proof using Hinv Hroot.
  cbn [apply_mutation]. destruct (resolve_new_leaf d w path) as [[p n]|] eqn:El; [|done].
  apply new_leaf_view in El as (parent & Hl & Hc). simpl in Hl.
  destruct (create_node d w (p, n) (directory_row w)) as [[d1 i]|] eqn:Ec; [|done]. intros [= <-].
  destruct (apply_create d d1 w path (directory_row w) i p n parent Hinv Hroot Hl) as (Hi & Hu & Hp & Hk & Hrow);
    [|done|exact Ec|].
  { split; [by left|]. split; [apply none_contract|]. by left. }
  split; [done|]. split; [done|]. exists i. split; [done|]. split; [done|]. split; [|done].
  simpl. unfold node_at. by rewrite Hrow.
Qed.

Lemma apply_symlink path target d' :
  apply_mutation d w (MSymlink path target) = Ok d' -> refines (MSymlink path target) d'.
Proof using Hinv Hroot.
  cbn [apply_mutation]. destruct (validate_symlink_target target) as [[]|]; [|done]. cbn [map_err].
  destruct (resolve_new_leaf d w path) as [[p n]|] eqn:El; [|done].
  apply new_leaf_view in El as (parent & Hl & Hc). simpl in Hl.
  destruct (create_node d w (p, n) (symlink_row w target)) as [[d1 i]|] eqn:Ec; [|done]. intros [= <-].
  destruct (apply_create d d1 w path (symlink_row w target) i p n parent Hinv Hroot Hl) as (Hi & Hu & Hp & Hk & Hrow);
    [|done|exact Ec|].
  { split; [by left|]. split; [apply none_contract|]. right. right. simpl. eauto. }
  split; [done|]. split; [done|]. exists i. split; [done|]. split; [done|]. split; [|done].
  simpl. unfold node_at. by rewrite Hrow.
Qed.

Lemma apply_create_file path x pl records d' :
  wf_run records ->
  apply_mutation d w (CreateFile path x pl records) = Ok d' -> refines (CreateFile path x pl records) d'.
Proof using Hinv Hroot.
  intros Hwf. cbn [apply_mutation]. destruct (resolve_new_leaf d w path) as [[p n]|] eqn:El; [|done].
  apply new_leaf_view in El as (parent & Hl & Hc). simpl in Hl.
  destruct (create_node d w (p, n) (file_row w x pl)) as [[d1 i]|] eqn:Ec; [|done]. intros [= <-].
  apply create_node_Ok in Ec as (Hi & _ & ->). set (d1 := with_dirents _ _).
  assert (row_typed (file_row w x pl)) as Hty.
  { split; [destruct x; auto|]. split; [apply none_contract|]. right. left. simpl. eauto. }
  destruct (create_inv d (insert_records d1 i records) w Hinv Hroot path p n parent Hl i (file_row w x pl) records)
    as (Hi' & Hu & Hp & Hk); try done.
  { intros j o. by rewrite insert_records_lookup. }
  split; [done|]. split; [done|]. exists i. split; [done|]. split; [done|]. split; [|done].
  destruct (node_at_run (insert_records d1 i records) i (file_row w x pl) records) as (p' & Hp' & Hn);
    [cbn; by rewrite lookup_insert_eq|done|done|apply insert_records_run|done|].
  simpl. rewrite Hn. simpl in Hp'. injection Hp' as Hp'.
  assert (p' = pl) as -> by (rewrite <-(planner_row_round_trip p'), <-Hp'; apply planner_row_round_trip).
  by destruct x.
Qed.

Lemma apply_hardlink path target d' :
  apply_mutation d w (MHardlink path target) = Ok d' -> refines (MHardlink path target) d'.
Proof using Hinv Hroot.
  cbn [apply_mutation]. destruct (resolve_file d w target) as [i|] eqn:Ei; [|done].
  apply resolve_file_Ok in Ei as (Hi & Hk & _).
  destruct (view_file d (w_id w) _ Hinv Hroot _ _ Hi Hk) as (row & p0 & rs & Hrow & Hrk & Hrw & Hnm & _ & _ & _ & Hnode).
  destruct (resolve_new_leaf d w path) as [[p n]|] eqn:El; [|done].
  apply new_leaf_view in El as (parent & Hl & Hc). simpl in Hl.
  unfold insert_dirent. case_decide; [|done]. intros [= <-].
  destruct (hardlink_inv d _ w Hinv Hroot path p n parent (ri_id i) row Hl Hrow Hrk Hrw eq_refl)
    as (Hi' & Hp & Hkept).
  split; [done|]. split; [done|]. eexists (ri_id i), _, _, _, _. split; [exact Hnm|]. by split.
Qed.

(** Replacing a file's record map. *)
Lemma apply_records path i records :
  resolve_file d w path = Ok i -> wf_run records ->
  let d' := insert_records d (ri_id i) records in
  db_inv d' /\ exists x p c r, names (view d (w_root_inode w)) (segs path) = Some (ri_id i) /\
    nodes (view d (w_root_inode w)) (ri_id i) = Some (AFile x p c r) /\
    read_records d (ri_id i) = Ok r /\ wf_run r /\
    names_same (view d (w_root_inode w)) (view d' (w_root_inode w)) /\
    nodes (view d' (w_root_inode w)) (ri_id i) = Some (AFile x p c records) /\
    kept_but (Some (ri_id i)) (view d (w_root_inode w)) (view d' (w_root_inode w)).
Proof using Hinv Hroot.
  intros (Hi & Hk & _)%resolve_file_Ok Hwf d'. pose proof Hinv as [_ Hr].
  destruct (view_file d (w_id w) _ Hinv Hroot _ _ Hi Hk)
    as (row & p & rs & Hrow & Hrk & Hrw & Hnm & Hpl & Hrun & Hrs & Hnode).
  destruct (rewrite_inv d d' w Hinv (ri_id i) row row records) as (Hi' & Hsame & Hkept); try done.
  { by eapply (ro_typed d Hr). }
  { unfold d'. cbn. by rewrite insert_id. }
  { intros j o. apply insert_records_lookup. }
  split; [done|]. eexists _, p, _, rs. split; [done|]. split; [exact Hnode|].
  split; [by apply read_records_run; [|apply Hrs]|]. split; [done|]. split; [done|]. split; [|done].
  destruct (node_at_run d' (ri_id i) row records) as (p' & Hp' & Hn); [done|done| | |done|].
  - by eapply (ro_typed d Hr).
  - apply insert_records_run.
  - simpl. rewrite Hn, Hpl in *. simplify_eq.
    by rewrite <-(planner_row_round_trip p'), <-Hp', planner_row_round_trip.
Qed.

Lemma apply_set_records path records d' :
  wf_run records ->
  apply_mutation d w (SetRecords path records) = Ok d' -> refines (SetRecords path records) d'.
Proof using Hinv Hroot.
  intros Hwf. cbn [apply_mutation]. destruct (resolve_file d w path) as [i|] eqn:Ei; [|done]. intros [= <-].
  destruct (apply_records path i records Ei Hwf) as (Hi & x & p & c & r & Hn & Hnode & _ & _ & Hs & Hn' & Hk).
  split; [done|]. by exists (ri_id i), x, p, c, r.
Qed.

Lemma apply_truncate path length d' :
  in_u64 length ->
  apply_mutation d w (Truncate path length) = Ok d' -> refines (Truncate path length) d'.
Proof using Hinv Hroot.
  intros Hlen. cbn [apply_mutation]. destruct (resolve_file d w path) as [i|] eqn:Ei; [|done].
  destruct (read_records d (ri_id i)) as [records|] eqn:Er; [|done].
  destruct (truncate_records records length) as [cut|] eqn:Et; [|done].
  destruct (validate_record_run cut length) as [[]|] eqn:Ev; [|done]. cbn [map_err]. intros [= <-].
  assert (wf_run records) as Hrs.
  { destruct (apply_records path i [] Ei wf_run_nil) as (_ & ? & ? & ? & r & _ & _ & Hr & Hwf & _). congruence. }
  destruct Hrs as [Hwf [size Hsize]]. pose proof (wf_run_fits _ _ Hwf Hsize) as Hfit.
  pose proof (truncate_records_wf _ _ _ Hwf Hfit Hlen Et) as Hcut.
  destruct (apply_records path i cut Ei) as (Hi & x & p & c & r & Hn & Hnode & Hr & _ & Hs & Hn' & Hk).
  { split; [done|]. exists length. by apply validate_record_run_iff. }
  split; [done|]. exists (ri_id i), x, p, c, r, cut. repeat (split; [done|]).
  intros O. pose proof (truncate_records_spec O records length Hfit Hlen) as Hspec. rewrite Et in Hspec.
  assert (r = records) as -> by congruence. apply Hspec.
Qed.

Lemma apply_set_executable path x d' :
  apply_mutation d w (SetExecutable path x) = Ok d' -> refines (SetExecutable path x) d'.
Proof using Hinv Hroot.
  cbn [apply_mutation]. destruct (resolve_file d w path) as [i|] eqn:Ei; [|done]. intros [= <-].
  pose proof Hinv as [_ Hr]. apply resolve_file_Ok in Ei as (Hi & Hk & _).
  destruct (view_file d (w_id w) _ Hinv Hroot _ _ Hi Hk)
    as (row & p & rs & Hrow & Hrk & Hrw & Hnm & Hpl & Hrun & Hrs & Hnode).
  assert (row_typed (set_executable x row)) as Hty.
  { pose proof (ro_typed d Hr _ _ Hrow) as (_ & Hc & Hkind). split; [destruct x; auto|]. by split. }
  set (d' := with_inodes _ d).
  assert (inodes d' = <[ri_id i := set_executable x row]> (inodes d)) as Hin.
  { apply map_eq. intros j. cbn. rewrite lookup_alter, lookup_insert.
    case_decide; [subst j; by rewrite Hrow|done]. }
  assert (run_at d' (ri_id i) rs) as Hrun' by apply Hrun.
  destruct (rewrite_inv d d' w Hinv (ri_id i) row (set_executable x row) rs) as (Hi' & Hsame & Hkept); try done.
  { intros j o. case_decide; [subst j; apply Hrun|done]. }
  split; [done|]. eexists (ri_id i), _, p, _, rs. split; [done|]. split; [exact Hnode|]. split; [done|].
  split; [|done].
  destruct (node_at_run d' (ri_id i) (set_executable x row) rs) as (p' & Hp' & Hn);
    [by rewrite Hin, lookup_insert_eq|done..|].
  simpl in *. rewrite Hn, Hpl in *. simplify_eq.
  assert (p' = p) as -> by (by rewrite <-(planner_row_round_trip p'), <-Hp', planner_row_round_trip).
  by destruct x.
Qed.

Lemma apply_remove path i d' :
  validate_path path = Ok tt ->
  resolve_segments d (top (w_root_inode w)) (segs path) = Some i ->
  (ri_kind i = KIND_DIRECTORY -> forall m, dirents d !! (ri_id i, m) = None) ->
  remove_entry d w path (ri_id i) = Ok d' ->
  db_inv d' /\
  (forall q, names (view d' (w_root_inode w)) q =
     if decide (q = segs path) then None else names (view d (w_root_inode w)) q) /\
  kept_but None (view d (w_root_inode w)) (view d' (w_root_inode w)).
Proof using Hinv Hroot.
  intros Hv Hi Hleaf. unfold remove_entry. pose proof Hinv as [Ht _].
  destruct (parent_of_resolved d w path) as [[p n]|] eqn:Ep; [|done].
  destruct (parent_of_resolved_Ok _ _ _ _ _ _ Hv Hi Ep) as (parent & Hs & Hp & He). intros Hdrop.
  destruct i as [i k]. destruct (resolved_row d Ht _ _ Hroot _ _ _ Hi) as (row & Hrow & Hk & _). simpl in *.
  eapply remove_inv; try done. by rewrite Hk.
Qed.

Lemma resolved_node q i : resolve_segments d (top (w_root_inode w)) q = Some i ->
  exists a, node_at d (ri_id i) = Some a /\ (a = ADirectory <-> ri_kind i = KIND_DIRECTORY).
Proof using Hinv Hroot.
  intros Hq. pose proof Hinv as [Ht Hr]. destruct i as [i k]. simpl.
  destruct (resolved_row d Ht _ _ Hroot _ _ _ Hq) as (row & Hrow & Hk & _).
  pose proof (ro_typed d Hr _ _ Hrow) as Hty. destruct (ro_run d Hr i) as (rs & Hrun & Hwf).
  destruct Hty as (? & ? & [Hd|[[Hf Hp]|[Hs [t Ht2]]]]).
  - exists ADirectory. unfold node_at. rewrite Hrow, Hd. by rewrite <-Hk, Hd.
  - destruct (node_at_run d i row rs Hrow Hf) as (p & _ & Hn); [split_and!; auto|done..|].
    eexists. split; [exact Hn|]. rewrite <-Hk, Hf. done.
  - exists (ASymlink t). unfold node_at. rewrite Hrow, Hs, Ht2. rewrite <-Hk, Hs. done.
Qed.

Lemma apply_unlink path d' : apply_mutation d w (Unlink path) = Ok d' -> refines (Unlink path) d'.
Proof using Hinv Hroot.
  cbn [apply_mutation]. destruct (resolve_existing d w path) as [i|] eqn:Ei; [|done].
  apply resolve_existing_Ok in Ei as [Hi Hv].
  destruct (Z.eqb_spec (ri_kind i) KIND_DIRECTORY) as [|Hk]; [done|]. intros Hrem.
  assert (path <> []) as Hne by (intros ->; simpl in Hi; by simplify_eq).
  destruct (apply_remove path i d' (Hv Hne) Hi ltac:(done) Hrem) as (Hi' & Hn & Hkept).
  destruct (resolved_node _ _ Hi) as (a & Ha & Had).
  split; [done|]. exists (ri_id i), a. split; [cbn [view names]; by rewrite Hi|]. split; [done|].
  split; [by rewrite Had|]. by split.
Qed.

Lemma lease_count_0 (d0 : db) i :
  lease_count d0 i = 0 <-> forall l row, leases d0 !! l = Some row -> lr_inode row <> Some i.
Proof.
  unfold lease_count. rewrite <-Nat2Z.inj_0, Nat2Z.inj_iff, map_size_empty_iff, map_empty.
  setoid_rewrite map_lookup_filter_None. split.
  - intros Hno l row Hl Hi. by destruct (Hno l) as [?|Hn]; [congruence|apply (Hn row)].
  - intros Hno l. right. intros row Hl Hi. by apply (Hno l row).
Qed.
Lemma lease_count_leased (d0 : db) i :
  lease_count d0 i <> 0 -> exists l row, leases d0 !! l = Some row /\ lr_inode row = Some i.
Proof.
  unfold lease_count. intros Hne.
  destruct (map_choose (filter (fun row => lr_inode row.2 = Some i) (leases d0))) as (l & row & Hl).
  { intros He. rewrite He in Hne. done. }
  apply map_lookup_filter_Some in Hl as [Hl Hi]. by exists l, row.
Qed.

Lemma child_count_0 i : child_count d i = 0 -> forall name, dirents d !! (i, name) = None.
Proof.
  intros Hc m. destruct (dirents d !! (i, m)) as [c|] eqn:Ec; [|done]. unfold child_count in Hc.
  assert (filter (fun row : Z * list byte * Z => row.1.1 = i) (dirents d) = ∅) as He
    by (apply map_size_empty_inv; lia).
  exfalso. by apply (map_filter_empty_not_lookup _ _ (i, m) c He).
Qed.


Lemma apply_rmdir path d' :
  path <> [] -> apply_mutation d w (Rmdir path) = Ok d' -> refines (Rmdir path) d'.
Proof using Hinv Hroot.
  intros Hne. cbn [apply_mutation]. destruct (resolve_existing d w path) as [i|] eqn:Ei; [|done].
  apply resolve_existing_Ok in Ei as [Hi Hv].
  destruct (Z.eqb_spec (ri_kind i) KIND_DIRECTORY) as [Hk|]; [|done]. cbn [negb].
  destruct (Z.eqb_spec (child_count d (ri_id i)) 0) as [Hc|]; [|done]. cbn [negb]. intros Hrem.
  pose proof (child_count_0 _ Hc) as Hleaf.
  destruct (apply_remove path i d' (Hv Hne) Hi (fun _ => Hleaf) Hrem) as (Hi' & Hn & Hkept).
  destruct (resolved_node _ _ Hi) as (a & Ha & Had). apply Had in Hk as Ha'. subst a.
  split; [done|]. exists (ri_id i). split; [cbn [view names]; by rewrite Hi|]. split; [done|].
  split; [|by split]. intros n. simpl. rewrite resolve_snoc, Hi. unfold step. rewrite Hk, Hleaf. done.
Qed.

Lemma apply_rmdir_root d' : apply_mutation d w (Rmdir []) = Ok d' -> root_removed d d' (w_root_inode w).
Proof using Hinv Hroot.
  cbn [apply_mutation]. change (resolve_existing d w []) with (Ok (E := workspace_error) (root_of w)).
  cbn [ri_kind root_of ri_id]. change (KIND_DIRECTORY =? KIND_DIRECTORY) with true. cbn [negb].
  destruct (Z.eqb_spec (child_count d (w_root_inode w)) 0) as [Hc|]; [|done]. cbn [negb].
  change (remove_entry d w [] (w_root_inode w)) with (drop_inode_if_orphaned (delete_dirent d (w_root_inode w) []) (w_root_inode w)).
  pose proof (child_count_0 _ Hc) as Hno. unfold delete_dirent.
  replace (with_dirents (delete (w_root_inode w, [])) d) with d
    by (destruct d; unfold with_dirents; cbn in *; by rewrite delete_id).
  unfold drop_inode_if_orphaned. intros Hd. split; [done|].
  destruct (Z.eqb_spec (link_count d (w_root_inode w)) 0) as [_|Hl].
  2:{ exfalso. apply Hl. unfold link_count. rewrite <-Nat2Z.inj_0, Nat2Z.inj_iff, map_size_empty_iff, map_empty.
      intros k. apply map_lookup_filter_None. right. intros c Hk Hcr. simpl in Hcr. subst c.
      by apply (root_no_entry d (proj1 Hinv) _ _ Hroot k). }
  cbn in Hd. destruct (Z.eqb_spec (lease_count d (w_root_inode w)) 0) as [Hz|Hz].
  - right. split; [by apply lease_count_0|]. unfold delete_inode in Hd. case_decide; [|done].
    injection Hd as <-. cbn. split; [done|]. split.
    + apply map_eq. intros i. apply option_eq. intros row.
      rewrite lookup_delete_Some, map_lookup_filter_Some. cbn. set_solver.
    + apply map_filter_id. intros [p n] c Hk. cbn. intros ->%elem_of_singleton. by rewrite Hno in Hk.
  - left. split; [by apply lease_count_leased|]. congruence.
Qed.
Lemma apply_rename from to d' :
  apply_mutation d w (Rename from to) = Ok d' -> refines (Rename from to) d'.
Proof using Hinv Hroot.
  cbn [apply_mutation]. destruct (resolve_existing d w from) as [source|] eqn:Ei; [|done].
  apply resolve_existing_Ok in Ei as [Hi Hv].
  match goal with |- (if ?b then _ else _) = _ -> _ => destruct b eqn:Eself; [done|] end.
  destruct (resolve_new_leaf d w to) as [[pn nn]|] eqn:El; [|done].
  apply new_leaf_view in El as (new_parent & Hl & Hc). simpl in Hl.
  destruct (parent_of_resolved d w from) as [[po no]|] eqn:Ep; [|done]. intros Hup.
  destruct (resolved_node _ _ Hi) as (a & Ha & Had).
  destruct (decide (from = [])) as [->|Hne].
  - injection Ep as <- <-. unfold update_dirent in Hup.
    destruct (dirents d !! (w_root_inode w, [])) as [c|] eqn:Ec.
    { apply (ro_name d (proj2 Hinv)) in Ec as [_ Hsafe]. by destruct (ss_nonempty _ Hsafe). }
    injection Hup as <-. split; [done|]. exists (ri_id source). split; [cbn [view names]; by rewrite Hi|].
    split; [done|]. split; [by intros q j|]. by rewrite decide_True.
  - destruct (parent_of_resolved_Ok _ _ _ _ _ _ (Hv Hne) Hi Ep) as (old_parent & Hs & Hp & He).
    assert (ri_kind source = KIND_DIRECTORY -> ~ segs from `prefix_of` segs to) as Hself.
    { intros Hk. rewrite Hk in Eself. apply (not_into_self from to (Hv Hne)); [apply Hl|done]. }
    destruct (rename_inv d d' w Hinv Hroot from to source old_parent po no new_parent pn nn)
      as (Hi' & Hkept & Hn); [by auto..|].
    split; [done|]. exists (ri_id source). split; [cbn [view names]; by rewrite Hi|]. split; [done|]. split; [done|].
    rewrite decide_False by done. split; [|done]. intros Hdir. apply Hself.
    simpl in Hdir. apply Had. congruence.
Qed.

(** Every mutation that succeeds is the abstract one and keeps the invariant. *)
Lemma apply_mutation_refines m d' :
  mutation_ok m -> apply_mutation d w m = Ok d' -> refines m d'.
Proof using Hinv Hroot.
  destruct m; simpl; intros Hm;
    [ apply apply_mkdir | by apply apply_create_file | by apply apply_set_records
    | by apply apply_truncate | apply apply_rename | apply apply_unlink | by apply apply_rmdir
    | apply apply_symlink | apply apply_hardlink | apply apply_set_executable ].
Qed.

(** And the one mutation that is not excluded by its arguments alone. *)
Lemma apply_mutation_any m d' :
  mutation_args m -> apply_mutation d w m = Ok d' ->
  (m <> Rmdir [] -> refines m d') /\ (m = Rmdir [] -> root_removed d d' (w_root_inode w)).
Proof using Hinv Hroot.
  intros Hm Ha. split; [|intros ->; by apply apply_rmdir_root]. intros Hne.
  apply apply_mutation_refines; [|done]. destruct m; try done. cbn. congruence.
Qed.

(** What belongs to another workspace is not touched. *)
Record local_to (v : Z) (d d' : db) : Prop := {
  lt_workspaces : workspaces d' = workspaces d;
  lt_dirents i row n : inodes d !! i = Some row -> ir_workspace_id row <> v ->
    dirents d' !! (i, n) = dirents d !! (i, n);
  lt_inodes i row : inodes d !! i = Some row -> ir_workspace_id row <> v -> inodes d' !! i = Some row;
  lt_maps i row o : inodes d !! i = Some row -> ir_workspace_id row <> v ->
    object_maps d' !! (i, o) = object_maps d !! (i, o)
}.

Lemma local_create p n row i d' rs :
  (exists prow, inodes d !! p = Some prow /\ ir_workspace_id prow = w_id w) ->
  create_node d w (p, n) row = Ok (d', i) ->
  local_to (w_id w) d d' /\ local_to (w_id w) d (insert_records d' i rs).
Proof using Hinv.
  intros (prow & Hp & Hpw) (Hi & _ & ->)%create_node_Ok.
  split; constructor; try done; intros j r; intros; cbn [inodes dirents with_dirents with_inodes
    insert_records with_object_maps]; rewrite ?insert_records_lookup;
    rewrite ?decide_False, ?lookup_insert_ne by congruence; done.
Qed.

Lemma local_records q i rs :
  resolve_segments d (top (w_root_inode w)) q = Some i ->
  local_to (w_id w) d (insert_records d (ri_id i) rs).
Proof using Hinv Hroot.
  intros Hq. destruct i as [i k]. destruct (resolved_row d (proj1 Hinv) _ _ Hroot _ _ _ Hq) as (row & Hrow & _ & Hw).
  constructor; try done. intros j r o Hj Hne. rewrite insert_records_lookup, decide_False; [done|].
  simpl. congruence.
Qed.

Lemma local_remove q p n i d' :
  (exists row, inodes d !! p = Some row /\ ir_workspace_id row = w_id w) ->
  resolve_segments d (top (w_root_inode w)) q = Some i ->
  drop_inode_if_orphaned (delete_dirent d p n) (ri_id i) = Ok d' -> local_to (w_id w) d d'.
Proof using Hinv Hroot.
  intros (prow & Hp & Hpw) Hq. destruct i as [i k]. simpl.
  destruct (resolved_row d (proj1 Hinv) _ _ Hroot _ _ _ Hq) as (row & Hrow & _ & Hw).
  assert (forall j r, inodes d !! j = Some r -> ir_workspace_id r <> w_id w -> j <> i) as Hne by congruence.
  assert (forall j r n', inodes d !! j = Some r -> ir_workspace_id r <> w_id w ->
    delete (p, n) (dirents d) !! (j, n') = dirents d !! (j, n')) as Hdel.
  { intros j r n' Hj Hjw. rewrite lookup_delete_ne; [done|]. congruence. }
  unfold drop_inode_if_orphaned, delete_inode. destruct (_ && _); [case_decide; [|done]|]; intros [= <-].
  - constructor; [done|..].
    + intros j r n' Hj Hjw. cbn. rewrite map_lookup_filter, (Hdel j r) by done.
      destruct (dirents d !! (j, n')); simpl; [|done]. rewrite option_guard_True; [done|].
      simpl. specialize (Hne j r Hj Hjw). set_solver.
    + intros j r Hj Hjw. cbn. rewrite map_lookup_filter, Hj. simpl.
      rewrite option_guard_True; [done|]. simpl. specialize (Hne j r Hj Hjw). set_solver.
    + intros j r o Hj Hjw. cbn. rewrite map_lookup_filter. destruct (object_maps d !! (j, o)); simpl; [|done].
      rewrite option_guard_True; [done|]. simpl. specialize (Hne j r Hj Hjw). set_solver.
  - by constructor.
Qed.

Lemma parent_row q i k : resolve_segments d (top (w_root_inode w)) q = Some (ResolvedInode i k) ->
  exists row, inodes d !! i = Some row /\ ir_workspace_id row = w_id w.
Proof using Hinv Hroot.
  intros Hq. destruct (resolved_row d (proj1 Hinv) _ _ Hroot _ _ _ Hq) as (row & ? & _ & ?). eauto.
Qed.

(** Mutations of one workspace are invisible in every other. *)
Lemma apply_mutation_local m d' : apply_mutation d w m = Ok d' -> mutation_ok m -> local_to (w_id w) d d'.
Proof using Hinv Hroot.
  assert (forall p n c d', (exists row, inodes d !! p = Some row /\ ir_workspace_id row = w_id w) ->
    insert_dirent d p n c = Ok d' -> local_to (w_id w) d d') as Hlink.
  { intros p n c d1 (row & Hp & Hw). unfold insert_dirent. case_decide; [|done]. intros [= <-].
    constructor; try done. intros i r n' Hi Hne. cbn. rewrite lookup_insert_ne; [done|]. congruence. }
  destruct m as [path|path x pl rs|path rs|path len|from to|path|path|path target|path target|path x];
    cbn [apply_mutation mutation_ok]; intros Ha Hm.
  - destruct (resolve_new_leaf d w path) as [[p n]|] eqn:El; [|done].
    apply new_leaf_view in El as (parent & Hl & _). simpl in Hl.
    destruct (create_node d w (p, n) (directory_row w)) as [[d1 i]|] eqn:Ec; [|done]. injection Ha as <-.
    apply (local_create p n _ i d1 []) in Ec as [? _]; [done|]. eapply parent_row, Hl.
  - destruct (resolve_new_leaf d w path) as [[p n]|] eqn:El; [|done].
    apply new_leaf_view in El as (parent & Hl & _). simpl in Hl.
    destruct (create_node d w (p, n) (file_row w x pl)) as [[d1 i]|] eqn:Ec; [|done]. injection Ha as <-.
    apply (local_create p n _ i d1 rs) in Ec as [_ ?]; [done|]. eapply parent_row, Hl.
  - destruct (resolve_file d w path) as [i|] eqn:Ei; [|done]. injection Ha as <-.
    apply resolve_file_Ok in Ei as (Hi & _). by eapply local_records.
  - destruct (resolve_file d w path) as [i|] eqn:Ei; [|done].
    destruct (read_records d (ri_id i)); [|done]. destruct (truncate_records _ _); [|done].
    destruct (validate_record_run _ _) as [[]|]; [|done]. cbn [map_err] in Ha. injection Ha as <-.
    apply resolve_file_Ok in Ei as (Hi & _). by eapply local_records.
  - destruct (resolve_existing d w from) as [source|] eqn:Ei; [|done].
    apply resolve_existing_Ok in Ei as [Hi Hv].
    match type of Ha with (if ?b then _ else _) = _ => destruct b; [done|] end.
    destruct (resolve_new_leaf d w to) as [[pn nn]|] eqn:El; [|done].
    apply new_leaf_view in El as (new_parent & Hl & _). simpl in Hl.
    destruct (parent_of_resolved d w from) as [[po no]|] eqn:Ep; [|done].
    destruct (parent_row _ _ _ (nl_parent _ _ _ _ _ _ Hl)) as (nrow & Hnr & Hnw).
    assert (exists orow, inodes d !! po = Some orow /\ ir_workspace_id orow = w_id w) as (orow & Hor & How).
    { destruct (decide (from = [])) as [->|Hne]; [injection Ep as <- <-; by eapply (parent_row [])|].
      destruct (parent_of_resolved_Ok _ _ _ _ _ _ (Hv Hne) Hi Ep) as (q & _ & Hq & _). by eapply parent_row. }
    unfold update_dirent in Ha. destruct (dirents d !! (po, no)); [|by injection Ha as <-].
    case_decide; [|done]. injection Ha as <-. constructor; try done. intros i r n' Hir Hne. cbn.
    rewrite lookup_insert_ne, lookup_delete_ne by congruence. done.
  - destruct (resolve_existing d w path) as [i|] eqn:Ei; [|done]. apply resolve_existing_Ok in Ei as [Hi Hv].
    destruct (Z.eqb_spec (ri_kind i) KIND_DIRECTORY) as [|Hk]; [done|].
    assert (path <> []) as Hne by (intros ->; simpl in Hi; by simplify_eq).
    unfold remove_entry in Ha. destruct (parent_of_resolved d w path) as [[p n]|] eqn:Ep; [|done].
    destruct (parent_of_resolved_Ok _ _ _ _ _ _ (Hv Hne) Hi Ep) as (q & _ & Hq & _).
    eapply local_remove; [by eapply parent_row|exact Hi|exact Ha].
  - destruct (resolve_existing d w path) as [i|] eqn:Ei; [|done]. apply resolve_existing_Ok in Ei as [Hi Hv].
    destruct (Z.eqb_spec (ri_kind i) KIND_DIRECTORY) as [Hk|]; [|done]. cbn [negb] in Ha.
    destruct (child_count d (ri_id i) =? 0); [|done]. cbn [negb] in Ha.
    unfold remove_entry in Ha. destruct (parent_of_resolved d w path) as [[p n]|] eqn:Ep; [|done].
    destruct (parent_of_resolved_Ok _ _ _ _ _ _ (Hv Hm) Hi Ep) as (q & _ & Hq & _).
    eapply local_remove; [by eapply parent_row|exact Hi|exact Ha].
  - destruct (validate_symlink_target target) as [[]|]; [|done]. cbn [map_err] in Ha.
    destruct (resolve_new_leaf d w path) as [[p n]|] eqn:El; [|done].
    apply new_leaf_view in El as (parent & Hl & _). simpl in Hl.
    destruct (create_node d w (p, n) (symlink_row w target)) as [[d1 i]|] eqn:Ec; [|done]. injection Ha as <-.
    apply (local_create p n _ i d1 []) in Ec as [? _]; [done|]. eapply parent_row, Hl.
  - destruct (resolve_file d w target) as [i|] eqn:Ei; [|done].
    destruct (resolve_new_leaf d w path) as [[p n]|] eqn:El; [|done].
    apply new_leaf_view in El as (parent & Hl & _). simpl in Hl.
    eapply Hlink; [|exact Ha]. eapply parent_row, Hl.
  - destruct (resolve_file d w path) as [i|] eqn:Ei; [|done]. injection Ha as <-.
    apply resolve_file_Ok in Ei as (Hi & _). destruct i as [i k].
    destruct (parent_row _ _ _ Hi) as (row & Hrow & Hw). constructor; try done.
    intros j r Hj Hne. cbn. rewrite lookup_alter_ne; [done|]. congruence.
Qed.
End apply.
