(* ===== verification/Workspace.v ===== *)
(** Workspaces ([src/crates/tensorfs-core/src/workspace.rs]): the operations of
    [WorkspaceStore] over the metadata tables and the object store, each as the
    code runs it - what happens before a transaction, the transaction, and what
    a failure rolls back. *)

From S2P Require Export Planner Mutations.

(** ** Transactions *)

(** The store's disk, the tables, and which engine calls fail. *)
Record world : Type := World {
  w_disk : disk;
  w_db : db;
  w_engine : list bool
}.

#[export] Instance world_has_disk : HasDisk world.
Proof. refine {| disk_of := w_disk; set_disk d s := World d (w_db s) (w_engine s) |}. done. Defined.

Definition set_db (d : db) (s : world) : world := World (w_disk s) d (w_engine s).

(** A call into the engine: it may fail, and it does when the process is dead. *)
Definition engine : M world workspace_error unit := fun s =>
  if negb (alive (w_disk s)) then (Err WE_Db, s)
  else
    match w_engine s with
    | [] => (Ok tt, s)
    | failed :: rest =>
        ((if failed then Err WE_Db else Ok tt), World (w_disk s) (w_db s) rest)
    end.

(** Statements that read, and statements that write.  A function that issues
    several is one call here: in a transaction the effect of failing at a later
    one is the effect of failing at the first. *)
Definition sql_read {A} (f : db -> result workspace_error A) : M world workspace_error A :=
  engine;;; fun s => (f (w_db s), s).
Definition sql_write (f : db -> result workspace_error db) : M world workspace_error unit :=
  engine;;; fun s =>
    match f (w_db s) with
    | Ok d => (Ok tt, set_db d s)
    | Err e => (Err e, s)
    end.

(** [transaction_with_behavior] .. [commit]: a transaction that is not
    committed rolls back when it is dropped, and one that is killed is rolled
    back when the database is next opened. *)
Definition transaction {A} (body : M world workspace_error A) : M world workspace_error A := fun s =>
  match (engine;;; let<- a := body in engine;;; ret a) s with
  | (Ok a, s') => (Ok a, s')
  | (Err e, s') => (Err e, set_db (w_db s) s')
  end.

Definition store {A} (m : M disk store_error A) : M world workspace_error A :=
  map_err_m WE_Store (on_disk m).

(** ** Creating and deleting workspaces *)

(** [INSERT INTO workspaces ..]; the name is unique. *)
Definition insert_workspace `{Rowid} (name : list byte) (d : db) : result workspace_error (db * Z) :=
  if decide (map_Forall (fun _ row => wr_name row <> name) (workspaces d)) then
    let id := new_rowid (dom (workspaces d)) in
    Ok (with_workspaces (<[id := WorkspacesRow name 0 0]>) d, id)
  else Err WE_Db.

Definition set_root (root : Z) (row : workspaces_row) : workspaces_row :=
  WorkspacesRow (wr_name row) (wr_head_generation row) root.
Definition set_head (generation : Z) (row : workspaces_row) : workspaces_row :=
  WorkspacesRow (wr_name row) (as_i64 generation) (wr_root_inode row).

(** The three statements of [create_workspace]. *)
Definition create_workspace_rows `{Rowid} (name : list byte) (d : db) : result workspace_error db :=
  let? (d, workspace_id) := insert_workspace name d in
  let (d, root_inode) := insert_inode d (InodesRow workspace_id KIND_DIRECTORY 0 None None None) in
  Ok (with_workspaces (alter (set_root root_inode) workspace_id) d).

(** [create_workspace]: an engine failure while looking the name up reads as
    "not there", and the unique name then refuses the insert. *)
Definition create_workspace `{Rowid} (name : list byte) : M world workspace_error unit :=
  transaction (fun s =>
    match sql_read (fun d => workspace_row d name) s with
    | (Ok _, s) => (Err (WE_WorkspaceExists name), s)
    | (Err _, s) => sql_write (create_workspace_rows name) s
    end).

(** [DELETE FROM workspaces WHERE id = ?1] and what it cascades to. *)
Definition delete_workspace_row (id : Z) (d : db) : result workspace_error db :=
  let dead : gset Z := dom (filter (fun row => ir_workspace_id row.2 = id) (inodes d)) in
  let dead_leases : gset Z := dom (filter (fun row => lr_workspace_id row.2 = Some id) (leases d)) in
  let d := delete_inodes d dead in
  let d := with_leases (filter (fun row => row.1 ∉ dead_leases)) d in
  let d := with_lease_objects (filter (fun row => row.1 ∉ dead_leases)) d in
  let d := with_workspaces (delete id) d in
  if decide (references_ok d) then Ok d else Err WE_Db.
Definition delete_workspace_rows (name : list byte) (d : db) : result workspace_error db :=
  let? w := workspace_row d name in
  let ids : gset Z := dom (filter (fun row => ir_workspace_id row.2 = w_id w) (inodes d)) in
  let d := with_dirents (filter (fun row => row.1.1 ∉ ids)) d in
  delete_workspace_row (w_id w) d.
Definition delete_workspace (name : list byte) : M world workspace_error unit :=
  transaction (sql_write (delete_workspace_rows name)).

(** [head_generation]. *)
Definition head_generation (name : list byte) : M world workspace_error Z :=
  sql_read (fun d => let? w := workspace_row d name in Ok (w_head_generation w)).

(** ** Committing *)

Definition data_digests (records : list file_record) : list (list byte) :=
  omap (fun r => match r with Data digest _ => Some digest | Hole _ => None end) records.

(** The first loop of [commit_generation]: validate, and collect the digests
    the batch newly references. *)
Definition mutation_records (m : mutation) : option (list file_record) :=
  match m with CreateFile _ _ _ records | SetRecords _ records => Some records | _ => None end.
Definition referenced_digests (mutations : list mutation)
  : result workspace_error (gset (list byte)) :=
  for_each (fun referenced m =>
    match mutation_records m with
    | None => Ok referenced
    | Some records =>
        let? logical_size := map_err WE_Tfm1 (records_length records) in
        let? _ := map_err WE_Tfm1 (validate_record_run records logical_size) in
        Ok (referenced ∪ list_to_set (data_digests records))
    end) ∅ mutations.

Section workspace.
Context `{Sha256, Unicode, Unordered, Rowid, Allocator}.

(** [verify] of every digest; any failure is reported as missing. *)
Definition verify_all (digests : list (list byte)) : M world workspace_error unit :=
  for_m (fun _ digest =>
    map_err_m (fun _ => WE_MissingObject digest) (on_disk (verify digest));;; ret tt) tt digests.
(** The [exists] re-check inside the transaction. *)
Definition check_exist (digests : list (list byte)) : M world workspace_error unit :=
  for_m (fun _ digest =>
    let<- found := store (exists_object digest) in
    check found (WE_MissingObject digest)) tt digests.

(** [UPDATE workspaces SET head_generation = ?1 WHERE id = ?2]. *)
Definition advance_head (w : workspace_row_t) (next : Z) (d : db) : db :=
  with_workspaces (alter (set_head next) (w_id w)) d.

(** The part of [commit_generation] before the transaction. *)
Definition commit_prepare (mutations : list mutation) : M world workspace_error (gset (list byte)) :=
  let<- referenced := lift (referenced_digests mutations) in
  verify_all (enumerate (elements referenced));;; ret referenced.

(** The tables after the batch. *)
Definition apply_batch (name : list byte) (mutations : list mutation) (d : db)
  : result workspace_error (db * Z) :=
  let? w := workspace_row d name in
  let? d := for_each (fun d m => apply_mutation d w m) d mutations in
  let next := wadd (w_head_generation w) 1 in
  Ok (advance_head w next d, next).

Definition commit_transaction (name : list byte) (mutations : list mutation)
    (referenced : gset (list byte)) : M world workspace_error Z :=
  transaction (
    check_exist (enumerate (elements referenced));;;
    let<- next := sql_read (fun d => let? (_, next) := apply_batch name mutations d in Ok next) in
    sql_write (fun d => let? (d, _) := apply_batch name mutations d in Ok d);;;
    ret next).

(** [commit_generation]. *)
Definition commit_generation (name : list byte) (mutations : list mutation)
  : M world workspace_error Z :=
  let<- referenced := commit_prepare mutations in
  commit_transaction name mutations referenced.

(** [head_tree]; a walk that never ends has no result. *)
Definition no_end {A} (r : option (result workspace_error A)) : result workspace_error A :=
  default (Err WE_Panic) r.
Definition head_tree (name : list byte)
  : M world workspace_error (list (list byte * tree_entry)) :=
  sql_read (fun d => let? w := workspace_row d name in no_end (build_tree d w)).

(** ** Snapshots *)

(** [read_manifest_object]: the bytes must still hash to the id. *)
Definition read_manifest_object (id : list byte) : M world workspace_error snapshot :=
  let<- bytes := map_err_m (fun _ => WE_SnapshotCorrupt) (on_disk (open_object id)) in
  map_err_m (fun e => WE_Store (SE_Io e)) (on_disk (query (fun _ => Ok tt)));;;
  if decide (SnapshotId_of bytes = id) then lift (map_err WE_Tfm1 (decode bytes))
  else fail WE_SnapshotCorrupt.

(** [read_rooted_snapshot] and [load_snapshot]. *)
Definition read_rooted_snapshot (id : list byte) : M world workspace_error snapshot :=
  let<- rooted := sql_read (fun d => Ok (snapshots d !! id)) in
  match rooted with
  | None => fail (WE_UnknownSnapshot id)
  | Some _ => read_manifest_object id
  end.
Definition load_snapshot (id : list byte) : M world workspace_error snapshot :=
  read_rooted_snapshot id.

(** [INSERT OR IGNORE INTO snapshots ..]. *)
Definition insert_snapshot (id : list byte) (generation : Z) (d : db) : db :=
  match snapshots d !! id with
  | Some _ => d
  | None => with_snapshots (<[id := as_i64 generation]>) d
  end.

(** The digests of an entry's read-path records. *)
Definition entry_digests (pe : list byte * entry) : list (list byte) :=
  match pe.2 with File _ body => data_digests (body_records body) | _ => [] end.

(** [adopt_snapshot]: the residency check and the admission are outside any
    transaction; the row is one statement. *)
Definition adopt_check (bytes : list byte) : M world workspace_error snapshot :=
  let<- snap := lift (map_err WE_Tfm1 (decode bytes)) in
  check_exist (s_entries snap ≫= entry_digests);;; ret snap.
Definition adopt_admit (bytes : list byte) : M world workspace_error unit :=
  store (put_bytes bytes);;; ret tt.
Definition adopt_root (id : list byte) : M world workspace_error unit :=
  sql_write (fun d => Ok (insert_snapshot id 0 d)).
Definition adopt_snapshot (bytes : list byte) : M world workspace_error (list byte) :=
  let<- snap := adopt_check bytes in
  let id := snapshot_id snap in
  adopt_admit bytes;;;
  adopt_root id;;;
  ret id.

(** The row of [delete_snapshot]; the projected tree and refs it then removes
    hold no object. *)
Definition delete_snapshot_row (id : list byte) : M world workspace_error unit :=
  sql_write (fun d =>
    match snapshots d !! id with
    | None => Err (WE_UnknownSnapshot id)
    | Some _ => Ok (with_snapshots (delete id) d)
    end).

(** [create_workspace_from_snapshot]. *)
Definition entry_mutation (snap : snapshot) (pe : list byte * entry) : result workspace_error mutation :=
  let '(path, e) := pe in
  match e with
  | Directory => Ok (Mkdir path)
  | File executable body =>
      Ok (CreateFile path executable (body_planner_id body) (body_records body))
  | Symlink target => Ok (MSymlink path target)
  | Hardlink ordinal =>
      let! target := ordinal_path snap ordinal ?: WE_Panic in Ok (MHardlink path target)
  end.
Definition snapshot_mutations (snap : snapshot) : result workspace_error (list mutation) :=
  for_each (fun ms pe => let? m := entry_mutation snap pe in Ok (ms ++ [m])) [] (s_entries snap).
Definition create_workspace_from_snapshot (name id : list byte) : M world workspace_error unit :=
  let<- decoded := load_snapshot id in
  create_workspace name;;;
  let<- mutations := lift (snapshot_mutations decoded) in
  commit_generation name mutations;;; ret tt.
Definition rebuild_from_snapshot (name id : list byte) : M world workspace_error unit :=
  create_workspace_from_snapshot name id.

(** ** Leases *)

(** [INSERT INTO leases ..]: the rows it names exist. *)
Definition key_exists {A} (table : gmap Z A) (key : option Z) : bool :=
  match key with Some k => bool_decide (is_Some (table !! k)) | None => true end.
Definition insert_lease (row : leases_row) (d : db) : result workspace_error (db * Z) :=
  if key_exists (inodes d) (lr_inode row) && key_exists (workspaces d) (lr_workspace_id row) then
    let id := new_rowid (dom (leases d)) in
    Ok (with_leases (<[id := row]>) d, id)
  else Err WE_Db.

(** [acquire_unlinked_lease]. *)
Definition unlinked_lease_rows (workspace path holder : list byte) (d : db)
  : result workspace_error (db * Z) :=
  let? w := workspace_row d workspace in
  let? inode := resolve_existing d w path in
  insert_lease (LeasesRow (lease_kind_to_row Unlinked) holder (Some (w_id w)) (Some (ri_id inode))) d.
Definition acquire_unlinked_lease (workspace path holder : list byte) : M world workspace_error Z :=
  transaction (
    let<- lease := sql_read (fun d => let? (_, lease) := unlinked_lease_rows workspace path holder d in Ok lease) in
    sql_write (fun d => let? (d, _) := unlinked_lease_rows workspace path holder d in Ok d);;;
    ret lease).

(** [acquire_pending_sync_lease]: the manifest and every object it names. *)
Definition pending_lease_rows (id holder : list byte) (snap : snapshot) (d : db)
  : result workspace_error (db * Z) :=
  let? (d, lease) := insert_lease (LeasesRow (lease_kind_to_row PendingSync) holder None None) d in
  let pinned : gset (list byte) := {[id]} ∪ list_to_set (s_entries snap ≫= entry_digests) in
  Ok (with_lease_objects (fun rows => rows ∪ set_map (fun digest => (lease, digest)) pinned) d, lease).
Definition acquire_pending_sync_lease (id holder : list byte)
  : M world workspace_error (Z * snapshot) :=
  transaction (
    let<- decoded := read_rooted_snapshot id in
    let<- lease := sql_read (fun d => let? (_, lease) := pending_lease_rows id holder decoded d in Ok lease) in
    sql_write (fun d => let? (d, _) := pending_lease_rows id holder decoded d in Ok d);;;
    ret (lease, decoded)).

(** [release_lease]. *)
Definition release_lease_rows (lease : Z) (d : db) : result workspace_error db :=
  let! row := leases d !! lease ?: WE_UnknownLease lease in
  let d := with_lease_objects (filter (fun row => row.1 <> lease)) d in
  let d := with_leases (delete lease) d in
  match lr_inode row with
  | Some inode => drop_inode_if_orphaned d inode
  | None => Ok d
  end.
Definition release_lease (lease : Z) : M world workspace_error unit :=
  transaction (sql_write (release_lease_rows lease)).
End workspace.
