(* ===== verification/Gc.v ===== *)
(** Garbage collection of [src/crates/tensorfs-core/src/workspace.rs]: the
    reachability walk [mark], the two-epoch quarantine of [collect], and the
    per-snapshot accounting of [usage]. *)

From S2P Require Export Workspace.

(** [struct SnapshotMark] and [struct Mark]. *)
Record snapshot_mark : Type := SnapshotMark {
  sm_id : list byte; sm_objects : gset (list byte); sm_logical : Z
}.
Record mark_t : Type := Mark {
  mk_reached : gmap (list byte) Z;
  mk_snapshots : list snapshot_mark
}.

(** [Mark::add_root] and [is_rooted]; the counters are [u32]s. *)
Definition add_root (reached : gmap (list byte) Z) (objects : gset (list byte)) : gmap (list byte) Z :=
  set_fold (fun digest reached =>
    <[digest := (default 0 (reached !! digest) + 1) mod U32]> reached) reached objects.
Definition is_rooted (m : mark_t) (digest : list byte) : bool :=
  bool_decide (is_Some (mk_reached m !! digest)).

(** [manifest_objects]. *)
Definition body_objects (body : file_body) : gset (list byte) :=
  match body with
  | Tensor _ _ _ records => list_to_set (data_digests records)
  | Blob logical_size digest => if logical_size =? 0 then ∅ else {[digest]}
  end.
Definition manifest_objects (snap : snapshot) : gset (list byte) :=
  foldr (fun pe into => match pe.2 with File _ body => body_objects body ∪ into | _ => into end)
    ∅ (s_entries snap).

(** The logical size of a snapshot: the sum over its file entries. *)
Definition snapshot_logical (snap : snapshot) : Z :=
  foldl (fun acc pe => match pe.2 with File _ body => wadd acc (body_logical_size body) | _ => acc end)
    0 (s_entries snap).

(** Every stored digest, decoded. *)
Definition decode_digests (rows : list (list byte)) : result workspace_error (gset (list byte)) :=
  for_each (fun acc bytes => let? digest := digest_from_row bytes in Ok ({[digest]} ∪ acc)) ∅ rows.

(** [struct GcReport]. *)
Record gc_report : Type := GcReport {
  gr_roots : Z; gr_resident : Z; gr_newly_quarantined : Z; gr_rescued : Z;
  gr_deleted : Z; gr_bytes_deleted : Z; gr_epoch : Z
}.
Definition add_rescued (r : gc_report) : gc_report :=
  GcReport (gr_roots r) (gr_resident r) (gr_newly_quarantined r) (wadd (gr_rescued r) 1)
    (gr_deleted r) (gr_bytes_deleted r) (gr_epoch r).
Definition add_deleted (bytes : Z) (r : gc_report) : gc_report :=
  GcReport (gr_roots r) (gr_resident r) (gr_newly_quarantined r) (gr_rescued r)
    (wadd (gr_deleted r) 1) (wadd (gr_bytes_deleted r) bytes) (gr_epoch r).
Definition add_quarantined (r : gc_report) : gc_report :=
  GcReport (gr_roots r) (gr_resident r) (wadd (gr_newly_quarantined r) 1) (gr_rescued r)
    (gr_deleted r) (gr_bytes_deleted r) (gr_epoch r).

(** [struct SnapshotUsage]. *)
Record snapshot_usage : Type := SnapshotUsage {
  su_id : list byte; su_logical : Z; su_resident : Z; su_exclusive : Z
}.

Section gc.
Context `{Sha256, Unicode, Unordered, Rowid, Allocator}.

(** One snapshot root of [mark]. *)
Definition mark_snapshot (m : mark_t) (id : list byte) : M world workspace_error mark_t :=
  let<- snap := read_manifest_object id in
  let objects : gset (list byte) := {[id]} ∪ manifest_objects snap in
  ret (Mark (add_root (mk_reached m) objects)
         (mk_snapshots m ++ [SnapshotMark id objects (snapshot_logical snap)])).

(** [mark]: the record maps are one root, the leases another, every snapshot
    row one more. *)
Definition mark : M world workspace_error mark_t :=
  let<- heads := sql_read (fun d =>
    decode_digests (enumerate (omap (fun row => or_digest row.2) (map_to_list (object_maps d))))) in
  let<- leased := sql_read (fun d =>
    decode_digests (enumerate ((fun row => row.2) <$> elements (lease_objects d)))) in
  let reached := add_root (add_root ∅ heads) leased in
  let<- ids := sql_read (fun d =>
    for_each (fun acc bytes => let? id := digest_from_row bytes in Ok (acc ++ [id])) []
      (enumerate ((fun row => row.1) <$> map_to_list (snapshots d)))) in
  for_m mark_snapshot (Mark reached []) ids.

(** [DELETE FROM gc_quarantine WHERE digest = ?1]. *)
Definition unquarantine (digest : list byte) : M world workspace_error unit :=
  sql_write (fun d => Ok (with_gc (gc_epoch d) (delete digest) d)).

(** One quarantined row. *)
Definition sweep_row (marks : mark_t) (resident : gset (list byte)) (epoch : Z)
    (st : gc_report * gmap (list byte) Z) (row : list byte * Z)
  : M world workspace_error (gc_report * gmap (list byte) Z) :=
  let '(report, lengths) := st in
  let '(digest, marked) := row in
  if is_rooted marks digest || negb (bool_decide (digest ∈ resident)) then
    unquarantine digest;;;
    ret (if is_rooted marks digest then add_rescued report else report, lengths)
  else if marked <=? epoch - 2 then
    let<- removed := store (remove_object digest) in
    unquarantine digest;;;
    ret (if removed then (add_deleted (default 0 (lengths !! digest)) report, delete digest lengths)
         else (report, lengths))
  else ret (report, lengths).

(** [INSERT OR IGNORE INTO gc_quarantine ..]. *)
Definition quarantine_row (digest : list byte) (epoch : Z) (d : db) : db :=
  match gc_quarantine d !! digest with
  | Some _ => d
  | None => with_gc (gc_epoch d) (<[digest := epoch]>) d
  end.

(** One resident object of the last loop. *)
Definition quarantine_object (marks : mark_t) (already : gset (list byte)) (epoch : Z)
    (report : gc_report) (digest : list byte) : M world workspace_error gc_report :=
  if negb (is_rooted marks digest) && negb (bool_decide (digest ∈ already)) then
    sql_write (fun d => Ok (quarantine_row digest epoch d));;;
    ret (add_quarantined report)
  else ret report.

(** [collect].  The epoch is an [i64] in the source: its overflow, after [2^63]
    passes, is not modelled. *)
Definition collect_pass : M world workspace_error gc_report :=
  transaction (
    let<- epoch := sql_read (fun d => Ok (gc_epoch d)) in
    let epoch := epoch + 1 in
    sql_write (fun d => Ok (with_gc epoch id d));;;
    let<- marks := mark in
    let<- listed := store each_object in
    let report := GcReport (Z.of_nat (size (mk_reached marks))) (zlen listed) 0 0 0 0 epoch in
    let resident : gset (list byte) := list_to_set listed.*1 in
    let lengths : gmap (list byte) Z := list_to_map (rev listed) in
    let<- quarantined := sql_read (fun d =>
      for_each (fun acc row => let? digest := digest_from_row row.1 in Ok (acc ++ [(digest, row.2)])) []
        (enumerate (map_to_list (gc_quarantine d)))) in
    let<- st := for_m (sweep_row marks resident epoch) (report, lengths) quarantined in
    let already : gset (list byte) := list_to_set quarantined.*1 in
    for_m (quarantine_object marks already epoch) st.1 (enumerate (elements resident))).

(** [usage]. *)
Definition usage_of (marks : mark_t) (lengths : gmap (list byte) Z) (sm : snapshot_mark)
  : snapshot_usage :=
  let '(resident, exclusive) := set_fold (fun digest '(resident, exclusive) =>
      match lengths !! digest with
      | None => (resident, exclusive)
      | Some length =>
          (wadd resident length,
           if bool_decide (mk_reached marks !! digest = Some 1) then wadd exclusive length else exclusive)
      end) (0, 0) (sm_objects sm) in
  SnapshotUsage (sm_id sm) (sm_logical sm) resident exclusive.
Definition usage : M world workspace_error (list snapshot_usage) :=
  transaction (
    let<- marks := mark in
    let<- listed := store each_object in
    let lengths : gmap (list byte) Z := list_to_map (rev listed) in
    ret (sort_by (fun a b => bytes_cmp (su_id a) (su_id b)) (usage_of marks lengths <$> mk_snapshots marks))).
End gc.
