(* ===== verification/Seal.v ===== *)
(** Sealing ([seal_snapshot] of [src/crates/tensorfs-core/src/workspace.rs]):
    the committed tree is captured, every file is re-planned and its missing
    objects admitted outside the lock, and one transaction re-checks the
    generation, applies the new boundaries and roots the manifest. *)

From S2P Require Export Gc.

(** [struct SealJob]. *)
Record seal_job : Type := SealJob {
  sj_path : list byte;
  sj_planner : planner_id;
  sj_contract : stamp;
  sj_records : list file_record;
  sj_update_records : bool;
  sj_new_digests : list (list byte)
}.

(** The committed boundaries: start, length and digest of every data record. *)
Definition committed_ranges (records : list file_record) : list (Z * Z * list byte) :=
  (foldl (fun '(acc, position) r =>
     match r with
     | Data digest length => (acc ++ [(position, length, digest)], wadd position length)
     | Hole _ => (acc, position)
     end) ([], 0) records).1.

Definition range_matches (committed : Z * Z * list byte) (r : region) : bool :=
  let '(start, length, _) := committed in (start =? r_offset r) && (length =? r_length r).
Definition boundaries_match (committed : list (Z * Z * list byte)) (regions : list region) : bool :=
  (zlen committed =? zlen regions) && forallb (fun cr => range_matches cr.1 cr.2) (zip committed regions).

(** [by_range.get(&(offset, length))]; a later record of the same range wins. *)
Definition by_range (committed : list (Z * Z * list byte)) (r : region) : option (list byte) :=
  snd <$> last (filter (fun c => range_matches c r = true) committed).

(** The regions no committed record covers, with their slots. *)
Definition pending_slots (committed : list (Z * Z * list byte)) (regions : list region)
  : list (nat * region) :=
  filter (fun sr => by_range committed sr.2 = None) (imap pair regions).

(** The records of the new boundaries; [None] is the [expect]. *)
Definition new_records (committed : list (Z * Z * list byte)) (fresh : gmap nat (list byte))
    (regions : list region) : option (list file_record) :=
  mapM (fun sr =>
    let* digest := match by_range committed sr.2 with
                   | Some digest => Some digest
                   | None => fresh !! sr.1
                   end in
    Some (Data digest (r_length sr.2))) (imap pair regions).

Section seal.
Context `{Sha256, Unicode, Unordered, Rowid, Allocator, HeaderJson, EntrySort}.
(** The seams the store was given, and how admissions are scheduled. *)
Context (seams : option contract) (concurrency : Z) (schedule : list region -> list nat).

(** [blob_seal_job]: the whole byte stream as one object. *)
Definition blob_seal_job (path : list byte) (records : list file_record)
  : M disk workspace_error seal_job :=
  let source := records_byte_source records in
  let<- length := gets (@src_len _ source) in
  let<- admitted := map_err_m WE_Store (admit_source_range (H := source) 0 length) in
  ret (SealJob path BlobV1 StampNone [Data (ao_digest admitted) (ao_length admitted)] true
         [ao_digest admitted]).

(** The tensor arm of [plan_seal_job]. *)
Definition reboundary (path : list byte) (records : list file_record) (planned : plan)
  : M disk workspace_error (option seal_job) :=
  let source := records_byte_source records in
  let committed := committed_ranges records in
  let pending := pending_slots committed (p_regions planned) in
  let<- admitted := map_err_m WE_Store
    (admit_regions (H := source) concurrency (schedule pending.*2) pending.*2) in
  let fresh : gmap nat (list byte) := list_to_map (zip pending.*1 (ao_digest <$> admitted)) in
  match new_records committed fresh (p_regions planned) with
  | None => fail WE_Panic
  | Some new =>
      ret (Some (SealJob path (p_planner planned) (p_contract planned) new true
                   (ao_digest <$> admitted)))
  end.

(** [plan_seal_job]. *)
Definition plan_seal_job (path : list byte) (stored_planner : planner_id) (stored_contract : stamp)
    (records : list file_record) : M disk workspace_error (option seal_job) :=
  let source := records_byte_source records in
  let has_holes := existsb is_hole records in
  if decide (records = []) then ret None
  else if has_holes && bool_decide (is_Some (planner_tensor_format stored_planner)) then ret None
  else if has_holes then let<- job := blob_seal_job path records in ret (Some job)
  else
    let<- planned := map_err_m WE_Plan (plan_with (H := source) seams) in
    if decide (p_planner planned = BlobV1) then
      match records with
      | [Data _ _] =>
          if bool_decide (stored_planner = BlobV1) && bool_decide (stored_contract = StampNone)
          then ret None
          else ret (Some (SealJob path BlobV1 StampNone records false []))
      | _ => let<- job := blob_seal_job path records in ret (Some job)
      end
    else if boundaries_match (committed_ranges records) (p_regions planned) then
      if bool_decide (p_planner planned = stored_planner)
         && bool_decide (p_contract planned = stored_contract)
      then ret None
      else ret (Some (SealJob path (p_planner planned) (p_contract planned) records false []))
    else reboundary path records planned.

(** Phases A and B: the tree and its generation, then the jobs. *)
Definition seal_plan (name : list byte) : M world workspace_error (Z * list seal_job) :=
  let<- '(generation, tree) := sql_read (fun d =>
    let? w := workspace_row d name in
    let? tree := no_end (build_tree d w) in
    Ok (w_head_generation w, tree)) in
  let<- jobs := for_m (fun jobs pe =>
    match pe.2 with
    | TFile _ planner contract records =>
        let<- job := on_disk (plan_seal_job pe.1 planner contract records) in
        ret (match job with Some job => jobs ++ [job] | None => jobs end)
    | _ => ret jobs
    end) [] tree in
  ret (generation, jobs).

(** One job's rows in phase C. *)
Definition apply_job (w : workspace_row_t) (d : db) (job : seal_job) : result workspace_error db :=
  let? d := if sj_update_records job then apply_mutation d w (SetRecords (sj_path job) (sj_records job))
            else Ok d in
  let? inode := resolve_existing d w (sj_path job) in
  Ok (with_inodes (alter (set_provenance (sj_planner job) (sj_contract job)) (ri_id inode)) d).

(** The tables and the snapshot after the jobs. *)
Definition seal_rows (w : workspace_row_t) (jobs : list seal_job) (parent : option (list byte)) (d : db)
  : result workspace_error (db * Z * snapshot) :=
  let? d := for_each (apply_job w) d jobs in
  let sealed_generation :=
    if decide (jobs = []) then w_head_generation w else wadd (w_head_generation w) 1 in
  let d := if decide (jobs = []) then d else advance_head w sealed_generation d in
  let w := WorkspaceRow (w_id w) sealed_generation (w_root_inode w) in
  let? snap := no_end (build_snapshot d w parent) in
  Ok (d, sealed_generation, snap).

(** Phase C.  A head that moved drops the transaction and asks for another
    attempt, which is [None]. *)
Definition seal_transaction (name : list byte) (generation : Z) (jobs : list seal_job)
    (parent : option (list byte)) : M world workspace_error (list byte) :=
  transaction (
    let<- w := sql_read (fun d => workspace_row d name) in
    check (w_head_generation w =? generation) WE_SealContention;;;
    check_exist (jobs ≫= sj_new_digests);;;
    let<- '(sealed_generation, snap) := sql_read (fun d =>
      let? (_, sealed_generation, snap) := seal_rows w jobs parent d in
      Ok (sealed_generation, snap)) in
    sql_write (fun d => let? (d, _, _) := seal_rows w jobs parent d in Ok d);;;
    store (put_bytes (to_bytes snap));;;
    let id := snapshot_id snap in
    sql_write (fun d => Ok (insert_snapshot id sealed_generation d));;;
    ret id).
Definition seal_commit (name : list byte) (generation : Z) (jobs : list seal_job)
    (parent : option (list byte)) : M world workspace_error (option (list byte)) := fun s =>
  match seal_transaction name generation jobs parent s with
  | (Ok id, s) => (Ok (Some id), s)
  | (Err WE_SealContention, s) => (Ok None, s)
  | (Err e, s) => (Err e, s)
  end.

(** [seal_snapshot]: three attempts. *)
Fixpoint seal_attempts (attempts : nat) (name : list byte) (parent : option (list byte))
  : M world workspace_error (list byte) :=
  match attempts with
  | O => fail WE_SealContention
  | S attempts =>
      let<- '(generation, jobs) := seal_plan name in
      let<- sealed := seal_commit name generation jobs parent in
      match sealed with
      | Some id => ret id
      | None => seal_attempts attempts name parent
      end
  end.
Definition seal_snapshot : list byte -> option (list byte) -> M world workspace_error (list byte) :=
  seal_attempts 3.
End seal.
