(* ===== verification/Layout.v ===== *)
(** The projected layout ([src/crates/tensorfs-core/src/layout.rs]): snapshots as
    trees of directories, stubs and links below [snapshots/], and refs, text files
    below [refs/] that name a snapshot.  Trees and refs hold no object; they are
    built under private names and renamed into place, and what a dead process
    leaves is told from what a live one is still building by a lease, a locked
    file in the store's [tmp/].  With it the operations of
    [src/crates/tensorfs-core/src/workspace.rs] that touch the layout:
    [project_snapshot], [delete_snapshot] and [scrub].

    A name of [snapshots/] or [refs/] is a tree: a finite map from the paths below
    it to nodes, the empty path being the artifact itself.  Every rename of the
    code is from one such name to another.  System calls take their outcome from
    the disk's schedule, as the store's do.  What a link leads to is for the
    operating system to say ([Following]).  The Windows variants are not modelled. *)
From S2P Require Import Utf8.
From S2P Require Export Tfm1 Gc.

(** ** State *)

Inductive fnode : Type :=
| FDir
| FFile (bytes : list byte) (read_only : bool)
| FLink (target : list byte).
Abbreviation fpath := (list (list byte)).
Abbreviation tree := (gmap fpath fnode).

Inductive area : Type := Snapshots | Refs.

(** The directories are absent until something creates them. *)
Record projected : Type := Projected {
  pj_world : world;
  pj_snapshots : option (gmap (list byte) tree);
  pj_refs : option (gmap (list byte) tree);
  pj_sequence : Z
}.

#[export] Instance fnode_eq_dec : EqDecision fnode.
Proof. solve_decision. Defined.
#[export] Instance projected_has_disk : HasDisk projected.
Proof.
  refine {| disk_of p := w_disk (pj_world p);
    set_disk d p := Projected (set_disk d (pj_world p)) (pj_snapshots p) (pj_refs p) (pj_sequence p) |}. done.
Defined.

Class Following : Type := { follow : area -> list byte -> list byte -> bool }.

Definition dir_of (a : area) (p : projected) : option (gmap (list byte) tree) :=
  match a with Snapshots => pj_snapshots p | Refs => pj_refs p end.
Definition with_dir (a : area) (m : option (gmap (list byte) tree)) (p : projected) : projected :=
  match a with
  | Snapshots => Projected (pj_world p) m (pj_refs p) (pj_sequence p)
  | Refs => Projected (pj_world p) (pj_snapshots p) m (pj_sequence p)
  end.
Definition with_pworld (w : world) (p : projected) : projected :=
  Projected w (pj_snapshots p) (pj_refs p) (pj_sequence p).

(** [enum LayoutError], with the panic of an [expect]; [enum Removal], [enum LeaseState], [struct ReclaimedScratch],
    [struct ScratchReap], [struct Stub]. *)
Inductive layout_error : Type :=
| LY_Io (e : io_error)
| LY_Store (e : store_error)
| LY_InvalidRefName (name : list byte)
| LY_UnreadableRef (name : list byte)
| LY_Panic.
Inductive removal : Type := Taken | Absent | Deferred.
Definition removal_taken (r : removal) : bool := match r with Taken => true | _ => false end.
Inductive lease_status : Type := LFree | LAbsent | LUnreachable.
Record reclaimed_scratch : Type := ReclaimedScratch {
  rs_path : area * list byte; rs_creator : list byte; rs_lease : lease_status
}.
Record scratch_reap : Type := ScratchReap {
  rp_examined : Z; rp_trees_removed : Z; rp_swaps_removed : Z; rp_unlinked_removed : Z;
  rp_reclaimed : list reclaimed_scratch
}.
Record stub : Type := Stub { st_body_sha256 : list byte; st_size : Z }.

Definition BUILDING_PREFIX : list byte := bstr ".building-".
Definition REMOVED_PREFIX : list byte := bstr ".removed-".
Definition LEASE_PREFIX : list byte := bstr "building-".
Definition LEASE_SUFFIX : list byte := bstr ".tmp".
Definition SWAP_PREFIX : list byte := bstr ".swap-".
Definition STUB_MAGIC : list byte := bstr "TFSSTUB1".

(** ** Stubs, refs and names *)

Definition quote : list byte := [byte_of 34].
Definition newline : list byte := [byte_of 10].

(** [stub_bytes]. *)
Definition stub_json (body_sha256 : list byte) (size : Z) : list byte :=
  bstr "{" ++ quote ++ bstr "body_sha256" ++ quote ++ bstr ":" ++ quote ++ to_hex body_sha256 ++ quote
  ++ bstr "," ++ quote ++ bstr "size" ++ quote ++ bstr ":" ++ to_dec size
  ++ bstr "," ++ quote ++ bstr "read" ++ quote ++ bstr ":" ++ quote ++ bstr "tensorfs" ++ quote ++ bstr "}".
Definition stub_bytes (body_sha256 : list byte) (size : Z) : list byte :=
  STUB_MAGIC ++ bstr " " ++ stub_json body_sha256 size ++ newline.

(** [serde_json::from_slice] into the derived [Wire]: a JSON object with exactly
    the three fields, in any order and spacing. *)
Class StubJson : Type := { wire_of_json : list byte -> option (list byte * Z * list byte) }.

(** [parse_stub] and [parse_hex_digest]. *)
Definition parse_hex_digest (text : list byte) : option (list byte) := parse_hex32 text.
Definition parse_stub `{StubJson} (bytes : list byte) : option stub :=
  let* rest := strip_prefix STUB_MAGIC bytes in
  let* rest := strip_prefix (bstr " ") rest in
  let* wire := wire_of_json (default rest (strip_suffix newline rest)) in
  let '(body, size, read) := wire in
  if negb (bool_decide (read = bstr "tensorfs")) then None
  else let* digest := parse_hex_digest body in Some (Stub digest size).

(** [hex_of] and [ref_bytes]. *)
Definition hex_of (id : list byte) : list byte := to_hex id.
Definition ref_bytes (id : list byte) : list byte := hex_of id ++ newline.

(** [str::trim]: the characters of the Unicode property White_Space, by their
    encodings, off both ends. *)
Definition white_space : list (list byte) :=
  List.map (List.map byte_of)
  [[9]; [10]; [11]; [12]; [13]; [32]; [194; 133]; [194; 160]; [225; 154; 128];
   [226; 128; 128]; [226; 128; 129]; [226; 128; 130]; [226; 128; 131]; [226; 128; 132]; [226; 128; 133];
   [226; 128; 134]; [226; 128; 135]; [226; 128; 136]; [226; 128; 137]; [226; 128; 138];
   [226; 128; 168]; [226; 128; 169]; [226; 128; 175]; [226; 129; 159]; [227; 128; 128]].
Fixpoint strip_while (strip : list byte -> list byte -> option (list byte)) (fuel : nat) (text : list byte) : list byte :=
  match fuel with
  | O => text
  | S fuel =>
      match omap (fun w => strip w text) white_space with
      | [] => text
      | rest :: _ => strip_while strip fuel rest
      end
  end.
Definition trim (text : list byte) : list byte :=
  let text := strip_while strip_prefix (length text) text in strip_while strip_suffix (length text) text.

(** [validated_ref_name]. *)
Definition ref_name_ok (name : list byte) : bool :=
  negb (bool_decide (name = []) || (255 <? zlen name) || bool_decide (name = bstr ".")
    || bool_decide (name = bstr "..") || starts_with (bstr ".") name
    || bool_decide (byte_of 47 ∈ name) || bool_decide (byte_of 92 ∈ name) || bool_decide (byte_of 0 ∈ name)).
Definition validated_ref_name (name : list byte) : result layout_error (list byte) :=
  if ref_name_ok name then Ok name else Err (LY_InvalidRefName name).

(** [relative_object_target]: as many parents as the entry is deep, and the two
    components [snapshots/<id>]. *)
Definition slashes (path : list byte) : nat := length (filter (fun b => b = slash) path).
Definition object_components (digest : list byte) : fpath := [bstr "objects"; bstr "sha256"] ++ object_path digest.
Definition relative_object_target (path : list byte) (digest : list byte) : list byte :=
  join slash (replicate (slashes path + 2) (bstr "..") ++ object_components digest).

(** ** System calls *)

Definition NotADirectory : io_error := OtherIo 20.
Definition IsADirectory : io_error := OtherIo 21.
Definition DirectoryNotEmpty : io_error := OtherIo 39.
Definition PermissionDenied : io_error := OtherIo 13.

Definition with_schedule (os : list outcome) (p : projected) : projected :=
  set_disk (with_outcomes os (disk_of p)) p.
Definition killed_at (p : projected) : projected := set_disk (kill (disk_of p)) p.

Definition fcall {A} (act : projected -> result io_error A * projected) (partial : nat -> projected -> projected)
  : M projected io_error A := fun p =>
  if negb (alive (disk_of p)) then (Err Killed, p)
  else
    match outcomes (disk_of p) with
    | [] => act p
    | Proceeds :: os => act (with_schedule os p)
    | Fails e k :: os => (Err e, partial k (with_schedule os p))
    | Crashes k :: os => (Err Killed, killed_at (partial k (with_schedule os p)))
    end.
Definition fatomic {A} (act : projected -> result io_error A * projected) : M projected io_error A :=
  fcall act (fun _ p => p).
Definition fquery {A} (f : projected -> result io_error A) : M projected io_error A :=
  fatomic (fun p => (f p, p)).
Definition lio {A} (m : M projected io_error A) : M projected layout_error A := map_err_m LY_Io m.

(** [fs::create_dir_all] of one of the two directories. *)
Definition make_area (a : area) : M projected io_error unit :=
  fatomic (fun p => (Ok tt, match dir_of a p with Some _ => p | None => with_dir a (Some ∅) p end)).

(** [fs::read_dir], the names in any order. *)
Definition list_area `{Unordered} (a : area) : M projected io_error (list (list byte)) :=
  fquery (fun p =>
    match dir_of a p with
    | Some m => Ok (enumerate (map_to_list m).*1)
    | None => Err NotFound
    end).

Definition entry_at (a : area) (name : list byte) (p : projected) : option tree :=
  m ← dir_of a p; m !! name.
Definition set_entry (a : area) (name : list byte) (t : option tree) (p : projected) : projected :=
  match dir_of a p with
  | Some m => with_dir a (Some (match t with Some t => <[name := t]> m | None => delete name m end)) p
  | None => p
  end.
Definition root_node (t : tree) : option fnode := t !! [].
Definition is_dir_tree (t : tree) : bool := bool_decide (root_node t = Some FDir).

(** [fs::create_dir] of a name of the directory. *)
Definition make_dir (a : area) (name : list byte) : M projected io_error unit :=
  fatomic (fun p =>
    match dir_of a p, entry_at a name p with
    | None, _ => (Err NotFound, p)
    | _, Some _ => (Err AlreadyExists, p)
    | _, None => (Ok tt, set_entry a name (Some {[ [] := FDir ]}) p)
    end).

(** [fs::rename] from one name to another: a directory replaces an empty
    directory only, anything else replaces anything but a directory. *)
Definition rename_entry (a : area) (from to : list byte) : M projected io_error unit :=
  fatomic (fun p =>
    match entry_at a from p with
    | None => (Err NotFound, p)
    | Some t =>
        let moved := (Ok tt, set_entry a to (Some t) (set_entry a from None p)) in
        match entry_at a to p with
        | None => moved
        | Some u =>
            if is_dir_tree t then
              if is_dir_tree u then (if bool_decide (u = {[ [] := FDir ]}) then moved else (Err DirectoryNotEmpty, p))
              else (Err NotADirectory, p)
            else if is_dir_tree u then (Err IsADirectory, p) else moved
        end
    end).

(** [fs::remove_file]. *)
Definition remove_entry_file (a : area) (name : list byte) : M projected io_error unit :=
  fatomic (fun p =>
    match entry_at a name p with
    | None => (Err NotFound, p)
    | Some t => if is_dir_tree t then (Err IsADirectory, p) else (Ok tt, set_entry a name None p)
    end).

(** [fs::remove_dir_all]: one that is cut short has removed some of the entries,
    with all that is below them; the bits of the number say which. *)
Definition chosen (k : nat) (l : list fpath) : list fpath :=
  (filter (fun ip => Nat.testbit k ip.1 = true) (imap pair l)).*2.
Definition half_removed (k : nat) (t : tree) : tree :=
  filter (fun kv => kv.1 = [] \/ Forall (fun victim => ~ victim `prefix_of` kv.1)
    (filter (fun q => q <> []) (chosen k (map_to_list t).*1))) t.
Definition remove_tree_at (a : area) (name : list byte) : M projected io_error unit :=
  fcall (fun p =>
    match entry_at a name p with
    | None => (Err NotFound, p)
    | Some t =>
        match root_node t with
        | Some (FFile _ _) => (Err NotADirectory, p)
        | _ => (Ok tt, set_entry a name None p)
        end
    end) (fun k p =>
    match entry_at a name p with
    | Some t => if is_dir_tree t then set_entry a name (Some (half_removed k t)) p else p
    | None => p
    end).

(** Below a name: a new node whose parent is a directory. *)
Definition place (a : area) (name : list byte) (at_ : fpath) (n : fnode) (p : projected) : projected :=
  match entry_at a name p with Some t => set_entry a name (Some (<[at_ := n]> t)) p | None => p end.
Definition parent_of (at_ : fpath) : fpath := removelast at_.
Definition node_of (a : area) (name : list byte) (at_ : fpath) (p : projected) : option fnode :=
  t ← entry_at a name p; t !! at_.
Definition placeable (a : area) (name : list byte) (at_ : fpath) (p : projected) : result io_error unit :=
  match node_of a name (parent_of at_) p with
  | Some FDir => Ok tt
  | Some _ => Err NotADirectory
  | None => Err NotFound
  end.

(** [fs::create_dir] and [symlink] of a path in a tree. *)
Definition create_node (a : area) (name : list byte) (at_ : fpath) (n : fnode) : M projected io_error unit :=
  fatomic (fun p =>
    match placeable a name at_ p, node_of a name at_ p with
    | Err e, _ => (Err e, p)
    | Ok _, Some _ => (Err AlreadyExists, p)
    | Ok _, None => (Ok tt, place a name at_ n p)
    end).

(** [fs::write] of a path in a tree, which creates or truncates.  Writing through
    a link is an error here; no two entries of a manifest have one path. *)
Definition write_node (a : area) (name : list byte) (at_ : fpath) (bytes : list byte) : M projected io_error unit :=
  fcall (fun p =>
    match placeable a name at_ p, node_of a name at_ p with
    | Err e, _ => (Err e, p)
    | Ok _, Some FDir => (Err IsADirectory, p)
    | Ok _, Some (FFile _ true) => (Err PermissionDenied, p)
    | Ok _, Some (FLink _) => (Err Eloop, p)
    | Ok _, _ => (Ok tt, place a name at_ (FFile bytes false) p)
    end) (fun k p =>
    match k, placeable a name at_ p, node_of a name at_ p with
    | S k, Ok _, (None | Some (FFile _ false)) => place a name at_ (FFile (take k bytes) false) p
    | _, _, _ => p
    end).
Definition chmod_node (a : area) (name : list byte) (at_ : fpath) : M projected io_error unit :=
  fatomic (fun p =>
    match node_of a name at_ p with
    | Some (FFile bytes _) => (Ok tt, place a name at_ (FFile bytes true) p)
    | Some _ => (Ok tt, p)
    | None => (Err NotFound, p)
    end).

(** ** Leases *)

(** [scratch_token]. *)
Definition scratch_token {E} : M projected E (list byte) := fun p =>
  (Ok (to_dec (pid (disk_of p)) ++ bstr "-" ++ to_dec (pj_sequence p) ++ bstr "-" ++ to_dec (nanos (disk_of p))),
   Projected (pj_world p) (pj_snapshots p) (pj_refs p) (wadd (pj_sequence p) 1)).
Definition lease_path (token : list byte) : list byte := LEASE_PREFIX ++ token ++ LEASE_SUFFIX.

(** [take_scratch_lease]: a name that is taken is skipped for the next one. *)
Fixpoint take_lease_loop (fuel : nat) : M projected layout_error (list byte) :=
  match fuel with
  | O => fail (LY_Io (OtherIo 0))
  | S fuel =>
      let<- token := scratch_token in
      fun p =>
        match on_disk (create_new (lease_path token)) p with
        | (Ok tt, p) => (lio (on_disk (try_lock (lease_path token)));;; ret token) p
        | (Err e, p) => if decide (e = AlreadyExists) then take_lease_loop fuel p else (Err (LY_Io e), p)
        end
  end.
Definition take_scratch_lease : M projected layout_error (list byte) := fun p =>
  take_lease_loop (S (length (outcomes (disk_of p)) + size (temps (disk_of p)))) p.

(** [drop(lease); let _ = fs::remove_file(self.lease_path(&token))]. *)
Definition give_up_lease {E} (token : list byte) : M projected E unit :=
  modify (fun p => if alive (disk_of p) then set_disk (release (lease_path token) (disk_of p)) p else p);;;
  ignore (on_disk (remove_temp (lease_path token))).

(** [lease_state]: [None] while the lock is held; the lock a sample takes goes
    with its handle. *)
Definition lease_state {E} (name : list byte) : M projected E (option lease_status) := fun p =>
  match on_disk (query (fun d => match temps d !! name with Some _ => Ok tt | None => Err NotFound end)) p with
  | (Err e, p) => (Ok (if decide (e = NotFound) then Some LAbsent else None), p)
  | (Ok tt, p) =>
      match on_disk (try_lock name) p with
      | (Err _, p) => (Ok None, p)
      | (Ok tt, p) => (Ok (Some LFree), if alive (disk_of p) then set_disk (release name (disk_of p)) p else p)
      end
  end.

Section layout.
Context `{Sha256, Unicode, Unordered, Following, Allocator}.

(** ** Projection *)

(** [install_bytes] and [link], in the tree being built. *)
Definition install_bytes (scratch : list byte) (at_ : fpath) (bytes : list byte) : M projected layout_error unit :=
  lio (write_node Snapshots scratch at_ bytes);;; lio (chmod_node Snapshots scratch at_).
Definition link (scratch : list byte) (target : list byte) (at_ : fpath) : M projected layout_error unit :=
  lio (create_node Snapshots scratch at_ (FLink target)).

(** [fs::copy] of an object, whose permission bits come along. *)
Definition copy_object (digest : list byte) (scratch : list byte) (at_ : fpath) : M projected layout_error unit :=
  let<- source := lio (on_disk (query (fun d =>
    match objects d !! digest with Some (Regular bytes ro) => Ok (bytes, ro) | _ => Err NotFound end))) in
  lio (write_node Snapshots scratch at_ source.1);;;
  if source.2 : bool then lio (chmod_node Snapshots scratch at_) else ret tt.

(** [project_body]. *)
Definition project_body (symlinks : bool) (path : list byte) (body : file_body) (scratch : list byte) (at_ : fpath)
  : M projected layout_error unit :=
  match body with
  | Tensor _ _ logical_size _ => install_bytes scratch at_ (stub_bytes (body_sha256 body) logical_size)
  | Blob logical_size digest =>
      if logical_size =? 0 then install_bytes scratch at_ []
      else if symlinks then link scratch (relative_object_target path digest) at_
      else copy_object digest scratch at_;;; lio (chmod_node Snapshots scratch at_)
  end.

(** The body a hardlink's ordinal names; [None] is an [expect]. *)
Definition carrier_body (snap : snapshot) (ordinal : Z) : option file_body :=
  let* carrier := ordinal_path snap ordinal in
  head (omap (fun pe : list byte * entry =>
    match pe.2 with
    | File _ body => if decide (pe.1 = carrier) then Some body else None
    | _ => None
    end) (s_entries snap)).

(** [fill]. *)
Definition fill_entry (symlinks : bool) (snap : snapshot) (scratch : list byte) (_ : unit) (pe : list byte * entry)
  : M projected layout_error unit :=
  let '(path, e) := pe in
  let at_ := split_on slash path in
  match e with
  | Directory => lio (create_node Snapshots scratch at_ FDir)
  | File _ body => project_body symlinks path body scratch at_
  | Symlink target => link scratch target at_
  | Hardlink ordinal =>
      match carrier_body snap ordinal with
      | Some body => project_body symlinks path body scratch at_
      | None => fail LY_Panic
      end
  end.
Definition fill (symlinks : bool) (snap : snapshot) (scratch : list byte) : M projected layout_error unit :=
  for_m (fill_entry symlinks snap scratch) tt (s_entries snap).

(** [Path::exists]: an error is no, and a link is as its target is. *)
Definition path_exists {E} (a : area) (name : list byte) : M projected E bool := fun p =>
  match fquery (fun p => Ok (
      match entry_at a name p with
      | None => false
      | Some t => match root_node t with Some (FLink target) => follow a name target | _ => true end
      end)) p with
  | (Ok b, p) => (Ok b, p)
  | (Err _, p) => (Ok false, p)
  end.

(** [build_into] and [project]; the path answered is the tree's name. *)
Definition build_into (symlinks : bool) (snap : snapshot) (scratch final : list byte)
  : M projected layout_error (list byte) :=
  lio (make_dir Snapshots scratch);;;
  fill symlinks snap scratch;;;
  fun p =>
    match rename_entry Snapshots scratch final p with
    | (Ok tt, p) => (Ok final, p)
    | (Err e, p) =>
        (let<- here := path_exists Snapshots final in
         if here : bool then ret final else fail (LY_Io e)) p
    end.
Definition project (symlinks : bool) (snap : snapshot) : M projected layout_error (list byte) :=
  let final := hex_of (snapshot_id snap) in
  let<- here := path_exists Snapshots final in
  if here : bool then ret final
  else
    lio (make_area Snapshots);;;
    let<- token := take_scratch_lease in
    let scratch := BUILDING_PREFIX ++ token in
    fun p =>
      let (projected, p) := build_into symlinks snap scratch final p in
      (projected, ((ignore (remove_tree_at Snapshots scratch);;; give_up_lease (E := layout_error) token) p).2).

(** ** Removal *)

(** [is_transient_refusal], off Windows. *)
Definition is_transient_refusal (_ : io_error) : bool := false.

(** [delete_scratch]. *)
Definition delete_scratch {E} (a : area) (name : list byte) : M projected E bool := fun p =>
  match fquery (fun p => match entry_at a name p with Some t => Ok (is_dir_tree t) | None => Err NotFound end) p with
  | (Err _, p) => (Ok false, p)
  | (Ok dir, p) =>
      match (if dir : bool then remove_tree_at a name else remove_entry_file a name) p with
      | (Ok _, p) => (Ok true, p)
      | (Err _, p) => (Ok false, p)
      end
  end.

(** [unlink_scratch]: the name is taken by one rename, then what it named goes. *)
Definition unlink_scratch (a : area) (name : list byte) : M projected layout_error removal :=
  let<- token := scratch_token in
  let claimed := REMOVED_PREFIX ++ token in
  fun p =>
    match rename_entry a name claimed p with
    | (Ok tt, p) => (delete_scratch a claimed;;; ret Taken) p
    | (Err e, p) =>
        if decide (e = NotFound) then (Ok Absent, p)
        else if is_transient_refusal e then (Ok Deferred, p)
        else (Err (LY_Io e), p)
    end.
Definition remove_tree (id : list byte) : M projected layout_error removal := unlink_scratch Snapshots (hex_of id).

(** ** Refs *)

(** [file.write_all(..)] and [file.sync_all()] of the staged file. *)
Definition create_staged (staged : list byte) : M projected io_error unit :=
  fatomic (fun p =>
    match dir_of Refs p, entry_at Refs staged p with
    | None, _ => (Err NotFound, p)
    | _, Some _ => (Err AlreadyExists, p)
    | _, None => (Ok tt, set_entry Refs staged (Some {[ [] := FFile [] false ]}) p)
    end).
Definition write_staged (staged bytes : list byte) : M projected io_error unit :=
  fcall (fun p => (Ok tt, place Refs staged [] (FFile bytes false) p))
    (fun k p => place Refs staged [] (FFile (take k bytes) false) p).

(** [set_ref]. *)
Definition swap_ref (staged destination : list byte) (id : list byte) : M projected io_error unit :=
  create_staged staged;;; write_staged staged (ref_bytes id);;; fquery (fun _ => Ok tt);;;
  rename_entry Refs staged destination.
Definition set_ref (name id : list byte) : M projected layout_error unit :=
  let<- destination := lift (validated_ref_name name) in
  lio (make_area Refs);;;
  let<- token := take_scratch_lease in
  let staged := SWAP_PREFIX ++ token in
  fun p =>
    let (swapped, p) := lio (swap_ref staged destination id) p in
    (swapped, ((ignore (remove_entry_file Refs staged);;; give_up_lease (E := layout_error) token) p).2).

(** [read_ref]: reading a directory is an error, and a link is followed. *)
Definition read_file (name : list byte) : M projected io_error (list byte) :=
  fquery (fun p =>
    match entry_at Refs name p with
    | None => Err NotFound
    | Some t =>
        match root_node t with
        | Some (FFile bytes _) => Ok bytes
        | Some FDir => Err IsADirectory
        | _ => Err Eloop
        end
    end).
Definition ref_id (bytes : list byte) : option (list byte) :=
  if utf8_valid bytes then SnapshotId_parse_hex (trim bytes) else None.
Definition read_ref (name : list byte) : M projected layout_error (option (list byte)) :=
  let<- name := lift (validated_ref_name name) in
  fun p =>
    match read_file name p with
    | (Err e, p) => if decide (e = NotFound) then (Ok None, p) else (Err (LY_Io e), p)
    | (Ok bytes, p) =>
        match ref_id bytes with
        | Some id => (Ok (Some id), p)
        | None => (Err (LY_UnreadableRef name), p)
        end
    end.
Definition remove_ref (name : list byte) : M projected layout_error removal :=
  let<- name := lift (validated_ref_name name) in unlink_scratch Refs name.

(** [read_dir] where an absent directory is an empty one. *)
Definition read_dir_or_empty (a : area) : M projected layout_error (list (list byte)) := fun p =>
  match list_area a p with
  | (Ok names, p) => (Ok names, p)
  | (Err e, p) => if decide (e = NotFound) then (Ok [], p) else (Err (LY_Io e), p)
  end.

(** [ref_names], [refs_to] and [tree_ids]. *)
Definition ref_names : M projected layout_error (list (list byte)) :=
  let<- names := read_dir_or_empty Refs in
  ret (sort_by bytes_cmp (filter (fun name => utf8_valid name && ref_name_ok name = true) names)).
Definition refs_to (id : list byte) : M projected layout_error (list (list byte)) :=
  let<- names := ref_names in
  for_m (fun acc name => fun p =>
    match read_ref name p with
    | (Ok (Some found), p) => (Ok (if decide (found = id) then acc ++ [name] else acc), p)
    | (_, p) => (Ok acc, p)
    end) [] names.
Definition tree_ids : M projected layout_error (list (list byte)) :=
  let<- names := read_dir_or_empty Snapshots in
  ret (sort_by bytes_cmp (omap SnapshotId_parse_hex names)).

(** ** Reaping *)

Definition no_reap : scratch_reap := ScratchReap 0 0 0 0 [].
Definition examined (r : scratch_reap) : scratch_reap :=
  ScratchReap (wadd (rp_examined r) 1) (rp_trees_removed r) (rp_swaps_removed r) (rp_unlinked_removed r) (rp_reclaimed r).
Definition evidence (a : area) (name token : list byte) (l : lease_status) : reclaimed_scratch :=
  ReclaimedScratch (a, name) token l.

(** The token of a scratch name, when the name is text. *)
Definition scratch_of (prefix name : list byte) : option (list byte) :=
  if utf8_valid name then strip_prefix prefix name else None.

(** The three sweeps of [reap_scratch], an entry at a time. *)
Definition reap_building (report : scratch_reap) (name : list byte) : M projected layout_error scratch_reap :=
  match scratch_of BUILDING_PREFIX name with
  | None => ret report
  | Some token =>
      let report := examined report in
      let<- state := lease_state (lease_path token) in
      match state with
      | None => ret report
      | Some l => fun p =>
          match remove_tree_at Snapshots name p with
          | (Ok _, p) => (Ok (ScratchReap (rp_examined report) (wadd (rp_trees_removed report) 1)
              (rp_swaps_removed report) (rp_unlinked_removed report)
              (rp_reclaimed report ++ [evidence Snapshots name token l])), p)
          | (Err _, p) => (Ok report, p)
          end
      end
  end.
Definition is_file_entry (a : area) (name : list byte) : M projected layout_error bool := fun p =>
  match fquery (fun p =>
      match entry_at a name p with
      | Some t => Ok (match root_node t with Some (FFile _ _) => true | _ => false end)
      | None => Err NotFound
      end) p with
  | (Ok b, p) => (Ok b, p)
  | (Err _, p) => (Ok false, p)
  end.
Definition reap_swap (report : scratch_reap) (name : list byte) : M projected layout_error scratch_reap :=
  match scratch_of SWAP_PREFIX name with
  | None => ret report
  | Some token =>
      let<- listed := is_file_entry Refs name in
      if negb listed then ret report
      else
        let report := examined report in
        let<- state := lease_state (lease_path token) in
        match state with
        | None => ret report
        | Some l => fun p =>
            match remove_entry_file Refs name p with
            | (Ok _, p) => (Ok (ScratchReap (rp_examined report) (rp_trees_removed report)
                (wadd (rp_swaps_removed report) 1) (rp_unlinked_removed report)
                (rp_reclaimed report ++ [evidence Refs name token l])), p)
            | (Err _, p) => (Ok report, p)
            end
        end
  end.
Definition reap_removed (a : area) (report : scratch_reap) (name : list byte) : M projected layout_error scratch_reap :=
  match scratch_of REMOVED_PREFIX name with
  | None => ret report
  | Some token =>
      let report := examined report in
      let<- deleted := delete_scratch a name in
      if deleted : bool then
        ret (ScratchReap (rp_examined report) (rp_trees_removed report) (rp_swaps_removed report)
          (wadd (rp_unlinked_removed report) 1) (rp_reclaimed report ++ [evidence a name token LUnreachable]))
      else ret report
  end.
Definition is_lease_name (name : list byte) : bool :=
  utf8_valid name && starts_with LEASE_PREFIX name && ends_with LEASE_SUFFIX name.
Definition reap_lease (_ : unit) (name : list byte) : M projected layout_error unit :=
  if is_lease_name name then
    let<- state := lease_state name in
    match state with Some _ => ignore (on_disk (remove_temp name)) | None => ret tt end
  else ret tt.

(** [reap_scratch]. *)
Definition reap_scratch : M projected layout_error scratch_reap :=
  let<- names := read_dir_or_empty Snapshots in
  let<- report := for_m reap_building no_reap names in
  let<- names := read_dir_or_empty Refs in
  let<- report := for_m reap_swap report names in
  let<- names := read_dir_or_empty Snapshots in
  let<- report := for_m (reap_removed Snapshots) report names in
  let<- names := read_dir_or_empty Refs in
  let<- report := for_m (reap_removed Refs) report names in
  let<- names := lio (on_disk (query (fun d => Ok (enumerate (map_to_list (temps d)).*1)))) in
  for_m reap_lease tt names;;;
  ret report.

(** ** The workspaces' side *)

Definition in_world {A} (m : M world workspace_error A) : M projected workspace_error A := fun p =>
  let (r, w) := m (pj_world p) in (r, with_pworld w p).
Definition in_layout {A} (m : M projected layout_error A) : M projected workspace_error A :=
  map_err_m (fun _ => WE_Layout) m.

(** [project_snapshot]. *)
Definition project_snapshot (symlinks : bool) (id : list byte) : M projected workspace_error (list byte) :=
  let<- snap := in_world (load_snapshot id) in in_layout (project symlinks snap).

(** [delete_snapshot]: the row, then the tree, then every ref to it. *)
Definition delete_snapshot (id : list byte) : M projected workspace_error unit :=
  in_world (delete_snapshot_row id);;;
  in_layout (remove_tree id);;;
  let<- names := in_layout (refs_to id) in
  for_m (fun (_ : unit) name => in_layout (remove_ref name);;; ret tt) tt names.

(** [struct ScrubReport]. *)
Record scrub_report : Type := ScrubReport {
  sc_trees_removed : list (list byte); sc_refs_removed : list (list byte);
  sc_trees_deferred : list (list byte); sc_refs_deferred : list (list byte); sc_scratch : scratch_reap
}.

(** The two loops of [scrub] under its transaction. *)
Definition scrub_tree (rooted : list (list byte)) (report : scrub_report) (id : list byte)
  : M projected workspace_error scrub_report :=
  if bool_decide (id ∈ rooted) then ret report
  else
    let<- taken := in_layout (remove_tree id) in
    ret match taken with
        | Taken => ScrubReport (sc_trees_removed report ++ [id]) (sc_refs_removed report)
            (sc_trees_deferred report) (sc_refs_deferred report) (sc_scratch report)
        | Absent => report
        | Deferred => ScrubReport (sc_trees_removed report) (sc_refs_removed report)
            (sc_trees_deferred report ++ [id]) (sc_refs_deferred report) (sc_scratch report)
        end.
Definition dangling (rooted : list (list byte)) (name : list byte) : M projected workspace_error bool := fun p =>
  match read_ref name p with
  | (Ok (Some id), p) => (Ok (negb (bool_decide (id ∈ rooted))), p)
  | (Ok None, p) => (Ok false, p)
  | (Err (LY_UnreadableRef _), p) => (Ok true, p)
  | (Err _, p) => (Ok false, p)
  end.
Definition scrub_ref (rooted : list (list byte)) (report : scrub_report) (name : list byte)
  : M projected workspace_error scrub_report :=
  let<- gone := dangling rooted name in
  if negb gone then ret report
  else
    let<- taken := in_layout (remove_ref name) in
    ret match taken with
        | Taken => ScrubReport (sc_trees_removed report) (sc_refs_removed report ++ [name])
            (sc_trees_deferred report) (sc_refs_deferred report) (sc_scratch report)
        | Absent => report
        | Deferred => ScrubReport (sc_trees_removed report) (sc_refs_removed report)
            (sc_trees_deferred report) (sc_refs_deferred report ++ [name]) (sc_scratch report)
        end.

(** A transaction around work on the layout too. *)
Definition transaction_at {A} (body : M projected workspace_error A) : M projected workspace_error A := fun p =>
  match (in_world engine;;; let<- a := body in in_world engine;;; ret a) p with
  | (Ok a, p') => (Ok a, p')
  | (Err e, p') => (Err e, with_pworld (set_db (w_db (pj_world p)) (pj_world p')) p')
  end.

(** [scrub]. *)
Definition scrub : M projected workspace_error scrub_report :=
  let<- report := transaction_at (
    let<- rooted := in_world (sql_read (fun d => Ok (enumerate (map_to_list (snapshots d)).*1))) in
    let<- ids := in_layout tree_ids in
    let<- report := for_m (scrub_tree rooted) (ScrubReport [] [] [] [] no_reap) ids in
    let<- names := in_layout ref_names in
    for_m (scrub_ref rooted) report names) in
  let<- scratch := in_layout reap_scratch in
  ret (ScrubReport (sc_trees_removed report) (sc_refs_removed report) (sc_trees_deferred report)
    (sc_refs_deferred report) scratch).
End layout.
