(* ===== verification/Ratify.v ===== *)
(** Ratification of layout records and the catalog of them
    ([src/crates/tensorfs-core/src/layout_morphism.rs], [ratify], [probe_shapes] and
    [catalog]): a record is applied to probe shapes derived from it, read back and
    compared.  What ratification accepts was applied and read back; and a record
    that passes its check passes every probe of a possible size, so ratification
    only refuses a record that no probe reaches. *)
From S2P Require Import Foreign.
From S2P Require Import Prelude Bytes Numerals BTree Layout MixedRadix Formula Morphism MorphismPlan MorphismWalk MorphismMove.

(** ** Probes *)

(** [struct Probe] and [struct Ratification]. *)
Record probe : Type := Probe { pb_shape : list Z; pb_dest_elements : Z; pb_padded : bool }.
Record ratification : Type := Ratification { ra_handle : list byte; ra_probes : list probe }.
Definition POISON : byte := byte_of 165.
Definition ELEMENT : Z := 4.

(** [probe_shapes]; [None] is an axis out of range. *)
Fixpoint literal_alignment (alignment : list Z) (subs : list sub_axis) : option (list Z) :=
  match subs with
  | [] => Some alignment
  | sub :: subs =>
      match parse_u64 (trim (sa_extent sub)) with
      | Some literal =>
          let* align := alignment !! sa_axis sub in
          literal_alignment (<[sa_axis sub := wmul align literal]> alignment) subs
      | None => literal_alignment alignment subs
      end
  end.
Definition probe_shapes (m : layout_morphism) : option (list (list Z)) :=
  if is_identity m then Some ((fun rank => (fun at_ => at_ + 2) <$> seqZ 0 rank) <$> seqZ 1 4)
  else
    let* alignment := literal_alignment (replicate (lm_rank m) 1) (lm_sub_axes m) in
    let aligned := imap (fun at_ align => wmul align (wadd (Z.of_nat at_) 2)) alignment in
    let ragged := (fun dim => if 1 <? dim then dim - 1 else dim) <$> aligned in
    Some (if bool_decide (ragged = aligned) then [aligned] else [aligned; ragged]).

(** [vec![POISON; count]]; [None] is an allocation that does not return. *)
Definition poisoned `{Allocator} (count : Z) : option (list byte) :=
  if with_capacity 1 count then Some (replicate (Z.to_nat count) POISON) else None.

(** The source of a probe, a distinct pattern per element; a count of bytes that
    wraps makes a slice out of range. *)
Definition element_tag (index : Z) : list byte := u32_bytes ((index mod U32) * 2654435761 mod U32).
Definition probe_source `{Allocator} (p : layout_plan) : option (list byte) :=
  if negb (with_capacity 1 (wmul (lp_source_elements p) ELEMENT)) then None
  else if wmul (lp_source_elements p) ELEMENT =? lp_source_elements p * ELEMENT
  then Some (seqZ 0 (lp_source_elements p) ≫= element_tag) else None.

(** The slots of the padding are zero. *)
Fixpoint padding_fault (destination : list byte) (slots : list Z) : option (option Z) :=
  match slots with
  | [] => Some None
  | slot :: slots =>
      let at_ := wmul slot ELEMENT in
      let* bytes := get_range destination at_ (wadd at_ ELEMENT) in
      if bool_decide (bytes = replicate (Z.to_nat ELEMENT) (byte_of 0)) then padding_fault destination slots else Some (Some slot)
  end.
(** [position(|(left, right)| left != right).unwrap_or(0)]. *)
Definition first_difference (back source : list byte) : Z :=
  match list_find (fun x => x.1 <> x.2) (zip back source) with Some (at_, _) => Z.of_nat at_ | None => 0 end.

Section ratify.
Context `{Allocator}.

(** The body of the loop of [ratify]; [Ok None] is [continue]. *)
Definition ratify_shape (m : layout_morphism) (shape : list Z) : option (result layout_error (option probe)) :=
  match lm_plan m shape with
  | Err _ => Some (Ok None)
  | Ok plan =>
      let fault := fun detail => Some (Err (LE_Record (handle m) detail)) in
      let* source := probe_source plan in
      let* destination := poisoned (wmul (lp_dest_elements plan) ELEMENT) in
      let* applied := lp_apply plan source destination ELEMENT in
      match applied with
      | Err e => Some (Err e)
      | Ok destination =>
          let* visits := for_each_element plan in
          let mapped := zlen (omap snd visits) in
          let pad_slots := omap (fun v : Z * option Z => match v.2 with Some _ => None | None => Some v.1 end) visits in
          if negb (mapped =? lp_source_elements plan) then fault (MapWrites shape mapped (lp_source_elements plan))
          else
            let* faulty := padding_fault destination pad_slots in
            match faulty with
            | Some slot => fault (PaddingNotZero shape slot)
            | None =>
                if negb (lp_padded plan) && negb (bool_decide (pad_slots = [])) then fault (UnreportedPadding shape (zlen pad_slots))
                else
                  let* back := poisoned (zlen source) in
                  let* returned := lp_apply_inverse plan destination back ELEMENT in
                  match returned with
                  | Err e => Some (Err e)
                  | Ok back =>
                      if bool_decide (back = source) then Some (Ok (Some (Probe shape (lp_dest_elements plan) (lp_padded plan))))
                      else fault (RoundTripDiffers shape (first_difference back source / ELEMENT))
                  end
            end
      end
  end.
Fixpoint ratify_shapes (m : layout_morphism) (shapes : list (list Z)) (probes : list probe)
  : option (result layout_error (list probe)) :=
  match shapes with
  | [] => Some (Ok probes)
  | shape :: shapes =>
      let* r := ratify_shape m shape in
      match r with
      | Err e => Some (Err e)
      | Ok None => ratify_shapes m shapes probes
      | Ok (Some probe) => ratify_shapes m shapes (probes ++ [probe])
      end
  end.

(** [ratify]. *)
Definition ratify (m : layout_morphism) : option (result layout_error ratification) :=
  match lm_check m with
  | Err e => Some (Err e)
  | Ok _ =>
      let* shapes := probe_shapes m in
      let* r := ratify_shapes m shapes [] in
      Some (let? probes := r in
            if bool_decide (probes = []) then Err (LE_Record (handle m) NoProbe) else Ok (Ratification (handle m) probes))
  end.
End ratify.

(** ** The catalog *)

(** The documents are JSON that [serde] reads. *)
Class LayoutDocuments : Type := { record_from_str : list byte -> result (list byte) layout_morphism }.
Definition DEFAULT_LAYOUT : list byte := bstr "torch.contiguous@1".

(** [parsed_catalog], over the table the build generates; [catalog] hands out the
    one value it computed. *)
Definition catalog_step `{LayoutDocuments} (out : btree layout_morphism) (row : list byte * list byte)
  : result layout_error (btree layout_morphism) :=
  let '(file, document) := row in
  let? record := map_err (fun error => LE_Catalog file (NotARecord error)) (record_from_str document) in
  let? _ := lm_check record in
  match bt_get (handle record) out with
  | Some _ => Err (LE_Catalog file HandleTwice)
  | None => Ok (bt_insert (handle record) record out)
  end.
Definition catalog `{LayoutDocuments} (CATALOG : list (list byte * list byte)) : result layout_error (btree layout_morphism) :=
  let? out := for_each catalog_step [] CATALOG in
  match bt_get DEFAULT_LAYOUT out with
  | None => Err (LE_Catalog (bstr "spec/v2/layouts") NoDefaultRecord)
  | Some _ => Ok out
  end.

(** [arrangement]. *)
Definition arrangement `{LayoutDocuments} (CATALOG : list (list byte * list byte)) (h : list byte)
  : result layout_error layout_morphism :=
  let? records := catalog CATALOG in
  let! record := bt_get h records ?: LE_Record h NoSuchArrangement in
  Ok record.

(** ** Checked records *)

Lemma group_steps_padded m shape groups w pa pd w' pa' pd' :
  length pa = length shape -> pd = existsb id pa ->
  for_each (group_step m shape) (w, pa, pd) groups = Ok (w', pa', pd') -> pd' = existsb id pa'.
Proof.
  revert w pa pd. induction groups as [|[axis extents] groups IH]; intros w pa pd Hl Hpd Hr; cbn in Hr; [by simplify_eq|].
  destruct (group_within extents) as [within running]. destruct (shape !! axis) as [dim|] eqn:Ed; [|done].
  destruct (running <? dim); [done|]. destruct (dim <? running); [|by eapply IH].
  eapply IH; [| |exact Hr]; [by rewrite length_insert|]. symmetry. apply existsb_exists. exists true. split; [|done].
  apply list_elem_of_In, list_elem_of_lookup. exists axis. apply list_lookup_insert_eq. rewrite Hl. by eapply lookup_lt_Some.
Qed.
Lemma plan_padded m shape p : lm_plan m shape = Ok p -> lp_padded p = existsb id (lp_padded_axis p).
Proof.
  unfold lm_plan. intros Hp. destruct (decide _); [done|]. destruct (_ || _); [done|].
  destruct (factors m shape) as [fs|]; [|done]. destruct (for_each _ _ _) as [[[w pa] pd]|] eqn:Ef; [|done].
  injection Hp as <-. cbn. eapply group_steps_padded; [| |exact Ef]; [by rewrite length_replicate|].
  clear. by induction (length shape) as [|n IH]; [|cbn; rewrite <- IH].
Qed.
Lemma unpadded_products (shape : list Z) gs :
  Forall2 (fun d g => 0 < d <= prodZ g) shape gs -> existsb id (zip_with (fun d g => d <? prodZ g) shape gs) = false ->
  prodZ (mjoin gs) = prodZ shape.
Proof.
  induction 1 as [|d g shape gs Hd _ IH]; [done|]. cbn [zip_with existsb]. intros [H1 H2]%orb_false_iff.
  rewrite mjoin_cons, prodZ_app, prodZ_cons, IH by done. f_equal. unfold id in H1. lia.
Qed.
Lemma omap_full {A B} (f : A -> option B) l : length (omap f l) = length l -> Forall (fun x => f x <> None) l.
Proof.
  assert (forall l : list A, length (omap f l) <= length l)%nat as Hle.
  { clear l. induction l as [|x l IH]; cbn; [done|]. destruct (f x); cbn; lia. }
  induction l as [|x l IH]; [constructor|]. cbn. specialize (Hle l). destruct (f x) eqn:E; cbn; intros Hl; [|lia].
  constructor; [by rewrite E|apply IH; lia].
Qed.
Lemma omap_none {A B} (f : A -> option B) l : Forall (fun x => f x = None) l -> omap f l = [].
Proof. induction 1 as [|x l Hx _ IH]; cbn; [done|]. by rewrite Hx. Qed.

(** ** Probes of a checked record *)

Section probe.
Context `{Allocator} (Hmem : forall k, try_reserve k = true).
Context (m : layout_morphism) (shape : list Z) (p : layout_plan) (gs : list (list Z)).
Context (Hplan : lm_plan m shape = Ok p) (Hwf : plan_wf p gs) (Hfit : lp_dest_elements p * ELEMENT <= ISIZE_MAX).

Lemma probe_sizes : 0 < lp_source_elements p <= lp_dest_elements p.
Proof. exact (elements_le _ _ Hwf). Qed.
Lemma probe_source_ok : exists source, probe_source p = Some source /\ zlen source = lp_source_elements p * ELEMENT.
Proof.
  pose proof probe_sizes. unfold probe_source, ISIZE_MAX in *.
  rewrite wmul_small, Z.eqb_refl by (unfold ELEMENT, U64 in *; lia).
  rewrite with_capacity_true by (done || (unfold ISIZE_MAX, ELEMENT in *; lia)). cbn [negb].
  eexists. split; [done|]. apply zlen_blocks; [lia|]. intros y _. apply zlen_le_bytes.
Qed.
Lemma all_mapped : zlen (omap snd ((fun d => (d, source_of p d)) <$> seqZ 0 (lp_dest_elements p))) = lp_source_elements p.
Proof.
  pose proof probe_sizes. rewrite omap_visits. unfold zlen. rewrite (sources_once _ _ Hwf), <- (pw_source _ _ Hwf), length_seqZ. lia.
Qed.

Abbreviation pad_slots :=
  (omap (fun v : Z * option Z => match v.2 with Some _ => None | None => Some v.1 end)
     ((fun d => (d, source_of p d)) <$> seqZ 0 (lp_dest_elements p))).
Lemma pad_slot d : d ∈ pad_slots -> 0 <= d < lp_dest_elements p /\ source_of p d = None.
Proof.
  intros ([d' o] & (d1 & [= -> ->] & Hd)%list_elem_of_fmap & Ho)%list_elem_of_omap. apply elem_of_seqZ in Hd.
  cbn in Ho. destruct (source_of p d1) eqn:E; [done|]. simplify_eq. split; [lia|done].
Qed.
Lemma unpadded_none : lp_padded p = false -> pad_slots = [].
Proof.
  intros Hu. rewrite (plan_padded m shape p Hplan), (pw_padded _ _ Hwf) in Hu.
  apply unpadded_products in Hu; [|exact (pw_fit _ _ Hwf)]. rewrite <- (pw_dest _ _ Hwf), <- (pw_source _ _ Hwf) in Hu.
  pose proof all_mapped as Ha. rewrite omap_visits in Ha. apply omap_none, Forall_fmap.
  assert (length (omap (source_of p) (seqZ 0 (lp_dest_elements p))) = length (seqZ 0 (lp_dest_elements p))) as Hl%omap_full.
  { pose proof probe_sizes. rewrite length_seqZ. unfold zlen in Ha. lia. }
  eapply Forall_impl; [exact Hl|]. intros d Hd. unfold compose. cbn [fst snd]. cbn beta in Hd. destruct (source_of p d); [done|by destruct Hd].
Qed.
Lemma slot_bytes source d :
  zlen source = lp_source_elements p * ELEMENT -> 0 <= d < lp_dest_elements p ->
  slice (arranged p source ELEMENT) (d * ELEMENT) (d * ELEMENT + ELEMENT) = moved p source ELEMENT d.
Proof.
  intros Hs Hd. unfold arranged. replace (lp_dest_elements p) with (d + (1 + (lp_dest_elements p - d - 1))) by lia.
  rewrite seqZ_app, (seqZ_app (0 + d)), !bind_app, Z.add_0_l, seqZ_one by lia. cbn [mbind list_bind]. rewrite app_nil_r.
  assert (forall y, zlen (moved p source ELEMENT y) = ELEMENT) as Hz by (intros; by eapply zlen_moved).
  assert (zlen (seqZ 0 d ≫= moved p source ELEMENT) = d * ELEMENT) as <- by (apply zlen_blocks; [lia|auto]).
  replace (_ + ELEMENT) with (zlen (seqZ 0 d ≫= moved p source ELEMENT) + zlen (moved p source ELEMENT d)) by (by rewrite Hz).
  apply slice_middle.
Qed.
Lemma padding_zero source slots :
  zlen source = lp_source_elements p * ELEMENT -> (forall d, d ∈ slots -> 0 <= d < lp_dest_elements p /\ source_of p d = None) ->
  padding_fault (arranged p source ELEMENT) slots = Some None.
Proof.
  intros Hs. induction slots as [|d slots IH]; intros Hd; [done|]. cbn [padding_fault].
  destruct (Hd d) as [Hb Hn]; [left|]. assert (0 <= ELEMENT) by done.
  assert (zlen (arranged p source ELEMENT) = lp_dest_elements p * ELEMENT) as Hz by (by eapply zlen_arranged).
  assert (d * ELEMENT + ELEMENT <= lp_dest_elements p * ELEMENT) by nia.
  unfold ISIZE_MAX in Hfit. rewrite wmul_small, wadd_small by (unfold U64; nia). unfold get_range. rewrite Hz.
  replace (_ <=? _) with true by lia. replace (_ <=? _) with true by lia. cbn [andb].
  rewrite slot_bytes by done. unfold moved. rewrite Hn, bool_decide_true by done. apply IH. intros; apply Hd. by right.
Qed.

(** A probe the record plans passes. *)
Lemma ratify_shape_passes : ratify_shape m shape = Some (Ok (Some (Probe shape (lp_dest_elements p) (lp_padded p)))).
Proof.
  unfold ratify_shape. rewrite Hplan. destruct probe_source_ok as (source & -> & Hs). pose proof probe_sizes as Hp.
  assert (0 <= ELEMENT) by done. pose proof Hfit as Hfit'. unfold ISIZE_MAX in Hfit'.
  assert (lp_dest_elements p * ELEMENT < U64) by (unfold U64; lia).
  rewrite wmul_small by nia.
  destruct (round_trip p gs ELEMENT source (replicate (Z.to_nat (lp_dest_elements p * ELEMENT)) POISON)
    (replicate (Z.to_nat (zlen source)) POISON)) as [Ha Hi]; [done..| | |].
  { unfold zlen. rewrite length_replicate. nia. }
  { rewrite Hs. unfold zlen. rewrite length_replicate. nia. }
  unfold poisoned. rewrite !with_capacity_true by (done || (rewrite ?Hs; unfold ELEMENT in *; lia)).
  rewrite Ha, (for_each_element_ok _ _ Hwf). cbv zeta. rewrite all_mapped, Z.eqb_refl. cbn [negb].
  rewrite padding_zero by (done || apply pad_slot).
  destruct (lp_padded p) eqn:Ep; cbn [negb andb].
  - by rewrite Hi, bool_decide_true.
  - rewrite (unpadded_none Ep), bool_decide_true by done. cbn [negb]. by rewrite Hi, bool_decide_true.
Qed.
End probe.

(** A checked record's axes are below its rank, so its probes are defined. *)
Lemma check_axes subs k axis covered k' axis' covered' :
  (k = 0 /\ covered = 0 \/ k <> 0 /\ covered = S axis)%nat ->
  for_each check_sub_axis (k, axis, covered) subs = Ok (k', axis', covered') ->
  Forall (fun s => sa_axis s < covered')%nat subs /\ (covered <= covered')%nat.
Proof.
  revert k axis covered. induction subs as [|s subs IH]; intros k axis covered Hk Hr; cbn [for_each] in Hr; [by simplify_eq|].
  destruct (check_sub_axis (k, axis, covered) s) as [[[k1 axis1] covered1]|] eqn:E; [|done].
  assert (covered1 = S (sa_axis s) /\ axis1 = sa_axis s /\ k1 <> 0%nat /\ (covered <= covered1)%nat) as (-> & -> & Hk1 & Hle).
  { unfold check_sub_axis in E. destruct k; repeat case_decide; simplify_eq; split_and!; lia. }
  apply IH in Hr as [Hf Hc]; [|by right]. split; [constructor; [lia|done]|lia].
Qed.
Lemma checked_axes m : lm_check m = Ok tt -> is_identity m = false -> Forall (fun s => sa_axis s < lm_rank m)%nat (lm_sub_axes m).
Proof.
  intros Hc%map_err_Ok Hi. unfold check_fault in Hc. rewrite Hi in Hc. repeat (case_decide; [done|]).
  destruct (for_each check_sub_axis _ _) as [[[k axis] covered]|] eqn:E; [|done].
  case_decide as Hr; [done|]. apply check_axes in E as [Hf _]; [|by left]. replace (lm_rank m) with covered by lia. done.
Qed.
Lemma literal_alignment_ok subs alignment :
  Forall (fun s => sa_axis s < length alignment)%nat subs -> Forall in_u64 alignment ->
  exists out, literal_alignment alignment subs = Some out /\ Forall in_u64 out.
Proof.
  revert alignment. induction subs as [|s subs IH]; intros alignment Hf Ha; cbn [literal_alignment]; [eauto|].
  apply Forall_cons in Hf as [Hs Hf]. destruct (parse_u64 _) as [literal|]; [|auto].
  apply lookup_lt_is_Some in Hs as [align Hal]. rewrite Hal. apply IH; [by rewrite length_insert|].
  apply Forall_insert; [done|]. apply Z.mod_pos_bound. done.
Qed.
Lemma probe_shapes_ok m : lm_check m = Ok tt -> exists shapes, probe_shapes m = Some shapes /\ Forall (Forall in_u64) shapes.
Proof.
  intros Hc. unfold probe_shapes. destruct (is_identity m) eqn:Ei.
  { eexists. split; [done|]. apply Forall_fmap, Forall_forall. intros rank Hr%elem_of_seqZ.
    apply Forall_fmap, Forall_forall. intros at_ Ha%elem_of_seqZ. unfold compose, in_u64, U64. cbn beta. lia. }
  destruct (literal_alignment_ok (lm_sub_axes m) (replicate (lm_rank m) 1)) as (out & -> & Ho).
  { rewrite length_replicate. by apply checked_axes. }
  { apply Forall_replicate. by split. }
  set (aligned := imap _ out). assert (Forall in_u64 aligned) as Hal.
  { apply Forall_lookup. intros i d Hd. apply list_lookup_imap_Some in Hd as (x & _ & ->). by apply Z.mod_pos_bound. }
  assert (Forall in_u64 ((fun dim => if 1 <? dim then dim - 1 else dim) <$> aligned)).
  { apply Forall_fmap. eapply Forall_impl; [exact Hal|]. intros d Hd. unfold compose, in_u64 in *. destruct (Z.ltb_spec 1 d); lia. }
  eexists. split; [done|]. case_bool_decide; by repeat constructor.
Qed.

(** What a probe of a shape records. *)
Definition probe_of (m : layout_morphism) (shape : list Z) : option probe :=
  match lm_plan m shape with Ok p => Some (Probe shape (lp_dest_elements p) (lp_padded p)) | Err _ => None end.
(** Every probe the record plans is no larger than an allocation may be. *)
Definition probes_fit (m : layout_morphism) : Prop :=
  forall shapes shape p, probe_shapes m = Some shapes -> shape ∈ shapes -> lm_plan m shape = Ok p ->
    prodZ (lp_extents p) * ELEMENT <= ISIZE_MAX.

(** What a probe that is recorded went through: a source with a pattern of its
    own in every element was applied; as many destination elements as the source
    has come from the source, the others were zero and the plan reports them; and
    reading the destination back gave the source. *)
Definition went_through (m : layout_morphism) (probe : probe) : Prop :=
  exists p source poison destination back visits,
    lm_plan m (pb_shape probe) = Ok p /\
    pb_dest_elements probe = lp_dest_elements p /\ pb_padded probe = lp_padded p /\
    source = (seqZ 0 (lp_source_elements p) ≫= element_tag) /\ Forall (fun b => b = POISON) poison /\
    lp_apply p source poison ELEMENT = Some (Ok destination) /\
    for_each_element p = Some visits /\ zlen (omap snd visits) = lp_source_elements p /\
    (forall slot, (slot, None) ∈ visits ->
       get_range destination (wmul slot ELEMENT) (wadd (wmul slot ELEMENT) ELEMENT)
         = Some (replicate (Z.to_nat ELEMENT) (byte_of 0)) /\ lp_padded p = true) /\
    Forall (fun b => b = POISON) back /\ lp_apply_inverse p destination back ELEMENT = Some (Ok source).

Section ratified.
Context `{Allocator}.

Lemma poisoned_Some count l : poisoned count = Some l -> Forall (fun b => b = POISON) l.
Proof. unfold poisoned. destruct (with_capacity 1 count); [|done]. intros [= <-]. by apply Forall_replicate. Qed.
Lemma padding_fault_None destination slots slot :
  padding_fault destination slots = Some None -> slot ∈ slots ->
  get_range destination (wmul slot ELEMENT) (wadd (wmul slot ELEMENT) ELEMENT)
    = Some (replicate (Z.to_nat ELEMENT) (byte_of 0)).
Proof.
  induction slots as [|s slots IH]; cbn [padding_fault]; [by intros _ ?%not_elem_of_nil|].
  destruct (get_range destination (wmul s ELEMENT) _) as [bytes|] eqn:Eg; [|done].
  case_bool_decide as Hb; [|done]. subst bytes.
  intros Hf [->|Hin]%elem_of_cons; [done|by apply IH].
Qed.
Lemma ratify_shape_recorded m shape probe :
  ratify_shape m shape = Some (Ok (Some probe)) -> went_through m probe.
Proof.
  unfold ratify_shape. destruct (lm_plan m shape) as [p|] eqn:Ep; [|done].
  destruct (probe_source p) as [source|] eqn:Es; [|done].
  destruct (poisoned _) as [poison|] eqn:Epo; [|done].
  destruct (lp_apply p source poison ELEMENT) as [[destination|]|] eqn:Ea; [|done..].
  destruct (for_each_element p) as [visits|] eqn:Ev; [|done]. cbv zeta.
  destruct (Z.eqb_spec (zlen (omap snd visits)) (lp_source_elements p)) as [Hm|]; [|done]. cbn [negb].
  destruct (padding_fault _ _) as [[slot|]|] eqn:Ef; [done| |done].
  destruct (negb (lp_padded p) && _) eqn:Eu; [done|].
  destruct (poisoned (zlen source)) as [back|] eqn:Eb; [|done].
  destruct (lp_apply_inverse p destination back ELEMENT) as [[returned|]|] eqn:Ei; [|done..].
  destruct (bool_decide (returned = source)) eqn:Hback; [|done]. apply bool_decide_eq_true in Hback. subst returned.
  intros [= <-].
  exists p, source, poison, destination, back, visits. split_and!; try done.
  - unfold probe_source in Es. by repeat case_match; simplify_eq.
  - by eapply poisoned_Some.
  - intros slot Hin. assert (slot ∈ omap (fun v : Z * option Z => match v.2 with Some _ => None | None => Some v.1 end) visits) as Hs.
    { apply list_elem_of_omap. by exists (slot, None). }
    split; [by eapply padding_fault_None|]. destruct (lp_padded p); [done|]. cbn in Eu.
    apply negb_false_iff, bool_decide_eq_true in Eu. rewrite Eu in Hs. by apply not_elem_of_nil in Hs.
  - by eapply poisoned_Some.
Qed.
Lemma ratify_shapes_recorded m shapes probes out :
  Forall (went_through m) probes -> ratify_shapes m shapes probes = Some (Ok out) -> Forall (went_through m) out.
Proof.
  revert probes. induction shapes as [|shape shapes IH]; intros probes Hp; cbn [ratify_shapes]; [by intros [= <-]|].
  destruct (ratify_shape m shape) as [[[probe|]|]|] eqn:Er; [|by apply IH|done..]. cbn. apply IH.
  apply Forall_app. split; [done|]. apply Forall_singleton. by eapply ratify_shape_recorded.
Qed.
Lemma ratify_recorded m out :
  ratify m = Some (Ok out) ->
  lm_check m = Ok tt /\ ra_handle out = handle m /\ ra_probes out <> [] /\ Forall (went_through m) (ra_probes out).
Proof.
  unfold ratify. destruct (lm_check m) as [[]|]; [|done]. destruct (probe_shapes m) as [shapes|]; [|done].
  destruct (ratify_shapes m shapes []) as [[probes|]|] eqn:Er; [|done..]. cbn.
  case_bool_decide; [done|]. intros [= <-]. split_and!; [done..|]. cbn. by eapply ratify_shapes_recorded; [constructor|].
Qed.
End ratified.

Section passing.
Context `{Allocator} (Hmem : forall k, try_reserve k = true).

Lemma ratify_shapes_pass m shapes probes :
  lm_check m = Ok tt -> Forall (Forall in_u64) shapes ->
  (forall shape p, shape ∈ shapes -> lm_plan m shape = Ok p -> prodZ (lp_extents p) * ELEMENT <= ISIZE_MAX) ->
  ratify_shapes m shapes probes = Some (Ok (probes ++ omap (probe_of m) shapes)).
Proof.
  intros Hc. revert probes. induction shapes as [|shape shapes IH]; intros probes Hs Hfit; cbn [ratify_shapes].
  { cbn. by rewrite app_nil_r. }
  apply Forall_cons in Hs as [Hsh Hs]. assert (forall probes, ratify_shapes m shapes probes = Some (Ok (probes ++ omap (probe_of m) shapes))) as IH'.
  { intros. apply IH; [done|]. intros. eapply Hfit; [by right|done]. }
  change (omap (probe_of m) (shape :: shapes))
    with (match probe_of m shape with Some x => x :: omap (probe_of m) shapes | None => omap (probe_of m) shapes end).
  unfold probe_of at 1. destruct (lm_plan m shape) as [p|e] eqn:Ep.
  - specialize (Hfit shape p ltac:(left) Ep).
    destruct (plan_spec m shape p Hc Hsh Ep) as (gs & Hwf & _).
    { unfold ELEMENT, ISIZE_MAX, U64 in *. lia. }
    rewrite (ratify_shape_passes Hmem m shape p gs Ep Hwf), IH', <- app_assoc; [done|].
    rewrite (pw_dest _ _ Hwf), <- (pw_extents _ _ Hwf). done.
  - unfold ratify_shape. by rewrite Ep, IH'.
Qed.

Lemma ratify_checked m :
  lm_check m = Ok tt -> probes_fit m ->
  exists shapes, probe_shapes m = Some shapes /\
    ratify m = Some (match omap (probe_of m) shapes with
                     | [] => Err (LE_Record (handle m) NoProbe)
                     | probes => Ok (Ratification (handle m) probes)
                     end).
Proof.
  intros Hc Hfit. destruct (probe_shapes_ok m Hc) as (shapes & Hs & Hu). exists shapes. split; [done|].
  unfold ratify. rewrite Hc, Hs, ratify_shapes_pass by eauto. cbn [app].
  destruct (omap (probe_of m) shapes); [by rewrite bool_decide_true|by rewrite bool_decide_false].
Qed.

End passing.

(** C33: Ratification means what it says, and refuses a checked record only when
    no probe reaches it.  Of any record: a ratification that is returned names the
    record, has at least one probe, and each of its probes went through: a source
    with a pattern of its own in every element was applied, as many destination
    elements as the source has came from it, every other one was zero and is
    reported as padding, and the destination read back gave the source.  And with
    memory, for a record that passes its check and whose probes are no larger than
    an allocation may be, no probe finds a fault: the answer is the ratification by
    exactly the probes the record does not refuse, or [NoProbe] when it refuses
    them all. *)
Theorem checked_record_ratifies `{Allocator} m :
  (forall out, ratify m = Some (Ok out) ->
     lm_check m = Ok tt /\ ra_handle out = handle m /\ ra_probes out <> [] /\
     Forall (went_through m) (ra_probes out)) /\
  ((forall k, try_reserve k = true) -> lm_check m = Ok tt -> probes_fit m ->
   exists shapes, probe_shapes m = Some shapes /\
     ratify m = Some (match omap (probe_of m) shapes with
                      | [] => Err (LE_Record (handle m) NoProbe)
                      | probes => Ok (Ratification (handle m) probes)
                      end)).
Proof. split; [apply ratify_recorded|]. intros Hm. by apply ratify_checked. Qed.

(** ** The catalog *)

Section catalog.
Context `{LayoutDocuments}.

Record catalogued (rows : list (list byte * list byte)) (out : btree layout_morphism) : Prop := {
  ct_sorted : bt_sorted out;
  ct_rows h r : bt_get h out = Some r -> handle r = h /\ lm_check r = Ok tt /\ exists row, row ∈ rows /\ record_from_str row.2 = Ok r;
  ct_all row : row ∈ rows -> exists r, record_from_str row.2 = Ok r /\ bt_get (handle r) out = Some r
}.
Lemma catalog_rows done rows out out' :
  catalogued done out -> for_each catalog_step out rows = Ok out' -> catalogued (done ++ rows) out'.
Proof.
  revert done out. induction rows as [|[file document] rows IH]; intros done out Hc Hr; cbn [for_each] in Hr.
  { simplify_eq. by rewrite app_nil_r. }
  unfold catalog_step at 1 in Hr. destruct (record_from_str document) as [r|] eqn:Er; [|done]. cbn [map_err] in Hr.
  destruct (lm_check r) as [[]|] eqn:Ek; [|done]. destruct (bt_get (handle r) out) eqn:Eg; [done|].
  change (done ++ (file, document) :: rows) with (done ++ [(file, document)] ++ rows). rewrite app_assoc.
  apply (IH _ (bt_insert (handle r) r out)); [|done]. destruct Hc as [Hsrt Hrows Hall]. split.
  - by apply bt_insert_sorted.
  - intros h r'. rewrite bt_get_insert by done. case_decide as Hh.
    + intros [= <-]. subst h. split; [done|]. split; [done|]. exists (file, document). split; [apply elem_of_app; right; left|done].
    + intros (-> & ? & row & Hin & ?)%Hrows. split_and!; [done..|]. exists row. split; [apply elem_of_app; by left|done].
  - intros row [Hin|Hin%list_elem_of_singleton]%elem_of_app.
    + destruct (Hall row Hin) as (r' & Hr' & Hg). exists r'. split; [done|]. rewrite bt_get_insert by done.
      rewrite decide_False; [done|]. intros He. rewrite He, Eg in Hg. done.
    + subst row. exists r. split; [done|]. by rewrite bt_get_insert, decide_True.
Qed.

(** The catalog holds the record of every document under its own handle, each
    checked, and the default arrangement among them. *)
Theorem catalog_sound CATALOG records :
  catalog CATALOG = Ok records ->
  catalogued CATALOG records /\ is_Some (bt_get DEFAULT_LAYOUT records).
Proof.
  unfold catalog. destruct (for_each catalog_step [] CATALOG) as [out|] eqn:E; [|done].
  destruct (bt_get DEFAULT_LAYOUT out) eqn:Ed; [|done]. intros [= <-]. split; [|eauto].
  apply (catalog_rows [] CATALOG [] out) in E; [done|]. split; [constructor|done|]. intros row Hin. by apply not_elem_of_nil in Hin.
Qed.
Lemma arrangement_named CATALOG h r : arrangement CATALOG h = Ok r -> handle r = h /\ lm_check r = Ok tt.
Proof.
  unfold arrangement. destruct (catalog CATALOG) as [records|] eqn:E; [|done].
  destruct (bt_get h records) as [r'|] eqn:Eg; [|done]. intros [= <-]. destruct (catalog_sound _ _ E) as [Hc _].
  by destruct (ct_rows _ _ Hc _ _ Eg) as (? & ? & _).
Qed.
End catalog.

(** ** The shipped records *)

(** [spec/v2/layouts], without their prose. *)
Definition shipped_record (name : list byte) (class : layout_class) (rank : nat) (subs : list sub_axis) (perm : list nat)
  : layout_morphism :=
  LayoutMorphism LAYOUT_MORPHISM_FORMAT name 1 class [] rank subs perm false [bstr "evidence"] [].
Definition axes_record (name : list byte) (rank : nat) (perm : list nat) : layout_morphism :=
  shipped_record name Inductor rank ((fun a => SubAxis a (bstr "d" ++ to_dec (Z.of_nat a))) <$> seq 0 rank) perm.
Definition shipped : list layout_morphism :=
  [blockscale;
   shipped_record (bstr "nunchaku.micro-scale") EndpointDeclared 2
     [sub 0 (bstr "d0/128"); sub 0 (bstr "1"); sub 0 (bstr "4"); sub 0 (bstr "4"); sub 0 (bstr "8"); sub 1 (bstr "d1/4"); sub 1 (bstr "4")]
     [0; 5; 1; 4; 3; 2; 6]%nat;
   axes_record (bstr "torch.channels_last-2d") 4 [0; 2; 3; 1]%nat;
   axes_record (bstr "torch.channels_last-3d") 5 [0; 2; 3; 4; 1]%nat;
   contiguous_layout;
   shipped_record (bstr "torch.stride-padding-16") Inductor 2
     [sub 0 (bstr "d0"); sub 1 (bstr "ceil(d1/16)"); sub 1 (bstr "16")] [0; 1; 2]%nat;
   axes_record (bstr "torch.transposed") 2 [1; 0]%nat].

(** A record that checks, whose probes fit, and that some probe reaches. *)
Definition plan_fits (m : layout_morphism) (shape : list Z) : bool :=
  match lm_plan m shape with Ok p => prodZ (lp_extents p) * ELEMENT <=? ISIZE_MAX | Err _ => true end.
Definition reached (m : layout_morphism) : bool :=
  is_ok (lm_check m) &&
  match probe_shapes m with
  | Some shapes => forallb (plan_fits m) shapes && match omap (probe_of m) shapes with [] => false | _ => true end
  | None => false
  end.
Lemma reached_fits m : reached m = true -> lm_check m = Ok tt /\ probes_fit m /\
  forall shapes, probe_shapes m = Some shapes -> omap (probe_of m) shapes <> [].
Proof.
  unfold reached. intros [Hc Hr]%andb_true_iff. destruct (probe_shapes m) as [shapes|] eqn:Hs; [|done].
  apply andb_true_iff in Hr as [Hf Hne]. split_and!.
  - by destruct (lm_check m) as [[]|].
  - intros shapes' shape p Hs' Hin Hp. rewrite Hs in Hs'. simplify_eq. rewrite forallb_forall in Hf.
    specialize (Hf shape (proj1 (list_elem_of_In _ _) Hin)). unfold plan_fits in Hf. rewrite Hp in Hf. lia.
  - intros shapes' [= <-]. by destruct (omap (probe_of m) shapes).
Qed.

#[local] Existing Instance ample_memory.

(** A record of thirds passes its check, and refuses the only probes there are. *)
Example thirds_unreached :
  ratify (shipped_record (bstr "thirds") EndpointDeclared 1 [sub 0 (bstr "d0/3"); sub 0 (bstr "2")] [0; 1]%nat)
    = Some (Err (LE_Record (bstr "thirds@1") NoProbe)).
Proof. vm_compute. reflexivity. Qed.

(** Every shipped record is ratified. *)
Example shipped_ratified : Forall (fun m => exists r, ratify m = Some (Ok r)) shipped.
Proof.
  assert (forallb reached shipped = true) as Hr by (vm_compute; reflexivity). rewrite forallb_forall in Hr.
  apply Forall_forall. intros m Hm%list_elem_of_In. destruct (reached_fits m (Hr m Hm)) as (Hc & Hf & Hne).
  destruct (ratify_checked ltac:(done) m Hc Hf) as (shapes & Hs & ->). specialize (Hne shapes Hs).
  destruct (omap (probe_of m) shapes); [done|eauto].
Qed.

Lemma checked_record_ratifies_witness :
  ratify blockscale = Some (Ok (Ratification (bstr "cublas.blockscale-128x4@1") [Probe [256; 12] 3072 false; Probe [255; 11] 3072 true])).
Proof.
  destruct (proj2 (checked_record_ratifies blockscale)) as (shapes & Hs & ->); [done|vm_compute; reflexivity| |].
  - apply reached_fits. vm_compute. reflexivity.
  - assert (probe_shapes blockscale = Some [[256; 12]; [255; 11]]) as E by (vm_compute; reflexivity).
    rewrite E in Hs. injection Hs as <-. vm_compute. reflexivity.
Defined.

(** The catalog the records make, with a reader that finds them by their place. *)
#[local] Instance by_place : LayoutDocuments := {|
  record_from_str document :=
    match shipped !! Z.to_nat (zlen document) with Some m => Ok m | None => Err (bstr "syntax") end
|}.
Example shipped_catalog :
  (exists records, catalog ((fun i => (bstr "layout", replicate i POISON)) <$> seq 0 7) = Ok records) /\
  arrangement ((fun i => (bstr "layout", replicate i POISON)) <$> seq 0 7) DEFAULT_LAYOUT = Ok contiguous_layout.
Proof. split; [eexists|]; vm_compute; reflexivity. Qed.
