(* ===== verification/Compose.v ===== *)
(** Composition ([src/crates/tensorfs-core/src/compose.rs]): a new tensor
    container out of a committed one's own objects.  A re-key or a trim writes
    one new header and inherits every tensor's records; an adoption re-cuts a
    file under a contract; a derivation serves it in another contract, moving
    only the tensors whose elements change places.

    [serde_json::to_string] of a string is a parameter. *)
From S2P Require Export Seal.
From S2P Require Import PermuteKernel Adapter.

(** [serde_json::to_string(&str)]: the quoted, escaped text. *)
Class JsonText : Type := { json_string : list byte -> list byte }.

(** [enum ComposeError]; the text of [NotDerivable] is represented by what it
    states. *)
Inductive not_derivable : Type :=
| ND_Adapter (e : adapter_error)
| ND_Conversion (reason : conversion)
| ND_NoElementSize (name : list byte)
| ND_PermuteDoesNotFit (name : list byte).
Inductive compose_error : Type :=
| CO_NotATensorContainer
| CO_Unreadable (format : tensor_format)
| CO_UnknownTensor (name : list byte)
| CO_UnnamedTensor (name : list byte)
| CO_DuplicateName (name : list byte)
| CO_UnusableName (name : list byte)
| CO_NotObjectAligned (what : list byte)
| CO_HeaderTooLarge
| CO_NotDerivable (detail : not_derivable)
| CO_Plan (e : plan_error)
| CO_Store (e : store_error)
| CO_Panic.

(** [enum Unnamed]. *)
Inductive unnamed_policy : Type := Refuse | Drop.

(** ** Choosing and inheriting *)

(** The first loop of [select]: the tensors kept, the names taken, the source
    names seen. *)
Definition select_step {T} (name_of : T -> list byte) (names : btree (list byte))
    (unnamed : unnamed_policy)
    (st : list (list byte * T) * list (list byte) * list (list byte)) (tensor : T)
  : result compose_error (list (list byte * T) * list (list byte) * list (list byte)) :=
  let '(kept, taken, sources) := st in
  let old := name_of tensor in
  let sources := old :: sources in
  match bt_get old names, unnamed with
  | Some new, _ =>
      if bool_decide (new ∈ taken) then Err (CO_DuplicateName new)
      else Ok (kept ++ [(new, tensor)], new :: taken, sources)
  | None, Drop => Ok (kept, taken, sources)
  | None, Refuse => Err (CO_UnnamedTensor old)
  end.

(** [select]. *)
Definition select {T} (name_of : T -> list byte) (names : btree (list byte))
    (unnamed : unnamed_policy) (tensors : list T) : result compose_error (list (list byte * T)) :=
  let? (kept, _, sources) := for_each (select_step name_of names unnamed) ([], [], []) tensors in
  let? _ := for_each (fun (_ : unit) old =>
      if bool_decide (old ∈ sources) then Ok tt else Err (CO_UnknownTensor old)) tt names.*1 in
  Ok kept.

(** The loop of [inherit]. *)
Fixpoint inherit_loop (start stop position : Z) (taken records : list file_record)
  : option (list file_record) :=
  match records with
  | [] => Some taken
  | record :: records =>
      let record_end := wadd position (record_length record) in
      if record_end <=? start then inherit_loop start stop record_end taken records
      else if stop <=? position then Some taken
      else if (position <? start) || (stop <? record_end) then None
      else inherit_loop start stop record_end (taken ++ [record]) records
  end.

(** [records.iter().map(record_length).sum()]. *)
Definition records_sum (records : list file_record) : Z :=
  foldl (fun acc r => wadd acc (record_length r)) 0 records.

(** [inherit]. *)
Definition inherit (records : list file_record) (start length : Z) : option (list file_record) :=
  let* stop := checked_add start length in
  let* taken := inherit_loop start stop 0 [] records in
  if records_sum taken =? length then Some taken else None.

(** [.ok_or_else(|| NotObjectAligned(..))]. *)
Definition inherit_or (what : list byte) (records : list file_record) (start length : Z)
  : result compose_error (list file_record) :=
  let! taken := inherit records start length ?: CO_NotObjectAligned what in Ok taken.

Section compose.
Context `{Sha256, Allocator, HeaderJson, EntrySort, JsonText}.
Implicit Types names : btree (list byte).

(** [admit]: a new region on the seal grid. *)
Definition admit_bytes (bytes : list byte) : M disk compose_error (list file_record) :=
  for_m (fun records piece =>
    let<- a := map_err_m CO_Store (put_bytes piece) in
    ret (records ++ [Data (ao_digest a) (ao_length a)])) [] (chunks MAX_OBJECT_SIZE bytes).

(** ** The safetensors header *)

(** [",".join(shape)], as the two nested writes have it. *)
Definition render_shape (shape : list Z) : list byte := join (byte_of 44) (to_dec <$> shape).

(** A literal between quotation marks. *)
Definition quoted (text : list byte) : list byte := [byte_of 34] ++ text ++ [byte_of 34].

(** One tensor of the header, from the data cursor on. *)
Definition render_entry (cursor : Z) (t : list byte * list byte * list Z * Z) : list byte :=
  let '(name, dtype, shape, length) := t in
  json_string name ++ bstr ":{" ++ quoted (bstr "dtype") ++ bstr ":" ++ json_string dtype
  ++ bstr "," ++ quoted (bstr "shape") ++ bstr ":[" ++ render_shape shape
  ++ bstr "]," ++ quoted (bstr "data_offsets") ++ bstr ":[" ++ to_dec cursor ++ bstr ","
  ++ to_dec (wadd cursor length) ++ bstr "]}".

(** The loop over the declared tensors: the index, the cursor and the text. *)
Definition render_step (st : nat * Z * list byte) (t : list byte * list byte * list Z * Z)
  : nat * Z * list byte :=
  let '(index, cursor, header) := st in
  let header := if decide (0 < index)%nat then header ++ bstr "," else header in
  (S index, wadd cursor t.2, header ++ render_entry cursor t).
Definition header_text (tensors : list (list byte * list byte * list Z * Z)) : list byte :=
  let '(_, _, header) := foldl render_step (0%nat, 0, bstr "{") tensors in header ++ bstr "}".

(** [safetensors_header]: the text padded to eight bytes, after its length. *)
Definition pad_to_eight (text : list byte) : list byte :=
  text ++ replicate (Z.to_nat (8 * div_ceil (zlen text) 8 - zlen text)) (byte_of 32).
Definition safetensors_header (tensors : list (list byte * list byte * list Z * Z)) : list byte :=
  let bytes := pad_to_eight (header_text tensors) in
  u64_bytes (zlen bytes) ++ bytes.

(** ** Re-keys and trims *)

(** [compose_safetensors], from the layout on. *)
Definition st_compose_layout (records : list file_record) (names : btree (list byte))
    (unnamed : unnamed_policy) (layout : st_layout) : M disk compose_error (list file_record) :=
  let<- kept := lift (select te_name names unnamed (sl_tensors layout)) in
  lift (for_each (fun (_ : unit) (nt : list byte * tensor_entry) =>
    if bool_decide (nt.1 = []) || bool_decide (nt.1 = bstr "__metadata__")
    then Err (CO_UnusableName nt.1) else Ok tt) tt kept);;;
  let declared := (fun nt : list byte * tensor_entry =>
    (nt.1, te_dtype nt.2, te_shape nt.2, wsub (te_end nt.2) (te_start nt.2))) <$> kept in
  let<- composed := admit_bytes (safetensors_header declared) in
  lift (for_each (fun composed (nt : list byte * tensor_entry) =>
    let? inherited := inherit_or (te_name nt.2) records
      (wadd (sl_header_end layout) (te_start nt.2)) (wsub (te_end nt.2) (te_start nt.2)) in
    Ok (composed ++ inherited)) composed kept).
Definition compose_safetensors (records : list file_record) (names : btree (list byte))
    (unnamed : unnamed_policy) : M disk compose_error (list file_record) :=
  let<- layout := map_err_m CO_Plan (st_read_layout (H := records_byte_source records)) in
  match layout with
  | None => fail (CO_Unreadable TF_SafetensorsV1)
  | Some layout => st_compose_layout records names unnamed layout
  end.

(** One tensor of the rewritten GGUF directory: the entry and the next offset. *)
Definition directory_row (alignment : Z) (st : list byte * Z) (nt : list byte * tensor_info)
  : result compose_error (list byte * Z) :=
  let '(directory, offset) := st in
  let '(name, t) := nt in
  let directory := directory ++ u64_bytes (zlen name) ++ name ++ u32_bytes (ti_dimension_count t)
    ++ (take (Z.to_nat (ti_dimension_count t)) (ti_dimensions t) ≫= u64_bytes)
    ++ u32_bytes (ti_ggml_type t) ++ u64_bytes offset in
  let! padded := align_up (Gguf.ti_length t) alignment ?: CO_HeaderTooLarge in
  Ok (directory, wadd offset padded).

(** The metadata block: inherited whole when every tensor is kept, and otherwise
    rewritten with the new tensor count. *)
Definition compose_metadata (records : list file_record) (layout : gguf_layout) (kept : Z)
  : M disk compose_error (list file_record) :=
  if kept =? zlen (gl_tensors layout) then
    lift (inherit_or (bstr "the metadata block") records 0 (gl_directory_start layout))
  else
    let<- metadata := map_err_m (fun e => CO_Plan (PE_Read e))
      (records_read (records_source_new records) 0 (gl_directory_start layout)) in
    if zlen metadata <? 16 then fail CO_Panic
    else admit_bytes (take 8 metadata ++ u64_bytes kept ++ drop 16 metadata).

(** [compose_gguf], from the layout on. *)
Definition gguf_compose_layout (records : list file_record) (names : btree (list byte))
    (unnamed : unnamed_policy) (layout : gguf_layout) : M disk compose_error (list file_record) :=
  let<- kept := lift (select ti_name names unnamed (gl_tensors layout)) in
  lift (for_each (fun (_ : unit) (nt : list byte * tensor_info) =>
    if (MAX_TENSOR_NAME_LEN <? zlen nt.1) || bool_decide (byte_of 0 ∈ nt.1)
    then Err (CO_UnusableName nt.1) else Ok tt) tt kept);;;
  let<- metadata := compose_metadata records layout (zlen kept) in
  let<- '(directory, _) :=
    lift (for_each (directory_row (gl_alignment layout)) ([], 0) kept) in
  let<- directory_end := lift
    (let! e := checked_add (gl_directory_start layout) (zlen directory) ?: CO_HeaderTooLarge in Ok e) in
  let<- data_start := lift
    (if bool_decide (kept = []) then Ok directory_end
     else let! s := align_up directory_end (gl_alignment layout) ?: CO_HeaderTooLarge in Ok s) in
  let<- written := admit_bytes directory in
  let<- padding :=
    if directory_end <? data_start then
      admit_bytes (replicate (Z.to_nat (data_start - directory_end)) (byte_of 0))
    else ret [] in
  lift (for_each (fun composed (nt : list byte * tensor_info) =>
    let start := wadd (gl_data_start layout) (ti_offset nt.2) in
    let! padded := align_up (Gguf.ti_length nt.2) (gl_alignment layout) ?: CO_HeaderTooLarge in
    let? inherited := inherit_or (ti_name nt.2) records start padded in
    Ok (composed ++ inherited)) (metadata ++ written ++ padding) kept).
Definition compose_gguf (records : list file_record) (names : btree (list byte))
    (unnamed : unnamed_policy) : M disk compose_error (list file_record) :=
  let<- layout := map_err_m CO_Plan (gguf_read_layout (H := records_byte_source records)) in
  match layout with
  | None => fail (CO_Unreadable TF_GgufV1)
  | Some layout => gguf_compose_layout records names unnamed layout
  end.

(** [compose], [rekey] and [subset]. *)
Definition compose_body (body : file_body) (names : btree (list byte)) (unnamed : unnamed_policy)
  : M disk compose_error file_body :=
  match body with
  | Blob _ _ => fail CO_NotATensorContainer
  | Tensor format contract _ records =>
      let<- composed :=
        match format with
        | TF_SafetensorsV1 => compose_safetensors records names unnamed
        | TF_GgufV1 => compose_gguf records names unnamed
        end in
      ret (Tensor format contract (records_sum composed) composed)
  end.
Definition rekey (body : file_body) (names : btree (list byte)) : M disk compose_error file_body :=
  compose_body body names Refuse.
Definition subset (body : file_body) (names : btree (list byte)) : M disk compose_error file_body :=
  compose_body body names Drop.

(** ** Adopting a contract *)

(** The committed boundaries; a hole moves the position too. *)
Definition positioned_ranges (records : list file_record) : list (Z * Z * list byte) :=
  (foldl (fun '(acc, position) r =>
     (match r with Data digest length => acc ++ [(position, length, digest)] | Hole _ => acc end,
      wadd position (record_length r))) ([], 0) records).1.

(** The last loop of [adopt]: a region takes its committed digest or the next
    fresh one; [None] is the [expect]. *)
Fixpoint adopt_records (committed : list (Z * Z * list byte)) (fresh : list (list byte))
    (regions : list region) : option (list file_record) :=
  match regions with
  | [] => Some []
  | r :: regions =>
      match by_range committed r with
      | Some digest =>
          let* rest := adopt_records committed fresh regions in Some (Data digest (r_length r) :: rest)
      | None =>
          match fresh with
          | [] => None
          | digest :: fresh =>
              let* rest := adopt_records committed fresh regions in
              Some (Data digest (r_length r) :: rest)
          end
      end
  end.

(** [adopt]. *)
Definition adopt (concurrency : Z) (schedule : list region -> list nat) (body : file_body)
    (contract : option contract) : M disk compose_error file_body :=
  match body with
  | Blob _ _ => fail CO_NotATensorContainer
  | Tensor format _ _ records =>
      let source := records_byte_source records in
      let<- planned := map_err_m CO_Plan (plan_with (H := source) contract) in
      if negb (bool_decide (planner_tensor_format (p_planner planned) = Some format)) then
        fail (CO_Unreadable format)
      else
        let committed := positioned_ranges records in
        let pending := filter (fun r => by_range committed r = None) (p_regions planned) in
        let<- admitted := map_err_m CO_Store
          (admit_regions (H := source) concurrency (schedule pending) pending) in
        match adopt_records committed (ao_digest <$> admitted) (p_regions planned) with
        | None => fail CO_Panic
        | Some composed =>
            ret (Tensor format (p_contract planned) (records_sum composed) composed)
        end
  end.

(** ** Deriving another layout *)

(** One run read into its place in the buffer; a slice out of range panics. *)
Definition read_run (records : list file_record) (st : list byte * Z) (run : source_run_t)
  : M disk compose_error (list byte * Z) :=
  let '(bytes, written) := st in
  if zlen bytes <? written + sr_length run then fail CO_Panic
  else
    let<- read := map_err_m (fun e => CO_Plan (PE_Read e))
      (records_read (records_source_new records) (sr_offset run) (sr_length run)) in
    match Morphism.splice bytes written read with
    | None => fail CO_Panic
    | Some bytes => ret (bytes, written + sr_length run)
    end.

(** The concatenated runs of one tensor, read into one buffer. *)
Definition read_runs (records : list file_record) (t : derived_tensor_t)
  : M disk compose_error (list byte) :=
  check (try_reserve (dt_length t)) (CO_Plan PE_ResourceExhausted);;;
  let<- '(bytes, _) := for_m (read_run records)
    (replicate (Z.to_nat (dt_length t)) (byte_of 0), 0) (dt_runs t) in
  ret bytes.

(** One tensor of [derive]: inherited run by run, or read, moved and admitted. *)
Definition derive_tensor (records composed : list file_record) (t : derived_tensor_t)
  : M disk compose_error (list file_record) :=
  if transform_is_identity (dt_transform t) then
    lift (for_each (fun composed run =>
      let? inherited := inherit_or (sr_role run) records (sr_offset run) (sr_length run) in
      Ok (composed ++ inherited)) composed (dt_runs t))
  else
    let<- bytes := read_runs records t in
    let elements := foldl wmul 1 (dt_shape t) in
    let element_size := dt_length t / Z.max elements 1 in
    if element_size =? 0 then fail (CO_NotDerivable (ND_NoElementSize (dt_name t)))
    else
      match transform_apply (dt_transform t) bytes element_size (dt_shape t) with
      | None => fail CO_Panic
      | Some None => fail (CO_NotDerivable (ND_PermuteDoesNotFit (dt_name t)))
      | Some (Some moved) => let<- admitted := admit_bytes moved in ret (composed ++ admitted)
      end.

(** [derive]. *)
Definition derive (body : file_body) (source_contract target_contract : contract)
  : M disk compose_error file_body :=
  match body with
  | Blob _ _ => fail CO_NotATensorContainer
  | Tensor _ _ _ records =>
      let source := records_byte_source records in
      let<- taken := map_err_m CO_Plan (inventory (H := source)) in
      match taken with
      | None => fail (CO_Unreadable TF_SafetensorsV1)
      | Some taken =>
          match decide_layout source_contract taken target_contract with
          | Err AE_Panic => fail CO_Panic
          | Err e => fail (CO_NotDerivable (ND_Adapter e))
          | Ok (Conversion reason) => fail (CO_NotDerivable (ND_Conversion reason))
          | Ok (RunPreserving adapter) | Ok (Rearranged adapter _) =>
              let declared := (fun t => (dt_name t, dt_dtype t, dt_shape t, dt_length t))
                <$> ad_tensors adapter in
              let<- header := admit_bytes (safetensors_header declared) in
              let<- composed := for_m (derive_tensor records) header (ad_tensors adapter) in
              ret (Tensor TF_SafetensorsV1 (contract_stamp target_contract) (records_sum composed)
                     composed)
          end
      end
  end.
End compose.
