(* ===== verification/Sync.v ===== *)
(** The sync engine ([src/crates/tensorfs-core/src/sync.rs], all of it but the
    HTTP adapter): a snapshot is pushed to a remote, or pulled from one, moving
    only the objects the other side is missing.

    The trait [SyncTransport] is a class over the remote's state: what the remote
    answers, and what becomes of it, is any function at all.  The engine runs in
    a session: the local store, the remote, and a log of the calls it made and
    the progress it reported, which nothing reads.  A call to the remote goes
    through the process's own system calls, so it can fail on the way out, fail
    with the effect already made, or be cut short by a kill; a dead process
    makes none.

    The loops that wait for the remote take fuel; [SY_OutOfFuel] is no error of
    the source. *)
From S2P Require Import Tfp1.
From S2P Require Export Seal.

Definition U32 : Z := 2 ^ 32.
Definition wadd32 (a b : Z) : Z := (a + b) mod U32.

Definition DOWNLOAD_GRANT_BATCH : Z := 256.
Definition BLOB_GRANT_BATCH : Z := 16.
Definition DOWNLOAD_ATTEMPTS : Z := 4.
Definition PUSH_LEASE_HOLDER : list byte := bstr "sync-push".

(** [enum Progress]. *)
Inductive progress : Type :=
| PBytes (moved : Z)
| PObject (digest : list byte) (length : Z).

(** ** The wire *)

(** [struct PackGrant], [DownloadGrant], [BlobPart], [BlobGrant],
    [BlobPartReport], [StagedPack], [PackClaim]. *)
Abbreviation headers := (list (list byte * list byte)).
Record pack_grant : Type := PackGrant {
  pg_pack_sha256 : list byte; pg_staging_key : list byte; pg_url : list byte; pg_headers : headers
}.
Record download_grant : Type := DownloadGrant {
  dg_digest : list byte; dg_length : Z; dg_url : list byte
}.
Record blob_part : Type := BlobPart {
  bp_part_number : Z; bp_size_bytes : Z; bp_url : list byte; bp_headers : headers
}.
Record blob_grant : Type := BlobGrant {
  bg_digest : list byte; bg_length : Z; bg_staging_key : list byte; bg_upload_id : list byte;
  bg_part_size : Z; bg_parts : list blob_part; bg_uploaded_parts : list Z
}.
Record blob_part_report : Type := BlobPartReport { br_part_number : Z; br_etag : list byte }.
Record staged_pack : Type := StagedPack { sp_sha256 : list byte; sp_staged : bool }.
Record pack_claim : Type := PackClaim {
  pc_sha256 : list byte; pc_size_bytes : Z; pc_objects : list (list byte)
}.

(** [struct SyncPlan], [struct GrantsPlan], [enum CompleteStatus]. *)
Abbreviation owed := (list (list byte * Z)).
Record sync_plan : Type := SyncPlan {
  pl_snapshot_id : list byte; pl_session : list byte; pl_have : list (list byte);
  pl_staged_packs : list staged_pack; pl_missing : owed; pl_missing_blobs : owed;
  pl_max_pack_payload : Z; pl_max_packs_per_request : Z
}.
Record grants_plan : Type := GrantsPlan {
  gp_grants : list pack_grant; gp_staged_packs : list staged_pack; gp_missing : owed; gp_missing_blobs : owed
}.
Inductive complete_status : Type :=
| Promoted
| Incomplete (code : list byte) (promoted total : Z)
| CFailed (code : list byte).

(** [enum TransportError]. *)
Inductive transport_error : Type :=
| TE_Expired (detail : list byte)
| TE_Refused (code detail : list byte)
| TE_Io (detail : list byte).

(** [enum SyncError]. *)
Inductive sync_error : Type :=
| SY_Workspace (e : workspace_error)
| SY_Store (e : store_error)
| SY_Transport (e : transport_error)
| SY_Pack (e : tfp1_error)
| SY_Manifest (e : tfm1_error)
| SY_IdentityMismatch (local remote : list byte)
| SY_HeadRefused (code : list byte)
| SY_RemoteManifestCorrupt (id : list byte)
| SY_NoRemoteHead
| SY_LocalObjectLength (digest : list byte) (expected actual : Z)
| SY_GrantOmitted (digest : list byte)
| SY_MissingNotCanonical (digest : list byte)
| SY_MissingLength (digest : list byte) (expected actual : Z)
| SY_PackGrantOmitted (sha : list byte)
| SY_ReplansStalled (rounds owed : Z)
| SY_CompletionStalled (stalls promoted : Z) (last : list byte)
| SY_BlobGrantOmitted (digest : list byte)
| SY_BlobLaneMismatch (digest : list byte) (length limit : Z) (blob_lane : bool)
| SY_BlobPartCoverage (digest : list byte) (length granted : Z)
| SY_BlobPartAttemptsExhausted (digest : list byte) (attempts : Z)
| SY_BlobNotAccepted (digest : list byte)
| SY_OutOfFuel.

(** [struct PushOptions], [PushReport], [PullReport]. *)
Record push_options : Type := PushOptions {
  max_stalled_replans : Z; max_upload_attempts : Z; max_completion_stalls : Z
}.
Definition default_options : push_options := PushOptions 16 8 24.
Record push_report : Type := PushReport {
  uploaded_objects : Z; uploaded_bytes : Z; packs : Z; blobs : Z; blob_parts : Z;
  skipped_remote_resident : Z; complete_attempts : Z; replans : Z
}.
Record pull_report : Type := PullReport {
  fetched_objects : Z; fetched_bytes : Z; skipped_local_resident : Z
}.

(** ** Deciding what to move *)

(** The loop of [data_closure]: the digests seen and the closure. *)
Definition closure_step (st : list (list byte) * owed) (r : file_record) : list (list byte) * owed :=
  match r with
  | Data digest length =>
      if decide (digest ∈ st.1) then st else (digest :: st.1, st.2 ++ [(digest, length)])
  | Hole _ => st
  end.
Definition entry_records (pe : list byte * entry) : list file_record :=
  match pe.2 with File _ body => body_records body | _ => [] end.
Definition data_closure (snap : snapshot) : owed :=
  (foldl closure_step ([], []) (s_entries snap ≫= entry_records)).2.

(** [closure[cursor..].iter().position(..)] and the rest after it. *)
Fixpoint find_from (digest : list byte) (closure : owed) : option (Z * owed) :=
  match closure with
  | [] => None
  | (candidate, length) :: rest =>
      if decide (candidate = digest) then Some (length, rest) else find_from digest rest
  end.

(** [verify_canonical_missing]: one pass over both, the cursor being what is left
    of the closure. *)
Fixpoint verify_canonical_missing (closure missing : owed) : result sync_error unit :=
  match missing with
  | [] => Ok tt
  | (digest, length) :: missing =>
      match find_from digest closure with
      | None => Err (SY_MissingNotCanonical digest)
      | Some (expected, rest) =>
          if negb (length =? expected) then Err (SY_MissingLength digest expected length)
          else verify_canonical_missing rest missing
      end
  end.

(** [verify_lanes]. *)
Definition verify_lanes (closure missing missing_blobs : owed) (max_payload : Z)
  : result sync_error unit :=
  let? _ := verify_canonical_missing closure missing in
  let? _ := verify_canonical_missing closure missing_blobs in
  let? _ := for_each (fun (_ : unit) '(digest, length) =>
    if max_payload <? length then Err (SY_BlobLaneMismatch digest length max_payload false)
    else Ok tt) tt missing in
  for_each (fun (_ : unit) '(digest, length) =>
    if length <=? max_payload then Err (SY_BlobLaneMismatch digest length max_payload true)
    else Ok tt) tt missing_blobs.

(** The greedy assembly of packs: the groups closed, the open one and its size. *)
Definition group_step (max_payload : Z) (st : list owed * owed * Z) (x : list byte * Z)
  : list owed * owed * Z :=
  let '(groups, group, group_bytes) := st in
  let over_payload := max_payload <? wadd group_bytes x.2 in
  let over_count := MAX_PACK_OBJECTS <=? zlen group in
  if negb (bool_decide (group = [])) && (over_payload || over_count)
  then (groups ++ [group], [x], wadd 0 x.2)
  else (groups, group ++ [x], wadd group_bytes x.2).
Definition assemble (max_payload : Z) (missing : owed) : list owed :=
  let '(groups, group, _) := foldl (group_step max_payload) ([], [], 0) missing in
  if bool_decide (group = []) then groups else groups ++ [group].

(** [manifest_object_digest] and [lowercase_hex]. *)
Definition manifest_object_digest (id : list byte) : list byte := id.
Definition lowercase_hex (bytes : list byte) : list byte := to_hex bytes.

(** [back_off]: the pause, in milliseconds. *)
Definition back_off_delay (attempt : Z) : Z :=
  Z.min (250 * Z.shiftl 1 (Z.min attempt 6)) 8000.

(** ** The transport *)

(** [trait SyncTransport], over the remote's state.  A download is the blocks the
    transport hands to the sink, then its answer; when the sink refuses a block
    the transport answers with an error of its own.  The laws are the widths of
    the answers' fields. *)
Class SyncTransport (R : Type) : Type := {
  t_declare : list byte -> option (list byte) -> M R transport_error sync_plan;
  t_pack_grants : list byte -> list pack_claim -> M R transport_error grants_plan;
  t_upload_pack : pack_grant -> list byte -> M R transport_error unit;
  t_blob_grants : list byte -> list (list byte) -> M R transport_error (list blob_grant);
  t_upload_blob_part : blob_part -> list byte -> M R transport_error (list byte);
  t_report_blob_parts : list byte -> list byte -> list blob_part_report -> M R transport_error unit;
  t_complete : list byte -> M R transport_error complete_status;
  t_head : M R transport_error (option (list byte));
  t_download_grants : list (list byte) -> M R transport_error (list download_grant);
  t_download : download_grant -> R -> list (list byte) * result transport_error Z * R;
  t_sink_failed : store_error -> transport_error;
  t_declare_u64 manifest head r plan r' :
    t_declare manifest head r = (Ok plan, r') -> in_u64 (pl_max_pack_payload plan);
  t_blob_grants_u64 session digests r grants r' :
    t_blob_grants session digests r = (Ok grants, r') ->
    Forall (fun g => Forall (fun p => in_u64 (bp_size_bytes p)) (bg_parts g)) grants;
  t_complete_u64 session r code promoted total r' :
    t_complete session r = (Ok (Incomplete code promoted total), r') -> in_u64 promoted;
  t_download_u64 grant r : zlen (concat (t_download grant r).1.1) < U64
}.

(** What the engine does that others can see: the calls that reached the remote,
    each with what the remote answered, and the progress reported. *)
Abbreviation answer := (result transport_error).
Inductive event : Type :=
| EDeclare (manifest : list byte) (r : answer sync_plan)
| EProbe (claims : list pack_claim) (r : answer grants_plan)
| EUploadPack (grant : pack_grant) (pack : list byte) (r : answer unit)
| EBlobGrants (digests : list (list byte)) (r : answer (list blob_grant))
| EUploadPart (part : blob_part) (bytes : list byte) (r : answer (list byte))
| EReportParts (digest : list byte) (parts : list blob_part_report) (r : answer unit)
| EComplete (r : answer complete_status)
| EHead (r : answer (option (list byte)))
| EDownloadGrants (digests : list (list byte)) (r : answer (list download_grant))
| EDownload (digest : list byte) (r : answer (list (list byte) * answer Z))
| EProgress (p : progress).

Record session (R : Type) : Type := Session { se_world : world; se_remote : R; se_log : list event }.
Arguments Session {R}.
Arguments se_world {R}.
Arguments se_remote {R}.
Arguments se_log {R}.

Section engine.
Context {R : Type} `{SyncTransport R, Sha256, Unicode, Unordered, Rowid, Allocator}.

Definition with_remote (r : R) (s : session R) : session R := Session (se_world s) r (se_log s).
Definition with_log (e : event) (s : session R) : session R :=
  Session (se_world s) (se_remote s) (se_log s ++ [e]).
Definition with_world (w : world) (s : session R) : session R := Session w (se_remote s) (se_log s).
Definition with_calls (os : list outcome) (s : session R) : session R :=
  with_world (World (with_outcomes os (w_disk (se_world s))) (w_db (se_world s)) (w_engine (se_world s))) s.
Definition killed (s : session R) : session R :=
  with_world (World (kill (w_disk (se_world s))) (w_db (se_world s)) (w_engine (se_world s))) s.

(** A call to the remote: it is made and answered; the carrier fails, before the
    remote acted or after; or the process is killed, before or after. *)
Definition lost : transport_error := TE_Io (bstr "carrier").
Definition call {A} (e : answer A -> event) (op : M R transport_error A)
  : M (session R) transport_error A := fun s =>
  let made := fun s => let (r, remote) := op (se_remote s) in (r, with_remote remote (with_log (e r) s)) in
  if negb (alive (w_disk (se_world s))) then (Err lost, s)
  else
    match outcomes (w_disk (se_world s)) with
    | [] => made s
    | Proceeds :: os => made (with_calls os s)
    | Fails _ O :: os => (Err lost, with_calls os s)
    | Fails _ (S _) :: os => (Err lost, (made (with_calls os s)).2)
    | Crashes O :: os => (Err lost, killed (with_calls os s))
    | Crashes (S _) :: os => (Err lost, killed (made (with_calls os s)).2)
    end.

(** [transport.op(..)?]. *)
Definition asked {A} (e : answer A -> event) (op : M R transport_error A) : M (session R) sync_error A :=
  map_err_m SY_Transport (call e op).

(** A step on the local store. *)
Definition on_world {E F A} (f : E -> F) (m : M world E A) : M (session R) F A := fun s =>
  let (r, w) := m (se_world s) in (map_err f r, with_world w s).
Definition local {A} (m : M disk store_error A) : M (session R) sync_error A :=
  on_world SY_Store (on_disk m).

(** [progress.object(..)] and [progress.bytes(..)]. *)
Definition report_object {E} (digest : list byte) (length : Z) : M (session R) E unit :=
  modify (with_log (EProgress (PObject digest length))).
Definition report_bytes {E} (moved : Z) : M (session R) E unit :=
  if 0 <? moved then modify (with_log (EProgress (PBytes moved))) else ret tt.

(** ** Pushing packs *)

(** [load_pack_members]. *)
Definition load_member (loaded : list (list byte * list byte)) (member : list byte * Z)
  : M (session R) sync_error (list (list byte * list byte)) :=
  let '(digest, expected) := member in
  let<- file := local (open_object digest) in
  let<- bytes := local (io (query (fun _ => Ok file))) in
  if negb (zlen bytes =? expected) then fail (SY_LocalObjectLength digest expected (zlen bytes))
  else ret (loaded ++ [(digest, bytes)]).
Definition load_pack_members (members : owed) : M (session R) sync_error (list (list byte * list byte)) :=
  for_m load_member [] members.

(** The upload loop of one pack: [false] is an expired grant. *)
Fixpoint upload_pack_loop (fuel : nat) (options : push_options) (attempt : Z) (grant : pack_grant)
    (encoded : list byte) : M (session R) sync_error bool :=
  match fuel with
  | O => fail SY_OutOfFuel
  | S fuel => fun s =>
      match call (EUploadPack grant encoded) (t_upload_pack grant encoded) s with
      | (Ok tt, s) => (Ok true, s)
      | (Err (TE_Io detail), s) =>
          let attempt := attempt + 1 in
          if max_upload_attempts options <=? attempt then (Err (SY_Transport (TE_Io detail)), s)
          else upload_pack_loop fuel options attempt grant encoded s
      | (Err (TE_Expired _), s) => (Ok false, s)
      | (Err e, s) => (Err (SY_Transport e), s)
      end
  end.
Definition upload_fuel (options : push_options) : nat := S (Z.to_nat (max_upload_attempts options)).

Definition payload_of (members : owed) : Z := foldl (fun acc x => wadd acc x.2) 0 members.
Definition claim_of (encoded : list byte) (members : owed) : pack_claim :=
  PackClaim (lowercase_hex (sha256 encoded)) (zlen encoded) members.*1.
Definition count_pack (members : owed) (r : push_report) : push_report :=
  PushReport (wadd (uploaded_objects r) (zlen members)) (wadd (uploaded_bytes r) (payload_of members))
    (wadd (packs r) 1) (blobs r) (blob_parts r) (skipped_remote_resident r) (complete_attempts r) (replans r).

(** One group: loaded, encoded, claimed, granted and uploaded.  [None] is
    [break 'groups]. *)
Definition push_group (options : push_options) (session_id : list byte) (report : push_report) (members : owed)
  : M (session R) sync_error (option push_report) :=
  let<- loaded := load_pack_members members in
  let<- encoded := lift (map_err SY_Pack (Tfp1.encode loaded)) in
  let claim := claim_of encoded members in
  fun s =>
    match call (EProbe [claim]) (t_pack_grants session_id [claim]) s with
    | (Err (TE_Expired _), s) => (Ok None, s)
    | (Err e, s) => (Err (SY_Transport e), s)
    | (Ok granted, s) =>
        match list_find (fun g => pg_pack_sha256 g = pc_sha256 claim) (gp_grants granted) with
        | None =>
            if existsb (fun p => bool_decide (sp_sha256 p = pc_sha256 claim) && sp_staged p)
                 (gp_staged_packs granted)
            then (Ok (Some report), s)
            else (Err (SY_PackGrantOmitted (pc_sha256 claim)), s)
        | Some (_, grant) =>
            (let<- landed := upload_pack_loop (upload_fuel options) options 0 grant encoded in
             if landed : bool then
               for_m (fun (_ : unit) '(digest, length) => report_object digest length) tt members;;;
               ret (Some (count_pack members report))
             else ret None) s
        end
    end.

(** ['groups: for members in groups]. *)
Fixpoint push_groups (options : push_options) (session_id : list byte) (report : push_report)
    (groups : list owed) : M (session R) sync_error push_report :=
  match groups with
  | [] => ret report
  | members :: groups =>
      let<- pushed := push_group options session_id report members in
      match pushed with
      | None => ret report
      | Some report => push_groups options session_id report groups
      end
  end.

Definition count_replan (r : push_report) : push_report :=
  PushReport (uploaded_objects r) (uploaded_bytes r) (packs r) (blobs r) (blob_parts r)
    (skipped_remote_resident r) (complete_attempts r) (wadd32 (replans r) 1).

(** The replan loop. *)
Fixpoint replan_loop (fuel : nat) (options : push_options) (session_id : list byte) (closure : owed)
    (max_payload : Z) (stalled_replans : Z) (missing : owed) (report : push_report)
  : M (session R) sync_error push_report :=
  match missing, fuel with
  | [], _ => ret report
  | _ :: _, O => fail SY_OutOfFuel
  | _ :: _, S fuel =>
      let<- report := push_groups options session_id report (assemble max_payload missing) in
      let report := count_replan report in
      let owed_before := zlen missing in
      let<- refreshed := asked (EProbe []) (t_pack_grants session_id []) in
      let missing := gp_missing refreshed in
      lift (verify_lanes closure missing (gp_missing_blobs refreshed) max_payload);;;
      if zlen missing <? owed_before then
        replan_loop fuel options session_id closure max_payload 0 missing report
      else
        let stalled_replans := stalled_replans + 1 in
        if max_stalled_replans options <=? stalled_replans
        then fail (SY_ReplansStalled stalled_replans (zlen missing))
        else replan_loop fuel options session_id closure max_payload stalled_replans missing report
  end.

(** ** The blob lane *)

Definition count_part (r : push_report) : push_report :=
  PushReport (uploaded_objects r) (uploaded_bytes r) (packs r) (blobs r) (wadd (blob_parts r) 1)
    (skipped_remote_resident r) (complete_attempts r) (replans r).
Definition count_blob (length : Z) (r : push_report) : push_report :=
  PushReport (wadd (uploaded_objects r) 1) (wadd (uploaded_bytes r) length) (packs r) (wadd (blobs r) 1)
    (blob_parts r) (skipped_remote_resident r) (complete_attempts r) (replans r).

(** The upload loop of one part: [None] is an expired grant. *)
Fixpoint upload_part_loop (fuel : nat) (options : push_options) (attempt : Z) (digest : list byte)
    (part : blob_part) (buffer : list byte) : M (session R) sync_error (option (list byte)) :=
  match fuel with
  | O => fail SY_OutOfFuel
  | S fuel => fun s =>
      match call (EUploadPart part buffer) (t_upload_blob_part part buffer) s with
      | (Ok etag, s) => (Ok (Some etag), s)
      | (Err (TE_Io _), s) =>
          let attempt := attempt + 1 in
          if max_upload_attempts options <=? attempt
          then (Err (SY_BlobPartAttemptsExhausted digest attempt), s)
          else upload_part_loop fuel options attempt digest part buffer s
      | (Err (TE_Expired _), s) => (Ok None, s)
      | (Err e, s) => (Err (SY_Transport e), s)
      end
  end.

(** [if !landed.is_empty() { transport.report_blob_parts(..)? }]. *)
Definition report_landed (session_id digest : list byte) (landed : list blob_part_report)
  : M (session R) sync_error unit :=
  if bool_decide (landed = []) then ret tt
  else asked (EReportParts digest landed) (t_report_blob_parts session_id digest landed).

(** The loop over the parts; the flag is [false] when the grant expired. *)
Fixpoint push_parts (options : push_options) (session_id digest : list byte) (records : list file_record)
    (uploaded : list Z) (landed : list blob_part_report) (offset : Z) (parts : list blob_part)
    (report : push_report) : M (session R) sync_error (push_report * bool) :=
  match parts with
  | [] => report_landed session_id digest landed;;; ret (report, true)
  | part :: parts =>
      let start := offset in
      let offset := wadd offset (bp_size_bytes part) in
      if bool_decide (bp_part_number part ∈ uploaded) then
        push_parts options session_id digest records uploaded landed offset parts report
      else
        let<- buffer := local (io (records_read (records_source_new records) start (bp_size_bytes part))) in
        let<- etag := upload_part_loop (upload_fuel options) options 0 digest part buffer in
        match etag with
        | None => report_landed session_id digest landed;;; ret (report, false)
        | Some etag =>
            push_parts options session_id digest records uploaded
              (landed ++ [BlobPartReport (bp_part_number part) etag]) offset parts (count_part report)
        end
  end.

(** [push_one_blob]: the report, and [false] for [BlobOutcome::Expired]. *)
Definition push_one_blob (options : push_options) (session_id : list byte) (grant : blob_grant) (length : Z)
    (report : push_report) : M (session R) sync_error (push_report * bool) :=
  let digest := bg_digest grant in
  if negb (bg_length grant =? length) then fail (SY_MissingLength digest length (bg_length grant))
  else
    let granted := foldl (fun acc p => wadd acc (bp_size_bytes p)) 0 (bg_parts grant) in
    if negb (granted =? length) then fail (SY_BlobPartCoverage digest length granted)
    else
      let<- file := local (open_object digest) in
      let<- resident := local (io (query (fun _ => Ok (zlen file)))) in
      if negb (resident =? length) then fail (SY_LocalObjectLength digest length resident)
      else
        push_parts options session_id digest [Data digest length] (bg_uploaded_parts grant) [] 0
          (bg_parts grant) report.

(** One blob of a granted batch: the report and the blobs put off. *)
Definition push_batch_blob (options : push_options) (session_id : list byte) (grants : list blob_grant)
    (st : push_report * owed) (blob : list byte * Z) : M (session R) sync_error (push_report * owed) :=
  let '(report, deferred) := st in
  let '(digest, length) := blob in
  match list_find (fun g => bg_digest g = digest) grants with
  | None => fail (SY_BlobGrantOmitted digest)
  | Some (_, grant) =>
      let<- '(report, done) := push_one_blob options session_id grant length report in
      if done : bool then report_object digest length;;; ret (count_blob length report, deferred)
      else ret (report, deferred ++ [(digest, length)])
  end.
Definition push_batch (options : push_options) (session_id : list byte) (st : push_report * owed) (batch : owed)
  : M (session R) sync_error (push_report * owed) := fun s =>
  match call (EBlobGrants batch.*1) (t_blob_grants session_id batch.*1) s with
  | (Ok grants, s) => for_m (push_batch_blob options session_id grants) st batch s
  | (Err (TE_Expired _), s) => (Ok (st.1, st.2 ++ batch), s)
  | (Err e, s) => (Err (SY_Transport e), s)
  end.

(** [push_blob_lane]. *)
Fixpoint push_blob_lane (fuel : nat) (options : push_options) (session_id : list byte) (stalled : Z)
    (pending : owed) (report : push_report) : M (session R) sync_error push_report :=
  match pending, fuel with
  | [], _ => ret report
  | _ :: _, O => fail SY_OutOfFuel
  | _ :: _, S fuel =>
      let landed_before := blob_parts report in
      let pending_before := zlen pending in
      let<- '(report, deferred) := for_m (push_batch options session_id) (report, [])
        (chunks BLOB_GRANT_BATCH pending) in
      let pending := deferred in
      let report := count_replan report in
      if (landed_before <? blob_parts report) || (zlen pending <? pending_before) then
        push_blob_lane fuel options session_id 0 pending report
      else
        let stalled := stalled + 1 in
        if max_stalled_replans options <=? stalled then fail (SY_ReplansStalled stalled (zlen pending))
        else push_blob_lane fuel options session_id stalled pending report
  end.

(** ** Completing *)

Definition count_complete (r : push_report) : push_report :=
  PushReport (uploaded_objects r) (uploaded_bytes r) (packs r) (blobs r) (blob_parts r)
    (skipped_remote_resident r) (wadd32 (complete_attempts r) 1) (replans r).

Fixpoint complete_loop (fuel : nat) (options : push_options) (session_id : list byte) (admitted stalls : Z)
    (report : push_report) : M (session R) sync_error push_report :=
  match fuel with
  | O => fail SY_OutOfFuel
  | S fuel => fun s =>
      let report := count_complete report in
      match call EComplete (t_complete session_id) s with
      | (Ok Promoted, s) => (Ok report, s)
      | (Ok (Incomplete code promoted _), s) =>
          if admitted <? promoted then complete_loop fuel options session_id promoted 0 report s
          else
            let stalls := stalls + 1 in
            if max_completion_stalls options <=? stalls
            then (Err (SY_CompletionStalled stalls admitted code), s)
            else complete_loop fuel options session_id admitted stalls report s
      | (Ok (CFailed code), s) => (Err (SY_HeadRefused code), s)
      | (Err (TE_Io detail), s) =>
          let stalls := stalls + 1 in
          if max_completion_stalls options <=? stalls then (Err (SY_Transport (TE_Io detail)), s)
          else complete_loop fuel options session_id admitted stalls report s
      | (Err e, s) => (Err (SY_Transport e), s)
      end
  end.

(** ** Pushing a snapshot *)

Definition resident_report (plan : sync_plan) : push_report :=
  PushReport 0 0 0 0 0 (zlen (pl_have plan)) 0 0.
Definition payload_bound (plan : sync_plan) : Z :=
  if pl_max_pack_payload plan =? 0 then MAX_PACK_PAYLOAD else Z.min (pl_max_pack_payload plan) MAX_PACK_PAYLOAD.

(** The blob lane, then the missing set re-read. *)
Definition push_blobs_first (fuel : nat) (options : push_options) (session_id : list byte) (closure : owed)
    (max_payload : Z) (missing missing_blobs : owed) (report : push_report)
  : M (session R) sync_error (push_report * owed) :=
  if bool_decide (missing_blobs = []) then ret (report, missing)
  else
    let<- report := push_blob_lane fuel options session_id 0 missing_blobs report in
    let<- refreshed := asked (EProbe []) (t_pack_grants session_id []) in
    lift (verify_lanes closure (gp_missing refreshed) (gp_missing_blobs refreshed) max_payload);;;
    match gp_missing_blobs refreshed with
    | (digest, _) :: _ => fail (SY_BlobNotAccepted digest)
    | [] => ret (report, gp_missing refreshed)
    end.

(** [push_snapshot] while the lease is held. *)
Definition push_leased (fuel : nat) (id : list byte) (expected_head : option (list byte))
    (options : push_options) (decoded : snapshot) : M (session R) sync_error push_report :=
  let tfm1_bytes := to_bytes decoded in
  let closure := data_closure decoded in
  let<- plan := asked (EDeclare tfm1_bytes) (t_declare tfm1_bytes expected_head) in
  if negb (bool_decide (pl_snapshot_id plan = id)) then fail (SY_IdentityMismatch id (pl_snapshot_id plan))
  else
    let report := resident_report plan in
    for_m (fun (_ : unit) digest =>
      match list_find (fun x => x.1 = digest) closure with
      | Some (_, (_, length)) => report_object digest length
      | None => ret tt
      end) tt (pl_have plan);;;
    let session_id := pl_session plan in
    let max_payload := payload_bound plan in
    lift (verify_lanes closure (pl_missing plan) (pl_missing_blobs plan) max_payload);;;
    let<- '(report, missing) := push_blobs_first fuel options session_id closure max_payload
      (pl_missing plan) (pl_missing_blobs plan) report in
    let<- report := replan_loop fuel options session_id closure max_payload 0 missing report in
    complete_loop fuel options session_id 0 0 report.

(** [push_snapshot]: the lease is released on every way out, and a failure to
    release it is dropped. *)
Definition push_snapshot (fuel : nat) (id : list byte) (expected_head : option (list byte))
    (options : push_options) : M (session R) sync_error push_report :=
  let<- '(lease, decoded) := on_world SY_Workspace (acquire_pending_sync_lease id PUSH_LEASE_HOLDER) in
  fun s =>
    let (r, s) := push_leased fuel id expected_head options decoded s in
    (r, (on_world SY_Workspace (release_lease lease) s).2).

(** ** Pulling *)

(** What a transport writes to the store's writer: block after block, until the
    store refuses one. *)
Definition sink_writer (w : object_writer) (blocks : list (list byte)) : M disk store_error object_writer :=
  for_m writer_write_all w blocks.

(** [transport.download(grant, &mut writer, ..)]: the answer, and the writer as
    the transport left it. *)
Definition download_into (grant : download_grant) (w : object_writer)
  : M (session R) transport_error object_writer := fun s =>
  match call (EDownload (dg_digest grant)) (fun r =>
      let '(blocks, answer, r) := t_download grant r in (Ok (blocks, answer), r)) s with
  | (Err e, s) => (Err e, s)
  | (Ok (blocks, answer), s) =>
      match on_world id (on_disk (sink_writer w blocks)) s with
      | (Err e, s) => (Err (t_sink_failed e), s)
      | (Ok w, s) => match answer with Ok _ => (Ok w, s) | Err e => (Err e, s) end
      end
  end.

(** The writer a failed attempt leaves is dropped. *)
Definition drop_writer (w : object_writer) : M (session R) sync_error unit := fun s =>
  (Ok tt, (local (dropping (w_path w) (fail (A := unit) (SE_Io NotFound))) s).2).

Fixpoint download_and_admit (fuel : nat) (grant : download_grant) (attempts attempt : Z)
  : M (session R) sync_error unit :=
  match fuel with
  | O => fail SY_OutOfFuel
  | S fuel =>
      let<- w := local writer in
      fun s =>
        match download_into grant w s with
        | (Ok w, s) => (local (finish_expecting w (dg_digest grant) (dg_length grant));;; ret tt) s
        | (Err e, s) =>
            (drop_writer w;;;
             match e with
             | TE_Io detail =>
                 let attempt := attempt + 1 in
                 if attempts <=? attempt then fail (SY_Transport (TE_Io detail))
                 else download_and_admit fuel grant attempts attempt
             | _ => fail (SY_Transport e)
             end) s
        end
  end.

(** The manifest, collected in memory. *)
Definition fetch_manifest (id : list byte) : M (session R) sync_error (list byte) :=
  let manifest := manifest_object_digest id in
  let<- grants := asked (EDownloadGrants [manifest]) (t_download_grants [manifest]) in
  match list_find (fun g => dg_digest g = manifest) grants with
  | None => fail (SY_GrantOmitted manifest)
  | Some (_, grant) =>
      let<- '(blocks, answer) := asked (EDownload manifest) (fun r =>
        let '(blocks, answer, r) := t_download grant r in (Ok (blocks, answer), r)) in
      lift (map_err SY_Transport answer);;;
      let bytes := concat blocks in
      if decide (SnapshotId_of bytes = id) then ret bytes else fail (SY_RemoteManifestCorrupt id)
  end.
Definition manifest_bytes (id : list byte) : M (session R) sync_error (list byte) := fun s =>
  match on_world (fun e => e) (load_snapshot id) s with
  | (Ok snap, s) => (Ok (to_bytes snap), s)
  | (Err (WE_UnknownSnapshot _), s) => fetch_manifest id s
  | (Err e, s) => (Err (SY_Workspace e), s)
  end.

(** The resume journal: what is resident, and what is to be fetched. *)
Definition journal_step (st : pull_report * owed) (x : list byte * Z)
  : M (session R) sync_error (pull_report * owed) :=
  let '(report, missing) := st in
  let '(digest, length) := x in
  let<- here := local (exists_object digest) in
  if here : bool then
    report_object digest length;;;
    ret (PullReport (fetched_objects report) (fetched_bytes report) (wadd (skipped_local_resident report) 1), missing)
  else ret (report, missing ++ [(digest, length)]).

Definition fetch_one (grants : list download_grant) (report : pull_report) (x : list byte * Z)
  : M (session R) sync_error pull_report :=
  let '(digest, length) := x in
  match list_find (fun g => dg_digest g = digest) grants with
  | None => fail (SY_GrantOmitted digest)
  | Some (_, grant) =>
      download_and_admit (Z.to_nat DOWNLOAD_ATTEMPTS) grant DOWNLOAD_ATTEMPTS 0;;;
      report_object digest length;;;
      ret (PullReport (wadd (fetched_objects report) 1) (wadd (fetched_bytes report) length)
             (skipped_local_resident report))
  end.
Definition fetch_batch (report : pull_report) (batch : owed) : M (session R) sync_error pull_report :=
  let<- grants := asked (EDownloadGrants batch.*1) (t_download_grants batch.*1) in
  for_m (fetch_one grants) report batch.

(** [pull_snapshot] and [pull_head]. *)
Definition pull_snapshot (id : list byte) : M (session R) sync_error pull_report :=
  let<- tfm1_bytes := manifest_bytes id in
  let<- snap := lift (map_err SY_Manifest (decode tfm1_bytes)) in
  let closure := data_closure snap in
  let<- '(report, missing) := for_m journal_step (PullReport 0 0 0, []) closure in
  let<- report := for_m fetch_batch report (chunks DOWNLOAD_GRANT_BATCH missing) in
  on_world SY_Workspace (adopt_snapshot tfm1_bytes);;;
  ret report.
Definition pull_head : M (session R) sync_error (list byte * pull_report) :=
  let<- head := asked EHead t_head in
  match head with
  | None => fail SY_NoRemoteHead
  | Some id => let<- report := pull_snapshot id in ret (id, report)
  end.
End engine.
