(* ===== verification/SyncPlans.v ===== *)
(** What the sync engine decides before it moves anything: the closure of a
    manifest, the missing set it accepts from a remote, the packs it assembles
    ([src/crates/tensorfs-core/src/sync.rs]). *)
From S2P Require Import Tfp1.
From S2P Require Export Sync.

(** ** The closure *)

Lemma closure_loop records seen closure :
  let st := foldl closure_step (seen, closure) records in
  (forall d, d ∈ seen <-> d ∈ closure.*1) -> NoDup closure.*1 ->
  (forall d, d ∈ st.1 <-> d ∈ st.2.*1) /\ NoDup st.2.*1 /\ closure `prefix_of` st.2 /\
  (forall d n, (d, n) ∈ st.2 -> (d, n) ∈ closure \/ Data d n ∈ records) /\
  (forall d, d ∈ st.2.*1 <-> d ∈ closure.*1 \/ d ∈ data_digests records).
Proof.
  revert seen closure. induction records as [|r records IH]; intros seen closure st Hseen Hnd; subst st.
  { simpl. split_and!; [done|done|done|auto|]. intros d. rewrite elem_of_nil. tauto. }
  simpl. destruct r as [digest n|n].
  2: { destruct (IH seen closure Hseen Hnd) as (H1 & H2 & H3 & H4 & H5). split_and!; [done..| |].
       - intros d m Hd. destruct (H4 d m Hd); [by left|right; by apply list_elem_of_further].
       - intros d. rewrite H5. done. }
  simpl. case_decide as Hin.
  - destruct (IH seen closure Hseen Hnd) as (H1 & H2 & H3 & H4 & H5). split_and!; [done..| |].
    + intros d m Hd. destruct (H4 d m Hd); [by left|right; by apply list_elem_of_further].
    + intros d. rewrite H5. change (data_digests (Data digest n :: records)) with (digest :: data_digests records).
      rewrite elem_of_cons. apply Hseen in Hin. naive_solver.
  - destruct (IH (digest :: seen) (closure ++ [(digest, n)])) as (H1 & H2 & H3 & H4 & H5).
    + intros d. rewrite elem_of_cons, fmap_app, elem_of_app, Hseen. simpl. rewrite list_elem_of_singleton. tauto.
    + rewrite fmap_app. apply NoDup_app. split; [done|]. split; [|apply NoDup_singleton].
      intros d Hd Hd'. apply list_elem_of_singleton in Hd'. subst d. by apply Hin, Hseen.
    + split_and!; [done|done| | |].
      * etrans; [|exact H3]. by apply prefix_app_r.
      * intros d m Hd. destruct (H4 d m Hd) as [[Hc|Hc]%elem_of_app|Hr]; [by left| |right; by apply list_elem_of_further].
        apply list_elem_of_singleton in Hc as [= -> ->]. right. left.
      * intros d. rewrite H5, fmap_app, elem_of_app. simpl. rewrite list_elem_of_singleton.
        change (data_digests (Data digest n :: records)) with (digest :: data_digests records).
        rewrite elem_of_cons. tauto.
Qed.

(** The closure names every data object of the manifest once, with a length the
    manifest records for it. *)
Lemma data_closure_spec snap :
  NoDup (data_closure snap).*1 /\
  (forall d, d ∈ (data_closure snap).*1 <-> d ∈ data_digests (s_entries snap ≫= entry_records)) /\
  (forall d n, (d, n) ∈ data_closure snap -> Data d n ∈ s_entries snap ≫= entry_records).
Proof.
  unfold data_closure. destruct (closure_loop (s_entries snap ≫= entry_records) [] []) as (_ & Hn & _ & Hi & Hd);
    [done|constructor|]. split; [done|]. split.
  - intros d. rewrite Hd. simpl. rewrite elem_of_nil. tauto.
  - intros d n Hin. by destruct (Hi d n Hin) as [?%elem_of_nil|].
Qed.

(** ** The missing set *)

Lemma find_from_Some digest closure n rest :
  find_from digest closure = Some (n, rest) -> exists pre, closure = pre ++ (digest, n) :: rest /\ digest ∉ pre.*1.
Proof.
  induction closure as [|[c m] closure IH]; simpl; [done|]. case_decide as Hc.
  - intros [= <- <-]. subst c. exists []. split; [done|]. apply not_elem_of_nil.
  - intros (pre & -> & Hn)%IH. exists ((c, m) :: pre). split; [done|]. simpl. rewrite not_elem_of_cons. auto.
Qed.
Lemma find_from_None digest closure : find_from digest closure = None <-> digest ∉ closure.*1.
Proof.
  induction closure as [|[c m] closure IH]; simpl; [split; [intros _; apply not_elem_of_nil|done]|].
  rewrite not_elem_of_cons. case_decide; [naive_solver|]. rewrite IH. naive_solver.
Qed.

Lemma sublist_elem_of {A} (x : A) l k : x ∈ l -> l `sublist_of` k -> x ∈ k.
Proof. intros Hx Hs. eapply elem_of_submseteq; [exact Hx|]. by apply sublist_submseteq. Qed.

(** A missing set is accepted exactly when it is a subsequence of the closure:
    the same digests, the same lengths, the same order. *)
Lemma verify_canonical_missing_iff closure missing :
  NoDup closure.*1 -> verify_canonical_missing closure missing = Ok tt <-> missing `sublist_of` closure.
Proof.
  revert closure. induction missing as [|[digest n] missing IH]; intros closure Hnd; simpl.
  { split; [intros _; apply sublist_nil_l|done]. }
  destruct (find_from digest closure) as [[m rest]|] eqn:Ef.
  - apply find_from_Some in Ef as (pre & -> & Hpre). rewrite fmap_app, fmap_cons in Hnd.
    apply NoDup_app in Hnd as (_ & _ & [Hd Hrest]%NoDup_cons). simpl in Hd.
    destruct (Z.eqb_spec n m) as [->|Hne]; simpl.
    + rewrite IH by done. split.
      * intros Hs. apply sublist_inserts_l. by apply sublist_skip.
      * intros Hs. apply sublist_app_r in Hs as (k1 & k2 & Heq & Hs1 & Hs2). destruct k1 as [|x k1].
        { simpl in Heq. subst k2. apply sublist_cons_r in Hs2 as [Hs2|(k & Hk & Hs2)]; [|by injection Hk as <-].
          exfalso. apply Hd. apply list_elem_of_fmap. exists (digest, m). split; [done|].
          eapply sublist_elem_of; [|exact Hs2]. left. }
        injection Heq as <- _. exfalso. apply Hpre. apply list_elem_of_fmap. exists (digest, m). split; [done|].
        eapply sublist_elem_of; [|exact Hs1]. left.
    + split; [done|]. intros Hs. assert ((digest, n) ∈ pre ++ (digest, m) :: rest) as Hin.
      { eapply sublist_elem_of; [|exact Hs]. left. }
      apply elem_of_app in Hin as [Hin|[Hin|Hin]%elem_of_cons].
      * exfalso. apply Hpre, list_elem_of_fmap. by exists (digest, n).
      * by injection Hin.
      * exfalso. apply Hd, list_elem_of_fmap. by exists (digest, n).
  - apply find_from_None in Ef. split; [done|]. intros Hs. exfalso. apply Ef, list_elem_of_fmap.
    exists (digest, n). split; [done|]. eapply sublist_elem_of; [|exact Hs]. left.
Qed.

Lemma lane_check (p : Z -> bool) (e : list byte -> Z -> sync_error) (P : Z -> Prop) l :
  (forall n, p n = false <-> P n) ->
  for_each (fun (_ : unit) '(digest, n) => if p n then Err (e digest n) else Ok tt) tt l = Ok tt <->
  Forall (fun x => P x.2) l.
Proof.
  intros HP. induction l as [|[digest n] l IH]; simpl; [by split|]. rewrite Forall_cons, <-HP. simpl.
  destruct (p n); simpl; [naive_solver|]. rewrite IH. tauto.
Qed.

Lemma verify_lanes_iff closure missing missing_blobs max_payload :
  NoDup closure.*1 ->
  verify_lanes closure missing missing_blobs max_payload = Ok tt <->
  missing `sublist_of` closure /\ missing_blobs `sublist_of` closure /\
  Forall (fun x => x.2 <= max_payload) missing /\ Forall (fun x => max_payload < x.2) missing_blobs.
Proof.
  intros Hnd. unfold verify_lanes.
  rewrite <-(verify_canonical_missing_iff closure missing), <-(verify_canonical_missing_iff closure missing_blobs) by done.
  destruct (verify_canonical_missing closure missing) as [[]|]; simpl; [|naive_solver].
  destruct (verify_canonical_missing closure missing_blobs) as [[]|]; simpl; [|naive_solver].
  rewrite <-(lane_check (fun n => max_payload <? n) (fun d n => SY_BlobLaneMismatch d n max_payload false)
    (fun n => n <= max_payload)) by (intros n; apply Z.ltb_ge).
  rewrite <-(lane_check (fun n => n <=? max_payload) (fun d n => SY_BlobLaneMismatch d n max_payload true)
    (fun n => max_payload < n)) by (intros n; apply Z.leb_gt).
  destruct (for_each _ tt missing) as [[]|]; simpl; naive_solver.
Qed.

(** ** The packs *)

Definition group_size (group : owed) : Z := sumZ group.*2.

(** A group that fits a pack. *)
Definition packable (max_payload : Z) (group : owed) : Prop :=
  group <> [] /\ zlen group <= MAX_PACK_OBJECTS /\ group_size group <= max_payload.

(** Why a group was closed before [x]: with it the group would not fit. *)
Definition closed_before (max_payload : Z) (group : owed) (x : list byte * Z) : Prop :=
  max_payload < group_size group + x.2 \/ MAX_PACK_OBJECTS <= zlen group.

(** Every group but the last was closed by the head of the next. *)
Fixpoint greedy (max_payload : Z) (groups : list owed) : Prop :=
  match groups with
  | group :: (next :: _) as rest =>
      (exists x, head next = Some x /\ closed_before max_payload group x) /\ greedy max_payload rest
  | _ => True
  end.

Lemma greedy_snoc max_payload groups group x :
  greedy max_payload (groups ++ [group]) -> closed_before max_payload group x ->
  forall more, greedy max_payload (groups ++ [group; x :: more]).
Proof.
  induction groups as [|g groups IH]; intros Hg Hc more; simpl in *; [eauto|].
  destruct groups as [|g' groups]; simpl in *; naive_solver.
Qed.
Lemma greedy_grow max_payload groups group y :
  group <> [] -> greedy max_payload (groups ++ [group]) -> greedy max_payload (groups ++ [group ++ [y]]).
Proof.
  intros Hne. induction groups as [|g groups IH]; intros Hg; simpl in *; [done|].
  destruct groups as [|g' groups]; simpl in *; [|naive_solver].
  destruct Hg as [(x & Hx & Hc) _]. split; [|done]. exists x. split; [|done]. by destruct group.
Qed.

Lemma group_size_snoc group x : group_size (group ++ [x]) = group_size group + x.2.
Proof. unfold group_size. rewrite fmap_app, sumZ_app. change (sumZ [x].*2) with (x.2 + 0). lia. Qed.
Lemma group_size_one x : group_size [x] = x.2.
Proof. change (x.2 + 0 = x.2). lia. Qed.

Lemma assemble_loop max_payload missing :
  0 <= max_payload <= MAX_PACK_PAYLOAD -> Forall (fun x => 0 <= x.2 <= max_payload) missing ->
  let '(groups, group, n) := foldl (group_step max_payload) ([], [], 0) missing in
  n = group_size group /\ concat groups ++ group = missing /\ Forall (packable max_payload) groups /\
  (group = [] -> missing = [] /\ groups = []) /\
  (group <> [] -> packable max_payload group /\ greedy max_payload (groups ++ [group])).
Proof.
  intros Hm. induction missing as [|x missing IH] using rev_ind; intros Hf; [by simpl|].
  apply Forall_app in Hf as [Hf [Hx _]%Forall_cons]. specialize (IH Hf). rewrite foldl_app. cbn [foldl].
  destruct (foldl _ _ missing) as [[groups group] n]. destruct IH as (-> & Hc & Hp & Hnil & Hne).
  assert (MAX_PACK_PAYLOAD < 2 ^ 40) as Hcap by done.
  assert (0 <= group_size group <= max_payload) as Hsize.
  { destruct (decide (group = [])) as [->|H]; [change (0 <= 0 <= max_payload); lia|]. destruct (Hne H) as [(_ & _ & Hle) _]. split; [|done].
    apply sumZ_nonneg, Forall_fmap. rewrite <-Hc in Hf. apply Forall_app in Hf as [_ Hf].
    eapply Forall_impl; [exact Hf|]. simpl. lia. }
  unfold group_step. rewrite !wadd_small by (unfold U64; lia).
  case_bool_decide as Hg; simpl.
  - subst group. destruct (Hnil eq_refl) as [-> ->]. rewrite group_size_snoc. split_and!; [done..|].
    intros _. split; [|done]. split_and!; [done|by vm_compute|]. change ([] ++ [x]) with [x]. rewrite group_size_one. lia.
  - destruct (Hne Hg) as [Hpk Hgr]. pose proof Hpk as (_ & Hcount & _).
    destruct (_ || _) eqn:Eo.
    + split_and!.
      * rewrite group_size_one. lia.
      * rewrite concat_app. simpl. by rewrite app_nil_r, Hc.
      * apply Forall_app. split; [done|]. by apply Forall_singleton.
      * done.
      * intros _. split.
        { split_and!; [done|by vm_compute|]. rewrite group_size_one. lia. }
        rewrite <-app_assoc. apply greedy_snoc; [done|]. unfold closed_before.
        apply orb_true_iff in Eo as [Eo%Z.ltb_lt|Eo%Z.leb_le]; [by left|by right].
    + apply orb_false_elim in Eo as [Eo%Z.ltb_ge Ec%Z.leb_gt]. rewrite group_size_snoc. split_and!; [done| |done| |].
      * by rewrite app_assoc, Hc.
      * intros Habs. by destruct group.
      * intros _. split; [|by apply greedy_grow]. split_and!.
        -- by destruct group.
        -- unfold zlen in *. rewrite length_app. simpl. lia.
        -- by rewrite group_size_snoc.
Qed.

(** The packs hold the missing objects in order, each fits, and none could have
    taken the object after it. *)
Lemma assemble_spec max_payload missing :
  0 <= max_payload <= MAX_PACK_PAYLOAD -> Forall (fun x => 0 <= x.2 <= max_payload) missing ->
  concat (assemble max_payload missing) = missing /\ Forall (packable max_payload) (assemble max_payload missing) /\
  greedy max_payload (assemble max_payload missing).
Proof.
  intros Hm Hf. pose proof (assemble_loop max_payload missing Hm Hf) as Ha. unfold assemble.
  destruct (foldl _ _ missing) as [[groups group] n]. destruct Ha as (_ & Hc & Hp & Hnil & Hne).
  case_bool_decide as Hg.
  - destruct (Hnil Hg) as [-> ->]. done.
  - destruct (Hne Hg) as [Hpk Hgr]. rewrite concat_app. simpl. rewrite app_nil_r. split; [done|]. split; [|done].
    apply Forall_app. split; [done|]. by apply Forall_singleton.
Qed.

(** The pause is between half a second and eight, and does not shrink. *)
Lemma back_off_delay_bounds attempt :
  1 <= attempt -> 500 <= back_off_delay attempt <= 8000 /\ back_off_delay attempt <= back_off_delay (attempt + 1).
Proof.
  intros Ha. unfold back_off_delay. rewrite !Z.shiftl_mul_pow2 by lia.
  assert (2 ^ 1 <= 2 ^ Z.min attempt 6) by (apply Z.pow_le_mono_r; lia).
  assert (2 ^ Z.min attempt 6 <= 2 ^ Z.min (attempt + 1) 6) by (apply Z.pow_le_mono_r; lia). lia.
Qed.
