(* ===== verification/Http.v ===== *)
(** The HTTP adapter of the sync engine ([src/crates/tensorfs-core/src/sync.rs],
    module [http]): the transport that speaks the snapshot-sync wire.

    The carrier (the [ureq] crate, the network and the hub behind it), the text of
    JSON ([serde_json]) and base64 are parameters; what the derived deserializers
    take from a JSON value is written out.  The adapter is an instance of
    [SyncTransport], so what is proved of the engine holds of it. *)
From S2P Require Export Object Layout Sync.

(** ** JSON values *)

(** [serde_json::Number] and [serde_json::Value]; an object is sorted by key. *)
Inductive number : Type := PosInt (n : Z) | NegInt (n : Z) | Float (bits : Z).
Inductive json : Type :=
| JNull
| JBool (b : bool)
| JNumber (n : number)
| JString (s : list byte)
| JArray (l : list json)
| JObject (m : list (list byte * json)).

(** The text of values and the errors of the parser, of a deserializer (for a type
    and a value), of a reader, and the [Debug] text of a string. *)
Class WireText : Type := {
  json_from_str : list byte -> result (list byte) json;
  json_to_string : json -> list byte;
  serde_error : list byte -> json -> list byte;
  debug_text : list byte -> list byte;
  base64_standard : list byte -> list byte
}.

(** [serde_json::json!] of an object. *)
Definition object (fields : list (list byte * json)) : json :=
  JObject (foldl (fun m '(name, v) => bt_insert name v m) [] fields).
Definition nat_value (n : Z) : json := JNumber (PosInt n).

(** [serde_json::from_value]: a [PosInt] holds a [u64]. *)
Class FromValue (A : Type) : Type := from_value : json -> option A.
#[export] Instance from_value_string : FromValue (list byte) := fun v =>
  match v with JString s => Some s | _ => None end.
#[export] Instance from_value_bool : FromValue bool := fun v =>
  match v with JBool b => Some b | _ => None end.
Definition from_value_below (bound : Z) : FromValue Z := fun v =>
  match v with JNumber (PosInt n) => if (0 <=? n) && (n <? bound) then Some n else None | _ => None end.
#[export] Instance from_value_u64 : FromValue Z := from_value_below U64.
#[export] Instance from_value_vec {A} `{FromValue A} : FromValue (list A) := fun v =>
  match v with JArray l => mapM from_value l | _ => None end.
Definition from_value_option {A} `{FromValue A} : FromValue (option A) := fun v =>
  match v with JNull => Some None | _ => Some <$> from_value v end.
Definition from_value_headers : FromValue headers := fun v =>
  match v with
  | JObject m => mapM (fun '(name, v) => let* s := from_value v in Some (name, s)) m
  | _ => None
  end.

(** A derived [Deserialize] of a structure of [count] fields takes an object, whose
    other fields are ignored, or an array of the fields in order. *)
Abbreviation fields := (nat -> list byte -> option json).
Definition struct_fields (count : nat) (v : json) : option fields :=
  match v with
  | JObject m => Some (fun _ name => bt_get name m)
  | JArray l => if (length l <=? count)%nat then Some (fun i _ => l !! i) else None
  | _ => None
  end.
Definition required {A} `{FromValue A} (f : fields) (i : nat) (name : list byte) : option A :=
  let* v := f i name in from_value v.
(** [#[serde(default)]]. *)
Definition defaulted {A} `{FromValue A} (f : fields) (i : nat) (name : list byte) (otherwise : A) : option A :=
  match f i name with Some v => from_value v | None => Some otherwise end.

(** ** The wire's structures *)

Record wire_error : Type := WireError { we_code : list byte; we_message : list byte }.
Record wire_missing : Type := WireMissing { wm_digest : list byte; wm_size_bytes : Z }.
Record wire_pack_status : Type := WirePackStatus { wp_sha256 : list byte; wp_staged : bool }.
Record wire_blob_part : Type := WireBlobPart {
  wb_part_number : Z; wb_size_bytes : Z; wb_put_url : list byte; wb_headers : headers
}.
Record wire_blob_grant : Type := WireBlobGrant {
  wg_digest : list byte; wg_length : Z; wg_staging_key : list byte; wg_upload_id : list byte;
  wg_part_size : Z; wg_parts : list wire_blob_part; wg_uploaded_parts : list Z
}.
Record wire_declare : Type := WireDeclare {
  wd_snapshot_id : list byte; wd_session_id : list byte; wd_have : list (list byte);
  wd_staged_packs : list wire_pack_status; wd_missing : list wire_missing; wd_missing_blobs : list wire_missing;
  wd_max_pack_payload : Z; wd_max_packs_per_request : Z
}.
Record wire_grant : Type := WireGrant {
  wr_pack_sha256 : list byte; wr_staging_key : list byte; wr_put_url : list byte; wr_headers : headers
}.
Record wire_grants : Type := WireGrants {
  ws_grants : list wire_grant; ws_staged_packs : list wire_pack_status;
  ws_missing : list wire_missing; ws_missing_blobs : list wire_missing
}.
Record wire_failure : Type := WireFailure { wf_code : list byte; wf_retryable : bool }.
Record wire_complete : Type := WireComplete {
  wc_stage : list byte; wc_promoted : Z; wc_total : Z; wc_failure : option wire_failure
}.
Record wire_download_grant : Type := WireDownloadGrant {
  wl_digest : list byte; wl_size_bytes : Z; wl_get_url : list byte
}.

#[export] Instance from_wire_error : FromValue wire_error := fun v =>
  let* f := struct_fields 2 v in
  let* code := required f 0 (bstr "code") in
  let* message := defaulted f 1 (bstr "message") [] in
  Some (WireError code message).
(** [WireErrorEnvelope]. *)
Definition from_wire_error_envelope : FromValue wire_error := fun v =>
  let* f := struct_fields 1 v in required f 0 (bstr "error").
#[export] Instance from_wire_missing : FromValue wire_missing := fun v =>
  let* f := struct_fields 2 v in
  let* digest := required f 0 (bstr "digest") in
  let* size_bytes := required f 1 (bstr "size_bytes") in
  Some (WireMissing digest size_bytes).
#[export] Instance from_wire_pack_status : FromValue wire_pack_status := fun v =>
  let* f := struct_fields 2 v in
  let* sha := required f 0 (bstr "sha256") in
  let* staged := required f 1 (bstr "staged") in
  Some (WirePackStatus sha staged).
#[export] Instance from_wire_blob_part : FromValue wire_blob_part := fun v =>
  let* f := struct_fields 4 v in
  let* part_number := required (H := from_value_below U32) f 0 (bstr "part_number") in
  let* size_bytes := required f 1 (bstr "size_bytes") in
  let* put_url := required f 2 (bstr "put_url") in
  let* set := defaulted (H := from_value_headers) f 3 (bstr "headers") [] in
  Some (WireBlobPart part_number size_bytes put_url set).
#[export] Instance from_wire_blob_grant : FromValue wire_blob_grant := fun v =>
  let* f := struct_fields 7 v in
  let* digest := required f 0 (bstr "digest") in
  let* length := required f 1 (bstr "length") in
  let* staging_key := defaulted f 2 (bstr "staging_key") [] in
  let* upload_id := required f 3 (bstr "upload_id") in
  let* part_size := required f 4 (bstr "part_size") in
  let* parts := defaulted f 5 (bstr "parts") [] in
  let* uploaded := defaulted (H := from_value_vec (H := from_value_below U32)) f 6 (bstr "uploaded_parts") [] in
  Some (WireBlobGrant digest length staging_key upload_id part_size parts uploaded).
#[export] Instance from_wire_declare : FromValue wire_declare := fun v =>
  let* f := struct_fields 8 v in
  let* snapshot_id := required f 0 (bstr "snapshot_id") in
  let* session_id := required f 1 (bstr "session_id") in
  let* have := required f 2 (bstr "have") in
  let* staged_packs := defaulted f 3 (bstr "staged_packs") [] in
  let* missing := defaulted f 4 (bstr "missing") [] in
  let* missing_blobs := defaulted f 5 (bstr "missing_blobs") [] in
  let* max_pack_payload := defaulted f 6 (bstr "max_pack_payload") 0 in
  let* max_packs_per_request := defaulted f 7 (bstr "max_packs_per_request") 0 in
  Some (WireDeclare snapshot_id session_id have staged_packs missing missing_blobs max_pack_payload max_packs_per_request).
#[export] Instance from_wire_grant : FromValue wire_grant := fun v =>
  let* f := struct_fields 4 v in
  let* pack := required f 0 (bstr "pack_sha256") in
  let* staging_key := required f 1 (bstr "staging_key") in
  let* put_url := required f 2 (bstr "put_url") in
  let* set := defaulted (H := from_value_headers) f 3 (bstr "headers") [] in
  Some (WireGrant pack staging_key put_url set).
#[export] Instance from_wire_grants : FromValue wire_grants := fun v =>
  let* f := struct_fields 4 v in
  let* grants := defaulted f 0 (bstr "grants") [] in
  let* staged_packs := defaulted f 1 (bstr "staged_packs") [] in
  let* missing := defaulted f 2 (bstr "missing") [] in
  let* missing_blobs := defaulted f 3 (bstr "missing_blobs") [] in
  Some (WireGrants grants staged_packs missing missing_blobs).
#[export] Instance from_wire_failure : FromValue wire_failure := fun v =>
  let* f := struct_fields 2 v in
  let* code := required f 0 (bstr "code") in
  let* retryable := required f 1 (bstr "retryable") in
  Some (WireFailure code retryable).
#[export] Instance from_wire_complete : FromValue wire_complete := fun v =>
  let* f := struct_fields 4 v in
  let* stage := defaulted f 0 (bstr "stage") [] in
  let* promoted := defaulted f 1 (bstr "promoted") 0 in
  let* total := defaulted f 2 (bstr "total") 0 in
  let* failure := defaulted (H := from_value_option) f 3 (bstr "failure") None in
  Some (WireComplete stage promoted total failure).
#[export] Instance from_wire_download_grant : FromValue wire_download_grant := fun v =>
  let* f := struct_fields 3 v in
  let* digest := required f 0 (bstr "digest") in
  let* size_bytes := required f 1 (bstr "size_bytes") in
  let* get_url := required f 2 (bstr "get_url") in
  Some (WireDownloadGrant digest size_bytes get_url).
(** [WireBlobGrants] and [WireDownloadGrants], structures of one list; [WireHead]. *)
Definition from_wire_list {A} `{FromValue A} : FromValue (list A) := fun v =>
  let* f := struct_fields 1 v in defaulted f 0 (bstr "grants") [].
Definition from_wire_head : FromValue (list byte) := fun v =>
  let* f := struct_fields 1 v in required f 0 (bstr "snapshot_id").

(** ** The carrier *)

(** A response of [ureq]: its status and headers, what [into_string] makes of its
    body, and the body as reads of it give it, up to its end or a failure. *)
Record response : Type := Response {
  rs_status : Z; rs_header : list byte -> option (list byte); rs_text : result (list byte) (list byte);
  rs_chunks : list (list byte); rs_broken : option (list byte)
}.
(** [ureq::Error]. *)
Inductive ureq_error : Type := Status (status : Z) (r : response) | Transport (detail : list byte).
(** [ureq::Agent]: its time limits, in seconds. *)
Record agent : Type := Agent { timeout_connect : Z; timeout_read : option Z; timeout_write : option Z }.
Inductive payload : Type := NoBody | JsonBody (v : json) | StreamBody (bytes : list byte).

(** A request is sent with the headers set on it, in order.  A body is read with
    buffers of the sizes the carrier chooses.  [c_token_file] is the file a token is
    kept in. *)
Class Carrier (R : Type) : Type := {
  c_send : agent -> list byte -> list byte -> headers -> payload -> M R ureq_error response;
  c_buffers : agent -> list byte -> headers -> R -> list Z;
  c_token_file : list byte -> R -> result (list byte) (list byte);
  c_sink_text : store_error -> list byte
}.

Definition CONNECT_LIMIT : Z := 15.
Definition TRANSFER_SILENCE : Z := 90.
Definition DOWNLOAD_BLOCK : Z := Z.shiftl 1 20.

(** [struct ReportingBody] and its [read]: the bytes given, what is left, and the
    bytes reported. *)
Definition reporting_read (capacity : Z) (rest : list byte) : list byte * list byte * Z :=
  let taken := Z.to_nat (Z.min capacity (zlen rest)) in
  (take taken rest, drop taken rest, zlen (take taken rest)).
(** A carrier reads until a read gives nothing. *)
Fixpoint drain (buffers : list Z) (rest : list byte) : list byte * list Z :=
  match buffers with
  | [] => ([], [])
  | capacity :: buffers =>
      let '(bytes, rest, moved) := reporting_read capacity rest in
      if moved =? 0 then ([], [])
      else let (handed, reported) := drain buffers rest in (bytes ++ handed, moved :: reported)
  end.

(** [enum TokenSource] and [struct HttpTransport]. *)
Inductive token_source : Type := NoToken | StaticToken (token : list byte) | TokenFile (path : list byte).
Record http_transport : Type := HttpTransport {
  ht_base_url : list byte; ht_org : list byte; ht_repo : list byte; ht_token : token_source;
  ht_control : agent; ht_transfer : agent
}.
Fixpoint trim_start_slashes (s : list byte) : list byte :=
  match s with b :: rest => if decide (b = slash) then trim_start_slashes rest else s | [] => [] end.
Definition trim_end_slashes (s : list byte) : list byte := reverse (trim_start_slashes (reverse s)).
Definition http_new (base_url org repo : list byte) : http_transport :=
  HttpTransport (trim_end_slashes base_url) org repo NoToken (Agent CONNECT_LIMIT None None)
    (Agent CONNECT_LIMIT (Some TRANSFER_SILENCE) (Some TRANSFER_SILENCE)).
Definition with_token (token : token_source) (t : http_transport) : http_transport :=
  HttpTransport (ht_base_url t) (ht_org t) (ht_repo t) token (ht_control t) (ht_transfer t).
Definition route (t : http_transport) (tail : list byte) : list byte :=
  ht_base_url t ++ bstr "/api/v1/repos/" ++ ht_org t ++ bstr "/" ++ ht_repo t ++ bstr "/snapshot-sync" ++ tail.
Definition session_route (t : http_transport) (session tail : list byte) : list byte :=
  route t (bstr "/" ++ session ++ tail).

Section adapter.
Context {R : Type} `{Carrier R, WireText} (t : http_transport).

(** [bearer] and [exchange]. *)
Definition bearer : M R transport_error (option (list byte)) := fun r =>
  match ht_token t with
  | NoToken => (Ok None, r)
  | StaticToken token => (Ok (Some token), r)
  | TokenFile path =>
      match c_token_file path r with
      | Ok raw => (Ok (Some (trim raw)), r)
      | Err error => (Err (TE_Io (bstr "read token file " ++ path ++ bstr ": " ++ error)), r)
      end
  end.
Definition decode_text (status : Z) (text : list byte) : result transport_error (Z * json) :=
  if bool_decide (text = []) then Ok (status, JNull)
  else
    match json_from_str text with
    | Ok v => Ok (status, v)
    | Err error => Err (TE_Io (bstr "undecodable response (" ++ to_dec status ++ bstr "): " ++ error))
    end.
Definition exchange (method url : list byte) (body : option json) : M R transport_error (Z * json) :=
  let<- token := bearer in
  let set := match token with Some token => [(bstr "authorization", bstr "Bearer " ++ token)] | None => [] end in
  fun r =>
    match c_send (ht_control t) method url set (match body with Some v => JsonBody v | None => NoBody end) r with
    | (Ok response, r) =>
        match rs_text response with
        | Ok text => (decode_text (rs_status response) text, r)
        | Err error => (Err (TE_Io error), r)
        end
    | (Err (Status status response), r) =>
        (decode_text status (match rs_text response with Ok text => text | Err _ => [] end), r)
    | (Err (Transport detail), r) => (Err (TE_Io detail), r)
    end.

(** [str::contains]. *)
Fixpoint contains (needle text : list byte) : bool :=
  starts_with needle text || match text with [] => false | _ :: rest => contains needle rest end.

(** [refuse], [parse_ref], [tagged], [missing_pairs], [staged_rows]. *)
Definition refuse (status : Z) (value : json) : transport_error :=
  match from_value (FromValue := from_wire_error_envelope) value with
  | Some e => if contains (bstr "expired") (we_code e) then TE_Expired (we_code e) else TE_Refused (we_code e) (we_message e)
  | None => TE_Refused (bstr "http-" ++ to_dec status) (json_to_string value)
  end.
Definition parse_ref (raw : list byte) : result transport_error (list byte) :=
  let! hex := strip_prefix (bstr "sha256:") raw ?: TE_Io (bstr "untagged ref " ++ debug_text raw) in
  let! id := SnapshotId_parse_hex hex ?: TE_Io (bstr "undecodable ref " ++ debug_text raw) in
  Ok id.
Definition tagged (digest : list byte) : list byte := digest_display digest.
Fixpoint collect {A B} (f : A -> result transport_error B) (l : list A) : result transport_error (list B) :=
  match l with
  | [] => Ok []
  | x :: l => let? y := f x in let? ys := collect f l in Ok (y :: ys)
  end.
Definition missing_pairs (rows : list wire_missing) : result transport_error owed :=
  collect (fun row => let? digest := parse_ref (wm_digest row) in Ok (digest, wm_size_bytes row)) rows.
Definition staged_rows (rows : list wire_pack_status) : list staged_pack :=
  (fun row => StagedPack (wp_sha256 row) (wp_staged row)) <$> rows.

(** [serde_json::from_value(value).map_err(..)?]. *)
Definition decoded {A} (D : FromValue A) (what kind : list byte) (value : json) : result transport_error A :=
  match D value with Some x => Ok x | None => Err (TE_Io (what ++ bstr " response: " ++ serde_error kind value)) end.

(** A control exchange whose answer is taken when its status is [expected]. *)
Definition on_status {A} (expected : Z) (take : json -> result transport_error A) (answer : Z * json)
  : result transport_error A :=
  if negb (answer.1 =? expected) then Err (refuse answer.1 answer.2) else take answer.2.

(** [declare]. *)
Definition plan_of (wire : wire_declare) : result transport_error sync_plan :=
  let! snapshot_id := SnapshotId_parse_hex (wd_snapshot_id wire)
    ?: TE_Io (bstr "undecodable snapshot id " ++ debug_text (wd_snapshot_id wire)) in
  let? have := collect parse_ref (wd_have wire) in
  let? missing := missing_pairs (wd_missing wire) in
  let? missing_blobs := missing_pairs (wd_missing_blobs wire) in
  Ok (SyncPlan snapshot_id (wd_session_id wire) have (staged_rows (wd_staged_packs wire)) missing missing_blobs
        (wd_max_pack_payload wire) (wd_max_packs_per_request wire)).
Definition declare_body (tfm1_bytes : list byte) (expected_head : option (list byte)) : json :=
  object [(bstr "tfm1_base64", JString (base64_standard tfm1_bytes));
          (bstr "expected_head", JString (match expected_head with Some id => SnapshotId_display id | None => [] end))].
Definition declare (tfm1_bytes : list byte) (expected_head : option (list byte)) : M R transport_error sync_plan :=
  let<- answer := exchange (bstr "POST") (route t []) (Some (declare_body tfm1_bytes expected_head)) in
  lift (on_status 201 (fun value =>
    let? wire := decoded from_wire_declare (bstr "declare") (bstr "WireDeclare") value in plan_of wire) answer).

(** [pack_grants]. *)
Definition claim_value (claim : pack_claim) : json :=
  object [(bstr "sha256", JString (pc_sha256 claim)); (bstr "size_bytes", nat_value (pc_size_bytes claim));
          (bstr "objects", JArray ((fun d => JString (tagged d)) <$> pc_objects claim))].
Definition grants_of (wire : wire_grants) : result transport_error grants_plan :=
  let? missing := missing_pairs (ws_missing wire) in
  let? missing_blobs := missing_pairs (ws_missing_blobs wire) in
  Ok (GrantsPlan
        ((fun g => PackGrant (wr_pack_sha256 g) (wr_staging_key g) (wr_put_url g) (wr_headers g)) <$> ws_grants wire)
        (staged_rows (ws_staged_packs wire)) missing missing_blobs).
Definition pack_grants (session : list byte) (claims : list pack_claim) : M R transport_error grants_plan :=
  let<- answer := exchange (bstr "POST") (session_route t session (bstr "/pack-grants"))
                    (Some (object [(bstr "packs", JArray (claim_value <$> claims))])) in
  lift (on_status 200 (fun value =>
    let? wire := decoded from_wire_grants (bstr "pack-grants") (bstr "WireGrants") value in grants_of wire) answer).

(** [blob_grants]. *)
Definition digests_value (digests : list (list byte)) : json :=
  object [(bstr "digests", JArray ((fun d => JString (tagged d)) <$> digests))].
Definition blob_grant_of (wire : wire_blob_grant) : result transport_error blob_grant :=
  let? digest := parse_ref (wg_digest wire) in
  Ok (BlobGrant digest (wg_length wire) (wg_staging_key wire) (wg_upload_id wire) (wg_part_size wire)
        ((fun p => BlobPart (wb_part_number p) (wb_size_bytes p) (wb_put_url p) (wb_headers p)) <$> wg_parts wire)
        (wg_uploaded_parts wire)).
Definition blob_grants (session : list byte) (digests : list (list byte)) : M R transport_error (list blob_grant) :=
  let<- answer := exchange (bstr "POST") (session_route t session (bstr "/blob-grants")) (Some (digests_value digests)) in
  lift (on_status 200 (fun value =>
    let? wire := decoded (from_wire_list (A := wire_blob_grant)) (bstr "blob-grants") (bstr "WireBlobGrants") value in
    collect blob_grant_of wire) answer).

(** The streamed PUTs of a presigned grant: its own headers, and the length unless
    they state it. *)
Definition put_headers (granted : headers) (bytes : list byte) : headers :=
  granted ++
  (if existsb (fun h => eq_ignore_ascii_case h.1 (bstr "content-length")) granted then []
   else [(bstr "content-length", to_dec (zlen bytes))]).
Definition put_streamed (url : list byte) (granted : headers) (bytes : list byte) : M R ureq_error response := fun r =>
  let set := put_headers granted bytes in
  c_send (ht_transfer t) (bstr "PUT") url set (StreamBody (drain (c_buffers (ht_transfer t) url set r) bytes).1) r.
Definition or_empty (text : result (list byte) (list byte)) : list byte := match text with Ok s => s | Err _ => [] end.

(** [upload_blob_part]. *)
Definition upload_blob_part (part : blob_part) (bytes : list byte) : M R transport_error (list byte) := fun r =>
  match put_streamed (bp_url part) (bp_headers part) bytes r with
  | (Ok response, r) =>
      match rs_header response (bstr "etag") with
      | Some (b :: etag) => (Ok (b :: etag), r)
      | _ => (Err (TE_Io (bstr "part " ++ to_dec (bp_part_number part) ++ bstr " landed without an etag")), r)
      end
  | (Err (Status status response), r) =>
      if status =? 403 then (Err (TE_Expired (bstr "blob part grant refused (403)")), r)
      else if status =? 404 then (Err (TE_Expired (bstr "blob part upload no longer exists (404)")), r)
      else (Err (TE_Refused (bstr "http-" ++ to_dec status) (or_empty (rs_text response))), r)
  | (Err (Transport detail), r) => (Err (TE_Io detail), r)
  end.

(** [report_blob_parts]. *)
Definition parts_value (digest : list byte) (parts : list blob_part_report) : json :=
  object [(bstr "digest", JString (tagged digest));
          (bstr "parts", JArray ((fun p => object [(bstr "part_number", nat_value (br_part_number p));
                                                   (bstr "etag", JString (br_etag p))]) <$> parts))].
Definition report_blob_parts (session digest : list byte) (parts : list blob_part_report) : M R transport_error unit :=
  let<- answer := exchange (bstr "POST") (session_route t session (bstr "/blob-parts")) (Some (parts_value digest parts)) in
  if negb (answer.1 =? 200) && negb (answer.1 =? 204) then fail (refuse answer.1 answer.2) else ret tt.

(** [upload_pack]. *)
Definition upload_pack (grant : pack_grant) (pack : list byte) : M R transport_error unit := fun r =>
  match put_streamed (pg_url grant) (pg_headers grant) pack r with
  | (Ok _, r) => (Ok tt, r)
  | (Err (Status status response), r) =>
      if status =? 403 then (Err (TE_Expired (bstr "upload grant refused (403)")), r)
      else (Err (TE_Refused (bstr "http-" ++ to_dec status) (or_empty (rs_text response))), r)
  | (Err (Transport detail), r) => (Err (TE_Io detail), r)
  end.

(** [complete]. *)
Definition completion (status : Z) (value : json) : result transport_error complete_status :=
  match from_value (A := wire_complete) value with
  | Some (WireComplete _ promoted total (Some (WireFailure code retryable))) =>
      Ok (if retryable then Incomplete code promoted total else CFailed code)
  | Some (WireComplete stage _ _ None) =>
      if (status =? 200) && bool_decide (stage = bstr "promoted") then Ok Promoted else Err (refuse status value)
  | None => Err (refuse status value)
  end.
Definition complete (session : list byte) : M R transport_error complete_status :=
  let<- answer := exchange (bstr "POST") (session_route t session (bstr "/complete")) (Some (object [])) in
  lift (completion answer.1 answer.2).

(** [head]. *)
Definition head_of (snapshot_id : list byte) : result transport_error (option (list byte)) :=
  if bool_decide (snapshot_id = []) then Ok None
  else
    let! id := SnapshotId_parse_hex snapshot_id ?: TE_Io (bstr "undecodable head " ++ debug_text snapshot_id) in
    Ok (Some id).
Definition head : M R transport_error (option (list byte)) :=
  let<- answer := exchange (bstr "GET") (route t (bstr "/head")) None in
  lift (on_status 200 (fun value =>
    let? id := decoded from_wire_head (bstr "head") (bstr "WireHead") value in head_of id) answer).

(** [download_grants]. *)
Definition download_grant_of (wire : wire_download_grant) : result transport_error download_grant :=
  let? digest := parse_ref (wl_digest wire) in Ok (DownloadGrant digest (wl_size_bytes wire) (wl_get_url wire)).
Definition download_grants (digests : list (list byte)) : M R transport_error (list download_grant) :=
  let<- answer := exchange (bstr "POST") (route t (bstr "/download-grants")) (Some (digests_value digests)) in
  lift (on_status 200 (fun value =>
    let? wire := decoded (from_wire_list (A := wire_download_grant)) (bstr "download-grants") (bstr "WireDownloadGrants") value in
    collect download_grant_of wire) answer).

(** [download]: one read of the body through [take], then the loop over it.  A read
    gives at least a byte but the last. *)
Definition body_read (limit : Z) (chunks : list (list byte)) (broken : option (list byte))
  : result (list byte) (list byte * list (list byte)) :=
  if limit =? 0 then Ok ([], chunks)
  else
    match chunks, broken with
    | [], Some error => Err error
    | [], None => Ok ([], [])
    | chunk :: chunks, _ =>
        let n := Z.to_nat (Z.min DOWNLOAD_BLOCK limit) in
        Ok (take n chunk, match drop n chunk with [] => chunks | rest => rest :: chunks end)
    end.
Fixpoint download_loop (fuel : nat) (limit written : Z) (chunks : list (list byte)) (broken : option (list byte))
  : list (list byte) * result transport_error Z :=
  match fuel with
  | O => ([], Err (TE_Io (bstr "unfinished")))
  | S fuel =>
      match body_read limit chunks broken with
      | Err error => ([], Err (TE_Io error))
      | Ok ([], _) => ([], Ok written)
      | Ok (block, chunks) =>
          let (blocks, answer) := download_loop fuel (limit - zlen block) (wadd written (zlen block)) chunks broken in
          (block :: blocks, answer)
      end
  end.
Definition download (grant : download_grant) (r : R) : list (list byte) * result transport_error Z * R :=
  match c_send (ht_transfer t) (bstr "GET") (dg_url grant) [] NoBody r with
  | (Ok response, r) =>
      let (blocks, answer) := download_loop (S (length (concat (rs_chunks response)))) (wadd (dg_length grant) 1) 0
                                (rs_chunks response) (rs_broken response) in
      (blocks,
       (let? written := answer in
        if negb (written =? dg_length grant) then
          Err (TE_Io (bstr "download for " ++ digest_display (dg_digest grant) ++ bstr " returned " ++ to_dec written
                      ++ bstr " bytes, grant says " ++ to_dec (dg_length grant)))
        else Ok written), r)
  | (Err (Status status response), r) =>
      if status =? 403 then ([], Err (TE_Expired (bstr "download grant refused (403)")), r)
      else ([], Err (TE_Refused (bstr "http-" ++ to_dec status) (or_empty (rs_text response))), r)
  | (Err (Transport detail), r) => ([], Err (TE_Io detail), r)
  end.
End adapter.

Section facts.
Context {R : Type} `{Carrier R, WireText} (t : http_transport).

(** ** What the answers hold *)

Lemma from_value_below_bound bound v n : from_value_below bound v = Some n -> 0 <= n < bound.
Proof. unfold from_value_below. intros Hv. repeat case_match; simplify_eq. lia. Qed.
Lemma defaulted_inv {A} (D : FromValue A) (P : A -> Prop) f i name otherwise x :
  defaulted f i name otherwise = Some x -> (forall v, D v = Some x -> P x) -> P otherwise -> P x.
Proof. unfold defaulted. intros Hx Hv Ho. case_match; simplify_eq; eauto. Qed.
Lemma from_value_vec_Forall {A} (D : FromValue A) (P : A -> Prop) v l :
  (forall v x, D v = Some x -> P x) -> from_value_vec v = Some l -> Forall P l.
Proof.
  intros HD. unfold from_value_vec. destruct v as [| | | |vs|]; try done. intros Hl%mapM_Some.
  induction Hl; constructor; eauto.
Qed.
Lemma collect_Forall {A B} (f : A -> result transport_error B) (P : A -> Prop) (Q : B -> Prop) l l' :
  (forall x y, P x -> f x = Ok y -> Q y) -> Forall P l -> collect f l = Ok l' -> Forall Q l'.
Proof.
  intros Hf Hl. revert l'. induction Hl; cbn; intros l' Hc; inv_all Hc; simplify_eq; constructor; eauto.
Qed.
Lemma collect_map {A B} (f : A -> result transport_error B) (g : B -> A) l :
  Forall (fun y => f (g y) = Ok y) l -> collect f (g <$> l) = Ok l.
Proof. induction 1 as [|y l Hy _ IH]; cbn; [done|]. by rewrite Hy, IH. Qed.

(** A control answer is taken from an exchange of the expected status. *)
Lemma control_Ok {A} method url body expected (take : json -> result transport_error A) r x r' :
  (let<- answer := exchange t method url body in lift (on_status expected take answer)) r = (Ok x, r') ->
  exists v, exchange t method url body r = (Ok (expected, v), r') /\ take v = Ok x.
Proof.
  intros Hr. apply bind_inv in Hr as ([status v] & r1 & He & Hl). injection Hl as Hl ->.
  unfold on_status in Hl. cbn in Hl. destruct (Z.eqb_spec status expected) as [->|]; [|done]. eauto.
Qed.

Lemma declare_u64 manifest expected r plan r' :
  declare t manifest expected r = (Ok plan, r') -> in_u64 (pl_max_pack_payload plan).
Proof.
  intros (v & _ & Hv)%control_Ok. unfold decoded in Hv. destruct (from_wire_declare v) as [wire|] eqn:Ew; [|done].
  cbn in Hv. unfold plan_of in Hv. inv_all Hv. unfold from_wire_declare in Ew. inv_all Ew.
  eapply (defaulted_inv _ in_u64); [eassumption|intros; eapply from_value_below_bound; eassumption|by split].
Qed.

Lemma wire_part_u64 v p : from_wire_blob_part v = Some p -> in_u64 (wb_size_bytes p).
Proof.
  unfold from_wire_blob_part. intros Hp. inv_all Hp. unfold required in E1. inv_all E1.
  by eapply from_value_below_bound.
Qed.
Lemma wire_grant_u64 v g : from_wire_blob_grant v = Some g -> Forall (fun p => in_u64 (wb_size_bytes p)) (wg_parts g).
Proof.
  unfold from_wire_blob_grant. intros Hg. inv_all Hg.
  eapply (defaulted_inv _ (Forall (fun p => in_u64 (wb_size_bytes p)))); [eassumption| |constructor].
  intros. eapply from_value_vec_Forall; [apply wire_part_u64|eassumption].
Qed.
Lemma blob_grants_u64 session digests r grants r' :
  blob_grants t session digests r = (Ok grants, r') ->
  Forall (fun g => Forall (fun p => in_u64 (bp_size_bytes p)) (bg_parts g)) grants.
Proof.
  intros (v & _ & Hv)%control_Ok. unfold decoded in Hv. destruct (from_wire_list v) as [wire|] eqn:Ew; [|done].
  cbn in Hv. revert Hv. apply (collect_Forall _ (fun g => Forall (fun p => in_u64 (wb_size_bytes p)) (wg_parts g))).
  { unfold blob_grant_of. intros g g' Hg Hb. inv_all Hb. by apply Forall_fmap. }
  unfold from_wire_list in Ew. inv_all Ew. eapply (defaulted_inv _ (Forall _)); [eassumption| |constructor].
  intros. eapply from_value_vec_Forall; [apply wire_grant_u64|eassumption].
Qed.
Lemma complete_u64 session r code promoted total r' :
  complete t session r = (Ok (Incomplete code promoted total), r') -> in_u64 promoted.
Proof.
  intros ([status v] & r1 & _ & Hl)%bind_inv. injection Hl as Hc ->. unfold completion in Hc. cbn in Hc.
  destruct (from_value v) as [[stage p n [[c retry]|]]|] eqn:Ew; [|by case_match|done].
  destruct retry; simplify_eq. unfold from_value, from_wire_complete in Ew. inv_all Ew.
  eapply (defaulted_inv _ in_u64); [eassumption|intros; eapply from_value_below_bound; eassumption|by split].
Qed.

(** ** Downloads *)

(** What arrives of a body, and how it ends: a read of nothing is its end. *)
Fixpoint arriving (chunks : list (list byte)) : list byte :=
  match chunks with [] | [] :: _ => [] | chunk :: chunks => chunk ++ arriving chunks end.
Fixpoint ending (chunks : list (list byte)) (broken : option (list byte)) : option (list byte) :=
  match chunks with [] => broken | [] :: _ => None | _ :: chunks => ending chunks broken end.

Lemma arriving_rest n chunk chunks :
  take n chunk <> [] ->
  arriving (chunk :: chunks) = take n chunk ++ arriving (match drop n chunk with [] => chunks | rest => rest :: chunks end).
Proof.
  intros Hn. destruct chunk as [|b chunk]; [by rewrite take_nil in Hn|].
  change (arriving ((b :: chunk) :: chunks)) with ((b :: chunk) ++ arriving chunks).
  rewrite <- (take_drop n (b :: chunk)) at 1. rewrite <- app_assoc. f_equal. by destruct (drop n (b :: chunk)).
Qed.
Lemma ending_rest n chunk chunks broken :
  take n chunk <> [] ->
  ending (chunk :: chunks) broken = ending (match drop n chunk with [] => chunks | rest => rest :: chunks end) broken.
Proof.
  intros Hn. destruct chunk as [|b chunk]; [by rewrite take_nil in Hn|]. cbn [ending].
  by destruct (drop n (b :: chunk)).
Qed.
Lemma rest_shorter n (chunk : list byte) (chunks : list (list byte)) :
  take n chunk <> [] ->
  (length (concat (match drop n chunk with [] => chunks | rest => rest :: chunks end)) < length (concat (chunk :: chunks)))%nat.
Proof.
  intros Hn. assert (0 < length (take n chunk))%nat by (destruct (take n chunk); cbn in *; [done|lia]).
  assert (length (concat (chunk :: chunks)) = length (take n chunk) + length (drop n chunk) + length (concat chunks))%nat as ->.
  { cbn [concat]. rewrite length_app, length_take, length_drop. lia. }
  destruct (drop n chunk) eqn:E; cbn [concat]; rewrite ?length_app; lia.
Qed.

(** The loop takes what arrives, up to the limit. *)
Lemma download_loop_spec fuel limit written chunks broken :
  (length (concat chunks) < fuel)%nat -> 0 <= limit -> 0 <= written -> written + limit < U64 ->
  let x := download_loop fuel limit written chunks broken in
  concat x.1 = take (Z.to_nat limit) (arriving chunks) /\
  x.2 = match ending chunks broken with
        | Some error => if zlen (arriving chunks) <? limit then Err (TE_Io error) else Ok (written + limit)
        | None => Ok (written + Z.min limit (zlen (arriving chunks)))
        end.
Proof.
  revert limit written chunks. induction fuel as [|fuel IH]; [lia|]. intros limit written chunks Hf Hl Hw Hb.
  cbn [download_loop]. unfold body_read. destruct (Z.eqb_spec limit 0) as [->|Hz].
  { cbn. rewrite take_0. split; [done|].
    pose proof (zlen_nonneg (arriving chunks)). destruct (ending _ _); [|f_equal; lia].
    destruct (Z.ltb_spec (zlen (arriving chunks)) 0); [lia|f_equal; lia]. }
  destruct chunks as [|chunk chunks].
  { cbn [arriving ending]. rewrite take_nil. change (zlen (@nil byte)) with 0. destruct broken; split; try done; cbn [snd].
    - destruct (Z.ltb_spec 0 limit); [done|lia].
    - f_equal. lia. }
  set (n := Z.to_nat (Z.min DOWNLOAD_BLOCK limit)).
  destruct (take n chunk) as [|b block] eqn:Et.
  { assert (chunk = []) as ->. { destruct chunk, n eqn:En; try done. unfold DOWNLOAD_BLOCK in *. change (Z.shiftl 1 20) with 1048576 in *. lia. }
    cbn [arriving ending]. rewrite take_nil. change (zlen (@nil byte)) with 0. split; [done|]. cbn [snd]. f_equal. lia. }
  assert (take n chunk <> []) as Hne by (by rewrite Et).
  assert (zlen (b :: block) <= limit) as Hbl. { rewrite <- Et. unfold zlen. rewrite length_take. lia. }
  assert (0 < zlen (b :: block)) by (rewrite zlen_cons; pose proof (zlen_nonneg block); lia).
  rewrite (arriving_rest n), (ending_rest n), Et by done. pose proof (rest_shorter n chunk chunks Hne).
  set (rest := match drop n chunk with [] => chunks | _ => _ end) in *.
  assert (wadd written (zlen (b :: block)) = written + zlen (b :: block)) as Hwa by (unfold wadd; rewrite Z.mod_small; lia).
  destruct (IH (limit - zlen (b :: block)) (wadd written (zlen (b :: block))) rest) as [Hc Ha]; [lia..|].
  destruct (download_loop fuel _ _ _ _) as [blocks answer]. cbn [fst snd] in *. split.
  - change (concat ((b :: block) :: blocks)) with ((b :: block) ++ concat blocks).
    rewrite Hc, take_app, (take_ge (b :: block)) by (unfold zlen in *; lia). f_equal. f_equal. unfold zlen in *. lia.
  - rewrite Ha, Hwa, zlen_app. destruct (ending rest broken); [|f_equal; lia].
    destruct (Z.ltb_spec (zlen (arriving rest)) (limit - zlen (b :: block))),
      (Z.ltb_spec (zlen (b :: block) + zlen (arriving rest)) limit); try lia; [done|f_equal; lia].
Qed.

(** C27: The adapter takes a download for complete when it is all that was granted and
    nothing more: a body that is short, that is longer, or that breaks is refused,
    and the sink has been given what arrived, one byte past the grant at most. *)
Theorem download_exact grant r resp r' :
  in_u64 (dg_length grant) ->
  c_send (ht_transfer t) (bstr "GET") (dg_url grant) [] NoBody r = (Ok resp, r') ->
  let x := download t grant r in
  let body := arriving (rs_chunks resp) in
  x.2 = r' /\
  concat x.1.1 = take (Z.to_nat (wadd (dg_length grant) 1)) body /\
  (forall n, x.1.2 = Ok n -> n = dg_length grant /\ concat x.1.1 = body) /\
  (dg_length grant < U64 - 1 ->
    x.1.2 = Ok (dg_length grant) <-> zlen body = dg_length grant /\ ending (rs_chunks resp) (rs_broken resp) = None).
Proof.
  intros Hg Hs. cbn zeta. unfold download. rewrite Hs. set (limit := wadd (dg_length grant) 1).
  assert (0 <= limit < U64 /\ (limit = dg_length grant + 1 \/ limit = 0 /\ dg_length grant = U64 - 1)) as [Hl Hcases].
  { subst limit. unfold wadd, in_u64 in *. destruct (decide (dg_length grant = U64 - 1)) as [->|]; [by split; [|right]|].
    rewrite Z.mod_small by lia. lia. }
  destruct (download_loop_spec (S (length (concat (rs_chunks resp)))) limit 0 (rs_chunks resp) (rs_broken resp))
    as [Hc Ha]; [lia..|].
  destruct (download_loop _ _ _ _ _) as [blocks answer]. cbn [fst snd] in *. subst answer.
  set (body := arriving (rs_chunks resp)) in *. pose proof (zlen_nonneg body). unfold in_u64 in Hg.
  assert (1 < U64) by done. split_and!; [done|done| |].
  - intros n. destruct (ending _ _) as [e|]; [destruct (Z.ltb_spec (zlen body) limit); [done|]|]; cbn [negb];
      match goal with |- context [?w =? dg_length grant] => destruct (Z.eqb_spec w (dg_length grant)) end;
      cbn [negb]; intros Hn; try discriminate Hn; injection Hn as <-; [exfalso; lia|]. split; [done|]. rewrite Hc. apply take_ge. unfold zlen in *. lia.
  - intros Hlt. destruct (ending _ _) as [e|].
    + split; [|by intros []]. destruct (Z.ltb_spec (zlen body) limit); [done|].
      destruct (Z.eqb_spec (0 + limit) (dg_length grant)); [lia|done].
    + destruct (Z.eqb_spec (0 + Z.min limit (zlen body)) (dg_length grant)) as [He|Hne]; cbn [negb].
      * rewrite He. split; [|done]. intros _. split; [lia|done].
      * split; [done|]. intros [Hz _]. lia.
Qed.
Lemma download_u64 grant r : zlen (concat (download t grant r).1.1) < U64.
Proof.
  unfold download. destruct (c_send _ _ _ _ _ r) as [[resp|[status resp|detail]] r1]; [|by case_match|done].
  assert (0 <= wadd (dg_length grant) 1 < U64) by (apply Z.mod_pos_bound; done).
  destruct (download_loop_spec (S (length (concat (rs_chunks resp)))) (wadd (dg_length grant) 1) 0 (rs_chunks resp)
    (rs_broken resp)) as [Hc _]; [lia..|].
  destruct (download_loop _ _ _ _ _) as [blocks answer]. cbn [fst] in *. rewrite Hc. unfold zlen. rewrite length_take. lia.
Qed.

(** ** The adapter is a transport *)

Definition http_sync : SyncTransport R := {|
  t_declare := declare t; t_pack_grants := pack_grants t; t_upload_pack := upload_pack t;
  t_blob_grants := blob_grants t; t_upload_blob_part := upload_blob_part t;
  t_report_blob_parts := report_blob_parts t; t_complete := complete t; t_head := head t;
  t_download_grants := download_grants t; t_download := download t; t_sink_failed e := TE_Io (c_sink_text e);
  t_declare_u64 := declare_u64; t_blob_grants_u64 := blob_grants_u64; t_complete_u64 := complete_u64;
  t_download_u64 := download_u64
|}.

(** ** Uploads *)

(** Whatever buffers the carrier reads with, it is given the bytes in order, each
    read is reported as it is made, and enough reads give them all. *)
Lemma drain_hands buffers bytes :
  (exists rest, bytes = (drain buffers bytes).1 ++ rest) /\
  sumZ (drain buffers bytes).2 = zlen (drain buffers bytes).1 /\
  (Forall (Z.lt 0) buffers -> (length bytes <= length buffers)%nat -> (drain buffers bytes).1 = bytes).
Proof.
  revert bytes. induction buffers as [|capacity buffers IH]; intros bytes; cbn [drain reporting_read].
  { split_and!; [by exists bytes|done|]. intros _ Hl. destruct bytes; [done|cbn in Hl; lia]. }
  set (n := Z.to_nat (Z.min capacity (zlen bytes))).
  destruct (Z.eqb_spec (zlen (take n bytes)) 0) as [Hz|Hz].
  { split_and!; [by exists bytes|done|]. intros Hp%Forall_cons _. destruct Hp as [Hp _]. destruct bytes; [done|].
    unfold n, zlen in *. cbn [fst]. rewrite length_take in Hz. cbn [length] in *. lia. }
  destruct (IH (drop n bytes)) as ((rest & Hr) & Hs & Ha).
  destruct (drain buffers (drop n bytes)) as [handed reported]. cbn [fst snd] in *. split_and!.
  - exists rest. by rewrite <- app_assoc, <- Hr, take_drop.
  - change (sumZ (zlen (take n bytes) :: reported)) with (zlen (take n bytes) + sumZ reported). by rewrite Hs, zlen_app.
  - intros [_ Hp]%Forall_cons Hl. rewrite Ha; [apply take_drop|done|].
    unfold zlen in Hz. rewrite length_take in Hz. rewrite length_drop. cbn [length] in Hl. lia.
Qed.

(** ** The wire's answers *)

(** A field of an object, and one that may be left out. *)
Definition field (m : list (list byte * json)) (name : list byte) (P : json -> Prop) : Prop :=
  exists v, bt_get name m = Some v /\ P v.
Definition field_or (m : list (list byte * json)) (name : list byte) (P : json -> Prop) (absent : Prop) : Prop :=
  match bt_get name m with Some v => P v | None => absent end.
Definition spells_list {A} (spells : A -> json -> Prop) (l : list A) (v : json) : Prop :=
  exists vs, v = JArray vs /\ Forall2 spells l vs.
Definition spells_ref (digest : list byte) (v : json) : Prop := zlen digest = 32 /\ v = JString (tagged digest).
Definition spells_u64 (n : Z) (v : json) : Prop := in_u64 n /\ v = nat_value n.
Definition spells_owed (x : list byte * Z) (v : json) : Prop :=
  exists m, v = JObject m /\ field m (bstr "digest") (spells_ref x.1) /\ field m (bstr "size_bytes") (spells_u64 x.2).
Definition spells_staged (p : staged_pack) (v : json) : Prop :=
  exists m, v = JObject m /\ field m (bstr "sha256") (eq (JString (sp_sha256 p))) /\ field m (bstr "staged") (eq (JBool (sp_staged p))).
Definition spells_headers (h : headers) (v : json) : Prop := v = JObject ((fun x => (x.1, JString x.2)) <$> h).
Definition spells_pack_grant (g : pack_grant) (v : json) : Prop :=
  exists m, v = JObject m /\ field m (bstr "pack_sha256") (eq (JString (pg_pack_sha256 g))) /\
    field m (bstr "staging_key") (eq (JString (pg_staging_key g))) /\ field m (bstr "put_url") (eq (JString (pg_url g))) /\
    field_or m (bstr "headers") (spells_headers (pg_headers g)) (pg_headers g = []).
Definition spells_part (p : blob_part) (v : json) : Prop :=
  exists m, v = JObject m /\ field m (bstr "part_number") (fun v => in_u32 (bp_part_number p) /\ v = nat_value (bp_part_number p)) /\
    field m (bstr "size_bytes") (spells_u64 (bp_size_bytes p)) /\ field m (bstr "put_url") (eq (JString (bp_url p))) /\
    field_or m (bstr "headers") (spells_headers (bp_headers p)) (bp_headers p = []).
Definition spells_blob_grant (g : blob_grant) (v : json) : Prop :=
  exists m, v = JObject m /\ field m (bstr "digest") (spells_ref (bg_digest g)) /\ field m (bstr "length") (spells_u64 (bg_length g)) /\
    field_or m (bstr "staging_key") (eq (JString (bg_staging_key g))) (bg_staging_key g = []) /\
    field m (bstr "upload_id") (eq (JString (bg_upload_id g))) /\ field m (bstr "part_size") (spells_u64 (bg_part_size g)) /\
    field_or m (bstr "parts") (spells_list spells_part (bg_parts g)) (bg_parts g = []) /\
    field_or m (bstr "uploaded_parts") (spells_list (fun n v => in_u32 n /\ v = nat_value n) (bg_uploaded_parts g)) (bg_uploaded_parts g = []).
Definition spells_download_grant (g : download_grant) (v : json) : Prop :=
  exists m, v = JObject m /\ field m (bstr "digest") (spells_ref (dg_digest g)) /\ field m (bstr "size_bytes") (spells_u64 (dg_length g)) /\
    field m (bstr "get_url") (eq (JString (dg_url g))).
Definition spells_plan (p : sync_plan) (v : json) : Prop :=
  exists m, v = JObject m /\
    field m (bstr "snapshot_id") (fun v => zlen (pl_snapshot_id p) = 32 /\ v = JString (SnapshotId_display (pl_snapshot_id p))) /\
    field m (bstr "session_id") (eq (JString (pl_session p))) /\ field m (bstr "have") (spells_list spells_ref (pl_have p)) /\
    field_or m (bstr "staged_packs") (spells_list spells_staged (pl_staged_packs p)) (pl_staged_packs p = []) /\
    field_or m (bstr "missing") (spells_list spells_owed (pl_missing p)) (pl_missing p = []) /\
    field_or m (bstr "missing_blobs") (spells_list spells_owed (pl_missing_blobs p)) (pl_missing_blobs p = []) /\
    field_or m (bstr "max_pack_payload") (spells_u64 (pl_max_pack_payload p)) (pl_max_pack_payload p = 0) /\
    field_or m (bstr "max_packs_per_request") (spells_u64 (pl_max_packs_per_request p)) (pl_max_packs_per_request p = 0).
Definition spells_grants (p : grants_plan) (v : json) : Prop :=
  exists m, v = JObject m /\
    field_or m (bstr "grants") (spells_list spells_pack_grant (gp_grants p)) (gp_grants p = []) /\
    field_or m (bstr "staged_packs") (spells_list spells_staged (gp_staged_packs p)) (gp_staged_packs p = []) /\
    field_or m (bstr "missing") (spells_list spells_owed (gp_missing p)) (gp_missing p = []) /\
    field_or m (bstr "missing_blobs") (spells_list spells_owed (gp_missing_blobs p)) (gp_missing_blobs p = []).
Definition spells_failure (code : list byte) (retryable : bool) (v : json) : Prop :=
  exists m, v = JObject m /\ field m (bstr "code") (eq (JString code)) /\ field m (bstr "retryable") (eq (JBool retryable)).
(** A completion's answer, with the status it comes with. *)
Definition spells_completion (c : complete_status) (status : Z) (v : json) : Prop :=
  exists m, v = JObject m /\
    match c with
    | Promoted =>
        status = 200 /\ field m (bstr "stage") (eq (JString (bstr "promoted"))) /\ field_or m (bstr "failure") (eq JNull) True /\
        field_or m (bstr "promoted") (fun v => exists n, spells_u64 n v) True /\ field_or m (bstr "total") (fun v => exists n, spells_u64 n v) True
    | Incomplete code promoted total =>
        field m (bstr "failure") (spells_failure code true) /\ field_or m (bstr "stage") (fun v => exists s, v = JString s) True /\
        field_or m (bstr "promoted") (spells_u64 promoted) (promoted = 0) /\ field_or m (bstr "total") (spells_u64 total) (total = 0)
    | CFailed code =>
        field m (bstr "failure") (spells_failure code false) /\ field_or m (bstr "stage") (fun v => exists s, v = JString s) True /\
        field_or m (bstr "promoted") (fun v => exists n, spells_u64 n v) True /\ field_or m (bstr "total") (fun v => exists n, spells_u64 n v) True
    end.
Abbreviation of_object m := (fun (_ : nat) (k : list byte) => bt_get k m).
Lemma required_spelled {A} (D : FromValue A) m i name P x :
  field m name P -> (forall v, P v -> D v = Some x) -> required (of_object m) i name = Some x.
Proof. intros (v & Hv & HP) HD. unfold required. rewrite Hv. by apply HD. Qed.
Lemma defaulted_spelled {A} (D : FromValue A) m i name P absent x otherwise :
  field_or m name P absent -> (forall v, P v -> D v = Some x) -> (absent -> x = otherwise) ->
  defaulted (of_object m) i name otherwise = Some x.
Proof. unfold field_or, defaulted. intros Hf HD Ha. case_match; [by apply HD|f_equal; symmetry; auto]. Qed.
Lemma vec_spelled {A B} (D : FromValue B) (spells : A -> json -> Prop) (g : A -> B) l v :
  spells_list spells l v -> (forall x v, spells x v -> D v = Some (g x)) -> from_value_vec v = Some (g <$> l).
Proof.
  intros (vs & -> & Hl) HD. unfold from_value_vec. apply mapM_Some, Forall2_fmap_r, Forall2_flip. 
  eapply Forall2_impl; [exact Hl|]. intros x w Hx. by apply HD.
Qed.
Lemma below_spelled bound n v : (0 <= n < bound /\ v = nat_value n) -> from_value_below bound v = Some n.
Proof.
  intros [Hn ->]. cbn. destruct (Z.leb_spec 0 n); [|lia]. destruct (Z.ltb_spec n bound); [done|lia].
Qed.
Lemma string_spelled s v : JString s = v -> from_value_string v = Some s.
Proof. by intros <-. Qed.
Lemma ref_spelled digest v : spells_ref digest v -> from_value_string v = Some (tagged digest).
Proof. by intros [_ ->]. Qed.
Lemma headers_spelled h v : spells_headers h v -> from_value_headers v = Some h.
Proof.
  intros ->. cbn. apply mapM_Some, Forall2_fmap_l, Forall_Forall2_diag, Forall_true. by intros [].
Qed.
Lemma parse_ref_tagged digest : zlen digest = 32 -> parse_ref (tagged digest) = Ok digest.
Proof.
  intros Hd. unfold parse_ref, tagged, digest_display. rewrite (proj2 (strip_prefix_Some _ _ (to_hex digest))) by done.
  unfold SnapshotId_parse_hex. by rewrite parse_hex32_to_hex.
Qed.

Create HintDb wire.
(** Decodes the fields of an object one after the other. *)
Local Ltac spelled :=
  match goal with
  | Hf : field ?m ?name _ |- context [@required _ ?D (of_object ?m) ?i ?name] =>
      erewrite (required_spelled D m i name _ _ Hf) by eauto with wire; cbn beta iota; clear Hf
  | Hf : field_or ?m ?name _ _ |- context [@defaulted _ ?D (of_object ?m) ?i ?name ?o] =>
      erewrite (defaulted_spelled D m i name _ _ _ o Hf); [|solve [eauto with wire]|solve [eauto with wire]]; cbn beta iota; clear Hf
  end.
#[local] Hint Resolve ref_spelled below_spelled string_spelled headers_spelled : wire.

Lemma bool_spelled b v : JBool b = v -> from_value_bool v = Some b.
Proof. by intros <-. Qed.
Lemma some_u64_spelled v : (exists n, spells_u64 n v) -> exists n, from_value_u64 v = Some n.
Proof. intros (n & Hn). exists n. by apply below_spelled. Qed.
Lemma fmap_empty {A B} (g : A -> B) (l : list A) : l = [] -> g <$> l = [].
Proof. by intros ->. Qed.
Lemma numbers_spelled bound l v :
  spells_list (fun n v => 0 <= n < bound /\ v = nat_value n) l v -> from_value_vec (H := from_value_below bound) v = Some l.
Proof.
  intros Hl. erewrite (vec_spelled _ _ id) by (done || exact (below_spelled bound)). by rewrite list_fmap_id.
Qed.
#[local] Hint Resolve bool_spelled numbers_spelled fmap_empty : wire.

(** The structures of the wire that spell the engine's. *)
Definition wire_owed (x : list byte * Z) : wire_missing := WireMissing (tagged x.1) x.2.
Definition wire_staged (p : staged_pack) : wire_pack_status := WirePackStatus (sp_sha256 p) (sp_staged p).
Definition wire_pack (g : pack_grant) : wire_grant := WireGrant (pg_pack_sha256 g) (pg_staging_key g) (pg_url g) (pg_headers g).
Definition wire_part (p : blob_part) : wire_blob_part :=
  WireBlobPart (bp_part_number p) (bp_size_bytes p) (bp_url p) (bp_headers p).
Definition wire_blob (g : blob_grant) : wire_blob_grant :=
  WireBlobGrant (tagged (bg_digest g)) (bg_length g) (bg_staging_key g) (bg_upload_id g) (bg_part_size g)
    (wire_part <$> bg_parts g) (bg_uploaded_parts g).
Definition wire_get (g : download_grant) : wire_download_grant := WireDownloadGrant (tagged (dg_digest g)) (dg_length g) (dg_url g).

Lemma owed_spelled x v : spells_owed x v -> from_wire_missing v = Some (wire_owed x).
Proof. intros (m & -> & Hd & Hs). unfold from_wire_missing. cbn [struct_fields]. by do 2 spelled. Qed.
Lemma staged_spelled p v : spells_staged p v -> from_wire_pack_status v = Some (wire_staged p).
Proof. intros (m & -> & Hd & Hs). unfold from_wire_pack_status. cbn [struct_fields]. by do 2 spelled. Qed.
Lemma pack_grant_spelled g v : spells_pack_grant g v -> from_wire_grant v = Some (wire_pack g).
Proof. intros (m & -> & ? & ? & ? & ?). unfold from_wire_grant. cbn [struct_fields]. by do 4 spelled. Qed.
Lemma part_spelled p v : spells_part p v -> from_wire_blob_part v = Some (wire_part p).
Proof. intros (m & -> & ? & ? & ? & ?). unfold from_wire_blob_part. cbn [struct_fields]. by do 4 spelled. Qed.
Definition refs_spelled l v (Hl : spells_list _ l v) := vec_spelled _ _ _ l v Hl ref_spelled.
Definition owed_list_spelled l v (Hl : spells_list _ l v) := vec_spelled _ _ _ l v Hl owed_spelled.
Definition staged_list_spelled l v (Hl : spells_list _ l v) := vec_spelled _ _ _ l v Hl staged_spelled.
Definition packs_spelled l v (Hl : spells_list _ l v) := vec_spelled _ _ _ l v Hl pack_grant_spelled.
Definition parts_spelled l v (Hl : spells_list _ l v) := vec_spelled _ _ _ l v Hl part_spelled.
#[local] Hint Resolve refs_spelled owed_list_spelled staged_list_spelled packs_spelled parts_spelled : wire.
Lemma blob_grant_spelled g v : spells_blob_grant g v -> from_wire_blob_grant v = Some (wire_blob g).
Proof. intros (m & -> & ? & ? & ? & ? & ? & ? & ?). unfold from_wire_blob_grant. cbn [struct_fields]. by do 7 spelled. Qed.
Lemma download_grant_spelled g v : spells_download_grant g v -> from_wire_download_grant v = Some (wire_get g).
Proof. intros (m & -> & ? & ? & ?). unfold from_wire_download_grant. cbn [struct_fields]. by do 3 spelled. Qed.
Lemma plan_spelled p v :
  spells_plan p v ->
  zlen (pl_snapshot_id p) = 32 /\
  from_wire_declare v = Some (WireDeclare (SnapshotId_display (pl_snapshot_id p)) (pl_session p) (tagged <$> pl_have p)
    (wire_staged <$> pl_staged_packs p) (wire_owed <$> pl_missing p) (wire_owed <$> pl_missing_blobs p)
    (pl_max_pack_payload p) (pl_max_packs_per_request p)).
Proof.
  intros (m & -> & Hid & ? & ? & ? & ? & ? & ? & ?). split; [by destruct Hid as (? & _ & ? & _)|].
  unfold from_wire_declare. cbn [struct_fields].
  rewrite (required_spelled _ _ _ _ _ (SnapshotId_display (pl_snapshot_id p)) Hid) by (intros ? [_ ->]; done). by do 7 spelled.
Qed.
Lemma grants_spelled p v :
  spells_grants p v ->
  from_wire_grants v = Some (WireGrants (wire_pack <$> gp_grants p) (wire_staged <$> gp_staged_packs p)
    (wire_owed <$> gp_missing p) (wire_owed <$> gp_missing_blobs p)).
Proof. intros (m & -> & ? & ? & ? & ?). unfold from_wire_grants. cbn [struct_fields]. by do 4 spelled. Qed.
Lemma missing_pairs_spelled l : Forall (fun x => zlen x.1 = 32) l -> missing_pairs (wire_owed <$> l) = Ok l.
Proof.
  intros Hl. apply collect_map. eapply Forall_impl; [exact Hl|]. intros [digest n] Hd. unfold wire_owed.
  cbn [wm_digest wm_size_bytes fst snd] in *. by rewrite parse_ref_tagged.
Qed.
Lemma staged_rows_spelled l : staged_rows (wire_staged <$> l) = l.
Proof. unfold staged_rows. rewrite <- list_fmap_compose. rewrite <- (list_fmap_id l) at 2. apply list_fmap_ext. by intros i []. Qed.
Lemma packs_of_spelled (l : list pack_grant) :
  (fun g => PackGrant (wr_pack_sha256 g) (wr_staging_key g) (wr_put_url g) (wr_headers g)) <$> (wire_pack <$> l) = l.
Proof. rewrite <- list_fmap_compose. rewrite <- (list_fmap_id l) at 2. apply list_fmap_ext. by intros i []. Qed.
Lemma parts_of_spelled (l : list blob_part) :
  (fun p => BlobPart (wb_part_number p) (wb_size_bytes p) (wb_put_url p) (wb_headers p)) <$> (wire_part <$> l) = l.
Proof. rewrite <- list_fmap_compose. rewrite <- (list_fmap_id l) at 2. apply list_fmap_ext. by intros i []. Qed.
Lemma spells_list_Forall {A} (spells : A -> json -> Prop) (P : A -> Prop) l v :
  spells_list spells l v -> (forall x v, spells x v -> P x) -> Forall P l.
Proof. intros (vs & _ & Hl) HP. induction Hl; constructor; eauto. Qed.
Lemma field_or_Forall {A} m name (spells : A -> json -> Prop) (P : A -> Prop) l :
  field_or m name (spells_list spells l) (l = []) -> (forall x v, spells x v -> P x) -> Forall P l.
Proof. unfold field_or. intros Hf HP. case_match; [by eapply spells_list_Forall|by subst]. Qed.
Lemma spells_owed_length x v : spells_owed x v -> zlen x.1 = 32.
Proof. by intros (m & _ & (w & _ & Hd & _) & _). Qed.

Lemma plan_of_spelled p v :
  spells_plan p v -> (let? wire := decoded from_wire_declare (bstr "declare") (bstr "WireDeclare") v in plan_of wire) = Ok p.
Proof.
  intros Hp. destruct (plan_spelled p v Hp) as [Hid Hw]. unfold decoded. rewrite Hw. unfold plan_of.
  cbn [wd_snapshot_id wd_session_id wd_have wd_staged_packs wd_missing wd_missing_blobs wd_max_pack_payload wd_max_packs_per_request].
  destruct Hp as (m & -> & _ & _ & (w & _ & Hh) & _ & Hm & Hb & _).
  unfold SnapshotId_parse_hex, SnapshotId_display. rewrite parse_hex32_to_hex by done.
  rewrite (collect_map parse_ref tagged (pl_have p)).
  2:{ eapply spells_list_Forall; [exact Hh|]. intros d u [Hd _]. by apply parse_ref_tagged. }
  rewrite !missing_pairs_spelled, staged_rows_spelled by (eapply field_or_Forall; [eassumption|apply spells_owed_length]).
  by destruct p.
Qed.
Lemma grants_of_spelled p v :
  spells_grants p v -> (let? wire := decoded from_wire_grants (bstr "pack-grants") (bstr "WireGrants") v in grants_of wire) = Ok p.
Proof.
  intros Hp. unfold decoded. rewrite (grants_spelled p v Hp). unfold grants_of. cbn [ws_grants ws_staged_packs ws_missing ws_missing_blobs].
  destruct Hp as (m & -> & _ & _ & Hm & Hb).
  rewrite !missing_pairs_spelled, staged_rows_spelled, packs_of_spelled
    by (eapply field_or_Forall; [eassumption|apply spells_owed_length]).
  by destruct p.
Qed.
Definition spells_grant_list {A} (spells : A -> json -> Prop) (l : list A) (v : json) : Prop :=
  exists m, v = JObject m /\ field_or m (bstr "grants") (spells_list spells l) (l = []).
Lemma grant_list_spelled {A B} (D : FromValue B) (spells : A -> json -> Prop) (g : A -> B) l v :
  (forall x v, spells x v -> D v = Some (g x)) -> spells_grant_list spells l v -> from_wire_list v = Some (g <$> l).
Proof.
  intros HD (m & -> & Hl). unfold from_wire_list. cbn [struct_fields].
  eapply defaulted_spelled; [exact Hl| |apply fmap_empty]. intros v Hv. by eapply vec_spelled.
Qed.
Lemma blob_grants_spelled l v :
  spells_grant_list spells_blob_grant l v ->
  (let? wire := decoded (from_wire_list (A := wire_blob_grant)) (bstr "blob-grants") (bstr "WireBlobGrants") v in collect blob_grant_of wire) = Ok l.
Proof.
  intros Hl. unfold decoded. rewrite (grant_list_spelled _ _ _ _ _ blob_grant_spelled Hl). apply collect_map.
  destruct Hl as (m & _ & Hl). eapply field_or_Forall; [exact Hl|]. intros g u (m' & _ & (w & _ & Hd & _) & _).
  unfold blob_grant_of, wire_blob. cbn [wg_digest wg_length wg_staging_key wg_upload_id wg_part_size wg_parts wg_uploaded_parts].
  rewrite parse_ref_tagged, parts_of_spelled by done. by destruct g.
Qed.
Lemma download_grants_spelled l v :
  spells_grant_list spells_download_grant l v ->
  (let? wire := decoded (from_wire_list (A := wire_download_grant)) (bstr "download-grants") (bstr "WireDownloadGrants") v in
   collect download_grant_of wire) = Ok l.
Proof.
  intros Hl. unfold decoded. rewrite (grant_list_spelled _ _ _ _ _ download_grant_spelled Hl). apply collect_map.
  destruct Hl as (m & _ & Hl). eapply field_or_Forall; [exact Hl|]. intros g u (m' & _ & (w & _ & Hd & _) & _).
  unfold download_grant_of, wire_get. cbn [wl_digest]. rewrite parse_ref_tagged by done. by destruct g.
Qed.
Lemma failure_spelled code retryable v : spells_failure code retryable v -> from_value_option v = Some (Some (WireFailure code retryable)).
Proof.
  intros (m & -> & ? & ?). unfold from_value_option, from_value, from_wire_failure. cbn [struct_fields].
  do 2 spelled. done.
Qed.
#[local] Hint Resolve failure_spelled : wire.
Lemma any_u64 m name : field_or m name (fun v => exists n, spells_u64 n v) True -> exists n, field_or m name (spells_u64 n) (n = 0).
Proof. unfold field_or. intros Hf. destruct (bt_get name m); [done|by exists 0]. Qed.
Lemma any_string m name : field_or m name (fun v => exists s, v = JString s) True -> exists s, field_or m name (eq (JString s)) (s = []).
Proof. unfold field_or. intros Hf. destruct (bt_get name m); [destruct Hf as [s ->]; by exists s|by exists []]. Qed.
Lemma completion_spelled c status v : spells_completion c status v -> completion status v = Ok c.
Proof.
  intros (m & -> & Hc). unfold completion, from_value, from_wire_complete. cbn [struct_fields].
  destruct c as [|code promoted total|code].
  - destruct Hc as (-> & (w & Hw & <-) & Hf & [p Hp]%any_u64 & [n Hn]%any_u64).
    assert (field_or m (bstr "stage") (eq (JString (bstr "promoted"))) (bstr "promoted" = [])) by (unfold field_or; by rewrite Hw).
    do 3 spelled. erewrite (defaulted_spelled _ _ _ _ _ _ None _ Hf); [done|by intros ? <-|done].
  - destruct Hc as ((w & Hw & Hf) & [s Hs]%any_string & Hp & Hn).
    assert (field_or m (bstr "failure") (spells_failure code true) False) by (unfold field_or; by rewrite Hw).
    do 3 spelled. erewrite (defaulted_spelled _ _ _ _ _ False); [|eassumption|eauto with wire|done]. done.
  - destruct Hc as ((w & Hw & Hf) & [s Hs]%any_string & [p Hp]%any_u64 & [n Hn]%any_u64).
    assert (field_or m (bstr "failure") (spells_failure code false) False) by (unfold field_or; by rewrite Hw).
    do 3 spelled. erewrite (defaulted_spelled _ _ _ _ _ False); [|eassumption|eauto with wire|done]. done.
Qed.
Definition spells_head (h : option (list byte)) (v : json) : Prop :=
  exists m, v = JObject m /\ field m (bstr "snapshot_id") (fun v =>
    match h with Some id => zlen id = 32 /\ v = JString (SnapshotId_display id) | None => v = JString [] end).
Lemma head_spelled h v :
  spells_head h v -> (let? id := decoded from_wire_head (bstr "head") (bstr "WireHead") v in head_of id) = Ok h.
Proof.
  intros (m & -> & (w & Hw & Hh)). unfold decoded, from_wire_head, required. cbn [struct_fields]. rewrite Hw.
  destruct h as [id|]; [|by subst w]. destruct Hh as [Hid ->]. cbn [from_value from_value_string]. unfold head_of.
  rewrite bool_decide_false; [unfold SnapshotId_parse_hex, SnapshotId_display; by rewrite parse_hex32_to_hex|].
  intros He. pose proof (zlen_to_hex id) as Hz. unfold SnapshotId_display in He. rewrite He, Hid in Hz. done.
Qed.

Lemma control_answer {A} method url body expected (take : json -> result transport_error A) r v x r' :
  exchange t method url body r = (Ok (expected, v), r') -> take v = Ok x ->
  (let<- answer := exchange t method url body in lift (on_status expected take answer)) r = (Ok x, r').
Proof.
  intros He Ht. rewrite (bind_Ok _ _ _ _ _ He). unfold lift, on_status. cbn [fst snd]. by rewrite Z.eqb_refl, Ht.
Qed.

(** The header a request is authorised with. *)
Inductive authorised (r : R) : headers -> Prop :=
| authorised_none : ht_token t = NoToken -> authorised r []
| authorised_static token :
    ht_token t = StaticToken token -> authorised r [(bstr "authorization", bstr "Bearer " ++ token)]
| authorised_file path raw :
    ht_token t = TokenFile path -> c_token_file path r = Ok raw ->
    authorised r [(bstr "authorization", bstr "Bearer " ++ trim raw)].

(** The value of a response's text; no text is [null]. *)
Definition text_says (text : list byte) (v : json) : Prop :=
  text = [] /\ v = JNull \/ text <> [] /\ json_from_str text = Ok v.

Definition request_body (body : option json) : payload :=
  match body with Some v => JsonBody v | None => NoBody end.

(** The hub answers a request with a status and a value: the carrier brings a
    response, whatever its status, and its text is that value.  The text of a
    response that is no success may be unreadable, which is no value. *)
Inductive answers (method url : list byte) (body : option json) (r : R) (status : Z) (v : json) (r' : R) : Prop :=
| answers_success set response text :
    authorised r set -> c_send (ht_control t) method url set (request_body body) r = (Ok response, r') ->
    rs_status response = status -> rs_text response = Ok text -> text_says text v ->
    answers method url body r status v r'
| answers_status set response text :
    authorised r set ->
    c_send (ht_control t) method url set (request_body body) r = (Err (Status status response), r') ->
    rs_text response = Ok text -> text_says text v -> answers method url body r status v r'
| answers_unreadable set response e :
    authorised r set ->
    c_send (ht_control t) method url set (request_body body) r = (Err (Status status response), r') ->
    rs_text response = Err e -> v = JNull -> answers method url body r status v r'.

Lemma decode_text_iff status text s v : decode_text status text = Ok (s, v) <-> s = status /\ text_says text v.
Proof.
  unfold decode_text, text_says. case_bool_decide as Ht.
  - split; [intros [= <- <-]; auto|]. intros (-> & [[_ ->]|[? _]]); done.
  - destruct (json_from_str text) as [w|e].
    + split; [intros [= <- <-]; auto|]. by intros (-> & [[? _]|[_ [= ->]]]).
    + split; [done|]. by intros (_ & [[? _]|[_ ?]]).
Qed.

Lemma bearer_iff r : (forall token r1, bearer t r = (Ok token, r1) -> r1 = r /\
    authorised r (match token with Some token => [(bstr "authorization", bstr "Bearer " ++ token)] | None => [] end)) /\
  (forall set, authorised r set -> exists token, bearer t r = (Ok token, r) /\
    set = match token with Some token => [(bstr "authorization", bstr "Bearer " ++ token)] | None => [] end).
Proof.
  split.
  - intros token r1. unfold bearer. destruct (ht_token t) as [|tok|path] eqn:E.
    + intros [= <- <-]. split; [done|by constructor].
    + intros [= <- <-]. split; [done|by constructor].
    + destruct (c_token_file path r) eqn:Ef; [|done]. intros [= <- <-]. split; [done|by econstructor].
  - intros set [E|tok E|path raw E Ef]; unfold bearer; rewrite E; [by exists None|by eexists (Some _)|].
    rewrite Ef. by eexists (Some _).
Qed.

(** [exchange] takes exactly what the hub answered. *)
Lemma exchange_answers method url body r status v r' :
  exchange t method url body r = (Ok (status, v), r') <-> answers method url body r status v r'.
Proof.
  destruct (bearer_iff r) as [Hb1 Hb2]. split.
  - intros (token & r1 & Hb & Hx)%bind_inv. apply Hb1 in Hb as [-> Ha].
    cbv beta zeta in Hx. fold (request_body body) in Hx.
    destruct (c_send _ _ _ _ _ r) as [[response|[s response|detail]] r2] eqn:Es; [| |done].
    + destruct (rs_text response) as [text|e] eqn:Et; [|done]. injection Hx as Hd ->.
      apply decode_text_iff in Hd as [-> Hs]. by eapply answers_success.
    + destruct (rs_text response) as [text|e] eqn:Et.
      * injection Hx as Hd ->. apply decode_text_iff in Hd as [-> Hs]. by eapply answers_status.
      * injection Hx as <- <- ->. by eapply answers_unreadable.
  - intros [set response text Ha Hs Hst Ht Hv|set response text Ha Hs Ht Hv|set response e Ha Hs Ht Hv];
      apply Hb2 in Ha as (token & Hb & ->); unfold exchange; rewrite (bind_Ok _ _ _ _ _ Hb);
      unfold request_body in Hs; rewrite Hs, Ht; f_equal.
    + subst status. by apply decode_text_iff.
    + by apply decode_text_iff.
    + subst v. apply decode_text_iff. split; [done|by left].
Qed.

(** An answer that says a push is promoted, as an object or as a sequence of its
    fields: the stage says so, and there is no failure. *)
Definition says_promoted (v : json) : Prop :=
  (exists m, v = JObject m /\ field m (bstr "stage") (eq (JString (bstr "promoted"))) /\
     field_or m (bstr "failure") (eq JNull) True) \/
  (exists l, v = JArray l /\ l !! 0%nat = Some (JString (bstr "promoted")) /\
     (l !! 3%nat = None \/ l !! 3%nat = Some JNull)).

Lemma completion_promoted status v : completion status v = Ok Promoted -> status = 200 /\ says_promoted v.
Proof.
  unfold completion. destruct (from_value v) as [[stage p n [[c retry]|]]|] eqn:Ew; [by destruct retry| |done].
  destruct (Z.eqb_spec status 200) as [->|]; [|done]. cbn [andb]. case_bool_decide as Hs; [|done]. subst stage.
  intros _. split; [done|]. unfold from_value, from_wire_complete in Ew.
  inv_all Ew.
  match goal with Hs : defaulted ?f 0%nat _ _ = _, Hf : defaulted ?f 3%nat _ _ = _, He : struct_fields 4 v = _ |- _ =>
    rename f into fs; rename Hs into Hstage; rename Hf into Hfail; rename He into Ef end.
  assert (fs 0%nat (bstr "stage") = Some (JString (bstr "promoted"))) as H1.
  { unfold defaulted in Hstage. destruct (fs 0%nat (bstr "stage")) as [v0|]; [|done].
    destruct v0; try done. by injection Hstage as ->. }
  assert (fs 3%nat (bstr "failure") = None \/ fs 3%nat (bstr "failure") = Some JNull) as H2.
  { unfold defaulted in Hfail. destruct (fs 3%nat (bstr "failure")) as [v3|]; [right|by left].
    f_equal. destruct v3; try done; cbn in Hfail; by apply fmap_Some in Hfail as (? & _ & ?). }
  destruct v as [| | | |l|m]; try done; cbn in Ef.
  - right. exists l. destruct (_ <=? _)%nat; [|done]. injection Ef as <-. by split_and!.
  - left. exists m. injection Ef as <-. split; [done|]. split; [by eexists|]. unfold field_or.
    destruct H2 as [-> | ->]; done.
Qed.

(** C32: The client takes an answer for what the hub said.  For each control call,
    when the carrier brings a response to it, sent with the token the transport was
    given, of the expected status and with a text that spells an answer as the wire
    has it, whatever other fields come with it, the call returns that plan, those
    grants, that head or that completion; and a push is taken for promoted only when
    the response to the completion had status 200 and its value has a stage that
    says [promoted] and no failure. *)
Theorem answers_understood r r' v :
  (forall manifest expected p,
    answers (bstr "POST") (route t []) (Some (declare_body manifest expected)) r 201 v r' ->
    spells_plan p v -> declare t manifest expected r = (Ok p, r')) /\
  (forall session claims p,
    answers (bstr "POST") (session_route t session (bstr "/pack-grants"))
      (Some (object [(bstr "packs", JArray (claim_value <$> claims))])) r 200 v r' ->
    spells_grants p v -> pack_grants t session claims r = (Ok p, r')) /\
  (forall session digests l,
    answers (bstr "POST") (session_route t session (bstr "/blob-grants")) (Some (digests_value digests)) r 200 v r' ->
    spells_grant_list spells_blob_grant l v -> blob_grants t session digests r = (Ok l, r')) /\
  (forall digests l,
    answers (bstr "POST") (route t (bstr "/download-grants")) (Some (digests_value digests)) r 200 v r' ->
    spells_grant_list spells_download_grant l v -> download_grants t digests r = (Ok l, r')) /\
  (forall h,
    answers (bstr "GET") (route t (bstr "/head")) None r 200 v r' ->
    spells_head h v -> head t r = (Ok h, r')) /\
  (forall session status c,
    answers (bstr "POST") (session_route t session (bstr "/complete")) (Some (object [])) r status v r' ->
    spells_completion c status v -> complete t session r = (Ok c, r')) /\
  (forall session,
    complete t session r = (Ok Promoted, r') ->
    exists said, answers (bstr "POST") (session_route t session (bstr "/complete")) (Some (object [])) r 200 said r' /\
      says_promoted said).
Proof.
  split_and!.
  - intros manifest expected p He%exchange_answers Hp. exact (control_answer _ _ _ _ _ _ _ _ _ He (plan_of_spelled p v Hp)).
  - intros session claims p He%exchange_answers Hp. exact (control_answer _ _ _ _ _ _ _ _ _ He (grants_of_spelled p v Hp)).
  - intros session digests l He%exchange_answers Hp. exact (control_answer _ _ _ _ _ _ _ _ _ He (blob_grants_spelled l v Hp)).
  - intros digests l He%exchange_answers Hp. exact (control_answer _ _ _ _ _ _ _ _ _ He (download_grants_spelled l v Hp)).
  - intros h He%exchange_answers Hp. exact (control_answer _ _ _ _ _ _ _ _ _ He (head_spelled h v Hp)).
  - intros session status c He%exchange_answers Hp. unfold complete. rewrite (bind_Ok _ _ _ _ _ He). unfold lift. cbn [fst snd].
    by rewrite (completion_spelled c status v Hp).
  - intros session ([status said] & r1 & He & Hl)%bind_inv. injection Hl as Hc ->.
    apply completion_promoted in Hc as [-> Hs]. exists said. split; [by apply exchange_answers|done].
Qed.
End facts.
