(* ===== verification/WorkspaceFacts.v ===== *)
(** What a workspace transaction guarantees: a failed one leaves the tables as
    they were, a batch is the sequence of its mutations and one generation, and
    the tables' invariant holds after every operation. *)

From S2P Require Export Seal.

(** ** Rules for the engine *)

(** Nothing is scheduled to fail. *)
Definition quiet_disk (d : disk) : Prop := alive d = true /\ outcomes d = [].
Definition quiet (s : world) : Prop := quiet_disk (w_disk s) /\ w_engine s = [].

(** A fact about the objects and the tables; [b] tracks that nothing fails, so
    a failure post-condition that holds [b = false] is one of the environment. *)
Definition on_state (b : bool) (P : gmap (list byte) node -> db -> Prop) (s : world) : Prop :=
  P (objects (w_disk s)) (w_db s) /\ (b = true -> quiet s).
Definition failed (b : bool) (P : gmap (list byte) node -> db -> Prop) (s : world) : Prop :=
  P (objects (w_disk s)) (w_db s) /\ b = false.
Definition on_objs (b : bool) (P : gmap (list byte) node -> Prop) (d : disk) : Prop :=
  P (objects d) /\ (b = true -> quiet_disk d).

Lemma on_state_mono (b : bool) (P Q : gmap (list byte) node -> db -> Prop) (s : world) :
  (forall O D, P O D -> Q O D) -> on_state b P s -> on_state b Q s.
Proof. intros HPQ [HP Hq]. split; auto. Qed.
Lemma failed_mono (b : bool) (P Q : gmap (list byte) node -> db -> Prop) (s : world) :
  (forall O D, P O D -> Q O D) -> failed b P s -> failed b Q s.
Proof. intros HPQ [HP Hq]. split; auto. Qed.

Lemma t_engine (b : bool) (P : gmap (list byte) node -> db -> Prop) : triple (on_state b P) engine (fun _ => on_state b P) (fun _ => failed b P).
Proof.
  intros s [Hs Hq]. unfold engine. destruct b.
  - destruct (Hq eq_refl) as [[-> Ho] ->]. cbn [negb]. done.
  - destruct (alive _); [|done]. cbn [negb]. destruct (w_engine s) as [|[] l]; done.
Qed.

(** A read whose statement cannot fail, and one that can. *)
Lemma t_sql_read {A : Type} (b : bool) (P : gmap (list byte) node -> db -> Prop) (f : db -> result workspace_error A)
    (R : workspace_error -> world -> Prop) :
  (forall e s, failed b P s -> R e s) ->
  (forall e s, on_state b (fun O D => P O D /\ f D = Err e) s -> R e s) ->
  triple (on_state b P) (sql_read f) (fun a => on_state b (fun O D => P O D /\ f D = Ok a)) R.
Proof.
  intros HR Hf. eapply t_bind.
  - eapply t_conseq; [apply t_engine|done|intros a s Hs; exact Hs|exact HR].
  - intros u s [Hs Hq]. destruct (f (w_db s)) eqn:E; [done|]. by apply Hf.
Qed.

Lemma t_sql_write (b : bool) (P Q : gmap (list byte) node -> db -> Prop) (f : db -> result workspace_error db)
    (R : workspace_error -> world -> Prop) :
  (forall O D D', P O D -> f D = Ok D' -> Q O D') ->
  (forall e s, failed b P s -> R e s) ->
  (forall e s, on_state b (fun O D => P O D /\ f D = Err e) s -> R e s) ->
  triple (on_state b P) (sql_write f) (fun _ => on_state b Q) R.
Proof.
  intros HQ HR Hf. eapply t_bind.
  - eapply t_conseq; [apply t_engine|done|intros a s Hs; exact Hs|exact HR].
  - intros u s [Hs Hq]. destruct (f (w_db s)) as [D'|] eqn:E; [|by apply Hf].
    split; [by eapply HQ|done].
Qed.

(** A store call changes objects only. *)
Lemma t_disk {E A : Type} (b : bool) (f : E -> workspace_error) (m : M disk E A)
    (P : gmap (list byte) node -> db -> Prop)
    (Q : A -> gmap (list byte) node -> db -> Prop) (R : workspace_error -> world -> Prop) :
  (forall D, triple (on_objs b (fun O => P O D)) m (fun a => on_objs b (fun O => Q a O D))
     (fun e d => forall s, w_db s = D -> w_disk s = d -> R (f e) s)) ->
  triple (on_state b P) (map_err_m f (on_disk m)) (fun a => on_state b (Q a)) R.
Proof.
  intros Hm s [HP Hq]. unfold map_err_m, on_disk.
  specialize (Hm (w_db s) (w_disk s) (conj HP (fun H => proj1 (Hq H)))). simpl.
  destruct (m (w_disk s)) as [[a|e] d']; simpl in *.
  - destruct Hm as [HQ Hqd]. split; [done|]. intros Hb. split; [by apply Hqd|]. by apply Hq.
  - by apply Hm.
Qed.

Lemma t_store {A : Type} (b : bool) (m : M disk store_error A) (P : gmap (list byte) node -> db -> Prop)
    (Q : A -> gmap (list byte) node -> db -> Prop) (R : workspace_error -> world -> Prop) :
  (forall D, triple (on_objs b (fun O => P O D)) m (fun a => on_objs b (fun O => Q a O D))
     (fun e d => forall s, w_db s = D -> w_disk s = d -> R (WE_Store e) s)) ->
  triple (on_state b P) (store m) (fun a => on_state b (Q a)) R.
Proof. apply t_disk. Qed.

(** A transaction: the postcondition of its body, or the tables it began with. *)
Lemma t_transaction {A : Type} (b : bool) (O : gmap (list byte) node) (D : db) (body : M world workspace_error A)
    (Q : A -> gmap (list byte) node -> db -> Prop) (R : gmap (list byte) node -> Prop) (E : workspace_error -> Prop) :
  triple (on_state b (fun O' D' => O' = O /\ D' = D)) body (fun a => on_state b (Q a))
    (fun e s => R (objects (w_disk s)) /\ (b = false \/ E e)) ->
  (forall a O' D', Q a O' D' -> R O') -> R O ->
  triple (on_state b (fun O' D' => O' = O /\ D' = D)) (transaction body) (fun a => on_state b (Q a))
    (fun e s => (R (objects (w_disk s)) /\ w_db s = D) /\ (b = false \/ E e)).
Proof.
  intros Hb HQR HR s Hs. unfold transaction.
  assert (triple (on_state b (fun O' D' => O' = O /\ D' = D)) (engine;;; let<- a := body in engine;;; ret a)
    (fun a => on_state b (Q a)) (fun e s => R (objects (w_disk s)) /\ (b = false \/ E e))) as Ht.
  { eapply t_bind.
    - eapply t_conseq; [apply t_engine|done|intros a s1 H1; exact H1|].
      intros e s1 [[-> _] Hf]. auto.
    - intros u. eapply t_bind; [exact Hb|]. intros a.
      eapply t_bind with (Q' := fun _ => on_state b (Q a)); [|intros u'; by apply t_ret].
      eapply t_conseq; [apply (t_engine b (Q a))|done|intros c s1 H1; exact H1|].
      intros e s1 [H1 Hf]. split; [exact (HQR _ _ _ H1)|auto]. }
  specialize (Ht s Hs). destruct (bind engine _ s) as [[a|e] s']; [done|].
  destruct Hs as [[_ <-] _]. destruct Ht as [HR' HE]. by split.
Qed.

(** System calls with the failure tracked. *)
Lemma t_query_on {A : Type} (b : bool) (P : gmap (list byte) node -> Prop) (f : disk -> result io_error A) :
  triple (on_objs b P) (query f)
    (fun a d => on_objs b P d /\ exists d0, objects d0 = objects d /\ f d0 = Ok a)
    (fun e d => P (objects d) /\ (b = false \/ exists d0, objects d0 = objects d /\ f d0 = Err e)).
Proof.
  intros d [HP Hq]. unfold query, atomic, syscall. destruct b.
  - destruct (Hq eq_refl) as [Ha Ho]. rewrite Ha, Ho. cbn [negb]. destruct (f d) as [a|e] eqn:E.
    + split; [done|]. by exists d.
    + split; [done|]. right. by exists d.
  - assert (forall os a, f (with_outcomes os d) = Ok a -> on_objs false P (with_outcomes os d) /\
      exists d0, objects d0 = objects d /\ f d0 = Ok a) as Hok.
    { intros os a E. split; [done|]. by exists (with_outcomes os d). }
    destruct (alive d); [|by split; [|left]]. cbn [negb].
    destruct (outcomes d) as [|[|e k|k] os]; try (by split; [|left]).
    + destruct (f d) as [a|e] eqn:E; [|by split; [|left]]. split; [done|]. by exists d.
    + destruct (f (with_outcomes os d)) as [a|e] eqn:E; [by apply Hok|by split; [|left]].
Qed.

(** ** The tables' invariant, operation by operation *)

(** No lease holds a workspace root. *)
Definition leases_ok (d : db) : Prop :=
  forall l row i, leases d !! l = Some row -> lr_inode row = Some i ->
    forall w wrow, workspaces d !! w = Some wrow -> wr_root_inode wrow <> i.

Section tables.
Context `{Unicode, Unordered, Rowid}.

Definition tables_ok (d : db) : Prop := db_inv d /\ leases_ok d.

Lemma tables_ok_fresh : tables_ok fresh_db.
Proof.
  split; [split|done]; constructor; try done.
  intros i. exists []. split; [intros o; unfold run_row; by destruct (0 <=? o)|]. apply wf_run_nil.
Qed.

(** Tables that only differ in what the invariant does not read. *)
Lemma tables_ok_ext d d' :
  workspaces d' = workspaces d -> inodes d' = inodes d -> dirents d' = dirents d ->
  object_maps d' = object_maps d -> leases d' = leases d -> tables_ok d -> tables_ok d'.
Proof.
  intros Hw Hi He Ho Hl [[Ht Hr] Hlo]. split; [split|].
  - by apply (shape_rows d d' Ht Hw He); intros i; rewrite Hi.
  - destruct Hr. constructor; unfold run_at in *; rewrite ?Hw, ?Hi, ?He, ?Ho, ?Hl; done.
  - unfold leases_ok. by rewrite Hl, Hw.
Qed.

(** The head of a workspace is a column of its row. *)
Lemma workspace_row_Ok d name w :
  workspace_row d name = Ok w ->
  exists row, workspaces d !! w_id w = Some row /\ wr_name row = name /\
    w_head_generation w = as_u64 (wr_head_generation row) /\ w_root_inode w = wr_root_inode row.
Proof.
  unfold workspace_row. destruct (list_find _ _) as [[n [id row]]|] eqn:E; [|done].
  apply list_find_Some in E as (Hin & Hn & _). apply list_elem_of_lookup_2 in Hin.
  apply elem_of_map_to_list in Hin. intros [= <-]. exists row. by simpl.
Qed.

Lemma workspace_row_rooted d name w :
  workspace_row d name = Ok w -> rooted_at d (w_id w) (w_root_inode w).
Proof. intros (row & Hr & _ & _ & Hroot)%workspace_row_Ok. by exists row. Qed.

Lemma workspace_row_find d w name row :
  (forall w1 w2 r1 r2, workspaces d !! w1 = Some r1 -> workspaces d !! w2 = Some r2 ->
     wr_name r1 = wr_name r2 -> w1 = w2) ->
  workspaces d !! w = Some row -> wr_name row = name ->
  workspace_row d name = Ok (WorkspaceRow w (as_u64 (wr_head_generation row)) (wr_root_inode row)).
Proof.
  intros Hu Hw Hn. unfold workspace_row.
  destruct (list_find _ _) as [[n [id r]]|] eqn:E.
  - apply list_find_Some in E as (Hin & Hr & _). apply list_elem_of_lookup_2, elem_of_map_to_list in Hin.
    simpl in Hr. assert (id = w) as -> by (eapply Hu; eauto; congruence). by simplify_eq.
  - apply list_find_None in E. rewrite Forall_forall in E.
    by destruct (E (w, row)); [apply elem_of_map_to_list|].
Qed.

(** A head can be advanced. *)
Lemma advance_head_ok d w next : tables_ok d -> tables_ok (advance_head w next d).
Proof.
  intros [[Ht Hr] Hl].
  assert (forall i row, workspaces (advance_head w next d) !! i = Some row ->
    exists row', workspaces d !! i = Some row' /\ wr_root_inode row = wr_root_inode row' /\ wr_name row = wr_name row')
    as Hfrom.
  { intros i row. cbn. rewrite lookup_alter. case_decide; [|eauto].
    intros (r & Hr1 & ->)%fmap_Some. subst. eauto. }
  assert (forall i row, workspaces d !! i = Some row -> exists row', workspaces (advance_head w next d) !! i = Some row'
    /\ wr_root_inode row' = wr_root_inode row) as Hto.
  { intros i row Hi. cbn. rewrite lookup_alter. case_decide; [subst; rewrite Hi; simpl; eauto|eauto]. }
  assert (forall c q, resolve_segments (advance_head w next d) c q = resolve_segments d c q) as Hres.
  { intros c q. revert c. induction q as [|s q IH]; intros c; [done|]. rewrite !resolve_cons. unfold step. cbn.
    destruct (_ =? _); [|done]. destruct (dirents d !! _); [|done]. by destruct (inodes d !! _). }
  split; [split|].
  - destruct Ht as [T1 T2 T3 T4 T5]. constructor; try done.
    + intros i row (row' & Hi & Hri & _)%Hfrom. rewrite Hri. by apply T4.
    + intros p n c He. destruct (T5 _ _ _ He) as (i & row & path & Hi & Hp).
      destruct (Hto _ _ Hi) as (row' & Hi' & Hrr). exists i, row', path. split; [done|].
      by rewrite Hrr, Hres.
  - destruct Hr as [R1 R2 R3 R4 R5 R6 R7]. constructor; try done.
    intros w1 w2 r1 r2 (x1 & E1 & _ & N1)%Hfrom (x2 & E2 & _ & N2)%Hfrom Hn.
    eapply R7; [exact E1|exact E2|congruence].
  - intros l row i Hl1 Hl2 w1 wr (x & Hx & Hxr & _)%Hfrom. rewrite Hxr. by eapply Hl.
Qed.

(** The tables a tree mutation never writes. *)
Definition same_rest (d d' : db) : Prop :=
  leases d' = leases d /\ snapshots d' = snapshots d /\ lease_objects d' = lease_objects d /\
  gc_epoch d' = gc_epoch d /\ gc_quarantine d' = gc_quarantine d.

Lemma drop_inode_rest d inode d' : drop_inode_if_orphaned d inode = Ok d' -> same_rest d d'.
Proof.
  unfold drop_inode_if_orphaned, delete_inode. destruct (_ && _); [case_decide|]; by intros [= <-].
Qed.

Lemma apply_mutation_rest d w m d' : apply_mutation d w m = Ok d' -> same_rest d d'.
Proof.
  assert (forall leaf row d1 i, create_node d w leaf row = Ok (d1, i) -> same_rest d d1) as Hc.
  { intros [p n] row d1 i. by intros (_ & _ & ->)%create_node_Ok. }
  assert (forall path i d1, remove_entry d w path i = Ok d1 -> same_rest d d1) as Hrem.
  { intros path i d1. unfold remove_entry. destruct (parent_of_resolved d w path) as [[p n]|]; [|done].
    by intros Hd%drop_inode_rest. }
  destruct m; cbn [apply_mutation]; intros Ha.
  - destruct (resolve_new_leaf _ _ _); [|done]. destruct (create_node _ _ _ _) as [[? ?]|] eqn:E; [|done].
    injection Ha as <-. by eapply Hc.
  - destruct (resolve_new_leaf _ _ _); [|done]. destruct (create_node _ _ _ _) as [[? ?]|] eqn:E; [|done].
    injection Ha as <-. by eapply Hc in E.
  - destruct (resolve_file _ _ _); [|done]. by injection Ha as <-.
  - destruct (resolve_file _ _ _); [|done]. destruct (read_records _ _); [|done].
    destruct (truncate_records _ _); [|done]. destruct (validate_record_run _ _) as [[]|]; [|done].
    by injection Ha as <-.
  - destruct (resolve_existing _ _ _); [|done].
    match type of Ha with (if ?b then _ else _) = _ => destruct b; [done|] end.
    destruct (resolve_new_leaf _ _ _) as [[? ?]|]; [|done].
    destruct (parent_of_resolved _ _ _) as [[? ?]|]; [|done]. unfold update_dirent in Ha.
    destruct (dirents d !! _); [case_decide; [|done]|]; by injection Ha as <-.
  - destruct (resolve_existing _ _ _); [|done]. destruct (_ =? _); [done|]. by eapply Hrem.
  - destruct (resolve_existing _ _ _); [|done]. destruct (negb _); [done|]. destruct (negb _); [done|].
    by eapply Hrem.
  - destruct (validate_symlink_target _) as [[]|]; [|done]. cbn [map_err] in Ha.
    destruct (resolve_new_leaf _ _ _); [|done]. destruct (create_node _ _ _ _) as [[? ?]|] eqn:E; [|done].
    injection Ha as <-. by eapply Hc.
  - destruct (resolve_file _ _ _); [|done]. destruct (resolve_new_leaf _ _ _) as [[? ?]|]; [|done].
    unfold insert_dirent in Ha. case_decide; [|done]. by injection Ha as <-.
  - destruct (resolve_file _ _ _); [|done]. by injection Ha as <-.
Qed.

Lemma apply_mutation_ok d w m d' :
  tables_ok d -> rooted_at d (w_id w) (w_root_inode w) -> mutation_ok m ->
  apply_mutation d w m = Ok d' -> tables_ok d' /\ rooted_at d' (w_id w) (w_root_inode w).
Proof.
  intros [Hi Hl] Hroot Hm Ha.
  destruct (apply_mutation_refines d w Hi Hroot m d' Hm Ha) as [Hi' _].
  pose proof (lt_workspaces _ _ _ (apply_mutation_local d w Hi Hroot m d' Ha Hm)) as Hw.
  apply apply_mutation_rest in Ha as (Hle & _). split; [split; [done|]|].
  - unfold leases_ok. by rewrite Hle, Hw.
  - unfold rooted_at. by rewrite Hw.
Qed.

(** A batch is a sequence of abstract steps. *)
Inductive spec_batch : list mutation -> afs -> afs -> Prop :=
| spec_batch_nil s : spec_batch [] s s
| spec_batch_cons m ms s s1 s2 :
    spec_mutation m s s1 -> spec_batch ms s1 s2 -> spec_batch (m :: ms) s s2.

Lemma apply_all_ok d w ms d' :
  tables_ok d -> rooted_at d (w_id w) (w_root_inode w) -> Forall mutation_ok ms ->
  for_each (fun d m => apply_mutation d w m) d ms = Ok d' ->
  tables_ok d' /\ rooted_at d' (w_id w) (w_root_inode w) /\
  spec_batch ms (view d (w_root_inode w)) (view d' (w_root_inode w)) /\ same_rest d d' /\
  local_to (w_id w) d d'.
Proof.
  intros Hd Hroot Hms. revert d Hd Hroot. induction Hms as [|m ms Hm Hms IH]; intros d Hd Hroot Ha; simpl in Ha.
  - injection Ha as <-. split; [done|]. split; [done|]. split; [constructor|]. done.
  - destruct (apply_mutation d w m) as [d1|] eqn:E; [|done].
    destruct (apply_mutation_ok d w m d1 Hd Hroot Hm E) as [Hd1 Hr1].
    destruct (apply_mutation_refines d w (proj1 Hd) Hroot m d1 Hm E) as [_ Hs].
    destruct (apply_mutation_local d w (proj1 Hd) Hroot m d1 E Hm) as [L1 L2 L3 L4].
    apply apply_mutation_rest in E as (? & ? & ? & ? & ?).
    destruct (IH d1 Hd1 Hr1 Ha) as (? & ? & ? & (? & ? & ? & ? & ?) & [M1 M2 M3 M4]).
    split; [done|]. split; [done|]. split; [by econstructor|]. split; [repeat split; congruence|].
    constructor; [congruence|..].
    + intros i row n Hi Hw. rewrite (M2 i row n), (L2 i row n) by eauto. done.
    + intros i row Hi Hw. by apply M3; [apply L3|].
    + intros i row o Hi Hw. rewrite (M4 i row o), (L4 i row o) by eauto. done.
Qed.

(** ** Creating and deleting workspaces *)

Lemma create_workspace_ok name d d' :
  tables_ok d -> create_workspace_rows name d = Ok d' ->
  tables_ok d' /\ same_rest d d' /\ object_maps d' = object_maps d /\
  exists w, workspace_row d' name = Ok w /\ w_head_generation w = 0 /\ ~ is_Some (workspaces d !! w_id w) /\
    (forall q, names (view d' (w_root_inode w)) q = if decide (q = []) then Some (w_root_inode w) else None) /\
    nodes (view d' (w_root_inode w)) (w_root_inode w) = Some ADirectory.
Proof.
  intros [[Ht Hr] Hl]. unfold create_workspace_rows, insert_workspace. case_decide as Hnew; [|done].
  cbn [insert_inode]. unfold insert_inode. intros [= <-].
  set (id := new_rowid (dom (workspaces d))). cbn.
  set (root := new_rowid (dom (inodes d))). set (row := InodesRow id KIND_DIRECTORY 0 None None None).
  assert (inodes d !! root = None) as Hroot by apply not_elem_of_dom, new_rowid_fresh.
  assert (workspaces d !! id = None) as Hid by apply not_elem_of_dom, new_rowid_fresh.
  set (d' := with_workspaces _ _).
  assert (workspaces d' = <[id := WorkspacesRow name 0 root]> (workspaces d)) as Hws.
  { unfold d'. cbn. rewrite alter_insert_eq. done. }
  assert (inodes d' = <[root := row]> (inodes d)) as Hin by done.
  assert (forall i r, inodes d !! i = Some r -> i <> root) as Hne by congruence.
  assert (forall p n c, dirents d !! (p, n) = Some c -> c <> root /\ p <> root) as Hent.
  { intros p n c He. destruct (ts_parent d Ht _ _ _ He) as (pr & Hp & _).
    destruct (ts_child d Ht _ _ _ _ He Hp) as (cr & Hc & _). split; by eapply Hne. }
  assert (same_kinds d d') as Hsk.
  { intros [p n] c He _. rewrite Hin, lookup_insert_ne; [done|]. apply Hent in He. naive_solver. }
  assert (forall r q, resolve_segments d' (top r) q = resolve_segments d (top r) q) as Hres.
  { intros r q. by apply resolve_untouched. }
  assert (db_inv d') as Hdb'.
  { split.
    - constructor; rewrite ?Hin.
      + intros p n c He. destruct (ts_parent d Ht _ _ _ He) as (pr & Hp & Hk). exists pr.
        rewrite lookup_insert_ne; [done|]. apply Hent in He. naive_solver.
      + intros p n c r He. rewrite lookup_insert_ne by (apply Hent in He; naive_solver). intros Hp.
        destruct (ts_child d Ht _ _ _ _ He Hp) as (cr & Hc & Hw). exists cr.
        rewrite lookup_insert_ne; [done|]. apply Hent in He. naive_solver.
      + intros k1 [p n] c r E1 E2. rewrite lookup_insert_ne by (apply Hent in E2; naive_solver).
        by eapply (ts_one_parent d Ht).
      + intros w wrow. rewrite Hws, lookup_insert. case_decide as Hw.
        * intros [= <-]. subst w. simpl. rewrite lookup_insert_eq. split; [by exists row|].
          intros [p n] He. apply Hent in He. naive_solver.
        * intros Hw2. destruct (ts_root d Ht _ _ Hw2) as [(r & Hr1 & ? & ?) Hno]. split; [|done].
          exists r. rewrite lookup_insert_ne; [done|]. intros Heq. by apply (Hne _ _ Hr1).
      + intros p n c He. destruct (ts_anchored d Ht _ _ _ He) as (w & wrow & path & Hw & Hp).
        exists w, wrow, path. rewrite Hws, lookup_insert_ne by congruence. by rewrite Hres.
    - constructor; rewrite ?Hin, ?Hws; try apply Hr.
      + intros i r. rewrite lookup_insert. case_decide; [|apply Hr]. intros [= <-].
        split; [by left|]. split; [by exists StampNone|]. by left.
      + intros i o r Ho. destruct (ro_owner d Hr _ _ _ Ho) as (ir & Hi & Hk). exists ir.
        rewrite lookup_insert_ne; [done|]. intros ->. congruence.
      + intros l r i Hl1 Hl2. destruct (ro_lease d Hr _ _ _ Hl1 Hl2) as [x Hx].
        rewrite lookup_insert. by case_decide.
      + intros w1 w2 r1 r2. rewrite !lookup_insert. repeat case_decide; intros E1 E2 Hn; simplify_eq; try done.
        * exfalso. by apply (Hnew _ _ E2).
        * exfalso. by apply (Hnew _ _ E1).
        * by eapply (ro_unique d Hr). }
  split; [split; [done|]|].
  { intros l r i Hl1 Hl2 w wrow. rewrite Hws, lookup_insert. case_decide.
    - intros [= <-]. simpl. intros ->. destruct (ro_lease d Hr _ _ _ Hl1 Hl2). congruence.
    - by eapply Hl. }
  split; [done|]. split; [done|].
  exists (WorkspaceRow id (as_u64 0) root). split; [|split; [done|split; [simpl; rewrite Hid; by intros []|split]]].
  - rewrite (workspace_row_find d' id name (WorkspacesRow name 0 root)); [done| |by rewrite Hws, lookup_insert_eq|done].
    apply (ro_unique d' (proj2 Hdb')).
  - intros q. simpl. rewrite Hres. destruct q as [|x q]; [done|]. rewrite resolve_cons. unfold step. simpl.
    destruct (dirents d !! (root, x)) eqn:E; [|done]. apply Hent in E. naive_solver.
  - simpl. unfold node_at. by rewrite Hin, lookup_insert_eq.
Qed.

(** What a sub-table keeps. *)
Lemma filter_sub {K A} `{Countable K} (P : K * A -> Prop) `{!forall x, Decision (P x)} (m : gmap K A) k x :
  filter P m !! k = Some x -> m !! k = Some x /\ P (k, x).
Proof. apply map_lookup_filter_Some. Qed.

(** Deleting a workspace keeps every other as it was. *)
Lemma delete_workspace_ok name d d' :
  tables_ok d -> delete_workspace_rows name d = Ok d' ->
  tables_ok d' /\ object_maps d' ⊆ object_maps d /\ lease_objects d' ⊆ lease_objects d /\
  snapshots d' = snapshots d /\
  (forall w row, workspaces d !! w = Some row -> wr_name row <> name ->
     workspaces d' !! w = Some row /\
     (forall q, names (view d' (wr_root_inode row)) q = names (view d (wr_root_inode row)) q) /\
     kept_but None (view d (wr_root_inode row)) (view d' (wr_root_inode row))).
Proof.
  intros [[Ht Hr] Hl]. unfold delete_workspace_rows. destruct (workspace_row d name) as [w|] eqn:Ew; [|done].
  apply workspace_row_Ok in Ew as (wrow & Hw & Hname & _ & Hroot).
  unfold delete_workspace_row. set (dead := dom (filter _ (inodes (with_dirents _ d)))).
  set (ids := dom (filter _ (inodes d))).
  set (dead_leases := dom (filter _ (leases _))).
  assert (dead = ids) as -> by done.
  assert (forall i row, inodes d !! i = Some row -> i ∈ ids <-> ir_workspace_id row = w_id w) as Hdead.
  { intros i row Hi. unfold ids. rewrite elem_of_dom. split.
    - intros [x Hx]. apply filter_sub in Hx as [Hx Hxw]. simpl in Hxw. congruence.
    - intros Hiw. exists row. by apply map_lookup_filter_Some. }
  match goal with |- (if decide (references_ok ?x) then _ else _) = _ -> _ => set (d1 := x) end.
  case_decide as Href; [|done]. intros [= <-].
  assert (workspaces d1 = delete (w_id w) (workspaces d)) as Hws by done.
  assert (forall i row, inodes d1 !! i = Some row <-> inodes d !! i = Some row /\ ir_workspace_id row <> w_id w) as Hin.
  { intros i row. unfold d1. cbn. rewrite map_lookup_filter_Some. simpl. split.
    - intros [Hi Hn]. split; [done|]. by rewrite <-(Hdead i row Hi).
    - intros [Hi Hn]. split; [done|]. by rewrite (Hdead i row Hi). }
  assert (forall p n c, dirents d1 !! (p, n) = Some c <-> dirents d !! (p, n) = Some c /\ p ∉ ids) as Hde.
  { intros p n c. unfold d1. cbn. rewrite !map_lookup_filter_Some. simpl. naive_solver. }
  assert (forall i o r, object_maps d1 !! (i, o) = Some r <-> object_maps d !! (i, o) = Some r /\ i ∉ ids) as Hom.
  { intros i o r. unfold d1. cbn. by rewrite map_lookup_filter_Some. }
  assert (forall l r, leases d1 !! l = Some r -> leases d !! l = Some r) as Hle.
  { intros l r. unfold d1. cbn. by intros [? _]%filter_sub. }
  assert (same_kinds d d1) as Hsk.
  { intros [p n] c E1 E2. destruct (ts_parent d Ht _ _ _ E1) as (pr & Hp & _).
    destruct (ts_child d Ht _ _ _ _ E1 Hp) as (cr & Hc & Hcw). apply Hde in E2 as [_ Hpd].
    rewrite Hc. rewrite (proj2 (Hin c cr)); [done|]. split; [done|]. rewrite Hcw.
    by rewrite <-(Hdead p pr Hp). }
  assert (forall w2 row2 q, workspaces d !! w2 = Some row2 -> w2 <> w_id w ->
    resolve_segments d1 (top (wr_root_inode row2)) q = resolve_segments d (top (wr_root_inode row2)) q) as Hres.
  { intros w2 row2 q H2 Hne. destruct (ts_root d Ht _ _ H2) as [(r & Hr2 & _ & Hrw) _].
    eapply resolve_elsewhere; [done|done|exact Hr2|exact Hrw|]. intros i s irow Hi Hiw.
    apply option_eq. intros c. rewrite Hde. rewrite (Hdead i irow Hi). naive_solver congruence. }
  assert (forall i, i ∉ ids -> forall rs, run_at d i rs -> run_at d1 i rs) as Hrunk.
  { intros i Hi rs Hrs o. rewrite <-Hrs. apply option_eq. intros r. rewrite Hom. naive_solver. }
  assert (db_inv d1) as Hdb1.
  { split; constructor.
    - intros p n c [He Hpd]%Hde. destruct (ts_parent d Ht _ _ _ He) as (pr & Hp & Hk). exists pr.
      split; [|done]. apply Hin. split; [done|]. by rewrite <-(Hdead p pr Hp).
    - intros p n c row [He Hpd]%Hde [Hp Hpw]%Hin. destruct (ts_child d Ht _ _ _ _ He Hp) as (cr & Hc & Hcw).
      exists cr. split; [|done]. apply Hin. split; [done|]. congruence.
    - intros [p1 n1] [p2 n2] c row [E1 _]%Hde [E2 _]%Hde [Hc _]%Hin. by eapply (ts_one_parent d Ht).
    - intros w2 row2. rewrite Hws. intros [Hne H2]%lookup_delete_Some.
      destruct (ts_root d Ht _ _ H2) as [(r & Hr2 & Hrk & Hrw) Hno]. split.
      + exists r. split; [|done]. apply Hin. split; [done|]. congruence.
      + intros [p n] [He _]%Hde. by eapply Hno.
    - intros p n c [He Hpd]%Hde. destruct (ts_anchored d Ht _ _ _ He) as (w2 & row2 & path & H2 & Hp).
      assert (w2 <> w_id w) as Hne.
      { intros ->. destruct (resolved_row d Ht (w_id w) (wr_root_inode row2)) with (2 := Hp) as (pr & Hpr & _ & Hpw);
          [by exists row2|]. apply Hpd. by apply (Hdead p pr Hpr). }
      exists w2, row2, path. rewrite Hws, lookup_delete_ne by done. split; [done|]. by rewrite (Hres w2 row2).
    - intros i row [Hi _]%Hin. by apply (ro_typed d Hr i).
    - intros p n c [He _]%Hde. by apply (ro_name d Hr) in He.
    - intros p m n c c' [E1 _]%Hde [E2 _]%Hde. by eapply (ro_fold d Hr).
    - intros i. destruct (decide (i ∈ ids)) as [Hi|Hi].
      + exists []. split; [|apply wf_run_nil]. intros o. unfold run_row.
        destruct (object_maps d1 !! (i, o)) as [r|] eqn:E; [by apply Hom in E as [_ []]|by destruct (0 <=? o)].
      + destruct (ro_run d Hr i) as (rs & Hrs & Hwf). exists rs. split; [by apply Hrunk|done].
    - intros i o r [Ho Hi]%Hom. destruct (ro_owner d Hr _ _ _ Ho) as (ir & Hir & Hk). exists ir.
      split; [|done]. apply Hin. split; [done|]. by rewrite <-(Hdead i ir Hir).
    - intros l r i El Ei. destruct Href as [_ Hleases]. specialize (Hleases l r El). simpl in Hleases.
      by rewrite Ei in Hleases.
    - intros w1 w2 r1 r2. rewrite Hws. intros [_ E1]%lookup_delete_Some [_ E2]%lookup_delete_Some.
      by eapply (ro_unique d Hr). }
  split; [split; [done|]|].
  { intros l r i El%Hle Ei w2 row2. rewrite Hws. intros [_ E2]%lookup_delete_Some. by eapply Hl. }
  split; [apply map_filter_subseteq|]. split; [unfold d1; cbn; set_solver|]. split; [done|].
  intros w2 row2 H2 Hn2. assert (w2 <> w_id w) as Hne by congruence.
  split; [by rewrite Hws, lookup_delete_ne|]. split; [intros q; simpl; by rewrite (Hres w2 row2)|].
  assert (rooted_at d1 w2 (wr_root_inode row2)) as Hroot2.
  { exists row2. split; [|done]. by rewrite Hws, lookup_delete_ne. }
  intros q i Hq _. destruct (view_names d1 w2 _ Hdb1 Hroot2 q i Hq) as (row & [Hi Hiw]%Hin & _ & _).
  apply node_at_same; [done| |].
  - rewrite Hi. by apply Hin.
  - intros o. apply option_eq. intros r. rewrite Hom, (Hdead i row Hi). naive_solver.
Qed.

(** ** Leases *)

Lemma insert_lease_ok row d d' l :
  tables_ok d ->
  (forall i w wrow, lr_inode row = Some i -> workspaces d !! w = Some wrow -> wr_root_inode wrow <> i) ->
  insert_lease row d = Ok (d', l) ->
  tables_ok d' /\ leases d !! l = None /\ leases d' = <[l := row]> (leases d) /\
  object_maps d' = object_maps d /\ snapshots d' = snapshots d /\ lease_objects d' = lease_objects d.
Proof.
  intros [[Ht Hr] Hl] Hroot. unfold insert_lease. destruct (_ && _) eqn:E; [|done]. intros [= <- <-].
  apply andb_true_iff in E as [Ei Ew]. set (id := new_rowid _).
  assert (leases d !! id = None) as Hid by apply not_elem_of_dom, new_rowid_fresh.
  split; [split; [split|]|done].
  - by apply (shape_rows d).
  - destruct Hr. constructor; try done. intros l r i. cbn. rewrite lookup_insert. case_decide.
    + intros [= <-] Hi. rewrite Hi in Ei. by apply bool_decide_eq_true_1 in Ei.
    + eauto.
  - intros l r i. cbn. rewrite lookup_insert. case_decide; [|apply Hl].
    intros [= <-] Hi w wrow Hw. by eapply Hroot.
Qed.

(** An inode nothing names and no lease holds. *)
Lemma drop_orphan_ok d i d' :
  tables_ok d -> (forall w wrow, workspaces d !! w = Some wrow -> wr_root_inode wrow <> i) ->
  drop_inode_if_orphaned d i = Ok d' ->
  tables_ok d' /\ object_maps d' ⊆ object_maps d.
Proof.
  intros [[Ht Hr] Hl] Hnr. unfold drop_inode_if_orphaned.
  destruct (_ && _) eqn:Ec; [|intros [= <-]; done].
  apply andb_true_iff in Ec as [Hlink Hlease]. unfold delete_inode. case_decide as Href; [|done]. intros [= <-].
  assert (forall k, dirents d !! k <> Some i) as Hno.
  { intros k Hk. apply Z.eqb_eq in Hlink. unfold link_count in Hlink.
    assert (filter (fun row : Z * list byte * Z => row.2 = i) (dirents d) = ∅) as He
      by (apply map_size_empty_inv; lia).
    by apply (map_filter_empty_not_lookup _ _ k i He). }
  assert (forall n, dirents d !! (i, n) = None) as Hnc.
  { intros n. destruct (dirents d !! (i, n)) as [c|] eqn:E; [|done]. exfalso.
    destruct (ts_anchored d Ht _ _ _ E) as (w & row & path & Hw & Hp).
    destruct path as [|x path _] using rev_ind; [injection Hp as <-; by eapply Hnr|].
    rewrite resolve_snoc in Hp. destruct (resolve_segments d _ path); [|done].
    apply step_Some in Hp as (_ & He & _). by apply Hno in He. }
  set (d1 := delete_inodes d {[i]}).
  assert (dirents d1 = dirents d) as Hde.
  { unfold d1. cbn. apply map_filter_id. intros [a b] c Hc. simpl. intros ->%elem_of_singleton.
    by rewrite Hnc in Hc. }
  assert (forall j row, inodes d1 !! j = Some row <-> inodes d !! j = Some row /\ j <> i) as Hin.
  { intros j row. unfold d1. cbn. rewrite map_lookup_filter_Some. simpl. by rewrite not_elem_of_singleton. }
  assert (forall j o r, object_maps d1 !! (j, o) = Some r <-> object_maps d !! (j, o) = Some r /\ j <> i) as Hom.
  { intros j o r. unfold d1. cbn. rewrite map_lookup_filter_Some. simpl. by rewrite not_elem_of_singleton. }
  assert (forall p n c, dirents d !! (p, n) = Some c -> p <> i /\ c <> i) as Hent.
  { intros p n c He. split; intros ->; [by rewrite Hnc in He|by apply Hno in He]. }
  assert (same_kinds d d1) as Hsk.
  { intros [p n] c E1 _. destruct (Hent _ _ _ E1) as [_ Hc].
    destruct (ts_parent d Ht _ _ _ E1) as (pr & Hp & _). destruct (ts_child d Ht _ _ _ _ E1 Hp) as (cr & Hcr & _).
    by rewrite Hcr, (proj2 (Hin c cr)). }
  split; [split; [split|]|apply map_filter_subseteq].
  - constructor; rewrite ?Hde.
    + intros p n c He. destruct (ts_parent d Ht _ _ _ He) as (pr & Hp & ?). exists pr.
      split; [|done]. apply Hin. naive_solver.
    + intros p n c row He [Hp _]%Hin. destruct (ts_child d Ht _ _ _ _ He Hp) as (cr & Hc & ?). exists cr.
      split; [|done]. apply Hin. naive_solver.
    + intros k1 k2 c row E1 E2 [Hc _]%Hin. by eapply (ts_one_parent d Ht).
    + intros w row Hw. destruct (ts_root d Ht _ _ Hw) as [(r & Hr1 & ? & ?) Hn]. split; [|done].
      exists r. split; [|done]. apply Hin. split; [done|]. by eapply Hnr.
    + intros p n c He. destruct (ts_anchored d Ht _ _ _ He) as (w & row & path & Hw & Hp).
      exists w, row, path. split; [done|]. rewrite (resolve_untouched d d1); [done|done|]. intros. by rewrite Hde.
  - constructor; rewrite ?Hde; try apply Hr.
    + intros j row [Hj _]%Hin. by apply (ro_typed d Hr j).
    + intros j. destruct (decide (j = i)) as [->|Hj].
      * exists []. split; [|apply wf_run_nil]. intros o. unfold run_row.
        destruct (object_maps d1 !! (i, o)) as [r|] eqn:E; [by apply Hom in E as [_ []]|by destruct (0 <=? o)].
      * destruct (ro_run d Hr j) as (rs & Hrs & ?). exists rs. split; [|done]. intros o. rewrite <-Hrs.
        apply option_eq. intros r. rewrite Hom. naive_solver.
    + intros j o r [Ho Hj]%Hom. destruct (ro_owner d Hr _ _ _ Ho) as (ir & ? & ?). exists ir.
      split; [|done]. by apply Hin.
    + intros l r j El Ej. destruct Href as [_ Hlr]. specialize (Hlr l r El). simpl in Hlr. by rewrite Ej in Hlr.
  - apply Hl.
Qed.

Lemma release_lease_ok l d d' :
  tables_ok d -> release_lease_rows l d = Ok d' ->
  tables_ok d' /\ object_maps d' ⊆ object_maps d /\ lease_objects d' ⊆ lease_objects d /\
  snapshots d' = snapshots d.
Proof.
  intros [[Ht Hr] Hl]. unfold release_lease_rows. destruct (leases d !! l) as [row|] eqn:El; [|done].
  set (d1 := with_leases (delete l) (with_lease_objects _ d)). intros Hdrop.
  assert (tables_ok d1) as Hd1.
  { split; [split|].
    - by apply (shape_rows d).
    - destruct Hr as [R1 R2 R3 R4 R5 R6 R7]. constructor; try done. intros l' r i. cbn.
      intros [_ E]%lookup_delete_Some. by eapply R6.
    - intros l' r i. cbn. intros [_ E]%lookup_delete_Some. by eapply Hl. }
  assert (lease_objects d1 ⊆ lease_objects d) as Hlo by (unfold d1; cbn; set_solver).
  destruct (lr_inode row) as [i|] eqn:Ei; [|injection Hdrop as <-; done].
  pose proof (drop_inode_rest _ _ _ Hdrop) as (_ & Hs & Hlo' & _).
  destruct (drop_orphan_ok d1 i d' Hd1) as [? ?]; [|done|].
  - intros w wrow Hw. by eapply (Hl l).
  - split; [done|]. split; [done|]. by rewrite Hlo', Hs.
Qed.

(** ** Sealing *)

Lemma set_provenance_ok d i planner contract :
  tables_ok d -> wf_stamp contract ->
  tables_ok (with_inodes (alter (set_provenance planner contract) i) d).
Proof.
  intros [[Ht Hr] Hl] Hc. set (d' := with_inodes _ d).
  assert (forall j row, inodes d' !! j = Some row -> exists row', inodes d !! j = Some row' /\
    ir_kind row = ir_kind row' /\ (row = row' \/ row = set_provenance planner contract row')) as Hfrom.
  { intros j row. unfold d'. cbn. rewrite lookup_alter. case_decide; [|eauto].
    intros (r & Hr1 & ->)%fmap_Some. subst. eauto. }
  assert (forall j, is_Some (inodes d !! j) -> is_Some (inodes d' !! j)) as Hsome.
  { intros j [r Hj]. unfold d'. cbn. rewrite lookup_alter. case_decide; subst; rewrite Hj; eauto. }
  split; [split|done].
  - apply (shape_rows d); [done..|]. intros j. unfold d'. cbn. rewrite lookup_alter. case_decide; [|done].
    subst. by destruct (inodes d !! j).
  - destruct Hr as [R1 R2 R3 R4 R5 R6 R7]. constructor; try done.
    + intros j row (row' & Hj & Hk & [->| ->])%Hfrom; [by eapply R1|].
      destruct (R1 _ _ Hj) as (Hx & _ & Hkind). split; [done|]. split; [by exists contract|].
      destruct Hkind as [|[[? _]|[? ?]]]; [by left|right; left|right; right; done].
      split; [done|]. by exists planner.
    + intros j o r Ho. destruct (R5 _ _ _ Ho) as (ir & Hj & Hk). destruct (Hsome j) as [x Hx]; [by eexists|].
      exists x. split; [done|]. apply Hfrom in Hx as (row' & Hj' & Hk' & _). congruence.
    + intros l r j El Ej. apply Hsome. by eapply R6.
Qed.

(** A job that can be applied: its records are a run and its stamp parses. *)
Definition job_ok (job : seal_job) : Prop := wf_run (sj_records job) /\ wf_stamp (sj_contract job).

Lemma apply_job_ok w d job d' :
  tables_ok d -> rooted_at d (w_id w) (w_root_inode w) -> job_ok job -> apply_job w d job = Ok d' ->
  tables_ok d' /\ rooted_at d' (w_id w) (w_root_inode w).
Proof.
  intros Hd Hroot [Hrs Hc]. unfold apply_job.
  destruct (if sj_update_records job then _ else _) as [d1|] eqn:E; [|done].
  assert (tables_ok d1 /\ rooted_at d1 (w_id w) (w_root_inode w)) as [Hd1 Hr1].
  { destruct (sj_update_records job); [|by simplify_eq].
    exact (apply_mutation_ok d w (SetRecords _ _) d1 Hd Hroot Hrs E). }
  destruct (resolve_existing d1 w (sj_path job)) as [i|]; [|done]. intros [= <-].
  split; [by apply set_provenance_ok|done].
Qed.

(** The sealed head, and the snapshot built of it. *)
Lemma seal_rows_snapshot w jobs parent d d' g snap :
  tables_ok d -> rooted_at d (w_id w) (w_root_inode w) -> Forall job_ok jobs ->
  seal_rows w jobs parent d = Ok (d', g, snap) ->
  tables_ok d' /\ rooted_at d' (w_id w) (w_root_inode w) /\
  build_snapshot d' (WorkspaceRow (w_id w) g (w_root_inode w)) parent = Some (Ok snap).
Proof.
  intros Hd Hroot Hjobs. unfold seal_rows.
  destruct (for_each (apply_job w) d jobs) as [d1|] eqn:E; [|done].
  assert (tables_ok d1 /\ rooted_at d1 (w_id w) (w_root_inode w)) as [Hd1 Hr1].
  { apply (for_each_inv (apply_job w) (fun _ d => tables_ok d /\ rooted_at d (w_id w) (w_root_inode w))
      jobs d d1); [done| |done].
    intros pre x post t t' -> [Ht Hrt] Hx. eapply apply_job_ok; [done..| |exact Hx].
    rewrite Forall_app, Forall_cons in Hjobs. apply Hjobs. }
  cbn beta zeta. set (g0 := if decide (jobs = []) then w_head_generation w else wadd (w_head_generation w) 1).
  set (d2 := if decide (jobs = []) then d1 else advance_head w g0 d1).
  destruct (build_snapshot d2 _ parent) as [[s|e]|] eqn:Eb; cbn; [|done..]. intros [= <- <- <-].
  split; [|split; [|done]].
  - unfold d2. case_decide; [done|by apply advance_head_ok].
  - unfold d2. case_decide; [done|]. destruct Hr1 as (row & Hw & Hrw).
    exists (set_head g0 row). split; [|done]. cbn. rewrite lookup_alter, decide_True by done. by rewrite Hw.
Qed.

Lemma seal_rows_ok w jobs parent d d' g snap :
  tables_ok d -> rooted_at d (w_id w) (w_root_inode w) -> Forall job_ok jobs ->
  seal_rows w jobs parent d = Ok (d', g, snap) -> tables_ok d'.
Proof. intros Hd Hr Hj Hs. by destruct (seal_rows_snapshot w jobs parent d d' g snap Hd Hr Hj Hs). Qed.
End tables.
