(* ===== verification/Database.v ===== *)
(** Opening a store and its database, and the binding to the engine
    ([src/crates/tensorfs-core/src/workspace_db.rs], with [ObjectStore::open] of
    [store.rs] and [WorkspaceStore::open] of [workspace.rs]).

    The engine (the crate [turso]) is a class: its calls are futures over a state
    of its own, and a second class says what its transactions and statements are
    documented to do.  The theorems are about the code between: the executor that
    drives a future on the calling thread, the choice of the mode a database is
    opened in, and the transaction that rolls back when it is dropped - which is
    shown to be the [transaction] of [Workspace.v]. *)

From S2P Require Export WorkspaceFacts.

(** ** Futures and the executor *)

(** [Poll<T>]. *)
Inductive poll (A : Type) : Type := Ready (a : A) | Pending.
Arguments Ready {A} a.
Arguments Pending {A}.

(** A future over a shared state: its own state, what a poll does, and whether
    that poll has the waker called, now or later.  [f_pending] bounds the polls
    still needed: the futures are self-stepping, a poll that is pending has made
    progress and has the waker called. *)
Record future (S A : Type) : Type := Future {
  f_local : Type;
  f_start : f_local;
  f_poll : f_local -> S -> poll A * bool * f_local * S;
  f_pending : f_local -> S -> nat;
  f_steps l s l' s' wakes : f_poll l s = (Pending, wakes, l', s') ->
    wakes = true /\ (f_pending l' s' < f_pending l s)%nat
}.
Arguments f_local {S A} _.
Arguments f_start {S A} _.
Arguments f_poll {S A} _ _ _.
Arguments f_pending {S A} _ _ _.
Arguments f_steps {S A} _ _ _ _ _ _ _.

(** [block_on]: poll, and park where the future is pending.  A park returns when
    the thread's token is set, which [ThreadWaker] does, and takes the token; with
    no token and no wake to come the thread stays parked ([None]). *)
Fixpoint block_loop {S A} (fuel : nat) (f : future S A) (token : bool) (l : f_local f) (s : S)
  : option (A * S) :=
  match fuel with
  | O => None
  | Datatypes.S fuel =>
      let '(p, wakes, l, s) := f_poll f l s in
      match p with
      | Ready value => Some (value, s)
      | Pending => if token || wakes then block_loop fuel f false l s else None
      end
  end.
Definition block_on {S A} (f : future S A) (token : bool) (s : S) : option (A * S) :=
  block_loop (Datatypes.S (f_pending f (f_start f) s)) f token (f_start f) s.

(** It returns, whatever token an earlier wake left, and the token has no part in
    the answer. *)
Lemma block_loop_returns {S A} (f : future S A) fuel token l s :
  (f_pending f l s < fuel)%nat ->
  exists a s', forall token', block_loop fuel f (token || token') l s = Some (a, s').
Proof.
  revert token l s. induction fuel as [|fuel IH]; intros token l s Hl; [lia|]. simpl.
  destruct (f_poll f l s) as [[[[a|] wakes] l'] s'] eqn:Ep; [by eexists _, _|].
  apply f_steps in Ep as [-> Hlt].
  destruct (IH false l' s' ltac:(lia)) as (a & s2 & H2). exists a, s2. intros token'.
  rewrite orb_true_r. exact (H2 false).
Qed.
Lemma block_on_returns {S A} (f : future S A) s :
  exists a s', forall token, block_on f token s = Some (a, s').
Proof.
  destruct (block_loop_returns f (Datatypes.S (f_pending f (f_start f) s)) false (f_start f) s)
    as (a & s' & H); [lia|]. eauto.
Qed.

(** ** The engine *)

(** [turso::Value]; a real is its bits. *)
Inductive value : Type :=
| VNull
| VInteger (i : Z)
| VReal (bits : Z)
| VText (text : list byte)
| VBlob (bytes : list byte).

(** What the code calls of the engine.  A database, a statement, the rows of a
    query and a row are handles it passes back. *)
Class Turso : Type := {
  turso : Type;
  turso_error : Type;
  error_text : turso_error -> list byte;
  database : Type;
  statement : Type;
  rows_handle : Type;
  row_handle : Type;
  t_build : bool -> list byte -> future turso (result turso_error database);
  t_connect : database -> turso -> result turso_error unit * turso;
  t_pragma_update : list byte -> list byte -> future turso (result turso_error unit);
  t_busy_timeout : Z -> turso -> result turso_error unit * turso;
  t_execute_batch : list byte -> future turso (result turso_error unit);
  t_execute : list byte -> list value -> future turso (result turso_error Z);
  t_query : list byte -> list value -> future turso (result turso_error rows_handle);
  t_prepare : list byte -> future turso (result turso_error statement);
  t_statement_query : statement -> list value -> future turso (result turso_error rows_handle);
  t_next : rows_handle -> future turso (result turso_error (option row_handle * rows_handle));
  t_row_get : row_handle -> Z -> result turso_error value;
  t_last_insert_rowid : turso -> Z
}.

(** [path.to_string_lossy()] on a path's bytes: what is not UTF-8 becomes the
    replacement character. *)
Definition REPLACEMENT : list byte := [Byte.xef; Byte.xbf; Byte.xbd].
Fixpoint lossy_loop (fuel : nat) (l : list byte) : list byte :=
  match fuel with
  | O => []
  | S fuel =>
      match from_utf8 l with
      | U_Ok => l
      | U_Err valid (Some bad) =>
          slice l 0 valid ++ REPLACEMENT ++ lossy_loop fuel (drop (Z.to_nat (valid + bad)) l)
      | U_Err valid None => slice l 0 valid ++ REPLACEMENT
      end
  end.
Definition to_string_lossy (path : list byte) : list byte := lossy_loop (S (length path)) path.

(** [str::contains]. *)
Fixpoint contains (needle l : list byte) : bool :=
  starts_with needle l || match l with [] => false | _ :: l => contains needle l end.

(** [enum Param] and [impl From<Param> for turso::Value]; [bind]. *)
Inductive param : Type :=
| PNull
| PInteger (i : Z)
| PText (text : list byte)
| PBlob (bytes : list byte).
Definition value_of_param (p : param) : value :=
  match p with
  | PNull => VNull
  | PInteger i => VInteger i
  | PText text => VText text
  | PBlob bytes => VBlob bytes
  end.
Definition bind_params (params : list param) : list value := map value_of_param params.

Section facade.
Context `{Turso}.

(** [enum Error]; [DE_NoReturn] stands for a call that never comes back, its
    process being dead. *)
Inductive db_error : Type :=
| DE_Engine (e : turso_error)
| DE_QueryReturnedNoRows
| DE_NoReturn.

(** [OptionalExtension]. *)
Definition optional {A} (r : result db_error A) : result db_error (option A) :=
  match r with
  | Ok value => Ok (Some value)
  | Err DE_QueryReturnedNoRows => Ok None
  | Err error => Err error
  end.

(** The disk and the engine. *)
Record facade : Type := Facade { f_disk : disk; f_turso : turso }.

#[global] Instance facade_has_disk : HasDisk facade.
Proof. refine {| disk_of := f_disk; set_disk d s := Facade d (f_turso s) |}. done. Defined.

(** [Ok(block_on(..)?)], and a call that needs no executor. *)
Definition call {A} (f : future turso (result turso_error A)) : M facade db_error A := fun s =>
  if negb (alive (f_disk s)) then (Err DE_NoReturn, s)
  else
    match block_on f false (f_turso s) with
    | Some (r, t) => (map_err DE_Engine r, Facade (f_disk s) t)
    | None => (Err DE_NoReturn, s)
    end.
Definition direct {A} (f : turso -> result turso_error A * turso) : M facade db_error A := fun s =>
  if negb (alive (f_disk s)) then (Err DE_NoReturn, s)
  else let (r, t) := f (f_turso s) in (map_err DE_Engine r, Facade (f_disk s) t).

(** [Row::get], of a row, a column and the type's conversion from a value
    ([turso]'s [FromValue]). *)
Definition row_get {T} (from_value : value -> result turso_error T) (row : row_handle) (index : Z)
  : result db_error T :=
  map_err DE_Engine (let? v := t_row_get row index in from_value v).
(** [Rows::next] and [Statement::query]. *)
Definition rows_next (rows : rows_handle) : M facade db_error (option row_handle * rows_handle) :=
  call (t_next rows).
Definition statement_query (s : statement) (params : list param) : M facade db_error rows_handle :=
  call (t_statement_query s (bind_params params)).

(** [is_multiprocess_unsupported]. *)
Definition is_multiprocess_unsupported (error : turso_error) : bool :=
  contains (bstr "multiprocess WAL is not supported") (error_text error).

(** [struct Connection]: what is not the engine's. *)
Record connection : Type := Connection { c_database : database; c_multiprocess : bool }.

(** [Connection::open]. *)
Definition connection_open (path : list byte) : M facade db_error connection :=
  let path := to_string_lossy path in
  let<- opened := (fun s =>
    match call (t_build true path) s with
    | (Ok database, s) => (Ok (database, true), s)
    | (Err (DE_Engine error), s) =>
        if is_multiprocess_unsupported error then
          (let<- database := call (t_build false path) in ret (database, false)) s
        else (Err (DE_Engine error), s)
    | (Err error, s) => (Err error, s)
    end) in
  direct (t_connect opened.1);;;
  ret (Connection opened.1 opened.2).

Definition pragma_update (name value : list byte) : M facade db_error unit :=
  call (t_pragma_update name value).
Definition busy_timeout (duration : Z) : M facade db_error unit := direct (t_busy_timeout duration).
Definition execute_batch (sql : list byte) : M facade db_error unit := call (t_execute_batch sql).
(** [execute]: the count is a [u64], as a [usize]. *)
Definition execute (sql : list byte) (params : list param) : M facade db_error Z :=
  call (t_execute sql (bind_params params)).
Definition query_row {A} (sql : list byte) (params : list param)
    (mapper : row_handle -> result db_error A) : M facade db_error A :=
  let<- rows := call (t_query sql (bind_params params)) in
  let<- next := rows_next rows in
  match next.1 with
  | Some row => lift (mapper row)
  | None => fail DE_QueryReturnedNoRows
  end.
(** [query_row(..).optional()]. *)
Definition query_optional {A} (sql : list byte) (params : list param)
    (mapper : row_handle -> result db_error A) : M facade db_error (option A) := fun s =>
  let (r, s) := query_row sql params mapper s in (optional r, s).
Definition prepare (sql : list byte) : M facade db_error statement := call (t_prepare sql).
Definition last_insert_rowid (s : facade) : Z := t_last_insert_rowid (f_turso s).

Definition BEGIN_IMMEDIATE : list byte := bstr "BEGIN IMMEDIATE".
Definition COMMIT : list byte := bstr "COMMIT".
Definition ROLLBACK : list byte := bstr "ROLLBACK".

(** [struct Transaction]: whether it committed; its [Drop]. *)
Definition transaction_drop (committed : bool) : M facade db_error unit :=
  if committed then ret tt else ignore (execute_batch ROLLBACK).
(** [transaction_with_behavior]. *)
Definition transaction_with_behavior : M facade db_error unit := execute BEGIN_IMMEDIATE [];;; ret tt.
(** [commit], which takes the transaction: where [COMMIT] fails it is dropped
    uncommitted. *)
Definition transaction_commit : M facade db_error unit := fun s =>
  match execute COMMIT [] s with
  | (Ok _, s) => transaction_drop true s
  | (Err error, s) => (Err error, (transaction_drop false s).2)
  end.

(** [impl From<workspace_db::Error> for WorkspaceError], as [?] applies it. *)
Definition from_db {A} (m : M facade db_error A) : M facade workspace_error A :=
  map_err_m (fun _ => WE_Db) m.

(** How every operation of [WorkspaceStore] that writes uses one: begin, the
    body with its early returns, commit. *)
Definition transact {A} (body : M facade workspace_error A) : M facade workspace_error A :=
  from_db transaction_with_behavior;;;
  fun s =>
    match body s with
    | (Ok a, s) => (from_db transaction_commit;;; ret a) s
    | (Err error, s) => (Err error, (transaction_drop false s).2)
    end.
End facade.

(** ** What the engine promises *)

(** A future that is driven to its end. *)
Definition finishes {S A} (f : future S A) (s : S) (a : A) (s' : S) : Prop :=
  block_on f false s = Some (a, s').

Definition transaction_control (sql : list byte) : Prop :=
  sql = BEGIN_IMMEDIATE \/ sql = COMMIT \/ sql = ROLLBACK.

(** The documented behaviour of SQL over the tables of the schema.  [sql] and
    [select] are the meanings of statements and queries; [committed] is what a
    process that opens the database reads, [current] what this connection reads.
    A call that fails leaves nothing of itself behind, and may have rolled the
    transaction back; a [COMMIT] that fails has made nothing durable. *)
Class Transactional `{Turso} : Type := {
  committed : turso -> db;
  current : turso -> db;
  in_tx : turso -> bool;
  sql : list byte -> list value -> db -> result unit (db * Z);
  select : list byte -> list value -> db -> list row_handle;
  rows_left : rows_handle -> list row_handle;
  failed_call (s s' : turso) : Prop :=
    committed s' = committed s /\
    ((in_tx s' = in_tx s /\ current s' = current s) \/ in_tx s' = false);
  current_outside s : in_tx s = false -> current s = committed s;
  begin_law s r s' : finishes (t_execute BEGIN_IMMEDIATE []) s r s' ->
    committed s' = committed s /\ current s' = current s /\
    match r with
    | Ok _ => in_tx s = false /\ in_tx s' = true
    | Err _ => in_tx s' = in_tx s
    end;
  commit_law s r s' : finishes (t_execute COMMIT []) s r s' ->
    match r with
    | Ok _ => in_tx s = true /\ in_tx s' = false /\ committed s' = current s
    | Err _ => committed s' = committed s
    end;
  rollback_law s r s' : finishes (t_execute_batch ROLLBACK) s r s' ->
    committed s' = committed s /\
    match r with
    | Ok _ => in_tx s' = false
    | Err _ => in_tx s = false -> in_tx s' = false
    end;
  execute_law text values s r s' : ~ transaction_control text ->
    finishes (t_execute text values) s r s' ->
    match r with
    | Ok count =>
        sql text values (current s) = Ok (current s', count) /\ in_tx s' = in_tx s /\
        (in_tx s = true -> committed s' = committed s)
    | Err _ => failed_call s s'
    end;
  query_law text values s r s' : finishes (t_query text values) s r s' ->
    match r with
    | Ok rows =>
        rows_left rows = select text values (current s) /\
        committed s' = committed s /\ current s' = current s /\ in_tx s' = in_tx s
    | Err _ => failed_call s s'
    end;
  next_law rows s r s' : finishes (t_next rows) s r s' ->
    match r with
    | Ok (next, rest) =>
        rows_left rows = match next with Some row => row :: rows_left rest | None => [] end /\
        committed s' = committed s /\ current s' = current s /\ in_tx s' = in_tx s
    | Err _ => failed_call s s'
    end
}.

Section transactions.
Context `{Transactional}.

(** A façade call either runs its future to the end or is the call of a dead
    process. *)
Lemma engine_call_cases {A} (f : future turso (result turso_error A)) s :
  (alive (f_disk s) = false /\ call f s = (Err DE_NoReturn, s)) \/
  (alive (f_disk s) = true /\ exists r t, finishes f (f_turso s) r t /\
     call f s = (map_err DE_Engine r, Facade (f_disk s) t)).
Proof.
  unfold call. destruct (alive (f_disk s)); simpl; [right|by left]. split; [done|].
  destruct (block_on_returns f (f_turso s)) as (r & t & Hb). exists r, t.
  split; [exact (Hb false)|]. by rewrite (Hb false).
Qed.

(** ** The simulation *)

(** Façade code inside a transaction, and the code of [Workspace.v]: for some
    engine calls failing, they agree on the outcome and on the disk, and where
    it is a success on the tables; nothing is committed by either. *)
Definition simulates {A} (m : M facade workspace_error A) (m' : M world workspace_error A) : Prop :=
  forall s r s', in_tx (f_turso s) = true -> m s = (r, s') ->
  committed (f_turso s') = committed (f_turso s) /\
  exists schedule tables,
    (forall rest, m' (World (f_disk s) (current (f_turso s)) (schedule ++ rest)) =
                  (r, World (f_disk s') tables rest)) /\
    (is_ok r = true -> in_tx (f_turso s') = true /\ current (f_turso s') = tables).

Lemma sim_lift {A} (r : result workspace_error A) : simulates (lift r) (lift r).
Proof. intros s r' s' Hin [= <- <-]. split; [done|]. exists [], (current (f_turso s)). by split. Qed.

Lemma sim_bind {A B} (m : M facade workspace_error A) (k : A -> M facade workspace_error B) m' k' :
  simulates m m' -> (forall a, simulates (k a) (k' a)) -> simulates (bind m k) (bind m' k').
Proof.
  intros Hm Hk s r s' Hin Hrun. unfold bind in Hrun. destruct (m s) as [[a|e] s1] eqn:Em.
  - destruct (Hm s _ _ Hin Em) as (Hc & sc1 & tab1 & H1 & Hok). destruct (Hok eq_refl) as [Hin1 <-].
    destruct (Hk a s1 r s' Hin1 Hrun) as (Hc2 & sc2 & tab2 & H2 & Hok2).
    split; [congruence|]. exists (sc1 ++ sc2), tab2. split; [|done]. intros rest.
    rewrite <- app_assoc. unfold bind. rewrite H1. apply H2.
  - destruct (Hm s _ _ Hin Em) as (Hc & sc1 & tab1 & H1 & _). injection Hrun as <- <-.
    split; [done|]. exists sc1, tab1. split; [|done]. intros rest. unfold bind. by rewrite H1.
Qed.

Lemma sim_for {X A} (body : A -> X -> M facade workspace_error A) body' a l :
  (forall a x, simulates (body a x) (body' a x)) -> simulates (for_m body a l) (for_m body' a l).
Proof.
  intros Hb. revert a. induction l as [|x l IH]; intros a; [apply (sim_lift (Ok a))|].
  apply sim_bind; [apply Hb|exact IH].
Qed.

(** Calls into the store are the same calls. *)
Lemma sim_disk {E A} (f : E -> workspace_error) (m : M disk E A) :
  simulates (map_err_m f (on_disk m)) (map_err_m f (on_disk m)).
Proof.
  intros s r s' Hin Hrun. unfold map_err_m, on_disk in *. simpl in *.
  destruct (m (f_disk s)) as [r1 d1] eqn:Em. injection Hrun as <- <-. split; [done|].
  exists [], (current (f_turso s)). by split.
Qed.

Lemma engine_fails d t rest : alive d = true ->
  engine (World d t ([true] ++ rest)) = (Err WE_Db, World d t rest).
Proof. intros Ha. unfold engine. simpl. by rewrite Ha. Qed.
Lemma engine_proceeds d t rest : alive d = true ->
  engine (World d t ([false] ++ rest)) = (Ok tt, World d t rest).
Proof. intros Ha. unfold engine. simpl. by rewrite Ha. Qed.
Lemma engine_dead d t rest : alive d = false ->
  engine (World d t ([] ++ rest)) = (Err WE_Db, World d t rest).
Proof. intros Ha. unfold engine. simpl. by rewrite Ha. Qed.

(** What a statement and a query mean for the tables. *)
Definition statement_of (text : list byte) (params : list param) (d : db) : result workspace_error db :=
  match sql text (bind_params params) d with Ok (d, _) => Ok d | Err _ => Err WE_Db end.
Definition first_row {A} (text : list byte) (params : list param)
    (mapper : row_handle -> result db_error A) (d : db) : result db_error A :=
  match select text (bind_params params) d with
  | row :: _ => mapper row
  | [] => Err DE_QueryReturnedNoRows
  end.

Lemma sim_execute text params : ~ transaction_control text ->
  simulates (from_db (execute text params);;; ret tt) (sql_write (statement_of text params)).
Proof.
  intros Hp s r s' Hin. unfold from_db, map_err_m, execute.
  destruct (engine_call_cases (t_execute text (bind_params params)) s)
    as [[Ha Hc]|(Ha & q & t & Hf & Hc)]; unfold bind; rewrite Hc.
  - intros [= <- <-]. split; [done|]. exists [], (current (f_turso s)). split; [|done].
    intros rest. unfold sql_write. by rewrite (bind_Err _ _ _ _ _ (engine_dead _ _ _ Ha)).
  - apply (execute_law _ _ _ _ _ Hp) in Hf. destruct q as [count|e]; intros [= <- <-]; simpl.
    + destruct Hf as (Hs & Hin' & Hcom). split; [auto|]. exists [false], (current t).
      split; [|intros _; split; [congruence|done]]. intros rest. unfold sql_write.
      rewrite (bind_Ok _ _ _ _ _ (engine_proceeds _ _ _ Ha)). simpl. unfold statement_of.
      by rewrite Hs.
    + split; [apply Hf|]. exists [true], (current (f_turso s)). split; [|done]. intros rest.
      unfold sql_write. by rewrite (bind_Err _ _ _ _ _ (engine_fails _ _ _ Ha)).
Qed.

(** A query reads, or fails. *)
Lemma query_row_run {A} text params (mapper : row_handle -> result db_error A) s :
  let (r, s') := query_row text params mapper s in
  f_disk s' = f_disk s /\
  ((r = first_row text params mapper (current (f_turso s)) /\ alive (f_disk s) = true /\
    committed (f_turso s') = committed (f_turso s) /\ current (f_turso s') = current (f_turso s) /\
    in_tx (f_turso s') = in_tx (f_turso s)) \/
   (r = Err DE_NoReturn /\ alive (f_disk s) = false /\ s' = s) \/
   ((exists e, r = Err (DE_Engine e)) /\ alive (f_disk s) = true /\
    committed (f_turso s') = committed (f_turso s))).
Proof.
  unfold query_row, rows_next, bind.
  destruct (engine_call_cases (t_query text (bind_params params)) s)
    as [[Ha ->]|(Ha & q & t & Hf & ->)]; [by auto 10|].
  apply query_law in Hf. destruct q as [rows|e]; simpl;
    [|split; [done|]; right; right; split; [eauto|split; [done|apply Hf]]].
  destruct Hf as (Hrows & Hc & Hcur & Hin).
  destruct (engine_call_cases (t_next rows) (Facade (f_disk s) t)) as [[Ha' _]|(_ & q & t' & Hn & ->)];
    [simpl in Ha'; congruence|].
  apply next_law in Hn. destruct q as [[next rest]|e]; simpl in *;
    [|split; [done|]; right; right; destruct Hn as [Hn _]; split; [eauto|split; [done|congruence]]].
  destruct Hn as (Hleft & Hc' & Hcur' & Hin'). unfold first_row. rewrite <- Hrows, Hleft.
  destruct next as [row|]; simpl; (split; [done|]; left; split_and!; congruence).
Qed.

Lemma sim_read {A B} text params (mapper : row_handle -> result db_error A)
    (g : result db_error A -> result db_error B) :
  (forall e, is_ok (g (Err (DE_Engine e))) = false) -> is_ok (g (Err DE_NoReturn)) = false ->
  simulates (from_db (fun s => let (r, s) := query_row text params mapper s in (g r, s)))
    (sql_read (fun d => map_err (fun _ => WE_Db) (g (first_row text params mapper d)))).
Proof.
  intros Hg Hg' s r s' Hin. unfold from_db, map_err_m.
  pose proof (query_row_run text params mapper s) as Hq.
  destruct (query_row text params mapper s) as [q s1]. intros [= <- <-]. unfold sql_read.
  destruct Hq as [Hd [(-> & Ha & Hc & Hcur & Hin')|[(-> & Ha & ->)|([e ->] & Ha & Hc)]]].
  - split; [done|]. exists [false], (current (f_turso s)). split; [|intros _; split; congruence].
    intros rest. rewrite (bind_Ok _ _ _ _ _ (engine_proceeds _ _ _ Ha)), Hd. done.
  - split; [done|]. exists [], (current (f_turso s)). destruct (g (Err DE_NoReturn)); [done|].
    split; [|done]. intros rest. by rewrite (bind_Err _ _ _ _ _ (engine_dead _ _ _ Ha)).
  - split; [done|]. exists [true], (current (f_turso s)). specialize (Hg e).
    destruct (g (Err (DE_Engine e))); [done|]. split; [|done]. intros rest.
    by rewrite (bind_Err _ _ _ _ _ (engine_fails _ _ _ Ha)), Hd.
Qed.

Lemma sim_query_row {A} text params (mapper : row_handle -> result db_error A) :
  simulates (from_db (query_row text params mapper))
    (sql_read (fun d => map_err (fun _ => WE_Db) (first_row text params mapper d))).
Proof.
  intros s r s' Hin Hrun. apply (sim_read text params mapper id); [done..|].
  unfold from_db, map_err_m in *. by destruct (query_row text params mapper s).
Qed.
Lemma sim_query_optional {A} text params (mapper : row_handle -> result db_error A) :
  simulates (from_db (query_optional text params mapper))
    (sql_read (fun d => map_err (fun _ => WE_Db) (optional (first_row text params mapper d)))).
Proof. exact (sim_read text params mapper optional (fun _ => eq_refl) eq_refl). Qed.

(** ** Transactions *)

(** Dropped uncommitted: nothing becomes durable, and the transaction is closed
    unless the rollback is refused. *)
Definition rollback_refused (t : turso) : Prop :=
  exists t0 e, in_tx t0 = true /\ finishes (t_execute_batch ROLLBACK) t0 (Err e) t.

Lemma drop_uncommitted s :
  let s' := (execute_batch ROLLBACK s).2 in
  f_disk s' = f_disk s /\ committed (f_turso s') = committed (f_turso s) /\
  (alive (f_disk s) = true -> in_tx (f_turso s') = true -> rollback_refused (f_turso s')).
Proof.
  unfold execute_batch.
  destruct (engine_call_cases (t_execute_batch ROLLBACK) s) as [[Ha ->]|(Ha & q & t & Hf & ->)];
    simpl; [split_and!; [done..|congruence]|].
  pose proof (rollback_law _ _ _ Hf) as [Hc Hr]. split_and!; [done..|]. intros _ Hin.
  destruct q as [|e]; [congruence|]. exists (f_turso s), e. split; [|done].
  destruct (in_tx (f_turso s)); [done|]. rewrite Hr in Hin; done.
Qed.

Lemma transact_refines {A} (body : M facade workspace_error A) (body' : M world workspace_error A) s r s' :
  simulates body body' -> in_tx (f_turso s) = false -> transact body s = (r, s') ->
  (exists schedule,
    transaction body' (World (f_disk s) (committed (f_turso s)) schedule) =
    (r, World (f_disk s') (committed (f_turso s')) [])) /\
  (alive (f_disk s') = true -> in_tx (f_turso s') = true -> rollback_refused (f_turso s')).
Proof.
  intros Hsim Hout. unfold transact, transaction_with_behavior, from_db, map_err_m, execute.
  unfold bind at 1. destruct (engine_call_cases (t_execute BEGIN_IMMEDIATE (bind_params [])) s)
    as [[Ha Hc]|(Ha & q & t & Hf & Hc)]; unfold bind at 1; rewrite Hc.
  { intros [= <- <-]. split; [|congruence]. exists []. unfold transaction.
    by rewrite (bind_Err _ _ _ _ _ (engine_dead _ _ [] Ha)). }
  apply begin_law in Hf as (Hcom & Hcur & Hq). destruct q as [n|e]; cycle 1.
  { intros [= <- <-]. split; [|simpl; congruence]. exists [true]. unfold transaction.
    rewrite (bind_Err _ _ _ _ _ (engine_fails _ _ [] Ha)). simpl. by rewrite Hcom. }
  destruct Hq as [_ Hin]. cbn [map_err ret]. rewrite (current_outside _ Hout) in Hcur.
  destruct (body (Facade (f_disk s) t)) as [[a|e] s1] eqn:Eb;
    destruct (Hsim (Facade (f_disk s) t) _ _ Hin Eb) as (Hc1 & sc & tab & Hw & Hok); simpl in *;
    rewrite Hcom in Hc1; rewrite Hcur in Hw.
  - destruct (Hok eq_refl) as [Hin1 <-]. unfold transaction_commit, execute, bind.
    destruct (engine_call_cases (t_execute COMMIT (bind_params [])) s1) as [[Ha1 ->]|(Ha1 & q & t1 & Hf & ->)].
    + intros [= <- <-]. destruct (drop_uncommitted s1) as (Hd & Hc2 & Hr). rewrite Hd.
      split; [|congruence]. exists ([false] ++ sc). unfold transaction.
      rewrite (bind_Ok _ _ _ _ _ (engine_proceeds _ _ _ Ha)). unfold bind.
      specialize (Hw []). rewrite app_nil_r in Hw. rewrite Hw.
      rewrite (engine_dead _ _ [] Ha1). unfold set_db. simpl. by rewrite Hc2, Hc1.
    + apply commit_law in Hf. destruct q as [n1|e]; intros [= <- <-].
      * destruct Hf as (_ & Hin2 & Hc2). simpl. split; [|congruence].
        exists ([false] ++ sc ++ [false]). unfold transaction.
        rewrite (bind_Ok _ _ _ _ _ (engine_proceeds _ _ _ Ha)). unfold bind. rewrite Hw.
        rewrite (engine_proceeds _ _ [] Ha1). simpl. by rewrite Hc2.
      * destruct (drop_uncommitted (Facade (f_disk s1) t1)) as (Hd & Hc2 & Hr). simpl in Hd, Hc2, Hr.
        rewrite Hd. split; [|auto]. exists ([false] ++ sc ++ [true]). unfold transaction.
        rewrite (bind_Ok _ _ _ _ _ (engine_proceeds _ _ _ Ha)). unfold bind. rewrite Hw.
        rewrite (engine_fails _ _ [] Ha1). unfold set_db. simpl. by rewrite Hc2, Hf, Hc1.
  - intros [= <- <-]. destruct (drop_uncommitted s1) as (Hd & Hc2 & Hr). rewrite Hd.
    split; [|auto]. exists ([false] ++ sc). unfold transaction.
    rewrite (bind_Ok _ _ _ _ _ (engine_proceeds _ _ _ Ha)). unfold bind.
    specialize (Hw []). rewrite app_nil_r in Hw. rewrite Hw. unfold set_db. simpl. by rewrite Hc2, Hc1.
Qed.

(** A statement outside a transaction is one of its own. *)
Lemma alone_refines text params s r s' :
  ~ transaction_control text -> in_tx (f_turso s) = false ->
  (from_db (execute text params);;; ret tt) s = (r, s') ->
  in_tx (f_turso s') = false /\
  exists schedule,
    sql_write (statement_of text params) (World (f_disk s) (committed (f_turso s)) schedule) =
    (r, World (f_disk s') (committed (f_turso s')) []).
Proof.
  intros Hp Hout. rewrite <- (current_outside _ Hout). unfold from_db, map_err_m, execute.
  destruct (engine_call_cases (t_execute text (bind_params params)) s)
    as [[Ha Hc]|(Ha & q & t & Hf & Hc)]; unfold bind; rewrite Hc.
  - intros [= <- <-]. split; [done|]. exists []. unfold sql_write.
    rewrite (bind_Err _ _ _ _ _ (engine_dead _ _ [] Ha)). by rewrite (current_outside _ Hout).
  - apply (execute_law _ _ _ _ _ Hp) in Hf. destruct q as [count|e]; intros [= <- <-]; simpl.
    + destruct Hf as (Hs & Hin' & _). rewrite Hout in Hin'. split; [done|]. exists [false].
      unfold sql_write. rewrite (bind_Ok _ _ _ _ _ (engine_proceeds _ _ [] Ha)). simpl.
      unfold statement_of. by rewrite Hs, (current_outside _ Hin').
    + destruct Hf as [Hc' Hin']. rewrite Hout in Hin'. split; [naive_solver|]. exists [true].
      unfold sql_write. rewrite (bind_Err _ _ _ _ _ (engine_fails _ _ [] Ha)).
      by rewrite Hc', (current_outside _ Hout).
Qed.

(** A transaction that stays open after a refused rollback: every later
    transaction is refused, and a single statement that reports success is not
    durable. *)
Theorem stuck_transaction s :
  in_tx (f_turso s) = true ->
  (forall A (body : M facade workspace_error A), exists s',
     transact body s = (Err WE_Db, s') /\
     committed (f_turso s') = committed (f_turso s) /\ in_tx (f_turso s') = true) /\
  (forall text params count s', ~ transaction_control text ->
     execute text params s = (Ok count, s') ->
     committed (f_turso s') = committed (f_turso s) /\ in_tx (f_turso s') = true).
Proof.
  intros Hin. split.
  - intros A body. unfold transact, transaction_with_behavior, from_db, map_err_m, execute.
    unfold bind at 1. destruct (engine_call_cases (t_execute BEGIN_IMMEDIATE (bind_params [])) s)
      as [[Ha Hc]|(Ha & q & t & Hf & Hc)]; unfold bind at 1; rewrite Hc; [by exists s|].
    apply begin_law in Hf as (Hcom & _ & Hq). destruct q as [n|e]; [destruct Hq; congruence|].
    exists (Facade (f_disk s) t). simpl. split_and!; [done..|congruence].
  - intros text params count s' Hp. unfold execute.
    destruct (engine_call_cases (t_execute text (bind_params params)) s)
      as [[Ha ->]|(Ha & q & t & Hf & ->)]; [done|].
    apply (execute_law _ _ _ _ _ Hp) in Hf. destruct q as [n|e]; intros [= <- <-].
    destruct Hf as (_ & Hin' & Hcom). split; [auto|simpl; congruence].
Qed.

(** C7: A transaction over the binding - begun, its body's statements and early
    returns, committed or dropped - is a transaction of the workspaces, whatever
    the engine refuses and wherever the process dies: there are engine calls that
    fail such that the abstract transaction has the same outcome, the same disk
    and the tables that are committed; and none is left open unless the engine
    refuses the rollback. *)
Theorem transaction_refined {A} (body : M facade workspace_error A)
    (body' : M world workspace_error A) s r s' :
  simulates body body' -> in_tx (f_turso s) = false -> transact body s = (r, s') ->
  (exists schedule,
    transaction body' (World (f_disk s) (committed (f_turso s)) schedule) =
    (r, World (f_disk s') (committed (f_turso s')) [])) /\
  (alive (f_disk s') = true -> in_tx (f_turso s') = true -> rollback_refused (f_turso s')).
Proof. exact (transact_refines body body' s r s'). Qed.
End transactions.

(** ** Opening a store *)

(** The store's root directory beside the tree below it: the names in it. *)
Record store_root : Type := StoreRoot { sr_disk : disk; sr_names : gset (list byte) }.

#[export] Instance root_has_disk : HasDisk store_root.
Proof. refine {| disk_of := sr_disk; set_disk d s := StoreRoot d (sr_names s) |}. done. Defined.

(** How much of a call's effect the next outcome leaves when it is a failure. *)
Definition next_partial (d : disk) : nat :=
  match outcomes d with Fails _ k :: _ | Crashes k :: _ => k | _ => O end.

(** A call on the root directory: all of it, or, where it fails, perhaps [partial]. *)
Definition root_call (act : gset (list byte) -> result io_error (gset (list byte)))
    (partial : nat -> gset (list byte) -> gset (list byte)) : M store_root io_error unit := fun s =>
  let k := next_partial (sr_disk s) in
  match query (fun _ => act (sr_names s)) (sr_disk s) with
  | (Ok names, d) => (Ok tt, StoreRoot d names)
  | (Err e, d) =>
      (Err e, StoreRoot d (if alive (sr_disk s) then partial k (sr_names s) else sr_names s))
  end.

(** [fs::create_dir_all(root.join(name)..)], which succeeds where the directory
    is there; [fs::remove_file] and [symlink] of a name in the root. *)
Definition create_root_dir (name : list byte) : M store_root io_error unit :=
  root_call (fun names => Ok ({[name]} ∪ names))
    (fun k names => match k with O => names | _ => {[name]} ∪ names end).
Definition remove_root_file (name : list byte) : M store_root io_error unit :=
  root_call (fun names => if decide (name ∈ names) then Ok (names ∖ {[name]}) else Err NotFound)
    (fun _ names => names).
Definition create_root_symlink (supported : bool) (name : list byte) : M store_root io_error unit :=
  root_call (fun names =>
    if decide (name ∈ names) then Err AlreadyExists
    else if supported then Ok ({[name]} ∪ names) else Err (OtherIo 1)) (fun _ names => names).

(** [format!(".symlink-probe-{}-{}", process::id(), ..)]. *)
Definition probe_name (pid sequence : Z) : list byte :=
  bstr ".symlink-probe-" ++ to_dec pid ++ bstr "-" ++ to_dec sequence.

(** [probe_symlinks], on a file system that has symbolic links or does not. *)
Definition probe_symlinks (supported : bool) : M store_root store_error bool := fun s =>
  let probe := probe_name (pid (sr_disk s)) (sequence (sr_disk s)) in
  (on_disk (modify fetch_add);;;
   ignore (remove_root_file probe);;;
   let<- created := (fun s =>
     let (r, s) := create_root_symlink supported probe s in (Ok (is_ok r), s)) in
   ignore (remove_root_file probe);;;
   ret created) s.

(** [struct ObjectStore] beside its root: whether links are used. *)
Record object_store : Type := ObjectStore { os_symlinks : bool }.

(** [ObjectStore::open]. *)
Definition store_open (supported : bool) : M store_root store_error object_store :=
  map_err_m SE_Io (create_root_dir (bstr "objects"));;;
  map_err_m SE_Io (create_root_dir (bstr "tmp"));;;
  on_disk (io fsync);;;
  on_disk (io fsync);;;
  on_disk (io fsync);;;
  on_disk (io fsync);;;
  let<- symlinks := probe_symlinks supported in
  ret (ObjectStore symlinks).

(** What a call that is about the root alone leaves: the objects and the
    temporaries as they were, up to the locks of a process that died, and the
    names of the root, up to some. *)
Definition root_grown (extra : gset (list byte)) (s s' : store_root) : Prop :=
  objects (sr_disk s') = objects (sr_disk s) /\
  (t_bytes <$> temps (sr_disk s')) = (t_bytes <$> temps (sr_disk s)) /\
  sr_names s ⊆ sr_names s' ∪ extra /\ sr_names s' ⊆ sr_names s ∪ extra /\
  pid (sr_disk s') = pid (sr_disk s).

Lemma root_grown_refl extra s : root_grown extra s s.
Proof. unfold root_grown. set_solver. Qed.
Lemma root_grown_trans extra s s1 s2 : root_grown extra s s1 -> root_grown extra s1 s2 -> root_grown extra s s2.
Proof.
  intros (Ho & Ht & Ha & Hb & Hp) (Ho' & Ht' & Ha' & Hb' & Hp'). unfold root_grown.
  split_and!; [congruence..| | |congruence]; set_solver.
Qed.

(** Code of which each part leaves what [root_grown] says. *)
Definition grows {A E : Type} (extra : gset (list byte)) (m : M store_root E A) : Prop :=
  forall s, root_grown extra s (m s).2.

Lemma g_bind {A B E : Type} (extra : gset (list byte)) (m : M store_root E A) (k : A -> M store_root E B) :
  grows extra m -> (forall a, grows extra (k a)) -> grows extra (bind m k).
Proof.
  intros Hm Hk s. unfold bind. specialize (Hm s). destruct (m s) as [[a|e] s1]; [|done].
  exact (root_grown_trans _ _ _ _ Hm (Hk a s1)).
Qed.
Lemma g_ret {A E : Type} (extra : gset (list byte)) (a : A) : grows (E := E) extra (ret a).
Proof. intros s. apply root_grown_refl. Qed.
Lemma g_map_err {A E F : Type} (extra : gset (list byte)) (f : E -> F) (m : M store_root E A) :
  grows extra m -> grows extra (map_err_m f m).
Proof. intros Hm s. specialize (Hm s). unfold map_err_m. by destruct (m s). Qed.
Lemma g_ignore {A E F : Type} (extra : gset (list byte)) (m : M store_root E A) :
  grows extra m -> grows (E := F) extra (ignore m).
Proof. intros Hm s. exact (Hm s). Qed.

Lemma kill_bytes d : t_bytes <$> temps (kill d) = t_bytes <$> temps d.
Proof.
  simpl. rewrite <- map_fmap_compose. apply map_fmap_ext. intros name t _. simpl. by case_decide.
Qed.
Lemma query_disk {A} (f : disk -> result io_error A) d :
  let d' := (query f d).2 in
  objects d' = objects d /\ t_bytes <$> temps d' = t_bytes <$> temps d /\ pid d' = pid d.
Proof.
  unfold query, atomic, syscall. destruct (alive d); [|done]. simpl.
  destruct (outcomes d) as [|[|e k|k] os]; simpl; [done..|].
  split_and!; [done| |done]. exact (kill_bytes (with_outcomes os d)).
Qed.
Lemma query_Ok {A} (f : disk -> result io_error A) d a d' :
  query f d = (Ok a, d') -> exists d0, f d0 = Ok a.
Proof.
  unfold query, atomic, syscall. destruct (alive d); [|done]. simpl.
  destruct (outcomes d) as [|[|e k|k] os]; intros [=]; eauto.
Qed.

Lemma g_root_call extra act partial :
  (forall names names', act names = Ok names' -> names ⊆ names' ∪ extra /\ names' ⊆ names ∪ extra) ->
  (forall k names, names ⊆ partial k names /\ partial k names ⊆ names ∪ extra) ->
  grows extra (root_call act partial).
Proof.
  intros Hact Hpart s. unfold root_call.
  pose proof (query_disk (fun _ => act (sr_names s)) (sr_disk s)) as (Ho & Ht & Hp).
  destruct (query (fun _ => act (sr_names s)) (sr_disk s)) as [[names|e] d] eqn:Eq; simpl in *.
  - apply query_Ok in Eq as [_ Eq]. destruct (Hact _ _ Eq). unfold root_grown. simpl. by split_and!.
  - destruct (Hpart (next_partial (sr_disk s)) (sr_names s)) as [H1 H2]. clear Hact Hpart.
    unfold root_grown. simpl. destruct (alive (sr_disk s)); split_and!; try done; set_solver.
Qed.
Lemma g_fsync extra : grows extra (on_disk (io fsync)).
Proof.
  intros s. unfold on_disk, io, map_err_m. simpl.
  pose proof (query_disk (fun _ => Ok tt) (sr_disk s)) as (Ho & Ht & Hp). fold fsync in Ho, Ht, Hp.
  destruct (fsync (sr_disk s)) as [r d]. simpl in *. unfold root_grown. simpl.
  split_and!; try done; set_solver.
Qed.

(** The names an opening may leave in the root: its two directories and, where
    the process dies between two calls or a removal fails, one probe. *)
Definition opening_names (d : disk) : gset (list byte) :=
  {[bstr "objects"; bstr "tmp"; probe_name (pid d) (sequence d)]}.

Lemma g_create_dir extra name : name ∈ extra -> grows extra (create_root_dir name).
Proof.
  intros Hin. apply g_root_call; [intros names names' [= <-]; set_solver|].
  intros [|k] names; set_solver.
Qed.
Lemma g_remove_file extra name : name ∈ extra -> grows extra (remove_root_file name).
Proof.
  intros Hin. apply g_root_call; [|set_solver]. intros names names'. case_decide; [|done].
  intros [= <-]. split; [|set_solver]. intros x Hx. destruct (decide (x = name)); set_solver.
Qed.
Lemma g_create_symlink extra supported name : name ∈ extra -> grows extra (create_root_symlink supported name).
Proof.
  intros Hin. apply g_root_call; [|set_solver]. intros names names'.
  case_decide; [done|]. destruct supported; [|done]. intros [= <-]. set_solver.
Qed.

Lemma g_probe extra supported s :
  probe_name (pid (sr_disk s)) (sequence (sr_disk s)) ∈ extra ->
  root_grown extra s (probe_symlinks supported s).2.
Proof.
  intros Hin. unfold probe_symlinks.
  assert (forall s1, root_grown extra s1 ((
    ignore (remove_root_file (probe_name (pid (sr_disk s)) (sequence (sr_disk s))));;;
    let<- created := (fun s1 =>
      let (r, s1) := create_root_symlink supported
        (probe_name (pid (sr_disk s)) (sequence (sr_disk s))) s1 in (Ok (is_ok r), s1)) in
    ignore (remove_root_file (probe_name (pid (sr_disk s)) (sequence (sr_disk s))));;;
    ret (E := store_error) created) s1).2) as Hrest.
  { intros s1. refine (g_bind _ _ _ _ _ s1); [by apply g_ignore, g_remove_file|intros _].
    refine (g_bind _ _ _ _ _).
    - intros s2. pose proof (g_create_symlink extra supported _ Hin s2) as Hs.
      by destruct (create_root_symlink supported _ s2).
    - intros created. refine (g_bind _ _ _ _ _); [by apply g_ignore, g_remove_file|].
      intros _. apply g_ret. }
  refine (root_grown_trans _ s (StoreRoot (fetch_add (sr_disk s)) (sr_names s)) _ _ (Hrest _)).
  unfold root_grown. simpl. set_solver.
Qed.

(** The sequence number is the process's, which no call of the opening but the
    probe takes. *)
Definition keeps_counter {A E : Type} (m : M store_root E A) : Prop :=
  forall s, sequence (sr_disk (m s).2) = sequence (sr_disk s).
Lemma c_query {A : Type} (f : disk -> result io_error A) d : sequence (query f d).2 = sequence d.
Proof.
  unfold query, atomic, syscall. destruct (alive d); [|done]. simpl.
  by destruct (outcomes d) as [|[|e k|k] os].
Qed.
Lemma c_create_dir name : keeps_counter (map_err_m SE_Io (create_root_dir name)).
Proof.
  intros s. unfold map_err_m, create_root_dir, root_call.
  match goal with |- context [query ?f ?d] => pose proof (c_query f d) as Hc; destruct (query f d) as [[names|e] d1] end;
    exact Hc.
Qed.
Lemma c_fsync : keeps_counter (on_disk (io fsync)).
Proof.
  intros s. unfold on_disk, io, map_err_m. simpl. pose proof (c_query (fun _ => Ok tt) (sr_disk s)) as Hc.
  fold fsync in Hc. by destruct (fsync (sr_disk s)).
Qed.

(** A step of the opening, and the rest of it with the probe's name kept. *)
Lemma open_step {A B : Type} (m : M store_root store_error A) (k : A -> M store_root store_error B) s0 s :
  grows (opening_names (sr_disk s0)) m -> keeps_counter m ->
  root_grown (opening_names (sr_disk s0)) s0 s /\ sequence (sr_disk s) = sequence (sr_disk s0) ->
  (forall a s1, root_grown (opening_names (sr_disk s0)) s0 s1 /\
     sequence (sr_disk s1) = sequence (sr_disk s0) ->
     root_grown (opening_names (sr_disk s0)) s0 (k a s1).2) ->
  root_grown (opening_names (sr_disk s0)) s0 (bind m k s).2.
Proof.
  intros Hm Hc [Hs Hn] Hk. unfold bind. specialize (Hm s). specialize (Hc s).
  destruct (m s) as [[a|e] s1]; simpl in *; [apply Hk; split; [|congruence]|];
    exact (root_grown_trans _ _ _ _ Hs Hm).
Qed.

(** Opening a store, whatever fails and wherever the process dies, leaves the
    objects and the bytes of the temporaries as they were, and adds to the root
    only its two directories and at most the one probe. *)
Theorem store_open_keeps supported s :
  root_grown (opening_names (sr_disk s)) s (store_open supported s).2.
Proof.
  unfold store_open.
  do 2 (apply open_step; [apply g_map_err, g_create_dir; unfold opening_names; set_solver
    |apply c_create_dir|first [assumption|split; [apply root_grown_refl|done]]|intros [] ? ?]).
  do 4 (apply open_step; [apply g_fsync|apply c_fsync|assumption|intros [] ? ?]).
  match goal with H : root_grown _ s ?s1 /\ _ |- _ => destruct H as [Hg Hn] end.
  unfold bind. pose proof (g_probe (opening_names (sr_disk s)) supported s5) as Hp.
  destruct Hg as (? & ? & ? & ? & Hpid).
  destruct (probe_symlinks supported s5) as [[b|e] s6]; simpl in *;
    (eapply root_grown_trans; [|apply Hp; rewrite Hpid, Hn; unfold opening_names; set_solver]);
    unfold root_grown; by split_and!.
Qed.

(** The calls where nothing fails. *)
Lemma root_call_quiet act partial d names :
  quiet_disk d ->
  root_call act partial (StoreRoot d names) =
  match act names with
  | Ok names' => (Ok tt, StoreRoot d names')
  | Err e => (Err e, StoreRoot d (partial O names))
  end.
Proof.
  intros [Ha Ho]. unfold root_call, query, atomic, syscall, next_partial. simpl. rewrite Ha, Ho. simpl.
  by destruct (act names).
Qed.
Lemma remove_quiet name d names : quiet_disk d ->
  (remove_root_file name (StoreRoot d names)).2 = StoreRoot d (names ∖ {[name]}).
Proof.
  intros Hq. unfold remove_root_file. rewrite (root_call_quiet _ _ _ _ Hq).
  case_decide; simpl; [done|]. f_equal. set_solver.
Qed.
Lemma fsync_quiet d names : quiet_disk d ->
  on_disk (io fsync) (StoreRoot d names) = (Ok tt, StoreRoot d names).
Proof.
  intros [Ha Ho]. unfold on_disk, io, map_err_m, fsync, query, atomic, syscall. simpl. by rewrite Ha, Ho.
Qed.
Lemma probe_quiet supported d names : quiet_disk d ->
  let probe := probe_name (pid d) (sequence d) in
  probe_symlinks supported (StoreRoot d names) =
  (Ok supported, StoreRoot (fetch_add d) (names ∖ {[probe]})).
Proof.
  intros Hq probe. unfold probe_symlinks. cbn [sr_disk]. fold probe.
  assert (quiet_disk (fetch_add d)) as Hq' by exact Hq.
  rewrite (bind_Ok _ _ _ tt (StoreRoot (fetch_add d) names)) by done.
  rewrite (bind_Ok _ _ _ tt (StoreRoot (fetch_add d) (names ∖ {[probe]})))
    by (unfold ignore; by rewrite (remove_quiet _ _ _ Hq')).
  unfold create_root_symlink. unfold bind at 1. rewrite (root_call_quiet _ _ _ _ Hq').
  rewrite decide_False by set_solver. destruct supported; simpl;
    unfold bind, ignore; rewrite (remove_quiet _ _ _ Hq'); unfold ret; do 2 f_equal; set_solver.
Qed.

(** Where nothing fails it opens, the probe is gone, and links are used exactly
    where the file system has them. *)
Theorem store_open_ok supported d names :
  quiet_disk d ->
  store_open supported (StoreRoot d names) =
  (Ok (ObjectStore supported),
   StoreRoot (fetch_add d)
     (({[bstr "tmp"]} ∪ ({[bstr "objects"]} ∪ names)) ∖ {[probe_name (pid d) (sequence d)]})).
Proof.
  intros Hq. unfold store_open, create_root_dir, map_err_m. unfold bind at 1.
  rewrite (root_call_quiet _ _ _ _ Hq). simpl. unfold bind at 1. rewrite (root_call_quiet _ _ _ _ Hq). simpl.
  do 4 (unfold bind at 1; rewrite (fsync_quiet _ _ Hq)). unfold bind.
  by rewrite (probe_quiet _ _ _ Hq).
Qed.

(** ** Opening the database *)

(** The statements [WorkspaceStore::open] runs. *)
Definition SCHEMA : list byte := bstr "CREATE TABLE IF NOT EXISTS workspaces (
                 id INTEGER PRIMARY KEY,
                 name TEXT NOT NULL UNIQUE,
                 head_generation INTEGER NOT NULL,
                 root_inode INTEGER NOT NULL
             );
             CREATE TABLE IF NOT EXISTS inodes (
                 id INTEGER PRIMARY KEY,
                 workspace_id INTEGER NOT NULL
                     REFERENCES workspaces(id) ON DELETE CASCADE,
                 kind INTEGER NOT NULL,
                 executable INTEGER NOT NULL DEFAULT 0,
                 planner INTEGER,
                 -- The layout contract the last seal identified, `name@version`.
                 -- NULL is contract:none: the plain per-tensor grid.
                 contract TEXT,
                 symlink_target TEXT
             );
             CREATE TABLE IF NOT EXISTS dirents (
                 parent_inode INTEGER NOT NULL REFERENCES inodes(id) ON DELETE CASCADE,
                 name TEXT NOT NULL,
                 child_inode INTEGER NOT NULL REFERENCES inodes(id),
                 PRIMARY KEY (parent_inode, name)
             );
             CREATE TABLE IF NOT EXISTS object_maps (
                 inode INTEGER NOT NULL REFERENCES inodes(id) ON DELETE CASCADE,
                 ordinal INTEGER NOT NULL,
                 hole INTEGER NOT NULL,
                 digest BLOB,
                 length INTEGER NOT NULL,
                 PRIMARY KEY (inode, ordinal)
             );
             -- The roots index. Manifest BYTES live in the object store at
             -- their own id (a TFM1 id is the SHA-256 of its bytes), so this
             -- row is a root and a generation stamp, never a second copy.
             CREATE TABLE IF NOT EXISTS snapshots (
                 id BLOB PRIMARY KEY,
                 sealed_generation INTEGER NOT NULL
             );
             CREATE TABLE IF NOT EXISTS leases (
                 id INTEGER PRIMARY KEY,
                 kind INTEGER NOT NULL,
                 holder TEXT NOT NULL,
                 workspace_id INTEGER REFERENCES workspaces(id) ON DELETE CASCADE,
                 inode INTEGER REFERENCES inodes(id)
             );
             CREATE TABLE IF NOT EXISTS lease_objects (
                 lease INTEGER NOT NULL REFERENCES leases(id) ON DELETE CASCADE,
                 digest BLOB NOT NULL,
                 PRIMARY KEY (lease, digest)
             );
             CREATE TABLE IF NOT EXISTS gc_state (
                 id INTEGER PRIMARY KEY CHECK (id = 1),
                 epoch INTEGER NOT NULL
             );
             CREATE TABLE IF NOT EXISTS gc_quarantine (
                 digest BLOB PRIMARY KEY,
                 epoch INTEGER NOT NULL
             );
             INSERT OR IGNORE INTO gc_state (id, epoch) VALUES (1, 0);".

Section opening.
Context `{Turso}.

(** The root directory, the disk and the engine. *)
Record opening : Type := Opening { o_root : store_root; o_turso : turso }.

Definition on_root {E A} (m : M store_root E A) : M opening E A := fun s =>
  let (r, root) := m (o_root s) in (r, Opening root (o_turso s)).
Definition on_facade {E A} (m : M facade E A) : M opening E A := fun s =>
  let (r, f) := m (Facade (sr_disk (o_root s)) (o_turso s)) in
  (r, Opening (StoreRoot (f_disk f) (sr_names (o_root s))) (f_turso f)).
Definition db_call {A} (m : M facade db_error A) : M opening workspace_error A := on_facade (from_db m).

(** [struct WorkspaceStore]; [None] seams. *)
Record workspace_store : Type := WorkspaceStore {
  ws_store : object_store;
  ws_connection : connection
}.
(** [supports_multiprocess]. *)
Definition supports_multiprocess (w : workspace_store) : bool := c_multiprocess (ws_connection w).

(** [root.join("metadata.sqlite3")]. *)
Definition metadata_path (root : list byte) : list byte :=
  match last root with
  | None => bstr "metadata.sqlite3"
  | Some b => if decide (b = slash) then root ++ bstr "metadata.sqlite3" else root ++ bstr "/metadata.sqlite3"
  end.

(** [WorkspaceStore::open], on a file system with symbolic links or without. *)
Definition workspace_open (root : list byte) (links : bool) : M opening workspace_error workspace_store :=
  let<- store := on_root (map_err_m WE_Store (store_open links)) in
  let<- connection := db_call (connection_open (metadata_path root)) in
  db_call (pragma_update (bstr "journal_mode") (bstr "WAL"));;;
  db_call (pragma_update (bstr "synchronous") (bstr "FULL"));;;
  db_call (pragma_update (bstr "foreign_keys") (bstr "ON"));;;
  db_call (busy_timeout 30);;;
  db_call (execute_batch SCHEMA);;;
  ret (WorkspaceStore store connection).
End opening.

(** What the engine is documented to do with files.  [stored] gives the tables at
    a path, [None] where the schema is not there; [target] is the file a
    connection is open on.  [IF NOT EXISTS] and [OR IGNORE] leave what is there. *)
Class Opens `{Transactional} : Type := {
  stored : turso -> list byte -> option db;
  target : turso -> list byte;
  setting : turso -> list byte -> option (list byte);
  database_path : database -> list byte;
  stored_committed s d : stored s (target s) = Some d -> committed s = d;
  build_law mode path s r s' : finishes (t_build mode path) s r s' ->
    stored s' = stored s /\ match r with Ok d => database_path d = path | Err _ => True end;
  connect_law d s r s' : t_connect d s = (r, s') ->
    stored s' = stored s /\
    match r with Ok _ => target s' = database_path d /\ in_tx s' = false | Err _ => True end;
  pragma_law name value s r s' : finishes (t_pragma_update name value) s r s' ->
    stored s' = stored s /\
    match r with
    | Ok _ =>
        target s' = target s /\ in_tx s' = in_tx s /\ setting s' name = Some value /\
        forall other, other <> name -> setting s' other = setting s other
    | Err _ => True
    end;
  timeout_law duration s r s' : t_busy_timeout duration s = (r, s') ->
    stored s' = stored s /\ target s' = target s /\ in_tx s' = in_tx s /\ setting s' = setting s;
  schema_law s r s' : finishes (t_execute_batch SCHEMA) s r s' -> in_tx s = false ->
    target s' = target s /\ in_tx s' = false /\ setting s' = setting s /\
    (forall path d, stored s path = Some d -> stored s' path = Some d) /\
    match r with
    | Ok _ => stored s' (target s) = Some (default fresh_db (stored s (target s)))
    | Err _ => True
    end
}.

Section opening_facts.
Context `{Opens}.

(** Rules for the calls, on the engine's state alone. *)
Lemma t_engine_call {A} (f : future turso (result turso_error A)) (P : turso -> Prop) (Q : A -> turso -> Prop)
    (R : turso -> Prop) :
  (forall t, P t -> R t) ->
  (forall t r t', P t -> finishes f t r t' -> match r with Ok a => Q a t' | Err _ => R t' end) ->
  triple (fun s => P (f_turso s)) (call f) (fun a s => Q a (f_turso s)) (fun _ s => R (f_turso s)).
Proof.
  intros HR HQ s Hs. destruct (engine_call_cases f s) as [[_ ->]|(_ & r & t & Hf & ->)]; [auto|].
  specialize (HQ _ _ _ Hs Hf). by destruct r.
Qed.
Lemma t_direct {A} (f : turso -> result turso_error A * turso) (P : turso -> Prop)
    (Q : A -> turso -> Prop) (R : turso -> Prop) :
  (forall t, P t -> R t) ->
  (forall t r t', P t -> f t = (r, t') -> match r with Ok a => Q a t' | Err _ => R t' end) ->
  triple (fun s => P (f_turso s)) (direct f) (fun a s => Q a (f_turso s)) (fun _ s => R (f_turso s)).
Proof.
  intros HR HQ s Hs. unfold direct. destruct (alive (f_disk s)); simpl; [|auto].
  destruct (f (f_turso s)) as [r t] eqn:Ef. specialize (HQ _ _ _ Hs Ef). by destruct r.
Qed.
Lemma t_db_call {A} (m : M facade db_error A) (P : turso -> Prop) (Q : A -> turso -> Prop) (R : turso -> Prop) :
  triple (fun s => P (f_turso s)) m (fun a s => Q a (f_turso s)) (fun _ s => R (f_turso s)) ->
  triple (fun s => P (o_turso s)) (db_call m) (fun a s => Q a (o_turso s)) (fun _ s => R (o_turso s)).
Proof.
  intros Hm s Hs. unfold db_call, on_facade, from_db, map_err_m.
  specialize (Hm (Facade (sr_disk (o_root s)) (o_turso s)) Hs). by destruct (m _) as [[a|e] f].
Qed.

(** The single-process mode is entered only on the engine's refusal of the other. *)
Definition refused_multiprocess (path : list byte) : Prop :=
  exists t e t', finishes (t_build true path) t (Err e) t' /\ is_multiprocess_unsupported e = true.

Lemma t_connection_open path (files : list byte -> option db) :
  triple (fun s => stored (f_turso s) = files) (connection_open path)
    (fun c s => stored (f_turso s) = files /\ target (f_turso s) = to_string_lossy path /\
       in_tx (f_turso s) = false /\
       (c_multiprocess c = false -> refused_multiprocess (to_string_lossy path)))
    (fun _ s => stored (f_turso s) = files).
Proof.
  unfold connection_open. set (p := to_string_lossy path).
  eapply t_bind with (Q' := fun o s => stored (f_turso s) = files /\ database_path o.1 = p /\
    (o.2 = false -> refused_multiprocess p)).
  - intros s Hs. destruct (engine_call_cases (t_build true p) s) as [[_ ->]|(Ha & r & t & Hf & ->)]; [done|].
    pose proof (build_law _ _ _ _ _ Hf) as [Hst Hr]. rewrite Hs in Hst. destruct r as [d|e]; simpl; [done|].
    destruct (is_multiprocess_unsupported e) eqn:Ee; [|done]. unfold bind.
    destruct (engine_call_cases (t_build false p) (Facade (f_disk s) t)) as [[_ ->]|(_ & r & t2 & Hf2 & ->)]; [done|].
    pose proof (build_law _ _ _ _ _ Hf2) as [Hst2 Hr2]. simpl in Hst2.
    destruct r as [d|e2]; simpl; [|congruence]. split_and!; [congruence|done|]. intros _. by exists (f_turso s), e, t.
  - intros o. eapply t_bind with (Q' := fun _ s => stored (f_turso s) = files /\ target (f_turso s) = p /\
      in_tx (f_turso s) = false /\ (o.2 = false -> refused_multiprocess p)); [|intros []; by apply t_ret].
    apply (t_direct _ (fun t => stored t = files /\ database_path o.1 = p /\ (o.2 = false -> refused_multiprocess p))
      (fun _ t => stored t = files /\ target t = p /\ in_tx t = false /\ (o.2 = false -> refused_multiprocess p))
      (fun t => stored t = files)); [tauto|].
    intros t r t' (Hst & Hp & Hm) Hc%connect_law. destruct Hc as [Hc Hr].
    destruct r; [|congruence]. destruct Hr as [Ht Hi]. split_and!; congruence || done.
Qed.

(** The state between the connection and the schema. *)
Definition opened_on (path : list byte) (files : list byte -> option db)
    (settings : list (list byte * list byte)) (t : turso) : Prop :=
  stored t = files /\ target t = path /\ in_tx t = false /\
  Forall (fun s => setting t s.1 = Some s.2) settings.

Lemma t_pragma path files settings name value :
  Forall (fun s => s.1 <> name) settings ->
  triple (fun s => opened_on path files settings (f_turso s)) (pragma_update name value)
    (fun _ s => opened_on path files ((name, value) :: settings) (f_turso s))
    (fun _ s => stored (f_turso s) = files).
Proof.
  intros Hne. apply (t_engine_call _ (opened_on path files settings) (fun _ => opened_on path files ((name, value) :: settings))
    (fun t => stored t = files)); [by intros t (? & _)|].
  intros t r t' (Hst & Htg & Hin & Hset) Hf%pragma_law. destruct Hf as [Hst' Hr].
  destruct r; [|congruence]. destruct Hr as (Htg' & Hin' & Hnew & Hold). unfold opened_on.
  split_and!; [congruence..|]. constructor; [done|]. rewrite Forall_forall in *. intros x Hx.
  rewrite (Hold _ (Hne x Hx)). by apply Hset.
Qed.

Lemma t_timeout path files settings duration :
  triple (fun s => opened_on path files settings (f_turso s)) (busy_timeout duration)
    (fun _ s => opened_on path files settings (f_turso s)) (fun _ s => stored (f_turso s) = files).
Proof.
  apply (t_direct _ (opened_on path files settings) (fun _ => opened_on path files settings)
    (fun t => stored t = files)); [by intros t (? & _)|].
  intros t r t' (Hst & Htg & Hin & Hset) (Hst' & Htg' & Hin' & Hset')%timeout_law.
  destruct r; [|congruence]. unfold opened_on. rewrite Hset'. split_and!; congruence || done.
Qed.

Definition SETTINGS : list (list byte * list byte) :=
  [(bstr "foreign_keys", bstr "ON"); (bstr "synchronous", bstr "FULL"); (bstr "journal_mode", bstr "WAL")].

(** Tables that are there are kept. *)
Definition kept (files : list byte -> option db) (t : turso) : Prop :=
  forall path d, files path = Some d -> stored t path = Some d.

(** A call from a state that keeps the files, whose failure keeps the tables. *)
Lemma t_kept {A} files (m : M facade db_error A) (P : turso -> Prop) (Q : A -> turso -> Prop) :
  triple (fun s => P (f_turso s)) m (fun a s => Q a (f_turso s)) (fun _ s => stored (f_turso s) = files) ->
  triple (fun s => P (o_turso s)) (db_call m) (fun a s => Q a (o_turso s)) (fun _ s => kept files (o_turso s)).
Proof.
  intros Hm. eapply t_conseq; [exact (t_db_call m P Q (fun t => stored t = files) Hm)|done|done|].
  intros e s Hs p d. by rewrite Hs.
Qed.

(** The schema's statements. *)
Lemma t_schema path files settings :
  triple (fun s => opened_on path files settings (o_turso s)) (db_call (execute_batch SCHEMA))
    (fun _ s => kept files (o_turso s) /\ committed (o_turso s) = default fresh_db (files path) /\
       in_tx (o_turso s) = false /\ Forall (fun p => setting (o_turso s) p.1 = Some p.2) settings)
    (fun _ s => kept files (o_turso s)).
Proof.
  apply (t_db_call _ (opened_on path files settings) (fun _ t => kept files t /\
    committed t = default fresh_db (files path) /\ in_tx t = false /\
    Forall (fun p => setting t p.1 = Some p.2) settings) (kept files)).
  apply (t_engine_call _ (opened_on path files settings) (fun _ t => kept files t /\
    committed t = default fresh_db (files path) /\ in_tx t = false /\
    Forall (fun p => setting t p.1 = Some p.2) settings) (kept files)); [intros t (Hst & _) p d; by rewrite Hst|].
  intros t r t' (Hst & Htg & Hin & Hset) Hf.
  destruct (schema_law _ _ _ Hf Hin) as (Htg' & Hin' & Hset' & Hk & Hr).
  assert (kept files t') as Hkept by (intros p d Hd; apply Hk; by rewrite Hst).
  destruct r; [|done]. rewrite Htg, Hst in Hr. split_and!; [done| |done|by rewrite Hset'].
  apply stored_committed. by rewrite Htg', Htg.
Qed.

Lemma o_pragma path files settings name value :
  Forall (fun s => s.1 <> name) settings ->
  triple (fun s => opened_on path files settings (o_turso s)) (db_call (pragma_update name value))
    (fun _ s => opened_on path files ((name, value) :: settings) (o_turso s)) (fun _ s => kept files (o_turso s)).
Proof.
  intros Hne. apply (t_kept files _ (opened_on path files settings)
    (fun _ => opened_on path files ((name, value) :: settings))). by apply t_pragma.
Qed.
Lemma o_timeout path files settings duration :
  triple (fun s => opened_on path files settings (o_turso s)) (db_call (busy_timeout duration))
    (fun _ s => opened_on path files settings (o_turso s)) (fun _ s => kept files (o_turso s)).
Proof.
  apply (t_kept files _ (opened_on path files settings) (fun _ => opened_on path files settings)), t_timeout.
Qed.
Lemma t_setup path files :
  triple (fun s => opened_on path files [] (o_turso s))
    (db_call (pragma_update (bstr "journal_mode") (bstr "WAL"));;;
     db_call (pragma_update (bstr "synchronous") (bstr "FULL"));;;
     db_call (pragma_update (bstr "foreign_keys") (bstr "ON"));;;
     db_call (busy_timeout 30);;;
     db_call (execute_batch SCHEMA))
    (fun _ s => kept files (o_turso s) /\ committed (o_turso s) = default fresh_db (files path) /\
       in_tx (o_turso s) = false /\ Forall (fun p => setting (o_turso s) p.1 = Some p.2) SETTINGS)
    (fun _ s => kept files (o_turso s)).
Proof.
  eapply t_bind; [apply o_pragma, Forall_nil_2|intros []].
  eapply t_bind; [by apply o_pragma, Forall_singleton|intros []].
  eapply t_bind; [apply o_pragma, Forall_cons_2; [done|by apply Forall_singleton]|intros []].
  eapply t_bind; [apply o_timeout|intros []].
  apply t_schema.
Qed.

(** The engine's calls leave the store alone. *)
Definition keeps_root {A} (m : M opening workspace_error A) : Prop := forall s, o_root (m s).2 = o_root s.
Definition keeps_disk {A} (m : M facade db_error A) : Prop := forall s, f_disk (m s).2 = f_disk s.

Lemma k_call {A} (f : future turso (result turso_error A)) : keeps_disk (call f).
Proof. intros s. by destruct (engine_call_cases f s) as [[_ ->]|(_ & r & t & _ & ->)]. Qed.
Lemma k_direct {A} (f : turso -> result turso_error A * turso) : keeps_disk (direct f).
Proof. intros s. unfold direct. destruct (negb _); [done|]. by destruct (f (f_turso s)). Qed.
Lemma k_bind {A B} (m : M facade db_error A) (k : A -> M facade db_error B) :
  keeps_disk m -> (forall a, keeps_disk (k a)) -> keeps_disk (bind m k).
Proof.
  intros Hm Hk s. unfold bind. specialize (Hm s). destruct (m s) as [[a|e] s1]; [|done].
  simpl in Hm. by rewrite Hk.
Qed.
Lemma k_connection_open path : keeps_disk (connection_open path).
Proof.
  unfold connection_open. apply k_bind; [|intros o; apply k_bind; [apply k_direct|done]].
  intros s. pose proof (k_call (t_build true (to_string_lossy path)) s) as H2.
  destruct (call _ s) as [[d|[e| |]] s1]; [done| |done..].
  destruct (is_multiprocess_unsupported e); [|done]. simpl in H2. rewrite <- H2.
  apply k_bind; [apply k_call|done].
Qed.
Lemma k_db_call {A} (m : M facade db_error A) : keeps_disk m -> keeps_root (db_call m).
Proof.
  intros Hm s. unfold db_call, on_facade, from_db, map_err_m.
  specialize (Hm (Facade (sr_disk (o_root s)) (o_turso s))). destruct (m _) as [r f]. simpl in *.
  rewrite Hm. by destruct s as [[d n] t].
Qed.
Lemma k_then {A B} (m : M opening workspace_error A) (k : A -> M opening workspace_error B) :
  keeps_root m -> (forall a, keeps_root (k a)) -> keeps_root (bind m k).
Proof.
  intros Hm Hk s. unfold bind. specialize (Hm s). destruct (m s) as [[a|e] s1]; [|done].
  simpl in Hm. by rewrite Hk.
Qed.

Lemma workspace_open_root root links s :
  o_root (workspace_open root links s).2 = (store_open links (o_root s)).2.
Proof.
  unfold workspace_open. unfold bind at 1, on_root, map_err_m.
  destruct (store_open links (o_root s)) as [[store|e] root']; simpl; [|done].
  repeat (apply k_then; [apply k_db_call; first [apply k_connection_open|apply k_call|apply k_direct]|intros ?]).
  by intros s1.
Qed.

(** What a store that opened is. *)
Definition opened_well (path : list byte) (files : list byte -> option db) (w : workspace_store)
    (t : turso) : Prop :=
  committed t = default fresh_db (files path) /\ in_tx t = false /\
  Forall (fun p => setting t p.1 = Some p.2) SETTINGS /\
  (supports_multiprocess w = false -> refused_multiprocess path).

Lemma workspace_open_tables root links s :
  let path := to_string_lossy (metadata_path root) in
  let (r, s') := workspace_open root links s in
  kept (stored (o_turso s)) (o_turso s') /\
  match r with Ok w => opened_well path (stored (o_turso s)) w (o_turso s') | Err _ => True end.
Proof.
  intros path. unfold workspace_open. unfold bind at 1, on_root.
  destruct (map_err_m WE_Store (store_open links) (o_root s)) as [[store|e] root'];
    [|split; [by intros p d|done]].
  pose proof (t_kept (stored (o_turso s)) _ (fun t => stored t = stored (o_turso s))
    (fun c t => stored t = stored (o_turso s) /\ target t = path /\ in_tx t = false /\
       (c_multiprocess c = false -> refused_multiprocess path))
    (t_connection_open (metadata_path root) (stored (o_turso s))) (Opening root' (o_turso s)) eq_refl) as Hc.
  unfold bind at 1. destruct (db_call (connection_open (metadata_path root)) _) as [[c|e] s1]; [|by split].
  destruct Hc as (Hst & Htg & Hin & Hm).
  pose proof (t_setup path (stored (o_turso s)) s1 (conj Hst (conj Htg (conj Hin (Forall_nil_2 _))))) as Hs.
  revert Hs. unfold bind, ret.
  repeat match goal with |- context [db_call ?m ?s2] => destruct (db_call m s2) as [[[]|?] ?] end;
    intros Hs; try (by split).
  destruct Hs as (? & ? & ? & ?). by split_and!.
Qed.

(** Opening a workspace store, whatever fails and wherever the process dies,
    leaves the objects, the bytes of the temporaries and every table as they
    were.  Where it succeeds the tables are those of the file at the path the
    engine was given, or fresh ones where it had none, outside a transaction and
    with foreign keys, on which the cascades rely, enforced; and the store is
    single-process only where the engine refused the other mode as unsupported. *)
Theorem workspace_open_outcome root links s :
  let path := to_string_lossy (metadata_path root) in
  let (r, s') := workspace_open root links s in
  root_grown (opening_names (sr_disk (o_root s))) (o_root s) (o_root s') /\
  kept (stored (o_turso s)) (o_turso s') /\
  match r with Ok w => opened_well path (stored (o_turso s)) w (o_turso s') | Err _ => True end.
Proof.
  intros path. pose proof (store_open_keeps links (o_root s)) as Hg.
  rewrite <- (workspace_open_root root links s) in Hg.
  pose proof (workspace_open_tables root links s) as Ht. simpl in Ht. fold path in Ht.
  by destruct (workspace_open root links s) as [r s'].
Qed.
End opening_facts.

(** A path that is UTF-8 is given to the engine as it is; one that is not is
    given as another, which roots that differ can share. *)
Lemma lossy_utf8 path : from_utf8 path = U_Ok -> to_string_lossy path = path.
Proof. intros Hp. unfold to_string_lossy. simpl. by rewrite Hp. Qed.
Example lossy_roots_share_tables :
  let one := bstr "/models/" ++ [Byte.xfe] in
  let other := bstr "/models/" ++ [Byte.xff] in
  one <> other /\
  to_string_lossy (metadata_path one) = to_string_lossy (metadata_path other).
Proof. split; [done|vm_compute; reflexivity]. Qed.

(** ** An engine *)

(** A future that is pending a number of times. *)
Definition delayed {S A} (polls : nat) (act : S -> A * S) : future S A.
Proof.
  refine (Future S A nat polls (fun l s =>
    match l with
    | O => let (a, s') := act s in (Ready a, false, O, s')
    | Datatypes.S l => (Pending, true, l, s)
    end) (fun l _ => l) _).
  intros [|l] s l' s' wakes; [by destruct (act s)|]. intros [= <- <- <-]. split; [done|lia].
Defined.
Lemma delayed_finishes {S A} polls (act : S -> A * S) s a s' :
  finishes (delayed polls act) s a s' -> act s = (a, s').
Proof.
  unfold finishes, block_on. simpl f_start. simpl f_pending.
  assert (forall fuel token, block_loop fuel (delayed polls act) token polls s = Some (a, s') -> act s = (a, s')) as Hl;
    [|apply Hl].
  generalize polls at 2 as l. intros l fuel. revert l.
  induction fuel as [|fuel IH]; intros l token; simpl; [done|].
  destruct l as [|l]; [destruct (act s); congruence|]. rewrite orb_true_r. apply IH.
Qed.

(** Files in memory, one open transaction, and two statements of [workspace.rs]. *)
Record toy : Type := Toy {
  ty_files : gmap (list byte) db; ty_target : list byte; ty_tx : option db;
  ty_settings : gmap (list byte) (list byte)
}.
Definition toy_committed (t : toy) : db := default fresh_db (ty_files t !! ty_target t).
Definition toy_current (t : toy) : db := default (toy_committed t) (ty_tx t).
Definition toy_set (d : db) (t : toy) : toy :=
  match ty_tx t with
  | Some _ => Toy (ty_files t) (ty_target t) (Some d) (ty_settings t)
  | None => Toy (<[ty_target t := d]> (ty_files t)) (ty_target t) None (ty_settings t)
  end.
Definition DELETE_QUARANTINE : list byte := bstr "DELETE FROM gc_quarantine WHERE digest = ?1".
Definition SELECT_EPOCH : list byte := bstr "SELECT epoch FROM gc_state WHERE id = 1".
Definition toy_sql (text : list byte) (values : list value) (d : db) : result unit (db * Z) :=
  if decide (text = DELETE_QUARANTINE) then
    match values with
    | [VBlob digest] =>
        Ok (with_gc (gc_epoch d) (delete digest) d, if decide (is_Some (gc_quarantine d !! digest)) then 1 else 0)
    | _ => Err tt
    end
  else Err tt.
Definition toy_select (text : list byte) (values : list value) (d : db) : list value :=
  if decide (text = SELECT_EPOCH) then [VInteger (gc_epoch d)] else [].

Definition toy_execute (text : list byte) (values : list value) (t : toy) : result (list byte) Z * toy :=
  if decide (text = BEGIN_IMMEDIATE) then
    match ty_tx t with
    | Some _ => (Err (bstr "cannot start a transaction within a transaction"), t)
    | None => (Ok 0, Toy (ty_files t) (ty_target t) (Some (toy_committed t)) (ty_settings t))
    end
  else if decide (text = COMMIT) then
    match ty_tx t with
    | None => (Err (bstr "cannot commit - no transaction is active"), t)
    | Some d => (Ok 0, Toy (<[ty_target t := d]> (ty_files t)) (ty_target t) None (ty_settings t))
    end
  else
    match toy_sql text values (toy_current t) with
    | Ok (d, count) => (Ok count, toy_set d t)
    | Err _ => (Err (bstr "constraint failed"), t)
    end.
Definition toy_batch (text : list byte) (t : toy) : result (list byte) unit * toy :=
  if decide (text = ROLLBACK) then
    match ty_tx t with
    | None => (Err (bstr "cannot rollback - no transaction is active"), t)
    | Some _ => (Ok tt, Toy (ty_files t) (ty_target t) None (ty_settings t))
    end
  else
    (Ok tt, Toy (<[ty_target t := toy_committed t]> (ty_files t)) (ty_target t) (ty_tx t) (ty_settings t)).

(** [multi] says whether the shared mode is supported where it runs. *)
Definition toy_turso (multi : bool) : Turso := {|
  turso := toy;
  turso_error := list byte;
  error_text e := e;
  database := list byte;
  statement := unit;
  rows_handle := list value;
  row_handle := value;
  t_build mode path := delayed 2 (fun t =>
    if mode && negb multi then (Err (bstr "multiprocess WAL is not supported on this filesystem"), t)
    else (Ok path, t));
  t_connect path t := (Ok tt, Toy (ty_files t) path None (ty_settings t));
  t_pragma_update name value := delayed 1 (fun t =>
    (Ok tt, Toy (ty_files t) (ty_target t) (ty_tx t) (<[name := value]> (ty_settings t))));
  t_busy_timeout _ t := (Ok tt, t);
  t_execute_batch text := delayed 3 (toy_batch text);
  t_execute text values := delayed 1 (toy_execute text values);
  t_query text values := delayed 0 (fun t => (Ok (toy_select text values (toy_current t)), t));
  t_prepare _ := delayed 0 (fun t => (Ok tt, t));
  t_statement_query _ _ := delayed 0 (fun t => (Ok [], t));
  t_next rows := delayed 1 (fun t =>
    (Ok (match rows with [] => (None, []) | row :: rest => (Some row, rest) end), t));
  t_row_get row index := if index =? 0 then Ok row else Err (bstr "invalid column index");
  t_last_insert_rowid _ := 0
|}.

Definition toy_transactional (multi : bool) : Transactional (H := toy_turso multi).
Proof.
  refine (Build_Transactional (toy_turso multi) toy_committed toy_current
    (fun t : toy => bool_decide (is_Some (ty_tx t))) toy_sql toy_select (fun rows => rows) _ _ _ _ _ _ _).
  - intros t Ht%bool_decide_eq_false. unfold toy_current. destruct (ty_tx t); [by destruct Ht|done].
  - intros t r t' Hf%delayed_finishes. revert Hf. unfold toy_execute. rewrite decide_True by done.
    destruct t as [files tg [d|] st]; intros [= <- <-]; split_and!; done.
  - intros t r t' Hf%delayed_finishes. revert Hf. unfold toy_execute. rewrite decide_False by done.
    rewrite decide_True by done. destruct t as [files tg [d|] st]; intros [= <- <-]; [|done].
    split_and!; [done..|]. unfold toy_committed, toy_current. simpl. by rewrite lookup_insert_eq.
  - intros t r t' Hf%delayed_finishes. revert Hf. unfold toy_batch. rewrite decide_True by done.
    destruct t as [files tg [d|] st]; intros [= <- <-]; by split.
  - intros text values t r t' Hc Hf%delayed_finishes. revert Hf. unfold toy_execute.
    rewrite decide_False by (intros ->; apply Hc; by left).
    rewrite decide_False by (intros ->; apply Hc; by right; left).
    destruct (toy_sql text values (toy_current t)) as [[d n]|] eqn:Es; intros [= <- <-]; [|by split; [|left]].
    unfold toy_set. destruct t as [files tg [d0|] st]; split_and!; try done.
    unfold toy_current, toy_committed in *. simpl in *. rewrite lookup_insert_eq. done.
  - intros text values t r t' Hf%delayed_finishes. by injection Hf as <- <-.
  - intros rows t r t' Hf%delayed_finishes. injection Hf as <- <-. by destruct rows.
Defined.

Definition toy_opens (multi : bool) : @Opens (toy_turso multi) (toy_transactional multi).
Proof.
  refine (@Build_Opens (toy_turso multi) (toy_transactional multi) (fun t path => ty_files t !! path) ty_target
    (fun t name => ty_settings t !! name) (fun path => path) _ _ _ _ _ _).
  - intros t d Hd. simpl. unfold toy_committed. by rewrite Hd.
  - intros mode path t r t' Hf%delayed_finishes. revert Hf. destruct (mode && negb multi); by intros [= <- <-].
  - intros d t r t' [= <- <-]. done.
  - intros name value t r t' Hf%delayed_finishes. injection Hf as <- <-. simpl. split_and!; try done.
    + by rewrite lookup_insert_eq.
    + intros other Hne. by rewrite lookup_insert_ne.
  - intros duration t r t' [= <- <-]. done.
  - intros t r t' Hf%delayed_finishes Hin. revert Hf. unfold toy_batch. rewrite decide_False by discriminate.
    intros [= <- <-]. simpl in *. split_and!; try done.
    + intros path d Hd. destruct (decide (path = ty_target t)) as [->|Hne].
      * unfold toy_committed. by rewrite lookup_insert_eq, Hd.
      * by rewrite lookup_insert_ne.
    + by rewrite lookup_insert_eq.
Defined.

(** ** Runs *)

Section runs.
#[local] Existing Instance toy_transactional.
#[local] Existing Instance toy_turso.

Definition quarantined_db : db := with_gc 3 (<[bstr "x" := 1]>) fresh_db.
Definition run_state : facade (H := toy_turso true) :=
  Facade (H := toy_turso true) (Disk ∅ ∅ [] true 1 0 0 1)
    (Toy {[bstr "m" := quarantined_db]} (bstr "m") None ∅).
Definition delete_row : M (facade (H := toy_turso true)) workspace_error unit :=
  from_db (execute (H := toy_turso true) DELETE_QUARANTINE [PBlob (bstr "x")]);;; ret tt.

(** The row that [collect] deletes is gone from what is committed, and the
    transaction is closed. *)
Example delete_row_runs :
  let (r, s') := transact (H := toy_turso true) delete_row run_state in
  r = Ok tt /\ gc_quarantine (toy_committed (f_turso s')) = ∅ /\ ty_tx (f_turso s') = None.
Proof. vm_compute. by split_and!. Qed.

Lemma transaction_refined_witness :
  let s := run_state in
  let body' := sql_write (statement_of (H0 := toy_transactional true) DELETE_QUARANTINE [PBlob (bstr "x")]) in
  (exists schedule,
    transaction body' (World (f_disk s) (toy_committed (f_turso s)) schedule) =
    ((transact (H := toy_turso true) delete_row s).1,
     World (f_disk (transact (H := toy_turso true) delete_row s).2)
       (toy_committed (f_turso (transact (H := toy_turso true) delete_row s).2)) [])) /\
  ty_tx (f_turso (transact (H := toy_turso true) delete_row s).2) = None.
Proof.
  intros s body'. split; [|vm_compute; reflexivity].
  refine (proj1 (transaction_refined (H0 := toy_transactional true) delete_row body' s _ _ _ eq_refl
    (surjective_pairing _))).
  apply (sim_execute (H0 := toy_transactional true) DELETE_QUARANTINE [PBlob (bstr "x")]).
  intros [Hc|[Hc|Hc]]; discriminate Hc.
Defined.

(** A store opens in the shared mode where the engine has it, in the other where
    it refuses it, and each opening finds the tables the last one left. *)
Definition opening_state (files : gmap (list byte) db) : @opening (toy_turso false) :=
  Opening (H := toy_turso false) (StoreRoot (Disk ∅ ∅ [] true 1 0 0 1) ∅) (Toy files [] None ∅).
Example single_process_opening :
  let (r, s') := workspace_open (H := toy_turso false) (bstr "/s") true
    (opening_state {[bstr "/s/metadata.sqlite3" := quarantined_db]}) in
  result_map supports_multiprocess r = Ok false /\ toy_committed (o_turso s') = quarantined_db.
Proof. vm_compute. by split. Qed.
End runs.
