(* ===== verification/StoreGuarantees.v ===== *)
(** What the local object store guarantees ([src/crates/tensorfs-core/src/store.rs]
    and [workspace_source.rs]): a put changes nothing but its own object whatever
    fails and succeeds where nothing does, the search for a temporary's name ends,
    reading a record run is slicing the file it denotes, and reclaiming never
    removes a temporary another process holds. *)

From S2P Require Import PlanFrame.
From S2P Require Export StoreFacts RecordMaps WorkspaceFacts.

(** ** Termination of the writer's loop *)

Lemma temp_name_inj (p s1 s2 n : Z) : in_u64 s1 -> in_u64 s2 -> temp_name p s1 n = temp_name p s2 n -> s1 = s2.
Proof.
  intros H1 H2. unfold temp_name. intros Hn%app_inv_head%app_inv_head%app_inv_head%app_inv_tail.
  pose proof (from_str_radix_to_dec U64 s1) as E1. pose proof (from_str_radix_to_dec U64 s2) as E2.
  unfold in_u64 in *. rewrite Hn in E1. specialize (E1 ltac:(lia) ltac:(done)). specialize (E2 ltac:(lia) ltac:(done)). congruence.
Qed.

(** The names the loop skipped: taken, distinct, and before the next one. *)
Definition skipped (start : Z) (tried : list Z) (d : disk) : Prop :=
  NoDup tried /\ Forall (fun s => start <= s < sequence d /\
    is_Some (temps d !! temp_name (pid d) s (nanos d))) tried.

Lemma skipped_bound start tried d :
  0 <= start -> sequence d < U64 -> skipped start tried d -> (length tried <= size (temps d))%nat.
Proof.
  intros Hs Hlt [Hnd Hf]. set (names := (fun s => temp_name (pid d) s (nanos d)) <$> tried).
  assert (NoDup names) as Hn.
  { apply NoDup_fmap_2_strong; [|done]. rewrite Forall_forall in Hf. intros x y Hx%Hf Hy%Hf.
    apply temp_name_inj; unfold in_u64; lia. }
  assert (names ⊆+ (map_to_list (temps d)).*1) as Hsub.
  { apply NoDup_submseteq; [done|]. intros name (s & -> & Hin)%list_elem_of_fmap.
    rewrite Forall_forall in Hf. destruct (Hf s Hin) as [_ [t Ht]].
    apply list_elem_of_fmap. exists (temp_name (pid d) s (nanos d), t). split; [done|]. by apply elem_of_map_to_list. }
  apply submseteq_length in Hsub. unfold names in Hsub. rewrite !length_fmap, length_map_to_list in Hsub. done.
Qed.

Lemma writer_loop_enough start tried fuel fuel' d :
  0 <= start -> skipped start tried d ->
  sequence d + Z.of_nat (S (length (outcomes d) + size (temps d) - length tried)) < U64 ->
  start <= sequence d ->
  (length (outcomes d) + size (temps d) - length tried < fuel)%nat ->
  (length (outcomes d) + size (temps d) - length tried < fuel')%nat ->
  writer_loop fuel d = writer_loop fuel' d.
Proof.
  revert tried fuel' d. induction fuel as [|fuel IH]; intros tried fuel' d Hst Hsk Hseq Hge Hf Hf'; [lia|].
  destruct fuel' as [|fuel']; [lia|]. cbn [writer_loop].
  set (path := temp_name (pid d) (sequence d) (nanos d)).
  assert (wadd (sequence d) 1 = sequence d + 1) as Hw by (apply wadd_small; lia).
  pose proof (skipped_bound start tried d Hst ltac:(lia) Hsk) as Hb.
  unfold create_new, atomic, syscall. cbn [alive fetch_add outcomes].
  destruct (alive d); [|done]. cbn [negb].
  assert (forall os, temps d !! path <> None -> (length os <= length (outcomes d))%nat ->
    writer_loop fuel (with_outcomes os (fetch_add d)) = writer_loop fuel' (with_outcomes os (fetch_add d))) as Htaken.
  { intros os Ht Hos.
    assert (skipped start (sequence d :: tried) (with_outcomes os (fetch_add d))) as Hsk'.
    { destruct Hsk as [Hnd Hall]. rewrite Forall_forall in Hall.
      split.
      - constructor; [|done]. intros Hin%Hall. lia.
      - apply Forall_forall. intros s [->|Hin]%elem_of_cons; cbn; rewrite Hw.
        + split; [lia|]. change (is_Some (temps d !! path)). destruct (temps d !! path); [by eexists|done].
        + destruct (Hall s Hin). split; [lia|done]. }
    pose proof (skipped_bound start (sequence d :: tried) (with_outcomes os (fetch_add d)) Hst ltac:(cbn; lia) Hsk') as Hb'.
    cbn in Hb'.
    apply (IH (sequence d :: tried)); cbn; [done|done|rewrite Hw; lia|rewrite Hw; lia|lia|lia]. }
  assert (forall os, (length os < length (outcomes d))%nat ->
    writer_loop fuel (with_outcomes os (fetch_add d)) = writer_loop fuel' (with_outcomes os (fetch_add d))) as Hfail.
  { intros os Hos. apply (IH tried); cbn; [done| |rewrite Hw; lia|rewrite Hw; lia|lia|lia].
    destruct Hsk as [Hnd Hall]. split; [done|]. eapply Forall_impl; [exact Hall|]. cbn. rewrite Hw. intros s [? ?].
    split; [lia|done]. }
  destruct (outcomes d) as [|[|e k|k] os] eqn:Eo; cbn [temps fetch_add with_outcomes].
  - destruct (temps d !! path) as [t|] eqn:Et; [|done]. rewrite decide_True by done.
    specialize (Htaken [] ltac:(done) ltac:(done)).
    assert (with_outcomes [] (fetch_add d) = fetch_add d) as Hx by (unfold with_outcomes, fetch_add; cbn; by rewrite <-Eo).
    by rewrite Hx in Htaken.
  - destruct (temps d !! path) as [t|] eqn:Et; [|done]. rewrite decide_True by done.
    apply Htaken; [done|simpl; lia].
  - case_decide; [|done]. apply Hfail. simpl. lia.
  - by rewrite decide_False.
Qed.

(** ** A store where nothing fails *)

(** On a quiet disk a call does what it means to. *)
Lemma syscall_quiet {A : Type} (act : disk -> result io_error A * disk) (partial : nat -> disk -> disk) d :
  quiet_disk d -> syscall act partial d = act d.
Proof. intros [Ha Ho]. unfold syscall. by rewrite Ha, Ho. Qed.
Lemma query_quiet {A : Type} (f : disk -> result io_error A) d : quiet_disk d -> query f d = (f d, d).
Proof. intros Hq. unfold query, atomic. by rewrite syscall_quiet. Qed.

(** [m] succeeds from every quiet state with [P], leaving one with [Q]. *)
Definition succeeds {E A : Type} (P : disk -> Prop) (m : M disk E A) (Q : A -> disk -> Prop) : Prop :=
  triple (fun d => quiet_disk d /\ P d) m (fun a d => quiet_disk d /\ Q a d) (fun _ _ => False).

Lemma ok_bind {E A B : Type} P (m : M disk E A) (k : A -> M disk E B) (Q' : A -> disk -> Prop) (Q : B -> disk -> Prop) :
  succeeds P m Q' -> (forall a, succeeds (Q' a) (k a) Q) -> succeeds P (bind m k) Q.
Proof. intros Hm Hk. eapply t_bind; [exact Hm|]. intros a. apply Hk. Qed.
Lemma ok_ret {E A : Type} (P : disk -> Prop) (a : A) : succeeds (E := E) P (ret a) (fun a' d => a' = a /\ P d).
Proof. by intros d [Hq Hd]. Qed.
Lemma ok_map_err {E F A : Type} (f : E -> F) P (m : M disk E A) Q : succeeds P m Q -> succeeds P (map_err_m f m) Q.
Proof. intros Hm d Hd. specialize (Hm d Hd). unfold map_err_m. by destruct (m d) as [[a|e] d']. Qed.
Lemma ok_query {A : Type} (P : disk -> Prop) (f : disk -> result io_error A) :
  (forall d, P d -> exists a, f d = Ok a) -> succeeds P (query f) (fun a d => P d /\ f d = Ok a).
Proof. intros Hf d [Hq Hd]. rewrite query_quiet by done. destruct (Hf d Hd) as [a Ha]. by rewrite Ha. Qed.
Lemma ok_mono {E A : Type} (P P' : disk -> Prop) (m : M disk E A) (Q Q' : A -> disk -> Prop) :
  (forall d, P' d -> P d) -> (forall a d, Q a d -> Q' a d) -> succeeds P m Q -> succeeds P' m Q'.
Proof. intros HP HQ Hm d [Hq Hd]. specialize (Hm d (conj Hq (HP d Hd))). destruct (m d) as [[a|e] d']; [|done]. naive_solver. Qed.

Lemma ok_open (digest bytes : list byte) (ro : bool) (P : disk -> Prop) :
  (forall d, P d -> objects d !! digest = Some (Regular bytes ro)) ->
  succeeds P (open_object digest) (fun b d => b = bytes /\ P d).
Proof.
  intros Ho d [Hq Hd]. unfold open_object. rewrite query_quiet by done. rewrite (Ho d Hd).
  unfold io, bind, map_err_m. rewrite query_quiet by done. by cbn.
Qed.

Section quiet.
Context `{Sha256}.

Lemma ok_verify (digest bytes : list byte) (ro : bool) (P : disk -> Prop) :
  (forall d, P d -> objects d !! digest = Some (Regular bytes ro)) -> sha256 bytes = digest -> zlen bytes < U64 ->
  succeeds P (verify digest) (fun _ => P).
Proof.
  intros Ho Hsha Hlen. pose proof (zlen_nonneg bytes). eapply ok_bind; [by eapply ok_open|]. intros b. cbn beta.
  eapply ok_mono with (P := fun d => b = bytes /\ P d) (Q := fun _ => P); [done|done|].
  intros d [Hq [-> Hd]]. revert d Hq Hd.
  enough (succeeds P (let<- st := while_chunks VERIFY_BUFFER_SIZE (verify_chunk bytes) (zlen bytes) (0, []) in
    io (query (fun _ => Ok tt));;; let actual := sha256 st.2 in
    if decide (actual = digest) then ret st.1 else fail (SE_CorruptObject digest actual)) (fun _ => P)) as Hs.
  { intros d Hq Hd. exact (Hs d (conj Hq Hd)). }
  eapply ok_bind with (Q' := fun st d => P d /\ st = (zlen bytes, slice bytes 0 (zlen bytes))).
  - eapply t_conseq; [apply (t_chunks _ _ (zlen bytes) _
      (fun k st d => quiet_disk d /\ P d /\ st = (k, slice bytes 0 k)) (fun _ _ => False)); [done|lia|]| |by intros a s Hs|done].
    + intros k [l h] chunk Hk Hc Hle _ d (Hq & Hd & [= -> ->]). unfold verify_chunk, bind, io, map_err_m.
      rewrite query_quiet by done. cbn. rewrite wadd_small by lia. split; [done|]. split; [done|]. f_equal.
      apply slice_join; lia.
    + intros d [Hq Hd]. by rewrite slice_nil.
  - intros st d (Hq & Hd & ->). unfold bind, io, map_err_m. rewrite query_quiet by done. cbn [fst snd].
    rewrite slice_all, decide_True by done. by cbn.
Qed.

(** The loop finds a free name. *)
Lemma writer_loop_quiet start tried fuel d :
  0 <= start -> skipped start tried d -> start <= sequence d -> quiet_disk d ->
  sequence d + Z.of_nat (S (size (temps d) - length tried)) < U64 ->
  (size (temps d) - length tried < fuel)%nat ->
  exists w d', writer_loop fuel d = (Ok w, d') /\ quiet_disk d'.
Proof using.
  revert tried d. induction fuel as [|fuel IH]; intros tried d Hst Hsk Hge [Ha Ho] Hseq Hf; [lia|].
  cbn [writer_loop]. assert (wadd (sequence d) 1 = sequence d + 1) as Hw by (apply wadd_small; lia).
  set (path := temp_name (pid d) (sequence d) (nanos d)).
  unfold create_new, atomic. rewrite syscall_quiet by done. cbn [temps fetch_add].
  destruct (temps d !! path) as [t|] eqn:Et.
  - rewrite decide_True by done.
    assert (skipped start (sequence d :: tried) (fetch_add d)) as Hsk'.
    { destruct Hsk as [Hnd Hall]. rewrite Forall_forall in Hall. split.
      - constructor; [|done]. intros Hin%Hall. lia.
      - apply Forall_forall. intros s [->|Hin]%elem_of_cons; cbn; rewrite Hw.
        + split; [lia|]. by exists t.
        + destruct (Hall s Hin). split; [lia|done]. }
    pose proof (skipped_bound start (sequence d :: tried) (fetch_add d) Hst ltac:(cbn; lia) Hsk') as Hb.
    cbn [temps fetch_add length] in Hb.
    apply (IH (sequence d :: tried)); [done|done|cbn; rewrite Hw; lia|done|cbn; rewrite Hw; lia|cbn; lia].
  - unfold bind, io, map_err_m, try_lock, atomic. rewrite syscall_quiet by done. cbn [temps].
    rewrite lookup_insert_eq. cbn. unfold quiet_disk. cbn. eauto 10.
Qed.

Lemma writer_quiet d :
  quiet_disk d -> 0 <= sequence d -> sequence d + 1 + Z.of_nat (size (temps d)) < U64 ->
  exists w d', writer d = (Ok w, d') /\ quiet_disk d'.
Proof using.
  intros Hq H0 Hlt. unfold writer.
  apply (writer_loop_quiet (sequence d) []); [done|split; constructor|done|done|cbn; lia|cbn; lia].
Qed.

Lemma ok_fsync (P : disk -> Prop) : succeeds P (io fsync) (fun _ => P).
Proof using.
  apply ok_map_err. eapply ok_mono; [| |apply (ok_query P)]; [done|by intros a d []|eauto].
Qed.

Lemma ok_write_all (w : object_writer) (buffer : list byte) O (bytes : list byte) :
  zlen bytes + zlen buffer < U64 ->
  succeeds (fun d => objects_are O d /\ writing bytes w d) (writer_write_all w buffer)
    (fun w' d => objects_are O d /\ writing (bytes ++ buffer) w' d).
Proof using.
  intros Hlen d [Hq Hd]. pose proof (t_write_all O bytes w buffer Hlen d Hd) as Ht.
  unfold writer_write_all in *. case_decide; [by cbn in *|].
  unfold io, map_err_m, writer_write, bind, file_write_all in *. rewrite syscall_quiet in * by done. by cbn in *.
Qed.

(** Installing over a clean store. *)
Lemma ok_install (w : object_writer) (bytes : list byte) O :
  resident_ok O -> (O !! sha256 bytes = None \/ exists b ro, O !! sha256 bytes = Some (Regular b ro)) ->
  succeeds (fun d => objects_are O d /\ writing bytes w d) (install w (sha256 bytes)) (fun _ _ => True).
Proof using.
  intros Hok Hfree. unfold install.
  eapply ok_bind with (Q' := fun _ d => objects_are O d /\ writing bytes w d); [apply ok_fsync|]. intros _.
  eapply ok_bind with (Q' := fun _ d => objects_are O d /\ is_Some (temps d !! w_path w)).
  { intros d (Hq & Ho & _ & t & Ht & _). unfold io, map_err_m, set_read_only, atomic. rewrite syscall_quiet by done.
    rewrite Ht. cbn. split; [done|]. split; [done|]. rewrite lookup_alter_eq, Ht. by eexists. }
  intros _ d (Hq & Ho & t & Ht). unfold hard_link, atomic. rewrite syscall_quiet by done. rewrite Ht.
  assert (forall a : admitted_object, succeeds (fun _ => True) (ignore (remove_temp (w_path w));;; ret a : M disk store_error admitted_object)
    (fun _ _ => True)) as Hend.
  { intros a d1 [Hq1 _]. unfold bind, ignore, remove_temp, atomic. rewrite syscall_quiet by done.
    by destruct (temps d1 !! w_path w). }
  rewrite Ho. destruct Hfree as [Hn|(b & ro & Hb)]; [rewrite Hn|rewrite Hb, decide_True by done].
  - enough (succeeds (fun _ => True) (io fsync;;; io fsync;;; io fsync;;; drop_file (w_path w);;;
       ignore (remove_temp (w_path w));;; ret (AdmittedObject (sha256 bytes) (w_written w) false)) (fun _ _ => True)) as Hs.
    { by apply (Hs (with_objects _ d)). }
    do 3 (eapply ok_bind with (Q' := fun _ _ => True); [apply ok_fsync|intros _]).
    eapply ok_bind with (Q' := fun _ _ => True); [|intros _; apply Hend].
    intros d1 [Hq1 _]. unfold drop_file, modify. destruct (alive d1); by cbn.
  - enough (succeeds (objects_are O) (drop_file (w_path w);;; verify (sha256 bytes);;;
       ignore (remove_temp (w_path w));;; ret (AdmittedObject (sha256 bytes) (w_written w) true)) (fun _ _ => True)) as Hs.
    { by apply (Hs d). }
    eapply ok_bind with (Q' := fun _ => objects_are O).
    { intros d1 [Hq1 Ho1]. unfold drop_file, modify. destruct (alive d1); by cbn. }
    intros _. eapply ok_bind with (Q' := fun _ _ => True); [|intros _; apply Hend].
    destruct (Hok _ _ _ Hb) as (Hsha & _ & Hlen). eapply ok_mono; [| |by apply (ok_verify (sha256 bytes) b ro (objects_are O)); [intros d1 ->|..]]; done.
Qed.

(** A put on a quiet, clean store succeeds. *)
Lemma put_bytes_quiet (bytes : list byte) d :
  quiet_disk d -> 0 <= sequence d -> sequence d + 1 + Z.of_nat (size (temps d)) < U64 -> zlen bytes < U64 ->
  resident_ok (objects d) ->
  (objects d !! sha256 bytes = None \/ exists b ro, objects d !! sha256 bytes = Some (Regular b ro)) ->
  exists a d', put_bytes bytes d = (Ok a, d') /\ quiet_disk d'.
Proof using.
  intros Hq H0 Hlt Hlen Hok Hfree. destruct (writer_quiet d Hq H0 Hlt) as (w & d1 & Hw & Hq1).
  pose proof (t_writer_loop (objects d) (S (length (outcomes d) + size (temps d))) d eq_refl) as Hwr.
  unfold put_bytes, bind. change (writer_loop (S (length (outcomes d) + size (temps d))) d) with (writer d) in Hwr.
  rewrite Hw in Hwr |- *. pose proof (ok_write_all w bytes (objects d) [] Hlen d1 (conj Hq1 Hwr)) as Hwa.
  unfold dropping at 1. destruct (writer_write_all w bytes d1) as [[w2|e] d2]; [|done].
  destruct Hwa as (Hq2 & Hwa). cbn [app] in Hwa. unfold writer_finish, dropping.
  assert (succeeds (fun d' => objects_are (objects d) d' /\ writing bytes w2 d')
    (io fsync;;; let digest := sha256 (w_hashed w2) in install w2 digest) (fun _ _ => True)) as Hs.
  { eapply ok_bind; [apply ok_fsync|]. intros _ d3 (Hq3 & Ho3 & Hw3 & Ht3).
    cbn zeta. replace (w_hashed w2) with bytes by by rewrite Hw3.
    by apply (ok_install w2 bytes (objects d) Hok Hfree d3). }
  specialize (Hs d2 (conj Hq2 Hwa)). destruct ((io fsync;;; _) d2) as [[a|e] d3]; [|done].
  destruct Hs as [Hq3 _]. eauto.
Qed.
End quiet.

(** ** Reading a run where nothing fails *)

Lemma ok_read_object O (digest file : list byte) (ro : bool) within n :
  O !! digest = Some (Regular file ro) -> 0 <= n -> within + n <= zlen file ->
  succeeds (objects_are O) (read_object digest within n) (fun _ => objects_are O).
Proof.
  intros Ho Hn Hle. unfold read_object. eapply ok_bind.
  { apply ok_map_err. apply (ok_open digest file ro (objects_are O)). by intros d ->. }
  intros b d (Hq & -> & Hd). unfold bind. rewrite !query_quiet by done. cbn.
  unfold get_range. by replace ((within <=? within + n) && (within + n <=? zlen file)) with true by lia.
Qed.

Lemma ok_read_segments O offset stop p records dst :
  run_resident O records -> Forall (fun r => 0 <= record_length r) records -> 0 <= p ->
  p + sum_lengths records < U64 -> offset <= stop -> 
  succeeds (objects_are O) (read_segments offset stop (segments_from p records) dst) (fun _ => objects_are O).
Proof.
  intros Hres Hf. revert p dst. induction records as [|r records IH]; intros p dst Hp Hlt Hle; [by intros d Hd|].
  apply Forall_cons in Hres as [Hr Hres]. apply Forall_cons in Hf as [Hl Hf]. specialize (IH Hres Hf).
  pose proof (sum_lengths_pos _ Hf). cbn [segments_from read_segments] in *.
  change (sum_lengths (r :: records)) with (record_length r + sum_lengths records) in Hlt.
  rewrite wadd_small by lia. specialize (fun dst => IH (p + record_length r) dst ltac:(lia) ltac:(lia) Hle).
  destruct (Z.leb_spec (p + record_length r) offset); [apply IH|].
  destruct (Z.leb_spec stop p); [by intros d Hd|].
  replace (Z.max offset p <=? Z.min stop (p + record_length r)) with true by lia.
  eapply ok_bind with (Q' := fun _ => objects_are O); [by intros d Hd|]. intros _.
  eapply ok_bind with (Q' := fun _ => objects_are O); [|intros bytes; apply IH].
  destruct r as [digest n|n]; [|by intros d Hd]. destruct Hr as (file & ro & Ho & Hn). cbn [record_length] in *.
  apply (ok_read_object O digest file ro); [done|lia|lia].
Qed.

Lemma ok_records_read O records offset n :
  run_fits records -> run_resident O records -> 0 <= offset -> 0 <= n -> offset + n <= sum_lengths records ->
  succeeds (objects_are O) (records_read (records_source_new records) offset n) (fun _ => objects_are O).
Proof.
  intros [Hf Hlt] Hres Ho Hn Hle. unfold records_read. rewrite records_source_new_eq. cbn [rs_segments rs_length].
  replace (checked_add offset n) with (Some (offset + n)).
  2: { unfold checked_add. by replace (offset + n <? U64) with true by lia. }
  rewrite position_after_sum by (done || lia).
  replace (0 + sum_lengths records <? offset + n) with false by lia.
  apply ok_read_segments; [done|done|lia|lia|lia].
Qed.

(** ** Reclaiming *)

(** A temporary another holder has locked, or one this process can no longer
    touch because it was killed. *)
Definition guarded (path bytes : list byte) (d : disk) : Prop :=
  exists t, temps d !! path = Some t /\ t_bytes t = bytes /\
    (alive d = true -> is_Some (t_locked_by t)).
#[local] Instance guarded_stable path bytes : Stable (guarded path bytes).
Proof.
  split; [done|]. intros d (t & Ht & Hb & _). unfold guarded, kill. cbn. rewrite lookup_fmap, Ht. cbn.
  eexists. split; [done|]. split; [by case_decide|done].
Qed.

Lemma f_find_temp path bytes p : framed (guarded path bytes) (find_temp p).
Proof. eapply t_conseq; [apply (t_query (guarded path bytes))|done|by intros ? ? []|done]. Qed.

(** Locking another file keeps the lock; a locked one is refused. *)
Lemma t_try_lock path bytes p :
  triple (guarded path bytes) (try_lock p) (fun _ d => guarded path bytes d /\ p <> path) (fun _ => guarded path bytes).
Proof.
  intros d Hd. unfold try_lock, atomic, syscall. destruct (alive d) eqn:Ea; [|done]. cbn [negb].
  assert (forall os, match (match temps d !! p with
    | Some t => match t_locked_by t with
        | Some _ => (Err WouldBlock, with_outcomes os d)
        | None => (Ok tt, with_temps (<[p := TempFile (t_bytes t) (t_inode t) (t_modified t)
               (t_regular t) (t_read_only t) (Some (pid d))]>) (with_outcomes os d)) end
    | None => (Err NotFound, with_outcomes os d) end) with
    | (Ok a, s') => guarded path bytes s' /\ p <> path | (Err e, s') => guarded path bytes s' end) as Hact.
  { intros os. destruct Hd as (t0 & Ht0 & Hb & Hl).
    assert (guarded path bytes (with_outcomes os d)) as Hd' by (exists t0; done).
    destruct (temps d !! p) as [t|] eqn:Et; [|done]. destruct (t_locked_by t) eqn:El; [done|].
    assert (p <> path) as Hne by (intros ->; simplify_eq; destruct (Hl Ea); congruence).
    split; [|done]. exists t0. cbn. by rewrite lookup_insert_ne. }
  destruct (outcomes d) as [|[|e k|k] os] eqn:Eo.
  - specialize (Hact []). assert (with_outcomes [] d = d) as Hx by (rewrite <-Eo; by destruct d). by rewrite Hx in Hact.
  - apply Hact.
  - apply (@stable_outcomes (guarded path bytes) _ os d Hd).
  - apply (@stable_kill (guarded path bytes) _). apply (@stable_outcomes (guarded path bytes) _ os d Hd).
Qed.

Lemma t_remove_other path bytes p :
  p <> path -> framed (guarded path bytes) (remove_temp p).
Proof.
  intros Hne. apply t_atomic; [apply _| |done]. intros d (t & Ht & Hb & Hl).
  destruct (temps d !! p); [|by exists t; split]. exists t. cbn. by rewrite lookup_delete_ne.
Qed.

Lemma guarded_release path bytes p d : p <> path -> guarded path bytes d -> guarded path bytes (if alive d then release p d else d).
Proof.
  intros Hne (t & Ht & Hb & Hl). destruct (alive d) eqn:E; [|exists t; rewrite E; by split]. exists t.
  cbn [temps release with_temps alive]. rewrite lookup_alter_ne by congruence. by rewrite E.
Qed.

Lemma f_reclaim path bytes p listed report : framed (guarded path bytes) (reclaim_candidate p listed report).
Proof.
  intros d Hd. unfold reclaim_candidate.
  assert (framed (guarded path bytes) (let<- t := find_temp p in if t_regular t then ret tt else fail Eloop)) as Hf1.
  { apply f_bind; [apply f_find_temp|]. intros t. destruct (t_regular t); [apply f_ret|apply f_fail]. }
  specialize (Hf1 d Hd). destruct (bind _ _ d) as [[u|e] d1]; [|done].
  pose proof (f_find_temp path bytes p d1 Hf1) as Hf2. destruct (find_temp p d1) as [[held|e] d2]; [|done].
  destruct (negb _); [done|].
  pose proof (t_try_lock path bytes p d2 Hf2) as Hl. destruct (try_lock p d2) as [[u'|e] d3]; [|done].
  destruct Hl as [Hd3 Hne].
  pose proof (f_find_temp path bytes p d3 Hd3) as Hf4. destruct (find_temp p d3) as [[current|e] d4];
    [|by apply guarded_release].
  destruct (negb _); [by apply guarded_release|].
  pose proof (t_remove_other path bytes p Hne d4 Hf4) as Hr. destruct (remove_temp p d4) as [[u''|e] d5]; [done|].
  by apply guarded_release.
Qed.

Lemma f_collect_temps `{Unordered} path bytes grace :
  framed (guarded path bytes) (collect_abandoned_temps grace).
Proof.
  unfold collect_abandoned_temps. destruct (grace =? 0); [apply f_fail|].
  apply f_bind; [apply f_gets|]. intros cutoff.
  assert (forall A (f : disk -> result io_error A), framed (guarded path bytes) (query f)) as Hq.
  { intros A f. eapply t_conseq; [apply (t_query (guarded path bytes))|done|by intros ? ? []|done]. }
  apply f_bind; [apply f_map_err, Hq|]. intros entries. apply f_bind.
  - apply f_for. intros report [name t] _. destruct (negb _); [apply f_ret|]. intros d Hd.
    pose proof (Hq _ (fun _ => Ok tt) d Hd) as Hd1. destruct (query _ d) as [[u|e] d1]; [|done].
    destruct (negb _); [done|]. by apply f_reclaim.
  - intros report. apply f_bind; [destruct (_ <? _); [apply f_map_err, Hq|apply f_ret]|]. intros; apply f_ret.
Qed.

(** ** The guarantees *)

(** C20: Whatever calls fail or crash, [put_bytes] changes no object but its own.
    When it returns, the object under the digest hashes to it - the new bytes,
    read-only, where nothing was there - and the reported digest and length are
    those of the bytes; when it fails, the objects are as before or hold the whole
    new object.  On a store where nothing fails it does return. *)
Theorem put_bytes_safe `{Sha256} bytes d :
  resident_ok (objects d) -> zlen bytes < U64 ->
  match put_bytes bytes d with
  | (Ok a, d') =>
      ao_digest a = sha256 bytes /\ ao_length a = zlen bytes /\
      if ao_preexisting a
      then objects d' = objects d /\
           exists resident ro, objects d !! sha256 bytes = Some (Regular resident ro) /\ sha256 resident = sha256 bytes
      else objects d !! sha256 bytes = None /\
           objects d' = <[sha256 bytes := Regular bytes true]> (objects d)
  | (Err _, d') =>
      objects d' = objects d \/
      (objects d !! sha256 bytes = None /\ objects d' = <[sha256 bytes := Regular bytes true]> (objects d))
  end /\
  (quiet_disk d -> 0 <= sequence d -> sequence d + 1 + Z.of_nat (size (temps d)) < U64 ->
   (objects d !! sha256 bytes = None \/ exists b ro, objects d !! sha256 bytes = Some (Regular b ro)) ->
   exists a, (put_bytes bytes d).1 = Ok a).
Proof.
  intros Hok Hlen. split.
  - pose proof (t_put_bytes (objects d) bytes Hok Hlen d eq_refl) as Ht.
    destruct (put_bytes bytes d) as [[a|e] d']; [|exact Ht]. destruct Ht as [Ha Ht].
    rewrite Ha. cbn [ao_digest ao_length ao_preexisting]. done.
  - intros Hq H0 Hlt Hfree. destruct (put_bytes_quiet bytes d Hq H0 Hlt Hlen Hok Hfree) as (a & d' & Hp & _).
    exists a. by rewrite Hp.
Qed.

(** The search of [writer] for a free name ends: after as many rounds as
    there are temporaries and scheduled faults more rounds change nothing, and
    while no call fails the search succeeds. *)
Theorem writer_terminates fuel d :
  0 <= sequence d -> sequence d + 1 + Z.of_nat (length (outcomes d) + size (temps d)) < U64 ->
  (length (outcomes d) + size (temps d) < fuel)%nat ->
  writer_loop fuel d = writer d /\
  (quiet_disk d -> exists w, (writer d).1 = Ok w).
Proof.
  intros H0 Hlt Hf. split.
  - apply (writer_loop_enough (sequence d) []); [done|split; constructor|cbn; lia|done|cbn; lia|cbn; lia].
  - intros Hq. destruct (writer_quiet d Hq H0 ltac:(lia)) as (w & d' & Hw & _). exists w. by rewrite Hw.
Qed.

(** [collect_abandoned_temps], whatever fails during it and in whatever
    order the directory lists, never removes or changes a temporary whose lock
    another process holds. *)
Theorem reclaim_keeps_locked `{Unordered} grace path t d :
  temps d !! path = Some t -> is_Some (t_locked_by t) ->
  exists t', temps (collect_abandoned_temps grace d).2 !! path = Some t' /\ t_bytes t' = t_bytes t.
Proof.
  intros Ht Hl. pose proof (f_collect_temps path (t_bytes t) grace d) as Hf.
  destruct (collect_abandoned_temps grace d) as [[r|e] d'] eqn:E; cbn;
    destruct Hf as (t' & Ht' & Hb & _); eauto; exists t; auto.
Qed.

(** Reading a record run through [RecordsSource] is slicing the file the
    run denotes, holes as zeros: a read that returns has exactly those bytes,
    whatever fails around it, and where nothing fails every read inside the file
    of a resident run returns. *)
Theorem records_read_correct records offset n d :
  run_fits records -> 0 <= offset -> 0 <= n ->
  match records_read (records_source_new records) offset n d with
  | (Ok bytes, d') => objects d' = objects d /\
      offset + n <= zlen (run_bytes (objects d) records) /\
      bytes = slice (run_bytes (objects d) records) offset (offset + n)
  | (Err _, d') => objects d' = objects d
  end /\
  (quiet_disk d -> run_resident (objects d) records -> offset + n <= sum_lengths records ->
   (records_read (records_source_new records) offset n d).1
   = Ok (slice (run_bytes (objects d) records) offset (offset + n))).
Proof.
  intros Hfit Ho Hn. pose proof (t_records_read (objects d) records offset n Hfit Ho Hn d eq_refl) as Ht. split.
  - destruct (records_read _ _ _ d) as [[bytes|e] d']; [|done]. destruct Ht as [Hd [[_ Hle] ->]%get_range_Some]. done.
  - intros Hq Hres Hle. pose proof (ok_records_read (objects d) records offset n Hfit Hres Ho Hn Hle d (conj Hq eq_refl)) as Hs.
    destruct (records_read _ _ _ d) as [[bytes|e] d']; [|done]. destruct Ht as [_ [_ ->]%get_range_Some]. done.
Qed.

(** ** Witnesses *)

(** A store that crashes while it writes its sixth call. *)
Definition crashing : disk :=
  Disk ∅ ∅ [Proceeds; Proceeds; Proceeds; Proceeds; Proceeds; Proceeds; Crashes 0] true 7 0 100 1.

Lemma put_bytes_safe_witness :
  let abc := bstr "abc" in
  let installed := objects (put_bytes (H := toy_sha) abc crashing).2 in
  (put_bytes (H := toy_sha) abc crashing).1 = Err (SE_Io Killed) /\
  (installed = ∅ \/ installed = <[sha256 (Sha256 := toy_sha) abc := Regular abc true]> ∅).
Proof.
  cbn zeta. split; [by vm_compute|].
  assert (resident_ok (H := toy_sha) (objects crashing)) as Hok by (intros digest bytes ro Hr; cbn [objects crashing] in Hr; by rewrite lookup_empty in Hr).
  destruct (put_bytes_safe (H := toy_sha) (bstr "abc") crashing Hok ltac:(by vm_compute)) as [Hp _].
  destruct (put_bytes (bstr "abc") crashing) as [[a|e] d'] eqn:E; [by vm_compute in E|].
  destruct Hp as [Hp|[_ Hp]]; [by left|by right].
Defined.

(** A temporary in the way of the first name. *)
Definition crowded : disk :=
  Disk ∅ {[temp_name 7 0 100 := TempFile (bstr "old") 1 (Some 3) true false (Some 8)]} [] true 7 0 100 2.

Lemma writer_terminates_witness :
  writer_loop 2 crowded = writer crowded /\
  (writer crowded).1 = Ok (ObjectWriter (temp_name 7 1 100) [] 0).
Proof.
  split; [|by vm_compute]. apply (writer_terminates 2 crowded); [done|by vm_compute|].
  apply Nat.ltb_lt. by vm_compute.
Defined.

Lemma reclaim_keeps_locked_witness :
  exists t', temps (collect_abandoned_temps (H := reversed) 5 crowded).2 !! temp_name 7 0 100 = Some t' /\
    t_bytes t' = bstr "old".
Proof.
  apply (reclaim_keeps_locked (H := reversed) 5 (temp_name 7 0 100)
    (TempFile (bstr "old") 1 (Some 3) true false (Some 8)) crowded); [by vm_compute|done].
Defined.

(** A file of an object, a hole and the object again. *)
Definition holed : list file_record := [Data (bstr "d") 3; Hole 2; Data (bstr "d") 2].
Definition holding_d : disk := Disk {[bstr "d" := Regular (bstr "xyz") true]} ∅ [] true 7 0 100 1.

Lemma records_read_correct_witness :
  run_bytes (objects holding_d) holed = bstr "xyz" ++ [Byte.x00; Byte.x00] ++ bstr "xy" /\
  (records_read (records_source_new holed) 2 4 holding_d).1 = Ok (bstr "z" ++ [Byte.x00; Byte.x00] ++ bstr "x").
Proof.
  split; [by vm_compute|].
  refine (proj2 (records_read_correct holed 2 4 holding_d _ _ _) _ _ _); [|lia|lia|done| |by vm_compute].
  - split; [|by vm_compute]. repeat constructor; cbn; lia.
  - repeat constructor; exists (bstr "xyz"), true; by split; vm_compute.
Defined.
