(* ===== verification/Stream.v ===== *)
(** The streamed read of a committed file ([src/crates/tensorfs-core/src/stream.rs]):
    record runs read into the caller's memory, through the page cache or around it.
    A direct read asks the device for aligned blocks into aligned memory, bounces
    what is not aligned, and gives the bytes the ordinary reader of
    [src/crates/tensorfs-core/src/workspace_source.rs] gives. *)
From S2P Require Export PlanMirror FileSource StoreGuarantees.

(** ** Reading an object around the page cache *)

Definition DIRECT_ALIGNMENT : Z := 4096.
Definition BOUNCE_BYTES : Z := 8 * 1024 * 1024.
Definition Unsupported : io_error := OtherIo 95.

Inductive read_mode : Type := Buffered | Direct.
#[export] Instance read_mode_eq_dec : EqDecision read_mode.
Proof. solve_decision. Defined.

(** A device opened with [O_DIRECT]: how much of what is there a read gives - some
    of it, and whole blocks where not all of it -, and where the allocator puts a
    buffer of a length. *)
Class ShortReads : Type := {
  served : Z -> Z -> Z;
  served_bounds offset available : 0 < available -> 0 < served offset available <= available;
  served_blocks offset available :
    0 < available -> served offset available = available \/ (DIRECT_ALIGNMENT | served offset available);
  allocated_at : Z -> Z
}.

(** [struct Aligned]: its first aligned byte and its length, in memory at [ptr]. *)
Record aligned : Type := AlignedBuffer { al_raw_length : Z; al_start : Z; al_length : Z }.
Definition aligned_new (ptr length : Z) : aligned :=
  let shift := ptr mod DIRECT_ALIGNMENT in
  AlignedBuffer (length + DIRECT_ALIGNMENT) ((DIRECT_ALIGNMENT - shift) mod DIRECT_ALIGNMENT) length.

(** The scratch buffer is inside its allocation, at an aligned address. *)
Lemma aligned_new_ok ptr length :
  0 <= length ->
  let b := aligned_new ptr length in
  0 <= al_start b /\ al_start b + al_length b <= al_raw_length b /\ (ptr + al_start b) mod DIRECT_ALIGNMENT = 0.
Proof.
  intros Hl. cbn. unfold DIRECT_ALIGNMENT. pose proof (Z.mod_pos_bound ptr 4096 ltac:(lia)).
  pose proof (Z.mod_pos_bound (4096 - ptr mod 4096) 4096 ltac:(lia)). split_and!; [lia|lia|].
  rewrite Z.add_mod_idemp_r by lia. replace (ptr + (4096 - ptr mod 4096)) with (1 * 4096 + (ptr - ptr mod 4096)) by lia.
  rewrite Z.add_comm, Z.mod_add by lia. rewrite Zminus_mod_idemp_r, Z.sub_diag. done.
Qed.

Section direct.
Context `{ShortReads}.

(** [open_object_direct]: as [open_object], with one more flag. *)
Definition open_object_direct (digest : list byte) : M disk store_error (list byte) := open_object digest.

(** [FileExt::read_at] of a file opened with [O_DIRECT], into memory at [address]:
    nothing at the end of the file, and before it [EINVAL] unless the offset, the
    memory and the length are all whole blocks. *)
Definition direct_read_at (file : list byte) (address n offset : Z) : M disk io_error (list byte) := query (fun _ =>
  if (n <=? 0) || (zlen file <=? offset) then Ok []
  else if is_multiple_of offset DIRECT_ALIGNMENT && is_multiple_of address DIRECT_ALIGNMENT && is_multiple_of n DIRECT_ALIGNMENT then
    Ok (slice file offset (offset + served offset (Z.min n (zlen file - offset))))
  else Err InvalidInput).

(** [read_up_to_at], into memory at [address]: an interrupted call takes a scheduled
    outcome, any other but the last at least a byte. *)
Fixpoint read_up_to_loop (fuel : nat) (file : list byte) (address n offset : Z) (filled : list byte) : M disk io_error (list byte) := fun d =>
  if zlen filled <? n then
    match fuel with
    | O => (Err Unfinished, d)
    | S fuel =>
        match direct_read_at file (address + zlen filled) (n - zlen filled) (wadd offset (zlen filled)) d with
        | (Ok [], d) => (Ok filled, d)
        | (Ok bytes, d) => read_up_to_loop fuel file address n offset (filled ++ bytes) d
        | (Err e, d) => if decide (e = Interrupted) then read_up_to_loop fuel file address n offset filled d else (Err e, d)
        end
    end
  else (Ok filled, d).
Definition read_up_to_at (file : list byte) (address n offset : Z) : M disk io_error (list byte) := fun d =>
  read_up_to_loop (S (Z.to_nat n + length (outcomes d))) file address n offset [] d.

(** [read_full_at]. *)
Definition read_full_at (file : list byte) (address n offset : Z) : M disk io_error (list byte) :=
  let<- got := read_up_to_at file address n offset in
  if zlen got <? n then fail UnexpectedEof else ret got.

(** [Aligned::new(length)] and the address of its [slice_mut()]. *)
Definition scratch_address (length : Z) : Z :=
  let ptr := allocated_at (length + DIRECT_ALIGNMENT) in
  ptr + al_start (aligned_new ptr length).

(** [direct_read]: the aligned path, and the loop over the bounce buffer. *)
Definition direct_aligned (file : list byte) (address within n : Z) : M disk io_error (list byte) :=
  let body := n - n mod DIRECT_ALIGNMENT in
  let<- head := read_full_at file address body within in
  let tail := n - body in
  if 0 <? tail then
    let<- got := read_up_to_at file (scratch_address DIRECT_ALIGNMENT) DIRECT_ALIGNMENT (wadd within body) in
    if zlen got <? tail then fail UnexpectedEof else ret (head ++ take (Z.to_nat tail) got)
  else ret head.
Definition next_multiple_of (a b : Z) : Z := div_ceil a b * b.
Fixpoint bounce_loop (fuel : nat) (file : list byte) (cursor n : Z) (written : list byte) : M disk io_error (list byte) :=
  if zlen written <? n then
    match fuel with
    | O => fail Unfinished
    | S fuel =>
        let start := cursor - cursor mod DIRECT_ALIGNMENT in
        let skip := cursor - start in
        let want := Z.min (n - zlen written) (BOUNCE_BYTES - skip) in
        let need := skip + want in
        let read_len := Z.min (next_multiple_of need DIRECT_ALIGNMENT) BOUNCE_BYTES in
        let<- got := read_up_to_at file (scratch_address BOUNCE_BYTES) read_len start in
        if zlen got <? need then fail UnexpectedEof
        else bounce_loop fuel file (wadd cursor want) n (written ++ slice got skip (skip + want))
    end
  else ret written.
Definition direct_read (address : Z) (digest : list byte) (within n : Z) : M disk io_error (list byte) :=
  let<- file := map_err_m (fun _ => OtherIo 0) (open_object_direct digest) in
  if is_multiple_of within DIRECT_ALIGNMENT && is_multiple_of address DIRECT_ALIGNMENT then direct_aligned file address within n
  else bounce_loop (Z.to_nat n) file within n [].

(** ** The reader *)

(** [struct StreamReader] and [StreamReader::new]. *)
Record stream_reader : Type := StreamReader { sr_segments : list (Z * file_record); sr_total : Z; sr_mode : read_mode }.
Definition stream_reader_new (linux : bool) (records : list file_record) (mode : read_mode) : result io_error stream_reader :=
  if bool_decide (mode = Direct) && negb linux then Err Unsupported
  else
    let '(segments, position) := foldl (fun '(segments, position) record =>
        (segments ++ [(position, record)], wadd position (record_length record))) ([], 0) records in
    Ok (StreamReader segments position mode).

(** [read_object], into memory at [address]. *)
Definition stream_object (mode : read_mode) (address : Z) (digest : list byte) (within n : Z) : M disk io_error (list byte) :=
  match mode with
  | Buffered => read_object digest within n
  | Direct => direct_read address digest within n
  end.

(** [read_exact_at], into memory at [address]; a slice whose bounds cross would
    panic, as for [RecordsSource]. *)
Fixpoint stream_segments (mode : read_mode) (address offset stop : Z) (segments : list (Z * file_record))
    (destination : list byte) : M disk io_error (list byte) :=
  match segments with
  | [] => ret destination
  | (start, record) :: segments =>
      let segment_end := wadd start (record_length record) in
      if segment_end <=? offset then stream_segments mode address offset stop segments destination
      else if stop <=? start then ret destination
      else
        let from := Z.max offset start in
        let to := Z.min stop segment_end in
        check (from <=? to) (OtherIo 1);;;
        let<- bytes :=
          match record with
          | Hole _ => ret (replicate (Z.to_nat (to - from)) Byte.x00)
          | Data digest _ => stream_object mode (address + (from - offset)) digest (from - start) (to - from)
          end in
        stream_segments mode address offset stop segments (splice destination (from - offset) (to - offset) bytes)
  end.
Definition stream_read (reader : stream_reader) (address offset n : Z) : M disk io_error (list byte) :=
  match checked_add offset n with
  | None => fail InvalidInput
  | Some stop =>
      if sr_total reader <? stop then fail UnexpectedEof
      else stream_segments (sr_mode reader) address offset stop (sr_segments reader) (replicate (Z.to_nat n) Byte.x00)
  end.
End direct.

(** ** One answer *)

(** Over a store with objects [O], whatever the schedule, [m] answers [v] - or
    fails, where a fault is scheduled. *)
Record gives {E A : Type} (O : gmap (list byte) node) (d : disk) (v : result E A) (x : result E A * disk) : Prop := {
  gv_objects : objects x.2 = O;
  gv_quiet : quiet_disk d -> quiet_disk x.2;
  gv_outcomes : (length (outcomes x.2) <= length (outcomes d))%nat;
  gv_answer : x.1 = v \/ (exists e, x.1 = Err e) /\ ~ quiet_disk d
}.
Definition answers {E A : Type} (O : gmap (list byte) node) (m : M disk E A) (v : result E A) : Prop :=
  forall d, objects d = O -> gives O d v (m d).

Section answers.
Context (O : gmap (list byte) node).

Lemma a_lift {E A : Type} (v : result E A) : answers O (lift v) v.
Proof. intros d Hd. constructor; [exact Hd|auto|auto|by left]. Qed.
Lemma gives_after {E A : Type} (v : result E A) x d d1 :
  (quiet_disk d -> quiet_disk d1) -> (length (outcomes d1) <= length (outcomes d))%nat -> gives O d1 v x -> gives O d v x.
Proof.
  intros Hq Hl [Ho Hq1 Hl1 Ha]. constructor; [done|auto|lia|]. destruct Ha as [?|[? Hn]]; [by left|right; split; [done|auto]].
Qed.
Lemma gives_bind {E A B : Type} (m : M disk E A) (k : A -> M disk E B) a v d :
  gives O d (Ok a) (m d) -> answers O (k a) v -> gives O d v (bind m k d).
Proof.
  intros [Ho Hq Hl Ha] Hk. unfold bind. destruct (m d) as [r d1]; simpl in *. destruct Ha as [->|[[e ->] Hn]].
  - by eapply gives_after, Hk.
  - constructor; [done|auto|done|]. right. split; [by exists e|done].
Qed.
Lemma gives_bind_err {E A B : Type} (m : M disk E A) (k : A -> M disk E B) e d :
  gives O d (Err e) (m d) -> gives O d (Err e) (bind m k d).
Proof.
  intros [Ho Hq Hl Ha]. unfold bind. destruct (m d) as [r d1]; simpl in *.
  assert (exists e', r = Err e') as [e' ->] by (destruct Ha as [->|[[e' ->] _]]; by eexists).
  constructor; [done|done|done|]. simpl. destruct Ha as [[= ->]|[_ Hn]]; [by left|right; split; [by eexists|done]].
Qed.
Lemma a_bind {E A B : Type} (m : M disk E A) (k : A -> M disk E B) a v :
  answers O m (Ok a) -> answers O (k a) v -> answers O (bind m k) v.
Proof. intros Hm Hk d Hd. by eapply gives_bind; [apply Hm|]. Qed.
Lemma a_bind_err {E A B : Type} (m : M disk E A) (k : A -> M disk E B) e :
  answers O m (Err e) -> answers O (bind m k) (Err e).
Proof. intros Hm d Hd. by eapply gives_bind_err, Hm. Qed.
Lemma a_map_err {E F A : Type} (f : E -> F) (m : M disk E A) v : answers O m v -> answers O (map_err_m f m) (map_err f v).
Proof.
  intros Hm d Hd. destruct (Hm d Hd) as [Ho Hq Hl Ha]. unfold map_err_m. destruct (m d) as [r d1]. constructor; simpl in *; auto.
  destruct Ha as [->|[[e ->] ?]]; [by left|right]. split; [by eexists|done].
Qed.
Lemma a_query {A : Type} (f : disk -> result io_error A) v :
  (forall d, objects d = O -> f d = v) -> answers O (query f) v.
Proof.
  intros Hf d Hd. unfold query, atomic, syscall. destruct (alive d) eqn:Ea; cbn [negb].
  2: { constructor; [done|done|done|]. right. split; [by eexists|]. by intros [? _]; congruence. }
  destruct (outcomes d) as [|o os] eqn:Eo; [constructor; [done|done|cbn; rewrite ?Eo; simpl; lia|left; by apply Hf]|].
  assert (~ quiet_disk d) as Hn by (intros [_ ?]; congruence).
  destruct o as [|e k|k]; (constructor; cbn; [done|by intros ?%Hn|rewrite ?Eo; simpl; lia|]);
    [left; by apply Hf|right; split; [by eexists|done]..].
Qed.

(** The interrupted call has used a scheduled outcome. *)
Lemma query_interrupted {A : Type} (f : disk -> result io_error A) a d d' :
  (forall d, f d = Ok a) -> query f d = (Err Interrupted, d') -> (length (outcomes d') < length (outcomes d))%nat.
Proof.
  intros Hf Hq. unfold query, atomic, syscall in Hq. destruct (negb _); [done|].
  destruct (outcomes d) as [|[|e k|k] os] eqn:Eo; [by rewrite Hf in Hq|by rewrite Hf in Hq| |done].
  injection Hq as _ <-. cbn. lia.
Qed.

Lemma a_open_object digest :
  answers O (map_err_m (fun _ => OtherIo 0) (open_object digest))
    match O !! digest with Some (Regular file _) => Ok file | _ => Err (OtherIo 0) end.
Proof.
  intros d Hd. unfold open_object, map_err_m.
  match goal with |- context [query ?f d] => pose proof (a_query f (match O !! digest with
    | None => Err NotFound | Some (SymbolicLink _) => Err Eloop | Some n => Ok n end) ltac:(intros d' Hd'; cbn beta; by rewrite Hd') d Hd) as [Ho Hq Hl Ha];
    destruct (query f d) as [r d1] end. simpl in *.
  destruct Ha as [->|[[e ->] Hn]].
  2: { assert (exists e', (if decide (e = NotFound) then (Err (SE_Missing digest), d1)
         else if decide (e = Eloop) then (Err (SE_NotARegularFile digest), d1) else (Err (SE_Io e), d1)) = (Err e' : result store_error (list byte), d1)) as [e' ->]
         by (repeat case_decide; by eexists). constructor; [done|done|done|]. right. split; [by eexists|done]. }
  assert (forall n, gives O d1 match n with Regular file _ => Ok file | _ => Err (OtherIo 0) end
    (map_err_m (fun _ => OtherIo 0) (let<- n := io (query (fun _ => Ok n)) in
      match n with Regular bytes _ => ret bytes | _ => fail (SE_NotARegularFile digest) end) d1)) as Hr.
  { intros n. replace (match n with Regular file _ => Ok file | _ => Err (OtherIo 0) end)
      with (map_err (fun _ : store_error => OtherIo 0) match n with Regular file _ => Ok file | _ => Err (SE_NotARegularFile digest) end)
      by (by destruct n). apply a_map_err; [|exact Ho]. apply (a_bind _ _ n).
    - apply (a_map_err SE_Io _ (Ok n)). by apply a_query.
    - destruct n; apply a_lift. }
  destruct (O !! digest) as [[bytes ro|b|]|].
  - by eapply gives_after, (Hr (Regular bytes ro)).
  - constructor; [done|done|done|by left].
  - by eapply gives_after, (Hr OtherNode).
  - constructor; [done|done|done|by left].
Qed.

(** ** What an object read answers *)

Definition object_answer (digest : list byte) (within n : Z) : result io_error (list byte) :=
  match O !! digest with
  | Some (Regular file _) => match get_range file within (within + n) with Some bytes => Ok bytes | None => Err UnexpectedEof end
  | _ => Err (OtherIo 0)
  end.
Lemma a_read_object digest within n : answers O (read_object digest within n) (object_answer digest within n).
Proof.
  unfold read_object, object_answer. pose proof (a_open_object digest) as Ho.
  destruct (O !! digest) as [[file ro|b|]|]; [|by apply a_bind_err..].
  apply (a_bind _ _ file); [done|]. apply (a_bind _ _ tt); [by apply a_query|]. by apply a_query.
Qed.
End answers.

(** ** Direct reads *)

Section direct_reads.
Context `{ShortReads} (O : gmap (list byte) node) (file : list byte) (Hfile : zlen file < U64).

(** Where a read of [n] bytes from [offset] stops. *)
Definition stop_of (offset n : Z) : Z := Z.max offset (Z.min (offset + n) (zlen file)).

(** Whole blocks. *)
Definition on_block (x : Z) : Prop := (DIRECT_ALIGNMENT | x).
Lemma multiple_on_block x : is_multiple_of x DIRECT_ALIGNMENT = true <-> on_block x.
Proof. unfold is_multiple_of, on_block. rewrite <-Z.mod_divide by done. unfold DIRECT_ALIGNMENT in *. cbn. by rewrite Z.eqb_eq. Qed.
Lemma block_floor x : on_block (x - x mod DIRECT_ALIGNMENT).
Proof. exists (x / DIRECT_ALIGNMENT). pose proof (Z.div_mod x DIRECT_ALIGNMENT ltac:(done)). lia. Qed.
Lemma scratch_on_block n : 0 <= n -> on_block (scratch_address n).
Proof. intros Hn. apply Z.mod_divide; [done|]. by apply aligned_new_ok. Qed.

(** A direct read where the offset, the memory and the length are whole blocks. *)
Lemma direct_read_at_blocks address n offset :
  on_block offset -> on_block address -> on_block n -> 0 < n -> offset < zlen file ->
  direct_read_at file address n offset = query (fun _ => Ok (slice file offset (offset + served offset (Z.min n (zlen file - offset))))).
Proof.
  intros Ho%multiple_on_block Ha%multiple_on_block Hn%multiple_on_block Hp Hlt. unfold direct_read_at.
  by replace (n <=? 0) with false by lia; replace (zlen file <=? offset) with false by lia; rewrite Ho, Ha, Hn.
Qed.
Lemma direct_read_at_end address n offset :
  zlen file <= offset -> direct_read_at file address n offset = query (fun _ => Ok []).
Proof. intros Hle. unfold direct_read_at. by replace (zlen file <=? offset) with true by lia; rewrite orb_true_r. Qed.

Lemma up_to_loop_gives fuel address n offset filled d :
  objects d = O -> 0 <= offset < U64 -> 0 <= n -> on_block offset -> on_block address -> on_block n ->
  filled = slice file offset (offset + zlen filled) -> offset + zlen filled <= stop_of offset n ->
  (on_block (zlen filled) \/ zlen file <= offset + zlen filled) -> (Z.to_nat (n - zlen filled) + length (outcomes d) < fuel)%nat ->
  gives O d (Ok (slice file offset (stop_of offset n))) (read_up_to_loop fuel file address n offset filled d).
Proof.
  intros Hd Ho Hn Hbo Hba Hbn. revert filled d Hd. induction fuel as [|fuel IH]; intros filled d Hd Hf Hk Hbk Hfuel; [lia|]. cbn [read_up_to_loop].
  pose proof (zlen_nonneg filled) as Hk0. pose proof (zlen_nonneg file) as Hz. set (k := zlen filled) in *. unfold stop_of in *.
  destruct (Z.ltb_spec k n) as [Hlt|Hge].
  2: { assert (offset + k = Z.max offset (Z.min (offset + n) (zlen file))) as Heq by lia. rewrite Hf, Heq. by apply a_lift. }
  assert (wadd offset k = offset + k) as Hw by (apply wadd_small; lia). rewrite Hw.
  set (available := Z.min (n - k) (zlen file - (offset + k))).
  set (count := if available <=? 0 then 0 else served (offset + k) available).
  assert (if available <=? 0 then count = 0 else 0 < count <= available /\ (count = available \/ on_block count)) as Hc.
  { subst count. destruct (Z.leb_spec available 0); [done|]. by split; [apply served_bounds|apply served_blocks]. }
  set (f := fun _ : disk => Ok (E := io_error) (slice file (offset + k) (offset + k + count))).
  assert (direct_read_at file (address + k) (n - k) (offset + k) = query f) as ->.
  { subst f count. destruct (Z.leb_spec available 0) as [Ha|Ha].
    - rewrite direct_read_at_end by lia. by rewrite Z.add_0_r, slice_nil.
    - destruct Hbk as [Hbk|?]; [|lia].
      by rewrite direct_read_at_blocks; [|apply Z.divide_add_r|apply Z.divide_add_r|apply Z.divide_sub_r|lia|lia]. }
  pose proof (a_query O f (f d) ltac:(done) d Hd) as [Ho1 Hq1 Hl1 Ha1].
  pose proof (query_interrupted f (slice file (offset + k) (offset + k + count)) d (query f d).2 ltac:(done)) as Hint.
  destruct (query f d) as [r d1]. cbn [fst snd] in *. destruct Ha1 as [->|[[e ->] Hnq]].
  - destruct (Z.leb_spec available 0) as [Ha|Ha].
    + unfold f. rewrite Hc, Z.add_0_r, slice_nil.
      assert (offset + k = Z.max offset (Z.min (offset + n) (zlen file))) as Heq by lia. rewrite Hf, Heq.
      eapply gives_after; [exact Hq1|exact Hl1|]. by apply a_lift.
    + destruct Hc as [Hc Hcb]. assert (zlen (slice file (offset + k) (offset + k + count)) = count) as Hz1 by (rewrite slice_length; lia).
      unfold f. destruct (slice file (offset + k) (offset + k + count)) as [|b l] eqn:Es; [change (zlen []) with 0 in Hz1; lia|].
      rewrite <-Es in *. eapply gives_after; [exact Hq1|exact Hl1|].
      assert (filled ++ slice file (offset + k) (offset + k + count) = slice file offset (offset + k + count)) as Hjoin.
      { rewrite Hf at 1. apply slice_join; lia. }
      assert (zlen (filled ++ slice file (offset + k) (offset + k + count)) = k + count) as Hzl by (rewrite zlen_app; lia).
      apply IH; [done|rewrite Hzl, Hjoin; f_equal; lia|rewrite Hzl; lia| |rewrite Hzl; lia].
      rewrite Hzl. destruct (Z.le_gt_cases (zlen file) (offset + (k + count))) as [|Hgt]; [by right|left].
      destruct Hbk as [Hbk|?]; [|lia]. destruct Hcb as [Hcb|Hcb]; [|by apply Z.divide_add_r].
      by replace (k + count) with n by lia.
  - case_decide as He; [subst e; specialize (Hint eq_refl)|].
    + eapply gives_after; [exact Hq1|exact Hl1|]. apply IH; [done|done|done|done|lia].
    + constructor; [done|done|done|]. right. split; [by eexists|done].
Qed.
Lemma a_read_up_to address n offset :
  0 <= offset < U64 -> 0 <= n -> on_block offset -> on_block address -> on_block n ->
  answers O (read_up_to_at file address n offset) (Ok (slice file offset (stop_of offset n))).
Proof.
  intros Ho Hn Hbo Hba Hbn d Hd. unfold read_up_to_at. apply up_to_loop_gives; [done|done|done|done|done|done|..]; change (zlen []) with 0; rewrite ?Z.add_0_r, ?Z.sub_0_r.
  - by rewrite slice_nil.
  - unfold stop_of. lia.
  - left. apply Z.divide_0_r.
  - lia.
Qed.

Definition range_answer (within n : Z) : result io_error (list byte) :=
  match get_range file within (within + n) with Some bytes => Ok bytes | None => Err UnexpectedEof end.
Lemma range_in within n : 0 <= n -> within + n <= zlen file -> range_answer within n = Ok (slice file within (within + n)).
Proof.
  intros Hn Hle. unfold range_answer, get_range. by replace ((within <=? within + n) && (within + n <=? zlen file)) with true by lia.
Qed.
Lemma range_out within n : zlen file < within + n -> range_answer within n = Err UnexpectedEof.
Proof.
  intros Hlt. unfold range_answer, get_range. by replace ((within <=? within + n) && (within + n <=? zlen file)) with false by lia.
Qed.
Lemma slice_slice (l : list byte) a b i j :
  0 <= a -> 0 <= i <= j -> a + j <= b -> slice (slice l a b) i j = slice l (a + i) (a + j).
Proof.
  intros Ha Hi Hj. unfold slice. rewrite skipn_firstn_comm, drop_drop, take_take. f_equal; [lia|]. f_equal. lia.
Qed.

Lemma a_read_full address n offset :
  0 <= offset < U64 -> 0 <= n -> on_block offset -> on_block address -> on_block n -> (0 < n \/ offset <= zlen file) ->
  answers O (read_full_at file address n offset) (range_answer offset n).
Proof.
  intros Ho Hn Hbo Hba Hbn Hpos. eapply a_bind; [by apply a_read_up_to|]. pose proof (zlen_nonneg file). unfold stop_of.
  destruct (Z.le_gt_cases (offset + n) (zlen file)) as [Hle|Hgt].
  - replace (Z.max offset (Z.min (offset + n) (zlen file))) with (offset + n) by lia. rewrite range_in by lia.
    rewrite slice_length by lia. replace (offset + n - offset <? n) with false by lia. apply a_lift.
  - rewrite range_out by lia. assert (zlen (slice file offset (Z.max offset (Z.min (offset + n) (zlen file)))) < n) as Hz.
    { destruct (Z.le_gt_cases offset (zlen file)); [rewrite slice_length; lia|].
      replace (Z.max offset (Z.min (offset + n) (zlen file))) with offset by lia. rewrite slice_nil. change (zlen []) with 0. lia. }
    replace (zlen _ <? n) with true by lia. apply a_lift.
Qed.

(** The end of a range, from an aligned block that holds it. *)
Lemma tail_answers within body n head :
  0 <= within -> 0 <= body < n -> n - body <= DIRECT_ALIGNMENT -> (body = 0 \/ within + body <= zlen file) ->
  head = slice file within (within + body) ->
  let got := slice file (within + body) (stop_of (within + body) DIRECT_ALIGNMENT) in
  answers O (if zlen got <? n - body then fail UnexpectedEof else ret (head ++ take (Z.to_nat (n - body)) got)) (range_answer within n).
Proof.
  intros Hw Hb Hn Hle ->. cbv zeta. unfold stop_of. pose proof (zlen_nonneg file). set (p := within + body) in *.
  set (stop := Z.max p (Z.min (p + DIRECT_ALIGNMENT) (zlen file))).
  assert (zlen (slice file p stop) = stop - p) as Hz.
  { destruct (Z.le_gt_cases p (zlen file)); [apply slice_length; lia|]. replace stop with p by lia. rewrite slice_nil. by rewrite Z.sub_diag. }
  rewrite Hz. destruct (Z.ltb_spec (stop - p) (n - body)).
  - rewrite range_out by lia. apply a_lift.
  - rewrite range_in by lia. replace (take (Z.to_nat (n - body)) (slice file p stop)) with (slice (slice file p stop) 0 (n - body)).
    2: { unfold slice at 1. by rewrite Z.sub_0_r. }
    rewrite slice_slice by lia. rewrite Z.add_0_r, slice_join by lia. replace (p + (n - body)) with (within + n) by lia. apply a_lift.
Qed.
Lemma a_direct_aligned address within n :
  0 <= within < U64 -> 0 <= n -> on_block within -> on_block address -> (0 < n \/ within = 0) ->
  answers O (direct_aligned file address within n) (range_answer within n).
Proof.
  intros Hw Hn Hbw Hba Hpos. pose proof (block_floor n) as Hbn. unfold direct_aligned. set (t := n mod DIRECT_ALIGNMENT) in *. pose proof (zlen_nonneg file).
  assert (0 <= t < 4096) as Ht by (apply Z.mod_pos_bound; done). assert (t <= n) as Htn by (apply Z.mod_le; [lia|done]).
  assert (answers O (read_full_at file address (n - t) within) (if n - t =? 0 then Ok [] else range_answer within (n - t))) as Hfull.
  { destruct (Z.eqb_spec (n - t) 0) as [Hb|Hb]; [rewrite Hb in *|apply a_read_full; try done; lia]. eapply a_bind; [by apply a_read_up_to|]. unfold stop_of.
    replace (Z.max within (Z.min (within + 0) (zlen file))) with within by lia. rewrite slice_nil. apply a_lift. }
  destruct (Z.le_gt_cases (within + (n - t)) (zlen file)) as [Hin|Hout]; [|destruct (Z.eqb_spec (n - t) 0) as [Hb|Hb]].
  3: { rewrite range_out in Hfull by lia. rewrite range_out by lia. by apply a_bind_err. }
  1: replace (if n - t =? 0 then Ok [] else range_answer within (n - t)) with (Ok (slice file within (within + (n - t))) : result io_error _) in Hfull
       by (destruct (Z.eqb_spec (n - t) 0) as [->|]; [by rewrite Z.add_0_r, slice_nil|by rewrite range_in by lia]).
  2: replace (Ok []) with (Ok (slice file within (within + (n - t))) : result io_error (list byte)) in Hfull
       by (rewrite Hb, Z.add_0_r, slice_nil; done).
  all: eapply a_bind; [exact Hfull|]; replace (n - (n - t)) with t by lia; destruct (Z.ltb_spec 0 t) as [Hpt|Hpt];
    [rewrite wadd_small by lia; eapply a_bind; [apply a_read_up_to; [lia|done|by apply Z.divide_add_r|by apply scratch_on_block|apply Z.divide_refl]|];
     assert (n - t = 0 \/ within + (n - t) <= zlen file) as Hor by lia;
     pose proof (tail_answers within (n - t) n _ ltac:(lia) ltac:(lia) ltac:(unfold DIRECT_ALIGNMENT; lia) Hor eq_refl) as Htail;
     cbv zeta in Htail; replace (n - (n - t)) with t in Htail by lia; exact Htail|].
  - replace (n - t) with n by lia. rewrite range_in by lia. apply a_lift.
  - lia.
Qed.

Lemma a_bounce fuel within n written :
  0 <= within < U64 -> (0 < n \/ within = 0) -> written = slice file within (within + zlen written) -> zlen written <= n ->
  (zlen written = 0 \/ within + zlen written <= zlen file) -> (Z.to_nat (n - zlen written) <= fuel)%nat ->
  answers O (bounce_loop fuel file (within + zlen written) n written) (range_answer within n).
Proof.
  intros Hw Hpos. pose proof (zlen_nonneg file). revert written. induction fuel as [|fuel IH]; intros written Heq Hn Hin Hfuel;
    pose proof (zlen_nonneg written); cbn [bounce_loop]; set (k := zlen written) in *;
    (destruct (Z.ltb_spec k n) as [Hlt|Hge]; [|rewrite range_in by lia; replace (within + n) with (within + k) by lia; rewrite <-Heq; apply a_lift]);
    [lia|].
  set (cursor := within + k) in *. cbv zeta. set (start := cursor - cursor mod DIRECT_ALIGNMENT).
  assert (0 <= cursor mod 4096 < 4096) as Hm by (apply Z.mod_pos_bound; done).
  assert (cursor mod 4096 <= cursor) as Hmc by (apply Z.mod_le; lia). change DIRECT_ALIGNMENT with 4096 in *.
  replace (cursor - start) with (cursor mod 4096) by lia. set (skip := cursor mod 4096) in *.
  set (want := Z.min (n - k) (BOUNCE_BYTES - skip)). set (need := skip + want).
  assert (0 < want <= n - k /\ need <= BOUNCE_BYTES) as [Hwant Hneed] by (unfold BOUNCE_BYTES in *; lia).
  assert (need <= next_multiple_of need 4096) as Hnext by (unfold next_multiple_of; pose proof (div_ceil_spec need 4096 ltac:(lia)); lia).
  set (read_len := Z.min (next_multiple_of need 4096) BOUNCE_BYTES). assert (need <= read_len) as Hlen by lia.
  assert (on_block read_len) as Hbl.
  { unfold read_len. destruct (Z.min_spec (next_multiple_of need 4096) BOUNCE_BYTES) as [[_ ->]|[_ ->]]; [by eexists|by exists 2048]. }
  eapply a_bind; [apply a_read_up_to; [lia|lia|apply block_floor|by apply scratch_on_block|exact Hbl]|]. set (stop := stop_of start read_len).
  assert (zlen (slice file start stop) = stop - start) as Hz.
  { subst stop. unfold stop_of. destruct (Z.le_gt_cases start (zlen file)); [apply slice_length; lia|].
    replace (Z.max start (Z.min (start + read_len) (zlen file))) with start by lia. rewrite slice_nil. by rewrite Z.sub_diag. }
  rewrite Hz. destruct (Z.ltb_spec (stop - start) need) as [Hs|Hs].
  { rewrite range_out by (unfold stop, stop_of in Hs; lia). apply a_lift. }
  assert (cursor + want <= zlen file) as Hcw by (unfold stop, stop_of in Hs; lia).
  rewrite wadd_small by lia. rewrite slice_slice by lia. replace (start + skip) with cursor by lia.
  replace (start + need) with (cursor + want) by lia.
  assert (written ++ slice file cursor (cursor + want) = slice file within (cursor + want)) as Hjoin.
  { rewrite Heq at 1. apply slice_join; lia. }
  assert (zlen (written ++ slice file cursor (cursor + want)) = k + want) as Hzl by (rewrite zlen_app, slice_length by lia; lia).
  replace (cursor + want) with (within + zlen (written ++ slice file cursor (cursor + want))) at 1 by lia.
  apply IH; [rewrite Hzl, Hjoin; f_equal; lia|lia|lia|lia].
Qed.
End direct_reads.

(** ** A direct read is an ordinary read *)

Section stream.
Context `{ShortReads} (O : gmap (list byte) node).
Context (Hsmall : forall digest bytes ro, O !! digest = Some (Regular bytes ro) -> zlen bytes < U64).

Lemma a_direct_read address digest within n :
  0 <= within < U64 -> 0 <= n -> (0 < n \/ within = 0) ->
  answers O (direct_read address digest within n) (object_answer O digest within n).
Proof.
  intros Hw Hn Hpos. unfold direct_read, open_object_direct, object_answer. pose proof (a_open_object O digest) as Ho.
  destruct (O !! digest) as [[file ro|b|]|] eqn:E; [|by apply a_bind_err..]. apply Hsmall in E.
  eapply a_bind; [exact Ho|]. fold (range_answer file within n). destruct (_ && _) eqn:Eg.
  { apply andb_true_iff in Eg as [Hbw%multiple_on_block Hba%multiple_on_block]. by apply a_direct_aligned. }
  pose proof (a_bounce O file E (Z.to_nat n) within n []) as Hb. change (zlen []) with 0 in Hb. rewrite Z.add_0_r, Z.sub_0_r in Hb.
  apply Hb; [done|done|by rewrite slice_nil|done|by left|done].
Qed.
Lemma a_stream_object mode address digest within n :
  0 <= within < U64 -> 0 <= n -> (0 < n \/ within = 0) ->
  answers O (stream_object mode address digest within n) (object_answer O digest within n).
Proof. intros Hw Hn Hpos. destruct mode; [apply a_read_object|by apply a_direct_read]. Qed.

(** The two readers answer alike. *)
Definition alike {A : Type} (m1 m2 : M disk io_error A) : Prop := exists v, answers O m1 v /\ answers O m2 v.
Lemma alike_bind {A B : Type} (m1 m2 : M disk io_error A) (k1 k2 : A -> M disk io_error B) :
  alike m1 m2 -> (forall a, alike (k1 a) (k2 a)) -> alike (bind m1 k1) (bind m2 k2).
Proof.
  intros [[a|e] [H1 H2]] Hk.
  - destruct (Hk a) as (v & Hv1 & Hv2). exists v. split; by eapply a_bind.
  - exists (Err e). split; by apply a_bind_err.
Qed.
Lemma alike_lift {A : Type} (v : result io_error A) : alike (lift v) (lift v).
Proof. exists v. split; apply a_lift. Qed.

Lemma segments_alike mode address offset stop segments dst :
  0 <= offset < stop -> stop < U64 -> Forall (fun seg => 0 <= seg.1) segments ->
  alike (stream_segments mode address offset stop segments dst) (read_segments offset stop segments dst).
Proof.
  intros Ho Hs Hf. revert dst. induction Hf as [|[start r] segments Hst Hf IH]; intros dst; [apply alike_lift|].
  cbn [stream_segments read_segments]. simpl in Hst. set (seg_end := wadd start (record_length r)).
  destruct (Z.leb_spec seg_end offset); [apply IH|]. destruct (Z.leb_spec stop start); [apply alike_lift|]. cbv zeta.
  set (from := Z.max offset start). set (to := Z.min stop seg_end). destruct (Z.leb_spec from to) as [Hft|Hft]; cbn [check].
  2: { exists (Err (OtherIo 1)). split; apply a_bind_err, a_lift. }
  apply alike_bind; [apply alike_lift|]. intros _. apply alike_bind; [|intros bytes; apply IH].
  destruct r as [digest m|m]; [|apply alike_lift]. eexists. split; [apply a_stream_object; lia|apply a_read_object].
Qed.
End stream.

Section read.
Context `{ShortReads}.

Lemma stream_reader_source linux records mode reader :
  stream_reader_new linux records mode = Ok reader ->
  sr_segments reader = rs_segments (records_source_new records) /\ sr_total reader = rs_length (records_source_new records).
Proof.
  unfold stream_reader_new, records_source_new. destruct (_ && _); [done|]. destruct (foldl _ _ _) as [segments position]. by intros [= <-].
Qed.
Lemma stream_alike linux records mode reader address offset n O :
  (forall digest bytes ro, O !! digest = Some (Regular bytes ro) -> zlen bytes < U64) ->
  stream_reader_new linux records mode = Ok reader -> 0 <= offset -> 0 < n ->
  alike O (stream_read reader address offset n) (records_read (records_source_new records) offset n).
Proof.
  intros Hsmall [Hseg Hlen]%stream_reader_source Ho Hn. unfold stream_read, records_read. rewrite Hseg, Hlen.
  destruct (checked_add offset n) as [stop|] eqn:Ec; [|apply alike_lift]. apply checked_add_Some in Ec as [-> Hlt].
  destruct (_ <? _); [apply alike_lift|]. apply segments_alike; [done|lia|lia|]. rewrite records_source_new_eq.
  by apply segments_from_nonneg.
Qed.

Lemma stream_read_agrees linux records mode reader address offset n d :
  run_fits records -> (forall digest bytes ro, objects d !! digest = Some (Regular bytes ro) -> zlen bytes < U64) ->
  stream_reader_new linux records mode = Ok reader -> 0 <= offset -> 0 < n ->
  let '(r, d') := stream_read reader address offset n d in
  objects d' = objects d /\
  (forall bytes, r = Ok bytes ->
     offset + n <= sum_lengths records /\ bytes = slice (run_bytes (objects d) records) offset (offset + n)) /\
  (quiet_disk d -> r = (records_read (records_source_new records) offset n d).1).
Proof.
  intros Hfit Hsmall Hnew Ho Hn. destruct (stream_alike linux records mode reader address offset n (objects d) Hsmall Hnew Ho Hn) as (v & H1 & H2).
  pose proof (H1 d eq_refl) as [Hobj Hq _ Ha]. destruct (stream_read reader address offset n d) as [r d']. simpl in *.
  split; [done|]. split.
  - intros bytes ->. destruct Ha as [<-|[[e He] _]]; [|done].
    set (d0 := Disk (objects d) (temps d) [] true (pid d) (sequence d) (nanos d) (next_inode d)).
    assert (quiet_disk d0) as Hq0 by done. destruct (H2 d0 eq_refl) as [_ _ _ [Ha|[_ Hnq]]]; [|done].
    pose proof (t_records_read (objects d) records offset n Hfit Ho ltac:(lia) d0 eq_refl) as Ht.
    destruct (records_read (records_source_new records) offset n d0) as [r0 d1]. simpl in Ha. subst r0.
    destruct Ht as [_ [[_ Hle] ->]%get_range_Some]. destruct Hfit as [Hf _]. by rewrite zlen_run_bytes in Hle.
  - intros Hqd. destruct (H2 d eq_refl) as [_ _ _ [<-|[_ Hnq]]]; [|done]. by destruct Ha as [?|[_ Hnq]].
Qed.
(** C15: A streamed read, buffered or direct, is the ordinary read.  Whatever the
    alignment of the offset and of the caller's memory, wherever the allocator puts a
    bounce buffer, and however short the reads the device serves, a read that
    returns has the file's bytes, holes as zeros, whatever fails around it; and where
    nothing fails its outcome, bytes or error, is that of the records source.  The
    device refuses ([EINVAL]) a read before the end of a file at an offset, into
    memory or of a length that is not whole blocks, so the read never asks for one. *)
Theorem stream_read_correct linux records mode reader address offset n d :
  run_fits records -> (forall digest bytes ro, objects d !! digest = Some (Regular bytes ro) -> zlen bytes < U64) ->
  stream_reader_new linux records mode = Ok reader -> 0 <= offset -> 0 < n ->
  let '(r, d') := stream_read reader address offset n d in
  objects d' = objects d /\
  (forall bytes, r = Ok bytes ->
     offset + n <= sum_lengths records /\ bytes = slice (run_bytes (objects d) records) offset (offset + n)) /\
  (quiet_disk d -> r = (records_read (records_source_new records) offset n d).1).
Proof. exact (stream_read_agrees linux records mode reader address offset n d). Qed.
End read.

(** ** The reader as a byte source *)

Section source.
Context `{ShortReads}.

Lemma up_to_loop_length fuel file address n offset filled d got d' :
  zlen filled <= n -> read_up_to_loop fuel file address n offset filled d = (Ok got, d') -> zlen got <= n.
Proof.
  revert filled d. induction fuel as [|fuel IH]; intros filled d Hf Hr; cbn [read_up_to_loop] in Hr.
  { destruct (_ <? _); [done|]. by injection Hr as <- _. }
  destruct (Z.ltb_spec (zlen filled) n) as [Hlt|]; [|by injection Hr as <- _].
  destruct (direct_read_at _ _ _ _ d) as [[[|b l]|e] d1] eqn:E; [by injection Hr as <- _| |by case_decide; eauto].
  eapply IH; [|exact Hr]. rewrite zlen_app. enough (zlen (b :: l) <= n - zlen filled) by lia.
  unfold direct_read_at, query, atomic, syscall in E. destruct (negb _); [done|].
  assert (forall k, b :: l = slice file (wadd offset (zlen filled)) k -> zlen (b :: l) <= k - wadd offset (zlen filled)) as Hs.
  { intros k Heq. assert (zlen (b :: l) <= Z.max 0 (k - wadd offset (zlen filled))) as Hm.
    { rewrite Heq. unfold slice, zlen. rewrite length_take. lia. }
    rewrite zlen_cons in *. pose proof (zlen_nonneg l). lia. }
  set (available := Z.min (n - zlen filled) (zlen file - wadd offset (zlen filled))) in *.
  destruct (Z.leb_spec (n - zlen filled) 0) as [|Hpos]; [lia|]. destruct (Z.leb_spec (zlen file) (wadd offset (zlen filled))) as [|Hend]; cbn [orb] in E.
  { destruct (outcomes d) as [|[|e k|k] os]; discriminate E. }
  pose proof (served_bounds (wadd offset (zlen filled)) available ltac:(lia)). destruct (_ && _ && _); [|by destruct (outcomes d) as [|[|e k|k] os]].
  destruct (outcomes d) as [|[|e k|k] os]; simplify_eq;
    match goal with Heq : slice _ _ ?k = b :: l |- _ => specialize (Hs k (eq_sym Heq)); lia end.
Qed.
Lemma read_up_to_length file address n offset d got d' :
  0 <= n -> read_up_to_at file address n offset d = (Ok got, d') -> zlen got <= n.
Proof. intros Hn. unfold read_up_to_at. apply up_to_loop_length. exact Hn. Qed.
Lemma direct_aligned_length file address within n d got d' :
  0 <= n -> direct_aligned file address within n d = (Ok got, d') -> zlen got = n.
Proof.
  intros Hn. unfold direct_aligned. set (body := n - n mod DIRECT_ALIGNMENT).
  assert (0 <= body <= n) by (unfold body, DIRECT_ALIGNMENT; pose proof (Z.mod_pos_bound n 4096); pose proof (Z.mod_le n 4096); lia).
  intros (head & d1 & Hh & Hr)%bind_inv. assert (zlen head = body) as Hhl.
  { apply bind_inv in Hh as (g & d2 & Hg & Hh). apply read_up_to_length in Hg; [|lia].
    destruct (Z.ltb_spec (zlen g) body); [done|]. injection Hh as <- _. lia. }
  destruct (Z.ltb_spec 0 (n - body)); [|injection Hr as <- _; lia].
  apply bind_inv in Hr as (g & d2 & _ & Hr). destruct (Z.ltb_spec (zlen g) (n - body)); [done|]. injection Hr as <- _.
  rewrite zlen_app. unfold zlen in *. rewrite length_take. lia.
Qed.
Lemma bounce_length fuel file cursor n written d got d' :
  zlen written <= n -> bounce_loop fuel file cursor n written d = (Ok got, d') -> zlen got = n.
Proof.
  revert cursor written d. induction fuel as [|fuel IH]; intros cursor written d Hw Hr; cbn [bounce_loop] in Hr.
  { destruct (Z.ltb_spec (zlen written) n); [done|]. injection Hr as <- _. lia. }
  destruct (Z.ltb_spec (zlen written) n); [|injection Hr as <- _; lia]. cbv zeta in Hr.
  replace (cursor - (cursor - cursor mod DIRECT_ALIGNMENT)) with (cursor mod DIRECT_ALIGNMENT) in Hr by lia.
  set (skip := cursor mod DIRECT_ALIGNMENT) in *.
  assert (0 <= skip < 4096) by (unfold skip, DIRECT_ALIGNMENT; pose proof (Z.mod_pos_bound cursor 4096); lia).
  set (want := Z.min (n - zlen written) (BOUNCE_BYTES - skip)) in *. assert (0 < want <= n - zlen written) by (unfold want, BOUNCE_BYTES; lia).
  apply bind_inv in Hr as (g & d1 & _ & Hr). destruct (Z.ltb_spec (zlen g) (skip + want)); [done|].
  eapply IH; [|exact Hr]. rewrite zlen_app, slice_length by lia. lia.
Qed.
Lemma stream_object_length mode address digest within n d bytes d' :
  0 <= within -> 0 <= n -> stream_object mode address digest within n d = (Ok bytes, d') -> zlen bytes = n.
Proof.
  intros Hw Hn. destruct mode; cbn [stream_object]; [by apply read_object_length|]. unfold direct_read.
  intros (file & d1 & _ & Hr)%bind_inv. destruct (_ && _); [by eapply direct_aligned_length|]. eapply bounce_length; [|exact Hr].
  change (zlen []) with 0. lia.
Qed.
Lemma stream_segments_length mode address offset stop segments dst d bytes d' :
  Forall (fun seg => 0 <= seg.1) segments -> 0 <= offset -> zlen dst = stop - offset -> offset <= stop ->
  stream_segments mode address offset stop segments dst d = (Ok bytes, d') -> zlen bytes = stop - offset.
Proof.
  intros Hf Ho. revert dst d. induction Hf as [|[start record] segments Hs Hf IH];
    intros dst d Hl Hle Hr; cbn [stream_segments] in Hr; [by injection Hr as <- _|]. simpl in Hs.
  destruct (Z.leb_spec (wadd start (record_length record)) offset); [by eapply IH|].
  destruct (Z.leb_spec stop start); [by injection Hr as <- _|].
  destruct (Z.leb_spec (Z.max offset start) (Z.min stop (wadd start (record_length record)))) as [Hft|];
    [|by apply bind_inv in Hr as (? & ? & ? & _)].
  apply bind_inv in Hr as ([] & d1 & [= <-] & Hr). apply bind_inv in Hr as (b & d2 & Em & Hr).
  eapply IH; [|done|exact Hr]. rewrite zlen_splice; [done|lia|lia|].
  destruct record as [digest n|n].
  - apply stream_object_length in Em; [rewrite Em; lia|lia|lia].
  - injection Em as <- _. unfold zlen. rewrite length_replicate. cbn [record_length] in *. lia.
Qed.

(** [impl ByteSource for StreamReader]: the planner's buffers are at [address]. *)
Definition stream_byte_source (records : list file_record) (mode : read_mode) (address : Z) : ByteSource disk.
Proof.
  refine {|
    src_len _ := rs_length (records_source_new records);
    read_exact_at := stream_read (StreamReader (rs_segments (records_source_new records)) (rs_length (records_source_new records)) mode) address;
    check_unchanged := ret tt |}.
  - done.
  - done.
  - intros offset n d bytes d' Ho Hn. unfold stream_read. rewrite records_source_new_eq. cbn [sr_total sr_mode sr_segments rs_segments rs_length].
    destruct (checked_add offset n) as [stop|] eqn:Ec; [|done].
    apply checked_add_Some in Ec as [-> _]. destruct (_ <? _); [done|]. intros Hr.
    apply stream_segments_length in Hr; [lia|by apply segments_from_nonneg|done| |lia].
    unfold zlen. rewrite length_replicate. lia.
Defined.
End source.

(** ** Over a resident run *)

Section resident.
Context `{ShortReads} (O : gmap (list byte) node) (records : list file_record) (mode : read_mode) (address : Z).
Context (Hfit : run_fits records) (Hres : run_resident O records).
Context (Hsmall : forall digest bytes ro, O !! digest = Some (Regular bytes ro) -> zlen bytes < U64).
Abbreviation reader := (StreamReader (rs_segments (records_source_new records)) (rs_length (records_source_new records)) mode).

Lemma a_stream_nothing at_ digest within file ro :
  O !! digest = Some (Regular file ro) -> 0 <= within <= zlen file ->
  answers O (stream_object mode at_ digest within 0) (Ok []).
Proof.
  intros Hf Hw. destruct mode; cbn [stream_object].
  - pose proof (a_read_object O digest within 0) as Ha. unfold object_answer in Ha. rewrite Hf in Ha.
    unfold get_range in Ha. rewrite Z.add_0_r, slice_nil in Ha. by replace ((within <=? within) && (within <=? zlen file)) with true in Ha by lia.
  - unfold direct_read, open_object_direct. eapply a_bind; [pose proof (a_open_object O digest) as Ha; rewrite Hf in Ha; exact Ha|].
    destruct (_ && _); exact (a_lift O (Ok [])).
Qed.
Lemma a_stream_empty p rs offset :
  0 <= p -> run_resident O rs -> Forall (fun r => 0 <= record_length r) rs -> p + sum_lengths rs < U64 -> 0 <= offset ->
  answers O (stream_segments mode address offset offset (segments_from p rs) []) (Ok []).
Proof.
  intros Hp Hr Hl Hs Ho. revert p Hp Hs. induction rs as [|r rs IH]; intros p Hp Hs; [apply a_lift|].
  inversion_clear Hr as [|?? Hr1 Hr2]. inversion_clear Hl as [|?? Hl1 Hl2]. pose proof (sum_lengths_pos _ Hl2).
  change (sum_lengths (r :: rs)) with (record_length r + sum_lengths rs) in Hs. cbn [segments_from stream_segments].
  rewrite wadd_small by lia. destruct (Z.leb_spec (p + record_length r) offset); [apply IH; [done|done|lia|lia]|].
  destruct (Z.leb_spec offset p); [apply a_lift|]. cbv zeta.
  replace (Z.max offset p) with offset by lia. replace (Z.min offset (p + record_length r)) with offset by lia.
  rewrite Z.leb_refl. cbn [check]. apply (a_bind _ _ _ tt); [apply a_lift|]. rewrite Z.sub_diag. eapply (a_bind _ _ _ []).
  - destruct r as [digest n|n]; [|apply a_lift]. destruct Hr1 as (file & ro & Hf & Hn). cbn [record_length] in *.
    eapply a_stream_nothing; [exact Hf|lia].
  - change (splice [] 0 0 []) with (@nil byte). apply IH; [done|done|lia|lia].
Qed.

(** A streamed read of a resident run answers as a read of the file it denotes. *)
Lemma a_stream_resident offset n :
  0 <= offset -> 0 <= n -> answers O (stream_read reader address offset n) (slice_read offset n (run_bytes O records)).1.
Proof.
  intros Ho Hn. destruct Hfit as [Hf Hlt]. pose proof (zlen_run_bytes O records Hf) as Hz.
  assert (rs_length (records_source_new records) = sum_lengths records) as Hl.
  { rewrite records_source_new_eq. cbn [rs_length]. rewrite position_after_sum by (done || lia). lia. }
  destruct (Z.eq_dec n 0) as [->|Hn0].
  { unfold stream_read, slice_read, get_range. destruct (checked_add offset 0) as [stop|] eqn:Ec; [|apply a_lift].
    apply checked_add_Some in Ec as [-> Hu]. rewrite Z.add_0_r in *. cbn [sr_total sr_mode sr_segments]. rewrite Hl, Hz.
    destruct (Z.ltb_spec (sum_lengths records) offset).
    - replace ((offset <=? offset) && (offset <=? sum_lengths records)) with false by lia. apply a_lift.
    - replace ((offset <=? offset) && (offset <=? sum_lengths records)) with true by lia. cbn [fst]. rewrite slice_nil.
      rewrite records_source_new_eq. cbn [rs_segments]. apply a_stream_empty; [done|done|done|lia|lia]. }
  destruct (stream_alike true records mode reader address offset n O Hsmall) as (v & Hv1 & Hv2); [|done|lia|].
  { unfold stream_reader_new. rewrite andb_false_r. rewrite records_source_new_eq. cbn [rs_segments rs_length].
    pose proof (records_source_new_eq records) as He. unfold records_source_new in He. by destruct (foldl _ _ _) as [segs pos]; injection He as -> ->. }
  enough (v = (slice_read offset n (run_bytes O records)).1) as <- by done.
  set (d0 := Disk O ∅ [] true 0 0 0 0). destruct (Hv2 d0 eq_refl) as [_ _ _ [Ha|[_ Hnq]]]; [|by destruct Hnq]. rewrite <-Ha. clear Ha Hv1 Hv2.
  unfold slice_read. destruct (checked_add offset n) as [stop|] eqn:Ec; [|unfold records_read; by rewrite Ec].
  pose proof Ec as [Hst Hu]%checked_add_Some. rewrite Hst in *. unfold get_range. rewrite Hz.
  destruct (Z.leb_spec (offset + n) (sum_lengths records)).
  - replace ((offset <=? offset + n) && true) with true by lia. cbn [fst].
    by apply (proj2 (records_read_correct records offset n d0 (conj Hf Hlt) Ho Hn)).
  - replace ((offset <=? offset + n) && false) with false by lia. unfold records_read. rewrite Ec, Hl.
    by replace (sum_lengths records <? offset + n) with true by lia.
Qed.

Context `{Allocator, HeaderJson, EntrySort, Sha256} (Quiet : Prop).
Definition resident_state (d : disk) (b : list byte) : Prop := objects d = O /\ (Quiet -> quiet_disk d) /\ b = run_bytes O records.

(** The inventory recovered through the reader is the file's. *)
Lemma stream_inventory_mirrors :
  mirrors resident_state (fun _ => False) (pW (~ Quiet))
    (inventory (H := stream_byte_source records mode address)) (inventory (S := list byte)).
Proof.
  unshelve eapply v_inventory.
  - intros d b (Ho & _ & ->). cbn. rewrite zlen_run_bytes by apply Hfit. rewrite records_source_new_eq. cbn [rs_length].
    destruct Hfit as [Hf Hlt]. rewrite position_after_sum by (done || lia). lia.
  - done.
  - intros offset n Ho Hn. split; [done|]. intros d b (Hd & Hq & ->). right. cbn [read_exact_at stream_byte_source slice_source].
    destruct (a_stream_resident offset n Ho Hn d Hd) as [Ho' Hq' _ Ha].
    assert (resident_state (stream_read reader address offset n d).2 (run_bytes O records)) as Hr by (split_and!; auto).
    replace ((slice_read offset n (run_bytes O records)).2) with (run_bytes O records)
      by (unfold slice_read; destruct (checked_add _ _); [|done]; by destruct (get_range _ _ _)).
    destruct Ha as [->|[[e ->] Hn']]; [by right|]. left. exists e. split; [done|]. intros HQ. by apply Hn', Hq.
  - split; [done|]. intros d b Hr. right; right. by split.
Qed.
End resident.

(** ** A tensor across three records, a block at a time *)

#[local] Instance block_by_block : ShortReads.
Proof.
  refine {| served _ available := Z.min DIRECT_ALIGNMENT available; allocated_at _ := 17 |}; unfold DIRECT_ALIGNMENT.
  - lia.
  - intros _ available Ha. destruct (Z.min_spec 4096 available) as [[_ ->]|[_ ->]]; [right; by exists 1|by left].
Defined.
Definition holed_reader : stream_reader := StreamReader [(0, Data (bstr "d") 3); (3, Hole 2); (5, Data (bstr "d") 2)] 7 Direct.

Lemma stream_read_correct_witness :
  stream_reader_new true holed Direct = Ok holed_reader /\
  (stream_read holed_reader 9 2 4 holding_d).1 = Ok (bstr "z" ++ [Byte.x00; Byte.x00] ++ bstr "x").
Proof.
  assert (stream_reader_new true holed Direct = Ok holed_reader) as E by (vm_compute; reflexivity). split; [exact E|].
  pose proof (stream_read_correct true holed Direct holed_reader 9 2 4 holding_d) as Hs.
  destruct (stream_read holed_reader 9 2 4 holding_d) as [r d'].
  destruct Hs as (_ & _ & Hq); [split; [repeat constructor; cbn; lia|by vm_compute]| |exact E|lia|lia|].
  { intros digest bytes ro Hd. cbn [objects holding_d] in Hd. apply lookup_singleton_Some in Hd as [_ [= <- _]]. by vm_compute. }
  cbn [fst]. rewrite Hq by done. vm_compute. reflexivity.
Defined.
