(* ===== verification/Staging.v ===== *)
(** The head tree ([stage_builder] of
    [src/crates/tensorfs-core/src/workspace.rs]): the walk over the dirents ends,
    visits every directory once, and hands the builder exactly the names that
    resolve. *)

From S2P Require Export Utf8 WorkspaceFacts.

(** ** What the walk collects *)

(** A staged name, before links are grouped. *)
Inductive item : Type :=
| IDirectory
| IFile (inode : Z)
| ISymlink (target : list byte).

Definition item_of (child : Z) (row : inodes_row) : option item :=
  if ir_kind row =? KIND_DIRECTORY then Some IDirectory
  else if ir_kind row =? KIND_FILE then Some (IFile child)
  else ISymlink <$> ir_symlink_target row.

Definition file_items (files : list (Z * list (list byte))) : list (list byte * item) :=
  files ≫= fun f => (fun p => (p, IFile f.1)) <$> f.2.
Definition flat (acc : walked) : list (list byte * item) :=
  ((fun p => (p, IDirectory)) <$> wk_directories acc) ++
  ((fun pt => (pt.1, ISymlink pt.2)) <$> wk_symlinks acc) ++ file_items (wk_files acc).

Lemma push_path_items child path files :
  file_items (push_path child path files) ≡ₚ (path, IFile child) :: file_items files.
Proof.
  induction files as [|[i ps] files IH]; [done|]. simpl. destruct (Z.compare_spec child i); simpl.
  - subst. unfold file_items. simpl. rewrite fmap_app. simpl. rewrite <-app_assoc. simpl.
    by rewrite <-Permutation_middle.
  - done.
  - change (((fun p => (p, IFile i)) <$> ps) ++ file_items (push_path child path files) ≡ₚ
      (path, IFile child) :: ((fun p => (p, IFile i)) <$> ps) ++ file_items files).
    rewrite IH. by rewrite <-Permutation_middle.
Qed.

Section stage.
Context `{Unicode, Unordered}.

(** The groups of the walk: one for every file inode, in order. *)
Definition groups_ok (files : list (Z * list (list byte))) : Prop :=
  StronglySorted Z.lt files.*1 /\ Forall (fun f => f.2 <> []) files.

Lemma push_path_keys child path files x :
  x ∈ (push_path child path files).*1 <-> x = child \/ x ∈ files.*1.
Proof.
  induction files as [|[i ps] files IH]; [set_solver|]. simpl.
  destruct (Z.compare_spec child i); simpl; set_solver.
Qed.
Lemma push_path_ok child path files : groups_ok files -> groups_ok (push_path child path files).
Proof.
  unfold groups_ok. intros [Hs Hf]. induction files as [|[i ps] files IH]; simpl in *.
  { split; [repeat constructor|by repeat constructor]. }
  apply StronglySorted_inv in Hs as [Hs Hi]. apply Forall_cons in Hf as [Hp Hf].
  destruct (Z.compare_spec child i) as [->|Hlt|Hgt]; simpl.
  - split; [by constructor|]. constructor; [by destruct ps|done].
  - split; [|by repeat constructor]. constructor; [by constructor|]. constructor; [done|].
    eapply Forall_impl; [exact Hi|]. lia.
  - destruct (IH Hs Hf) as [Hs' Hf']. split; [|by constructor]. constructor; [done|].
    apply Forall_forall. intros x [->|Hx]%push_path_keys; [done|]. rewrite Forall_forall in Hi. by apply Hi.
Qed.

(** One child. *)
Lemma stage_child_flat prefix acc stack name child row it :
  item_of child row = Some it ->
  exists acc', stage_child prefix (acc, stack) (name, child, row)
      = Ok (acc', match it with IDirectory => (child, child_path prefix name) :: stack | _ => stack end) /\
    flat acc' ≡ₚ (child_path prefix name, it) :: flat acc /\
    (groups_ok (wk_files acc) -> groups_ok (wk_files acc')).
Proof.
  unfold item_of, stage_child. set (path := child_path prefix name).
  destruct (ir_kind row =? KIND_DIRECTORY); [intros [= <-]|destruct (ir_kind row =? KIND_FILE); [intros [= <-]|]].
  - eexists. split; [done|]. split; [|done]. unfold flat. simpl. rewrite fmap_app, <-app_assoc. simpl.
    by rewrite <-Permutation_middle.
  - eexists. split; [done|]. split; [|apply push_path_ok].
    unfold flat. cbn [wk_directories wk_symlinks wk_files]. rewrite push_path_items.
    rewrite !app_assoc. by rewrite <-Permutation_middle.
  - destruct (ir_symlink_target row) as [t|]; [|done]. intros [= <-]. eexists. split; [done|]. split; [|done].
    unfold flat. simpl. rewrite fmap_app, <-app_assoc. simpl. rewrite <-!Permutation_middle. done.
Qed.

(** The items and the directories of a list of children. *)
Definition child_items (prefix : list byte) (rows : list (list byte * Z * inodes_row)) : list (list byte * item) :=
  omap (fun row => let* it := item_of row.1.2 row.2 in Some (child_path prefix row.1.1, it)) rows.
Definition child_dirs (rows : list (list byte * Z * inodes_row)) : list (list byte * Z) :=
  omap (fun row => match item_of row.1.2 row.2 with Some IDirectory => Some (row.1.1, row.1.2) | _ => None end) rows.

Lemma stage_children_flat prefix rows acc stack :
  (forall row, row ∈ rows -> is_Some (item_of row.1.2 row.2)) ->
  exists acc', for_each (stage_child prefix) (acc, stack) rows
      = Ok (acc', ((fun ni => (ni.2, child_path prefix ni.1)) <$> rev (child_dirs rows)) ++ stack) /\
    flat acc' ≡ₚ child_items prefix rows ++ flat acc /\
    (groups_ok (wk_files acc) -> groups_ok (wk_files acc')).
Proof.
  revert acc stack. induction rows as [|[[name child] row] rows IH]; intros acc stack Hrows; [by exists acc|].
  destruct (Hrows (name, child, row)) as [it Hit]; [set_solver|]. simpl in Hit.
  destruct (stage_child_flat prefix acc stack name child row it Hit) as (acc1 & Hs & Hf & Hg).
  cbn [for_each]. rewrite Hs. cbn.
  destruct (IH acc1 (match it with IDirectory => (child, child_path prefix name) :: stack | _ => stack end))
    as (acc2 & -> & Hf2 & Hg2); [set_solver|].
  exists acc2. cbn. rewrite Hit. cbn. split; [|split; [|auto]].
  - destruct it; cbn; [|done..]. rewrite fmap_app, <-app_assoc. done.
  - rewrite Hf2, Hf. by rewrite <-Permutation_middle.
Qed.

Lemma elem_of_children d inode name child row :
  (name, child, row) ∈ children_of d inode <->
  dirents d !! (inode, name) = Some child /\ inodes d !! child = Some row.
Proof.
  unfold children_of. rewrite enumerate_perm, list_elem_of_omap. split.
  - intros ([[i n] c] & [Hi Hin]%list_elem_of_filter & Hr). simpl in *. apply elem_of_map_to_list in Hin. subst i.
    destruct (inodes d !! c) eqn:E; simplify_eq/=. done.
  - intros [Hd Hr]. exists (inode, name, child). simpl. rewrite Hr. split; [|done].
    apply list_elem_of_filter. split; [done|]. by apply elem_of_map_to_list.
Qed.

Lemma children_NoDup d inode : NoDup (children_of d inode).*1.*1.
Proof.
  unfold children_of. rewrite enumerate_perm.
  pose proof (NoDup_fst_map_to_list (dirents d)) as Hnd.
  induction (map_to_list (dirents d)) as [|[[i n] c] l IH]; [constructor|].
  simpl in Hnd. apply NoDup_cons in Hnd as [Hni Hnd]. rewrite filter_cons. simpl.
  case_decide; [|by apply IH]. simpl. destruct (inodes d !! c); [|by apply IH]. simpl. constructor; [|by apply IH].
  rewrite !list_elem_of_fmap. intros ([n' c'] & Hn & ([[n2 c2] r2] & Hc & Hin)%list_elem_of_fmap).
  simplify_eq/=. apply list_elem_of_omap in Hin as ([[i' n'] c'] & [Hi' Hin]%list_elem_of_filter & Hr).
  simpl in *. destruct (inodes d !! c'); simplify_eq/=. apply Hni.
  apply list_elem_of_fmap. by eexists (_, n2, c2).
Qed.

(** ** The walk *)

Section walk.
Context (d : db) (Ht : tree_shape d) (Hr : rows_ok d) (wid root : Z) (Hroot : rooted_at d wid root).

Abbreviation dir q i := (resolve_segments d (top root) q = Some (ResolvedInode i KIND_DIRECTORY)).

(** Every name under a directory, as the walk stages it. *)
Definition items_under (q : list (list byte)) : list (list byte * item) :=
  match resolve_segments d (top root) q with
  | Some i => child_items (join slash q) (children_of d (ri_id i))
  | None => []
  end.

(** The directories done, the ones waiting, and what was collected. *)
Record walking (V : list (list (list byte))) (F : list (list (list byte) * Z)) (acc : walked) : Prop := {
  wa_once : NoDup (V ++ F.*1);
  wa_done q : q ∈ V -> exists i, dir q i;
  wa_waiting q i : (q, i) ∈ F -> dir q i;
  wa_root : [] ∈ V ++ F.*1;
  wa_closed q n i : q ∈ V -> dir (q ++ [n]) i -> q ++ [n] ∈ V ++ F.*1;
  wa_parent q n : q ++ [n] ∈ V ++ F.*1 -> q ∈ V;
  wa_flat : flat acc ≡ₚ V ≫= items_under;
  wa_groups : groups_ok (wk_files acc)
}.

Lemma join_snoc q (n : list byte) :
  Forall (fun s => s <> []) q -> child_path (join slash q) n = join slash (q ++ [n]).
Proof.
  intros Hq. unfold child_path. destruct q as [|s q]; [done|].
  assert (join slash (s :: q) <> []) as Hne.
  { inversion Hq; subst. destruct q; [done|]. simpl. by destruct s. }
  rewrite decide_False by done. clear Hne Hq. revert s. induction q as [|t q IH]; intros s; [done|].
  change (join slash (s :: t :: q)) with (s ++ slash :: join slash (t :: q)).
  change (join slash ((s :: t :: q) ++ [n])) with (s ++ slash :: join slash ((t :: q) ++ [n])).
  rewrite <-IH, <-app_assoc. done.
Qed.

(** The segments of a name that resolves. *)
Lemma resolved_segments q i :
  resolve_segments d (top root) q = Some i -> Forall (fun s => (slash ∉ s) /\ safe_segment s) q.
Proof using Hr.
  revert i. induction q as [|n q IH] using rev_ind; intros i Hq; [constructor|].
  rewrite resolve_snoc in Hq. destruct (resolve_segments d (top root) q) as [j|] eqn:E; [|done].
  apply step_Some in Hq as (_ & He & _). apply Forall_app. split; [by eapply IH|].
  apply Forall_singleton. by eapply ro_name.
Qed.
Lemma resolved_nonempty q i :
  resolve_segments d (top root) q = Some i -> Forall (fun s => s <> []) q.
Proof using Hr.
  intros Hq%resolved_segments. eapply Forall_impl; [exact Hq|]. intros s [_ Hs]. by apply ss_nonempty.
Qed.

(** A join of segments determines them. *)
Lemma join_resolved_inj q1 q2 i1 i2 :
  resolve_segments d (top root) q1 = Some i1 -> resolve_segments d (top root) q2 = Some i2 ->
  join slash q1 = join slash q2 -> q1 = q2.
Proof using Hr.
  assert (forall q i, resolve_segments d (top root) q = Some i -> q <> [] -> join slash q <> []) as Hne.
  { intros q i Hq Hn. pose proof (resolved_nonempty q i Hq) as Hf. destruct q as [|s [|t q]]; [done|..];
      inversion Hf; subst; simpl; [done|]. by destruct s. }
  intros H1 H2 Hj. destruct (decide (q1 = [])) as [->|N1]; [|destruct (decide (q2 = [])) as [->|N2]].
  - destruct (decide (q2 = [])) as [->|N2]; [done|]. by destruct (Hne q2 i2).
  - by destruct (Hne q1 i1).
  - rewrite <-(split_on_join slash q1), <-(split_on_join slash q2); [by rewrite Hj|done| |done|].
    + eapply Forall_impl; [by eapply resolved_segments|]. by intros ? [].
    + eapply Forall_impl; [by eapply resolved_segments|]. by intros ? [].
Qed.

Lemma row_item i row : inodes d !! i = Some row -> is_Some (item_of i row).
Proof using Hr.
  intros Hi. destruct (ro_typed d Hr i row Hi) as (_ & _ & Hk). unfold item_of.
  destruct (ir_kind row =? KIND_DIRECTORY) eqn:E1; [eauto|].
  destruct (ir_kind row =? KIND_FILE) eqn:E2; [eauto|]. ztests.
  destruct Hk as [?|[[? _]|[_ [t ->]]]]; [done..|eauto].
Qed.

Lemma item_directory i row : item_of i row = Some IDirectory <-> ir_kind row = KIND_DIRECTORY.
Proof.
  unfold item_of. destruct (ir_kind row =? KIND_DIRECTORY) eqn:E1; ztests; [done|].
  destruct (ir_kind row =? KIND_FILE) eqn:E2; ztests; [done|]. by destruct (ir_symlink_target row).
Qed.

Lemma elem_of_child_dirs q i n c :
  dir q i -> (n, c) ∈ child_dirs (children_of d i) <-> dir (q ++ [n]) c.
Proof using Ht.
  intros Hq. unfold child_dirs. rewrite list_elem_of_omap, resolve_snoc, Hq, step_Some. simpl. split.
  - intros ([[n' c'] row] & [He Hi]%elem_of_children & Hit). simpl in *.
    destruct (item_of c' row) as [[]|] eqn:E; simplify_eq. apply item_directory in E. eauto.
  - intros (_ & He & row & Hi & Hk). exists (n, c, row). split; [by apply elem_of_children|]. simpl.
    by rewrite (proj2 (item_directory c row)).
Qed.

Lemma child_dirs_NoDup i : NoDup (child_dirs (children_of d i)).*1.
Proof.
  pose proof (children_NoDup d i) as Hnd. revert Hnd. unfold child_dirs.
  generalize (children_of d i). intros rows. induction rows as [|[[n c] row] rows IH]; [constructor|].
  simpl. intros [Hn Hnd]%NoDup_cons. destruct (item_of c row) as [[]|]; simpl; try (by apply IH).
  constructor; [|by apply IH]. intros ([n' c'] & -> & Hin)%list_elem_of_fmap. apply Hn.
  apply list_elem_of_omap in Hin as ([[n2 c2] r2] & Hin & Hit). simpl in Hit.
  destruct (item_of c2 r2) as [[]|]; simplify_eq/=.
  apply list_elem_of_fmap. exists (n', c'). split; [done|]. apply list_elem_of_fmap. by exists (n', c', r2).
Qed.

Definition stack_of (F : list (list (list byte) * Z)) : list (Z * list byte) :=
  (fun qi => (qi.2, join slash qi.1)) <$> F.
Definition below (q : list (list byte)) (i : Z) : list (list (list byte) * Z) :=
  (fun nc => (q ++ [nc.1], nc.2)) <$> rev (child_dirs (children_of d i)).

Lemma elem_of_below q i q' c :
  dir q i -> (q', c) ∈ below q i <-> exists n, q' = q ++ [n] /\ dir (q ++ [n]) c.
Proof using Ht.
  intros Hq. unfold below. rewrite list_elem_of_fmap. setoid_rewrite <-(elem_of_child_dirs q i _ _ Hq). split.
  - intros ([n c'] & [= -> ->] & Hin). rewrite <-Permutation_rev in Hin. eauto.
  - intros (n & -> & Hin). exists (n, c). rewrite <-Permutation_rev. done.
Qed.

Lemma walking_start : walking [] [([], root)] (Walked [] [] []).
Proof.
  constructor; simpl; try set_solver.
  - apply NoDup_singleton.
  - intros q n Hq%list_elem_of_singleton. by destruct q.
  - split; constructor.
Qed.

(** One turn of the outer loop. *)
Lemma walking_step V F q i acc :
  walking V ((q, i) :: F) acc ->
  exists acc', for_each (stage_child (join slash q)) (acc, stack_of F) (children_of d i)
      = Ok (acc', stack_of (below q i ++ F)) /\ walking (q :: V) (below q i ++ F) acc'.
Proof using Ht Hr Hroot.
  intros [W1 W2 W3 W4 W5 W6 W7 W8]. assert (dir q i) as Hq by (apply W3; set_solver).
  destruct (stage_children_flat (join slash q) (children_of d i) acc (stack_of F)) as (acc' & Hrun & Hflat & Hgroups).
  { intros [[n c] row] [_ Hi]%elem_of_children. by apply row_item. }
  exists acc'. rewrite Hrun. split.
  { f_equal. f_equal. unfold stack_of, below. rewrite fmap_app. f_equal.
    rewrite <-list_fmap_compose. apply list_fmap_ext. intros k [n c] _. simpl.
    by rewrite join_snoc by (by eapply resolved_nonempty). }
  assert (q ∉ V) as HqV.
  { apply NoDup_app in W1 as (_ & Hd & _). intros Hin. by apply (Hd q Hin); set_solver. }
  assert (forall q', q' ∈ (below q i).*1 -> q' ∉ V ++ q :: F.*1) as Hnew.
  { intros q' ([q1 c] & -> & (n & -> & _)%(elem_of_below q i q1 c Hq))%list_elem_of_fmap Hin.
    simpl in Hin. by apply W6 in Hin. }
  assert (NoDup (below q i).*1) as Hnd.
  { unfold below. rewrite <-list_fmap_compose.
    assert ((fst ∘ (fun nc => (q ++ [nc.1], nc.2))) <$> rev (child_dirs (children_of d i))
      = (fun n => q ++ [n]) <$> (rev (child_dirs (children_of d i))).*1) as ->.
    { rewrite <-list_fmap_compose. done. }
    apply NoDup_fmap_2; [intros n1 n2 Hn; by simplify_list_eq|].
    rewrite <-Permutation_rev. apply child_dirs_NoDup. }
  assert (forall x, x ∈ (q :: V) ++ (below q i ++ F).*1 <-> x ∈ (below q i).*1 \/ x ∈ V ++ q :: F.*1) as Hall.
  { intros x. rewrite fmap_app. set_solver. }
  constructor.
  - rewrite fmap_app. assert ((q :: V) ++ (below q i).*1 ++ F.*1 ≡ₚ (below q i).*1 ++ (V ++ q :: F.*1)) as ->.
    { rewrite <-(Permutation_middle V), <-(Permutation_middle (below q i).*1). simpl. constructor.
      rewrite !app_assoc. f_equiv. apply Permutation_app_comm. }
    apply NoDup_app. split; [done|]. split; [exact Hnew|exact W1].
  - intros x [->|Hx]%elem_of_cons; [eauto|by apply W2].
  - intros x c [(n & -> & ?)%elem_of_below|Hx]%elem_of_app; [done|done|]. apply W3. set_solver.
  - apply Hall. auto.
  - intros x n c [->|Hx]%elem_of_cons Hc; apply Hall.
    + left. apply list_elem_of_fmap. exists (q ++ [n], c). split; [done|]. apply elem_of_below; eauto.
    + right. by eapply W5.
  - intros x n [Hx|Hx]%Hall.
    + apply list_elem_of_fmap in Hx as ([q1 c] & Heq & (m & -> & _)%(elem_of_below q i q1 c Hq)).
      simpl in Heq. apply app_inj_2 in Heq as [-> _]; [set_solver|done].
    + set_solver.
  - rewrite Hflat, W7. simpl. unfold items_under at 2. by rewrite Hq.
  - by apply Hgroups.
Qed.

(** The walk ends within its fuel: every directory but the root is the child of
    one entry. *)
Lemma walking_bound V F acc : walking V F acc -> (length V + length F <= S (size (dirents d)))%nat.
Proof using Ht Hr Hroot.
  intros W. set (L := V ++ F.*1).
  assert (forall q, q ∈ L -> exists i, dir q i) as HL.
  { intros q [Hq|([q' i] & -> & Hq)%list_elem_of_fmap]%elem_of_app; [by eapply wa_done|].
    exists i. by eapply wa_waiting. }
  set (ident q := match resolve_segments d (top root) q with Some i => ri_id i | None => 0 end).
  assert (forall k, dirents d !! k <> Some root) as Hno.
  { destruct Hroot as (row & Hw & <-). apply (ts_root d Ht _ _ Hw). }
  assert (NoDup (ident <$> L)) as Hnd.
  { apply NoDup_fmap_2_strong; [|exact (wa_once _ _ _ W)].
    intros q1 q2 [i1 H1]%HL [i2 H2]%HL. unfold ident. rewrite H1, H2. simpl. intros <-.
    by eapply (dir_path_unique d Ht root). }
  assert (ident <$> L ⊆+ root :: (map_to_list (dirents d)).*2) as Hsub.
  { apply NoDup_submseteq; [done|]. intros x (q & -> & Hq)%list_elem_of_fmap.
    destruct (HL q Hq) as [i Hi]. unfold ident. rewrite Hi. simpl.
    destruct q as [|n q _] using rev_ind; [injection Hi as <-; set_solver|].
    rewrite resolve_snoc in Hi. destruct (resolve_segments d (top root) q) as [j|]; [|done].
    apply step_Some in Hi as (_ & He & _). simpl in He. right.
    apply list_elem_of_fmap. exists (ri_id j, n, i). split; [done|]. by apply elem_of_map_to_list. }
  apply submseteq_length in Hsub. simpl in Hsub. rewrite !length_fmap, length_map_to_list in Hsub.
  unfold L in Hsub. rewrite length_app, length_fmap in Hsub. lia.
Qed.

Lemma stage_walk_runs fuel V F acc :
  walking V F acc -> (S (size (dirents d)) <= fuel + length V)%nat ->
  exists acc' V', stage_walk fuel d acc (stack_of F) = Some (Ok acc') /\ walking V' [] acc'.
Proof using Ht Hr Hroot.
  revert V F acc. induction fuel as [|fuel IH]; intros V F acc W Hfuel.
  - destruct F as [|[q i] F]; [by exists acc, V|]. pose proof (walking_bound _ _ _ W) as Hb. simpl in Hb. lia.
  - destruct F as [|[q i] F]; [by exists acc, V|].
    destruct (walking_step _ _ _ _ _ W) as (acc' & Hrun & W'). 
    change (stack_of ((q, i) :: F)) with ((i, join slash q) :: stack_of F). cbn [stage_walk]. rewrite Hrun. apply (IH (q :: V)); [done|]. simpl. lia.
Qed.

(** What was staged, once the walk is over: the names that resolve, each once. *)
Definition named (path : list byte) (i : resolved_inode) : Prop :=
  exists q, q <> [] /\ path = join slash q /\ resolve_segments d (top root) q = Some i.

Lemma elem_of_items_under q i path it :
  dir q i -> (path, it) ∈ items_under q <->
  exists n c row, path = join slash (q ++ [n]) /\ dirents d !! (i, n) = Some c /\
    inodes d !! c = Some row /\ item_of c row = Some it.
Proof using Hr.
  intros Hq. unfold items_under, child_items. rewrite Hq, list_elem_of_omap. simpl. split.
  - intros ([[n c] row] & [He Hi]%elem_of_children & Hit). simpl in *.
    destruct (item_of c row) eqn:E; simplify_eq/=. exists n, c, row.
    by rewrite join_snoc by (by eapply resolved_nonempty).
  - intros (n & c & row & -> & He & Hi & Hit). exists (n, c, row). split; [by apply elem_of_children|]. simpl.
    rewrite Hit. simpl. by rewrite join_snoc by (by eapply resolved_nonempty).
Qed.

Lemma walking_all V acc : walking V [] acc -> forall q i, dir q i -> q ∈ V.
Proof using Ht.
  intros W q. induction q as [|n q IH] using rev_ind; intros i Hq.
  - pose proof (wa_root _ _ _ W) as Hw. by rewrite app_nil_r in Hw.
  - pose proof Hq as Hq'. rewrite resolve_snoc in Hq. destruct (resolve_segments d (top root) q) as [[j k]|] eqn:E; [|done].
    apply step_Some in Hq as (Hk & _). simpl in Hk. subst k.
    pose proof (wa_closed _ _ _ W q n i (IH j eq_refl) Hq') as Hc. by rewrite app_nil_r in Hc.
Qed.

Lemma walking_items V acc path it :
  walking V [] acc ->
  (path, it) ∈ flat acc <-> exists i row, named path i /\ inodes d !! ri_id i = Some row /\
    item_of (ri_id i) row = Some it.
Proof using Ht Hr.
  intros W. rewrite (wa_flat _ _ _ W), list_elem_of_bind. split.
  - intros (q & Hin & HqV). destruct (wa_done _ _ _ W q HqV) as [j Hj].
    apply (elem_of_items_under q j) in Hin as (n & c & row & -> & He & Hi & Hit); [|done].
    exists (ResolvedInode c (ir_kind row)), row. split; [|done].
    exists (q ++ [n]). split; [by destruct q|]. split; [done|]. rewrite resolve_snoc, Hj.
    apply step_Some. simpl. eauto.
  - intros (i & row & (q & Hne & -> & Hq) & Hi & Hit).
    destruct q as [|n q _] using rev_ind; [done|]. pose proof Hq as Hq'. rewrite resolve_snoc in Hq.
    destruct (resolve_segments d (top root) q) as [[j k]|] eqn:E; [|done].
    apply step_Some in Hq as (Hk & He & _). simpl in Hk. subst k. exists q.
    split; [|by eapply walking_all]. apply (elem_of_items_under q j); [done|]. eauto 10.
Qed.

Lemma walking_NoDup V acc : walking V [] acc -> NoDup (flat acc).*1.
Proof using Ht Hr Hroot.
  intros W. rewrite (wa_flat _ _ _ W).
  assert ((V ≫= items_under).*1 = V ≫= (fun q => (items_under q).*1)) as ->.
  { clear W. induction V as [|q V IH]; [done|]. rewrite !bind_cons, fmap_app. by f_equal. }
  pose proof (wa_once _ _ _ W) as Hnd. rewrite app_nil_r in Hnd.
  assert (forall q path, q ∈ V -> path ∈ (items_under q).*1 ->
    exists n i, path = join slash (q ++ [n]) /\ resolve_segments d (top root) (q ++ [n]) = Some i) as Hin.
  { intros q path Hq ([path' it] & -> & Hin)%list_elem_of_fmap. destruct (wa_done _ _ _ W q Hq) as [j Hj].
    pose proof (proj1 (elem_of_items_under q j path' it Hj) Hin) as (n & c & row & Hp & He & Hi & Hit).
    exists n, (ResolvedInode c (ir_kind row)). split; [done|]. rewrite resolve_snoc, Hj. apply step_Some. simpl. eauto. }
  apply NoDup_bind; [| |done].
  - intros q1 q2 path V1 V2 (n1 & i1 & -> & R1)%Hin (n2 & i2 & Hj & R2)%Hin; [|done..].
    apply (join_resolved_inj _ _ _ _ R1 R2) in Hj. by apply app_inj_tail in Hj as [-> _].
  - intros q Hq. destruct (wa_done _ _ _ W q Hq) as [j Hj]. unfold items_under. rewrite Hj. simpl.
    pose proof (resolved_nonempty _ _ Hj) as Hne.
    pose proof (children_NoDup d j) as Hnc. revert Hnc.
    assert (forall row, row ∈ children_of d j -> exists i, resolve_segments d (top root) (q ++ [row.1.1]) = Some i) as Hres.
    { intros [[n c] row] [He Hi]%elem_of_children. exists (ResolvedInode c (ir_kind row)).
      rewrite resolve_snoc, Hj. apply step_Some. simpl. eauto. }
    revert Hres. generalize (children_of d j). intros rows. unfold child_items.
    induction rows as [|[[n c] row] rows IH]; [constructor|]. intros Hres. simpl. intros [Hn Hnc]%NoDup_cons.
    assert (NoDup (omap (fun row => let* it := item_of row.1.2 row.2 in
      Some (child_path (join slash q) row.1.1, it)) rows).*1) as Hrest.
    { apply IH; [|done]. intros r Hr1. apply Hres. set_solver. }
    destruct (item_of c row); [|done]. simpl. constructor; [|done].
    intros ([p' it'] & Hp & Hin')%list_elem_of_fmap. simpl in Hp.
    apply list_elem_of_omap in Hin' as ([[n' c'] row'] & Hin' & Hit). simpl in Hit.
    destruct (item_of c' row') as [it2|]; [|done]. simpl in Hit. injection Hit as Hp' _.
    rewrite <-Hp', !join_snoc in Hp by done.
    destruct (Hres (n, c, row)) as [i1 R1]; [set_solver|]. destruct (Hres (n', c', row')) as [i2 R2]; [set_solver|].
    apply (join_resolved_inj _ _ _ _ R1 R2) in Hp. apply app_inj_tail in Hp as [_ Hp].
    simpl in Hp. subst n'. apply Hn. apply list_elem_of_fmap. exists (n, c'). split; [done|]. apply list_elem_of_fmap. by exists (n, c', row').
Qed.

(** ** The builder *)

Definition file_pendings (f : Z * list (list byte)) : list (list byte * pending) :=
  match node_at d f.1, sort_by bytes_cmp f.2 with
  | Some (AFile x planner contract records), carrier :: others =>
      (carrier, PFile x planner contract records) ::
      ((fun path => (path, PHardlinkTo carrier)) <$> others)
  | _, _ => []
  end.

Lemma push_links b carrier paths :
  foldl (fun b path => builder_hardlink b path carrier) b paths
  = SnapshotBuilder (b_parent b) (b_pending b ++ ((fun path => (path, PHardlinkTo carrier)) <$> paths)).
Proof.
  revert b. induction paths as [|p paths IH]; intros [parent pending]; simpl; [by rewrite app_nil_r|].
  rewrite IH. simpl. by rewrite <-app_assoc.
Qed.
Lemma push_directories b paths :
  foldl builder_directory b paths
  = SnapshotBuilder (b_parent b) (b_pending b ++ ((fun path => (path, PDirectory)) <$> paths)).
Proof.
  revert b. induction paths as [|p paths IH]; intros [parent pending]; simpl; [by rewrite app_nil_r|].
  rewrite IH. simpl. by rewrite <-app_assoc.
Qed.
Lemma push_symlinks b links :
  foldl (fun b pt => builder_symlink b pt.1 pt.2) b links
  = SnapshotBuilder (b_parent b) (b_pending b ++ ((fun pt => (pt.1, PSymlink pt.2)) <$> links)).
Proof.
  revert b. induction links as [|p links IH]; intros [parent pending]; simpl; [by rewrite app_nil_r|].
  rewrite IH. simpl. by rewrite <-app_assoc.
Qed.

Definition file_group (f : Z * list (list byte)) : Prop :=
  f.2 <> [] /\ exists x p c rs, node_at d f.1 = Some (AFile x p c rs).

Lemma stage_file_runs b f :
  file_group f -> stage_file d b f = Ok (SnapshotBuilder (b_parent b) (b_pending b ++ file_pendings f)).
Proof.
  destruct f as [i ps]. intros (Hne & x & p & c & rs & Hn). unfold file_pendings. simpl in *. rewrite Hn.
  unfold stage_file. unfold node_at in Hn. destruct (inodes d !! i) as [row|]; [|done]. simpl in *.
  destruct (ir_kind row =? KIND_DIRECTORY); [done|]. destruct (ir_kind row =? KIND_FILE);
    [|by destruct (ir_symlink_target row)].
  destruct (ir_planner row); [|done]. simpl in *. destruct (read_records d i); simplify_eq/=.
  destruct (sort_by bytes_cmp ps) as [|carrier others] eqn:Es.
  - pose proof (sort_by_perm bytes_cmp ps) as Hperm. rewrite Es in Hperm.
    by apply Permutation_nil in Hperm.
  - f_equal. rewrite push_links. simpl. by rewrite <-app_assoc.
Qed.

Lemma stage_files_run b files :
  Forall file_group files ->
  for_each (stage_file d) b files = Ok (SnapshotBuilder (b_parent b) (b_pending b ++ (files ≫= file_pendings))).
Proof.
  intros Hf. revert b. induction Hf as [|f files Hf _ IH]; intros b; simpl.
  - rewrite app_nil_r. by destruct b.
  - rewrite stage_file_runs by done. cbn. rewrite IH. simpl. by rewrite <-app_assoc.
Qed.

Lemma file_pendings_paths f : file_group f -> (file_pendings f).*1 ≡ₚ f.2.
Proof.
  destruct f as [i ps]. intros (Hne & x & p & c & rs & Hn). unfold file_pendings. simpl in *. rewrite Hn.
  pose proof (sort_by_perm bytes_cmp ps) as Hperm.
  destruct (sort_by bytes_cmp ps) as [|carrier others].
  - by apply Permutation_nil in Hperm.
  - simpl. rewrite <-list_fmap_compose. rewrite <-Hperm. by rewrite list_fmap_id.
Qed.

Lemma item_node i row it :
  inodes d !! i = Some row -> item_of i row = Some it ->
  match it with
  | IDirectory => node_at d i = Some ADirectory
  | ISymlink target => node_at d i = Some (ASymlink target)
  | IFile j => j = i /\ exists x p c rs, node_at d i = Some (AFile x p c rs)
  end.
Proof using Hr.
  intros Hi Hit. pose proof (ro_typed d Hr i row Hi) as Hty. unfold item_of in Hit. 
  destruct (ir_kind row =? KIND_DIRECTORY) eqn:E1; [simplify_eq; unfold node_at; by rewrite Hi; simpl; rewrite E1|].
  destruct (ir_kind row =? KIND_FILE) eqn:E2.
  - simplify_eq. split; [done|]. destruct (ro_run d Hr i) as (rs & Hrun & Hwf). ztests.
    destruct (node_at_run d i row rs Hi) as (p & _ & Hn); [done..|]. eauto.
  - destruct (ir_symlink_target row) eqn:Et; simplify_eq/=. unfold node_at. rewrite Hi. simpl.
    by rewrite E1, E2, Et.
Qed.

(** A declaration says what its name holds. *)
Definition staged_as (b : builder) (i : resolved_inode) (p : pending) : Prop :=
  match p with
  | PDirectory => node_at d (ri_id i) = Some ADirectory
  | PSymlink target => node_at d (ri_id i) = Some (ASymlink target)
  | PFile x planner contract records => node_at d (ri_id i) = Some (AFile x planner contract records)
  | PHardlinkTo carrier => exists x planner contract records,
      node_at d (ri_id i) = Some (AFile x planner contract records) /\
      (carrier, PFile x planner contract records) ∈ b_pending b
  end.

Lemma stage_builder_runs head parent :
  exists b, stage_builder d (WorkspaceRow wid head root) parent = Some (Ok b) /\ b_parent b = parent /\
    NoDup (b_pending b).*1 /\
    (forall path, path ∈ (b_pending b).*1 <-> exists i, named path i) /\
    (forall path p, (path, p) ∈ b_pending b -> exists i, named path i /\ staged_as b i p).
Proof using Ht Hr Hroot.
  destruct (stage_walk_runs (S (size (dirents d))) [] [([], root)] (Walked [] [] []))
    as (acc & V & Hwalk & W); [apply walking_start|simpl; lia|].
  unfold stage_builder. cbn [w_root_inode]. change (stack_of [([], root)]) with [(root, [] : list byte)] in Hwalk.
  rewrite Hwalk, push_directories, push_symlinks. cbn [b_parent b_pending builder_new app].
  assert (forall path it, (path, it) ∈ flat acc -> exists i row, named path i /\
    inodes d !! ri_id i = Some row /\ item_of (ri_id i) row = Some it) as Hitems
    by (intros; by apply (walking_items V acc)).
  assert (forall i ps path, (i, ps) ∈ wk_files acc -> path ∈ ps -> (path, IFile i) ∈ flat acc) as Hfiles.
  { intros i ps path Hin Hp. unfold flat, file_items. rewrite !elem_of_app, list_elem_of_bind. right. right.
    exists (i, ps). split; [|done]. apply list_elem_of_fmap. eauto. }
  assert (Forall file_group (wk_files acc)) as Hgroups.
  { destruct (wa_groups _ _ _ W) as [_ Hne]. rewrite Forall_forall in *. intros [i ps] Hin.
    specialize (Hne _ Hin). simpl in Hne. split; [done|]. destruct ps as [|path ps]; [done|].
    destruct (Hitems path (IFile i)) as (j & row & _ & Hj & Hit); [apply (Hfiles i (path :: ps)); set_solver|].
    destruct (item_node _ _ _ Hj Hit) as [-> ?]. done. }
  rewrite stage_files_run by done. eexists. split; [done|]. split; [done|]. cbn [b_pending].
  set (decl := _ ++ _).
  assert (decl.*1 ≡ₚ (flat acc).*1) as Hperm.
  { assert ((wk_files acc ≫= file_pendings).*1 ≡ₚ (file_items (wk_files acc)).*1) as Hfp.
    { unfold file_items. clear - Hgroups. induction Hgroups as [|f fs Hf _ IH]; [done|].
      rewrite !bind_cons, !fmap_app, IH. f_equiv. rewrite file_pendings_paths by done.
      rewrite <-list_fmap_compose. simpl. by rewrite list_fmap_id. }
    unfold decl, flat. rewrite !fmap_app, Hfp, <-app_assoc. by rewrite <-!list_fmap_compose. }
  split; [|split].
  - rewrite Hperm. by eapply walking_NoDup.
  - intros path. rewrite Hperm, list_elem_of_fmap. split.
    + intros ([path' it] & -> & (i & row & Hn & _)%Hitems). eauto.
    + intros (i & Hn). pose proof Hn as (q & _ & _ & Hq).
      destruct (resolved_row d Ht wid root Hroot q (ri_id i) (ri_kind i)) as (row & Hi & _); [by destruct i|].
      destruct (row_item _ _ Hi) as [it Hit]. exists (path, it). split; [done|].
      apply (walking_items V acc); eauto.
  - assert (forall path it, (path, it) ∈ flat acc -> exists i, named path i /\
      match it with
      | IDirectory => node_at d (ri_id i) = Some ADirectory
      | ISymlink target => node_at d (ri_id i) = Some (ASymlink target)
      | IFile j => j = ri_id i
      end) as Hnodes.
    { intros path it (i & row & Hn & Hi & Hit)%Hitems. exists i. split; [done|].
      pose proof (item_node _ _ _ Hi Hit). by destruct it; naive_solver. }
    intros path p. unfold decl at 1. rewrite !elem_of_app, !list_elem_of_fmap. simpl.
    intros [[(path' & [= -> ->] & Hin)|([path' t] & [= -> ->] & Hin)]|Hin].
    + destruct (Hnodes path' IDirectory) as (i & ? & ?); [|eauto].
      unfold flat. rewrite !elem_of_app, !list_elem_of_fmap. eauto.
    + destruct (Hnodes path' (ISymlink t)) as (i & ? & ?); [|eauto].
      unfold flat. rewrite !elem_of_app, !list_elem_of_fmap. right. left. by exists (path', t).
    + apply list_elem_of_bind in Hin as ([j ps] & Hin & Hf). rewrite Forall_forall in Hgroups.
      pose proof (Hgroups _ Hf) as Hg. assert (path ∈ ps) as Hps.
      { rewrite <-(file_pendings_paths (j, ps) Hg). apply list_elem_of_fmap. by exists (path, p). }
      destruct (Hnodes path (IFile j)) as (i & Hn & ->); [by eapply Hfiles|]. exists i. split; [done|].
      destruct Hg as (_ & x & pl & c & rs & Hnode). simpl in Hnode.
      assert (forall pp, pp ∈ file_pendings (ri_id i, ps) -> pp ∈ decl) as Hdecl.
      { intros pp Hpp. unfold decl. rewrite !elem_of_app. right. apply list_elem_of_bind. eauto. }
      unfold file_pendings in Hin, Hdecl. simpl in *. rewrite Hnode in Hin, Hdecl.
      destruct (sort_by bytes_cmp ps) as [|carrier others]; [by apply not_elem_of_nil in Hin|].
      apply elem_of_cons in Hin as [[= -> ->]|(q & [= -> ->] & Hq)%list_elem_of_fmap]; [done|].
      simpl. exists x, pl, c, rs. split; [done|]. apply Hdecl. set_solver.
Qed.
End walk.

(** ** The snapshot of a workspace *)

(** The digests the record maps of some workspace hold. *)
Definition head_digest (d : db) (digest : list byte) : Prop :=
  exists key row, object_maps d !! key = Some row /\ or_digest row = Some digest.

Lemma elem_of_data_digests digest records :
  digest ∈ data_digests records <-> exists length, Data digest length ∈ records.
Proof.
  unfold data_digests. rewrite list_elem_of_omap. split.
  - intros ([dg n|] & Hin & Hd); simplify_eq/=. eauto.
  - intros (n & Hin). by exists (Data digest n).
Qed.

Lemma head_digest_run d i records digest :
  run_at d i records -> digest ∈ data_digests records -> head_digest d digest.
Proof.
  intros Hrun (n & [k Hk]%list_elem_of_lookup)%elem_of_data_digests.
  exists (i, Z.of_nat k), (record_to_row (Data digest n)). split; [|done].
  apply (run_at_lookup _ _ _ _ _ Hrun). eauto.
Qed.

Lemma node_file_run d i x p c rs :
  rows_ok d -> node_at d i = Some (AFile x p c rs) -> run_at d i rs /\ wf_run rs /\ wf_stamp c.
Proof.
  intros Hr Hn. unfold node_at in Hn. destruct (inodes d !! i) as [row|] eqn:Ei; [|done]. simpl in Hn.
  destruct (ir_kind row =? KIND_DIRECTORY); [done|]. destruct (ir_kind row =? KIND_FILE);
    [|by destruct (ir_symlink_target row)].
  destruct (ir_planner row); [|done]. simpl in Hn.
  destruct (ro_run d Hr i) as (rs' & Hrun & Hwf). rewrite (read_records_run _ _ _ Hrun (proj1 Hwf)) in Hn.
  destruct (ro_typed d Hr i row Ei) as (_ & (c' & Hc & Hcr) & _).
  rewrite Hcr, contract_row_round_trip in Hn by done.
  by simplify_eq.
Qed.

(** What a snapshot path reads as, against the file system it was taken of. *)
Definition reads_as (snap : snapshot) (path : list byte) (a : anode) : Prop :=
  match a with
  | ADirectory => content_at snap path = Some Directory
  | ASymlink target => content_at snap path = Some (Symlink target)
  | AFile x planner contract records =>
      exists body, canonical_body planner contract records = Ok body /\
        content_at snap path = Some (File x body)
  end.

Lemma elem_of_manifest_objects snap digest :
  digest ∈ manifest_objects snap <->
  exists path x body, (path, File x body) ∈ s_entries snap /\ digest ∈ body_objects body.
Proof.
  unfold manifest_objects. induction (s_entries snap) as [|[path e] es IH]; [set_solver|]. simpl.
  destruct e as [|x body|t|o]; rewrite ?elem_of_union, IH; clear IH; set_solver.
Qed.

Lemma canonical_body_objects p c rs body digest :
  canonical_body p c rs = Ok body -> digest ∈ body_objects body -> digest ∈ data_digests rs.
Proof.
  unfold canonical_body. destruct (planner_tensor_format p).
  - destruct (validate_records _ _) as [[]|]; [|done]. intros [= <-]. simpl. by rewrite elem_of_list_to_set.
  - destruct rs as [|[dg n|n] [|r rs]]; try done; intros [= <-]; simpl; [set_solver|].
    destruct (n =? 0); set_solver.
Qed.

Lemma finish_sorted b s : finish b = Some (Ok s) -> bt_sorted (s_entries s).
Proof.
  intros (entries & groups & res & Hc & _ & Hn & _ & Hf & _)%finish_inv. unfold bt_sorted.
  rewrite (same_entry_keys _ _ Hf), (numbered_keys _ _ Hn), relabelled_keys. apply Hc.
Qed.

(** Its strings are strings: names and link targets are [TEXT] columns. *)
Definition text_ok (d : db) : Prop :=
  (forall k c, dirents d !! k = Some c -> is_utf8 k.2) /\
  (forall i row t, inodes d !! i = Some row -> ir_symlink_target row = Some t -> is_utf8 t).

Lemma join_utf8 q : Forall is_utf8 q -> is_utf8 (join slash q).
Proof.
  induction 1 as [|s q Hs Hq IH]; [done|]. destruct q as [|t q]; [done|].
  change (join slash (s :: t :: q)) with (s ++ slash :: join slash (t :: q)). unfold is_utf8 in *.
  rewrite utf8_split by done. by rewrite Hs, IH.
Qed.

Lemma entries_below_bytes snap : zlen (s_entries snap) <= zlen (to_bytes snap).
Proof.
  assert (zlen (s_entries snap) <= zlen (s_entries snap ≫= emit_path_entry)) as Hle.
  { pose proof (zlen_bind emit_path_entry 1 (s_entries snap)) as Hb. rewrite Z.mul_1_l in Hb. apply Hb.
    intros pe _. unfold emit_path_entry. autorewrite with zlen.
    pose proof (zlen_nonneg pe.1). pose proof (zlen_nonneg (emit_entry pe.2)). lia. }
  unfold to_bytes, emit. autorewrite with zlen.
  pose proof (zlen_nonneg MAGIC). pose proof (zlen_nonneg (emit_parent (s_parent snap))). lia.
Qed.

Section snapshot.
Context (d : db) (Hd : db_inv d) (w : workspace_row_t) (Hroot : rooted_at d (w_id w) (w_root_inode w)).

Abbreviation fs := (view d (w_root_inode w)).

Lemma stage_builder_view parent :
  exists b, stage_builder d w parent = Some (Ok b) /\ b_parent b = parent /\ NoDup (b_pending b).*1 /\
    (forall path, path ∈ (b_pending b).*1 <-> exists i, named d (w_root_inode w) path i) /\
    (forall path p, (path, p) ∈ b_pending b -> exists i, named d (w_root_inode w) path i /\ staged_as d b i p).
Proof using Hd Hroot.
  destruct Hd as [Ht Hr], w as [wid head root]. by apply stage_builder_runs.
Qed.

(** A builder's declaration of a name reads as the name's node. *)
Lemma declared_reads b snap path i p :
  (forall path p, (path, p) ∈ b_pending b -> declared_content snap path p) ->
  (path, p) ∈ b_pending b -> staged_as d b i p ->
  exists a, node_at d (ri_id i) = Some a /\ reads_as snap path a.
Proof.
  intros Hdecl Hin Hst. pose proof (Hdecl _ _ Hin) as Hc.
  destruct p as [|x pl c rs|t|carrier]; simpl in *; [by exists ADirectory|by exists (AFile x pl c rs)|by exists (ASymlink t)|].
  destruct Hst as (x & pl & c & rs & Hn & Hcar). exists (AFile x pl c rs). split; [done|].
  apply Hdecl in Hcar as (body & Hb & Hcb). destruct Hc as (x' & body' & Hp & Hcar'). simpl. exists body.
  split; [done|]. by rewrite Hp, <-Hcar', Hcb.
Qed.

Lemma build_snapshot_view parent snap :
  build_snapshot d w parent = Some (Ok snap) ->
  s_parent snap = parent /\
  (forall path, path ∈ (s_entries snap).*1 <->
     exists q, q <> [] /\ path = join slash q /\ is_Some (names fs q)) /\
  (forall q i, q <> [] -> names fs q = Some i ->
     exists a, nodes fs i = Some a /\ reads_as snap (join slash q) a).
Proof using Hd Hroot.
  intros Hb. unfold build_snapshot in Hb. destruct (stage_builder_view parent) as (b & Hs & Hp & Hnd & Hpaths & Hdecl).
  rewrite Hs in Hb. simpl in Hb. destruct (finish b) as [[s|e]|] eqn:Ef; [|done..]. injection Hb as ->.
  pose proof (finish_inv _ _ Ef) as (_ & _ & _ & _ & _ & _ & _ & _ & Hpar).
  destruct (finish_declared _ _ Ef) as [Hkeys Hcontent].
  split; [congruence|]. split.
  - intros path. rewrite Hkeys, Hpaths. unfold named. simpl. split.
    + intros (i & q & Hne & -> & Hq). exists q. rewrite Hq. eauto.
    + intros (q & Hne & -> & Hq). destruct (resolve_segments _ _ q) as [i|] eqn:E; [eauto 10|by destruct Hq].
  - intros q i Hne Hq. simpl in Hq. destruct (resolve_segments _ _ q) as [j|] eqn:E; [|done]. injection Hq as <-.
    assert (join slash q ∈ (b_pending b).*1) as Hin by (apply Hpaths; exists j, q; done).
    apply list_elem_of_fmap in Hin as ([path p] & Hpath & Hin). simpl in Hpath. subst path.
    destruct (Hdecl _ _ Hin) as (j' & (q' & Hne' & Hj & Hq') & Hst).
    destruct Hd as [Ht Hr]. apply (join_resolved_inj d Hr (w_root_inode w) q q' j j' E Hq') in Hj. subst q'.
    rewrite E in Hq'. injection Hq' as <-. by eapply declared_reads.
Qed.

(** Its digests are the heads'. *)
Lemma build_snapshot_digests parent snap digest :
  build_snapshot d w parent = Some (Ok snap) -> digest ∈ manifest_objects snap -> head_digest d digest.
Proof using Hd Hroot.
  intros Hb (path & x & body & Hin & Hdg)%elem_of_manifest_objects.
  destruct (build_snapshot_view parent snap Hb) as (_ & Hpaths & Hreads).
  assert (bt_sorted (s_entries snap)) as Hs.
  { unfold build_snapshot in Hb. destruct (stage_builder d w parent) as [[b|]|]; [|done..].
    simpl in Hb. destruct (finish b) as [[s|e]|] eqn:Ef; [|done..]. injection Hb as <-. by eapply finish_sorted. }
  assert (content_at snap path = Some (File x body)) as Hc.
  { unfold content_at, entry_at. by rewrite (proj2 (bt_get_Some path (File x body) _ Hs) Hin). }
  assert (path ∈ (s_entries snap).*1) as (q & Hne & -> & i & Hq)%Hpaths.
  { apply list_elem_of_fmap. by exists (path, File x body). }
  destruct (Hreads q i Hne Hq) as (a & Hn & Ha). destruct a as [|x' p c rs|t]; simpl in Ha; try congruence.
  destruct Ha as (body' & Hcb & Hc'). assert (body' = body) as -> by congruence.
  destruct Hd as [_ Hr]. destruct (node_file_run d i x' p c rs Hr Hn) as (Hrun & _).
  eapply head_digest_run; [done|]. by eapply canonical_body_objects.
Qed.

Lemma named_utf8 path i : text_ok d -> named d (w_root_inode w) path i -> is_utf8 path.
Proof.
  intros [Hn _] (q & _ & -> & Hq). apply join_utf8. revert i Hq.
  induction q as [|n q IH] using rev_ind; intros i Hq; [constructor|].
  rewrite resolve_snoc in Hq. destruct (resolve_segments d _ q) as [j|]; [|done].
  apply step_Some in Hq as (_ & He & _). apply Forall_app. split; [by eapply IH|].
  apply Forall_singleton. by apply Hn in He.
Qed.

Lemma build_snapshot_wf parent snap :
  text_ok d -> (forall id, parent = Some id -> zlen id = 32) ->
  build_snapshot d w parent = Some (Ok snap) -> zlen (to_bytes snap) < U64 -> wf_snapshot snap.
Proof using Hd Hroot.
  intros Htext Hpar Hb Hlen. unfold build_snapshot in Hb.
  destruct (stage_builder_view parent) as (b & Hs & Hp & Hnd & Hpaths & Hdecl).
  rewrite Hs in Hb. simpl in Hb. destruct (finish b) as [[s|e]|] eqn:Ef; [|done..]. injection Hb as ->.
  apply (finish_wf_lemma b snap); [|done]. constructor.
  - rewrite Hp. apply Hpar.
  - apply Forall_forall. intros [path p] Hin. destruct (Hdecl _ _ Hin) as (i & Hn & Hst).
    split; [by eapply named_utf8|]. simpl. destruct Hd as [_ Hr].
    destruct p as [|x pl c rs|t|carrier]; [done|..]; simpl in Hst.
    + destruct (node_file_run d _ _ _ _ _ Hr Hst) as (_ & [Hwf _] & Hc). done.
    + unfold node_at in Hst. destruct (inodes d !! ri_id i) as [row|] eqn:Ei; [|done]. simpl in Hst.
      destruct (_ =? _); [done|]. destruct (_ =? _).
      * destruct (ir_planner row); [|done]. simpl in Hst. by destruct (read_records _ _).
      * destruct (ir_symlink_target row) eqn:Et; [|done]. simplify_eq/=. by eapply Htext.
    + destruct Hst as (x & pl & c & rs & _ & Hcar). destruct (Hdecl _ _ Hcar) as (j & Hnj & _).
      by eapply named_utf8.
  - destruct (finish_declared _ _ Ef) as [Hkeys _]. apply Permutation_length in Hkeys.
    rewrite !length_fmap in Hkeys. pose proof (entries_below_bytes snap) as He. unfold zlen in *. lia.
Qed.
End snapshot.

(** A manifest's bytes determine it. *)
Lemma to_bytes_inj (s1 s2 : snapshot) :
  wf_snapshot s1 -> wf_snapshot s2 -> zlen (to_bytes s1) < U64 -> to_bytes s1 = to_bytes s2 -> s1 = s2.
Proof.
  intros W1 W2 Hl He. set (unlimited := {| try_reserve := fun _ => true |}).
  assert (forall s : snapshot, wf_snapshot s -> zlen (to_bytes s) < U64 -> decode (H0 := unlimited) (to_bytes s) = Ok s) as Hd.
  { intros s Hw Hs. apply decode_complete; [done..|]. by apply memory_allocated. }
  pose proof (Hd s1 W1 Hl) as E1. rewrite He in E1. rewrite (Hd s2 W2) in E1 by (by rewrite <-He). by simplify_eq.
Qed.
End stage.
