(* ===== verification/GcFacts.v ===== *)
(** What garbage collection guarantees: the mark is exactly the set of digests
    some root reaches, a pass removes only objects that were unreached for two
    epochs and keeps every other, and on a store where nothing fails an object
    nothing reaches is gone after three passes. *)

From S2P Require Export Staging.

(** ** Where digests and strings come from

    What a batch of mutations may add to the digests the record maps hold, and
    that every name stays a string. *)

(** The digests a mutation brings, and its strings. *)
Definition mutation_digests (m : mutation) : list (list byte) :=
  match mutation_records m with Some records => data_digests records | None => [] end.
Definition mutation_text (m : mutation) : Prop :=
  match m with
  | Mkdir path | CreateFile path _ _ _ | MHardlink path _ => is_utf8 path
  | MSymlink path target => is_utf8 path /\ is_utf8 target
  | Rename _ to => is_utf8 to
  | _ => True
  end.

Lemma text_ok_sub d d' :
  (forall k c, dirents d' !! k = Some c -> exists c', dirents d !! k = Some c') ->
  (forall i row, inodes d' !! i = Some row -> exists row', inodes d !! i = Some row' /\
     ir_symlink_target row' = ir_symlink_target row) ->
  text_ok d -> text_ok d'.
Proof.
  intros Hde Hin [Hn Ht]. split.
  - intros k c (c' & He)%Hde. by eapply Hn.
  - intros i row t (row' & Hi & Hrow)%Hin Hs. eapply Ht; [exact Hi|congruence].
Qed.

Lemma head_digest_sub d d' digest :
  object_maps d' ⊆ object_maps d -> head_digest d' digest -> head_digest d digest.
Proof. intros Hs (k & row & Hk & Hd). exists k, row. split; [by eapply lookup_weaken|done]. Qed.

Lemma insert_records_digests d i records digest :
  head_digest (insert_records d i records) digest -> head_digest d digest \/ digest ∈ data_digests records.
Proof.
  intros ([j o] & row & Hk & Hd). rewrite insert_records_lookup in Hk. case_decide.
  - right. unfold run_row in Hk. destruct (0 <=? o); [|done]. destruct (records !! _) as [r|] eqn:Er; [|done].
    simplify_eq/=. apply list_elem_of_lookup_2 in Er. apply elem_of_data_digests.
    destruct r as [dg n|n]; simplify_eq/=. eauto.
  - left. by exists (j, o), row.
Qed.

Section refs.
Context `{Unicode, Unordered, Rowid}.

Lemma new_leaf_utf8 d w path p n : resolve_new_leaf d w path = Ok (p, n) -> is_utf8 path -> is_utf8 n.
Proof.
  unfold resolve_new_leaf. destruct (validate_path path); [|done]. simpl.
  unfold split_parent. destruct (rsplit_once slash path) as [[pre post]|] eqn:Er.
  - apply rsplit_once_Some in Er as [-> _].
    match goal with |- match ?e with Ok _ => _ | Err _ => _ end = _ -> _ => destruct e as [i|]; [|done] end.
    destruct (dirents d !! _); [done|]. destruct (existsb _ _); [done|]. intros [= _ <-].
    unfold is_utf8. rewrite utf8_split by done. by intros [_ ?]%andb_true_iff.
  - cbn. destruct (dirents d !! _); [done|]. destruct (existsb _ _); [done|]. by intros [= _ <-].
Qed.

Lemma named_text d p n c :
  text_ok d -> is_utf8 n -> text_ok (with_dirents (<[(p, n) := c]>) d).
Proof.
  intros [Hn Ht] Hu. split; [|done]. intros k c'. cbn. rewrite lookup_insert. case_decide; [by subst|apply Hn].
Qed.

Lemma drop_inode_refs d i d' :
  drop_inode_if_orphaned d i = Ok d' ->
  object_maps d' ⊆ object_maps d /\ (text_ok d -> text_ok d').
Proof.
  unfold drop_inode_if_orphaned, delete_inode. destruct (_ && _); [case_decide|]; intros [= <-]; [|done].
  split; [apply map_filter_subseteq|]. apply text_ok_sub; cbn.
  - intros k c Hk. rewrite !map_lookup_filter_Some in Hk. naive_solver.
  - intros j row Hj. rewrite map_lookup_filter_Some in Hj. naive_solver.
Qed.

Lemma apply_mutation_refs d w m d' :
  rows_ok d -> apply_mutation d w m = Ok d' ->
  (forall digest, head_digest d' digest -> head_digest d digest \/ digest ∈ mutation_digests m) /\
  (text_ok d -> mutation_text m -> text_ok d').
Proof.
  intros Hr.
  assert (forall leaf row d1 i, create_node d w leaf row = Ok (d1, i) ->
    object_maps d1 = object_maps d /\ (text_ok d -> is_utf8 leaf.2 ->
      (forall t, ir_symlink_target row = Some t -> is_utf8 t) -> text_ok d1)) as Hc.
  { intros [p n] row d1 i. intros (_ & _ & ->)%create_node_Ok. split; [done|]. intros [Hn Ht] Hu Hrow.
    apply named_text; [|done]. split; [done|]. intros j r t. cbn. rewrite lookup_insert. case_decide.
    - intros [= <-]. apply Hrow.
    - apply Ht. }
  assert (forall path i d1, remove_entry d w path i = Ok d1 ->
    object_maps d1 ⊆ object_maps d /\ (text_ok d -> text_ok d1)) as Hrem.
  { intros path i d1. unfold remove_entry. destruct (parent_of_resolved d w path) as [[p n]|]; [|done].
    intros [Ho Ht]%drop_inode_refs. split; [done|]. intros Hd. apply Ht.
    eapply text_ok_sub; [| |exact Hd]; cbn; [|eauto]. intros k c [_ Hk]%lookup_delete_Some. eauto. }
  assert (forall d1 : db, object_maps d1 ⊆ object_maps d -> forall digest, head_digest d1 digest ->
    head_digest d digest \/ digest ∈ mutation_digests m) as Hsub.
  { intros d1 Ho digest Hh. left. by eapply head_digest_sub. }
  destruct m; cbn [apply_mutation mutation_text]; intros Ha.
  - destruct (resolve_new_leaf _ _ _) as [[p n]|] eqn:El; [|done].
    destruct (create_node _ _ _ _) as [[? ?]|] eqn:E; [|done].
    injection Ha as <-. apply Hc in E as [Ho Ht]. split; [apply Hsub; by rewrite Ho|].
    intros Hd Hu. apply Ht; [done| |done]. by eapply new_leaf_utf8.
  - destruct (resolve_new_leaf _ _ _) as [[p n]|] eqn:El; [|done].
    destruct (create_node _ _ _ _) as [[d1 i]|] eqn:E; [|done].
    injection Ha as <-. apply Hc in E as [Ho Ht]. split.
    + intros digest [Hh|Hh]%insert_records_digests; [|by right]. left. unfold head_digest in *. by rewrite <-Ho.
    + intros Hd Hu. change (text_ok d1). apply Ht; [done| |done]. by eapply new_leaf_utf8.
  - destruct (resolve_file _ _ _); [|done]. injection Ha as <-. split; [|done].
    intros digest [Hh|Hh]%insert_records_digests; [by left|by right].
  - destruct (resolve_file _ _ _) as [i|]; [|done]. destruct (read_records _ _) as [rs|] eqn:Er; [|done].
    cbn in Ha. destruct (truncate_records rs _) as [rs'|] eqn:Et; [|done].
    destruct (validate_record_run _ _) as [[]|]; [|done]. injection Ha as <-. split; [|done].
    intros digest [Hh|Hh]%insert_records_digests; left; [done|].
    destruct (ro_run d Hr (ri_id i)) as (rs0 & Hrun & Hwf).
    rewrite (read_records_run _ _ _ Hrun (proj1 Hwf)) in Er. injection Er as ->.
    eapply head_digest_run; [exact Hrun|]. apply elem_of_data_digests in Hh as (n & Hn).
    apply elem_of_data_digests. exists n. by eapply truncate_records_data.
  - destruct (resolve_existing _ _ _); [|done].
    match type of Ha with (if ?b then _ else _) = _ => destruct b; [done|] end.
    destruct (resolve_new_leaf _ _ _) as [[p n]|] eqn:El; [|done].
    destruct (parent_of_resolved _ _ _) as [[? ?]|]; [|done]. unfold update_dirent in Ha.
    destruct (dirents d !! _) as [c|]; [case_decide; [|done]|]; injection Ha as <-; (split; [by apply Hsub|]); [|done].
    intros [Hn Ht] Hu. split; [|done]. intros k c'. cbn. rewrite lookup_insert. case_decide.
    + subst k. intros _. by eapply new_leaf_utf8.
    + intros [_ Hk]%lookup_delete_Some. by eapply Hn.
  - destruct (resolve_existing _ _ _); [|done]. destruct (_ =? _); [done|]. apply Hrem in Ha as [Ho Ht].
    split; [by apply Hsub|auto].
  - destruct (resolve_existing _ _ _); [|done]. destruct (negb _); [done|]. destruct (negb _); [done|].
    apply Hrem in Ha as [Ho Ht]. split; [by apply Hsub|auto].
  - destruct (validate_symlink_target _) as [[]|]; [|done]. cbn [map_err] in Ha.
    destruct (resolve_new_leaf _ _ _) as [[p n]|] eqn:El; [|done].
    destruct (create_node _ _ _ _) as [[? ?]|] eqn:E; [|done].
    injection Ha as <-. apply Hc in E as [Ho Ht]. split; [apply Hsub; by rewrite Ho|].
    intros Hd [Hu Hut]. apply Ht; [done|by eapply new_leaf_utf8|]. by intros t [= <-].
  - destruct (resolve_file _ _ _); [|done]. destruct (resolve_new_leaf _ _ _) as [[p n]|] eqn:El; [|done].
    unfold insert_dirent in Ha. cbn in Ha. case_decide; [|done]. injection Ha as <-. split; [by apply Hsub|].
    intros Hd Hu. apply named_text; [done|]. by eapply new_leaf_utf8.
  - destruct (resolve_file _ _ _) as [i|]; [|done]. injection Ha as <-. split; [by apply Hsub|].
    intros Hd _. eapply text_ok_sub; [| |exact Hd]; cbn; [eauto|]. intros j row. rewrite lookup_alter.
    case_decide; [|eauto]. subst j. intros (r & Hj & ->)%fmap_Some. eauto.
Qed.
End refs.

(** ** Roots *)

Section roots.
Context `{Sha256, Unicode, Unordered, Rowid, Allocator}.
Implicit Types (O : gmap (list byte) node) (D : db) (b : bool).

(** Every object is a read-only file that hashes to its name. *)
Definition clean (O : gmap (list byte) node) : Prop :=
  forall digest n, O !! digest = Some n ->
    exists bytes, n = Regular bytes true /\ sha256 bytes = digest /\ zlen bytes < U64.
Definition resident (O : gmap (list byte) node) (digest : list byte) : Prop :=
  exists bytes, O !! digest = Some (Regular bytes true).

(** The objects a snapshot needs to be read: every data record of a tensor file,
    and the one object of a blob that is not empty. *)
Inductive names_object (snap : snapshot) (digest : list byte) : Prop :=
| names_record path executable format contract size records length :
    (path, File executable (Tensor format contract size records)) ∈ s_entries snap ->
    Data digest length ∈ records -> names_object snap digest
| names_blob path executable size :
    (path, File executable (Blob size digest)) ∈ s_entries snap -> size <> 0 ->
    names_object snap digest.

(** [manifest_objects] computes exactly those. *)
Lemma names_object_iff snap digest : digest ∈ manifest_objects snap <-> names_object snap digest.
Proof.
  rewrite elem_of_manifest_objects. split.
  - intros (path & x & [f c n rs|n dg] & Hin & Hd); simpl in Hd.
    + apply elem_of_list_to_set, elem_of_data_digests in Hd as [len Hd]. by eapply names_record.
    + destruct (Z.eqb_spec n 0); [by apply not_elem_of_empty in Hd|].
      apply elem_of_singleton in Hd as ->. by eapply names_blob.
  - intros [path x f c n rs len Hin Hd|path x n Hin Hn]; eexists path, x, _; (split; [exact Hin|]); simpl.
    + apply elem_of_list_to_set, elem_of_data_digests. by exists len.
    + destruct (Z.eqb_spec n 0); [done|]. by apply elem_of_singleton.
Qed.

(** What a manifest names. *)
Definition manifest_names (O : gmap (list byte) node) (id digest : list byte) : Prop :=
  exists bytes ro snap, O !! id = Some (Regular bytes ro) /\ decode bytes = Ok snap /\
    names_object snap digest.

(** What the roots reach: the record maps of the heads, the leases' objects, and
    the snapshots' manifests and what they name. *)
Definition rooted (O : gmap (list byte) node) (D : db) (digest : list byte) : Prop :=
  head_digest D digest \/
  (exists lease, (lease, digest) ∈ lease_objects D) \/
  (exists id g, snapshots D !! id = Some g /\ (digest = id \/ manifest_names O id digest)).

(** Nothing a root reaches is missing. *)
Definition no_dangling (O : gmap (list byte) node) (D : db) : Prop :=
  forall digest, rooted O D digest -> resident O digest.

(** Every manifest can be read, which takes the memory for it. *)
Definition readable (O : gmap (list byte) node) (D : db) : Prop :=
  forall id g, snapshots D !! id = Some g ->
    exists bytes ro snap, O !! id = Some (Regular bytes ro) /\ decode bytes = Ok snap.

Lemma clean_length O (digest : list byte) : clean O -> resident O digest -> zlen digest = 32.
Proof.
  intros Hc [bytes Hr]. destruct (Hc _ _ Hr) as (b & [= <-] & <- & _). apply sha256_length.
Qed.

(** ** Reading *)

Abbreviation at_ b O D := (on_state b (fun O' D' => O' = O /\ D' = D)).

(** A failure that changed nothing, of the environment or because of [F]. *)
Definition refused (b : bool) (O : gmap (list byte) node) (D : db) (F : Prop)
    (e : workspace_error) (s : world) : Prop :=
  (objects (w_disk s) = O /\ w_db s = D) /\ (b = false \/ F).

Lemma refused_mono (b : bool) O D (F F' : Prop) e s :
  (F -> F') -> refused b O D F e s -> refused b O D F' e s.
Proof. intros HF [Hs Hb]. split; [done|]. naive_solver. Qed.

Lemma t_disk_at {E A : Type} (b : bool) (f : E -> workspace_error) (m : M disk E A) O D
    (Q : A -> gmap (list byte) node -> Prop) (R : workspace_error -> world -> Prop) :
  triple (on_objs b (fun O' => O' = O)) m (fun a => on_objs b (Q a))
    (fun e d => forall s, w_db s = D -> w_disk s = d -> R (f e) s) ->
  triple (at_ b O D) (map_err_m f (on_disk m)) (fun a => on_state b (fun O' D' => Q a O' /\ D' = D)) R.
Proof.
  intros Hm. apply t_disk. intros D0 d [[Ho ->] Hq]. specialize (Hm d (conj Ho Hq)).
  destruct (m d) as [[a|e] d']; [|done]. destruct Hm as [HQ Hq']. done.
Qed.

Lemma t_open_on (b : bool) (O : gmap (list byte) node) (digest : list byte) :
  triple (on_objs b (fun O' => O' = O)) (open_object digest)
    (fun bytes => on_objs b (fun O' => O' = O /\ exists ro, O !! digest = Some (Regular bytes ro)))
    (fun _ d => objects d = O /\ (b = false \/ forall bytes ro, O !! digest <> Some (Regular bytes ro))).
Proof.
  set (lost d := objects d = O /\ (b = false \/ forall bytes ro, O !! digest <> Some (Regular bytes ro))).
  intros d Hd. unfold open_object.
  match goal with |- context [query ?f d] =>
    pose proof (t_query_on b (fun O' => O' = O) f d Hd) as Hq; destruct (query f d) as [[n|e] d1] end.
  - destruct Hq as [Hd1 (d0 & Ho & Hn)]. destruct Hd1 as [Hd1 Hq1]. rewrite Ho, Hd1 in Hn.
    eapply (t_run (on_objs b (fun O' => O' = O)) _ _ _ (fun _ => lost));
      [|by split|by intros ?? Hx; exact Hx|by intros ?? Hx; exact Hx].
    eapply t_bind with (Q' := fun n2 d => on_objs b (fun O' => O' = O) d /\ n2 = n).
    + unfold io. intros d2 Hd2. unfold map_err_m.
      match goal with |- context [query ?f d2] =>
        pose proof (t_query_on b (fun O' => O' = O) f d2 Hd2) as Hq2; destruct (query f d2) as [[n2|e2] d3] end.
      * destruct Hq2 as [Hd3 (d4 & _ & [= <-])]. done.
      * destruct Hq2 as [Ho3 [Hf|(d4 & _ & [=])]]. by split; [|left].
    + intros n2. apply t_pure_r. intros ->.
      destruct (O !! digest) as [[bytes ro|to_file|]|] eqn:Eo; simplify_eq.
      * apply t_ret. intros s [Hs Hq2]. split; [|done]. split; [done|]. eauto.
      * apply t_fail. intros s [Hs Hq2]. split; [done|]. right. congruence.
  - destruct Hq as [Hd1 Hf]. assert (lost d1).
    { split; [done|]. destruct Hf as [?|(d0 & Ho & Hn)]; [by left|right]. rewrite Ho, Hd1 in Hn.
      intros bytes ro Hr. by rewrite Hr in Hn. }
    by repeat case_decide.
Qed.

Definition readable_at (O : gmap (list byte) node) (id : list byte) (snap : snapshot) : Prop :=
  exists bytes ro, O !! id = Some (Regular bytes ro) /\ decode bytes = Ok snap.

Lemma t_read_manifest (b : bool) O D (id : list byte) :
  clean O ->
  triple (at_ b O D) (read_manifest_object id)
    (fun snap s => at_ b O D s /\ readable_at O id snap)
    (refused b O D (~ exists snap, readable_at O id snap)).
Proof.
  intros Hclean. unfold read_manifest_object. eapply t_bind.
  { apply t_disk_at. eapply t_conseq; [apply t_open_on|done|intros a s Hs; exact Hs|].
    intros e d [Ho Hf] s HD Hd. subst d. split; [done|]. destruct Hf as [?|Hf]; [by left|right].
    intros (snap & bytes & ro & Hr & _). by eapply Hf. }
  intros bytes. cbn beta.
  apply (t_conseq _ (fun s => at_ b O D s /\ exists ro, O !! id = Some (Regular bytes ro)) _ _
    (fun snap s => at_ b O D s /\ readable_at O id snap) _ (refused b O D (~ exists snap, readable_at O id snap))).
  - apply t_pure_r. intros [ro Hro]. destruct (Hclean _ _ Hro) as (bytes' & [= <- ->] & Hsha & _).
    eapply t_bind with (Q' := fun _ => at_ b O D).
    + eapply t_conseq; [apply t_disk_at with (Q := fun _ O' => O' = O) (R := refused b O D (~ exists snap, readable_at O id snap))|done|done|done].
      eapply t_conseq; [apply t_query_on|done| |].
      * by intros a d [].
      * intros e d [Ho [Hb|(d0 & _ & [=])]] s HD Hd. subst d. by split; [|left].
    + intros u. rewrite decide_True by done. apply t_lift. intros s Hs.
      destruct (decode bytes) as [snap|e] eqn:Ed; simpl.
      * split; [done|]. by exists bytes, true.
      * destruct Hs as [Hs _]. split; [done|]. right. intros (snap & b2 & ro2 & Hr2 & Hd2). congruence.
  - intros s [[[Ho [ro Hro]] HD] Hq]. split; [done|]. eauto.
  - done.
  - done.
Qed.

(** ** The mark *)

Lemma add_root_lookup (reached : gmap (list byte) Z) (digests : gset (list byte)) digest :
  is_Some (add_root reached digests !! digest) <-> is_Some (reached !! digest) \/ digest ∈ digests.
Proof.
  unfold add_root. revert digests.
  apply (set_fold_ind_L (fun (r : gmap (list byte) Z) X => is_Some (r !! digest) <-> is_Some (reached !! digest) \/ digest ∈ X)).
  - set_solver.
  - intros x X r Hx Hr. rewrite lookup_insert. case_decide; subst; [set_solver|].
    rewrite Hr. set_solver.
Qed.

Lemma decode_digests_Ok (rows : list (list byte)) (acc : gset (list byte)) : decode_digests rows = Ok acc -> forall digest, digest ∈ acc <-> digest ∈ rows.
Proof.
  unfold decode_digests. intros Hd.
  refine (for_each_inv _ (fun pre (acc : gset (list byte)) => forall digest, digest ∈ acc <-> digest ∈ pre)
    rows ∅ acc _ _ Hd); [set_solver|].
  intros pre x post t t' _ Ht. unfold digest_from_row. destruct (zlen x =? 32); [|done]. intros [= <-]. set_solver.
Qed.
Lemma decode_digests_runs (rows : list (list byte)) :
  (forall digest, digest ∈ rows -> zlen digest = 32) -> exists acc, decode_digests rows = Ok acc.
Proof.
  intros Hr. unfold decode_digests.
  destruct (for_each_total (fun acc bytes => let? digest := digest_from_row bytes in Ok ({[digest]} ∪ acc))
    (fun _ _ => True) rows (∅ : gset (list byte))) as (acc & -> & _); [done| |eauto].
  intros pre x post t -> _. unfold digest_from_row.
  rewrite (proj2 (Z.eqb_eq _ _) (Hr x ltac:(set_solver))). eauto.
Qed.

Lemma t_sql_read_at {A : Type} (b : bool) O D (F : Prop) (f : db -> result workspace_error A) :
  (forall e, f D = Err e -> F) ->
  triple (at_ b O D) (sql_read f) (fun a s => at_ b O D s /\ f D = Ok a) (refused b O D F).
Proof.
  intros Hf. eapply t_conseq.
  - apply t_sql_read with (P := fun O' D' => O' = O /\ D' = D) (R := refused b O D F).
    + intros e s [Hs ->]. split; [exact Hs|by left].
    + intros e s [[[Ho HD] He] _]. split; [done|]. right. subst D. by eapply Hf.
  - done.
  - intros a s [[[Ho HD] Ha] Hq]. subst D. done.
  - done.
Qed.

Lemma t_mark (b : bool) O D :
  clean O -> no_dangling O D ->
  triple (at_ b O D) mark
    (fun m s => at_ b O D s /\ forall digest, is_rooted m digest = true <-> rooted O D digest)
    (refused b O D (~ readable O D)).
Proof.
  intros Hclean Hnd. assert (forall digest, rooted O D digest -> zlen digest = 32) as Hlen.
  { intros digest Hr. eapply clean_length; [done|]. by apply Hnd. }
  unfold mark. eapply t_bind.
  { apply t_sql_read_at. intros e He. exfalso. edestruct decode_digests_runs as [acc Hacc]; [|rewrite Hacc in He; done].
    intros digest. rewrite enumerate_perm, list_elem_of_omap. intros ([k row] & Hin & Hdg). apply Hlen. left.
    exists k, row. split; [|done]. by apply elem_of_map_to_list. }
  intros heads. apply t_pure_r. intros Hheads. pose proof (decode_digests_Ok _ _ Hheads) as Hh.
  eapply t_bind.
  { apply t_sql_read_at. intros e He. exfalso. edestruct decode_digests_runs as [acc Hacc]; [|rewrite Hacc in He; done].
    intros digest. rewrite enumerate_perm, list_elem_of_fmap. intros ([l dg] & -> & Hin). apply Hlen. right. left.
    exists l. by apply elem_of_elements in Hin. }
  intros leased. apply t_pure_r. intros Hleased. pose proof (decode_digests_Ok _ _ Hleased) as Hl.
  eapply t_bind with (Q' := fun ids s => at_ b O D s /\ forall id, id ∈ ids <-> is_Some (snapshots D !! id)).
  { set (rows := enumerate ((fun row => row.1) <$> map_to_list (snapshots D))).
    assert (forall id, id ∈ rows <-> is_Some (snapshots D !! id)) as Hrows.
    { intros id. unfold rows. rewrite enumerate_perm, list_elem_of_fmap. split.
      - intros ([i g] & -> & Hin%elem_of_map_to_list). eauto.
      - intros [g Hg]. exists (id, g). split; [done|]. by apply elem_of_map_to_list. }
    set (body := fun (acc : list (list byte)) bytes => let? id := digest_from_row bytes in Ok (acc ++ [id])).
    assert (for_each body [] rows = Ok rows) as Hrun.
    { destruct (for_each_total body (fun pre acc => acc = pre) rows []) as (ids & Hids & ->); [done| |exact Hids].
      intros pre x post t Heq ->. unfold body, digest_from_row. rewrite (proj2 (Z.eqb_eq _ _)); [eauto|].
      apply Hlen. right. right. destruct (proj1 (Hrows x)) as [g Hg]; [rewrite Heq; set_solver|]. eauto. }
    eapply t_conseq; [apply (t_sql_read_at b O D (~ readable O D))|done| |done].
    - intros e. fold rows. fold body. by rewrite Hrun.
    - intros ids s [Hs Hids]. fold rows in Hids. fold body in Hids. rewrite Hrun in Hids. injection Hids as <-. done. }
  intros ids. apply t_pure_r. intros Hids. set (base := add_root (add_root ∅ heads) leased).
  assert (forall digest, is_Some (base !! digest) <-> head_digest D digest \/ exists l, (l, digest) ∈ lease_objects D) as Hbase.
  { intros digest. unfold base. rewrite !add_root_lookup, Hh, Hl, lookup_empty, !enumerate_perm.
    rewrite list_elem_of_omap, list_elem_of_fmap. unfold head_digest. split.
    - intros [[[? [=]]|([k row] & Hin & Hdg)]|([l dg] & -> & Hin)].
      + left. exists k, row. split; [by apply elem_of_map_to_list|done].
      + right. exists l. by apply elem_of_elements.
    - intros [(k & row & Hk & Hdg)|(l & Hin)].
      + left. right. exists (k, row). split; [by apply elem_of_map_to_list|done].
      + right. exists (l, digest). split; [done|]. by apply elem_of_elements. }
  eapply t_conseq.
  - apply (t_for mark_snapshot (Mark base []) ids (fun pre m s => at_ b O D s /\
      forall digest, is_Some (mk_reached m !! digest) <-> is_Some (base !! digest) \/
        exists id, id ∈ pre /\ (digest = id \/ manifest_names O id digest)) (refused b O D (~ readable O D))).
    intros pre id post m Heq. apply t_pure_r. intros Hm. unfold mark_snapshot.
    destruct (proj1 (Hids id)) as [g Hg]; [rewrite Heq; set_solver|].
    eapply t_bind; [eapply t_conseq; [by apply t_read_manifest|done|intros a s Hs; exact Hs|]|].
    + intros e s. apply refused_mono. intros Hn Hr. destruct (Hr id g Hg) as (bytes & ro & snap & ? & ?).
      apply Hn. exists snap, bytes, ro. done.
    + intros snap. apply t_pure_r. intros (bytes & ro & Hbytes & Hdec). apply t_ret. intros s Hs.
      split; [done|]. intros digest. cbn [mk_reached]. rewrite add_root_lookup, Hm.
      assert (digest ∈ manifest_objects snap <-> manifest_names O id digest) as Hman.
      { rewrite names_object_iff. split; [intros; by exists bytes, ro, snap|].
        intros (b2 & ro2 & s2 & Hb2 & Hd2 & Hin). congruence. }
      rewrite elem_of_union, Hman, elem_of_singleton. setoid_rewrite elem_of_app.
      setoid_rewrite list_elem_of_singleton. naive_solver.
  - intros s Hs. split; [exact Hs|]. set_solver.
  - intros m s [Hs Hm]. split; [done|]. intros digest. unfold is_rooted, rooted.
    rewrite bool_decide_eq_true, Hm, Hbase. setoid_rewrite Hids. unfold is_Some. naive_solver.
  - done.
Qed.

(** ** Listing and removing *)

Section listing.
Context (b : bool) (O : gmap (list byte) node) (Hclean : clean O).
Abbreviation here := (on_objs b (fun O' => O' = O)).
Abbreviation stopped := (fun (_ : store_error) d => objects d = O /\ b = false).

(** What was visited is resident, and where nothing fails it is all of [S]. *)
Definition seen (S : list byte -> Prop) (listed : list (list byte * Z)) (d : disk) : Prop :=
  here d /\ (forall digest n, (digest, n) ∈ listed -> resident O digest) /\
  (b = true -> forall digest, S digest -> resident O digest -> digest ∈ listed.*1).
Lemma seen_weaken (S S' : list byte -> Prop) listed d :
  (b = true -> forall digest, S' digest -> resident O digest -> S digest) -> seen S listed d -> seen S' listed d.
Proof. intros Hi (Hd & Hin & Hall). split; [done|]. split; [done|]. auto. Qed.

Lemma t_listing {A} (f : disk -> A) :
  triple here (io (query (fun d => Ok (f d)))) (fun a d => here d /\ exists d0, objects d0 = O /\ a = f d0) stopped.
Proof.
  intros d Hd. unfold io, map_err_m.
  pose proof (t_query_on b (fun O' => O' = O) (fun d => Ok (f d)) d Hd) as Hq. destruct (query _ d) as [[a|e] d1].
  - destruct Hq as [Hd1 (d0 & Ho & [= <-])]. split; [done|]. exists d0. split; [|done]. rewrite Ho. apply Hd1.
  - destruct Hq as [Ho [?|(d0 & _ & [=])]]. done.
Qed.
Lemma t_twice {A} (v : A) d :
  here d -> match (query (fun _ => Ok tt);;; query (fun _ => Ok v)) d with
            | (Ok a, d') => here d' /\ a = v
            | (Err _, d') => here d' /\ b = false
            end.
Proof.
  intros Hd. unfold bind. pose proof (t_query_on b (fun O' => O' = O) (fun _ => Ok tt) d Hd) as Hq. destruct (query _ d) as [[[]|e] d1].
  - destruct Hq as [Hd1 _]. pose proof (t_query_on b (fun O' => O' = O) (fun _ => Ok v) d1 Hd1) as Hq. destruct (query _ d1) as [[a|e] d2].
    + by destruct Hq as [Hd2 (d0 & _ & [= <-])].
    + by destruct Hq as [Ho [->|(d0 & _ & [=])]].
  - by destruct Hq as [Ho [->|(d0 & _ & [=])]].
Qed.
Lemma t_visit S listed entries :
  (forall digest n, (digest, n) ∈ entries -> O !! digest = Some n) ->
  triple (seen S listed) (for_m visit_object listed entries) (seen (fun digest => S digest \/ digest ∈ entries.*1)) stopped.
Proof.
  intros He. eapply t_conseq; [apply (t_for visit_object listed entries (fun pre => seen (fun digest => S digest \/ digest ∈ pre.*1)) stopped)| |intros ? ? Hx; exact Hx|intros ? ? Hx; exact Hx].
  - intros pre [digest n] post listed' Heq d (Hd & Hin & Hall). unfold visit_object. cbn [fst snd].
    assert (O !! digest = Some n) as Hn by (apply He; rewrite Heq; set_solver). destruct (Hclean _ _ Hn) as (bytes & -> & _).
    pose proof (t_twice (Regular bytes true) d Hd) as Hq. destruct (bind _ _ d) as [[n2|e] d1].
    + destruct Hq as [Hd1 ->]. split; [done|]. split.
      * intros dg k [Hk|Hk%list_elem_of_singleton]%elem_of_app; [by eapply Hin|]. simplify_eq. by exists bytes.
      * intros Hb dg Hdg Hr. rewrite fmap_app, elem_of_app in *. specialize (Hall Hb dg). set_solver.
    + destruct Hq as [Hd1 Hb]. split; [done|]. split; [done|]. by rewrite Hb.
  - intros d. apply seen_weaken. set_solver.
Qed.
Lemma t_entry_is_dir S listed :
  triple (seen S listed) entry_is_dir (fun dir d => seen S listed d /\ (dir = false -> b = false)) stopped.
Proof.
  intros d (Hd & Hin & Hall). unfold entry_is_dir. pose proof (t_twice tt d Hd) as Hq. destruct (bind _ _ d) as [[u|e] d1]; destruct Hq as [Hd1 Hq]; by split.
Qed.
Lemma t_reading {A} S listed (f : disk -> A) :
  triple (seen S listed) (io (query (fun d => Ok (f d)))) (fun a d => seen S listed d /\ exists d0, objects d0 = O /\ a = f d0) stopped.
Proof.
  intros d (Hd & Hin & Hall). pose proof (t_listing f d Hd) as Hl. destruct (io _ d) as [[a|e] d1]; [|done]. destruct Hl as [Hd1 Hl]. by split.
Qed.
Lemma below_elem prefix d digest n : objects d = O -> (digest, n) ∈ objects_below prefix d <-> O !! digest = Some n /\ object_under prefix digest.
Proof. intros <-. unfold objects_below. rewrite list_elem_of_filter, elem_of_map_to_list. naive_solver. Qed.
Lemma fan_out_elem prefix d digest :
  objects d = O -> resident O digest -> object_under prefix digest -> (length prefix < 3)%nat ->
  exists x, x ∈ enumerate (remove_dups (omap (fun kn => object_path kn.1 !! length prefix) (objects_below prefix d))) /\ object_under (prefix ++ [x]) digest.
Proof.
  intros Hd [bytes Hr] Hu Hl. destruct (lookup_lt_is_Some_2 (object_path digest) (length prefix)) as [x Hx]; [done|]. exists x. split.
  - rewrite enumerate_perm. apply elem_of_remove_dups, list_elem_of_omap. eexists (digest, _). split; [by apply below_elem|done].
  - unfold object_under in *. rewrite length_app. cbn [length]. rewrite Nat.add_1_r, (take_S_r _ _ x) by done. by rewrite Hu.
Qed.

Lemma t_each_object :
  triple here each_object
    (fun listed d => here d /\ (forall digest n, (digest, n) ∈ listed -> resident O digest) /\
       (b = true -> forall digest, resident O digest -> digest ∈ listed.*1))
    stopped.
Proof.
  unfold each_object. eapply t_bind; [apply t_listing|]. intros firsts. apply t_pure_r. intros (d0 & Hd0 & ->).
  set (firsts := enumerate _).
  eapply t_conseq; [apply (t_for _ [] firsts (fun pre => seen (fun digest => exists first, first ∈ pre /\ object_under [first] digest)) stopped)| | |done].
  - intros pre first post listed _. eapply t_bind; [apply t_entry_is_dir|]. intros dir. apply t_pure_r. intros Hdir.
    destruct dir; cbn [negb]; [clear Hdir|apply t_ret; intros d; apply seen_weaken; by rewrite Hdir].
    eapply t_bind; [apply t_reading|]. intros seconds. apply t_pure_r. intros (d1 & Hd1 & ->).
    set (S := fun digest => exists first, first ∈ pre /\ object_under [first] digest).
    eapply t_conseq; [apply (t_for _ listed (enumerate _) (fun pre2 => seen (fun digest => S digest \/ exists second, second ∈ pre2 /\ object_under [first; second] digest)) stopped)| | |done].
    + intros pre2 second post2 listed2 _. eapply t_bind; [apply t_entry_is_dir|]. intros dir. apply t_pure_r. intros Hdir.
      destruct dir; cbn [negb]; [clear Hdir|apply t_ret; intros d; apply seen_weaken; by rewrite Hdir].
      eapply t_bind; [apply t_reading|]. intros entries. apply t_pure_r. intros (d2 & Hd2 & ->).
      eapply t_conseq; [apply t_visit|intros d Hd; exact Hd| |done].
      * intros digest n. rewrite enumerate_perm, (below_elem _ _ _ _ Hd2). by intros [? _].
      * intros listed3 d. apply seen_weaken. intros _ digest [?|(second' & [?|Hx%list_elem_of_singleton]%elem_of_app & Hu)] [bytes Hr]; [by left; left|left; right; eauto|].
        subst second'. right. rewrite enumerate_perm. apply list_elem_of_fmap. eexists (digest, _). split; [done|]. by apply (below_elem _ _ _ _ Hd2).
    + intros d. apply seen_weaken. intros _ digest [?|(second & ?%not_elem_of_nil & _)]; [done|done].
    + intros listed2 d. apply seen_weaken. intros _ digest (first' & [?|Hx%list_elem_of_singleton]%elem_of_app & Hu) Hr; [left; by exists first'|].
      subst first'. right. destruct (fan_out_elem [first] d1 digest Hd1 Hr Hu ltac:(cbn; lia)) as (second & ? & ?). by exists second.
  - intros d Hd. split; [done|]. split; [set_solver|]. intros _ digest (first & ?%not_elem_of_nil & _). done.
  - intros listed d (Hd & Hin & Hall). split; [done|]. split; [done|]. intros Hb digest Hr. apply Hall; [done| |done].
    destruct (fan_out_elem [] d0 digest Hd0 Hr ltac:(done) ltac:(cbn; lia)) as (first & ? & ?). by exists first.
Qed.
End listing.

Lemma t_remove_object (b : bool) O (digest : list byte) :
  resident O digest ->
  triple (on_objs b (fun O' => O' = O)) (remove_object digest)
    (fun removed => on_objs b (fun O' => O' = delete digest O \/ (O' = O /\ b = false)))
    (fun _ d => (objects d = O \/ objects d = delete digest O) /\ b = false).
Proof.
  intros [bytes Hr] d Hd. unfold remove_object.
  match goal with |- context [query ?f d] =>
    pose proof (t_query_on b (fun O' => O' = O) f d Hd) as Hq; destruct (query f d) as [[n|e] d1] end.
  - destruct Hq as [[Hd1 Hq1] (d0 & Ho & Hn)]. rewrite Ho, Hd1, Hr in Hn. injection Hn as <-.
    set (gone := on_objs b (fun O' => O' = delete digest O)).
    set (lost d := (objects d = O \/ objects d = delete digest O) /\ b = false).
    eapply (t_run (on_objs b (fun O' => O' = O)) _ (fun _ => gone) _ (fun _ => lost));
      [|by split| |by intros ?? Hx; exact Hx].
    2: { intros _ s [Hs1 Hs2]. split; [by left|done]. }
    eapply t_bind with (Q' := fun _ => gone); [|intros u; eapply t_bind with (Q' := fun _ => gone);
      [|intros u'; by apply t_ret]].
    + intros d2 [Ho2 Hq2]. unfold io, map_err_m, atomic, syscall. destruct b.
      * destruct (Hq2 eq_refl) as [Ha Hos]. rewrite Ha, Hos. cbn [negb]. split; [cbn; by rewrite Ho2|done].
      * destruct (alive d2); [|by split; [left|]]. cbn [negb].
        destruct (outcomes d2) as [|[|e k|k] os]; try (by split; [left|]);
          (split; [cbn; by rewrite Ho2|done]).
    + intros d2 Hd2. unfold fsync, io, map_err_m.
      match goal with |- context [query ?f d2] =>
        pose proof (t_query_on b (fun O' => O' = delete digest O) f d2 Hd2) as Hq2;
        destruct (query f d2) as [[n2|e2] d3] end.
      * by destruct Hq2 as [? _].
      * destruct Hq2 as [Ho2 [Hb|(d4 & _ & [=])]]. by split; [right|].
  - destruct Hq as [Hd1 [Hb|(d0 & Ho & Hn)]]; [|by rewrite Ho, Hd1, Hr in Hn]. case_decide.
    + split; [by right|]. congruence.
    + by split; [left|].
Qed.
End roots.
