(* ===== verification/Sweep.v ===== *)
(** One pass of [collect] ([src/crates/tensorfs-core/src/workspace.rs]) against
    its specification. *)

From S2P Require Export GcFacts.

(** The tables outside the collector's own. *)
Definition same_but_gc (D D' : db) : Prop := exists epoch f, D' = with_gc epoch f D.

Section sweep.
Context `{Sha256, Unicode, Unordered, Rowid, Allocator}.
Implicit Types (O : gmap (list byte) node) (D : db) (b : bool).

Abbreviation at_ b O D := (on_state b (fun O' D' => O' = O /\ D' = D)).

(** What a pass did. *)
Record collected (b : bool) (O : gmap (list byte) node) (D : db)
    (O' : gmap (list byte) node) (D' : db) : Prop := {
  c_rest : same_but_gc D D';
  c_epoch : gc_epoch D' = gc_epoch D + 1;
  c_kept digest : O' !! digest = O !! digest \/
    (O' !! digest = None /\ ~ rooted O D digest /\
     exists marked, gc_quarantine D !! digest = Some marked /\ marked <= gc_epoch D - 1);
  c_swept digest marked : b = true -> ~ rooted O D digest ->
    gc_quarantine D !! digest = Some marked -> marked <= gc_epoch D - 1 -> O' !! digest = None;
  c_marked digest : b = true -> resident O digest -> ~ rooted O D digest ->
    O' !! digest = None \/
    gc_quarantine D' !! digest = Some (default (gc_epoch D + 1) (gc_quarantine D !! digest));
  c_rows digest marked : gc_quarantine D' !! digest = Some marked ->
    gc_quarantine D !! digest = Some marked \/ (resident O digest /\ marked = gc_epoch D + 1)
}.

(** The collector's rows. *)
Definition quarantine_ok (D : db) : Prop :=
  forall digest marked, gc_quarantine D !! digest = Some marked ->
    zlen digest = 32 /\ marked <= gc_epoch D.

(** What is left when a pass fails part-way: only unreached objects are gone. *)
Definition trimmed (O : gmap (list byte) node) (D : db) (O' : gmap (list byte) node) : Prop :=
  forall digest, O' !! digest = O !! digest \/ (O' !! digest = None /\ ~ rooted O D digest).

Lemma rooted_gc O D epoch f digest : rooted O (with_gc epoch f D) digest <-> rooted O D digest.
Proof. done. Qed.

Section pass.
Context (O : gmap (list byte) node) (D : db) (b : bool) (Hclean : clean O).
Context (m : mark_t) (Hm : forall digest, is_rooted m digest = true <-> rooted O D digest).
Context (R : gset (list byte)) (HR : forall digest, digest ∈ R -> resident O digest).
Context (epoch : Z).

Abbreviation Q := (gc_quarantine D).
(** A row that is dropped without a deletion, and one whose time is up. *)
Definition dropped (digest : list byte) : bool := is_rooted m digest || negb (bool_decide (digest ∈ R)).
Definition expired (digest : list byte) : bool :=
  match Q !! digest with Some marked => marked <=? epoch - 2 | None => false end.

(** The sweep after the rows [pre]. *)
Record swept (pre : list (list byte)) (O' : gmap (list byte) node) (D' : db) : Prop := {
  sw_rest : same_but_gc D D';
  sw_epoch : gc_epoch D' = epoch;
  sw_objects digest : O' !! digest = O !! digest \/
    (O' !! digest = None /\ digest ∈ pre /\ dropped digest = false /\ expired digest = true);
  sw_gone digest : b = true -> digest ∈ pre -> dropped digest = false -> expired digest = true ->
    O' !! digest = None;
  sw_rows digest : gc_quarantine D' !! digest =
    if bool_decide (digest ∈ pre) && (dropped digest || expired digest) then None else Q !! digest
}.

Lemma swept_trimmed pre O' D' : swept pre O' D' -> trimmed O D O'.
Proof using Hm.
  intros Hs digest. destruct (sw_objects _ _ _ Hs digest) as [?|(? & _ & Hd & _)]; [by left|right].
  split; [done|]. intros Hr%Hm. unfold dropped in Hd. by rewrite Hr in Hd.
Qed.

Lemma same_but_gc_trans D1 epoch' f : same_but_gc D D1 -> same_but_gc D (with_gc epoch' f D1).
Proof. intros (e & g & ->). by exists epoch', (fun q => f (g q)). Qed.

(** The rows of one digest, dropped. *)
Lemma swept_drop pre digest O1 O' D' :
  digest ∉ pre -> swept pre O1 D' -> (forall dg, dg <> digest -> O' !! dg = O1 !! dg) -> dropped digest || expired digest = true ->
  (b = true -> dropped digest = false -> O' !! digest = None) ->
  (O' !! digest = O !! digest \/ O' !! digest = None /\ dropped digest = false) ->
  swept (pre ++ [digest]) O' (with_gc (gc_epoch D') (delete digest) D').
Proof.
  intros Hn Hs Hrest Hde Hgone Hobj. destruct Hs as [S1 S2 S3 S4 S5]. constructor.
  - by apply same_but_gc_trans.
  - done.
  - intros dg. destruct (decide (dg = digest)) as [->|Hne].
    + destruct Hobj as [?|[? Hd]]; [by left|right]. rewrite Hd in Hde. set_solver.
    + rewrite Hrest by done. destruct (S3 dg) as [?|(? & ? & ?)]; [by left|right]. set_solver.
  - intros dg Hb [Hin|Hin]%elem_of_app Hd He.
    + rewrite Hrest by (by intros ->). by apply S4.
    + apply list_elem_of_singleton in Hin as ->. by apply Hgone.
  - intros dg. cbn. rewrite lookup_delete. case_decide as Hdg.
    + subst dg. rewrite Hde, bool_decide_true by set_solver. done.
    + rewrite S5. assert (dg ∈ pre ++ [digest] <-> dg ∈ pre) as Hiff by set_solver.
      by rewrite (bool_decide_ext _ _ Hiff).
Qed.

Definition failed_pass (e : workspace_error) (s : world) : Prop :=
  trimmed O D (objects (w_disk s)) /\ b = false.

Lemma t_unquarantine P (digest : list byte) :
  (forall O' D', P O' D' -> trimmed O D O') ->
  triple (on_state b P) (unquarantine digest)
    (fun _ => on_state b (fun O' D' => exists D0, P O' D0 /\ D' = with_gc (gc_epoch D0) (delete digest) D0))
    failed_pass.
Proof.
  intros HP. apply t_sql_write.
  - intros O' D0 D' HP0 [= <-]. eauto.
  - intros e s [Hs ->]. split; [by eapply HP|done].
  - intros e s [[? ?] ?]. done.
Qed.

Lemma t_sweep_row pre (digest : list byte) (marked : Z) st :
  digest ∉ pre -> Q !! digest = Some marked ->
  triple (on_state b (swept pre)) (sweep_row m R epoch st (digest, marked))
    (fun _ => on_state b (swept (pre ++ [digest]))) failed_pass.
Proof using Hclean Hm HR.
  intros Hn Hq. destruct st as [report lengths]. unfold sweep_row. fold (dropped digest).
  assert (expired digest = (marked <=? epoch - 2)) as He by (unfold expired; by rewrite Hq).
  assert (forall O' D', swept pre O' D' -> O' !! digest = O !! digest) as Hsame.
  { intros O' D' Hs. destruct (sw_objects _ _ _ Hs digest) as [?|(_ & ? & _)]; done. }
  destruct (dropped digest) eqn:Ed.
  - eapply t_bind; [apply (t_unquarantine (swept pre)); apply swept_trimmed|]. intros u. apply t_ret.
    intros s [(D0 & Hs & HD) Hqs]. split; [|done]. rewrite HD.
    eapply swept_drop; [done|exact Hs|done|by rewrite Ed|by rewrite Ed|]. left. by eapply Hsame.
  - destruct (marked <=? epoch - 2) eqn:Em.
    2: { apply t_ret. intros s [Hs Hqs]. split; [|done]. destruct Hs as [S1 S2 S3 S4 S5]. constructor; try done.
      - intros dg. destruct (S3 dg) as [?|(? & ? & ?)]; [by left|right]. set_solver.
      - intros dg Hb [Hin|Hin]%elem_of_app Hd Hx; [by apply S4|].
        apply list_elem_of_singleton in Hin as ->. congruence.
      - intros dg. rewrite S5. destruct (decide (dg = digest)) as [->|Hne].
        + rewrite Ed, He, !andb_false_r. done.
        + assert (dg ∈ pre ++ [digest] <-> dg ∈ pre) as Hiff by set_solver.
          by rewrite (bool_decide_ext _ _ Hiff). }
    assert (resident O digest) as Hres.
    { apply HR. unfold dropped in Ed. destruct (bool_decide_reflect (digest ∈ R)); [done|].
      by rewrite orb_true_r in Ed. }
    set (P := fun O' D' => exists O1, swept pre O1 D' /\ (O' = delete digest O1 \/ (O' = O1 /\ b = false))).
    assert (forall O1 D', swept pre O1 D' -> resident O1 digest) as Hres1.
    { intros O1 D' Hs. unfold resident. by rewrite (Hsame _ _ Hs). }
    assert (forall O1 D', swept pre O1 D' -> trimmed O D (delete digest O1)) as Htrim.
    { intros O1 D' Hs dg. rewrite lookup_delete. case_decide; [|by eapply swept_trimmed]. subst dg. right.
      split; [done|]. intros Hr%Hm. unfold dropped in Ed. by rewrite Hr in Ed. }
    eapply t_bind with (Q' := fun _ => on_state b P).
    + apply (t_store b _ (swept pre) (fun _ => P)). intros D1 d [Hs Hqd].
      pose proof (t_remove_object b (objects d) digest (Hres1 _ _ Hs) d (conj eq_refl Hqd)) as Hrem.
      destruct (remove_object digest d) as [[r|e] d'].
      * destruct Hrem as [Ho Hq']. split; [|done]. by exists (objects d).
      * destruct Hrem as [[Ho|Ho] Hb]; intros s HD Hd; (split; [|done]); rewrite Hd, Ho;
          [by eapply swept_trimmed|by eapply Htrim].
    + intros removed. eapply t_bind.
      * apply (t_unquarantine P). intros O' D' (O1 & Hs & [->|[-> _]]); [by eapply Htrim|by eapply swept_trimmed].
      * intros u. apply t_ret. intros s [(D0 & (O1 & Hs & HO) & HD) Hqs]. split; [|done]. rewrite HD.
        destruct HO as [HO|[HO Hb]]; rewrite HO; (eapply swept_drop; [done|exact Hs| | | |]).
        -- intros dg Hne. by rewrite lookup_delete_ne.
        -- by rewrite Ed, He.
        -- intros _ _. by rewrite lookup_delete_eq.
        -- right. by rewrite lookup_delete_eq.
        -- done.
        -- by rewrite Ed, He.
        -- intros Hb'. congruence.
        -- left. by eapply Hsame.
Qed.

(** The last loop: unreached residents without a row get one. *)
Definition quarantined_at (pre : list (list byte)) (D1 D' : db) : Prop :=
  same_but_gc D D' /\ gc_epoch D' = epoch /\
  forall digest, gc_quarantine D' !! digest =
    if bool_decide (digest ∈ pre) && negb (is_rooted m digest) && bool_decide (Q !! digest = None)
    then Some epoch else gc_quarantine D1 !! digest.

Lemma t_quarantine_object O1 D1 already pre (digest : list byte) report :
  (forall dg, dg ∈ already <-> is_Some (Q !! dg)) -> trimmed O D O1 ->
  (forall dg, Q !! dg = None -> gc_quarantine D1 !! dg = None) ->
  digest ∉ pre ->
  triple (on_state b (fun O' D' => O' = O1 /\ quarantined_at pre D1 D')) (quarantine_object m already epoch report digest)
    (fun _ => on_state b (fun O' D' => O' = O1 /\ quarantined_at (pre ++ [digest]) D1 D')) failed_pass.
Proof.
  intros Hal Htrim Hnone Hn. unfold quarantine_object.
  assert (forall dg, dg <> digest -> bool_decide (dg ∈ pre ++ [digest]) = bool_decide (dg ∈ pre)) as Hother.
  { intros dg Hne. apply bool_decide_ext. set_solver. }
  assert (negb (bool_decide (digest ∈ already)) = bool_decide (Q !! digest = None)) as ->.
  { destruct (bool_decide_reflect (digest ∈ already)) as [Hin|Hin]; rewrite Hal in Hin.
    - by destruct Hin as [x ->].
    - destruct (Q !! digest); [by destruct Hin|done]. }
  destruct (negb (is_rooted m digest) && bool_decide (Q !! digest = None)) eqn:Ec.
  - apply andb_true_iff in Ec as [Er Eq]. apply bool_decide_eq_true in Eq.
    eapply t_bind with (Q' := fun _ => on_state b (fun O' D' => O' = O1 /\ quarantined_at (pre ++ [digest]) D1 D')).
    + apply t_sql_write.
      * intros O' D0 D' [-> (Hs & He & Hq)] [= <-]. split; [done|]. unfold quarantine_row.
        assert (gc_quarantine D0 !! digest = None) as Hd0.
        { rewrite Hq, bool_decide_false by done. cbn. by apply Hnone. }
        rewrite Hd0. split; [by apply same_but_gc_trans|]. split; [done|]. intros dg. cbn. rewrite lookup_insert.
        case_decide as Hdg.
        -- subst dg. rewrite Er, bool_decide_true, bool_decide_true by (done || set_solver). done.
        -- rewrite Hq, Hother by done. done.
      * intros e s [[Ho _] Hb]. split; [by rewrite Ho|done].
      * intros e s [[? ?] ?]. done.
    + intros u. by apply t_ret.
  - apply t_ret. intros s [[Ho (Hs & He & Hq)] Hqs]. split; [|done]. split; [done|]. split; [done|]. split; [done|].
    intros dg. rewrite Hq. destruct (decide (dg = digest)) as [->|Hne]; [|by rewrite Hother].
    rewrite <-!andb_assoc, Ec, !andb_false_r. done.
Qed.

Lemma collected_intro rows O1 D2 D' :
  epoch = gc_epoch D + 1 -> (b = true -> forall digest, resident O digest -> digest ∈ R) ->
  (forall dg, dg ∈ rows <-> is_Some (Q !! dg)) ->
  swept rows O1 D2 -> quarantined_at (enumerate (elements R)) D2 D' -> collected b O D O1 D'.
Proof using Hclean Hm HR.
  intros Hep Hall Hrows [S1 S2 S3 S4 S5] (Q1 & Q2 & Q3).
  assert (forall dg, dropped dg = false <-> ~ rooted O D dg /\ dg ∈ R) as Hdrop.
  { intros dg. unfold dropped. rewrite <-Hm, orb_false_iff, negb_false_iff, bool_decide_eq_true.
    by destruct (is_rooted m dg); naive_solver. }
  assert (forall dg marked, Q !! dg = Some marked -> expired dg = true <-> marked <= gc_epoch D - 1) as Hexp.
  { intros dg marked Hdg. unfold expired. rewrite Hdg, Z.leb_le. lia. }
  assert (forall dg, dg ∈ enumerate (elements R) <-> dg ∈ R) as Hel.
  { intros dg. by rewrite enumerate_perm, elem_of_elements. }
  constructor.
  - done.
  - by rewrite Q2.
  - intros dg. destruct (S3 dg) as [?|(? & _ & [Hr _]%Hdrop & Hx)]; [by left|right]. split; [done|]. split; [done|].
    unfold expired in Hx. destruct (Q !! dg) as [marked|] eqn:E; [|done]. exists marked. split; [done|].
    apply Z.leb_le in Hx. lia.
  - intros dg marked Hb Hr Hdg Hle. destruct (O !! dg) as [n|] eqn:E.
    + apply S4; [done|apply Hrows; eauto| |by eapply Hexp]. apply Hdrop. split; [done|]. apply Hall; [done|].
      destruct (Hclean _ _ E) as (bytes & -> & _). by exists bytes.
    + destruct (S3 dg) as [->|[? _]]; done.
  - intros dg Hb Hres Hr. pose proof (Hall Hb _ Hres) as Hin.
    assert (dropped dg = false) as Hd by by apply Hdrop.
    assert (is_rooted m dg = false) as Hmr by (destruct (is_rooted m dg) eqn:E; [by apply Hm in E|done]).
    rewrite Q3, Hmr, (bool_decide_true (dg ∈ _)) by (by apply Hel). cbn [negb andb].
    destruct (Q !! dg) as [marked|] eqn:E; cbn [default].
    + rewrite bool_decide_false by done. rewrite S5, E, Hd. cbn [orb].
      destruct (expired dg) eqn:Ex; [|right; by rewrite andb_false_r].
      left. apply S4; [done|apply Hrows; eauto|done|done].
    + rewrite bool_decide_true by done. right. by rewrite Hep.
  - intros dg marked Hdg. rewrite Q3 in Hdg.
    destruct (bool_decide (dg ∈ _) && _ && _) eqn:E.
    + injection Hdg as <-. right. apply andb_true_iff in E as [[Hin%bool_decide_eq_true _]%andb_true_iff _].
      split; [|done]. by apply HR, Hel.
    + left. rewrite S5 in Hdg. by destruct (bool_decide (dg ∈ rows) && _).
Qed.
End pass.

Lemma t_collect_pass (b : bool) O D :
  clean O -> no_dangling O D ->
  triple (at_ b O D) collect_pass
    (fun _ => on_state b (collected b O D))
    (fun e s => (trimmed O D (objects (w_disk s)) /\ w_db s = D) /\
       (b = false \/ (~ readable O D \/ ~ quarantine_ok D))).
Proof.
  intros Hclean Hnd.
  assert (trimmed O D O) as Htrim0 by by left.
  unfold collect_pass. apply (t_transaction b O D _ (fun _ => collected b O D) (trimmed O D)
    (fun _ => ~ readable O D \/ ~ quarantine_ok D)); [|intros _ O' D' Hc dg; destruct (c_kept _ _ _ _ _ Hc dg); naive_solver|done].
  assert (forall F e s, refused b O D F e s -> (F -> ~ readable O D \/ ~ quarantine_ok D) ->
    trimmed O D (objects (w_disk s)) /\ (b = false \/ (~ readable O D \/ ~ quarantine_ok D))) as Href.
  { intros F e s [[Ho _] Hb] HF. split; [by rewrite Ho|]. naive_solver. }
  eapply t_bind.
  { eapply t_conseq; [apply (t_sql_read_at b O D False (fun d => Ok (gc_epoch d)))|done|intros a s Hs; exact Hs|].
    - done.
    - intros e s Hs. eapply Href; [exact Hs|done]. }
  intros e0. apply t_pure_r. intros [= <-]. set (epoch := gc_epoch D + 1). set (D1 := with_gc epoch id D).
  eapply t_bind with (Q' := fun _ => at_ b O D1).
  { apply t_sql_write.
    - intros O' D' D2 [-> ->] [= <-]. done.
    - intros e s [[Ho _] Hb]. split; [by rewrite Ho|by left].
    - intros e s [[? ?] ?]. done. }
  intros _. eapply t_bind.
  { eapply t_conseq; [apply (t_mark b O D1); [done|]|done|intros a s Hs; exact Hs|].
    - exact Hnd.
    - intros e s [[Ho _] Hb]. split; [by rewrite Ho|]. destruct Hb as [?|Hb]; [by left|right; left]. exact Hb. }
  intros m. apply t_pure_r. intros Hm.
  eapply t_bind with (Q' := fun listed s => at_ b O D1 s /\
    (forall digest n, (digest, n) ∈ listed -> resident O digest) /\
    (b = true -> forall digest, resident O digest -> digest ∈ listed.*1)).
  { eapply t_conseq; [apply (t_disk_at b WE_Store each_object O D1 (fun listed O' => O' = O /\
      (forall digest n, (digest, n) ∈ listed -> resident O digest) /\
      (b = true -> forall digest, resident O digest -> digest ∈ listed.*1))
      (fun e s => trimmed O D (objects (w_disk s)) /\ (b = false \/ (~ readable O D \/ ~ quarantine_ok D))))| | |].
    - eapply t_conseq; [by apply t_each_object|done| |].
      + intros listed d [[Ho Hq] Hl]. done.
      + intros e d [Ho Hb] s _ Hd. rewrite Hd, Ho. split; [done|by left].
    - done.
    - intros listed s [[[Ho Hl] HD] Hq]. done.
    - done. }
  intros listed. apply t_pure_r. intros [Hlist Hall].
  set (R := list_to_set listed.*1 : gset (list byte)).
  assert (forall digest, digest ∈ R -> resident O digest) as HR.
  { intros digest. unfold R. rewrite elem_of_list_to_set, list_elem_of_fmap. intros ([dg n] & -> & Hin). by eapply Hlist. }
  set (rows := enumerate (map_to_list (gc_quarantine D))).
  assert (forall dg n, (dg, n) ∈ rows <-> gc_quarantine D !! dg = Some n) as Hrows.
  { intros dg n. unfold rows. by rewrite enumerate_perm, elem_of_map_to_list. }
  assert (NoDup rows.*1) as Hnd_rows.
  { unfold rows. rewrite enumerate_perm. apply NoDup_fst_map_to_list. }
  set (body := fun (acc : list (list byte * Z)) (row : list byte * Z) =>
    let? digest := digest_from_row row.1 in Ok (acc ++ [(digest, row.2)])).
  assert (forall qs, for_each body [] rows = Ok qs -> qs = rows) as Hrun.
  { intros qs Hqs. refine (for_each_inv body (fun pre acc => acc = pre) rows [] qs eq_refl _ Hqs).
    intros pre [dg n] post t t' _ ->. unfold body, digest_from_row. simpl. destruct (_ =? _); [|done]. by intros [= <-]. }
  eapply t_bind with (Q' := fun qs s => at_ b O D1 s /\ qs = rows).
  { eapply t_conseq; [apply (t_sql_read_at b O D1 (~ quarantine_ok D))|done| |].
    - intros e He Hqok. change (for_each body [] rows = Err e) in He.
      destruct (for_each_total body (fun _ _ => True) rows []) as (qs & Hqs & _); [done| |congruence].
      intros pre [dg n] post t Heq _. unfold body, digest_from_row. simpl.
      rewrite (proj2 (Z.eqb_eq _ _)); [eauto|]. apply (Hqok dg n). apply Hrows. rewrite Heq. set_solver.
    - intros qs s [Hs Hqs]. split; [done|]. apply Hrun. exact Hqs.
    - intros e s [[Ho _] Hb]. split; [by rewrite Ho|]. destruct Hb as [?|Hb]; [by left|right; by right]. }
  intros qs. apply t_pure_r. intros ->.
  assert (forall e s, failed_pass O D b e s -> trimmed O D (objects (w_disk s)) /\
    (b = false \/ (~ readable O D \/ ~ quarantine_ok D))) as Hfp.
  { intros e s [Ht Hb]. split; [done|by left]. }
  eapply t_bind with (Q' := fun _ => on_state b (swept O D b m R epoch rows.*1)).
  { eapply t_conseq; [apply (t_for (sweep_row m R epoch) _ rows (fun pre _ => on_state b (swept O D b m R epoch pre.*1))
      (failed_pass O D b))| | |exact Hfp].
    - intros pre [dg n] post st Heq. rewrite fmap_app. simpl. apply t_sweep_row; [done..| |].
      + rewrite Heq, fmap_app in Hnd_rows. apply NoDup_app in Hnd_rows as (_ & Hx & _).
        intros Hin. apply (Hx dg Hin). set_solver.
      + apply Hrows. rewrite Heq. set_solver.
    - intros s [[Ho HD] Hq]. split; [|done]. rewrite Ho, HD. constructor; try done.
      + by exists epoch, id.
      + intros dg. by left.
      + set_solver.
    - done. }
  intros [report lengths]. cbn [fst]. intros s [Hs Hq]. set (O1 := objects (w_disk s)) in *. set (D2 := w_db s) in *.
  assert (forall dg, dg ∈ (list_to_set rows.*1 : gset (list byte)) <-> is_Some (gc_quarantine D !! dg)) as Hal.
  { intros dg. rewrite elem_of_list_to_set, list_elem_of_fmap. split.
    - intros ([dg' n] & -> & Hin%Hrows). eauto.
    - intros [n Hn]. exists (dg, n). split; [done|]. by apply Hrows. }
  apply (t_run (on_state b (fun O' D' => O' = O1 /\ quarantined_at D m epoch [] D2 D')) _
    (fun _ => on_state b (fun O' D' => O' = O1 /\ quarantined_at D m epoch (enumerate (elements R)) D2 D')) _
    (failed_pass O D b)).
  - apply (t_for (quarantine_object m (list_to_set rows.*1) epoch) _ (enumerate (elements R))
      (fun pre _ => on_state b (fun O' D' => O' = O1 /\ quarantined_at D m epoch pre D2 D'))).
    intros pre dg post r Heq. apply (t_quarantine_object O D b Hclean m Hm R HR epoch O1 D2); [done|by eapply swept_trimmed| |].
    + intros x Hx. rewrite (sw_rows _ _ _ _ _ _ _ _ _ Hs x), Hx. by destruct (_ && _).
    + assert (NoDup (enumerate (elements R))) as Hnd' by (rewrite enumerate_perm; apply NoDup_elements).
      rewrite Heq in Hnd'. apply NoDup_app in Hnd' as (_ & Hx & _). intros Hin. apply (Hx dg Hin). set_solver.
  - split; [|done]. split; [done|]. split; [apply Hs|]. split; [apply Hs|]. intros dg. done.
  - intros r s' [[Ho (Hrest & Hep & Hrow)] Hq']. split; [|done]. rewrite Ho. 
    apply (collected_intro O D b Hclean m Hm R HR epoch rows.*1 O1 D2); [done| | |exact Hs|done].
    + intros Hb dg Hdg. unfold R. rewrite elem_of_list_to_set. by apply Hall.
    + intros dg. rewrite <-Hal. by rewrite elem_of_list_to_set.
  - exact Hfp.
Qed.
End sweep.
