(* ===== verification/System.v ===== *)
(** The store as a whole: whatever operations run in whatever order, whatever
    fails and wherever the process is killed and restarted, no root ever reaches
    an object that is not there. *)

From S2P Require Export PlanFrame Sweep.

Section system.
Context `{Sha256, Unicode, Unordered, Rowid, Allocator}.
Implicit Types (O : gmap (list byte) node) (D : db).

Abbreviation at_ O D := (on_state false (fun O' D' => O' = O /\ D' = D)).

(** ** The invariant *)

Record safe (O : gmap (list byte) node) (D : db) : Prop := {
  sf_clean : clean O;
  sf_tables : tables_ok D;
  sf_text : text_ok D;
  sf_quarantine : quarantine_ok D;
  sf_no_dangling : no_dangling O D
}.
Definition inv (s : world) : Prop := safe (objects (w_disk s)) (w_db s).

Lemma safe_fresh : safe ∅ fresh_db.
Proof.
  constructor; [done|apply tables_ok_fresh|split; done|done|].
  intros digest [(k & row & Hk & _)|[(l & Hl)|(id & g & Hs & _)]]; [done|by apply not_elem_of_empty in Hl|done].
Qed.

(** What the roots of new tables may reach. *)
Record roots_below (O : gmap (list byte) node) (D D' : db) : Prop := {
  rb_heads digest : head_digest D' digest -> head_digest D digest \/ resident O digest;
  rb_leases l digest : (l, digest) ∈ lease_objects D' ->
    (exists l', (l', digest) ∈ lease_objects D) \/ resident O digest;
  rb_snapshots id g : snapshots D' !! id = Some g -> is_Some (snapshots D !! id) \/
    (resident O id /\ forall digest, manifest_names O id digest -> resident O digest)
}.

Lemma roots_below_sub O D D' :
  object_maps D' ⊆ object_maps D -> lease_objects D' ⊆ lease_objects D -> snapshots D' ⊆ snapshots D ->
  roots_below O D D'.
Proof.
  intros Ho Hl Hs. constructor.
  - intros digest Hd. left. by eapply head_digest_sub.
  - intros l digest Hin. left. exists l. set_solver.
  - intros id g Hid. left. exists g. by eapply lookup_weaken.
Qed.

Lemma no_dangling_change O D D' : no_dangling O D -> roots_below O D D' -> no_dangling O D'.
Proof.
  intros Hn [Hh Hl Hs] digest [Hd|[(l & Hd)|(id & g & Hid & Hd)]].
  - destruct (Hh _ Hd) as [?|?]; [|done]. apply Hn. by left.
  - destruct (Hl _ _ Hd) as [?|?]; [|done]. apply Hn. right. by left.
  - destruct (Hs _ _ Hid) as [[g' Hg]|[Hr Hm]].
    + apply Hn. right. right. eauto.
    + destruct Hd as [->|Hd]; [done|by apply Hm].
Qed.

Lemma safe_change O D D' :
  safe O D -> tables_ok D' -> text_ok D' -> gc_epoch D' = gc_epoch D -> gc_quarantine D' = gc_quarantine D ->
  roots_below O D D' -> safe O D'.
Proof.
  intros [S1 S2 S3 S4 S5] Ht Hx He Hq Hr. constructor; try done.
  - unfold quarantine_ok. by rewrite He, Hq.
  - by eapply no_dangling_change.
Qed.

(** Objects that appear. *)
Lemma resident_grow O digest bytes O' :
  at_most_installed O digest bytes O' -> O ⊆ O'.
Proof. intros [->|[Hn ->]]; [done|]. by apply insert_subseteq. Qed.

Lemma manifest_names_sub O O' id digest :
  O' ⊆ O -> manifest_names O' id digest -> manifest_names O id digest.
Proof.
  intros Hs (bytes & ro & snap & Ho & Hd). exists bytes, ro, snap. split; [|done]. by eapply lookup_weaken.
Qed.

Lemma safe_installed O D bytes O' :
  zlen bytes < U64 -> at_most_installed O (sha256 bytes) bytes O' -> safe O D -> safe O' D.
Proof.
  intros Hlen Hi [S1 S2 S3 S4 S5]. pose proof (resident_grow _ _ _ _ Hi) as Hsub. constructor; try done.
  - destruct Hi as [->|[_ ->]]; [done|]. intros digest n. rewrite lookup_insert. case_decide.
    + intros [= <-]. subst. by exists bytes.
    + apply S1.
  - intros digest Hr. assert (resident O digest) as [b Hb]; [|exists b; by eapply lookup_weaken].
    apply S5. destruct Hr as [?|[?|(id & g & Hid & Hd)]]; [by left|right; by left|right; right].
    exists id, g. split; [done|]. destruct Hd as [->|(b2 & ro & snap & Ho & Hs)]; [by left|right].
    assert (resident O id) as [b3 Hb3] by (apply S5; right; right; eauto).
    assert (O' !! id = Some (Regular b3 true)) as Ho' by (by eapply lookup_weaken).
    rewrite Ho' in Ho. injection Ho as <- <-. by exists b3, true, snap.
Qed.

(** Objects that go. *)
Lemma safe_trimmed O D O' : trimmed O D O' -> safe O D -> safe O' D.
Proof.
  intros Ht [S1 S2 S3 S4 S5].
  assert (O' ⊆ O) as Hsub.
  { apply map_subseteq_spec. intros digest n Hn. destruct (Ht digest) as [<-|[? _]]; congruence. }
  assert (forall digest, rooted O' D digest -> rooted O D digest) as Hroot.
  { intros digest [?|[?|(id & g & Hid & Hd)]]; [by left|right; by left|right; right]. exists id, g. split; [done|].
    destruct Hd as [?|Hd]; [by left|right]. by eapply manifest_names_sub. }
  constructor; try done.
  - intros digest n Hn. apply S1. by eapply lookup_weaken.
  - intros digest Hr%Hroot. destruct (S5 _ Hr) as [bytes Hb]. destruct (Ht digest) as [Heq|[_ []]]; [|done].
    exists bytes. by rewrite Heq.
Qed.

Lemma safe_collected b O D O' D' : collected b O D O' D' -> safe O D -> safe O' D'.
Proof.
  intros [C1 C2 C3 C4 C5 C6] Hs. assert (trimmed O D O') as Ht by (intros dg; destruct (C3 dg); naive_solver).
  pose proof (safe_trimmed _ _ _ Ht Hs) as Hs'. destruct C1 as (epoch & f & ->). destruct Hs' as [S1 S2 S3 S4 S5].
  constructor; [done| |done| |done].
  - by eapply tables_ok_ext; [..|exact S2].
  - intros digest marked Hm. cbn in C2. destruct (C6 _ _ Hm) as [Hq|[Hr ->]].
    + cbn. rewrite C2. destruct (sf_quarantine _ _ Hs _ _ Hq). lia.
    + cbn. split; [|lia]. eapply clean_length; [apply Hs|done].
Qed.

(** ** Operations preserve it *)

Abbreviation preserves := (framed inv).

Lemma inv_at s : inv s -> exists O D, safe O D /\ at_ O D s.
Proof. intros Hs. by exists (objects (w_disk s)), (w_db s). Qed.

(** From every safe state. *)
Lemma p_at {A : Type} (m : M world workspace_error A) :
  (forall O D, safe O D -> triple (at_ O D) m (fun _ => inv) (fun _ => inv)) -> preserves m.
Proof. intros Hm s (O & D & Hsafe & Hs)%inv_at. by apply (Hm O D). Qed.

Lemma at_inv O D s : safe O D -> at_ O D s -> inv s.
Proof. intros Hs [[Ho HD] _]. unfold inv. by rewrite Ho, HD. Qed.
Lemma refused_inv O D F e s : safe O D -> refused false O D F e s -> inv s.
Proof. intros Hs [[Ho HD] _]. unfold inv. by rewrite Ho, HD. Qed.

Lemma p_sql_read {A : Type} (f : db -> result workspace_error A) : preserves (sql_read f).
Proof.
  apply p_at. intros O D Hs. eapply t_conseq; [apply (t_sql_read_at false O D True); done|done| |].
  - intros a s [Hat _]. by eapply at_inv.
  - intros e s. by apply refused_inv.
Qed.

(** A transaction whose body leaves both the new and the old tables safe. *)
Lemma p_transaction {A : Type} (body : M world workspace_error A) :
  (forall O D, safe O D -> triple (at_ O D) body
     (fun _ => on_state false (fun O' D' => safe O' D' /\ safe O' D))
     (fun _ s => safe (objects (w_disk s)) D)) ->
  preserves (transaction body).
Proof.
  intros Hb. apply p_at. intros O D Hs.
  eapply t_conseq; [apply (t_transaction false O D body (fun _ O' D' => safe O' D' /\ safe O' D)
    (fun O' => safe O' D) (fun _ => True))|done| |].
  - eapply t_conseq; [by apply Hb|done|done|]. intros e s Hx. split; [done|by left].
  - by intros _ O' D' [].
  - done.
  - by intros a s [[] _].
  - intros e s [[Ho HD] _]. unfold inv. by rewrite HD.
Qed.

(** One statement in a transaction. *)
Lemma p_write_tx (f : db -> result workspace_error db) :
  (forall O D D', safe O D -> f D = Ok D' -> safe O D') -> preserves (transaction (sql_write f)).
Proof.
  intros Hf. apply p_transaction. intros O D Hs. apply t_sql_write.
  - intros O' D0 D' [-> ->] HD'. split; [by eapply Hf|done].
  - intros e s [[Ho _] _]. by rewrite Ho.
  - intros e s [[[Ho _] _] _]. by rewrite Ho.
Qed.
Lemma p_write (f : db -> result workspace_error db) :
  (forall O D D', safe O D -> f D = Ok D' -> safe O D') -> preserves (sql_write f).
Proof.
  intros Hf. apply p_at. intros O D Hs. apply (t_conseq _ (at_ O D) _ _ (fun _ => on_state false safe) _ (fun _ => inv)).
  - apply t_sql_write.
    + intros O' D0 D' [-> ->] HD'. by eapply Hf.
    + intros e s [[Ho HD] _]. unfold inv. by rewrite Ho, HD.
    + intros e s [[[Ho HD] _] _]. unfold inv. by rewrite Ho, HD.
  - done.
  - by intros a s [].
  - done.
Qed.

(** ** Objects *)

Lemma clean_ok O : clean O -> resident_ok O.
Proof. intros Hc digest bytes ro Hd. destruct (Hc _ _ Hd) as (b & [= -> ->] & ? & ?). done. Qed.

Lemma p_put bytes : zlen bytes < U64 -> preserves (store (put_bytes bytes)).
Proof.
  intros Hlen. apply p_at. intros O D Hs.
  eapply t_conseq; [apply (t_disk_at false WE_Store (put_bytes bytes) O D
    (fun a => at_most_installed O (sha256 bytes) bytes) (fun _ => inv))| | |].
  - intros d [Ho _]. pose proof (t_put_bytes O bytes (clean_ok _ (sf_clean _ _ Hs)) Hlen d Ho) as Hp.
    destruct (put_bytes bytes d) as [[a|e] d'].
    + split; [|done]. by eapply put_post_installed.
    + intros s HD Hd. unfold inv. subst d' D. by eapply safe_installed.
  - done.
  - intros a s [[Hi HD] _]. unfold inv. subst D. by eapply safe_installed.
  - done.
Qed.

(** A store call that leaves the objects alone. *)
Lemma p_disk {E A : Type} (f : E -> workspace_error) (m : M disk E A) :
  (forall O, clean O -> triple (objects_are O) m (fun _ => objects_are O) (fun _ => objects_are O)) ->
  preserves (map_err_m f (on_disk m)).
Proof.
  intros Hm. apply p_at. intros O D Hs.
  eapply t_conseq; [apply (t_disk_at false f m O D (fun _ O' => O' = O) (fun _ => inv))| | |].
  - intros d [Ho _]. specialize (Hm O (sf_clean _ _ Hs) d Ho). destruct (m d) as [[a|e] d'].
    + by split.
    + intros s HD Hd. unfold inv, objects_are in *. subst d' D. by rewrite Hm.
  - done.
  - intros a s [[Ho HD] _]. unfold inv. by rewrite Ho, HD.
  - done.
Qed.

Lemma p_verify_all digests : preserves (verify_all digests).
Proof.
  apply f_for. intros u digest _. apply f_bind; [|intros; apply f_ret]. apply p_disk. intros O Hc.
  eapply t_conseq; [apply (t_verify O digest)|done|by intros a d []|done].
  intros bytes ro Hb. by apply clean_ok in Hb as (_ & _ & ?).
Qed.

Lemma p_commit_prepare mutations : preserves (commit_prepare mutations).
Proof.
  apply f_bind; [apply f_lift|]. intros referenced. apply f_bind; [apply p_verify_all|]. intros; apply f_ret.
Qed.

(** The existence check sees what is there. *)
Lemma t_exists O (digest : list byte) :
  triple (objects_are O) (exists_object digest)
    (fun found d => objects_are O d /\ (found = true -> clean O -> resident O digest)) (fun _ => objects_are O).
Proof.
  intros d Hd. unfold exists_object.
  match goal with |- context [query ?f d] =>
    pose proof (t_query (objects_are O) f d Hd) as Hq; destruct (query f d) as [[found|e] d1] end; [|done].
  destruct Hq as [Hd1 (d0 & Ho & [= <-])]. split; [done|]. intros Hf Hc. unfold objects_are in Ho. rewrite Ho in Hf.
  destruct (O !! digest) as [n|] eqn:E; [|done]. destruct (Hc _ _ E) as (bytes & -> & _). by exists bytes.
Qed.

Lemma t_check_exist O D (digests : list (list byte)) :
  clean O ->
  triple (at_ O D) (check_exist digests)
    (fun _ s => at_ O D s /\ forall digest, digest ∈ digests -> resident O digest)
    (refused false O D True).
Proof.
  intros Hc. unfold check_exist.
  eapply t_conseq; [apply (t_for _ tt digests (fun pre _ s => at_ O D s /\ forall digest, digest ∈ pre -> resident O digest)
    (refused false O D True))| |intros [] s Hs; exact Hs|done].
  - intros pre digest post u Heq. apply t_pure_r. intros Hpre.
    eapply t_bind with (Q' := fun found s => at_ O D s /\ (found = true -> resident O digest)).
    + eapply t_conseq; [apply (t_disk_at false WE_Store (exists_object digest) O D
        (fun found O' => O' = O /\ (found = true -> resident O digest)) (refused false O D True))| | |].
      * intros d [Ho _]. pose proof (t_exists O digest d Ho) as Hx. destruct (exists_object digest d) as [[found|e] d'].
        -- destruct Hx as [Ho' Hf]. split; [|done]. split; [done|]. auto.
        -- intros s HD Hd. split; [|by left]. unfold objects_are in Hx. by rewrite Hd, Hx.
      * done.
      * intros found s [[[Ho Hf] HD] _]. done.
      * done.
    + intros found. apply t_pure_r. intros Hf. apply t_check. intros s Hs. destruct found.
      * split; [done|]. intros dg [?|Hin]%elem_of_app; [by apply Hpre|].
        apply list_elem_of_singleton in Hin as ->. by apply Hf.
      * destruct Hs as [Hs _]. split; [exact Hs|by left].
  - intros s Hs. split; [exact Hs|]. set_solver.
Qed.
Lemma p_check_exist digests : preserves (check_exist digests).
Proof.
  apply p_at. intros O D Hs. eapply t_conseq; [apply t_check_exist, Hs|done| |].
  - intros u s [Hat _]. by eapply at_inv.
  - intros e s. by apply refused_inv.
Qed.

(** ** Commits *)

(** A batch as the language types it: strings are UTF-8, lengths are [u64]s and
    digests 32 bytes.  No caller removes a workspace's root. *)
Definition mutation_typed (m : mutation) : Prop :=
  mutation_text m /\
  match m with
  | CreateFile _ _ _ records | SetRecords _ records => Forall wf_record records
  | Truncate _ length => in_u64 length
  | Rmdir path => path <> []
  | _ => True
  end.

Lemma referenced_digests_Ok mutations referenced :
  Forall mutation_typed mutations -> referenced_digests mutations = Ok referenced ->
  Forall mutation_ok mutations /\
  forall m digest, m ∈ mutations -> digest ∈ mutation_digests m -> digest ∈ referenced.
Proof.
  intros Hty Hr. unfold referenced_digests in Hr.
  refine (for_each_inv _ (fun pre (acc : gset (list byte)) => Forall mutation_ok pre /\
    forall m digest, m ∈ pre -> digest ∈ mutation_digests m -> digest ∈ acc) mutations ∅ referenced _ _ Hr).
  { split; [constructor|set_solver]. }
  intros pre m post acc acc' -> [Hok Hin]. rewrite Forall_app, Forall_cons in Hty. destruct Hty as (_ & [_ Hm] & _).
  destruct (mutation_records m) as [records|] eqn:Er.
  - destruct (records_length records) as [n|]; [|done]. simpl.
    destruct (validate_record_run records n) as [[]|] eqn:Ev; [|done]. intros [= <-].
    assert (Forall wf_record records) as Hwf by (destruct m; simplify_eq/=; done).
    apply validate_record_run_iff in Ev; [|done].
    split.
    + apply Forall_app. split; [done|]. apply Forall_singleton.
      destruct m; simplify_eq/=; by (split; [|eexists]).
    + intros m' digest [Hm'|Hm']%elem_of_app Hd; [set_solver|]. apply list_elem_of_singleton in Hm' as ->.
      unfold mutation_digests in Hd. rewrite Er in Hd. apply elem_of_union_r. by apply elem_of_list_to_set.
  - intros [= <-]. split.
    + apply Forall_app. split; [done|]. apply Forall_singleton. by destruct m.
    + intros m' digest [Hm'|Hm']%elem_of_app Hd; [set_solver|]. apply list_elem_of_singleton in Hm' as ->.
      unfold mutation_digests in Hd. rewrite Er in Hd. by apply not_elem_of_nil in Hd.
Qed.

Lemma apply_all_refs d w ms d' :
  tables_ok d -> rooted_at d (w_id w) (w_root_inode w) -> Forall mutation_ok ms ->
  for_each (fun d m => apply_mutation d w m) d ms = Ok d' ->
  (forall digest, head_digest d' digest -> head_digest d digest \/ exists m, m ∈ ms /\ digest ∈ mutation_digests m) /\
  (text_ok d -> Forall mutation_text ms -> text_ok d').
Proof.
  intros Hd Hroot Hms. revert d Hd Hroot. induction Hms as [|m ms Hm Hms IH]; intros d Hd Hroot Ha; simpl in Ha.
  - injection Ha as <-. split; [by left|done].
  - destruct (apply_mutation d w m) as [d1|] eqn:E; [|done].
    destruct (apply_mutation_refs d w m d1 (proj2 (proj1 Hd)) E) as [Hh Ht].
    destruct (apply_mutation_ok d w m d1 Hd Hroot Hm E) as [Hd1 Hr1].
    destruct (IH d1 Hd1 Hr1 Ha) as [Hh1 Ht1]. split.
    + intros digest Hdg. destruct (Hh1 _ Hdg) as [Hd1'|(m' & ? & ?)]; [|right; exists m'; set_solver].
      destruct (Hh _ Hd1') as [?|?]; [by left|]. right. exists m. set_solver.
    + intros Hx [? ?]%Forall_cons. auto.
Qed.

Lemma apply_batch_safe O D name mutations referenced D' next :
  safe O D -> Forall mutation_typed mutations -> referenced_digests mutations = Ok referenced ->
  (forall digest, digest ∈ referenced -> resident O digest) ->
  apply_batch name mutations D = Ok (D', next) -> safe O D'.
Proof.
  intros Hs Hty Href Hres Hb. destruct (referenced_digests_Ok _ _ Hty Href) as [Hok Hin].
  unfold apply_batch in Hb. destruct (workspace_row D name) as [w|] eqn:Ew; [|done].
  destruct (for_each _ D mutations) as [D1|] eqn:Ea; [|done]. injection Hb as <- _.
  pose proof (workspace_row_rooted _ _ _ Ew) as Hroot.
  destruct (apply_all_ok D w mutations D1 (sf_tables _ _ Hs) Hroot Hok Ea) as (Ht1 & Hr1 & _ & (L1 & L2 & L3 & L4 & L5) & _).
  destruct (apply_all_refs D w mutations D1 (sf_tables _ _ Hs) Hroot Hok Ea) as [Hh Hx].
  eapply safe_change; [exact Hs|by apply advance_head_ok| |done|done|].
  - apply Hx; [apply Hs|]. eapply Forall_impl; [exact Hty|]. by intros m [].
  - constructor.
    + intros digest [?|(m & Hm & Hd)]%Hh; [by left|right]. apply Hres. by eapply Hin.
    + intros l digest Hl. left. exists l. by rewrite <-L3.
    + intros id g Hid. left. exists g. by rewrite <-L2.
Qed.

Lemma p_commit_transaction name mutations referenced :
  Forall mutation_typed mutations -> referenced_digests mutations = Ok referenced ->
  preserves (commit_transaction name mutations referenced).
Proof.
  intros Hty Href. apply p_transaction. intros O D Hs.
  eapply t_bind; [eapply t_conseq; [apply (t_check_exist O D), Hs|done|intros a s Hx; exact Hx|]|].
  { intros e s [[Ho _] _]. by rewrite Ho. }
  intros u0. apply t_pure_r. intros Hres. eapply t_bind with (Q' := fun _ => at_ O D).
  { eapply t_conseq; [apply (t_sql_read_at false O D True); done|done|by intros a s []|].
    intros e s [[Ho _] _]. by rewrite Ho. }
  intros next. eapply t_bind with (Q' := fun _ => on_state false (fun O' D' => safe O' D' /\ safe O' D));
    [|intros u; by apply t_ret].
  apply t_sql_write.
  - intros O' D0 D' [-> ->]. destruct (apply_batch name mutations D) as [[D1 n]|] eqn:E; [|done]. intros [= <-].
    split; [|done]. eapply apply_batch_safe; [done..| |exact E].
    intros digest Hd. apply Hres. rewrite enumerate_perm. by apply elem_of_elements.
  - intros e s [[Ho _] _]. by rewrite Ho.
  - intros e s [[[Ho _] _] _]. by rewrite Ho.
Qed.

Lemma p_commit_generation name mutations :
  Forall mutation_typed mutations -> preserves (commit_generation name mutations).
Proof.
  intros Hty. unfold commit_generation, commit_prepare. destruct (referenced_digests mutations) as [referenced|e] eqn:Er.
  - intros s Hs. pose proof (p_verify_all (enumerate (elements referenced)) s Hs) as Hv.
    unfold bind, lift, ret. destruct (verify_all _ s) as [[u|e] s1]; [|done].
    by apply (p_commit_transaction name mutations referenced).
  - by intros s Hs.
Qed.

(** ** Workspaces and leases *)

Lemma create_workspace_safe O D name D' : safe O D -> create_workspace_rows name D = Ok D' -> safe O D'.
Proof.
  intros Hs Hc. destruct (create_workspace_ok name D D' (sf_tables _ _ Hs) Hc) as (Ht & (L1 & L2 & L3 & L4 & L5) & Ho & _).
  eapply safe_change; [done..| |done|done|].
  - unfold create_workspace_rows, insert_workspace in Hc. case_decide; [|done]. cbn in Hc. injection Hc as <-.
    destruct (sf_text _ _ Hs) as [Hn Hx]. split; [done|]. intros i row t. cbn. rewrite lookup_insert.
    case_decide; [by intros [= <-]|apply Hx].
  - apply roots_below_sub; [by rewrite Ho|by rewrite L3|by rewrite L2].
Qed.

Lemma p_create_workspace name : preserves (create_workspace name).
Proof.
  apply p_transaction. intros O D Hs s Hat.
  pose proof (t_sql_read_at false O D True (fun d => workspace_row d name) (fun _ _ => I) s Hat) as Hr.
  destruct (sql_read _ s) as [[w|e] s1].
  - destruct Hr as [[[Ho _] _] _]. by rewrite Ho.
  - assert (at_ O D s1) as Hat1 by by destruct Hr.
    apply (t_sql_write false (fun O' D' => O' = O /\ D' = D) (fun O' D' => safe O' D' /\ safe O' D)
      (create_workspace_rows name) (fun _ s => safe (objects (w_disk s)) D)); [| | |done].
    + intros O' D0 D' [-> ->] Hc. split; [by eapply create_workspace_safe|done].
    + intros e' s2 [[Ho _] _]. by rewrite Ho.
    + intros e' s2 [[[Ho _] _] _]. by rewrite Ho.
Qed.

Lemma p_delete_workspace name : preserves (delete_workspace name).
Proof.
  apply p_write_tx. intros O D D' Hs Hd.
  destruct (delete_workspace_ok name D D' (sf_tables _ _ Hs) Hd) as (Ht & Ho & Hl & Hsn & _).
  unfold delete_workspace_rows in Hd. destruct (workspace_row D name) as [w|]; [|done].
  unfold delete_workspace_row in Hd. cbn in Hd. case_decide; [|done]. injection Hd as <-.
  eapply safe_change; [exact Hs|exact Ht| |done|done|].
  - eapply text_ok_sub; [| |apply Hs]; cbn.
    + intros k c Hk. rewrite !map_lookup_filter_Some in Hk. naive_solver.
    + intros i row Hi. rewrite map_lookup_filter_Some in Hi. naive_solver.
  - apply roots_below_sub; [done|done|by rewrite Hsn].
Qed.

Lemma p_release_lease lease : preserves (release_lease lease).
Proof.
  apply p_write_tx. intros O D D' Hs Hd.
  destruct (release_lease_ok lease D D' (sf_tables _ _ Hs) Hd) as (Ht & Ho & Hl & Hsn).
  unfold release_lease_rows in Hd. destruct (leases D !! lease) as [row|]; [|done].
  set (D1 := with_leases _ _) in Hd.
  assert (text_ok D' /\ gc_epoch D' = gc_epoch D /\ gc_quarantine D' = gc_quarantine D) as (Hx & He & Hq).
  { destruct (lr_inode row) as [i|]; [|injection Hd as <-; split; [apply Hs|done]].
    destruct (drop_inode_refs _ _ _ Hd) as [_ Ht1]. destruct (drop_inode_rest _ _ _ Hd) as (_ & _ & _ & ? & ?).
    split; [apply Ht1, Hs|done]. }
  eapply safe_change; [exact Hs|exact Ht|exact Hx|exact He|exact Hq|].
  apply roots_below_sub; [done|done|by rewrite Hsn].
Qed.

(** A lease on a path below the root. *)
Lemma unlinked_lease_safe O D workspace path holder D' l :
  safe O D -> path <> [] -> unlinked_lease_rows workspace path holder D = Ok (D', l) -> safe O D'.
Proof.
  intros Hs Hp Hu. unfold unlinked_lease_rows in Hu. destruct (workspace_row D workspace) as [w|] eqn:Ew; [|done].
  destruct (resolve_existing D w path) as [i|] eqn:Ei; [|done]. cbn in Hu.
  pose proof (workspace_row_rooted _ _ _ Ew) as Hroot. destruct (sf_tables _ _ Hs) as [[Ht Hr] Hl].
  edestruct insert_lease_ok as (Ht' & _ & _ & Ho & Hsn & Hlo); [apply Hs| |exact Hu|].
  - intros j w' wrow [= <-] Hw' Heq. unfold resolve_existing, resolve_path in Ei. rewrite decide_False in Ei by done.
    destruct (validate_path path) as [[]|]; [|done]. cbn in Ei.
    destruct (resolve_segments D (root_of w) (split_on slash path)) as [k|] eqn:Ek; [|done]. injection Ei as <-.
    destruct (split_on slash path) as [|x q _] eqn:Eq using rev_ind; [by destruct (split_on_nonempty slash path)|].
    rewrite resolve_snoc in Ek. destruct (resolve_segments D (root_of w) q); [|done].
    apply step_Some in Ek as (_ & He & _). rewrite <-Heq in He. by apply (ts_root D Ht _ _ Hw') in He.
  - unfold insert_lease in Hu. destruct (_ && _); [|done]. injection Hu as <- <-.
    eapply safe_change; [exact Hs|exact Ht'|apply Hs|done|done|].
    apply roots_below_sub; [by rewrite Ho|by rewrite Hlo|by rewrite Hsn].
Qed.

(** Read the row a statement answers, then run it. *)
Lemma t_read_write {A B : Type} O D (f : db -> result workspace_error (db * A)) (g : A -> B) :
  safe O D -> (forall D' a, f D = Ok (D', a) -> safe O D') ->
  triple (at_ O D)
    (let<- x := sql_read (fun d => let? (_, x) := f d in Ok x) in
     sql_write (fun d => let? (d, _) := f d in Ok d);;; ret (g x))
    (fun _ => on_state false (fun O' D' => safe O' D' /\ safe O' D)) (fun _ s => safe (objects (w_disk s)) D).
Proof.
  intros Hs Hf. eapply t_bind with (Q' := fun _ => at_ O D).
  { eapply t_conseq; [apply (t_sql_read_at false O D True); done|done|by intros a s []|].
    intros e s [[Ho _] _]. by rewrite Ho. }
  intros x. eapply t_bind with (Q' := fun _ => on_state false (fun O' D' => safe O' D' /\ safe O' D));
    [|intros u; by apply t_ret].
  apply t_sql_write.
  - intros O' D0 D' [-> ->]. destruct (f D) as [[D1 y]|] eqn:E; [|done]. intros [= <-]. split; [by eapply Hf|done].
  - intros e s [[Ho _] _]. by rewrite Ho.
  - intros e s [[[Ho _] _] _]. by rewrite Ho.
Qed.

Lemma p_acquire_unlinked_lease workspace path holder :
  path <> [] -> preserves (acquire_unlinked_lease workspace path holder).
Proof.
  intros Hp. apply p_transaction. intros O D Hs. apply (t_read_write O D _ id); [done|].
  intros D' l Hu. by eapply unlinked_lease_safe.
Qed.

(** ** Snapshots *)

Lemma manifest_entry_digests snap digest :
  digest ∈ manifest_objects snap -> digest ∈ s_entries snap ≫= entry_digests.
Proof.
  intros (path & x & body & Hin & Hd)%elem_of_manifest_objects. apply list_elem_of_bind. exists (path, File x body).
  split; [|done]. unfold entry_digests. simpl. destruct body as [f c n rs|n dg]; simpl in *.
  - by apply elem_of_list_to_set in Hd.
  - destruct (n =? 0) eqn:E; [by apply not_elem_of_empty in Hd|]. apply elem_of_singleton in Hd as ->.
    simpl. set_solver.
Qed.

Lemma p_acquire_pending_sync_lease id holder : preserves (acquire_pending_sync_lease id holder).
Proof.
  apply p_transaction. intros O D Hs. unfold read_rooted_snapshot.
  assert (forall F e s, refused false O D F e s -> safe (objects (w_disk s)) D) as Href.
  { intros F e s [[Ho _] _]. by rewrite Ho. }
  eapply t_bind with (Q' := fun snap s => at_ O D s /\ is_Some (snapshots D !! id) /\ readable_at O id snap).
  - eapply t_bind.
    + eapply t_conseq; [apply (t_sql_read_at false O D True (fun d => Ok (snapshots d !! id))); done|done|
        intros a s Hx; exact Hx|intros e s; apply Href].
    + intros row. apply t_pure_r. intros [= <-]. destruct (snapshots D !! id) as [g|] eqn:Eg.
      * eapply t_conseq; [apply (t_read_manifest false O D id), Hs|done| |intros e s; apply Href].
        intros snap s [Hat Hr]. split; [done|]. split; [by eexists|done].
      * apply t_fail. intros s [[Ho _] _]. by rewrite Ho.
  - intros snap. apply t_pure_r. intros ([g Hg] & bytes & ro & Hbytes & Hdec).
    apply (t_read_write O D (pending_lease_rows id holder snap) (fun lease => (lease, snap))); [done|].
    intros D' l Hp. unfold pending_lease_rows in Hp.
    destruct (insert_lease _ D) as [[D1 l1]|] eqn:Ei; [|done]. injection Hp as <- <-.
    edestruct insert_lease_ok as (Ht' & _ & _ & Ho & Hsn & Hlo); [apply Hs| |exact Ei|]; [done|].
    unfold insert_lease in Ei. destruct (_ && _); [|done]. injection Ei as <- <-.
    eapply safe_change; [exact Hs|by eapply tables_ok_ext; [..|exact Ht']|apply Hs|done|done|]. constructor.
    + intros digest Hd. by left.
    + intros l digest. cbn. rewrite elem_of_union, elem_of_map.
      intros [Hin|(dg & [= -> ->] & Hin)]; [left; eauto|right].
      apply (sf_no_dangling _ _ Hs). right. right. exists id, g. split; [done|].
      apply elem_of_union in Hin as [->%elem_of_singleton|Hin]; [by left|right].
      exists bytes, ro, snap. split; [done|]. split; [done|].
      apply elem_of_list_to_set, list_elem_of_bind in Hin as ([path e] & Hin & Hpe).
      apply names_object_iff, elem_of_manifest_objects. unfold entry_digests in Hin. simpl in Hin.
      destruct e as [|x body|t|o]; try (by apply not_elem_of_nil in Hin). exists path, x, body. split; [done|].
      destruct body as [f c n rs|n dg']; simpl in *; [by apply elem_of_list_to_set|].
      destruct (n =? 0) eqn:E; simpl in Hin; [by apply not_elem_of_nil in Hin|set_solver].
    + intros id' g' Hid. left. eauto.
Qed.

(** No resident object has the digest of other bytes. *)
Definition unclashed (O : gmap (list byte) node) (bytes : list byte) : Prop :=
  forall other ro, O !! sha256 bytes = Some (Regular other ro) -> other = bytes.

(** Admitting a manifest puts its bytes under its identity. *)
Lemma t_admit O D bytes :
  safe O D -> zlen bytes < U64 -> unclashed O bytes ->
  triple (at_ O D) (store (put_bytes bytes))
    (fun _ => on_state false (fun O' D' => (at_most_installed O (sha256 bytes) bytes O' /\
       O' !! sha256 bytes = Some (Regular bytes true)) /\ D' = D))
    (fun _ s => at_most_installed O (sha256 bytes) bytes (objects (w_disk s)) /\ w_db s = D).
Proof.
  intros Hs Hlen Hu. apply (t_disk_at false WE_Store (put_bytes bytes) O D (fun _ O' =>
    at_most_installed O (sha256 bytes) bytes O' /\ O' !! sha256 bytes = Some (Regular bytes true))).
  intros d [Ho _]. pose proof (t_put_bytes O bytes (clean_ok _ (sf_clean _ _ Hs)) Hlen d Ho) as Hp.
  destruct (put_bytes bytes d) as [[a|e] d'].
  - split; [|done]. split; [by eapply put_post_installed|]. destruct Hp as [_ Ha].
    destruct (ao_preexisting a).
    + destruct Ha as [-> (b & ro & Hb & _)]. rewrite Hb. destruct (sf_clean _ _ Hs _ _ Hb) as (b' & [= -> ->] & _).
      f_equal. f_equal. by eapply Hu.
    + destruct Ha as [_ ->]. by rewrite lookup_insert_eq.
  - intros s HD Hd. by subst d'.
Qed.

(** A root for a manifest whose objects are all there. *)
Lemma insert_snapshot_safe O D bytes snap g :
  safe O D -> zlen bytes < U64 -> O !! sha256 bytes = Some (Regular bytes true) -> decode bytes = Ok snap \/ (to_bytes snap = bytes /\ wf_snapshot snap) ->
  (forall digest, digest ∈ manifest_objects snap -> resident O digest) ->
  safe O (insert_snapshot (sha256 bytes) g D).
Proof.
  intros Hs Hlen Hb Hdec Hres. unfold insert_snapshot. destruct (snapshots D !! sha256 bytes) eqn:E; [done|].
  assert (forall snap', decode bytes = Ok snap' -> snap' = snap) as Hsnap.
  { intros snap' Hd'. destruct Hdec as [Hd|[<- Hwf]]; [congruence|].
    destruct (decode_sound _ _ Hlen Hd') as (Heq & Hwf' & _). symmetry. by apply to_bytes_inj. }
  eapply safe_change; [exact Hs|by eapply tables_ok_ext; [..|apply Hs]|apply Hs|done|done|].
  constructor; [by left|by left; eauto|].
  intros id g'. cbn. rewrite lookup_insert. case_decide as Hid.
  - intros _. right. subst id. split; [by exists bytes|]. intros digest (b2 & ro & s2 & Hb2 & Hd2 & Hin).
    rewrite Hb in Hb2. injection Hb2 as <- <-. apply Hres, names_object_iff. by rewrite <-(Hsnap s2).
  - intros Hid'. left. by exists g'.
Qed.

(** An adoption roots the manifest and changes nothing else in the tables; one
    that fails changes none. *)
Definition adopted (O : gmap (list byte) node) (D : db) (bytes : list byte) (s : world) : Prop :=
  O ⊆ objects (w_disk s) /\ objects (w_disk s) !! sha256 bytes = Some (Regular bytes true) /\
  w_db s = insert_snapshot (sha256 bytes) 0 D /\
  exists snap, decode bytes = Ok snap /\
    forall digest, digest ∈ s_entries snap ≫= entry_digests -> resident (objects (w_disk s)) digest.

Lemma t_adopt_rooted O D bytes :
  safe O D -> zlen bytes < U64 -> unclashed O bytes ->
  triple (at_ O D) (adopt_snapshot bytes) (fun id s => inv s /\ id = sha256 bytes /\ adopted O D bytes s)
    (fun _ s => inv s /\ (O ⊆ objects (w_disk s) /\ w_db s = D)).
Proof.
  intros Hs Hlen Hu. unfold adopt_snapshot, adopt_check.
  assert (forall F e s, refused false O D F e s -> inv s /\ (O ⊆ objects (w_disk s) /\ w_db s = D)) as Href.
  { intros F e s Hr. split; [by eapply refused_inv|]. destruct Hr as [[-> ->] _]. done. }
  eapply t_bind with (Q' := fun snap s => at_ O D s /\ decode bytes = Ok snap /\
    forall digest, digest ∈ s_entries snap ≫= entry_digests -> resident O digest).
  { eapply t_bind with (Q' := fun snap s => at_ O D s /\ decode bytes = Ok snap).
    - apply t_lift. intros s Hat. destruct (decode bytes) as [snap|]; simpl; [done|]. split; [by eapply at_inv|].
      destruct Hat as [[-> ->] _]. done.
    - intros snap. apply t_pure_r. intros Hd.
      eapply t_bind; [eapply t_conseq; [apply (t_check_exist O D), Hs|done|intros a s Hx; exact Hx|intros e s; apply Href]|].
      intros u. apply t_pure_r. intros Hres. by apply t_ret. }
  intros snap. apply t_pure_r. intros [Hdec Hres].
  destruct (decode_sound _ _ Hlen Hdec) as (Hb & Hwf & _).
  assert (snapshot_id snap = sha256 bytes) as -> by (unfold snapshot_id, SnapshotId_of; by rewrite <-Hb).
  set (P := fun O' D' => (at_most_installed O (sha256 bytes) bytes O' /\
       O' !! sha256 bytes = Some (Regular bytes true)) /\ D' = D).
  assert (forall O', at_most_installed O (sha256 bytes) bytes O' -> O ⊆ O') as Hgrow by (intros; by eapply resident_grow).
  unfold adopt_admit. eapply t_bind with (Q' := fun _ => on_state false P).
  { eapply t_bind; [eapply t_conseq; [by apply (t_admit O D bytes)|done|intros a s Hx; exact Hx|]|].
    - intros e s [Hi <-]. split; [unfold inv; by eapply safe_installed|]. split; [by apply Hgrow|done].
    - intros a. by apply t_ret. }
  intros u.
  eapply t_bind with (Q' := fun _ s => inv s /\ adopted O D bytes s); [|intros u'; apply t_ret; by intros s []].
  apply (t_conseq _ (on_state false P) _ _ (fun _ => on_state false (fun O' D' => P O' D /\ safe O' D' /\
    D' = insert_snapshot (sha256 bytes) 0 D)) _ (fun _ s => inv s /\ (O ⊆ objects (w_disk s) /\ w_db s = D))).
  - apply t_sql_write.
    + intros O' D0 D' [[Hi Hr] ->] [= <-]. split; [done|]. split; [|done].
      eapply insert_snapshot_safe; [by eapply safe_installed|done|done|by left|].
      intros digest Hdg%manifest_entry_digests. destruct (Hres _ Hdg) as [b' Hb']. exists b'.
      eapply lookup_weaken; [exact Hb'|]. by apply Hgrow.
    + intros e s [[[Hi _] HD] _]. split; [unfold inv; rewrite HD; by eapply safe_installed|]. split; [by apply Hgrow|done].
    + intros e s [[_ Hx] _]. done.
  - done.
  - intros a s [([[Hi Hr] _] & Hsafe & HD) _]. split; [unfold inv; done|]. split; [by apply Hgrow|]. split; [done|].
    split; [done|]. exists snap. split; [done|]. intros digest Hdg. destruct (Hres _ Hdg) as [b' Hb']. exists b'.
    eapply lookup_weaken; [exact Hb'|]. by apply Hgrow.
  - done.
Qed.

Lemma t_adopt O D bytes :
  safe O D -> zlen bytes < U64 -> unclashed O bytes ->
  triple (at_ O D) (adopt_snapshot bytes) (fun _ => inv) (fun _ => inv).
Proof.
  intros Hs Hl Hu. eapply t_conseq; [by apply t_adopt_rooted|done|by intros id s []|by intros e s []].
Qed.

Lemma p_delete_snapshot_row id : preserves (delete_snapshot_row id).
Proof.
  apply p_write. intros O D D' Hs. destruct (snapshots D !! id) as [g|]; [|done]. intros [= <-].
  eapply safe_change; [exact Hs|by eapply tables_ok_ext; [..|apply Hs]|apply Hs|done|done|].
  apply roots_below_sub; [done|done|]. cbn. apply delete_subseteq.
Qed.

Lemma p_collect_pass : preserves collect_pass.
Proof.
  apply p_at. intros O D Hs. eapply t_conseq; [apply (t_collect_pass false O D); apply Hs|done| |].
  - intros r s [Hc _]. by eapply safe_collected.
  - intros e s [[Ht HD] _]. unfold inv. rewrite HD. by eapply safe_trimmed.
Qed.

(** ** Sealing *)

(** A job's digests are new or already held by a head. *)
Definition grounded (D : db) (job : seal_job) : Prop :=
  sj_update_records job = true -> forall digest, digest ∈ data_digests (sj_records job) ->
    digest ∈ sj_new_digests job \/ head_digest D digest.

Lemma apply_job_refs w d job d' :
  rows_ok d -> apply_job w d job = Ok d' ->
  same_rest d d' /\ (text_ok d -> text_ok d') /\
  forall digest, head_digest d' digest -> head_digest d digest \/
    (sj_update_records job = true /\ digest ∈ data_digests (sj_records job)).
Proof.
  intros Hr Ha. unfold apply_job in Ha.
  destruct (if sj_update_records job then _ else _) as [d1|] eqn:E; [|done].
  assert (same_rest d d1 /\ (text_ok d -> text_ok d1) /\ forall digest, head_digest d1 digest -> head_digest d digest \/
    (sj_update_records job = true /\ digest ∈ data_digests (sj_records job))) as ((L1 & L2 & L3 & L4 & L5) & Hx & Hh).
  { destruct (sj_update_records job); [|injection E as <-; split; [done|]; split; [done|by left]].
    destruct (apply_mutation_refs d w _ d1 Hr E) as [Hh Ht]. apply apply_mutation_rest in E.
    split; [done|]. split; [intros Htx; by apply Ht|]. intros digest [?|?]%Hh; [by left|by right]. }
  destruct (resolve_existing d1 w (sj_path job)) as [i|]; [|done]. injection Ha as <-.
  split; [done|]. split; [|done]. intros Htx. eapply text_ok_sub; [| |apply Hx, Htx]; cbn; [by eauto|].
  intros j row. rewrite lookup_alter. case_decide; [|eauto]. subst j. intros (r & Hj & ->)%fmap_Some. eauto.
Qed.

Lemma seal_rows_refs w jobs parent d d' g snap :
  tables_ok d -> rooted_at d (w_id w) (w_root_inode w) -> Forall job_ok jobs -> text_ok d ->
  (forall id, parent = Some id -> zlen id = 32) -> zlen (to_bytes snap) < U64 ->
  seal_rows w jobs parent d = Ok (d', g, snap) ->
  same_rest d d' /\ text_ok d' /\ wf_snapshot snap /\
  (forall digest, head_digest d' digest -> head_digest d digest \/
     exists job, job ∈ jobs /\ sj_update_records job = true /\ digest ∈ data_digests (sj_records job)) /\
  (forall digest, digest ∈ manifest_objects snap -> head_digest d' digest).
Proof.
  intros Hd Hroot Hjobs Hx Hpar Hlen Hrows.
  destruct (seal_rows_snapshot w jobs parent d d' g snap Hd Hroot Hjobs Hrows) as (Ht2 & Hroot2 & Hb).
  unfold seal_rows in Hrows.
  destruct (for_each (apply_job w) d jobs) as [d1|] eqn:E; [|done].
  assert ((tables_ok d1 /\ rooted_at d1 (w_id w) (w_root_inode w)) /\ (same_rest d d1 /\ text_ok d1) /\
    forall digest, head_digest d1 digest -> head_digest d digest \/
     exists job, job ∈ jobs /\ sj_update_records job = true /\ digest ∈ data_digests (sj_records job))
    as ([Hd1 Hr1] & [Hs1 Hx1] & Hh1).
  { refine (for_each_inv (apply_job w) (fun pre d1 => (tables_ok d1 /\ rooted_at d1 (w_id w) (w_root_inode w)) /\
      (same_rest d d1 /\ text_ok d1) /\ forall digest, head_digest d1 digest -> head_digest d digest \/
      exists job, job ∈ pre /\ sj_update_records job = true /\ digest ∈ data_digests (sj_records job)) jobs d d1 _ _ E).
    { split; [done|]. split; [done|by left]. }
    intros pre x post t t' -> ([Ht Hrt] & [(L1 & L2 & L3 & L4 & L5) Hxt] & Hht) Ha.
    rewrite Forall_app, Forall_cons in Hjobs. destruct Hjobs as (_ & Hjx & _).
    destruct (apply_job_refs w t x t' (proj2 (proj1 Ht)) Ha) as ((M1 & M2 & M3 & M4 & M5) & Hxx & Hhx).
    split; [by eapply apply_job_ok|]. split; [split; [repeat split; congruence|auto]|].
    intros digest Hdg. destruct (Hhx _ Hdg) as [Hdg'|[? ?]]; [|right; exists x; set_solver].
    destruct (Hht _ Hdg') as [?|(job & ? & ? & ?)]; [by left|right; exists job; set_solver]. }
  destruct (no_end _) as [s|]; [|done]. cbn in Hrows. injection Hrows as Hd2 _ _.
  assert (d' = d1 \/ exists g0, d' = advance_head w g0 d1) as [->|[g0 ->]] by (case_decide; eauto).
  all: split; [exact Hs1|]; split; [done|];
    split; [by apply (build_snapshot_wf _ (proj1 Ht2) _ Hroot2 parent)|]; split; [apply Hh1|];
    intros digest; by apply (build_snapshot_digests _ (proj1 Ht2) _ Hroot2 parent).
Qed.

(** What a seal's transaction may be run with: jobs whose runs and stamps are
    well-formed and whose reused digests are still held by a head, a parent that
    is a snapshot identity, and a manifest that fits the address space and whose
    digest is not taken by other bytes. *)
Record seal_guard (O : gmap (list byte) node) (D : db) (name : list byte) (jobs : list seal_job)
    (parent : option (list byte)) : Prop := {
  sg_jobs : Forall job_ok jobs;
  sg_grounded : Forall (grounded D) jobs;
  sg_parent id : parent = Some id -> zlen id = 32;
  sg_manifest w D' g snap : workspace_row D name = Ok w -> seal_rows w jobs parent D = Ok (D', g, snap) ->
    zlen (to_bytes snap) < U64 /\ unclashed O (to_bytes snap)
}.

(** What a committed seal leaves: the head it was planned from with the jobs
    applied, and its manifest resident and rooted. *)
Definition sealed (D : db) (name : list byte) (generation : Z) (jobs : list seal_job)
    (parent : option (list byte)) (id : list byte) (O' : gmap (list byte) node) (D' : db) : Prop :=
  exists w D1 g snap, workspace_row D name = Ok w /\ w_head_generation w = generation /\
    seal_rows w jobs parent D = Ok (D1, g, snap) /\ tables_ok D1 /\ id = snapshot_id snap /\
    wf_snapshot snap /\ D' = insert_snapshot id g D1 /\
    O' !! id = Some (Regular (to_bytes snap) true).

Lemma t_seal_transaction O D name generation jobs parent :
  safe O D -> seal_guard O D name jobs parent ->
  triple (at_ O D) (seal_transaction name generation jobs parent)
    (fun id s => inv s /\ sealed D name generation jobs parent id (objects (w_disk s)) (w_db s)) (fun _ => inv).
Proof.
  intros Hs [G1 G2 G3 G4]. unfold seal_transaction.
  set (Q := fun (id : list byte) O' D' => (safe O' D' /\ sealed D name generation jobs parent id O' D') /\ safe O' D).
  assert (forall F e s, refused false O D F e s -> safe (objects (w_disk s)) D) as Href.
  { intros F e s [[Ho _] _]. by rewrite Ho. }
  eapply t_conseq; [apply (t_transaction false O D _ Q (fun O' => safe O' D) (fun _ => True))|done| |];
    [|by intros ? ? ? []|done|by intros a s [[] _]|intros e s [[Ho HD] _]; unfold inv; by rewrite HD].
  apply (t_conseq _ (at_ O D) _ _ (fun a => on_state false (Q a)) _ (fun _ s => safe (objects (w_disk s)) D));
    [|done|done|intros e s Hx; split; [done|by left]].
  eapply t_bind; [eapply t_conseq; [apply (t_sql_read_at false O D True (fun d => workspace_row d name)); done|done|
    intros a s Hx; exact Hx|intros e s; apply Href]|].
  intros w. apply t_pure_r. intros Hw.
  eapply t_bind with (Q' := fun _ s => at_ O D s /\ w_head_generation w = generation).
  { apply t_check. intros s Hat. destruct (Z.eqb_spec (w_head_generation w) generation); [done|].
    destruct Hat as [[Ho _] _]. by rewrite Ho. }
  intros u0. apply t_pure_r. intros Hgen. eapply t_bind; [eapply t_conseq; [apply (t_check_exist O D), Hs|done|intros a s Hx; exact Hx|
    intros e s; apply Href]|].
  intros u1. apply t_pure_r. intros Hres.
  eapply t_bind; [eapply t_conseq; [apply (t_sql_read_at false O D True); done|done|intros a s Hx; exact Hx|
    intros e s; apply Href]|].
  intros [g snap]. apply t_pure_r. intros Hrows.
  destruct (seal_rows w jobs parent D) as [[[D1 g1] snap1]|] eqn:Er; [|done]. cbn in Hrows. injection Hrows as -> ->.
  destruct (G4 w D1 g snap Hw Er) as [Hlen Hu].
  pose proof (workspace_row_rooted _ _ _ Hw) as Hroot.
  destruct (seal_rows_refs w jobs parent D D1 g snap (sf_tables _ _ Hs) Hroot G1 (sf_text _ _ Hs) G3 Hlen Er)
    as ((L1 & L2 & L3 & L4 & L5) & Hx1 & Hwf & Hh & Hman).
  assert (safe O D1) as Hs1.
  { eapply safe_change; [exact Hs|by eapply seal_rows_ok; [apply Hs|..]|exact Hx1|done|done|]. constructor.
    - intros digest [?|(job & Hj & Hup & Hd)]%Hh; [by left|right].
      rewrite Forall_forall in G2. destruct (G2 job Hj Hup digest Hd) as [Hnew|Hhd].
      + apply Hres. apply list_elem_of_bind. eauto.
      + apply (sf_no_dangling _ _ Hs). by left.
    - intros l digest Hl. left. exists l. by rewrite <-L3.
    - intros id gg Hid. left. exists gg. by rewrite <-L2. }
  eapply t_bind with (Q' := fun _ => at_ O D1).
  { apply t_sql_write.
    - intros O' D0 D' [-> ->]. rewrite Er. by intros [= <-].
    - intros e s [[Ho _] _]. by rewrite Ho.
    - intros e s [[[Ho _] _] _]. by rewrite Ho. }
  intros u2. set (bytes := to_bytes snap) in *.
  eapply t_bind; [eapply t_conseq; [by apply (t_admit O D1 bytes)|done|intros a s Hx; exact Hx|]|].
  { intros e s [Hi _]. by eapply safe_installed. }
  intros a. cbn beta.
  eapply t_bind with (Q' := fun _ => on_state false (Q (snapshot_id snap))); [|intros; by apply t_ret].
  apply t_sql_write.
  - intros O' D0 D' [[Hi Hr] ->] [= <-]. split; [|by eapply safe_installed].
    split; [|exists w, D1, g, snap; repeat (split; [done|]); split; [by eapply seal_rows_ok; [apply Hs|..]|done]].
    apply (insert_snapshot_safe O' D1 bytes snap); [by eapply safe_installed|done|done|by right|].
    intros digest Hd%Hman. destruct (sf_no_dangling _ _ Hs1 digest) as [b' Hb']; [by left|]. exists b'.
    eapply lookup_weaken; [exact Hb'|]. by eapply resident_grow.
  - intros e s [[[Hi _] _] _]. by eapply safe_installed.
  - intros e s [[_ Hx] _]. done.
Qed.

Lemma t_seal_commit O D name generation jobs parent :
  safe O D -> seal_guard O D name jobs parent ->
  triple (at_ O D) (seal_commit name generation jobs parent)
    (fun sealed_id s => inv s /\ forall id, sealed_id = Some id ->
       sealed D name generation jobs parent id (objects (w_disk s)) (w_db s)) (fun _ => inv).
Proof.
  intros Hs Hg s Hat. pose proof (t_seal_transaction O D name generation jobs parent Hs Hg s Hat) as Ht.
  unfold seal_commit. destruct (seal_transaction _ _ _ _ s) as [[id|e] s'].
  - destruct Ht as [Hi Hd]. split; [done|]. by intros id' [= <-].
  - by destruct e.
Qed.
End system.
