(* ===== verification/SealFacts.v ===== *)
(** What sealing a file does to it: the objects it admits hold the bytes of the
    planned ranges, so the re-bounded run denotes the same file, is resident,
    and names only digests that were admitted or were already held. *)

From stdpp Require Import sorting.
From S2P Require Import Utf8.
From S2P Require Export PlanFrame Seal WorkspaceFacts GcFacts System.

Lemma t_conj {S E A : Type} (P P' : S -> Prop) (m : M S E A) (Q : A -> S -> Prop) (R : E -> S -> Prop) :
  triple P m Q R -> framed P' m ->
  triple (fun s => P s /\ P' s) m (fun a s => Q a s /\ P' s) (fun e s => R e s /\ P' s).
Proof.
  intros Hm Hf s [Hs Hs']. specialize (Hm s Hs). specialize (Hf s Hs').
  destruct (m s) as [[a|e] s']; done.
Qed.

(** ** Reading keeps what no system call of it changes *)

Section frame.
Context (P : disk -> Prop) `{!Stable P}.

Lemma f_query {A : Type} (f : disk -> result io_error A) : framed P (query f).
Proof using All. eapply t_conseq; [by apply (t_query P)|done|by intros a d []|done]. Qed.

Lemma f_open_object digest : framed P (open_object digest).
Proof using All.
  intros d Hd. unfold open_object.
  match goal with |- context [query ?f d] =>
    pose proof (f_query f d Hd) as Hq; destruct (query f d) as [[n|e] d1] end.
  - assert (framed P (let<- n := io (query (fun _ => Ok n)) in
      match n with Regular bytes _ => ret bytes | _ => fail (SE_NotARegularFile digest) end)) as Hf; [|by apply Hf].
    apply f_bind; [apply f_map_err, f_query|]. intros [bytes ro|b|]; [apply f_ret|apply f_fail..].
  - by repeat case_decide.
Qed.

Lemma f_records_read rs offset n : framed P (records_read rs offset n).
Proof using All.
  unfold records_read. destruct (checked_add offset n) as [stop|]; [|apply f_fail].
  destruct (_ <? _); [apply f_fail|]. generalize (replicate (Z.to_nat n) Byte.x00).
  induction (rs_segments rs) as [|[start r] segments IH]; intros dst; cbn [read_segments]; [apply f_ret|].
  destruct (_ <=? _); [apply IH|]. destruct (_ <=? _); [apply f_ret|].
  apply f_bind; [apply f_check|]. intros u. apply f_bind; [|intros; apply IH].
  destruct r; [|apply f_ret]. unfold read_object. apply f_bind; [apply f_map_err, f_open_object|]. intros file.
  apply f_bind; [apply f_query|]. intros; apply f_query.
Qed.
End frame.

(** ** A run in a growing store *)

Lemma run_bytes_grow O O' records :
  O ⊆ O' -> run_resident O records -> run_bytes O' records = run_bytes O records.
Proof.
  intros Hs Hr. unfold run_bytes. induction Hr as [|r records Hr _ IH]; [done|]. rewrite !bind_cons, IH. f_equal.
  destruct r as [digest n|n]; [|done]. destruct Hr as (bytes & ro & Hd & _). simpl.
  by rewrite Hd, (lookup_weaken _ _ _ _ Hd Hs).
Qed.
Lemma run_resident_grow O O' records : O ⊆ O' -> run_resident O records -> run_resident O' records.
Proof.
  intros Hs Hr. eapply Forall_impl; [exact Hr|]. intros [digest n|n]; [|done].
  intros (bytes & ro & Hd & Hn). exists bytes, ro. split; [by eapply lookup_weaken|done].
Qed.

(** ** Committed boundaries *)

Lemma committed_ranges_elem (rs : list file_record) (start n : Z) (digest : list byte) :
  existsb is_hole rs = false -> Forall (fun r => 0 <= record_length r) rs -> sum_lengths rs < U64 ->
  (start, n, digest) ∈ committed_ranges rs ->
  exists pre post, rs = pre ++ Data digest n :: post /\ start = sum_lengths pre.
Proof.
  intros Hh Hf Hlt Hin. unfold committed_ranges in Hin.
  set (step := fun '(acc, position) r => match r with
     | Data digest length => (acc ++ [(position, length, digest)], wadd position length)
     | Hole _ => (acc, position) end : list (Z * Z * list byte) * Z) in Hin.
  assert (forall l, Forall (fun r => 0 <= record_length r) l -> 0 <= sum_lengths l) as Hnn.
  { induction 1; simpl; lia. }
  assert (forall post pre acc, rs = pre ++ post ->
    (forall x, x ∈ acc -> exists p q, rs = p ++ Data x.2 x.1.2 :: q /\ x.1.1 = sum_lengths p) ->
    forall x, x ∈ (foldl step (acc, sum_lengths pre) post).1 ->
    exists p q, rs = p ++ Data x.2 x.1.2 :: q /\ x.1.1 = sum_lengths p) as Hloop.
  { induction post as [|r post IH]; intros pre acc Hrs Hacc x; [apply Hacc|]. simpl.
    pose proof Hf as Hf'. rewrite Hrs, Forall_app, Forall_cons in Hf'. destruct Hf' as (Hp & Hr & Hq).
    assert (sum_lengths rs = sum_lengths pre + record_length r + sum_lengths post) as Hsum.
    { rewrite Hrs. clear. induction pre; simpl in *; lia. }
    pose proof (Hnn _ Hp). pose proof (Hnn _ Hq).
    destruct r as [dg m|m]; [|rewrite Hrs, existsb_app in Hh; simpl in Hh; by rewrite orb_true_r in Hh].
    cbn [step record_length] in *. rewrite wadd_small by lia.
    replace (sum_lengths pre + m) with (sum_lengths (pre ++ [Data dg m])) by by rewrite sum_lengths_snoc.
    apply IH; [by rewrite <-app_assoc|]. intros y [Hy|Hy]%elem_of_app; [by apply Hacc|].
    apply list_elem_of_singleton in Hy as ->. simpl. by exists pre, post. }
  destruct (Hloop rs [] [] eq_refl ltac:(set_solver) (start, n, digest) Hin) as (p & q & Hrs & Hs).
  simpl in *. eauto.
Qed.

Lemma resize_exact (n : Z) (l : list byte) : zlen l = n -> resize (Z.to_nat n) Byte.x00 l = l.
Proof. intros <-. unfold zlen. rewrite Nat2Z.id. apply resize_all. Qed.

Lemma one_data_cases {X : Type} (rs : list file_record) (x y : X) :
  match rs with [Data _ _] => x | _ => y end = x \/ match rs with [Data _ _] => x | _ => y end = y.
Proof. destruct rs as [|[dg n|n] [|r rs]]; auto. Qed.

(** ** Admission *)

Section admission.
Context `{Sha256, Allocator}.
Implicit Types (O : gmap (list byte) node).

(** The byte strings in play, no two of which collide. *)
Context (pool : list byte -> Prop).
Context (Hinj : forall a b, pool a -> pool b -> sha256 a = sha256 b -> a = b).

(** Objects that grew from [O] by strings of the pool. *)
Record grown O O1 : Prop := {
  gr_sub : O ⊆ O1;
  gr_clean : clean O1;
  gr_pool digest bytes ro : O1 !! digest = Some (Regular bytes ro) -> pool bytes
}.

Lemma grown_sub O O' O1 : O ⊆ O' -> grown O' O1 -> grown O O1.
Proof. intros Hs [? ? ?]. constructor; [by etrans|done|done]. Qed.
Lemma grown_self O O1 : grown O O1 -> grown O1 O1.
Proof. intros [? ? ?]. by constructor. Qed.

Lemma grown_installed O O1 (bytes : list byte) O2 :
  pool bytes -> zlen bytes < U64 -> grown O O1 -> at_most_installed O1 (sha256 bytes) bytes O2 -> grown O O2.
Proof.
  intros Hp Hlen [G1 G2 G3] [->|[Hn ->]]; [done|]. constructor.
  - etrans; [exact G1|]. by apply insert_subseteq.
  - intros digest n. rewrite lookup_insert. case_decide; [|apply G2]. intros [= <-]. subst. by exists bytes.
  - intros digest b ro. rewrite lookup_insert. case_decide; [|apply G3]. by intros [= <- _].
Qed.

(** The bytes are under their digest. *)
Definition holds_object (bytes : list byte) (a : admitted_object) O1 : Prop :=
  ao_digest a = sha256 bytes /\ ao_length a = zlen bytes /\ O1 !! sha256 bytes = Some (Regular bytes true).

Lemma holds_object_grow (bytes : list byte) (a : admitted_object) O1 O2 : O1 ⊆ O2 -> holds_object bytes a O1 -> holds_object bytes a O2.
Proof. intros Hs (Hd & Hl & Ho). split; [done|]. split; [done|]. by eapply lookup_weaken. Qed.

Lemma put_post_holds O1 (bytes : list byte) (a : admitted_object) O2 :
  pool bytes -> (forall digest b ro, O1 !! digest = Some (Regular b ro) -> pool b) -> clean O1 ->
  put_post O1 bytes a O2 -> holds_object bytes a O2.
Proof using Hinj.
  intros Hp Hpool Hc [-> Ha]. split; [done|]. split; [done|]. simpl in Ha. destruct (ao_preexisting a).
  - destruct Ha as [-> (b & ro & Hb & Hsha)]. destruct (Hc _ _ Hb) as (b' & [= <- ->] & _).
    assert (b = bytes) as ->; [|done]. apply Hinj; [by apply (Hpool _ _ _ Hb)|done|done].
  - destruct Ha as [_ ->]. by rewrite lookup_insert_eq.
Qed.

Lemma t_put_pool O1 (bytes : list byte) :
  grown O1 O1 -> pool bytes -> zlen bytes < U64 ->
  triple (objects_are O1) (put_bytes bytes)
    (fun a d => grown O1 (objects d) /\ holds_object bytes a (objects d)) (fun _ d => grown O1 (objects d)).
Proof using Hinj.
  intros Hg Hp Hlen. assert (resident_ok O1) as Hok.
  { intros digest b ro Hb. destruct (gr_clean _ _ Hg _ _ Hb) as (b' & [= -> ->] & ? & ?). done. }
  eapply t_conseq; [by apply (t_put_bytes O1 bytes)|done| |].
  - intros a d Hd. split; [apply (grown_installed O1 O1 bytes); [done..|exact (put_post_installed _ _ _ _ Hd)]|].
    eapply put_post_holds; [done|apply Hg|apply Hg|done].
  - intros e d Hd. by apply (grown_installed O1 O1 bytes).
Qed.

(** ** Admitting ranges of a file *)

Section ranges.
Context O (records : list file_record) (Hfit : run_fits records) (Hres : run_resident O records).
Let file := run_bytes O records.
Context (Hslices : forall i j, pool (slice file i j)).

#[local] Existing Instance records_byte_source.
Abbreviation src := (records_byte_source records).

Lemma file_now O1 : grown O O1 -> run_bytes O1 records = file.
Proof using Hres. intros Hg. apply run_bytes_grow; [apply Hg|done]. Qed.

Lemma zlen_file : zlen file = sum_lengths records /\ zlen file < U64.
Proof using Hfit. destruct Hfit as [Hf Hlt]. unfold file. rewrite zlen_run_bytes by done. done. Qed.

Lemma slice_fits i j : zlen (slice file i j) < U64.
Proof using Hfit.
  destruct zlen_file as [_ Hlt]. unfold slice, zlen in *. rewrite length_take, length_drop. lia.
Qed.

(** Admissions aligned with the regions they are of. *)
Definition admitted_for O1 (r : region) (a : admitted_object) : Prop :=
  holds_object (slice file (r_offset r) (r_offset r + r_length r)) a O1 /\ ao_length a = r_length r.

Lemma admitted_for_grow O1 O2 (r : region) (a : admitted_object) : O1 ⊆ O2 -> admitted_for O1 r a -> admitted_for O2 r a.
Proof. intros Hs [Hh Hl]. split; [by eapply holds_object_grow|done]. Qed.

Definition ranged (r : region) : Prop := 0 <= r_offset r /\ 0 <= r_length r.

(** One admission, with what was admitted before it. *)
Lemma t_admit_next (r : region) (G : gmap (list byte) node -> Prop) :
  ranged r -> (forall O1 O2, O1 ⊆ O2 -> G O1 -> G O2) ->
  triple (on_objects (fun O1 => grown O O1 /\ G O1)) (admit_region (H := src) r)
    (fun a => on_objects (fun O1 => (grown O O1 /\ G O1) /\ admitted_for O1 r a))
    (fun _ => on_objects (fun O1 => grown O O1 /\ G O1)).
Proof using Hinj Hfit Hres Hslices.
  intros [Ho Hn] Hmono. unfold admit_region.
  eapply t_bind with (Q' := fun _ => on_objects (fun O1 => grown O O1 /\ G O1)); [apply f_check|].
  intros u. eapply t_bind with (Q' := fun bytes d => on_objects (fun O1 => grown O O1 /\ G O1) d /\
    bytes = slice file (r_offset r) (r_offset r + r_length r) /\ zlen bytes = r_length r).
  - intros d [Hd HG]. unfold map_err_m. simpl.
    pose proof (t_records_read (objects d) records _ _ Hfit Ho Hn d eq_refl) as Hr.
    destruct (records_read _ _ _ d) as [[bytes|e] d']; simpl.
    + destruct Hr as [Hd' [Hle Hg]%get_range_Some]. unfold on_objects. rewrite Hd'. split; [done|].
      rewrite (file_now _ Hd) in *. split; [done|]. subst bytes. rewrite slice_length by lia. lia.
    + unfold on_objects. by rewrite Hr.
  - intros bytes. apply t_pure_r. intros [-> Hl]. intros d [Hd HG]. unfold on_disk. simpl.
    set (bytes := slice file (r_offset r) (r_offset r + r_length r)) in *.
    pose proof (t_put_pool (objects d) bytes (grown_self _ _ Hd) (Hslices _ _) (slice_fits _ _) d eq_refl) as Hp.
    destruct (put_bytes _ d) as [[a|e] d']; simpl.
    + destruct Hp as [Hg Hh]. split; [split|split; [done|]].
      * eapply grown_sub; [|exact Hg]. apply Hd.
      * eapply Hmono; [apply Hg|done].
      * destruct Hh as (_ & -> & _). done.
    + split; [eapply grown_sub; [|exact Hp]; apply Hd|]. eapply Hmono; [apply Hp|done].
Qed.

Lemma t_admit_serial (regions : list region) :
  Forall ranged regions ->
  triple (on_objects (grown O)) (admit_serial (H := src) regions)
    (fun admitted => on_objects (fun O1 => grown O O1 /\ Forall2 (admitted_for O1) regions admitted))
    (fun _ => on_objects (grown O)).
Proof using Hinj Hfit Hres Hslices.
  intros Hr. eapply t_conseq; [apply (t_for _ [] regions (fun pre admitted =>
    on_objects (fun O1 => grown O O1 /\ Forall2 (admitted_for O1) pre admitted)) (fun _ => on_objects (grown O)))| | |].
  - intros pre r post admitted ->. rewrite Forall_app, Forall_cons in Hr.
    eapply t_bind; [eapply t_conseq; [apply (t_admit_next r (fun O1 => Forall2 (admitted_for O1) pre admitted))| | |]|].
    + apply Hr.
    + intros O1 O2 Hs Hf. eapply Forall2_impl; [exact Hf|]. intros. by eapply admitted_for_grow.
    + done.
    + intros a d Hd. exact Hd.
    + intros e d [Hd _]. exact Hd.
    + intros a. apply t_ret. intros d [[Hg Hf] Ha]. split; [done|]. apply Forall2_app; [done|]. by constructor.
  - intros d Hd. by split.
  - done.
  - done.
Qed.

(** The concurrent path: every index once, in whatever order. *)
Lemma t_admit_scheduled (sched : list nat) (regions : list region) :
  Forall ranged regions -> sched ≡ₚ seq 0 (length regions) ->
  triple (on_objects (grown O)) (admit_scheduled (H := src) sched regions)
    (fun admitted => on_objects (fun O1 => grown O O1 /\ Forall2 (admitted_for O1) regions admitted))
    (fun _ => on_objects (grown O)).
Proof using Hinj Hfit Hres Hslices.
  intros Hr Hperm. unfold admit_scheduled.
  set (fine := fun O1 (ir : nat * result store_error admitted_object) =>
    match ir.2 with Ok a => exists r, regions !! ir.1 = Some r /\ admitted_for O1 r a | Err _ => True end).
  assert (forall O1 O2 c, O1 ⊆ O2 -> Forall (fine O1) c -> Forall (fine O2) c) as Hmono.
  { intros O1 O2 c Hs Hf. eapply Forall_impl; [exact Hf|]. intros [i [a|e]]; [|done].
    intros (r & Hi & Ha). exists r. split; [done|]. by eapply admitted_for_grow. }
  eapply t_bind with (Q' := fun collected => on_objects (fun O1 => grown O O1 /\ Forall (fine O1) collected /\
    collected.*1 = sched)).
  - eapply t_conseq; [apply (t_for _ [] sched (fun pre collected =>
      on_objects (fun O1 => grown O O1 /\ Forall (fine O1) collected /\ collected.*1 = pre))
      (fun _ => on_objects (grown O)))| | |].
    + intros pre i post collected ->.
      assert (i ∈ seq 0 (length regions)) as Hi by (rewrite <-Hperm; set_solver).
      apply elem_of_seq in Hi. destruct (lookup_lt_is_Some_2 regions i) as [r Hri]; [lia|]. rewrite Hri.
      intros d (Hd & Hf & Hk).
      assert (ranged r) as Hrr by (rewrite Forall_forall in Hr; apply Hr; by eapply list_elem_of_lookup_2).
      pose proof (t_admit_next r (fun O1 => Forall (fine O1) collected) Hrr (fun O1 O2 Hs => Hmono O1 O2 collected Hs) d
        (conj Hd Hf)) as Ha. destruct (admit_region r d) as [[a|e] d'].
      * destruct Ha as [[Hg Hf'] Ha]. split; [done|]. rewrite fmap_app, Hk. split; [|done].
        apply Forall_app. split; [done|]. apply Forall_singleton. by exists r.
      * destruct Ha as [Hg Hf']. split; [done|]. rewrite fmap_app, Hk. split; [|done].
        apply Forall_app. split; [done|]. by apply Forall_singleton.
    + intros d Hd. split; [done|]. by split; [constructor|].
    + done.
    + done.
  - intros collected. set (sorted := sort_by _ collected). apply t_lift. intros d (Hg & Hf & Hk).
    assert (sorted ≡ₚ collected) as Hsp by apply sort_by_perm.
    assert (sorted.*1 = seq 0 (length regions)) as Hkeys.
    { apply (StronglySorted_unique le).
      - unfold sorted. pose proof (sort_by_sorted (fun a b : nat * result store_error admitted_object => Nat.compare a.1 b.1)) as Hs.
        specialize (Hs ltac:(intros x y; rewrite Nat.compare_gt_iff, Nat.compare_lt_iff; lia)).
        specialize (Hs ltac:(intros x y z; rewrite !Nat.compare_gt_iff; lia) collected).
        clear - Hs. induction Hs as [|x l _ IH Hx]; simpl; constructor; [done|]. apply Forall_fmap.
        eapply Forall_impl; [exact Hx|]. intros y. simpl. rewrite Nat.compare_gt_iff. lia.
      - clear. generalize 0%nat. induction (length regions) as [|n IH]; intros k; simpl; constructor; [apply IH|].
        apply Forall_forall. intros x Hx%elem_of_seq. lia.
      - by rewrite Hsp, Hk. }
    assert (Forall (fine (objects d)) sorted) as Hfs by by rewrite Hsp.
    clearbody sorted. clear Hsp Hk Hf collected Hperm.
    destruct (for_each _ [] sorted) as [admitted|e] eqn:Ef; [|done]. split; [done|].
    assert (Forall2 (fun ir a => ir.2 = Ok a) sorted admitted) as Hadm.
    { refine (for_each_inv _ (fun pre adm => Forall2 (fun (ir : nat * result store_error admitted_object) a => ir.2 = Ok a) pre adm)
        sorted [] admitted _ _ Ef); [constructor|].
      intros pre [i [a|e]] post t t' _ Ht; simpl; [|done]. intros [= <-]. apply Forall2_app; [done|]. by repeat constructor. }
    apply Forall2_same_length_lookup. split.
    { rewrite <-(Forall2_length _ _ _ Hadm), <-(length_fmap fst sorted), Hkeys. by rewrite length_seq. }
    intros i r a Hi Ha. destruct (Forall2_lookup_r _ _ _ _ _ Hadm Ha) as ([j res] & Hj & Hres'). simpl in Hres'. subst res.
    assert (j = i) as ->.
    { assert (sorted.*1 !! i = Some j) as Hji by (rewrite list_lookup_fmap, Hj; done).
      rewrite Hkeys in Hji. apply lookup_seq in Hji as [-> _]. lia. }
    rewrite Forall_forall in Hfs. destruct (Hfs (i, Ok a)) as (r' & Hr' & Har); [by eapply list_elem_of_lookup_2|].
    simpl in Hr'. by simplify_eq.
Qed.

Lemma t_admit_regions (concurrency : Z) (sched : list nat) (regions : list region) :
  Forall ranged regions -> sched ≡ₚ seq 0 (length regions) ->
  triple (on_objects (grown O)) (admit_regions (H := src) concurrency sched regions)
    (fun admitted => on_objects (fun O1 => grown O O1 /\ Forall2 (admitted_for O1) regions admitted))
    (fun _ => on_objects (grown O)).
Proof using Hinj Hfit Hres Hslices.
  intros Hr Hp. unfold admit_regions. case_decide as Hn.
  - subst. apply t_ret. intros d Hd. by split.
  - destruct (_ <=? _); [by apply t_admit_serial|by apply t_admit_scheduled].
Qed.

(** One object of the whole file, block by block. *)
Lemma t_on_disk {E A : Type} (P : disk -> Prop) (m : M disk E A) (Q : A -> disk -> Prop) (R : E -> disk -> Prop) :
  triple P m Q R -> triple P (on_disk m) Q R.
Proof. intros Hm d Hd. specialize (Hm d Hd). unfold on_disk. simpl. by destruct (m d) as [[a|e] d']. Qed.

Lemma t_copy_block O1 (k take : Z) (w : object_writer) :
  grown O O1 -> 0 <= k -> 0 < take -> k + take <= zlen file ->
  triple (fun d => objects_are O1 d /\ writing (slice file 0 k) w d)
    (let<- buffer := map_err_m SE_Io (read_exact_at (ByteSource := src) k take) in
     let<- w := on_disk (writer_write_all w buffer) in
     ret (wadd k take, w))
    (fun st d => st.1 = k + take /\ objects_are O1 d /\ writing (slice file 0 (k + take)) st.2 d)
    (fun _ => objects_are O1).
Proof using Hfit Hres.
  intros Hg Hk Htake Hle. destruct zlen_file as [_ Hlt].
  eapply t_bind with (Q' := fun buffer d => (objects_are O1 d /\ writing (slice file 0 k) w d) /\ buffer = slice file k (k + take)).
  - intros d (Ho & Hw & Ht). unfold map_err_m. simpl.
    pose proof (t_conj _ (holds_temp (w_path w) (slice file 0 k)) _ _ _
      (t_records_read O1 records k take Hfit Hk ltac:(lia))
      (f_records_read (holds_temp (w_path w) (slice file 0 k)) _ _ _) d (conj Ho Ht)) as Hr.
    destruct (records_read _ _ _ d) as [[buffer|e] d']; simpl in *.
    + destruct Hr as [[Ho' [_ Hb]%get_range_Some] Ht']. rewrite (file_now _ Hg) in Hb. by repeat split.
    + apply Hr.
  - intros buffer. apply t_pure_r. intros ->.
    eapply t_bind; [apply t_on_disk, t_write_all|].
    + rewrite !slice_length by lia. lia.
    + intros w'. apply t_ret. intros d [Ho Hw]. cbn [fst snd]. rewrite wadd_small by lia. split; [done|].
      split; [done|]. by rewrite <-(slice_join file 0 k (k + take)) by lia.
Qed.

Lemma t_admit_file :
  triple (on_objects (grown O)) (admit_source_range (H := src) 0 (zlen file))
    (fun a => on_objects (fun O1 => grown O O1 /\ holds_object file a O1))
    (fun _ => on_objects (grown O)).
Proof using Hinj Hfit Hres Hslices.
  destruct zlen_file as [_ Hlt]. pose proof (zlen_nonneg file) as Hnn. unfold admit_source_range.
  destruct (checked_add 0 (zlen file)) as [stop|] eqn:Ec; [|apply checked_add_None in Ec; lia].
  apply checked_add_Some in Ec as [-> _]. rewrite Z.add_0_l.
  replace (wsub (zlen file) 0) with (zlen file) by (unfold wsub; rewrite Z.sub_0_r, Z.mod_small; lia).
  intros d0 Hd0. set (O1 := objects d0). assert (objects_are O1 d0) as Ho0 by done.
  assert (grown O O1) as Hg by done. clearbody O1. clear Hd0. revert d0 Ho0.
  assert (slice file 0 (zlen file) = file) as Hall by apply slice_all.
  assert (forall d, objects_are O1 d -> on_objects (grown O) d) as Hkeep.
  { intros d Ho. unfold on_objects. by rewrite Ho. }
  assert (resident_ok O1) as Hok.
  { intros digest b ro Hb. destruct (gr_clean _ _ Hg _ _ Hb) as (b' & [= -> ->] & ? & ?). done. }
  match goal with |- forall d0, _ -> match ?m d0 with _ => _ end => change (triple (objects_are O1) m
    (fun a => on_objects (fun O1 => grown O O1 /\ holds_object file a O1)) (fun _ => on_objects (grown O))) end.
  eapply t_bind.
  { apply t_on_disk. apply (t_conseq _ (objects_are O1) _ _ (fun w d => objects_are O1 d /\ writing [] w d) _
      (fun _ => objects_are O1)); [|done|intros a d Hd; exact Hd|intros e d Hd; exact (Hkeep d Hd)].
    intros d Hd. exact (t_writer_loop O1 _ d Hd). }
  intros w. eapply t_bind with (Q' := fun st d => objects_are O1 d /\ writing file st.2 d).
  - intros d Hd.
    pose proof (t_chunks VERIFY_BUFFER_SIZE (fun '(position, w) take =>
            let<- buffer := map_err_m SE_Io (read_exact_at (ByteSource := src) position take) in
            let<- w := on_disk (writer_write_all w buffer) in
            ret (wadd position take, w)) (zlen file) (0, w)
      (fun k st d => st.1 = k /\ objects_are O1 d /\ writing (slice file 0 k) st.2 d) (fun _ => objects_are O1)
      ltac:(done) ltac:(lia)) as Hc.
    match type of Hc with ?G -> _ => assert G as Hg0 end.
    { intros k [pos w'] take Hk Ht Hle _. cbn [fst snd]. apply t_pure. intros ->. apply t_copy_block; (done || lia). }
    specialize (Hc Hg0 d). cbn [fst snd] in Hc. rewrite slice_nil in Hc. specialize (Hc (conj eq_refl Hd)).
    destruct (while_chunks _ _ _ _ d) as [[st|e] d'].
    + destruct Hc as (_ & Ho & Hw). by rewrite Hall in Hw.
    + assert (triple (objects_are O1) (on_disk (dropping (w_path w) (fail (A := unit) e))) (fun _ => objects_are O1)
        (fun _ => objects_are O1)) as Hdrop.
      { apply t_on_disk. apply (t_dropping (objects_are O1) (w_path w) (fail e) (fun _ => objects_are O1) (fun O' => O' = O1)).
        by apply t_fail. }
      specialize (Hdrop d' Hc). destruct (on_disk _ d') as [[u|e'] d'']; simpl; by apply Hkeep.
  - intros [pos w']. cbn [fst snd]. apply t_on_disk. eapply t_conseq; [by apply (t_finish O1 file w')|done| |].
    + intros a d Hd. unfold on_objects in *. assert (pool file) as Hp by (rewrite <-Hall; apply Hslices). split.
      * apply (grown_installed O O1 file); [done..|exact (put_post_installed _ _ _ _ Hd)].
      * eapply put_post_holds; [done|apply Hg|apply Hg|exact Hd].
    + intros e d Hd. unfold on_objects in *. apply (grown_installed O O1 file); [rewrite <-Hall; apply Hslices|done..].
Qed.

(** A committed record is its range of the file. *)
Lemma committed_slice (start n : Z) (digest : list byte) :
  existsb is_hole records = false -> (start, n, digest) ∈ committed_ranges records ->
  Data digest n ∈ records /\ record_bytes O (Data digest n) = slice file start (start + n).
Proof using Hfit.
  destruct Hfit as [Hf Hlt]. intros Hh (pre & post & Hrs & ->)%committed_ranges_elem; [|done..].
  pose proof Hf as Hf'. rewrite Hrs, Forall_app, Forall_cons in Hf'. destruct Hf' as (Hp & Hr & Hq). simpl in Hr.
  split; [rewrite Hrs, elem_of_app, elem_of_cons; auto|]. unfold file. rewrite Hrs. unfold run_bytes. rewrite bind_app, bind_cons.
  fold (run_bytes O pre). fold (run_bytes O post).
  pose proof (slice_inside (run_bytes O pre) (record_bytes O (Data digest n)) (run_bytes O post) 0 n) as Hs.
  rewrite zlen_run_bytes, Z.add_0_r in Hs by done. rewrite Hs; [|lia|by rewrite zlen_record_bytes].
  symmetry. rewrite <-(slice_all (record_bytes O (Data digest n))) at 2. by rewrite zlen_record_bytes.
Qed.

(** ** Re-bounding *)

(** The records of the new boundaries, region by region. *)
Definition rebounded O1 (news : list (list byte)) (r : region) (rec : file_record) : Prop :=
  exists digest, rec = Data digest (r_length r) /\ wf_record rec /\ record_resident O1 rec /\
    record_bytes O1 rec = slice file (r_offset r) (r_offset r + r_length r) /\
    (digest ∈ news \/ digest ∈ data_digests records).

Lemma rebounded_fresh O1 (news : list (list byte)) (r : region) (a : admitted_object) :
  in_u64 (r_length r) -> admitted_for O1 r a -> ao_digest a ∈ news -> rebounded O1 news r (Data (ao_digest a) (r_length r)).
Proof.
  intros Hu [(Hd & Hl & Ho) Hal] Hin. exists (ao_digest a). rewrite Hd in *.
  split; [done|]. split; [split; [apply sha256_length|done]|]. split.
  - simpl. eexists _, true. split; [done|]. lia.
  - split; [|by left]. simpl. rewrite Ho. apply resize_exact. lia.
Qed.

Lemma rebounded_committed O1 (news : list (list byte)) (r : region) (digest : list byte) :
  existsb is_hole records = false -> Forall wf_record records -> grown O O1 ->
  by_range (committed_ranges records) r = Some digest -> rebounded O1 news r (Data digest (r_length r)).
Proof using Hfit Hres.
  intros Hh Hwf Hg Hb. unfold by_range in Hb. apply fmap_Some in Hb as ([[start n] dg] & Hlast & ->).
  apply last_Some_elem_of in Hlast. apply list_elem_of_filter in Hlast as [Hm Hin].
  unfold range_matches in Hm. apply andb_true_iff in Hm as [Hs%Z.eqb_eq Hn%Z.eqb_eq]. subst start n. simpl.
  destruct (committed_slice _ _ _ Hh Hin) as [Hrec Hbytes]. exists dg. split; [done|].
  rewrite Forall_forall in Hwf. split; [by apply Hwf|].
  assert (record_resident O (Data dg (r_length r))) as Hr.
  { unfold run_resident in Hres. rewrite Forall_forall in Hres. by apply Hres. }
  split; [|split].
  - pose proof (run_resident_grow O O1 [Data dg (r_length r)] (gr_sub _ _ Hg)) as Hgrow.
    unfold run_resident in Hgrow. rewrite !Forall_singleton in Hgrow. by apply Hgrow.
  - rewrite <-Hbytes. pose proof (run_bytes_grow O O1 [Data dg (r_length r)] (gr_sub _ _ Hg)) as Hgrow.
    unfold run_resident, run_bytes in Hgrow. rewrite Forall_singleton in Hgrow. simpl in Hgrow.
    rewrite !app_nil_r in Hgrow. by apply Hgrow.
  - right. apply elem_of_data_digests. eauto.
Qed.

Lemma new_records_rebounded O1 (regions : list region) (pending : list (nat * region)) (admitted : list admitted_object)
    (new : list file_record) :
  let committed := committed_ranges records in
  existsb is_hole records = false -> Forall wf_record records -> grown O O1 ->
  Forall (fun r => in_u64 (r_length r)) regions ->
  pending = pending_slots committed regions -> Forall2 (admitted_for O1) pending.*2 admitted ->
  new_records committed (list_to_map (zip pending.*1 (ao_digest <$> admitted))) regions = Some new ->
  Forall2 (rebounded O1 (ao_digest <$> admitted)) regions new.
Proof using Hfit Hres.
  intros committed Hh Hwf Hg Hu -> Hadm Hnew. apply mapM_Some in Hnew.
  assert (length (imap pair regions) = length regions) as Hlen by apply length_imap.
  apply Forall2_same_length_lookup. split; [by rewrite <-Hlen; apply Forall2_length in Hnew|].
  intros i r rec Hi Hrec. assert (imap pair regions !! i = Some (i, r)) as Hii by by rewrite list_lookup_imap, Hi.
  pose proof (Forall2_lookup_lr _ _ _ _ _ _ Hnew Hii Hrec) as Hx. simpl in Hx.
  destruct (by_range committed r) as [digest|] eqn:Eb; simpl in Hx.
  - injection Hx as <-. by apply rebounded_committed.
  - destruct (list_to_map _ !! i) as [digest|] eqn:Ef; [|done]. injection Hx as <-.
    apply elem_of_list_to_map_2, list_elem_of_lookup_1 in Ef as [k Hk].
    apply lookup_zip_Some in Hk as [Hk1 Hk2]. rewrite list_lookup_fmap in Hk2.
    destruct (admitted !! k) as [a|] eqn:Ea; [|done]. injection Hk2 as <-.
    destruct (Forall2_lookup_r _ _ _ _ _ Hadm Ea) as (r' & Hr' & Hfor).
    rewrite list_lookup_fmap in Hk1. rewrite list_lookup_fmap in Hr'.
    destruct (pending_slots committed regions !! k) as [[slot r0]|] eqn:Ep; [|done]. simpl in *. injection Hk1 as ->.
    injection Hr' as ->. apply list_elem_of_lookup_2 in Ep. unfold pending_slots in Ep.
    apply list_elem_of_filter in Ep as [_ Hin]. apply list_elem_of_lookup_1 in Hin as [j Hj].
    rewrite list_lookup_imap in Hj. destruct (regions !! j) eqn:Ej; [|done]. simpl in Hj. simplify_eq.
    apply rebounded_fresh; [|done|].
    + rewrite Forall_forall in Hu. apply Hu. by eapply list_elem_of_lookup_2.
    + apply list_elem_of_fmap. exists a. split; [done|]. by eapply list_elem_of_lookup_2.
Qed.

(** A job that keeps the file. *)
Record keeps_file O1 (job : seal_job) : Prop := {
  kf_ok : job_ok job;
  kf_bytes : sj_update_records job = true -> run_bytes O1 (sj_records job) = file;
  kf_resident : sj_update_records job = true -> run_resident O1 (sj_records job);
  kf_digests digest : sj_update_records job = true -> digest ∈ data_digests (sj_records job) ->
    digest ∈ sj_new_digests job \/ digest ∈ data_digests records
}.

Lemma tiles_ranged cap start stop (regions : list region) :
  tiles cap start stop regions -> 0 <= start -> cap < U64 ->
  Forall ranged regions /\ Forall (fun r => in_u64 (r_length r) /\ r_length r <> 0) regions /\
  sumZ (r_length <$> regions) = stop - start.
Proof.
  revert start. induction regions as [|r regions IH]; intros start; simpl.
  { intros <- ? ?. rewrite Z.sub_diag. done. }
  intros (<- & Hr & Ht) Hs Hc. destruct (IH _ Ht) as (H1' & H2' & H3'); [lia|lia|].
  split; [constructor; [unfold ranged; lia|done]|]. split; [constructor; [unfold in_u64; lia|done]|].
  change (r_length r + sumZ (r_length <$> regions) = stop - r_offset r). lia.
Qed.

Lemma rebounded_job path p c cap O1 (regions : list region) (news : list (list byte)) (new : list file_record) :
  tiles cap 0 (zlen file) regions -> cap < U64 -> zlen regions <= MAX_FILE_RECORDS -> wf_stamp c ->
  Forall2 (rebounded O1 news) regions new ->
  keeps_file O1 (SealJob path p c new true news).
Proof using Hfit.
  intros Ht Hcap Hcount Hc Hnew. destruct (tiles_ranged _ _ _ _ Ht) as (Hr & Hu & Hsum); [lia|done|].
  destruct zlen_file as [_ Hlt].
  assert (sum_lengths new = zlen file) as Hlen.
  { rewrite <-(Z.sub_0_r (zlen file)), <-Hsum. clear - Hnew. induction Hnew as [|r rec rs recs Hx _ IH]; [done|].
    destruct Hx as (dg & -> & _). simpl. rewrite IH. done. }
  constructor; unfold job_ok; cbn [sj_records sj_update_records sj_new_digests sj_contract].
  - split; [|done]. split.
    + clear - Hnew. induction Hnew as [|r rec rs recs Hx _ IH]; constructor; [|done]. by destruct Hx as (dg & _ & ? & _).
    + exists (zlen file). constructor; [|..].
      * apply Forall2_length in Hnew. unfold zlen in Hcount |- *. by rewrite <-Hnew.
      * clear - Hnew Hu. induction Hnew as [|r rec rs recs Hx _ IH]; [constructor|].
        apply Forall_cons in Hu as [[_ Hn] Hu]. constructor; [|by apply IH]. by destruct Hx as (dg & -> & _).
      * assert (forall l, Forall (fun r => is_hole r = false) l -> no_adjacent_holes l = true) as Hno.
        { induction 1 as [|x l Hx Hl IH]; [done|]. destruct l; [done|].
          change (negb (is_hole x && is_hole f) && no_adjacent_holes (f :: l) = true). by rewrite Hx, IH. }
        apply Hno. clear - Hnew. induction Hnew as [|r rec rs recs Hx _ IH]; constructor; [|done].
        by destruct Hx as (dg & -> & _).
      * done.
      * lia.
  - intros _. rewrite <-(slice_all file). rewrite <-(tiles_join _ file _ _ _ Ht) by lia. unfold run_bytes.
    clear - Hnew. induction Hnew as [|r rec rs recs Hx _ IH]; [done|].
    rewrite bind_cons, fmap_cons, IH. change (mjoin (?x :: ?l)) with (x ++ mjoin l). f_equal.
    by destruct Hx as (dg & _ & _ & _ & ? & _).
  - intros _. clear - Hnew. induction Hnew as [|r rec rs recs Hx _ IH]; constructor; [|done].
    by destruct Hx as (dg & _ & _ & ? & _).
  - intros digest _ (n & Hin)%elem_of_data_digests. apply list_elem_of_lookup_1 in Hin as [k Hk].
    destruct (Forall2_lookup_r _ _ _ _ _ Hnew Hk) as (r & _ & dg & [= -> _] & _ & _ & _ & Hd). done.
Qed.

(** ** One file *)

Section file.
Context `{HeaderJson, EntrySort, Unicode, Unordered, Rowid}.
Context (seams : option contract) (concurrency : Z) (schedule : list region -> list nat).
Context (Hseams : forall c, seams = Some c -> wf_stamp (contract_stamp c)).
Context (Hsched : forall regions, schedule regions ≡ₚ seq 0 (length regions)).
Context (Hwf : wf_run records).

Lemma src_len_file d : src_len (ByteSource := src) d = zlen file.
Proof using Hfit.
  simpl. rewrite records_source_new_eq. simpl. destruct Hfit as [Hf Hlt], zlen_file as [-> _].
  by rewrite position_after_sum by (done || lia).
Qed.

Lemma t_plan_file :
  triple (on_objects (grown O)) (map_err_m WE_Plan (plan_with (H := src) seams))
    (fun p d => on_objects (grown O) d /\ plan_ok seams (zlen file) p)
    (fun _ => on_objects (grown O)).
Proof using Hfit.
  assert (in_u64 (zlen file)) as Hu by (destruct zlen_file as [_ ?]; pose proof (zlen_nonneg file); unfold in_u64; lia).
  pose proof (t_plan_with (H := src) seams (zlen file) Hu) as Hp.
  assert (framed (on_objects (grown O)) (plan_with (H := src) seams)) as Hf.
  { apply f_plan_with; [|by apply f_ret]. intros offset n. apply f_records_read. apply _. }
  intros d Hd. unfold map_err_m. specialize (Hp d (src_len_file d)). specialize (Hf d Hd).
  destruct (plan_with seams d) as [[p|e] d']; simpl in *; [|done]. split; [done|]. apply Hp.
Qed.

Lemma plan_contract_wf p : plan_ok seams (zlen file) p -> wf_stamp (p_contract p).
Proof using Hseams.
  intros (_ & _ & Hk). destruct (p_planner p).
  - destruct Hk as (l & _ & Hok). rewrite (sp_stamp _ _ _ Hok). destruct seams as [c|]; [by apply Hseams|done].
  - destruct Hk as (l & _ & Hok). rewrite (gp_stamp _ _ _ Hok). destruct seams as [c|]; [by apply Hseams|done].
  - by rewrite Hk.
Qed.

(** A job that only restates the provenance. *)
Lemma keeps_same O1 path p c : wf_stamp c -> keeps_file O1 (SealJob path p c records false []).
Proof using Hwf. intros Hc. by constructor. Qed.

Lemma t_blob_seal_job path :
  records <> [] ->
  triple (on_objects (grown O)) (blob_seal_job path records)
    (fun job => on_objects (fun O1 => grown O O1 /\ keeps_file O1 job /\ sj_path job = path))
    (fun _ => on_objects (grown O)).
Proof using Hinj Hfit Hres Hslices Hwf.
  intros Hne. unfold blob_seal_job.
  eapply t_bind with (Q' := fun n d => n = zlen file /\ on_objects (grown O) d).
  { apply t_gets. intros d Hd. split; [apply src_len_file|done]. }
  intros n. apply t_pure. intros ->. destruct zlen_file as [Hsum Hlt].
  assert (0 < zlen file) as Hpos.
  { rewrite Hsum. destruct Hwf as [Hw (size & Hrun)]. pose proof (wrr_nonzero _ _ Hrun) as Hnz.
    destruct records as [|r rs]; [done|]. apply Forall_cons in Hnz as [Hr _]. apply Forall_cons in Hw as [Hwr Hws].
    pose proof (sum_lengths_nonneg _ Hws). pose proof (record_length_nonneg _ Hwr). simpl. lia. }
  eapply t_bind; [intros d Hd; unfold map_err_m; pose proof (t_admit_file d Hd) as Ha;
    destruct (admit_source_range _ _ d) as [[a|e] d']; exact Ha|].
  intros a. apply t_ret. intros d [Hg (Hd & Hl & Ho)]. split; [done|]. split; [|done].
  set (r := Region 0 (zlen file) RK_Blob).
  assert (rebounded (objects d) [ao_digest a] r (Data (ao_digest a) (zlen file))) as Hreb.
  { apply (rebounded_fresh (objects d) [ao_digest a] r a); [unfold in_u64; simpl; lia| |by apply list_elem_of_singleton].
    split; [|done]. change (holds_object (slice file 0 (0 + zlen file)) a (objects d)).
    by rewrite Z.add_0_l, slice_all. }
  rewrite Hl. apply (rebounded_job path BlobV1 StampNone (U64 - 1) (objects d) [r]); [|lia|done|done|by constructor].
  simpl. lia.
Qed.

Lemma t_reboundary path p :
  existsb is_hole records = false -> plan_ok seams (zlen file) p -> p_planner p <> BlobV1 ->
  triple (on_objects (grown O)) (reboundary concurrency schedule path records p)
    (fun job => on_objects (fun O1 => grown O O1 /\ forall j, job = Some j -> keeps_file O1 j /\ sj_path j = path))
    (fun _ => on_objects (grown O)).
Proof using Hinj Hfit Hres Hslices Hwf Hseams Hsched.
  intros Hh Hp Hb. pose proof (plan_contract_wf _ Hp) as Hc. destruct Hp as ([Hcount _ Htiles] & Hsz & _).
  rewrite Hsz in Htiles. assert (plan_cap p < U64) as Hcap by (unfold plan_cap; by case_bool_decide).
  destruct (tiles_ranged _ _ _ _ Htiles) as (Hr & Hu & _); [lia|done|].
  unfold reboundary. set (pending := pending_slots (committed_ranges records) (p_regions p)).
  assert (Forall ranged pending.*2) as Hpr.
  { apply Forall_fmap. apply Forall_forall. intros [slot r] [_ Hin]%list_elem_of_filter.
    apply list_elem_of_lookup_1 in Hin as [k Hk]. rewrite list_lookup_imap in Hk.
    destruct (p_regions p !! k) as [r'|] eqn:E; simplify_eq/=. rewrite Forall_forall in Hr.
    apply Hr. by eapply list_elem_of_lookup_2. }
  eapply t_bind; [intros d Hd; unfold map_err_m;
    pose proof (t_admit_regions concurrency (schedule pending.*2) pending.*2 Hpr (Hsched _) d Hd) as Ha;
    destruct (admit_regions _ _ _ d) as [[a|e] d']; exact Ha|].
  intros admitted. cbn beta. destruct (new_records _ _ _) as [new|] eqn:En.
  - apply t_ret. intros d [Hg Hadm]. split; [done|]. intros j [= <-]. split; [|done].
    apply (rebounded_job path _ _ (plan_cap p) (objects d) (p_regions p)); [done|done| |done|].
    + transitivity MAX_OBJECT_COUNT; [done|]. by vm_compute.
    + apply (new_records_rebounded (objects d) (p_regions p) pending admitted new); try done.
      * apply Hwf.
      * eapply Forall_impl; [exact Hu|]. by intros r [].
  - apply t_fail. by intros d [].
Qed.

Lemma t_plan_seal_job path stored_planner stored_contract :
  triple (on_objects (grown O)) (plan_seal_job seams concurrency schedule path stored_planner stored_contract records)
    (fun job => on_objects (fun O1 => grown O O1 /\ forall j, job = Some j -> keeps_file O1 j /\ sj_path j = path))
    (fun _ => on_objects (grown O)).
Proof using Hinj Hfit Hres Hslices Hwf Hseams Hsched.
  assert (forall d, on_objects (grown O) d -> on_objects (fun O1 => grown O O1 /\ forall j, None = Some j ->
    keeps_file O1 j /\ sj_path j = path) d) as Hnone by (intros d Hd; split; [done|]; intros j [=]).
  assert (forall d p c, wf_stamp c -> on_objects (grown O) d -> on_objects (fun O1 => grown O O1 /\ forall j,
    Some (SealJob path p c records false []) = Some j -> keeps_file O1 j /\ sj_path j = path) d) as Hsame.
  { intros d p c Hc Hd. split; [done|]. intros j [= <-]. split; [by apply keeps_same|done]. }
  assert (records <> [] -> triple (on_objects (grown O)) (let<- job := blob_seal_job path records in ret (Some job))
    (fun job => on_objects (fun O1 => grown O O1 /\ forall j, job = Some j -> keeps_file O1 j /\ sj_path j = path))
    (fun _ => on_objects (grown O))) as Hblob.
  { intros Hne. eapply t_bind; [by apply t_blob_seal_job|]. intros job. apply t_ret. intros d (Hg & Hk & Hpj).
    split; [done|]. by intros j [= <-]. }
  unfold plan_seal_job. case_decide as Hne; [by apply t_ret|].
  destruct (existsb is_hole records) eqn:Eh.
  { destruct (bool_decide _); [by apply t_ret|by apply Hblob]. }
  eapply t_bind; [apply t_plan_file|]. intros p. apply t_pure_r. intros Hp.
  pose proof (plan_contract_wf _ Hp) as Hc. case_decide as Hb.
  - match goal with |- triple _ ?m _ _ => assert (m = (if bool_decide (stored_planner = BlobV1)
      && bool_decide (stored_contract = StampNone) then ret None else ret (Some (SealJob path BlobV1 StampNone records false [])))
      \/ m = (let<- job := blob_seal_job path records in ret (Some job))) as [-> | ->] end.
    + apply one_data_cases.
    + destruct (_ && _); apply t_ret; intros d Hd; [by apply Hnone|by apply Hsame].
    + by apply Hblob.
  - destruct (boundaries_match _ _).
    + destruct (_ && _); apply t_ret; intros d Hd; [by apply Hnone|by apply Hsame].
    + by apply t_reboundary.
Qed.
End file.
End ranges.
End admission.

Section pools.
Context `{Sha256}.

(** Strings no two of which collide, and a store that holds only such. *)
Definition collision_free (pool : list byte -> Prop) : Prop :=
  forall a b, pool a -> pool b -> sha256 a = sha256 b -> a = b.
Definition store_in (pool : list byte -> Prop) (d : disk) : Prop :=
  clean (objects d) /\ forall digest bytes ro, objects d !! digest = Some (Regular bytes ro) -> pool bytes.

Lemma store_in_grown pool d : store_in pool d -> on_objects (grown pool (objects d)) d.
Proof. intros [Hc Hp]. by constructor. Qed.
End pools.

(** ** Planning a seal

    Every job rewrites the committed file it was planned from, byte for byte, and
    names only objects it admitted or the committed head already names. *)

Section tree.
Context `{Unicode, Unordered}.
Context (d : db) (Hd : db_inv d) (w : workspace_row_t) (Hroot : rooted_at d (w_id w) (w_root_inode w)).

(** A committed file of the workspace, under one of its names. *)
Definition head_file (path : list byte) (records : list file_record) : Prop :=
  exists i x planner contract, named d (w_root_inode w) path i /\
    node_at d (ri_id i) = Some (AFile x planner contract records).

(** A file of the resolved tree was declared, by itself or through a link. *)
Lemma resolved_file declared res path x p c rs :
  resolve declared = Some (Ok res) -> (path, TFile x p c rs) ∈ res ->
  (path, PFile x p c rs) ∈ declared \/
  exists f, (path, PHardlinkTo f) ∈ declared /\ (f, PFile x p c rs) ∈ declared.
Proof.
  intros (entries & groups & Hc & Hg & Hn & _)%resolve_inv Hin.
  apply list_elem_of_split in Hin as (pre & post & Hres).
  destruct (numbered_split _ _ _ _ _ _ Hn Hres) as (p0 & Hp0 & He).
  destruct p0 as [|x0 pl0 c0 rs0|t|q]; try done. destruct He as (-> & -> & -> & -> & _).
  destruct Hc as (_ & _ & Hs & Hperm).
  apply list_elem_of_fmap in Hp0 as ([path' p'] & [= <- Hrel] & Hin). rewrite Hperm in Hin.
  destruct p' as [|x' pl' c' rs'|t|f]; try done; simpl in Hrel; case_decide; simplify_eq; [by left|].
  right. exists f. split; [done|]. destruct (bt_get f entries) as [body|] eqn:Ef; simpl in Hrel; [|done].
  subst body. rewrite <-Hperm. by apply bt_get_Some.
Qed.

Lemma tree_file tree path x p c rs :
  build_tree d w = Some (Ok tree) -> (path, TFile x p c rs) ∈ tree ->
  exists i, named d (w_root_inode w) path i /\ node_at d (ri_id i) = Some (AFile x p c rs).
Proof using Hd Hroot.
  intros Hb Hin. unfold build_tree in Hb.
  destruct (stage_builder_view d Hd w Hroot None) as (b & Hs & _ & Hnd & _ & Hdecl). rewrite Hs in Hb.
  unfold finish_tree in Hb. destruct (resolve (b_pending b)) as [[res|e]|] eqn:Er; [|done..].
  injection Hb as ->.
  destruct (resolved_file _ _ _ _ _ _ _ Er Hin) as [Hf|(f & Hl & Hf)].
  - destruct (Hdecl _ _ Hf) as (i & Hi & Hst). by exists i.
  - destruct (Hdecl _ _ Hl) as (i & Hi & x' & p' & c' & rs' & Hn & Hcar). exists i. split; [done|].
    assert (PFile x' p' c' rs' = PFile x p c rs) as [= -> -> -> ->]; [|done].
    apply (elem_of_list_to_map_1 (M := gmap (list byte)) _ _ _ Hnd) in Hf, Hcar. congruence.
Qed.
End tree.

Section plan.
Context `{Sha256, Unicode, Unordered, Rowid, Allocator, HeaderJson, EntrySort}.
Context (seams : option contract) (concurrency : Z) (schedule : list region -> list nat).
Context (Hseams : forall c, seams = Some c -> wf_stamp (contract_stamp c)).
Context (Hsched : forall regions, schedule regions ≡ₚ seq 0 (length regions)).
Context (O : gmap (list byte) node) (D : db) (Hsafe : safe O D).
Context (name : list byte) (w : workspace_row_t) (Hw : workspace_row D name = Ok w).

(** What the seal hashes: resident objects and ranges of committed files. *)
Definition seal_pool (bytes : list byte) : Prop :=
  (exists digest ro, O !! digest = Some (Regular bytes ro)) \/
  exists path records i j, head_file D w path records /\ bytes = slice (run_bytes O records) i j.

Context (Hinj : forall a b, seal_pool a -> seal_pool b -> sha256 a = sha256 b -> a = b).
(** No record is longer than its object. *)
Context (Hlong : forall path records, head_file D w path records -> run_resident O records).

(** A job and the committed file it came from. *)
Definition job_for (O1 : gmap (list byte) node) (job : seal_job) : Prop :=
  exists records, head_file D w (sj_path job) records /\ keeps_file O records O1 job.

Lemma job_for_grow O1 O2 job : O1 ⊆ O2 -> job_for O1 job -> job_for O2 job.
Proof.
  intros Hsub (records & Hf & [K1 K2 K3 K4]). exists records. split; [done|]. constructor; [done|..|done].
  - intros Hu. rewrite (run_bytes_grow O1); auto.
  - intros Hu. eapply run_resident_grow; eauto.
Qed.

Lemma head_file_run path records : head_file D w path records -> wf_run records /\ run_fits records.
Proof using Hsafe.
  intros (i & x & p & c & _ & Hn). pose proof (sf_tables _ _ Hsafe) as [[_ Hr] _].
  destruct (node_file_run D _ _ _ _ _ Hr Hn) as (_ & Hwf & _). split; [done|].
  destruct Hwf as [Hwr [size Hrun]]. by eapply wf_run_fits.
Qed.

Definition planned (jobs : list seal_job) (s : world) : Prop :=
  grown seal_pool O (objects (w_disk s)) /\ w_db s = D /\ Forall (job_for (objects (w_disk s))) jobs.

Lemma t_plan_entry jobs path p c records :
  head_file D w path records ->
  triple (planned jobs)
    (let<- job := on_disk (plan_seal_job seams concurrency schedule path p c records) in
     ret (match job with Some job => jobs ++ [job] | None => jobs end))
    (fun jobs' => planned jobs') (fun _ s => grown seal_pool O (objects (w_disk s)) /\ w_db s = D).
Proof using Hsafe Hinj Hlong Hseams Hsched.
  intros Hf. destruct (head_file_run _ _ Hf) as [Hwf Hfit]. pose proof (Hlong _ _ Hf) as Hres.
  intros s (Hg & Hdb & Hjobs). set (Oc := objects (w_disk s)) in *. pose proof (gr_sub _ _ _ Hg) as Hsub.
  assert (run_bytes Oc records = run_bytes O records) as Hfile by by apply run_bytes_grow.
  pose proof (t_plan_seal_job seal_pool Hinj Oc records Hfit (run_resident_grow _ _ _ Hsub Hres)
    ltac:(intros i j; rewrite Hfile; right; by exists path, records, i, j)
    seams concurrency schedule Hseams Hsched Hwf path p c (w_disk s) (grown_self _ _ _ Hg)) as Hplan.
  unfold bind, on_disk. cbn [disk_of world_has_disk]. destruct (plan_seal_job _ _ _ _ _ _ _ _) as [[job|e] d'].
  - destruct Hplan as [Hg' Hjob]. cbn [set_disk world_has_disk ret].
    assert (Forall (job_for (objects d')) jobs) as Hjobs'.
    { eapply Forall_impl; [exact Hjobs|]. intros j. apply job_for_grow, (gr_sub _ _ _ Hg'). }
    split; [by eapply grown_sub|]. split; [done|]. destruct job as [job|]; [|done].
    apply Forall_app. split; [done|]. apply Forall_singleton. destruct (Hjob job eq_refl) as [[K1 K2 K3 K4] Hpath].
    exists records. rewrite Hpath. split; [done|]. constructor; [done| |done|done]. by rewrite <-Hfile.
  - cbn. split; [by eapply grown_sub|done].
Qed.

Lemma t_seal_plan :
  triple (fun s => objects (w_disk s) = O /\ w_db s = D) (seal_plan seams concurrency schedule name)
    (fun gj s => gj.1 = w_head_generation w /\ planned gj.2 s)
    (fun _ s => grown seal_pool O (objects (w_disk s)) /\ w_db s = D).
Proof using Hsafe Hinj Hlong Hseams Hsched Hw.
  assert (forall s, objects (w_disk s) = O -> grown seal_pool O (objects (w_disk s))) as Hstart.
  { intros s ->. constructor; [done|apply Hsafe|]. intros digest bytes ro Hr. left. eauto. }
  eapply t_conseq with (P' := on_state false (fun O' D' => O' = O /\ D' = D)); [|by intros s []; split|intros a s Hs; exact Hs|intros e s Hs; exact Hs].
  unfold seal_plan. eapply t_bind with
    (Q' := fun gt s => gt.1 = w_head_generation w /\ build_tree D w = Some (Ok gt.2) /\ planned [] s).
  { eapply t_conseq; [apply t_sql_read with (R := fun _ s => grown seal_pool O (objects (w_disk s)) /\ w_db s = D)|done| |done].
    - intros e s [[Ho Hd] _]. auto.
    - intros e s [[[Ho Hd] _] _]. auto.
    - intros [g tree] s [[[Ho Hd] Hf] _]. rewrite Hd, Hw in Hf. simpl in Hf.
      destruct (build_tree D w) as [[t|e]|]; simpl in Hf; [|done..]. simplify_eq/=.
      split; [done|]. split; [done|]. split; [by apply Hstart|]. by split. }
  intros [g tree]. cbn [fst snd]. do 2 (apply t_pure; intros ?). subst g.
  eapply t_bind with (Q' := fun jobs s => planned jobs s).
  - apply (t_for _ _ _ (fun _ jobs s => planned jobs s)). intros pre [path e] post jobs Htree. cbn [fst snd].
    destruct e as [|x p c records|t|o]; try (by apply t_ret). apply t_plan_entry.
    pose proof (sf_tables _ _ Hsafe) as [Hdi _].
    destruct (tree_file D Hdi w (workspace_row_rooted _ _ _ Hw) tree path x p c records) as (i & Hi & Hn);
      [done|rewrite Htree; set_solver|]. by exists i, x, p, c.
  - intros jobs. by apply t_ret.
Qed.

(** The jobs' digests are in the head or were admitted. *)
Lemma planned_grounded jobs s : planned jobs s -> Forall job_ok jobs /\ Forall (grounded D) jobs.
Proof using Hsafe.
  intros (_ & _ & Hjobs). rewrite !Forall_forall in *.
  split; intros job (records & (i & x & p & c & Hi & Hn) & Hk)%Hjobs; [apply Hk|].
  intros Hu digest Hd. destruct (kf_digests _ _ _ _ Hk digest Hu Hd) as [?|Hold]; [by left|right].
  pose proof (sf_tables _ _ Hsafe) as [[_ Hr] _].
  destruct (node_file_run D _ _ _ _ _ Hr Hn) as (Hrun & _). by eapply head_digest_run.
Qed.
End plan.

(** ** Objects that appear *)

Section grow.
Context `{Sha256, Unicode, Unordered, Rowid, Allocator}.

Lemma safe_grown (pool : list byte -> Prop) (O O1 : gmap (list byte) node) (D : db) :
  grown pool O O1 -> safe O D -> safe O1 D.
Proof.
  intros [Hsub Hclean _] [S1 S2 S3 S4 S5]. constructor; try done.
  intros digest Hr. assert (resident O digest) as [b Hb]; [|exists b; by eapply lookup_weaken].
  apply S5. destruct Hr as [?|[?|(id & g & Hid & Hd)]]; [by left|right; by left|right; right].
  exists id, g. split; [done|]. destruct Hd as [->|(b2 & ro & snap & Ho & Hs)]; [by left|right].
  assert (resident O id) as [b3 Hb3] by (apply S5; right; right; eauto).
  assert (O1 !! id = Some (Regular b3 true)) as Ho' by (by eapply lookup_weaken).
  rewrite Ho' in Ho. injection Ho as <- <-. by exists b3, true, snap.
Qed.

(** The mutations of a decoded snapshot are typed. *)
Lemma entry_mutation_typed snap (path : list byte) (e : entry) m :
  is_utf8 path -> wf_entry e -> entry_mutation snap (path, e) = Ok m -> mutation_typed m.
Proof.
  intros Hu He Hm. destruct e as [|x body|t|o]; simpl in Hm.
  - injection Hm as <-. done.
  - injection Hm as <-. split; [done|]. simpl. destruct body as [f c n rs|n digest]; simpl in *; [apply He|].
    destruct (n =? 0); [constructor|]. apply Forall_singleton. split; apply He.
  - injection Hm as <-. split; [split; [done|apply He]|done].
  - destruct (ordinal_path snap o) as [q|]; [|done]. injection Hm as <-. done.
Qed.

Lemma snapshot_mutations_typed snap ms :
  wf_snapshot snap -> snapshot_mutations snap = Ok ms -> Forall mutation_typed ms.
Proof.
  intros Hwf. unfold snapshot_mutations.
  refine (for_each_inv _ (fun _ (acc : list mutation) => Forall mutation_typed acc) (s_entries snap) [] ms _ _); [constructor|].
  intros pre [path e] post acc acc' Hs Hacc. destruct (entry_mutation snap (path, e)) as [m|] eqn:Em; [|done].
  intros [= <-]. apply Forall_app. split; [done|]. apply Forall_singleton.
  pose proof (wf_paths _ Hwf) as Hp. pose proof (wf_entries _ Hwf) as He.
  rewrite Hs, Forall_app, Forall_cons in Hp. rewrite Hs, Forall_app, Forall_cons in He.
  eapply entry_mutation_typed; [apply Hp|apply He|done].
Qed.

Lemma t_load_snapshot (id : list byte) :
  triple inv (load_snapshot id) (fun snap s => inv s /\ wf_snapshot snap) (fun _ => inv).
Proof.
  intros s (O & D & Hs & Hat)%inv_at. revert s Hat.
  change (triple (on_state false (fun O' D' => O' = O /\ D' = D)) (load_snapshot id) (fun snap s => inv s /\ wf_snapshot snap) (fun _ => inv)).
  unfold load_snapshot, read_rooted_snapshot. eapply t_bind.
  { eapply t_conseq; [apply (t_sql_read_at false O D True (fun d => Ok (snapshots d !! id)))|done|intros a s Hx; exact Hx|].
    - done.
    - intros e s. by apply refused_inv. }
  intros r. cbn beta. destruct r as [g|].
  - eapply t_conseq; [apply (t_read_manifest false O D id), Hs| | |].
    + by intros s [].
    + intros snap s [Hat (bytes & ro & Ho & Hd)]. split; [by eapply at_inv|].
      destruct (sf_clean _ _ Hs _ _ Ho) as (b & [= <- ->] & _ & Hlen).
      by apply decode_sound in Hd as (_ & ? & _).
    + intros e s. by apply refused_inv.
  - apply t_fail. intros s [Hat _]. by eapply at_inv.
Qed.

Lemma p_create_from_snapshot (name id : list byte) : framed inv (create_workspace_from_snapshot name id).
Proof.
  unfold create_workspace_from_snapshot. eapply t_bind; [apply t_load_snapshot|]. intros snap.
  apply t_pure_r. intros Hwf. apply f_bind; [apply p_create_workspace|]. intros _.
  eapply t_bind with (Q' := fun ms s => inv s /\ Forall mutation_typed ms).
  { apply t_lift. intros s Hs. destruct (snapshot_mutations snap) as [ms|] eqn:Em; [|done].
    split; [done|]. by eapply snapshot_mutations_typed. }
  intros ms. apply t_pure_r. intros Hty. apply f_bind; [by apply p_commit_generation|]. intros _. apply f_ret.
Qed.
End grow.
