(* ===== verification/ComposeFacts.v ===== *)
(** What composition keeps: an inherited run is the tensor's own bytes, an
    admitted header is the header, and so a re-keyed, trimmed, re-cut or derived
    container denotes exactly the bytes it should, whatever fails on the way. *)
From S2P Require Export SealFacts Compose.
From S2P Require Import PermuteKernel Adapter.

(** ** Inheriting a run *)

Lemma foldl_record_lengths records acc :
  Forall (fun r => 0 <= record_length r) records -> 0 <= acc -> acc + sum_lengths records < U64 ->
  foldl (fun acc r => wadd acc (record_length r)) acc records = acc + sum_lengths records.
Proof.
  intros Hf. revert acc. induction Hf as [|r records Hr Hf IH]; intros acc Ha Hlt; simpl in *; [lia|].
  pose proof (sum_lengths_pos _ Hf). rewrite wadd_small by lia. rewrite IH by lia. lia.
Qed.

Lemma records_sum_eq records : run_fits records -> records_sum records = sum_lengths records.
Proof. intros [Hf Hlt]. unfold records_sum. rewrite foldl_record_lengths; [lia|done|lia|lia]. Qed.

Section inherit.
Context (O : gmap (list byte) node) (all : list file_record) (Hfit : run_fits all).
Context (start stop : Z) (Hs : 0 <= start <= stop).
Let file := run_bytes O all.

(** What the loop has taken when it reaches a position. *)
Definition taking (position : Z) (taken : list file_record) : Prop :=
  Forall (fun r => r ∈ all) taken /\
  ((position <= start /\ taken = []) \/
   (start <= position <= stop /\ run_bytes O taken = slice file start position /\
    sum_lengths taken = position - start)).

Lemma inherit_loop_ok pre rest taken out :
  all = pre ++ rest -> taking (sum_lengths pre) taken ->
  inherit_loop start stop (sum_lengths pre) taken rest = Some out -> exists q, taking q out.
Proof using Hfit Hs.
  destruct Hfit as [Hf Hlt]. revert pre taken.
  induction rest as [|r rest IH]; intros pre taken Hall Ht; cbn [inherit_loop]; [intros [= <-]; eauto|].
  pose proof Hf as Hf'. rewrite Hall, Forall_app, Forall_cons in Hf'. destruct Hf' as (Hp & Hr & Hq).
  pose proof (sum_lengths_pos _ Hp). pose proof (sum_lengths_pos _ Hq).
  assert (sum_lengths all = sum_lengths pre + record_length r + sum_lengths rest) as Hsum.
  { rewrite Hall. clear. induction pre; simpl in *; lia. }
  rewrite wadd_small by lia.
  replace (sum_lengths pre + record_length r) with (sum_lengths (pre ++ [r])) by by rewrite sum_lengths_snoc.
  assert (all = (pre ++ [r]) ++ rest) as Hall' by by rewrite <-app_assoc.
  assert (sum_lengths (pre ++ [r]) = sum_lengths pre + record_length r) as Hsn by apply sum_lengths_snoc.
  destruct (Z.leb_spec (sum_lengths (pre ++ [r])) start) as [Hle|Hgt].
  { apply IH; [done|]. destruct Ht as [Hin [[? ->]|(? & Hb & Hl)]].
    - split; [constructor|]. left. split; [lia|done].
    - split; [done|]. right. assert (record_length r = 0 /\ sum_lengths pre = start) as [Hz Hps] by lia.
      split; [lia|]. rewrite Hsn, Hz, Z.add_0_r. done. }
  destruct (Z.leb_spec stop (sum_lengths pre)) as [Hst|Hst]; [intros [= <-]; eauto|].
  destruct (_ || _) eqn:Eb; [done|]. apply orb_false_elim in Eb as [E1%Z.ltb_ge E2%Z.ltb_ge].
  apply IH; [done|]. destruct Ht as [Hin Ht]. split.
  { apply Forall_app. split; [done|]. apply Forall_singleton. rewrite Hall. set_solver. }
  right. split; [lia|].
  assert (record_bytes O r = slice file (sum_lengths pre) (sum_lengths pre + record_length r)) as Hrb.
  { unfold file. rewrite Hall. unfold run_bytes. rewrite bind_app, bind_cons.
    fold (run_bytes O pre). fold (run_bytes O rest).
    pose proof (slice_middle (run_bytes O pre) (record_bytes O r) (run_bytes O rest)) as Hm.
    by rewrite zlen_run_bytes, zlen_record_bytes in Hm by done. }
  assert (zlen file = sum_lengths all) as Hzf by (unfold file; by rewrite zlen_run_bytes).
  unfold run_bytes. rewrite bind_app, bind_singleton. fold (run_bytes O taken). rewrite !sum_lengths_snoc, Hrb.
  destruct Ht as [[Hle ->]|(Hrange & -> & Hl)].
  - assert (sum_lengths pre = start) as -> by lia. split; [done|]. simpl. lia.
  - split; [|lia]. apply slice_join; lia.
Qed.
End inherit.

(** An inherited run is a run of the source's own records whose bytes are the
    range asked for. *)
Lemma inherit_sound O records start n taken :
  run_fits records -> 0 <= start -> 0 <= n -> inherit records start n = Some taken ->
  run_bytes O taken = slice (run_bytes O records) start (start + n) /\
  Forall (fun r => r ∈ records) taken /\ sum_lengths taken = n.
Proof.
  intros Hfit Hs Hn. unfold inherit. destruct (checked_add start n) as [stop|] eqn:Ec; simpl; [|done].
  apply checked_add_Some in Ec as [-> Hlt].
  destruct (inherit_loop _ _ _ _ _) as [out|] eqn:El; simpl; [|done].
  destruct (Z.eqb_spec (records_sum out) n) as [He|]; [|done]. intros [= <-].
  destruct (inherit_loop_ok O records Hfit start (start + n) ltac:(lia) [] records [] out) as [q [Hin Hq]];
    [done| |done|].
  { split; [constructor|]. left. split; [simpl; lia|done]. }
  assert (run_fits out) as Hfo.
  { destruct Hfit as [Hf _]. rewrite Forall_forall in Hf. split.
    - eapply Forall_impl; [exact Hin|]. intros r Hr. by apply Hf.
    - destruct Hq as [[_ ->]|(Hr & _ & ->)]; [done|]. lia. }
  rewrite records_sum_eq in He by done. destruct Hq as [[_ ->]|(Hr & Hb & Hl)].
  - simpl in He. subst n. rewrite Z.add_0_r, slice_nil. done.
  - rewrite Hb. assert (q = start + n) as -> by lia. done.
Qed.

(** ** Runs that hold given bytes *)

Record holds_run (O : gmap (list byte) node) (rs : list file_record) (bytes : list byte) : Prop := {
  hr_bytes : run_bytes O rs = bytes;
  hr_resident : run_resident O rs;
  hr_lengths : Forall (fun r => 0 <= record_length r) rs;
  hr_sum : sum_lengths rs = zlen bytes
}.

Lemma holds_run_nil O : holds_run O [] [].
Proof. by repeat constructor. Qed.

Lemma holds_run_app O rs1 rs2 b1 b2 :
  holds_run O rs1 b1 -> holds_run O rs2 b2 -> holds_run O (rs1 ++ rs2) (b1 ++ b2).
Proof.
  intros [H1 H2 H3 H4] [K1 K2 K3 K4]. constructor.
  - unfold run_bytes in *. by rewrite bind_app, H1, K1.
  - by apply Forall_app.
  - by apply Forall_app.
  - rewrite sum_lengths_app, zlen_app. lia.
Qed.

Lemma holds_run_grow O O' rs bytes : O ⊆ O' -> holds_run O rs bytes -> holds_run O' rs bytes.
Proof.
  intros Hs [H1 H2 H3 H4]. constructor; [|by eapply run_resident_grow|done|done].
  by rewrite (run_bytes_grow O O').
Qed.

Lemma holds_run_fits O rs bytes : holds_run O rs bytes -> zlen bytes < U64 -> run_fits rs.
Proof. intros [_ _ ? Hs] ?. split; [done|]. lia. Qed.

(** The whole of a run, and an inherited part of it. *)
Lemma holds_inherited O records start n taken :
  run_fits records -> run_resident O records -> 0 <= start -> 0 <= n ->
  start + n <= sum_lengths records -> inherit records start n = Some taken ->
  holds_run O taken (slice (run_bytes O records) start (start + n)).
Proof.
  intros Hfit Hres Hs Hn Hle Hi. destruct (inherit_sound O records start n taken) as (Hb & Hin & Hsum); [done..|].
  destruct Hfit as [Hf Hlt]. rewrite Forall_forall in Hin. unfold run_resident in Hres.
  rewrite Forall_forall in Hf. rewrite Forall_forall in Hres. constructor.
  - done.
  - apply Forall_forall. auto.
  - apply Forall_forall. auto.
  - rewrite Hsum, slice_length; [lia|lia|]. rewrite zlen_run_bytes by (by apply Forall_forall). done.
Qed.

Section admitting.
Context `{Sha256, Allocator}.
Context (pool : list byte -> Prop).
Context (Hinj : forall a b, pool a -> pool b -> sha256 a = sha256 b -> a = b).
Context (O : gmap (list byte) node).

Lemma holds_admitted O1 (bytes : list byte) (a : admitted_object) :
  holds_object bytes a O1 -> holds_run O1 [Data (ao_digest a) (ao_length a)] bytes.
Proof.
  intros (Hd & Hl & Ho). rewrite Hd, Hl. constructor.
  - unfold run_bytes. simpl. rewrite Ho, app_nil_r. by apply resize_exact.
  - apply Forall_singleton. exists bytes, true. split; [done|lia].
  - apply Forall_singleton. simpl. apply zlen_nonneg.
  - simpl. lia.
Qed.

(** An admitted region denotes its bytes. *)
Lemma t_admit_bytes (bytes : list byte) (G : gmap (list byte) node -> Prop) :
  (forall O1 O2, O1 ⊆ O2 -> G O1 -> G O2) ->
  Forall pool (chunks MAX_OBJECT_SIZE bytes) -> zlen bytes < U64 ->
  triple (on_objects (fun O1 => grown pool O O1 /\ G O1)) (admit_bytes bytes)
    (fun rs => on_objects (fun O1 => (grown pool O O1 /\ G O1) /\ holds_run O1 rs bytes))
    (fun _ => on_objects (grown pool O)).
Proof using Hinj.
  intros Hmono Hpool Hlt. destruct (chunks_spec MAX_OBJECT_SIZE bytes) as [Hcat Hsize]; [done|].
  unfold admit_bytes.
  eapply t_conseq; [apply (t_for _ [] (chunks MAX_OBJECT_SIZE bytes) (fun pre rs =>
    on_objects (fun O1 => (grown pool O O1 /\ G O1) /\ holds_run O1 rs (concat pre)))
    (fun _ => on_objects (grown pool O)))| | |done].
  - intros pre piece post rs Hl. rewrite Hl, Forall_app, Forall_cons in Hpool, Hsize.
    destruct Hpool as (_ & Hp & _), Hsize as (_ & [_ Hs] & _).
    assert (zlen piece < U64) as Hpl by (unfold MAX_OBJECT_SIZE in Hs; unfold U64; lia).
    eapply t_bind with (Q' := fun a => on_objects (fun O1 => ((grown pool O O1 /\ G O1) /\
      holds_run O1 rs (concat pre)) /\ holds_object piece a O1)).
    + intros d [[Hg HG] Hh]. unfold map_err_m.
      pose proof (t_put_pool pool Hinj (objects d) piece (grown_self _ _ _ Hg) Hp Hpl d eq_refl) as Hput.
      destruct (put_bytes piece d) as [[a|e] d']; simpl.
      * destruct Hput as [Hg' Ha]. unfold on_objects. split; [|done]. split; [split|].
        -- eapply grown_sub; [|done]. apply Hg.
        -- eapply Hmono; [apply Hg'|done].
        -- eapply holds_run_grow; [apply Hg'|done].
      * eapply grown_sub; [|done]. apply Hg.
    + intros a. apply t_ret. intros d [[Hg Hh] Ha]. split; [done|].
      rewrite concat_app. simpl. rewrite app_nil_r. apply holds_run_app; [done|]. by apply holds_admitted.
  - intros d Hd. split; [done|]. apply holds_run_nil.
  - intros rs d Hd. unfold on_objects in *. by rewrite Hcat in Hd.
Qed.
End admitting.

(** ** Choosing tensors *)

(** The tensors a composition keeps, under their new names. *)
Definition renamed {T} (name_of : T -> list byte) (names : btree (list byte)) (tensors : list T)
  : list (list byte * T) :=
  omap (fun t => (fun new => (new, t)) <$> bt_get (name_of t) names) tensors.

(** What [select] promises: the kept tensors are the named ones, in the file's
    own order, under distinct names; every name was a tensor's; and a re-key
    names them all. *)
Lemma select_Ok {T} (name_of : T -> list byte) names unnamed tensors kept :
  select name_of names unnamed tensors = Ok kept ->
  kept = renamed name_of names tensors /\ NoDup kept.*1 /\
  Forall (fun old => old ∈ name_of <$> tensors) names.*1 /\
  (unnamed = Refuse -> Forall (fun t => is_Some (bt_get (name_of t) names)) tensors).
Proof.
  unfold select. destruct (for_each _ _ tensors) as [[[kept1 taken] sources]|] eqn:Ef; simpl; [|done].
  destruct (for_each _ tt _) as [u|] eqn:En; simpl; [|done]. intros [= <-].
  apply (for_each_inv _ (fun pre (st : list (list byte * T) * list (list byte) * list (list byte)) =>
    let '(kept, taken, sources) := st in
    kept = renamed name_of names pre /\ (forall n, n ∈ taken <-> n ∈ kept.*1) /\ NoDup kept.*1 /\
    (forall n, n ∈ sources <-> n ∈ name_of <$> pre) /\
    (unnamed = Refuse -> Forall (fun t => is_Some (bt_get (name_of t) names)) pre))) in Ef.
  - destruct Ef as (Hk & Ht & Hnd & Hs & Hall). split; [done|]. split; [done|]. split; [|done].
    apply (for_each_inv _ (fun pre _ => Forall (fun old => old ∈ name_of <$> tensors) pre)) in En;
      [done|constructor|].
    intros pre old post t t' _ Hp. case_bool_decide as Hin; [|done]. intros _.
    apply Forall_app. split; [done|]. apply Forall_singleton. by apply Hs.
  - split; [done|]. split; [done|]. split; [constructor|]. split; [done|]. by intros _.
  - clear. intros pre t post [[kept taken] sources] st' _ (-> & Ht & Hnd & Hs & Hall).
    unfold select_step.
    unfold renamed. rewrite omap_app. simpl.
    assert (forall n, n ∈ name_of t :: sources <-> n ∈ name_of <$> pre ++ [t]) as Hs'.
    { intros n. rewrite elem_of_cons, fmap_app, elem_of_app, Hs. simpl. set_solver. }
    destruct (bt_get (name_of t) names) as [new|] eqn:Eg.
    + case_bool_decide as Hin; [done|]. intros [= <-]. simpl.
      split; [done|]. split; [|split; [|split]].
      * intros n. rewrite elem_of_cons, fmap_app, elem_of_app, Ht. simpl. set_solver.
      * rewrite fmap_app. apply NoDup_app. split; [done|]. split; [|apply NoDup_singleton].
        intros n Hn. rewrite <-Ht in Hn. simpl. set_solver.
      * done.
      * intros Hu. apply Forall_app. split; [by apply Hall|]. apply Forall_singleton. eauto.
    + destruct unnamed; [done|]. intros [= <-]. simpl. rewrite app_nil_r. by split_and!.
Qed.

Lemma renamed_elem {T} (name_of : T -> list byte) names tensors nt :
  nt ∈ renamed name_of names tensors -> nt.2 ∈ tensors /\ bt_get (name_of nt.2) names = Some nt.1.
Proof.
  intros (t & Ht & Hn)%list_elem_of_omap. apply fmap_Some in Hn as (new & Hg & ->). done.
Qed.

(** ** Inheriting tensor by tensor *)

Lemma contiguous_bounds size cursor ts t :
  Forall entry_wf ts -> Safetensors.contiguous size cursor ts = true -> t ∈ ts -> te_end t <= size.
Proof.
  intros Hf. revert cursor. induction Hf as [|x ts Hx Hf IH]; intros cursor Hc; [set_solver|].
  apply contiguous_cons in Hc as (_ & Hle & Hc). intros [->|Hin]%elem_of_cons; [done|]. by eapply IH.
Qed.

Section keeping.
Context (O : gmap (list byte) node) (records : list file_record).
Context (Hfit : run_fits records) (Hres : run_resident O records).
Let file := run_bytes O records.

(** A step that appends an inherited part of the file. *)
Definition appends_part {X} (body : list file_record -> X -> result compose_error (list file_record))
    (part : X -> list byte) (x : X) : Prop :=
  forall composed composed', body composed x = Ok composed' ->
  exists start n taken, inherit records start n = Some taken /\ composed' = composed ++ taken /\
    0 <= start /\ 0 <= n /\ start + n <= sum_lengths records /\ part x = slice file start (start + n).

Lemma inherit_each {X} body (part : X -> list byte) xs O1 composed bytes out :
  O ⊆ O1 -> holds_run O1 composed bytes -> Forall (appends_part body part) xs ->
  for_each body composed xs = Ok out -> holds_run O1 out (bytes ++ (xs ≫= part)).
Proof using Hfit Hres.
  intros Hsub Hrun Hin. revert composed bytes Hrun. induction Hin as [|x xs Hx _ IH]; intros composed bytes Hrun.
  { simpl. intros [= <-]. by rewrite app_nil_r. }
  cbn [for_each]. intros Hrest. destruct (body composed x) as [composed'|e] eqn:Eb; [|done].
  destruct (Hx _ _ Eb) as (start & n & taken & Hi & -> & Hs & Hn & Hle & Hpart).
  rewrite bind_cons, app_assoc. eapply IH; [|exact Hrest]. apply holds_run_app; [done|]. rewrite Hpart.
  eapply holds_run_grow; [exact Hsub|]. by apply holds_inherited.
Qed.

(** ** Re-keying and trimming *)

Section composing.
Context `{Sha256, Allocator, HeaderJson, EntrySort, JsonText}.
Context (pool : list byte -> Prop).
Context (Hinj : forall a b, pool a -> pool b -> sha256 a = sha256 b -> a = b).
Abbreviation src := (records_byte_source records).

(** What a trimmed or re-keyed safetensors file holds: a header for the kept
    tensors, then their bytes in the source's order. *)
Definition st_declared (kept : list (list byte * tensor_entry)) : list (list byte * list byte * list Z * Z) :=
  (fun nt => (nt.1, te_dtype nt.2, te_shape nt.2, te_end nt.2 - te_start nt.2)) <$> kept.
Definition st_tensor (l : st_layout) (nt : list byte * tensor_entry) : list byte :=
  slice file (sl_header_end l + te_start nt.2) (sl_header_end l + te_end nt.2).
Definition st_composed (l : st_layout) (kept : list (list byte * tensor_entry)) : list byte :=
  safetensors_header (st_declared kept) ++ (kept ≫= st_tensor l).

Lemma st_appends l nt :
  st_layout_wf (zlen file) l -> nt.2 ∈ sl_tensors l ->
  appends_part (fun composed (nt : list byte * tensor_entry) =>
    let? inherited := inherit_or (te_name nt.2) records
      (wadd (sl_header_end l) (te_start nt.2)) (wsub (te_end nt.2) (te_start nt.2)) in
    Ok (composed ++ inherited)) (st_tensor l) nt.
Proof using Hfit.
  intros [Hh Hc Hf _] Hin composed composed' Hb. pose proof Hf as Hf'. rewrite Forall_forall in Hf'.
  destruct (ew_range _ (Hf' _ Hin)) as [Hr Hu]. pose proof (contiguous_bounds _ _ _ _ Hf Hc Hin) as Hle.
  pose proof (zlen_file O records Hfit) as [Hz Hlt]. fold file in Hz, Hlt.
  rewrite wadd_small, wsub_small in Hb by lia. unfold inherit_or in Hb.
  destruct (inherit _ _ _) as [taken|] eqn:Ei; simpl in Hb; [|done]. injection Hb as <-.
  exists (sl_header_end l + te_start nt.2), (te_end nt.2 - te_start nt.2), taken.
  split; [done|]. split; [done|]. split; [lia|]. split; [lia|]. split; [lia|].
  unfold st_tensor. f_equal. lia.
Qed.

Lemma st_declared_eq l kept :
  st_layout_wf (zlen file) l -> Forall (fun nt => nt.2 ∈ sl_tensors l) kept ->
  ((fun nt : list byte * tensor_entry =>
      (nt.1, te_dtype nt.2, te_shape nt.2, wsub (te_end nt.2) (te_start nt.2))) <$> kept) = st_declared kept.
Proof.
  intros [_ _ Hf _] Hk. unfold st_declared. rewrite Forall_forall in Hf. apply list_fmap_ext. intros k nt Hnt.
  rewrite Forall_forall in Hk. destruct (ew_range _ (Hf _ (Hk nt (list_elem_of_lookup_2 _ _ _ Hnt)))) as [Hr Hu].
  by rewrite wsub_small by lia.
Qed.

(** New regions whose pieces are in the pool. *)
Definition admissible (bytes : list byte) : Prop :=
  Forall pool (chunks MAX_OBJECT_SIZE bytes) /\ zlen bytes < U64.

Lemma t_select {T} (name_of : T -> list byte) names unnamed tensors :
  triple (on_objects (grown pool O)) (lift (select name_of names unnamed tensors))
    (fun kept d => on_objects (grown pool O) d /\
      (kept = renamed name_of names tensors /\ select name_of names unnamed tensors = Ok kept))
    (fun _ => on_objects (grown pool O)).
Proof.
  apply t_lift. intros d Hd. destruct (select _ _ _ _) as [kept|e] eqn:Es; [|done].
  by destruct (select_Ok _ _ _ _ _ Es) as (-> & _).
Qed.

Lemma renamed_in {T} (name_of : T -> list byte) names tensors :
  Forall (fun nt => nt.2 ∈ tensors) (renamed name_of names tensors).
Proof. apply Forall_forall. by intros nt [? _]%renamed_elem. Qed.

Lemma t_st_compose_layout names unnamed l :
  let kept := renamed te_name names (sl_tensors l) in
  st_layout_wf (zlen file) l -> admissible (safetensors_header (st_declared kept)) ->
  triple (on_objects (grown pool O)) (st_compose_layout records names unnamed l)
    (fun composed => on_objects (fun O1 => (grown pool O O1 /\ holds_run O1 composed (st_composed l kept)) /\
      select te_name names unnamed (sl_tensors l) = Ok kept))
    (fun _ => on_objects (grown pool O)).
Proof using Hfit Hres Hinj.
  intros kept Hl [Hpool Hlen]. unfold st_compose_layout.
  eapply t_bind; [apply t_select|]. intros kept'. apply t_pure_r. intros [-> Hsel]. fold kept in Hsel |- *.
  eapply t_bind; [apply f_lift|]. intros u. cbn beta. clear u.
  pose proof (renamed_in te_name names (sl_tensors l)) as Hin. fold kept in Hin.
  rewrite (st_declared_eq l kept Hl Hin).
  eapply t_bind.
  { eapply t_conseq; [apply (t_admit_bytes pool Hinj O (safetensors_header (st_declared kept)) (fun _ => True)); done| | |].
    - intros d Hd. split; [exact Hd|exact I].
    - intros a d Hd. exact Hd.
    - intros e d Hd. exact Hd. }
  intros composed. apply t_lift. intros d [[Hg _] Hh]. destruct (for_each _ _ _) as [out|e] eqn:Ef; [|exact Hg].
  split; [|exact Hsel]. split; [exact Hg|]. eapply inherit_each; [apply Hg|exact Hh| |exact Ef].
  eapply Forall_impl; [exact Hin|]. intros nt Hnt. by apply st_appends.
Qed.

(** *** GGUF *)

(** A rewritten directory: each row states where its tensor's bytes will lie. *)
Definition gguf_row (name : list byte) (t : tensor_info) (offset : Z) : list byte :=
  u64_bytes (zlen name) ++ name ++ u32_bytes (ti_dimension_count t)
  ++ (take (Z.to_nat (ti_dimension_count t)) (ti_dimensions t) ≫= u64_bytes)
  ++ u32_bytes (ti_ggml_type t) ++ u64_bytes offset.
Fixpoint gguf_rows (alignment offset : Z) (kept : list (list byte * tensor_info)) : list byte :=
  match kept with
  | [] => []
  | (name, t) :: kept =>
      gguf_row name t offset ++ gguf_rows alignment (offset + padded_length alignment (Gguf.ti_length t)) kept
  end.
Definition gguf_metadata (l : gguf_layout) (count : Z) : list byte :=
  let metadata := slice file 0 (gl_directory_start l) in
  if count =? zlen (gl_tensors l) then metadata
  else take 8 metadata ++ u64_bytes count ++ drop 16 metadata.
Definition gguf_gap (l : gguf_layout) (kept : list (list byte * tensor_info)) : list byte :=
  let directory_end := gl_directory_start l + zlen (gguf_rows (gl_alignment l) 0 kept) in
  if bool_decide (kept = []) then []
  else replicate (Z.to_nat (padded_length (gl_alignment l) directory_end - directory_end)) (byte_of 0).
Definition gguf_tensor (l : gguf_layout) (nt : list byte * tensor_info) : list byte :=
  let start := gl_data_start l + ti_offset nt.2 in
  slice file start (start + padded_length (gl_alignment l) (Gguf.ti_length nt.2)).
Definition gguf_composed (l : gguf_layout) (kept : list (list byte * tensor_info)) : list byte :=
  (gguf_metadata l (zlen kept) ++ gguf_rows (gl_alignment l) 0 kept ++ gguf_gap l kept)
  ++ (kept ≫= gguf_tensor l).

(** The padded lengths of the kept tensors. *)
Definition kept_size (alignment : Z) (kept : list (list byte * tensor_info)) : Z :=
  sumZ ((fun nt => padded_length alignment (Gguf.ti_length nt.2)) <$> kept).

Lemma kept_size_cons alignment nt kept :
  kept_size alignment (nt :: kept) = padded_length alignment (Gguf.ti_length nt.2) + kept_size alignment kept.
Proof. reflexivity. Qed.

Lemma renamed_cons {T} (name_of : T -> list byte) names t tensors :
  renamed name_of names (t :: tensors) =
    match bt_get (name_of t) names with
    | Some new => (new, t) :: renamed name_of names tensors
    | None => renamed name_of names tensors
    end.
Proof. unfold renamed. simpl. by destruct (bt_get (name_of t) names). Qed.

Lemma renamed_size alignment offset names ts total :
  0 < alignment -> Forall tensor_wf ts -> packed alignment offset ts total ->
  0 <= kept_size alignment (renamed ti_name names ts) <= total - offset.
Proof.
  intros Ha Hf. revert offset. induction Hf as [|t ts Ht Hf IH]; intros offset; cbn [packed].
  { intros ->. rewrite Z.sub_diag. done. }
  intros [_ Hp%IH]. pose proof (tw_range _ Ht). pose proof (div_ceil_spec (Gguf.ti_length t) alignment Ha).
  assert (0 <= padded_length alignment (Gguf.ti_length t)) by (unfold padded_length; lia).
  rewrite renamed_cons. destruct (bt_get (ti_name t) names); rewrite ?kept_size_cons; cbn [snd]; lia.
Qed.

Lemma directory_rows k offset kept (directory directory' : list byte) (offset' : Z) :
  3 <= k < 32 -> 0 <= offset -> Forall (fun nt => tensor_wf nt.2) kept ->
  offset + kept_size (2 ^ k) kept < U64 ->
  for_each (directory_row (2 ^ k)) (directory, offset) kept = Ok (directory', offset') ->
  directory' = directory ++ gguf_rows (2 ^ k) offset kept.
Proof.
  intros Hk Ho Hf. revert directory offset Ho. induction Hf as [|[name t] kept Ht Hf IH]; intros directory offset Ho.
  { simpl. intros _ [= -> _]. by rewrite app_nil_r. }
  rewrite kept_size_cons. cbn [snd for_each directory_row gguf_rows] in *. intros Hlt.
  pose proof (tw_range _ Ht) as Hr. pose proof (div_ceil_spec (Gguf.ti_length t) (2 ^ k) ltac:(lia)) as Hc.
  assert (0 <= kept_size (2 ^ k) kept) as Hs.
  { apply sumZ_nonneg, Forall_fmap. eapply Forall_impl; [exact Hf|]. intros [n x] Hx. simpl in *.
    pose proof (tw_range _ Hx). pose proof (div_ceil_spec (Gguf.ti_length x) (2 ^ k) ltac:(lia)). unfold padded_length. lia. }
  destruct (align_up _ _) as [padded|] eqn:Ea; [|done].
  apply align_up_Some in Ea as (Hp & _); [|lia..]. fold (padded_length (2 ^ k) (Gguf.ti_length t)) in Hp. subst padded.
  unfold padded_length in Hlt at 1. rewrite wadd_small by (unfold padded_length in *; lia).
  intros Hrest. apply IH in Hrest; [|unfold padded_length; lia|unfold padded_length at 1; lia].
  rewrite Hrest. unfold gguf_row. by rewrite <-!app_assoc.
Qed.

Lemma layout_sizes l :
  layout_wf (zlen file) l ->
  exists k, 3 <= k < 32 /\ gl_alignment l = 2 ^ k /\ 24 <= gl_directory_start l <= zlen file /\ zlen file < U64 /\
  (forall nt : list byte * tensor_info, nt.2 ∈ gl_tensors l ->
    0 <= gl_data_start l + ti_offset nt.2 /\
    gl_data_start l + ti_offset nt.2 + padded_length (2 ^ k) (Gguf.ti_length nt.2) <= zlen file) /\
  forall names, 0 <= kept_size (2 ^ k) (renamed ti_name names (gl_tensors l)) <= zlen file.
Proof using Hfit.
  intros [(k & Hk & Hal) Hord (total & Hp & Hend) Hts _]. exists k. rewrite Hal in Hp.
  destruct (zlen_file O records Hfit) as [_ Hlt]. fold file in Hlt.
  assert (0 <= total) by (eapply packed_le; [|exact Hts|exact Hp]; lia).
  split; [done|]. split; [done|]. split; [lia|]. split; [done|]. split.
  - intros nt Hnt. destruct (packed_offset (2 ^ k) 0 _ _ _ ltac:(lia) Hts Hp Hnt). lia.
  - intros names. pose proof (renamed_size (2 ^ k) 0 names _ _ ltac:(lia) Hts Hp). lia.
Qed.

Lemma gguf_appends l nt :
  layout_wf (zlen file) l -> nt.2 ∈ gl_tensors l ->
  appends_part (fun composed (nt : list byte * tensor_info) =>
    let start := wadd (gl_data_start l) (ti_offset nt.2) in
    let! padded := align_up (Gguf.ti_length nt.2) (gl_alignment l) ?: CO_HeaderTooLarge in
    let? inherited := inherit_or (ti_name nt.2) records start padded in
    Ok (composed ++ inherited)) (gguf_tensor l) nt.
Proof using Hfit.
  intros Hl Hin composed composed' Hb. destruct (layout_sizes l Hl) as (k & Hk & Hal & _ & Hlt & Hts & _).
  destruct (Hts _ Hin) as [Hlo Hhi]. pose proof (lw_tensors _ _ Hl) as Hwf. rewrite Forall_forall in Hwf.
  destruct (tw_range _ (Hwf _ Hin)) as [Hn _]. cbv zeta in Hb. rewrite Hal in Hb.
  pose proof (div_ceil_spec (Gguf.ti_length nt.2) (2 ^ k) ltac:(lia)) as Hc.
  destruct (align_up _ _) as [padded|] eqn:Ea; [|done].
  apply align_up_Some in Ea as (Hp & Hle & _); [|lia..]. fold (padded_length (2 ^ k) (Gguf.ti_length nt.2)) in Hp.
  destruct (zlen_file O records Hfit) as [Hz _]. fold file in Hz.
  rewrite wadd_small in Hb by (pose proof (lw_order _ _ Hl); lia). unfold inherit_or in Hb.
  destruct (inherit _ _ _) as [taken|] eqn:Ei; simpl in Hb; [|done]. injection Hb as <-.
  eexists _, padded, taken. split; [done|]. split; [done|]. split; [lia|]. split; [lia|]. split; [lia|].
  unfold gguf_tensor. by rewrite Hal, <-Hp.
Qed.

(** New regions, one after another. *)
Lemma t_admit_more (bytes before : list byte) (rs : list file_record) :
  admissible bytes ->
  triple (on_objects (fun O1 => grown pool O O1 /\ holds_run O1 rs before)) (admit_bytes bytes)
    (fun new => on_objects (fun O1 => grown pool O O1 /\ holds_run O1 (rs ++ new) (before ++ bytes)))
    (fun _ => on_objects (grown pool O)).
Proof using Hinj.
  intros [Hp Hl]. eapply t_conseq; [apply (t_admit_bytes pool Hinj O bytes (fun O1 => holds_run O1 rs before)); [|done..]| | |].
  - intros O1 O2 Hs Hh. by eapply holds_run_grow.
  - intros d Hd. exact Hd.
  - intros new d [[Hg Hh] Hn]. split; [exact Hg|]. by apply holds_run_app.
  - intros e d Hd. exact Hd.
Qed.

Lemma t_compose_metadata l count :
  layout_wf (zlen file) l -> (count <> zlen (gl_tensors l) -> admissible (gguf_metadata l count)) ->
  triple (on_objects (grown pool O)) (compose_metadata records l count)
    (fun rs => on_objects (fun O1 => grown pool O O1 /\ holds_run O1 rs (gguf_metadata l count)))
    (fun _ => on_objects (grown pool O)).
Proof using Hfit Hres Hinj.
  intros Hl Hadm. destruct (layout_sizes l Hl) as (k & _ & _ & Hstart & _ & _).
  destruct (zlen_file O records Hfit) as [Hz _]. fold file in Hz.
  unfold compose_metadata, gguf_metadata in *. destruct (Z.eqb_spec count (zlen (gl_tensors l))) as [He|Hne].
  - apply t_lift. intros d Hd. unfold inherit_or. destruct (inherit _ _ _) as [taken|] eqn:Ei; simpl; [|exact Hd].
    split; [exact Hd|]. eapply holds_run_grow; [apply Hd|].
    apply (holds_inherited O records 0 (gl_directory_start l)); (done || lia).
  - specialize (Hadm Hne). eapply t_bind with (Q' := fun bytes d => on_objects (grown pool O) d /\
      bytes = slice file 0 (gl_directory_start l)).
    + intros d Hd. unfold map_err_m.
      pose proof (t_records_read (objects d) records 0 (gl_directory_start l) Hfit ltac:(lia) ltac:(lia) d eq_refl) as Hr.
      destruct (records_read _ _ _ d) as [[bytes|e] d']; simpl.
      * destruct Hr as [Hd' [_ Hb]%get_range_Some]. unfold on_objects. rewrite Hd'. split; [exact Hd|].
        by rewrite (file_now _ _ _ Hres _ Hd) in Hb.
      * unfold on_objects. by rewrite Hr.
    + intros bytes. apply t_pure_r. intros ->. destruct (_ <? 16); [by apply t_fail|].
      eapply t_conseq; [apply (t_admit_more _ [] []), Hadm| | |].
      * intros d Hd. split; [exact Hd|apply holds_run_nil].
      * intros rs d Hd. exact Hd.
      * intros e d Hd. exact Hd.
Qed.

(** The regions a GGUF composition writes anew. *)
Definition gguf_admissible (l : gguf_layout) (kept : list (list byte * tensor_info)) : Prop :=
  (zlen kept <> zlen (gl_tensors l) -> admissible (gguf_metadata l (zlen kept))) /\
  admissible (gguf_rows (gl_alignment l) 0 kept) /\ admissible (gguf_gap l kept).

(** Where the data of the composed file starts. *)
Lemma gguf_gap_eq l kept k data_start :
  let directory_end := gl_directory_start l + zlen (gguf_rows (gl_alignment l) 0 kept) in
  0 <= gl_directory_start l -> 3 <= k < 32 -> gl_alignment l = 2 ^ k ->
  (if bool_decide (kept = []) then Ok directory_end
   else let! s := align_up directory_end (gl_alignment l) ?: CO_HeaderTooLarge in Ok s) = Ok data_start ->
  gguf_gap l kept =
    if directory_end <? data_start then replicate (Z.to_nat (data_start - directory_end)) (byte_of 0) else [].
Proof.
  intros directory_end Hd Hk Hal. unfold gguf_gap. fold directory_end. case_bool_decide as Hne.
  { intros [= <-]. by rewrite Z.ltb_irrefl. }
  rewrite Hal. destruct (align_up _ _) as [padded|] eqn:Ea; simpl; [|done]. intros [= <-].
  assert (0 <= directory_end) as Hnn by (unfold directory_end; pose proof (zlen_nonneg (gguf_rows (gl_alignment l) 0 kept)); lia).
  apply align_up_Some in Ea as (-> & Hle & _); [|lia..]. fold (padded_length (2 ^ k) directory_end).
  destruct (Z.ltb_spec directory_end (padded_length (2 ^ k) directory_end)); [done|].
  by replace (_ - _) with 0 by (unfold padded_length in *; lia).
Qed.

Lemma t_gguf_compose_layout names unnamed l :
  let kept := renamed ti_name names (gl_tensors l) in
  layout_wf (zlen file) l -> gguf_admissible l kept ->
  triple (on_objects (grown pool O)) (gguf_compose_layout records names unnamed l)
    (fun composed => on_objects (fun O1 => (grown pool O O1 /\ holds_run O1 composed (gguf_composed l kept)) /\
      select ti_name names unnamed (gl_tensors l) = Ok kept))
    (fun _ => on_objects (grown pool O)).
Proof using Hfit Hres Hinj.
  intros kept Hl (Ham & Har & Hag). unfold gguf_compose_layout.
  destruct (layout_sizes l Hl) as (k & Hk & Hal & Hstart & Hlt & _ & Hsize).
  pose proof (renamed_in ti_name names (gl_tensors l)) as Hin. fold kept in Hin.
  pose proof (lw_tensors _ _ Hl) as Hts. rewrite Forall_forall in Hts.
  eapply t_bind; [apply t_select|]. intros kept'. apply t_pure_r. intros [-> Hsel]. fold kept in Hsel |- *.
  eapply t_bind; [apply f_lift|]. intros u. cbn beta. clear u.
  eapply t_bind; [by apply t_compose_metadata|]. intros metadata.
  eapply t_bind with (Q' := fun st d => on_objects (fun O1 => grown pool O O1 /\
    holds_run O1 metadata (gguf_metadata l (zlen kept))) d /\ st.1 = gguf_rows (gl_alignment l) 0 kept).
  { apply t_lift. intros d Hd. destruct (for_each _ _ _) as [[directory offset]|e] eqn:Ef; [|apply Hd].
    split; [exact Hd|]. rewrite Hal in *. apply directory_rows in Ef; [done|done|done| |].
    - eapply Forall_impl; [exact Hin|]. intros nt Hnt. by apply Hts.
    - specialize (Hsize names). fold kept in Hsize. lia. }
  intros [directory offset]. cbn [fst]. apply t_pure_r. intros ->.
  set (rows := gguf_rows (gl_alignment l) 0 kept) in *.
  eapply t_bind with (Q' := fun e d => on_objects (fun O1 => grown pool O O1 /\
    holds_run O1 metadata (gguf_metadata l (zlen kept))) d /\ e = gl_directory_start l + zlen rows).
  { apply t_lift. intros d Hd. destruct (checked_add _ _) as [e|] eqn:Ec; simpl; [|apply Hd].
    by apply checked_add_Some in Ec as [-> _]. }
  intros e. apply t_pure_r. intros ->.
  eapply t_bind with (Q' := fun data_start d => on_objects (fun O1 => grown pool O O1 /\
    holds_run O1 metadata (gguf_metadata l (zlen kept))) d /\ gguf_gap l kept =
      if gl_directory_start l + zlen rows <? data_start
      then replicate (Z.to_nat (data_start - (gl_directory_start l + zlen rows))) (byte_of 0) else []).
  { apply t_lift. intros d Hd.
    match goal with |- match ?r with _ => _ end => destruct r as [data_start|e] eqn:Ed end; [|apply Hd].
    split; [exact Hd|]. eapply (gguf_gap_eq l kept k); [lia|done..]. }
  intros data_start. apply t_pure_r. intros Hgap.
  eapply t_bind; [by apply t_admit_more|]. intros written.
  eapply t_bind with (Q' := fun padding => on_objects (fun O1 => grown pool O O1 /\
    holds_run O1 ((metadata ++ written) ++ padding) ((gguf_metadata l (zlen kept) ++ rows) ++ gguf_gap l kept))).
  { rewrite Hgap in *. destruct (_ <? _); [by apply t_admit_more|]. apply t_ret. intros d Hd. by rewrite !app_nil_r. }
  intros padding. apply t_lift. intros d [Hg Hh]. destruct (for_each _ _ _) as [out|e] eqn:Ef; [|exact Hg].
  split; [|exact Hsel]. split; [exact Hg|]. unfold gguf_composed. fold rows. rewrite <-!app_assoc in Hh.
  eapply inherit_each; [apply Hg|exact Hh| |exact Ef].
  eapply Forall_impl; [exact Hin|]. intros nt Hnt. by apply gguf_appends.
Qed.

(** ** The whole operation *)

(** The bytes a composition is to hold, by the layout the source reads as, and
    the condition on the regions it writes anew. *)
Definition composed_file (format : tensor_format) (names : btree (list byte)) (unnamed : unnamed_policy)
    (d : disk) : option (list byte) :=
  match format with
  | TF_SafetensorsV1 =>
      match (st_read_layout (H := src) d).1 with
      | Ok (Some l) =>
          match select te_name names unnamed (sl_tensors l) with
          | Ok kept => Some (st_composed l kept)
          | Err _ => None
          end
      | _ => None
      end
  | TF_GgufV1 =>
      match (gguf_read_layout (H := src) d).1 with
      | Ok (Some l) =>
          match select ti_name names unnamed (gl_tensors l) with
          | Ok kept => Some (gguf_composed l kept)
          | Err _ => None
          end
      | _ => None
      end
  end.
Definition composable (format : tensor_format) (names : btree (list byte)) (d : disk) : Prop :=
  match format with
  | TF_SafetensorsV1 => forall l, (st_read_layout (H := src) d).1 = Ok (Some l) ->
      admissible (safetensors_header (st_declared (renamed te_name names (sl_tensors l))))
  | TF_GgufV1 => forall l, (gguf_read_layout (H := src) d).1 = Ok (Some l) ->
      gguf_admissible l (renamed ti_name names (gl_tensors l))
  end.

Lemma f_reads offset n : framed (on_objects (grown pool O)) (read_exact_at (ByteSource := src) offset n).
Proof. apply f_records_read. apply _. Qed.

Lemma zlen_in_u64 : in_u64 (zlen file).
Proof using Hfit. destruct (zlen_file O records Hfit) as [_ Hlt]. split; [apply zlen_nonneg|exact Hlt]. Qed.

Lemma compose_body_keeps format contract n names unnamed d :
  on_objects (grown pool O) d -> composable format names d ->
  match compose_body (Tensor format contract n records) names unnamed d with
  | (Ok body, d') => grown pool O (objects d') /\
      exists composed bytes, body = Tensor format contract (records_sum composed) composed /\
        composed_file format names unnamed d = Some bytes /\ holds_run (objects d') composed bytes
  | (Err _, d') => grown pool O (objects d')
  end.
Proof using Hfit Hres Hinj.
  intros Hd Hc. unfold compose_body, bind, composed_file. destruct format.
  - unfold compose_safetensors, bind, map_err_m.
    pose proof (f_st_read_layout (H := src) (on_objects (grown pool O)) f_reads d Hd) as Hf.
    pose proof (t_read_layout (H := src) (zlen file) zlen_in_u64 d (src_len_file O records Hfit d)) as Hwf.
    simpl in Hc. destruct (st_read_layout d) as [[[l|]|e] d1]; [|exact Hf..]. destruct Hwf as [Hwf _].
    pose proof (t_st_compose_layout names unnamed l (Hwf l eq_refl) (Hc l eq_refl) d1 Hf) as Ht.
    cbn [map_err fst]. destruct (st_compose_layout _ _ _ _ d1) as [[composed|e] d']; [|exact Ht]. destruct Ht as [[Hg Hh] Hs].
    split; [exact Hg|]. simpl. rewrite Hs. by eexists _, _.
  - unfold compose_gguf, bind, map_err_m.
    pose proof (f_gguf_read_layout (H := src) (on_objects (grown pool O)) f_reads d Hd) as Hf.
    assert (forall l, (gguf_read_layout (H := src) d).1 = Ok (Some l) -> layout_wf (zlen file) l) as Hwf.
    { intros l. unfold gguf_read_layout.
      pose proof (t_parse (H := src) (zlen file) d (src_len_file O records Hfit d) zlen_in_u64) as [_ Hp].
      destruct (parse d) as [[l'|e] d'']; simpl in *; [by intros [= <-]|by destruct e]. }
    simpl in Hc. destruct (gguf_read_layout d) as [[[l|]|e] d1]; [|exact Hf..].
    pose proof (t_gguf_compose_layout names unnamed l (Hwf l eq_refl) (Hc l eq_refl) d1 Hf) as Ht.
    cbn [map_err fst]. destruct (gguf_compose_layout _ _ _ _ d1) as [[composed|e] d']; [|exact Ht]. destruct Ht as [[Hg Hh] Hs].
    split; [exact Hg|]. simpl. rewrite Hs. by eexists _, _.
Qed.
End composing.
End keeping.
