(* ===== verification/AdoptFacts.v ===== *)
(** What adopting a contract and deriving another layout keep
    ([adopt] and [derive] of [src/crates/tensorfs-core/src/compose.rs]): a re-cut
    file denotes the same bytes, and a derived one a header and then, tensor by
    tensor, the source runs its contract names, moved where the layout says. *)
From S2P Require Import MorphismMove.
From S2P Require Export RecordsSource ComposeFacts.
From S2P Require Import PermuteKernel Adapter.

(** ** Committed boundaries, holes included *)

Lemma positioned_ranges_elem (rs : list file_record) (start n : Z) (digest : list byte) :
  run_fits rs -> (start, n, digest) ∈ positioned_ranges rs ->
  exists pre post, rs = pre ++ Data digest n :: post /\ start = sum_lengths pre.
Proof.
  intros [Hf Hlt] Hin. unfold positioned_ranges in Hin.
  set (step := fun '(acc, position) r =>
     (match r with Data digest length => acc ++ [(position, length, digest)] | Hole _ => acc end,
      wadd position (record_length r)) : list (Z * Z * list byte) * Z) in Hin.
  assert (forall post pre acc, rs = pre ++ post ->
    (forall x, x ∈ acc -> exists p q, rs = p ++ Data x.2 x.1.2 :: q /\ x.1.1 = sum_lengths p) ->
    forall x, x ∈ (foldl step (acc, sum_lengths pre) post).1 ->
    exists p q, rs = p ++ Data x.2 x.1.2 :: q /\ x.1.1 = sum_lengths p) as Hloop.
  { induction post as [|r post IH]; intros pre acc Hrs Hacc x; [apply Hacc|]. simpl.
    pose proof Hf as Hf'. rewrite Hrs, Forall_app, Forall_cons in Hf'. destruct Hf' as (Hp & Hr & Hq).
    assert (sum_lengths rs = sum_lengths pre + record_length r + sum_lengths post) as Hsum.
    { rewrite Hrs, sum_lengths_app. simpl. lia. }
    pose proof (sum_lengths_pos _ Hp). pose proof (sum_lengths_pos _ Hq).
    rewrite wadd_small by lia. rewrite <-sum_lengths_snoc.
    apply IH; [by rewrite <-app_assoc|]. destruct r as [dg m|m]; [|exact Hacc].
    intros y [Hy|Hy]%elem_of_app; [by apply Hacc|].
    apply list_elem_of_singleton in Hy as ->. simpl. by exists pre, post. }
  destruct (Hloop rs [] [] eq_refl ltac:(set_solver) (start, n, digest) Hin) as (p & q & Hrs & Hs).
  simpl in *. eauto.
Qed.

Section adopting.
Context `{Sha256, Allocator}.
Context (pool : list byte -> Prop).
Context (Hinj : forall a b, pool a -> pool b -> sha256 a = sha256 b -> a = b).
Context (O : gmap (list byte) node) (records : list file_record).
Context (Hfit : run_fits records) (Hres : run_resident O records).
Let file := run_bytes O records.

(** A record of the run, at its position, is that range of the file. *)
Lemma holds_positioned O1 (r : region) (digest : list byte) :
  O ⊆ O1 -> by_range (positioned_ranges records) r = Some digest ->
  holds_run O1 [Data digest (r_length r)] (region_bytes file r).
Proof using Hfit Hres.
  intros Hsub Hb. unfold by_range in Hb. apply fmap_Some in Hb as ([[start n] dg] & Hlast & ->).
  apply last_Some_elem_of in Hlast. apply list_elem_of_filter in Hlast as [Hm Hin].
  unfold range_matches in Hm. apply andb_true_iff in Hm as [Hs%Z.eqb_eq Hn%Z.eqb_eq]. subst start n. simpl.
  apply positioned_ranges_elem in Hin as (pre & post & Hrs & Hpos); [|done].
  pose proof Hfit as [Hf Hlt]. pose proof Hf as Hf'. rewrite Hrs, Forall_app, Forall_cons in Hf'.
  destruct Hf' as (Hp & Hr & Hq). eapply holds_run_grow; [exact Hsub|].
  assert (region_bytes file r = record_bytes O (Data dg (r_length r))) as ->.
  { unfold region_bytes, file. rewrite Hrs, Hpos. unfold run_bytes. rewrite bind_app, bind_cons.
    fold (run_bytes O pre). fold (run_bytes O post).
    pose proof (slice_middle (run_bytes O pre) (record_bytes O (Data dg (r_length r))) (run_bytes O post)) as Hm.
    by rewrite zlen_run_bytes, zlen_record_bytes in Hm by done. }
  constructor.
  - unfold run_bytes. by rewrite bind_singleton.
  - unfold run_resident in Hres. rewrite Hrs, Forall_app, Forall_cons in Hres.
    apply Forall_singleton, Hres.
  - by apply Forall_singleton.
  - rewrite zlen_record_bytes by done. simpl. lia.
Qed.

(** The last loop of [adopt]: committed ranges keep their digests, the others
    take the fresh ones in order. *)
Lemma adopt_records_hold O1 (regions : list region) (admitted : list admitted_object) (new : list file_record) :
  O ⊆ O1 ->
  Forall2 (admitted_for O records O1)
    (filter (fun r => by_range (positioned_ranges records) r = None) regions) admitted ->
  adopt_records (positioned_ranges records) (ao_digest <$> admitted) regions = Some new ->
  holds_run O1 new (mjoin (region_bytes file <$> regions)).
Proof using Hfit Hres.
  intros Hsub. revert admitted new. induction regions as [|r regions IH]; intros admitted new Hadm.
  { intros [= <-]. apply holds_run_nil. }
  cbn [adopt_records]. rewrite fmap_cons. change (mjoin (?x :: ?l)) with (x ++ mjoin l).
  rewrite filter_cons in Hadm. destruct (by_range _ r) as [digest|] eqn:Eb.
  - rewrite decide_False in Hadm by done. destruct (adopt_records _ _ _) as [rest|] eqn:Er; [|done]. intros [= <-].
    apply (holds_run_app _ [_]); [by apply holds_positioned|]. by eapply IH.
  - rewrite decide_True in Hadm by done. destruct admitted as [|a admitted]; [by apply Forall2_cons_nil_inv in Hadm|].
    apply Forall2_cons in Hadm as [[Hh Hl] Hadm]. cbn [fmap list_fmap].
    destruct (adopt_records _ _ regions) as [rest|] eqn:Er; [|done]. intros [= <-].
    apply (holds_run_app _ [_]); [|by eapply IH]. rewrite <-Hl. by apply holds_admitted.
Qed.

Context (Hslices : forall i j, pool (slice file i j)).
Context `{HeaderJson, EntrySort}.
Context (concurrency : Z) (schedule : list region -> list nat).
Context (Hsched : forall regions, schedule regions ≡ₚ seq 0 (length regions)).

Lemma t_adopt_contract format old n contract :
  triple (on_objects (grown pool O)) (adopt concurrency schedule (Tensor format old n records) contract)
    (fun body => on_objects (fun O1 => grown pool O O1 /\
      exists c composed, body = Tensor format c (zlen file) composed /\ holds_run O1 composed file))
    (fun _ => on_objects (grown pool O)).
Proof using Hinj Hfit Hres Hslices Hsched.
  unfold adopt. eapply t_bind.
  { intros d Hd.
    pose proof (t_plan_file pool O records Hfit contract d Hd) as Hp.
    unfold map_err_m in *. destruct (plan_with contract d) as [[p|e] d']; exact Hp. }
  intros p. apply t_pure_r. intros ([Hcount _ Htiles] & Hsz & _). rewrite Hsz in Htiles.
  destruct (negb _); [by apply t_fail|].
  assert (plan_cap p < U64) as Hcap by (unfold plan_cap; by case_bool_decide).
  destruct (tiles_ranged _ _ _ _ Htiles) as (Hr & _ & _); [lia|done|].
  set (pending := filter _ _). assert (Forall ranged pending) as Hpr.
  { rewrite Forall_forall in Hr. apply Forall_forall. intros r [_ Hin]%list_elem_of_filter. by apply Hr. }
  eapply t_bind.
  { intros d Hd. unfold map_err_m.
    pose proof (t_admit_regions pool Hinj O records Hfit Hres Hslices concurrency (schedule pending) pending Hpr
      (Hsched _) d Hd) as Ha.
    destruct (admit_regions _ _ _ d) as [[a|e] d']; exact Ha. }
  intros admitted. cbn beta. destruct (adopt_records _ _ _) as [composed|] eqn:En.
  - apply t_ret. intros d [Hg Hadm]. split; [exact Hg|]. eexists _, composed.
    assert (holds_run (objects d) composed file) as Hh.
    { pose proof (adopt_records_hold (objects d) (p_regions p) admitted composed (gr_sub _ _ _ Hg) Hadm En) as Hh.
      rewrite (tiles_join _ _ _ _ _ Htiles) in Hh by (fold file; lia). by rewrite slice_all in Hh. }
    split; [|exact Hh]. destruct (zlen_file O records Hfit) as [_ Hlt]. fold file in Hlt.
    rewrite (records_sum_eq composed), (hr_sum _ _ _ Hh); [done|]. by eapply holds_run_fits.
  - apply t_fail. by intros d [].
Qed.
End adopting.

(** ** Deriving *)

(** A tensor of the file, and a run of one. *)
Definition tensor_inside (n : Z) (t : inventory_tensor) : Prop :=
  tensor_fits t /\ it_offset t + it_length t <= n.
Definition run_inside (n : Z) (r : source_run_t) : Prop :=
  0 <= sr_offset r /\ 0 <= sr_length r /\ sr_offset r + sr_length r <= n.

Lemma st_inventory_inside n l :
  in_u64 n -> st_layout_wf n l -> Forall (tensor_inside n) (inv_tensors (st_inventory l)).
Proof.
  intros Hn [Hh Hc Hf _]. unfold in_u64 in Hn. simpl. apply Forall_fmap, Forall_forall. intros t Ht. simpl.
  pose proof (contiguous_bounds _ _ _ _ Hf Hc Ht) as Hle. rewrite Forall_forall in Hf.
  destruct (Hf _ Ht) as [[Hr Hu] _ Hs]. unfold tensor_inside, tensor_fits. simpl.
  rewrite wadd_small, wsub_small by lia. split_and!; (done || lia).
Qed.

Lemma gguf_inventory_inside n l :
  in_u64 n -> layout_wf n l -> Forall (tensor_inside n) (inv_tensors (gguf_inventory l)).
Proof.
  intros Hn [(k & Hk & Hal) Hord (total & Hp & Hend) Hts _]. unfold in_u64 in Hn. rewrite Hal in Hp.
  simpl. apply Forall_fmap, Forall_forall. intros t Ht. simpl.
  destruct (packed_offset (2 ^ k) 0 _ _ _ ltac:(lia) Hts Hp Ht) as [Hlo Hhi].
  rewrite Forall_forall in Hts. pose proof (Hts _ Ht) as [_ (_ & _ & Hd) _ Hr].
  pose proof (div_ceil_spec (Gguf.ti_length t) (2 ^ k) ltac:(lia)) as Hc. unfold padded_length in Hhi.
  unfold tensor_inside, tensor_fits. simpl. rewrite wadd_small by lia. split_and!; try lia.
  unfold logical_shape. apply Forall_rev, Forall_take. eapply Forall_impl; [exact Hd|]. intros x Hx.
  unfold in_u64, I64_MAX, U64 in *. lia.
Qed.

Lemma lay_runs_inside tensor p base offset parts stop r :
  Forall (fun part => 0 <= fr_length part) parts -> 0 <= offset ->
  offset + sumZ (fr_length <$> parts) <= stop -> r ∈ lay_runs tensor p base offset parts -> run_inside stop r.
Proof.
  intros Hp. revert offset. induction Hp as [|part parts Hl Hp IH]; intros offset Ho Hle; simpl; [set_solver|].
  assert (0 <= sumZ (fr_length <$> parts)) as Hnn by (apply sumZ_nonneg; by rewrite Forall_fmap).
  rewrite fmap_cons in Hle. change (sumZ (fr_length part :: (fr_length <$> parts)))
    with (fr_length part + sumZ (fr_length <$> parts)) in Hle.
  intros [->|Hin]%elem_of_cons; [unfold run_inside; simpl; lia|]. apply (IH (offset + fr_length part)); (done || lia).
Qed.

Lemma tensor_runs_inside `{Allocator} n c tensor r :
  contract_ok c -> contract_fits c -> tensor_inside n tensor -> r ∈ tensor_runs c tensor -> run_inside n r.
Proof.
  intros Hc Hf [Ht Hle] Hr. unfold tensor_runs in Hr. destruct (entry_for _ _) as [entry|]; [|set_solver].
  destruct (captures _ _ ≫= _) as [base|]; [|set_solver].
  destruct (tensor_parts_tile c tensor Hc Hf Ht) as [Hsum Hpos]. destruct Ht as (Ho & _).
  eapply lay_runs_inside; [exact Hpos|exact Ho| |exact Hr]. lia.
Qed.

(** The runs of a view lie in the file. *)
Lemma view_runs_inside `{Allocator} n source inventory target d a :
  contract_ok source -> contract_fits source -> Forall (tensor_inside n) (inv_tensors inventory) ->
  decide_layout source inventory target = Ok d -> decision_adapter d = Some a ->
  Forall (fun t => Forall (run_inside n) (dt_runs t)) (ad_tensors a).
Proof.
  intros Hc Hf Ht Hd Ha. destruct (decide_layout_view _ _ _ _ _ Hd Ha) as (available & Hrole & Hder & _ & _).
  assert (Forall tensor_fits (inv_tensors inventory)) as Htf by (eapply Forall_impl; [exact Ht|]; by intros t []).
  destruct (role_runs_spec _ _ _ Hc Hf Htf Hrole) as [_ Hp].
  eapply Forall_impl; [exact Hder|]. intros t [_ Hruns]%derives_runs.
  eapply Forall_impl; [exact Hruns|]. intros r [role Hg].
  apply bt_get_Some_1 in Hg.
  rewrite Hp in Hg. apply list_elem_of_fmap in Hg as (r' & [= -> ->] & Hin).
  apply list_elem_of_bind in Hin as (tensor & Hr & Htn). rewrite Forall_forall in Ht.
  by eapply tensor_runs_inside; [..|by apply Ht|].
Qed.

Section deriving.
Context `{Sha256, Allocator, HeaderJson, EntrySort, JsonText}.
Context (pool : list byte -> Prop).
Context (Hinj : forall a b, pool a -> pool b -> sha256 a = sha256 b -> a = b).
Context (O : gmap (list byte) node) (records : list file_record).
Context (Hfit : run_fits records) (Hres : run_resident O records).
Let file := run_bytes O records.
Abbreviation src := (records_byte_source records).

(** The bytes of a run, and of a whole target tensor: its runs end to end, moved
    when the two layouts differ. *)
Definition source_bytes (r : source_run_t) : list byte := slice file (sr_offset r) (sr_offset r + sr_length r).
Definition element_size_of (t : derived_tensor_t) : Z := dt_length t / Z.max (foldl wmul 1 (dt_shape t)) 1.
Definition derived_bytes (t : derived_tensor_t) : option (list byte) :=
  match transform_apply (dt_transform t) (dt_runs t ≫= source_bytes) (element_size_of t) (dt_shape t) with
  | Some (Some moved) => Some moved
  | _ => None
  end.

Lemma zlen_source_bytes r : run_inside (zlen file) r -> zlen (source_bytes r) = sr_length r.
Proof. intros (Ho & Hn & Hle). unfold source_bytes. rewrite slice_length by lia. lia. Qed.

Lemma foldl_run_lengths runs acc :
  foldl (fun acc run => wadd acc (sr_length run)) acc runs mod U64 = (acc + sumZ (sr_length <$> runs)) mod U64.
Proof.
  revert acc. induction runs as [|r runs IH]; intros acc; [by rewrite Z.add_0_r|].
  cbn [foldl]. rewrite IH, fmap_cons. change (sumZ (?x :: ?l)) with (x + sumZ l).
  unfold wadd. by rewrite Zplus_mod_idemp_l, Z.add_assoc.
Qed.

Lemma dt_length_mod t : dt_length t = sumZ (sr_length <$> dt_runs t) mod U64.
Proof.
  pose proof (foldl_run_lengths (dt_runs t) 0) as Hm. rewrite Z.add_0_l in Hm. rewrite <-Hm. unfold dt_length.
  symmetry. apply Z.mod_small. destruct (dt_runs t) as [|r runs] using rev_ind; [done|].
  rewrite foldl_app. simpl. unfold wadd at 1 3. apply Z.mod_pos_bound. done.
Qed.

(** The buffer after some of the runs. *)
Definition filled (t : derived_tensor_t) (pre : list source_run_t) (st : list byte * Z) : Prop :=
  st.2 = sumZ (sr_length <$> pre) /\ st.2 <= dt_length t /\
  st.1 = (pre ≫= source_bytes) ++ replicate (Z.to_nat (dt_length t - st.2)) (byte_of 0).

Lemma zlen_runs runs : Forall (run_inside (zlen file)) runs ->
  zlen (runs ≫= source_bytes) = sumZ (sr_length <$> runs).
Proof.
  induction 1 as [|r runs Hr _ IH]; [done|]. rewrite bind_cons, zlen_app, IH, zlen_source_bytes by done.
  rewrite fmap_cons. done.
Qed.

Lemma t_read_run t pre run st :
  run_inside (zlen file) run -> Forall (run_inside (zlen file)) pre -> filled t pre st ->
  triple (on_objects (grown pool O)) (read_run records st run)
    (fun st' d => on_objects (grown pool O) d /\ filled t (pre ++ [run]) st')
    (fun _ => on_objects (grown pool O)).
Proof using Hfit Hres.
  intros Hin Hpre Hst. destruct st as [bytes written], Hst as (Hw & Hle & Hb). cbn [fst snd] in *.
  pose proof (zlen_runs _ Hpre) as Hz. pose proof (zlen_nonneg (pre ≫= source_bytes)) as Hnn.
  unfold read_run. destruct (Z.ltb_spec (zlen bytes) (written + sr_length run)) as [|Hroom]; [by apply t_fail|].
  destruct Hin as (Ho & Hn & Hend).
  assert (zlen bytes = dt_length t) as Hzb.
  { rewrite Hb, zlen_app, Hz. unfold zlen. rewrite length_replicate. lia. }
  eapply t_bind with (Q' := fun read d => on_objects (grown pool O) d /\ read = source_bytes run).
  - intros d Hd. unfold map_err_m.
    pose proof (t_records_read (objects d) records _ _ Hfit Ho Hn d eq_refl) as Hr.
    destruct (records_read _ _ _ d) as [[read|e] d']; simpl.
    + destruct Hr as [Hd' [_ Hg]%get_range_Some]. unfold on_objects. rewrite Hd'. split; [exact Hd|].
      by rewrite (file_now _ _ _ Hres _ Hd) in Hg.
    + unfold on_objects. by rewrite Hr.
  - intros read. apply t_pure_r. intros ->.
    assert (zlen (source_bytes run) = sr_length run) as Hzs by by apply zlen_source_bytes.
    assert (Morphism.splice bytes written (source_bytes run) =
      Some ((pre ≫= source_bytes) ++ source_bytes run ++
        replicate (Z.to_nat (dt_length t - (written + sr_length run))) (byte_of 0))) as ->.
    { rewrite Hb, Hw, <-Hz.
      replace (Z.to_nat (dt_length t - zlen (pre ≫= source_bytes)))
        with (Z.to_nat (sr_length run) + Z.to_nat (dt_length t - (zlen (pre ≫= source_bytes) + sr_length run)))%nat by lia.
      rewrite replicate_add. apply splice_append. rewrite Hzs. unfold zlen. rewrite length_replicate. lia. }
    apply t_ret. intros d Hd. split; [exact Hd|]. unfold filled. cbn [fst snd].
    rewrite fmap_app, sumZ_app, bind_app. cbn [fmap list_fmap]. rewrite bind_singleton, <-app_assoc, Hw.
    split; [unfold sumZ at 3; simpl; lia|]. split; [lia|]. done.
Qed.

Lemma t_read_runs t :
  Forall (run_inside (zlen file)) (dt_runs t) ->
  triple (on_objects (grown pool O)) (read_runs records t)
    (fun bytes d => on_objects (grown pool O) d /\ bytes = dt_runs t ≫= source_bytes)
    (fun _ => on_objects (grown pool O)).
Proof using Hfit Hres.
  intros Hin. unfold read_runs. eapply t_bind; [apply f_check|]. intros u. cbn beta.
  pose proof (dt_length_mod t) as Hmod.
  pose proof (Z.mod_pos_bound (sumZ (sr_length <$> dt_runs t)) U64 ltac:(done)) as Hb. rewrite <-Hmod in Hb.
  eapply t_bind.
  { eapply t_conseq; [apply (t_for (read_run records) (replicate (Z.to_nat (dt_length t)) (byte_of 0), 0) (dt_runs t)
      (fun pre st d => on_objects (grown pool O) d /\ filled t pre st) (fun _ => on_objects (grown pool O)))|
      |intros st d Hd; exact Hd|intros e d Hd; exact Hd].
    2: { intros d Hd. split; [exact Hd|]. unfold filled. cbn [fst snd]. rewrite Z.sub_0_r. split_and!; (done || lia). }
    intros pre run post st Hl. rewrite Hl, Forall_app, Forall_cons in Hin. destruct Hin as (Hpre & Hrun & _).
    apply t_pure_r. by apply t_read_run. }
  intros [bytes written]. apply t_ret. intros d [Hd (Hw & Hle & Hbytes)]. cbn [fst snd] in *.
  split; [exact Hd|]. assert (dt_length t = written) as Hall.
  { rewrite Hmod, Hw. apply Z.mod_small. pose proof (zlen_runs _ Hin). 
    pose proof (zlen_nonneg (dt_runs t ≫= source_bytes)). lia. }
  by rewrite Hbytes, Hall, Z.sub_diag, app_nil_r.
Qed.

(** The moved tensors are new regions. *)
Definition moves_admissible (t : derived_tensor_t) : Prop :=
  transform_is_identity (dt_transform t) = false -> forall moved, derived_bytes t = Some moved -> admissible pool moved.

Lemma t_derive_tensor t composed before :
  Forall (run_inside (zlen file)) (dt_runs t) -> moves_admissible t ->
  triple (on_objects (fun O1 => grown pool O O1 /\ holds_run O1 composed before)) (derive_tensor records composed t)
    (fun composed' => on_objects (fun O1 => grown pool O O1 /\
      exists part, derived_bytes t = Some part /\ holds_run O1 composed' (before ++ part)))
    (fun _ => on_objects (grown pool O)).
Proof using Hfit Hres Hinj.
  intros Hin Hadm. unfold derive_tensor. destruct (transform_is_identity (dt_transform t)) eqn:Et.
  - apply t_lift. intros d [Hg Hh]. destruct (for_each _ _ _) as [out|e] eqn:Ef; [|exact Hg]. split; [exact Hg|].
    exists (dt_runs t ≫= source_bytes). split.
    { unfold derived_bytes. by destruct (dt_transform t). }
    eapply (inherit_each O records Hfit Hres); [apply Hg|exact Hh| |exact Ef].
    destruct (zlen_file O records Hfit) as [Hz _]. fold file in Hz.
    eapply Forall_impl; [exact Hin|]. intros r (Ho & Hn & Hle) c c'. unfold inherit_or.
    destruct (inherit _ _ _) as [taken|] eqn:Ei; simpl; [|done]. intros [= <-].
    exists (sr_offset r), (sr_length r), taken. split_and!; (done || lia).
  - specialize (Hadm Et). eapply t_bind with (Q' := fun bytes d => on_objects (fun O1 => grown pool O O1 /\
      holds_run O1 composed before) d /\ bytes = dt_runs t ≫= source_bytes).
    { intros d [Hg Hh]. pose proof (t_read_runs t Hin d Hg) as Hr.
      assert (framed (on_objects (fun O1 => holds_run O1 composed before)) (read_runs records t)) as Hf.
      { unfold read_runs. apply f_bind; [apply f_check|]. intros u. apply f_bind; [|intros [? ?]; apply f_ret].
        apply f_for. intros [bytes written] run _. unfold read_run. destruct (_ <? _); [apply f_fail|].
        apply f_bind; [apply f_map_err, f_records_read; apply _|]. intros read.
        destruct (Morphism.splice _ _ _); [apply f_ret|apply f_fail]. }
      specialize (Hf d Hh). destruct (read_runs records t d) as [[bytes|e] d']; [|exact Hr].
      destruct Hr as [Hg' ->]. by split. }
    intros bytes. apply t_pure_r. intros ->. cbv zeta. fold (element_size_of t).
    destruct (_ =? 0); [apply t_fail; by intros d []|].
    unfold derived_bytes in *. destruct (transform_apply _ _ _ _) as [[moved|]|]; [|apply t_fail; by intros d []..].
    eapply t_bind; [apply (t_admit_more O pool Hinj moved before composed), Hadm; reflexivity|]. intros admitted.
    apply t_ret. intros d [Hg Hh]. split; [exact Hg|]. by exists moved.
Qed.

(** The header a derived file declares its tensors in. *)
Definition derived_declared (a : adapter_t) : list (list byte * list byte * list Z * Z) :=
  (fun t => (dt_name t, dt_dtype t, dt_shape t, dt_length t)) <$> ad_tensors a.

Definition derives_file (a : adapter_t) (bytes : list byte) : Prop :=
  exists parts, Forall2 (fun t part => derived_bytes t = Some part) (ad_tensors a) parts /\
    bytes = safetensors_header (derived_declared a) ++ mjoin parts.

(** A tensor of the target layout, served from the source's: it is named by a
    declaration of the target and some values of its holes; its runs are the
    source's for the roles that declaration splits it into, in that order, of its
    dtype and its row shape; and what is written for it is their content, laid out
    as the target declares, of the length the header states. *)
Definition serves (source target : contract) (tensors : list inventory_tensor) (t : derived_tensor_t) (part : list byte) : Prop :=
  derived_ok t /\
  exists entry values base source_permute,
    entry ∈ c_tensors target /\
    instantiate (tp_pattern entry) values = Some (dt_name t) /\ instantiate (tp_role entry) values = Some base /\
    Forall2 (fun suffix r => sr_role r = base ++ suffix /\ exists tensor, tensor ∈ tensors /\ r ∈ tensor_runs source tensor)
      (split_roles entry) (dt_runs t) /\
    Forall (fun r => sr_permute r = source_permute) (dt_runs t) /\
    relaid source_permute (tp_permute entry) (dt_shape t) (dt_runs t ≫= source_bytes) part /\
    (zlen part < U64 -> dt_length t = zlen part).

(** The permutes of a contract. *)
Definition permutes_ok (c : contract) : Prop := Forall (fun t => forall p, tp_permute t = Some p -> view_ok p) (c_tensors c).
Lemma contract_permutation c entry p :
  contract_ok c -> permutes_ok c -> entry ∈ c_tensors c -> tp_permute entry = Some p -> permutation_ok p.
Proof.
  intros Hc Hv Hin Hp. unfold permutes_ok in Hv. rewrite Forall_forall in Hv. split; [|by eapply Hv].
  pose proof (co_tensors _ Hc) as Hts. rewrite Forall_forall in Hts. by destruct (to_permute _ (Hts _ Hin) p Hp) as [(_ & ? & _) _].
Qed.
Lemma tensor_runs_permute c tensor r p :
  contract_ok c -> permutes_ok c -> r ∈ tensor_runs c tensor -> sr_permute r = Some p -> permutation_ok p.
Proof.
  intros Hc Hv Hr Hp. unfold tensor_runs in Hr. destruct (entry_for c (it_name tensor)) as [entry|] eqn:Ee; [|set_solver].
  destruct (captures _ _ ≫= _) as [base|]; [|set_solver]. eapply contract_permutation; [done..|by eapply entry_for_elem|].
  revert Hr. generalize (it_offset tensor). induction (tensor_parts c tensor) as [|part parts IH]; intros o; simpl; [set_solver|].
  intros [->|Hr]%elem_of_cons; [exact Hp|by eapply IH].
Qed.
Lemma tensor_runs_shape c tensor r : Forall in_u64 (it_shape tensor) -> r ∈ tensor_runs c tensor -> Forall in_u64 (sr_row_shape r).
Proof.
  intros Hs Hr. unfold tensor_runs in Hr. destruct (entry_for c (it_name tensor)) as [entry|]; [|set_solver].
  destruct (captures _ _ ≫= _) as [base|]; [|set_solver].
  revert Hr. generalize (it_offset tensor). induction (tensor_parts c tensor) as [|part parts IH]; intros o; simpl; [set_solver|].
  intros [->|Hr]%elem_of_cons; [by apply Forall_drop|by eapply IH].
Qed.
Lemma derived_shape t : derived_ok t -> Forall (fun r => Forall in_u64 (sr_row_shape r)) (dt_runs t) -> Forall in_u64 (dt_shape t).
Proof.
  intros [Hne _ (rows & row_shape & -> & -> & Hrs) _] Hu. destruct (dt_runs t) as [|r runs]; [done|].
  apply Forall_cons in Hrs as [<- _], Hu as [Hu _]. constructor; [|done].
  destruct runs as [|r' runs _] using rev_ind; [|rewrite app_comm_cons, foldl_app]; simpl; unfold wadd at 1; apply Z.mod_pos_bound; done.
Qed.

(** What the transform between two layouts makes of the runs. *)
Lemma derived_relaid t name source target part :
  Forall in_u64 (dt_shape t) -> Forall (run_inside (zlen file)) (dt_runs t) ->
  (forall p, source = Some p \/ target = Some p -> permutation_ok p) ->
  transform_between name source target = Ok (dt_transform t) -> derived_bytes t = Some part ->
  relaid source target (dt_shape t) (dt_runs t ≫= source_bytes) part.
Proof.
  intros Hu Hin Hok Htr Hb. unfold derived_bytes in Hb.
  destruct (transform_apply _ _ _ _) as [[moved|]|] eqn:Ea; [|done..]. injection Hb as ->.
  assert (forall el, whole_elements el (dt_shape t) (dt_runs t ≫= source_bytes) -> element_size_of t = el) as Hel.
  { intros el Hw. destruct (elements_product _ _ _ Hw) as [He Hd]. destruct Hw as (_ & _ & _ & Hlt). unfold element_size_of.
    rewrite He, dt_length_mod, <-zlen_runs by done. rewrite Z.mod_small; [done|]. split; [apply zlen_nonneg|done]. }
  destruct source as [s|], target as [p|]; cbn [transform_between relaid] in *.
  - case_bool_decide; [|done]. injection Htr as Htr. rewrite <-Htr in Ea. by injection Ea as ->.
  - injection Htr as Htr. intros el Hw. rewrite <-Htr, (Hel el Hw) in Ea. exact (proj2 (transform_stores _ _ _ _ _ (Hok s (or_introl eq_refl)) Hu Hw) Ea).
  - injection Htr as Htr. intros el Hw. rewrite <-Htr, (Hel el Hw) in Ea. exact (proj1 (transform_stores _ _ _ _ _ (Hok p (or_intror eq_refl)) Hu Hw) Ea).
  - injection Htr as Htr. rewrite <-Htr in Ea. by injection Ea as ->.
Qed.

Lemma derived_length t part :
  Forall (run_inside (zlen file)) (dt_runs t) -> derived_bytes t = Some part -> zlen part < U64 -> dt_length t = zlen part.
Proof.
  intros Hin Hb Hlt. unfold derived_bytes in Hb. destruct (transform_apply _ _ _ _) as [[moved|]|] eqn:Ea; [|done..]. injection Hb as ->.
  apply transform_length in Ea. rewrite dt_length_mod, <-zlen_runs, <-Ea by done. apply Z.mod_small. split; [apply zlen_nonneg|done].
Qed.

(** The tensors of a view serve the target. *)
Lemma view_serves source target inventory decision a t part :
  contract_ok source -> contract_fits source -> permutes_ok source -> contract_ok target -> permutes_ok target ->
  Forall (tensor_inside (zlen file)) (inv_tensors inventory) ->
  decide_layout source inventory target = Ok decision -> decision_adapter decision = Some a ->
  t ∈ ad_tensors a -> derived_bytes t = Some part -> serves source target (inv_tensors inventory) t part.
Proof.
  intros Hc Hf Hv Hc' Hv' Ht Hd Ha Hin Hpart.
  assert (Forall tensor_fits (inv_tensors inventory)) as Htf by (eapply Forall_impl; [exact Ht|]; by intros x []).
  pose proof (view_runs_inside _ _ _ _ _ _ Hc Hf Ht Hd Ha) as Hins. rewrite Forall_forall in Hins. specialize (Hins t Hin).
  destruct (decide_layout_view _ _ _ _ _ Hd Ha) as (available & Hrole & Hder & _ & _).
  destruct (role_runs_spec _ _ _ Hc Hf Htf Hrole) as [Hs Hp]. rewrite Forall_forall in Hder. rewrite Forall_forall in Htf.
  destruct (Hder t Hin) as (entry & values & name & base & runs & Hentry & Hname & Hbase & Hm & Hdt).
  destruct (derived_tensor_Ok _ _ _ _ Hdt) as (<- & <- & Hok).
  destruct (derived_tensor_transform _ _ _ _ Hdt) as (sp & Hsp & Htr).
  assert (Forall2 (fun suffix r => sr_role r = base ++ suffix /\
    exists tensor, tensor ∈ inv_tensors inventory /\ r ∈ tensor_runs source tensor) (split_roles entry) (dt_runs t)) as Hruns.
  { rewrite <-entry_suffixes_split. apply mapM_Some in Hm. eapply Forall2_impl; [exact Hm|]. intros suffix r Hg%bt_get_Some_1.
    rewrite Hp in Hg. apply list_elem_of_fmap in Hg as (r' & [= -> ->] & (tensor & ? & ?)%list_elem_of_bind). split; [done|]. by exists tensor. }
  assert (Forall (fun r => exists tensor, tensor ∈ inv_tensors inventory /\ r ∈ tensor_runs source tensor) (dt_runs t)) as Hof.
  { clear -Hruns. induction Hruns as [|? ? ? ? [_ ?]]; by constructor. }
  split; [done|]. exists entry, values, base, sp. split_and!; [done..| |by apply derived_length].
  eapply derived_relaid; [|done| |exact Htr|exact Hpart].
  - apply derived_shape; [done|]. eapply Forall_impl; [exact Hof|]. intros r (tensor & Hten & Hr).
    eapply tensor_runs_shape; [|exact Hr]. by apply Htf.
  - intros p [->|Hp']; [|by eapply (contract_permutation target)].
    destruct (dt_runs t) as [|r runs] eqn:Er; [destruct (do_runs _ Hok Er)|].
    apply Forall_cons in Hof as [(tensor & _ & Hr) _], Hsp as [Hsp _]. exact (tensor_runs_permute source tensor r p Hc Hv Hr Hsp).
Qed.

Lemma t_derive_adapter a :
  Forall (fun t => Forall (run_inside (zlen file)) (dt_runs t)) (ad_tensors a) ->
  admissible pool (safetensors_header (derived_declared a)) -> Forall moves_admissible (ad_tensors a) ->
  triple (on_objects (grown pool O))
    (let<- header := admit_bytes (safetensors_header (derived_declared a)) in
     for_m (derive_tensor records) header (ad_tensors a))
    (fun composed => on_objects (fun O1 => grown pool O O1 /\
      exists bytes, derives_file a bytes /\ holds_run O1 composed bytes))
    (fun _ => on_objects (grown pool O)).
Proof using Hfit Hres Hinj.
  intros Hin Hhead Hmoves. set (header := safetensors_header (derived_declared a)) in *.
  set (I := fun pre rs => on_objects (fun O1 => grown pool O O1 /\ exists parts,
    Forall2 (fun t part => derived_bytes t = Some part) pre parts /\ holds_run O1 rs (header ++ mjoin parts))).
  eapply t_bind with (Q' := I []).
  { eapply t_conseq; [apply (t_admit_more O pool Hinj header [] [] Hhead)| | |].
    - intros d Hd. split; [exact Hd|apply holds_run_nil].
    - intros rs d [Hg Hh]. split; [exact Hg|]. exists []. split; [constructor|]. by rewrite app_nil_r.
    - intros e d Hd. exact Hd. }
  intros rs. eapply t_conseq; [apply (t_for (derive_tensor records) rs (ad_tensors a) I (fun _ => on_objects (grown pool O)))
    |intros d Hd; exact Hd| |intros e d Hd; exact Hd].
  - intros pre t post rs' Hl. rewrite Hl, Forall_app, Forall_cons in Hin, Hmoves.
    destruct Hin as (_ & Hr & _), Hmoves as (_ & Hm & _).
    intros d [Hg (parts & Hp & Hh)]. pose proof (t_derive_tensor t rs' _ Hr Hm d (conj Hg Hh)) as Ht.
    destruct (derive_tensor records rs' t d) as [[rs''|e] d']; [|exact Ht].
    destruct Ht as [Hg' (part & Hpart & Hh')]. split; [exact Hg'|]. exists (parts ++ [part]).
    split; [apply Forall2_app; [exact Hp|by repeat constructor]|].
    rewrite join_app. simpl. by rewrite app_nil_r, app_assoc.
  - intros rs' d [Hg (parts & Hp & Hh)]. split; [exact Hg|]. eexists. split; [|exact Hh]. by exists parts.
Qed.

Lemma inventory_inside d inv :
  (inventory (H := src) d).1 = Ok (Some inv) -> Forall (tensor_inside (zlen file)) (inv_tensors inv).
Proof using Hfit.
  pose proof (zlen_in_u64 O records Hfit) as Hu. fold file in Hu.
  assert (triple (fun s => src_len (ByteSource := src) s = zlen file) (inventory (H := src))
    (fun o _ => forall inv, o = Some inv -> Forall (tensor_inside (zlen file)) (inv_tensors inv)) (fun _ _ => True)) as Ht.
  2: { specialize (Ht d (src_len_file O records Hfit d)). intros Hi. destruct (inventory d) as [[o|e] d']; [|done].
       simpl in Hi. injection Hi as ->. by apply Ht. }
  unfold inventory, still. eapply t_bind with (Q' := fun _ s => src_len (ByteSource := src) s = zlen file).
  { intros s Hs. unfold map_err_m. simpl. exact Hs. }
  intros u. eapply t_bind; [apply (t_gets _ _ (fun _ s => src_len (ByteSource := src) s = zlen file)); auto|]. intros n.
  eapply t_bind with (Q' := fun o s => src_len (ByteSource := src) s = zlen file /\
    (forall l, o = Some l -> layout_wf (zlen file) l)).
  { destruct (24 <=? n); [|by apply t_ret]. intros s Hs. unfold gguf_read_layout.
    pose proof (t_parse (H := src) (zlen file) s Hs Hu) as [Hs' Hp].
    destruct (parse s) as [[l|[]] s']; simpl in *; try done. split; [done|]. by intros l' [= <-]. }
  intros [l|]; apply t_pure_r; intros Hl.
  { apply t_ret. intros s _ inv' [= <-]. by apply gguf_inventory_inside, Hl. }
  eapply t_bind.
  { eapply t_conseq; [by apply (t_read_layout (H := src) (zlen file) Hu)|done|intros o s Hx; exact Hx|done]. }
  intros [l|]; apply t_pure; intros Hwf; apply t_ret; intros s _ inv'; [|done]. intros [= <-].
  by apply st_inventory_inside, Hwf.
Qed.

(** The adapter a derivation works from, as read off the source. *)
Definition adapter_of (source target : contract) (d : disk) : option adapter_t :=
  match (inventory (H := src) d).1 with
  | Ok (Some taken) =>
      match decide_layout source taken target with
      | Ok decision => decision_adapter decision
      | Err _ => None
      end
  | _ => None
  end.

Lemma derive_serves format c n source target d :
  contract_ok source -> contract_fits source -> on_objects (grown pool O) d ->
  (forall a, adapter_of source target d = Some a ->
     admissible pool (safetensors_header (derived_declared a)) /\ Forall moves_admissible (ad_tensors a)) ->
  match derive (Tensor format c n records) source target d with
  | (Ok body, d') => grown pool O (objects d') /\
      exists a composed bytes, adapter_of source target d = Some a /\ derives_file a bytes /\
        body = Tensor TF_SafetensorsV1 (contract_stamp target) (records_sum composed) composed /\
        holds_run (objects d') composed bytes
  | (Err _, d') => grown pool O (objects d')
  end.
Proof using Hfit Hres Hinj.
  intros Hc Hcf Hd Hadm. unfold derive, map_err_m. unfold bind at 1. unfold adapter_of in *.
  pose proof (f_inventory (H := src) (on_objects (grown pool O)) (f_reads O records pool) ltac:(by apply f_ret) d Hd) as Hf.
  pose proof (inventory_inside d) as Hin.
  destruct (inventory d) as [[[taken|]|e] d1]; cbn [fst map_err] in *; [|exact Hf..]. specialize (Hin taken eq_refl).
  destruct (decide_layout source taken target) as [decision|[]] eqn:Ed; [|exact Hf..].
  assert (forall a, decision_adapter decision = Some a ->
    match (let<- header := admit_bytes (safetensors_header (derived_declared a)) in
           let<- composed := for_m (derive_tensor records) header (ad_tensors a) in
           ret (Tensor TF_SafetensorsV1 (contract_stamp target) (records_sum composed) composed)) d1 with
    | (Ok body, d') => grown pool O (objects d') /\
        exists a composed bytes, decision_adapter decision = Some a /\ derives_file a bytes /\
          body = Tensor TF_SafetensorsV1 (contract_stamp target) (records_sum composed) composed /\
          holds_run (objects d') composed bytes
    | (Err _, d') => grown pool O (objects d')
    end) as Hgo.
  { intros a Ha. destruct (Hadm a Ha) as [Hh Hm].
    pose proof (t_derive_adapter a (view_runs_inside _ _ _ _ _ _ Hc Hcf Hin Ed Ha) Hh Hm d1 Hf) as Ht.
    unfold bind in Ht |- *. destruct (admit_bytes _ d1) as [[header|e] d2]; [|exact Ht].
    destruct (for_m _ _ _ d2) as [[composed|e] d3]; [|exact Ht]. destruct Ht as [Hg (bytes & Hb & Hh')].
    split; [exact Hg|]. by exists a, composed, bytes. }
  destruct decision as [a|a names|reason]; [exact (Hgo a eq_refl)|exact (Hgo a eq_refl)|exact Hf].
Qed.
End deriving.
