(* ===== verification/SyncPush.v ===== *)
(** What a push does whatever the remote answers: it reads the local store and
    changes nothing in it, uploads only packs and parts that hold the bytes of
    the declared closure, and asks for completion only when the remote said
    nothing is missing ([src/crates/tensorfs-core/src/sync.rs]). *)
From S2P Require Import Tfp1.
From S2P Require Export SyncPlans SealFacts System.

(** ** What an honest push sends *)

(** A resident object. *)
Definition held (O : gmap (list byte) node) (digest bytes : list byte) : Prop :=
  exists ro, O !! digest = Some (Regular bytes ro).

(** The members of a pack and the bytes loaded for them. *)
Definition loaded_for (O : gmap (list byte) node) (member : list byte * Z) (object : list byte * list byte) : Prop :=
  object.1 = member.1 /\ zlen object.2 = member.2 /\ held O member.1 object.2.

Definition parts_size (parts : list blob_part) : Z := foldl (fun acc p => wadd acc (bp_size_bytes p)) 0 parts.

Section honest.
Context `{Sha256}.

Definition honest_event (O : gmap (list byte) node) (closure : owed) (e : event) : Prop :=
  match e with
  | EUploadPack grant pack _ =>
      exists members objects, members <> [] /\ members `sublist_of` closure /\
        Forall2 (loaded_for O) members objects /\ Tfp1.encode objects = Ok pack /\
        pg_pack_sha256 grant = lowercase_hex (sha256 pack)
  | EUploadPart part bytes _ =>
      exists digest object n pre post, (digest, n) ∈ closure /\ held O digest object /\ zlen object = n /\
        parts_size (pre ++ part :: post) = n /\
        bytes = slice object (parts_size pre) (parts_size pre + bp_size_bytes part) /\
        zlen bytes = bp_size_bytes part
  | EReportParts digest _ _ => digest ∈ closure.*1
  | EProgress (PObject digest n) => (digest, n) ∈ closure
  | EComplete _ | EHead _ | EDownloadGrants _ _ | EDownload _ _ => False
  | _ => True
  end.
End honest.

(** What the remote answered to a declaration or a bare probe: the objects it
    misses, in packs and as blobs. *)
Definition lanes : Type := owed * owed.
Definition missing_answer (e : event) : option lanes :=
  match e with
  | EDeclare _ (Ok plan) => Some (pl_missing plan, pl_missing_blobs plan)
  | EProbe [] (Ok plan) => Some (gp_missing plan, gp_missing_blobs plan)
  | _ => None
  end.
(** The last such answer, and whether one of them said that no blob is missing. *)
Definition latest_missing (log : list event) : option lanes := last (omap missing_answer log).
Definition blobs_settled (log : list event) : Prop :=
  exists e missing, e ∈ log /\ missing_answer e = Some (missing, []).

Lemma blobs_settled_app log more : blobs_settled log -> blobs_settled (log ++ more).
Proof. intros (e & missing & He & Hm). exists e, missing. split; [set_solver|done]. Qed.
Lemma latest_settled log missing : latest_missing log = Some (missing, []) -> blobs_settled log.
Proof.
  unfold latest_missing. intros Hl. apply last_Some_elem_of, list_elem_of_omap in Hl as (e & He & Hm).
  by exists e, missing.
Qed.

(** The tables, and what the engine will answer: a push changes neither while it
    holds its lease. *)
Definition tables (w : world) : db * list bool := (w_db w, w_engine w).

Section push.
Context {R : Type} `{SyncTransport R, Sha256, Unicode, Unordered, Rowid, Allocator}.
Context (O : gmap (list byte) node) (D : db * list bool) (L0 : list event) (C : owed).
(** Whether the blobs are settled. *)
Context (b : bool).

(** The store as it was, and a log that continues [L0] honestly. *)
Definition pushing (m : option lanes) (s : session R) : Prop :=
  objects (w_disk (se_world s)) = O /\ tables (se_world s) = D /\
  exists new, se_log s = L0 ++ new /\ Forall (honest_event O C) new /\ (b = true -> blobs_settled new) /\
    match m with Some missing => latest_missing new = Some missing | None => True end.

Lemma pushing_forget m s : pushing m s -> pushing None s.
Proof. intros (? & ? & new & ? & ? & ? & _). split; [done|]. split; [done|]. by exists new. Qed.

Lemma pushing_log m m' e s :
  honest_event O C e ->
  match m' with
  | Some missing => missing_answer e = Some missing \/ missing_answer e = None /\ m = Some missing
  | None => True
  end ->
  pushing m s -> pushing m' (with_log e s).
Proof.
  intros He Hm (Ho & Hd & new & Hl & Hf & Hb & Hn). split; [done|]. split; [done|]. exists (new ++ [e]). simpl.
  rewrite Hl, <-app_assoc. split; [done|]. split; [apply Forall_app; split; [done|by apply Forall_singleton]|].
  split; [intros E; by apply blobs_settled_app, Hb|].
  destruct m' as [missing|]; [|done]. unfold latest_missing in *. rewrite omap_app. simpl.
  destruct Hm as [->|[-> ->]]; [by rewrite last_snoc|by rewrite app_nil_r].
Qed.

(** A call leaves the store alone; the log gains what reached the remote, and an
    answer that arrived is the remote's. *)
Lemma call_cases {A} (e : answer A -> event) (op : M R transport_error A) s :
  let '(r, s') := call e op s in
  objects (w_disk (se_world s')) = objects (w_disk (se_world s)) /\ tables (se_world s') = tables (se_world s) /\
  ((se_log s' = se_log s /\ exists err, r = Err err) \/
   exists x, se_log s' = se_log s ++ [e x] /\ forall a, r = Ok a -> x = Ok a).
Proof.
  unfold call. destruct (negb _); [split; [done|]; split; [done|]; left; by eauto|].
  destruct (outcomes _) as [|[|err [|k]|[|k]] os]; try (split; [done|]; split; [done|]; left; by eauto);
    [destruct (op (se_remote s)) as [x remote]|destruct (op (se_remote (with_calls os s))) as [x remote]..];
    (split; [done|]; split; [done|]; right; exists x; by split; [|intros; simplify_eq]).
Qed.

Lemma t_call {A} (e : answer A -> event) (op : M R transport_error A) m (m' : A -> option lanes) :
  (forall r, honest_event O C (e r)) ->
  (forall a missing, m' a = Some missing ->
     missing_answer (e (Ok a)) = Some missing \/ missing_answer (e (Ok a)) = None /\ m = Some missing) ->
  triple (pushing m) (call e op) (fun a => pushing (m' a)) (fun _ => pushing None).
Proof.
  intros He Hm s (Ho & Hd & new & Hl & Hf & Hb & Hn). pose proof (call_cases e op s) as Hc.
  destruct (call e op s) as [r s']. destruct Hc as (Ho' & Hd' & [[Hl' [err ->]]|(x & Hl' & Hx)]).
  { split; [congruence|]. split; [congruence|]. exists new. split; [congruence|]. done. }
  assert (forall k, match k with Some missing => missing_answer (e x) = Some missing \/
    missing_answer (e x) = None /\ m = Some missing | None => True end -> pushing k s') as Hp.
  { intros k Hk. split; [congruence|]. split; [congruence|]. exists (new ++ [e x]).
    rewrite Hl', Hl, <-app_assoc. split; [done|]. split; [apply Forall_app; split; [done|by apply Forall_singleton]|].
    split; [intros E; by apply blobs_settled_app, Hb|]. destruct k as [missing|]; [|done]. unfold latest_missing in *. rewrite omap_app. simpl.
    destruct Hk as [->|[-> ->]]; [by rewrite last_snoc|by rewrite app_nil_r]. }
  destruct r as [a|err]; [|by apply Hp]. apply Hp. destruct (m' a) as [missing|] eqn:E; [|done].
  rewrite (Hx a eq_refl). by apply Hm.
Qed.

(** An answer is the remote's. *)
Lemma call_answer {A} (e : answer A -> event) (op : M R transport_error A) s a s' :
  call e op s = (Ok a, s') -> exists r r', op r = (Ok a, r').
Proof.
  unfold call. destruct (negb _); [done|].
  destruct (outcomes _) as [|[|err [|k]|[|k]] os]; intros Hc; try done.
  - destruct (op (se_remote s)) as [x r'] eqn:E. injection Hc as -> _. eauto.
  - destruct (op (se_remote (with_calls os s))) as [x r'] eqn:E. injection Hc as -> _. eauto.
Qed.

Lemma t_asked {A} (e : answer A -> event) (op : M R transport_error A) m (m' : A -> option lanes) :
  (forall r, honest_event O C (e r)) ->
  (forall a missing, m' a = Some missing ->
     missing_answer (e (Ok a)) = Some missing \/ missing_answer (e (Ok a)) = None /\ m = Some missing) ->
  triple (pushing m) (asked e op) (fun a => pushing (m' a)) (fun _ => pushing None).
Proof.
  intros He Hm s Hs. pose proof (t_call e op m m' He Hm s Hs) as Hc. unfold asked, map_err_m.
  by destruct (call e op s) as [[a|er] s'].
Qed.

(** A step on the store that leaves its objects alone. *)
Lemma t_local {A} (m : M disk store_error A) k (Q : A -> Prop) :
  triple (objects_are O) m (fun a d => objects_are O d /\ Q a) (fun _ => objects_are O) ->
  triple (pushing k) (local m) (fun a s => pushing k s /\ Q a) (fun _ => pushing None).
Proof.
  intros Hm s (Ho & Hd & Hl). specialize (Hm _ Ho). unfold local, on_world, on_disk. simpl.
  destruct (m (w_disk (se_world s))) as [[a|e] d]; simpl.
  - destruct Hm as [Hd' HQ]. split; [|done]. by split.
  - apply (pushing_forget k). by split.
Qed.
Lemma t_local_query {A} (a : A) k :
  triple (pushing k) (local (io (query (fun _ => Ok a)))) (fun b s => pushing k s /\ b = a) (fun _ => pushing None).
Proof.
  apply t_local, t_io. eapply t_conseq; [apply (t_query (objects_are O))|done| |done].
  intros x d [Hd (d0 & _ & [= <-])]. done.
Qed.

Lemma t_report k digest n :
  (digest, n) ∈ C -> triple (E := sync_error) (pushing k) (report_object digest n) (fun _ => pushing k) (fun _ => pushing None).
Proof.
  intros Hin. apply t_modify. intros s Hs. apply (pushing_log k k); [done| |done]. destruct k; [by right|done].
Qed.

Abbreviation sending := (pushing None).

Lemma f_call_quiet {A} (e : answer A -> event) (op : M R transport_error A) :
  (forall r, honest_event O C (e r)) -> framed sending (call e op).
Proof. intros He. by apply (t_call e op None (fun _ => None)). Qed.
Lemma f_asked_quiet {A} (e : answer A -> event) (op : M R transport_error A) :
  (forall r, honest_event O C (e r)) -> framed sending (asked e op).
Proof. intros He. by apply (t_asked e op None (fun _ => None)). Qed.

(** Branching on the answer of a call. *)
Lemma f_case {A B E} (m : M (session R) transport_error A) (k : result transport_error A -> M (session R) E B) :
  framed sending m -> (forall r, framed sending (k r)) -> framed sending (fun s => let (r, s') := m s in k r s').
Proof. intros Hm Hk s Hs. specialize (Hm s Hs). destruct (m s) as [[a|e] s']; by apply Hk. Qed.

(** ** Packs *)

Lemma t_load_pack_members members :
  triple sending (load_pack_members members)
    (fun objects s => sending s /\ Forall2 (loaded_for O) members objects) (fun _ => sending).
Proof.
  eapply t_conseq; [apply (t_for load_member [] members (fun pre loaded s => sending s /\
    Forall2 (loaded_for O) pre loaded) (fun _ => sending))| |intros a s Hs; exact Hs|intros e s Hs; exact Hs].
  2: { intros s Hs. split; [exact Hs|constructor]. }
  intros pre [digest n] post loaded _. apply t_pure_r. intros Hpre. unfold load_member.
  eapply t_bind; [apply (t_local (open_object digest) None (fun bytes => held O digest bytes)); apply t_open_object|].
  intros file. apply t_pure_r. intros Hh. eapply t_bind; [apply t_local_query|]. intros bytes. apply t_pure_r. intros ->.
  destruct (Z.eqb_spec (zlen file) n) as [Hn|]; simpl; [|by apply t_fail]. apply t_ret. intros s Hs.
  split; [exact Hs|]. apply Forall2_app; [exact Hpre|]. by repeat constructor.
Qed.

Lemma f_upload_pack_loop fuel options attempt grant encoded :
  (forall r, honest_event O C (EUploadPack grant encoded r)) ->
  framed sending (upload_pack_loop fuel options attempt grant encoded).
Proof.
  intros He. revert attempt. induction fuel as [|fuel IH]; intros attempt; [apply f_fail|].
  intros s Hs. cbn [upload_pack_loop].
  pose proof (f_call_quiet (EUploadPack grant encoded) (t_upload_pack grant encoded) He s Hs) as Hc.
  destruct (call _ _ s) as [[[]|[d|c d|d]] s']; try exact Hc. destruct (_ <=? _); [exact Hc|]. by apply IH.
Qed.

Lemma f_report_members members :
  members `sublist_of` C ->
  framed (E := sync_error) sending (for_m (fun (_ : unit) '(digest, length) => report_object digest length) tt members).
Proof.
  intros Hs. apply f_for. intros u [digest n] Hin. apply t_report. by eapply sublist_elem_of.
Qed.

Lemma f_push_group options sid report members :
  members <> [] -> members `sublist_of` C -> framed sending (push_group options sid report members).
Proof.
  intros Hne Hsub. unfold push_group. eapply t_bind; [apply t_load_pack_members|]. intros objs.
  apply t_pure_r. intros Hload. eapply t_bind with (Q' := fun encoded s => sending s /\ Tfp1.encode objs = Ok encoded).
  { apply t_lift. intros s Hs. by destruct (Tfp1.encode objs). }
  intros encoded. apply t_pure_r. intros Henc. cbv zeta. set (claim := claim_of encoded members). intros s Hs.
  pose proof (f_call_quiet (EProbe [claim]) (t_pack_grants sid [claim]) ltac:(done) s Hs) as Hc.
  destruct (call _ _ s) as [[granted|[d|c d|d]] s']; try exact Hc.
  destruct (list_find _ _) as [[i grant]|] eqn:Ef; [|by destruct (existsb _ _)].
  apply list_find_Some in Ef as (_ & Hg & _).
  assert (framed sending (let<- landed := upload_pack_loop (upload_fuel options) options 0 grant encoded in
    if landed : bool then
      for_m (fun (_ : unit) '(digest, length) => report_object digest length) tt members;;;
      ret (Some (count_pack members report))
    else ret None)) as Hf.
  { apply f_bind; [apply f_upload_pack_loop; intros r; exists members, objs; split_and!; done|].
    intros []; [|apply f_ret]. apply f_bind; [by apply f_report_members|]. intros. apply f_ret. }
  exact (Hf s' Hc).
Qed.

Lemma f_push_groups options sid report groups :
  Forall (fun g => g <> [] /\ g `sublist_of` C) groups -> framed sending (push_groups options sid report groups).
Proof.
  intros Hg. revert report. induction Hg as [|g groups [Hne Hs] _ IH]; intros report; cbn [push_groups]; [apply f_ret|].
  apply f_bind; [by apply f_push_group|]. intros [r|]; [apply IH|apply f_ret].
Qed.

Context (Hnd : NoDup C.*1) (Hpos : Forall (fun x => 0 <= x.2) C).

Lemma groups_ok max_payload missing blobs :
  0 <= max_payload <= MAX_PACK_PAYLOAD -> verify_lanes C missing blobs max_payload = Ok tt ->
  Forall (fun g => g <> [] /\ g `sublist_of` C) (assemble max_payload missing).
Proof using Hnd Hpos.
  intros Hm (Hsub & _ & Hle & _)%verify_lanes_iff; [|done].
  assert (Forall (fun x => 0 <= x.2 <= max_payload) missing) as Hf.
  { rewrite Forall_forall in Hpos, Hle |- *. intros x Hx. split; [apply Hpos; by eapply sublist_elem_of|by apply Hle]. }
  destruct (assemble_spec max_payload missing Hm Hf) as (Hc & Hp & _).
  apply Forall_forall. intros g Hg. rewrite Forall_forall in Hp. split; [apply Hp, Hg|].
  etrans; [|exact Hsub]. rewrite <-Hc. apply list_elem_of_split in Hg as (l1 & l2 & ->).
  rewrite concat_app. simpl. apply sublist_inserts_l, sublist_inserts_r. reflexivity.
Qed.

(** The replan loop ends, when it does, with the remote owing nothing. *)
Lemma t_replan_loop fuel options sid max_payload stalled missing blobs report :
  0 <= max_payload <= MAX_PACK_PAYLOAD -> verify_lanes C missing blobs max_payload = Ok tt ->
  triple (pushing (Some (missing, blobs))) (replan_loop fuel options sid C max_payload stalled missing report)
    (fun _ s => exists blobs', pushing (Some ([], blobs')) s) (fun _ => sending).
Proof using Hnd Hpos.
  intros Hm. revert stalled missing blobs report. induction fuel as [|fuel IH]; intros stalled missing blobs report Hv.
  { destruct missing as [|x missing]; cbn [replan_loop]; [apply t_ret; by eauto|]. apply t_fail. apply pushing_forget. }
  destruct missing as [|x missing]; cbn [replan_loop]; [apply t_ret; by eauto|]. set (all := x :: missing) in *.
  eapply t_bind with (Q' := fun _ => sending).
  { eapply t_conseq; [apply f_push_groups; by eapply groups_ok|apply pushing_forget|done|done]. }
  intros report'. cbv zeta.
  eapply t_bind; [apply (t_asked (EProbe []) (t_pack_grants sid []) None (fun g => Some (gp_missing g, gp_missing_blobs g)));
    [done|intros g m [= <-]; by left]|].
  intros refreshed. eapply t_bind with (Q' := fun _ s => pushing (Some (gp_missing refreshed, gp_missing_blobs refreshed)) s /\
    verify_lanes C (gp_missing refreshed) (gp_missing_blobs refreshed) max_payload = Ok tt).
  { apply t_lift. intros s Hs. destruct (verify_lanes C (gp_missing refreshed) _ _) as [[]|];
      [exact (conj Hs eq_refl)|by eapply pushing_forget]. }
  intros u. apply t_pure_r. intros Hv'. destruct (_ <? _); [by eapply IH|].
  destruct (_ <=? _); [apply t_fail, pushing_forget|]. by eapply IH.
Qed.

(** ** Blobs *)

Lemma f_upload_part_loop fuel options attempt digest part buffer :
  (forall r, honest_event O C (EUploadPart part buffer r)) ->
  framed sending (upload_part_loop fuel options attempt digest part buffer).
Proof.
  intros He. revert attempt. induction fuel as [|fuel IH]; intros attempt; [apply f_fail|].
  intros s Hs. cbn [upload_part_loop].
  pose proof (f_call_quiet (EUploadPart part buffer) (t_upload_blob_part part buffer) He s Hs) as Hc.
  destruct (call _ _ s) as [[etag|[d|c d|d]] s']; try exact Hc. destruct (_ <=? _); [exact Hc|]. by apply IH.
Qed.

Lemma f_report_landed sid digest landed :
  digest ∈ C.*1 -> framed sending (report_landed sid digest landed).
Proof. intros Hd. unfold report_landed. case_bool_decide; [apply f_ret|]. by apply f_asked_quiet. Qed.

Lemma parts_size_snoc parts part : parts_size (parts ++ [part]) = wadd (parts_size parts) (bp_size_bytes part).
Proof. unfold parts_size. by rewrite foldl_app. Qed.
Lemma parts_size_u64 parts : in_u64 (parts_size parts).
Proof.
  induction parts as [|part parts _] using rev_ind; [done|]. rewrite parts_size_snoc. by apply Z.mod_pos_bound.
Qed.

Lemma f_push_parts options sid digest object n uploaded all pre parts landed report :
  (digest, n) ∈ C -> held O digest object -> zlen object = n -> n < U64 -> all = pre ++ parts -> parts_size all = n ->
  Forall (fun p => in_u64 (bp_size_bytes p)) parts ->
  framed sending (push_parts options sid digest [Data digest n] uploaded landed (parts_size pre) parts report).
Proof.
  intros Hin [ro Hh] Hlen Hlt Hall Hsize Hf. assert (digest ∈ C.*1) as Hd.
  { apply list_elem_of_fmap. by exists (digest, n). }
  assert (run_fits [Data digest n]) as Hfit.
  { split; [apply Forall_singleton; simpl; pose proof (zlen_nonneg object); lia|simpl; lia]. }
  assert (run_bytes O [Data digest n] = object) as Hrun.
  { unfold run_bytes. simpl. rewrite Hh, app_nil_r. by apply resize_exact. }
  revert pre landed report Hall. induction Hf as [|part parts Hp Hf IH]; intros pre landed report Hall; cbn [push_parts].
  { apply f_bind; [by apply f_report_landed|]. intros. apply f_ret. }
  rewrite <-parts_size_snoc. assert (all = (pre ++ [part]) ++ parts) as Hall' by by rewrite <-app_assoc.
  case_bool_decide; [by apply IH|].
  destruct (parts_size_u64 pre) as [Hpre _], Hp as [Hp _].
  eapply t_bind.
  { apply (t_local (io (records_read (records_source_new [Data digest n]) (parts_size pre) (bp_size_bytes part))) None
      (fun bytes => bytes = slice object (parts_size pre) (parts_size pre + bp_size_bytes part) /\
        zlen bytes = bp_size_bytes part)).
    apply t_io. eapply t_conseq; [apply (t_records_read O _ _ _ Hfit Hpre Hp)|done| |done].
    intros bytes d [Ho [Hle ->]%get_range_Some]. rewrite Hrun in *. split; [exact Ho|]. split; [done|].
    rewrite slice_length by lia. lia. }
  intros buffer. apply t_pure_r. intros [Hb Hbl]. apply f_bind.
  { apply f_upload_part_loop. intros r. exists digest, object, n, pre, parts. rewrite <-Hall. by split_and!; [|exists ro|..]. }
  intros [etag|].
  - by apply IH.
  - apply f_bind; [by apply f_report_landed|]. intros. apply f_ret.
Qed.

Lemma f_push_one_blob options sid grant n report :
  (bg_digest grant, n) ∈ C -> n < U64 -> Forall (fun p => in_u64 (bp_size_bytes p)) (bg_parts grant) ->
  framed sending (push_one_blob options sid grant n report).
Proof.
  intros Hin Hlt Hparts. unfold push_one_blob. destruct (negb (_ =? n)); [apply f_fail|].
  destruct (Z.eqb_spec (foldl (fun acc p => wadd acc (bp_size_bytes p)) 0 (bg_parts grant)) n) as [Hg|]; simpl; [|apply f_fail].
  eapply t_bind; [apply (t_local (open_object (bg_digest grant)) None (fun bytes => held O (bg_digest grant) bytes)); apply t_open_object|].
  intros file. apply t_pure_r. intros Hh. eapply t_bind; [apply t_local_query|]. intros resident. apply t_pure_r. intros ->.
  destruct (Z.eqb_spec (zlen file) n) as [Hn|]; simpl; [|apply f_fail].
  by apply (f_push_parts options sid (bg_digest grant) file n (bg_uploaded_parts grant) (bg_parts grant) []).
Qed.

Context (Hu : Forall (fun x => x.2 < U64) C).

Lemma t_push_batch options sid st batch :
  Forall (fun x => x ∈ C) batch -> Forall (fun x => x ∈ C) st.2 ->
  triple sending (push_batch options sid st batch) (fun st' s => sending s /\ Forall (fun x => x ∈ C) st'.2) (fun _ => sending).
Proof using Hu.
  intros Hb Hst s Hs. unfold push_batch.
  pose proof (f_call_quiet (EBlobGrants batch.*1) (t_blob_grants sid batch.*1) ltac:(done) s Hs) as Hc.
  destruct (call _ _ s) as [[grants|[d|c d|d]] s'] eqn:Ec; try exact Hc.
  2: { split; [exact Hc|]. by apply Forall_app. }
  apply call_answer in Ec as (r & r' & Hty%t_blob_grants_u64). rewrite Forall_forall in Hty.
  assert (triple (fun s => sending s /\ Forall (fun x => x ∈ C) st.2) (for_m (push_batch_blob options sid grants) st batch)
    (fun st' s => sending s /\ Forall (fun x => x ∈ C) st'.2) (fun _ => sending)) as Hf;
    [|exact (Hf s' (conj Hc Hst))].
  apply (t_for (push_batch_blob options sid grants) st batch (fun _ st' s => sending s /\ Forall (fun x => x ∈ C) st'.2)
    (fun _ => sending)).
  intros pre [digest n] post [report deferred] Hl. apply t_pure_r. intros Hdef. simpl in Hdef. unfold push_batch_blob.
  destruct (list_find _ _) as [[i grant]|] eqn:Ef; [|by apply t_fail].
  apply list_find_Some in Ef as (Hi & Hg & _). apply list_elem_of_lookup_2 in Hi.
  rewrite Hl, Forall_app, Forall_cons in Hb. destruct Hb as (_ & Hb & _). rewrite Forall_forall in Hu.
  eapply t_bind with (Q' := fun _ => sending).
  { subst digest. apply f_push_one_blob; [done|by apply (Hu _ Hb)|by apply Hty]. }
  intros [report' []].
  - eapply t_bind; [by apply t_report|]. intros u. apply t_ret. intros s1 Hs1. by split.
  - apply t_ret. intros s1 Hs1. split; [exact Hs1|]. apply Forall_app. split; [done|]. by apply Forall_singleton.
Qed.

Lemma f_push_blob_lane fuel options sid stalled pending report :
  Forall (fun x => x ∈ C) pending -> framed sending (push_blob_lane fuel options sid stalled pending report).
Proof using Hu.
  revert stalled pending report. induction fuel as [|fuel IH]; intros stalled pending report Hp.
  { destruct pending; cbn [push_blob_lane]; [apply f_ret|apply f_fail]. }
  destruct pending as [|x pending]; cbn [push_blob_lane]; [apply f_ret|]. set (all := x :: pending) in *.
  eapply t_bind with (Q' := fun st s => sending s /\ Forall (fun x => x ∈ C) st.2).
  { eapply t_conseq; [apply (t_for (push_batch options sid) (report, []) (chunks BLOB_GRANT_BATCH all)
      (fun _ st s => sending s /\ Forall (fun x => x ∈ C) st.2) (fun _ => sending))| |done|done].
    2: { intros s Hs. split; [exact Hs|constructor]. }
    intros pre batch post st Hl. apply t_pure_r. intros Hst. apply t_push_batch; [|exact Hst].
    destruct (chunks_spec BLOB_GRANT_BATCH all) as [Hc _]; [done|]. rewrite <-Hc, Hl, concat_app in Hp. simpl in Hp.
    rewrite !Forall_app in Hp. apply Hp. }
  intros [report' deferred]. apply t_pure_r. intros Hdef. simpl in Hdef. cbv zeta.
  destruct (_ || _); [by apply IH|]. destruct (_ <=? _); [apply f_fail|by apply IH].
Qed.

End push.

Section completion.
Context {R : Type} `{SyncTransport R, Sha256, Unicode, Unordered, Rowid, Allocator}.
Context (O : gmap (list byte) node) (D : db * list bool) (L0 : list event) (C : owed).
Context (Hnd : NoDup C.*1) (Hpos : Forall (fun x => 0 <= x.2) C) (Hu : Forall (fun x => x.2 < U64) C).
Abbreviation open_ := (pushing (R := R) O D L0 C false).
Abbreviation settled := (pushing (R := R) O D L0 C true).
Abbreviation sending := (open_ None).

Lemma pushing_settles missing s : open_ (Some (missing, [])) s -> settled (Some (missing, [])) s.
Proof.
  intros (Ho & Hd & new & Hl & Hf & _ & Hm). split; [done|]. split; [done|]. exists new.
  split; [done|]. split; [done|]. split; [intros _; by eapply latest_settled|done].
Qed.
Lemma settled_sending m s : settled m s -> sending s.
Proof. intros (? & ? & new & ? & ? & _). split; [done|]. split; [done|]. by exists new. Qed.

(** The blobs go first, and it does not go on before an answer without any. *)
Lemma t_push_blobs_first fuel options sid max_payload missing blobs report :
  verify_lanes C missing blobs max_payload = Ok tt ->
  triple (open_ (Some (missing, blobs))) (push_blobs_first fuel options sid C max_payload missing blobs report)
    (fun rm s => settled (Some (rm.2, [])) s /\ verify_lanes C rm.2 [] max_payload = Ok tt) (fun _ => sending).
Proof using Hnd Hpos Hu.
  intros Hv. unfold push_blobs_first. case_bool_decide as Hb.
  { subst blobs. apply t_ret. intros s Hs. split; [by apply pushing_settles|done]. }
  pose proof Hv as (_ & Hsub & _)%verify_lanes_iff; [|done].
  eapply t_bind with (Q' := fun _ => sending).
  { eapply t_conseq; [apply (f_push_blob_lane O D L0 C false Hu fuel options sid 0 blobs report)|apply pushing_forget|done|done].
    apply Forall_forall. intros x Hx. by eapply sublist_elem_of. }
  intros report'.
  eapply t_bind; [apply (t_asked O D L0 C false (EProbe []) (t_pack_grants sid []) None (fun g => Some (gp_missing g, gp_missing_blobs g)));
    [done|intros g m [= <-]; by left]|].
  intros refreshed. eapply t_bind with (Q' := fun _ s => open_ (Some (gp_missing refreshed, gp_missing_blobs refreshed)) s /\
    verify_lanes C (gp_missing refreshed) (gp_missing_blobs refreshed) max_payload = Ok tt).
  { apply t_lift. intros s Hs. destruct (verify_lanes C (gp_missing refreshed) _ _) as [[]|];
      [exact (conj Hs eq_refl)|by eapply pushing_forget]. }
  intros u. apply t_pure_r. intros Hv'. destruct (gp_missing_blobs refreshed) as [|[digest n] rest] eqn:Eb.
  - apply t_ret. intros s Hs. split; [by apply pushing_settles|done].
  - apply t_fail, pushing_forget.
Qed.

(** ** Completion *)

Definition is_complete (e : event) : Prop := exists r, e = EComplete r.

(** The whole log of a push: honest transfers, then calls to complete, made only
    when the remote had answered that nothing is missing. *)
Definition completing (sent : list event) (ok : bool) (s : session R) : Prop :=
  objects (w_disk (se_world s)) = O /\ tables (se_world s) = D /\
  exists polls, se_log s = L0 ++ sent ++ polls /\ Forall is_complete polls /\
    (ok = true -> last polls = Some (EComplete (Ok Promoted))).

Lemma t_complete_loop fuel options sid admitted stalls report sent :
  triple (completing sent false) (complete_loop fuel options sid admitted stalls report)
    (fun _ => completing sent true) (fun _ => completing sent false).
Proof.
  revert admitted stalls report. induction fuel as [|fuel IH]; intros admitted stalls report; [by apply t_fail|].
  intros s (Ho & Hd & polls & Hl & Hf & _). cbn [complete_loop].
  pose proof (call_cases EComplete (t_complete sid) s) as Hc. destruct (call _ _ s) as [r s'].
  destruct Hc as (Ho' & Hd' & Hc).
  assert (completing sent false s') as Hs'.
  { split; [congruence|]. split; [congruence|]. destruct Hc as [[Hl' _]|(x & Hl' & _)].
    - exists polls. by rewrite Hl'.
    - exists (polls ++ [EComplete x]). rewrite Hl', Hl, <-!app_assoc. split; [done|]. split; [|done].
      apply Forall_app. split; [done|]. apply Forall_singleton. by exists x. }
  destruct r as [[|code promoted total|code]|[d|c d|d]]; try exact Hs'.
  - split; [congruence|]. split; [congruence|]. destruct Hc as [[_ [err [=]]]|(x & Hl' & Hx)].
    rewrite (Hx _ eq_refl) in Hl'. exists (polls ++ [EComplete (Ok Promoted)]). rewrite Hl', Hl, <-!app_assoc.
    split; [done|]. split; [|by rewrite last_snoc]. apply Forall_app. split; [done|]. apply Forall_singleton. by eexists.
  - destruct (_ <? _); [by apply IH|]. destruct (_ <=? _); [exact Hs'|by apply IH].
  - destruct (_ <=? _); [exact Hs'|by apply IH].
Qed.

(** A push, from the declaration on. *)
Definition pushed (ok : bool) (s : session R) : Prop :=
  objects (w_disk (se_world s)) = O /\ tables (se_world s) = D /\
  exists sent polls, se_log s = L0 ++ sent ++ polls /\ Forall (honest_event O C) sent /\ Forall is_complete polls /\
    (polls <> [] -> (exists blobs, latest_missing sent = Some ([], blobs)) /\ blobs_settled sent) /\
    (ok = true -> last polls = Some (EComplete (Ok Promoted))).

Lemma sending_pushed s : sending s -> pushed false s.
Proof.
  intros (Ho & Hd & new & Hl & Hf & _). split; [done|]. split; [done|]. exists new, []. rewrite app_nil_r. by split_and!.
Qed.

Lemma payload_bound_range plan : in_u64 (pl_max_pack_payload plan) -> 0 <= payload_bound plan <= MAX_PACK_PAYLOAD.
Proof.
  intros [Hp _]. unfold payload_bound, MAX_PACK_PAYLOAD, MAX_OBJECT_SIZE. destruct (_ =? 0); lia.
Qed.

Lemma t_declared id options fuel plan :
  in_u64 (pl_max_pack_payload plan) ->
  triple (open_ (Some (pl_missing plan, pl_missing_blobs plan)))
    (if negb (bool_decide (pl_snapshot_id plan = id)) then fail (SY_IdentityMismatch id (pl_snapshot_id plan))
     else
       for_m (fun (_ : unit) digest =>
         match list_find (fun x => x.1 = digest) C with
         | Some (_, (_, length)) => report_object digest length
         | None => ret tt
         end) tt (pl_have plan);;;
       lift (verify_lanes C (pl_missing plan) (pl_missing_blobs plan) (payload_bound plan));;;
       let<- '(report, missing) := push_blobs_first fuel options (pl_session plan) C (payload_bound plan)
         (pl_missing plan) (pl_missing_blobs plan) (resident_report plan) in
       let<- report := replan_loop fuel options (pl_session plan) C (payload_bound plan) 0 missing report in
       complete_loop fuel options (pl_session plan) 0 0 report)
    (fun _ => pushed true) (fun _ => pushed false).
Proof using Hnd Hpos Hu.
  intros Hty. pose proof (payload_bound_range _ Hty) as Hm.
  assert (forall m s, open_ m s -> pushed false s) as Hout.
  { intros m s Hs. by apply sending_pushed, (pushing_forget O D L0 C false m). }
  assert (forall m s, settled m s -> pushed false s) as Hout'.
  { intros m s Hs. by eapply sending_pushed, settled_sending. }
  destruct (negb _); [apply t_fail; apply Hout|].
  eapply t_bind with (Q' := fun _ => open_ (Some (pl_missing plan, pl_missing_blobs plan))).
  { eapply t_conseq; [apply (f_for (E := sync_error) (open_ (Some (pl_missing plan, pl_missing_blobs plan))))|done|done|intros e; apply Hout].
    intros u digest _. destruct (list_find _ _) as [[i [d n]]|] eqn:Ef; [|apply f_ret].
    apply list_find_Some in Ef as (Hi & Hd & _). simpl in Hd. subst d. apply list_elem_of_lookup_2 in Hi.
    intros s Hs. by apply (t_report O D L0 C false _ _ _ Hi s Hs). }
  intros u. cbn beta. clear u. eapply t_bind with (Q' := fun _ s => open_ (Some (pl_missing plan, pl_missing_blobs plan)) s /\
    verify_lanes C (pl_missing plan) (pl_missing_blobs plan) (payload_bound plan) = Ok tt).
  { apply t_lift. intros s Hs. destruct (verify_lanes _ _ _ _) as [[]|]; [exact (conj Hs eq_refl)|by eapply Hout]. }
  intros u. apply t_pure_r. intros Hv. cbn beta. clear u.
  eapply t_bind; [eapply t_conseq; [by apply t_push_blobs_first|done|intros a s Hs; exact Hs|intros e; apply Hout]|].
  intros [report missing]. apply t_pure_r. intros Hv'. simpl in Hv'.
  eapply t_bind; [eapply t_conseq; [by apply (t_replan_loop O D L0 C true Hnd Hpos)|done|intros a s Hs; exact Hs|intros e; apply Hout']|].
  intros report'. intros s (blobs & Ho & Hd & sent & Hl & Hf & Hset & Hlat).
  pose proof (t_complete_loop fuel options (pl_session plan) 0 0 report' sent s) as Hc.
  assert (completing sent false s) as Hs.
  { split; [done|]. split; [done|]. exists []. rewrite app_nil_r. by split_and!. }
  specialize (Hc Hs). destruct (complete_loop _ _ _ _ _ _ s) as [[r|e] s'];
    destruct Hc as (Ho' & Hd' & polls & Hl' & Hp & Hlast); split; try done; split; try done; exists sent, polls; split_and!; try done; (split; [by eauto|by apply Hset]).
Qed.

Lemma t_push_leased fuel id head options decoded :
  C = data_closure decoded ->
  triple (fun s => objects (w_disk (se_world s)) = O /\ tables (se_world s) = D /\ se_log s = L0)
    (push_leased fuel id head options decoded) (fun _ => pushed true) (fun _ => pushed false).
Proof using Hnd Hpos Hu.
  intros HC. unfold push_leased. rewrite <-HC. cbv zeta.
  eapply t_bind with (Q' := fun plan s => open_ (Some (pl_missing plan, pl_missing_blobs plan)) s /\ in_u64 (pl_max_pack_payload plan)).
  - intros s (Ho & Hd & Hl). assert (sending s) as Hs.
    { split; [done|]. split; [done|]. exists []. rewrite app_nil_r. by split_and!. }
    pose proof (t_call O D L0 C false (EDeclare (to_bytes decoded)) (t_declare (to_bytes decoded) head) None
      (fun p => Some (pl_missing p, pl_missing_blobs p))
      ltac:(done) ltac:(intros p m [= <-]; by left) s Hs) as Hc.
    unfold asked, map_err_m. destruct (call _ _ s) as [[plan|e] s'] eqn:Ec; simpl.
    + split; [exact Hc|]. apply call_answer in Ec as (r & r' & Hr). by eapply t_declare_u64.
    + by apply sending_pushed.
  - intros plan. apply t_pure_r. apply t_declared.
Qed.
End completion.
