(* ===== verification/SyncPull.v ===== *)
(** What a pull leaves, whatever the remote sends: every object it admits holds
    the bytes it is named by, a failed pull leaves the tables alone, and one that
    succeeds has rooted a snapshot all of whose objects are resident
    ([src/crates/tensorfs-core/src/sync.rs]). *)
From S2P Require Export SyncPush SealFacts.

Section expecting.
Context `{Sha256, Allocator}.

Lemma t_finish_expecting O bytes w expected n :
  resident_ok O ->
  triple (fun d => objects_are O d /\ writing bytes w d) (finish_expecting w expected n)
    (fun a d => on_objects (put_post O bytes a) d /\ (sha256 bytes = expected /\ zlen bytes = n))
    (fun _ => on_objects (at_most_installed O (sha256 bytes) bytes)).
Proof.
  intros Hok. unfold finish_expecting.
  assert (forall (e : store_error) d, objects_are O d -> on_objects (at_most_installed O (sha256 bytes) bytes) d) as Hsame.
  { intros e d Ho. by left. }
  apply t_dropping. intros d (Ho & Hw & Ht).
  assert (w_hashed w = bytes /\ w_written w = zlen bytes) as [-> ->] by by rewrite Hw.
  destruct (Z.eqb_spec (zlen bytes) n) as [Hn|]; simpl; [|by apply (Hsame (SE_Io NotFound))].
  revert d Ho Ht. assert (triple (fun d => objects_are O d /\ writing bytes w d)
    (io fsync;;; if decide (sha256 bytes = expected) then install w (sha256 bytes) else fail (SE_DigestMismatch expected (sha256 bytes)))
    (fun a d => on_objects (put_post O bytes a) d /\ (sha256 bytes = expected /\ zlen bytes = n))
    (fun _ => on_objects (at_most_installed O (sha256 bytes) bytes))) as Hf; [|intros d Ho Ht; by apply Hf].
  eapply t_bind with (Q' := fun _ d => objects_are O d /\ writing bytes w d).
  - intros d (Ho & _ & Ht). pose proof (t_fsyncs (fun O' => O' = O) d Ho) as Hf.
    assert (framed (holds_temp (w_path w) bytes) (io fsync)) as Hh by (apply f_map_err, f_query; apply _).
    specialize (Hh d Ht). destruct (io fsync d) as [[[]|e] d']; [done|]. by apply (Hsame e).
  - intros u. case_decide as Hd.
    + eapply t_conseq; [apply (t_install O bytes w (sha256 bytes))|done| |done].
      * intros r ro Hr. by apply Hok in Hr as (_ & _ & ?).
      * intros a d Ha. done.
    + apply t_fail. intros d [Ho _]. by apply (Hsame (SE_Io NotFound)).
Qed.

(** Blocks written one after another. *)
Lemma t_sink_writer O w blocks bytes :
  zlen bytes + zlen (concat blocks) < U64 ->
  triple (fun d => objects_are O d /\ writing bytes w d) (sink_writer w blocks)
    (fun w' d => objects_are O d /\ writing (bytes ++ concat blocks) w' d) (fun _ => objects_are O).
Proof.
  intros Hlen. eapply t_conseq; [apply (t_for writer_write_all w blocks
    (fun pre w' d => objects_are O d /\ writing (bytes ++ concat pre) w' d) (fun _ => objects_are O))| |done|done].
  - intros pre block post w' Hl. rewrite Hl, concat_app, zlen_app in Hlen. simpl in Hlen. rewrite zlen_app in Hlen.
    pose proof (zlen_nonneg (concat post)).
    rewrite concat_app. simpl. rewrite app_nil_r, app_assoc. apply t_write_all. rewrite zlen_app. lia.
  - intros d Hd. simpl. by rewrite app_nil_r.
Qed.
End expecting.

Section pull.
Context {R : Type} `{SyncTransport R, Sha256, Unicode, Unordered, Rowid, Allocator}.
Context (pool : list byte -> Prop) (Hcf : collision_free pool).
Context (Hserves : forall grant (r : R), pool (concat (t_download grant r).1.1)).
Context (O : gmap (list byte) node) (D : db).

(** The tables as they were, and objects that only grew, by strings of the pool. *)
Definition pulling (s : session R) : Prop :=
  grown pool O (objects (w_disk (se_world s))) /\ w_db (se_world s) = D.

Lemma f_call_pull {A} (e : answer A -> event) (op : M R transport_error A) : framed pulling (call e op).
Proof.
  intros s [Hg Hd]. pose proof (call_cases e op s) as Hc. destruct (call e op s) as [r s'].
  destruct Hc as (Ho & Ht & _). injection Ht as Ht _. assert (pulling s') by (split; congruence). by destruct r.
Qed.
Lemma f_asked_pull {A} (e : answer A -> event) (op : M R transport_error A) : framed pulling (asked e op).
Proof. apply f_map_err, f_call_pull. Qed.
Lemma f_report_pull digest n : framed (E := sync_error) pulling (report_object digest n).
Proof. by apply f_modify. Qed.

Definition at_disk (P : disk -> Prop) (s : session R) : Prop := P (w_disk (se_world s)) /\ w_db (se_world s) = D.

(** A step on the store. *)
Lemma t_local_at {A} (m : M disk store_error A) (P : disk -> Prop) (Q : A -> disk -> Prop) (E : disk -> Prop) :
  triple P m Q (fun _ => E) -> triple (at_disk P) (local m) (fun a => at_disk (Q a)) (fun _ => at_disk E).
Proof.
  intros Hm s [Hp Hd]. specialize (Hm _ Hp). unfold local, on_world, on_disk. simpl.
  destruct (m (w_disk (se_world s))) as [[a|e] d]; by split.
Qed.

Lemma call_stable {A} (P : disk -> Prop) `{!Stable P} (e : answer A -> event) (op : M R transport_error A) s :
  P (w_disk (se_world s)) -> P (w_disk (se_world (call e op s).2)).
Proof.
  intros Hp. unfold call. destruct (negb _); [done|].
  assert (forall os, P (with_outcomes os (w_disk (se_world s)))) as Ho by (intros os; by apply stable_outcomes).
  destruct (outcomes _) as [|[|err [|k]|[|k]] os]; try apply Ho; try (by apply stable_kill, Ho);
    [by destruct (op (se_remote s))|destruct (op (se_remote (with_calls os s))) as [x r']..];
    [apply Ho|apply Ho|by apply stable_kill, Ho].
Qed.

Lemma grown_ok O1 : grown pool O O1 -> resident_ok O1.
Proof. intros Hg digest b ro Hb. destruct (gr_clean _ _ _ Hg _ _ Hb) as (b' & [= -> ->] & ? & ?). done. Qed.
Lemma stay O1 s : grown pool O O1 -> at_disk (objects_are O1) s -> pulling s.
Proof. intros Hg [Ho Hd]. split; [by rewrite Ho|done]. Qed.

(** The remote's blocks, in the writer. *)
Definition received O1 (w : object_writer) (d : disk) : Prop :=
  exists bytes, pool bytes /\ zlen bytes < U64 /\ objects_are O1 d /\ writing bytes w d.

Lemma t_download_into O1 grant w :
  triple (at_disk (fun d => objects_are O1 d /\ writing [] w d)) (download_into grant w)
    (fun w' => at_disk (received O1 w')) (fun _ => at_disk (objects_are O1)).
Proof using Hserves.
  intros s [(Ho & Hw & Ht) Hd]. unfold download_into.
  set (op := fun r : R => let '(blocks, ans, r) := t_download grant r in (Ok (blocks, ans), r) : result transport_error _ * R).
  pose proof (call_cases (EDownload (dg_digest grant)) op s) as Hc.
  pose proof (call_stable (objects_are O1) (EDownload (dg_digest grant)) op s Ho) as Ho2.
  pose proof (call_stable (holds_temp (w_path w) []) (EDownload (dg_digest grant)) op s Ht) as Ht2.
  destruct (call (EDownload (dg_digest grant)) op s) as [[[blocks ans]|er] s2] eqn:Ec; cbn [snd] in *;
    destruct Hc as (_ & Htab & _); injection Htab as Hd2 _; rewrite Hd in Hd2; [|done].
  apply call_answer in Ec as (r & r' & Hr). specialize (Hserves grant r). pose proof (t_download_u64 grant r) as Hlen.
  unfold op in Hr. destruct (t_download grant r) as [[blocks' ans'] r2]. cbn [fst] in *. injection Hr as -> -> _.
  pose proof (t_sink_writer O1 w blocks [] ltac:(done) (w_disk (se_world s2)) (conj Ho2 (conj Hw Ht2))) as Hsink.
  unfold on_world, on_disk. cbn [disk_of world_has_disk].
  destruct (sink_writer w blocks (w_disk (se_world s2))) as [[w'|e] d3]; cbn [map_err]; [|by split].
  destruct Hsink as [Ho3 Hw3]. destruct ans as [n|e]; split; try done. by exists (concat blocks).
Qed.

Lemma f_drop_writer w : framed pulling (drop_writer w).
Proof.
  intros s [Hg Hd]. unfold drop_writer.
  assert (triple (at_disk (on_objects (grown pool O))) (local (dropping (w_path w) (fail (A := unit) (SE_Io NotFound))))
    (fun _ => at_disk (on_objects (grown pool O))) (fun _ => at_disk (on_objects (grown pool O)))) as Ht.
  { apply t_local_at, t_dropping. by apply t_fail. }
  specialize (Ht s (conj Hg Hd)). by destruct (local _ s) as [[u|e] s'].
Qed.

Lemma t_admit_received O1 w digest n :
  grown pool O O1 ->
  triple (at_disk (received O1 w)) (local (finish_expecting w digest n)) (fun _ => pulling) (fun _ => pulling).
Proof.
  intros Hg s [(bytes & Hp & Hl & Ho & Hw) Hd].
  pose proof (t_finish_expecting O1 bytes w digest n (grown_ok _ Hg) _ (conj Ho Hw)) as Hf.
  unfold local, on_world, on_disk. cbn [disk_of world_has_disk].
  destruct (finish_expecting _ _ _ _) as [[a|e] d3]; cbn; (split; [|done]).
  - destruct Hf as [Hput _]. apply (grown_installed pool O O1 bytes); [done..|exact (put_post_installed _ _ _ _ Hput)].
  - by apply (grown_installed pool O O1 bytes).
Qed.

(** An attempt is a fresh writer, the remote's blocks into it, and either the
    verified admission or the writer dropped. *)
Lemma f_download_and_admit fuel grant attempts attempt :
  framed pulling (download_and_admit fuel grant attempts attempt).
Proof using Hserves.
  revert attempt. induction fuel as [|fuel IH]; intros attempt; [apply f_fail|]. cbn [download_and_admit].
  intros s [Hg Hd]. set (O1 := objects (w_disk (se_world s))) in *.
  assert (at_disk (objects_are O1) s) as Hs by done. clearbody O1. revert s Hd Hs. intros s _ Hs. revert s Hs.
  match goal with |- forall s, _ -> match ?m s with _ => _ end =>
    change (triple (at_disk (objects_are O1)) m (fun _ => pulling) (fun _ => pulling)) end.
  eapply t_bind with (Q' := fun w => at_disk (fun d => objects_are O1 d /\ writing [] w d)).
  { eapply t_conseq; [apply (t_local_at writer (objects_are O1)
      (fun w d => objects_are O1 d /\ writing [] w d) (objects_are O1))|done|done|intros e s; by apply stay].
    intros d Hd. by apply t_writer_loop. }
  intros w s Hs. pose proof (t_download_into O1 grant w s Hs) as Hdl.
  destruct (download_into grant w s) as [[w'|e] s2].
  - assert (triple (at_disk (received O1 w')) (local (finish_expecting w' (dg_digest grant) (dg_length grant));;; ret tt)
      (fun _ => pulling) (fun _ => pulling)) as Hf; [|by apply Hf].
    eapply t_bind; [by apply t_admit_received|]. intros a. by apply t_ret.
  - assert (framed pulling (drop_writer w;;; match e with
      | TE_Io detail => let attempt := attempt + 1 in
          if attempts <=? attempt then fail (SY_Transport (TE_Io detail)) else download_and_admit fuel grant attempts attempt
      | _ => fail (SY_Transport e) end)) as Hf; [|by apply Hf, (stay O1)].
    apply f_bind; [apply f_drop_writer|]. intros u. destruct e; try apply f_fail.
    cbv zeta. destruct (_ <=? _); [apply f_fail|apply IH].
Qed.

Lemma f_journal_step st x : framed pulling (journal_step st x).
Proof.
  destruct st as [report missing], x as [digest n]. unfold journal_step. apply f_bind.
  - intros s [Hg Hd]. set (O1 := objects (w_disk (se_world s))) in *.
    assert (at_disk (objects_are O1) s) as Hs by done.
    assert (triple (objects_are O1) (exists_object digest) (fun _ => objects_are O1) (fun _ => objects_are O1)) as Hx.
    { intros d Ho. pose proof (t_exists _ digest d Ho) as He. destruct (exists_object digest d) as [[b|e] d']; apply He. }
    pose proof (t_local_at _ _ _ _ Hx s Hs) as Hl. destruct (local _ s) as [[b|e] s']; by eapply (stay O1).
  - intros []; [|apply f_ret]. apply f_bind; [apply f_report_pull|]. intros. apply f_ret.
Qed.

Lemma f_fetch_batch report batch : framed pulling (fetch_batch report batch).
Proof using Hserves.
  unfold fetch_batch. apply f_bind; [apply f_asked_pull|]. intros grants. apply f_for. intros report' [digest n] _.
  unfold fetch_one. destruct (list_find _ _) as [[i grant]|]; [|apply f_fail].
  apply f_bind; [apply f_download_and_admit|]. intros u.
  apply f_bind; [apply f_report_pull|]. intros u'. apply f_ret.
Qed.

(** The manifest a pull decodes: the pool's one string of that digest. *)
Definition manifest_of (id bytes : list byte) : Prop := pool bytes /\ sha256 bytes = id /\ zlen bytes < U64.

Lemma t_fetch_manifest id :
  triple pulling (fetch_manifest id) (fun bytes s => pulling s /\ manifest_of id bytes) (fun _ => pulling).
Proof using Hserves.
  unfold fetch_manifest. eapply t_bind; [apply f_asked_pull|]. intros grants.
  destruct (list_find _ _) as [[i grant]|]; [|by apply t_fail].
  set (op := fun r : R => let '(blocks, ans, r) := t_download grant r in (Ok (blocks, ans), r) : result transport_error _ * R).
  eapply t_bind with (Q' := fun ba s => pulling s /\ (pool (concat ba.1) /\ zlen (concat ba.1) < U64)).
  - intros s Hs. pose proof (f_call_pull (EDownload (manifest_object_digest id)) op s Hs) as Hc. unfold asked, map_err_m.
    destruct (call _ op s) as [[[blocks ans]|e] s'] eqn:Ec; [|exact Hc]. split; [exact Hc|].
    apply call_answer in Ec as (r & r' & Hr). unfold op in Hr. specialize (Hserves grant r). pose proof (t_download_u64 grant r) as Hl.
    destruct (t_download grant r) as [[blocks' ans'] r2]. injection Hr as -> -> _. done.
  - intros [blocks ans]. apply t_pure_r. intros [Hp Hl]. cbn [fst] in *.
    eapply t_bind; [apply f_lift|]. intros u. case_decide as Hid; [|by apply t_fail]. apply t_ret. intros s Hs. by split.
Qed.

Lemma t_read_rooted O1 id :
  clean O1 ->
  triple (on_state false (fun O' D' => O' = O1 /\ D' = D)) (load_snapshot id)
    (fun snap s => (objects (w_disk s) = O1 /\ w_db s = D) /\ readable_at O1 id snap)
    (fun _ s => objects (w_disk s) = O1 /\ w_db s = D).
Proof.
  intros Hc. unfold load_snapshot, read_rooted_snapshot. eapply t_bind.
  - eapply t_conseq; [apply (t_sql_read_at false O1 D True (fun d => Ok (snapshots d !! id))); done|done|
      intros a s Hx; exact Hx|by intros e s [? _]].
  - intros row. apply t_pure_r. intros _. destruct row; [|apply t_fail; by intros s []].
    eapply t_conseq; [apply (t_read_manifest false O1 D id), Hc|done| |by intros e s [? _]]. by intros snap s [[? _] ?].
Qed.

Lemma t_manifest_bytes id :
  triple pulling (manifest_bytes id) (fun bytes s => pulling s /\ manifest_of id bytes) (fun _ => pulling).
Proof using Hserves.
  intros s [Hg Hd]. unfold manifest_bytes, on_world.
  pose proof (t_read_rooted (objects (w_disk (se_world s))) id (gr_clean _ _ _ Hg) (se_world s)
    ltac:(split; [by split|discriminate])) as Hl.
  destruct (load_snapshot id (se_world s)) as [[snap|e] w]; cbn [map_err].
  - destruct Hl as [[Ho HD] (bytes & ro & Hb & Hdec)]. split; [split; cbn; congruence|].
    destruct (gr_clean _ _ _ Hg _ _ Hb) as (b' & [= <- ->] & Hsha & Hlen).
    destruct (decode_sound _ _ Hlen Hdec) as (-> & _ & _). split; [by eapply gr_pool|]. done.
  - destruct Hl as [Ho HD]. assert (pulling (with_world w s)) as Hs by (split; cbn; congruence).
    destruct e; try exact Hs. by apply t_fetch_manifest.
Qed.
End pull.
