(* ===== verification/SyncTermination.v ===== *)
(** How long the sync engine's loops run ([src/crates/tensorfs-core/src/sync.rs]):
    the retries of an upload or a download always end, completion ends against
    every remote, and the replans end against a remote whose debt does not
    grow. *)
From S2P Require Import Tfp1.
From S2P Require Export SyncPush.

(** ** Runs that never lack fuel *)

Definition fuelled {S A} (P : S -> Prop) (m : M S sync_error A) (Q : A -> S -> Prop) : Prop :=
  triple P m Q (fun e _ => e <> SY_OutOfFuel).

Lemma verify_lanes_fuel closure missing blobs max_payload :
  verify_lanes closure missing blobs max_payload <> Err SY_OutOfFuel.
Proof.
  assert (forall closure missing, verify_canonical_missing closure missing <> Err SY_OutOfFuel) as Hc.
  { intros c m. revert c. induction m as [|[digest n] m IH]; intros c; simpl; [done|].
    destruct (find_from digest c) as [[e rest]|]; [|done]. destruct (negb _); [done|apply IH]. }
  assert (forall (p : Z -> bool) (e : list byte -> Z -> sync_error) l, (forall d n, e d n <> SY_OutOfFuel) ->
    for_each (fun (_ : unit) '(digest, n) => if p n then Err (e digest n) else Ok tt) tt l <> Err SY_OutOfFuel) as Hl.
  { intros p e l He. induction l as [|[digest n] l IH]; simpl; [done|]. destruct (p n); simpl; [|exact IH].
    intros [= Heq]. by apply (He digest n). }
  unfold verify_lanes. pose proof (Hc closure missing) as H1. pose proof (Hc closure blobs) as H2.
  destruct (verify_canonical_missing closure missing) as [u|e1]; simpl; [|congruence].
  destruct (verify_canonical_missing closure blobs) as [u'|e2]; simpl; [|congruence].
  pose proof (Hl (fun n => max_payload <? n) (fun d n => SY_BlobLaneMismatch d n max_payload false) missing ltac:(done)) as H3.
  pose proof (Hl (fun n => n <=? max_payload) (fun d n => SY_BlobLaneMismatch d n max_payload true) blobs ltac:(done)) as H4.
  destruct (for_each _ tt missing) as [u2|e3]; simpl; [exact H4|intros [= ->]; by apply H3].
Qed.

Section termination.
Context {R : Type} `{SyncTransport R, Sha256, Unicode, Unordered, Rowid, Allocator}.

Lemma u_local {A} (P : session R -> Prop) (m : M disk store_error A) :
  (forall w s, P s -> P (with_world w s)) -> fuelled P (local m) (fun _ => P).
Proof.
  intros HP s Hs. unfold local, on_world. destruct (on_disk m (se_world s)) as [[a|e] w]; simpl; [by apply HP|done].
Qed.
Lemma u_report (P : session R -> Prop) digest n :
  (forall e s, P s -> P (with_log e s)) -> fuelled P (report_object digest n) (fun _ => P).
Proof. intros HP. apply t_modify. intros s Hs. by apply HP. Qed.

(** A remote that settles.  Its debt, the pack-lane objects its answers list as
    missing, is made greater by no call of a session; and it has room for only so
    many more parts, one of which each part it accepts takes: what has landed is
    not asked for again. *)
Record settling (debt room : R -> Z) : Prop := {
  se_room r : 0 <= room r;
  se_declare manifest head r : room (t_declare manifest head r).2 <= room r;
  se_declared manifest head r plan r' :
    t_declare manifest head r = (Ok plan, r') -> zlen (pl_missing plan) = debt r';
  se_claims sid claims r : debt (t_pack_grants sid claims r).2 <= debt r;
  se_probe sid r g r' : t_pack_grants sid [] r = (Ok g, r') -> zlen (gp_missing g) = debt r';
  se_upload grant pack r : debt (t_upload_pack grant pack r).2 <= debt r;
  se_blob_grants sid digests r :
    let r' := (t_blob_grants sid digests r).2 in debt r' <= debt r /\ room r' <= room r;
  se_part part bytes r :
    let '(a, r') := t_upload_blob_part part bytes r in
    debt r' <= debt r /\ room r' <= room r - (match a with Ok _ => 1 | Err _ => 0 end);
  se_report sid digest parts r :
    let r' := (t_report_blob_parts sid digest parts r).2 in debt r' <= debt r /\ room r' <= room r
}.

Context (debt room : R -> Z).
Definition owes (k : Z) (s : session R) : Prop := debt (se_remote s) <= k.

Lemma call_remote {A} (e : answer A -> event) (op : M R transport_error A) s :
  let '(r, s') := call e op s in
  (se_remote s' = se_remote s /\ exists err, r = Err err) \/
  (se_remote s' = (op (se_remote s)).2 /\ forall a, r = Ok a -> (op (se_remote s)).1 = Ok a).
Proof.
  unfold call. destruct (negb _); [left; eauto|].
  destruct (outcomes _) as [|[|err [|k]|[|k]] os]; try (by left; eauto);
    [destruct (op (se_remote s)) as [x r'] eqn:E|
     change (se_remote (with_calls os s)) with (se_remote s); destruct (op (se_remote s)) as [x r'] eqn:E..];
    right; by split; [|intros; simplify_eq].
Qed.

(** What a call that only lowers a potential leaves of it. *)
Lemma u_call {A} (e : answer A -> event) (op : M R transport_error A) k s :
  (forall r, debt (op r).2 <= debt r) -> owes k s -> owes k (call e op s).2.
Proof.
  intros Hop Hs. pose proof (call_remote e op s) as Hc. destruct (call e op s) as [r s']. unfold owes in *. simpl.
  destruct Hc as [[-> _]|[-> _]]; [done|]. specialize (Hop (se_remote s)). lia.
Qed.

(** ** Uploads and groups *)

Lemma u_upload_pack_loop fuel options attempt grant encoded k :
  settling debt room -> 0 <= attempt -> max_upload_attempts options - attempt < Z.of_nat fuel -> (0 < fuel)%nat ->
  fuelled (owes k) (upload_pack_loop fuel options attempt grant encoded) (fun _ => owes k).
Proof.
  intros Hd. revert attempt. induction fuel as [|fuel IH]; intros attempt Ha Hf Hpos; [lia|].
  intros s Hs. cbn [upload_pack_loop].
  pose proof (u_call (EUploadPack grant encoded) (t_upload_pack grant encoded) k s (se_upload _ _ Hd grant encoded) Hs) as Hc.
  destruct (call _ _ s) as [[[]|[d|c d|d]] s']; simpl in *; try done.
  destruct (Z.leb_spec (max_upload_attempts options) (attempt + 1)); [done|]. apply IH; lia || done.
Qed.

Lemma u_push_group options sid report members k :
  settling debt room -> fuelled (owes k) (push_group options sid report members) (fun _ => owes k).
Proof.
  intros Hd. unfold push_group. eapply t_bind with (Q' := fun _ => owes k).
  { apply (t_for load_member [] members (fun _ _ => owes k) (fun e _ => e <> SY_OutOfFuel)).
    intros pre [digest n] post loaded _. unfold load_member.
    eapply t_bind; [by apply u_local|]. intros file. eapply t_bind; [by apply u_local|]. intros bytes.
    destruct (negb _); [by apply t_fail|by apply t_ret]. }
  intros objs. eapply t_bind with (Q' := fun _ => owes k).
  { apply t_lift. intros s Hs. by destruct (Tfp1.encode objs). }
  intros encoded. cbv zeta. set (claim := claim_of encoded members). intros s Hs.
  pose proof (u_call (EProbe [claim]) (t_pack_grants sid [claim]) k s (se_claims _ _ Hd sid [claim]) Hs) as Hc.
  destruct (call _ _ s) as [[granted|[d|c d|d]] s']; simpl in Hc; try done.
  destruct (list_find _ _) as [[i grant]|]; [|by destruct (existsb _ _)].
  assert (fuelled (owes k) (let<- landed := upload_pack_loop (upload_fuel options) options 0 grant encoded in
    if landed : bool then
      for_m (fun (_ : unit) '(digest, length) => report_object digest length) tt members;;;
      ret (Some (count_pack members report))
    else ret None) (fun _ => owes k)) as Hf; [|exact (Hf s' Hc)].
  eapply t_bind; [apply u_upload_pack_loop; unfold upload_fuel; (done || lia)|].
  intros []; [|by apply t_ret]. eapply t_bind with (Q' := fun _ => owes k); [|intros u; by apply t_ret].
  apply (t_for _ tt members (fun _ _ => owes k) (fun e _ => e <> SY_OutOfFuel)).
  intros pre [digest n] post u _. by apply u_report.
Qed.

Lemma u_push_groups options sid report groups k :
  settling debt room -> fuelled (owes k) (push_groups options sid report groups) (fun _ => owes k).
Proof.
  intros Hd. revert report. induction groups as [|g groups IH]; intros report; cbn [push_groups]; [by apply t_ret|].
  eapply t_bind; [by apply u_push_group|]. intros [r|]; [apply IH|by apply t_ret].
Qed.

(** ** Replanning *)

(** The rounds a debt can take: each unit of it may be paid only after all the
    stalls the budget allows. *)
Definition replan_rounds (options : push_options) (stalled owed : Z) : Z :=
  owed * Z.max 1 (max_stalled_replans options) + (Z.max 1 (max_stalled_replans options) - stalled).

Lemma u_probe sid k s :
  settling debt room -> owes k s ->
  match asked (EProbe []) (t_pack_grants sid []) s with
  | (Ok g, s') => zlen (gp_missing g) <= k /\ owes (zlen (gp_missing g)) s'
  | (Err e, _) => e <> SY_OutOfFuel
  end.
Proof.
  intros Hd Hs. unfold asked, map_err_m. pose proof (call_remote (EProbe []) (t_pack_grants sid []) s) as Hc.
  destruct (call _ _ s) as [[g|e] s']; simpl; [|done]. destruct Hc as [[_ [err [=]]]|[Hr Ha]].
  pose proof (se_claims _ _ Hd sid [] (se_remote s)) as Hle.
  destruct (t_pack_grants sid [] (se_remote s)) as [x r'] eqn:E. simpl in *. specialize (Ha g eq_refl). subst x.
  pose proof (se_probe _ _ Hd _ _ _ _ E) as Hp. unfold owes in *. rewrite Hr. lia.
Qed.

Lemma u_replan_loop fuel options sid C max_payload stalled missing report :
  settling debt room -> 0 <= stalled -> stalled < Z.max 1 (max_stalled_replans options) ->
  replan_rounds options stalled (zlen missing) <= Z.of_nat fuel ->
  fuelled (owes (zlen missing)) (replan_loop fuel options sid C max_payload stalled missing report)
    (fun _ _ => True).
Proof.
  intros Hd. revert stalled missing report. set (b := Z.max 1 (max_stalled_replans options)).
  induction fuel as [|fuel IH]; intros stalled missing report Hs0 Hb Hf.
  { destruct missing as [|x missing]; cbn [replan_loop]; [by apply t_ret|]. unfold replan_rounds in Hf. fold b in Hf.
    rewrite zlen_cons in Hf. pose proof (zlen_nonneg missing). nia. }
  destruct missing as [|x missing]; cbn [replan_loop]; [by apply t_ret|]. set (all := x :: missing) in *.
  eapply t_bind; [by apply u_push_groups|]. intros report'. cbv zeta.
  intros s Hs. unfold bind at 1. pose proof (u_probe sid _ s Hd Hs) as Hp.
  destruct (asked _ _ s) as [[g|e] s']; [|done]. destruct Hp as [Hle Hs'].
  assert (fuelled (owes (zlen (gp_missing g)))
    (lift (verify_lanes C (gp_missing g) (gp_missing_blobs g) max_payload);;;
     if zlen (gp_missing g) <? zlen all then replan_loop fuel options sid C max_payload 0 (gp_missing g) (count_replan report')
     else if max_stalled_replans options <=? stalled + 1
       then fail (SY_ReplansStalled (stalled + 1) (zlen (gp_missing g)))
       else replan_loop fuel options sid C max_payload (stalled + 1) (gp_missing g) (count_replan report'))
    (fun _ _ => True)) as Hrest; [|exact (Hrest s' Hs')].
  eapply t_bind with (Q' := fun _ => owes (zlen (gp_missing g))).
  { apply t_lift. intros s1 Hs1. destruct (verify_lanes C _ _ _) as [u|e] eqn:Ev; [done|]. intros ->.
    by apply verify_lanes_fuel in Ev. }
  intros u. unfold replan_rounds in *. fold b in Hf, IH |- *.
  destruct (Z.ltb_spec (zlen (gp_missing g)) (zlen all)).
  - apply IH; [lia|lia|]. nia.
  - assert (zlen (gp_missing g) = zlen all) as Heq by lia.
    destruct (Z.leb_spec (max_stalled_replans options) (stalled + 1)); [by apply t_fail|].
    apply IH; [lia|lia|]. rewrite Heq. lia.
Qed.

(** ** The blob lane *)

Definition within (k j : Z) (s : session R) : Prop := owes k s /\ room (se_remote s) <= j.

(** A round that began with room [j] and [before] parts counted: room is never
    regained, and the count moves only when some is taken. *)
Definition landing (before k j : Z) (report : push_report) (s : session R) : Prop :=
  within k j s /\ (blob_parts report = before \/ room (se_remote s) < j).

Lemma landing_step before k j report s s' :
  landing before k j report s -> debt (se_remote s') <= debt (se_remote s) ->
  room (se_remote s') <= room (se_remote s) -> landing before k j report s'.
Proof. unfold landing, within, owes. intros [[? ?] [?|?]]; split; try (split; lia); [by left|right; lia]. Qed.

Lemma landing_call {A} (e : answer A -> event) (op : M R transport_error A) before k j report s :
  (forall r, debt (op r).2 <= debt r /\ room (op r).2 <= room r) -> landing before k j report s ->
  landing before k j report (call e op s).2.
Proof.
  intros Hop Hs. pose proof (call_remote e op s) as Hc. destruct (call e op s) as [r s']. simpl.
  destruct (Hop (se_remote s)). eapply landing_step; [done|..]; destruct Hc as [[-> _]|[-> _]]; lia.
Qed.

Lemma u_upload_part_loop fuel options attempt digest part buffer before k j report :
  settling debt room -> 0 <= attempt -> max_upload_attempts options - attempt < Z.of_nat fuel -> (0 < fuel)%nat ->
  fuelled (landing before k j report) (upload_part_loop fuel options attempt digest part buffer)
    (fun etag => landing before k j (match etag with Some _ => count_part report | None => report end)).
Proof.
  intros Hd. revert attempt. induction fuel as [|fuel IH]; intros attempt Ha Hf Hpos; [lia|].
  intros s Hs. cbn [upload_part_loop]. set (op := t_upload_blob_part part buffer).
  pose proof (call_remote (EUploadPart part buffer) op s) as Hc.
  assert (landing before k j report (call (EUploadPart part buffer) op s).2) as Hl.
  { apply landing_call; [|done]. intros r. pose proof (se_part _ _ Hd part buffer r) as Hp. unfold op.
    destruct (t_upload_blob_part part buffer r) as [[a|e] r']; simpl in *; lia. }
  destruct (call _ op s) as [[etag|[d|c d|d]] s']; simpl in *; try done.
  - destruct Hc as [[_ [err [=]]]|[Hr Hok]]. specialize (Hok etag eq_refl).
    pose proof (se_part _ _ Hd part buffer (se_remote s)) as Hp. fold op in Hp.
    destruct (op (se_remote s)) as [x r']. simpl in *. subst x. destruct Hl as [Hw _]. split; [done|].
    right. rewrite Hr. destruct Hs as [[_ ?] _]. lia.
  - destruct (Z.leb_spec (max_upload_attempts options) (attempt + 1)); [done|]. apply IH; lia || done.
Qed.

Lemma u_report_landed sid digest landed before k j report :
  settling debt room ->
  fuelled (landing before k j report) (report_landed sid digest landed) (fun _ => landing before k j report).
Proof.
  intros Hd. unfold report_landed. case_bool_decide; [by apply t_ret|]. intros s Hs. unfold asked, map_err_m.
  pose proof (landing_call (EReportParts digest landed) (t_report_blob_parts sid digest landed) before k j report s
    (se_report _ _ Hd sid digest landed) Hs) as Hl.
  by destruct (call _ _ s) as [[u|e] s'].
Qed.

Lemma landing_world before k j report w (s : session R) :
  landing before k j report s -> landing before k j report (with_world w s).
Proof. done. Qed.
Lemma landing_log before k j report e (s : session R) :
  landing before k j report s -> landing before k j report (with_log e s).
Proof. done. Qed.

Lemma u_push_parts options sid digest records uploaded before k j :
  settling debt room -> forall parts landed offset report,
  fuelled (landing before k j report) (push_parts options sid digest records uploaded landed offset parts report)
    (fun rb => landing before k j rb.1).
Proof.
  intros Hd. induction parts as [|part parts IH]; intros landed offset report; cbn [push_parts]; cbv zeta.
  { eapply t_bind; [by apply u_report_landed|]. intros u. by apply t_ret. }
  case_bool_decide; [apply IH|]. eapply t_bind; [apply u_local, landing_world|]. intros buffer.
  eapply t_bind; [apply u_upload_part_loop; unfold upload_fuel; (done || lia)|].
  intros [etag|]; [apply IH|]. eapply t_bind; [by apply u_report_landed|]. intros u. by apply t_ret.
Qed.

Lemma u_push_one_blob options sid grant n before k j report :
  settling debt room ->
  fuelled (landing before k j report) (push_one_blob options sid grant n report) (fun rb => landing before k j rb.1).
Proof.
  intros Hd. unfold push_one_blob. cbv zeta. destruct (negb _); [by apply t_fail|]. destruct (negb _); [by apply t_fail|].
  eapply t_bind; [apply u_local, landing_world|]. intros file.
  eapply t_bind; [apply u_local, landing_world|]. intros len. destruct (negb _); [by apply t_fail|]. by apply u_push_parts.
Qed.

(** What a round puts off is no more than it was given. *)
Definition put_off (before k j base : Z) (st : push_report * owed) (s : session R) : Prop :=
  landing before k j st.1 s /\ zlen st.2 <= base.

Lemma u_push_batch_blob options sid grants before k j base st blob :
  settling debt room ->
  fuelled (put_off before k j base st) (push_batch_blob options sid grants st blob) (put_off before k j (base + 1)).
Proof.
  intros Hd. destruct st as [report deferred], blob as [digest n]. unfold push_batch_blob.
  destruct (list_find _ _) as [[i grant]|]; [|by apply t_fail]. unfold put_off. simpl. apply t_pure_r. intros Hb.
  eapply t_bind; [by apply u_push_one_blob|]. intros [report' []]; simpl.
  - eapply t_bind; [apply u_report, landing_log|]. intros u. apply t_ret. intros s Hs. simpl. split; [exact Hs|lia].
  - apply t_ret. intros s Hs. simpl. split; [exact Hs|]. rewrite zlen_app, zlen_cons, zlen_nil. lia.
Qed.

Lemma u_push_batch options sid before k j base st batch :
  settling debt room ->
  fuelled (put_off before k j base st) (push_batch options sid st batch) (put_off before k j (base + zlen batch)).
Proof.
  intros Hd s [Hl Hb]. unfold push_batch.
  pose proof (landing_call (EBlobGrants batch.*1) (t_blob_grants sid batch.*1) before k j st.1 s
    (se_blob_grants _ _ Hd sid batch.*1) Hl) as Hc.
  destruct (call _ _ s) as [[grants|[d|c d|d]] s']; simpl in Hc; try done.
  - assert (fuelled (put_off before k j base st) (for_m (push_batch_blob options sid grants) st batch)
      (put_off before k j (base + zlen batch))) as Hf; [|exact (Hf s' (conj Hc Hb))].
    eapply t_conseq; [apply (t_for _ st batch (fun pre => put_off before k j (base + zlen pre)) (fun e _ => e <> SY_OutOfFuel))| | |done].
    + intros pre x post a _. rewrite zlen_app, zlen_cons, zlen_nil.
      replace (base + (zlen pre + (1 + 0))) with (base + zlen pre + 1) by lia. by apply u_push_batch_blob.
    + intros s0 Hs0. rewrite zlen_nil, Z.add_0_r. exact Hs0.
    + intros a s0 Hs0. exact Hs0.
  - split; [exact Hc|]. simpl. rewrite zlen_app. lia.
Qed.

(** The rounds the lane can take. *)
Definition lane_rounds (options : push_options) (stalled j pending : Z) : Z :=
  (j + pending) * Z.max 1 (max_stalled_replans options) + (Z.max 1 (max_stalled_replans options) - stalled).

Lemma u_lane_round options sid pending report k j :
  settling debt room ->
  fuelled (within k j) (for_m (push_batch options sid) (report, []) (chunks BLOB_GRANT_BATCH pending))
    (put_off (blob_parts report) k j (zlen pending)).
Proof.
  intros Hd. eapply t_conseq; [apply (t_for _ (report, []) (chunks BLOB_GRANT_BATCH pending)
    (fun pre => put_off (blob_parts report) k j (zlen (concat pre))) (fun e _ => e <> SY_OutOfFuel))| | |done].
  - intros pre x post a _. rewrite concat_app, zlen_app. simpl. rewrite app_nil_r. by apply u_push_batch.
  - intros s Hs. split; [split; [done|by left]|]. done.
  - intros a s Hs. by rewrite (proj1 (chunks_spec BLOB_GRANT_BATCH pending ltac:(done))) in Hs.
Qed.

Lemma u_push_blob_lane fuel options sid stalled pending report k j :
  settling debt room -> 0 <= stalled -> stalled < Z.max 1 (max_stalled_replans options) ->
  lane_rounds options stalled j (zlen pending) <= Z.of_nat fuel ->
  fuelled (within k j) (push_blob_lane fuel options sid stalled pending report) (fun _ => owes k).
Proof.
  intros Hd. revert stalled pending report j. set (b := Z.max 1 (max_stalled_replans options)).
  induction fuel as [|fuel IH]; intros stalled pending report j Hs0 Hb Hf;
    (destruct pending as [|x pending]; cbn [push_blob_lane]; [apply t_ret; by intros s []|]);
    unfold lane_rounds in *; fold b in Hf; set (all := x :: pending) in *.
  { intros s [_ Hr]. pose proof (se_room _ _ Hd (se_remote s)). unfold all in Hf. rewrite zlen_cons in Hf.
    pose proof (zlen_nonneg pending). nia. }
  fold b in IH. cbv zeta. eapply t_bind; [by apply u_lane_round|]. intros [report' deferred] s [[Hw Hl] Hdef]. cbn [fst snd] in *.
  cbn [blob_parts count_replan]. pose proof (se_room _ _ Hd (se_remote s)) as Hpos. destruct Hw as [Ho Hr].
  destruct (Z.ltb_spec (zlen deferred) (zlen all)); [rewrite orb_true_r|rewrite orb_false_r].
  - apply (IH 0 deferred _ j); [lia|lia|nia|by split].
  - destruct (Z.ltb_spec (blob_parts report) (blob_parts report')).
    + apply (IH 0 deferred _ (j - 1)); [lia|lia|nia|]. split; [done|destruct Hl; lia].
    + destruct (Z.leb_spec (max_stalled_replans options) (stalled + 1)); [done|].
      apply (IH (stalled + 1) deferred _ j); [lia|lia|nia|by split].
Qed.

(** ** Completion *)

(** The polls completion can take: the count of admitted objects is a u64. *)
Definition complete_polls (options : push_options) (admitted stalls : Z) : Z :=
  (U64 - 1 - admitted) * Z.max 1 (max_completion_stalls options) + (Z.max 1 (max_completion_stalls options) - stalls).

Lemma u_complete_loop fuel options sid admitted stalls report :
  0 <= admitted < U64 -> 0 <= stalls -> stalls < Z.max 1 (max_completion_stalls options) ->
  complete_polls options admitted stalls <= Z.of_nat fuel ->
  fuelled (fun _ => True) (complete_loop fuel options sid admitted stalls report) (fun _ _ => True).
Proof.
  revert admitted stalls report. unfold complete_polls. set (b := Z.max 1 (max_completion_stalls options)).
  induction fuel as [|fuel IH]; intros admitted stalls report Ha Hs Hb Hf; [nia|].
  intros s _. cbn [complete_loop]. cbv zeta. pose proof (call_remote EComplete (t_complete sid) s) as Hc.
  destruct (call _ _ s) as [[[|code promoted total|code]|[d|c d|d]] s']; try done.
  - destruct Hc as [[_ [err [=]]]|[_ Hok]]. specialize (Hok _ eq_refl).
    destruct (t_complete sid (se_remote s)) as [x r'] eqn:E. simpl in Hok. subst x. apply t_complete_u64 in E as [_ Hu].
    destruct (Z.ltb_spec admitted promoted).
    + apply IH; [lia|lia|lia|nia|done].
    + destruct (Z.leb_spec (max_completion_stalls options) (stalls + 1)); [done|]. apply IH; [lia|lia|lia|lia|done].
  - destruct (Z.leb_spec (max_completion_stalls options) (stalls + 1)); [done|]. apply IH; [lia|lia|lia|lia|done].
Qed.

(** ** A whole push *)

(** Fuel enough for each of the loops: [j] parts can still land, and [owed]
    objects at most are missing. *)
Definition push_rounds (options : push_options) (j owed : Z) : Z :=
  Z.max (lane_rounds options 0 j owed) (Z.max (replan_rounds options 0 owed) (complete_polls options 0 0)).

Lemma verify_lanes_zlen C missing blobs max_payload :
  NoDup C.*1 -> verify_lanes C missing blobs max_payload = Ok tt -> zlen missing <= zlen C /\ zlen blobs <= zlen C.
Proof.
  intros Hnd Hv. apply verify_lanes_iff in Hv as (Hm & Hb & _); [|done]. apply sublist_length in Hm, Hb. unfold zlen. lia.
Qed.

Lemma u_push_blobs_first fuel options sid C max_payload missing blobs report j :
  settling debt room -> NoDup C.*1 -> zlen missing <= zlen C -> zlen blobs <= zlen C ->
  lane_rounds options 0 j (zlen C) <= Z.of_nat fuel ->
  fuelled (within (zlen missing) j) (push_blobs_first fuel options sid C max_payload missing blobs report)
    (fun rm s => owes (zlen rm.2) s /\ zlen rm.2 <= zlen C).
Proof.
  intros Hd Hnd Hm Hbl Hf. unfold push_blobs_first. case_bool_decide; [apply t_ret; by intros s []|].
  eapply t_bind.
  { apply (u_push_blob_lane _ _ _ _ _ _ (zlen missing) j Hd); [lia|lia|]. unfold lane_rounds in *. nia. }
  intros report' s Hs. unfold bind at 1. pose proof (u_probe sid _ s Hd Hs) as Hp.
  destruct (asked _ _ s) as [[g|e] s']; [|done]. destruct Hp as [_ Hs'].
  unfold bind, lift. destruct (verify_lanes C _ _ _) as [[]|e] eqn:Ev; [|intros ->; by apply verify_lanes_fuel in Ev].
  apply verify_lanes_zlen in Ev as [? ?]; [|done]. by destruct (gp_missing_blobs g) as [|[d n] bs].
Qed.

Lemma u_push_leased fuel id head options decoded j :
  settling debt room -> push_rounds options j (zlen (data_closure decoded)) <= Z.of_nat fuel ->
  fuelled (fun s => room (se_remote s) <= j) (push_leased fuel id head options decoded) (fun _ _ => True).
Proof.
  intros Hd Hf. unfold push_leased. cbv zeta. destruct (data_closure_spec decoded) as (Hnd & _ & _).
  set (C := data_closure decoded) in *. unfold push_rounds in Hf. pose proof (zlen_nonneg C) as HC.
  intros s Hs. unfold bind at 1, asked, map_err_m. set (m := to_bytes decoded).
  pose proof (call_remote (EDeclare m) (t_declare m head) s) as Hc.
  destruct (call _ _ s) as [[plan|e] s']; simpl map_err; [|done]. destruct Hc as [[_ [err [=]]]|[Hr Hok]].
  specialize (Hok _ eq_refl). pose proof (se_declare _ _ Hd m head (se_remote s)) as Hle.
  destruct (t_declare m head (se_remote s)) as [x r'] eqn:E. simpl in Hok, Hr, Hle. subst x.
  pose proof (se_declared _ _ Hd _ _ _ _ _ E) as Hm. destruct (negb _); [done|].
  assert (within (zlen (pl_missing plan)) j s') as Hw by (split; unfold owes; rewrite Hr; lia). clear Hs Hr Hle Hm E r' s.
  revert s' Hw. apply t_bind with (Q' := fun _ => within (zlen (pl_missing plan)) j).
  { apply (t_for _ tt (pl_have plan) (fun _ _ => within (zlen (pl_missing plan)) j) (fun e _ => e <> SY_OutOfFuel)).
    intros pre digest post u _. destruct (list_find _ _) as [[i [d n]]|]; [by apply u_report|by apply t_ret]. }
  intros u. apply t_bind with (Q' := fun _ s => within (zlen (pl_missing plan)) j s /\
    (zlen (pl_missing plan) <= zlen C /\ zlen (pl_missing_blobs plan) <= zlen C)).
  { apply t_lift. intros s Hs. destruct (verify_lanes C _ _ _) as [[]|e] eqn:Ev; [|intros ->; by apply verify_lanes_fuel in Ev].
    split; [done|]. by apply verify_lanes_zlen in Ev. }
  intros u'. apply t_pure_r. intros [Hc1 Hc2]. eapply t_bind; [apply u_push_blobs_first with (j := j); (done || lia)|].
  intros [report missing]. cbn [snd]. apply t_pure_r. intros Hc3.
  eapply t_bind; [apply u_replan_loop; [done|lia|lia|unfold replan_rounds in *; nia]|].
  intros report'. apply u_complete_loop; unfold complete_polls in *; (done || lia).
Qed.
End termination.
