(* ===== verification/SyncGuarantees.v ===== *)
(** The guarantees of the sync engine ([src/crates/tensorfs-core/src/sync.rs]),
    for every remote. *)
From S2P Require Import Tfp1.
From S2P Require Export SyncPush SyncPull SyncTermination.

(** The digests adoption checks are those of the closure. *)
Lemma entry_digests_closure snap digest :
  digest ∈ data_digests (s_entries snap ≫= entry_records) -> digest ∈ s_entries snap ≫= entry_digests.
Proof.
  intros (n & (pe & Hin & Hpe)%list_elem_of_bind)%elem_of_data_digests. apply list_elem_of_bind. exists pe.
  split; [|done]. unfold entry_records, entry_digests in *. destruct (pe.2) as [|x body|t|o]; try (by apply not_elem_of_nil in Hin).
  apply elem_of_data_digests. eauto.
Qed.

Section typed.
Context `{Unicode}.

Lemma snapshot_records_typed snap :
  wf_snapshot snap -> Forall wf_record (s_entries snap ≫= entry_records).
Proof.
  intros Hwf. apply Forall_bind. eapply Forall_impl; [exact (wf_entries _ Hwf)|]. intros [path e] He.
  destruct e as [|x body|t|o]; try constructor. unfold entry_records. simpl in *.
  destruct body as [f c n rs|n digest]; simpl in *; [apply He|]. destruct (n =? 0); [constructor|].
  apply Forall_singleton. split; apply He.
Qed.

Lemma closure_typed snap : wf_snapshot snap -> Forall (fun x => in_u64 x.2) (data_closure snap).
Proof.
  intros Hwf. pose proof (snapshot_records_typed _ Hwf) as Hr. rewrite Forall_forall in Hr.
  destruct (data_closure_spec snap) as (_ & _ & Hd). apply Forall_forall. intros [d n] Hin.
  by destruct (Hr _ (Hd _ _ Hin)).
Qed.

End typed.

(** Objects of distinct digests within the bounds encode. *)
Lemma encode_total `{Sha256} objs :
  objs <> [] -> zlen objs <= MAX_PACK_OBJECTS -> Forall object_ok objs -> NoDup objs.*1 ->
  total_bytes objs <= MAX_PACK_PAYLOAD -> exists pack, Tfp1.encode objs = Ok pack.
Proof.
  intros Hne Hc Hok Hnd Hm. eexists. apply encode_iff. exists (sort_by digest_cmp objs).
  pose proof (sort_by_perm digest_cmp objs) as Hp. split; [done|]. split; [|done].
  apply windows_distinct_sorted; [apply digest_sort_sorted|].
  assert (NoDup (sort_by digest_cmp objs).*1) as Hs by (by rewrite Hp).
  clear Hp. induction (sort_by digest_cmp objs) as [|a [|b l] IH]; [done|done|].
  change (negb (bool_decide (a.1 = b.1)) && windows_distinct (b :: l) = true).
  rewrite fmap_cons in Hs. apply NoDup_cons in Hs as [Ha Hs]. rewrite IH by done.
  rewrite bool_decide_eq_false_2; [done|]. intros Heq. apply Ha. rewrite Heq. left.
Qed.

(** *** The packs *)

(** The objects [objs] are those the rows of [group] name. *)
Definition named_by `{Sha256} (group : owed) (objs : list (list byte * list byte)) : Prop :=
  Forall2 (fun x o => o.1 = x.1 /\ sha256 o.2 = x.1 /\ zlen o.2 = x.2) group objs.

Lemma named_by_facts `{Sha256} group objs :
  named_by group objs -> objs.*1 = group.*1 /\ zlen objs = zlen group /\ total_bytes objs = group_size group.
Proof.
  induction 1 as [|x o group objs (H1 & H2 & H3) _ (IH1 & IH2 & IH3)]; [done|]. rewrite !fmap_cons, !zlen_cons. unfold group_size in *.
  change (total_bytes (o :: objs)) with (zlen o.2 + total_bytes objs).
  change (sumZ (x :: group).*2) with (x.2 + sumZ group.*2). split; [congruence|]. lia.
Qed.

Section packs.
Context `{Sha256, Unicode}.

Lemma closure_nonzero snap : wf_snapshot snap -> Forall (fun x => x.2 <> 0) (data_closure snap).
Proof.
  intros Hwf. destruct (data_closure_spec snap) as (_ & _ & Hd). apply Forall_forall. intros [d n] Hin.
  apply Hd, list_elem_of_bind in Hin as ([path e] & Hr & Hpe). pose proof (wf_entries _ Hwf) as He.
  rewrite Forall_forall in He. specialize (He _ Hpe). unfold entry_records in Hr.
  destruct e as [|x body|t|o]; try (by apply not_elem_of_nil in Hr).
  simpl in *. destruct body as [f c m rs|m digest]; simpl in *.
  - destruct He as (_ & Hrun & _). pose proof (wrr_nonzero _ _ Hrun) as Hnz. rewrite Forall_forall in Hnz. exact (Hnz _ Hr).
  - destruct (Z.eqb_spec m 0); [by apply not_elem_of_nil in Hr|]. by apply list_elem_of_singleton in Hr as [= -> ->].
Qed.

(** What is missing travels whole.  The missing set a push accepts from a
    remote is cut into packs that hold it in the manifest's own order, each as
    full as the object after it allowed; and every pack, filled with the objects
    its rows name, is within the format's bounds: encoding it cannot fail. *)
Theorem packs_hold_missing snap missing blobs max_payload :
  wf_snapshot snap -> 0 <= max_payload <= MAX_PACK_PAYLOAD ->
  verify_lanes (data_closure snap) missing blobs max_payload = Ok tt ->
  missing `sublist_of` data_closure snap /\
  concat (assemble max_payload missing) = missing /\ greedy max_payload (assemble max_payload missing) /\
  forall group objs, group ∈ assemble max_payload missing -> named_by group objs ->
    exists pack, Tfp1.encode objs = Ok pack.
Proof.
  intros Hwf Hm Hv. destruct (data_closure_spec snap) as (Hnd & _ & _).
  apply verify_lanes_iff in Hv as (Hsub & _ & Hle & _); [|done].
  pose proof (closure_typed _ Hwf) as Hty. pose proof (closure_nonzero _ Hwf) as Hnz.
  assert (Forall (fun x => 0 < x.2 <= max_payload) missing) as Hpos.
  { apply Forall_forall. intros x Hx. rewrite Forall_forall in Hle, Hty, Hnz.
    assert (x ∈ data_closure snap) as Hin by (by eapply elem_of_sublist).
    specialize (Hle _ Hx). specialize (Hnz _ Hin). destruct (Hty _ Hin). lia. }
  destruct (assemble_spec max_payload missing Hm ltac:(eapply Forall_impl; [exact Hpos|]; cbn; lia)) as (Hc & Hp & Hg).
  split; [done|]. split; [done|]. split; [done|]. intros group objs Hin Hnamed.
  rewrite Forall_forall in Hp. destruct (Hp _ Hin) as (Hne & Hcnt & Hsize).
  destruct (named_by_facts _ _ Hnamed) as (Hkeys & Hlen & Htot).
  assert (group `sublist_of` missing) as Hsubg.
  { apply list_elem_of_split in Hin as (l1 & l2 & Hl). rewrite <-Hc, Hl, concat_app. simpl.
    apply sublist_inserts_l, sublist_inserts_r. done. }
  apply encode_total.
  - intros ->. by apply Forall2_nil_inv_r in Hnamed.
  - lia.
  - apply Forall_forall. intros o Ho. apply list_elem_of_lookup in Ho as [i Hi].
    destruct (Forall2_lookup_r _ _ _ _ _ Hnamed Hi) as (x & Hx & Ho1 & Ho2 & Ho3).
    rewrite Forall_forall in Hpos. specialize (Hpos x (elem_of_sublist _ _ _ (list_elem_of_lookup_2 _ _ _ Hx) Hsubg)).
    split; [intros Hn; rewrite Hn in Ho3; unfold zlen in Ho3; simpl in Ho3; lia|]. split; [|congruence].
    unfold MAX_PACK_PAYLOAD in Hm. lia.
  - rewrite Hkeys. eapply sublist_NoDup; [exact Hnd|]. apply fmap_sublist. by etrans.
  - lia.
Qed.
End packs.

(** ** The lease *)

Section lease.
Context `{Sha256, Unicode, Unordered, Rowid, Allocator}.

(** The tables once a lease they gave out is released. *)
Definition released (lease : Z) (D : db) : db := with_lease_objects (filter (fun row => row.1 <> lease)) D.

Lemma pending_lease_released id holder snap D D1 lease :
  pending_lease_rows id holder snap D = Ok (D1, lease) ->
  leases D !! lease = None /\ release_lease_rows lease D1 = Ok (released lease D).
Proof.
  unfold pending_lease_rows, insert_lease. simpl. intros [= <- <-]. set (l := new_rowid _).
  assert (leases D !! l = None) as Hn.
  { apply not_elem_of_dom, new_rowid_fresh. }
  split; [done|]. unfold release_lease_rows. simpl. rewrite lookup_insert_eq. simpl. f_equal.
  unfold released, with_lease_objects, with_leases. simpl. f_equal.
  - by rewrite delete_insert_id.
  - apply set_eq. intros [k d]. rewrite !elem_of_filter, elem_of_union. simpl.
    split; [|naive_solver]. intros [Hk [?|Hin]]; [done|]. exfalso. apply elem_of_map in Hin as (x & [= -> _] & _). done.
Qed.

Abbreviation at_ O D := (on_state false (fun O' D' => O' = O /\ D' = D)).

Lemma t_acquire O D id holder :
  safe O D ->
  triple (at_ O D) (acquire_pending_sync_lease id holder)
    (fun ls s => objects (w_disk s) = O /\ readable_at O id ls.2 /\
       pending_lease_rows id holder ls.2 D = Ok (w_db s, ls.1))
    (fun _ s => objects (w_disk s) = O /\ w_db s = D).
Proof.
  intros Hs. unfold acquire_pending_sync_lease.
  eapply t_conseq; [apply (t_transaction false O D _ (fun ls O' D' => O' = O /\ readable_at O id ls.2 /\
    pending_lease_rows id holder ls.2 D = Ok (D', ls.1)) (fun O' => O' = O) (fun _ => True))|done| |].
  - assert (forall F e s, refused false O D F e s -> objects (w_disk s) = O /\ (false = false \/ True)) as Href.
    { intros F e s [[Ho _] _]. auto. }
    eapply t_bind with (Q' := fun snap s => at_ O D s /\ readable_at O id snap).
    + eapply t_conseq; [apply (t_read_rooted D O id), Hs|done| |].
      * intros snap s [Hx Hr]. split; [by split|done].
      * intros e s [Ho _]. auto.
    + intros snap. apply t_pure_r. intros Hr. eapply t_bind.
      * eapply t_conseq; [apply (t_sql_read_at false O D True); done|done|intros a s Hx; exact Hx|intros e s; apply Href].
      * intros lease. apply t_pure_r. intros Hl. destruct (pending_lease_rows id holder snap D) as [[D1 l1]|] eqn:Ep; [|done].
        simpl in Hl. injection Hl as ->.
        eapply t_bind with (Q' := fun _ => on_state false (fun O' D' => O' = O /\ D' = D1)).
        -- apply t_sql_write.
           ++ intros O' D0 D' [-> ->]. rewrite Ep. by intros [= <-].
           ++ intros e s [[Ho _] _]. auto.
           ++ intros e s [[[Ho _] _] _]. auto.
        -- intros u. apply t_ret. intros s [[Ho Hd] _]. split; [|done].
           split; [done|]. split; [done|]. simpl. by rewrite Ep, Hd.
  - by intros a O' D' [-> _].
  - done.
  - intros a s [Hx _]. exact Hx.
  - intros e s [[Ho HD] _]. auto.
Qed.
End lease.

(** An engine that answers keeps answering. *)
Section engine.
Context `{Sha256, Unicode, Unordered, Rowid, Allocator}.
Abbreviation idle := (fun w : world => w_engine w = []).

Lemma f_engine : framed idle engine.
Proof. intros w Hw. unfold engine. destruct (negb _); [done|]. by rewrite Hw. Qed.
Lemma f_transaction {A} (m : M world workspace_error A) : framed idle m -> framed idle (transaction m).
Proof.
  intros Hm w Hw. unfold transaction.
  assert (framed idle (engine;;; let<- a := m in engine;;; ret a)) as Hf.
  { apply f_bind; [apply f_engine|]. intros _. apply f_bind; [done|]. intros a. apply f_bind; [apply f_engine|]. intros; apply f_ret. }
  specialize (Hf w Hw). by destruct (bind _ _ w) as [[a|e] w'].
Qed.
Lemma f_sql_read {A} (f : db -> result workspace_error A) : framed idle (sql_read f).
Proof. apply f_bind; [apply f_engine|]. intros _ w Hw. by destruct (f (w_db w)). Qed.
Lemma f_sql_write (f : db -> result workspace_error db) : framed idle (sql_write f).
Proof. apply f_bind; [apply f_engine|]. intros _ w Hw. by destruct (f (w_db w)). Qed.
Lemma f_on_disk {E A} (m : M disk E A) : framed idle (on_disk m).
Proof. intros w Hw. unfold on_disk. simpl. by destruct (m (w_disk w)) as [[a|e] d]. Qed.

Lemma f_acquire id holder : framed idle (acquire_pending_sync_lease id holder).
Proof.
  apply f_transaction. apply f_bind.
  - unfold read_rooted_snapshot, read_manifest_object. apply f_bind; [apply f_sql_read|]. intros [g|]; [|apply f_fail].
    apply f_bind; [apply f_map_err, f_on_disk|]. intros bytes.
    apply f_bind; [apply f_map_err, f_on_disk|]. intros _. case_decide; [apply f_lift|apply f_fail].
  - intros snap. apply f_bind; [apply f_sql_read|]. intros lease. apply f_bind; [apply f_sql_write|]. intros; apply f_ret.
Qed.

Lemma release_cases (w : world) lease D' :
  release_lease_rows lease (w_db w) = Ok D' ->
  let w' := (release_lease lease w).2 in
  objects (w_disk w') = objects (w_disk w) /\ alive (w_disk w') = alive (w_disk w) /\
  (w_db w' = D' \/ w_db w' = w_db w) /\
  (alive (w_disk w) = true -> w_engine w = [] -> w_db w' = D').
Proof.
  intros Hr. destruct w as [d D G]. cbn [w_disk w_db w_engine] in *.
  unfold release_lease, transaction, sql_write, bind, engine. cbn [w_disk w_db w_engine].
  destruct (alive d) eqn:Ea; cbn [negb]; [|by split_and!; auto].
  destruct G as [|[] [|[] G]]; cbn [w_disk w_db w_engine]; rewrite ?Ea; cbn [negb w_db]; rewrite ?Hr;
    cbn; rewrite ?Ea; cbn; try (by split_and!; auto).
  destruct G as [|[] G]; cbn; by split_and!; auto.
Qed.
End engine.

(** ** Pushing *)

Section pushing.
Context {R : Type} `{SyncTransport R, Sha256, Unicode, Unordered, Rowid, Allocator}.

(** What a push leaves: the store sound, no object changed, and either nothing
    done at all, or a lease taken and what was sent under it. *)
Definition push_outcome (id : list byte) (s : session R) (out : result sync_error push_report * session R) : Prop :=
  let O := objects (w_disk (se_world s)) in
  let D := w_db (se_world s) in
  let '(r, s') := out in
  inv (se_world s') /\ objects (w_disk (se_world s')) = O /\
  ((exists e, r = Err e) /\ w_db (se_world s') = D /\ se_log s' = se_log s \/
   exists lease decoded sent polls,
     readable_at O id decoded /\ leases D !! lease = None /\
     (w_db (se_world s') = released lease D \/
      pending_lease_rows id PUSH_LEASE_HOLDER decoded D = Ok (w_db (se_world s'), lease)) /\
     (alive (w_disk (se_world s')) = true -> w_engine (se_world s) = [] -> w_db (se_world s') = released lease D) /\
     se_log s' = se_log s ++ sent ++ polls /\
     Forall (honest_event O (data_closure decoded)) sent /\ Forall is_complete polls /\
     (polls <> [] -> (exists blobs, latest_missing sent = Some ([], blobs)) /\ blobs_settled sent) /\
     (forall report, r = Ok report -> last polls = Some (EComplete (Ok Promoted)))).

Lemma push_snapshot_outcome fuel id head options (s : session R) :
  inv (se_world s) -> push_outcome id s (push_snapshot fuel id head options s).
Proof.
  intros Hinv. unfold push_outcome. set (O := objects (w_disk (se_world s))). set (D := w_db (se_world s)).
  cbn zeta. unfold push_snapshot, bind. unfold on_world at 1.
  pose proof (t_acquire O D id PUSH_LEASE_HOLDER Hinv (se_world s)
    ltac:(split; [split; reflexivity|discriminate])) as Ha.
  assert (w_engine (se_world s) = [] -> w_engine (acquire_pending_sync_lease id PUSH_LEASE_HOLDER (se_world s)).2 = []) as Hidle.
  { intros Hi. pose proof (f_acquire id PUSH_LEASE_HOLDER (se_world s) Hi) as Hf.
    by destruct (acquire_pending_sync_lease id PUSH_LEASE_HOLDER (se_world s)) as [[a|e] w]. }
  pose proof (p_acquire_pending_sync_lease id PUSH_LEASE_HOLDER (se_world s) Hinv) as Hi1.
  destruct (acquire_pending_sync_lease id PUSH_LEASE_HOLDER (se_world s)) as [[[lease decoded]|e] w]; cbn [map_err fst snd] in *.
  2: { destruct Ha as [Ho Hd]. split; [done|]. split; [done|]. left. split; [by eexists|]. done. }
  destruct Ha as (Ho & Hread & Hrows). destruct (pending_lease_released _ _ _ _ _ _ Hrows) as [Hfresh Hrel].
  pose proof Hread as (bytes & ro & Hb & Hdec).
  destruct (sf_clean _ _ Hinv _ _ Hb) as (b' & [= <- ->] & _ & Hlen).
  apply decode_sound in Hdec as (_ & Hwf & _); [|exact Hlen].
  pose proof (closure_typed _ Hwf) as Hty. destruct (data_closure_spec decoded) as (Hnd & _ & _).
  pose proof (t_push_leased O (tables w) (se_log s) (data_closure decoded) Hnd
    ltac:(eapply Forall_impl; [exact Hty|]; by intros x [])
    ltac:(eapply Forall_impl; [exact Hty|]; by intros x [])
    fuel id head options decoded eq_refl (with_world w s) (conj Ho (conj eq_refl eq_refl))) as Hp.
  destruct (push_leased fuel id head options decoded (with_world w s)) as [r s1].
  assert (pushed O (tables w) (se_log s) (data_closure decoded) (match r with Ok _ => true | Err _ => false end) s1) as Hp'.
  { destruct r; exact Hp. }
  destruct Hp' as (Ho1 & Hd1 & sent & polls & Hl & Hh & Hc & Hm & Hlast). injection Hd1 as Hd1 Hg1.
  rewrite <-Hd1 in Hrel, Hrows. destruct (release_cases (se_world s1) lease _ Hrel) as (Ho2 & Ha2 & Hd2 & Hgone).
  assert (inv (se_world s1)) as Hi2 by (unfold inv in *; by rewrite Ho1, Hd1, <-Ho).
  pose proof (p_release_lease lease (se_world s1) Hi2) as Hi3.
  unfold on_world. destruct (release_lease lease (se_world s1)) as [x w2]. cbn [snd] in *.
  split; [by destruct x|]. split; [cbn; congruence|]. right. exists lease, decoded, sent, polls. cbn [se_world with_world se_log].
  split; [done|]. split; [done|]. split; [destruct Hd2 as [-> | ->]; [by left|by right]|].
  split; [intros Hal Hi; apply Hgone; [congruence|rewrite Hg1; by apply Hidle]|].
  split_and!; try done. intros report ->. by apply Hlast.
Qed.
(** C11: A push is honest whatever the remote does.  For every remote, and every
    failure of the carrier, the store and the process: the store stays sound, the
    push changes no local object, and the only trace it can leave in the tables is its own lease,
    which is gone when the process lives and the engine answers.  Every pack it
    uploads is the encoding of closure objects with the bytes the store holds
    for them, under a grant bound to that very pack's checksum; every part is
    the range of its blob that its place among the granted parts says.  It asks
    for completion only once the remote has answered, at some point, that no blob
    is missing, and its last answer listed no object missing in packs (that
    answer may list blobs again: the code does not look); and it reports success
    only for a promotion the remote confirmed. *)
Theorem push_is_honest fuel id head options (s : session R) :
  inv (se_world s) ->
  let O := objects (w_disk (se_world s)) in
  let D := w_db (se_world s) in
  let '(r, s') := push_snapshot fuel id head options s in
  inv (se_world s') /\ objects (w_disk (se_world s')) = O /\
  ((exists e, r = Err e) /\ w_db (se_world s') = D /\ se_log s' = se_log s \/
   exists lease decoded sent polls,
     readable_at O id decoded /\ leases D !! lease = None /\
     (w_db (se_world s') = released lease D \/
      pending_lease_rows id PUSH_LEASE_HOLDER decoded D = Ok (w_db (se_world s'), lease)) /\
     (alive (w_disk (se_world s')) = true -> w_engine (se_world s) = [] -> w_db (se_world s') = released lease D) /\
     se_log s' = se_log s ++ sent ++ polls /\
     Forall (honest_event O (data_closure decoded)) sent /\ Forall is_complete polls /\
     (polls <> [] -> (exists blobs, latest_missing sent = Some ([], blobs)) /\ blobs_settled sent) /\
     (forall report, r = Ok report -> last polls = Some (EComplete (Ok Promoted)))).
Proof. exact (push_snapshot_outcome fuel id head options s). Qed.

(** C29: A push ends.  Against a remote that settles (no call grows its debt,
    and it has room for only so many more parts) every loop of a push, the
    replans, the blob lane and the completion polls, ends within a number of
    rounds computed from the room, the manifest's closure and the caller's
    budgets; whatever fails on the way, the push answers. *)
Theorem push_terminates debt room fuel id head options (s : session R) :
  inv (se_world s) -> settling debt room ->
  (forall snap, readable_at (objects (w_disk (se_world s))) id snap ->
     push_rounds options (room (se_remote s)) (zlen (data_closure snap)) <= Z.of_nat fuel) ->
  (push_snapshot fuel id head options s).1 <> Err SY_OutOfFuel.
Proof.
  intros Hinv Hd Hf. unfold push_snapshot, bind. unfold on_world at 1.
  pose proof (t_acquire _ _ id PUSH_LEASE_HOLDER Hinv (se_world s) ltac:(split; [split; reflexivity|discriminate])) as Ha.
  destruct (acquire_pending_sync_lease id PUSH_LEASE_HOLDER (se_world s)) as [[[lease decoded]|e] w]; cbn [map_err fst snd] in *; [|done].
  destruct Ha as (_ & Hread & _).
  pose proof (u_push_leased debt room fuel id head options decoded (room (se_remote s)) Hd (Hf _ Hread) (with_world w s)
    ltac:(cbn; lia)) as Hp.
  destruct (push_leased fuel id head options decoded (with_world w s)) as [[r|e] s1]; unfold on_world;
    destruct (release_lease lease (se_world s1)) as [x w2]; cbn [fst]; [done|]. intros [= ->]. by apply Hp.
Qed.

End pushing.

(** ** Pulling *)

Section pulling.
Context {R : Type} `{SyncTransport R, Sha256, Unicode, Unordered, Rowid, Allocator}.

Lemma pull_snapshot_outcome pool id (s : session R) :
  inv (se_world s) -> collision_free pool -> store_in pool (w_disk (se_world s)) ->
  (forall grant (r : R), pool (concat (t_download grant r).1.1)) ->
  let O := objects (w_disk (se_world s)) in
  let D := w_db (se_world s) in
  let '(r, s') := pull_snapshot id s in
  let O' := objects (w_disk (se_world s')) in
  inv (se_world s') /\ O ⊆ O' /\
  match r with
  | Ok report =>
      w_db (se_world s') = insert_snapshot id 0 D /\
      exists bytes snap, O' !! id = Some (Regular bytes true) /\ decode bytes = Ok snap /\
        forall digest, digest ∈ (data_closure snap).*1 -> resident O' digest
  | Err _ => w_db (se_world s') = D
  end.
Proof.
  intros Hinv Hcf Hst Hserves O D.
  assert (forall s' : session R, pulling pool O D s' -> inv (se_world s') /\ O ⊆ objects (w_disk (se_world s')) /\ w_db (se_world s') = D) as Hout.
  { intros s' [Hg Hd]. split; [|split; [apply Hg|done]]. unfold inv. rewrite Hd. by eapply safe_grown. }
  set (good := fun (_ : pull_report) (s' : session R) => inv (se_world s') /\ O ⊆ objects (w_disk (se_world s')) /\
    w_db (se_world s') = insert_snapshot id 0 D /\ exists bytes snap,
      objects (w_disk (se_world s')) !! id = Some (Regular bytes true) /\ decode bytes = Ok snap /\
      forall digest, digest ∈ (data_closure snap).*1 -> resident (objects (w_disk (se_world s'))) digest).
  assert (triple (pulling pool O D) (pull_snapshot id) good (fun _ (s' : session R) => inv (se_world s') /\
    O ⊆ objects (w_disk (se_world s')) /\ w_db (se_world s') = D)) as Ht.
  2: { specialize (Ht s (conj (store_in_grown _ _ Hst) eq_refl)). destruct (pull_snapshot id s) as [[report|e] s']; exact Ht. }
  unfold pull_snapshot. eapply t_bind.
  { eapply t_conseq; [by apply t_manifest_bytes|done|intros bytes s' Hs'; exact Hs'|intros e; exact Hout]. }
  intros bytes. apply t_pure_r. intros (Hp & Hid & Hlen).
  eapply t_bind; [eapply t_conseq; [apply f_lift|done|intros a s' Hs'; exact Hs'|intros e; exact Hout]|]. intros snap0.
  eapply t_bind; [eapply t_conseq; [apply f_for; intros; apply f_journal_step|done|intros a s' Hs'; exact Hs'|intros e; exact Hout]|].
  intros [report missing].
  eapply t_bind; [eapply t_conseq; [apply f_for; intros; by apply f_fetch_batch|done|intros a s' Hs'; exact Hs'|intros e; exact Hout]|].
  intros report'. eapply t_bind with (Q' := fun _ => good report'); [|intros u; by apply t_ret].
  intros s' Hs'. destruct (Hout s' Hs') as (Hi' & Hsub & Hd'). destruct Hs' as [Hg _].
  set (O1 := objects (w_disk (se_world s'))) in *.
  pose proof (t_adopt_rooted O1 D bytes ltac:(unfold inv in Hi'; by rewrite Hd' in Hi') Hlen
    ltac:(intros other ro Ho; apply Hcf; [by eapply gr_pool|done|]; destruct (gr_clean _ _ _ Hg _ _ Ho) as (b & [= <- _] & ? & _); congruence)
    (se_world s') ltac:(split; [by split|discriminate])) as Ha.
  unfold on_world. destruct (adopt_snapshot bytes (se_world s')) as [[id'|e] w]; cbn [map_err].
  - destruct Ha as (Hi & -> & Ho & Hb & Hdb & snap & Hdec & Hres). rewrite Hid in *.
    split; [done|]. split; [cbn; by etrans|]. split; [done|]. exists bytes, snap. split; [done|]. split; [done|].
    intros digest Hdg. apply Hres. destruct (data_closure_spec snap) as (_ & Hdig & _). by apply entry_digests_closure, Hdig.
  - destruct Ha as (Hi & Ho & Hdb). split; [done|]. split; [cbn; by etrans|done].
Qed.
(** C10: A pull admits nothing unverified.  For every remote, and every failure on
    the way: the store stays sound, resident objects stay, and each new object
    holds the bytes its digest names.  A pull that fails leaves the tables
    exactly as they were; one that succeeds has stored the manifest under the
    requested identity, rooted it, and changed nothing else in them, and every
    object the manifest names is resident. *)
Theorem pull_is_verified pool id (s : session R) :
  inv (se_world s) -> collision_free pool -> store_in pool (w_disk (se_world s)) ->
  (forall grant (r : R), pool (concat (t_download grant r).1.1)) ->
  let O := objects (w_disk (se_world s)) in
  let D := w_db (se_world s) in
  let '(r, s') := pull_snapshot id s in
  let O' := objects (w_disk (se_world s')) in
  inv (se_world s') /\ O ⊆ O' /\
  match r with
  | Ok report =>
      w_db (se_world s') = insert_snapshot id 0 D /\
      exists bytes snap, O' !! id = Some (Regular bytes true) /\ decode bytes = Ok snap /\
        forall digest, digest ∈ (data_closure snap).*1 -> resident O' digest
  | Err _ => w_db (se_world s') = D
  end.
Proof. apply pull_snapshot_outcome. Qed.
End pulling.
