(* ===== verification/LayoutFacts.v ===== *)
(** What the projected layout's operations change ([src/crates/tensorfs-core/src/layout.rs]):
    the rules for its system calls, the names each operation may touch whatever
    fails, and the tree a finished projection is. *)
From S2P Require Import Utf8.
From S2P Require Export PlanFrame GcFacts Layout.

#[export] Instance area_eq_dec : EqDecision area.
Proof. solve_decision. Defined.

(** ** What a schedule or a lock cannot change *)

Record same (p p' : projected) : Prop := {
  sm_objects : objects (disk_of p') = objects (disk_of p);
  sm_db : w_db (pj_world p') = w_db (pj_world p);
  sm_dir a : dir_of a p' = dir_of a p
}.
Definition steady (P : projected -> Prop) : Prop := forall p p', same p p' -> P p -> P p'.

Lemma same_refl p : same p p.
Proof. by constructor. Qed.
Lemma same_set_disk d p : objects d = objects (disk_of p) -> same p (set_disk d p).
Proof. intros Ho. constructor; [exact Ho|done|by intros []]. Qed.
Lemma same_schedule os p : same p (with_schedule os p).
Proof. by apply same_set_disk. Qed.
Lemma same_killed p : same p (killed_at p).
Proof. by apply same_set_disk. Qed.

Lemma t_fcall {A} (P R : projected -> Prop) act partial (Q : A -> projected -> Prop) :
  steady P -> steady R -> (forall p, P p -> R p) ->
  (forall p, P p -> match act p with (Ok a, p') => Q a p' | (Err e, p') => R p' end) ->
  (forall k p, P p -> R (partial k p)) ->
  triple P (fcall act partial) Q (fun _ => R).
Proof.
  intros HP HR HPR Ha Hp p Hs. unfold fcall. destruct (negb _); [by apply HPR|].
  destruct (outcomes (disk_of p)) as [|[|e k|k] os]; [by apply Ha| | |].
  - apply Ha. by eapply HP; [apply same_schedule|].
  - apply Hp. by eapply HP; [apply same_schedule|].
  - eapply HR; [apply same_killed|]. apply Hp. by eapply HP; [apply same_schedule|].
Qed.

(** Work on the store's temporaries moves no object. *)
Lemma f_temps {E A} (P : projected -> Prop) (m : M disk E A) :
  steady P -> (forall d, objects (m d).2 = objects d) -> framed P (on_disk m).
Proof.
  intros HP Hm p Hs. unfold on_disk. specialize (Hm (disk_of p)). destruct (m (disk_of p)) as [r d]. simpl in Hm.
  assert (P (set_disk d p)) by (by eapply HP; [apply same_set_disk|]). by destruct r.
Qed.
Lemma f_quiet {E A} (P : projected -> Prop) (m : M projected E A) :
  steady P -> (forall p, same p (m p).2) -> framed P m.
Proof.
  intros HP Hm p Hs. specialize (Hm p). destruct (m p) as [r p']. simpl in Hm.
  assert (P p') by (by eapply HP). by destruct r.
Qed.

Lemma objects_syscall {A} (act : disk -> result io_error A * disk) partial d :
  (forall d, objects (act d).2 = objects d) -> (forall k d, objects (partial k d) = objects d) ->
  objects (syscall act partial d).2 = objects d.
Proof.
  intros Ha Hp. unfold syscall. destruct (negb _); [done|].
  destruct (outcomes d) as [|[|e k|k] os]; simpl; rewrite ?Ha, ?Hp; done.
Qed.
Lemma objects_query {A} (f : disk -> result io_error A) d : objects (query f d).2 = objects d.
Proof. by apply objects_syscall. Qed.
Lemma objects_create_new name d : objects (create_new name d).2 = objects d.
Proof. apply objects_syscall; [|done]. intros d'. by destruct (temps d' !! name). Qed.
Lemma objects_try_lock name d : objects (try_lock name d).2 = objects d.
Proof. apply objects_syscall; [|done]. intros d'. destruct (temps d' !! name) as [t|]; [|done]. by destruct (t_locked_by t). Qed.
Lemma objects_remove_temp name d : objects (remove_temp name d).2 = objects d.
Proof. apply objects_syscall; [|done]. intros d'. by destruct (temps d' !! name). Qed.

(** ** Names *)

Lemma entry_set_ne a n t p a' n' : (a', n') <> (a, n) -> entry_at a' n' (set_entry a n t p) = entry_at a' n' p.
Proof.
  intros Hne. unfold set_entry. destruct (dir_of a p) as [m|] eqn:Em; [|done]. unfold entry_at.
  destruct (decide (a' = a)) as [->|Ha]; [|by destruct a, a'].
  assert (n' <> n) by congruence.
  assert (dir_of a (with_dir a (Some match t with Some t => <[n := t]> m | None => delete n m end) p)
    = Some match t with Some t => <[n := t]> m | None => delete n m end) as -> by (by destruct a). rewrite Em. cbn.
  destruct t; by rewrite ?lookup_insert_ne, ?lookup_delete_ne.
Qed.
Lemma entry_set_eq a n t p : dir_of a p <> None -> entry_at a n (set_entry a n t p) = t.
Proof.
  unfold set_entry. destruct (dir_of a p) as [m|] eqn:Em; [|done]. intros _. unfold entry_at.
  assert (dir_of a (with_dir a (Some match t with Some t => <[n := t]> m | None => delete n m end) p)
    = Some match t with Some t => <[n := t]> m | None => delete n m end) as -> by (by destruct a). cbn.
  destruct t; by rewrite ?lookup_insert_eq, ?lookup_delete_eq.
Qed.
Lemma entry_dir a n p t : entry_at a n p = Some t -> dir_of a p <> None.
Proof. unfold entry_at. by destruct (dir_of a p). Qed.
Lemma dir_set a n t p : dir_of a p <> None -> dir_of a (set_entry a n t p) <> None.
Proof. unfold set_entry. destruct (dir_of a p); [|done]. by destruct a. Qed.
Lemma world_set a n t p : pj_world (set_entry a n t p) = pj_world p.
Proof. unfold set_entry. destruct (dir_of a p); [|done]. by destruct a. Qed.

(** The state is as [p0] was, but for the names [X]. *)
Record beside (X : area -> list byte -> Prop) (p0 p : projected) : Prop := {
  be_objects : objects (disk_of p) = objects (disk_of p0);
  be_db : w_db (pj_world p) = w_db (pj_world p0);
  be_names a n : ~ X a n -> entry_at a n p = entry_at a n p0
}.

Lemma beside_refl X p : beside X p p.
Proof. by constructor. Qed.
Lemma beside_weaken (X Y : area -> list byte -> Prop) p0 p :
  (forall a n, X a n -> Y a n) -> beside X p0 p -> beside Y p0 p.
Proof. intros Hi [Ho Hd Hn]. constructor; [done..|]. intros a n Hy. apply Hn. auto. Qed.
Lemma beside_trans X p0 p1 p2 : beside X p0 p1 -> beside X p1 p2 -> beside X p0 p2.
Proof. intros [Ho Hd Hn] [Ho' Hd' Hn']. constructor; [congruence..|]. intros a n Hx. by rewrite Hn', Hn. Qed.
Lemma beside_steady X p0 : steady (beside X p0).
Proof.
  intros p p' [So Sd Sa] [Ho Hd Hn]. constructor; [congruence..|]. intros a n Hx. rewrite <-Hn by done.
  unfold entry_at. by rewrite Sa.
Qed.
Lemma beside_set (X : area -> list byte -> Prop) p0 p a n t : X a n -> beside X p0 p -> beside X p0 (set_entry a n t p).
Proof.
  intros Hx [Ho Hd Hn]. constructor.
  - unfold disk_of. cbn. by rewrite world_set.
  - by rewrite world_set.
  - intros a' n' Hx'. rewrite entry_set_ne; [by apply Hn|]. intros [= -> ->]. done.
Qed.
Lemma beside_place (X : area -> list byte -> Prop) p0 p a n q v : X a n -> beside X p0 p -> beside X p0 (place a n q v p).
Proof. intros Hx Hb. unfold place. destruct (entry_at a n p); [by apply beside_set|done]. Qed.
#[export] Hint Resolve beside_steady beside_set beside_place : core.

Section frame.
Context (X : area -> list byte -> Prop) (p0 : projected).
Abbreviation B := (beside X p0).

Lemma f_fcall {A} act (partial : nat -> projected -> projected) :
  (forall p, B p -> B (act p : result io_error A * projected).2) -> (forall k p, B p -> B (partial k p)) ->
  framed B (fcall act partial).
Proof.
  intros Ha Hp. apply t_fcall; auto. intros p Hb. specialize (Ha p Hb). by destruct (act p) as [[a|e] p'].
Qed.
Lemma f_fatomic {A} (act : projected -> result io_error A * projected) :
  (forall p, B p -> B (act p).2) -> framed B (fatomic act).
Proof. intros Ha. by apply f_fcall. Qed.
Lemma f_fquery {A} (f : projected -> result io_error A) : framed B (fquery f).
Proof. by apply f_fatomic. Qed.
Lemma f_ignore {E F A} (m : M projected E A) : framed B m -> framed (E := F) B (ignore m).
Proof. intros Hm p Hb. specialize (Hm p Hb). unfold ignore. by destruct (m p) as [[a|e] p']. Qed.

Lemma f_make_area a : framed B (make_area a).
Proof.
  apply f_fatomic. intros p Hb. cbn [snd]. destruct (dir_of a p) as [m|] eqn:E; [done|].
  destruct Hb as [Ho Hd Hn]. constructor; [by destruct a..|]. intros a' n Hx. rewrite <-Hn by done.
  unfold entry_at. destruct (decide (a' = a)) as [->|Ha]; [|by destruct a, a']. rewrite E. by destruct a.
Qed.
Lemma f_make_dir a n : X a n -> framed B (make_dir a n).
Proof. intros Hx. apply f_fatomic. intros p Hb. destruct (dir_of a p), (entry_at a n p); simpl; auto. Qed.
Lemma f_rename a n n' : X a n -> X a n' -> framed B (rename_entry a n n').
Proof.
  intros Hx Hx'. apply f_fatomic. intros p Hb. destruct (entry_at a n p) as [t|]; [|done]. cbv zeta.
  destruct (entry_at a n' p) as [u|]; [|simpl; auto].
  destruct (is_dir_tree t), (is_dir_tree u); simpl; auto. case_bool_decide; simpl; auto.
Qed.
Lemma f_remove_file a n : X a n -> framed B (remove_entry_file a n).
Proof. intros Hx. apply f_fatomic. intros p Hb. destruct (entry_at a n p) as [t|]; [|done]. destruct (is_dir_tree t); simpl; auto. Qed.
Lemma f_remove_tree_at a n : X a n -> framed B (remove_tree_at a n).
Proof.
  intros Hx. apply f_fcall.
  - intros p Hb. destruct (entry_at a n p) as [t|]; [|done]. destruct (root_node t) as [[]|]; simpl; auto.
  - intros k p Hb. destruct (entry_at a n p) as [t|]; [|done]. destruct (is_dir_tree t); auto.
Qed.
Lemma f_create_node a n q v : X a n -> framed B (create_node a n q v).
Proof. intros Hx. apply f_fatomic. intros p Hb. destruct (placeable a n q p), (node_of a n q p); simpl; auto. Qed.
Lemma f_write_node a n q bytes : X a n -> framed B (write_node a n q bytes).
Proof.
  intros Hx. apply f_fcall.
  - intros p Hb. destruct (placeable a n q p), (node_of a n q p) as [[|b []|]|]; simpl; auto.
  - intros [|k] p Hb; [done|]. destruct (placeable a n q p), (node_of a n q p) as [[|b []|]|]; simpl; auto.
Qed.
Lemma f_chmod_node a n q : X a n -> framed B (chmod_node a n q).
Proof. intros Hx. apply f_fatomic. intros p Hb. destruct (node_of a n q p) as [[]|]; simpl; auto. Qed.
Lemma f_create_staged n : X Refs n -> framed B (create_staged n).
Proof. intros Hx. apply f_fatomic. intros p Hb. destruct (dir_of Refs p), (entry_at Refs n p); simpl; auto. Qed.
Lemma f_write_staged n bytes : X Refs n -> framed B (write_staged n bytes).
Proof. intros Hx. apply f_fcall; [intros p Hb; simpl; auto|auto]. Qed.
Lemma f_list_area `{Unordered} a : framed B (list_area a).
Proof. apply f_fquery. Qed.

(** *** Leases *)

Lemma f_token {E} : framed (E := E) B scratch_token.
Proof. apply f_quiet; [auto|]. intros p. by constructor; [..|intros []]. Qed.
Lemma f_take_lease : framed B take_scratch_lease.
Proof.
  assert (forall fuel, framed B (take_lease_loop fuel)) as Hf.
  { induction fuel as [|fuel IH]; [apply f_fail|]. cbn [take_lease_loop]. apply f_bind; [apply f_token|]. intros token p Hb.
    pose proof (f_temps B (create_new (lease_path token)) ltac:(auto) (objects_create_new _) p Hb) as Hc.
    destruct (on_disk _ p) as [[[]|e] p']; [|case_decide; [by apply IH|done]].
    apply (f_bind B (lio (on_disk (try_lock (lease_path token))))); [|intros; apply f_ret|done].
    apply f_map_err, f_temps; [auto|apply objects_try_lock]. }
  intros p. apply Hf.
Qed.
Lemma f_give_up {E} token : framed (E := E) B (give_up_lease token).
Proof.
  apply f_bind.
  - apply f_quiet; [auto|]. intros p. simpl. destruct (alive _); [by apply same_set_disk|apply same_refl].
  - intros _. apply f_ignore, f_temps; [auto|apply objects_remove_temp].
Qed.
Lemma f_lease_state {E} name : framed (E := E) B (lease_state name).
Proof.
  intros p Hb. unfold lease_state.
  pose proof (f_temps B (query (fun d => match temps d !! name with Some _ => Ok tt | None => Err NotFound end))
    ltac:(auto) (objects_query _) p Hb) as Hc.
  destruct (on_disk _ p) as [[[]|e] p']; [|done].
  pose proof (f_temps B (try_lock name) ltac:(auto) (objects_try_lock _) p' Hc) as Hd.
  destruct (on_disk _ p') as [[[]|e] p'']; [|done]. destruct (alive _); [|done].
  eapply beside_steady; [by apply same_set_disk|done].
Qed.
Lemma f_delete_scratch {E} a n : X a n -> framed (E := E) B (delete_scratch a n).
Proof.
  intros Hx p Hb. unfold delete_scratch.
  pose proof (f_fquery (fun p => match entry_at a n p with Some t => Ok (is_dir_tree t) | None => Err NotFound end) p Hb) as Hc.
  destruct (fquery _ p) as [[dir|e] p']; [|done].
  assert (framed B (if dir : bool then remove_tree_at a n else remove_entry_file a n)) as Hf
    by (destruct dir; [by apply f_remove_tree_at|by apply f_remove_file]).
  specialize (Hf p' Hc). destruct dir;
    [by destruct (remove_tree_at a n p') as [[u|e] p'']|by destruct (remove_entry_file a n p') as [[u|e] p'']].
Qed.
Lemma f_path_exists `{Following} {E} a n : framed (E := E) B (path_exists a n).
Proof. intros p Hb. unfold path_exists. pose proof (fun f => f_fquery (A := bool) f p Hb) as Hc.
  match goal with |- context [fquery ?f p] => specialize (Hc f); destruct (fquery f p) as [[b|e] p'] end; done. Qed.
End frame.

(** ** Leases *)

(** A temporary after its holder may have been killed. *)
Definition orphaned (holder : Z) (t : temp_file) : temp_file :=
  if decide (t_locked_by t = Some holder) then unlock_temp t else t.

(** The temporaries are those of [T], but for the lease of a token that had none;
    a process that was killed holds no lock any more. *)
Record leased_on (T : gmap (list byte) temp_file) (own : option (list byte)) (d : disk) : Prop := {
  le_fresh token : own = Some token -> T !! lease_path token = None;
  le_others n : (forall token, own = Some token -> n <> lease_path token) ->
    temps d !! n = T !! n \/ alive d = false /\ temps d !! n = orphaned (pid d) <$> T !! n
}.
Definition leased (T : gmap (list byte) temp_file) (own : option (list byte)) (p : projected) : Prop := leased_on T own (disk_of p).

(** The same process, and the same temporaries but for the lease. *)
Record lease_step (own : option (list byte)) (d d' : disk) : Prop := {
  ls_alive : alive d' = alive d;
  ls_pid : pid d' = pid d;
  ls_others n : (forall token, own = Some token -> n <> lease_path token) -> temps d' !! n = temps d !! n
}.

Section leases.
Context (T : gmap (list byte) temp_file) (own : option (list byte)).
Abbreviation L := (leased T own).

Lemma leased_step d d' : lease_step own d d' -> leased_on T own d -> leased_on T own d'.
Proof.
  intros [Ha Hp Ho] [Hf Hl]. split; [done|]. intros n Hn. rewrite Ha, Hp, (Ho n Hn). by apply Hl.
Qed.
Lemma leased_kill d : alive d = true -> leased_on T own d -> leased_on T own (kill d).
Proof.
  intros Ha [Hf Hl]. split; [done|]. intros n Hn. right. split; [done|]. cbn. rewrite lookup_fmap.
  destruct (Hl n Hn) as [->|[? _]]; [done|congruence].
Qed.
Lemma l_syscall {A} (act : disk -> result io_error A * disk) d :
  (forall d, lease_step own d (act d).2) -> leased_on T own d -> leased_on T own (atomic act d).2.
Proof.
  intros Ha HL. unfold atomic, syscall. destruct (alive d) eqn:Ea; cbn [negb]; [|done].
  assert (forall os, leased_on T own (with_outcomes os d)) as Hs by (intros os; by apply (leased_step d)).
  destruct (outcomes d) as [|[|e k|k] os]; cbn [snd].
  - by apply (leased_step d).
  - by apply (leased_step (with_outcomes os d)).
  - done.
  - by apply leased_kill.
Qed.
Lemma l_on_disk {E A} (m : M disk E A) : (forall d, leased_on T own d -> leased_on T own (m d).2) -> framed L (on_disk m).
Proof. intros Hm p HL. specialize (Hm _ HL). unfold on_disk. by destruct (m (disk_of p)) as [[a|e] d]. Qed.
Lemma l_query {A} (f : disk -> result io_error A) : framed L (on_disk (query f)).
Proof. apply l_on_disk. intros d. by apply l_syscall. Qed.
Lemma l_fcall {A} (act : projected -> result io_error A * projected) partial :
  (forall p, pj_world (act p).2 = pj_world p) -> (forall k p, pj_world (partial k p) = pj_world p) ->
  framed L (fcall act partial).
Proof.
  intros Ha Hp p HL. unfold fcall. destruct (alive (disk_of p)) eqn:Ea; cbn [negb]; [|done].
  assert (forall q q', pj_world q' = pj_world q -> disk_of q' = disk_of q) as Hd by (intros q q' Heq; unfold disk_of; cbn; by rewrite Heq).
  assert (forall os, L (with_schedule os p)) as Hs by (intros os; by apply (leased_step (disk_of p))).
  assert (forall q q', disk_of q' = disk_of q -> L q -> L q') as Hm by (intros q q' Heq; unfold leased; by rewrite Heq).
  destruct (outcomes (disk_of p)) as [|[|e k|k] os].
  - specialize (Ha p). destruct (act p) as [[a|e] p']; (apply (Hm p); [by apply Hd|done]).
  - specialize (Ha (with_schedule os p)). destruct (act _) as [[a|e] p']; (apply (Hm (with_schedule os p)); [by apply Hd|done]).
  - apply (Hm (with_schedule os p)); [by apply Hd|done].
  - unfold leased, killed_at. apply leased_kill; rewrite (Hd (with_schedule os p)) by done; [done|apply Hs].
Qed.
Lemma place_world a n q v p : pj_world (place a n q v p) = pj_world p.
Proof. unfold place. destruct (entry_at a n p); [apply world_set|done]. Qed.
Ltac l_call := apply l_fcall; [intros p|intros k p]; repeat case_match; cbn [snd]; rewrite ?place_world, ?world_set; try done.
Lemma l_fquery {A} (f : projected -> result io_error A) : framed L (fquery f).
Proof. l_call. Qed.
Lemma l_make_area a : framed L (make_area a).
Proof. l_call. by destruct a. Qed.
Lemma l_make_dir a n : framed L (make_dir a n).
Proof. l_call. Qed.
Lemma l_rename a n n' : framed L (rename_entry a n n').
Proof. l_call. Qed.
Lemma l_remove_file a n : framed L (remove_entry_file a n).
Proof. l_call. Qed.
Lemma l_remove_tree_at a n : framed L (remove_tree_at a n).
Proof. l_call. Qed.
Lemma l_create_node a n q v : framed L (create_node a n q v).
Proof. l_call. Qed.
Lemma l_write_node a n q bytes : framed L (write_node a n q bytes).
Proof. l_call. Qed.
Lemma l_chmod_node a n q : framed L (chmod_node a n q).
Proof. l_call. Qed.
Lemma l_create_staged n : framed L (create_staged n).
Proof. l_call. Qed.
Lemma l_write_staged n bytes : framed L (write_staged n bytes).
Proof. l_call. Qed.
Lemma l_lio {A} (m : M projected io_error A) : framed L m -> framed L (lio m).
Proof. apply f_map_err. Qed.
Lemma l_ignore {E F A} (m : M projected E A) : framed L m -> framed (E := F) L (ignore m).
Proof. intros Hm p HL. specialize (Hm p HL). unfold ignore. by destruct (m p) as [[a|e] p']. Qed.
Lemma l_path_exists `{Following} {E} a n : framed (E := E) L (path_exists a n).
Proof.
  intros p HL. unfold path_exists. match goal with |- context [fquery ?f p] => pose proof (l_fquery f p HL) as Hc; destruct (fquery f p) as [[b|e] p'] end; done.
Qed.
Lemma l_install_bytes scratch q bytes : framed L (install_bytes scratch q bytes).
Proof. apply f_bind; [apply l_lio, l_write_node|]. intros _. apply l_lio, l_chmod_node. Qed.
Lemma l_project_body `{Sha256} symlinks path body scratch q : framed L (project_body symlinks path body scratch q).
Proof.
  destruct body as [f c n rs|n digest]; cbn [project_body]; [apply l_install_bytes|]. destruct (n =? 0); [apply l_install_bytes|].
  destruct symlinks; [apply l_lio, l_create_node|]. apply f_bind; [|intros _; apply l_lio, l_chmod_node].
  apply f_bind; [apply l_lio, l_query|]. intros [bytes ro]. apply f_bind; [apply l_lio, l_write_node|]. intros _.
  destruct ro; [apply l_lio, l_chmod_node|apply f_ret].
Qed.
Lemma l_fill `{Sha256} symlinks snap scratch : framed L (fill symlinks snap scratch).
Proof.
  apply f_for. intros u [path e] _. unfold fill_entry. destruct e as [|x body|target|o]; [apply l_lio, l_create_node|apply l_project_body|apply l_lio, l_create_node|].
  destruct (carrier_body snap o); [apply l_project_body|apply f_fail].
Qed.
Lemma l_build_into `{Sha256, Following} symlinks snap scratch final : framed L (build_into symlinks snap scratch final).
Proof.
  apply f_bind; [apply l_lio, l_make_dir|]. intros _. apply f_bind; [apply l_fill|]. intros _ p HL.
  pose proof (l_rename Snapshots scratch final p HL) as Hr. destruct (rename_entry _ _ _ p) as [[[]|e] p']; [done|].
  revert Hr. apply (f_bind L); [apply l_path_exists|]. intros [|]; [apply f_ret|apply f_fail].
Qed.
Lemma l_swap_ref staged name id : framed L (swap_ref staged name id).
Proof.
  apply f_bind; [apply l_create_staged|]. intros _. apply f_bind; [apply l_write_staged|]. intros _.
  apply f_bind; [apply l_fquery|]. intros _. apply l_rename.
Qed.
End leases.

Lemma leased_refl p : leased (temps (disk_of p)) None p.
Proof. split; [done|]. by left. Qed.

(** Taking a lease adds one, of a token that had none; giving it up touches no other. *)
Lemma l_create_new T token d :
  leased_on T None d ->
  let '(r, d') := create_new (lease_path token) d in
  match r with Ok _ => leased_on T (Some token) d' | Err _ => leased_on T None d' end.
Proof.
  intros HL. unfold create_new, atomic, syscall. destruct (negb (alive d)) eqn:Ea; [done|]. apply negb_false_iff in Ea.
  assert (forall os, leased_on T None (with_outcomes os d)) as Hs by (intros os; by apply (leased_step _ _ d)).
  assert (forall d1, alive d1 = true -> leased_on T None d1 -> let '(r, d') :=
    match temps d1 !! lease_path token with
    | Some _ => (Err AlreadyExists, d1)
    | None => (Ok tt, Disk (objects d1) (<[lease_path token := TempFile [] (next_inode d1) (Some (nanos d1)) true false None]> (temps d1))
        (outcomes d1) (alive d1) (pid d1) (sequence d1) (nanos d1) (next_inode d1 + 1))
    end in match r : result io_error unit with Ok _ => leased_on T (Some token) d' | Err _ => leased_on T None d' end) as Hact.
  { intros d1 Ha HL1. destruct (temps d1 !! lease_path token) eqn:Et; [done|]. destruct HL1 as [_ Hl]. split.
    - intros ? [= <-]. destruct (Hl (lease_path token) ltac:(done)) as [<-|[? _]]; [done|congruence].
    - intros n Hn. left. cbn. rewrite lookup_insert_ne by (by apply not_eq_sym, Hn).
      destruct (Hl n ltac:(done)) as [?|[? _]]; [done|congruence]. }
  pose proof (Hact d Ea HL) as Hd.
  destruct (outcomes d) as [|[|e k|k] os]; [exact Hd|exact (Hact (with_outcomes os d) Ea (Hs os))|done|by apply leased_kill].
Qed.
Lemma l_take_lease T :
  triple (leased T None) take_scratch_lease (fun token => leased T (Some token)) (fun _ p => exists own, leased T own p).
Proof.
  assert (forall fuel, triple (leased T None) (take_lease_loop fuel) (fun token => leased T (Some token))
    (fun _ p => exists own, leased T own p)) as Hf; [|intros p; apply Hf].
  induction fuel as [|fuel IH]; [intros p HL; by exists None|]. cbn [take_lease_loop].
  intros p HL. unfold bind at 1, scratch_token. set (token := _ ++ _). set (q := Projected _ _ _ _).
  assert (leased T None q) as Hq by exact HL. clearbody q token. clear p HL.
  unfold on_disk at 1. pose proof (l_create_new T token (disk_of q) Hq) as Hc.
  destruct (create_new (lease_path token) (disk_of q)) as [[[]|e] d].
  - assert (framed (leased T (Some token)) (lio (on_disk (try_lock (lease_path token))))) as Hl.
    { apply l_lio, l_on_disk. intros d1. apply l_syscall. intros d2. destruct (temps d2 !! lease_path token) as [t|]; [|done].
      destruct (t_locked_by t); [done|]. split; [done..|]. intros n Hn. cbn. rewrite lookup_insert_ne; [done|]. by apply not_eq_sym, Hn. }
    specialize (Hl (set_disk d q) Hc). unfold bind. destruct (lio _ _) as [[[]|e] p']; [done|by exists (Some token)].
  - case_decide; [by apply IH|by exists None].
Qed.
Lemma l_give_up {E} T token : framed (E := E) (leased T (Some token)) (give_up_lease token).
Proof.
  apply f_bind; [|intros _; apply l_ignore, l_on_disk].
  - intros p HL. cbn. destruct (alive _); [|done]. apply (leased_step _ _ (disk_of p)); [|done]. split; [done..|].
    intros n Hn. cbn. rewrite lookup_alter_ne; [done|]. by apply not_eq_sym, Hn.
  - intros d. apply l_syscall. intros d1. destruct (temps d1 !! lease_path token); [|done]. split; [done..|].
    intros n Hn. cbn. rewrite lookup_delete_ne; [done|]. by apply not_eq_sym, Hn.
Qed.

(** ** The tree a projection is *)

Section tree.
Context `{Sha256}.

(** What stands for a file: a stub with its identity and size, an empty file, a
    link to its object or a copy of it. *)
Definition body_node (path : list byte) (body : file_body) (n : fnode) : Prop :=
  match body with
  | Tensor _ _ size _ => n = FFile (stub_bytes (body_sha256 body) size) true
  | Blob size digest =>
      if size =? 0 then n = FFile [] true
      else n = FLink (relative_object_target path digest) \/ exists bytes, n = FFile bytes true /\ sha256 bytes = digest
  end.
Definition node_for (snap : snapshot) (pe : list byte * entry) (n : fnode) : Prop :=
  match pe.2 with
  | Directory => n = FDir
  | File _ body => body_node pe.1 body n
  | Symlink target => n = FLink target
  | Hardlink ordinal => exists body, carrier_body snap ordinal = Some body /\ body_node pe.1 body n
  end.

(** The entries [entries] of a manifest, as a tree, and nothing else. *)
Record tree_part (snap : snapshot) (entries : list (list byte * entry)) (t : tree) : Prop := {
  tp_root : t !! [] = Some FDir;
  tp_each pe : pe ∈ entries -> exists n, t !! split_on slash pe.1 = Some n /\ node_for snap pe n;
  tp_only q : is_Some (t !! q) -> q = [] \/ exists pe, pe ∈ entries /\ q = split_on slash pe.1
}.
Definition tree_of (snap : snapshot) (t : tree) : Prop := tree_part snap (s_entries snap) t.

Lemma split_on_inj sep a b : split_on sep a = split_on sep b -> a = b.
Proof. intros Heq. by rewrite <-(join_split_on sep a), <-(join_split_on sep b), Heq. Qed.

Lemma tree_part_snoc snap pre pe n t :
  tree_part snap pre t -> pe.1 ∉ pre.*1 -> node_for snap pe n ->
  tree_part snap (pre ++ [pe]) (<[split_on slash pe.1 := n]> t).
Proof.
  intros [Hr He Ho] Hnew Hn. pose proof (split_on_nonempty slash pe.1) as Hne. constructor.
  - rewrite lookup_insert_ne; [done|congruence].
  - intros x [Hx| ->%list_elem_of_singleton]%elem_of_app; [|exists n; by rewrite lookup_insert_eq].
    destruct (He x Hx) as (m & Hm & Hnode). exists m. split; [|done]. rewrite lookup_insert_ne; [done|].
    intros Heq%split_on_inj. apply Hnew. rewrite Heq. by apply list_elem_of_fmap_2.
  - intros q Hq. destruct (decide (q = split_on slash pe.1)) as [->|Hq']; [right; exists pe; split; [set_solver|done]|].
    rewrite lookup_insert_ne in Hq by done. destruct (Ho q Hq) as [?|(x & Hx & ->)]; [by left|].
    right. exists x. split; [set_solver|done].
Qed.
End tree.

(** ** Building it *)

Section building.
Context `{Sha256, Unicode, Unordered, Following, Allocator}.
Context (X : area -> list byte -> Prop) (p0 : projected) (scratch : list byte).
Context (Hscratch : X Snapshots scratch) (Hclean : clean (objects (disk_of p0))).
Abbreviation B := (beside X p0).

Definition building (t : tree) (p : projected) : Prop := B p /\ entry_at Snapshots scratch p = Some t.

Lemma building_steady t : steady (building t).
Proof.
  intros p p' Hs [Hb He]. split; [by eapply beside_steady|]. unfold entry_at in *. by rewrite (sm_dir _ _ Hs).
Qed.
Lemma building_place t q v p : building t p -> building (<[q := v]> t) (place Snapshots scratch q v p).
Proof.
  intros [Hb He]. unfold place. rewrite He. split; [by apply beside_set|]. apply entry_set_eq. by eapply entry_dir.
Qed.
#[local] Hint Resolve building_steady building_place : core.

Lemma building_node t q p : building t p -> node_of Snapshots scratch q p = t !! q.
Proof. intros [_ He]. unfold node_of. by rewrite He. Qed.

Lemma t_write_node t q bytes :
  triple (building t) (write_node Snapshots scratch q bytes) (fun _ => building (<[q := FFile bytes false]> t)) (fun _ => B).
Proof.
  apply t_fcall; [auto|auto|by intros p []|..].
  - intros p Hp. rewrite (building_node _ _ _ Hp). pose proof (proj1 Hp).
    destruct (placeable _ _ q p), (t !! q) as [[|b []|]|]; auto.
  - intros [|k] p Hp; [apply Hp|]. pose proof (building_place t q (FFile (take k bytes) false) p Hp) as [? _]. pose proof (proj1 Hp).
    destruct (placeable Snapshots scratch q p), (node_of Snapshots scratch q p) as [[|b []|]|]; auto.
Qed.
Lemma t_chmod_node t q bytes ro :
  t !! q = Some (FFile bytes ro) ->
  triple (building t) (chmod_node Snapshots scratch q) (fun _ => building (<[q := FFile bytes true]> t)) (fun _ => B).
Proof.
  intros Hq. apply t_fcall; [auto|auto|by intros p []|..|by intros _ p []].
  intros p Hp. rewrite (building_node _ _ _ Hp), Hq. auto.
Qed.
Lemma t_create_node t q v :
  triple (building t) (create_node Snapshots scratch q v) (fun _ => building (<[q := v]> t)) (fun _ => B).
Proof.
  apply t_fcall; [auto|auto|by intros p []|..|by intros _ p []].
  intros p Hp. rewrite (building_node _ _ _ Hp). pose proof (proj1 Hp). destruct (placeable _ _ q p), (t !! q); auto.
Qed.

Lemma t_lio {A} (P : projected -> Prop) (m : M projected io_error A) Q (R : projected -> Prop) :
  triple P m Q (fun _ => R) -> triple P (lio m) Q (fun _ => R).
Proof. intros Hm p Hp. specialize (Hm p Hp). unfold lio, map_err_m. by destruct (m p) as [[a|e] p']. Qed.

Lemma t_install_bytes t q bytes :
  triple (building t) (install_bytes scratch q bytes) (fun _ => building (<[q := FFile bytes true]> t)) (fun _ => B).
Proof.
  eapply t_bind; [apply t_lio, t_write_node|]. intros u.
  eapply t_conseq; [apply t_lio, (t_chmod_node (<[q := FFile bytes false]> t) q bytes false), lookup_insert_eq|done| |done].
  intros v p. by rewrite insert_insert_eq.
Qed.

Lemma t_copy_object t digest q :
  triple (building t) (copy_object digest scratch q)
    (fun _ p => exists bytes, sha256 bytes = digest /\ building (<[q := FFile bytes true]> t) p) (fun _ => B).
Proof.
  unfold copy_object. eapply t_bind with (Q' := fun source p => building t p /\ (sha256 source.1 = digest /\ source.2 = true)).
  - apply t_lio. intros p Hp. unfold on_disk.
    pose proof (objects_query (fun d => match objects d !! digest with Some (Regular bytes ro) => Ok (bytes, ro) | _ => Err NotFound end)
      (disk_of p)) as Ho.
    assert (match (query (fun d => match objects d !! digest with Some (Regular bytes ro) => Ok (bytes, ro) | _ => Err NotFound end)
      (disk_of p)).1 with Ok source => sha256 source.1 = digest /\ source.2 = true | Err _ => True end) as Hq.
    { assert (forall d, objects d = objects (disk_of p0) ->
        match (match objects d !! digest with Some (Regular bytes ro) => Ok (bytes, ro) | _ => Err NotFound end)
        with Ok source => sha256 source.1 = digest /\ source.2 = true | Err _ => True end) as Hd.
      { intros d ->. destruct (objects (disk_of p0) !! digest) as [[b ro| |]|] eqn:E; try done.
        by destruct (Hclean _ _ E) as (b' & [= <- ->] & ? & _). }
      pose proof (be_objects _ _ _ (proj1 Hp)) as Hpo. unfold query, atomic, syscall. destruct (negb _); [done|].
      destruct (outcomes (disk_of p)) as [|[|e k|k] os]; try done; by apply Hd. }
    destruct (query _ (disk_of p)) as [r d]. cbn [fst snd] in *.
    assert (building t (set_disk d p)) as Hb by (eapply building_steady; [by apply same_set_disk|done]).
    destruct r; [by split|apply Hb].
  - intros [bytes ro]. apply t_pure_r. cbn [fst snd]. intros [Hs ->].
    eapply t_bind; [apply t_lio, t_write_node|]. intros u.
    eapply t_conseq; [apply t_lio, (t_chmod_node (<[q := FFile bytes false]> t) q bytes false), lookup_insert_eq|done| |done].
    intros v p Hp. rewrite insert_insert_eq in Hp. eauto.
Qed.

Lemma t_project_body symlinks path body t q :
  triple (building t) (project_body symlinks path body scratch q)
    (fun _ p => exists n, body_node path body n /\ building (<[q := n]> t) p) (fun _ => B).
Proof.
  destruct body as [f c size rs|size digest]; cbn [project_body body_node].
  { eapply t_conseq; [apply t_install_bytes|done| |done]. intros u p Hp. by eexists. }
  destruct (size =? 0); [eapply t_conseq; [apply t_install_bytes|done| |done]; intros u p Hp; by eexists|].
  destruct symlinks.
  { eapply t_conseq; [apply t_lio, t_create_node|done| |done]. intros u p Hp. eexists. split; [by left|exact Hp]. }
  eapply t_bind; [apply t_copy_object|]. intros u p (bytes & Hs & Hp).
  pose proof (t_lio _ _ _ _ (t_chmod_node _ q bytes true (lookup_insert_eq t q _)) p Hp) as Hc.
  rewrite insert_insert_eq in Hc. destruct (lio _ p) as [[v|e] p']; [|done]. eexists. split; [right; eauto|exact Hc].
Qed.

Lemma t_fill symlinks snap :
  NoDup (s_entries snap).*1 ->
  triple (fun p => exists t, building t p /\ tree_part snap [] t) (fill symlinks snap scratch)
    (fun _ p => exists t, building t p /\ tree_of snap t) (fun _ => B).
Proof.
  intros Hnd. apply (t_for (fill_entry symlinks snap scratch) tt (s_entries snap)
    (fun pre _ p => exists t, building t p /\ tree_part snap pre t) (fun _ => B)).
  intros pre [path e] post [] Hl p (t & Hp & Ht).
  assert (path ∉ pre.*1) as Hnew.
  { rewrite Hl, fmap_app, fmap_cons in Hnd. apply NoDup_app in Hnd as (_ & Hd & _). intros Hin. apply (Hd _ Hin). left. }
  assert (forall m, triple (building t) m (fun _ p => exists n, node_for snap (path, e) n /\ building (<[split_on slash path := n]> t) p)
    (fun _ => B) -> match (m : M projected layout_error unit) p with
    | (Ok _, p') => exists t, building t p' /\ tree_part snap (pre ++ [(path, e)]) t | (Err _, p') => B p' end) as Hm.
  { intros m Hm. specialize (Hm p Hp). destruct (m p) as [[u|er] p']; [|done]. destruct Hm as (n & Hn & Hb).
    eexists. split; [exact Hb|]. by apply (tree_part_snoc snap pre (path, e) n t). }
  unfold fill_entry, node_for in *. destruct e as [|x body|target|ordinal]; cbn [snd fst] in *.
  - apply Hm. eapply t_conseq; [apply t_lio, t_create_node|done|eauto|done].
  - apply Hm, t_project_body.
  - apply Hm. eapply t_conseq; [apply t_lio, t_create_node|done|eauto|done].
  - destruct (carrier_body snap ordinal) as [body|]; [|exact (proj1 Hp)].
    apply Hm. eapply t_conseq; [apply t_project_body|done| |done]. intros u p' (n & ? & ?). eauto 10.
Qed.
End building.
