(* ===== verification/LayoutGuarantees.v ===== *)
(** The guarantees of the projected layout ([src/crates/tensorfs-core/src/layout.rs],
    and the workspaces' operations on it). *)
From S2P Require Import Utf8.
From S2P Require Export LayoutFacts.

(** ** Scratch names *)

Definition scratch_name (_ : area) (n : list byte) : Prop := starts_with (bstr ".") n = true.

Lemma scratch_prefixed a prefix token :
  prefix ∈ [BUILDING_PREFIX; REMOVED_PREFIX; SWAP_PREFIX] -> scratch_name a (prefix ++ token).
Proof. intros Hp. unfold scratch_name. repeat (apply elem_of_cons in Hp as [->|Hp]; [done|]). by apply not_elem_of_nil in Hp. Qed.
Lemma hex_not_scratch a id : ~ scratch_name a (hex_of id).
Proof. unfold scratch_name, hex_of. destruct id as [|b id]; [done|]. by destruct b. Qed.
Lemma ref_not_scratch a name : ref_name_ok name = true -> ~ scratch_name a name.
Proof.
  unfold ref_name_ok, scratch_name. intros Hn Hs. rewrite Hs in Hn. apply negb_true_iff in Hn.
  rewrite !orb_false_iff in Hn. by destruct Hn as [[[[_ ?] _] _] _].
Qed.

(** The names a call may leave changed: the one it is asked for and, below a prefix,
    the one scratch name of its own token. *)
Definition own_scratch (own : option (list byte)) (a0 : area) (prefix : list byte) (a : area) (n : list byte) : Prop :=
  a = a0 /\ exists token, own = Some token /\ n = prefix ++ token.
Definition own_names (own : option (list byte)) (a0 : area) (prefix name : list byte) (a : area) (n : list byte) : Prop :=
  own_scratch own a0 prefix a n \/ (a = a0 /\ n = name).
Lemma own_is_scratch own a0 prefix a n :
  prefix ∈ [BUILDING_PREFIX; REMOVED_PREFIX; SWAP_PREFIX] -> own_scratch own a0 prefix a n -> scratch_name a n.
Proof. intros Hp (-> & token & _ & ->). by apply scratch_prefixed. Qed.
Lemma beside_own X own a0 prefix name p0 p :
  (forall a n, X a n -> own_scratch own a0 prefix a n) -> beside X p0 p -> beside (own_names own a0 prefix name) p0 p.
Proof. intros Hi. apply beside_weaken. intros a n Hx. left. by apply Hi. Qed.
Lemma beside_none X own a0 prefix p0 p :
  beside (own_scratch None a0 prefix) p0 p -> X = own_scratch own a0 prefix -> beside X p0 p.
Proof. intros Hb ->. eapply beside_weaken; [|exact Hb]. by intros a n (_ & token & ? & _). Qed.

(** ** Projection *)

Section projection.
Context `{Sha256, Unicode, Unordered, Following, Allocator}.

Lemma t_path_exists {E} X p0 a n :
  triple (E := E) (beside X p0) (path_exists a n)
    (fun b p => beside X p0 p /\ (b = true -> is_Some (entry_at a n p))) (fun _ => beside X p0).
Proof.
  intros p Hb. unfold path_exists.
  match goal with |- context [fquery ?f p] => set (q := f) end.
  pose proof (t_fcall (beside X p0) (beside X p0) (fun p => (q p, p)) (fun _ p => p)
    (fun (b : bool) p => beside X p0 p /\ (b = true -> is_Some (entry_at a n p))) ltac:(auto) ltac:(auto) ltac:(auto)) as Hq.
  assert (triple (beside X p0) (fquery q) (fun b p => beside X p0 p /\ (b = true -> is_Some (entry_at a n p))) (fun _ => beside X p0)) as Ht.
  { apply Hq; [|auto]. intros p' Hp'. unfold q. split; [done|]. by destruct (entry_at a n p'). }
  specialize (Ht p Hb). by destruct (fquery q p) as [[b|e] p'].
Qed.

(** A hardlink of a valid manifest has its carrier. *)
Lemma carrier_exists snap path ordinal :
  wf_snapshot snap -> (path, Hardlink ordinal) ∈ s_entries snap -> is_Some (carrier_body snap ordinal).
Proof.
  intros Hwf Hin. apply list_elem_of_split in Hin as (pre & post & Heq).
  destruct (wf_hardlinks _ Hwf _ _ _ _ Heq) as [Hge Hlt]. unfold carrier_body, ordinal_path, nth_file.
  set (files := filter (fun '(_, e) => is_file e = true) (s_entries snap)).
  assert (exists x, files !! Z.to_nat ordinal = Some x) as [[carrier e] Hx].
  { apply lookup_lt_is_Some. unfold files. rewrite Heq, filter_app, length_app.
    unfold count_files, zlen in Hlt. lia. }
  fold files. rewrite Hx. cbn. apply list_elem_of_lookup_2, list_elem_of_filter in Hx as [He Hx].
  destruct e as [|x body|t|o]; try done.
  assert (body ∈ omap (fun pe : list byte * entry => match pe.2 with
    | File _ body => if decide (pe.1 = carrier) then Some body else None | _ => None end) (s_entries snap)) as Hb.
  { apply list_elem_of_omap. exists (carrier, File x body). split; [done|]. cbn. by rewrite decide_True. }
  destruct (omap _ (s_entries snap)); [by apply not_elem_of_nil in Hb|eauto].
Qed.

Definition unpanicked {A} (m : M projected layout_error A) : Prop :=
  triple (fun _ => True) m (fun _ _ => True) (fun e _ => e <> LY_Panic).
Lemma u_lio {A} (m : M projected io_error A) : unpanicked (lio m).
Proof. intros p _. unfold lio, map_err_m. by destruct (m p) as [[a|e] p']. Qed.
Lemma u_bind {A B} (m : M projected layout_error A) (k : A -> M projected layout_error B) :
  unpanicked m -> (forall a, unpanicked (k a)) -> unpanicked (bind m k).
Proof. intros Hm Hk. by eapply t_bind. Qed.
Lemma u_project_body symlinks path body scratch q : unpanicked (project_body symlinks path body scratch q).
Proof.
  destruct body as [f c n rs|n digest]; cbn [project_body]; [apply u_bind; [|intros _]; apply u_lio|].
  destruct (n =? 0); [apply u_bind; [|intros _]; apply u_lio|]. destruct symlinks; [apply u_lio|].
  apply u_bind; [|intros _; apply u_lio]. apply u_bind; [apply u_lio|]. intros [bytes ro].
  apply u_bind; [apply u_lio|]. intros _. destruct ro; [apply u_lio|by apply t_ret].
Qed.
Lemma u_fill symlinks snap scratch : wf_snapshot snap -> unpanicked (fill symlinks snap scratch).
Proof.
  intros Hwf. apply (t_for _ tt (s_entries snap) (fun _ _ _ => True) (fun e _ => e <> LY_Panic)).
  intros pre [path e] post u Hl. unfold fill_entry. destruct e as [|x body|t|o]; [apply u_lio|apply u_project_body|apply u_lio|].
  destruct (carrier_exists snap path o Hwf ltac:(rewrite Hl; set_solver)) as [body ->]. apply u_project_body.
Qed.

Lemma wf_paths_distinct snap : wf_snapshot snap -> NoDup (s_entries snap).*1.
Proof.
  intros Hwf. pose proof (wf_sorted _ Hwf) as Hs. induction Hs as [|x l _ IH Hx]; constructor; [|done].
  intros Hin. rewrite Forall_forall in Hx. by apply (bytes_lt_irrefl x), Hx.
Qed.

Section building_into.
Context (symlinks : bool) (snap : snapshot) (p0 : projected) (token : list byte).
Context (Hwf : wf_snapshot snap) (Hclean : clean (objects (disk_of p0))).
Abbreviation final := (hex_of (snapshot_id snap)).
Abbreviation scratch := (BUILDING_PREFIX ++ token).
Abbreviation mine := (own_scratch (Some token) Snapshots BUILDING_PREFIX).
Abbreviation mine_or_final := (own_names (Some token) Snapshots BUILDING_PREFIX final).
Lemma scratch_mine : mine Snapshots scratch.
Proof. split; [done|]. by exists token. Qed.
#[local] Hint Resolve scratch_mine : core.

(** The tree is in place: it was before, or it is the one just built. *)
Definition in_place (p : projected) : Prop :=
  beside mine p0 p /\ is_Some (entry_at Snapshots final p) \/
  beside mine_or_final p0 p /\ exists t, entry_at Snapshots final p = Some t /\ tree_of snap t.

Lemma t_install_tree :
  triple (fun p => exists t, building mine p0 scratch t p /\ tree_of snap t)
    (rename_entry Snapshots scratch final) (fun _ => in_place) (fun _ => beside mine p0).
Proof.
  apply t_fcall; [|auto|by intros p (t & [] & _)|..|by intros _ p (t & [] & _)].
  { intros p p' Hsame (t & Hb & Ht). exists t. split; [by eapply building_steady|done]. }
  intros p (t & [Hb He] & Ht). rewrite He. cbv zeta.
  assert (in_place (set_entry Snapshots final (Some t) (set_entry Snapshots scratch None p))) as Hm.
  { right. split.
    - apply beside_set; [by right|]. apply beside_set; [by left|]. eapply beside_weaken; [|exact Hb]. by left.
    - exists t. split; [|done]. apply entry_set_eq, dir_set. by eapply entry_dir. }
  destruct (entry_at Snapshots final p) as [u|]; [|done].
  destruct (is_dir_tree t), (is_dir_tree u); try done. by case_bool_decide.
Qed.

Lemma t_build_into :
  triple (beside mine p0) (build_into symlinks snap scratch final)
    (fun name p => in_place p /\ name = final) (fun _ => beside mine p0).
Proof.
  unfold build_into.
  eapply t_bind with (Q' := fun _ p => exists t, building mine p0 scratch t p /\ tree_part snap [] t).
  { apply t_lio, t_fcall; [auto|auto|auto|..|auto]. intros p Hb. destruct (dir_of Snapshots p) eqn:Ed; [|done].
    destruct (entry_at Snapshots scratch p) eqn:Ee; [done|]. exists {[ [] := FDir ]}. split.
    - split; [by apply beside_set|]. apply entry_set_eq. by rewrite Ed.
    - constructor; [by rewrite lookup_singleton_eq|by intros pe ?%not_elem_of_nil|].
      intros q [n Hq]. left. by apply lookup_singleton_Some in Hq as [<- _]. }
  intros u. eapply t_bind; [apply t_fill; [done|done|by apply wf_paths_distinct]|].
  intros u' p Hp. pose proof (t_install_tree p Hp) as Hr.
  destruct (rename_entry _ _ _ p) as [[[]|e] p']; [by split|].
  pose proof (t_path_exists (E := layout_error) mine p0 Snapshots final p' Hr) as Hx.
  unfold bind. destruct (path_exists _ _ p') as [[[]|er] p'']; [|apply Hx|done].
  split; [|done]. left. split; [apply Hx|by apply Hx].
Qed.
End building_into.

Lemma u_take_lease : unpanicked take_scratch_lease.
Proof.
  assert (forall fuel, unpanicked (take_lease_loop fuel)) as Hf; [|intros p; apply Hf].
  induction fuel as [|fuel IH]; [by apply t_fail|]. cbn [take_lease_loop]. apply u_bind; [done|]. intros token p _.
  destruct (on_disk _ p) as [[[]|e] p']; [|case_decide; [by apply IH|done]].
  apply (u_bind (lio (on_disk (try_lock (lease_path token))))); [apply u_lio|intros; by apply t_ret|done].
Qed.
Lemma u_build_into symlinks snap scratch final : wf_snapshot snap -> unpanicked (build_into symlinks snap scratch final).
Proof.
  intros Hwf. apply u_bind; [apply u_lio|]. intros _. apply u_bind; [by apply u_fill|]. intros _ p _.
  destruct (rename_entry _ _ _ p) as [[[]|e] p']; [done|]. unfold bind. destruct (path_exists _ _ p') as [[[]|er] p''] eqn:E; [done|done|].
  unfold path_exists in E. by destruct (fquery _ p') as [[b|?] ?].
Qed.

(** Clearing the scratch away touches scratch. *)
Lemma f_clear_scratch X p1 scratch token :
  X Snapshots scratch ->
  framed (beside X p1) (ignore (remove_tree_at Snapshots scratch);;; give_up_lease (E := layout_error) token).
Proof. intros Hs. apply f_bind; [by apply f_ignore, f_remove_tree_at|]. intros _. apply f_give_up. Qed.

(** C24: A projection appears whole or not at all.  Whatever fails or crashes while
    a valid snapshot is projected over a clean store, no object and no table is
    changed, and of the trees and refs only the snapshot's own name and one scratch
    name, that of a token that had no lease; of the temporaries only that token's
    lease, the locks a killed process loses apart.  So no other writer's scratch or
    lease is touched, and a crash can leave at most a scratch tree and a lease of the
    call's own.  Under the snapshot's name stands what stood there before or the whole tree of the manifest: a directory per directory entry, a
    stub or a link to the object per file (or a copy of it), a link per symbolic
    link, and nothing else.  A projection that answers has its tree in place, and
    none panics. *)
Theorem project_is_atomic symlinks snap p0 :
  wf_snapshot snap -> clean (objects (disk_of p0)) ->
  let final := hex_of (snapshot_id snap) in
  let '(r, p) := project symlinks snap p0 in
  (exists own, leased (temps (disk_of p0)) own p /\ beside (own_names own Snapshots BUILDING_PREFIX final) p0 p) /\
  (entry_at Snapshots final p = entry_at Snapshots final p0 \/
   exists t, entry_at Snapshots final p = Some t /\ tree_of snap t) /\
  match r with
  | Ok name => name = final /\ is_Some (entry_at Snapshots final p)
  | Err e => e <> LY_Panic
  end.
Proof.
  intros Hwf Hclean. cbv zeta. set (final := hex_of (snapshot_id snap)). set (T := temps (disk_of p0)).
  assert (forall own, ~ own_scratch own Snapshots BUILDING_PREFIX Snapshots final) as Hno.
  { intros own Hx. apply own_is_scratch in Hx; [by apply hex_not_scratch in Hx|left]. }
  assert (forall own p, beside (own_scratch own Snapshots BUILDING_PREFIX) p0 p -> entry_at Snapshots final p = entry_at Snapshots final p0) as Hfinal.
  { intros own p Hb. apply (be_names _ _ _ Hb), Hno. }
  assert (forall own p1 p, beside (own_scratch own Snapshots BUILDING_PREFIX) p1 p -> beside (own_names own Snapshots BUILDING_PREFIX final) p1 p) as Hw.
  { intros own p1 p. by apply beside_own. }
  set (none := own_scratch None Snapshots BUILDING_PREFIX).
  unfold project. fold final. unfold bind at 1.
  pose proof (t_path_exists (E := layout_error) none p0 Snapshots final p0 (beside_refl _ _)) as Hx.
  pose proof (l_path_exists (E := layout_error) T None Snapshots final p0 (leased_refl _)) as Hl1.
  destruct (path_exists Snapshots final p0) as [[[]|e] p1] eqn:E1.
  { destruct Hx as [Hb Hs]. split; [by exists None; auto|]. split; [left; by eapply Hfinal|]. auto. }
  2: { exfalso. unfold path_exists in E1. by destruct (fquery _ p0) as [[b|?] ?]. }
  destruct Hx as [Hb1 _]. unfold bind at 1. pose proof (t_lio _ _ _ _ (f_make_area none p0 Snapshots) p1 Hb1) as Ha.
  pose proof (l_lio _ _ _ (l_make_area T None Snapshots) p1 Hl1) as Hl2.
  pose proof (u_lio (make_area Snapshots) p1 I) as Hu. destruct (lio (make_area Snapshots) p1) as [[[]|e] p2].
  2: { split; [by exists None; auto|]. split; [left; by eapply Hfinal|done]. }
  unfold bind at 1. pose proof (f_take_lease none p0 p2 Ha) as Ht. pose proof (l_take_lease T p2 Hl2) as Hl3. pose proof (u_take_lease p2 I) as Hu'.
  destruct (take_scratch_lease p2) as [[token|e] p3].
  2: { destruct Hl3 as [own Hl3]. split; [exists own; split; [done|apply Hw; by eapply beside_none]|]. split; [left; by eapply Hfinal|done]. }
  set (scratch := BUILDING_PREFIX ++ token) in *. set (mine := own_scratch (Some token) Snapshots BUILDING_PREFIX).
  assert (beside mine p0 p3) as Hb3 by (by eapply beside_none).
  pose proof (t_build_into symlinks snap p0 token Hwf Hclean p3 Hb3) as Hi. pose proof (l_build_into T (Some token) symlinks snap scratch final p3 Hl3) as Hl4.
  pose proof (u_build_into symlinks snap scratch final Hwf p3 I) as Hu2. fold final scratch in Hi.
  destruct (build_into symlinks snap scratch final p3) as [r p4].
  assert (leased T (Some token) p4) as Hl4' by (by destruct r). clear Hl4.
  pose proof (framed_end _ _ p4 (f_clear_scratch mine p4 scratch token (scratch_mine token)) (beside_refl _ _)) as Hc.
  pose proof (framed_end _ _ p4 (f_bind _ _ _ (l_ignore (F := layout_error) T (Some token) _ (l_remove_tree_at T (Some token) Snapshots scratch))
    (fun _ => l_give_up T token)) Hl4') as Hl5.
  set (p5 := (_ p4).2) in *. assert (entry_at Snapshots final p5 = entry_at Snapshots final p4) as Hf5 by apply (be_names _ _ _ Hc), Hno.
  rewrite Hf5. destruct r as [name|e].
  - destruct Hi as [[[Hb Hsome]|[Hb (t & Ht4 & Htree)]] ->].
    + split; [exists (Some token); split; [done|by eapply beside_trans; apply Hw]|]. split; [left; by eapply Hfinal|by split].
    + split; [exists (Some token); split; [done|eapply beside_trans; [exact Hb|by apply Hw]]|]. split; [right; eauto|]. split; [done|]. by exists t.
  - split; [exists (Some token); split; [done|by eapply beside_trans; apply Hw]|]. split; [left; by eapply Hfinal|done].
Qed.
End projection.

(** ** Refs *)

(** A byte no white space begins or ends with. *)
Definition solid (b : byte) : bool :=
  forallb (fun w => negb (bool_decide (head w = Some b)) && negb (bool_decide (last w = Some b))) white_space.
Lemma hex_solid l : Forall (fun b => solid b = true /\ byte_val b < 128) (to_hex l).
Proof.
  assert (forall b, forallb (fun c => solid c && (byte_val c <? 128)) (hex_byte b) = true) as Hb
    by (intros b; destruct b; vm_compute; reflexivity).
  unfold to_hex. induction l as [|b l IH]; [constructor|]. cbn [mbind list_bind]. apply Forall_app. split; [|exact IH].
  apply Forall_forall. intros c Hc. specialize (Hb b). rewrite forallb_forall in Hb.
  apply list_elem_of_In, Hb, andb_true_iff in Hc as [? ?%Z.ltb_lt]. done.
Qed.

Lemma solid_spec b w : solid b = true -> w ∈ white_space -> w <> [] /\ head w <> Some b /\ last w <> Some b.
Proof.
  intros Hs Hw. unfold solid in Hs. rewrite forallb_forall in Hs. apply list_elem_of_In in Hw as Hw'.
  specialize (Hs w Hw'). apply andb_true_iff in Hs as [Hh%negb_true_iff%bool_decide_eq_false Hl%negb_true_iff%bool_decide_eq_false].
  split; [|done]. intros ->. revert Hw. unfold white_space. cbn [List.map]. intros Hw.
  repeat (apply elem_of_cons in Hw as [?|Hw]; [done|]). by apply not_elem_of_nil in Hw.
Qed.
Lemma strip_while_stuck strip fuel text :
  (forall w, w ∈ white_space -> strip w text = None) -> strip_while strip fuel text = text.
Proof.
  intros Hs. destruct fuel as [|fuel]; [done|]. cbn [strip_while].
  assert (omap (fun w => strip w text) white_space = []) as ->; [|done].
  destruct (omap _ white_space) as [|x l] eqn:E; [done|].
  assert (x ∈ omap (fun w => strip w text) white_space) as Hx by (rewrite E; left).
  apply list_elem_of_omap in Hx as (w & Hw & Hwx). by rewrite Hs in Hwx.
Qed.
Lemma no_white_prefix b l w : solid b = true -> w ∈ white_space -> strip_prefix w (b :: l) = None.
Proof.
  intros Hb Hw. destruct (solid_spec b w Hb Hw) as (Hne & Hh & _).
  destruct (strip_prefix w (b :: l)) as [rest|] eqn:E; [|done]. apply strip_prefix_Some in E.
  destruct w as [|c w]; [done|]. injection E as -> _. done.
Qed.
Lemma no_white_suffix b l w : solid b = true -> w ∈ white_space -> strip_suffix w (l ++ [b]) = None.
Proof.
  intros Hb Hw. destruct (solid_spec b w Hb Hw) as (Hne & _ & Hl).
  destruct (strip_suffix w (l ++ [b])) as [rest|] eqn:E; [|done]. apply strip_suffix_Some in E.
  destruct w as [|c w _] using rev_ind; [done|]. rewrite app_assoc in E. apply app_inj_tail in E as [_ ->].
  by rewrite last_snoc in Hl.
Qed.
Lemma white_newline h w : w ∈ white_space -> strip_suffix w (h ++ newline) = if decide (w = newline) then Some h else None.
Proof.
  intros Hw. case_decide as Hd; [subst w; by apply strip_suffix_Some|].
  assert (last w <> Some (byte_of 10)) as Hl.
  { revert Hw Hd. unfold white_space. cbn [List.map]. intros Hw Hd.
    repeat (apply elem_of_cons in Hw as [->|Hw]; [try done; by exfalso; apply Hd|]). by apply not_elem_of_nil in Hw. }
  destruct (strip_suffix w (h ++ newline)) as [rest|] eqn:E; [|done]. apply strip_suffix_Some in E.
  destruct w as [|c w _] using rev_ind; [by rewrite app_nil_r in E; destruct (solid_spec (byte_of 48) [] ltac:(done) Hw)|].
  rewrite app_assoc in E. apply app_inj_tail in E as [_ <-]. by rewrite last_snoc in Hl.
Qed.

Lemma trim_hex_line id : id <> [] -> trim (to_hex id ++ newline) = to_hex id.
Proof.
  intros Hne. pose proof (hex_solid id) as Hf.
  assert (to_hex id <> []) as Hh.
  { intros Heq%(f_equal zlen). rewrite zlen_to_hex in Heq. destruct id as [|b id]; [done|].
    rewrite zlen_cons in Heq. pose proof (zlen_nonneg id). change (zlen []) with 0 in Heq. lia. }
  unfold trim. rewrite (strip_while_stuck strip_prefix).
  2: { intros w Hw. destruct (to_hex id) as [|b l]; [done|]. apply Forall_cons in Hf as [[Hb _] _]. by apply no_white_prefix. }
  cbv zeta. rewrite length_app. cbn [length newline]. rewrite Nat.add_1_r. cbn [strip_while].
  rewrite (list_omap_ext _ (fun w => if decide (w = newline) then Some (to_hex id) else None) white_space white_space).
  2: { apply Forall_Forall2_diag, Forall_forall. intros w Hw. by apply white_newline. }
  change (omap (fun w => if decide (w = newline) then Some (to_hex id) else None) white_space) with [to_hex id].
  cbv iota. apply strip_while_stuck. intros w Hw. destruct (to_hex id) as [|b l _] using rev_ind; [done|].
  apply Forall_app in Hf as [_ [[Hb _] _]%Forall_cons]. by apply no_white_suffix.
Qed.

Lemma ref_id_bytes id : zlen id = 32 -> ref_id (ref_bytes id) = Some id.
Proof.
  intros Hid. unfold ref_id, ref_bytes, hex_of. rewrite utf8_valid_ascii.
  - rewrite trim_hex_line; [by apply parse_hex32_to_hex|]. by intros ->.
  - apply Forall_app. split; [eapply Forall_impl; [apply hex_solid|]; by intros b []|]. by repeat constructor.
Qed.

Definition ref_file (id : list byte) : tree := {[ [] := FFile (ref_bytes id) false ]}.

Section refs.
Context `{Sha256, Unicode, Unordered, Following, Allocator}.

Abbreviation my_swap token := (own_scratch (Some token) Refs SWAP_PREFIX).
Abbreviation my_swap_or token name := (own_names (Some token) Refs SWAP_PREFIX name).
Definition staging (p0 : projected) (token : list byte) (n : fnode) (p : projected) : Prop :=
  beside (my_swap token) p0 p /\ entry_at Refs (SWAP_PREFIX ++ token) p = Some {[ [] := n ]}.
Lemma staging_steady p0 token n : steady (staging p0 token n).
Proof.
  intros p p' Hs [Hb He]. split; [by eapply beside_steady|]. unfold entry_at in *. by rewrite (sm_dir _ _ Hs).
Qed.
#[local] Hint Resolve staging_steady : core.

Lemma t_swap_ref p0 token name id :
  triple (beside (my_swap token) p0) (swap_ref (SWAP_PREFIX ++ token) name id)
    (fun _ p => beside (my_swap_or token name) p0 p /\ entry_at Refs name p = Some (ref_file id)) (fun _ => beside (my_swap token) p0).
Proof.
  set (staged := SWAP_PREFIX ++ token). assert (my_swap token Refs staged) as Hs by (split; [done|]; by exists token).
  unfold swap_ref. eapply t_bind with (Q' := fun _ => staging p0 token (FFile [] false)).
  { apply t_fcall; [auto|auto|auto|..|auto]. intros p Hb. destruct (dir_of Refs p) eqn:Ed; [|done].
    destruct (entry_at Refs staged p); [done|]. split; [by apply beside_set|]. apply entry_set_eq. by rewrite Ed. }
  intros u. eapply t_bind with (Q' := fun _ => staging p0 token (FFile (ref_bytes id) false)).
  { apply t_fcall; [auto|auto|by intros p []|..|intros k p []; by apply beside_place].
    intros p [Hb He]. split; [by apply beside_place|]. unfold place. fold staged in He |- *. rewrite He, insert_singleton_eq.
    apply entry_set_eq. by eapply entry_dir. }
  intros u'. eapply t_bind with (Q' := fun _ => staging p0 token (FFile (ref_bytes id) false)).
  { apply t_fcall; [auto|auto|by intros p []|by auto|by intros k p []]. }
  intros u''. apply t_fcall; [auto|auto|by intros p []|..|by intros k p []].
  intros p [Hb He]. fold staged in He. rewrite He. cbv zeta.
  assert (let p' := set_entry Refs name (Some (ref_file id)) (set_entry Refs staged None p) in
    beside (my_swap_or token name) p0 p' /\ entry_at Refs name p' = Some (ref_file id)) as Hm.
  { split.
    - apply beside_set; [by right|]. apply beside_set; [by left|]. eapply beside_weaken; [|exact Hb]. by left.
    - apply entry_set_eq, dir_set. by eapply entry_dir. }
  assert (is_dir_tree {[ [] := FFile (ref_bytes id) false ]} = false) as -> by done.
  destruct (entry_at Refs name p) as [v|]; [|exact Hm]. by destruct (is_dir_tree v).
Qed.

(** C38: A ref is swapped whole.  Whatever fails or crashes while a ref is set, no
    object and no table is changed, and of the trees and refs only the ref's own name
    and one scratch name, the swap file of a token that had no lease; of the
    temporaries only that token's lease, the locks a killed process loses apart.  So
    no other writer's swap file or lease is touched, and a crash can leave at most a
    swap file and a lease of the call's own.  The ref's file is the one that was
    there or the complete new one, and it is the new one when the call answers.  Read
    where nothing fails, the new one gives back the identity. *)
Theorem set_ref_is_atomic name id p0 :
  zlen id = 32 ->
  let '(r, p) := set_ref name id p0 in
  (exists own, leased (temps (disk_of p0)) own p /\ beside (own_names own Refs SWAP_PREFIX name) p0 p) /\
  (entry_at Refs name p = entry_at Refs name p0 \/ entry_at Refs name p = Some (ref_file id)) /\
  (r = Ok tt -> entry_at Refs name p = Some (ref_file id) /\
    forall q, entry_at Refs name q = Some (ref_file id) -> alive (disk_of q) = true -> outcomes (disk_of q) = [] ->
      read_ref name q = (Ok (Some id), q)).
Proof.
  intros Hid. unfold set_ref, bind at 1, lift, validated_ref_name. set (T := temps (disk_of p0)).
  destruct (ref_name_ok name) eqn:Hn.
  2: { split; [exists None; split; [apply leased_refl|apply beside_refl]|split; [by left|done]]. }
  assert (forall own, ~ own_scratch own Refs SWAP_PREFIX Refs name) as Hno.
  { intros own Hx. apply own_is_scratch in Hx; [by apply ref_not_scratch in Hx|do 2 right; left]. }
  assert (forall own p, beside (own_scratch own Refs SWAP_PREFIX) p0 p -> entry_at Refs name p = entry_at Refs name p0) as Hname.
  { intros own p Hb. apply (be_names _ _ _ Hb), Hno. }
  assert (forall own p1 p, beside (own_scratch own Refs SWAP_PREFIX) p1 p -> beside (own_names own Refs SWAP_PREFIX name) p1 p) as Hw.
  { intros own p1 p. by apply beside_own. }
  set (none := own_scratch None Refs SWAP_PREFIX).
  unfold bind at 1. pose proof (t_lio _ _ _ _ (f_make_area none p0 Refs) p0 (beside_refl _ _)) as Ha.
  pose proof (l_lio _ _ _ (l_make_area T None Refs) p0 (leased_refl _)) as Hl2.
  destruct (lio (make_area Refs) p0) as [[[]|e] p2]; [|split; [by exists None; auto|split; [left; by eapply Hname|done]]].
  unfold bind at 1. pose proof (f_take_lease none p0 p2 Ha) as Ht. pose proof (l_take_lease T p2 Hl2) as Hl3.
  destruct (take_scratch_lease p2) as [[token|e] p3].
  2: { destruct Hl3 as [own Hl3]. split; [exists own; split; [done|apply Hw; by eapply beside_none]|split; [left; by eapply Hname|done]]. }
  set (staged := SWAP_PREFIX ++ token) in *. set (mine := own_scratch (Some token) Refs SWAP_PREFIX).
  assert (mine Refs staged) as Hs by (split; [done|]; by exists token).
  pose proof (t_lio _ _ _ _ (t_swap_ref p0 token name id) p3 ltac:(by eapply beside_none)) as Hsw.
  pose proof (l_lio _ _ _ (l_swap_ref T (Some token) staged name id) p3 Hl3) as Hl4. cbv zeta. fold staged in Hsw.
  destruct (lio (swap_ref staged name id) p3) as [r p4]. assert (leased T (Some token) p4) as Hl4' by (by destruct r).
  assert (framed (beside mine p4) (ignore (remove_entry_file Refs staged);;; give_up_lease (E := layout_error) token)) as Hf.
  { apply f_bind; [by apply f_ignore, f_remove_file|]. intros _. apply f_give_up. }
  pose proof (framed_end _ _ p4 Hf (beside_refl _ _)) as Hc.
  pose proof (framed_end _ _ p4 (f_bind _ _ _ (l_ignore (F := layout_error) T (Some token) _ (l_remove_file T (Some token) Refs staged))
    (fun _ => l_give_up T token)) Hl4') as Hl5. set (p5 := (_ p4).2) in *.
  assert (entry_at Refs name p5 = entry_at Refs name p4) as Hf5 by apply (be_names _ _ _ Hc), Hno.
  rewrite Hf5. destruct r as [[]|e].
  - destruct Hsw as [Hb He]. split; [exists (Some token); split; [done|eapply beside_trans; [exact Hb|by apply Hw]]|].
    split; [by right|]. intros _. split; [done|].
    intros q Hq Hal Hout. unfold read_ref, bind, lift, validated_ref_name. rewrite Hn.
    unfold read_file, fquery, fatomic, fcall. rewrite Hal, Hout. cbn [negb]. rewrite Hq.
    change (root_node (ref_file id)) with (ref_file id !! []). unfold ref_file at 1. rewrite lookup_singleton_eq.
    by rewrite ref_id_bytes.
  - split; [exists (Some token); split; [done|by eapply beside_trans; apply Hw]|]. split; [left; by eapply Hname|done].
Qed.
End refs.
