(* ===== verification/LayoutScrub.v ===== *)
(** Removal from the projected layout: [unlink_scratch], [reap_scratch] and the
    workspaces' [scrub] ([src/crates/tensorfs-core/src/layout.rs],
    [src/crates/tensorfs-core/src/workspace.rs]). *)
From S2P Require Import Utf8.
From S2P Require Export LayoutGuarantees.

(** ** What only takes away *)

(** From [p0] to [p], names of [X] at most are changed, and a name that is not
    scratch is as it was or gone. *)
Record swept (X : area -> list byte -> Prop) (p0 p : projected) : Prop := {
  sw_beside : beside X p0 p;
  sw_gone a n : ~ scratch_name a n -> entry_at a n p = entry_at a n p0 \/ entry_at a n p = None
}.

Lemma swept_refl X p : swept X p p.
Proof. split; [apply beside_refl|by left]. Qed.
Lemma swept_trans X p0 p1 p2 : swept X p0 p1 -> swept X p1 p2 -> swept X p0 p2.
Proof.
  intros [Hb Hg] [Hb' Hg']. split; [by eapply beside_trans|]. intros a n Hn.
  destruct (Hg' a n Hn) as [->|?]; [by apply Hg|by right].
Qed.
Lemma swept_weaken (X Y : area -> list byte -> Prop) p0 p : (forall a n, X a n -> Y a n) -> swept X p0 p -> swept Y p0 p.
Proof. intros Hi [Hb Hg]. split; [by eapply beside_weaken|done]. Qed.
Lemma swept_scratch (X : area -> list byte -> Prop) p0 p :
  (forall a n, scratch_name a n -> X a n) -> beside scratch_name p0 p -> swept X p0 p.
Proof.
  intros Hi Hb. split; [by eapply beside_weaken|]. intros a n Hn. left. by apply (be_names _ _ _ Hb).
Qed.

(** ** Worlds where nothing fails *)

Definition calm (w : world) : Prop := alive (w_disk w) = true /\ outcomes (w_disk w) = [].
Definition at_world (w : world) (p : projected) : Prop := pj_world p = w.

Section calm.
Context (w : world) (Hcalm : calm w).

Lemma k_fcall {A} act (partial : nat -> projected -> projected) :
  (forall p, pj_world (act p : result io_error A * projected).2 = pj_world p) -> framed (at_world w) (fcall act partial).
Proof.
  intros Ha p Hp. unfold at_world in *. unfold fcall, disk_of, projected_has_disk. rewrite Hp.
  destruct Hcalm as [-> ->]. cbn [negb]. specialize (Ha p). destruct (act p) as [[a|e] p']; simpl in *; congruence.
Qed.
Lemma k_rename a n n' : framed (at_world w) (rename_entry a n n').
Proof.
  apply k_fcall. intros p. destruct (entry_at a n p) as [t|]; [|done]. cbv zeta.
  destruct (entry_at a n' p) as [u|]; [|cbn; by rewrite !world_set].
  destruct (is_dir_tree t), (is_dir_tree u); cbn; rewrite ?world_set; try done. case_bool_decide; cbn; by rewrite ?world_set.
Qed.
Lemma k_delete_scratch {E} a n : framed (E := E) (at_world w) (delete_scratch a n).
Proof.
  intros p Hp. unfold delete_scratch.
  pose proof (k_fcall (fun p => (match entry_at a n p with Some t => Ok (is_dir_tree t) | None => Err NotFound end, p))
    (fun _ p => p) ltac:(done) p Hp) as Hq. unfold fquery, fatomic.
  destruct (fcall _ _ p) as [[[]|e] p']; [| |done].
  - assert (framed (at_world w) (remove_tree_at a n)) as Hr.
    { apply k_fcall. intros q. destruct (entry_at a n q) as [t|]; [|done]. destruct (root_node t) as [[]|]; cbn; by rewrite ?world_set. }
    specialize (Hr p' Hq). by destruct (remove_tree_at a n p') as [[u|e] p''].
  - assert (framed (at_world w) (remove_entry_file a n)) as Hr.
    { apply k_fcall. intros q. destruct (entry_at a n q) as [t|]; [|done]. destruct (is_dir_tree t); cbn; by rewrite ?world_set. }
    specialize (Hr p' Hq). by destruct (remove_entry_file a n p') as [[u|e] p''].
Qed.
Lemma k_unlink a n : framed (at_world w) (unlink_scratch a n).
Proof.
  apply f_bind; [intros p Hp; exact Hp|]. intros token p Hp. cbv beta zeta. pose proof (k_rename a n (REMOVED_PREFIX ++ token) p Hp) as Hr.
  destruct (rename_entry _ _ _ p) as [[[]|e] p']; [|destruct (decide (e = NotFound)); exact Hr].
  apply (f_bind (at_world w) (delete_scratch a (REMOVED_PREFIX ++ token))); [apply k_delete_scratch|intros; apply f_ret|done].
Qed.
Lemma k_read_dir `{Unordered} a : framed (at_world w) (read_dir_or_empty a).
Proof.
  intros p Hp. unfold read_dir_or_empty.
  pose proof (k_fcall (fun p => (match dir_of a p with Some m => Ok (enumerate (map_to_list m).*1) | None => Err NotFound end, p))
    (fun _ p => p) ltac:(done) p Hp) as Hq. unfold list_area, fquery, fatomic.
  destruct (fcall _ _ p) as [[names|e] p']; [done|]. by case_decide.
Qed.
Lemma k_read_ref name : framed (at_world w) (read_ref name).
Proof.
  apply f_bind; [apply f_lift|]. intros n p Hp.
  match goal with |- context [read_file n p] => assert (framed (at_world w) (read_file n)) as Hr by (by apply k_fcall) end.
  specialize (Hr p Hp). destruct (read_file n p) as [[bytes|e] p']; [by destruct (ref_id bytes)|by case_decide].
Qed.
End calm.

(** ** Taking a name *)

Section unlink.
Context `{Sha256, Unicode, Unordered, Following, Allocator}.

Definition or_name (a0 : area) (n0 : list byte) (a : area) (n : list byte) : Prop := scratch_name a n \/ (a = a0 /\ n = n0).

(** Taking a name, whatever fails: it is as it was or gone, and gone when the
    answer is that it was taken - or absent, where nothing failed. *)
Lemma unlink_spec a name p :
  let '(r, p') := unlink_scratch a name p in
  swept (or_name a name) p p' /\ (r = Ok Taken -> ~ scratch_name a name -> entry_at a name p' = None) /\
  (calm (pj_world p) -> r = Ok Absent -> ~ scratch_name a name -> entry_at a name p' = None) /\ r <> Ok Deferred.
Proof.
  unfold unlink_scratch, bind at 1. destruct (scratch_token p) as [[token|e] p1] eqn:Et; [|done].
  unfold scratch_token in Et. injection Et as Ht <-. pose proof (scratch_prefixed a REMOVED_PREFIX token ltac:(right; left)) as Hs.
  clear Ht. set (claimed := REMOVED_PREFIX ++ token) in *. set (p1 := Projected _ _ _ _).
  assert (same p p1) as Hsame by (by constructor; [..|intros []]).
  assert (beside scratch_name p p1) as Hb1 by (eapply beside_steady; [exact Hsame|apply beside_refl]).
  assert (forall a' n, entry_at a' n p1 = entry_at a' n p) as He1 by (intros [] n; done).
  assert (triple (fun q => q = p1 \/ same p1 q) (rename_entry a name claimed)
    (fun _ q => swept (or_name a name) p q /\ (~ scratch_name a name -> entry_at a name q = None))
    (fun _ => beside scratch_name p)) as Hr.
  { assert (forall q, q = p1 \/ same p1 q -> beside scratch_name p q) as Hb.
    { intros q [->|Hq]; [done|]. by eapply beside_steady. }
    apply t_fcall; [|auto|exact Hb|..|auto].
    { intros q q' Hq [->|Hp]; right; [done|]. destruct Hq, Hp. constructor; [congruence..|]. intros a'. congruence. }
    intros q Hq. pose proof (Hb q Hq) as Hbq. destruct (entry_at a name q) as [t|] eqn:Eq; [|done]. cbv zeta.
    set (q' := set_entry a claimed (Some t) (set_entry a name None q)).
    assert (beside (or_name a name) p q') as Hbq'.
    { apply beside_set; [by left|]. apply beside_set; [by right|]. eapply beside_weaken; [|exact Hbq]. by left. }
    assert (forall a' n, ~ scratch_name a' n -> entry_at a' n q' = entry_at a' n (set_entry a name None q)) as Hq'.
    { intros a' n Hn. apply entry_set_ne. intros [= -> ->]. done. }
    assert (entry_at a name (set_entry a name None q) = None) as Hnone by (apply entry_set_eq; by eapply entry_dir).
    assert (swept (or_name a name) p q' /\ (~ scratch_name a name -> entry_at a name q' = None)) as Hm.
    { split; [|intros Hn; by rewrite Hq']. split; [done|]. intros a' n Hn. rewrite Hq' by done.
      destruct (decide ((a', n) = (a, name))) as [[= -> ->]|Hne]; [by right|]. left.
      rewrite entry_set_ne by done. by apply (be_names _ _ _ Hbq). }
    destruct (entry_at a claimed q) as [u|]; [|exact Hm].
    destruct (is_dir_tree t), (is_dir_tree u); try done. by case_bool_decide. }
  specialize (Hr p1 (or_introl eq_refl)).
  assert (calm (pj_world p) -> (rename_entry a name claimed p1).1 = Err NotFound -> entry_at a name p = None) as Habs.
  { intros [Hal Hout] Hn. unfold rename_entry, fatomic, fcall in Hn. change (disk_of p1) with (w_disk (pj_world p)) in Hn.
    rewrite Hal, Hout in Hn. cbn [negb] in Hn. rewrite He1 in Hn. destruct (entry_at a name p) as [t|]; [|done].
    cbv zeta in Hn. destruct (entry_at a claimed p1) as [u|]; [|done].
    destruct (is_dir_tree t), (is_dir_tree u); try done. by case_bool_decide. }
  destruct (rename_entry a name claimed p1) as [[[]|e] p2].
  - destruct Hr as [Hsw Hgone]. pose proof (f_delete_scratch (E := layout_error) scratch_name p2 a claimed Hs p2 (beside_refl _ _)) as Hd.
    unfold bind. destruct (delete_scratch a claimed p2) as [[b|e] p3] eqn:Ed.
    2: { exfalso. unfold delete_scratch in Ed. destruct (fquery _ p2) as [[[]|?] q]; [..|done];
         [by destruct (remove_tree_at a claimed q) as [[]]|by destruct (remove_entry_file a claimed q) as [[]]]. }
    split; [eapply swept_trans; [exact Hsw|apply swept_scratch; [by left|done]]|]. split; [|done].
    intros _ Hn. rewrite (be_names _ _ _ Hd) by done. by apply Hgone.
  - assert (swept (or_name a name) p p2) as Hsw by (apply swept_scratch; [by left|done]).
    case_decide as Hnf; [|by repeat split; try apply Hsw].
    split; [done|]. split; [done|]. split; [|done]. intros Hc _ Hn. rewrite (be_names _ _ _ Hr) by done.
    apply Habs; [done|by subst e].
Qed.
End unlink.

(** ** Reaping touches scratch *)

Lemma scratch_of_Some prefix name token : scratch_of prefix name = Some token -> name = prefix ++ token.
Proof. unfold scratch_of. destruct (utf8_valid name); [|done]. by intros ?%strip_prefix_Some. Qed.

Section reap.
Context `{Sha256, Unicode, Unordered, Following, Allocator}.
Context (X : area -> list byte -> Prop) (p0 : projected) (HX : forall a n, scratch_name a n -> X a n).
Abbreviation B := (beside X p0).

Lemma f_read_dir a : framed B (read_dir_or_empty a).
Proof.
  intros p Hb. unfold read_dir_or_empty. pose proof (f_list_area X p0 a p Hb) as Hl.
  destruct (list_area a p) as [[names|e] p']; [done|]. by case_decide.
Qed.
Lemma f_reap_building report name : framed B (reap_building report name).
Proof.
  unfold reap_building. destruct (scratch_of BUILDING_PREFIX name) as [token|] eqn:E; [|apply f_ret].
  apply scratch_of_Some in E as ->. apply f_bind; [apply f_lease_state|]. intros [l|]; [|apply f_ret]. intros p Hb.
  pose proof (f_remove_tree_at X p0 Snapshots (BUILDING_PREFIX ++ token) ltac:(apply HX, scratch_prefixed; left) p Hb) as Hr.
  by destruct (remove_tree_at _ _ p) as [[u|e] p'].
Qed.
Lemma f_reap_swap report name : framed B (reap_swap report name).
Proof.
  unfold reap_swap. destruct (scratch_of SWAP_PREFIX name) as [token|] eqn:E; [|apply f_ret].
  apply scratch_of_Some in E as ->. apply f_bind.
  { intros p Hb. unfold is_file_entry. match goal with |- context [fquery ?f p] => pose proof (f_fquery X p0 f p Hb) as Hq end.
    by destruct (fquery _ p) as [[b|e] p']. }
  intros [] ; [|apply f_ret]. apply f_bind; [apply f_lease_state|]. intros [l|]; [|apply f_ret]. intros p Hb.
  pose proof (f_remove_file X p0 Refs (SWAP_PREFIX ++ token) ltac:(apply HX, scratch_prefixed; do 2 right; left) p Hb) as Hr.
  by destruct (remove_entry_file _ _ p) as [[u|e] p'].
Qed.
Lemma f_reap_removed a report name : framed B (reap_removed a report name).
Proof.
  unfold reap_removed. destruct (scratch_of REMOVED_PREFIX name) as [token|] eqn:E; [|apply f_ret].
  apply scratch_of_Some in E as ->. apply f_bind; [apply f_delete_scratch, HX, scratch_prefixed; right; left|].
  intros []; apply f_ret.
Qed.
Lemma f_reap_lease u name : framed B (reap_lease u name).
Proof.
  unfold reap_lease. destruct (is_lease_name name); [|apply f_ret]. apply f_bind; [apply f_lease_state|].
  intros [l|]; [|apply f_ret]. apply f_ignore, f_temps; [auto|apply objects_remove_temp].
Qed.
Lemma f_reap_scratch : framed B reap_scratch.
Proof.
  unfold reap_scratch. repeat (apply f_bind; [first [apply f_read_dir | apply f_for; intros report name _] |intros ?]);
    auto using f_reap_building, f_reap_swap, f_reap_removed.
  apply f_bind; [apply f_map_err, f_temps; [auto|apply objects_query]|]. intros names.
  apply f_bind; [apply f_for; intros; apply f_reap_lease|]. intros; apply f_ret.
Qed.
End reap.

(** ** Scrubbing *)

(** A ref whose file names no rooted snapshot, or none at all. *)
Definition doomed_ref (D : db) (p : projected) (name : list byte) : bool :=
  match entry_at Refs name p ≫= root_node with
  | Some (FFile bytes _) =>
      match ref_id bytes with Some id => bool_decide (snapshots D !! id = None) | None => true end
  | _ => false
  end.
(** What a scrub may remove. *)
Definition doomed (D : db) (p : projected) (a : area) (n : list byte) : Prop :=
  scratch_name a n \/ (a = Snapshots /\ exists id, n = hex_of id /\ snapshots D !! id = None) \/
  (a = Refs /\ doomed_ref D p n = true).

Section scrub.
Context `{Sha256, Unicode, Unordered, Following, Allocator}.
Context (p0 : projected).
Abbreviation D := (w_db (pj_world p0)).
Abbreviation X := (doomed D p0).
Context (rooted : list (list byte)) (Hrooted : forall id, id ∈ rooted <-> is_Some (snapshots D !! id)).

Lemma unrooted id : id ∉ rooted <-> snapshots D !! id = None.
Proof. rewrite Hrooted, eq_None_not_Some. done. Qed.

(** While nothing has failed in the world [w], these trees are gone. *)
Definition cleared (w : world) (names : list (area * list byte)) (p : projected) : Prop :=
  swept X p0 p /\ (calm w -> pj_world p = w /\ 
    forall a n, (a, n) ∈ names -> ~ scratch_name a n -> entry_at a n p = None).

Lemma cleared_unlink w names a n p :
  cleared w names p -> X a n -> ~ scratch_name a n ->
  match unlink_scratch a n p with
  | (Ok _, p') => cleared w (names ++ [(a, n)]) p'
  | (Err _, p') => swept X p0 p'
  end.
Proof.
  intros [Hs Hc] Hx Hn. pose proof (unlink_spec a n p) as Hu.
  assert (calm w -> at_world w (unlink_scratch a n p).2) as Hw.
  { intros Hcalm. apply framed_end; [by apply k_unlink|]. by apply Hc. }
  destruct (unlink_scratch a n p) as [r p']. destruct Hu as (Hsw & Ht & Ha & Hd).
  assert (swept X p0 p') as Hs'.
  { eapply swept_trans; [exact Hs|]. eapply swept_weaken; [|exact Hsw]. intros a' n' [?|[-> ->]]; [by left|done]. }
  destruct r as [r|e]; [|done]. split; [done|]. intros Hcalm. destruct (Hc Hcalm) as [Hpw Hgone]. split; [by apply Hw|].
  intros a' n' [Hin|[= -> ->]%list_elem_of_singleton]%elem_of_app Hns.
  - destruct (sw_gone _ _ _ Hsw a' n' Hns) as [->|?]; [by apply Hgone|done].
  - destruct r; [by apply Ht|apply Ha; [by rewrite Hpw|done|done]|done].
Qed.

Lemma t_in_layout {A} (P : projected -> Prop) (m : M projected layout_error A) Q (R : projected -> Prop) :
  triple P m Q (fun _ => R) -> triple P (in_layout m) Q (fun _ => R).
Proof. intros Hm p Hp. specialize (Hm p Hp). unfold in_layout, map_err_m. by destruct (m p) as [[a|e] p']. Qed.

Definition unrooted_trees (ids : list (list byte)) : list (area * list byte) :=
  (fun id => (Snapshots, hex_of id)) <$> filter (fun id => id ∉ rooted) ids.
Lemma t_scrub_trees w L report ids :
  triple (cleared w L) (for_m (scrub_tree rooted) report ids) (fun _ => cleared w (L ++ unrooted_trees ids)) (fun _ => swept X p0).
Proof.
  eapply t_conseq; [apply (t_for _ report ids (fun pre _ => cleared w (L ++ unrooted_trees pre)) (fun _ => swept X p0))| |done|done].
  2: { intros p Hp. unfold unrooted_trees. rewrite filter_nil. cbn [fmap list_fmap]. by rewrite app_nil_r. }
  intros pre id post r _. unfold scrub_tree, unrooted_trees. rewrite filter_app, fmap_app, app_assoc. case_bool_decide as Hin.
  { rewrite filter_cons_False by tauto. rewrite filter_nil, app_nil_r. by apply t_ret. }
  rewrite filter_cons_True by done. rewrite filter_nil. cbn [fmap list_fmap].
  match goal with |- triple _ _ (fun _ => ?C) _ => set (after := C) end.
  apply t_bind with (Q' := fun _ => after); [apply t_in_layout|intros taken; apply t_ret; intros p Hp; exact Hp].
  intros p Hp. apply cleared_unlink; [exact Hp| |apply hex_not_scratch]. right; left. split; [done|]. exists id. split; [done|]. by apply unrooted.
Qed.

(** Reading a ref says whether it is doomed, and nothing else does. *)
Lemma dangling_spec name p :
  ref_name_ok name = true ->
  let '(r, p') := dangling rooted name p in
  same p p' /\ (exists b, r = Ok b /\ (b = true -> doomed_ref D p name = true)) /\
  (calm (pj_world p) -> p' = p /\ r = Ok (doomed_ref D p name)).
Proof.
  intros Hn. unfold dangling, read_ref, bind, lift, validated_ref_name. rewrite Hn.
  set (q := fun p => match entry_at Refs name p with None => Err NotFound | Some t =>
    match root_node t with Some (FFile bytes _) => Ok bytes | Some FDir => Err IsADirectory | _ => Err Eloop end end).
  assert (forall p' : projected, same p p' -> forall bytes, q p' = Ok bytes -> doomed_ref D p name =
    match ref_id bytes with Some id => bool_decide (snapshots D !! id = None) | None => true end) as Hq.
  { intros p' Hs bytes Hb. unfold doomed_ref. unfold q, entry_at in Hb. rewrite (sm_dir _ _ Hs) in Hb. unfold entry_at.
    destruct (dir_of Refs p ≫= (fun m => m !! name)) as [t|]; [|done]. cbn. by destruct (root_node t) as [[|b ro|]|]; simplify_eq. }
  assert (forall id, negb (bool_decide (id ∈ rooted)) = bool_decide (snapshots D !! id = None)) as Hneg.
  { intros id. rewrite <-bool_decide_not. apply bool_decide_ext, unrooted. }
  assert (let '(r, p') := read_file name p in same p p' /\ (forall bytes, r = Ok bytes -> q p' = Ok bytes) /\
    (calm (pj_world p) -> p' = p /\ r = q p)) as Hr.
  { unfold read_file. fold q. unfold fquery, fatomic, fcall. destruct (alive (disk_of p)) eqn:Ea; cbn [negb].
    2: { split; [apply same_refl|]. split; [done|]. intros [Hal _]. change (w_disk (pj_world p)) with (disk_of p) in Hal. congruence. }
    destruct (outcomes (disk_of p)) as [|[|e k|k] os] eqn:Eo.
    - split; [apply same_refl|]. by split.
    - split; [apply same_schedule|]. split; [done|]. intros [_ Ho]. change (w_disk (pj_world p)) with (disk_of p) in Ho. congruence.
    - split; [apply same_schedule|]. split; [done|]. intros [_ Ho]. change (w_disk (pj_world p)) with (disk_of p) in Ho. congruence.
    - split; [by constructor; [..|intros []]|]. split; [done|]. intros [_ Ho]. change (w_disk (pj_world p)) with (disk_of p) in Ho. congruence. }
  destruct (read_file name p) as [[bytes|e] p']; destruct Hr as (Hs & Hok & Hcalm).
  - specialize (Hq p' Hs bytes (Hok _ eq_refl)). destruct (ref_id bytes) as [id|]; rewrite ?Hneg;
      (split; [done|]; split; [eexists; split; [done|]; congruence|]; intros Hc; destruct (Hcalm Hc) as [-> _]; by rewrite Hq).
  - assert (calm (pj_world p) -> doomed_ref D p name = false) as Hfalse.
    { intros Hc. destruct (Hcalm Hc) as [_ He]. unfold doomed_ref. unfold q in He. destruct (entry_at Refs name p) as [t|]; [|done].
      cbn. by destruct (root_node t) as [[|b ro|]|]. }
    destruct (decide (e = NotFound)); (split; [done|]; split; [by eexists|]; intros Hc; destruct (Hcalm Hc) as [-> _];
      by rewrite Hfalse).
Qed.

Definition doomed_refs (names : list (list byte)) : list (area * list byte) :=
  pair Refs <$> filter (fun n => doomed_ref D p0 n = true) names.

Lemma swept_same q p p' : same p p' -> swept X q p -> swept X q p'.
Proof.
  intros Hs [Hb Hg]. split; [by eapply beside_steady|]. intros a n Hn. unfold entry_at in *. rewrite (sm_dir _ _ Hs). by apply Hg.
Qed.
Lemma doomed_now name p :
  swept X p0 p -> ref_name_ok name = true -> doomed_ref D p name = true -> doomed_ref D p0 name = true.
Proof.
  intros [Hb _] Hn Hd. destruct (doomed_ref D p0 name) eqn:E; [done|]. rewrite <-E. unfold doomed_ref in *.
  rewrite <-(be_names _ _ _ Hb); [done|]. intros [Hs|[[? _]|[_ Hx]]]; [by eapply ref_not_scratch|done|].
  unfold doomed_ref in Hx. congruence.
Qed.

Lemma t_scrub_refs w L report names :
  Forall (fun n => ref_name_ok n = true) names ->
  triple (cleared w L) (for_m (scrub_ref rooted) report names) (fun _ => cleared w (L ++ doomed_refs names)) (fun _ => swept X p0).
Proof.
  intros Hok. eapply t_conseq; [apply (t_for _ report names (fun pre _ => cleared w (L ++ doomed_refs pre)) (fun _ => swept X p0))| |done|done].
  2: { intros p Hp. unfold doomed_refs. rewrite filter_nil. cbn [fmap list_fmap]. by rewrite app_nil_r. }
  intros pre name post r Hl p Hp. rewrite Forall_forall in Hok. specialize (Hok name ltac:(rewrite Hl; set_solver)).
  unfold doomed_refs. rewrite filter_app, fmap_app, app_assoc. fold (doomed_refs pre). set (L' := L ++ doomed_refs pre) in *.
  unfold scrub_ref, bind at 1. pose proof (dangling_spec name p Hok) as Hd.
  destruct (dangling rooted name p) as [r1 p1]. destruct Hd as (Hs & (b & -> & Hb) & Hcalm).
  destruct Hp as [Hsw Hc]. pose proof (swept_same _ _ _ Hs Hsw) as Hsw1.
  assert (forall a n, entry_at a n p1 = entry_at a n p) as He by (intros a n; unfold entry_at; by rewrite (sm_dir _ _ Hs)).
  assert (cleared w L' p1) as Hp1.
  { split; [done|]. intros Hw. destruct (Hc Hw) as [Hpw Hg]. destruct (Hcalm ltac:(by rewrite Hpw)) as [-> _]. done. }
  destruct b; cbn [negb].
  - specialize (Hb eq_refl). pose proof (doomed_now name p Hsw Hok Hb) as Hd0.
    rewrite filter_cons_True, filter_nil by done. cbn [fmap list_fmap].
    pose proof (cleared_unlink w L' Refs name p1 Hp1 ltac:(right; right; done) ltac:(by apply ref_not_scratch)) as Hu.
    unfold bind, in_layout, map_err_m, remove_ref, bind, lift, validated_ref_name. rewrite Hok.
    by destruct (unlink_scratch Refs name p1) as [[x|e] p2].
  - split; [done|]. intros Hw. destruct Hp1 as [_ Hc1]. destruct (Hc1 Hw) as [Hpw Hg]. split; [done|].
    intros a n [Hin|Hin]%elem_of_app Hns; [by apply Hg|]. apply list_elem_of_fmap in Hin as (n' & [= -> ->] & Hin).
    apply list_elem_of_filter in Hin as [Hd0 ->%list_elem_of_singleton]. rewrite He.
    destruct (sw_gone _ _ _ Hsw Refs name Hns) as [Heq|?]; [|done]. exfalso.
    destruct (Hc Hw) as [Hpw' _]. destruct (Hcalm ltac:(by rewrite Hpw')) as [_ [= Hf]].
    unfold doomed_ref in Hf, Hd0. rewrite Heq in Hf. congruence.
Qed.

(** *** The listings *)

Lemma t_read_dir w L a :
  triple (cleared w L) (read_dir_or_empty a)
    (fun names p => cleared w L p /\ (calm w -> forall n, is_Some (entry_at a n p) -> n ∈ names)) (fun _ => swept X p0).
Proof.
  intros p [Hsw Hc].
  assert (forall q, same p q -> swept X p0 q) as Hq by (intros q Hs; by eapply swept_same).
  unfold read_dir_or_empty, list_area, fquery, fatomic, fcall.
  assert (calm w -> alive (disk_of p) = true /\ outcomes (disk_of p) = []) as Hcw.
  { intros Hw. destruct (Hc Hw) as [Hpw _]. unfold disk_of, projected_has_disk. rewrite Hpw. exact Hw. }
  destruct (alive (disk_of p)) eqn:Ea; cbn [negb].
  2: { destruct (decide (Killed = NotFound)); [done|]. done. }
  destruct (outcomes (disk_of p)) as [|[|e k|k] os] eqn:Eo.
  - destruct (dir_of a p) as [m|] eqn:Ed.
    + split; [by split|]. intros _ n [t Ht]. rewrite elem_of_enumerate. apply list_elem_of_fmap. exists (n, t). split; [done|].
      apply elem_of_map_to_list. unfold entry_at in Ht. by rewrite Ed in Ht.
    + rewrite decide_True by done. split; [by split|]. intros _ n [t Ht]. unfold entry_at in Ht. by rewrite Ed in Ht.
  - assert (cleared w L (with_schedule os p)) as Hcl.
    { split; [apply Hq, same_schedule|]. intros Hw. destruct (Hcw Hw); done. }
    destruct (dir_of a (with_schedule os p)) as [m|]; [|rewrite decide_True by done];
      (split; [done|]; intros Hw; destruct (Hcw Hw); done).
  - assert (swept X p0 (with_schedule os p)) as Hs by (apply Hq, same_schedule).
    case_decide; [|done]. split; [split; [done|]|]; intros Hw; destruct (Hcw Hw); done.
  - assert (swept X p0 (killed_at (with_schedule os p))) as Hs by (apply Hq; by constructor; [..|intros []]).
    case_decide; [|done]. split; [split; [done|]|]; intros Hw; destruct (Hcw Hw); done.
Qed.

Lemma t_tree_ids w L :
  triple (cleared w L) tree_ids
    (fun ids p => cleared w L p /\ (calm w -> forall id, zlen id = 32 -> is_Some (entry_at Snapshots (hex_of id) p) -> id ∈ ids))
    (fun _ => swept X p0).
Proof.
  eapply t_bind; [apply t_read_dir|]. intros names. apply t_ret. intros p [Hp Hin]. split; [done|]. intros Hw id Hid Hs.
  rewrite sort_by_perm. apply list_elem_of_omap. exists (hex_of id). split; [by apply Hin|]. by apply parse_hex32_to_hex.
Qed.
Lemma t_ref_names w L :
  triple (cleared w L) ref_names
    (fun names p => (cleared w L p /\ (calm w -> forall n, utf8_valid n = true -> ref_name_ok n = true ->
       is_Some (entry_at Refs n p) -> n ∈ names)) /\ Forall (fun n => ref_name_ok n = true) names)
    (fun _ => swept X p0).
Proof.
  eapply t_bind; [apply t_read_dir|]. intros names. apply t_ret. intros p [Hp Hin]. split; [split; [done|]|].
  - intros Hw n Hu Hn Hs. rewrite sort_by_perm. apply list_elem_of_filter. rewrite Hu, Hn. split; [done|by apply Hin].
  - rewrite sort_by_perm. apply Forall_forall. intros n [Hn _]%list_elem_of_filter. by apply andb_true_iff in Hn as [_ ?].
Qed.

(** Names that were there at the start and are already gone. *)
Definition absent (a : area) (p : projected) : list (area * list byte) :=
  pair a <$> filter (fun n => entry_at a n p = None) (map_to_list (default ∅ (dir_of a p0))).*1.
Lemma cleared_absent w L a p : cleared w L p -> cleared w (L ++ absent a p) p.
Proof.
  intros [Hs Hc]. split; [done|]. intros Hw. destruct (Hc Hw) as [Hp Hg]. split; [done|].
  intros a' n [Hin|Hin]%elem_of_app Hn; [by apply Hg|]. apply list_elem_of_fmap in Hin as (n' & [= -> ->] & Hin).
  by apply list_elem_of_filter in Hin as [? _].
Qed.
Lemma absent_intro a n p : is_Some (entry_at a n p0) -> entry_at a n p = None -> (a, n) ∈ absent a p.
Proof.
  intros [t Ht] Hn. apply list_elem_of_fmap. exists n. split; [done|]. apply list_elem_of_filter. split; [done|].
  apply list_elem_of_fmap. exists (n, t). split; [done|]. apply elem_of_map_to_list. unfold entry_at in Ht.
  by destruct (dir_of a p0).
Qed.

(** What a scrub has removed when its transaction's work is done. *)
Definition scrubbed (w : world) (p : projected) : Prop :=
  swept X p0 p /\ (calm w ->
    (forall id, zlen id = 32 -> snapshots D !! id = None -> entry_at Snapshots (hex_of id) p = None) /\
    (forall n, utf8_valid n = true -> ref_name_ok n = true -> doomed_ref D p0 n = true -> entry_at Refs n p = None)).

Lemma t_scrub_work w :
  triple (cleared w [])
    (let<- ids := in_layout tree_ids in
     let<- report := for_m (scrub_tree rooted) (ScrubReport [] [] [] [] no_reap) ids in
     let<- names := in_layout ref_names in
     for_m (scrub_ref rooted) report names)
    (fun _ => scrubbed w) (fun _ => swept X p0).
Proof.
  eapply t_bind; [apply t_in_layout, t_tree_ids|]. intros ids p3 [Hp3 Hids].
  apply (cleared_absent w [] Snapshots) in Hp3. set (L1 := absent Snapshots p3) in *. rewrite app_nil_l in Hp3.
  unfold bind at 1. pose proof (t_scrub_trees w L1 (ScrubReport [] [] [] [] no_reap) ids p3 Hp3) as Ht.
  destruct (for_m (scrub_tree rooted) _ ids p3) as [[report|e] p4]; [|done].
  unfold bind at 1. pose proof (t_in_layout _ _ _ _ (t_ref_names w (L1 ++ unrooted_trees ids)) p4 Ht) as Hn.
  destruct (in_layout ref_names p4) as [[names|e] p5]; [|done]. destruct Hn as [[Hp5 Hnames] Hok].
  apply (cleared_absent _ _ Refs) in Hp5. set (L2 := absent Refs p5) in *.
  pose proof (t_scrub_refs w _ report names Hok p5 Hp5) as Hr.
  destruct (for_m (scrub_ref rooted) report names p5) as [[report'|e] p6]; [|done].
  destruct Hr as [Hs Hc]. split; [done|]. intros Hw. destruct (Hc Hw) as [_ Hg]. split.
  - intros id Hid Hun. destruct (entry_at Snapshots (hex_of id) p0) as [t|] eqn:E0.
    2: { destruct (sw_gone _ _ _ Hs Snapshots (hex_of id) (hex_not_scratch _ _)) as [->|?]; done. }
    apply Hg; [|apply hex_not_scratch]. destruct (entry_at Snapshots (hex_of id) p3) as [u|] eqn:E3.
    + do 2 (apply elem_of_app; left). apply elem_of_app. right. apply list_elem_of_fmap. exists id. split; [done|].
      apply list_elem_of_filter. split; [by apply unrooted|]. apply Hids; [done|done|]. by rewrite E3.
    + do 3 (apply elem_of_app; left). apply absent_intro; [by rewrite E0|done].
  - intros n Hu Hn Hd. destruct (entry_at Refs n p0) as [t|] eqn:E0.
    2: { destruct (sw_gone _ _ _ Hs Refs n ltac:(by apply ref_not_scratch)) as [->|?]; done. }
    apply Hg; [|by apply ref_not_scratch]. destruct (entry_at Refs n p5) as [u|] eqn:E5.
    + apply elem_of_app. right. apply list_elem_of_fmap. exists n. split; [done|]. apply list_elem_of_filter. split; [done|].
      apply Hnames; [done|done|done|]. by rewrite E5.
    + apply elem_of_app. left. apply elem_of_app. right. apply absent_intro; [by rewrite E0|done].
Qed.
End scrub.

Section scrubbing.
Context `{Sha256, Unicode, Unordered, Following, Allocator}.

Lemma engine_same p :
  let '(r, p') := in_world engine p in same p p' /\ w_disk (pj_world p') = w_disk (pj_world p).
Proof.
  unfold in_world, engine. destruct (negb _); [split; [by constructor; [..|intros []]|done]|].
  destruct (w_engine (pj_world p)) as [|b rest]; (split; [by constructor; [..|intros []]|done]).
Qed.
Lemma sql_read_same {A} (f : db -> result workspace_error A) p :
  let '(r, p') := in_world (sql_read f) p in
  same p p' /\ w_disk (pj_world p') = w_disk (pj_world p) /\ (forall a, r = Ok a -> f (w_db (pj_world p)) = Ok a).
Proof.
  pose proof (engine_same p) as He. unfold in_world in *. unfold sql_read, bind.
  destruct (engine (pj_world p)) as [[u|e] w]; [|by destruct He]. destruct He as [Hs Hd].
  pose proof (sm_db _ _ Hs) as Hdb. cbn in Hdb. rewrite Hdb. by split; [|split; [|by intros a ->]].
Qed.
Lemma swept_rollback X p0 p :
  swept X p0 p -> swept X p0 (with_pworld (set_db (w_db (pj_world p0)) (pj_world p)) p).
Proof. intros [[Ho Hd Hn] Hg]. split; [by constructor|done]. Qed.
Lemma scrubbed_same p0 w p p' : same p p' -> scrubbed p0 w p -> scrubbed p0 w p'.
Proof.
  intros Hs [Hsw Hc]. split; [by eapply swept_same|]. unfold entry_at. rewrite !(sm_dir _ _ Hs). exact Hc.
Qed.
Lemma scrubbed_reaped p0 w p p' : beside scratch_name p p' -> scrubbed p0 w p -> scrubbed p0 w p'.
Proof.
  intros Hb [Hsw Hc]. split; [eapply swept_trans; [exact Hsw|apply swept_scratch; [by left|done]]|].
  intros Hw. destruct (Hc Hw) as [Ht Hr]. split.
  - intros id Hid Hn. rewrite (be_names _ _ _ Hb) by apply hex_not_scratch. by apply Ht.
  - intros n Hu Hn Hd. rewrite (be_names _ _ _ Hb) by (by apply ref_not_scratch). by apply Hr.
Qed.

(** The transaction of a scrub. *)
Lemma scrub_transaction p0 body :
  (forall rooted, (forall id, id ∈ rooted <-> is_Some (snapshots (w_db (pj_world p0)) !! id)) -> forall w,
     triple (cleared p0 w []) (body rooted) (fun _ => scrubbed p0 w) (fun _ => swept (doomed (w_db (pj_world p0)) p0) p0)) ->
  let '(r, p) := transaction_at (let<- rooted := in_world (sql_read (fun d => Ok (enumerate (map_to_list (snapshots d)).*1))) in
    body rooted : M projected workspace_error scrub_report) p0 in
  swept (doomed (w_db (pj_world p0)) p0) p0 p /\ (forall report, r = Ok report -> scrubbed p0 (pj_world p0) p).
Proof.
  intros Hbody. unfold transaction_at. unfold bind at 1. pose proof (engine_same p0) as He1.
  assert (forall q, same p0 q -> swept (doomed (w_db (pj_world p0)) p0) p0 q) as Hsame
    by (intros q Hq; eapply swept_same; [exact Hq|apply swept_refl]).
  destruct (in_world engine p0) as [[[]|e] p1]; destruct He1 as [Hs1 Hd1]; [|split; [by apply swept_rollback, Hsame|done]].
  unfold bind at 1. unfold bind at 1. set (f := fun d : db => Ok (enumerate (map_to_list (snapshots d)).*1)).
  pose proof (sql_read_same f p1) as He2.
  destruct (in_world (sql_read f) p1) as [[rooted|e] p2]; destruct He2 as (Hs2 & Hd2 & Hr);
    (assert (same p0 p2) as Hs02 by (destruct Hs1, Hs2; constructor; [congruence..|]; intros a; congruence));
    [|split; [by apply swept_rollback, Hsame|done]].
  specialize (Hr _ eq_refl). unfold f in Hr. injection Hr as Hr.
  assert (forall id, id ∈ rooted <-> is_Some (snapshots (w_db (pj_world p0)) !! id)) as Hrooted.
  { intros id. rewrite <-Hr, elem_of_enumerate, <-(sm_db _ _ Hs1), list_elem_of_fmap. split.
    - intros ([id' g] & -> & Hin%elem_of_map_to_list). by eexists.
    - intros [g Hg]. exists (id, g). by rewrite elem_of_map_to_list. }
  pose proof (Hbody rooted Hrooted (pj_world p2) p2) as Hb.
  assert (cleared p0 (pj_world p2) [] p2) as Hcl.
  { split; [by apply Hsame|]. intros _. split; [done|]. by intros a n ?%not_elem_of_nil. }
  specialize (Hb Hcl). destruct (body rooted p2) as [[report|e] p6]; [|split; [by apply swept_rollback|done]].
  unfold bind at 1. pose proof (engine_same p6) as He6. destruct (in_world engine p6) as [[[]|e] p7]; destruct He6 as [Hs7 _].
  - assert (scrubbed p0 (pj_world p2) p7) as He7 by (by eapply scrubbed_same). split; [apply He7|]. intros _ _.
    split; [apply He7|]. intros [Hal Hout]. apply He7. unfold calm. by rewrite Hd2, Hd1.
  - split; [|done]. apply swept_rollback. eapply swept_same; [exact Hs7|apply Hb].
Qed.

Lemma hex_of_inj a b : hex_of a = hex_of b -> a = b.
Proof. unfold hex_of. intros Heq. apply (inj Some). by rewrite <-!parse_hex_pairs_to_hex, Heq. Qed.

(** C28: A scrub removes exactly the unjustified.  Whatever fails, it changes no
    object and no table; a name that is not private scratch is as it was or gone,
    and only the tree of an unrooted snapshot and a ref to none can go: the tree of
    every rooted snapshot stays.  A scrub that answers where nothing failed has
    removed every unrooted tree, and every ref that names no rooted snapshot. *)
Theorem scrub_correct p0 :
  let D := w_db (pj_world p0) in
  let '(r, p) := scrub p0 in
  swept (doomed D p0) p0 p /\
  (forall id, is_Some (snapshots D !! id) -> entry_at Snapshots (hex_of id) p = entry_at Snapshots (hex_of id) p0) /\
  (calm (pj_world p0) -> forall report, r = Ok report ->
    (forall id, zlen id = 32 -> snapshots D !! id = None -> entry_at Snapshots (hex_of id) p = None) /\
    (forall n, utf8_valid n = true -> ref_name_ok n = true -> doomed_ref D p0 n = true -> entry_at Refs n p = None)).
Proof.
  cbv zeta. set (D := w_db (pj_world p0)).
  assert (let '(r, p) := scrub p0 in swept (doomed D p0) p0 p /\ (forall report, r = Ok report -> scrubbed p0 (pj_world p0) p)) as Hs.
  2: { destruct (scrub p0) as [r p]. destruct Hs as [Hsw Hok]. split; [done|]. split.
       - intros id Hid. apply (be_names _ _ _ (sw_beside _ _ _ Hsw)). intros [Hx|[[_ (id' & Heq & Hn)]|[? _]]]; [|..|done].
         + by apply hex_not_scratch in Hx.
         + apply hex_of_inj in Heq as ->. by rewrite Hn in Hid; destruct Hid.
       - intros Hc report Hr. by apply (Hok report Hr). }
  unfold scrub. unfold bind at 1. pose proof (scrub_transaction p0 (fun rooted => let<- ids := in_layout tree_ids in
     let<- report := for_m (scrub_tree rooted) (ScrubReport [] [] [] [] no_reap) ids in
     let<- names := in_layout ref_names in for_m (scrub_ref rooted) report names)
     (fun rooted Hr w => t_scrub_work p0 rooted Hr w)) as Ht.
  destruct (transaction_at _ p0) as [[report|e] p7]; destruct Ht as [Hsw Hok]; [|by split].
  pose proof (f_map_err _ (fun _ => WE_Layout) _ (f_reap_scratch scratch_name p7 ltac:(done)) p7 (beside_refl _ _)) as Hr.
  fold (in_layout (A := scratch_reap) reap_scratch) in Hr. unfold bind.
  destruct (in_layout reap_scratch p7) as [[scratch|e] p8].
  - pose proof (scrubbed_reaped p0 (pj_world p0) p7 p8 Hr (Hok _ eq_refl)) as He8. split; [apply He8|done].
  - split; [|done]. eapply swept_trans; [exact Hsw|]. apply swept_scratch; [by left|done].
Qed.
End scrubbing.
