(* ===== verification/LayoutReap.v ===== *)
(** Leases and links of the projected layout
    ([src/crates/tensorfs-core/src/layout.rs]): a reap leaves a live writer's
    scratch alone, a lease is found within the fuel it is given, and a projected
    link leads to its object. *)
From S2P Require Import Utf8.
From S2P Require Export LayoutScrub.

(** ** Links *)

(** The directory a relative path leads to, from a directory of a mounted tree. *)
Definition step_into (dir : fpath) (component : list byte) : fpath :=
  if decide (component = bstr "..") then removelast dir else dir ++ [component].
Definition walk_from (dir target : fpath) : fpath := foldl step_into dir target.

Lemma length_split_on path : length (split_on slash path) = S (slashes path).
Proof.
  unfold slashes. induction path as [|b path IH]; [done|]. cbn [split_on].
  destruct (split_on slash path) as [|part parts]; [done|]. rewrite filter_cons. case_decide; cbn [length] in *; lia.
Qed.
Lemma walk_up dir below : walk_from (dir ++ below) (replicate (length below) (bstr "..")) = dir.
Proof.
  induction below as [|c below IH] using rev_ind; [apply app_nil_r|]. rewrite length_app, Nat.add_comm. cbn [length Nat.add replicate].
  unfold walk_from in *. cbn [foldl]. unfold step_into at 2. rewrite decide_True by done.
  by rewrite app_assoc, removelast_last.
Qed.
Lemma walk_down dir target : Forall (fun c => c <> bstr "..") target -> walk_from dir target = dir ++ target.
Proof.
  intros Hf. revert dir. induction Hf as [|c target Hc Hf IH]; intros dir; [by rewrite app_nil_r|].
  unfold walk_from in *. cbn [foldl]. unfold step_into at 2. rewrite decide_False by done. rewrite IH. by rewrite <-app_assoc.
Qed.

Lemma hex_bytes l b : b ∈ to_hex l -> b <> slash /\ b <> dot.
Proof.
  assert (forall c, forallb (fun x => 48 <=? byte_val x) (hex_byte c) = true) as Hb by (intros c; destruct c; vm_compute; reflexivity).
  unfold to_hex. intros (c & Hin & _)%list_elem_of_bind. specialize (Hb c). rewrite forallb_forall in Hb.
  apply list_elem_of_In, Hb in Hin. split; intros ->; vm_compute in Hin; discriminate.
Qed.
Lemma object_components_plain digest : Forall (fun c => (slash ∉ c) /\ c <> bstr "..") (object_components digest).
Proof.
  assert (forall c, (forall b, b ∈ c -> b ∈ to_hex digest) -> (slash ∉ c) /\ c <> bstr "..") as Hc.
  { intros c Hc. split; [intros Hs; by apply Hc, hex_bytes in Hs as [? _]|]. intros ->.
    assert (dot ∈ bstr "..") as Hd by left. by apply Hc, hex_bytes in Hd as [_ ?]. }
  assert (forall a b, forall x, x ∈ slice (to_hex digest) a b -> x ∈ to_hex digest) as Hs.
  { intros a b x Hx. unfold slice in Hx. apply list_elem_of_lookup in Hx as [i Hx]. apply list_elem_of_lookup. apply lookup_take_Some in Hx as [Hx _].
    rewrite lookup_drop in Hx. by eexists. }
  unfold object_components, object_path. cbn [app]. do 2 (constructor; [by apply (bool_decide_unpack _); vm_compute|]).
  constructor; [apply Hc, Hs|]. constructor; [apply Hc, Hs|]. constructor; [by apply Hc|constructor].
Qed.

(** A projected link leads to its object, wherever the store is mounted.
    Followed from the directory of its entry, below [snapshots/<id>], the target
    written for it climbs to the store's root and comes down at the object's
    path. *)
Theorem link_reaches_object (mount : fpath) (id path digest : list byte) :
  walk_from (mount ++ [bstr "snapshots"; hex_of id] ++ removelast (split_on slash path))
    (split_on slash (relative_object_target path digest))
  = mount ++ object_components digest.
Proof.
  pose proof (object_components_plain digest) as Hp. unfold relative_object_target. rewrite split_on_join.
  - set (below := [bstr "snapshots"; hex_of id] ++ removelast (split_on slash path)).
    assert ((slashes path + 2)%nat = length below) as ->.
    { subst below. pose proof (length_split_on path) as Hl. cbn [app length].
      destruct (split_on slash path) as [|c cs] using rev_ind; [done|]. rewrite removelast_last. rewrite length_app in Hl. simpl in Hl. lia. }
    unfold walk_from. rewrite foldl_app. fold (walk_from (mount ++ below) (replicate (length below) (bstr ".."))). rewrite walk_up.
    apply walk_down. eapply Forall_impl; [exact Hp|]. by intros c [].
  - intros Hn. apply app_eq_nil in Hn as [_ Hn]. done.
  - apply Forall_app. split; [apply Forall_replicate; by apply (bool_decide_unpack _); vm_compute|]. eapply Forall_impl; [exact Hp|]. by intros c [].
Qed.

(** ** Stubs *)

(** A stub reads back, under any JSON parser that reads the object written. *)
Lemma stub_round_trip `{StubJson} digest size :
  zlen digest = 32 -> wire_of_json (stub_json digest size) = Some (to_hex digest, size, bstr "tensorfs") ->
  parse_stub (stub_bytes digest size) = Some (Stub digest size).
Proof.
  intros Hd Hj. unfold parse_stub, stub_bytes.
  replace (strip_prefix STUB_MAGIC _) with (Some (bstr " " ++ stub_json digest size ++ newline)) by (symmetry; by apply strip_prefix_Some).
  replace (strip_prefix (bstr " ") _) with (Some (stub_json digest size ++ newline)) by (symmetry; by apply strip_prefix_Some).
  replace (strip_suffix newline _) with (Some (stub_json digest size)) by (symmetry; by apply strip_suffix_Some).
  match goal with |- context [default ?a (Some ?b)] => change (default a (Some b)) with b end. rewrite Hj. rewrite bool_decide_eq_true_2 by done. cbn [negb]. unfold parse_hex_digest. by rewrite parse_hex32_to_hex.
Qed.

(** ** Scratch in use *)

(** No call is scheduled to answer that a file which is there is not. *)
Definition honest (os : list outcome) : Prop := Forall (fun o => forall k, o <> Fails NotFound k) os.

(** The lease [name] is there, and locked while the process lives. *)
Record held (name : list byte) (d : disk) : Prop := {
  hl_honest : honest (outcomes d);
  hl_lock : exists t, temps d !! name = Some t /\ (alive d = true -> is_Some (t_locked_by t))
}.

Lemma held_schedule name o os d : outcomes d = o :: os -> held name d -> held name (with_outcomes os d).
Proof. intros Ho [Hh Hl]. rewrite Ho in Hh. inversion Hh. by constructor. Qed.
Lemma held_kill name d : held name d -> held name (kill d).
Proof.
  intros [Hh (t & Ht & _)]. constructor; [done|]. unfold kill. cbn [temps alive]. rewrite lookup_fmap, Ht. cbn. by eexists.
Qed.
Lemma held_other name name' f d :
  name <> name' -> (forall m : gmap (list byte) temp_file, f m !! name = m !! name) -> held name d -> held name (with_temps f d).
Proof. intros Hne Hf [Hh Hl]. constructor; [done|]. cbn. by rewrite Hf. Qed.

Section live.
Context `{Sha256, Unicode, Unordered, Following, Allocator}.
Context (p0 : projected) (token : list byte).

(** What a writer that holds the lease of [token] is building. *)
Record in_use (p : projected) : Prop := {
  iu_held : held (lease_path token) (disk_of p);
  iu_tree : entry_at Snapshots (BUILDING_PREFIX ++ token) p = entry_at Snapshots (BUILDING_PREFIX ++ token) p0;
  iu_swap : entry_at Refs (SWAP_PREFIX ++ token) p = entry_at Refs (SWAP_PREFIX ++ token) p0
}.

Lemma iu_disk d p : held (lease_path token) d -> in_use p -> in_use (set_disk d p).
Proof. intros Hd [Hh Ht Hs]. by constructor. Qed.
Lemma iu_set a n t p :
  (a, n) <> (Snapshots, BUILDING_PREFIX ++ token) -> (a, n) <> (Refs, SWAP_PREFIX ++ token) -> in_use p -> in_use (set_entry a n t p).
Proof.
  intros Hb Hs [Hh Ht Hw]. constructor; [cbn in *; by rewrite world_set|..]; rewrite entry_set_ne; auto.
Qed.

Lemma iu_fcall {A} act (partial : nat -> projected -> projected) :
  (forall p, in_use p -> in_use (act p : result io_error A * projected).2) -> (forall k p, in_use p -> in_use (partial k p)) ->
  framed in_use (fcall act partial).
Proof.
  intros Ha Hp p Hi. unfold fcall. destruct (negb _); [done|].
  assert (forall o os, outcomes (disk_of p) = o :: os -> in_use (with_schedule os p)) as Hs.
  { intros o os Ho. apply iu_disk; [by eapply held_schedule, iu_held|done]. }
  assert (forall q, in_use q -> match act q with (Ok _, q') | (Err _, q') => in_use q' end) as Ha'.
  { intros q Hq. specialize (Ha q Hq). by destruct (act q) as [[a|e] q']. }
  destruct (outcomes (disk_of p)) as [|[|e k|k] os]; [by apply Ha'|by eapply Ha', Hs|by eapply Hp, Hs|].
  apply iu_disk; [apply held_kill; by eapply iu_held, Hp, Hs|by eapply Hp, Hs].
Qed.
Lemma iu_fquery {A} (f : projected -> result io_error A) : framed in_use (fquery f).
Proof. by apply iu_fcall. Qed.
Lemma iu_read_dir a : framed in_use (read_dir_or_empty a).
Proof.
  intros p Hi. unfold read_dir_or_empty. pose proof (iu_fquery (fun p => match dir_of a p with
    Some m => Ok (enumerate (map_to_list m).*1) | None => Err NotFound end) p Hi) as Hq. fold (list_area a) in Hq.
  destruct (list_area a p) as [[names|e] p']; [done|]. by case_decide.
Qed.

(** *** Other leases, and this one *)

Lemma iu_temp {A} (act : disk -> result io_error A * disk) :
  (forall d, held (lease_path token) d -> held (lease_path token) (act d).2) -> framed in_use (on_disk (atomic act)).
Proof.
  intros Ha p Hi. unfold on_disk, atomic, syscall. set (d := disk_of p). assert (held (lease_path token) d) as Hd by apply Hi.
  destruct (negb _). { by apply iu_disk. }
  assert (forall d', held (lease_path token) d' -> in_use (set_disk d' p)) as Hset by (intros; by apply iu_disk).
  assert (forall d', held (lease_path token) d' -> match act d' with (Ok _, d'') | (Err _, d'') => in_use (set_disk d'' p) end) as Ha'.
  { intros d' Hd'. specialize (Ha d' Hd'). destruct (act d') as [[a|e] d'']; auto. }
  destruct (outcomes d) as [|o os] eqn:Eo.
  { specialize (Ha' d Hd). by destruct (act d) as [[a|e] d']. }
  assert (held (lease_path token) (with_outcomes os d)) as Hs by (by eapply held_schedule).
  destruct o as [|e k|k]; [|by auto|by auto using held_kill].
  specialize (Ha' _ Hs). by destruct (act (with_outcomes os d)) as [[a|e] d'].
Qed.

Lemma iu_try_lock name : framed in_use (on_disk (try_lock name)).
Proof.
  apply iu_temp. intros d Hd. destruct (temps d !! name) as [t|] eqn:Et; [|done]. destruct (t_locked_by t); [done|].
  destruct (decide (name = lease_path token)) as [->|Hne].
  - destruct Hd as [Hh _]. constructor; [done|]. cbn [snd with_temps temps]. rewrite lookup_insert_eq. by eexists.
  - eapply held_other; [apply not_eq_sym, Hne| |exact Hd]. intros m. by rewrite lookup_insert_ne.
Qed.
Lemma iu_lease_other {E} name : name <> lease_path token -> framed (E := E) in_use (lease_state name).
Proof.
  intros Hne p Hi. unfold lease_state.
  pose proof (iu_temp (fun d => (match temps d !! name with Some _ => Ok tt | None => Err NotFound end, d)) ltac:(done) p Hi) as Hq.
  unfold query. destruct (on_disk (atomic _) p) as [[[]|e] p1]; [|done].
  pose proof (iu_try_lock name) as Hl.
  specialize (Hl p1 Hq). destruct (on_disk (try_lock name) p1) as [[[]|e] p2]; [|done].
  destruct (alive (disk_of p2)); [|done]. apply iu_disk; [|done]. eapply held_other; [done| |apply Hl]. intros m. by rewrite lookup_alter_ne.
Qed.
Lemma iu_lease_own {E} p :
  in_use p -> exists p', lease_state (E := E) (lease_path token) p = (Ok None, p') /\ in_use p'.
Proof.
  intros Hi. unfold lease_state.
  set (f := fun d => match temps d !! lease_path token with Some _ => Ok tt | None => Err NotFound end).
  pose proof (iu_temp (fun d => (f d, d)) ltac:(done) p Hi) as Hq. fold (query f) in Hq.
  assert ((on_disk (query f) p).1 <> Err NotFound) as Hn.
  { destruct (iu_held _ Hi) as [Hh (t & Ht & _)]. unfold on_disk, query, atomic, syscall. destruct (negb _); [done|].
    destruct (outcomes (disk_of p)) as [|[|e k|k] os]; subst f; cbn -[lease_path disk_of];
      [by rewrite Ht|by rewrite Ht| |by intros [= ?]].
    inversion_clear Hh as [|?? Ho _]. intros [= ->]. by destruct (Ho k). }
  destruct (on_disk (query f) p) as [[[]|e] p1]; [|rewrite decide_False by (by intros ->); by eexists].
  pose proof (iu_try_lock (lease_path token) p1 Hq) as Hl.
  assert ((on_disk (try_lock (lease_path token)) p1).1 <> Ok tt) as Hk.
  { destruct (iu_held _ Hq) as [_ (t & Ht & Hal)]. unfold on_disk, try_lock, atomic, syscall.
    destruct (alive (disk_of p1)) eqn:Ea; [|done]. destruct (Hal eq_refl) as [by_ Hby]. cbn [negb].
    destruct (outcomes (disk_of p1)) as [|[|e k|k] os]; cbn -[lease_path disk_of]; try done; by rewrite Ht, Hby. }
  destruct (on_disk (try_lock (lease_path token)) p1) as [[[]|e] p2]; [done|]. by eexists.
Qed.
Lemma iu_lease {E} name : framed (E := E) in_use (lease_state name).
Proof.
  destruct (decide (name = lease_path token)) as [->|Hne]; [|by apply iu_lease_other].
  intros p Hi. destruct (iu_lease_own (E := E) p Hi) as (p' & -> & ?). done.
Qed.

(** *** The sweeps *)

(** What a sweep does once it has seen the lease of another writer. *)
Lemma iu_sampled {E A} name (k : lease_status -> M projected E A) (a : A) :
  (name <> token -> forall l, framed in_use (k l)) ->
  framed in_use (let<- state := lease_state (lease_path name) in match state with None => ret a | Some l => k l end).
Proof.
  intros Hk. destruct (decide (name = token)) as [->|Hne].
  - intros p Hi. unfold bind. destruct (iu_lease_own (E := E) p Hi) as (p' & -> & ?). done.
  - apply f_bind; [apply iu_lease|]. intros [l|]; [by apply Hk|apply f_ret].
Qed.
Lemma iu_reap_building report name : framed in_use (reap_building report name).
Proof.
  unfold reap_building. destruct (scratch_of BUILDING_PREFIX name) as [t|] eqn:E; [|apply f_ret].
  apply scratch_of_Some in E as ->. apply iu_sampled. intros Hne l p Hi.
  assert (framed in_use (remove_tree_at Snapshots (BUILDING_PREFIX ++ t))) as Hr.
  { assert (forall v q, in_use q -> in_use (set_entry Snapshots (BUILDING_PREFIX ++ t) v q)) as Hs.
    { intros v q. apply iu_set; [|done]. by intros [= ->]. }
    apply iu_fcall.
    - intros q Hq. destruct (entry_at _ _ q) as [u|]; [|done]. destruct (root_node u) as [[]|]; cbn; auto.
    - intros j q Hq. destruct (entry_at _ _ q) as [u|]; [|done]. destruct (is_dir_tree u); auto. }
  specialize (Hr p Hi). by destruct (remove_tree_at _ _ p) as [[u|e] p'].
Qed.
Lemma iu_remove_file a n :
  (a, n) <> (Snapshots, BUILDING_PREFIX ++ token) -> (a, n) <> (Refs, SWAP_PREFIX ++ token) -> framed in_use (remove_entry_file a n).
Proof.
  intros Hb Hs. apply iu_fcall; [|done]. intros q Hq. destruct (entry_at _ _ q) as [u|]; [|done].
  destruct (is_dir_tree u); cbn; [done|]. by apply iu_set.
Qed.
Lemma iu_reap_swap report name : framed in_use (reap_swap report name).
Proof.
  unfold reap_swap. destruct (scratch_of SWAP_PREFIX name) as [t|] eqn:E; [|apply f_ret].
  apply scratch_of_Some in E as ->. apply f_bind.
  { intros p Hi. unfold is_file_entry. match goal with |- context [fquery ?f p] => pose proof (iu_fquery f p Hi) as Hq end.
    by destruct (fquery _ p) as [[b|e] p']. }
  intros []; [|apply f_ret]. apply iu_sampled. intros Hne l p Hi.
  pose proof (iu_remove_file Refs (SWAP_PREFIX ++ t) ltac:(done) ltac:(by intros [= ->]) p Hi) as Hr.
  by destruct (remove_entry_file _ _ p) as [[u|e] p'].
Qed.
Lemma iu_delete_scratch {E} a t : framed (E := E) in_use (delete_scratch a (REMOVED_PREFIX ++ t)).
Proof.
  assert ((a, REMOVED_PREFIX ++ t) <> (Snapshots, BUILDING_PREFIX ++ token)) as Hb by done.
  assert ((a, REMOVED_PREFIX ++ t) <> (Refs, SWAP_PREFIX ++ token)) as Hs by done.
  intros p Hi. unfold delete_scratch. match goal with |- context [fquery ?f p] => pose proof (iu_fquery f p Hi) as Hq end.
  destruct (fquery _ p) as [[[]|e] p']; [| |done].
  - assert (framed in_use (remove_tree_at a (REMOVED_PREFIX ++ t))) as Hr.
    { apply iu_fcall.
      - intros q Hq'. destruct (entry_at _ _ q) as [u|]; [|done]. destruct (root_node u) as [[]|]; cbn; auto using iu_set.
      - intros j q Hq'. destruct (entry_at _ _ q) as [u|]; [|done]. destruct (is_dir_tree u); auto using iu_set. }
    specialize (Hr p' Hq). by destruct (remove_tree_at _ _ p') as [[u|e] p''].
  - pose proof (iu_remove_file a (REMOVED_PREFIX ++ t) Hb Hs p' Hq) as Hr. by destruct (remove_entry_file _ _ p') as [[u|e] p''].
Qed.
Lemma iu_reap_removed a report name : framed in_use (reap_removed a report name).
Proof.
  unfold reap_removed. destruct (scratch_of REMOVED_PREFIX name) as [t|] eqn:E; [|apply f_ret].
  apply scratch_of_Some in E as ->. apply f_bind; [apply iu_delete_scratch|]. intros []; apply f_ret.
Qed.
Lemma iu_reap_lease u name : framed in_use (reap_lease u name).
Proof.
  unfold reap_lease. destruct (is_lease_name name); [|apply f_ret].
  destruct (decide (name = lease_path token)) as [->|Hne].
  - intros p Hi. unfold bind. destruct (iu_lease_own (E := layout_error) p Hi) as (p' & -> & ?). done.
  - apply f_bind; [by apply iu_lease_other|]. intros [l|]; [|apply f_ret].
    assert (framed in_use (on_disk (remove_temp name))) as Hr.
    { apply iu_temp. intros d Hd. destruct (temps d !! name); [|done]. eapply held_other; [done| |exact Hd].
      intros m. by rewrite lookup_delete_ne. }
    intros p Hi. specialize (Hr p Hi). unfold ignore. by destruct (on_disk _ p) as [[]].
Qed.
Lemma iu_reap_scratch : framed in_use reap_scratch.
Proof.
  unfold reap_scratch.
  repeat (apply f_bind; [first [apply iu_read_dir | apply f_for; intros;
    first [apply iu_reap_building | apply iu_reap_swap | apply iu_reap_removed | apply iu_reap_lease]
    | apply f_map_err; by apply iu_temp]|intros]). apply f_ret.
Qed.
End live.

Section leases.
Context `{Sha256, Unicode, Unordered, Following, Allocator}.

(** C37: A reap leaves a live writer's scratch alone.  While the lease of a token is
    locked, a reap - whatever else it removes, whatever fails, even if it is killed
    midway - leaves the tree being built and the ref being swapped under that token
    as they are, and the lease itself locked.  The operating system is trusted not
    to say that a file which is there is absent. *)
Theorem reap_keeps_live_scratch token p0 :
  held (lease_path token) (disk_of p0) ->
  let p := (reap_scratch p0).2 in
  entry_at Snapshots (BUILDING_PREFIX ++ token) p = entry_at Snapshots (BUILDING_PREFIX ++ token) p0 /\
  entry_at Refs (SWAP_PREFIX ++ token) p = entry_at Refs (SWAP_PREFIX ++ token) p0 /\
  held (lease_path token) (disk_of p).
Proof.
  intros Hh. assert (in_use p0 token p0) as Hi by (by constructor).
  pose proof (iu_reap_scratch p0 token p0 Hi) as Hr. cbv zeta. destruct (reap_scratch p0) as [[report|e] p]; by destruct Hr.
Qed.
End leases.

(** ** A lease is found *)

Definition token_at (p : projected) (k : Z) : list byte :=
  to_dec (pid (disk_of p)) ++ bstr "-" ++ to_dec (wadd (pj_sequence p) k) ++ bstr "-" ++ to_dec (nanos (disk_of p)).

Lemma lease_path_inj t t' : lease_path t = lease_path t' -> t = t'.
Proof. unfold lease_path. intros Heq%app_inv_head%app_inv_tail. done. Qed.
Lemma token_at_inj p j k : in_u64 (pj_sequence p) -> 0 <= j < U64 -> 0 <= k < U64 -> token_at p j = token_at p k -> j = k.
Proof.
  unfold token_at, wadd. intros Hs Hj Hk Heq%app_inv_head. apply app_inv_head in Heq. apply app_inv_tail in Heq.
  pose proof (Z.mod_pos_bound (pj_sequence p + j) U64 ltac:(done)) as Hmj. pose proof (Z.mod_pos_bound (pj_sequence p + k) U64 ltac:(done)) as Hmk.
  apply (f_equal (from_str_radix 10 U64)) in Heq. rewrite !from_str_radix_to_dec in Heq by lia. injection Heq as Heq.
  unfold in_u64 in Hs. pose proof (Z.div_mod (pj_sequence p + j) U64 ltac:(done)). pose proof (Z.div_mod (pj_sequence p + k) U64 ltac:(done)).
  set (q := (pj_sequence p + j) / U64) in *. set (q' := (pj_sequence p + k) / U64) in *. unfold U64 in *. lia.
Qed.
Lemma unseen_fewer {A} (m : gmap (list byte) A) (seen : gset (list byte)) name x :
  name ∉ seen -> m !! name = Some x ->
  (size (filter (fun kt => kt.1 ∉ {[name]} ∪ seen) m) < size (filter (fun kt => kt.1 ∉ seen) m))%nat.
Proof.
  intros Hn Hx. apply map_subset_size, map_subset_alt. split.
  - apply map_filter_subseteq_ext. intros k y _ [_ ?]%not_elem_of_union. done.
  - exists name. split; [rewrite map_lookup_filter_None; right; intros; set_solver|]. exists x. by apply map_lookup_filter_Some.
Qed.

(** Names tried and found taken are never tried again, so that a loop is over once
    it has met every scheduled outcome and every name there is. *)
Lemma lease_loop_enough (fuel extra : nat) (p : projected) (seen : gset (list byte)) :
  in_u64 (pj_sequence p) -> Z.of_nat fuel <= U64 ->
  (forall k, 0 <= k < Z.of_nat fuel -> lease_path (token_at p k) ∉ seen) ->
  (length (outcomes (disk_of p)) + size (filter (fun kt => kt.1 ∉ seen) (temps (disk_of p))) < fuel)%nat ->
  take_lease_loop (fuel + extra) p = take_lease_loop fuel p.
Proof.
  revert p seen. induction fuel as [|fuel IH]; intros p seen Hu Hf Hfresh Hlt; [lia|].
  cbn [Nat.add take_lease_loop]. unfold bind, scratch_token. cbv iota beta.
  set (p1 := Projected (pj_world p) (pj_snapshots p) (pj_refs p) (wadd (pj_sequence p) 1)).
  replace (to_dec (pid (disk_of p)) ++ _) with (token_at p 0).
  2: { unfold token_at. f_equal. f_equal. f_equal. f_equal. unfold wadd. rewrite Z.add_0_r. apply Z.mod_small. exact Hu. }
  set (name := lease_path (token_at p 0)).
  assert (in_u64 (pj_sequence p1)) as Hu1 by (cbn; apply Z.mod_pos_bound; done).
  assert (forall q k, 0 <= k -> pj_sequence q = pj_sequence p1 -> pid (disk_of q) = pid (disk_of p) -> nanos (disk_of q) = nanos (disk_of p) ->
    token_at q k = token_at p (k + 1)) as Hnext.
  { intros q k Hk Hq Hpid Hn. unfold token_at. rewrite Hq, Hpid, Hn. cbn [pj_sequence p1]. do 3 f_equal.
    unfold wadd. rewrite Z.add_mod_idemp_l by done. f_equal. f_equal. lia. }
  assert (forall os, (length os + size (filter (fun kt => kt.1 ∉ seen) (temps (disk_of p))) < fuel)%nat ->
    take_lease_loop (fuel + extra) (set_disk (with_outcomes os (disk_of p)) p1) = take_lease_loop fuel (set_disk (with_outcomes os (disk_of p)) p1)) as Hfail.
  { intros os Hos. apply (IH _ seen); [done|lia| |exact Hos]. intros k Hk. rewrite Hnext by (done || lia). apply Hfresh. lia. }
  unfold on_disk, create_new, atomic, syscall. change (disk_of p1) with (disk_of p).
  destruct (alive (disk_of p)); cbn [negb]; [|by rewrite decide_False].
  assert (forall os, (length os <= length (outcomes (disk_of p)))%nat -> is_Some (temps (disk_of p) !! name) ->
    take_lease_loop (fuel + extra) (set_disk (with_outcomes os (disk_of p)) p1) = take_lease_loop fuel (set_disk (with_outcomes os (disk_of p)) p1)) as Htaken.
  { intros os Hos [t Ht]. apply (IH _ ({[name]} ∪ seen)); [done|lia|..].
    - intros k Hk. rewrite Hnext by (done || lia). apply not_elem_of_union. split; [|apply Hfresh; lia].
      rewrite elem_of_singleton. intros Heq%lease_path_inj%token_at_inj; [lia|done|lia..].
    - pose proof (unseen_fewer (temps (disk_of p)) seen name t ltac:(apply Hfresh; lia) Ht).
      change (temps (disk_of (set_disk (with_outcomes os (disk_of p)) p1))) with (temps (disk_of p)).
      change (outcomes (disk_of (set_disk (with_outcomes os (disk_of p)) p1))) with os. lia. }
  destruct (outcomes (disk_of p)) as [|[|e k|k] os] eqn:Eo.
  - destruct (temps (disk_of p) !! name) as [t|] eqn:Et; [|done]. rewrite !decide_True by done.
    replace (set_disk (disk_of p) p1) with (set_disk (with_outcomes [] (disk_of p)) p1); [by apply Htaken|].
    rewrite <-Eo. by destruct (disk_of p).
  - cbn [temps with_outcomes]. destruct (temps (disk_of p) !! name) as [t|] eqn:Et; [|done]. rewrite !decide_True by done.
    apply Htaken; [simpl; lia|done].
  - destruct (decide (e = AlreadyExists)); [|done]. apply Hfail. cbn [length] in Hlt. lia.
  - by rewrite decide_False.
Qed.
Lemma take_lease_fuel p extra :
  in_u64 (pj_sequence p) -> Z.of_nat (S (length (outcomes (disk_of p)) + size (temps (disk_of p)))) <= U64 ->
  take_lease_loop (S (length (outcomes (disk_of p)) + size (temps (disk_of p))) + extra) p = take_scratch_lease p.
Proof.
  intros Hu Hf. apply (lease_loop_enough _ extra p ∅ Hu Hf); [set_solver|].
  apply Nat.lt_succ_r, Nat.add_le_mono_l, map_subseteq_size, map_filter_subseteq.
Qed.
