(* ===== verification/Python.v ===== *)
(** The values and calls of the Python extension
    ([src/crates/tensorfs-py/src/lib.rs]): exceptions and their classes, digests as
    text, file records, plans, snapshots and packs as Python sees them, and the
    store, planning and composition calls.  The fills are in PyFill.

    Text is its UTF-8 bytes.  An exception carries the Rust error it renders instead
    of its message.  The JSON parser of contract documents is a parameter, as in
    Contract.  That an object of the interpreter can be allocated is assumed. *)
From S2P Require Import Tfp1 Morphism Database.
From S2P Require Export FileSource StoreGuarantees LayoutReap Compose.

(** ** Exceptions *)

(** The texts of [TensorfsError::new_err] and [LayoutError::new_err]. *)
Inductive py_refusal : Type :=
| PR_DigestLength (got : Z)
| PR_DigestNotHex
| PR_DigestUppercase
| PR_UnknownPlanner (name : list byte)
| PR_DataNeedsDigest
| PR_HoleHasDigest
| PR_RecordKind (kind : list byte)
| PR_Grace
| PR_NotRecomposable
| PR_NotAContainer
| PR_NoSuchTensor (name : list byte)
| PR_ReadOnlyBuffer
| PR_NotContiguous
| PR_BufferTooSmall (capacity length : Z).
Inductive fill_refusal : Type :=
| FR_SourceOverflows
| FR_ObjectShort (digest : list byte) (holds wants : Z)
| FR_SourceHolds (covered length : Z)
| FR_SegmentsOverflow
| FR_HoleOffset
| FR_SegmentOverflows
| FR_FileShort (path : list byte) (holds wants : Z)
| FR_ShapeOverflows (where_ : list byte)
| FR_Indivisible (where_ : list byte)
| FR_ExtentOverflows (where_ : list byte)
| FR_SourceMismatch (where_ : list byte) (holds wants : Z)
| FR_NullSource
| FR_NullDestination
| FR_NoStaging
| FR_Poisoned.
Inductive py_error : Type :=
| PY_Refused (r : py_refusal)
| PY_Compose (e : compose_error)
| PY_Store (e : store_error)
| PY_Tfm1 (e : tfm1_error)
| PY_Tfp1 (e : Tfp1.tfp1_error)
| PY_Plan (e : plan_error)
| PY_Layout (e : Layout.layout_error)
| PY_Morphism (e : Morphism.layout_error)
| PY_FillRefused (r : fill_refusal)
| PY_Value (e : contract_error)
| PY_Os (e : io_error)
| PY_Attribute (name : list byte)
| PY_Type
| PY_Buffer
| PY_Panic.

(** The classes, and the base each was created with. *)
Inductive py_class : Type :=
| BaseException | Exception_ | TensorfsError | StoreError | FormatError | PlanError | LayoutError
| ValueError | OSError | AttributeError | TypeError | BufferError | PanicException.
#[export] Instance py_class_eq_dec : EqDecision py_class.
Proof. solve_decision. Defined.
Definition base_class (c : py_class) : option py_class :=
  match c with
  | BaseException => None
  | Exception_ | PanicException => Some BaseException
  | TensorfsError | ValueError | OSError | AttributeError | TypeError | BufferError => Some Exception_
  | StoreError | FormatError | PlanError | LayoutError => Some TensorfsError
  end.
Definition class_of (e : py_error) : py_class :=
  match e with
  | PY_Refused _ | PY_Compose _ => TensorfsError
  | PY_Store _ => StoreError
  | PY_Tfm1 _ | PY_Tfp1 _ => FormatError
  | PY_Plan PE_Panic => PanicException
  | PY_Plan _ => PlanError
  | PY_Layout _ | PY_Morphism _ | PY_FillRefused _ => LayoutError
  | PY_Value _ => ValueError
  | PY_Os _ => OSError
  | PY_Attribute _ => AttributeError
  | PY_Type => TypeError
  | PY_Buffer => BufferError
  | PY_Panic => PanicException
  end.
(** What an [except] clause of class [c] catches. *)
Inductive caught_by (c : py_class) : py_class -> Prop :=
| caught_self : caught_by c c
| caught_sub k b : base_class k = Some b -> caught_by c b -> caught_by c k.

(** [compose_error]. *)
Definition compose_raises (e : compose_error) : py_error :=
  match e with
  | CO_Store e => PY_Store e
  | CO_Plan e => PY_Plan e
  | CO_Panic => PY_Panic
  | other => PY_Compose other
  end.
(** [layout_error]; a panic is not an error of the layout. *)
Definition layout_raises (e : Layout.layout_error) : py_error :=
  match e with LY_Panic => PY_Panic | e => PY_Layout e end.

(** [iter().map(f).collect::<PyResult<Vec<_>>>()]. *)
Fixpoint try_map {E A B} (f : A -> result E B) (l : list A) : result E (list B) :=
  match l with
  | [] => Ok []
  | a :: l => let? b := f a in let? bs := try_map f l in Ok (b :: bs)
  end.

(** ** Digests *)

(** [hex_of], [parse_hex32] and [parse_digest]. *)
Definition py_hex_of (bytes : list byte) : list byte := to_hex bytes.
Definition py_hex_pair (pair : list byte) : result py_error byte :=
  if negb (utf8_valid pair) then Err (PY_Refused PR_DigestNotHex)
  else if existsb is_ascii_uppercase pair then Err (PY_Refused PR_DigestUppercase)
  else let! value := from_str_radix 16 U8 pair ?: PY_Refused PR_DigestNotHex in Ok (byte_of value).
Fixpoint py_hex_pairs (digits : list byte) : result py_error (list byte) :=
  match digits with
  | a :: b :: digits =>
      let? x := py_hex_pair [a; b] in
      let? xs := py_hex_pairs digits in
      Ok (x :: xs)
  | _ => Ok []
  end.
Definition py_parse_hex32 (text : list byte) : result py_error (list byte) :=
  let digits := default text (strip_prefix (bstr "sha256:") text) in
  if negb (zlen digits =? 64) then Err (PY_Refused (PR_DigestLength (zlen digits))) else py_hex_pairs digits.
Definition py_parse_digest (text : list byte) : result py_error (list byte) := py_parse_hex32 text.

(** [region_kind_name], [parse_planner] and [planner_name]. *)
Definition region_kind_name (kind : region_kind) : list byte :=
  match kind with RK_Header => bstr "header" | RK_Tensor => bstr "tensor" | RK_Blob => bstr "blob" end.
Definition parse_planner (name : list byte) : result py_error planner_id :=
  if decide (name = bstr "safetensors-v1") then Ok SafetensorsV1
  else if decide (name = bstr "gguf-v1") then Ok GgufV1
  else if decide (name = bstr "blob-v1") then Ok BlobV1
  else Err (PY_Refused (PR_UnknownPlanner name)).
Definition planner_name (planner : planner_id) : list byte := planner_as_str planner.

(** ** Values *)

(** [AdmittedObject], [TempCollection], [Region], [PlannedObject], [Plan] and
    [HashedPlan]. *)
Record py_admitted : Type := PyAdmittedObject { pa_digest : list byte; pa_length : Z; pa_preexisting : bool }.
Record py_temp_collection : Type := PyTempCollection { pt_examined : Z; pt_deleted : Z; pt_bytes_deleted : Z }.
Record py_region : Type := PyRegion { pr_offset : Z; pr_length : Z; pr_kind : list byte }.
Record py_planned_object : Type := PyPlannedObject { pp_digest : list byte; pp_length : Z; pp_kind : list byte }.
Record py_plan : Type := PyPlan {
  pl_planner : list byte; pl_contract : list byte; pl_file_size : Z; pl_regions : list py_region
}.
Record py_hashed_plan : Type := PyHashedPlan {
  ph_contract : list byte; ph_planner : list byte; ph_file_size : Z; ph_objects : list py_planned_object
}.
Definition admitted_into_python (a : admitted_object) : py_admitted :=
  PyAdmittedObject (py_hex_of (ao_digest a)) (ao_length a) (ao_preexisting a).
Definition plan_into_python (p : plan) : py_plan :=
  PyPlan (planner_name (p_planner p)) (Stamp_display (p_contract p)) (p_file_size p)
    ((fun r => PyRegion (r_offset r) (r_length r) (region_kind_name (r_kind r))) <$> p_regions p).
Definition hashed_plan_into_python (p : hashed_plan) : py_hashed_plan :=
  PyHashedPlan (Stamp_display (hp_contract p)) (planner_name (hp_planner p)) (hp_file_size p)
    ((fun o => PyPlannedObject (py_hex_of (Object.po_digest o)) (po_length o) (region_kind_name (po_kind o))) <$> hp_objects p).

(** [FileRecord]: [new], [data], [hole], [to_core] and [from_core]. *)
Record py_file_record : Type := PyFileRecord { pf_kind : list byte; pf_digest : option (list byte); pf_length : Z }.
Definition py_record_new (kind : list byte) (length : Z) (digest : option (list byte)) : result py_error py_file_record :=
  if decide (kind = bstr "data") then
    match digest with
    | Some digest =>
        let? parsed := py_parse_digest digest in
        Ok (PyFileRecord (bstr "data") (Some (py_hex_of parsed)) length)
    | None => Err (PY_Refused PR_DataNeedsDigest)
    end
  else if decide (kind = bstr "hole") then
    match digest with
    | None => Ok (PyFileRecord (bstr "hole") None length)
    | Some _ => Err (PY_Refused PR_HoleHasDigest)
    end
  else Err (PY_Refused (PR_RecordKind kind)).
Definition py_record_data (digest : list byte) (length : Z) : result py_error py_file_record :=
  py_record_new (bstr "data") length (Some digest).
Definition py_record_hole (length : Z) : result py_error py_file_record := py_record_new (bstr "hole") length None.
Definition to_core (r : py_file_record) : result py_error file_record :=
  match pf_digest r with
  | Some digest => let? digest := py_parse_digest digest in Ok (Data digest (pf_length r))
  | None => Ok (Hole (pf_length r))
  end.
Definition from_core (r : file_record) : py_file_record :=
  match r with
  | Data digest length => PyFileRecord (bstr "data") (Some (py_hex_of digest)) length
  | Hole length => PyFileRecord (bstr "hole") None length
  end.

(** [SnapshotEntry] and [Snapshot]. *)
Record py_snapshot_entry : Type := PySnapshotEntry {
  pe_path : list byte; pe_kind : list byte; pe_executable : option bool; pe_planner : option (list byte);
  pe_logical_size : option Z; pe_records : option (list py_file_record); pe_digest : option (list byte);
  pe_body_sha256 : option (list byte); pe_target : option (list byte); pe_ordinal : option Z
}.
Record py_snapshot : Type := PySnapshot { ps_inner : snapshot; ps_entries : list py_snapshot_entry }.
(** [PackObject], and [ContractInfo]. *)
Record py_pack_object : Type := PyPackObject { pk_digest : list byte; pk_bytes : list byte }.
Record py_contract_info : Type := PyContractInfo {
  ci_name : option (list byte); ci_version : option Z; ci_description : list byte; ci_dtype : option (list byte);
  ci_digest : list byte; ci_stamp : list byte
}.

(** A contract argument: text, or an object with its attributes, each text or not. *)
Inductive py_arg : Type :=
| ArgText (text : list byte)
| ArgObject (attributes : list (list byte * option (list byte))).
(** [text_or_attr]. *)
Definition text_or_attr (any : py_arg) (attribute : list byte) : result py_error (list byte) :=
  match any with
  | ArgText text => Ok text
  | ArgObject attributes =>
      match bt_get attribute attributes with
      | None => Err (PY_Attribute attribute)
      | Some None => Err PY_Type
      | Some (Some text) => Ok text
      end
  end.

(** An [f64]: a finite one is [mantissa * 2 ^ exponent]. *)
Inductive f64 : Type := Nan | Infinite (negative : bool) | Finite (mantissa exponent : Z).
(** [Duration::from_secs_f64] of a finite, non-negative number, in nanoseconds: to
    the nearest, ties to even; it panics where the seconds do not fit. *)
Definition round_div (x d : Z) : Z :=
  let q := x / d in
  let r := x mod d in
  if 2 * r <? d then q else if d <? 2 * r then q + 1 else if Z.even q then q else q + 1.
Definition from_secs_f64 (mantissa exponent : Z) : option Z :=
  let nanos := if 0 <=? exponent then mantissa * 2 ^ exponent * NANOS else round_div (mantissa * NANOS) (2 ^ (- exponent)) in
  if nanos <? U64 * NANOS then Some nanos else None.

Section python.
Context `{Sha256, Unicode, Unordered, Allocator, HeaderJson, EntrySort, JsonText, StubJson, Following}.
Context (from_str : list byte -> result (list byte) raw_contract).

(** ** Formats *)

(** [decode_snapshot]. *)
Definition entry_into_python (pe : list byte * entry) : py_snapshot_entry :=
  let '(path, entry) := pe in
  match entry with
  | Directory => PySnapshotEntry path (bstr "directory") None None None None None None None None
  | File executable body =>
      PySnapshotEntry path (bstr "file") (Some executable) (Some (planner_name (body_planner_id body)))
        (Some (body_logical_size body)) (Some (from_core <$> body_records body))
        (match body with Blob _ digest => Some (py_hex_of digest) | Tensor _ _ _ _ => None end)
        (Some (py_hex_of (body_sha256 body))) None None
  | Symlink target => PySnapshotEntry path (bstr "symlink") None None None None None None (Some target) None
  | Hardlink ordinal => PySnapshotEntry path (bstr "hardlink") None None None None None None None (Some ordinal)
  end.
Definition decode_snapshot (data : list byte) : result py_error py_snapshot :=
  let? snap := map_err PY_Tfm1 (decode data) in
  Ok (PySnapshot snap (entry_into_python <$> s_entries snap)).

(** The methods of [Snapshot]: [parent], [snapshot_id], [to_bytes], [file_records]
    and [ordinal_path]. *)
Definition py_parent (s : py_snapshot) : option (list byte) := py_hex_of <$> s_parent (ps_inner s).
Definition py_snapshot_id (s : py_snapshot) : list byte := py_hex_of (snapshot_id (ps_inner s)).
Definition py_to_bytes (s : py_snapshot) : list byte := to_bytes (ps_inner s).
Fixpoint records_at (path : list byte) (entries : list (list byte * entry)) : option (list py_file_record) :=
  match entries with
  | [] => None
  | (entry_path, entry) :: entries =>
      if negb (bool_decide (entry_path = path)) then records_at path entries
      else match entry with File _ body => Some (from_core <$> body_records body) | _ => None end
  end.
Definition file_records (s : py_snapshot) (path : list byte) : option (list py_file_record) :=
  records_at path (s_entries (ps_inner s)).
Definition py_ordinal_path (s : py_snapshot) (ordinal : Z) : option (list byte) := ordinal_path (ps_inner s) ordinal.

(** [stub_bytes], [parse_stub] and [snapshot_id_of]. *)
Definition py_stub_bytes (body_sha256 : list byte) (size : Z) : result py_error (list byte) :=
  let? digest := py_parse_digest body_sha256 in Ok (stub_bytes digest size).
Definition py_parse_stub (data : list byte) : option (list byte * Z) :=
  (fun s => (py_hex_of (st_body_sha256 s), st_size s)) <$> parse_stub data.
Definition snapshot_id_of (data : list byte) : list byte := py_hex_of (SnapshotId_of data).

(** [decode_pack] and [encode_pack]. *)
Definition decode_pack (data : list byte) : result py_error (list py_pack_object) :=
  match pack_decode data with
  | None => Err PY_Panic
  | Some decoded =>
      let? p := map_err PY_Tfp1 decoded in
      match verify_objects p with
      | None => Err PY_Panic
      | Some verified =>
          let? _ := map_err PY_Tfp1 verified in
          match Tfp1.objects p with
          | None => Err PY_Panic
          | Some os => Ok ((fun o => PyPackObject (py_hex_of (Tfp1.po_digest o)) (po_bytes o)) <$> os)
          end
      end
  end.
Definition encode_pack (objects : list (list byte * list byte)) : result py_error (list byte) :=
  let? parsed := try_map (fun o => let? digest := py_parse_digest o.1 in Ok (digest, o.2)) objects in
  map_err PY_Tfp1 (Tfp1.encode parsed).

(** [parse_seams] and [contract_info]. *)
Definition parse_contract (document : list byte) : result py_error contract :=
  map_err PY_Value (Contract_parse from_str document).
Definition parse_seams (document : option (list byte)) : result py_error (option contract) :=
  match document with None => Ok None | Some text => let? c := parse_contract text in Ok (Some c) end.
Definition contract_info (document : list byte) : result py_error py_contract_info :=
  let? parsed := parse_contract document in
  let version := match c_handle parsed with Some h => h_version h | None => 0 end in
  Ok (PyContractInfo (h_name <$> c_handle parsed) (if 0 <? version then Some version else None) (c_description parsed)
        (c_dtype parsed) (py_hex_of (contract_digest parsed)) (Stamp_display (contract_stamp parsed))).

(** ** The object store *)

Definition raising {S E A} (f : E -> py_error) (m : M S E A) : M S py_error A := map_err_m f m.

(** [class ObjectStore] and its constructor, on a file system with symbolic links
    or without. *)
Record py_object_store : Type := PyObjectStore { pos_inner : object_store; pos_root : list byte }.
Definition py_object_store_new (root : list byte) (links : bool)
  : M store_root py_error py_object_store :=
  let<- opened := raising PY_Store (store_open links) in
  ret (PyObjectStore opened root).

(** [ObjectStore.put_bytes], [read_object], [read_object_range], [verify] and
    [contains].  An object's file is read whole, a range of it after a seek. *)
Definition py_put_bytes (data : list byte) : M disk py_error py_admitted :=
  let<- admitted := raising PY_Store (put_bytes data) in ret (admitted_into_python admitted).
Definition py_read_object (digest : list byte) : M disk py_error (list byte) :=
  let<- digest := lift (py_parse_digest digest) in
  let<- file := raising PY_Store (open_object digest) in
  raising PY_Os (query (fun _ => Ok file)).
Definition I64_MAX : Z := 2 ^ 63 - 1.
Definition py_read_object_range (digest : list byte) (offset length : Z) : M disk py_error (list byte) :=
  let<- digest := lift (py_parse_digest digest) in
  let<- file := raising PY_Store (open_object digest) in
  raising PY_Os (query (fun _ => if I64_MAX <? offset then Err (OtherIo 22) else Ok tt));;;
  check (try_reserve length) (PY_Os OutOfMemory);;;
  raising PY_Os (query (fun _ =>
    match get_range file offset (offset + length) with Some bytes => Ok bytes | None => Err UnexpectedEof end)).
Definition py_verify (digest : list byte) : M disk py_error Z :=
  let<- digest := lift (py_parse_digest digest) in raising PY_Store (verify digest).
Definition py_contains (digest : list byte) : M disk py_error bool :=
  let<- digest := lift (py_parse_digest digest) in
  fun d => let (r, d) := open_object digest d in (Ok (is_ok r), d).

(** [ObjectStore.collect_abandoned_temps]. *)
Definition py_collect_abandoned_temps (grace_seconds : f64) : M disk py_error py_temp_collection :=
  match grace_seconds with
  | Finite mantissa exponent =>
      if mantissa <? 0 then fail (PY_Refused PR_Grace)
      else
        match from_secs_f64 mantissa exponent with
        | None => fail PY_Panic
        | Some grace =>
            let<- collected := raising PY_Store (collect_abandoned_temps grace) in
            ret (PyTempCollection (tc_examined collected) (tc_deleted collected) (tc_bytes_deleted collected))
        end
  | _ => fail (PY_Refused PR_Grace)
  end.

(** [ObjectStore.project_snapshot], [remove_snapshot_tree], [set_ref], [read_ref]
    and [remove_ref]. *)
Definition py_project_snapshot (symlinks : bool) (s : py_snapshot) : M projected py_error (list byte) :=
  raising layout_raises (project symlinks (ps_inner s)).
Definition py_remove_snapshot_tree (snapshot_id : list byte) : M projected py_error bool :=
  let<- id := lift (py_parse_hex32 snapshot_id) in
  let<- removed := raising layout_raises (remove_tree id) in ret (removal_taken removed).
Definition py_set_ref (name snapshot_id : list byte) : M projected py_error unit :=
  let<- id := lift (py_parse_hex32 snapshot_id) in raising layout_raises (set_ref name id).
Definition py_read_ref (name : list byte) : M projected py_error (option (list byte)) :=
  let<- found := raising layout_raises (read_ref name) in ret (py_hex_of <$> found).
Definition py_remove_ref (name : list byte) : M projected py_error bool :=
  let<- removed := raising layout_raises (remove_ref name) in ret (removal_taken removed).

(** ** Planning *)

(** [plan_under]. *)
Definition plan_under {S} `{ByteSource S} (seams : option contract) : M S py_error plan :=
  raising PY_Plan (plan_with seams).

(** [plan_bytes], [plan_and_hash_bytes], [plan_file] and [plan_and_hash_file]. *)
Definition plan_bytes (data : list byte) : result py_error py_plan :=
  let? p := (raising PY_Plan (plan_with None) data).1 in Ok (plan_into_python p).
Definition plan_and_hash_bytes (data : list byte) : result py_error py_hashed_plan :=
  let? p := (raising PY_Plan (plan_and_hash_under None) data).1 in Ok (hashed_plan_into_python p).
(** A source opened at [path], dropped after [m]. *)
Definition with_file {A} (path : list byte) (m : M opened py_error A) : M files py_error A := fun s =>
  match raising PY_Os (open path) s with
  | (Err e, s) => (Err e, s)
  | (Ok source, s) => let (r, o) := m (Opened source s) in (r, op_files o)
  end.
Definition plan_file (path : list byte) (seams : option (list byte)) : M files py_error py_plan :=
  let<- registry := lift (parse_seams seams) in
  let<- p := with_file path (plan_under registry) in ret (plan_into_python p).
Definition plan_and_hash_file (path : list byte) (seams : option (list byte)) : M files py_error py_hashed_plan :=
  let<- registry := lift (parse_seams seams) in
  let<- p := with_file path (let<- p := plan_under registry in raising PY_Plan (hash_plan p)) in
  ret (hashed_plan_into_python p).

(** [ObjectStore.admit_file]: the file beside the store. *)
Definition admit_file (concurrency : Z) (schedule : list region -> list nat) (path : list byte) (seams : option (list byte))
  : M (files * disk) py_error (py_plan * list py_admitted) := fun fd =>
  let (s, d) := fd in
  match parse_seams seams with
  | Err e => (Err e, (s, d))
  | Ok registry =>
      match raising PY_Os (open path) s with
      | (Err e, s) => (Err e, (s, d))
      | (Ok source, s) =>
          let (r, od) := (let<- p := plan_under registry in
            let<- admitted := raising PY_Store (admit_regions concurrency (schedule (p_regions p)) (p_regions p)) in
            ret (plan_into_python p, admitted_into_python <$> admitted)) (Opened source s, d) in
          (r, (op_files od.1, od.2))
      end
  end.

(** [RecordsReader]: [new], [read_at] and [plan]. *)
Definition py_reader_new (records : list py_file_record) : result py_error (list file_record) := try_map to_core records.
Definition py_read_at (records : list file_record) (offset length : Z) : M disk py_error (list byte) :=
  check (try_reserve length) (PY_Os OutOfMemory);;;
  raising PY_Os (records_read (records_source_new records) offset length).
Definition py_reader_plan (records : list file_record) : M disk py_error py_plan :=
  let<- p := raising PY_Plan (plan_with (H := records_byte_source records) None) in ret (plan_into_python p).

(** ** Composition *)

(** [parse_planner(planner)?.tensor_format()]. *)
Definition container_format (planner : list byte) : result py_error tensor_format :=
  let? id := parse_planner planner in
  let! format := planner_tensor_format id ?: PY_Refused PR_NotRecomposable in Ok format.
Definition body_stamp (body : file_body) : list byte :=
  match body with Tensor _ contract _ _ => Stamp_display contract | Blob _ _ => Stamp_display StampNone end.

(** [compose_records], [rekey] and [subset]. *)
Definition compose_records (planner : list byte) (records : list py_file_record) (names : btree (list byte))
    (contract : option py_arg) (composition : file_body -> btree (list byte) -> M disk compose_error file_body)
  : M disk py_error (list py_file_record) :=
  let<- format := lift (container_format planner) in
  let<- records := lift (try_map to_core records) in
  let<- contract := lift (
    match contract with
    | None => Ok StampNone
    | Some any => let? text := text_or_attr any (bstr "stamp") in map_err PY_Value (Stamp_parse text)
    end) in
  let body := Tensor format contract (records_sum records) records in
  let<- composed := raising compose_raises (composition body names) in
  ret (from_core <$> body_records composed).
Definition py_rekey (planner : list byte) (records : list py_file_record) (names : btree (list byte)) (contract : option py_arg)
  : M disk py_error (list py_file_record) := compose_records planner records names contract rekey.
Definition py_subset (planner : list byte) (records : list py_file_record) (names : btree (list byte)) (contract : option py_arg)
  : M disk py_error (list py_file_record) := compose_records planner records names contract subset.

(** [derive] and [adopt]. *)
Definition py_derive (planner : list byte) (records : list py_file_record) (source_contract target_contract : py_arg)
  : M disk py_error (list py_file_record * list byte) :=
  let<- format := lift (container_format planner) in
  let<- records := lift (try_map to_core records) in
  let<- source_document := lift (text_or_attr source_contract (bstr "document")) in
  let<- target_document := lift (text_or_attr target_contract (bstr "document")) in
  let<- source := lift (parse_contract source_document) in
  let<- target := lift (parse_contract target_document) in
  let body := Tensor format (contract_stamp source) (records_sum records) records in
  let<- composed := raising compose_raises (derive body source target) in
  ret (from_core <$> body_records composed, body_stamp composed).
Definition py_adopt (concurrency : Z) (schedule : list region -> list nat) (planner : list byte) (records : list py_file_record)
    (seams : option (list byte)) : M disk py_error (list py_file_record * list byte) :=
  let<- format := lift (container_format planner) in
  let<- records := lift (try_map to_core records) in
  let body := Tensor format StampNone (records_sum records) records in
  let<- registry := lift (parse_seams seams) in
  let<- composed := raising compose_raises (adopt concurrency schedule body registry) in
  ret (from_core <$> body_records composed, body_stamp composed).
End python.

(** ** Digests and records cross the boundary *)

Lemma py_hex_pairs_iff l d : py_hex_pairs l = Ok d <-> parse_hex_pairs l = Some d.
Proof.
  revert d. assert (forall a b, py_hex_pair [a; b] = match parse_hex_pair [a; b] with
    | Some x => Ok x | None => Err (PY_Refused (if negb (utf8_valid [a; b]) then PR_DigestNotHex
      else if existsb is_ascii_uppercase [a; b] then PR_DigestUppercase else PR_DigestNotHex)) end) as Hp.
  { intros a b. unfold py_hex_pair, parse_hex_pair. destruct (utf8_valid _); cbn [negb]; [|done].
    destruct (existsb _ _); [done|]. by destruct (from_str_radix 16 U8 [a; b]). }
  revert l. fix IH 1. intros [|a [|b l]] d; [simpl; split; congruence..|].
  cbn [py_hex_pairs parse_hex_pairs]. rewrite Hp. destruct (parse_hex_pair [a; b]) as [x|]; [|done].
  specialize (IH l). destruct (py_hex_pairs l) as [xs|e].
  - rewrite (proj1 (IH xs) eq_refl). split; congruence.
  - destruct (parse_hex_pairs l) as [xs|]; [|done]. by specialize (proj2 (IH xs) eq_refl).
Qed.
Lemma strip_tag_hex d : strip_prefix (bstr "sha256:") (to_hex d) = None.
Proof. destruct d as [|b d]; [done|]. destruct b; reflexivity. Qed.
Lemma py_parse_digits text d :
  strip_prefix (bstr "sha256:") text = None -> parse_hex32 text = Some d -> py_parse_hex32 text = Ok d.
Proof.
  intros Hs. unfold parse_hex32, py_parse_hex32. rewrite Hs. cbn [default]. destruct (zlen text =? 64); [|done].
  cbn [negb]. apply py_hex_pairs_iff.
Qed.
Lemma py_parse_hex_of d : zlen d = 32 -> py_parse_hex32 (py_hex_of d) = Ok d.
Proof. intros Hd. apply py_parse_digits; [apply strip_tag_hex|by apply parse_hex32_to_hex]. Qed.
Lemma py_parse_display d : zlen d = 32 -> py_parse_hex32 (digest_display d) = Ok d.
Proof.
  intros Hd. unfold py_parse_hex32, digest_display.
  replace (strip_prefix (bstr "sha256:") _) with (Some (to_hex d)) by (symmetry; by apply strip_prefix_Some).
  pose proof (parse_hex32_to_hex d Hd) as Hp. unfold parse_hex32 in Hp. unfold default, id.
  destruct (zlen (to_hex d) =? 64); [|done]. by apply py_hex_pairs_iff.
Qed.
Lemma py_parse_length text d : py_parse_hex32 text = Ok d -> zlen d = 32.
Proof.
  unfold py_parse_hex32. set (digits := default _ _). destruct (zlen digits =? 64) eqn:E; [|done]. cbn [negb].
  intros Hp%py_hex_pairs_iff. apply (parse_hex32_length digits). unfold parse_hex32. by rewrite E.
Qed.

Definition record_digest_ok (r : file_record) : Prop := match r with Data digest _ => zlen digest = 32 | Hole _ => True end.
Lemma to_core_from_core r : record_digest_ok r -> to_core (from_core r) = Ok r.
Proof. destruct r as [digest n|n]; [|done]. intros Hd. unfold to_core, py_parse_digest. cbn. by rewrite py_parse_hex_of. Qed.
Lemma records_cross rs : Forall record_digest_ok rs -> try_map to_core (from_core <$> rs) = Ok rs.
Proof. induction 1 as [|r rs Hr _ IH]; [done|]. rewrite fmap_cons. cbn [try_map]. by rewrite to_core_from_core, IH. Qed.
(** A record Python makes is one it could have been given. *)
Lemma record_new_canonical kind n digest r :
  py_record_new kind n digest = Ok r -> exists c, to_core r = Ok c /\ from_core c = r /\ record_digest_ok c.
Proof.
  unfold py_record_new. destruct (decide _).
  - destruct digest as [digest|]; [|done]. unfold py_parse_digest. destruct (py_parse_hex32 digest) as [d|] eqn:E; [|done].
    intros [= <-]. apply py_parse_length in E. exists (Data d n). split_and!; [|done|done]. unfold to_core, py_parse_digest. cbn.
    by rewrite py_parse_hex_of.
  - destruct (decide _); [|done]. destruct digest; [done|]. intros [= <-]. by exists (Hole n).
Qed.

(** ** A file through Python *)

Lemma body_records_ok body :
  wf_body body -> Forall record_digest_ok (body_records body) /\ run_fits (body_records body) /\
    sum_lengths (body_records body) = body_logical_size body.
Proof.
  destruct body as [format c n rs|n digest]; cbn [wf_body body_records body_logical_size].

  - intros (_ & [_ _ _ Hs Hf] & Hw & _). split_and!; [|split; [|done]|done]; (eapply Forall_impl; [exact Hw|]).
    + by intros [digest m|m]; [intros [? _]|].
    + by intros [digest m|m]; [intros [_ []]|intros []].
  - intros ([Hn Hu] & Hd & _). destruct (Z.eqb_spec n 0) as [->|]; [by split_and!; [constructor|split; [constructor|]|]|].
    unfold run_fits, sum_lengths. cbn. split_and!; [by constructor|by constructor|lia|lia].
Qed.

Lemma records_at_entry path executable body entries :
  StronglySorted bytes_lt entries.*1 -> (path, File executable body) ∈ entries ->
  records_at path entries = Some (from_core <$> body_records body).
Proof.
  intros Hs Hin. induction entries as [|[p e] entries IH]; [by apply not_elem_of_nil in Hin|].
  cbn [fmap list_fmap] in Hs. apply StronglySorted_inv in Hs as [Hs Hf]. cbn [records_at].
  apply elem_of_cons in Hin as [[= <- <-]|Hin]; [by rewrite bool_decide_eq_true_2|].
  rewrite bool_decide_eq_false_2; [by apply IH|]. intros ->.
  rewrite Forall_forall in Hf. apply (bytes_lt_irrefl path), Hf, list_elem_of_fmap. by exists (path, File executable body).
Qed.

Section reading.
Context `{Sha256, Unicode, Unordered, Allocator, HeaderJson, EntrySort, JsonText, StubJson, Following}.

(** C14: A committed file is read through Python as it was committed.  A manifest
    that decodes gives, for each of its files, records that Python can hand back
    unchanged to a reader, and the identity the bytes of the manifest have; a read of
    those records gives the bytes the file has in the store, holes as zeros, and
    nothing else whatever fails around it; where nothing fails and the objects are
    there, every range of the file is read. *)
Theorem python_reads_committed data s path executable body d offset n :
  zlen data < U64 -> decode data = Ok s -> (path, File executable body) ∈ s_entries s -> 0 <= offset -> 0 <= n ->
  exists ps records,
    decode_snapshot data = Ok ps /\ py_to_bytes ps = data /\ py_snapshot_id ps = snapshot_id_of data /\
    file_records ps path = Some records /\ py_reader_new records = Ok (body_records body) /\
    (let file := run_bytes (objects d) (body_records body) in
    (forall bytes d', py_read_at (body_records body) offset n d = (Ok bytes, d') ->
       objects d' = objects d /\ offset + n <= body_logical_size body /\ bytes = slice file offset (offset + n)) /\
    (quiet_disk d -> run_resident (objects d) (body_records body) -> try_reserve n = true ->
     offset + n <= body_logical_size body ->
     (py_read_at (body_records body) offset n d).1 = Ok (slice file offset (offset + n)))).
Proof.
  intros Hu Hd Hin Ho Hn. pose proof (decode_sound data s Hu Hd) as (Hb & Hwf & _).
  assert (wf_body body) as (Hdig & Hfit & Hsum)%body_records_ok.
  { pose proof (wf_entries _ Hwf) as He. rewrite Forall_forall in He. exact (He _ Hin). }
  exists (PySnapshot s (entry_into_python <$> s_entries s)), (from_core <$> body_records body).
  unfold decode_snapshot. rewrite Hd. split; [done|]. split; [done|]. split; [unfold py_snapshot_id, snapshot_id_of, snapshot_id; cbn; by rewrite Hb|].
  split; [eapply records_at_entry; [apply (wf_sorted _ Hwf)|done]|]. split; [by apply records_cross|]. cbv zeta.
  destruct (records_read_correct (body_records body) offset n d Hfit Ho Hn) as [Hr1 Hr2]. unfold py_read_at, check. split.
  - intros bytes d'. destruct (try_reserve n); [|done]. unfold bind, ret, raising, map_err_m.
    destruct (records_read _ _ _ d) as [[bytes'|e] d'']; [|done]. intros [= -> ->]. destruct Hr1 as (? & Hle & ?).
    rewrite zlen_run_bytes in Hle by apply Hfit. rewrite <-Hsum. done.
  - intros Hq Hres Hr Hle. rewrite Hr. unfold bind, ret, raising, map_err_m. specialize (Hr2 Hq Hres). rewrite Hsum in Hr2. specialize (Hr2 Hle).
    destruct (records_read _ _ _ d) as [r d'']. cbn in Hr2 |- *. by rewrite Hr2.
Qed.
End reading.

(** ** Packs *)

Section packs.
Context `{Sha256, Unicode, Unordered, Allocator, HeaderJson, EntrySort, JsonText, StubJson, Following}.

(** C34: Objects handed to a pack by Python come back from it: whatever [encode_pack]
    writes, [decode_pack] accepts, and it holds the given objects under the names they
    were given, each once. *)
Theorem packs_cross objs bytes :
  Forall (fun o => zlen o.1 = 32) objs ->
  encode_pack ((fun o => (py_hex_of o.1, o.2)) <$> objs) = Ok bytes -> memory_for MAX_PACK_OBJECTS ->
  exists os, decode_pack bytes = Ok os /\
    (fun o => (pk_digest o, pk_bytes o)) <$> os ≡ₚ (fun o => (py_hex_of o.1, o.2)) <$> objs.
Proof.
  intros Hd He Hm. unfold encode_pack in He.
  assert (try_map (fun o => let? digest := py_parse_digest o.1 in Ok (digest, o.2))
    ((fun o => (py_hex_of o.1, o.2)) <$> objs) = Ok objs) as Hp.
  { clear He. induction Hd as [|[d b] objs Ho Hf IH]; [done|]. rewrite fmap_cons. cbn [try_map fst snd] in *.
    change (py_parse_digest (py_hex_of d)) with (py_parse_hex32 (py_hex_of d)). rewrite py_parse_hex_of by done. by rewrite IH. }
  rewrite Hp in He. apply map_err_Ok in He. destruct (Tfp1.encode_decode objs bytes He Hm) as (p & os & Hdec & Ho & Hperm & _).
  exists ((fun o => PyPackObject (py_hex_of (Tfp1.po_digest o)) (po_bytes o)) <$> os). split.
  - unfold decode_pack. rewrite Hdec. cbn [map_err]. unfold pack_decode in Hdec. destruct (Tfp1.parse bytes) as [p'|]; [|done].
    destruct (verify_objects p') as [[[]|]|] eqn:Ev; [|done..]. injection Hdec as ->. by rewrite Ev, Ho.
  - rewrite <-Hperm, <-!list_fmap_compose. apply reflexive_eq, list_fmap_ext. by intros _ [d b] _.
Qed.
End packs.

(** ** Runs *)

#[local] Existing Instances toy_sha ascii_unicode in_order ample_memory sample_json stable_sort.
#[local] Instance plain_text : JsonText := {| json_string text := quoted text |}.
#[local] Instance no_stubs : StubJson := {| wire_of_json _ := None |}.
#[local] Instance no_links : Following := {| follow _ _ _ := false |}.

(** The tensor file of [demo_snapshot] over a store that holds its object. *)
Definition holding_empty : disk := Disk {[EMPTY_BLOB_DIGEST := Regular (bstr "wxyz") true]} ∅ [] true 7 0 100 1.
Lemma python_reads_committed_witness :
  exists ps records, decode_snapshot (to_bytes demo_snapshot) = Ok ps /\ file_records ps (bstr "a/t") = Some records /\
    py_reader_new records = Ok [Data EMPTY_BLOB_DIGEST 4; Hole 8] /\
    (py_read_at [Data EMPTY_BLOB_DIGEST 4; Hole 8] 2 5 holding_empty).1 = Ok (bstr "yz" ++ [Byte.x00; Byte.x00; Byte.x00]).
Proof.
  destruct (python_reads_committed (to_bytes demo_snapshot) demo_snapshot (bstr "a/t") false
    (Tensor TF_GgufV1 (StampNamed (Handle (bstr "acme.x-1") 3)) 12 [Data EMPTY_BLOB_DIGEST 4; Hole 8]) holding_empty 2 5)
    as (ps & records & Hd & _ & _ & Hr & Hn & _ & Hq); [vm_compute; reflexivity|exact demo_decodes|by apply list_elem_of_lookup_2 with 2%nat|lia|lia|].
  exists ps, records. split; [exact Hd|]. split; [exact Hr|]. split; [exact Hn|]. cbn [body_records] in Hq. rewrite Hq.
  - vm_compute. reflexivity.
  - split; reflexivity.
  - apply Forall_cons_2; [|apply Forall_cons_2; [exact I|apply Forall_nil_2]]. exists (bstr "wxyz"), true. split; vm_compute; [reflexivity|discriminate].
  - reflexivity.
  - vm_compute. discriminate.
Defined.

(** Two objects through a pack. *)
Definition demo_texts : list (list byte * list byte) := (fun o => (py_hex_of o.1, o.2)) <$> demo_objects.
Lemma packs_cross_witness :
  exists os, decode_pack demo_pack_bytes = Ok os /\ (fun o => (pk_digest o, pk_bytes o)) <$> os ≡ₚ demo_texts.
Proof.
  apply (packs_cross demo_objects demo_pack_bytes).
  - repeat (apply Forall_cons_2; [vm_compute; reflexivity|]). apply Forall_nil_2.
  - vm_compute. reflexivity.
  - intros k _. reflexivity.
Defined.

(** Every exception of the extension's own has the base class it documents for all
    of them; what a contract document or a path raises has not, and neither has a
    panic, which is no [Exception] either. *)
Lemma caught_chain c k : caught_by c k <-> c = k \/ exists b, base_class k = Some b /\ caught_by c b.
Proof. split; [destruct 1; eauto|]. intros [->|(b & ? & ?)]; [constructor|by econstructor]. Qed.
Theorem classes_of_exceptions :
  (forall e, class_of e ∈ [StoreError; FormatError; PlanError; LayoutError] -> caught_by TensorfsError (class_of e)) /\
  (forall e, ~ caught_by TensorfsError (class_of (PY_Value e))) /\
  (forall e, ~ caught_by TensorfsError (class_of (PY_Os e))) /\ ~ caught_by Exception_ (class_of PY_Panic).
Proof.
  split_and!.
  - intros e He. assert (base_class (class_of e) = Some TensorfsError) as Hb.
    { revert He. generalize (class_of e). apply Forall_forall. by repeat constructor. }
    econstructor; [exact Hb|constructor].
  - intros e Hc. repeat (apply caught_chain in Hc as [[=]|(b & [= <-] & Hc)]).
  - intros e Hc. repeat (apply caught_chain in Hc as [[=]|(b & [= <-] & Hc)]).
  - intros Hc. repeat (apply caught_chain in Hc as [[=]|(b & [= <-] & Hc)]).
Qed.

(** A contract document that is not one raises an error [TensorfsError] does not
    catch. *)
Example contract_refusal_escapes :
  contract_info (fun _ => Err (bstr "expected value")) (bstr "{") = Err (PY_Value (CE_Json (bstr "expected value"))).
Proof. reflexivity. Qed.

(** Half a second of grace, and a finite number of seconds no duration can hold. *)
Example grace_of_half_a_second : from_secs_f64 1 (-1) = Some 500000000.
Proof. reflexivity. Qed.
Theorem grace_can_panic d : py_collect_abandoned_temps (Finite 1 64) d = (Err PY_Panic, d).
Proof. reflexivity. Qed.

(** A file rewritten while its fourth region is admitted. *)
Definition rewritten : list byte := replicate 64 (byte_of 1) ++ bstr "XYZ" ++ replicate 29 (byte_of 0).
Definition twin_files : files :=
  Files 1 {[bstr "m" := ToInode 7]} {[7 := Inode true twin_gguf None 5]}
    (replicate 19 (Moment [] InFull) ++ [Moment [Rewrites 7 rewritten None 9] InFull]).
Definition empty_store : disk := Disk ∅ ∅ [] true 7 0 100 1.
Definition no_document (_ : list byte) : result (list byte) raw_contract := Err [].
Definition torn : list byte := take 64 twin_gguf ++ drop 64 rewritten.

(** [admit_file] checks the source before and while it plans, never after it has
    admitted: it returns objects that together are a file that never was.  The same
    race is refused by [plan_and_hash_file]. *)
Theorem admit_file_can_tear :
  (exists admitted, (admit_file no_document 1 (fun _ => []) (bstr "m") None (twin_files, empty_store)).1
     = Ok (plan_into_python twin_plan, admitted) /\
     pa_digest <$> admitted = (fun r => py_hex_of (sha256 (region_bytes torn r))) <$> p_regions twin_plan) /\
  torn <> twin_gguf /\ torn <> rewritten /\
  (plan_and_hash_file no_document (bstr "m") None twin_files).1 = Err (PY_Plan (PE_SourceChanged InvalidData)).
Proof.
  split; [eexists; split; vm_compute; reflexivity|]. split; [|split; [|vm_compute; reflexivity]];
    by apply (bool_decide_unpack _); vm_compute.
Qed.
