(* ===== verification/PyFill.v ===== *)
(** The fill and stream calls of the Python extension
    ([src/crates/tensorfs-py/src/lib.rs]): a tensor of a committed container, or
    memory or files the caller names, moved into memory the caller owns, on the host
    or on a device.

    Host memory is a function from addresses to bytes.  A mapping of a file reads
    what the file held when it was mapped: store objects are immutable, and for other
    files the callers promise it.  A pointer is 64 bits, and so is a [usize]. *)
From S2P Require Import MixedRadix Formula Morphism MorphismPlan MorphismWalk MorphismMove.
From S2P Require Export Stream Python Fill Cuda Ratify.

(** ** Memory and mappings *)

Definition memory : Type := Z -> byte.
Definition mem_read (m : memory) (at_ n : Z) : list byte := (fun i => m (at_ + i)) <$> seqZ 0 n.
Definition mem_write (m : memory) (at_ : Z) (bytes : list byte) : memory := fun a =>
  if at_ <=? a then default (m a) (bytes !! Z.to_nat (a - at_)) else m a.

(** [memmap2::Mmap::map]: what it makes of an empty file depends on its version. *)
Class Mmap : Type := { map_empty : result io_error unit }.
Definition map_bytes `{Mmap} (file : list byte) : result io_error (list byte) :=
  match file with [] => let? _ := map_empty in Ok [] | _ => Ok file end.

(** What [File::open] finds behind a link. *)
Class LinkTargets : Type := { link_target : list byte -> option Z }.
Definition open_following `{LinkTargets} (path : list byte) : M files io_error Z := os_call (fun _ s =>
  let found := match f_names s !! path with None => None | Some ToLink => link_target path | Some (ToInode ino) => Some ino end in
  match found with
  | None => Err NotFound
  | Some ino => match f_inodes s !! ino with Some _ => Ok ino | None => Err NotFound end
  end).
Definition map_file `{Mmap} (ino : Z) : M files io_error (list byte) := os_call (fun _ s =>
  match f_inodes s !! ino with
  | None => Err NotFound
  | Some i => if in_regular i then map_bytes (in_bytes i) else Err (OtherIo 19)
  end).

(** [MappedObject]: [new], and [bytes], which the buffer export hands out. *)
Record py_mapped_object : Type := PyMappedObject { mo_map : option (list byte); mo_path : list byte }.
Definition mapped_new `{Mmap, LinkTargets} (path : list byte) : M files py_error py_mapped_object :=
  let<- file := raising PY_Os (open_following path) in
  let<- m := raising PY_Os (handle_metadata file) in
  if md_len m =? 0 then ret (PyMappedObject None path)
  else let<- bytes := raising PY_Os (map_file file) in ret (PyMappedObject (Some bytes) path).
Definition mapped_bytes (o : py_mapped_object) : list byte := default [] (mo_map o).
(** [__getbuffer__]: what the view shows, read-only. *)
Definition PyBUF_WRITABLE : Z := 1.
Definition mapped_getbuffer (view_is_null : bool) (flags : Z) (o : py_mapped_object) : result py_error (list byte) :=
  if view_is_null then Err PY_Buffer
  else if Z.land flags PyBUF_WRITABLE =? PyBUF_WRITABLE then Err PY_Buffer
  else if I64_MAX <? zlen (mapped_bytes o) then Err PY_Buffer
  else Ok (mapped_bytes o).

(** ** Source segments *)

(** [enum SourceSegment] and [SourceSegment::bytes]. *)
Inductive source_segment : Type :=
| SegData (map : list byte) (start stop : Z)
| SegHole (bytes : list byte).
Definition segment_bytes (s : source_segment) : list byte :=
  match s with SegData map start stop => slice map start stop | SegHole bytes => bytes end.

Definition refused {S A} (r : fill_refusal) : M S py_error A := fail (PY_FillRefused r).

Section segments.
Context `{Mmap}.

(** [source_segments]: the loop over the records, then the check of what it covered. *)
Definition data_segment (digest : list byte) (within count : Z) : M disk py_error source_segment :=
  let<- file := raising PY_Store (open_object digest) in
  let<- map := raising PY_Os (query (fun _ => map_bytes file)) in
  match checked_add within count with
  | None => refused FR_SourceOverflows
  | Some stop =>
      if zlen map <? stop then refused (FR_ObjectShort digest (zlen map) stop) else ret (SegData map within stop)
  end.
Fixpoint segments_loop (offset finish position covered : Z) (segments : list source_segment) (records : list file_record)
  : M disk py_error (list source_segment * Z) :=
  match records with
  | [] => ret (segments, covered)
  | record :: records =>
      let record_end := wadd position (record_length record) in
      if record_end <=? offset then segments_loop offset finish record_end covered segments records
      else if finish <=? position then ret (segments, covered)
      else
        let from := Z.max offset position in
        let to := Z.min finish record_end in
        let within := wsub from position in
        let count := wsub to from in
        let<- segment :=
          match record with
          | Hole _ => ret (SegHole (replicate (Z.to_nat count) Byte.x00))
          | Data digest _ => data_segment digest within count
          end in
        segments_loop offset finish record_end (wadd covered count) (segments ++ [segment]) records
  end.
Definition source_segments (records : list file_record) (offset length : Z) : M disk py_error (list source_segment) :=
  match checked_add offset length with
  | None => refused FR_SourceOverflows
  | Some finish =>
      let<- loop := segments_loop offset finish 0 0 [] records in
      if negb (loop.2 =? length) then refused (FR_SourceHolds loop.2 length) else ret loop.1
  end.

(** [file_segments]. *)
Definition file_segment `{LinkTargets} (path : option (list byte)) (offset length : Z) : M files py_error source_segment :=
  match path with
  | None => if negb (offset =? 0) then refused FR_HoleOffset else ret (SegHole (replicate (Z.to_nat length) Byte.x00))
  | Some path =>
      let<- file := raising PY_Os (open_following path) in
      let<- map := raising PY_Os (map_file file) in
      match checked_add offset length with
      | None => refused FR_SegmentOverflows
      | Some stop => if zlen map <? stop then refused (FR_FileShort path (zlen map) stop) else ret (SegData map offset stop)
      end
  end.
Fixpoint file_segments `{LinkTargets} (segments : list source_segment) (total : Z) (records : list (option (list byte) * Z * Z))
  : M files py_error (list source_segment * Z) :=
  match records with
  | [] => ret (segments, total)
  | (path, offset, length) :: records =>
      if length =? 0 then file_segments segments total records
      else
        match checked_add total length with
        | None => refused FR_SegmentsOverflow
        | Some total =>
            let<- segment := file_segment path offset length in file_segments (segments ++ [segment]) total records
        end
  end.
End segments.

(** ** Host memory as a sink *)

(** [struct BufferSink] and its [impl FillSink], with the memory it writes. *)
Record buffer_sink : Type := BufferSink { bs_address : Z; bs_capacity : Z; bs_memory : memory }.
Definition buffer_staging (bytes device_offset : Z) (s : buffer_sink)
  : option (result Morphism.layout_error (list byte * (list byte -> buffer_sink))) :=
  Some (
    let! stop := checked_add device_offset bytes ?: LE_Buffer (bs_capacity s) (U64 - 1) in
    if bs_capacity s <? stop then Err (LE_Buffer (bs_capacity s) stop)
    else
      let at_ := wadd (bs_address s) device_offset in
      Ok (mem_read (bs_memory s) at_ bytes,
          fun written => BufferSink (bs_address s) (bs_capacity s) (mem_write (bs_memory s) at_ written))).
Definition buffer_commit (s : buffer_sink) : result Morphism.layout_error buffer_sink := Ok s.
#[export] Instance buffer_fill_sink : FillSink buffer_sink := {| staging := buffer_staging; commit := buffer_commit |}.

(** ** The fills *)

(** [struct FillSpec], [FillStats], [StreamTensor] and [TensorStreamReader]. *)
Record fill_spec : Type := FillSpec {
  sp_shape : list Z; sp_element_bytes : Z; sp_destination_offset : Z; sp_layout : list byte; sp_where : list byte
}.
Record py_fill_stats : Type := PyFillStats {
  pq_source_bytes : Z; pq_destination_bytes : Z; pq_padding_bytes : Z; pq_runs : Z; pq_chunks : Z
}.
Definition stats_into_python (s : fill_stats) : py_fill_stats :=
  PyFillStats (fs_source_bytes s) (fs_destination_bytes s) (fs_padding_bytes s) (fs_runs s) (fs_chunks s).
Record py_stream_tensor : Type := PyStreamTensor {
  pn_name : list byte; pn_dtype : list byte; pn_shape : list Z; pn_offset : Z; pn_nbytes : Z
}.
Record py_stream_reader : Type := PyTensorStreamReader {
  pz_records : list file_record; pz_reader : stream_reader; pz_format : list byte; pz_tensors : list py_stream_tensor
}.
(** [shape.iter().try_fold(1_u64, checked_mul)]. *)
Definition shape_elements (shape : list Z) : option Z :=
  foldl (fun total dim => let* total := total in checked_mul total dim) (Some 1) shape.
(** [tensors.iter().find(|tensor| tensor.name == name)]. *)
Fixpoint find_tensor (name : list byte) (tensors : list py_stream_tensor) : option py_stream_tensor :=
  match tensors with
  | [] => None
  | t :: tensors => if bool_decide (pn_name t = name) then Some t else find_tensor name tensors
  end.

Section fills.
Context {S : Type} `{Mmap, BinarySearch, LayoutDocuments, Sink : FillSink S} (CATALOG : list (list byte * list byte)).

(** [fill_slices] and [fill_segments]. *)
Definition fill_slices (slices : list (list byte)) (source_bytes : Z) (spec : fill_spec) (sink : S)
  : result py_error (py_fill_stats * S) :=
  let! elements := shape_elements (sp_shape spec) ?: PY_FillRefused (FR_ShapeOverflows (sp_where spec)) in
  let! expected := checked_mul elements (sp_element_bytes spec) ?: PY_FillRefused (FR_ExtentOverflows (sp_where spec)) in
  if (elements =? 0) || negb (source_bytes =? expected) then
    Err (PY_FillRefused (FR_SourceMismatch (sp_where spec) source_bytes expected))
  else
    let source := chunked_new slices in
    let? layout := map_err PY_Morphism (arrangement CATALOG (sp_layout spec)) in
    match fill source (TensorFill layout (sp_shape spec) (sp_element_bytes spec) (sp_destination_offset spec)) sink with
    | None => Err PY_Panic
    | Some (Err e) => Err (PY_Morphism e)
    | Some (Ok (stats, sink)) => Ok (stats_into_python stats, sink)
    end.
Definition fill_segments (segments : list source_segment) (source_bytes : Z) (spec : fill_spec) (sink : S)
  : result py_error (py_fill_stats * S) :=
  fill_slices (segment_bytes <$> segments) source_bytes spec sink.

(** [fill_tensor], [fill_address] and [fill_files]. *)
Definition fill_tensor (reader : py_stream_reader) (name : list byte) (destination_offset : Z) (layout : list byte) (sink : S)
  : M disk py_error (py_fill_stats * S) :=
  match find_tensor name (pz_tensors reader) with
  | None => fail (PY_Refused (PR_NoSuchTensor name))
  | Some tensor =>
      match shape_elements (pn_shape tensor) with
      | None => refused (FR_ShapeOverflows name)
      | Some elements =>
          if (elements =? 0) || negb (pn_nbytes tensor mod elements =? 0) then refused (FR_Indivisible name)
          else
            let element_bytes := pn_nbytes tensor / elements in
            let<- segments := source_segments (pz_records reader) (pn_offset tensor) (pn_nbytes tensor) in
            lift (fill_segments segments (pn_nbytes tensor)
                    (FillSpec (pn_shape tensor) element_bytes destination_offset layout name) sink)
      end
  end.
Definition fill_address (m : memory) (source_ptr source_bytes : Z) (spec : fill_spec) (sink : S)
  : result py_error (py_fill_stats * S) :=
  if source_ptr =? 0 then Err (PY_FillRefused FR_NullSource)
  else fill_slices [mem_read m source_ptr source_bytes] source_bytes spec sink.
Definition fill_files `{LinkTargets} (records : list (option (list byte) * Z * Z)) (spec : fill_spec) (sink : S)
  : M files py_error (py_fill_stats * S) :=
  let<- loop := file_segments [] 0 records in lift (fill_segments loop.1 loop.2 spec sink).
End fills.

(** ** The stream reader *)

(** [PyBuffer<u8>], and [writable_span]: the address of its first byte. *)
Record py_buffer : Type := PyBuffer { pb_readonly : bool; pb_contiguous : bool; pb_len : Z; pb_ptr : Z }.
Definition writable_span (b : py_buffer) (length : Z) : result py_error Z :=
  if pb_readonly b then Err (PY_Refused PR_ReadOnlyBuffer)
  else if negb (pb_contiguous b) then Err (PY_Refused PR_NotContiguous)
  else if pb_len b <? length then Err (PY_Refused (PR_BufferTooSmall (pb_len b) length))
  else Ok (pb_ptr b).

(** What a call that fails midway leaves of the range it was writing. *)
Class Torn : Type := {
  torn : memory -> Z -> Z -> memory;
  torn_outside m at_ n a : ~ (at_ <= a < at_ + n) -> torn m at_ n a = m a
}.

Section reader.
Context `{ShortReads, Allocator, HeaderJson, EntrySort, Torn}.

(** [TensorStreamReader.new]: the tensors in the order of their offsets.  The
    planner's buffers are at [scratch]. *)
Definition stream_tensor (t : inventory_tensor) : py_stream_tensor :=
  PyStreamTensor (it_name t) (it_dtype t) (it_shape t) (it_offset t) (it_length t).
Definition by_offset (a b : inventory_tensor) : comparison := Z.compare (it_offset a) (it_offset b).
Definition py_stream_new (linux : bool) (scratch : Z) (records : list py_file_record) (direct : bool)
  : M disk py_error py_stream_reader :=
  let<- records := lift (try_map to_core records) in
  let mode := if direct then Direct else Buffered in
  let<- reader := lift (map_err PY_Os (stream_reader_new linux records mode)) in
  let<- found := raising PY_Plan (inventory (H := stream_byte_source records mode scratch)) in
  match found with
  | None => fail (PY_Refused PR_NotAContainer)
  | Some inventory =>
      let tensors := sort_by by_offset (inv_tensors inventory) in
      ret (PyTensorStreamReader records reader (planner_as_str (format_planner_id (ti_format inventory)))
             (stream_tensor <$> tensors))
  end.

(** [readinto] and [read_tensor_into], over the caller's memory. *)
Definition readinto (reader : py_stream_reader) (offset length : Z) (buffer : py_buffer) : M (disk * memory) py_error Z := fun dm =>
  let (d, m) := dm in
  match writable_span buffer length with
  | Err e => (Err e, (d, m))
  | Ok destination =>
      match stream_read (pz_reader reader) destination offset length d with
      | (Err e, d) => (Err (PY_Os e), (d, torn m destination length))
      | (Ok bytes, d) => (Ok length, (d, mem_write m destination bytes))
      end
  end.
Definition read_tensor_into (reader : py_stream_reader) (name : list byte) (buffer : py_buffer) : M (disk * memory) py_error Z :=
  match find_tensor name (pz_tensors reader) with
  | None => fail (PY_Refused (PR_NoSuchTensor name))
  | Some t => readinto reader (pn_offset t) (pn_nbytes t) buffer
  end.
End reader.

(** ** The host and device clients *)

Section clients.
Context `{Mmap, BinarySearch, LayoutDocuments, Torn} (CATALOG : list (list byte * list byte)).

(** A fill through a sink of the caller's memory.  Only [layout_fill::fill] writes,
    so an error that is not its own leaves the memory as it was. *)
Definition into_memory {X} (sink : buffer_sink) (m : buffer_sink -> M X py_error (py_fill_stats * buffer_sink))
  : X -> result py_error py_fill_stats * (X * memory) := fun x =>
  match m sink x with
  | (Ok (stats, sink), x) => (Ok stats, (x, bs_memory sink))
  | (Err e, x) =>
      (Err e, (x, match e with
        | PY_Morphism _ | PY_Panic => torn (bs_memory sink) (bs_address sink) (bs_capacity sink)
        | _ => bs_memory sink
        end))
  end.

(** [TensorStreamReader.fill_host_into] and [fill_host_address]. *)
Definition fill_host_into (reader : py_stream_reader) (name : list byte) (buffer : py_buffer) (destination_offset : Z) (layout : list byte)
  : M (disk * memory) py_error py_fill_stats := fun dm =>
  match writable_span buffer 0 with
  | Err e => (Err e, dm)
  | Ok address =>
      into_memory (BufferSink address (pb_len buffer) dm.2) (fill_tensor CATALOG reader name destination_offset layout) dm.1
  end.
Definition fill_host_address (reader : py_stream_reader) (name : list byte) (destination_ptr destination_bytes destination_offset : Z)
    (layout : list byte) : M (disk * memory) py_error py_fill_stats := fun dm =>
  if destination_ptr =? 0 then (Err (PY_FillRefused FR_NullDestination), dm)
  else
    into_memory (BufferSink destination_ptr destination_bytes dm.2) (fill_tensor CATALOG reader name destination_offset layout) dm.1.

(** [HostFillClient.fill_address] and [fill_files]. *)
Definition host_fill_address (source_ptr source_bytes destination_ptr destination_bytes : Z) (shape : list Z)
    (element_bytes destination_offset : Z) (layout : list byte) : M (unit * memory) py_error py_fill_stats := fun um =>
  if destination_ptr =? 0 then (Err (PY_FillRefused FR_NullDestination), um)
  else
    into_memory (BufferSink destination_ptr destination_bytes um.2) (fun sink => lift (fill_address CATALOG um.2 source_ptr source_bytes
      (FillSpec shape element_bytes destination_offset layout (bstr "source address")) sink)) um.1.
Definition host_fill_files `{LinkTargets} (records : list (option (list byte) * Z * Z)) (destination_ptr destination_bytes : Z)
    (shape : list Z) (element_bytes destination_offset : Z) (layout : list byte) : M (files * memory) py_error py_fill_stats := fun fm =>
  if destination_ptr =? 0 then (Err (PY_FillRefused FR_NullDestination), fm)
  else
    into_memory (BufferSink destination_ptr destination_bytes fm.2)
      (fill_files CATALOG records (FillSpec shape element_bytes destination_offset layout (bstr "source segments"))) fm.1.

(** A device sink that remembers a commit that failed, so that what the failure
    leaves of it can be looked at. *)
Context {D : Type} `{CudaDriver D}.
Record cuda_job : Type := CudaJob { cj_cuda : cuda D; cj_failed : option Morphism.layout_error }.
#[export] Instance job_fill_sink : FillSink cuda_job := {|
  staging bytes device_offset j :=
    let* lent := cuda_staging bytes device_offset (cj_cuda j) in
    Some (let? (view, write_back) := lent in Ok (view, fun written => CudaJob (write_back written) None));
  commit j := let (r, c) := cuda_commit (cj_cuda j) in Ok (CudaJob c (match r with Ok _ => None | Err e => Some e end))
|}.

(** [CudaFillClient]: the sink behind its mutex. *)
Record cuda_client : Type := CudaFillClient { cc_cuda : cuda D; cc_poisoned : bool }.
Definition client_new (staging_bytes device : Z) : M D py_error cuda_sink :=
  if staging_bytes =? 0 then refused FR_NoStaging
  else
    raising PY_Morphism (bind_device device);;;
    raising PY_Morphism (cuda_new 0 0 staging_bytes).

(** What the three fills begin with: the mutex taken, the slab grown and the sink
    pointed at the destination; and how they end: a panic poisons the mutex, and a
    refusal comes before anything is staged ([refused_unstaged] below). *)
Definition client_ready (destination_ptr destination_bytes : Z) : M cuda_client py_error unit := fun k =>
  if destination_ptr =? 0 then (Err (PY_FillRefused FR_NullDestination), k)
  else if cc_poisoned k then (Err (PY_FillRefused FR_Poisoned), k)
  else
    let (r, c) := raising PY_Morphism (ensure_capacity destination_bytes;;; retarget destination_ptr destination_bytes) (cc_cuda k) in
    (r, CudaFillClient c false).
Definition client_done {X} (m : M X py_error (py_fill_stats * cuda_job)) (x : X) (k : cuda_client)
  : result py_error py_fill_stats * (X * cuda_client) :=
  match m x with
  | (Ok (stats, CudaJob c None), x) => (Ok stats, (x, CudaFillClient c false))
  | (Ok (_, CudaJob c (Some e)), x) => (Err (PY_Morphism e), (x, CudaFillClient c false))
  | (Err PY_Panic, x) => (Err PY_Panic, (x, CudaFillClient (cc_cuda k) true))
  | (Err e, x) => (Err e, (x, k))
  end.
Definition with_client {X} (destination_ptr destination_bytes : Z) (m : cuda_job -> M X py_error (py_fill_stats * cuda_job))
  : M (X * cuda_client) py_error py_fill_stats := fun xk =>
  let (x, k) := xk in
  match client_ready destination_ptr destination_bytes k with
  | (Err e, k) => (Err e, (x, k))
  | (Ok _, k) => client_done (m (CudaJob (cc_cuda k) None)) x k
  end.

(** [CudaFillClient.fill], [fill_address] and [fill_files]. *)
Definition client_fill (reader : py_stream_reader) (name : list byte) (destination_ptr destination_bytes destination_offset : Z)
    (layout : list byte) : M (disk * cuda_client) py_error py_fill_stats :=
  with_client destination_ptr destination_bytes (fill_tensor CATALOG reader name destination_offset layout).
Definition client_fill_address (m : memory) (source_ptr source_bytes destination_ptr destination_bytes : Z) (shape : list Z)
    (element_bytes destination_offset : Z) (layout : list byte) : M (unit * cuda_client) py_error py_fill_stats :=
  with_client destination_ptr destination_bytes (fun job => lift (fill_address CATALOG m source_ptr source_bytes
    (FillSpec shape element_bytes destination_offset layout (bstr "source address")) job)).
Definition client_fill_files `{LinkTargets} (records : list (option (list byte) * Z * Z)) (destination_ptr destination_bytes : Z)
    (shape : list Z) (element_bytes destination_offset : Z) (layout : list byte) : M (files * cuda_client) py_error py_fill_stats :=
  with_client destination_ptr destination_bytes
    (fill_files CATALOG records (FillSpec shape element_bytes destination_offset layout (bstr "source segments"))).
End clients.
Arguments cuda_job D : clear implicits.
Arguments cuda_client D : clear implicits.

(** ** The segments hold the tensor's bytes *)

Lemma slice_app_parts {A} (a b : list A) i j :
  0 <= i <= zlen a -> i <= j ->
  slice (a ++ b) i j = slice a i (Z.min j (zlen a)) ++ slice b 0 (Z.max 0 (j - zlen a)).
Proof.
  unfold slice, zlen. intros Hi Hj. rewrite drop_app_le by lia. rewrite take_app. rewrite length_drop. cbn. rewrite drop_0. f_equal.
  - destruct (Z.le_gt_cases j (Z.of_nat (length a))).
    + by rewrite Z.min_l by lia.
    + rewrite Z.min_r by lia. rewrite !take_ge by (rewrite length_drop; lia). done.
  - f_equal. lia.
Qed.
Lemma slice_past {A} (a b : list A) i j : zlen a <= i <= j -> slice (a ++ b) i j = slice b (i - zlen a) (j - zlen a).
Proof.
  unfold slice, zlen. intros Hi. rewrite drop_app_ge by lia. f_equal; [lia|]. f_equal. lia.
Qed.

Section segments_facts.
Context `{Mmap} (O : gmap (list byte) node).

Lemma a_unmap_err {E F A : Type} (f : E -> F) (m : M disk E A) a : answers O (map_err_m f m) (Ok a) -> answers O m (Ok a).
Proof.
  intros Hm d Hd. destruct (Hm d Hd) as [Ho Hq Hl Ha]. unfold map_err_m in *. destruct (m d) as [r d1]. simpl in *.
  constructor; [done..|]. simpl. destruct r as [b|e]; simpl in *.
  - destruct Ha as [[= ->]|[[? ?] _]]; [by left|done].
  - destruct Ha as [?|[_ Hn]]; [done|]. right. split; [by exists e|done].
Qed.
Lemma a_raising {E A : Type} (f : E -> py_error) (m : M disk E A) a : answers O m (Ok a) -> answers O (raising f m) (Ok a).
Proof. intros Hm. exact (a_map_err O f m (Ok a) Hm). Qed.
Lemma a_data_segment digest file ro within count :
  O !! digest = Some (Regular file ro) -> file <> [] -> 0 <= within -> 0 <= count -> within + count <= zlen file -> zlen file < U64 ->
  answers O (data_segment digest within count) (Ok (SegData file within (within + count))).
Proof.
  intros Hf Hne Hw Hc Hle Hu. unfold data_segment. eapply a_bind.
  { apply a_raising. eapply a_unmap_err. pose proof (a_open_object O digest) as Ha. rewrite Hf in Ha. exact Ha. }
  eapply (a_bind _ _ _ file). { apply a_raising. apply a_query. intros d _. unfold map_bytes. by destruct file. }
  unfold checked_add. replace (within + count <? U64) with true by lia. replace (zlen file <? within + count) with false by lia. apply a_lift.
Qed.

Lemma a_segments offset finish position covered segs rs :
  run_resident O rs -> Forall (fun r => 0 < record_length r) rs ->
  (forall digest bytes ro, O !! digest = Some (Regular bytes ro) -> zlen bytes < U64) ->
  0 <= position -> position + sum_lengths rs < U64 -> 0 <= offset <= finish -> 0 <= covered ->
  covered + sum_lengths rs < U64 ->
  exists more, answers O (segments_loop offset finish position covered segs rs)
      (Ok (segs ++ more, covered + zlen (mjoin (segment_bytes <$> more)))) /\
    mjoin (segment_bytes <$> more) = slice (run_bytes O rs) (Z.max 0 (offset - position)) (Z.max 0 (finish - position)).
Proof.
  intros Hres Hpos Hsmall. revert position covered segs. induction rs as [|r rs IH]; intros position covered segs Hp Hs Ho Hc Hcs.
  { exists []. rewrite app_nil_r. change (zlen (mjoin (segment_bytes <$> []))) with 0. rewrite Z.add_0_r. split; [apply a_lift|].
    cbn. unfold slice. by rewrite drop_nil, take_nil. }
  inversion_clear Hres as [|?? Hr1 Hr2]. inversion_clear Hpos as [|?? Hl1 Hl2]. specialize (IH Hr2 Hl2).
  assert (Forall (fun r => 0 <= record_length r) rs) as Hnn by (eapply Forall_impl; [exact Hl2|]; simpl; lia).
  pose proof (sum_lengths_pos _ Hnn). change (sum_lengths (r :: rs)) with (record_length r + sum_lengths rs) in *.
  set (n := record_length r) in *. pose proof (zlen_record_bytes O r ltac:(fold n; lia)) as Hz. fold n in Hz.
  assert (run_bytes O (r :: rs) = record_bytes O r ++ run_bytes O rs) as -> by done.
  cbn [segments_loop]. fold n. rewrite wadd_small by lia.
  destruct (Z.leb_spec (position + n) offset).
  { destruct (IH (position + n) covered segs) as (more & Ha & Hb); [lia..|]. exists more. split; [done|]. rewrite Hb.
    rewrite !Z.max_r by lia. rewrite slice_past by lia. f_equal; lia. }
  destruct (Z.leb_spec finish position).
  { exists []. rewrite app_nil_r. change (zlen (mjoin (segment_bytes <$> []))) with 0. rewrite Z.add_0_r. split; [apply a_lift|].
    rewrite (Z.max_l 0 (finish - position)) by lia. unfold slice. by replace (Z.to_nat (0 - Z.max 0 (offset - position))) with 0%nat by lia. }
  cbv zeta. set (from := Z.max offset position). set (to := Z.min finish (position + n)).
  rewrite (wsub_small from), (wsub_small to) by lia.
  assert (exists seg, answers O (match r with Hole _ => ret (SegHole (replicate (Z.to_nat (to - from)) Byte.x00))
      | Data digest _ => data_segment digest (from - position) (to - from) end) (Ok seg) /\
    segment_bytes seg = slice (record_bytes O r) (from - position) (to - position)) as (seg & Hseg & Hbytes).
  { destruct r as [digest m|m]; cbn [record_length] in *.
    - destruct Hr1 as (file & ro & Hf & Hm). eexists. split.
      + eapply a_data_segment; [exact Hf| |lia|lia|lia|by eapply Hsmall]. intros ->. change (zlen []) with 0 in Hm. lia.
      + cbn [segment_bytes]. unfold record_bytes. rewrite Hf. unfold slice, zlen in *. rewrite resize_le by lia.
        rewrite skipn_firstn_comm, firstn_firstn. f_equal. lia.
    - eexists. split; [apply a_lift|]. cbn [segment_bytes record_bytes]. unfold slice. rewrite drop_replicate, take_replicate.
      f_equal. lia. }
  destruct (IH (position + n) (covered + (to - from)) (segs ++ [seg])) as (more & Ha & Hb); [lia..|].
  exists (seg :: more). rewrite fmap_cons, mjoin_cons, zlen_app, Hbytes, slice_length by lia. split.
  - rewrite wadd_small by lia. eapply a_bind; [exact Hseg|]. rewrite <-app_assoc in Ha. cbn [app] in Ha.
    replace (covered + (to - position - (from - position) + zlen (mjoin (segment_bytes <$> more))))
      with (covered + (to - from) + zlen (mjoin (segment_bytes <$> more))) by lia. exact Ha.
  - rewrite Hb. rewrite (Z.max_l 0 (offset - (position + n))) by lia. rewrite (slice_app_parts (record_bytes O r)) by lia.
    f_equal; [f_equal; lia|f_equal; lia].
Qed.

(** A tensor inside a resident run is mapped whole. *)
Lemma a_source_segments rs offset length :
  run_resident O rs -> Forall (fun r => 0 < record_length r) rs ->
  (forall digest bytes ro, O !! digest = Some (Regular bytes ro) -> zlen bytes < U64) ->
  0 <= offset -> 0 <= length -> offset + length <= sum_lengths rs -> sum_lengths rs < U64 ->
  exists segs, answers O (source_segments rs offset length) (Ok segs) /\
    mjoin (segment_bytes <$> segs) = slice (run_bytes O rs) offset (offset + length).
Proof.
  intros Hres Hpos Hsmall Ho Hl Hle Hu. destruct (a_segments offset (offset + length) 0 0 [] rs) as (segs & Ha & Hb); [done..|lia|lia|lia|lia|lia|].
  rewrite !Z.sub_0_r, !Z.max_r in Hb by lia. exists segs. split; [|done]. unfold source_segments, checked_add.
  replace (offset + length <? U64) with true by lia. eapply a_bind; [exact Ha|]. cbn [fst snd app].
  assert (Forall (fun r => 0 <= record_length r) rs) as Hnn by (eapply Forall_impl; [exact Hpos|]; simpl; lia).
  rewrite Hb, slice_length by (rewrite ?zlen_run_bytes by done; lia).
  replace (0 + (offset + length - offset) =? length) with true by lia. apply a_lift.
Qed.
End segments_facts.

(** ** Memory *)

Lemma zlen_mem_read m at_ n : 0 <= n -> zlen (mem_read m at_ n) = n.
Proof. intros Hn. unfold mem_read. rewrite zlen_fmap. unfold zlen. rewrite length_seqZ. lia. Qed.
Lemma mem_write_in m at_ bytes i b : bytes !! i = Some b -> mem_write m at_ bytes (at_ + Z.of_nat i) = b.
Proof.
  intros Hb. unfold mem_write. destruct (Z.leb_spec at_ (at_ + Z.of_nat i)); [|lia].
  replace (Z.to_nat (at_ + Z.of_nat i - at_)) with i by lia. by rewrite Hb.
Qed.
Lemma mem_write_out m at_ bytes a : ~ (at_ <= a < at_ + zlen bytes) -> mem_write m at_ bytes a = m a.
Proof.
  intros Ha. unfold mem_write. destruct (Z.leb_spec at_ a); [|done]. rewrite lookup_ge_None_2; [done|]. unfold zlen in Ha. lia.
Qed.

(** ** What a fill moves *)

Lemma shape_elements_prod shape :
  Forall (fun d => 0 < d) shape -> prodZ shape < U64 -> shape_elements shape = Some (prodZ shape).
Proof.
  intros Hp Hu. unfold shape_elements. enough (forall a, 0 < a -> a * prodZ shape < U64 ->
    foldl (fun total dim => let* total := total in checked_mul total dim) (Some a) shape = Some (a * prodZ shape)) as He.
  { rewrite He by lia. f_equal. lia. }
  clear Hu. induction Hp as [|d shape Hd Hp IH]; intros a Ha Hu; [change (prodZ []) with 1; by rewrite Z.mul_1_r|]. change (prodZ (d :: shape)) with (d * prodZ shape) in *.
  assert (0 < prodZ shape) by (apply prodZ_pos; done).
  cbn [foldl]. unfold checked_mul at 2. replace (a * d <? U64) with true by nia. rewrite IH by nia. f_equal. lia.
Qed.

Section fill_facts.
Context `{Mmap, BinarySearch, LayoutDocuments} (CATALOG : list (list byte * list byte)).

(** A tensor of a container whose objects are there, an arrangement the catalog
    ratifies, and the plan of the one for the other. *)
Record fillable (O : gmap (list byte) node) (reader : py_stream_reader) (name layout : list byte) (t : py_stream_tensor)
    (m : layout_morphism) (p : layout_plan) (el : Z) : Prop := {
  fl_find : find_tensor name (pz_tensors reader) = Some t;
  fl_resident : run_resident O (pz_records reader);
  fl_positive : Forall (fun r => 0 < record_length r) (pz_records reader);
  fl_fits : sum_lengths (pz_records reader) < U64;
  fl_small : forall digest bytes ro, O !! digest = Some (Regular bytes ro) -> zlen bytes < U64;
  fl_offset : 0 <= pn_offset t;
  fl_inside : pn_offset t + pn_nbytes t <= sum_lengths (pz_records reader);
  fl_arrangement : arrangement CATALOG layout = Ok m;
  fl_ratified : lm_candidate m = false;
  fl_planned : planned m (pn_shape t) p;
  fl_element : 0 < el;
  fl_nbytes : pn_nbytes t = lp_source_elements p * el;
  fl_dest : lp_dest_elements p * el < U64
}.
(** The tensor's bytes in the file. *)
Definition tensor_bytes (O : gmap (list byte) node) (reader : py_stream_reader) (t : py_stream_tensor) : list byte :=
  slice (run_bytes O (pz_records reader)) (pn_offset t) (pn_offset t + pn_nbytes t).

Lemma planned_elements m shape p : planned m shape p -> shape_elements shape = Some (lp_source_elements p) /\ 0 < lp_source_elements p.
Proof.
  intros Hpl. destruct (planned_wf _ _ _ Hpl) as (gs & Hwf & Hsh). pose proof (elements_le _ _ Hwf) as He. rewrite (pw_source _ _ Hwf), Hsh in *.
  assert (Forall (fun d => 0 < d) shape) as Hp.
  { pose proof (pw_fit _ _ Hwf) as Hf. rewrite Hsh in Hf. clear -Hf. induction Hf; constructor; [lia|done]. }
  pose proof (pw_fits _ _ Hwf) as Hu. rewrite <-(pw_dest _ _ Hwf) in Hu. split; [apply shape_elements_prod; [done|lia]|]. by apply prodZ_pos.
Qed.

(** What a fill puts in its staging. *)
Lemma zlen_image O reader name layout t m p el :
  fillable O reader name layout t m p el ->
  zlen (arranged p (tensor_bytes O reader t) el) = lp_dest_elements p * el /\ 0 < lp_dest_elements p * el.
Proof.
  intros []. destruct (planned_wf _ _ _ fl_planned0) as (gs & Hwf & _). pose proof (elements_le _ _ Hwf) as He.
  destruct (planned_elements _ _ _ fl_planned0) as [_ Hpos]. split; [|nia]. eapply zlen_arranged; [done|lia|]. unfold tensor_bytes.
  assert (Forall (fun r => 0 <= record_length r) (pz_records reader)) as Hnn by (eapply Forall_impl; [exact fl_positive0|]; simpl; lia).
  rewrite slice_length; [lia|nia|]. rewrite zlen_run_bytes by done. lia.
Qed.

Context {S : Type} `{Sink : FillSink S}.

Lemma fill_slices_arranges slices spec m p buffer write_back (sink : S) :
  arrangement CATALOG (sp_layout spec) = Ok m -> lm_candidate m = false -> planned m (sp_shape spec) p ->
  0 < sp_element_bytes spec -> lp_dest_elements p * sp_element_bytes spec < U64 ->
  zlen (mjoin slices) = lp_source_elements p * sp_element_bytes spec ->
  staging (lp_dest_elements p * sp_element_bytes spec) (sp_destination_offset spec) sink = Some (Ok (buffer, write_back)) ->
  zlen buffer = lp_dest_elements p * sp_element_bytes spec ->
  exists stats, pq_source_bytes stats = lp_source_elements p * sp_element_bytes spec /\
    fill_slices CATALOG slices (lp_source_elements p * sp_element_bytes spec) spec sink =
    match commit (write_back (arranged p (mjoin slices) (sp_element_bytes spec))) with
    | Ok sink => Ok (stats, sink)
    | Err e => Err (PY_Morphism e)
    end.
Proof.
  intros Ha Hc Hpl Hel Hd Hs Hst Hb. destruct (planned_elements _ _ _ Hpl) as [Hse Hpos].
  destruct (planned_wf _ _ _ Hpl) as (gs & Hwf & _). pose proof (elements_le _ _ Hwf) as He.
  destruct (fill_arranges m (sp_shape spec) p (sp_element_bytes spec) (sp_destination_offset spec) slices sink buffer write_back)
    as (runs & touched & _ & Hf); [done..|]. unfold fill_slices. rewrite Hse. unfold checked_mul.
  replace (lp_source_elements p * sp_element_bytes spec <? U64) with true by nia.
  replace (lp_source_elements p =? 0) with false by lia. rewrite Z.eqb_refl. cbn [orb negb]. rewrite Ha. cbn [map_err]. rewrite Hf.
  eexists (stats_into_python (FillStats _ _ _ runs touched)). split; [|by destruct (commit _)]. reflexivity.
Qed.

Lemma a_fill_tensor O reader name layout t m p el offset buffer write_back (sink : S) :
  fillable O reader name layout t m p el ->
  staging (lp_dest_elements p * el) offset sink = Some (Ok (buffer, write_back)) -> zlen buffer = lp_dest_elements p * el ->
  exists stats, pq_source_bytes stats = pn_nbytes t /\
    answers O (fill_tensor CATALOG reader name offset layout sink)
      match commit (write_back (arranged p (tensor_bytes O reader t) el)) with
      | Ok sink => Ok (stats, sink)
      | Err e => Err (PY_Morphism e)
      end.
Proof.
  intros [] Hst Hb. destruct (planned_elements _ _ _ fl_planned0) as [Hse Hpos].
  assert (0 <= pn_nbytes t) by nia.
  destruct (a_source_segments O (pz_records reader) (pn_offset t) (pn_nbytes t)) as (segs & Ha & Hbytes); [done..|].
  assert (zlen (mjoin (segment_bytes <$> segs)) = lp_source_elements p * el) as Hz.
  { assert (Forall (fun r => 0 <= record_length r) (pz_records reader)) as Hnn by (eapply Forall_impl; [exact fl_positive0|]; simpl; lia).
    rewrite Hbytes, slice_length; [lia|lia|]. rewrite zlen_run_bytes by done. lia. }
  destruct (fill_slices_arranges (segment_bytes <$> segs) (FillSpec (pn_shape t) el offset layout name) m p buffer write_back sink)
    as (stats & Hq & Hf); [done..|]. cbn [sp_shape sp_element_bytes sp_destination_offset sp_layout] in *.
  exists stats. split; [by rewrite Hq|]. unfold fill_tensor. rewrite fl_find0, Hse.
  replace (lp_source_elements p =? 0) with false by lia. rewrite fl_nbytes0, Z.mul_comm, Z.mod_mul, Z.div_mul by lia. cbn [orb negb Z.eqb].
  rewrite Z.mul_comm, <-fl_nbytes0. eapply a_bind; [exact Ha|]. unfold fill_segments, tensor_bytes. rewrite <-Hbytes, <-Hf, fl_nbytes0. apply a_lift.
Qed.
End fill_facts.

(** ** Filling host memory *)

Section host.
Context `{Mmap, BinarySearch, LayoutDocuments, Torn} (CATALOG : list (list byte * list byte)).

(** C12: A tensor filled into a Python buffer is the committed one, arranged.  From
    the records of a container whose objects are there, for an arrangement of the
    catalog and a buffer that holds the result at the offset asked for: the call
    leaves there the tensor's bytes, as its records and holes spell them, in the
    order the arrangement declares, padding zeroed, and changes nothing else in the
    caller's memory or in the store.  It fails only where the disk does, and then
    writes nothing outside the buffer. *)
Theorem fill_host_correct reader name buffer offset layout d mem t m p el :
  fillable CATALOG (objects d) reader name layout t m p el ->
  pb_readonly buffer = false -> pb_contiguous buffer = true -> 0 < pb_ptr buffer -> pb_ptr buffer + pb_len buffer <= U64 ->
  0 <= offset -> offset + lp_dest_elements p * el <= pb_len buffer ->
  let '(r, (d', mem')) := fill_host_into CATALOG reader name buffer offset layout (d, mem) in
  let at_ := pb_ptr buffer + offset in
  objects d' = objects d /\
  match r with
  | Ok stats =>
      pq_source_bytes stats = pn_nbytes t /\
      (forall i b, arranged p (tensor_bytes (objects d) reader t) el !! i = Some b -> mem' (at_ + Z.of_nat i) = b) /\
      (forall a, ~ (at_ <= a < at_ + lp_dest_elements p * el) -> mem' a = mem a)
  | Err _ => ~ quiet_disk d /\ forall a, ~ (pb_ptr buffer <= a < pb_ptr buffer + pb_len buffer) -> mem' a = mem a
  end.
Proof.
  intros Hf Hro Hc Hptr Hlen Ho Hle. destruct (zlen_image _ _ _ _ _ _ _ _ _ Hf) as [Harr Hpos]. set (n := lp_dest_elements p * el) in *.
  set (sink := BufferSink (pb_ptr buffer) (pb_len buffer) mem).
  destruct (a_fill_tensor CATALOG (objects d) reader name layout t m p el offset (mem_read mem (pb_ptr buffer + offset) n)
    (fun written => BufferSink (pb_ptr buffer) (pb_len buffer) (mem_write mem (pb_ptr buffer + offset) written)) sink Hf) as (stats & Hq & Ha).
  { unfold staging, buffer_fill_sink, buffer_staging, checked_add. fold n. replace (offset + n <? U64) with true by lia.
    cbn [bs_capacity bs_address bs_memory sink]. replace (pb_len buffer <? offset + n) with false by lia. by rewrite wadd_small by lia. }
  { by apply zlen_mem_read; lia. }
  unfold fill_host_into, writable_span. rewrite Hro, Hc. cbn [negb]. replace (pb_len buffer <? 0) with false by lia.
  cbn [fst snd]. unfold into_memory. fold sink. destruct (Ha d eq_refl) as [Hobj _ _ Hans].
  destruct (fill_tensor CATALOG reader name offset layout sink d) as [r d']. cbn [fst snd] in *.
  destruct Hans as [->|[[e ->] Hnq]]; cbn [commit buffer_fill_sink buffer_commit bs_memory].
  - split; [done|]. split; [done|]. split; [intros i b; apply mem_write_in|]. intros a Hout. apply mem_write_out. by rewrite Harr.
  - split; [done|]. split; [done|]. intros a Hout. destruct e; try done; by rewrite torn_outside.
Qed.
End host.

(** ** Streaming a tensor *)

Section streaming.
Context `{ShortReads, Torn, Allocator, HeaderJson, EntrySort, Sha256}.

(** The reader's tensors are those of the file, in the order of their offsets. *)
Theorem stream_tensors_in_order linux scratch records direct d :
  run_fits records -> Forall record_digest_ok records -> run_resident (objects d) records -> quiet_disk d ->
  (forall digest bytes ro, objects d !! digest = Some (Regular bytes ro) -> zlen bytes < U64) ->
  (direct = true -> linux = true) ->
  let file := run_bytes (objects d) records in
  let '(r, d') := py_stream_new linux scratch (from_core <$> records) direct d in
  objects d' = objects d /\
  match inventory file with
  | (Ok (Some inv), _) => exists reader, r = Ok reader /\ pz_records reader = records /\
      pz_tensors reader ≡ₚ stream_tensor <$> inv_tensors inv /\
      Sorted.StronglySorted Z.le (pn_offset <$> pz_tensors reader)
  | (Ok None, _) => r = Err (PY_Refused PR_NotAContainer)
  | (Err e, _) => r = Err (PY_Plan e)
  end.
Proof.
  intros Hfit Hdig Hres Hq Hsmall Hlin. cbv zeta. unfold py_stream_new. rewrite records_cross by done.
  set (mode := if direct then Direct else Buffered).
  assert (exists reader, stream_reader_new linux records mode = Ok reader) as [reader Hr].
  { unfold stream_reader_new. replace (bool_decide (mode = Direct) && negb linux) with false; [by destruct (foldl _ _ _); eexists|].
    unfold mode. destruct direct; [rewrite Hlin by done|]; done. }
  unfold bind at 1, lift at 1. unfold bind at 1, lift at 1. rewrite Hr. cbn [map_err]. unfold bind at 1, raising, map_err_m.
  destruct (stream_inventory_mirrors (objects d) records mode scratch Hfit Hres Hsmall True) as [_ Hm].
  destruct (Hm d (run_bytes (objects d) records)) as [[]|[(e & _ & He)|[Heq Hst]]]; [by split_and!| |].
  { destruct He as (io & _ & Hn). by destruct Hn. }
  destruct (inventory (H := stream_byte_source records mode scratch) d) as [r1 d1], (inventory (run_bytes (objects d) records)) as [r2 b2].
  cbn [fst snd] in *. subst r2. destruct Hst as (Ho & _ & _).
  destruct r1 as [[inv|]|e]; [|by split..]. split; [done|]. eexists. split; [reflexivity|]. cbn [pz_records pz_tensors]. split; [done|]. split.
  - by rewrite sort_by_perm.
  - rewrite <-list_fmap_compose. assert (Sorted.StronglySorted (fun a b => by_offset a b <> Gt) (sort_by by_offset (inv_tensors inv))) as Hs.
    { apply sort_by_sorted; unfold by_offset.
      - intros x y. rewrite Z.compare_gt_iff, Z.compare_lt_iff. lia.
      - intros x y z Hxy Hyz. rewrite Z.compare_gt_iff in *. lia. }
    clear -Hs. induction Hs as [|x l Hs IH Hf]; [constructor|]. cbn. constructor; [done|]. apply Forall_fmap. eapply Forall_impl; [exact Hf|].
    intros y Hy. unfold by_offset in Hy. rewrite Z.compare_gt_iff in Hy. cbn. lia.
Qed.
End streaming.

Section readinto.
Context `{ShortReads, Torn}.

(** A tensor read by name lands at the front of the buffer, and nowhere else. *)
Theorem read_tensor_into_correct linux mode reader name buffer t d mem :
  run_fits (pz_records reader) -> stream_reader_new linux (pz_records reader) mode = Ok (pz_reader reader) ->
  (forall digest bytes ro, objects d !! digest = Some (Regular bytes ro) -> zlen bytes < U64) ->
  find_tensor name (pz_tensors reader) = Some t -> 0 <= pn_offset t -> 0 < pn_nbytes t ->
  let '(r, (d', mem')) := read_tensor_into reader name buffer (d, mem) in
  objects d' = objects d /\
  (forall a, ~ (pb_ptr buffer <= a < pb_ptr buffer + pn_nbytes t) -> mem' a = mem a) /\
  forall n, r = Ok n -> n = pn_nbytes t /\ pb_readonly buffer = false /\ pb_contiguous buffer = true /\ n <= pb_len buffer /\
    forall i b, tensor_bytes (objects d) reader t !! i = Some b -> mem' (pb_ptr buffer + Z.of_nat i) = b.
Proof.
  intros Hfit Hnew Hsmall Hfind Ho Hn. unfold read_tensor_into. rewrite Hfind. unfold readinto, writable_span.
  destruct (pb_readonly buffer); [done|]. destruct (pb_contiguous buffer); [|done]. cbn [negb].
  destruct (Z.ltb_spec (pb_len buffer) (pn_nbytes t)); [done|].
  pose proof (stream_read_agrees linux (pz_records reader) mode (pz_reader reader) (pb_ptr buffer) (pn_offset t) (pn_nbytes t) d Hfit Hsmall Hnew Ho Hn) as Hr.
  destruct (stream_read (pz_reader reader) (pb_ptr buffer) (pn_offset t) (pn_nbytes t) d) as [[bytes|e] d'].
  - destruct Hr as (Hobj & Hb & _). destruct (Hb bytes eq_refl) as [Hle ->]. split; [done|]. split.
    + intros a Ha. apply mem_write_out. destruct Hfit as [Hf _]. rewrite slice_length; [lia|lia|]. by rewrite zlen_run_bytes.
    + intros n [= <-]. split_and!; [done..|lia|]. intros i b. apply mem_write_in.
  - destruct Hr as (Hobj & _ & _). split; [done|]. split; [|done]. intros a Ha. by apply torn_outside.
Qed.
End readinto.

(** ** Filling a device *)

Section device.
Context `{Mmap, BinarySearch, LayoutDocuments} (CATALOG : list (list byte * list byte)).
Context {D : Type} `{CudaDriver D}.

(** Where the sink lends its staging, a fill ends in a commit: a refusal comes
    before anything is staged. *)
Lemma refused_unstaged m shape p el offset chunks (j : cuda_job D) e :
  planned m shape p -> lm_candidate m = false -> 0 < el -> lp_dest_elements p * el < U64 ->
  zlen (mjoin chunks) = lp_source_elements p * el ->
  zlen (cs_slab (cu_sink (cj_cuda j))) = cs_staging_bytes (cu_sink (cj_cuda j)) ->
  fill (chunked_new chunks) (TensorFill m shape el offset) j = Some (Err e) ->
  forall view write_back, staging (lp_dest_elements p * el) offset j <> Some (Ok (view, write_back)).
Proof.
  intros Hpl Hc Hel Hd Hs Hslab Hf view write_back Hst.
  destruct (planned_wf _ _ _ Hpl) as (gs & Hwf & _). pose proof (elements_le _ _ Hwf) as He.
  assert (zlen view = lp_dest_elements p * el) as Hv.
  { unfold staging, job_fill_sink, cuda_staging in Hst. destruct (Z.ltb_spec (cs_staging_bytes (cu_sink (cj_cuda j))) (lp_dest_elements p * el)); [done|].
    destruct (checked_add _ _); [|done]. destruct (_ <? _); [done|]. injection Hst as <- _. unfold zlen in *. rewrite length_take. nia. }
  destruct (fill_arranges m shape p el offset chunks j view write_back) as (runs & touched & _ & Hf'); [done..|].
  rewrite Hf' in Hf. unfold commit, job_fill_sink in Hf. by destruct (cuda_commit _).
Qed.

(** A client whose transfer was never completed, or whose fill panicked. *)
Definition closed (k : cuda_client D) : Prop := cc_poisoned k = true \/ cs_staged (cu_sink (cc_cuda k)) <> 0.

(** No fill through it does anything any more, whatever is asked of it. *)
Theorem closed_forever {X} destination_ptr destination_bytes (m : cuda_job D -> M X py_error (py_fill_stats * cuda_job D)) x k :
  closed k -> exists e, with_client destination_ptr destination_bytes m (x, k) = (Err e, (x, k)).
Proof.
  intros Hc. unfold with_client, client_ready. destruct (destination_ptr =? 0); [by eexists|].
  destruct k as [c po]. destruct Hc as [Hp|Hs]; cbn in *; [subst po; by eexists|]. destruct po; [by eexists|]. apply Z.eqb_neq in Hs.
  unfold raising, map_err_m, bind, ensure_capacity, retarget. destruct (_ <=? _); cbv beta iota zeta; rewrite Hs; eexists; reflexivity.
Qed.

(** The client made ready: the slab grown, and the sink pointed at the destination. *)
Lemma client_ready_outcome ptr bytes k :
  cc_poisoned k = false -> sink_ok (cc_cuda k) -> cs_staged (cu_sink (cc_cuda k)) = 0 -> 0 < ptr -> target_ok ptr bytes ->
  let '(r, k1) := client_ready ptr bytes k in
  cc_poisoned k1 = false /\ sink_ok (cc_cuda k1) /\ cs_staged (cu_sink (cc_cuda k1)) = 0 /\
  (forall a, cu_memory (cu_driver (cc_cuda k1)) a = cu_memory (cu_driver (cc_cuda k)) a) /\
  match grown bytes (cc_cuda k) with
  | Some d => r = Ok tt /\ cu_driver (cc_cuda k1) = d /\ cs_base (cu_sink (cc_cuda k1)) = ptr /\
      cs_destination_bytes (cu_sink (cc_cuda k1)) = bytes /\ bytes <= cs_staging_bytes (cu_sink (cc_cuda k1))
  | None => exists e, r = Err e
  end.
Proof.
  intros Hpo Hok Hstaged Hptr Htgt. pose proof Htgt as (_ & [Hb _] & _). unfold client_ready. replace (ptr =? 0) with false by lia. rewrite Hpo.
  destruct (grow_step bytes (cc_cuda k) Hok Hb) as (Hok1 & Hmem & _). pose proof (ensure_capacity_grown bytes (cc_cuda k) Hstaged) as Hg.
  unfold raising, map_err_m, bind. destruct (ensure_capacity bytes (cc_cuda k)) as [r c]. cbn [snd] in *. destruct Hg as [Hs Hg].
  destruct r as [[]|e].
  2: { cbn. destruct (grown bytes (cc_cuda k)); [by destruct Hg|]. split_and!; [done..|by eexists]. }
  unfold retarget. rewrite Hs. cbn.
  destruct (grown bytes (cc_cuda k)) as [d|]; [|by destruct Hg]. destruct Hg as (_ & Hd & Hle).
  split_and!; [done| |done..]. destruct Hok1. by split; cbn.
Qed.

(** A client after a fill that failed: as it was before, or closed. *)
Definition failed_client (k k' : cuda_client D) : Prop :=
  (cc_poisoned k' = false /\ cs_staged (cu_sink (cc_cuda k')) = 0 /\
   forall a, cu_memory (cu_driver (cc_cuda k')) a = cu_memory (cu_driver (cc_cuda k)) a) \/ closed k'.

(** The fill of a client made ready. *)
Lemma filled_client reader name ptr bytes offset layout d k t m p el :
  fillable CATALOG (objects d) reader name layout t m p el ->
  cc_poisoned k = false -> sink_ok (cc_cuda k) -> cs_staged (cu_sink (cc_cuda k)) = 0 ->
  cs_base (cu_sink (cc_cuda k)) = ptr -> cs_destination_bytes (cu_sink (cc_cuda k)) = bytes -> bytes <= cs_staging_bytes (cu_sink (cc_cuda k)) ->
  0 <= offset -> offset + lp_dest_elements p * el <= bytes ->
  let image := arranged p (tensor_bytes (objects d) reader t) el in
  let at_ := ptr + offset in
  let copied := cu_load (cu_driver (cc_cuda k)) = Ok tt /\ (cu_memcpy_htod at_ image (cu_driver (cc_cuda k))).1 = 0 in
  let '(r, (d', k')) := client_done (fill_tensor CATALOG reader name offset layout (CudaJob (cc_cuda k) None)) d k in
  objects d' = objects d /\ sink_ok (cc_cuda k') /\
  (forall a, ~ (at_ <= a < at_ + zlen image) -> cu_memory (cu_driver (cc_cuda k')) a = cu_memory (cu_driver (cc_cuda k)) a) /\
  match r with
  | Ok _ => copied /\ cc_poisoned k' = false /\ cs_staged (cu_sink (cc_cuda k')) = 0 /\ bytes <= cs_staging_bytes (cu_sink (cc_cuda k')) /\
      forall i b, image !! i = Some b -> cu_memory (cu_driver (cc_cuda k')) (at_ + Z.of_nat i) = b
  | Err _ => failed_client k k' /\ (quiet_disk d -> ~ copied /\ closed k')
  end.
Proof.
  intros Hf Hpo Hok Hstaged Hbase Hdest Hslab Ho Hle. destruct (zlen_image _ _ _ _ _ _ _ _ _ Hf) as [Harr Hpos]. cbv zeta.
  set (n := lp_dest_elements p * el) in *. set (image := arranged p (tensor_bytes (objects d) reader t) el) in *. set (c := cc_cuda k) in *.
  pose proof (so_slab _ Hok) as Hsl. pose proof (so_target _ Hok) as Htgt. pose proof Htgt as (_ & [_ Hub] & _).
  destruct (a_fill_tensor CATALOG (objects d) reader name layout t m p el offset (take (Z.to_nat n) (cs_slab (cu_sink c)))
    (fun written => CudaJob (with_sink (fun s => CudaSink (cs_base s) (cs_destination_bytes s) (cs_staging s)
      (written ++ drop (length written) (cs_slab s)) (cs_staging_bytes s) n offset (cs_bytes_to_device s)) c) None)
    (CudaJob c None) Hf) as (stats & _ & Ha).
  { unfold staging, job_fill_sink, cuda_staging. fold n. cbn [cj_cuda]. replace (cs_staging_bytes (cu_sink c) <? n) with false by lia.
    unfold checked_add. replace (offset + n <? U64) with true by lia. by replace (cs_destination_bytes (cu_sink c) <? offset + n) with false by lia. }
  { unfold zlen in *. rewrite length_take. lia. }
  unfold client_done. destruct (Ha d eq_refl) as [Hobj _ _ Hans]. fold image in Hans.
  destruct (fill_tensor CATALOG reader name offset layout (CudaJob c None) d) as [r d']. cbn [fst snd] in *.
  destruct Hans as [Hans|[[e ->] Hnq]].
  - unfold commit, job_fill_sink in Hans. cbn [cj_cuda] in Hans. rewrite <-Harr in Hans.
    pose proof (staged_commit c offset image Htgt ltac:(lia) Ho ltac:(lia)) as Hc. cbv zeta in Hc. rewrite Hbase in Hc.
    destruct (cuda_step_inside c (OStage (zlen image) offset image) Hok) as [Hoks _]; [split_and!; lia|].
    cbn [cuda_step] in Hoks. unfold cuda_staging in Hoks. replace (cs_staging_bytes (cu_sink c) <? zlen image) with false in Hoks by lia.
    unfold checked_add in Hoks. replace (offset + zlen image <? U64) with true in Hoks by lia.
    replace (cs_destination_bytes (cu_sink c) <? offset + zlen image) with false in Hoks by lia.
    pose proof (commit_step _ Hoks) as [Hok' _]. destruct (cuda_commit _) as [rc c'] in Hans, Hc, Hok'. cbn [snd] in Hok'.
    destruct Hc as (Hst & Hout & Hrc). subst r. destruct rc as [u|e]; cbn [cc_cuda cc_poisoned]; (split; [done|]; split; [done|]; split; [done|]).
    + destruct Hrc as (Hcp & Hs0 & Hin). split_and!; [by destruct Hcp..|done|done|lia|done].
    + destruct Hrc as (Hcp & Hs0). assert (closed (CudaFillClient c' false)) as Hcl by (right; cbn; lia). by split; [right|].
  - destruct e; (split; [done|]; split; [done|]; split; [done|]; split; [|done]); first [right; by left|left; by split_and!].
Qed.

(** C25: A tensor filled through the device client, from resident objects, under a
    ratified arrangement, into a range of a destination that has room for it, through a
    client with no transfer pending.  Whatever the disk and the driver do, nothing
    outside that range of the device changes.  A fill that returns has put there the
    tensor as the arrangement declares it, in a slab that was grown to the
    destination where it was too small, and its client is ready for the next.  A fill
    that fails leaves the device as it was and a client ready for the next, or a
    client that refuses every fill after it.  Where the disk serves its reads, the
    fill returns exactly where the driver grows the slab and copies; where it does
    not grow the slab the client is ready for the next, and where it refuses the copy
    the client keeps the transfer and refuses every fill after it. *)
Theorem client_fill_outcome reader name ptr bytes offset layout d k t m p el :
  fillable CATALOG (objects d) reader name layout t m p el ->
  cc_poisoned k = false -> sink_ok (cc_cuda k) -> cs_staged (cu_sink (cc_cuda k)) = 0 ->
  0 < ptr -> target_ok ptr bytes -> 0 <= offset -> offset + lp_dest_elements p * el <= bytes ->
  let image := arranged p (tensor_bytes (objects d) reader t) el in
  let at_ := ptr + offset in
  let '(r, (d', k')) := client_fill CATALOG reader name ptr bytes offset layout (d, k) in
  let ready := cc_poisoned k' = false /\ cs_staged (cu_sink (cc_cuda k')) = 0 in
  let untouched := forall a, cu_memory (cu_driver (cc_cuda k')) a = cu_memory (cu_driver (cc_cuda k)) a in
  let refuses := forall X ptr' bytes' (m' : cuda_job D -> M X py_error (py_fill_stats * cuda_job D)) x,
    exists e, with_client ptr' bytes' m' (x, k') = (Err e, (x, k')) in
  objects d' = objects d /\ sink_ok (cc_cuda k') /\
  (forall a, ~ (at_ <= a < at_ + lp_dest_elements p * el) -> cu_memory (cu_driver (cc_cuda k')) a = cu_memory (cu_driver (cc_cuda k)) a) /\
  match r with
  | Ok _ => ready /\ bytes <= cs_staging_bytes (cu_sink (cc_cuda k')) /\
      forall i b, image !! i = Some b -> cu_memory (cu_driver (cc_cuda k')) (at_ + Z.of_nat i) = b
  | Err _ => (ready /\ untouched) \/ refuses
  end /\
  (quiet_disk d ->
     match grown bytes (cc_cuda k) with
     | None => (exists e, r = Err e) /\ ready /\ untouched
     | Some driver =>
         let copied := cu_load driver = Ok tt /\ (cu_memcpy_htod at_ image driver).1 = 0 in
         (copied -> exists stats, r = Ok stats) /\ (~ copied -> (exists e, r = Err e) /\ refuses)
     end).
Proof.
  intros Hf Hpo Hok Hstaged Hptr Htgt Ho Hle. cbv zeta. destruct (zlen_image _ _ _ _ _ _ _ _ _ Hf) as [Harr Hpos].
  unfold client_fill, with_client. pose proof (client_ready_outcome ptr bytes k Hpo Hok Hstaged Hptr Htgt) as Hr.
  destruct (client_ready ptr bytes k) as [r k1]. destruct Hr as (Hpo1 & Hok1 & Hs1 & Hmem & Hg).
  destruct (grown bytes (cc_cuda k)) as [driver|] eqn:Eg.
  2: { destruct Hg as [e ->]. split_and!; [done|done|done|by left|]. intros _. split_and!; [by eexists|done..]. }
  destruct Hg as (-> & Hdrv & Hbase & Hdest & Hslab).
  pose proof (filled_client reader name ptr bytes offset layout d k1 t m p el Hf Hpo1 Hok1 Hs1 Hbase Hdest Hslab Ho Hle) as Hd.
  cbv zeta in Hd. rewrite Hdrv, Harr in Hd. unfold failed_client in Hd. rewrite Hdrv in Hd.
  destruct (client_done _ d k1) as [r [d' k']]. destruct Hd as (Hobj & Hok' & Hout & Hd). rewrite Hdrv in Hmem.
  split; [done|]. split; [done|]. split; [intros a Ha; by rewrite Hout, Hmem|].
  destruct r as [stats|e]; [destruct Hd as (Hcp & Hp' & Hs' & Hb' & Hin)|destruct Hd as (Hfc & Hq)].
  - split; [done|]. intros _. split; [by eexists|done].
  - split.
    + destruct Hfc as [(? & ? & Hun)|Hcl]; [left; split; [done|]; intros a; by rewrite Hun|right; intros; by apply closed_forever].
    + intros [Hn Hcl]%Hq. split; [done|]. intros _. split; [by eexists|]. intros. by apply closed_forever.
Qed.
End device.

(** ** Runs *)

#[local] Existing Instances front_search by_place toy_cuda.
#[local] Instance whole_maps : Mmap := {| map_empty := Err (OtherIo 22) |}.
#[local] Instance nothing_torn : Torn.
Proof. refine {| torn m _ _ := m |}. done. Defined.

(** A two-by-three tensor that begins in one record and ends in another, with a hole
    between, transposed. *)
Definition CATALOG7 : list (list byte * list byte) := (fun i => (bstr "layout", replicate i POISON)) <$> seq 0 7.
Definition small_tensor : py_stream_tensor := PyStreamTensor (bstr "w") (bstr "I8") [2; 3] 1 6.
Definition small_reader : py_stream_reader :=
  PyTensorStreamReader holed holed_reader (bstr "safetensors-v1") [PyStreamTensor (bstr "v") (bstr "I8") [1] 0 1; small_tensor].
Definition transposed : layout_morphism := axes_record (bstr "torch.transposed") 2 [1; 0]%nat.
Definition small_plan : layout_plan := match lm_plan transposed [2; 3] with Ok p => p | Err _ => LayoutPlan [] [] [] [] [] [] [] [] [] 0 0 false end.
Lemma small_fillable :
  fillable CATALOG7 (objects holding_d) small_reader (bstr "w") (bstr "torch.transposed@1") small_tensor transposed small_plan 1.
Proof.
  assert (run_resident (objects holding_d) holed) as Hres.
  { repeat (apply Forall_cons_2; [first [exact I|exists (bstr "xyz"), true; split; vm_compute; [reflexivity|discriminate]]|]). apply Forall_nil_2. }
  split; cbn [pz_records pz_tensors small_reader].
  - vm_compute. reflexivity.
  - exact Hres.
  - repeat (apply Forall_cons_2; [vm_compute; reflexivity|]). apply Forall_nil_2.
  - vm_compute. reflexivity.
  - intros digest bytes ro Hd. cbn [objects holding_d] in Hd. apply lookup_singleton_Some in Hd as [_ [= <- _]]. vm_compute. reflexivity.
  - vm_compute. discriminate.
  - vm_compute. discriminate.
  - vm_compute. reflexivity.
  - reflexivity.
  - split; [vm_compute; reflexivity| |vm_compute; reflexivity|vm_compute; reflexivity].
    repeat (apply Forall_cons_2; [split; [lia|vm_compute; reflexivity]|]). apply Forall_nil_2.
  - lia.
  - vm_compute. reflexivity.
  - vm_compute. reflexivity.
Qed.

Lemma fill_host_correct_witness :
  exists stats d' mem', fill_host_into CATALOG7 small_reader (bstr "w") (PyBuffer false true 16 1000) 4 (bstr "torch.transposed@1")
    (holding_d, fun _ => byte_of 9) = (Ok stats, (d', mem')) /\
    mem' 1004 = byte_of 121 /\ mem' 1005 = byte_of 0 /\ mem' 1006 = byte_of 122 /\ mem' 1010 = byte_of 9.
Proof.
  pose proof (fill_host_correct CATALOG7 small_reader (bstr "w") (PyBuffer false true 16 1000) 4 (bstr "torch.transposed@1")
    holding_d (fun _ => byte_of 9) small_tensor transposed small_plan 1 small_fillable eq_refl eq_refl
    ltac:(vm_compute; reflexivity) ltac:(vm_compute; discriminate) ltac:(lia) ltac:(vm_compute; discriminate)) as Hf.
  destruct (fill_host_into _ _ _ _ _ _ _) as [[stats|e] [d' mem']].
  - destruct Hf as (_ & _ & Hin & Hout). exists stats, d', mem'. split; [reflexivity|]. split; [|split; [|split]].
    + exact (Hin 0%nat _ ltac:(vm_compute; reflexivity)).
    + exact (Hin 1%nat _ ltac:(vm_compute; reflexivity)).
    + exact (Hin 2%nat _ ltac:(vm_compute; reflexivity)).
    + apply Hout. vm_compute. intros [_ Hlt]. discriminate Hlt.
  - destruct Hf as (_ & Hn & _). exfalso. apply Hn. split; reflexivity.
Defined.

(** The same tensor to a device, through a slab of 4096 bytes grown to 8192. *)
Lemma client_fill_outcome_witness :
  let '(r, (_, k)) := client_fill CATALOG7 small_reader (bstr "w") 131072 8192 8 (bstr "torch.transposed@1")
    (holding_d, CudaFillClient sunk false) in
  (exists stats, r = Ok stats) /\ 8192 <= cs_staging_bytes (cu_sink (cc_cuda k)) /\
  cu_memory (cu_driver (cc_cuda k)) 131080 = byte_of 121 /\ cu_memory (cu_driver (cc_cuda k)) 131082 = byte_of 122.
Proof.
  pose proof (client_fill_outcome CATALOG7 small_reader (bstr "w") 131072 8192 8 (bstr "torch.transposed@1")
    holding_d (CudaFillClient sunk false) small_tensor transposed small_plan 1 small_fillable
    eq_refl sunk_ok eq_refl ltac:(lia) ltac:(split; [lia|split; [split; [lia|vm_compute; reflexivity]|vm_compute; discriminate]]) ltac:(lia)
    ltac:(vm_compute; discriminate)) as Hf.
  cbv zeta in Hf. destruct (client_fill _ _ _ _ _ _ _ _) as [r [d' k']]. destruct Hf as (_ & _ & _ & Hr & Hq).
  specialize (Hq ltac:(split; reflexivity)). destruct (grown 8192 (cc_cuda (CudaFillClient sunk false))) as [driver|] eqn:Eg;
    [|vm_compute in Eg; discriminate Eg].
  destruct Hq as [Hgood _]. destruct Hgood as [stats ->].
  { split; [reflexivity|]. unfold grown in Eg. vm_compute in Eg. injection Eg as <-. reflexivity. }
  destruct Hr as (_ & Hle & Hin). split; [exists stats; reflexivity|]. split; [exact Hle|]. split.
  - exact (Hin 0%nat _ ltac:(vm_compute; reflexivity)).
  - exact (Hin 2%nat _ ltac:(vm_compute; reflexivity)).
Defined.

(** One refused copy, and the next fill is refused though the driver would serve it. *)
Example one_failure_ends_a_client :
  let once := client_fill CATALOG7 small_reader (bstr "w") 131072 64 8 (bstr "torch.transposed@1") (holding_d, CudaFillClient failing false) in
  once.1 = Err (PY_Morphism (driver_error (bstr "cuMemcpyHtoD returned 700"))) /\
  (client_fill CATALOG7 small_reader (bstr "w") 131072 64 8 (bstr "torch.transposed@1") once.2).1 =
    Err (PY_Morphism (driver_error (bstr "cannot retarget while a staged transfer is pending"))).
Proof. split; vm_compute; reflexivity. Qed.
