(* ===== verification/Machine.v ===== *)
(** The workspaces as one system ([src/crates/tensorfs-core/src/workspace.rs]):
    what a commit does and what it leaves alone, and the step relation of every
    interleaving of the operations, with every fault and restart between and
    inside them. *)

From S2P Require Import Utf8.
From S2P Require Export StoreGuarantees SealFacts SyncGuarantees.

(** ** Isolation *)

Section isolation.
Context `{Unicode}.

(** What changes only one workspace leaves the file system of another alone. *)
Lemma local_view d d' f v x row :
  db_inv d -> local_to v d (with_workspaces f d') -> workspaces d !! x = Some row -> x <> v ->
  let fs := view d (wr_root_inode row) in let fs' := view d' (wr_root_inode row) in
  (forall q, names fs' q = names fs q) /\ (forall q i, names fs q = Some i -> nodes fs' i = nodes fs i).
Proof.
  intros [Ht Hr] [_ L1 L2 L3] Hx Hne. cbn zeta. cbn [dirents inodes object_maps with_workspaces] in L1, L2, L3.
  destruct (ts_root d Ht _ _ Hx) as [(irow & Hi & Hk & Hw) _].
  assert (forall q i, resolve_segments d (top (wr_root_inode row)) q = Some i ->
    exists irow, inodes d !! ri_id i = Some irow /\ ir_workspace_id irow = x) as Hin.
  { intros q i. by eapply resolve_workspace. }
  split.
  - intros q. cbn. f_equal. apply resolve_agree. intros q1 s q2 i _ Hq1.
    destruct (Hin _ _ Hq1) as (r & Hri & Hrw). unfold step. destruct (ri_kind i =? KIND_DIRECTORY); [|done].
    rewrite (L1 (ri_id i) r s Hri ltac:(congruence)).
    destruct (dirents d !! (ri_id i, s)) as [c|] eqn:Ec; [|done]. simpl.
    destruct (ts_child d Ht _ _ _ _ Ec Hri) as (crow & Hc & Hcw).
    by rewrite (L2 c crow Hc ltac:(congruence)), Hc.
  - intros q i. cbn. destruct (resolve_segments d _ q) as [j|] eqn:Ej; [|done]. intros [= <-].
    destruct (Hin _ _ Ej) as (r & Hri & Hrw). apply node_at_same; [done| |].
    + by rewrite (L2 _ _ Hri ltac:(congruence)).
    + intros o. apply (L3 _ _ _ Hri). congruence.
Qed.
End isolation.

(** ** Worlds where nothing fails *)

Section quiet.
Context `{Sha256, Unicode, Unordered, Rowid, Allocator}.

Lemma engine_quiet s : quiet s -> engine s = (Ok tt, s).
Proof. intros [[Ha _] He]. unfold engine. by rewrite Ha, He. Qed.
Lemma sql_read_quiet {A : Type} (f : db -> result workspace_error A) s : quiet s -> sql_read f s = (f (w_db s), s).
Proof. intros Hq. unfold sql_read, bind. by rewrite engine_quiet. Qed.
Lemma sql_write_quiet (f : db -> result workspace_error db) s d :
  quiet s -> f (w_db s) = Ok d -> sql_write f s = (Ok tt, set_db d s).
Proof. intros Hq Hf. unfold sql_write, bind. by rewrite engine_quiet, Hf. Qed.
Lemma transaction_quiet {A : Type} (body : M world workspace_error A) s a s' :
  quiet s -> body s = (Ok a, s') -> quiet s' -> transaction body s = (Ok a, s').
Proof.
  intros Hq Hb Hq'. unfold transaction, bind. rewrite engine_quiet by done. rewrite Hb.
  by rewrite engine_quiet.
Qed.

(** The checks pass on resident digests and change nothing. *)
Lemma check_exist_quiet digests s :
  quiet s -> (forall digest, digest ∈ digests -> resident (objects (w_disk s)) digest) ->
  check_exist digests s = (Ok tt, s).
Proof.
  intros [Hq He] Hres.
  pose proof (t_for (S := world) (fun _ digest =>
    let<- found := store (exists_object digest) in check found (WE_MissingObject digest)) tt digests
    (fun _ _ s' => s' = s) (fun _ _ => False)) as Ht.
  assert (match check_exist digests s with (Ok a, s') => s' = s | (Err e, s') => False end) as Hx.
  { apply Ht; [|done]. intros pre digest post [] Hd s' ->.
    destruct (Hres digest) as [bytes Hb]; [rewrite Hd; set_solver|].
    unfold bind, store, map_err_m, on_disk, exists_object. cbn [disk_of world_has_disk].
    rewrite query_quiet by done. rewrite Hb. cbn. by destruct s. }
  destruct (check_exist digests s) as [[[]|e] s']; [by subst|done].
Qed.

Lemma verify_all_quiet digests s :
  quiet s -> clean (objects (w_disk s)) -> (forall digest, digest ∈ digests -> resident (objects (w_disk s)) digest) ->
  verify_all digests s = (Ok tt, s).
Proof.
  intros [Hq He] Hc Hres.
  pose proof (t_for (S := world) (fun _ digest =>
    map_err_m (fun _ => WE_MissingObject digest) (on_disk (verify digest));;; ret tt) tt digests
    (fun _ _ s' => s' = s) (fun _ _ => False)) as Ht.
  assert (match verify_all digests s with (Ok a, s') => s' = s | (Err e, s') => False end) as Hx.
  { apply Ht; [|done]. intros pre digest post [] Hd s' ->.
    destruct (Hres digest) as [bytes Hb]; [rewrite Hd; set_solver|].
    destruct (Hc _ _ Hb) as (b & [= <-] & Hsha & Hlen).
    pose proof (ok_verify digest bytes true (eq (w_disk s)) ltac:(by intros ? <-) Hsha Hlen (w_disk s) (conj Hq eq_refl)) as Hv.
    unfold bind, map_err_m, on_disk. cbn [disk_of world_has_disk]. destruct (verify digest (w_disk s)) as [[n|e] d'].
    - destruct Hv as [_ <-]. cbn. by destruct s.
    - done. }
  destruct (verify_all digests s) as [[[]|e] s']; [by subst|done].
Qed.

Lemma commit_generation_quiet name mutations referenced s D' next :
  quiet s -> clean (objects (w_disk s)) -> referenced_digests mutations = Ok referenced ->
  (forall digest, digest ∈ referenced -> resident (objects (w_disk s)) digest) ->
  apply_batch name mutations (w_db s) = Ok (D', next) ->
  commit_generation name mutations s = (Ok next, set_db D' s).
Proof.
  intros Hq Hc Hr Hres Ha.
  assert (forall digest, digest ∈ enumerate (elements referenced) -> resident (objects (w_disk s)) digest) as Hres'.
  { intros digest. rewrite elem_of_enumerate, elem_of_elements. apply Hres. }
  unfold commit_generation, commit_prepare, bind, lift. rewrite Hr, verify_all_quiet by done. cbn [ret].
  apply transaction_quiet; [done| |by destruct s].
  unfold bind. rewrite check_exist_quiet by done. rewrite sql_read_quiet by done. rewrite Ha. cbn [ret].
  erewrite sql_write_quiet by (done || by rewrite Ha). done.
Qed.
End quiet.

(** ** Committing *)

Section commit.
Context `{Sha256, Unicode, Unordered, Rowid, Allocator}.
Implicit Types (O : gmap (list byte) node) (D : db).

Abbreviation at_ O D := (on_state false (fun O' D' => O' = O /\ D' = D)).

(** All or nothing. *)
Lemma t_commit O D name mutations :
  safe O D ->
  triple (at_ O D) (commit_generation name mutations)
    (fun next s => objects (w_disk s) = O /\ apply_batch name mutations D = Ok (w_db s, next) /\
       exists referenced, referenced_digests mutations = Ok referenced /\
         forall digest, digest ∈ referenced -> resident O digest)
    (fun _ s => objects (w_disk s) = O /\ w_db s = D).
Proof.
  intros Hs. unfold commit_generation, commit_prepare.
  eapply t_bind with (Q' := fun referenced s => at_ O D s /\ referenced_digests mutations = Ok referenced).
  { eapply t_bind with (Q' := fun referenced s => at_ O D s /\ referenced_digests mutations = Ok referenced).
    { apply t_lift. intros s Hat. destruct (referenced_digests mutations); [done|apply Hat]. }
    intros referenced. apply t_pure_r. intros Hr. eapply t_bind with (Q' := fun _ => at_ O D).
    - unfold verify_all. apply (t_for _ _ _ (fun _ _ => at_ O D)). intros pre digest post [] _.
      eapply t_bind with (Q' := fun _ => at_ O D); [|intros; by apply t_ret].
      eapply t_conseq; [apply (t_disk_at false _ (verify digest) O D (fun _ O' => O' = O) (fun _ s => objects (w_disk s) = O /\ w_db s = D))|done|done|done].
      intros d [Ho _]. pose proof (t_verify O digest) as Hv.
      specialize (Hv ltac:(intros bytes ro Hb; by destruct (sf_clean _ _ Hs _ _ Hb) as (b & [= <- _] & _ & Hl)) d Ho).
      destruct (verify digest d) as [[n|e] d']; [by destruct Hv|]. intros s HD <-. done.
    - intros _. by apply t_ret. }
  intros referenced. apply t_pure_r. intros Hr. unfold commit_transaction.
  eapply t_conseq; [apply (t_transaction false O D _ (fun next O' D' => O' = O /\
     apply_batch name mutations D = Ok (D', next) /\ forall digest, digest ∈ referenced -> resident O digest)
     (fun O' => O' = O) (fun _ => True))|done| |].
  - eapply t_conseq with (P' := at_ O D) (R' := refused false O D True); [|done|intros a s Hx; exact Hx|by intros e s [[Ho _] Hb]].
    eapply t_bind; [apply t_check_exist, Hs|]. intros u. apply t_pure_r. intros Hres.
    eapply t_bind; [by apply (t_sql_read_at false O D True)|]. intros next. apply t_pure_r. intros Hn.
    destruct (apply_batch name mutations D) as [[D1 next1]|] eqn:Ea; [|done]. cbn in Hn. injection Hn as ->.
    eapply t_bind with (Q' := fun _ => on_state false (fun O' D' => O' = O /\ D' = D1)).
    + apply t_sql_write.
      * intros O' D0 D' [-> ->]. rewrite Ea. by intros [= <-].
      * intros e s [Hx _]. split; [done|by left].
      * intros e s [[Hx _] _]. split; [done|by left].
    + intros _. apply t_ret. intros s [[Ho HD] _]. split; [|done]. split; [done|]. split; [by rewrite HD|].
      intros digest Hd. apply Hres. by rewrite elem_of_enumerate, elem_of_elements.
  - by intros a O' D' [].
  - done.
  - intros next s [(Ho & Ha & Hres) _]. split; [done|]. split; [done|]. by exists referenced.
  - by intros e s [Hx _].
Qed.

(** What a batch does to the tables. *)
Lemma apply_batch_ok O D name mutations D' next :
  safe O D -> Forall mutation_ok mutations -> apply_batch name mutations D = Ok (D', next) ->
  exists w D1, workspace_row D name = Ok w /\ next = wadd (w_head_generation w) 1 /\
    D' = advance_head w next D1 /\
    workspace_row D' name = Ok (WorkspaceRow (w_id w) next (w_root_inode w)) /\
    spec_batch mutations (view D (w_root_inode w)) (view D1 (w_root_inode w)) /\
    local_to (w_id w) D D1.
Proof.
  intros Hs Hm. unfold apply_batch. destruct (workspace_row D name) as [w|] eqn:Ew; [|done]. cbn.
  destruct (for_each _ D mutations) as [D1|] eqn:Ef; [|done]. intros [= <- <-]. exists w, D1.
  destruct (apply_all_ok D w mutations D1 (sf_tables _ _ Hs) (workspace_row_rooted _ _ _ Ew) Hm Ef)
    as (Ht & Hroot & Hspec & _ & Hl).
  split; [done|]. split; [done|]. split; [done|].
  destruct (workspace_row_Ok _ _ _ Ew) as (row & Hrow & Hname & Hgen & Hri).
  split; [|by split].
  pose proof (advance_head_ok D1 w (wadd (w_head_generation w) 1) Ht) as Ht2.
    set (D2 := advance_head w (wadd (w_head_generation w) 1) D1) in *.
    assert (workspaces D2 !! w_id w = Some (set_head (wadd (w_head_generation w) 1) row)) as Hrow2.
    { unfold D2, advance_head. cbn. by rewrite lookup_alter_eq, (lt_workspaces _ _ _ Hl), Hrow. }
    rewrite (workspace_row_find D2 (w_id w) name (set_head (wadd (w_head_generation w) 1) row)); [|apply Ht2|done|by cbn].
    cbn. rewrite as_u64_i64; [by rewrite Hri|]. unfold wadd, in_u64. apply Z.mod_pos_bound. done.
Qed.
End commit.

(** ** The system *)

Section steps.
Context `{Sha256, Unicode, Unordered, Rowid, Allocator, HeaderJson, EntrySort}.

Abbreviation objs s := (objects (w_disk s)).

(** What may happen next.  Every operation runs with whatever faults its disk
    and engine schedule, to whatever end; what a crash loses, the locks, the
    temporaries and the schedules, may become anything.  A commit's transaction
    and a seal's may come any number of steps after what prepared them.  The
    premises are what the language types, the paths [path <> []] that keep a
    workspace's root, and that the hash does not collide on what is admitted.  A
    push and a pull may talk to any remote. *)
Inductive step_world : world -> world -> Prop :=
| step_environment s s' : objs s' = objs s -> w_db s' = w_db s -> step_world s s'
| step_put bytes s : zlen bytes < U64 -> step_world s (store (put_bytes bytes) s).2
| step_create_workspace name s : step_world s (create_workspace name s).2
| step_delete_workspace name s : step_world s (delete_workspace name s).2
| step_commit_prepare mutations s : step_world s (commit_prepare mutations s).2
| step_commit_transaction name mutations referenced s :
    Forall mutation_typed mutations -> referenced_digests mutations = Ok referenced ->
    step_world s (commit_transaction name mutations referenced s).2
| step_create_from_snapshot name id s : step_world s (create_workspace_from_snapshot name id s).2
| step_unlinked_lease workspace path holder s :
    path <> [] -> step_world s (acquire_unlinked_lease workspace path holder s).2
| step_pending_sync_lease id holder s : step_world s (acquire_pending_sync_lease id holder s).2
| step_release_lease lease s : step_world s (release_lease lease s).2
| step_adopt bytes s :
    zlen bytes < U64 -> unclashed (objs s) bytes -> step_world s (adopt_snapshot bytes s).2
| step_delete_snapshot id s : step_world s (delete_snapshot_row id s).2
| step_seal_plan seams concurrency schedule name w s :
    (forall c, seams = Some c -> wf_stamp (contract_stamp c)) ->
    (forall regions, schedule regions ≡ₚ seq 0 (length regions)) ->
    workspace_row (w_db s) name = Ok w ->
    (forall a b, seal_pool (objs s) (w_db s) w a -> seal_pool (objs s) (w_db s) w b -> sha256 a = sha256 b -> a = b) ->
    (forall path records, head_file (w_db s) w path records -> run_resident (objs s) records) ->
    step_world s (seal_plan seams concurrency schedule name s).2
| step_seal_commit name generation jobs parent s :
    seal_guard (objs s) (w_db s) name jobs parent ->
    step_world s (seal_commit name generation jobs parent s).2
| step_push {R : Type} (transport : SyncTransport R) fuel id head options (se : session R) :
    step_world (se_world se) (se_world (push_snapshot fuel id head options se).2)
| step_pull {R : Type} (transport : SyncTransport R) pool id (se : session R) :
    collision_free pool -> store_in pool (w_disk (se_world se)) ->
    (forall grant (r : R), pool (concat (t_download grant r).1.1)) ->
    step_world (se_world se) (se_world (pull_snapshot id se).2)
| step_collect s : step_world s (collect_pass s).2.

(** A store that was just opened for the first time, and what it can become. *)
Inductive reachable : world -> Prop :=
| reachable_fresh s : objs s = ∅ -> w_db s = fresh_db -> reachable s
| reachable_step s s' : reachable s -> step_world s s' -> reachable s'.

Lemma framed_step {A : Type} (m : M world workspace_error A) s : framed inv m -> inv s -> inv (m s).2.
Proof. intros Hm Hs. specialize (Hm s Hs). by destruct (m s) as [[a|e] s']. Qed.

Lemma step_inv s s' : step_world s s' -> inv s -> inv s'.
Proof.
  intros Hstep Hs. destruct Hstep.
  - unfold inv. match goal with Ho : objs s' = _, Hd : w_db s' = _ |- _ => by rewrite Ho, Hd end.
  - apply framed_step; [by apply p_put|done].
  - apply framed_step; [apply p_create_workspace|done].
  - apply framed_step; [apply p_delete_workspace|done].
  - apply framed_step; [apply p_commit_prepare|done].
  - apply framed_step; [by apply p_commit_transaction|done].
  - apply framed_step; [apply p_create_from_snapshot|done].
  - apply framed_step; [by apply p_acquire_unlinked_lease|done].
  - apply framed_step; [apply p_acquire_pending_sync_lease|done].
  - apply framed_step; [apply p_release_lease|done].
  - pose proof (t_adopt (objs s) (w_db s) bytes Hs ltac:(done) ltac:(done) s ltac:(by split)) as Ht.
    by destruct (adopt_snapshot bytes s) as [[a|e] s'].
  - apply framed_step; [apply p_delete_snapshot_row|done].
  - pose proof (t_seal_plan seams concurrency schedule ltac:(done) ltac:(done) (objs s) (w_db s) Hs name w ltac:(done)
      ltac:(done) ltac:(done) s ltac:(by split)) as Ht.
    unfold inv. destruct (seal_plan _ _ _ _ s) as [[[g jobs]|e] s']; cbn [snd].
    + destruct Ht as (_ & Hg & -> & _). by eapply safe_grown.
    + destruct Ht as (Hg & ->). by eapply safe_grown.
  - pose proof (t_seal_commit (objs s) (w_db s) name generation jobs parent Hs ltac:(done) s ltac:(by split)) as Ht.
    destruct (seal_commit _ _ _ _ s) as [[a|e] s']; [by destruct Ht|done].
  - pose proof (push_snapshot_outcome fuel id head options se Hs) as Ht. unfold push_outcome in Ht.
    destruct (push_snapshot fuel id head options se) as [r s']. apply Ht.
  - pose proof (pull_snapshot_outcome pool id se Hs ltac:(done) ltac:(done) ltac:(done)) as Ht. cbn zeta in Ht.
    destruct (pull_snapshot id se) as [r s']. apply Ht.
  - apply framed_step; [apply p_collect_pass|done].
Qed.

Lemma reachable_inv s : reachable s -> inv s.
Proof.
  induction 1 as [s Ho Hd|s s' _ IH Hstep]; [|by eapply step_inv].
  unfold inv. rewrite Ho, Hd. apply safe_fresh.
Qed.
End steps.
