(* ===== verification/Guarantees.v ===== *)
(** What the workspaces guarantee ([src/crates/tensorfs-core/src/workspace.rs]):
    the theorems on reachable states, commits, snapshots, seals and garbage
    collection, each with a concrete run that meets its hypotheses. *)

From S2P Require Import Utf8.
From S2P Require Export Machine.

Abbreviation objs s := (objects (w_disk s)).

(** ** Reachable states *)

Section reachable.
Context `{Sha256, Unicode, Unordered, Rowid, Allocator, HeaderJson, EntrySort}.

(** C3: In every state reachable by the steps of [step_world], every digest that
    a head, a lease or a snapshot reaches names a read-only object whose bytes
    hash to it.  The steps are puts, creations and deletions, leases and their
    release, adoptions, pulls, pushes and collections, each run to whatever end
    its faults and crashes give it with no other step inside it, and commits and
    seals, whose transactions may come any number of steps after what prepared
    them.  Not among the steps, because the code keeps no such promise there: a
    collection in the middle of an adoption or a pull, a seal's transaction
    outside [seal_guard] (one whose re-used digests no head holds any more, or
    whose manifest clashes), and the removal or the lease of the empty path. *)
Theorem reachable_no_dangling s digest :
  reachable s -> rooted (objs s) (w_db s) digest ->
  exists bytes, objs s !! digest = Some (Regular bytes true) /\ sha256 bytes = digest.
Proof.
  intros Hs Hr. pose proof (reachable_inv s Hs) as Hi. destruct (sf_no_dangling _ _ Hi _ Hr) as [bytes Hb].
  exists bytes. split; [done|]. by destruct (sf_clean _ _ Hi _ _ Hb) as (b & [= <-] & Hsha & _).
Qed.

(** C35: In every state reachable by the steps of [step_world] (which leave out
    the removal and the lease of the empty path, seals outside [seal_guard] and
    steps in the middle of an adoption, a pull or a push) the tables are
    well-typed: an inode's columns
    are what its kind says, its record map reads back as a well-formed run, the
    entries of a directory have safe, case-distinct names and lead to inodes of
    the directory's workspace, a directory has one entry, and a workspace's root
    is a directory of it that nothing names. *)
Theorem reachable_typed s :
  reachable s ->
  (forall i row, inodes (w_db s) !! i = Some row -> row_typed row) /\
  (forall i, exists records, read_records (w_db s) i = Ok records /\ wf_run records) /\
  (forall p n c, dirents (w_db s) !! (p, n) = Some c -> (slash ∉ n) /\ safe_segment n /\
     exists row crow, inodes (w_db s) !! p = Some row /\ ir_kind row = KIND_DIRECTORY /\
       inodes (w_db s) !! c = Some crow /\ ir_workspace_id crow = ir_workspace_id row) /\
  (forall p m n c c', dirents (w_db s) !! (p, m) = Some c -> dirents (w_db s) !! (p, n) = Some c' ->
     case_fold m = case_fold n -> m = n) /\
  (forall k1 k2 c row, dirents (w_db s) !! k1 = Some c -> dirents (w_db s) !! k2 = Some c ->
     inodes (w_db s) !! c = Some row -> ir_kind row = KIND_DIRECTORY -> k1 = k2) /\
  (forall w row, workspaces (w_db s) !! w = Some row ->
     (exists irow, inodes (w_db s) !! wr_root_inode row = Some irow /\ ir_kind irow = KIND_DIRECTORY /\
        ir_workspace_id irow = w) /\
     forall k, dirents (w_db s) !! k <> Some (wr_root_inode row)).
Proof.
  intros Hs. pose proof (sf_tables _ _ (reachable_inv s Hs)) as [[Ht Hr] _].
  split; [apply Hr|]. split.
  { intros i. destruct (ro_run _ Hr i) as (records & Hrun & Hwf). exists records. split; [|done].
    apply read_records_run; [done|apply Hwf]. }
  split; [|split; [apply Hr|split; [apply Ht|apply Ht]]].
  intros p n c Hc. destruct (ro_name _ Hr _ _ _ Hc). split; [done|]. split; [done|].
  destruct (ts_parent _ Ht _ _ _ Hc) as (row & Hp & Hk). destruct (ts_child _ Ht _ _ _ _ Hc Hp) as (crow & Hcr & Hw).
  by exists row, crow.
Qed.

(** C36: In every state reachable by the steps of [step_world] (which leave out
    the removal and the lease of the empty path, seals outside [seal_guard] and
    steps in the middle of an adoption, a pull or a push) the walk of [head_tree]
    and of a seal ends, over every workspace: staging visits each directory once
    and declares exactly the names the workspace has. *)
Theorem staging_terminates s name w parent :
  reachable s -> workspace_row (w_db s) name = Ok w ->
  exists b, stage_builder (w_db s) w parent = Some (Ok b) /\
    NoDup (b_pending b).*1 /\
    (forall path, path ∈ (b_pending b).*1 <->
       exists q, q <> [] /\ path = join slash q /\ is_Some (names (view (w_db s) (w_root_inode w)) q)) /\
    build_tree (w_db s) w <> None.
Proof.
  intros Hs Hw. pose proof (sf_tables _ _ (reachable_inv s Hs)) as [Hd _].
  pose proof (workspace_row_rooted _ _ _ Hw) as Hroot.
  destruct (stage_builder_view (w_db s) Hd w Hroot parent) as (b & Hb & _ & Hnd & Hp & _).
  destruct (stage_builder_view (w_db s) Hd w Hroot None) as (b0 & Hb0 & _).
  exists b. split; [done|]. split; [done|]. split.
  - intros path. rewrite Hp. unfold named. cbn. split.
    + intros (i & q & Hne & -> & Hq). exists q. rewrite Hq. eauto.
    + intros (q & Hne & -> & Hq). destruct (resolve_segments _ _ q) as [i|] eqn:E; [eauto 10|by destruct Hq].
  - unfold build_tree, finish_tree. rewrite Hb0. pose proof (resolve_no_panic (b_pending b0)).
    by destruct (resolve (b_pending b0)).
Qed.
End reachable.

(** ** Mutations and commits *)

Section commits.
Context `{Sha256, Unicode, Unordered, Rowid, Allocator}.

(** C5: Every mutation that succeeds, on records that form a run and lengths
    that are [u64]s, does to the workspace's file system - a map from paths to
    identities and from identities to contents - exactly what the specification
    of that mutation says, and keeps the tables well-formed; with one exception,
    the removal of the empty path, which is not refused: it succeeds only on a
    workspace without names, and it deletes the root's inode unless a lease holds
    it. *)
Theorem apply_mutation_correct d w m d' :
  db_inv d -> rooted_at d (w_id w) (w_root_inode w) -> mutation_args m -> apply_mutation d w m = Ok d' ->
  (m <> Rmdir [] -> db_inv d' /\ spec_mutation m (view d (w_root_inode w)) (view d' (w_root_inode w))) /\
  (m = Rmdir [] -> root_removed d d' (w_root_inode w)).
Proof. intros Hd Hr Hm Ha. by apply (apply_mutation_any d w Hd Hr m d'). Qed.

(** C4: A commit is atomic.  When it fails, whatever failed, the tables and the
    objects are as before.  When it returns, the objects are as before, every
    object the batch names is resident, the workspace's generation is one more,
    and its file system went through the batch in order.  And it does return on a
    store where nothing fails, when the batch applies and its objects are
    resident. *)
Theorem commit_generation_atomic name mutations s :
  safe (objs s) (w_db s) -> Forall mutation_typed mutations ->
  match commit_generation name mutations s with
  | (Ok next, s') =>
      objs s' = objs s /\
      (forall m digest, m ∈ mutations -> digest ∈ mutation_digests m -> resident (objs s) digest) /\
      exists w D, workspace_row (w_db s) name = Ok w /\ next = wadd (w_head_generation w) 1 /\
        w_db s' = advance_head w next D /\
        workspace_row (w_db s') name = Ok (WorkspaceRow (w_id w) next (w_root_inode w)) /\
        spec_batch mutations (view (w_db s) (w_root_inode w)) (view D (w_root_inode w))
  | (Err _, s') => objs s' = objs s /\ w_db s' = w_db s
  end /\
  (quiet s -> forall referenced D next, referenced_digests mutations = Ok referenced ->
     (forall digest, digest ∈ referenced -> resident (objs s) digest) ->
     apply_batch name mutations (w_db s) = Ok (D, next) ->
     commit_generation name mutations s = (Ok next, set_db D s)).
Proof.
  intros Hs Hty. split.
  - pose proof (t_commit (objs s) (w_db s) name mutations Hs s ltac:(by split)) as Ht.
    destruct (commit_generation name mutations s) as [[next|e] s']; [|done].
    destruct Ht as (Ho & Ha & referenced & Hr & Hres). destruct (referenced_digests_Ok _ _ Hty Hr) as [Hok Hin].
    split; [done|]. split; [eauto|].
    destruct (apply_batch_ok _ _ _ _ _ _ Hs Hok Ha) as (w & D & Hw & Hn & Hd & Hw' & Hspec & _).
    by exists w, D.
  - intros Hq referenced D next Hr Hres Ha. eapply commit_generation_quiet; [done|apply Hs|done..].
Qed.

(** A commit is isolated: no other workspace's row, names or contents
    change. *)
Theorem commit_generation_isolated name mutations s next s' x row :
  safe (objs s) (w_db s) -> Forall mutation_typed mutations ->
  commit_generation name mutations s = (Ok next, s') ->
  workspaces (w_db s) !! x = Some row -> wr_name row <> name ->
  workspaces (w_db s') !! x = Some row /\
  forall q, names (view (w_db s') (wr_root_inode row)) q = names (view (w_db s) (wr_root_inode row)) q /\
    forall i, names (view (w_db s) (wr_root_inode row)) q = Some i ->
      nodes (view (w_db s') (wr_root_inode row)) i = nodes (view (w_db s) (wr_root_inode row)) i.
Proof.
  intros Hs Hty Hc Hx Hne.
  pose proof (t_commit (objs s) (w_db s) name mutations Hs s ltac:(by split)) as Ht. rewrite Hc in Ht.
  destruct Ht as (Ho & Ha & referenced & Hr & _). destruct (referenced_digests_Ok _ _ Hty Hr) as [Hok _].
  destruct (apply_batch_ok _ _ _ _ _ _ Hs Hok Ha) as (w & D & Hw & Hn & Hd & _ & _ & Hl).
  destruct (workspace_row_Ok _ _ _ Hw) as (wrow & Hwr & Hwn & _).
  assert (x <> w_id w) as Hxw by (intros ->; congruence).
  assert (local_to (w_id w) (w_db s) (with_workspaces (fun _ => workspaces (w_db s)) (w_db s'))) as Hl'.
  { rewrite Hd. destruct Hl as [L1 L2 L3 L4]. by constructor. }
  split.
  - rewrite Hd. cbn. by rewrite lookup_alter_ne, (lt_workspaces _ _ _ Hl).
  - pose proof (local_view (w_db s) (w_db s') _ (w_id w) x row (proj1 (sf_tables _ _ Hs)) Hl' Hx Hxw) as [Hnames Hnodes].
    intros q. split; [apply Hnames|intros i; apply Hnodes].
Qed.
End commits.

(** ** Snapshots and seals *)

Section seals.
Context `{Sha256, Unicode, Unordered, Rowid, Allocator}.

(** C19: A snapshot of a head is the head's file system: its entries are exactly
    the workspace's names, and under each name it reads what the name's inode
    holds - a directory, a link's target, or a file's flag, planner, stamp and
    records - hard links included. *)
Theorem build_snapshot_correct d w parent snap :
  db_inv d -> rooted_at d (w_id w) (w_root_inode w) ->
  build_snapshot d w parent = Some (Ok snap) ->
  s_parent snap = parent /\
  (forall path, path ∈ (s_entries snap).*1 <->
     exists q, q <> [] /\ path = join slash q /\ is_Some (names (view d (w_root_inode w)) q)) /\
  (forall q i, q <> [] -> names (view d (w_root_inode w)) q = Some i ->
     exists a, nodes (view d (w_root_inode w)) i = Some a /\ reads_as snap (join slash q) a).
Proof. intros Hd Hr Hb. by apply build_snapshot_view. Qed.



(** C9: Planning a seal re-cuts files without changing a byte: it leaves the
    tables alone and removes no object, and every job it returns was planned from
    a committed file of the workspace, whose bytes the job's new records denote,
    all resident, with objects it admitted or the file already had. *)
Theorem seal_plan_keeps_bytes `{HeaderJson, EntrySort} seams concurrency schedule name w s generation jobs s' :
  (forall c, seams = Some c -> wf_stamp (contract_stamp c)) ->
  (forall regions, schedule regions ≡ₚ seq 0 (length regions)) ->
  safe (objs s) (w_db s) -> workspace_row (w_db s) name = Ok w ->
  (forall a b, seal_pool (objs s) (w_db s) w a -> seal_pool (objs s) (w_db s) w b -> sha256 a = sha256 b -> a = b) ->
  (forall path records, head_file (w_db s) w path records -> run_resident (objs s) records) ->
  seal_plan seams concurrency schedule name s = (Ok (generation, jobs), s') ->
  w_db s' = w_db s /\ objs s ⊆ objs s' /\ generation = w_head_generation w /\
  Forall (fun job => exists records, head_file (w_db s) w (sj_path job) records /\
    (sj_update_records job = true ->
       run_bytes (objs s') (sj_records job) = run_bytes (objs s) records /\
       run_resident (objs s') (sj_records job) /\
       forall digest, digest ∈ data_digests (sj_records job) ->
         digest ∈ sj_new_digests job \/ digest ∈ data_digests records)) jobs.
Proof.
  intros Hseams Hsched Hs Hw Hinj Hlong Hp.
  pose proof (t_seal_plan seams concurrency schedule Hseams Hsched (objs s) (w_db s) Hs name w Hw Hinj Hlong s ltac:(by split)) as Ht.
  rewrite Hp in Ht. destruct Ht as (Hg & Hgr & Hd & Hjobs). split; [done|]. split; [apply Hgr|]. split; [done|].
  eapply Forall_impl; [exact Hjobs|]. intros job (records & Hf & [K1 K2 K3 K4]). exists records. split; [done|].
  intros Hu. split; [by apply K2|]. split; [by apply K3|]. intros digest. by apply K4.
Qed.
End seals.

(** ** Garbage collection *)

Section gc.
Context `{Sha256, Unicode, Unordered, Rowid, Allocator}.

(** C39: The mark is exact: a digest is marked if and only if some head, lease or
    snapshot reaches it. *)
Theorem mark_exact s m s' :
  safe (objs s) (w_db s) -> mark s = (Ok m, s') ->
  forall digest, is_rooted m digest = true <-> rooted (objs s) (w_db s) digest.
Proof.
  intros Hs Hm. pose proof (t_mark false (objs s) (w_db s) (sf_clean _ _ Hs) (sf_no_dangling _ _ Hs) s ltac:(by split)) as Ht.
  rewrite Hm in Ht. apply Ht.
Qed.

(** Passes over a store where nothing fails. *)
Lemma collect_quiet s :
  safe (objs s) (w_db s) -> quiet s -> readable (objs s) (w_db s) ->
  exists r s', collect_pass s = (Ok r, s') /\ quiet s' /\ Sweep.collected true (objs s) (w_db s) (objs s') (w_db s').
Proof.
  intros Hs Hq Hrd. pose proof (t_collect_pass true (objs s) (w_db s) (sf_clean _ _ Hs) (sf_no_dangling _ _ Hs) s ltac:(by split)) as Ht.
  destruct (collect_pass s) as [[r|e] s'].
  - destruct Ht as [Hc Hq']. exists r, s'. auto.
  - destruct Ht as [_ [?|[?|Hn]]]; [done|done|]. by destruct Hn; apply Hs.
Qed.

Lemma collected_next (O O' : gmap (list byte) node) (D D' : db) :
  Sweep.collected true O D O' D' -> safe O D -> readable O D ->
  safe O' D' /\ readable O' D' /\ forall digest, ~ rooted O D digest -> ~ rooted O' D' digest.
Proof.
  intros Hc Hs Hrd. pose proof (safe_collected _ _ _ _ _ Hc Hs) as Hs'. destruct Hc as [(epoch & f & ->) _ C3 _ _ _].
  assert (forall digest, rooted O D digest -> O' !! digest = O !! digest) as Hkeep.
  { intros digest Hr. by destruct (C3 digest) as [?|(_ & [] & _)]. }
  split; [done|]. split.
  - intros id g Hid. cbn in Hid. destruct (Hrd id g Hid) as (bytes & ro & snap & Ho & Hd). exists bytes, ro, snap.
    split; [|done]. rewrite Hkeep; [done|]. right. right. exists id, g. split; [done|by left].
  - intros digest Hun Hr. apply Hun. rewrite rooted_gc in Hr.
    destruct Hr as [?|[?|(id & g & Hid & Hd)]]; [by left|right; by left|right; right]. exists id, g. split; [done|].
    destruct Hd as [?|(bytes & ro & snap & Ho & Hd)]; [by left|right]. exists bytes, ro, snap. split; [|done].
    rewrite <-Hkeep; [done|]. right. right. exists id, g. split; [done|by left].
Qed.

(** An object nothing reaches is gone or keeps the epoch it was first seen. *)
Lemma collected_aging (O O' : gmap (list byte) node) (D D' : db) digest e :
  Sweep.collected true O D O' D' -> ~ rooted O D digest -> O !! digest = None \/ resident O digest ->
  default (gc_epoch D + 1) (gc_quarantine D !! digest) <= e ->
  O' !! digest = None \/ resident O' digest /\ exists m, gc_quarantine D' !! digest = Some m /\ m <= e.
Proof.
  intros [_ _ C3 _ C5 _] Hun Hres He. destruct (C3 digest) as [Hk|[Hn _]]; [|by left].
  destruct Hres as [Hn|[bytes Hb]]; [left; congruence|].
  destruct (C5 digest eq_refl (ex_intro _ _ Hb) Hun) as [?|Hm]; [by left|right].
  split; [exists bytes; congruence|]. eauto.
Qed.

(** C6: A pass of [collect], whatever fails in it, removes only objects nothing
    reaches; one that returns removed only those quarantined at least two epochs
    ago, advanced the epoch and changed no table but the collector's, and one that
    fails left every table as it was.  Where nothing fails and the manifests can
    be read, it returns. *)
Theorem collect_pass_correct s :
  safe (objs s) (w_db s) ->
  match collect_pass s with
  | (Ok _, s') =>
      same_but_gc (w_db s) (w_db s') /\ gc_epoch (w_db s') = gc_epoch (w_db s) + 1 /\
      forall digest, objs s' !! digest = objs s !! digest \/
        (objs s' !! digest = None /\ ~ rooted (objs s) (w_db s) digest /\
         exists marked, gc_quarantine (w_db s) !! digest = Some marked /\ marked <= gc_epoch (w_db s') - 2)
  | (Err _, s') =>
      w_db s' = w_db s /\
      forall digest, objs s' !! digest = objs s !! digest \/
        (objs s' !! digest = None /\ ~ rooted (objs s) (w_db s) digest)
  end /\
  (quiet s -> readable (objs s) (w_db s) -> exists report, (collect_pass s).1 = Ok report).
Proof.
  intros Hs. split.
  - pose proof (t_collect_pass false (objs s) (w_db s) (sf_clean _ _ Hs) (sf_no_dangling _ _ Hs) s ltac:(by split)) as Ht.
    destruct (collect_pass s) as [[r|e] s']; [|destruct Ht as [[Hx Hy] _]; by split].
    destruct Ht as [[C1 C2 C3 _ _ _] _]. split; [done|]. split; [done|]. intros digest.
    destruct (C3 digest) as [?|(Hn & Hr & m & Hm & Hle)]; [by left|right]. split; [done|]. split; [done|].
    exists m. split; [done|lia].
  - intros Hq Hrd. by destruct (collect_quiet s Hs Hq Hrd) as (r & s' & -> & _); exists r.
Qed.

(** C8: On a store where nothing fails and the manifests can be read, an object
    nothing reaches is gone after three passes of [collect]. *)
Theorem unreached_object_collected s digest :
  safe (objs s) (w_db s) -> quiet s -> readable (objs s) (w_db s) ->
  is_Some (objs s !! digest) -> ~ rooted (objs s) (w_db s) digest ->
  exists r1 s1 r2 s2 r3 s3,
    collect_pass s = (Ok r1, s1) /\ collect_pass s1 = (Ok r2, s2) /\ collect_pass s2 = (Ok r3, s3) /\
    objs s3 !! digest = None.
Proof.
  intros Hs Hq Hrd [n Hn] Hun.
  destruct (collect_quiet s Hs Hq Hrd) as (r1 & s1 & E1 & Q1 & C1). pose proof (collected_next _ _ _ _ C1 Hs Hrd) as (S1 & R1 & N1).
  destruct (collect_quiet s1 S1 Q1 R1) as (r2 & s2 & E2 & Q2 & C2). pose proof (collected_next _ _ _ _ C2 S1 R1) as (S2 & R2 & N2).
  destruct (collect_quiet s2 S2 Q2 R2) as (r3 & s3 & E3 & Q3 & C3).
  exists r1, s1, r2, s2, r3, s3. repeat (split; [done|]).
  destruct (sf_clean _ _ Hs _ _ Hn) as (bytes & -> & _). set (e := gc_epoch (w_db s) + 1).
  assert (default e (gc_quarantine (w_db s) !! digest) <= e) as He.
  { destruct (gc_quarantine (w_db s) !! digest) as [m|] eqn:Em; cbn; [|lia]. destruct (sf_quarantine _ _ Hs _ _ Em). lia. }
  pose proof (collected_aging _ _ _ _ digest e C1 Hun ltac:(right; by exists bytes) He) as A1.
  assert (objs s2 !! digest = None \/ resident (objs s2) digest /\
    exists m, gc_quarantine (w_db s2) !! digest = Some m /\ m <= e) as A2.
  { destruct A1 as [Hg|(Hr & m & Hm & Hme)].
    - destruct (c_kept _ _ _ _ _ C2 digest) as [Hk|[Hk _]]; left; congruence.
    - apply (collected_aging _ _ _ _ digest e C2 (N1 digest Hun)); [by right|by rewrite Hm]. }
  destruct A2 as [Hg|(Hr & m & Hm & Hme)].
  - destruct (c_kept _ _ _ _ _ C3 digest) as [Hk|[Hk _]]; congruence.
  - apply (c_swept _ _ _ _ _ C3 digest m eq_refl (N2 digest (N1 digest Hun)) Hm).
    pose proof (c_epoch _ _ _ _ _ C1). pose proof (c_epoch _ _ _ _ _ C2). unfold e in *. lia.
Qed.
End gc.
