(* ===== verification/Runs.v ===== *)
(** Concrete runs that meet the hypotheses of the workspaces' theorems: a store
    that admits an object, commits two workspaces, seals and collects. *)

From S2P Require Import Utf8.
From S2P Require Import Guarantees.

#[local] Existing Instances toy_sha ascii_unicode reversed sqlite_rowid ample_memory sample_json stable_sort.

(** ** A run *)

Definition abc : list byte := bstr "abc".
Definition abc_digest : list byte := sha256 abc.
Definition opened : world := World (Disk ∅ ∅ [] true 7 0 100 1) fresh_db [].
Definition with_abc : world := (store (put_bytes abc) opened).2.
Definition with_workspaces2 : world :=
  (create_workspace (bstr "v") (create_workspace (bstr "w") with_abc).2).2.
Definition batch : list mutation :=
  [Mkdir (bstr "m"); CreateFile (bstr "m/f") false BlobV1 [Data abc_digest 3; Hole 2; Data abc_digest 2];
   CreateFile (bstr "h") true BlobV1 [Data abc_digest 3]; MHardlink (bstr "g") (bstr "m/f")].
Definition batch_digests : gset (list byte) := {[abc_digest]}.
Definition prepared : world := (commit_prepare batch with_workspaces2).2.
Definition demo_head : world := (commit_transaction (bstr "w") batch batch_digests prepared).2.

Lemma batch_typed : Forall mutation_typed batch.
Proof.
  repeat constructor; try done; cbn [mutation_typed mutation_text wf_record]; try (by vm_compute);
    unfold in_u64; try lia.
Qed.

(** A run that returned, from a check of its answer alone. *)
Lemma answered {E A : Type} (p : A -> bool) (r : result E A) :
  match r with Ok a => p a | Err _ => false end = true -> exists a, r = Ok a /\ p a = true.
Proof. destruct r as [a|e]; [eauto|done]. Qed.

Lemma batch_referenced : referenced_digests batch = Ok batch_digests.
Proof.
  destruct (answered (fun r => bool_decide (r = batch_digests)) (referenced_digests batch)) as (r & -> & Hr);
    [vm_compute; reflexivity|]. by apply bool_decide_eq_true in Hr as ->.
Qed.

Lemma with_abc_reachable : reachable with_abc.
Proof.
  refine (reachable_step opened with_abc (reachable_fresh opened _ _) (step_put abc opened _)); [done|done|by vm_compute].
Qed.

Lemma workspaces_reachable : reachable with_workspaces2.
Proof.
  eapply reachable_step; [|apply step_create_workspace].
  eapply reachable_step; [exact with_abc_reachable|apply step_create_workspace].
Qed.

Lemma demo_head_reachable : reachable demo_head.
Proof.
  eapply reachable_step; [|apply (step_commit_transaction (bstr "w") batch batch_digests prepared)].
  - eapply reachable_step; [exact workspaces_reachable|apply step_commit_prepare].
  - exact batch_typed.
  - exact batch_referenced.
Qed.

Lemma with_abc_safe : safe (objs with_abc) (w_db with_abc).
Proof. exact (reachable_inv _ with_abc_reachable). Qed.
Lemma workspaces_safe : safe (objs with_workspaces2) (w_db with_workspaces2).
Proof. exact (reachable_inv _ workspaces_reachable). Qed.
Lemma demo_head_safe : safe (objs demo_head) (w_db demo_head).
Proof. exact (reachable_inv _ demo_head_reachable). Qed.

Definition demo_row : workspace_row_t := WorkspaceRow 1 1 1.
Lemma demo_head_row : workspace_row (w_db demo_head) (bstr "w") = Ok demo_row.
Proof. vm_compute. reflexivity. Qed.

(** ** Witnesses *)

Lemma reachable_no_dangling_witness :
  exists bytes, objs demo_head !! abc_digest = Some (Regular bytes true) /\ sha256 bytes = abc_digest.
Proof.
  apply (reachable_no_dangling demo_head abc_digest demo_head_reachable).
  left. eexists (4, 0), _. split; [vm_compute; reflexivity|reflexivity].
Defined.

Lemma reachable_typed_witness :
  exists records, read_records (w_db demo_head) 4 = Ok records /\ wf_run records.
Proof. destruct (reachable_typed demo_head demo_head_reachable) as (_ & Hr & _). exact (Hr 4). Defined.

Lemma staging_terminates_witness :
  exists b, stage_builder (w_db demo_head) demo_row None = Some (Ok b) /\ (bstr "m/f" ∈ (b_pending b).*1).
Proof.
  destruct (staging_terminates demo_head (bstr "w") demo_row None demo_head_reachable demo_head_row)
    as (b & Hb & _ & Hp & _).
  exists b. split; [exact Hb|]. apply Hp. exists [bstr "m"; bstr "f"]. split; [done|]. split; [by vm_compute|].
  exists 4. by vm_compute.
Defined.

Lemma apply_mutation_correct_witness :
  let d' := default (w_db demo_head) (match apply_mutation (w_db demo_head) demo_row (Rename (bstr "m") (bstr "k")) with
    | Ok d => Some d | Err _ => None end) in
  spec_mutation (Rename (bstr "m") (bstr "k")) (view (w_db demo_head) 1) (view d' 1).
Proof.
  cbn zeta. destruct (answered (fun _ => true) (apply_mutation (w_db demo_head) demo_row (Rename (bstr "m") (bstr "k"))))
    as (d' & E & _); [vm_compute; reflexivity|]. rewrite E.
  refine (proj2 (proj1 (apply_mutation_correct (w_db demo_head) demo_row (Rename (bstr "m") (bstr "k")) d' _ _ _ E) _));
    [..|discriminate].
  - apply demo_head_safe.
  - exact (workspace_row_rooted _ _ _ demo_head_row).
  - done.
Defined.

Lemma commit_generation_atomic_witness :
  (commit_generation (bstr "w") batch with_workspaces2).1 = Ok 1 /\
  exists w, workspace_row (w_db (commit_generation (bstr "w") batch with_workspaces2).2) (bstr "w")
    = Ok (WorkspaceRow (w_id w) 1 (w_root_inode w)).
Proof.
  destruct (answered (fun next => next =? 1) (commit_generation (bstr "w") batch with_workspaces2).1) as (next & E & Hn);
    [vm_compute; reflexivity|]. apply Z.eqb_eq in Hn as ->. split; [exact E|].
  destruct (commit_generation_atomic (bstr "w") batch with_workspaces2 workspaces_safe batch_typed) as [Hc _].
  destruct (commit_generation (bstr "w") batch with_workspaces2) as [r s']. cbn in E. subst r.
  destruct Hc as (_ & _ & w & D & _ & _ & _ & Hw & _). exists w. exact Hw.
Defined.

Definition v_row : workspaces_row := WorkspacesRow (bstr "v") 0 2.
Lemma commit_generation_isolated_witness :
  workspaces (w_db (commit_generation (bstr "w") batch with_workspaces2).2) !! 2 = Some v_row.
Proof.
  destruct (answered (fun next => next =? 1) (commit_generation (bstr "w") batch with_workspaces2).1) as (next & E & _);
    [vm_compute; reflexivity|].
  destruct (commit_generation (bstr "w") batch with_workspaces2) as [r s'] eqn:Ec. cbn in E. subst r.
  refine (proj1 (commit_generation_isolated (bstr "w") batch with_workspaces2 next s' 2 v_row workspaces_safe
    batch_typed Ec _ _)); by vm_compute.
Defined.

(** A head whose every file is one object already. *)
Definition small_batch : list mutation :=
  [Mkdir (bstr "m"); CreateFile (bstr "m/f") false BlobV1 [Data abc_digest 3]; MHardlink (bstr "g") (bstr "m/f")].
Definition small_head : world :=
  (commit_transaction (bstr "w") small_batch batch_digests (commit_prepare small_batch with_workspaces2).2).2.
Lemma small_head_safe : safe (objs small_head) (w_db small_head).
Proof.
  assert (Forall mutation_typed small_batch) as Hty.
  { repeat constructor; try done; cbn [mutation_typed mutation_text wf_record]; try (by vm_compute); unfold in_u64; lia. }
  apply (reachable_inv small_head).
  eapply reachable_step; [|apply (step_commit_transaction (bstr "w") small_batch batch_digests)];
    [eapply reachable_step; [exact workspaces_reachable|apply step_commit_prepare]|exact Hty|].
  destruct (answered (fun r => bool_decide (r = batch_digests)) (referenced_digests small_batch)) as (r & -> & Hr);
    [vm_compute; reflexivity|]. by apply bool_decide_eq_true in Hr as ->.
Qed.
Lemma small_head_row : workspace_row (w_db small_head) (bstr "w") = Ok demo_row.
Proof. by vm_compute. Qed.

Lemma build_snapshot_correct_witness :
  exists snap, build_snapshot (w_db small_head) demo_row None = Some (Ok snap) /\
    exists a, nodes (view (w_db small_head) 1) 4 = Some a /\ reads_as snap (bstr "g") a.
Proof.
  destruct (answered (fun _ => true) (no_end (build_snapshot (w_db small_head) demo_row None))) as (snap & E & _);
    [vm_compute; reflexivity|]. unfold no_end in E.
  destruct (build_snapshot (w_db small_head) demo_row None) as [[s|]|] eqn:Eb; [|done..]. injection E as ->.
  exists snap. split; [done|].
  destruct (build_snapshot_correct (w_db small_head) demo_row None snap (proj1 (sf_tables _ _ small_head_safe))
    (workspace_row_rooted _ _ _ small_head_row) Eb) as (_ & _ & Hr).
  apply (Hr [bstr "g"] 4); [done|]. by vm_compute.
Defined.

(** ** A seal *)

Definition serial : list region -> list nat := fun regions => seq 0 (length regions).
Definition planning : result workspace_error (Z * list seal_job) * world :=
  seal_plan None 1 serial (bstr "w") demo_head.

(** The toy hash is injective on short strings. *)
Lemma le_val_snoc (l : list byte) b : le_val (l ++ [b]) = le_val l + 256 ^ zlen l * byte_val b.
Proof.
  induction l as [|x l IH]; cbn [app le_val]; [change (256 ^ zlen []) with 1; lia|]. rewrite IH.
  change (zlen (x :: l)) with (Z.of_nat (S (length l))). rewrite Nat2Z.inj_succ, Z.pow_succ_r by lia. unfold zlen. nia.
Qed.

Lemma toy_sha_inj (a b : list byte) : (length a < 32)%nat -> (length b < 32)%nat -> sha256 a = sha256 b -> a = b.
Proof.
  intros Ha Hb Heq. change (toy_sha256 a = toy_sha256 b) in Heq. unfold toy_sha256 in Heq.
  assert (forall l, (length l < 32)%nat -> le_val (le_bytes 32 (le_val (l ++ [byte_of 1]))) = le_val l + 256 ^ zlen l) as Hv.
  { intros l Hl. rewrite le_val_le_bytes, Z.mod_small.
    - rewrite le_val_snoc. replace (byte_val (byte_of 1)) with 1 by done. lia.
    - pose proof (le_val_bound (l ++ [byte_of 1])) as Hbound. split; [lia|]. eapply Z.lt_le_trans; [apply Hbound|].
      apply Z.pow_le_mono_r; [lia|]. unfold zlen. rewrite length_app. cbn. lia. }
  pose proof (f_equal le_val Heq) as Hval. rewrite !Hv in Hval by done.
  pose proof (le_val_bound a) as Ba. pose proof (le_val_bound b) as Bb.
  assert (length a = length b) as Hlen.
  { unfold zlen in *. destruct (lt_eq_lt_dec (length a) (length b)) as [[Hlt|]|Hlt]; [exfalso|done|exfalso].
    - assert (256 * 256 ^ Z.of_nat (length a) <= 256 ^ Z.of_nat (length b)); [|lia].
      rewrite <-Z.pow_succ_r by lia. apply Z.pow_le_mono_r; lia.
    - assert (256 * 256 ^ Z.of_nat (length b) <= 256 ^ Z.of_nat (length a)); [|lia].
      rewrite <-Z.pow_succ_r by lia. apply Z.pow_le_mono_r; lia. }
  unfold zlen in Hval. rewrite Hlen in Hval.
  rewrite <-(le_bytes_le_val a), <-(le_bytes_le_val b), Hlen. f_equal. lia.
Qed.

(** Every file of a head, by a check of its inodes; every object, of the map. *)
Definition file_check (D : db) (p : list file_record -> bool) (i : Z) : bool :=
  match node_at D i with Some (AFile _ _ _ records) => p records | _ => true end.
Lemma files_checked (D : db) w (p : list file_record -> bool) :
  forallb (file_check D p) (map_to_list (inodes D)).*1 = true ->
  forall path records, head_file D w path records -> p records = true.
Proof.
  intros Hb path records (i & x & pl & c & _ & Hn).
  assert (is_Some (inodes D !! ri_id i)) as [row Hi].
  { unfold node_at in Hn. destruct (inodes D !! ri_id i); [by eexists|done]. }
  rewrite forallb_forall in Hb. specialize (Hb (ri_id i)). unfold file_check in Hb. rewrite Hn in Hb. apply Hb.
  apply list_elem_of_In, list_elem_of_fmap. exists (ri_id i, row). split; [done|]. by apply elem_of_map_to_list.
Qed.
Lemma objects_checked (O : gmap (list byte) node) (p : node -> bool) :
  forallb (fun kn => p kn.2) (map_to_list O) = true -> forall digest n, O !! digest = Some n -> p n = true.
Proof.
  intros Hall digest n Hd. rewrite forallb_forall in Hall. apply (Hall (digest, n)).
  apply list_elem_of_In. by apply elem_of_map_to_list.
Qed.

Definition abc_record (r : file_record) : bool :=
  match r with Data digest n => bool_decide (digest = abc_digest) && (n <=? 3) | Hole n => n <=? 2 end.
Lemma demo_records path records :
  head_file (w_db demo_head) demo_row path records ->
  forallb abc_record records = true /\ (length records <= 3)%nat.
Proof.
  intros Hf. split; [|apply Nat.leb_le].
  - revert path records Hf. apply (files_checked (w_db demo_head) demo_row (forallb abc_record)). vm_compute. reflexivity.
  - revert path records Hf. apply (files_checked (w_db demo_head) demo_row (fun records => length records <=? 3)%nat). vm_compute. reflexivity.
Qed.

Lemma demo_abc : objs demo_head !! abc_digest = Some (Regular abc true).
Proof. vm_compute. reflexivity. Qed.

Lemma abc_run records :
  forallb abc_record records = true ->
  run_resident (objs demo_head) records /\ (length (run_bytes (objs demo_head) records) <= 3 * length records)%nat.
Proof.
  induction records as [|r records IH]; [split; [constructor|cbn; lia]|]. cbn [forallb].
  intros [Hr [Hres Hlen]%IH]%andb_true_iff. change (run_bytes (objs demo_head) (r :: records)) with
    (record_bytes (objs demo_head) r ++ run_bytes (objs demo_head) records). rewrite length_app. cbn [length].
  destruct r as [digest n|n]; cbn [abc_record] in Hr.
  - apply andb_true_iff in Hr as [->%bool_decide_eq_true Hn]. apply Z.leb_le in Hn. split.
    + constructor; [|done]. exists abc, true. split; [exact demo_abc|]. change (zlen abc) with 3. done.
    + cbn [record_bytes]. rewrite length_resize. lia.
  - apply Z.leb_le in Hr. split; [by constructor|]. cbn [record_bytes]. rewrite length_replicate. lia.
Qed.

Lemma demo_long path records :
  head_file (w_db demo_head) demo_row path records -> run_resident (objs demo_head) records.
Proof. intros [Hr _]%demo_records. by apply abc_run. Qed.

Lemma demo_pool_short bytes : seal_pool (objs demo_head) (w_db demo_head) demo_row bytes -> (length bytes < 32)%nat.
Proof.
  intros [(digest & ro & Hd)|(path & records & i & j & [Hr Hn]%demo_records & ->)].
  - apply Nat.ltb_lt.
    apply (objects_checked (objs demo_head) (fun n => match n with Regular b _ => (length b <? 32)%nat | _ => true end)
      ltac:(vm_compute; reflexivity) digest (Regular bytes ro) Hd).
  - destruct (abc_run _ Hr) as [_ Hl]. unfold slice. rewrite length_take, length_drop. lia.
Qed.

Lemma demo_pool_inj a b :
  seal_pool (objs demo_head) (w_db demo_head) demo_row a -> seal_pool (objs demo_head) (w_db demo_head) demo_row b ->
  sha256 a = sha256 b -> a = b.
Proof. intros Ha%demo_pool_short Hb%demo_pool_short. by apply toy_sha_inj. Qed.

(** One job: the file with a hole becomes one object of seven bytes. *)
Lemma planning_jobs : exists jobs, planning.1 = Ok (1, jobs) /\ (1 <=? length jobs)%nat = true.
Proof.
  destruct (answered (fun gj => (gj.1 =? 1) && (1 <=? length gj.2)%nat) planning.1) as ([g jobs] & E & Hj);
    [vm_compute; reflexivity|]. cbn [fst snd] in Hj. apply andb_true_iff in Hj as [->%Z.eqb_eq Hj]. exists jobs. exact (conj E Hj).
Qed.

Lemma seal_plan_keeps_bytes_witness :
  exists jobs, planning.1 = Ok (1, jobs) /\ (1 <= length jobs)%nat /\
  Forall (fun job => exists records, head_file (w_db demo_head) demo_row (sj_path job) records /\
    (sj_update_records job = true ->
       run_bytes (objs planning.2) (sj_records job) = run_bytes (objs demo_head) records)) jobs.
Proof.
  destruct planning_jobs as (jobs & E & Hj). exists jobs. split; [exact E|]. split; [exact (proj1 (Nat.leb_le _ _) Hj)|].
  assert (planning = (Ok (1, jobs), planning.2)) as Hp by (rewrite <-E; apply surjective_pairing).
  destruct (seal_plan_keeps_bytes None 1 serial (bstr "w") demo_row demo_head 1 jobs planning.2
    ltac:(done) ltac:(done) demo_head_safe demo_head_row demo_pool_inj demo_long Hp) as (_ & _ & _ & Hjobs).
  eapply Forall_impl; [exact Hjobs|]. intros job (records & Hf & Hk). exists records. split; [done|]. intros Hu. by apply Hk.
Defined.



(** ** A collection *)

Lemma mark_exact_witness :
  exists m, (mark demo_head).1 = Ok m /\ is_rooted m abc_digest = true.
Proof.
  destruct (answered (fun _ => true) (mark demo_head).1) as (m & E & _); [vm_compute; reflexivity|].
  exists m. split; [exact E|]. destruct (mark demo_head) as [r s'] eqn:Em. cbn in E. subst r.
  apply (mark_exact demo_head m s' demo_head_safe Em). left. eexists (4, 0), _. split; [vm_compute; reflexivity|reflexivity].
Defined.

Lemma with_abc_quiet : quiet with_abc.
Proof. split; [split|]; vm_compute; reflexivity. Qed.
Lemma with_abc_tables : w_db with_abc = fresh_db.
Proof. vm_compute. reflexivity. Qed.
Lemma with_abc_readable : readable (objs with_abc) (w_db with_abc).
Proof. rewrite with_abc_tables. intros id g Hid. discriminate Hid. Qed.
Lemma with_abc_unrooted digest : ~ rooted (objs with_abc) (w_db with_abc) digest.
Proof.
  rewrite with_abc_tables. intros [(k & row & Hk & _)|[(l & Hl)|(id & g & Hid & _)]]; [discriminate Hk| |discriminate Hid].
  by apply not_elem_of_empty in Hl.
Qed.

Lemma collect_pass_correct_witness : exists report, (collect_pass with_abc).1 = Ok report.
Proof. exact (proj2 (collect_pass_correct with_abc with_abc_safe) with_abc_quiet with_abc_readable). Defined.

Lemma unreached_object_collected_witness :
  exists r1 s1 r2 s2 r3 s3,
    collect_pass with_abc = (Ok r1, s1) /\ collect_pass s1 = (Ok r2, s2) /\ collect_pass s2 = (Ok r3, s3) /\
    objs s3 !! abc_digest = None.
Proof.
  apply (unreached_object_collected with_abc abc_digest with_abc_safe with_abc_quiet with_abc_readable).
  - exists (Regular abc true). vm_compute. reflexivity.
  - exact (with_abc_unrooted abc_digest).
Defined.

(** ** A step the invariant excludes *)

(** [Rmdir] of the empty path removes the root of an empty workspace: its row
    keeps naming an inode that is gone. *)
Definition rootless : world := (commit_generation (bstr "v") [Rmdir []] with_workspaces2).2.
Lemma rmdir_root_loses_root :
  (commit_generation (bstr "v") [Rmdir []] with_workspaces2).1 = Ok 1 /\
  workspace_row (w_db rootless) (bstr "v") = Ok (WorkspaceRow 2 1 2) /\
  inodes (w_db rootless) !! 2 = None.
Proof. split; [|split]; vm_compute; reflexivity. Qed.
