(* ===== verification/Composition.v ===== *)
(** The guarantees of composition ([src/crates/tensorfs-core/src/compose.rs]),
    and concrete containers that are re-keyed, re-cut and derived. *)
From S2P Require Import PermuteKernel Adapter Runs.
From S2P Require Export AdoptFacts.

Section guarantees.
Context `{Sha256, Allocator, HeaderJson, EntrySort, JsonText}.

(** C21: A re-key or a trim keeps the tensors.  Whatever a [rekey] or a [subset]
    of a resident container returns, the store only gains objects that hold the
    bytes they are named by.  When it answers with a container, that container
    is one header for the tensors named (the file's own order, the new names,
    the positions they are stored at), then each tensor's bytes, unchanged and
    shared with the source; its stated size is the size of those bytes. *)
Theorem compose_keeps_tensors pool format contract n records names unnamed d :
  collision_free pool -> store_in pool d -> run_fits records -> run_resident (objects d) records ->
  composable (objects d) records pool format names d ->
  match compose_body (Tensor format contract n records) names unnamed d with
  | (Ok body, d') => grown pool (objects d) (objects d') /\
      exists composed bytes,
        composed_file (objects d) records format names unnamed d = Some bytes /\
        holds_run (objects d') composed bytes /\
        (zlen bytes < U64 -> body = Tensor format contract (zlen bytes) composed)
  | (Err _, d') => grown pool (objects d) (objects d')
  end.
Proof.
  intros Hinj Hs Hfit Hres Hc.
  pose proof (compose_body_keeps (objects d) records Hfit Hres pool Hinj format contract n names unnamed d
    (store_in_grown _ _ Hs) Hc) as Hb.
  destruct (compose_body _ _ _ d) as [[body|e] d']; [|exact Hb].
  destruct Hb as [Hg (composed & bytes & -> & Hf & Hh)]. split; [exact Hg|]. exists composed, bytes.
  split; [exact Hf|]. split; [exact Hh|]. intros Hlt.
  by rewrite records_sum_eq, (hr_sum _ _ _ Hh) by (by eapply holds_run_fits).
Qed.

(** C22: Adopting a contract keeps every byte.  Re-cutting a resident container
    under a contract, by any schedule of the concurrent admissions, leaves the
    committed objects in place, and the container it answers with denotes the
    same file, of the same size and format. *)
Theorem adopt_keeps_bytes pool concurrency schedule format old n records contract d :
  collision_free pool -> store_in pool d -> run_fits records -> run_resident (objects d) records ->
  (forall i j, pool (slice (run_bytes (objects d) records) i j)) ->
  (forall regions, schedule regions ≡ₚ seq 0 (length regions)) ->
  match adopt concurrency schedule (Tensor format old n records) contract d with
  | (Ok body, d') => grown pool (objects d) (objects d') /\
      exists c composed,
        body = Tensor format c (zlen (run_bytes (objects d) records)) composed /\
        holds_run (objects d') composed (run_bytes (objects d) records)
  | (Err _, d') => grown pool (objects d) (objects d')
  end.
Proof.
  intros Hinj Hs Hfit Hres Hsl Hsched.
  pose proof (t_adopt_contract pool Hinj (objects d) records Hfit Hres Hsl concurrency schedule Hsched format old n contract d
    (store_in_grown _ _ Hs)) as Ha.
  by destruct (adopt _ _ _ _ d) as [[body|e] d'].
Qed.

(** C23: A derivation serves the target layout, between validated contracts.  When
    [derive] answers with a container, it is a safetensors file stamped with the
    target contract: a header declaring some tensors, then each of them in order.
    Each is named by a declaration of the target, and is made of the source's runs
    for the roles that declaration splits it into, in that order; its bytes are
    those runs where neither layout permutes or both do alike, the transposition
    the target declares of them where only the target permutes, and where only the
    source does the bytes whose transposition by the source's permute they are - for
    runs of whole elements, the others being no subject of a permute.  Every byte of
    every tensor the source contract describes is in a run of one of them.  Whatever
    [derive] answers, the objects the source is made of are untouched. *)
Theorem derive_serves_target pool format c n records source target d :
  collision_free pool -> store_in pool d -> run_fits records -> run_resident (objects d) records ->
  contract_ok source -> contract_fits source -> permutes_ok source -> contract_ok target -> permutes_ok target ->
  (forall a, adapter_of records source target d = Some a ->
     admissible pool (safetensors_header (derived_declared a)) /\
     Forall (moves_admissible pool (objects d) records) (ad_tensors a)) ->
  match derive (Tensor format c n records) source target d with
  | (Ok body, d') => grown pool (objects d) (objects d') /\
      exists found tensors parts composed,
        (inventory (H := records_byte_source records) d).1 = Ok (Some found) /\
        Forall2 (serves (objects d) records source target (inv_tensors found)) tensors parts /\
        (forall tensor x, tensor ∈ inv_tensors found -> described source tensor ->
           it_offset tensor <= x < it_offset tensor + it_length tensor ->
           exists t r, t ∈ tensors /\ r ∈ dt_runs t /\ sr_offset r <= x < sr_offset r + sr_length r) /\
        let bytes := safetensors_header (derived_declared (Adapter tensors)) ++ mjoin parts in
        holds_run (objects d') composed bytes /\
        body = Tensor TF_SafetensorsV1 (contract_stamp target) (records_sum composed) composed /\
        (zlen bytes < U64 -> records_sum composed = zlen bytes)
  | (Err _, d') => grown pool (objects d) (objects d')
  end.
Proof.
  intros Hinj Hs Hfit Hres Hok Hfits Hview Hok' Hview' Hadm.
  pose proof (derive_serves pool Hinj (objects d) records Hfit Hres format c n source target d Hok Hfits
    (store_in_grown _ _ Hs) Hadm) as Hb.
  destruct (derive _ _ _ d) as [[body|e] d']; [|exact Hb].
  destruct Hb as [Hg (a & composed & bytes & Ha & (parts & Hparts & ->) & -> & Hh)]. split; [exact Hg|]. unfold adapter_of in Ha.
  pose proof (inventory_inside (objects d) records Hfit d) as Hin.
  destruct (inventory d).1 as [[found|]|e]; [|done..]. specialize (Hin found eq_refl).
  destruct (decide_layout source found target) as [decision|e] eqn:Ed; [|done].
  assert (Forall tensor_fits (inv_tensors found)) as Htf by (eapply Forall_impl; [exact Hin|]; by intros t []).
  exists found, (ad_tensors a), parts, composed. split; [done|]. split; [|split; [|cbv zeta; destruct a; split; [exact Hh|split; [done|intros Hlt]]]].
  { apply Forall2_same_length_lookup. split; [by eapply Forall2_length|]. intros i t part Ht Hp.
    pose proof (Forall2_lookup_lr _ _ _ _ _ _ Hparts Ht Hp). eapply view_serves; eauto using list_elem_of_lookup_2. }
  { by destruct (view_keeps_every_byte _ _ _ _ _ Hok Hfits Htf Ed Ha) as (_ & Hall & _). }
  by rewrite records_sum_eq, (hr_sum _ _ _ Hh) by (by eapply holds_run_fits).
Qed.
End guarantees.

(** ** Concrete containers *)

(** A deserializer that knows one document: a matrix of two rows and a vector. *)
Definition pair_entries : list (list byte * header_value) :=
  [(bstr "w", HeaderValue None (Some (TensorDescriptor (bstr "U8") [2; 3] 0 6)));
   (bstr "v", HeaderValue None (Some (TensorDescriptor (bstr "U8") [2] 6 8)))].
Definition pair_json : HeaderJson.
Proof.
  refine {| header_entries bytes := if bool_decide (bytes = bstr "{}") then Some pair_entries else None |}.
  intros bytes entries name v t Hb Hin Hv. case_bool_decide; [|done]. injection Hb as <-.
  repeat (apply elem_of_cons in Hin as [[= -> ->]|Hin];
    [injection Hv as <-; split_and!; unfold in_u64, U64; repeat constructor; simpl; lia|]).
  by apply not_elem_of_nil in Hin.
Defined.
Definition plain_text : JsonText := {| json_string s := quoted s |}.

#[local] Existing Instances toy_sha ample_memory pair_json stable_sort plain_text.

Definition pair_header : list byte := u64_bytes 2 ++ bstr "{}".
Definition matrix : list byte := bstr "abcdef".
Definition vector : list byte := bstr "gh".
Definition empty_disk : disk := Disk ∅ ∅ [] true 7 0 100 1.
Definition holding (pieces : list (list byte)) : disk :=
  foldl (fun d piece => (put_bytes piece d).2) empty_disk pieces.
Definition pair_pieces : list (list byte) := [pair_header; matrix; vector].
Definition pair_disk : disk := holding pair_pieces.
Definition pair_records : list file_record := (fun b => Data (sha256 b) (zlen b)) <$> pair_pieces.

(** A finite pool, checked pair by pair; a store of its strings. *)
Lemma listed_collision_free (pieces : list (list byte)) :
  forallb (fun a => forallb (fun b => negb (bool_decide (sha256 a = sha256 b)) || bool_decide (a = b)) pieces) pieces = true ->
  collision_free (fun b => b ∈ pieces).
Proof.
  intros Hc a b Ha Hb Heq. rewrite forallb_forall in Hc. specialize (Hc a (proj1 (list_elem_of_In _ _) Ha)).
  rewrite forallb_forall in Hc. specialize (Hc b (proj1 (list_elem_of_In _ _) Hb)).
  rewrite bool_decide_eq_true_2 in Hc by done. by apply bool_decide_eq_true in Hc.
Qed.
Definition stored_ok (p : list byte -> bool) (kn : list byte * node) : bool :=
  match kn.2 with
  | Regular bytes true => bool_decide (sha256 bytes = kn.1) && (zlen bytes <? U64) && p bytes
  | _ => false
  end.
Lemma stored_checked (pool : list byte -> Prop) p d :
  (forall bytes, p bytes = true -> pool bytes) ->
  forallb (stored_ok p) (map_to_list (objects d)) = true -> store_in pool d.
Proof.
  intros Hp Hall. rewrite forallb_forall in Hall.
  assert (forall digest n, objects d !! digest = Some n -> exists bytes, n = Regular bytes true /\
    sha256 bytes = digest /\ zlen bytes < U64 /\ pool bytes) as Hone.
  { intros digest n Hd. specialize (Hall (digest, n) ltac:(apply list_elem_of_In; by apply elem_of_map_to_list)).
    unfold stored_ok in Hall. cbn [fst snd] in Hall. destruct n as [bytes [|]|b|]; try discriminate Hall.
    apply andb_true_iff in Hall as [[Hs%bool_decide_eq_true Hl%Z.ltb_lt]%andb_true_iff Hb]. exists bytes. auto. }
  split.
  - intros digest n Hd. destruct (Hone _ _ Hd) as (bytes & -> & Hs & Hl & _). by exists bytes.
  - intros digest bytes ro Hd. by destruct (Hone _ _ Hd) as (b & [= <- _] & _ & _ & ?).
Qed.

Lemma pair_fits : run_fits pair_records.
Proof. split; [repeat constructor; vm_compute; discriminate|vm_compute; reflexivity]. Qed.
Definition resident_check (d : disk) (r : file_record) : bool :=
  match r with
  | Data digest n => match objects d !! digest with Some (Regular b _) => n <=? zlen b | _ => false end
  | Hole _ => true
  end.
Lemma resident_checked d records : forallb (resident_check d) records = true -> run_resident (objects d) records.
Proof.
  intros Hall. rewrite forallb_forall in Hall. apply Forall_forall. intros r Hr.
  specialize (Hall r (proj1 (list_elem_of_In _ _) Hr)). destruct r as [digest n|n]; [|done]. simpl in *.
  destruct (objects d !! digest) as [[b ro|?|]|]; try discriminate Hall. exists b, ro. split; [done|]. lia.
Qed.

(** Trimmed to the vector, under another name. *)
Definition trim_names : btree (list byte) := [(bstr "v", bstr "y")].
Definition trim_header : list byte := safetensors_header [(bstr "y", bstr "U8", [2], 2)].
Definition trimming : result compose_error file_body * disk :=
  subset (Tensor TF_SafetensorsV1 StampNone 18 pair_records) trim_names pair_disk.

Lemma listed (pieces : list (list byte)) bytes : bool_decide (bytes ∈ pieces) = true -> bytes ∈ pieces.
Proof. apply bool_decide_eq_true. Qed.

Lemma pair_store (pieces : list (list byte)) :
  forallb (stored_ok (fun b => bool_decide (b ∈ pieces))) (map_to_list (objects pair_disk)) = true ->
  store_in (fun b => b ∈ pieces) pair_disk.
Proof. apply stored_checked, listed. Qed.

Definition admissible_check (pieces : list (list byte)) (bytes : list byte) : bool :=
  forallb (fun b => bool_decide (b ∈ pieces)) (chunks MAX_OBJECT_SIZE bytes) && (zlen bytes <? U64).
Lemma admissible_checked (pieces : list (list byte)) (bytes : list byte) :
  admissible_check pieces bytes = true -> admissible (fun b => b ∈ pieces) bytes.
Proof.
  intros [Hc Hl%Z.ltb_lt]%andb_true_iff. split; [|exact Hl]. rewrite forallb_forall in Hc.
  apply Forall_forall. intros b Hb. by apply listed, Hc, list_elem_of_In.
Qed.

Lemma trimming_composable :
  composable (objects pair_disk) pair_records (fun b => b ∈ trim_header :: pair_pieces) TF_SafetensorsV1 trim_names pair_disk.
Proof.
  intros l Hl. apply admissible_checked.
  assert (match (st_read_layout (H := records_byte_source pair_records) pair_disk).1 with
    | Ok (Some l) => admissible_check (trim_header :: pair_pieces)
        (safetensors_header (st_declared (renamed te_name trim_names (sl_tensors l))))
    | _ => false end = true) as Hc by (vm_compute; reflexivity).
  rewrite Hl in Hc. exact Hc.
Qed.

Lemma pair_resident : run_resident (objects pair_disk) pair_records.
Proof. apply resident_checked. vm_compute. reflexivity. Qed.
Lemma trimming_pool : collision_free (fun b => b ∈ trim_header :: pair_pieces).
Proof. apply listed_collision_free. vm_compute. reflexivity. Qed.
Lemma trimming_store : store_in (fun b => b ∈ trim_header :: pair_pieces) pair_disk.
Proof. apply pair_store. vm_compute. reflexivity. Qed.

Lemma compose_keeps_tensors_witness :
  exists composed, trimming.1 = Ok (Tensor TF_SafetensorsV1 StampNone (zlen trim_header + 2) composed) /\
    run_bytes (objects trimming.2) composed = trim_header ++ vector.
Proof.
  pose proof (compose_keeps_tensors (fun b => b ∈ trim_header :: pair_pieces) TF_SafetensorsV1 StampNone 18
    pair_records trim_names Drop pair_disk trimming_pool trimming_store pair_fits pair_resident trimming_composable) as Ht.
  change (compose_body _ _ _ pair_disk) with trimming in Ht.
  assert (match trimming.1 with Ok _ => true | Err _ => false end = true) as Hok by (vm_compute; reflexivity).
  assert (composed_file (objects pair_disk) pair_records TF_SafetensorsV1 trim_names Drop pair_disk =
    Some (trim_header ++ vector)) as Hbytes by (vm_compute; reflexivity).
  destruct trimming as [[body|e] d']; [|discriminate Hok]. destruct Ht as [_ (composed & bytes & Hf & Hh & Hb)].
  rewrite Hbytes in Hf. apply (inj Some) in Hf. subst bytes. exists composed. cbn [fst snd].
  rewrite (Hb ltac:(vm_compute; reflexivity)), (hr_bytes _ _ _ Hh), zlen_app. split; reflexivity.
Defined.

(** The same file, cut in the middle of its header, adopted under no contract. *)
Definition cut_pieces : list (list byte) := [take 5 pair_header; drop 5 pair_header ++ matrix ++ vector].
Definition cut_disk : disk := holding cut_pieces.
Definition cut_records : list file_record := (fun b => Data (sha256 b) (zlen b)) <$> cut_pieces.
Definition adopting : result compose_error file_body * disk :=
  adopt 1 serial (Tensor TF_SafetensorsV1 StampNone 18 cut_records) None cut_disk.

Lemma short_collision_free : collision_free (fun b => (length b < 32)%nat).
Proof. intros a b. apply toy_sha_inj. Qed.
Lemma cut_store : store_in (fun b => (length b < 32)%nat) cut_disk.
Proof.
  apply (stored_checked _ (fun b => length b <? 32)%nat); [intros b; apply Nat.ltb_lt|]. vm_compute. reflexivity.
Qed.
Lemma cut_fits : run_fits cut_records.
Proof. split; [repeat constructor; vm_compute; discriminate|vm_compute; reflexivity]. Qed.
Lemma cut_resident : run_resident (objects cut_disk) cut_records.
Proof. apply resident_checked. vm_compute. reflexivity. Qed.
Lemma cut_bytes : run_bytes (objects cut_disk) cut_records = pair_header ++ matrix ++ vector.
Proof. vm_compute. reflexivity. Qed.
Lemma cut_slices i j : (length (slice (run_bytes (objects cut_disk) cut_records) i j) < 32)%nat.
Proof.
  rewrite cut_bytes. unfold slice. rewrite length_take, length_drop.
  change (length (pair_header ++ matrix ++ vector)) with 18%nat. lia.
Qed.

Lemma adopt_keeps_bytes_witness :
  exists composed, adopting.1 = Ok (Tensor TF_SafetensorsV1 StampNone 18 composed) /\ (length composed = 3)%nat /\
    run_bytes (objects adopting.2) composed = pair_header ++ matrix ++ vector.
Proof.
  pose proof (adopt_keeps_bytes (fun b => (length b < 32)%nat) 1 serial TF_SafetensorsV1 StampNone 18 cut_records None
    cut_disk short_collision_free cut_store cut_fits cut_resident cut_slices ltac:(done)) as Ht.
  change (adopt _ _ _ _ cut_disk) with adopting in Ht. rewrite cut_bytes in Ht.
  assert (match adopting.1 with
    | Ok (Tensor _ c _ composed) => bool_decide (c = StampNone) && (length composed =? 3)%nat
    | _ => false end = true) as Hok by (vm_compute; reflexivity).
  destruct adopting as [[body|e] d']; [|discriminate Hok]. destruct Ht as [_ (c & composed & -> & Hh)].
  cbn [fst snd] in *. apply andb_true_iff in Hok as [->%bool_decide_eq_true Hlen%Nat.eqb_eq].
  exists composed. split; [reflexivity|]. split; [exact Hlen|]. exact (hr_bytes _ _ _ Hh).
Defined.

(** The matrix transposed, the vector renamed. *)
Definition plain_doc : raw_contract :=
  doc [plain_tensor (bstr "r.w") (bstr "w") None;
       RawTensor (bstr "r.v") (bstr "v") [] (Some 1) true None None].
Definition transposed_doc : raw_contract :=
  doc [plain_tensor (bstr "r.w") (bstr "wt")
         (Some (RawPermute [JString (bstr "shape[0]"); JString (bstr "shape[1]")] [1; 0]));
       RawTensor (bstr "r.v") (bstr "u") [] (Some 1) true None None].
Definition derive_header : list byte :=
  safetensors_header [(bstr "wt", bstr "U8", [2; 3], 6); (bstr "u", bstr "U8", [2], 2)].
Definition deriving_run : result compose_error file_body * disk :=
  derive (Tensor TF_SafetensorsV1 StampNone 18 pair_records) (Adapter.validated plain_doc) (Adapter.validated transposed_doc) pair_disk.
Definition derive_pieces : list (list byte) := derive_header :: bstr "adbecf" :: pair_pieces.

Lemma plain_ok : contract_ok (Adapter.validated plain_doc).
Proof.
  apply (raw_validate_sound plain_doc); [|vm_compute; reflexivity].
  split; [done|]. apply Forall_cons. split; [done|]. apply Forall_singleton. done.
Qed.
Lemma plain_fits : contract_fits (Adapter.validated plain_doc).
Proof.
  unfold contract_fits. let ts := eval vm_compute in (c_tensors (Adapter.validated plain_doc)) in
    change (c_tensors (Adapter.validated plain_doc)) with ts.
  repeat constructor; intros f Hf; cbn in Hf; discriminate Hf.
Qed.
Lemma derive_pool : collision_free (fun b => b ∈ derive_pieces).
Proof. apply listed_collision_free. vm_compute. reflexivity. Qed.
Lemma derive_store : store_in (fun b => b ∈ derive_pieces) pair_disk.
Proof. apply pair_store. vm_compute. reflexivity. Qed.
Definition tensor_check (t : derived_tensor_t) : bool :=
  transform_is_identity (dt_transform t)
  || match derived_bytes (objects pair_disk) pair_records t with
     | Some moved => admissible_check derive_pieces moved
     | None => true
     end.
Lemma derive_admissible a :
  adapter_of pair_records (Adapter.validated plain_doc) (Adapter.validated transposed_doc) pair_disk = Some a ->
  admissible (fun b => b ∈ derive_pieces) (safetensors_header (derived_declared a)) /\
  Forall (moves_admissible (fun b => b ∈ derive_pieces) (objects pair_disk) pair_records) (ad_tensors a).
Proof.
  intros Ha. assert (match adapter_of pair_records (Adapter.validated plain_doc) (Adapter.validated transposed_doc) pair_disk with
    | Some a => admissible_check derive_pieces (safetensors_header (derived_declared a)) && forallb tensor_check (ad_tensors a)
    | None => false end = true) as Hc by (vm_compute; reflexivity).
  rewrite Ha in Hc. apply andb_true_iff in Hc as [Hh Ht]. split; [by apply admissible_checked|].
  rewrite forallb_forall in Ht. apply Forall_forall. intros t Hin Hid moved Hm.
  specialize (Ht t (proj1 (list_elem_of_In _ _) Hin)). unfold tensor_check in Ht. rewrite Hid, Hm in Ht.
  by apply admissible_checked.
Qed.

Lemma transposed_ok : contract_ok (Adapter.validated transposed_doc).
Proof.
  apply (raw_validate_sound transposed_doc); [|vm_compute; reflexivity].
  split; [done|]. apply Forall_cons. split; [|apply Forall_singleton; done]. split; [done|].
  intros p [= <-]. repeat constructor; cbn; lia.
Qed.
Definition views_check (c : contract) : bool :=
  forallb (fun t => match tp_permute t with
    | Some p => forallb (fun dim => match dim with DLiteral n => 0 <=? n | DAxis _ n => 0 <=? n | DAuto => true end) (pm_view p)
    | None => true end) (c_tensors c).
Lemma views_checked c : views_check c = true -> permutes_ok c.
Proof.
  intros Hc. unfold views_check in Hc. rewrite forallb_forall in Hc. apply Forall_forall. intros t Ht p Hp.
  specialize (Hc t (proj1 (list_elem_of_In _ _) Ht)). cbn in Hc. rewrite Hp in Hc. rewrite forallb_forall in Hc. apply Forall_forall.
  intros dim Hd. specialize (Hc dim (proj1 (list_elem_of_In _ _) Hd)). destruct dim; [lia|lia|done].
Qed.

Lemma plain_views : permutes_ok (Adapter.validated plain_doc).
Proof. apply views_checked. vm_compute. reflexivity. Qed.
Lemma transposed_views : permutes_ok (Adapter.validated transposed_doc).
Proof. apply views_checked. vm_compute. reflexivity. Qed.

Lemma derive_serves_target_witness :
  exists found tensors parts stamp n composed, deriving_run.1 = Ok (Tensor TF_SafetensorsV1 stamp n composed) /\
    Forall2 (serves (objects pair_disk) pair_records (Adapter.validated plain_doc) (Adapter.validated transposed_doc) (inv_tensors found))
      tensors parts /\
    safetensors_header (derived_declared (Adapter.Adapter tensors)) ++ mjoin parts = derive_header ++ bstr "adbecf" ++ vector.
Proof.
  pose proof (derive_serves_target (fun b => b ∈ derive_pieces) TF_SafetensorsV1 StampNone 18 pair_records
    (Adapter.validated plain_doc) (Adapter.validated transposed_doc) pair_disk derive_pool derive_store pair_fits pair_resident
    plain_ok plain_fits plain_views transposed_ok transposed_views
    derive_admissible) as Ht.
  change (derive _ _ _ pair_disk) with deriving_run in Ht.
  assert (match deriving_run with
    | (Ok (Tensor _ _ _ composed), d') => bool_decide (run_bytes (objects d') composed = derive_header ++ bstr "adbecf" ++ vector)
    | _ => false end = true) as Hok by (vm_compute; reflexivity).
  destruct deriving_run as [[body|e] d']; [|discriminate Hok].
  destruct Ht as [_ (found & tensors & parts & composed & _ & Hserves & _ & Hh & -> & _)]. apply bool_decide_eq_true in Hok.
  exists found, tensors, parts, (contract_stamp (Adapter.validated transposed_doc)), (records_sum composed), composed.
  split; [reflexivity|]. split; [exact Hserves|]. rewrite <-(hr_bytes _ _ _ Hh). exact Hok.
Defined.
