(* ===== verification/SyncRuns.v ===== *)
(** Concrete remotes for the sync engine ([src/crates/tensorfs-core/src/sync.rs]):
    a hub that takes a push through both lanes and serves it back to an empty
    store, and a remote that keeps a push going without end. *)
From S2P Require Import Tfp1 Runs Composition.
From S2P Require Export Machine SyncGuarantees.

#[local] Existing Instances toy_sha ascii_unicode reversed sqlite_rowid ample_memory.

(** ** A hub *)

(** What it holds, the manifest declared, the parts that landed (of which blob,
    and their bytes), how many more it takes, the polls a completion needs, and
    the head. *)
Record hub : Type := Hub {
  hub_held : list (list byte); hub_manifest : option (list byte); hub_parts : list (list byte * list byte);
  hub_quota : nat; hub_polls : nat; hub_head : option (list byte)
}.
Definition hub_find (digest : list byte) (h : hub) : option (list byte) :=
  snd <$> list_find (fun b => sha256 b = digest) (hub_held h).
Definition hub_closure (h : hub) : owed :=
  match decode <$> hub_manifest h with Some (Ok snap) => data_closure snap | _ => [] end.

(** What is owed in each lane: packs carry what is two bytes or less. *)
Definition owed_in (lane : Z -> bool) (h : hub) : owed :=
  List.filter (fun x => lane x.2 && bool_decide (hub_find x.1 h = None)) (hub_closure h).
Definition pack_lane (n : Z) : bool := n <=? 2.
Definition blob_lane (n : Z) : bool := 2 <? n.
Definition hub_add (strings : list (list byte)) (h : hub) : hub :=
  Hub (hub_held h ++ strings) (hub_manifest h) (hub_parts h) (hub_quota h) (hub_polls h) (hub_head h).

Definition refuses (code : list byte) : transport_error := TE_Refused code [].

Definition hub_declare (manifest : list byte) (_ : option (list byte)) : M hub transport_error sync_plan := fun h =>
  match decode manifest with
  | Err _ => (Err (refuses (bstr "manifest")), h)
  | Ok _ =>
      let h := Hub (hub_held h) (Some manifest) [] (hub_quota h) (hub_polls h) (hub_head h) in
      (Ok (SyncPlan (sha256 manifest) (bstr "session")
             (List.filter (fun d => bool_decide (hub_find d h <> None)) (hub_closure h).*1) []
             (owed_in pack_lane h) (owed_in blob_lane h) 2 1), h)
  end.
Definition hub_pack_grants (_ : list byte) (claims : list pack_claim) : M hub transport_error grants_plan := fun h =>
  (Ok (GrantsPlan ((fun c => PackGrant (pc_sha256 c) [] [] []) <$> claims) []
         (owed_in pack_lane h) (owed_in blob_lane h)), h).
Definition hub_upload_pack (grant : pack_grant) (pack : list byte) : M hub transport_error unit := fun h =>
  match pack_decode pack with
  | Some (Ok p) =>
      if bool_decide (pg_pack_sha256 grant = to_hex (sha256 pack)) then
        (Ok tt, hub_add (match Tfp1.objects p with Some os => po_bytes <$> os | None => [] end) h)
      else (Err (refuses (bstr "checksum")), h)
  | _ => (Err (refuses (bstr "pack")), h)
  end.
Definition hub_blob_parts (digest : list byte) (n : Z) : list blob_part :=
  if (2 <=? n) && (n <? U64) then [BlobPart 1 2 digest []; BlobPart 2 (n - 2) digest []] else [].
Definition hub_blob_grants (_ : list byte) (digests : list (list byte)) : M hub transport_error (list blob_grant) := fun h =>
  (Ok ((fun x => BlobGrant x.1 x.2 [] [] 2 (hub_blob_parts x.1 x.2) []) <$>
     List.filter (fun x => bool_decide (x.1 ∈ digests)) (owed_in blob_lane h)), h).
Definition hub_upload_part (part : blob_part) (bytes : list byte) : M hub transport_error (list byte) := fun h =>
  match hub_quota h with
  | O => (Err (refuses (bstr "quota")), h)
  | S quota =>
      (Ok (sha256 bytes), Hub (hub_held h) (hub_manifest h) (hub_parts h ++ [(bp_url part, bytes)]) quota
         (hub_polls h) (hub_head h))
  end.
Definition hub_report_parts (_ digest : list byte) (_ : list blob_part_report) : M hub transport_error unit := fun h =>
  let whole := concat (List.filter (fun p => bool_decide (p.1 = digest)) (hub_parts h)).*2 in
  if bool_decide (sha256 whole = digest) then (Ok tt, hub_add [whole] h) else (Err (refuses (bstr "digest")), h).
Definition hub_complete (_ : list byte) : M hub transport_error complete_status := fun h =>
  match owed_in (fun _ => true) h, hub_manifest h, hub_polls h with
  | [], Some _, S polls =>
      (Ok (Incomplete (bstr "promoting") 1 2),
       Hub (hub_held h) (hub_manifest h) (hub_parts h) (hub_quota h) polls (hub_head h))
  | [], Some manifest, O =>
      (Ok Promoted, Hub (hub_held h ++ [manifest]) None [] (hub_quota h) O (Some (sha256 manifest)))
  | _, _, _ => (Ok (CFailed (bstr "incomplete")), h)
  end.
Definition hub_download_grants (digests : list (list byte)) : M hub transport_error (list download_grant) := fun h =>
  (Ok (omap (fun d => (fun b => DownloadGrant d (zlen b) []) <$> hub_find d h) digests), h).
Definition hub_download (served : list (list byte)) (grant : download_grant) (h : hub)
  : list (list byte) * result transport_error Z * hub :=
  match hub_find (dg_digest grant) h with
  | Some b =>
      if bool_decide (b ∈ served) && (zlen b <? U64) then ([b], Ok (zlen b), h)
      else ([], Err (refuses (bstr "withheld")), h)
  | None => ([], Err (refuses (bstr "absent")), h)
  end.

(** The hub, serving some strings only. *)
Definition hub_transport (served : list (list byte)) : SyncTransport hub.
Proof.
  refine {| t_declare := hub_declare; t_pack_grants := hub_pack_grants; t_upload_pack := hub_upload_pack;
    t_blob_grants := hub_blob_grants; t_upload_blob_part := hub_upload_part; t_report_blob_parts := hub_report_parts;
    t_complete := hub_complete; t_head := fun h => (Ok (hub_head h), h); t_download_grants := hub_download_grants;
    t_download := hub_download served; t_sink_failed := fun _ => TE_Io (bstr "sink") |}.
  - intros manifest head h plan h' Hd. unfold hub_declare in Hd. destruct (decode manifest); [|done].
    injection Hd as <- _. by split.
  - intros sid digests h grants h' Hg. unfold hub_blob_grants in Hg. injection Hg as <- _.
    apply Forall_fmap, Forall_forall. intros x _. unfold hub_blob_parts. cbn [compose bg_parts].
    destruct (Z.leb_spec 2 x.2), (Z.ltb_spec x.2 U64); cbn [andb]; repeat constructor; cbn; unfold U64 in *; lia.
  - intros sid h code promoted total h' Hc. unfold hub_complete in Hc.
    destruct (owed_in _ h), (hub_manifest h), (hub_polls h); try done. injection Hc as _ <- _ _. by split.
  - intros grant h. unfold hub_download. destruct (hub_find _ h) as [b|]; [|done].
    destruct (bool_decide (b ∈ served)), (Z.ltb_spec (zlen b) U64); cbn; rewrite ?app_nil_r; done.
Defined.

Lemma hub_serves served grant h : concat (hub_download served grant h).1.1 ∈ [] :: served.
Proof.
  unfold hub_download. destruct (hub_find _ h) as [b|]; [|cbn; left]. case_bool_decide; [|cbn; left].
  destruct (zlen b <? U64); cbn; [right; by rewrite app_nil_r|left].
Qed.

(** *** It settles *)

Definition hub_debt (h : hub) : Z := zlen (owed_in pack_lane h).
Definition hub_room (h : hub) : Z := Z.of_nat (hub_quota h).

Lemma filter_fewer {A} (p q : A -> bool) l :
  (forall x, p x = true -> q x = true) -> zlen (List.filter p l) <= zlen (List.filter q l).
Proof.
  intros Hpq. induction l as [|x l IH]; cbn; [lia|]. specialize (Hpq x).
  destruct (p x), (q x); rewrite ?zlen_cons; try lia.
Qed.

Lemma hub_add_debt strings h : hub_debt (hub_add strings h) <= hub_debt h.
Proof.
  apply filter_fewer. intros x [-> Hb]%andb_true_iff. cbn. apply bool_decide_eq_true in Hb. apply bool_decide_eq_true.
  unfold hub_find in *. cbn [hub_held hub_add] in Hb. apply fmap_None in Hb. apply fmap_None.
  apply list_find_None in Hb. apply list_find_None. by apply Forall_app in Hb as [? _].
Qed.

Lemma hub_settles served : settling (H := hub_transport served) hub_debt hub_room.
Proof.
  constructor; cbn.
  - intros h. unfold hub_room. lia.
  - intros manifest head h. unfold hub_declare. by destruct (decode manifest).
  - intros manifest head h plan h' Hd. unfold hub_declare in Hd. destruct (decode manifest); [|done]. by injection Hd as <- <-.
  - done.
  - intros sid h g h' Hg. unfold hub_pack_grants in Hg. by injection Hg as <- <-.
  - intros grant pack h. unfold hub_upload_pack. destruct (pack_decode pack) as [[p|]|]; [|done..].
    case_bool_decide; [apply hub_add_debt|done].
  - done.
  - intros part bytes h. unfold hub_upload_part, hub_room. destruct (hub_quota h) eqn:E; cbn; [rewrite E; lia|].
    split; [done|lia].
  - intros sid digest parts h. unfold hub_report_parts. cbv zeta.
    case_bool_decide; cbn [snd]; [split; [apply hub_add_debt|done]|done].
Qed.

(** ** A push, then a pull *)

Definition xy : list byte := bstr "xy".
Definition pushed_snapshot : snapshot :=
  Snapshot None [(bstr "f", File false (Blob 3 abc_digest)); (bstr "g", File true (Blob 2 (sha256 xy)))].
Definition pushed_manifest : list byte := to_bytes pushed_snapshot.
Definition pushed_id : list byte := sha256 pushed_manifest.
Definition pushed_strings : list (list byte) := [abc; xy; pushed_manifest].
Definition with_xy : world := (store (put_bytes xy) with_abc).2.
Definition source : world := (adopt_snapshot pushed_manifest with_xy).2.
Definition empty_hub : hub := Hub [] None [] 8 3 None.
#[local] Instance demo_hub : SyncTransport hub := hub_transport pushed_strings.

Definition at_source : session hub := Session source empty_hub [].
Definition pushing : result sync_error push_report * session hub :=
  push_snapshot 32 pushed_id None default_options at_source.
Definition at_reader : session hub := Session opened (se_remote pushing.2) [].
Definition pulling_run : result sync_error pull_report * session hub := pull_snapshot pushed_id at_reader.

(** One object in each lane, four polls; then the manifest and both objects. *)
Example push_then_pull :
  pushing.1 = Ok (PushReport 2 5 1 1 2 0 4 2) /\
  pulling_run.1 = Ok (PullReport 2 5 0) /\
  (pull_head at_reader).1 = Ok (pushed_id, PullReport 2 5 0) /\
  objects (w_disk (se_world pulling_run.2)) !! abc_digest = Some (Regular abc true).
Proof. split_and!; vm_compute; reflexivity. Qed.

#[local] Existing Instances sample_json stable_sort.

Lemma source_inv : inv source.
Proof.
  apply reachable_inv. eapply reachable_step; [eapply reachable_step; [exact with_abc_reachable|]|].
  - apply (step_put xy with_abc). by vm_compute.
  - apply (step_adopt pushed_manifest with_xy); [by vm_compute|]. intros other ro Ho.
    assert (objects (w_disk with_xy) !! sha256 pushed_manifest = None) as Hn by (vm_compute; reflexivity).
    rewrite Hn in Ho. discriminate Ho.
Qed.
Lemma opened_inv : inv opened.
Proof. apply reachable_inv. by apply reachable_fresh. Qed.

Lemma pushed_decodes : decode pushed_manifest = Ok pushed_snapshot.
Proof.
  destruct (answered (fun s => bool_decide (s_parent s = None) && bool_decide (s_entries s = s_entries pushed_snapshot))
    (decode pushed_manifest)) as ([parent entries] & -> & Hs); [vm_compute; reflexivity|].
  apply andb_true_iff in Hs as [Hp%bool_decide_eq_true He%bool_decide_eq_true]. cbn [s_parent s_entries] in Hp, He. by subst.
Qed.
Lemma pushed_wf : wf_snapshot pushed_snapshot.
Proof. by destruct (decode_sound pushed_manifest pushed_snapshot ltac:(by vm_compute) pushed_decodes) as (_ & Hwf & _). Qed.

Lemma push_is_honest_witness :
  pushing.1 = Ok (PushReport 2 5 1 1 2 0 4 2) /\ last (se_log pushing.2) = Some (EComplete (Ok Promoted)).
Proof.
  assert (pushing.1 = Ok (PushReport 2 5 1 1 2 0 4 2)) as E by (vm_compute; reflexivity). split; [exact E|].
  pose proof (push_is_honest 32 pushed_id None default_options at_source source_inv) as Hp. cbn zeta in Hp.
  change (push_snapshot 32 pushed_id None default_options at_source) with pushing in Hp.
  destruct pushing as [r s']. cbn [fst snd] in E |- *. subst r. destruct Hp as (_ & _ & [[[e [=]] _]|Hp]).
  destruct Hp as (lease & decoded & sent & polls & _ & _ & _ & _ & Hlog & _ & _ & _ & Hlast).
  specialize (Hlast _ eq_refl). rewrite Hlog, app_assoc.
  destruct polls as [|e polls _] using rev_ind; [done|]. rewrite last_snoc in Hlast. by rewrite app_assoc, last_snoc.
Defined.

Lemma pushed_strings_free : collision_free (fun b => b ∈ [] :: pushed_strings).
Proof. apply listed_collision_free. vm_compute. reflexivity. Qed.

Lemma pull_is_verified_witness :
  pulling_run.1 = Ok (PullReport 2 5 0) /\ inv (se_world pulling_run.2) /\
  w_db (se_world pulling_run.2) = insert_snapshot pushed_id 0 fresh_db.
Proof.
  assert (pulling_run.1 = Ok (PullReport 2 5 0)) as E by (vm_compute; reflexivity). split; [exact E|].
  pose proof (pull_is_verified (fun b => b ∈ [] :: pushed_strings) pushed_id at_reader opened_inv pushed_strings_free
    ltac:(split; [intros digest n Hd|intros digest bytes ro Hd]; discriminate Hd)
    (hub_serves pushed_strings)) as Hp. cbn zeta in Hp.
  change (pull_snapshot pushed_id at_reader) with pulling_run in Hp.
  destruct pulling_run as [r s']. cbn [fst snd] in E |- *. subst r. destruct Hp as (Hi & _ & Hd & _). by split.
Defined.

Definition pushed_fuel : nat := Z.to_nat (push_rounds default_options 8 2).
Lemma push_terminates_witness :
  (push_snapshot pushed_fuel pushed_id None default_options at_source).1 <> Err SY_OutOfFuel.
Proof.
  apply (push_terminates hub_debt hub_room pushed_fuel pushed_id None default_options at_source source_inv
    (hub_settles pushed_strings)).
  intros snap (bytes & ro & Hb & Hd).
  assert (objects (w_disk source) !! pushed_id = Some (Regular pushed_manifest true)) as Hm by (vm_compute; reflexivity).
  cbn [se_world at_source] in Hb. rewrite Hm in Hb. injection Hb as <- <-. rewrite pushed_decodes in Hd. injection Hd as <-.
  change (hub_room (se_remote at_source)) with 8. replace (zlen (data_closure pushed_snapshot)) with 2 by (by vm_compute).
  unfold pushed_fuel. lia.
Defined.

Lemma packs_hold_missing_witness :
  assemble 2 [(sha256 xy, 2)] = [[(sha256 xy, 2)]] /\ exists pack, Tfp1.encode [(sha256 xy, xy)] = Ok pack.
Proof.
  assert (assemble 2 [(sha256 xy, 2)] = [[(sha256 xy, 2)]]) as E by (vm_compute; reflexivity). split; [exact E|].
  destruct (packs_hold_missing pushed_snapshot [(sha256 xy, 2)] [(abc_digest, 3)] 2 pushed_wf ltac:(done)
    ltac:(vm_compute; reflexivity)) as (_ & _ & _ & Hp).
  apply (Hp [(sha256 xy, 2)]); [rewrite E; left|]. by repeat constructor.
Defined.

(** ** A remote that keeps a push going *)

(** It grants every blob in two parts, takes the first, lets the grant expire
    before the second, and never lists a part as landed. *)
Definition forgetful : SyncTransport unit.
Proof.
  refine {| t_declare _ _ r := (Err (refuses []), r); t_pack_grants _ _ r := (Err (refuses []), r);
    t_upload_pack _ _ r := (Err (refuses []), r);
    t_blob_grants _ digests r := (Ok ((fun d => BlobGrant d 3 [] [] 2 (hub_blob_parts d 3) []) <$> digests), r);
    t_upload_blob_part part _ r := (if bp_part_number part =? 1 then Ok (bstr "etag") else Err (TE_Expired []), r);
    t_report_blob_parts _ _ _ r := (Ok tt, r); t_complete _ r := (Err (refuses []), r);
    t_head r := (Ok None, r); t_download_grants _ r := (Ok [], r);
    t_download _ r := ([], Err (refuses []), r); t_sink_failed _ := TE_Io [] |}; try done.
  intros sid digests r grants r' Hg. injection Hg as <- _. apply Forall_fmap, Forall_forall. intros d _. by repeat constructor.
Defined.

Lemma abc_opens : open_object abc_digest (w_disk with_abc) = (Ok abc, w_disk with_abc).
Proof. vm_compute. reflexivity. Qed.
Lemma abc_measures : io (query (fun _ => Ok (zlen abc))) (w_disk with_abc) = (Ok 3, w_disk with_abc).
Proof. vm_compute. reflexivity. Qed.
Lemma abc_reads start n :
  (start, n) ∈ [(0, 2); (2, 1)] ->
  io (records_read (records_source_new [Data abc_digest 3]) start n) (w_disk with_abc)
    = (Ok (slice abc start (start + n)), w_disk with_abc).
Proof.
  intros Hin. repeat (apply elem_of_cons in Hin as [[= -> ->]|Hin]; [vm_compute; reflexivity|]). by apply not_elem_of_nil in Hin.
Qed.

#[local] Existing Instance forgetful.
Definition pending_abc : owed := [(abc_digest, 3)].

Lemma local_at {A} (m : M disk store_error A) a log :
  m (w_disk with_abc) = (Ok a, w_disk with_abc) -> local m (Session with_abc tt log) = (Ok a, Session with_abc tt log).
Proof.
  intros Hm. unfold local, on_world, on_disk, map_err_m. cbn [se_world]. destruct with_abc as [d D G]. cbn [w_disk] in Hm.
  cbn [disk_of set_disk world_has_disk w_disk]. by rewrite Hm.
Qed.
Lemma call_at {A} (e : answer A -> event) (op : M unit transport_error A) log :
  call e op (Session with_abc tt log) = ((op tt).1, Session with_abc tt (log ++ [e (op tt).1])).
Proof.
  unfold call. cbn [se_world]. replace (alive (w_disk with_abc)) with true by (vm_compute; reflexivity).
  replace (outcomes (w_disk with_abc)) with (@nil outcome) by (vm_compute; reflexivity). cbn [negb se_remote].
  destruct (op tt) as [x []]. done.
Qed.

(** A round lands a part and leaves the same blob pending. *)
Lemma forgetful_round options sid report log :
  exists log', for_m (push_batch options sid) (report, []) (chunks BLOB_GRANT_BATCH pending_abc) (Session with_abc tt log)
    = (Ok (count_part report, pending_abc), Session with_abc tt log').
Proof.
  change (chunks BLOB_GRANT_BATCH pending_abc) with [pending_abc]. cbn [for_m]. unfold bind at 1, push_batch.
  rewrite call_at. cbn [t_blob_grants forgetful fst]. set (log1 := log ++ _).
  change (pending_abc.*1) with [abc_digest]. cbn [fmap list_fmap pending_abc for_m].
  unfold bind at 1, push_batch_blob. cbn [list_find]. rewrite decide_True by done.
  unfold push_one_blob, bind. cbn [bg_length bg_digest bg_parts bg_uploaded_parts]. change (negb (3 =? 3)) with false. cbv zeta.
  change (negb (foldl _ 0 (hub_blob_parts abc_digest 3) =? 3)) with false. cbv iota.
  cbv beta. rewrite (local_at _ _ log1 abc_opens). cbv beta iota. rewrite (local_at _ _ log1 abc_measures). cbv beta iota.
  change (negb (3 =? 3)) with false. cbv iota.
  change (hub_blob_parts abc_digest 3) with [BlobPart 1 2 abc_digest []; BlobPart 2 1 abc_digest []].
  cbn [push_parts]. unfold bind. cbn [bp_part_number bp_size_bytes]. rewrite bool_decide_eq_false_2 by apply not_elem_of_nil.
  cbv beta. rewrite (local_at _ _ log1 (abc_reads 0 2 ltac:(left))). cbv beta iota. unfold upload_fuel. cbn [upload_part_loop].
  rewrite call_at. cbn [t_upload_blob_part forgetful fst bp_part_number]. change (1 =? 1) with true. cbv iota. set (log2 := log1 ++ _).
  rewrite bool_decide_eq_false_2 by apply not_elem_of_nil. change (wadd 0 2) with 2.
  cbv beta. rewrite (local_at _ _ log2 (abc_reads 2 1 ltac:(right; left))). cbv beta iota. rewrite call_at.
  cbn [t_upload_blob_part forgetful fst bp_part_number]. change (2 =? 1) with false. cbv iota. set (log3 := log2 ++ _).
  unfold report_landed. rewrite bool_decide_eq_false_2 by done. unfold asked, map_err_m. rewrite call_at.
  cbn [t_report_blob_parts forgetful fst map_err]. eexists. reflexivity.
Qed.

(** However many rounds the lane is given, however small the caller's budget of
    stalled rounds, it is still pushing the same two bytes. *)
Theorem blob_lane_outlasts_budget options sid stalled report log fuel :
  0 <= blob_parts report -> blob_parts report + Z.of_nat fuel < U64 ->
  (push_blob_lane fuel options sid stalled pending_abc report (Session with_abc tt log)).1 = Err SY_OutOfFuel.
Proof.
  revert stalled report log. induction fuel as [|fuel IH]; intros stalled report log Hp Hf; [done|].
  cbn [push_blob_lane pending_abc]. fold pending_abc. cbv zeta. unfold bind at 1.
  destruct (forgetful_round options sid report log) as [log' ->].
  cbn [blob_parts count_replan count_part]. rewrite wadd_small by lia.
  replace (blob_parts report <? blob_parts report + 1) with true by lia. cbn [orb].
  apply IH; cbn [blob_parts count_replan count_part]; rewrite wadd_small by lia; lia.
Qed.
