(* ===== verification/LayoutRuns.v ===== *)
(** Concrete projections ([src/crates/tensorfs-core/src/layout.rs]): a snapshot of
    two files projected, pointed at by a ref, and the debris of other writers
    scrubbed and reaped. *)
From S2P Require Import Runs SyncRuns.
From S2P Require Export LayoutReap.

#[local] Existing Instances toy_sha ascii_unicode reversed sqlite_rowid ample_memory.
#[local] Instance nowhere : Following := {| follow _ _ _ := false |}.

Definition bare : projected := Projected source None None 0.
Definition projecting : result layout_error (list byte) * projected := project true pushed_snapshot bare.

Lemma pushed_snapshot_id : snapshot_id pushed_snapshot = pushed_id.
Proof. vm_compute. reflexivity. Qed.

Lemma project_is_atomic_witness :
  projecting.1 = Ok (hex_of pushed_id) /\
  exists t, entry_at Snapshots (hex_of pushed_id) projecting.2 = Some t /\ tree_of pushed_snapshot t.
Proof.
  pose proof (project_is_atomic true pushed_snapshot bare pushed_wf (sf_clean _ _ source_inv)) as Hp. cbv zeta in Hp.
  rewrite pushed_snapshot_id in Hp. change (project true pushed_snapshot bare) with projecting in Hp.
  assert (projecting.1 = Ok (hex_of pushed_id)) as E by (vm_compute; reflexivity). split; [exact E|].
  destruct projecting as [r p]. cbn [fst snd] in *. subst r. destruct Hp as (_ & [Hsame|Hp] & _ & [t Ht]); [|done].
  rewrite Hsame in Ht. discriminate Ht.
Defined.

Definition main : list byte := bstr "main".
Definition pointing : result layout_error unit * projected := set_ref main pushed_id projecting.2.

Lemma set_ref_is_atomic_witness :
  pointing.1 = Ok tt /\ read_ref main pointing.2 = (Ok (Some pushed_id), pointing.2).
Proof.
  assert (pointing.1 = Ok tt) as E by (vm_compute; reflexivity). split; [exact E|].
  pose proof (set_ref_is_atomic main pushed_id projecting.2 ltac:(vm_compute; reflexivity)) as Hp.
  change (set_ref main pushed_id projecting.2) with pointing in Hp.
  assert (alive (disk_of pointing.2) = true) as Ha by (vm_compute; reflexivity).
  assert (outcomes (disk_of pointing.2) = []) as Ho by (vm_compute; reflexivity).
  destruct pointing as [r p]. cbn [fst snd] in *. subst r. destruct Hp as (_ & _ & Hr). destruct (Hr eq_refl) as [He Hread].
  by apply Hread.
Defined.

(** A tree of no snapshot, and a ref to it. *)
Definition stray : list byte := sha256 abc.
Definition littered : projected :=
  Projected source (Some {[hex_of stray := {[[] := FDir]}]}) (Some {[main := ref_file stray]}) 0.
Lemma scrub_correct_witness :
  entry_at Snapshots (hex_of stray) (scrub littered).2 = None /\ entry_at Refs main (scrub littered).2 = None.
Proof.
  pose proof (scrub_correct littered) as Hs. cbv zeta in Hs.
  assert (exists report, (scrub littered).1 = Ok report) as [report E] by (eexists; vm_compute; reflexivity).
  destruct (scrub littered) as [r p]. cbn [fst snd] in *. subst r. destruct Hs as (_ & _ & Hs).
  destruct (Hs ltac:(split; vm_compute; reflexivity) report eq_refl) as [Ht Hr]. split.
  - apply Ht; vm_compute; reflexivity.
  - apply Hr; vm_compute; reflexivity.
Defined.

(** Two trees being built, by a process that is alive and by one that is not. *)
Definition token7 : list byte := bstr "7-0-0".
Definition token8 : list byte := bstr "8-0-0".
Definition lease (holder : option Z) : temp_file := TempFile [] 0 None true false holder.
Definition building_dir : gmap (list byte) tree :=
  {[BUILDING_PREFIX ++ token7 := {[[] := FDir]}; BUILDING_PREFIX ++ token8 := {[[] := FDir]}]}.
Definition busy : projected :=
  Projected (set_disk (with_temps (fun _ => {[lease_path token7 := lease (Some 7); lease_path token8 := lease None]})
    (w_disk source)) source) (Some building_dir) None 0.
Lemma reap_keeps_live_scratch_witness :
  entry_at Snapshots (BUILDING_PREFIX ++ token7) (reap_scratch busy).2 = Some {[[] := FDir]} /\
  entry_at Snapshots (BUILDING_PREFIX ++ token8) (reap_scratch busy).2 = None.
Proof.
  split; [|vm_compute; reflexivity].
  destruct (reap_keeps_live_scratch token7 busy) as [Ht _].
  { split; [vm_compute; constructor|]. exists (lease (Some 7)). split; [vm_compute; reflexivity|]. by eexists. }
  rewrite Ht. vm_compute. reflexivity.
Defined.

(** A lease that was created and is not yet locked is taken for a dead writer's. *)
Lemma fresh_lease_reaped : temps (disk_of (reap_scratch busy).2) !! lease_path token8 = None.
Proof. vm_compute. reflexivity. Qed.
