(* ===== verification/HttpRuns.v ===== *)
(** Concrete hubs behind the HTTP adapter ([src/crates/tensorfs-core/src/sync.rs],
    module [http]): a snapshot pulled over HTTP, and downloads that are short, long
    or broken. *)
From S2P Require Import Runs Composition SyncRuns Http.

#[local] Existing Instances toy_sha ascii_unicode reversed sqlite_rowid ample_memory.

(** ** A hub of fixed answers *)

(** The texts it sends are the names of what they parse to. *)
Definition ref_value (digest : list byte) : json := JString (tagged digest).
Definition get_value (bytes : list byte) : json :=
  object [(bstr "digest", ref_value (sha256 bytes)); (bstr "size_bytes", nat_value (zlen bytes));
          (bstr "get_url", JString (bstr "get/" ++ to_hex (sha256 bytes)))].
Definition plan_value : json :=
  object [(bstr "snapshot_id", JString (to_hex pushed_id)); (bstr "session_id", JString (bstr "s1"));
          (bstr "stage", JString (bstr "uploading")); (bstr "have", JArray [ref_value (sha256 xy)]);
          (bstr "missing", JArray [object [(bstr "digest", ref_value abc_digest); (bstr "size_bytes", nat_value 3)]]);
          (bstr "max_pack_payload", nat_value 64)].
Definition web_texts : list (list byte * json) :=
  [(bstr "head", object [(bstr "snapshot_id", JString (to_hex pushed_id))]);
   (bstr "grants", object [(bstr "grants", JArray (get_value <$> pushed_strings))]);
   (bstr "plan", plan_value);
   (bstr "gone", object [(bstr "error", object [(bstr "code", JString (bstr "session_expired"))])]);
   (bstr "promoted", object [(bstr "stage", JString (bstr "promoted")); (bstr "promoted", nat_value 2)])].
#[local] Instance web_json : WireText := {|
  json_from_str text := match list_find (fun x => x.1 = text) web_texts with Some (_, (_, v)) => Ok v | None => Err (bstr "syntax") end;
  json_to_string _ := bstr "json"; serde_error kind _ := kind; debug_text s := s; base64_standard b := b
|}.

Definition says (status : Z) (text : list byte) : result ureq_error response :=
  Ok (Response status (fun _ => None) (Ok text) [text] None).
(** The bodies a download can have: whole, in pieces, short, long, or broken off. *)
Definition web_body (url : list byte) : option response :=
  let body := fun chunks broken => Some (Response 200 (fun _ => None) (Err []) chunks broken) in
  if bool_decide (url = bstr "long") then body [bstr "ab"; bstr "cd"] None
  else if bool_decide (url = bstr "short") then body [bstr "ab"] None
  else if bool_decide (url = bstr "broken") then body [bstr "abc"] (Some (bstr "reset"))
  else
    match list_find (fun b => bstr "get/" ++ to_hex (sha256 b) = url) pushed_strings with
    | Some (_, bytes) => body [take 1 bytes; drop 1 bytes] None
    | None => None
    end.
#[local] Instance web : Carrier unit := {|
  c_send _ method url _ _ r :=
    (if ends_with (bstr "snapshot-sync") url then says 201 (bstr "plan")
     else if ends_with (bstr "/head") url then says 200 (bstr "head")
     else if ends_with (bstr "/download-grants") url then says 200 (bstr "grants")
     else if ends_with (bstr "/s1/complete") url then says 200 (bstr "promoted")
     else if ends_with (bstr "/complete") url then Err (Status 410 (Response 410 (fun _ => None) (Ok (bstr "gone")) [] None))
     else match web_body url with Some b => Ok b | None => Err (Transport (bstr "refused")) end, r);
  c_buffers _ _ _ _ := [2; 2; 2];
  c_token_file _ _ := Ok (bstr " token ");
  c_sink_text _ := bstr "sink"
|}.

Definition demo : http_transport := with_token (TokenFile (bstr "token")) (http_new (bstr "http://hub//") (bstr "org") (bstr "repo")).
#[local] Instance demo_sync : SyncTransport unit := http_sync demo.

(** The store of an empty process after a pull over HTTP. *)
Definition http_pulling : result sync_error (list byte * pull_report) * session unit := pull_head (Session opened tt []).
Example pull_over_http :
  http_pulling.1 = Ok (pushed_id, PullReport 2 5 0) /\
  objects (w_disk (se_world http_pulling.2)) !! abc_digest = Some (Regular abc true).
Proof. split; vm_compute; reflexivity. Qed.

(** A completion of an expired session is an expiry, which the engine replans. *)
Example expired_session : (complete demo (bstr "s0") tt).1 = Err (TE_Expired (bstr "session_expired")).
Proof. vm_compute. reflexivity. Qed.

(** *** Witnesses *)

Lemma download_exact_witness :
  (download demo (DownloadGrant abc_digest 3 (bstr "get/" ++ to_hex abc_digest)) tt).1.2 = Ok 3 /\
  (download demo (DownloadGrant abc_digest 3 (bstr "long")) tt).1.2 <> Ok 3 /\
  (download demo (DownloadGrant abc_digest 3 (bstr "broken")) tt).1.2 <> Ok 3.
Proof.
  split_and!.
  - eapply (download_exact demo (DownloadGrant abc_digest 3 (bstr "get/" ++ to_hex abc_digest)) tt); [by split|vm_compute; reflexivity|done|].
    split; vm_compute; reflexivity.
  - intros Hd. eapply (download_exact demo (DownloadGrant abc_digest 3 (bstr "long")) tt) in Hd as [Hl _]; [|by split|vm_compute; reflexivity|done].
    vm_compute in Hl. discriminate Hl.
  - intros Hd. eapply (download_exact demo (DownloadGrant abc_digest 3 (bstr "broken")) tt) in Hd as [_ He]; [|by split|vm_compute; reflexivity|done].
    vm_compute in He. discriminate He.
Defined.

Definition web_plan : sync_plan := SyncPlan pushed_id (bstr "s1") [sha256 xy] [] [(abc_digest, 3)] [] 64 0.
Ltac at_field := eexists; split; [vm_compute; reflexivity|].
Lemma plan_value_spells : spells_plan web_plan plan_value.
Proof.
  eexists. split; [reflexivity|]. split_and!.
  - at_field. by split; vm_compute.
  - at_field. done.
  - at_field. eexists. split; [vm_compute; reflexivity|]. constructor; [|constructor]. by split; vm_compute.
  - by vm_compute.
  - unfold field_or. vm_compute bt_get. eexists. split; [reflexivity|]. constructor; [|constructor].
    eexists. split; [reflexivity|]. split; at_field; by split; vm_compute.
  - by vm_compute.
  - by split.
  - by vm_compute.
Qed.
Lemma answers_understood_witness :
  declare demo pushed_manifest None tt = (Ok web_plan, tt) /\ complete demo (bstr "s1") tt = (Ok Promoted, tt).
Proof.
  split.
  - apply (answers_understood demo tt tt plan_value); [|exact plan_value_spells].
    apply exchange_answers. vm_compute. reflexivity.
  - apply (answers_understood demo tt tt (object [(bstr "stage", JString (bstr "promoted")); (bstr "promoted", nat_value 2)])) with (status := 200);
      [apply exchange_answers; vm_compute; reflexivity|].
    eexists. split; [reflexivity|]. split_and!; [done|by at_field|done|by exists 2|done].
Defined.
